(* ===== verification/_CoqProject ===== *)
-Q . S2P
Prelude.v
Types.v
Outcome.v
BigEndian.v
FrameProtocol.v
PoolProtocol.v
QueueProtocol.v
ShmProtocol.v
ControlProtocol.v
ProtocolTheorems.v
PoolLayout.v
MemoryPool.v
PoolSpec.v
PoolReferences.v
PoolCreation.v
MemoryPoolView.v
SharedMemory.v
PoolTheorems.v
SocketIo.v
SubscriberQueue.v
QueueTheorems.v
PublisherState.v
Publisher.v
PublisherInvariant.v
PublisherReleases.v
PublisherMethods.v
PublisherCalls.v
PublisherUds.v
PublisherLifecycle.v
LoanedSample.v
PublisherLoans.v
PublisherTheorems.v
UnixListener.v
SampleView.v
SubscriberState.v
Subscriber.v
SubscriberInvariant.v
SubscriberFrames.v
SubscriberMethods.v
SubscriberStreams.v
SubscriberRuns.v
SubscriberLifecycle.v
SubscriberTheorems.v
EndToEnd.v
RegistryState.v
RegistryInvariant.v
RegistryOps.v
RegistryLiveness.v
RegistryInterface.v
RegistryTheorems.v
RegistryNames.v
RegistryServer.v
ServerInvariant.v
ServerRequests.v
ServerCleanup.v
ServerLoop.v
ServerTheorems.v
ServerStreams.v
RegistryClient.v
RegistrySession.v
ClientInvariant.v
ClientStreams.v
ClientBodies.v
ClientTheorems.v
SessionTheorems.v
ClientServer.v
Context.v
TypeSupport.v
BridgeConfig.v
ContextTheorems.v
BridgeNodes.v
BridgeTheorems.v
BridgeCreation.v
BridgePrograms.v
BridgeEndToEnd.v
Decimal.v
RegistryDaemon.v
Mwctl.v
Ping.v
PingTheorems.v
