(* ===== verification/Prelude.v ===== *)
(** * Verification of the C++ robot middleware

    The program is a local publish/subscribe middleware for processes on one machine.  A
    publisher puts a message once into a chunk of a shared-memory pool, enqueues a small
    handle of it into the shared-memory queue of every subscriber, and frees the chunk when
    every subscriber has released it; a registry daemon matches publishers and subscribers
    by topic over a Unix-socket control protocol, watches heartbeats, and cleans up after
    processes that died.  This library models that program in Rocq, definition by definition,
    and proves what makes each part correct.

    ** The parts, and where they are modelled

    - [Types]: error codes, transport, overflow policy, liveness and pool configuration,
      descriptors and handles ([middleware/include/mw/result.hpp], [config.hpp], the structs of
      [detail/pool_protocol.hpp] and [queue_protocol.hpp]).  A C++ enum can hold any value of
      its underlying type, so each has an [_other] constructor and [_to_u16]/[_of_u16] casts.
    - [Outcome]: what a C++ computation does: it returns, throws or is undefined ([outcome]);
      [cpp S A] is a method on an object of type [S].  Out-of-range vector or pointer accesses
      are [Undef], never a default value.
    - [BigEndian], [FrameProtocol], [PoolProtocol], [QueueProtocol], [ShmProtocol],
      [ControlProtocol]: the frames on the sockets ([detail/frame_protocol], [pool_protocol],
      [queue_protocol], [shm_protocol] and [control_protocol], [.hpp] and [.cpp]), as byte lists,
      with [PayloadWriter] and [PayloadReader] as methods.
    - [PoolLayout], [MemoryPool], [MemoryPoolView]: [detail/memory_pool.cpp]: the checked layout
      arithmetic, the pool as a record of the descriptor, the segment (its bytes and the chunk
      headers in it), size classes, directory, free lists and counters, one definition per
      method; and the subscriber's read-only view of the segment, which another process may
      have filled with anything.
    - [SharedMemory]: [SharedMemoryRegion] and [UniqueFd] over an interface [PosixShm] of the
      POSIX calls with their documented laws [PosixShmLaws].
    - [SocketIo]: the loops that read and write exactly ([detail/socket_io.hpp], [.cpp]), with the
      operation they repeat as a parameter.
    - [SubscriberQueue]: [detail/subscriber_queue.cpp]: the ring of handles in shared memory with
      its robust mutex (the result of locking, owner death included, is an argument), the three
      overflow policies, blocking with wake-ups by other processes ([wait_env]), draining,
      discarding, recovery, attachment counting.
    - [PublisherState], [Publisher]: [middleware/src/publisher.cpp] and the connecting half of
      [detail/unix_socket.cpp].  A method acts on a [PubState]: the fields of [Publisher::Impl]
      and the sockets and shared queues it reaches ([World]).  The answers of the kernel, the
      clock, the registry and the locks during one public call are the record [call_env]; the
      pool and the queues are those of [MemoryPool] and [SubscriberQueue], not abstractions.
    - [LoanedSample]: [loaned_sample.cpp], over the interface [LoanedSampleOwner] of
      [detail/loaned_sample_owner.hpp] with its contract [OwnerContract]; [PublisherLoans]:
      [Publisher::loan], the publisher as such an owner, and runs of an application.
    - [UnixListener]: the listening half of [detail/unix_socket.cpp]: binding, accepting, moving,
      and the socket file and descriptor a listener owns.
    - [SubscriberState], [Subscriber]: [middleware/src/subscriber.cpp].  A method acts on the fields of
      [Subscriber::Impl] and on state it shares with other processes (the queue, the pool segment,
      the sockets); those processes may change it before every access ([Kernel] lists their
      interference with the answers of the kernel), so that nothing is assumed to stay put
      between two accesses.
    - [SampleView]: [sample_view.cpp] and [detail/sample_release_context.hpp].
    - [RegistryState]: [registry/src/registry_state.cpp]: nodes, topics and endpoints with every
      method, over [gmap]s; iteration over a [std::map] or [std::set] is iteration in key order.
    - [RegistryServer]: [registry/src/registry_server.cpp]: connections, the frame loop, one handler per
      request on top of [RegistryState], pending discoveries, cleanup after dead nodes, and
      [pollOnce]; a round is what one return of [epoll_wait] leads to.
    - [RegistryClient]: [detail/registry_client.cpp]: requests with the wait for their response, and the
      readers of the response bodies; [RegistrySession]: the session of a node, whose heartbeat
      thread is a state machine ([heartbeat_phase]) that interleaves with the application.
    - [Context]: [middleware/src/context.cpp]: the constructors of publishers and subscribers composed with
      the session that answers them and with the process ([Owner]): its static counters, and the
      destruction of endpoints and contexts.
    - [TypeSupport], [BridgeConfig], [BridgeNodes], [BridgeCreation], [BridgePrograms]: the ROS 2 adapter
      ([ros2_adapter/mw_ros2_adapter], [type_support.cpp], [bridge_config.cpp], [message_codec.hpp],
      [bridge_nodes.cpp] and the two programs).  [rclcpp] is not part of the repository: its serialization is
      the class [RosSerialization] with the laws [RosCodecLaws], its node the record [ros_node],
      [spin] a list of callbacks.
    - [Decimal]: [std::from_chars], [std::stoll] and printing of numbers; [RegistryDaemon]:
      [registry/src/main.cpp]; [Mwctl]: [tools/mwctl/main.cpp]; [Ping]: [examples/ping_common.hpp] and the
      programs [ping_publisher] and [ping_subscriber].

    ** What the theorems show

    - [PoolSpec], [PoolCreation], [PoolTheorems]: the pool refines an abstract machine of chunks
      (free, loaned, published with a reference count, released) for every sequence of calls; a
      sample's life frees its chunk exactly at the last release; stale handles are rejected;
      published bytes are what views read, and stay so while a reference is held; a view never
      reads outside the mapping whatever the segment holds; creation lays chunks out disjoint,
      aligned and inside the segment, and a created pool can be opened.
    - [QueueTheorems]: handles leave the queue in the order they entered, none duplicated, and
      none lost but by the death of an owner of the mutex, which empties the ring, or the discarding
      of a pool; each enqueue does what its policy says to the queue that the others left while it
      was blocked; after an owner death the ring is usable; no method indexes outside the slots even on a
      corrupt ring; counters balance; exactly the last detach destroys the locks.
    - [PoolReferences], [PublisherInvariant], [PublisherReleases], [PublisherMethods],
      [PublisherCalls], [PublisherUds], [PublisherLifecycle], [PublisherLoans],
      [PublisherTheorems]: the references a publisher holds are the entries of its [outstanding]
      lists and the loans are the active samples; every run of an application keeps the pool's
      counts equal to them, so that no chunk leaks or is freed early, and every call returns.
      What a publication, a loan written in place, a release message in fragments, a discovery,
      a dead subscriber and a failed construction do.  The preparation of a publication ([prepare]) only
      gives references back; the result then counts exactly the connections that have the handle
      or were sent the frame, for connections that share their queue or socket with no other ([sole]).
    - [LoanedSample]: the class invariant of a sample, and that each loan ends exactly once for
      any owner that honours the contract.
    - [SubscriberInvariant], [SubscriberFrames], [SubscriberMethods], [SubscriberStreams],
      [SubscriberRuns], [SubscriberLifecycle], [SubscriberTheorems]: a subscriber survives whatever its
      peers do, as long as the ring indices stay inside the slots and the mapped pools keep their size; the receive loop agrees with a reference parser and delivers messages whole and
      in order; a take is all or nothing; views release exactly once; what dead publishers,
      failed constructions and destruction do.  [EndToEnd]: a message from the publisher to the
      subscriber and its chunk back.  [UnixListener], [SampleView]: paths and views are given up
      exactly once.
    - [RegistryInvariant], [RegistryOps], [RegistryLiveness], [RegistryInterface],
      [RegistryTheorems]: every sequence of requests returns (no [std::map::at] throws) and keeps
      names, links and limits consistent; the answers to advertise, subscribe and resolve; an
      unregistered or dead node leaves no trace and its resources and peers are all reported, each
      once; a node that sends its heartbeats in time stays alive, on the connection it attached or on its
      control connection, which needs no attachment; a closed connection that controlled a node
      stays recorded as heartbeat connection of others.
    - [RegistryNames], [ServerInvariant], [ServerRequests], [ServerCleanup], [ServerLoop], [ServerStreams],
      [ServerTheorems]: the server survives whatever clients send, and ends only with an error that
      [accept4] or [epoll_wait] reported; every request gets exactly one response; the requests
      served do not depend on the fragmentation, unless the limit of the input buffer is reached, which
      only happens behind the header of a very large request; discoveries wait and are answered; cleanup releases
      the resources of the dead and tells their peers; output is sent in order.
    - [ClientInvariant], [ClientStreams], [ClientBodies], [ClientTheorems], [SessionTheorems],
      [ClientServer]: the client survives whatever a registry that reads sends, responses reach it whatever the
      fragmentation and carry the values the server put into them, so that a call of the client
      is a call of [RegistryState]; a registry that has stopped reading blocks a request whatever its timeout;
      a request that times out leaves the client behind for good; the peer events of the heartbeat responses
      reach their endpoints in order and once, under every interleaving; sessions unregister when they end or cannot be constructed.
    - [ContextTheorems]: the endpoints of a context are in their invariants with the registry's answers taken
      from its session; the names of pools never collide, within a process or between two.
    - [TypeSupport], [BridgeConfig], [BridgeTheorems], [BridgeCreation], [BridgePrograms]: types and hashes are told
      apart; a configuration that is loaded is one the middleware accepts; nodes are constructed whole or not
      at all; a message is forwarded whole or logged; a poll is bounded; the programs exit and leave
      nothing.  [BridgeEndToEnd]: messages cross from one ROS graph to another.
    - [Decimal], [RegistryDaemon], [Mwctl], [PingTheorems]: printed options are read back; the programs always
      exit, with the status their counts or the registry's answer call for, and leave no path, context or
      session; [mwctl] prints what the registry holds; a ping is received as it was sent.
    - [SharedMemory], [SocketIo], [ProtocolTheorems]: no name, descriptor or mapping leaks;
      transfers are exact under any fragmentation; frames decode to what was encoded, and
      reading arbitrary bytes is total.

    ** Bounds and fuel

    Machine integers are [Z] with explicit [wrap]; [fits w] states a range.  Loops whose
    recursion is not structural carry fuel in [SocketIo], where an operation may be
    interrupted for ever; its theorems give fuel that is enough for every environment that
    interrupts finitely often.  A [socket] of the publisher holds what the kernel answers to
    the next calls, finitely much before [EAGAIN]; its size is the fuel of the loops that drain
    it, and the theorems show that it never runs out ([wp] is total correctness).  [wait_env] lists the
    wake-ups before the deadline, which are finitely many because the deadline passes.  The loops of the
    subscriber, the server and the client are bounded in the same way: by the unread bytes of the
    connection, the returns of [poll], [accept] and [send] to come, the length of the input, the
    number of pending discoveries, the bytes of a response body.  The registry theorems assume
    that the 64-bit id counters have not been used up ([ids_left]): fewer than 2^64 - 2 requests, or
    bytes of requests.  The server theorems assume that [epoll_ctl] does not fail on an open
    descriptor ([interest_failure_is_undefined] shows what happens otherwise); an error of [accept4] or
    [epoll_wait] ends the server.  A [send] of the publisher and the subscriber returns; for the client,
    whose requests are written to a blocking socket without a deadline, a [Link] says whether [send] stops
    returning ([ln_stalled]), and a request that would wait for ever has no outcome ([Undef]).  The
    client theorems assume a clock and a
    timeout for which no deadline overflows 64 bits of nanoseconds.  Pool names are distinct for fewer
    than 2^32 publishers of a process, after which the counter wraps around.

    ** Not modelled

    Memory ordering of the chunk-header atomics (every method of the pool runs under its mutex,
    and the only lock-free reader, [read_view], is modelled on one snapshot of the segment), and the
    failure of allocations.  During one call of a publisher other processes act where it waits,
    in a blocked enqueue and in the polls of the destructor, and between the calls of an
    application ([AppOthers]).  [World] does not record the closing of descriptors.  The application
    keeps to one thread per object, as the classes require; the heartbeat thread is the only one
    of the library's own.  A publisher, subscriber
    or bridge of a program acts on its own copy of what it shares with other processes until it is destroyed.
    Texts on the standard error and in logs, and the quality of service passed to [rclcpp], are not
    represented.  The benchmark programs measure the public interface by the clock and are left out, as is the
    packaging test [examples/external_consumer].

    This file: machine integers, record update, byte buffers, strings and ordered containers,
    with the tactics and hints the other files share. *)

From Stdlib Require Import ZArith Lia List Bool Ascii String.
From stdpp Require Import base gmap list strings sorting option.

Open Scope Z_scope.

(** ** Machine integers

    An unsigned [w]-bit C++ integer is a [Z] with [fits w]; arithmetic that the
    source leaves unchecked goes through [wrap w].  [size_t] is 64 bits wide, as
    on the x86-64 and AArch64 Linux targets of the repository. *)

Definition wrap (w z : Z) : Z := z mod 2 ^ w.
Definition fits (w z : Z) : Prop := 0 <= z < 2 ^ w.
Definition fitsb (w z : Z) : bool := (0 <=? z) && (z <? 2 ^ w).
Definition umax (w : Z) : Z := 2 ^ w - 1.
Abbreviation size_max := (umax 64).
Abbreviation u32_max := (umax 32).
Abbreviation u64_max := (umax 64).

(** ** Record update

    [r <| field := v |>] replaces one field.  A record declares its eta
    expansion; the setter of a field is obtained from it by abstraction. *)

Class Eta (R : Type) := eta_expand : R -> R.
Class Setter {R T : Type} (field : R -> T) := update_with : (T -> T) -> R -> R.
#[export] Hint Mode Setter + + + : typeclass_instances.

Ltac derive_setter R field :=
  let e := eval cbv [eta_expand] in (@eta_expand R _) in
  let e := eval cbv delta [eta_expand] in e in
  let i := lazymatch e with
           | fun _ => _ => e
           | _ => eval red in e
           end in
  lazymatch eval pattern field in i with
  | ?body _ => exact (fun f => body (fun r => f (field r)))
  end.

#[export] Hint Extern 0 (@Setter ?R _ ?field) => derive_setter R field : typeclass_instances.

Declare Scope record_scope.
Delimit Scope record_scope with rec.
Notation "r <| f := v |>" := (update_with (field := f) (fun _ => v) r)
  (at level 12, left associativity) : record_scope.
Open Scope record_scope.

(** ** Byte buffers *)

(** Bytes are [Z] in [0, 256). *)
Definition is_byte (b : Z) : Prop := 0 <= b < 256.

Definition all_bytes (data : list Z) : bool := forallb (fun b => (0 <=? b) && (b <? 256)) data.

(** [n] bytes at [off]; undefined behaviour shows as [None]. *)
Definition read_at (off n : nat) (buf : list Z) : option (list Z) :=
  if decide (off + n <= length buf)%nat then Some (take n (drop off buf)) else None.

(** [std::memcpy] of [data] to [buf + off]; writes outside the buffer are [None]. *)
Definition write_at (off : nat) (data buf : list Z) : option (list Z) :=
  if decide (off + length data <= length buf)%nat
  then Some (take off buf ++ data ++ drop (off + length data) buf)
  else None.

(** The stores into a fixed [std::array], whose offsets are constants. *)
Definition put_at (off : nat) (data buf : list Z) : list Z := default buf (write_at off data buf).
Definition get_at (off n : nat) (buf : list Z) : list Z := take n (drop off buf).

(** [std::string] contents as bytes. *)
Definition byte_of_ascii (a : ascii) : Z := Z.of_N (N_of_ascii a).
Definition ascii_of_byte (b : Z) : ascii := ascii_of_N (Z.to_N b).
Definition string_bytes (s : string) : list Z := map byte_of_ascii (list_ascii_of_string s).
Definition bytes_string (bs : list Z) : string := string_of_list_ascii (map ascii_of_byte bs).
Definition string_size (s : string) : Z := Z.of_nat (String.length s).

(** ** Ordered containers

    [std::set<uint64_t>] and [std::map<uint64_t, T>] iterate in increasing key
    order; a [gset] or [gmap] is listed in that order by sorting its keys. *)

Definition set_elements (X : gset Z) : list Z := merge_sort Z.le (elements X).
Definition map_keys {A} (m : gmap Z A) : list Z := set_elements (dom m).

(** ** Tactics *)

Create HintDb mw discriminated.
Create Rewrite HintDb mw_buf.

(** Turns the boolean conditions of the source into propositions. *)
Ltac bools :=
  repeat match goal with
  | H : (_ && _)%bool = true |- _ => apply andb_true_iff in H as [? ?]
  | H : (_ || _)%bool = false |- _ => apply orb_false_iff in H as [? ?]
  | H : (_ && _)%bool = false |- _ => apply andb_false_iff in H
  | H : (_ || _)%bool = true |- _ => apply orb_true_iff in H
  | H : negb _ = true |- _ => apply negb_true_iff in H
  | H : negb _ = false |- _ => apply negb_false_iff in H
  | H : (_ =? _)%Z = true |- _ => apply Z.eqb_eq in H
  | H : (_ =? _)%Z = false |- _ => apply Z.eqb_neq in H
  | H : (_ <? _)%Z = true |- _ => apply Z.ltb_lt in H
  | H : (_ <? _)%Z = false |- _ => apply Z.ltb_ge in H
  | H : (_ <=? _)%Z = true |- _ => apply Z.leb_le in H
  | H : (_ <=? _)%Z = false |- _ => apply Z.leb_gt in H
  | H : bool_decide _ = true |- _ => apply bool_decide_eq_true in H
  | H : bool_decide _ = false |- _ => apply bool_decide_eq_false in H
  end.

(** Simplifies record updates and projections of explicit records. *)
Ltac rsimpl := cbn [update_with] in *.

(** Linear arithmetic over machine ranges. *)
Ltac ulia := unfold umax, fits in *; lia.

(** ** Machine-integer lemmas *)

Lemma wrap_small w z : fits w z -> wrap w z = z.
Proof. apply Z.mod_small. Qed.

Lemma wrap_fits w z : 0 <= w -> fits w (wrap w z).
Proof. intros. apply Z.mod_pos_bound. lia. Qed.

Lemma fitsb_spec w z : fitsb w z = true <-> fits w z.
Proof. unfold fitsb, fits. rewrite andb_true_iff, Z.leb_le, Z.ltb_lt. done. Qed.

#[export] Instance fits_dec w z : Decision (fits w z).
Proof. unfold fits. apply _. Defined.

Lemma umax_32 : u32_max = 4294967295.
Proof. reflexivity. Qed.

Lemma umax_64 : u64_max = 18446744073709551615.
Proof. reflexivity. Qed.

(** ** Byte buffers *)

Lemma all_bytes_spec data : all_bytes data = true -> Forall is_byte data.
Proof.
  intros Hall. apply Forall_fold_right. induction data as [|b data IH]; simpl in *; [done|].
  bools. split; [unfold is_byte; lia | auto].
Qed.

Section buffers.
Implicit Types (buf data : list Z) (off n : nat).

Lemma length_put_at off data buf : length (put_at off data buf) = length buf.
Proof.
  unfold put_at, write_at. case_decide; simpl; [|done].
  rewrite !length_app, length_take, length_drop. lia.
Qed.

Lemma write_at_Some off data buf :
  (off + length data <= length buf)%nat -> write_at off data buf = Some (put_at off data buf).
Proof. intros. unfold put_at, write_at. by rewrite decide_True. Qed.

Lemma read_at_Some off n buf :
  (off + n <= length buf)%nat -> read_at off n buf = Some (get_at off n buf).
Proof. intros. unfold read_at. by rewrite decide_True. Qed.

Lemma length_get_at off n buf : (off + n <= length buf)%nat -> length (get_at off n buf) = n.
Proof. intros. unfold get_at. rewrite length_take, length_drop. lia. Qed.

Lemma get_at_put_at_same off n data buf :
  length data = n -> (off + n <= length buf)%nat -> get_at off n (put_at off data buf) = data.
Proof.
  intros <- ?. unfold get_at, put_at, write_at. rewrite decide_True by lia. simpl.
  rewrite drop_app_ge by (rewrite length_take; lia).
  rewrite length_take, Nat.min_l by lia. rewrite Nat.sub_diag. simpl.
  rewrite drop_0. by rewrite take_app_length.
Qed.

Lemma lookup_put_at_outside off data buf i :
  (i < off \/ off + length data <= i)%nat -> put_at off data buf !! i = buf !! i.
Proof.
  intros Hi. unfold put_at, write_at. case_decide; simpl; [|done].
  destruct (decide (i < off)%nat).
  - rewrite lookup_app_l by (rewrite length_take; lia). by rewrite lookup_take_lt.
  - rewrite lookup_app_r by (rewrite length_take; lia).
    rewrite length_take, Nat.min_l by lia.
    rewrite lookup_app_r by lia. rewrite lookup_drop. f_equal. lia.
Qed.

Lemma lookup_get_at off n buf i :
  get_at off n buf !! i = if decide (i < n)%nat then buf !! (off + i)%nat else None.
Proof.
  unfold get_at. case_decide; [by rewrite lookup_take_lt, lookup_drop | by rewrite lookup_take_ge by lia].
Qed.

Lemma lookup_get_at_lt off n buf i : (i < n)%nat -> get_at off n buf !! i = buf !! (off + i)%nat.
Proof. intros. rewrite lookup_get_at. by rewrite decide_True. Qed.

Lemma get_at_put_at_disjoint off n off' data buf :
  (off + n <= off' \/ off' + length data <= off)%nat ->
  get_at off n (put_at off' data buf) = get_at off n buf.
Proof.
  intros. apply list_eq. intros i. rewrite !lookup_get_at. case_decide; [|done].
  apply lookup_put_at_outside. lia.
Qed.

Lemma put_at_nil off buf : put_at off [] buf = buf.
Proof.
  unfold put_at, write_at. case_decide; simpl; [|done]. by rewrite Nat.add_0_r, take_drop.
Qed.

(** Writing the start of a field. *)
Lemma get_at_put_at_prefix off n data buf :
  (length data <= n)%nat -> (off + n <= length buf)%nat ->
  get_at off n (put_at off data buf) = put_at 0 data (get_at off n buf).
Proof.
  intros Hd Hn. apply list_eq. intros i. rewrite lookup_get_at.
  destruct (decide (i < length data)%nat) as [Hi|Hi].
  - rewrite decide_True by lia.
    rewrite <- (lookup_get_at_lt off (length data)), get_at_put_at_same by (done || lia).
    rewrite <- (Nat.add_0_l i) at 2. rewrite <- (lookup_get_at_lt 0 (length data)) by lia.
    rewrite get_at_put_at_same; [done|done|]. rewrite length_get_at; lia.
  - rewrite (lookup_put_at_outside 0) by lia. rewrite lookup_get_at. case_decide; [|done].
    by rewrite lookup_put_at_outside by lia.
Qed.

Lemma drop_put_at k off data buf :
  (off + length data <= k)%nat -> drop k (put_at off data buf) = drop k buf.
Proof.
  intros. apply list_eq. intros i. rewrite !lookup_drop. apply lookup_put_at_outside. lia.
Qed.

Lemma Forall_put_at (P : Z -> Prop) off data buf :
  Forall P data -> Forall P buf -> Forall P (put_at off data buf).
Proof.
  intros. unfold put_at, write_at. case_decide; simpl; [|done].
  repeat apply Forall_app_2; auto using Forall_take, Forall_drop.
Qed.

(** Two buffers that agree on consecutive fields covering them are equal. *)
Lemma fields_eq (ns : list nat) (a b : list Z) :
  length a = sum_list ns -> length b = sum_list ns ->
  (forall k, (k < length ns)%nat ->
     get_at (sum_list (take k ns)) (nth k ns 0%nat) a =
     get_at (sum_list (take k ns)) (nth k ns 0%nat) b) ->
  a = b.
Proof.
  revert a b. induction ns as [|n ns IH]; intros a b Ha Hb Hfields; simpl in *.
  - by apply nil_length_inv in Ha as ->; apply nil_length_inv in Hb as ->.
  - rewrite <- (take_drop n a), <- (take_drop n b). f_equal.
    + specialize (Hfields 0%nat ltac:(lia)). by unfold get_at in Hfields; simpl in Hfields.
    + apply IH; [rewrite length_drop; lia | rewrite length_drop; lia |].
      intros k Hk. specialize (Hfields (S k) ltac:(lia)). unfold get_at in *. simpl in Hfields.
      by rewrite !drop_drop.
Qed.

Lemma Forall_get_at (P : Z -> Prop) off n buf : Forall P buf -> Forall P (get_at off n buf).
Proof. intros. unfold get_at. auto using Forall_take, Forall_drop. Qed.
End buffers.

#[export] Hint Rewrite length_put_at @length_app @length_replicate @length_map @length_seq : mw_buf.

(** ** Strings *)

Lemma byte_of_ascii_byte a : is_byte (byte_of_ascii a).
Proof.
  unfold is_byte, byte_of_ascii.
  pose proof (N_ascii_bounded a). lia.
Qed.

Lemma ascii_of_byte_of_ascii a : ascii_of_byte (byte_of_ascii a) = a.
Proof. unfold ascii_of_byte, byte_of_ascii. rewrite N2Z.id. apply ascii_N_embedding. Qed.

Lemma byte_of_ascii_of_byte b : is_byte b -> byte_of_ascii (ascii_of_byte b) = b.
Proof.
  unfold is_byte, ascii_of_byte, byte_of_ascii. intros.
  rewrite N_ascii_embedding by lia. lia.
Qed.

Lemma length_string_bytes s : length (string_bytes s) = String.length s.
Proof.
  unfold string_bytes. rewrite length_map.
  induction s; simpl; congruence.
Qed.

Lemma bytes_string_bytes s : bytes_string (string_bytes s) = s.
Proof.
  unfold bytes_string, string_bytes. rewrite map_map.
  rewrite (map_ext _ id) by apply ascii_of_byte_of_ascii. rewrite map_id.
  apply string_of_list_ascii_of_string.
Qed.

Lemma string_bytes_string bs : Forall is_byte bs -> string_bytes (bytes_string bs) = bs.
Proof.
  intros Hbs. unfold bytes_string, string_bytes.
  rewrite list_ascii_of_string_of_list_ascii, map_map.
  induction Hbs as [|b bs Hb Hbs IH]; simpl; [done|].
  by rewrite byte_of_ascii_of_byte, IH.
Qed.

Lemma string_bytes_Forall s : Forall is_byte (string_bytes s).
Proof. apply Forall_map, Forall_true. intros. apply byte_of_ascii_byte. Qed.

Lemma string_size_nat s : Z.to_nat (string_size s) = String.length s.
Proof. unfold string_size. lia. Qed.

Lemma string_size_nonneg s : 0 <= string_size s.
Proof. unfold string_size. lia. Qed.

(** ** Ordered containers *)

#[export] Instance Z_le_total : Total Z.le.
Proof. intros x y. lia. Qed.

Lemma elem_of_set_elements X x : x ∈ set_elements X <-> x ∈ X.
Proof.
  unfold set_elements. rewrite <- elem_of_elements.
  by rewrite (merge_sort_Permutation Z.le).
Qed.

Lemma NoDup_set_elements X : NoDup (set_elements X).
Proof.
  unfold set_elements. rewrite (merge_sort_Permutation Z.le). apply NoDup_elements.
Qed.

Lemma Sorted_set_elements X : StronglySorted Z.le (set_elements X).
Proof. apply (StronglySorted_merge_sort Z.le). Qed.

Lemma set_elements_nil X : set_elements X = [] <-> X = ∅.
Proof.
  split.
  - intros H. apply set_eq. intros x. rewrite <- elem_of_set_elements, H. set_solver.
  - intros ->. reflexivity.
Qed.

Lemma elem_of_map_keys {A} (m : gmap Z A) k : k ∈ map_keys m <-> is_Some (m !! k).
Proof. unfold map_keys. by rewrite elem_of_set_elements, elem_of_dom. Qed.

Lemma NoDup_map_keys {A} (m : gmap Z A) : NoDup (map_keys m).
Proof. apply NoDup_set_elements. Qed.

(** ** Lists *)

(** A filter that every element passes. *)
Lemma filter_keep_all {A} (P : A -> Prop) `{!forall x, Decision (P x)} (l : list A) :
  Forall P l -> filter P l = l.
Proof.
  induction 1 as [|x l Hx _ IH]; [done|]. by rewrite filter_cons_True, IH.
Qed.

(** A filter keeps sublists. *)
Lemma filter_sublist {A} (P : A -> Prop) `{!forall x, Decision (P x)} (l k : list A) :
  l `sublist_of` k -> filter P l `sublist_of` filter P k.
Proof.
  induction 1 as [|x l k _ IH|x l k _ IH]; [done| |]; rewrite !filter_cons; case_decide; try done.
  - by apply sublist_skip.
  - by apply sublist_cons.
Qed.

(** A partner of an element of the second of two related lists. *)
Lemma Forall2_partner {A B} (R : A -> B -> Prop) l k y : Forall2 R l k -> y ∈ k -> exists x, x ∈ l /\ R x y.
Proof.
  induction 1 as [|x z l k Hxz _ IH]; [by intros ?%not_elem_of_nil|]. intros [->|Hy]%elem_of_cons; [exists x; split; [left|done]|].
  destruct (IH Hy) as (x' & Hx' & HR). exists x'. split; [by right|done].
Qed.
