(* ===== verification/Types.v ===== *)
(** * Public types of the middleware

    The enumerations, configuration structures and descriptors of
    [middleware/include/mw] and [middleware/src/detail], with the predicates on
    them that several components call.

    A C++ [enum class] with a fixed underlying type holds any value of that
    type, and the wire decoders build such values with [static_cast].  Every
    enumeration that is decoded has a constructor for the values without an
    enumerator, and [*_of_u16] / [*_to_u16] are the casts. *)

From S2P Require Import Prelude.
From Stdlib Require Import ZArith Lia List Bool Ascii String.
From stdpp Require Import base gmap list strings option.

Local Open Scope Z_scope.

(** ** [mw/result.hpp] *)

Inductive ErrorCode :=
  | Ok
  | InvalidArgument
  | InvalidState
  | MessageTooLarge
  | ConnectionLost
  | IoError
  | Timeout
  | InvalidFrame
  | RegistryUnavailable
  | DuplicateNode
  | DuplicatePublisher
  | TypeMismatch
  | TopicNotFound
  | InvalidControlMessage
  | UnsupportedProtocolVersion
  | UnknownOpcode
  | InvalidRequestId
  | NotRegistered
  | EndpointNotFound
  | TransportMismatch
  | SharedMemoryError
  | SharedMemoryNotFound
  | InvalidSharedMemory
  | CleanupFailed
  | PoolExhausted
  | InvalidChunkHandle
  | DuplicateRelease
  | QueueFull
  | QueueTimeout
  | QueueClosed
  | UnsupportedTransport
  | ErrorCode_other (value : Z).

#[export] Instance ErrorCode_eq_dec : EqDecision ErrorCode.
Proof. solve_decision. Defined.

Definition ErrorCode_to_u16 (e : ErrorCode) : Z :=
  match e with
  | Ok => 0
  | InvalidArgument => 1
  | InvalidState => 2
  | MessageTooLarge => 3
  | ConnectionLost => 4
  | IoError => 5
  | Timeout => 6
  | InvalidFrame => 7
  | RegistryUnavailable => 8
  | DuplicateNode => 9
  | DuplicatePublisher => 10
  | TypeMismatch => 11
  | TopicNotFound => 12
  | InvalidControlMessage => 13
  | UnsupportedProtocolVersion => 14
  | UnknownOpcode => 15
  | InvalidRequestId => 16
  | NotRegistered => 17
  | EndpointNotFound => 18
  | TransportMismatch => 19
  | SharedMemoryError => 20
  | SharedMemoryNotFound => 21
  | InvalidSharedMemory => 22
  | CleanupFailed => 23
  | PoolExhausted => 24
  | InvalidChunkHandle => 25
  | DuplicateRelease => 26
  | QueueFull => 27
  | QueueTimeout => 28
  | QueueClosed => 29
  | UnsupportedTransport => 30
  | ErrorCode_other v => v
  end.

Definition ErrorCode_of_u16 (v : Z) : ErrorCode :=
  match v with
  | 0 => Ok
  | 1 => InvalidArgument
  | 2 => InvalidState
  | 3 => MessageTooLarge
  | 4 => ConnectionLost
  | 5 => IoError
  | 6 => Timeout
  | 7 => InvalidFrame
  | 8 => RegistryUnavailable
  | 9 => DuplicateNode
  | 10 => DuplicatePublisher
  | 11 => TypeMismatch
  | 12 => TopicNotFound
  | 13 => InvalidControlMessage
  | 14 => UnsupportedProtocolVersion
  | 15 => UnknownOpcode
  | 16 => InvalidRequestId
  | 17 => NotRegistered
  | 18 => EndpointNotFound
  | 19 => TransportMismatch
  | 20 => SharedMemoryError
  | 21 => SharedMemoryNotFound
  | 22 => InvalidSharedMemory
  | 23 => CleanupFailed
  | 24 => PoolExhausted
  | 25 => InvalidChunkHandle
  | 26 => DuplicateRelease
  | 27 => QueueFull
  | 28 => QueueTimeout
  | 29 => QueueClosed
  | 30 => UnsupportedTransport
  | _ => ErrorCode_other v
  end.

(** [mw::errorMessage] *)
Definition errorMessage (error : ErrorCode) : string :=
  match error with
  | Ok => "ok"
  | InvalidArgument => "invalid argument"
  | InvalidState => "invalid state"
  | MessageTooLarge => "message too large"
  | ConnectionLost => "connection lost"
  | IoError => "I/O error"
  | Timeout => "timeout"
  | InvalidFrame => "invalid frame"
  | RegistryUnavailable => "registry unavailable"
  | DuplicateNode => "duplicate node"
  | DuplicatePublisher => "duplicate publisher"
  | TypeMismatch => "type mismatch"
  | TopicNotFound => "topic not found"
  | InvalidControlMessage => "invalid control message"
  | UnsupportedProtocolVersion => "unsupported protocol version"
  | UnknownOpcode => "unknown opcode"
  | InvalidRequestId => "invalid request ID"
  | NotRegistered => "not registered"
  | EndpointNotFound => "endpoint not found"
  | TransportMismatch => "transport mismatch"
  | SharedMemoryError => "shared memory error"
  | SharedMemoryNotFound => "shared memory object not found"
  | InvalidSharedMemory => "invalid shared memory object"
  | CleanupFailed => "resource cleanup failed"
  | PoolExhausted => "memory pool exhausted"
  | InvalidChunkHandle => "invalid chunk handle"
  | DuplicateRelease => "duplicate chunk release"
  | QueueFull => "subscriber queue full"
  | QueueTimeout => "subscriber queue wait timed out"
  | QueueClosed => "subscriber queue closed"
  | UnsupportedTransport => "operation is unsupported by this transport"
  | ErrorCode_other _ => "unknown error"
  end.

(** [error == ErrorCode::Ok] *)
Definition is_ok (error : ErrorCode) : bool :=
  match error with Ok => true | _ => false end.

Record PublishResult := mkPublishResult {
  pr_error : ErrorCode;
  pr_sequence : Z;
  pr_payload_size : Z;
  pr_enqueued : Z;
  pr_dropped_newest : Z;
  pr_dropped_oldest : Z;
  pr_block_timeouts : Z;
  pr_blocked_count : Z;
  pr_blocked_time_ns : Z;
}.

(** ** [mw/config.hpp] *)

Inductive TransportType :=
  | UnixDomainSocket
  | SharedMemory
  | TransportType_other (value : Z).

#[export] Instance TransportType_eq_dec : EqDecision TransportType.
Proof. solve_decision. Defined.

Definition TransportType_to_u16 (t : TransportType) : Z :=
  match t with UnixDomainSocket => 1 | SharedMemory => 2 | TransportType_other v => v end.
Definition TransportType_of_u16 (v : Z) : TransportType :=
  match v with 1 => UnixDomainSocket | 2 => SharedMemory | _ => TransportType_other v end.

Definition transportTypeName (t : TransportType) : string :=
  match t with
  | UnixDomainSocket => "uds"
  | SharedMemory => "shm"
  | TransportType_other _ => "unknown"
  end.

Inductive OverflowPolicy :=
  | DropNewest
  | DropOldest
  | BlockWithTimeout
  | OverflowPolicy_other (value : Z).

#[export] Instance OverflowPolicy_eq_dec : EqDecision OverflowPolicy.
Proof. solve_decision. Defined.

Definition OverflowPolicy_to_u16 (p : OverflowPolicy) : Z :=
  match p with
  | DropNewest => 1 | DropOldest => 2 | BlockWithTimeout => 3
  | OverflowPolicy_other v => v
  end.
Definition OverflowPolicy_of_u16 (v : Z) : OverflowPolicy :=
  match v with
  | 1 => DropNewest | 2 => DropOldest | 3 => BlockWithTimeout
  | _ => OverflowPolicy_other v
  end.

Definition overflowPolicyName (p : OverflowPolicy) : string :=
  match p with
  | DropNewest => "drop_newest"
  | DropOldest => "drop_oldest"
  | BlockWithTimeout => "block_with_timeout"
  | OverflowPolicy_other _ => "unknown"
  end.

(** [mw::detail::validOverflowPolicy] *)
Definition validOverflowPolicy (p : OverflowPolicy) : bool :=
  match p with
  | DropNewest | DropOldest | BlockWithTimeout => true
  | OverflowPolicy_other _ => false
  end.

Inductive LivenessState :=
  | Alive
  | Suspected
  | Dead
  | LivenessState_other (value : Z).

#[export] Instance LivenessState_eq_dec : EqDecision LivenessState.
Proof. solve_decision. Defined.

Definition LivenessState_to_u16 (l : LivenessState) : Z :=
  match l with Alive => 1 | Suspected => 2 | Dead => 3 | LivenessState_other v => v end.
Definition LivenessState_of_u16 (v : Z) : LivenessState :=
  match v with 1 => Alive | 2 => Suspected | 3 => Dead | _ => LivenessState_other v end.

Definition livenessStateName (l : LivenessState) : string :=
  match l with
  | Alive => "ALIVE" | Suspected => "SUSPECTED" | Dead => "DEAD"
  | LivenessState_other _ => "UNKNOWN"
  end.

(** Durations are milliseconds. *)
Record LivenessConfig := mkLivenessConfig {
  heartbeat_interval : Z;
  suspect_timeout : Z;
  dead_timeout : Z;
}.

Definition default_liveness : LivenessConfig := mkLivenessConfig 250 750 1500.

Definition validLivenessConfig (config : LivenessConfig) : bool :=
  (0 <? heartbeat_interval config) &&
  (heartbeat_interval config <? suspect_timeout config) &&
  (suspect_timeout config <? dead_timeout config).

Record MemoryPoolClassConfig := mkMemoryPoolClassConfig {
  chunk_size : Z;
  chunk_count : Z;
}.

(** [MemoryPoolConfig] has the single member [size_classes]. *)
Record MemoryPoolConfig := mkMemoryPoolConfig {
  cfg_size_classes : list MemoryPoolClassConfig;
}.

Definition kDefaultMaxMessageSize : Z := 4 * 1024 * 1024.

Definition default_memory_pool : MemoryPoolConfig := mkMemoryPoolConfig
  [mkMemoryPoolClassConfig 256 32; mkMemoryPoolClassConfig (4 * 1024) 16;
   mkMemoryPoolClassConfig (64 * 1024) 8; mkMemoryPoolClassConfig (1024 * 1024) 4;
   mkMemoryPoolClassConfig (4 * 1024 * 1024) 2].

(** ** Descriptors and handles ([pool_protocol.hpp], [queue_protocol.hpp]) *)

Definition kPoolLayoutVersion : Z := 1.
Definition kMaxPoolNameSize : nat := 192.
Definition kQueueLayoutVersion : Z := 3.

Record PoolDescriptor := mkPoolDescriptor {
  pd_shm_name : string;
  pd_pool_id : Z;
  pd_segment_size : Z;
  pd_topic_id : Z;
  pd_layout_version : Z;
}.

Definition empty_PoolDescriptor : PoolDescriptor := mkPoolDescriptor "" 0 0 0 0.

Record ChunkHandle := mkChunkHandle {
  ch_pool_id : Z;
  ch_chunk_index : Z;
  ch_generation : Z;
  ch_payload_offset : Z;
}.

Definition empty_ChunkHandle : ChunkHandle := mkChunkHandle 0 0 0 0.

#[export] Instance ChunkHandle_eq_dec : EqDecision ChunkHandle.
Proof. solve_decision. Defined.

(** [operator==(ChunkHandle, ChunkHandle)] *)
Definition ChunkHandle_eqb (left right : ChunkHandle) : bool :=
  (ch_pool_id left =? ch_pool_id right) &&
  (ch_chunk_index left =? ch_chunk_index right) &&
  (ch_generation left =? ch_generation right) &&
  (ch_payload_offset left =? ch_payload_offset right).

Record QueueDescriptor := mkQueueDescriptor {
  qd_shm_name : string;
  qd_queue_id : Z;
  qd_segment_size : Z;
  qd_capacity : Z;
  qd_layout_version : Z;
  qd_overflow_policy : OverflowPolicy;
  qd_block_timeout_ms : Z;
}.

#[export] Instance QueueDescriptor_eq_dec : EqDecision QueueDescriptor.
Proof. solve_decision. Defined.

(** [operator==(QueueDescriptor, QueueDescriptor)] *)
Definition QueueDescriptor_eqb (left right : QueueDescriptor) : bool :=
  bool_decide (qd_shm_name left = qd_shm_name right) &&
  (qd_queue_id left =? qd_queue_id right) &&
  (qd_segment_size left =? qd_segment_size right) &&
  (qd_capacity left =? qd_capacity right) &&
  (qd_layout_version left =? qd_layout_version right) &&
  bool_decide (qd_overflow_policy left = qd_overflow_policy right) &&
  (qd_block_timeout_ms left =? qd_block_timeout_ms right).

(** ** [mw::detail::isValidSharedMemoryName] ([shared_memory.cpp]) *)

(** [name.find(c, from) == npos]: no occurrence of byte [c] at or after [from]. *)
Definition absent_from (c : Z) (from : nat) (name : string) : bool :=
  forallb (fun b => negb (b =? c)) (drop from (string_bytes name)).

Definition slash : Z := 47.

(** [name.front() == c], for a name known to be nonempty. *)
Definition front_is (c : Z) (name : string) : bool :=
  match string_bytes name with b :: _ => b =? c | [] => false end.

Definition isValidSharedMemoryName (name : string) : bool :=
  (2 <=? string_size name) && (string_size name <=? 192) && front_is slash name &&
  absent_from slash 1 name && absent_from 0 0 name.

(** ** Facts *)

Lemma is_ok_spec e : is_ok e = true <-> e = Ok.
Proof. by destruct e. Qed.

Ltac cast_inverse :=
  repeat match goal with |- context [match ?x with _ => _ end] => destruct x; try reflexivity end.

Lemma ErrorCode_to_of v : ErrorCode_to_u16 (ErrorCode_of_u16 v) = v.
Proof. unfold ErrorCode_of_u16. cast_inverse. Qed.

Lemma TransportType_to_of v : TransportType_to_u16 (TransportType_of_u16 v) = v.
Proof. unfold TransportType_of_u16. cast_inverse. Qed.

Lemma OverflowPolicy_to_of v : OverflowPolicy_to_u16 (OverflowPolicy_of_u16 v) = v.
Proof. unfold OverflowPolicy_of_u16. cast_inverse. Qed.

Lemma LivenessState_to_of v : LivenessState_to_u16 (LivenessState_of_u16 v) = v.
Proof. unfold LivenessState_of_u16. cast_inverse. Qed.

Lemma ChunkHandle_eqb_spec left right : ChunkHandle_eqb left right = true <-> left = right.
Proof.
  destruct left, right. unfold ChunkHandle_eqb. simpl. split.
  - intros H. bools. congruence.
  - intros [= -> -> -> ->]. by rewrite !Z.eqb_refl.
Qed.

Lemma valid_name_size name : isValidSharedMemoryName name = true ->
  2 <= string_size name <= 192.
Proof. unfold isValidSharedMemoryName. intros H. bools. lia. Qed.
