(* ===== verification/Outcome.v ===== *)
(** * Outcomes and methods

    The small error and state monads the C++ code is translated into: a value, a
    thrown exception or undefined behaviour, and methods that read and change an
    object. *)

From S2P Require Import Prelude Types.
From Stdlib Require Import ZArith Lia List Bool.
From stdpp Require Import base gmap list option.

Local Open Scope Z_scope.

(** ** Outcomes of C++ code

    A computation returns a value, throws, or is undefined: an access outside an
    object, which the model never gives a meaning to. *)

(** The [errno] values the code distinguishes. *)
Definition ENOENT : Z := 2.
Definition EINVAL : Z := 22.

Inductive exn :=
  | ex_invalid_argument
  | ex_overflow_error
  | ex_out_of_range
  | ex_length_error
  | ex_logic_error
  | ex_runtime_error
  | ex_system_error (errno : Z)
  | ex_middleware (code : ErrorCode).

Inductive outcome (A : Type) :=
  | Ret (a : A)
  | Throw (e : exn)
  | Undef.
Arguments Ret {A} a.
Arguments Throw {A} e.
Arguments Undef {A}.

#[export] Instance outcome_ret : MRet outcome := fun A a => Ret a.
#[export] Instance outcome_bind : MBind outcome := fun A B f c =>
  match c with Ret a => f a | Throw e => Throw e | Undef => Undef end.

(** A method with access to an object of type [S]: the object survives a throw,
    with the changes made before it. *)

Definition cpp (S A : Type) : Type := S -> outcome A * S.

#[export] Instance cpp_ret {S} : MRet (cpp S) := fun A a s => (Ret a, s).
#[export] Instance cpp_bind {S} : MBind (cpp S) := fun A B f c s =>
  match c s with
  | (Ret a, s') => f a s'
  | (Throw e, s') => (Throw e, s')
  | (Undef, s') => (Undef, s')
  end.

Definition this {S} : cpp S S := fun s => (Ret s, s).
Definition gets {S A} (f : S -> A) : cpp S A := fun s => (Ret (f s), s).
Definition modify {S} (f : S -> S) : cpp S unit := fun s => (Ret tt, f s).
Definition throw {S A} (e : exn) : cpp S A := fun s => (Throw e, s).
Definition undefined {S A} : cpp S A := fun s => (Undef, s).
Definition lift {S A} (o : outcome A) : cpp S A := fun s => (o, s).

(** [std::map::at] and other accesses that throw when the key is missing. *)
Definition or_throw {S A} (e : exn) (o : option A) : cpp S A :=
  match o with Some a => mret a | None => throw e end.

(** [operator[]] on a vector and pointer accesses: undefined out of range. *)
Definition or_undef {S A} (o : option A) : cpp S A :=
  match o with Some a => mret a | None => undefined end.

(** A range-for over a vector. *)
Fixpoint for_each {S A} (l : list A) (body : A -> cpp S unit) : cpp S unit :=
  match l with
  | [] => mret tt
  | a :: l => body a ≫= fun _ => for_each l body
  end.

(** A range-for whose body appends to a result vector. *)
Fixpoint for_collect {S A B} (l : list A) (body : A -> cpp S (list B)) : cpp S (list B) :=
  match l with
  | [] => mret []
  | a :: l => body a ≫= fun b => for_collect l body ≫= fun bs => mret (b ++ bs)
  end.

(** [runs c s a s']: from [s] the method returns [a] and leaves [s']. *)
Definition runs {S A} (c : cpp S A) (s : S) (a : A) (s' : S) : Prop := c s = (Ret a, s').

(** Runs a method one step at a time. *)
Ltac unfold_cpp :=
  unfold or_throw, or_undef, mbind, mret, cpp_bind, cpp_ret, this, gets, modify, throw, undefined,
    lift in *.

(** ** Methods *)

Lemma runs_bind {S A B} (c : cpp S A) (k : A -> cpp S B) s a s' b s'' :
  runs c s a s' -> runs (k a) s' b s'' -> runs (c ≫= k) s b s''.
Proof. unfold runs, mbind, cpp_bind. by intros -> ->. Qed.

(** One step of a sequence that returned. *)
Lemma bind_run {S A B} (c : cpp S A) (k : A -> cpp S B) s a s' : c s = (Ret a, s') -> (c ≫= k) s = k a s'.
Proof. unfold mbind, cpp_bind. by intros ->. Qed.

Lemma runs_det {S A} (c : cpp S A) s a s1 a' s2 : runs c s a s1 -> runs c s a' s2 -> a = a' /\ s1 = s2.
Proof. unfold runs. intros H1 H2. rewrite H1 in H2. by simplify_eq. Qed.

(** An invariant kept by the body of a range-for is kept by the loop, which returns
    when every iteration does. *)
Lemma for_each_invariant {S A} (I : S -> Prop) (l : list A) (body : A -> cpp S unit) s :
  (forall a s, a ∈ l -> I s -> exists s', runs (body a) s tt s' /\ I s') ->
  I s -> exists s', runs (for_each l body) s tt s' /\ I s'.
Proof.
  revert s. induction l as [|a l IH]; intros s Hbody Hs; simpl.
  - by exists s.
  - destruct (Hbody a s) as (s1 & Hrun & Hs1); [set_solver | done |].
    destruct (IH s1) as (s2 & Hrun2 & Hs2); [set_solver | done |].
    exists s2. split; [|done]. eapply runs_bind; eauto.
Qed.


(** The same for an invariant on the elements still to come. *)
Lemma for_each_ind {S A} (I : list A -> S -> Prop) (l : list A) (body : A -> cpp S unit) s :
  (forall a l s, I (a :: l) s -> exists s', runs (body a) s tt s' /\ I l s') ->
  I l s -> exists s', runs (for_each l body) s tt s' /\ I [] s'.
Proof.
  intros Hbody. revert s. induction l as [|a l IH]; intros s Hs; simpl.
  - by exists s.
  - destruct (Hbody _ _ _ Hs) as (s1 & Hrun & Hs1). destruct (IH _ Hs1) as (s2 & Hrun2 & Hs2).
    exists s2. split; [|done]. eapply runs_bind; eauto.
Qed.

(** A range-for whose body only reads. *)
Lemma for_collect_reads {S A B} (l : list A) (body : A -> cpp S (list B)) (f : A -> list B) s :
  (forall a, a ∈ l -> runs (body a) s (f a) s) -> runs (for_collect l body) s (flat_map f l) s.
Proof.
  intros Hbody. induction l as [|a l IH]; simpl; [done|].
  eapply runs_bind; [apply Hbody; set_solver|]. eapply runs_bind; [apply IH; set_solver|]. done.
Qed.

(** ** Total correctness

    [wp c s Q]: from [s] the method returns, with a result and a state in [Q]. *)
Definition wp {S A} (c : cpp S A) (s : S) (Q : A -> S -> Prop) : Prop :=
  match c s with (Ret a, s') => Q a s' | _ => False end.

Section wp.
Context {S A B : Type}.
Implicit Types (s : S) (Q : A -> S -> Prop).

Lemma wp_bind (c : cpp S A) (k : A -> cpp S B) s (Q : B -> S -> Prop) :
  wp c s (fun a s' => wp (k a) s' Q) -> wp (c ≫= k) s Q.
Proof. unfold wp, mbind, cpp_bind. by destruct (c s) as [[a| |] s']. Qed.

Lemma wp_mono (c : cpp S A) s Q Q' : (forall a s', Q a s' -> Q' a s') -> wp c s Q -> wp c s Q'.
Proof. unfold wp. intros HQ. destruct (c s) as [[a| |] s']; auto. Qed.

Lemma wp_and (c : cpp S A) s (P Q : A -> S -> Prop) :
  (forall a s', c s = (Ret a, s') -> P a s') -> wp c s Q -> wp c s (fun a s' => P a s' /\ Q a s').
Proof. unfold wp. intros HP HQ. destruct (c s) as [[a| |] s']; auto. Qed.

Lemma wp_run (c : cpp S A) s Q : wp c s Q <-> exists a s', c s = (Ret a, s') /\ Q a s'.
Proof.
  unfold wp. destruct (c s) as [[a| |] s']; split; try done; [by exists a, s' | ..];
    intros (? & ? & Heq & ?); by simplify_eq.
Qed.

Lemma wp_ret (a : A) s Q : Q a s -> wp (mret a) s Q.
Proof. done. Qed.

(** An invariant on the elements still to come. *)
Lemma wp_for_each (I : list A -> S -> Prop) (l : list A) (body : A -> cpp S unit) s :
  (forall a l s, I (a :: l) s -> wp (body a) s (fun _ s' => I l s')) ->
  I l s -> wp (for_each l body) s (fun _ s' => I [] s').
Proof.
  intros Hbody. revert s. induction l as [|a l IH]; intros s Hs; [done|].
  cbn [for_each]. unfold wp, mbind, cpp_bind. pose proof (Hbody _ _ _ Hs) as Ha. unfold wp in Ha.
  destruct (body a s) as [[[]| |] s']; try done. by apply IH.
Qed.
End wp.

(** [wpx c s Q E]: from [s] the method returns, with a result and a state in [Q], or throws, with an
    exception and a state in [E]. *)
Definition wpx {S A} (c : cpp S A) (s : S) (Q : A -> S -> Prop) (E : exn -> S -> Prop) : Prop :=
  match c s with (Ret a, s') => Q a s' | (Throw e, s') => E e s' | (Undef, _) => False end.

Section wpx.
Context {S A B : Type}.
Implicit Types (s : S) (Q : A -> S -> Prop) (E : exn -> S -> Prop).

Lemma wpx_bind (c : cpp S A) (k : A -> cpp S B) s (Q : B -> S -> Prop) E :
  wpx c s (fun a s' => wpx (k a) s' Q E) E -> wpx (c ≫= k) s Q E.
Proof. unfold wpx, mbind, cpp_bind. by destruct (c s) as [[a| |] s']. Qed.

Lemma wpx_mono (c : cpp S A) s Q Q' E E' : (forall a s', Q a s' -> Q' a s') -> (forall e s', E e s' -> E' e s') ->
  wpx c s Q E -> wpx c s Q' E'.
Proof. unfold wpx. intros HQ HE. destruct (c s) as [[a| |] s']; auto. Qed.

Lemma wpx_wp (c : cpp S A) s Q E : wp c s Q -> wpx c s Q E.
Proof. unfold wp, wpx. by destruct (c s) as [[a| |] s']. Qed.

Lemma wpx_ret (a : A) s Q E : Q a s -> wpx (mret a) s Q E.
Proof. done. Qed.

Lemma wpx_this s (Q : S -> S -> Prop) E : Q s s -> wpx this s Q E.
Proof. done. Qed.

Lemma wpx_modify (f : S -> S) s (Q : unit -> S -> Prop) E : Q tt (f s) -> wpx (modify f) s Q E.
Proof. done. Qed.

Lemma wpx_throw e s Q E : E e s -> wpx (throw e) s Q E.
Proof. done. Qed.

Lemma wp_wpx (c : cpp S A) s Q E : wpx c s Q E -> (forall e s', ~ E e s') -> wp c s Q.
Proof. unfold wp, wpx. intros Hc HE. destruct (c s) as [[a| |] s']; [done | by apply HE in Hc | done]. Qed.
End wpx.
