(* ===== verification/BigEndian.v ===== *)
(** * Big-endian integers

    [encodeBigEndian] / [decodeBigEndian], the templates repeated at the top of
    every protocol file, and the read-over-write algebra of the fixed frames they
    fill. *)

From S2P Require Import Prelude.
From Stdlib Require Import ZArith Lia List Bool.
From stdpp Require Import base list option.

Local Open Scope Z_scope.

(** [encodeBigEndian<Integer>(value, output)] stores [sizeof(Integer) = n] bytes,
    byte [index] being [value >> (n - index - 1) * 8] truncated to 8 bits. *)
Definition encodeBigEndian (n : nat) (value : Z) : list Z :=
  map (fun index => wrap 8 (Z.shiftr value (Z.of_nat (n - index - 1) * 8))) (seq 0 n).

(** [decodeBigEndian<Integer>(input)]: shifts each byte into a value of the width of
    [Integer]. *)
Definition decodeBigEndian (n : nat) (input : list Z) : Z :=
  fold_left (fun value b => wrap (8 * Z.of_nat n) (Z.lor (Z.shiftl value 8) b)) input 0.

(** A field of a frame: [n] bytes at [off], as the encoders write and the decoders read
    it. *)
Definition put_be (n : nat) (value : Z) (off : nat) (buf : list Z) : list Z :=
  put_at off (encodeBigEndian n value) buf.
Definition get_be (n off : nat) (buf : list Z) : Z := decodeBigEndian n (get_at off n buf).

(** The loop of the frame decoders over the bytes after a name: all must be zero. *)
Definition padding_zero (from : nat) (data : list Z) : bool :=
  forallb (fun b => b =? 0) (drop from data).

(** The plain positional value of a byte string, the specification of decoding. *)
Definition be_value (input : list Z) : Z := fold_left (fun value b => value * 256 + b) input 0.


(** ** Correctness *)

Lemma length_encodeBigEndian n v : length (encodeBigEndian n v) = n.
Proof. unfold encodeBigEndian. by rewrite length_map, length_seq. Qed.

Lemma encodeBigEndian_bytes n v : Forall is_byte (encodeBigEndian n v).
Proof.
  apply Forall_map, Forall_true. intros i. unfold is_byte, wrap.
  apply Z.mod_pos_bound. lia.
Qed.

Lemma encodeBigEndian_S n v :
  encodeBigEndian (S n) v = encodeBigEndian n (Z.shiftr v 8) ++ [wrap 8 v].
Proof.
  unfold encodeBigEndian. rewrite seq_S, map_app. f_equal.
  - apply map_ext_in. intros i Hi%in_seq. rewrite Z.shiftr_shiftr by lia. do 2 f_equal. lia.
  - simpl. replace (S n - n - 1)%nat with 0%nat by lia. by rewrite Z.shiftr_0_r.
Qed.

Lemma be_value_snoc bs b : be_value (bs ++ [b]) = be_value bs * 256 + b.
Proof. unfold be_value. by rewrite fold_left_app. Qed.

Lemma be_value_bound bs : Forall is_byte bs -> fits (8 * Z.of_nat (length bs)) (be_value bs).
Proof.
  unfold fits, is_byte. induction bs as [|b bs IH] using rev_ind; intros Hbs.
  - unfold be_value. simpl. lia.
  - apply Forall_app in Hbs as [Hbs Hb]; apply Forall_cons_1 in Hb as [Hb _]. specialize (IH Hbs).
    rewrite be_value_snoc, length_app. simpl length.
    replace (8 * Z.of_nat (length bs + 1)) with (8 * Z.of_nat (length bs) + 8) by lia.
    rewrite Z.pow_add_r by lia. change (2 ^ 8) with 256. nia.
Qed.

Lemma lor_shiftl_8 v b : 0 <= v -> is_byte b -> Z.lor (Z.shiftl v 8) b = v * 256 + b.
Proof.
  unfold is_byte. intros Hv Hb.
  assert (Z.land (Z.shiftl v 8) b = 0) as Hland.
  { apply Z.bits_inj'. intros i Hi. rewrite Z.land_spec, Z.bits_0.
    destruct (Z.lt_ge_cases i 8).
    - by rewrite Z.shiftl_spec_low.
    - rewrite <- (Z.mod_small b (2 ^ 8)) by (change (2 ^ 8) with 256; lia).
      rewrite Z.mod_pow2_bits_high by lia. apply andb_false_r. }
  pose proof (Z.add_lor_land (Z.shiftl v 8) b) as Hsum.
  rewrite Z.shiftl_mul_pow2 in * by lia. change (2 ^ 8) with 256 in *. lia.
Qed.

Lemma decodeBigEndian_value n bs :
  Forall is_byte bs -> (length bs <= n)%nat -> decodeBigEndian n bs = be_value bs.
Proof.
  unfold decodeBigEndian.
  induction bs as [|b bs IH] using rev_ind; intros Hbs Hlen; [done|].
  pose proof (be_value_bound _ Hbs) as Hbound.
  apply Forall_app in Hbs as [Hbs Hb]; apply Forall_cons_1 in Hb as [Hb _].
  rewrite length_app in Hlen. simpl in Hlen.
  rewrite fold_left_app. simpl. rewrite IH by (done || lia).
  pose proof (be_value_bound _ Hbs) as [Hnonneg _].
  rewrite lor_shiftl_8 by done. rewrite be_value_snoc in *.
  apply wrap_small. destruct Hbound as [Hlo Hhi]. split; [done|].
  eapply Z.lt_le_trans; [exact Hhi|]. apply Z.pow_le_mono_r; [lia|].
  rewrite length_app. simpl. lia.
Qed.

Lemma be_value_encode n v : fits (8 * Z.of_nat n) v -> be_value (encodeBigEndian n v) = v.
Proof.
  unfold fits. revert v. induction n as [|n IH]; intros v Hv.
  - unfold be_value. simpl in *. lia.
  - rewrite encodeBigEndian_S, be_value_snoc.
    replace (8 * Z.of_nat (S n)) with (8 * Z.of_nat n + 8) in Hv by lia.
    rewrite Z.pow_add_r in Hv by lia. change (2 ^ 8) with 256 in Hv.
    rewrite Z.shiftr_div_pow2 in * by lia. unfold wrap. change (2 ^ 8) with 256.
    rewrite IH.
    + pose proof (Z.div_mod v 256 ltac:(lia)). lia.
    + split; [apply Z.div_pos; lia|]. apply Z.div_lt_upper_bound; lia.
Qed.

Lemma decode_encodeBigEndian n v :
  fits (8 * Z.of_nat n) v -> decodeBigEndian n (encodeBigEndian n v) = v.
Proof.
  intros. rewrite decodeBigEndian_value;
    [by apply be_value_encode | apply encodeBigEndian_bytes | by rewrite length_encodeBigEndian].
Qed.

Lemma encodeBigEndian_value bs :
  Forall is_byte bs -> encodeBigEndian (length bs) (be_value bs) = bs.
Proof.
  induction bs as [|b bs IH] using rev_ind; intros Hbs; [done|].
  apply Forall_app in Hbs as [Hbs Hb]; apply Forall_cons_1 in Hb as [Hb _].
  rewrite length_app, Nat.add_1_r, encodeBigEndian_S, be_value_snoc.
  unfold is_byte in Hb. f_equal.
  - rewrite Z.shiftr_div_pow2 by lia. change (2 ^ 8) with 256.
    rewrite Z.div_add_l by lia. rewrite Z.div_small by lia. rewrite Z.add_0_r. auto.
  - unfold wrap. change (2 ^ 8) with 256. rewrite Z.add_comm, Z.mod_add by lia.
    by rewrite Z.mod_small by lia.
Qed.

Lemma encode_decodeBigEndian n bs :
  Forall is_byte bs -> length bs = n -> encodeBigEndian n (decodeBigEndian n bs) = bs.
Proof.
  intros Hbs <-. rewrite decodeBigEndian_value by auto. by apply encodeBigEndian_value.
Qed.

Lemma decodeBigEndian_fits n bs :
  Forall is_byte bs -> length bs = n -> fits (8 * Z.of_nat n) (decodeBigEndian n bs).
Proof.
  intros Hbs <-. rewrite decodeBigEndian_value by auto. by apply be_value_bound.
Qed.

(** ** Fields of a frame *)

Lemma length_put_be n v off buf : length (put_be n v off buf) = length buf.
Proof. apply length_put_at. Qed.

Lemma get_put_be_same n v off buf :
  fits (8 * Z.of_nat n) v -> (off + n <= length buf)%nat -> get_be n off (put_be n v off buf) = v.
Proof.
  intros. unfold get_be, put_be.
  rewrite get_at_put_at_same by (rewrite ?length_encodeBigEndian; done).
  by apply decode_encodeBigEndian.
Qed.

Lemma get_put_be_disjoint n off m v off' buf :
  (off + n <= off' \/ off' + m <= off)%nat -> get_be n off (put_be m v off' buf) = get_be n off buf.
Proof.
  intros. unfold get_be, put_be. f_equal. apply get_at_put_at_disjoint.
  rewrite length_encodeBigEndian. lia.
Qed.

Lemma get_be_put_at_disjoint n off data off' buf :
  (off + n <= off' \/ off' + length data <= off)%nat ->
  get_be n off (put_at off' data buf) = get_be n off buf.
Proof. intros. unfold get_be. f_equal. by apply get_at_put_at_disjoint. Qed.

Lemma get_at_put_be_disjoint off n m v off' buf :
  (off + n <= off' \/ off' + m <= off)%nat -> get_at off n (put_be m v off' buf) = get_at off n buf.
Proof.
  intros. unfold put_be. apply get_at_put_at_disjoint. rewrite length_encodeBigEndian. lia.
Qed.

Lemma put_be_bytes n v off buf : Forall is_byte buf -> Forall is_byte (put_be n v off buf).
Proof. intros. apply Forall_put_at; auto using encodeBigEndian_bytes. Qed.

Lemma get_be_fits n off buf :
  Forall is_byte buf -> (off + n <= length buf)%nat -> fits (8 * Z.of_nat n) (get_be n off buf).
Proof.
  intros. apply decodeBigEndian_fits; [by apply Forall_get_at | by apply length_get_at].
Qed.

Lemma drop_put_be k n v off buf : (off + n <= k)%nat -> drop k (put_be n v off buf) = drop k buf.
Proof. intros. apply drop_put_at. rewrite length_encodeBigEndian. lia. Qed.

Lemma padding_zero_replicate from n : padding_zero from (replicate n 0) = true.
Proof.
  unfold padding_zero. apply forallb_forall. intros b Hb.
  apply list_elem_of_In in Hb. rewrite drop_replicate in Hb.
  apply elem_of_replicate in Hb as [-> _]. done.
Qed.

Lemma padding_zero_put_be from n v off buf :
  (off + n <= from)%nat -> padding_zero from (put_be n v off buf) = padding_zero from buf.
Proof. intros. unfold padding_zero. by rewrite drop_put_be. Qed.

Lemma padding_zero_put_at from data off buf :
  (off + length data <= from)%nat -> padding_zero from (put_at off data buf) = padding_zero from buf.
Proof. intros. unfold padding_zero. by rewrite drop_put_at. Qed.

#[export] Hint Rewrite length_put_be length_encodeBigEndian length_string_bytes string_size_nat : mw_buf.
#[export] Hint Resolve put_be_bytes encodeBigEndian_bytes string_bytes_Forall : mw.

(** Lengths of frames built from [put_be], [put_at] and [replicate]; the sizes of the
    protocols are unfold hints of [mw_size]. *)
Create HintDb mw_size discriminated.
Ltac buf_length := autorewrite with mw_buf; autounfold with mw_size; simpl; lia.

(** A value that fits its field. *)
Ltac fits_field :=
  lazymatch goal with
  | |- fits ?w ?v =>
      let w' := eval vm_compute in w in change (fits w' v);
      first [ assumption | autounfold with mw_size; unfold fits; simpl; lia ]
  end.

(** One step of reading a field of a frame that was written field by field. *)
Ltac read_step :=
  lazymatch goal with
  | |- get_be ?n ?off (put_be ?m ?v ?off' ?buf) = _ =>
      first [ rewrite (get_put_be_disjoint n off m v off' buf) by lia
            | rewrite (get_put_be_same n v off buf) by (fits_field || buf_length) ]
  | |- get_be ?n ?off (put_at ?off' ?data ?buf) = _ =>
      rewrite (get_be_put_at_disjoint n off data off' buf) by buf_length
  | |- get_at ?off ?n (put_be ?m ?v ?off' ?buf) = _ =>
      rewrite (get_at_put_be_disjoint off n m v off' buf) by buf_length
  | |- get_at ?off ?n (put_at ?off' ?data ?buf) = _ =>
      first [ rewrite (get_at_put_at_same off n data buf) by buf_length
            | rewrite (get_at_put_at_disjoint off n off' data buf) by buf_length ]
  | |- padding_zero ?from (put_be ?m ?v ?off' ?buf) = _ =>
      rewrite (padding_zero_put_be from m v off' buf) by buf_length
  | |- padding_zero ?from (put_at ?off' ?data ?buf) = _ =>
      rewrite (padding_zero_put_at from data off' buf) by buf_length
  | |- padding_zero ?from (replicate ?n 0) = _ => rewrite (padding_zero_replicate from n)
  end.

Ltac read_all :=
  repeat read_step;
  lazymatch goal with
  | |- get_be _ _ _ = _ => fail
  | |- get_at _ _ _ = _ => fail
  | |- padding_zero _ _ = _ => fail
  | |- _ => reflexivity
  end.

(** Replaces every read of [frame], a local definition, by the value written. *)
Ltac read_fields frame :=
  repeat match goal with
  | |- context [get_be ?n ?off frame] =>
      let E := fresh in
      eassert (get_be n off frame = _) as E by (unfold frame; read_all);
      rewrite E; clear E
  | |- context [get_at ?off ?n frame] =>
      let E := fresh in
      eassert (get_at off n frame = _) as E by (unfold frame; read_all);
      rewrite E; clear E
  | |- context [padding_zero ?from frame] =>
      let E := fresh in
      eassert (padding_zero from frame = _) as E by (unfold frame; read_all);
      rewrite E; clear E
  end.

(** Fields of a frame decoded from bytes and encoded again. *)
Ltac reencode_field :=
  unfold put_be;
  repeat first
    [ rewrite get_at_put_at_same by buf_length
    | rewrite get_at_put_at_disjoint by buf_length ];
  first [ apply encode_decodeBigEndian; [by apply Forall_get_at | apply length_get_at; lia]
        | idtac ].

(** The fields of a decoded frame fit their types. *)
Ltac field_fits :=
  lazymatch goal with
  | |- fits ?w (get_be ?n _ _) =>
      apply (get_be_fits n); [assumption | lia]
  end.

#[global] Opaque encodeBigEndian decodeBigEndian.
