(* ===== verification/FrameProtocol.v ===== *)
(** * UDS data frames

    [middleware/src/detail/frame_protocol.{hpp,cpp}]: the 24-byte header in front of
    a payload on a data socket. *)

From S2P Require Import Prelude BigEndian.
From Stdlib Require Import ZArith Lia List Bool.
From stdpp Require Import base list option.

Local Open Scope Z_scope.

Definition kFrameMagic : Z := 0x4D573031.
Definition kFrameHeaderSize : nat := 24.

Record FrameHeader := mkFrameHeader {
  fh_magic : Z;
  fh_payload_size : Z;
  fh_sequence : Z;
  fh_timestamp_ns : Z;
}.

#[export] Hint Unfold kFrameHeaderSize : mw_size.

Inductive FrameValidation := FrameValid | FrameBadMagic | FramePayloadTooLarge.

Definition encodeFrameHeader (header : FrameHeader) : list Z :=
  let encoded := replicate kFrameHeaderSize 0 in
  let encoded := put_be 4 (fh_magic header) 0 encoded in
  let encoded := put_be 4 (fh_payload_size header) 4 encoded in
  let encoded := put_be 8 (fh_sequence header) 8 encoded in
  put_be 8 (fh_timestamp_ns header) 16 encoded.

(** The pointer and size are an optional byte string: [None] is [nullptr]. *)
Definition decodeFrameHeader (data : option (list Z)) : option FrameHeader :=
  match data with
  | None => None
  | Some data =>
      if negb (length data =? kFrameHeaderSize)%nat then None
      else Some (mkFrameHeader (get_be 4 0 data) (get_be 4 4 data)
                               (get_be 8 8 data) (get_be 8 16 data))
  end.

Definition validateFrameHeader (header : FrameHeader) (max_message_size : Z) : FrameValidation :=
  if negb (fh_magic header =? kFrameMagic) then FrameBadMagic
  else if max_message_size <? fh_payload_size header then FramePayloadTooLarge
  else FrameValid.

(** The values the C++ type of a header can hold. *)
Definition FrameHeader_typed (h : FrameHeader) : Prop :=
  fits 32 (fh_magic h) /\ fits 32 (fh_payload_size h) /\
  fits 64 (fh_sequence h) /\ fits 64 (fh_timestamp_ns h).

(** ** Round trips *)

Lemma length_encodeFrameHeader h : length (encodeFrameHeader h) = kFrameHeaderSize.
Proof. unfold encodeFrameHeader. buf_length. Qed.

Lemma encodeFrameHeader_bytes h : Forall is_byte (encodeFrameHeader h).
Proof.
  unfold encodeFrameHeader. repeat apply put_be_bytes.
  apply Forall_replicate. unfold is_byte. lia.
Qed.

Lemma decode_encode_frame h :
  FrameHeader_typed h -> decodeFrameHeader (Some (encodeFrameHeader h)) = Some h.
Proof.
  intros (? & ? & ? & ?). unfold decodeFrameHeader.
  rewrite length_encodeFrameHeader. simpl negb. cbn iota.
  set (frame := encodeFrameHeader h). unfold encodeFrameHeader in frame.
  read_fields frame. by destruct h.
Qed.

Lemma frame_decode_typed data h :
  Forall is_byte data -> decodeFrameHeader (Some data) = Some h -> FrameHeader_typed h.
Proof.
  intros Hdata. unfold decodeFrameHeader. case_match eqn:Hlen; [done|].
  apply negb_false_iff, Nat.eqb_eq in Hlen. intros [= <-]. unfold kFrameHeaderSize in Hlen.
  unfold FrameHeader_typed. simpl. split_and!; field_fits.
Qed.

Lemma encode_decode_frame data h :
  Forall is_byte data -> decodeFrameHeader (Some data) = Some h -> encodeFrameHeader h = data.
Proof.
  intros Hdata. unfold decodeFrameHeader. case_match eqn:Hlen; [done|].
  apply negb_false_iff, Nat.eqb_eq in Hlen. intros [= <-]. unfold kFrameHeaderSize in Hlen.
  apply (fields_eq [4; 4; 8; 8]%nat); [by rewrite length_encodeFrameHeader | done |].
  intros k Hk. simpl in Hk. unfold encodeFrameHeader.
  destruct k as [|[|[|[|k]]]]; [..|lia]; simpl; reencode_field.
Qed.
