(* ===== verification/PoolProtocol.v ===== *)
(** * Pool notifications and releases

    [middleware/src/detail/pool_protocol.{hpp,cpp}]: fixed frames that carry a pool
    descriptor and a chunk handle. *)

From S2P Require Import Prelude Types BigEndian.
From Stdlib Require Import ZArith Lia List Bool String.
From stdpp Require Import base list strings option.

Local Open Scope Z_scope.

Definition kPoolNotificationMagic : Z := 0x4D575034.
Definition kPoolNotificationVersion : Z := 1.
Definition kPoolNotificationHeaderSize : nat := 80.
Definition kPoolNotificationSize : nat := kPoolNotificationHeaderSize + kMaxPoolNameSize.
Definition kPoolReleaseSize : nat := 40.
#[export] Hint Unfold kPoolNotificationMagic kPoolNotificationVersion kPoolNotificationHeaderSize
  kPoolNotificationSize kPoolReleaseSize kMaxPoolNameSize : mw_size.

(** [enum class PoolFrameKind] *)
Definition PoolFrameKind_Notification : Z := 1.
Definition PoolFrameKind_Release : Z := 2.
#[export] Hint Unfold PoolFrameKind_Notification PoolFrameKind_Release : mw_size.

Record PoolNotification := mkPoolNotification {
  pn_pool : PoolDescriptor;
  pn_handle : ChunkHandle;
  pn_payload_size : Z;
  pn_sequence : Z;
  pn_publish_timestamp_ns : Z;
}.

Record PoolRelease := mkPoolRelease {
  prl_handle : ChunkHandle;
  prl_sequence : Z;
}.

Definition encodePoolNotification (n : PoolNotification) : option (list Z) :=
  if negb (isValidSharedMemoryName (pd_shm_name (pn_pool n))) ||
     (Z.of_nat kMaxPoolNameSize <? string_size (pd_shm_name (pn_pool n)))
  then None
  else
    let e := replicate kPoolNotificationSize 0 in
    let e := put_be 4 kPoolNotificationMagic 0 e in
    let e := put_be 2 kPoolNotificationVersion 4 e in
    let e := put_be 2 PoolFrameKind_Notification 6 e in
    let e := put_be 4 (Z.of_nat kPoolNotificationSize) 8 e in
    let e := put_be 2 (string_size (pd_shm_name (pn_pool n))) 12 e in
    let e := put_be 2 (pd_layout_version (pn_pool n)) 14 e in
    let e := put_be 8 (pd_segment_size (pn_pool n)) 16 e in
    let e := put_be 8 (pd_pool_id (pn_pool n)) 24 e in
    let e := put_be 8 (pd_topic_id (pn_pool n)) 32 e in
    let e := put_be 4 (ch_chunk_index (pn_handle n)) 40 e in
    let e := put_be 4 (ch_generation (pn_handle n)) 44 e in
    let e := put_be 8 (ch_payload_offset (pn_handle n)) 48 e in
    let e := put_be 8 (pn_payload_size n) 56 e in
    let e := put_be 8 (pn_sequence n) 64 e in
    let e := put_be 8 (pn_publish_timestamp_ns n) 72 e in
    Some (put_at kPoolNotificationHeaderSize (string_bytes (pd_shm_name (pn_pool n))) e).

Definition decodePoolNotification (data : option (list Z)) : option PoolNotification :=
  match data with
  | None => None
  | Some data =>
      if negb (length data =? kPoolNotificationSize)%nat then None else
      let frame_size := get_be 4 8 data in
      let name_size := get_be 2 12 data in
      if negb (frame_size =? Z.of_nat kPoolNotificationSize) || (name_size =? 0) ||
         (Z.of_nat kMaxPoolNameSize <? name_size) then None else
      if negb (padding_zero (kPoolNotificationHeaderSize + Z.to_nat name_size) data) then None else
      if negb (get_be 4 0 data =? kPoolNotificationMagic) ||
         negb (get_be 2 4 data =? kPoolNotificationVersion) ||
         negb (get_be 2 6 data =? PoolFrameKind_Notification) then None else
      let pool := mkPoolDescriptor
        (bytes_string (get_at kPoolNotificationHeaderSize (Z.to_nat name_size) data))
        (get_be 8 24 data) (get_be 8 16 data) (get_be 8 32 data) (get_be 2 14 data) in
      let handle := mkChunkHandle (pd_pool_id pool) (get_be 4 40 data) (get_be 4 44 data)
                                  (get_be 8 48 data) in
      Some (mkPoolNotification pool handle (get_be 8 56 data) (get_be 8 64 data)
                               (get_be 8 72 data))
  end.

Definition validatePoolNotification (n : PoolNotification) (max_message_size expected_topic_id : Z)
    : ErrorCode :=
  if negb (isValidSharedMemoryName (pd_shm_name (pn_pool n))) ||
     negb (pd_layout_version (pn_pool n) =? kPoolLayoutVersion) ||
     (pd_segment_size (pn_pool n) =? 0) ||
     (size_max <? pd_segment_size (pn_pool n)) ||
     (pd_pool_id (pn_pool n) =? 0) ||
     negb (ch_pool_id (pn_handle n) =? pd_pool_id (pn_pool n)) ||
     (ch_generation (pn_handle n) =? 0) || (pn_sequence n =? 0) ||
     negb (pd_topic_id (pn_pool n) =? expected_topic_id)
  then InvalidFrame
  else if max_message_size <? pn_payload_size n then MessageTooLarge
  else Ok.

Definition encodePoolRelease (r : PoolRelease) : list Z :=
  let e := replicate kPoolReleaseSize 0 in
  let e := put_be 4 kPoolNotificationMagic 0 e in
  let e := put_be 2 kPoolNotificationVersion 4 e in
  let e := put_be 2 PoolFrameKind_Release 6 e in
  let e := put_be 8 (ch_pool_id (prl_handle r)) 8 e in
  let e := put_be 4 (ch_chunk_index (prl_handle r)) 16 e in
  let e := put_be 4 (ch_generation (prl_handle r)) 20 e in
  let e := put_be 8 (ch_payload_offset (prl_handle r)) 24 e in
  put_be 8 (prl_sequence r) 32 e.

Definition decodePoolRelease (data : option (list Z)) : option PoolRelease :=
  match data with
  | None => None
  | Some data =>
      if negb (length data =? kPoolReleaseSize)%nat then None else
      if negb (get_be 4 0 data =? kPoolNotificationMagic) ||
         negb (get_be 2 4 data =? kPoolNotificationVersion) ||
         negb (get_be 2 6 data =? PoolFrameKind_Release) then None else
      Some (mkPoolRelease
        (mkChunkHandle (get_be 8 8 data) (get_be 4 16 data) (get_be 4 20 data) (get_be 8 24 data))
        (get_be 8 32 data))
  end.

Definition validatePoolRelease (r : PoolRelease) (expected_handle : ChunkHandle)
    (expected_sequence : Z) : ErrorCode :=
  if negb (ChunkHandle_eqb (prl_handle r) expected_handle) ||
     negb (prl_sequence r =? expected_sequence)
  then InvalidChunkHandle else Ok.

(** The values the C++ types can hold. *)
Definition PoolDescriptor_typed (d : PoolDescriptor) : Prop :=
  fits 64 (pd_pool_id d) /\ fits 64 (pd_segment_size d) /\ fits 64 (pd_topic_id d) /\
  fits 16 (pd_layout_version d).
Definition ChunkHandle_typed (h : ChunkHandle) : Prop :=
  fits 64 (ch_pool_id h) /\ fits 32 (ch_chunk_index h) /\ fits 32 (ch_generation h) /\
  fits 64 (ch_payload_offset h).
Definition PoolNotification_typed (n : PoolNotification) : Prop :=
  PoolDescriptor_typed (pn_pool n) /\ ChunkHandle_typed (pn_handle n) /\
  fits 64 (pn_payload_size n) /\ fits 64 (pn_sequence n) /\ fits 64 (pn_publish_timestamp_ns n).

(** ** Facts *)

Lemma decode_encode_pool_notification n :
  PoolNotification_typed n -> isValidSharedMemoryName (pd_shm_name (pn_pool n)) = true ->
  ch_pool_id (pn_handle n) = pd_pool_id (pn_pool n) ->
  exists frame, encodePoolNotification n = Some frame /\
    length frame = kPoolNotificationSize /\ decodePoolNotification (Some frame) = Some n.
Proof.
  intros ((? & ? & ? & ?) & (? & ? & ? & ?) & ? & ? & ?) Hname Hpool.
  pose proof (valid_name_size _ Hname) as Hsize. unfold string_size in Hsize.
  unfold encodePoolNotification. rewrite Hname. simpl negb.
  replace (Z.of_nat kMaxPoolNameSize <? string_size _) with false
    by (symmetry; apply Z.ltb_ge; unfold string_size, kMaxPoolNameSize; lia).
  cbn iota zeta. eexists. split; [reflexivity|].
  assert (fits 16 (string_size (pd_shm_name (pn_pool n)))) by (unfold fits, string_size; lia).
  split; [buf_length|].
  match goal with |- decodePoolNotification (Some ?f) = _ => set (frame := f) end.
  unfold decodePoolNotification.
  replace (length frame) with kPoolNotificationSize by (unfold frame; buf_length).
  rewrite Nat.eqb_refl. cbn zeta. read_fields frame.
  rewrite !Z.eqb_refl.
  rewrite (proj2 (Z.eqb_neq (string_size _) 0)), (proj2 (Z.ltb_ge (Z.of_nat kMaxPoolNameSize) _))
    by (unfold string_size, kMaxPoolNameSize; lia).
  cbn [negb orb]. cbn iota. rewrite bytes_string_bytes. clear frame. destruct n as [[] [] ? ? ?]. simpl in *. by subst.
Qed.

Lemma decode_encode_pool_release r :
  ChunkHandle_typed (prl_handle r) -> fits 64 (prl_sequence r) ->
  decodePoolRelease (Some (encodePoolRelease r)) = Some r.
Proof.
  intros (? & ? & ? & ?) ?. unfold decodePoolRelease.
  replace (length (encodePoolRelease r)) with kPoolReleaseSize
    by (unfold encodePoolRelease; buf_length).
  rewrite Nat.eqb_refl. simpl negb. cbn iota.
  set (frame := encodePoolRelease r). unfold encodePoolRelease in frame. read_fields frame.
  cbn [negb orb]. cbn iota. by destruct r as [[] ?].
Qed.
