(* ===== verification/QueueProtocol.v ===== *)
(** * Queue wake and release frames

    [middleware/src/detail/queue_protocol.{hpp,cpp}]: the wake a publisher sends when a
    subscriber queue becomes nonempty, and the release a subscriber sends back for each
    chunk it has finished with. *)

From S2P Require Import Prelude Types BigEndian PoolProtocol.
From Stdlib Require Import ZArith Lia List Bool String.
From stdpp Require Import base list strings option.

Local Open Scope Z_scope.

Definition kQueueProtocolMagic : Z := 0x4D575135.
Definition kQueueProtocolVersion : Z := 1.
Definition kQueueWakeHeaderSize : nat := 80.
Definition kQueueWakeSize : nat := kQueueWakeHeaderSize + kMaxPoolNameSize.
Definition kQueueReleaseSize : nat := 32.

(** [enum class QueueFrameKind] *)
Definition QueueFrameKind_Wake : Z := 1.
Definition QueueFrameKind_Release : Z := 2.
#[export] Hint Unfold kQueueProtocolMagic kQueueProtocolVersion kQueueWakeHeaderSize
  kQueueWakeSize kQueueReleaseSize QueueFrameKind_Wake QueueFrameKind_Release : mw_size.

Record QueueWake := mkQueueWake {
  qw_pool : PoolDescriptor;
  qw_queue_id : Z;
}.

Definition encodeQueueWake (wake : QueueWake) : option (list Z) :=
  if negb (isValidSharedMemoryName (pd_shm_name (qw_pool wake))) ||
     (Z.of_nat kMaxPoolNameSize <? string_size (pd_shm_name (qw_pool wake))) ||
     (qw_queue_id wake =? 0)
  then None
  else
    let e := replicate kQueueWakeSize 0 in
    let e := put_be 4 kQueueProtocolMagic 0 e in
    let e := put_be 2 kQueueProtocolVersion 4 e in
    let e := put_be 2 QueueFrameKind_Wake 6 e in
    let e := put_be 4 (Z.of_nat kQueueWakeSize) 8 e in
    let e := put_be 2 (string_size (pd_shm_name (qw_pool wake))) 12 e in
    let e := put_be 2 (pd_layout_version (qw_pool wake)) 14 e in
    let e := put_be 8 (pd_segment_size (qw_pool wake)) 16 e in
    let e := put_be 8 (pd_pool_id (qw_pool wake)) 24 e in
    let e := put_be 8 (pd_topic_id (qw_pool wake)) 32 e in
    let e := put_be 8 (qw_queue_id wake) 40 e in
    Some (put_at kQueueWakeHeaderSize (string_bytes (pd_shm_name (qw_pool wake))) e).

Definition decodeQueueWake (data : option (list Z)) : option QueueWake :=
  match data with
  | None => None
  | Some data =>
      if negb (length data =? kQueueWakeSize)%nat then None else
      if negb (get_be 4 0 data =? kQueueProtocolMagic) ||
         negb (get_be 2 4 data =? kQueueProtocolVersion) ||
         negb (get_be 2 6 data =? QueueFrameKind_Wake) ||
         negb (get_be 4 8 data =? Z.of_nat kQueueWakeSize) then None else
      let name_size := get_be 2 12 data in
      if (name_size =? 0) || (Z.of_nat kMaxPoolNameSize <? name_size) then None else
      if negb (padding_zero (kQueueWakeHeaderSize + Z.to_nat name_size) data) then None else
      Some (mkQueueWake
        (mkPoolDescriptor
          (bytes_string (get_at kQueueWakeHeaderSize (Z.to_nat name_size) data))
          (get_be 8 24 data) (get_be 8 16 data) (get_be 8 32 data) (get_be 2 14 data))
        (get_be 8 40 data))
  end.

Definition validateQueueWake (wake : QueueWake) (expected_queue_id expected_topic_id : Z)
    : ErrorCode :=
  if negb (isValidSharedMemoryName (pd_shm_name (qw_pool wake))) ||
     negb (pd_layout_version (qw_pool wake) =? kPoolLayoutVersion) ||
     (pd_segment_size (qw_pool wake) =? 0) ||
     (size_max <? pd_segment_size (qw_pool wake)) ||
     (pd_pool_id (qw_pool wake) =? 0) ||
     negb (pd_topic_id (qw_pool wake) =? expected_topic_id) ||
     (qw_queue_id wake =? 0) || negb (qw_queue_id wake =? expected_queue_id)
  then InvalidFrame else Ok.

Definition encodeQueueRelease (handle : ChunkHandle) : list Z :=
  let e := replicate kQueueReleaseSize 0 in
  let e := put_be 4 kQueueProtocolMagic 0 e in
  let e := put_be 2 kQueueProtocolVersion 4 e in
  let e := put_be 2 QueueFrameKind_Release 6 e in
  let e := put_be 8 (ch_pool_id handle) 8 e in
  let e := put_be 4 (ch_chunk_index handle) 16 e in
  let e := put_be 4 (ch_generation handle) 20 e in
  put_be 8 (ch_payload_offset handle) 24 e.

Definition decodeQueueRelease (data : option (list Z)) : option ChunkHandle :=
  match data with
  | None => None
  | Some data =>
      if negb (length data =? kQueueReleaseSize)%nat then None else
      if negb (get_be 4 0 data =? kQueueProtocolMagic) ||
         negb (get_be 2 4 data =? kQueueProtocolVersion) ||
         negb (get_be 2 6 data =? QueueFrameKind_Release) then None else
      let handle := mkChunkHandle (get_be 8 8 data) (get_be 4 16 data) (get_be 4 20 data)
                                  (get_be 8 24 data) in
      if (ch_pool_id handle =? 0) || (ch_generation handle =? 0) then None else Some handle
  end.

(** ** Facts *)

Lemma length_encodeQueueRelease h : length (encodeQueueRelease h) = kQueueReleaseSize.
Proof. unfold encodeQueueRelease. buf_length. Qed.

Lemma encodeQueueRelease_bytes h : Forall is_byte (encodeQueueRelease h).
Proof.
  unfold encodeQueueRelease. repeat apply put_be_bytes.
  apply Forall_replicate. unfold is_byte. lia.
Qed.

Lemma decode_encode_queue_wake wake :
  PoolDescriptor_typed (qw_pool wake) -> fits 64 (qw_queue_id wake) -> qw_queue_id wake <> 0 ->
  isValidSharedMemoryName (pd_shm_name (qw_pool wake)) = true ->
  exists frame, encodeQueueWake wake = Some frame /\ length frame = kQueueWakeSize /\
    Forall is_byte frame /\ decodeQueueWake (Some frame) = Some wake.
Proof.
  intros (? & ? & ? & ?) ? Hid Hname.
  pose proof (valid_name_size _ Hname) as Hsize. unfold string_size in Hsize.
  assert (fits 16 (string_size (pd_shm_name (qw_pool wake)))) by (unfold fits, string_size; lia).
  unfold encodeQueueWake. rewrite Hname, (proj2 (Z.eqb_neq _ _) Hid).
  rewrite (proj2 (Z.ltb_ge (Z.of_nat kMaxPoolNameSize) _))
    by (unfold string_size, kMaxPoolNameSize; lia).
  cbn [negb orb]. cbn iota zeta. eexists. split; [reflexivity|]. split_and!.
  - buf_length.
  - apply Forall_put_at; [apply string_bytes_Forall|]. repeat apply put_be_bytes.
    apply Forall_replicate. unfold is_byte. lia.
  - match goal with |- decodeQueueWake (Some ?f) = _ => set (frame := f) end.
    unfold decodeQueueWake.
    replace (length frame) with kQueueWakeSize by (unfold frame; buf_length).
    rewrite Nat.eqb_refl. cbn zeta. read_fields frame. rewrite !Z.eqb_refl.
    rewrite (proj2 (Z.eqb_neq (string_size _) 0)), (proj2 (Z.ltb_ge (Z.of_nat kMaxPoolNameSize) _))
      by (unfold string_size, kMaxPoolNameSize; lia).
    cbn [negb orb]. cbn iota. rewrite bytes_string_bytes. clear frame.
    destruct wake as [[] ?]. reflexivity.
Qed.

Lemma decode_encode_queue_release h :
  ChunkHandle_typed h -> ch_pool_id h <> 0 -> ch_generation h <> 0 ->
  decodeQueueRelease (Some (encodeQueueRelease h)) = Some h.
Proof.
  intros (? & ? & ? & ?) Hpool Hgen. unfold decodeQueueRelease.
  rewrite length_encodeQueueRelease, Nat.eqb_refl. simpl negb. cbn iota zeta.
  set (frame := encodeQueueRelease h). unfold encodeQueueRelease in frame. read_fields frame.
  cbn [negb orb ch_pool_id ch_generation]. cbn iota.
  rewrite (proj2 (Z.eqb_neq _ _) Hpool), (proj2 (Z.eqb_neq _ _) Hgen). by destruct h.
Qed.

(** A release frame is the only encoding of the handle it decodes to. *)
Lemma encode_decode_queue_release data h :
  Forall is_byte data -> decodeQueueRelease (Some data) = Some h -> encodeQueueRelease h = data.
Proof.
  intros Hdata. unfold decodeQueueRelease. cbn zeta.
  case_match eqn:Hlen; [done|]. case_match eqn:Hmagic; [done|]. case_match; [done|].
  apply negb_false_iff, Nat.eqb_eq in Hlen. unfold kQueueReleaseSize in Hlen.
  intros [= <-]. bools.
  apply (fields_eq [4; 2; 2; 8; 4; 4; 8]%nat); [by rewrite length_encodeQueueRelease | done |].
  intros k Hk. simpl in Hk. unfold encodeQueueRelease.
  destruct k as [|[|[|[|[|[|[|k]]]]]]]; [..|lia]; simpl;
  match goal with |- context [get_at ?off ?n data] =>
    try match goal with E : get_be n off data = _ |- _ => rewrite <- E end
  end; reencode_field.
Qed.
