(* ===== verification/ShmProtocol.v ===== *)
(** * Single-message shared-memory protocol

    [middleware/src/detail/shm_protocol.{hpp,cpp}]: the header of a one-message segment,
    the notification that names it and the acknowledgement, with their validation. *)

From S2P Require Import Prelude Types BigEndian.
From Stdlib Require Import ZArith Lia List Bool String.
From stdpp Require Import base list strings option.

Local Open Scope Z_scope.

Definition kSharedMemoryMagic : Z := 0x4D575333.
Definition kSharedMemoryVersion : Z := 1.
Definition kSharedMemoryHeaderSize : nat := 48.
Definition kShmNotificationMagic : Z := 0x4D574E33.
Definition kShmNotificationVersion : Z := 1.
Definition kMaxShmNameSize : nat := 192.
Definition kShmNotificationHeaderSize : nat := 56.
Definition kShmNotificationSize : nat := kShmNotificationHeaderSize + kMaxShmNameSize.
Definition kShmAckSize : nat := 16.

(** [enum class ShmFrameKind]; decoders cast any 16-bit value to it. *)
Definition ShmFrameKind_Notification : Z := 1.
Definition ShmFrameKind_Ack : Z := 2.
#[export] Hint Unfold kSharedMemoryHeaderSize kMaxShmNameSize kShmNotificationHeaderSize
  kShmNotificationSize kShmAckSize : mw_size.

Record SharedMemoryHeader := mkSharedMemoryHeader {
  smh_magic : Z;
  smh_version : Z;
  smh_header_size : Z;
  smh_segment_size : Z;
  smh_payload_size : Z;
  smh_sequence : Z;
  smh_publish_timestamp_ns : Z;
  smh_topic_id : Z;
}.

Record ShmMessageHandle := mkShmMessageHandle {
  smg_shm_name : string;
  smg_segment_size : Z;
  smg_payload_size : Z;
  smg_sequence : Z;
  smg_publish_timestamp_ns : Z;
  smg_topic_id : Z;
}.

Record ShmNotification := mkShmNotification {
  sn_magic : Z;
  sn_version : Z;
  sn_kind : Z;
  sn_handle : ShmMessageHandle;
}.

Record ShmAck := mkShmAck {
  sa_magic : Z;
  sa_version : Z;
  sa_kind : Z;
  sa_sequence : Z;
}.

Inductive ShmValidation :=
  | ShmValid
  | ShmBadMagic
  | ShmUnsupportedVersion
  | ShmBadKind
  | ShmInvalidName
  | ShmInvalidSegmentSize
  | ShmPayloadTooLarge
  | ShmMetadataMismatch.

(** [checkedSegmentSize]: [None] when the sum would not fit 64 bits. *)
Definition checkedSegmentSize (payload_size : Z) : option Z :=
  if u64_max - Z.of_nat kSharedMemoryHeaderSize <? payload_size then None
  else Some (payload_size + Z.of_nat kSharedMemoryHeaderSize).

Definition encodeSharedMemoryHeader (h : SharedMemoryHeader) : list Z :=
  let e := replicate kSharedMemoryHeaderSize 0 in
  let e := put_be 4 (smh_magic h) 0 e in
  let e := put_be 2 (smh_version h) 4 e in
  let e := put_be 2 (smh_header_size h) 6 e in
  let e := put_be 8 (smh_segment_size h) 8 e in
  let e := put_be 8 (smh_payload_size h) 16 e in
  let e := put_be 8 (smh_sequence h) 24 e in
  let e := put_be 8 (smh_publish_timestamp_ns h) 32 e in
  put_be 8 (smh_topic_id h) 40 e.

Definition decodeSharedMemoryHeader (data : option (list Z)) : option SharedMemoryHeader :=
  match data with
  | None => None
  | Some data =>
      if negb (length data =? kSharedMemoryHeaderSize)%nat then None else
      Some (mkSharedMemoryHeader (get_be 4 0 data) (get_be 2 4 data) (get_be 2 6 data)
        (get_be 8 8 data) (get_be 8 16 data) (get_be 8 24 data) (get_be 8 32 data)
        (get_be 8 40 data))
  end.

Definition validateSharedMemoryHeader (h : SharedMemoryHeader) (mapped_size max_message_size : Z)
    : ShmValidation :=
  if negb (smh_magic h =? kSharedMemoryMagic) then ShmBadMagic else
  if negb (smh_version h =? kSharedMemoryVersion) then ShmUnsupportedVersion else
  if negb (smh_header_size h =? Z.of_nat kSharedMemoryHeaderSize) ||
     negb (smh_segment_size h =? mapped_size) ||
     (smh_segment_size h <? smh_header_size h) then ShmInvalidSegmentSize else
  match checkedSegmentSize (smh_payload_size h) with
  | None => ShmInvalidSegmentSize
  | Some expected_segment_size =>
      if negb (expected_segment_size =? smh_segment_size h) then ShmInvalidSegmentSize else
      if max_message_size <? smh_payload_size h then ShmPayloadTooLarge else ShmValid
  end.

Definition encodeShmNotification (n : ShmNotification) : option (list Z) :=
  if negb (isValidSharedMemoryName (smg_shm_name (sn_handle n))) ||
     (Z.of_nat kMaxShmNameSize <? string_size (smg_shm_name (sn_handle n)))
  then None
  else
    let e := replicate kShmNotificationSize 0 in
    let e := put_be 4 (sn_magic n) 0 e in
    let e := put_be 2 (sn_version n) 4 e in
    let e := put_be 2 (sn_kind n) 6 e in
    let e := put_be 2 (string_size (smg_shm_name (sn_handle n))) 8 e in
    let e := put_be 2 0 10 e in
    let e := put_be 4 (Z.of_nat kShmNotificationSize) 12 e in
    let e := put_be 8 (smg_segment_size (sn_handle n)) 16 e in
    let e := put_be 8 (smg_payload_size (sn_handle n)) 24 e in
    let e := put_be 8 (smg_sequence (sn_handle n)) 32 e in
    let e := put_be 8 (smg_publish_timestamp_ns (sn_handle n)) 40 e in
    let e := put_be 8 (smg_topic_id (sn_handle n)) 48 e in
    Some (put_at kShmNotificationHeaderSize (string_bytes (smg_shm_name (sn_handle n))) e).

Definition decodeShmNotification (data : option (list Z)) : option ShmNotification :=
  match data with
  | None => None
  | Some data =>
      if negb (length data =? kShmNotificationSize)%nat then None else
      let name_size := get_be 2 8 data in
      let reserved := get_be 2 10 data in
      let frame_size := get_be 4 12 data in
      if (name_size =? 0) || (Z.of_nat kMaxShmNameSize <? name_size) || negb (reserved =? 0) ||
         negb (frame_size =? Z.of_nat kShmNotificationSize) then None else
      if negb (padding_zero (kShmNotificationHeaderSize + Z.to_nat name_size) data) then None else
      Some (mkShmNotification (get_be 4 0 data) (get_be 2 4 data) (get_be 2 6 data)
        (mkShmMessageHandle
          (bytes_string (get_at kShmNotificationHeaderSize (Z.to_nat name_size) data))
          (get_be 8 16 data) (get_be 8 24 data) (get_be 8 32 data) (get_be 8 40 data)
          (get_be 8 48 data)))
  end.

Definition validateShmNotification (n : ShmNotification) (max_message_size expected_topic_id : Z)
    : ShmValidation :=
  if negb (sn_magic n =? kShmNotificationMagic) then ShmBadMagic else
  if negb (sn_version n =? kShmNotificationVersion) then ShmUnsupportedVersion else
  if negb (sn_kind n =? ShmFrameKind_Notification) then ShmBadKind else
  if negb (isValidSharedMemoryName (smg_shm_name (sn_handle n))) then ShmInvalidName else
  match checkedSegmentSize (smg_payload_size (sn_handle n)) with
  | None => ShmInvalidSegmentSize
  | Some expected_segment_size =>
      if negb (expected_segment_size =? smg_segment_size (sn_handle n)) ||
         (size_max <? smg_segment_size (sn_handle n)) then ShmInvalidSegmentSize else
      if max_message_size <? smg_payload_size (sn_handle n) then ShmPayloadTooLarge else
      if (smg_sequence (sn_handle n) =? 0) ||
         negb (smg_topic_id (sn_handle n) =? expected_topic_id) then ShmMetadataMismatch
      else ShmValid
  end.

Definition encodeShmAck (a : ShmAck) : list Z :=
  let e := replicate kShmAckSize 0 in
  let e := put_be 4 (sa_magic a) 0 e in
  let e := put_be 2 (sa_version a) 4 e in
  let e := put_be 2 (sa_kind a) 6 e in
  put_be 8 (sa_sequence a) 8 e.

Definition decodeShmAck (data : option (list Z)) : option ShmAck :=
  match data with
  | None => None
  | Some data =>
      if negb (length data =? kShmAckSize)%nat then None else
      Some (mkShmAck (get_be 4 0 data) (get_be 2 4 data) (get_be 2 6 data) (get_be 8 8 data))
  end.

Definition validateShmAck (a : ShmAck) (expected_sequence : Z) : ShmValidation :=
  if negb (sa_magic a =? kShmNotificationMagic) then ShmBadMagic else
  if negb (sa_version a =? kShmNotificationVersion) then ShmUnsupportedVersion else
  if negb (sa_kind a =? ShmFrameKind_Ack) then ShmBadKind else
  if negb (sa_sequence a =? expected_sequence) then ShmMetadataMismatch else ShmValid.

Definition sharedMemoryMetadataMatches (h : SharedMemoryHeader) (g : ShmMessageHandle) : bool :=
  (smh_segment_size h =? smg_segment_size g) && (smh_payload_size h =? smg_payload_size g) &&
  (smh_sequence h =? smg_sequence g) &&
  (smh_publish_timestamp_ns h =? smg_publish_timestamp_ns g) && (smh_topic_id h =? smg_topic_id g).

(** The values the C++ types can hold. *)
Definition SharedMemoryHeader_typed (h : SharedMemoryHeader) : Prop :=
  fits 32 (smh_magic h) /\ fits 16 (smh_version h) /\ fits 16 (smh_header_size h) /\
  fits 64 (smh_segment_size h) /\ fits 64 (smh_payload_size h) /\ fits 64 (smh_sequence h) /\
  fits 64 (smh_publish_timestamp_ns h) /\ fits 64 (smh_topic_id h).
Definition ShmNotification_typed (n : ShmNotification) : Prop :=
  fits 32 (sn_magic n) /\ fits 16 (sn_version n) /\ fits 16 (sn_kind n) /\
  fits 64 (smg_segment_size (sn_handle n)) /\ fits 64 (smg_payload_size (sn_handle n)) /\
  fits 64 (smg_sequence (sn_handle n)) /\ fits 64 (smg_publish_timestamp_ns (sn_handle n)) /\
  fits 64 (smg_topic_id (sn_handle n)).
Definition ShmAck_typed (a : ShmAck) : Prop :=
  fits 32 (sa_magic a) /\ fits 16 (sa_version a) /\ fits 16 (sa_kind a) /\ fits 64 (sa_sequence a).

(** The segment a publisher would announce: a valid notification and the header it names. *)
Definition notification_of (h : SharedMemoryHeader) (name : string) : ShmNotification :=
  mkShmNotification kShmNotificationMagic kShmNotificationVersion ShmFrameKind_Notification
    (mkShmMessageHandle name (smh_segment_size h) (smh_payload_size h) (smh_sequence h)
       (smh_publish_timestamp_ns h) (smh_topic_id h)).

(** ** Facts *)

Lemma decode_encode_shm_header h :
  SharedMemoryHeader_typed h -> decodeSharedMemoryHeader (Some (encodeSharedMemoryHeader h)) = Some h.
Proof.
  intros (? & ? & ? & ? & ? & ? & ? & ?). unfold decodeSharedMemoryHeader.
  replace (length (encodeSharedMemoryHeader h)) with kSharedMemoryHeaderSize
    by (unfold encodeSharedMemoryHeader; buf_length).
  rewrite Nat.eqb_refl. cbn [negb]. cbn iota.
  set (frame := encodeSharedMemoryHeader h). unfold encodeSharedMemoryHeader in frame.
  read_fields frame. by destruct h.
Qed.

Lemma decode_encode_shm_ack a :
  ShmAck_typed a -> decodeShmAck (Some (encodeShmAck a)) = Some a.
Proof.
  intros (? & ? & ? & ?). unfold decodeShmAck.
  replace (length (encodeShmAck a)) with kShmAckSize by (unfold encodeShmAck; buf_length).
  rewrite Nat.eqb_refl. cbn [negb]. cbn iota.
  set (frame := encodeShmAck a). unfold encodeShmAck in frame.
  read_fields frame. by destruct a.
Qed.

Lemma decode_encode_shm_notification n :
  ShmNotification_typed n -> isValidSharedMemoryName (smg_shm_name (sn_handle n)) = true ->
  exists frame, encodeShmNotification n = Some frame /\ length frame = kShmNotificationSize /\
    decodeShmNotification (Some frame) = Some n.
Proof.
  intros (? & ? & ? & ? & ? & ? & ? & ?) Hname.
  pose proof (valid_name_size _ Hname) as Hsize. unfold string_size in Hsize.
  assert (fits 16 (string_size (smg_shm_name (sn_handle n)))) by (unfold fits, string_size; lia).
  unfold encodeShmNotification. rewrite Hname.
  rewrite (proj2 (Z.ltb_ge (Z.of_nat kMaxShmNameSize) _))
    by (unfold string_size, kMaxShmNameSize; lia).
  cbn [negb orb]. cbn iota zeta. eexists. split; [reflexivity|]. split; [buf_length|].
  match goal with |- decodeShmNotification (Some ?f) = _ => set (frame := f) end.
  unfold decodeShmNotification.
  replace (length frame) with kShmNotificationSize by (unfold frame; buf_length).
  rewrite Nat.eqb_refl. cbn zeta. read_fields frame. rewrite !Z.eqb_refl.
  rewrite (proj2 (Z.eqb_neq (string_size _) 0)), (proj2 (Z.ltb_ge (Z.of_nat kMaxShmNameSize) _))
    by (unfold string_size, kMaxShmNameSize; lia).
  cbn [negb orb]. cbn iota. rewrite bytes_string_bytes. clear frame.
  destruct n as [? ? ? []]. reflexivity.
Qed.

(** A header that validates describes a segment whose payload lies inside the mapping. *)
Lemma validated_header_bounds h mapped_size max_message_size :
  SharedMemoryHeader_typed h ->
  validateSharedMemoryHeader h mapped_size max_message_size = ShmValid ->
  Z.of_nat kSharedMemoryHeaderSize + smh_payload_size h = mapped_size /\
  smh_payload_size h <= max_message_size.
Proof.
  intros _. unfold validateSharedMemoryHeader, checkedSegmentSize.
  repeat (case_match; try done). intros _. simplify_eq. bools. lia.
Qed.
