(* ===== verification/ControlProtocol.v ===== *)
(** * Registry control protocol

    [middleware/src/detail/control_protocol.{hpp,cpp}]: control headers and frames, the
    typed payload writer and reader, and the response envelope. *)

From S2P Require Import Prelude Types Outcome BigEndian.
From Stdlib Require Import ZArith Lia List Bool String.
From stdpp Require Import base list strings option.

Local Open Scope Z_scope.

Definition kControlMagic : Z := 0x4D574332.
Definition kControlVersion : Z := 5.
Definition kControlHeaderSize : nat := 16.
Definition kMaxControlPayloadSize : Z := 64 * 1024.
#[export] Hint Unfold kControlHeaderSize : mw_size.

Inductive Opcode :=
  | RegisterNode
  | UnregisterNode
  | AdvertiseTopic
  | UnadvertiseTopic
  | SubscribeTopic
  | UnsubscribeTopic
  | ResolveEndpoint
  | ListNodes
  | ListTopics
  | QueryTopic
  | AttachHeartbeat
  | Heartbeat
  | QueryStats
  | Response
  | Opcode_other (value : Z).

#[export] Instance Opcode_eq_dec : EqDecision Opcode.
Proof. solve_decision. Defined.

Definition Opcode_to_u16 (o : Opcode) : Z :=
  match o with
  | RegisterNode => 1 | UnregisterNode => 2 | AdvertiseTopic => 3 | UnadvertiseTopic => 4
  | SubscribeTopic => 5 | UnsubscribeTopic => 6 | ResolveEndpoint => 7 | ListNodes => 8
  | ListTopics => 9 | QueryTopic => 10 | AttachHeartbeat => 11 | Heartbeat => 12
  | QueryStats => 13 | Response => 100 | Opcode_other v => v
  end.

Definition Opcode_of_u16 (v : Z) : Opcode :=
  match v with
  | 1 => RegisterNode | 2 => UnregisterNode | 3 => AdvertiseTopic | 4 => UnadvertiseTopic
  | 5 => SubscribeTopic | 6 => UnsubscribeTopic | 7 => ResolveEndpoint | 8 => ListNodes
  | 9 => ListTopics | 10 => QueryTopic | 11 => AttachHeartbeat | 12 => Heartbeat
  | 13 => QueryStats | 100 => Response | _ => Opcode_other v
  end.

Record ControlHeader := mkControlHeader {
  ctl_magic : Z;
  ctl_version : Z;
  ctl_opcode : Opcode;
  ctl_request_id : Z;
  ctl_payload_size : Z;
}.

Record ControlFrame := mkControlFrame {
  cf_header : ControlHeader;
  cf_payload : list Z;
}.

Inductive ControlHeaderValidation :=
  | ControlValid
  | ControlBadMagic
  | ControlUnsupportedVersion
  | ControlPayloadTooLarge.

(** ** [PayloadWriter]: the bytes written so far *)

Definition PayloadWriter : Type := list Z.

(** [appendBigEndian] *)
Definition appendBigEndian (n : nat) (value : Z) : cpp PayloadWriter unit :=
  modify (fun data => data ++ encodeBigEndian n value).
Definition writeU16 (value : Z) : cpp PayloadWriter unit := appendBigEndian 2 value.
Definition writeU32 (value : Z) : cpp PayloadWriter unit := appendBigEndian 4 value.
Definition writeU64 (value : Z) : cpp PayloadWriter unit := appendBigEndian 8 value.
Definition writeBytes (value : list Z) : cpp PayloadWriter unit := modify (fun data => data ++ value).
Definition writeString (value : string) : cpp PayloadWriter unit :=
  if u32_max <? string_size value then throw ex_length_error
  else writeU32 (string_size value);; writeBytes (string_bytes value).

(** ** [PayloadReader]: the payload and the read offset

    A read returns a [bool] and an out-parameter: [Some v] is [true] with [v] stored,
    [None] is [false]. *)

Record PayloadReader := mkPayloadReader {
  rd_data : list Z;
  rd_offset : Z;
}.
#[export] Instance PayloadReader_eta : Eta PayloadReader := fun r =>
  mkPayloadReader (rd_data r) (rd_offset r).

Definition reader_of (data : list Z) : PayloadReader := mkPayloadReader data 0.
Definition data_size (r : PayloadReader) : Z := Z.of_nat (length (rd_data r)).
Definition remaining (r : PayloadReader) : Z := wrap 64 (data_size r - rd_offset r).
Definition reader_empty (r : PayloadReader) : bool := rd_offset r =? data_size r.

Definition advance (n : Z) : cpp PayloadReader unit :=
  modify (fun r => r <| rd_offset := wrap 64 (rd_offset r + n) |>).

(** [readU16], [readU32] and [readU64] differ in the width [n] only. *)
Definition readUnsigned (n : nat) : cpp PayloadReader (option Z) :=
  r ← this;
  if remaining r <? Z.of_nat n then mret None
  else
    bytes ← or_undef (read_at (Z.to_nat (rd_offset r)) n (rd_data r));
    advance (Z.of_nat n);;
    mret (Some (decodeBigEndian n bytes)).
Definition readU16 : cpp PayloadReader (option Z) := readUnsigned 2.
Definition readU32 : cpp PayloadReader (option Z) := readUnsigned 4.
Definition readU64 : cpp PayloadReader (option Z) := readUnsigned 8.

Definition readString : cpp PayloadReader (option string) :=
  size ← readU32;
  match size with
  | None => mret None
  | Some size =>
      r ← this;
      if remaining r <? size then mret None
      else
        bytes ← or_undef (read_at (Z.to_nat (rd_offset r)) (Z.to_nat size) (rd_data r));
        advance size;;
        mret (Some (bytes_string bytes))
  end.

Definition readRemaining : cpp PayloadReader (option (list Z)) :=
  r ← this;
  bytes ← or_undef (if rd_offset r <=? data_size r
                    then Some (drop (Z.to_nat (rd_offset r)) (rd_data r)) else None);
  modify (fun r => r <| rd_offset := data_size r |>);;
  mret (Some bytes).

(** ** Headers and frames *)

Definition encodeControlHeader (h : ControlHeader) : list Z :=
  encodeBigEndian 4 (ctl_magic h) ++ encodeBigEndian 2 (ctl_version h) ++
  encodeBigEndian 2 (Opcode_to_u16 (ctl_opcode h)) ++ encodeBigEndian 4 (ctl_request_id h) ++
  encodeBigEndian 4 (ctl_payload_size h).

Definition decodeControlHeader (data : option (list Z)) : option ControlHeader :=
  match data with
  | None => None
  | Some data =>
      if negb (length data =? kControlHeaderSize)%nat then None else
      Some (mkControlHeader (get_be 4 0 data) (get_be 2 4 data) (Opcode_of_u16 (get_be 2 6 data))
              (get_be 4 8 data) (get_be 4 12 data))
  end.

Definition validateControlHeader (h : ControlHeader) : ControlHeaderValidation :=
  if negb (ctl_magic h =? kControlMagic) then ControlBadMagic else
  if negb (ctl_version h =? kControlVersion) then ControlUnsupportedVersion else
  if kMaxControlPayloadSize <? ctl_payload_size h then ControlPayloadTooLarge
  else ControlValid.

Definition encodeControlFrame (opcode : Opcode) (request_id : Z) (payload : list Z)
    : outcome (list Z) :=
  if kMaxControlPayloadSize <? Z.of_nat (length payload) then Throw ex_length_error
  else
    let header := mkControlHeader kControlMagic kControlVersion opcode request_id
                                  (wrap 32 (Z.of_nat (length payload))) in
    Ret (encodeControlHeader header ++ payload).

Definition isKnownRequestOpcode (opcode : Opcode) : bool :=
  match opcode with
  | RegisterNode | UnregisterNode | AdvertiseTopic | UnadvertiseTopic | SubscribeTopic
  | UnsubscribeTopic | ResolveEndpoint | ListNodes | ListTopics | QueryTopic
  | AttachHeartbeat | Heartbeat | QueryStats => true
  | Response => false
  | Opcode_other _ => false
  end.

(** ** Response envelope *)

Record ResponseEnvelope := mkResponseEnvelope {
  env_error : ErrorCode;
  env_message : string;
  env_body : list Z;
}.

Definition encodeResponsePayload (error : ErrorCode) (message : string) (body : list Z)
    : outcome (list Z) :=
  match (writeU16 (ErrorCode_to_u16 error);; writeString message;; writeBytes body) [] with
  | (Ret _, data) => Ret data
  | (Throw e, _) => Throw e
  | (Undef, _) => Undef
  end.

Definition decodeResponsePayload (payload : list Z) : outcome (option ResponseEnvelope) :=
  fst ((error ← readU16;
        match error with
        | None => mret None
        | Some error =>
            message ← readString;
            match message with
            | None => mret None
            | Some message =>
                body ← readRemaining;
                match body with
                | None => mret None
                | Some body =>
                    mret (Some (mkResponseEnvelope (ErrorCode_of_u16 error) message body))
                end
            end
        end) (reader_of payload)).

(** ** Typed payloads

    Every request and response body is a fixed sequence of such fields; a handler reads
    them in order, stops at the first failure and then requires the payload to be
    exhausted. *)

Inductive field :=
  | FU16 (v : Z)
  | FU32 (v : Z)
  | FU64 (v : Z)
  | FStr (s : string).
Inductive field_kind := KU16 | KU32 | KU64 | KStr.

Definition kind_of (f : field) : field_kind :=
  match f with FU16 _ => KU16 | FU32 _ => KU32 | FU64 _ => KU64 | FStr _ => KStr end.

Definition write_field (f : field) : cpp PayloadWriter unit :=
  match f with
  | FU16 v => writeU16 v | FU32 v => writeU32 v | FU64 v => writeU64 v | FStr s => writeString s
  end.

(** The bytes of a [PayloadWriter] after writing the fields. *)
Definition write_body (fields : list field) : outcome (list Z) :=
  match for_each fields write_field [] with
  | (Ret _, data) => Ret data
  | (Throw e, _) => Throw e
  | (Undef, _) => Undef
  end.

Definition read_field_kind (k : field_kind) : cpp PayloadReader (option field) :=
  match k with
  | KU16 => v ← readU16; mret (FU16 <$> v)
  | KU32 => v ← readU32; mret (FU32 <$> v)
  | KU64 => v ← readU64; mret (FU64 <$> v)
  | KStr => s ← readString; mret (FStr <$> s)
  end.

Fixpoint read_fields_seq (ks : list field_kind) : cpp PayloadReader (option (list field)) :=
  match ks with
  | [] => r ← this; mret (if reader_empty r then Some [] else None)
  | k :: ks =>
      f ← read_field_kind k;
      match f with
      | None => mret None
      | Some f => fs ← read_fields_seq ks; mret ((fun fs => f :: fs) <$> fs)
      end
  end.

Definition parse_payload (ks : list field_kind) (payload : list Z) : outcome (option (list field)) :=
  fst (read_fields_seq ks (reader_of payload)).

Definition field_typed (f : field) : Prop :=
  match f with
  | FU16 v => fits 16 v | FU32 v => fits 32 v | FU64 v => fits 64 v
  | FStr s => string_size s <= u32_max
  end.

Definition field_bytes (f : field) : list Z :=
  match f with
  | FU16 v => encodeBigEndian 2 v | FU32 v => encodeBigEndian 4 v | FU64 v => encodeBigEndian 8 v
  | FStr s => encodeBigEndian 4 (string_size s) ++ string_bytes s
  end.
Definition fields_bytes (fs : list field) : list Z := concat (map field_bytes fs).

(** The offset never passes the end, and sizes stay below the range of [size_t]. *)
Definition reader_ok (r : PayloadReader) : Prop := 0 <= rd_offset r <= data_size r /\ data_size r < 2 ^ 63.

(** A reader positioned in front of [mid]. *)
Definition positioned (r : PayloadReader) (pre mid post : list Z) : Prop :=
  rd_data r = pre ++ mid ++ post /\ rd_offset r = Z.of_nat (length pre) /\ data_size r < 2 ^ 63.

(** The values the C++ type of a header can hold. *)
Definition ControlHeader_typed (h : ControlHeader) : Prop :=
  fits 32 (ctl_magic h) /\ fits 16 (ctl_version h) /\
  Opcode_of_u16 (Opcode_to_u16 (ctl_opcode h)) = ctl_opcode h /\
  fits 16 (Opcode_to_u16 (ctl_opcode h)) /\ fits 32 (ctl_request_id h) /\
  fits 32 (ctl_payload_size h).

(** ** Reading is safe *)

Lemma remaining_ok r : reader_ok r -> remaining r = data_size r - rd_offset r.
Proof. unfold reader_ok, remaining. intros. apply wrap_small. unfold fits. lia. Qed.

Lemma advance_ok r n :
  reader_ok r -> 0 <= n <= data_size r - rd_offset r ->
  exists r', runs (advance n) r tt r' /\ reader_ok r' /\ rd_data r' = rd_data r /\
    rd_offset r' = rd_offset r + n.
Proof.
  unfold reader_ok. intros Hr Hn. eexists. split; [reflexivity|].
  unfold data_size in *. cbn. rewrite wrap_small by (unfold fits; lia). split_and!; auto with lia.
Qed.

(** [readUnsigned] returns: [None] exactly when fewer than [n] bytes remain, otherwise the
    big-endian value of the next [n] bytes, which it consumes. *)
Lemma readUnsigned_spec n r :
  reader_ok r ->
  (data_size r - rd_offset r < Z.of_nat n /\ runs (readUnsigned n) r None r) \/
  (Z.of_nat n <= data_size r - rd_offset r /\
   exists r', runs (readUnsigned n) r
     (Some (decodeBigEndian n (get_at (Z.to_nat (rd_offset r)) n (rd_data r)))) r' /\
   reader_ok r' /\ rd_data r' = rd_data r /\ rd_offset r' = rd_offset r + Z.of_nat n).
Proof.
  intros Hr. pose proof (remaining_ok r Hr) as Hrem.
  assert (Hok := Hr). unfold reader_ok in Hok.
  destruct (Z.lt_ge_cases (data_size r - rd_offset r) (Z.of_nat n)).
  - left. split; [done|]. unfold runs, readUnsigned, mbind, cpp_bind, this.
    rewrite (proj2 (Z.ltb_lt _ _)) by lia. done.
  - right. split; [lia|]. destruct (advance_ok r (Z.of_nat n)) as (r' & Hadv & Hr' & Hd & Ho);
      [done | lia |].
    exists r'. split; [|done]. unfold runs, readUnsigned, mbind, cpp_bind, this.
    rewrite (proj2 (Z.ltb_ge _ _)) by lia.
    rewrite read_at_Some by (unfold data_size in *; lia). cbn [or_undef].
    unfold mret, cpp_ret. by rewrite Hadv.
Qed.

Lemma readString_spec r :
  Forall is_byte (rd_data r) -> reader_ok r ->
  exists s r', runs readString r s r' /\ reader_ok r' /\ rd_data r' = rd_data r.
Proof.
  intros Hbytes Hr. unfold readString.
  destruct (readUnsigned_spec 4 r Hr) as [[? Hnone] | (Hlen & r1 & Hsome & Hr1 & Hd1 & Ho1)].
  { exists None, r. split; [|done]. eapply runs_bind; [apply Hnone|]. done. }
  set (size := decodeBigEndian 4 _) in *.
  assert (fits 32 size) as Hsize.
  { apply (decodeBigEndian_fits 4); [by apply Forall_get_at|].
    apply length_get_at. unfold reader_ok, data_size in *. lia. }
  unfold fits in Hsize. pose proof (remaining_ok r1 Hr1) as Hrem1.
  destruct (Z.lt_ge_cases (remaining r1) size).
  - exists None, r1. split; [|done]. eapply runs_bind; [apply Hsome|].
    unfold runs, mbind, cpp_bind, this. by rewrite (proj2 (Z.ltb_lt _ _)) by lia.
  - destruct (advance_ok r1 size) as (r2 & Hadv & Hr2 & Hd2 & Ho2); [done|lia|].
    eexists _, r2. split; [|by rewrite Hd2]. eapply runs_bind; [apply Hsome|].
    unfold runs, mbind, cpp_bind, this. rewrite (proj2 (Z.ltb_ge _ _)) by lia.
    rewrite read_at_Some by (unfold reader_ok, data_size in *; lia). cbn [or_undef].
    unfold mret, cpp_ret. by rewrite Hadv.
Qed.

Lemma read_field_kind_ok k r :
  Forall is_byte (rd_data r) -> reader_ok r ->
  exists f r', runs (read_field_kind k) r f r' /\ reader_ok r' /\ rd_data r' = rd_data r.
Proof.
  intros Hbytes Hr. destruct k; simpl;
  try (unfold readU16, readU32, readU64;
    match goal with |- context [readUnsigned ?n] =>
      destruct (readUnsigned_spec n r Hr) as [[? Hn] | (? & r1 & Hs & ? & ? & ?)] end;
    [ exists None, r; split; [eapply runs_bind; [apply Hn|done]|done]
    | eexists _, r1; split; [eapply runs_bind; [apply Hs|reflexivity]|done] ]).
  destruct (readString_spec r Hbytes Hr) as (s & r1 & Hs & ? & ?).
  eexists _, r1. split; [eapply runs_bind; [apply Hs|reflexivity]|done].
Qed.

Lemma read_fields_seq_ok ks r :
  Forall is_byte (rd_data r) -> reader_ok r ->
  exists fs r', runs (read_fields_seq ks) r fs r'.
Proof.
  revert r. induction ks as [|k ks IH]; intros r Hbytes Hr; simpl.
  - eexists _, r. reflexivity.
  - destruct (read_field_kind_ok k r Hbytes Hr) as (f & r1 & Hf & Hr1 & Hd1).
    destruct f as [f|].
    + destruct (IH r1) as (fs & r2 & Hfs); [by rewrite Hd1 | done |].
      eexists _, r2. eapply runs_bind; [apply Hf|]. eapply runs_bind; [apply Hfs|]. reflexivity.
    + eexists _, r1. eapply runs_bind; [apply Hf|]. reflexivity.
Qed.

(** ** Writing then reading *)

Lemma write_field_spec f data :
  field_typed f -> runs (write_field f) data tt (data ++ field_bytes f).
Proof.
  destruct f; simpl; intros Htyped; try reflexivity.
  unfold writeString. rewrite (proj2 (Z.ltb_ge _ _)) by done.
  unfold runs, writeU32, writeBytes, appendBigEndian, mbind, cpp_bind, modify.
  by rewrite <- app_assoc.
Qed.

Lemma get_at_app_middle (pre mid post : list Z) n :
  length mid = n -> get_at (length pre) n (pre ++ mid ++ post) = mid.
Proof.
  intros <-. unfold get_at. by rewrite drop_app_length, take_app_length.
Qed.

Lemma positioned_ok r pre mid post : positioned r pre mid post -> reader_ok r.
Proof.
  intros (Hd & Ho & Hs). unfold reader_ok. split; [|done].
  rewrite Ho. unfold data_size in *. rewrite Hd, length_app in *. lia.
Qed.

Lemma readUnsigned_value n v r pre post :
  fits (8 * Z.of_nat n) v -> positioned r pre (encodeBigEndian n v) post ->
  exists r', runs (readUnsigned n) r (Some v) r' /\ rd_data r' = rd_data r /\
    rd_offset r' = rd_offset r + Z.of_nat n.
Proof.
  intros Hv Hpos. pose proof (positioned_ok _ _ _ _ Hpos) as Hr.
  destruct Hpos as (Hd & Ho & Hs).
  destruct (readUnsigned_spec n r Hr) as [[Hshort _] | (_ & r' & Hrun & _ & Hd' & Ho')].
  - exfalso. unfold data_size in Hshort. rewrite Hd, Ho, !length_app, length_encodeBigEndian in Hshort.
    lia.
  - exists r'. split; [|done]. rewrite Hd, Ho, Nat2Z.id in Hrun.
    rewrite get_at_app_middle in Hrun by apply length_encodeBigEndian.
    by rewrite decode_encodeBigEndian in Hrun.
Qed.

Lemma readString_value s r pre post :
  string_size s <= u32_max -> positioned r pre (field_bytes (FStr s)) post ->
  exists r', runs readString r (Some s) r' /\ rd_data r' = rd_data r /\
    rd_offset r' = rd_offset r + Z.of_nat (length (field_bytes (FStr s))).
Proof.
  intros Hsize Hpos. simpl in *. pose proof (string_size_nonneg s).
  assert (length (string_bytes s) = Z.to_nat (string_size s)) as Hlen
    by (rewrite length_string_bytes, string_size_nat; done).
  destruct (readUnsigned_value 4 (string_size s) r pre (string_bytes s ++ post))
    as (r1 & Hrun1 & Hd1 & Ho1).
  { change (fits 32 (string_size s)). unfold fits, umax in *. lia. }
  { destruct Hpos as (Hd & ?). split; [|done]. by rewrite Hd, <- app_assoc. }
  destruct Hpos as (Hd & Ho & Hs).
  assert (positioned r1 (pre ++ encodeBigEndian 4 (string_size s)) (string_bytes s) post) as Hpos1.
  { split_and!.
    - by rewrite Hd1, Hd, <- !app_assoc.
    - rewrite Ho1, Ho, length_app, length_encodeBigEndian. lia.
    - unfold data_size in *. by rewrite Hd1. }
  pose proof (positioned_ok _ _ _ _ Hpos1) as Hr1. destruct Hpos1 as (Hd1' & Ho1' & Hs1).
  assert (data_size r1 - rd_offset r1 = string_size s + Z.of_nat (length post)) as Hrem.
  { unfold data_size. rewrite Hd1', Ho1', !length_app. lia. }
  destruct (advance_ok r1 (string_size s)) as (r2 & Hadv & _ & Hd2 & Ho2); [done|lia|].
  exists r2. split; [|split].
  - eapply runs_bind; [apply Hrun1|]. unfold runs, mbind, cpp_bind, this.
    rewrite remaining_ok, (proj2 (Z.ltb_ge _ _)) by (done || lia).
    rewrite read_at_Some by (unfold data_size in *; lia).
    cbn [or_undef]. unfold mret, cpp_ret. rewrite Hadv.
    rewrite Ho1', Hd1', Nat2Z.id, get_at_app_middle by done. by rewrite bytes_string_bytes.
  - congruence.
  - rewrite Ho2, Ho1, length_app, length_encodeBigEndian, Hlen. lia.
Qed.

Lemma read_field_value f r pre post :
  field_typed f -> positioned r pre (field_bytes f) post ->
  exists r', runs (read_field_kind (kind_of f)) r (Some f) r' /\
    rd_data r' = rd_data r /\ rd_offset r' = rd_offset r + Z.of_nat (length (field_bytes f)).
Proof.
  intros Htyped Hpos. destruct f as [v|v|v|s]; simpl in *;
  try (unfold readU16, readU32, readU64; rewrite length_encodeBigEndian;
    match goal with |- context [readUnsigned ?n] =>
      destruct (readUnsigned_value n v r pre post) as (r' & Hrun & ? & ?); [done..|] end;
    exists r'; split; [eapply runs_bind; [apply Hrun|reflexivity]|done]).
  destruct (readString_value s r pre post) as (r' & Hrun & ? & ?); [done..|].
  exists r'. split; [eapply runs_bind; [apply Hrun|reflexivity]|done].
Qed.

Lemma read_fields_seq_value fs r pre post :
  Forall field_typed fs -> positioned r pre (fields_bytes fs) post ->
  exists r', runs (read_fields_seq (map kind_of fs)) r
    (if decide (post = []) then Some fs else None) r'.
Proof.
  revert r pre. induction fs as [|f fs IH]; intros r pre Htyped Hpos; simpl.
  - exists r. unfold runs, mbind, cpp_bind, this, mret, cpp_ret. do 2 f_equal.
    destruct Hpos as (Hd & Ho & _). unfold reader_empty, data_size.
    rewrite Hd, Ho, !length_app. simpl.
    case_decide as Hpost; [subst; simpl; rewrite Nat.add_0_r, Z.eqb_refl; done|].
    destruct post; [done|]. rewrite (proj2 (Z.eqb_neq _ _)) by (simpl; lia). done.
  - apply Forall_cons_1 in Htyped as [Hf Hfs].
    destruct (read_field_value f r pre (fields_bytes fs ++ post)) as (r1 & Hrun1 & Hd1 & Ho1); [done|..].
    { destruct Hpos as (Hd & ?). split; [|done]. rewrite Hd. unfold fields_bytes. simpl.
      by rewrite <- app_assoc. }
    destruct (IH r1 (pre ++ field_bytes f)) as (r2 & Hrun2); [done|..].
    { destruct Hpos as (Hd & Ho & Hs). split_and!.
      - rewrite Hd1, Hd. unfold fields_bytes. simpl. by rewrite <- !app_assoc.
      - rewrite Ho1, Ho, length_app. lia.
      - unfold data_size in *. by rewrite Hd1. }
    exists r2. eapply runs_bind; [apply Hrun1|]. cbn iota.
    eapply runs_bind; [apply Hrun2|]. by case_decide.
Qed.

(** Fields written in order and followed by [post] parse back exactly when nothing
    follows them. *)
Lemma parse_written fs post :
  Forall field_typed fs -> Z.of_nat (length (fields_bytes fs ++ post)) < 2 ^ 63 ->
  parse_payload (map kind_of fs) (fields_bytes fs ++ post) =
  Ret (if decide (post = []) then Some fs else None).
Proof.
  intros Htyped Hlen. unfold parse_payload.
  destruct (read_fields_seq_value fs (reader_of (fields_bytes fs ++ post)) [] post)
    as (r' & Hrun); [done|done|]. by rewrite Hrun.
Qed.

(** ** Headers and envelopes *)

Lemma length_encodeControlHeader h : length (encodeControlHeader h) = kControlHeaderSize.
Proof. unfold encodeControlHeader. buf_length. Qed.

Lemma get_be_concat n off v pre post buf :
  buf = pre ++ encodeBigEndian n v ++ post -> length pre = off -> fits (8 * Z.of_nat n) v ->
  get_be n off buf = v.
Proof.
  intros -> <- Hv. unfold get_be. rewrite get_at_app_middle by apply length_encodeBigEndian.
  by apply decode_encodeBigEndian.
Qed.

Lemma decode_encode_control_header h :
  ControlHeader_typed h -> decodeControlHeader (Some (encodeControlHeader h)) = Some h.
Proof.
  intros (? & ? & Hop & ? & ? & ?). unfold decodeControlHeader.
  rewrite length_encodeControlHeader, Nat.eqb_refl. cbn [negb]. cbn iota.
  unfold encodeControlHeader.
  set (m := encodeBigEndian 4 (ctl_magic h)). set (v := encodeBigEndian 2 (ctl_version h)).
  set (o := encodeBigEndian 2 (Opcode_to_u16 (ctl_opcode h))).
  set (q := encodeBigEndian 4 (ctl_request_id h)).
  erewrite (get_be_concat 4 0 (ctl_magic h) []) by done.
  erewrite (get_be_concat 2 4 (ctl_version h) m) by done.
  erewrite (get_be_concat 2 6 (Opcode_to_u16 (ctl_opcode h)) (m ++ v))
    by (done || by rewrite <- !app_assoc).
  erewrite (get_be_concat 4 8 (ctl_request_id h) (m ++ v ++ o))
    by (done || by rewrite <- !app_assoc).
  erewrite (get_be_concat 4 12 (ctl_payload_size h) (m ++ v ++ o ++ q) [])
    by (done || by rewrite app_nil_r, <- !app_assoc).
  rewrite Hop. by destruct h.
Qed.

Lemma readRemaining_value r pre post :
  positioned r pre post [] -> exists r', runs readRemaining r (Some post) r'.
Proof.
  intros (Hd & Ho & Hs). rewrite app_nil_r in Hd.
  eexists. unfold runs, readRemaining, mbind, cpp_bind, this.
  rewrite (proj2 (Z.leb_le _ _)) by (unfold data_size; rewrite Ho, Hd, length_app; lia).
  cbn [or_undef]. unfold mret, cpp_ret, modify.
  by rewrite Ho, Hd, Nat2Z.id, drop_app_length.
Qed.

Lemma response_round_trip error message body :
  fits 16 (ErrorCode_to_u16 error) -> ErrorCode_of_u16 (ErrorCode_to_u16 error) = error ->
  string_size message <= u32_max ->
  6 + string_size message + Z.of_nat (length body) < 2 ^ 63 ->
  exists payload, encodeResponsePayload error message body = Ret payload /\
    payload = encodeBigEndian 2 (ErrorCode_to_u16 error) ++ field_bytes (FStr message) ++ body /\
    decodeResponsePayload payload = Ret (Some (mkResponseEnvelope error message body)).
Proof.
  intros Herr Hcast Hmsg Hlen.
  exists (fields_bytes [FU16 (ErrorCode_to_u16 error); FStr message] ++ body). split_and!.
  - unfold encodeResponsePayload, mbind, cpp_bind.
    rewrite (write_field_spec (FU16 (ErrorCode_to_u16 error)) [] Herr : writeU16 _ _ = _).
    rewrite (write_field_spec (FStr message) _ Hmsg : writeString _ _ = _).
    unfold writeBytes, modify, fields_bytes. simpl. by rewrite <- !app_assoc, app_nil_l.
  - unfold fields_bytes. simpl. by rewrite <- !app_assoc, app_nil_l.
  - unfold decodeResponsePayload, fields_bytes. simpl concat. rewrite app_nil_r, <- app_assoc.
    set (r := reader_of _). unfold mbind, cpp_bind.
    assert (data_size r < 2 ^ 63) as Hds.
    { unfold data_size. simpl. rewrite !length_app, !length_encodeBigEndian, length_string_bytes.
      unfold string_size in Hlen. lia. }
    destruct (readUnsigned_value 2 (ErrorCode_to_u16 error) r [] (field_bytes (FStr message) ++ body))
      as (r1 & Hrun1 & Hd1 & Ho1); [done|done|].
    unfold readU16. rewrite Hrun1.
    assert (positioned r1 (encodeBigEndian 2 (ErrorCode_to_u16 error)) (field_bytes (FStr message)) body)
      as Hpos1 by (split_and!; [by rewrite Hd1 | by rewrite Ho1 | unfold data_size in *; by rewrite Hd1]).
    destruct (readString_value message r1 _ body Hmsg Hpos1) as (r2 & Hrun2 & Hd2 & Ho2).
    rewrite Hrun2.
    destruct (readRemaining_value r2
      (encodeBigEndian 2 (ErrorCode_to_u16 error) ++ field_bytes (FStr message)) body) as (r3 & Hrun3).
    { destruct Hpos1 as (Hdp & Hop & Hsp). split_and!.
      - by rewrite Hd2, Hdp, app_nil_r, <- app_assoc.
      - rewrite Ho2, Hop, length_app. lia.
      - unfold data_size in *. by rewrite Hd2. }
    rewrite Hrun3. simpl. by rewrite Hcast.
Qed.
