(* ===== verification/ProtocolTheorems.v ===== *)
(** * Wire formats

    The frames of the data sockets and of the control plane: what is written is read back,
    nothing else is accepted in its place, and reading any bytes is safe. *)

From Stdlib Require Import ZArith Lia Bool String.
From stdpp Require Import base list option.
From S2P Require Import Prelude Types Outcome BigEndian FrameProtocol PoolProtocol QueueProtocol ShmProtocol ControlProtocol.

Local Open Scope Z_scope.

(** Ranges of concrete records. *)
Ltac in_range := first [apply fitsb_spec; reflexivity | split; in_range].

(** Frame headers and their 24 bytes correspond one to one: every header is read back from
    its bytes, and any bytes that decode are the encoding of what they decode to. *)
Theorem frame_headers_correspond :
  (forall h, FrameHeader_typed h -> decodeFrameHeader (Some (encodeFrameHeader h)) = Some h) /\
  (forall data h, Forall is_byte data -> decodeFrameHeader (Some data) = Some h ->
     FrameHeader_typed h /\ encodeFrameHeader h = data).
Proof.
  split; [apply decode_encode_frame|]. intros data h Hb Hd.
  split; [by eapply frame_decode_typed | by eapply encode_decode_frame].
Qed.

(** A notification of a pooled sample with a valid pool name and a handle of that pool is
    encoded in exactly 272 bytes and decodes to itself; so does the release that answers it. *)
Theorem pool_frames_round_trip n r :
  PoolNotification_typed n -> isValidSharedMemoryName (pd_shm_name (pn_pool n)) = true ->
  ch_pool_id (pn_handle n) = pd_pool_id (pn_pool n) ->
  ChunkHandle_typed (prl_handle r) -> fits 64 (prl_sequence r) ->
  (exists frame, encodePoolNotification n = Some frame /\ length frame = kPoolNotificationSize /\
     decodePoolNotification (Some frame) = Some n) /\
  decodePoolRelease (Some (encodePoolRelease r)) = Some r.
Proof.
  intros Hn Hname Hpool Hh Hs. split; [by apply decode_encode_pool_notification | by apply decode_encode_pool_release].
Qed.

Definition example_pool : PoolDescriptor := mkPoolDescriptor "/mw_pool" 7 65536 1 1.
Definition example_handle : ChunkHandle := mkChunkHandle 7 3 2 4096.

Lemma pool_frames_round_trip_witness :
  exists frame, encodePoolNotification (mkPoolNotification example_pool example_handle 100 5 999) = Some frame /\
    decodePoolNotification (Some frame) = Some (mkPoolNotification example_pool example_handle 100 5 999).
Proof.
  destruct (pool_frames_round_trip (mkPoolNotification example_pool example_handle 100 5 999)
              (mkPoolRelease example_handle 5)) as ((frame & He & _ & Hd) & _).
  - unfold PoolNotification_typed, PoolDescriptor_typed, ChunkHandle_typed. in_range.
  - reflexivity.
  - reflexivity.
  - unfold ChunkHandle_typed. in_range.
  - in_range.
  - exists frame. split; [exact He | exact Hd].
Defined.

(** A queue wake-up with a valid pool name and queue id, and a queue release of a live
    handle, decode to themselves; and release frames that decode are the encoding of the
    handle they name. *)
Theorem queue_frames_round_trip wake h :
  PoolDescriptor_typed (qw_pool wake) -> fits 64 (qw_queue_id wake) -> qw_queue_id wake <> 0 ->
  isValidSharedMemoryName (pd_shm_name (qw_pool wake)) = true ->
  ChunkHandle_typed h -> ch_pool_id h <> 0 -> ch_generation h <> 0 ->
  (exists frame, encodeQueueWake wake = Some frame /\ length frame = kQueueWakeSize /\
     decodeQueueWake (Some frame) = Some wake) /\
  decodeQueueRelease (Some (encodeQueueRelease h)) = Some h /\
  (forall data h', Forall is_byte data -> decodeQueueRelease (Some data) = Some h' -> encodeQueueRelease h' = data).
Proof.
  intros Hp Hq Hne Hname Hh Hpool Hgen. split_and!.
  - destruct (decode_encode_queue_wake wake) as (frame & ? & ? & _ & ?); auto. by exists frame.
  - by apply decode_encode_queue_release.
  - apply encode_decode_queue_release.
Qed.

Lemma queue_frames_round_trip_witness :
  decodeQueueRelease (Some (encodeQueueRelease example_handle)) = Some example_handle.
Proof.
  destruct (queue_frames_round_trip (mkQueueWake example_pool 9) example_handle) as (_ & Hd & _).
  - unfold PoolDescriptor_typed. in_range.
  - in_range.
  - discriminate.
  - reflexivity.
  - unfold ChunkHandle_typed. in_range.
  - discriminate.
  - discriminate.
  - exact Hd.
Defined.

(** The header, notification and acknowledgement frames of single-segment messages decode
    to themselves. *)
Theorem shm_frames_round_trip h n a :
  SharedMemoryHeader_typed h -> ShmNotification_typed n ->
  isValidSharedMemoryName (smg_shm_name (sn_handle n)) = true -> ShmAck_typed a ->
  decodeSharedMemoryHeader (Some (encodeSharedMemoryHeader h)) = Some h /\
  (exists frame, encodeShmNotification n = Some frame /\ length frame = kShmNotificationSize /\
     decodeShmNotification (Some frame) = Some n) /\
  decodeShmAck (Some (encodeShmAck a)) = Some a.
Proof.
  intros Hh Hn Hname Ha. split_and!.
  - by apply decode_encode_shm_header.
  - by apply decode_encode_shm_notification.
  - by apply decode_encode_shm_ack.
Qed.

Definition example_shm_header : SharedMemoryHeader := mkSharedMemoryHeader kSharedMemoryMagic 1 48 148 100 5 999 7.
Definition example_shm_notification : ShmNotification := notification_of example_shm_header "/mw_shm".
Definition example_ack : ShmAck := mkShmAck kShmNotificationMagic 1 2 5.

Lemma shm_frames_round_trip_witness :
  decodeSharedMemoryHeader (Some (encodeSharedMemoryHeader example_shm_header)) = Some example_shm_header.
Proof.
  destruct (shm_frames_round_trip example_shm_header example_shm_notification example_ack) as (Hd & _).
  - unfold SharedMemoryHeader_typed. in_range.
  - unfold ShmNotification_typed. in_range.
  - reflexivity.
  - unfold ShmAck_typed. in_range.
  - exact Hd.
Defined.

(** A segment header that passes validation describes exactly the mapped segment, header
    and payload, and its payload respects the topic's limit. *)
Theorem validated_segment_is_bounded h mapped_size max_message_size :
  SharedMemoryHeader_typed h -> validateSharedMemoryHeader h mapped_size max_message_size = ShmValid ->
  Z.of_nat kSharedMemoryHeaderSize + smh_payload_size h = mapped_size /\ smh_payload_size h <= max_message_size.
Proof. apply validated_header_bounds. Qed.

Lemma validated_segment_is_bounded_witness :
  validateSharedMemoryHeader example_shm_header 148 100 = ShmValid /\ smh_payload_size example_shm_header <= 100.
Proof.
  split; [reflexivity|].
  apply (validated_segment_is_bounded example_shm_header 148 100); [unfold SharedMemoryHeader_typed; in_range | reflexivity].
Defined.

(** Reading the fields of a control payload is total on arbitrary bytes: whatever the
    bytes and the expected fields, the reader returns, with the fields or with a refusal, and
    never reads outside the payload. *)
Theorem control_reader_is_total ks data :
  Forall is_byte data -> Z.of_nat (length data) < 2 ^ 63 ->
  exists result, parse_payload ks data = Ret result.
Proof.
  intros Hb Hl. destruct (read_fields_seq_ok ks (reader_of data)) as (fs & r' & Hrun); [done | |].
  - unfold reader_ok, reader_of, data_size. simpl. lia.
  - exists fs. unfold parse_payload. by rewrite Hrun.
Qed.

Lemma control_reader_is_total_witness :
  exists result, parse_payload [KU64; KStr] [0; 0; 0; 0; 0; 0; 0; 1; 255; 255; 255; 255] = Ret result.
Proof. apply (control_reader_is_total [KU64; KStr]); [by apply all_bytes_spec | simpl; lia]. Defined.

(** The fields of a control payload written one after the other are read back in order,
    and a payload with bytes left over is refused. *)
Theorem control_payload_round_trip fs post :
  Forall field_typed fs -> Z.of_nat (length (fields_bytes fs ++ post)) < 2 ^ 63 ->
  parse_payload (map kind_of fs) (fields_bytes fs ++ post) = Ret (if decide (post = []) then Some fs else None).
Proof. apply parse_written. Qed.

Lemma control_payload_round_trip_witness :
  parse_payload [KU64; KStr; KU16] (fields_bytes [FU64 1; FStr "camera"; FU16 2] ++ []) =
  Ret (Some [FU64 1; FStr "camera"; FU16 2]).
Proof.
  apply (control_payload_round_trip [FU64 1; FStr "camera"; FU16 2] []); [|vm_compute; reflexivity].
  apply Forall_cons_2; [in_range|]. apply Forall_cons_2; [by vm_compute|]. apply Forall_cons_2; [in_range | constructor].
Defined.

(** A control frame is refused with a length error exactly when its payload exceeds 64
    KiB; otherwise its first 16 bytes decode to a valid header that carries the opcode, the
    request id and the length of the payload, which follows. *)
Theorem control_frame_round_trip opcode request_id payload :
  fits 16 (Opcode_to_u16 opcode) -> Opcode_of_u16 (Opcode_to_u16 opcode) = opcode -> fits 32 request_id ->
  if decide (Z.of_nat (length payload) <= kMaxControlPayloadSize) then
    exists frame header, encodeControlFrame opcode request_id payload = Ret frame /\
      decodeControlHeader (Some (take kControlHeaderSize frame)) = Some header /\
      validateControlHeader header = ControlValid /\ ctl_opcode header = opcode /\
      ctl_request_id header = request_id /\ ctl_payload_size header = Z.of_nat (length payload) /\
      drop kControlHeaderSize frame = payload
  else encodeControlFrame opcode request_id payload = Throw ex_length_error.
Proof.
  intros Hop Hcast Hid. unfold encodeControlFrame, kMaxControlPayloadSize. case_decide as Hlen.
  2: by rewrite (proj2 (Z.ltb_lt _ _)) by lia.
  rewrite (proj2 (Z.ltb_ge _ _)) by lia. rewrite wrap_small by (unfold fits; lia).
  eexists _, _. split; [reflexivity|]. rewrite take_app_length', drop_app_length' by by rewrite length_encodeControlHeader.
  split.
  - apply decode_encode_control_header. unfold ControlHeader_typed. simpl. unfold fits in *.
    split_and!; try done; try lia.
  - split_and!; try done. unfold validateControlHeader, kMaxControlPayloadSize. simpl.
    by rewrite (proj2 (Z.ltb_ge _ _)) by lia.
Qed.

Lemma control_frame_round_trip_witness :
  exists frame header, encodeControlFrame Heartbeat 7 [1; 2; 3] = Ret frame /\
    decodeControlHeader (Some (take kControlHeaderSize frame)) = Some header /\ ctl_opcode header = Heartbeat.
Proof.
  destruct (control_frame_round_trip Heartbeat 7 [1; 2; 3]) as (frame & header & He & Hd & _ & Ho & _);
    [in_range | reflexivity | in_range |].
  exists frame, header. split; [exact He | split; [exact Hd | exact Ho]].
Defined.

(** A response (error code, message, body) decodes to itself. *)
Theorem response_decodes_to_itself error message body :
  fits 16 (ErrorCode_to_u16 error) -> ErrorCode_of_u16 (ErrorCode_to_u16 error) = error ->
  string_size message <= u32_max -> 6 + string_size message + Z.of_nat (length body) < 2 ^ 63 ->
  exists payload, encodeResponsePayload error message body = Ret payload /\
    decodeResponsePayload payload = Ret (Some (mkResponseEnvelope error message body)).
Proof.
  intros H1 H2 H3 H4. destruct (response_round_trip error message body H1 H2 H3 H4) as (payload & ? & _ & ?).
  by exists payload.
Qed.

Lemma response_decodes_to_itself_witness :
  exists payload, encodeResponsePayload TypeMismatch "no" [1] = Ret payload /\
    decodeResponsePayload payload = Ret (Some (mkResponseEnvelope TypeMismatch "no" [1])).
Proof. apply response_decodes_to_itself; [in_range | reflexivity | by vm_compute | by vm_compute]. Defined.
