(* ===== verification/PoolLayout.v ===== *)
(** * Memory pool layout

    The first part of [middleware/src/detail/memory_pool.cpp]: checked size arithmetic,
    the pool header, size-class and directory records with their encodings, and
    [makeLayout], which places every chunk in the segment. *)

From S2P Require Import Prelude Types Outcome BigEndian.
From Stdlib Require Import ZArith Lia List Bool.
From stdpp Require Import base list option.

Local Open Scope Z_scope.

Definition kMemoryPoolMagic : Z := 0x4D57504C.
Definition kPoolHeaderSize : Z := 80.
Definition kSizeClassMetadataSize : Z := 24.
Definition kChunkDirectoryEntrySize : Z := 32.
Definition kChunkAlignment : Z := 64.
(** [sizeof(ChunkHeader)], fixed by a [static_assert]. *)
Definition sizeof_ChunkHeader : Z := 64.

#[export] Hint Unfold kPoolHeaderSize kSizeClassMetadataSize kChunkDirectoryEntrySize : mw_size.

Record PoolHeader := mkPoolHeader {
  ph_magic : Z;
  ph_version : Z;
  ph_header_size : Z;
  ph_segment_size : Z;
  ph_pool_id : Z;
  ph_topic_id : Z;
  ph_owner_pid : Z;
  ph_size_class_count : Z;
  ph_chunk_count : Z;
  ph_size_class_offset : Z;
  ph_chunk_directory_offset : Z;
  ph_chunk_storage_offset : Z;
}.

Record SizeClassMetadata := mkSizeClassMetadata {
  sc_capacity : Z;
  sc_first_chunk_index : Z;
  sc_chunk_count : Z;
}.

Record ChunkDirectoryEntry := mkChunkDirectoryEntry {
  de_header_offset : Z;
  de_payload_offset : Z;
  de_capacity : Z;
  de_size_class_index : Z;
}.

Record PoolLayout := mkPoolLayout {
  pl_header : PoolHeader;
  pl_size_classes : list SizeClassMetadata;
  pl_directory : list ChunkDirectoryEntry;
}.

(** ** Checked arithmetic: [None] is [false] *)

Definition checkedAdd (left right : Z) : option Z :=
  if size_max - right <? left then None else Some (left + right).

Definition checkedMultiply (left right : Z) : option Z :=
  if negb (left =? 0) && (size_max / left <? right) then None else Some (left * right).

Definition checkedAlign (value alignment : Z) : option Z :=
  let remainder := value mod alignment in
  if remainder =? 0 then Some value else checkedAdd value (alignment - remainder).

Definition rangeInside (offset size limit : Z) : bool :=
  (offset <=? limit) && (size <=? limit - offset).

(** ** Encodings *)

Definition encodePoolHeader (h : PoolHeader) : list Z :=
  let e := replicate (Z.to_nat kPoolHeaderSize) 0 in
  let e := put_be 4 (ph_magic h) 0 e in
  let e := put_be 2 (ph_version h) 4 e in
  let e := put_be 2 (ph_header_size h) 6 e in
  let e := put_be 8 (ph_segment_size h) 8 e in
  let e := put_be 8 (ph_pool_id h) 16 e in
  let e := put_be 8 (ph_topic_id h) 24 e in
  let e := put_be 8 (ph_owner_pid h) 32 e in
  let e := put_be 4 (ph_size_class_count h) 40 e in
  let e := put_be 4 (ph_chunk_count h) 44 e in
  let e := put_be 8 (ph_size_class_offset h) 48 e in
  let e := put_be 8 (ph_chunk_directory_offset h) 56 e in
  put_be 8 (ph_chunk_storage_offset h) 64 e.

Definition decodePoolHeader (input : list Z) : PoolHeader :=
  mkPoolHeader (get_be 4 0 input) (get_be 2 4 input) (get_be 2 6 input) (get_be 8 8 input)
    (get_be 8 16 input) (get_be 8 24 input) (get_be 8 32 input) (get_be 4 40 input)
    (get_be 4 44 input) (get_be 8 48 input) (get_be 8 56 input) (get_be 8 64 input).

Definition encodeSizeClass (m : SizeClassMetadata) : list Z :=
  let e := replicate (Z.to_nat kSizeClassMetadataSize) 0 in
  let e := put_be 8 (sc_capacity m) 0 e in
  let e := put_be 4 (sc_first_chunk_index m) 8 e in
  put_be 4 (sc_chunk_count m) 12 e.

Definition decodeSizeClass (input : list Z) : SizeClassMetadata :=
  mkSizeClassMetadata (get_be 8 0 input) (get_be 4 8 input) (get_be 4 12 input).

Definition encodeDirectoryEntry (d : ChunkDirectoryEntry) : list Z :=
  let e := replicate (Z.to_nat kChunkDirectoryEntrySize) 0 in
  let e := put_be 8 (de_header_offset d) 0 e in
  let e := put_be 8 (de_payload_offset d) 8 e in
  let e := put_be 8 (de_capacity d) 16 e in
  put_be 4 (de_size_class_index d) 24 e.

Definition decodeDirectoryEntry (input : list Z) : ChunkDirectoryEntry :=
  mkChunkDirectoryEntry (get_be 8 0 input) (get_be 8 8 input) (get_be 8 16 input)
    (get_be 4 24 input).

(** ** [makeLayout] *)

(** The loop over [config.size_classes]: [None] is the [std::invalid_argument]. *)
Fixpoint layoutClasses (items : list MemoryPoolClassConfig) (previous_capacity total_chunks : Z)
    : option (list SizeClassMetadata * Z) :=
  match items with
  | [] => Some ([], total_chunks)
  | item :: items =>
      if (chunk_size item =? 0) || (u32_max <? chunk_size item) || (chunk_count item =? 0) ||
         (chunk_size item <=? previous_capacity) || (u32_max - chunk_count item <? total_chunks)
      then None
      else
        match layoutClasses items (chunk_size item) (total_chunks + chunk_count item) with
        | Some (classes, total) =>
            Some (mkSizeClassMetadata (chunk_size item) (wrap 32 total_chunks) (chunk_count item)
                    :: classes, total)
        | None => None
        end
  end.

(** The chunks of one size class: [None] is the [std::overflow_error]. *)
Fixpoint layoutChunks (count : nat) (capacity class_index next_offset : Z)
    : option (list ChunkDirectoryEntry * Z) :=
  match count with
  | O => Some ([], next_offset)
  | S count =>
      header_offset ← checkedAlign next_offset kChunkAlignment;
      payload_offset ← checkedAdd header_offset sizeof_ChunkHeader;
      chunk_end ← checkedAdd payload_offset capacity;
      next_offset ← checkedAlign chunk_end kChunkAlignment;
      '(rest, final_offset) ← layoutChunks count capacity class_index next_offset;
      Some (mkChunkDirectoryEntry header_offset payload_offset capacity (wrap 32 class_index)
              :: rest, final_offset)
  end.

Fixpoint layoutDirectory (classes : list SizeClassMetadata) (class_index next_offset : Z)
    : option (list ChunkDirectoryEntry * Z) :=
  match classes with
  | [] => Some ([], next_offset)
  | metadata :: classes =>
      '(entries, next_offset) ←
        layoutChunks (Z.to_nat (sc_chunk_count metadata)) (sc_capacity metadata) class_index next_offset;
      '(rest, final_offset) ← layoutDirectory classes (class_index + 1) next_offset;
      Some (entries ++ rest, final_offset)
  end.

(** Offsets of the directory and of the chunk storage. *)
Definition metadataOffsets (class_count total_chunks : Z) : option (Z * Z) :=
  class_bytes ← checkedMultiply class_count kSizeClassMetadataSize;
  directory_bytes ← checkedMultiply total_chunks kChunkDirectoryEntrySize;
  directory_offset ← checkedAdd kPoolHeaderSize class_bytes;
  storage_offset ← checkedAdd directory_offset directory_bytes;
  storage_offset ← checkedAlign storage_offset kChunkAlignment;
  Some (directory_offset, storage_offset).

(** [pid] is the result of [getpid]. *)
Definition makeLayout (config : MemoryPoolConfig) (pool_id topic_id pid : Z) : outcome PoolLayout :=
  let items := cfg_size_classes config in
  if (Z.of_nat (length items) =? 0) || (u32_max <? Z.of_nat (length items))
  then Throw ex_invalid_argument
  else
    match layoutClasses items 0 0 with
    | None => Throw ex_invalid_argument
    | Some (classes, total_chunks) =>
        match metadataOffsets (Z.of_nat (length classes)) total_chunks with
        | None => Throw ex_overflow_error
        | Some (directory_offset, storage_offset) =>
            match layoutDirectory classes 0 storage_offset with
            | None => Throw ex_overflow_error
            | Some (directory, next_offset) =>
                Ret (mkPoolLayout
                  (mkPoolHeader kMemoryPoolMagic kPoolLayoutVersion (wrap 16 kPoolHeaderSize)
                     next_offset pool_id topic_id (wrap 64 pid)
                     (wrap 32 (Z.of_nat (length classes))) (wrap 32 (Z.of_nat (length directory)))
                     kPoolHeaderSize directory_offset storage_offset)
                  classes directory)
            end
        end
    end.

(** [MemoryPool::requiredSegmentSize] *)
Definition requiredPoolSegmentSize (config : MemoryPoolConfig) (pid : Z) : outcome Z :=
  layout ← makeLayout config 1 1 pid; mret (ph_segment_size (pl_header layout)).

(** ** The geometry a layout must have *)

(** Chunks in increasing order from [start], each a 64-byte header followed by its payload,
    aligned, disjoint, and ending no later than [stop]. *)
Fixpoint chained (start : Z) (directory : list ChunkDirectoryEntry) (stop : Z) : Prop :=
  match directory with
  | [] => start <= stop
  | e :: directory =>
      start <= de_header_offset e /\ de_header_offset e mod kChunkAlignment = 0 /\
      de_payload_offset e = de_header_offset e + sizeof_ChunkHeader /\ 0 < de_capacity e /\
      chained (de_payload_offset e + de_capacity e) directory stop
  end.

(** Size classes in strictly increasing capacity order, numbering their chunks
    consecutively from [first]. *)
Fixpoint classes_ordered (classes : list SizeClassMetadata) (previous_capacity first last : Z) : Prop :=
  match classes with
  | [] => first = last
  | m :: classes =>
      previous_capacity < sc_capacity m <= u32_max /\ sc_first_chunk_index m = first /\
      0 < sc_chunk_count m /\ classes_ordered classes (sc_capacity m) (first + sc_chunk_count m) last
  end.

(** Entry [i] of the directory belongs to the class whose index range contains [i]. *)
Definition directory_matches (classes : list SizeClassMetadata) (directory : list ChunkDirectoryEntry)
    : Prop :=
  forall i e, directory !! i = Some e ->
    exists m, classes !! Z.to_nat (de_size_class_index e) = Some m /\
      0 <= de_size_class_index e /\ de_capacity e = sc_capacity m /\
      sc_first_chunk_index m <= Z.of_nat i < sc_first_chunk_index m + sc_chunk_count m.

Definition PoolHeader_typed (h : PoolHeader) : Prop :=
  fits 32 (ph_magic h) /\ fits 16 (ph_version h) /\ fits 16 (ph_header_size h) /\
  fits 64 (ph_segment_size h) /\ fits 64 (ph_pool_id h) /\ fits 64 (ph_topic_id h) /\
  fits 64 (ph_owner_pid h) /\ fits 32 (ph_size_class_count h) /\ fits 32 (ph_chunk_count h) /\
  fits 64 (ph_size_class_offset h) /\ fits 64 (ph_chunk_directory_offset h) /\
  fits 64 (ph_chunk_storage_offset h).
Definition SizeClassMetadata_typed (m : SizeClassMetadata) : Prop :=
  fits 64 (sc_capacity m) /\ fits 32 (sc_first_chunk_index m) /\ fits 32 (sc_chunk_count m).
Definition ChunkDirectoryEntry_typed (e : ChunkDirectoryEntry) : Prop :=
  fits 64 (de_header_offset e) /\ fits 64 (de_payload_offset e) /\ fits 64 (de_capacity e) /\
  fits 32 (de_size_class_index e).

(** A layout whose metadata and chunks fit the segment without overlapping. *)
Record layout_wf (l : PoolLayout) : Prop := {
  lw_classes : classes_ordered (pl_size_classes l) 0 0 (Z.of_nat (length (pl_directory l)));
  lw_class_count : ph_size_class_count (pl_header l) = Z.of_nat (length (pl_size_classes l));
  lw_chunk_count : ph_chunk_count (pl_header l) = Z.of_nat (length (pl_directory l));
  lw_nonempty : 0 < ph_size_class_count (pl_header l) <= u32_max /\
                0 < ph_chunk_count (pl_header l) <= u32_max;
  lw_class_offset : ph_size_class_offset (pl_header l) = kPoolHeaderSize;
  lw_directory_offset : ph_chunk_directory_offset (pl_header l) =
    kPoolHeaderSize + kSizeClassMetadataSize * ph_size_class_count (pl_header l);
  lw_storage : ph_chunk_directory_offset (pl_header l) +
    kChunkDirectoryEntrySize * ph_chunk_count (pl_header l) <= ph_chunk_storage_offset (pl_header l);
  lw_storage_aligned : ph_chunk_storage_offset (pl_header l) mod kChunkAlignment = 0;
  lw_chunks : chained (ph_chunk_storage_offset (pl_header l)) (pl_directory l)
                (ph_segment_size (pl_header l));
  lw_matches : directory_matches (pl_size_classes l) (pl_directory l);
  lw_segment : ph_segment_size (pl_header l) <= u64_max;
}.

(** A configuration as the C++ types allow it. *)
Definition config_typed (config : MemoryPoolConfig) : Prop :=
  Forall (fun c => fits 64 (chunk_size c) /\ fits 32 (chunk_count c)) (cfg_size_classes config).

(** ** Checked arithmetic *)

Lemma checkedAdd_Some l r v : checkedAdd l r = Some v -> v = l + r /\ v <= size_max.
Proof. unfold checkedAdd. case_match; [done|]. intros [= <-]. bools. lia. Qed.

Lemma checkedMultiply_Some l r v :
  0 <= l -> 0 <= r -> checkedMultiply l r = Some v -> v = l * r /\ v <= size_max.
Proof.
  unfold checkedMultiply. intros Hl Hr. case_match eqn:Hc; [done|]. intros [= <-]. split; [done|].
  bools. destruct Hc as [Hc | Hc]; bools; [subst; ulia|].
  destruct (decide (l = 0)) as [->|]; [ulia|].
  pose proof (Z.mul_div_le size_max l ltac:(lia)). nia.
Qed.

Lemma checkedAlign_Some v a w :
  0 < a -> checkedAlign v a = Some w -> v <= w < v + a /\ w mod a = 0 /\ (v <= size_max -> w <= size_max).
Proof.
  unfold checkedAlign. intros Ha. cbn zeta. case_match; bools.
  - intros [= <-]. split_and!; lia.
  - intros [-> ?]%checkedAdd_Some. pose proof (Z.mod_pos_bound v a Ha).
    split_and!; try lia.
    replace (v + (a - v mod a)) with (v - v mod a + 1 * a) by lia.
    rewrite Z.mod_add, Zminus_mod_idemp_r, Z.sub_diag by lia. done.
Qed.

Lemma checkedAlign_aligned v a : v mod a = 0 -> checkedAlign v a = Some v.
Proof. unfold checkedAlign. intros ->. done. Qed.

Lemma rangeInside_spec off size limit :
  rangeInside off size limit = true <-> off + size <= limit /\ off <= limit.
Proof. unfold rangeInside. rewrite andb_true_iff, !Z.leb_le. lia. Qed.

(** ** Chained directories *)

Lemma chained_weaken start start' dir stop stop' :
  start' <= start -> stop <= stop' -> chained start dir stop -> chained start' dir stop'.
Proof.
  revert start start'. induction dir as [|e dir IH]; intros start start' Hs Hstop; simpl; [lia|].
  intros (? & ? & ? & ? & H). split_and!; eauto with lia. eapply IH; eauto. lia.
Qed.

Lemma chained_le start dir stop : chained start dir stop -> start <= stop.
Proof.
  revert start. induction dir as [|e dir IH]; intros start; simpl; [done|].
  intros (? & ? & -> & ? & H%IH). unfold sizeof_ChunkHeader in *. lia.
Qed.

Lemma chained_app start dir1 mid dir2 stop :
  chained start dir1 mid -> chained mid dir2 stop -> chained start (dir1 ++ dir2) stop.
Proof.
  revert start. induction dir1 as [|e dir1 IH]; intros start; simpl.
  - intros. eapply chained_weaken; [| |done]; lia.
  - intros (? & ? & ? & ? & ?) ?. split_and!; auto.
Qed.

(** Every chunk lies between [start] and [stop]. *)
Lemma chained_bounds start dir stop i e :
  chained start dir stop -> dir !! i = Some e ->
  start <= de_header_offset e /\ de_header_offset e mod kChunkAlignment = 0 /\
  de_payload_offset e = de_header_offset e + sizeof_ChunkHeader /\ 0 < de_capacity e /\
  de_payload_offset e + de_capacity e <= stop.
Proof.
  revert start i. induction dir as [|e' dir IH]; intros start i; [done|].
  simpl. intros (? & ? & Hpay & ? & Hrest) Hi. destruct i as [|i]; simplify_eq/=.
  - apply chained_le in Hrest. lia.
  - destruct (IH _ _ Hrest Hi) as (? & ? & ? & ? & ?). unfold sizeof_ChunkHeader in *. split_and!; auto; lia.
Qed.

(** Distinct chunks do not overlap. *)
Lemma chained_disjoint start dir stop i j e1 e2 :
  chained start dir stop -> dir !! i = Some e1 -> dir !! j = Some e2 -> (i < j)%nat ->
  de_payload_offset e1 + de_capacity e1 <= de_header_offset e2.
Proof.
  revert start i j. induction dir as [|e' dir IH]; intros start i j; [done|].
  simpl. intros (? & ? & ? & ? & Hrest) Hi Hj Hij. destruct j as [|j]; [lia|].
  destruct i as [|i]; simplify_eq/=.
  - apply (chained_bounds _ _ _ _ _ Hrest Hj).
  - eapply IH; eauto. lia.
Qed.

(** ** The loops of [makeLayout] *)

Lemma layoutClasses_ordered items prev total classes total' :
  Forall (fun c => fits 64 (chunk_size c) /\ fits 32 (chunk_count c)) items ->
  0 <= total <= u32_max -> layoutClasses items prev total = Some (classes, total') ->
  classes_ordered classes prev total total' /\ total' <= u32_max /\
  length classes = length items /\ total <= total' /\ (items <> [] -> total < total').
Proof.
  revert prev total classes total'.
  induction items as [|item items IH]; intros prev total classes total' Hty Htot; simpl.
  - intros [= <- <-]. by split_and!; try lia.
  - apply Forall_cons_1 in Hty as [[Hsz Hcnt] Hty]. unfold fits in *.
    case_match; [done|]. bools.
    destruct (layoutClasses _ _ _) as [[cs t]|] eqn:Hrec; [|done]. intros [= <- <-].
    unfold umax in *.
    apply IH in Hrec as (? & ? & ? & ? & _); [|done|lia]. simpl.
    rewrite wrap_small by (unfold fits; lia). split_and!; auto; lia.
Qed.

Lemma layoutChunks_chain count cap idx start entries stop :
  0 < cap -> 0 <= start <= size_max -> start mod kChunkAlignment = 0 ->
  layoutChunks count cap idx start = Some (entries, stop) ->
  chained start entries stop /\ stop mod kChunkAlignment = 0 /\ start <= stop <= size_max /\
  length entries = count /\
  Forall (fun e => de_capacity e = cap /\ de_size_class_index e = wrap 32 idx) entries.
Proof.
  intros Hcap. revert start entries. induction count as [|count IH]; intros start entries Hstart Hal; simpl.
  - intros [= <- <-]. split_and!; auto; simpl; lia.
  - rewrite checkedAlign_aligned by done. simpl. unfold mbind, option_bind.
    destruct (checkedAdd start _) as [pay|] eqn:Hpay; [|done].
    destruct (checkedAdd pay cap) as [ce|] eqn:Hce; [|done].
    destruct (checkedAlign ce _) as [next|] eqn:Hnext; [|done].
    destruct (layoutChunks count _ _ _) as [[rest final]|] eqn:Hrec; [|done].
    intros [= <- <-]. apply checkedAdd_Some in Hpay as [-> ?]. apply checkedAdd_Some in Hce as [-> ?].
    apply checkedAlign_Some in Hnext as (? & Hal' & Hmax); [|done].
    unfold sizeof_ChunkHeader, kChunkAlignment in *.
    apply IH in Hrec as (Hch & ? & ? & ? & Hall); [|lia|done]. simpl. unfold sizeof_ChunkHeader.
    split_and!; auto with lia.
    eapply chained_weaken; [| |exact Hch]; lia.
Qed.

Lemma layoutDirectory_chain classes prev first last idx start directory stop :
  classes_ordered classes prev first last -> 0 <= prev ->
  0 <= start <= size_max -> start mod kChunkAlignment = 0 ->
  layoutDirectory classes idx start = Some (directory, stop) ->
  chained start directory stop /\ start <= stop <= size_max /\
  Z.of_nat (length directory) = last - first.
Proof.
  revert prev first idx start directory.
  induction classes as [|m classes IH]; intros prev first idx start directory; simpl.
  - intros -> _ ? ? [= <- <-]. split_and!; simpl; lia.
  - intros ([? ?] & ? & ? & Hord) ? Hstart Hal. unfold mbind, option_bind.
    destruct (layoutChunks _ _ _ _) as [[entries next]|] eqn:Hch; [|done].
    destruct (layoutDirectory _ _ _) as [[rest final]|] eqn:Hrec; [|done].
    intros [= <- <-]. apply layoutChunks_chain in Hch as (? & ? & ? & ? & _); [|lia|done|done].
    eapply IH in Hrec as (? & ? & ?); [|done|lia|lia|done].
    split_and!; [by eapply chained_app | lia | lia | rewrite length_app; lia].
Qed.

Lemma classes_ordered_le classes prev first last :
  classes_ordered classes prev first last -> first <= last.
Proof.
  revert prev first. induction classes as [|m classes IH]; intros prev first; simpl; [lia|].
  intros (? & ? & ? & H%IH). lia.
Qed.

Lemma classes_ordered_lookup classes prev first last k m :
  classes_ordered classes prev first last -> classes !! k = Some m ->
  prev < sc_capacity m <= u32_max /\ first <= sc_first_chunk_index m /\ 0 < sc_chunk_count m /\
  sc_first_chunk_index m + sc_chunk_count m <= last.
Proof.
  revert prev first k. induction classes as [|m' classes IH]; intros prev first k; [done|].
  simpl. intros (? & ? & ? & Hord) Hk. pose proof (classes_ordered_le _ _ _ _ Hord).
  destruct k as [|k]; simplify_eq/=; [lia|].
  destruct (IH _ _ _ Hord Hk) as (? & ? & ? & ?). lia.
Qed.

(** Capacities and chunk ranges both increase along the classes. *)
Lemma classes_ordered_mono classes prev first last j k m1 m2 :
  classes_ordered classes prev first last -> classes !! j = Some m1 -> classes !! k = Some m2 ->
  (j < k)%nat ->
  sc_capacity m1 < sc_capacity m2 /\
  sc_first_chunk_index m1 + sc_chunk_count m1 <= sc_first_chunk_index m2.
Proof.
  revert prev first j k. induction classes as [|m classes IH]; intros prev first j k; [done|].
  simpl. intros (? & ? & ? & Hord) Hj Hk Hjk. destruct k as [|k]; [lia|].
  destruct j as [|j]; simplify_eq/=; [|eauto with lia].
  destruct (classes_ordered_lookup _ _ _ _ _ _ Hord Hk) as (? & ? & ? & ?). lia.
Qed.

Lemma layoutDirectory_entries classes prev first last idx start directory stop i e :
  classes_ordered classes prev first last -> 0 <= prev ->
  0 <= idx -> idx + Z.of_nat (length classes) <= u32_max ->
  0 <= start <= size_max -> start mod kChunkAlignment = 0 ->
  layoutDirectory classes idx start = Some (directory, stop) -> directory !! i = Some e ->
  exists k m, classes !! k = Some m /\ de_size_class_index e = idx + Z.of_nat k /\
    de_capacity e = sc_capacity m /\
    sc_first_chunk_index m <= first + Z.of_nat i < sc_first_chunk_index m + sc_chunk_count m.
Proof.
  revert prev first idx start directory i.
  induction classes as [|m classes IH]; intros prev first idx start directory i; simpl.
  - intros _ _ _ _ _ _ [= <- <-]. done.
  - intros ([? ?] & ? & ? & Hord) ? Hidx Hlen Hstart Hal. unfold mbind, option_bind.
    destruct (layoutChunks _ _ _ _) as [[entries next]|] eqn:Hch; [|done].
    destruct (layoutDirectory _ _ _) as [[rest final]|] eqn:Hrec; [|done].
    intros [= <- <-] Hi.
    apply layoutChunks_chain in Hch as (? & ? & ? & Hlenc & Hall); [|lia|done|done].
    apply lookup_app_Some in Hi as [Hi | [Hge Hi]].
    + exists 0%nat, m. pose proof (lookup_lt_Some _ _ _ Hi).
      destruct (Forall_lookup_1 _ _ _ _ Hall Hi) as [? Hcls].
      rewrite wrap_small in Hcls by (unfold fits, umax in *; lia).
      split_and!; simpl; auto; lia.
    + eapply IH in Hrec as (k & m' & ? & ? & ? & ?); [|done|lia|lia|lia|lia|done|done].
      exists (S k), m'. split_and!; simpl; auto; lia.
Qed.

Lemma metadataOffsets_Some n m dir_off storage :
  0 <= n -> 0 <= m -> metadataOffsets n m = Some (dir_off, storage) ->
  dir_off = kPoolHeaderSize + kSizeClassMetadataSize * n /\
  dir_off + kChunkDirectoryEntrySize * m <= storage <= size_max /\
  storage mod kChunkAlignment = 0.
Proof.
  intros Hn Hm. unfold metadataOffsets, mbind, option_bind.
  destruct (checkedMultiply n _) as [cb|] eqn:E1; [|done].
  destruct (checkedMultiply m _) as [db|] eqn:E2; [|done].
  destruct (checkedAdd _ cb) as [d|] eqn:E3; [|done].
  destruct (checkedAdd d db) as [s|] eqn:E4; [|done].
  destruct (checkedAlign s _) as [s'|] eqn:E5; [|done].
  intros [= <- <-].
  apply checkedMultiply_Some in E1 as [-> ?]; [|lia|done].
  apply checkedMultiply_Some in E2 as [-> ?]; [|lia|done].
  apply checkedAdd_Some in E3 as [-> ?]. apply checkedAdd_Some in E4 as [-> ?].
  apply checkedAlign_Some in E5 as (? & ? & ?); [|done]. split_and!; auto with lia.
Qed.

(** Every layout [makeLayout] returns is well formed. *)
Lemma makeLayout_wf config pool_id topic_id pid layout :
  config_typed config -> makeLayout config pool_id topic_id pid = Ret layout ->
  layout_wf layout /\ ph_magic (pl_header layout) = kMemoryPoolMagic /\
  ph_version (pl_header layout) = kPoolLayoutVersion /\
  ph_header_size (pl_header layout) = kPoolHeaderSize /\
  ph_pool_id (pl_header layout) = pool_id /\ ph_topic_id (pl_header layout) = topic_id /\
  ph_owner_pid (pl_header layout) = wrap 64 pid.
Proof.
  intros Hty. unfold makeLayout. cbn zeta. case_match eqn:Hn; [done|].
  destruct (layoutClasses _ 0 0) as [[classes total]|] eqn:Hcls; [|done].
  destruct (metadataOffsets _ total) as [[dir_off storage]|] eqn:Hoff; [|done].
  destruct (layoutDirectory classes 0 storage) as [[dir next]|] eqn:Hdir; [|done].
  intros [= <-]. bools.
  apply layoutClasses_ordered in Hcls as (Hord & Htot & Hlen & ? & Hpos); [|done|unfold umax; lia].
  apply metadataOffsets_Some in Hoff as (-> & ? & Hal); [|lia|lia].
  assert (0 <= storage <= size_max)
    by (unfold kPoolHeaderSize, kSizeClassMetadataSize, kChunkDirectoryEntrySize in *; lia).
  destruct (layoutDirectory_chain _ _ _ _ _ _ _ _ Hord ltac:(done) ltac:(done) Hal Hdir)
    as (? & ? & Hdlen).
  assert (cfg_size_classes config <> []) by (intros Heq; rewrite Heq in *; simpl in *; lia).
  assert (fits 32 (Z.of_nat (length classes))) by (unfold fits, umax in *; lia).
  assert (fits 32 (Z.of_nat (length dir))) by (unfold fits, umax in *; lia).
  split; [|done]. split; simpl; rewrite ?(wrap_small 32) by done; auto; try lia.
  - by rewrite Hdlen, Z.sub_0_r.
  - unfold fits, umax in *. specialize (Hpos ltac:(done)). lia.
  - intros i e Hi. destruct (layoutDirectory_entries classes 0 0 total 0 storage dir next i e)
      as (k & m & ? & Hk & ? & ?); auto; try (unfold umax, fits in *; lia).
    exists m. rewrite Hk, Z.add_0_l, Nat2Z.id. split_and!; auto; lia.
Qed.

(** ** Round trips of the records *)

Lemma decode_encode_pool_header h : PoolHeader_typed h -> decodePoolHeader (encodePoolHeader h) = h.
Proof.
  intros (? & ? & ? & ? & ? & ? & ? & ? & ? & ? & ? & ?). unfold decodePoolHeader.
  set (frame := encodePoolHeader h). unfold encodePoolHeader in frame.
  read_fields frame. by destruct h.
Qed.

Lemma decode_encode_size_class m : SizeClassMetadata_typed m -> decodeSizeClass (encodeSizeClass m) = m.
Proof.
  intros (? & ? & ?). unfold decodeSizeClass.
  set (frame := encodeSizeClass m). unfold encodeSizeClass in frame.
  read_fields frame. by destruct m.
Qed.

Lemma decode_encode_directory_entry e :
  ChunkDirectoryEntry_typed e -> decodeDirectoryEntry (encodeDirectoryEntry e) = e.
Proof.
  intros (? & ? & ? & ?). unfold decodeDirectoryEntry.
  set (frame := encodeDirectoryEntry e). unfold encodeDirectoryEntry in frame.
  read_fields frame. by destruct e.
Qed.

Lemma length_encodePoolHeader h : length (encodePoolHeader h) = 80%nat.
Proof. unfold encodePoolHeader. buf_length. Qed.
Lemma length_encodeSizeClass m : length (encodeSizeClass m) = 24%nat.
Proof. unfold encodeSizeClass. buf_length. Qed.
Lemma length_encodeDirectoryEntry e : length (encodeDirectoryEntry e) = 32%nat.
Proof. unfold encodeDirectoryEntry. buf_length. Qed.
