(* ===== verification/MemoryPool.v ===== *)
(** * Memory pool

    [MemoryPool] of [middleware/src/detail/memory_pool.{hpp,cpp}]: the publisher's chunks,
    their lifecycle and reference counts, and the per-class free lists.  Every method
    runs under the pool mutex, so a method is one atomic step on the pool. *)

From S2P Require Import Prelude Types Outcome BigEndian PoolLayout.
From Stdlib Require Import ZArith Lia Bool String.
From stdpp Require Import base gmap list strings option.

Local Open Scope Z_scope.

(** [enum class ChunkState : uint32_t], stored in an atomic word. *)
Definition ChunkState_Free : Z := 0.
Definition ChunkState_Loaned : Z := 1.
Definition ChunkState_Published : Z := 2.
Definition ChunkState_Released : Z := 3.

Record ChunkHeader := mkChunkHeader {
  ck_ref_count : Z;
  ck_state : Z;
  ck_payload_size : Z;
  ck_capacity : Z;
  ck_size_class_index : Z;
  ck_generation : Z;
  ck_sequence : Z;
  ck_publish_timestamp_ns : Z;
  ck_topic_id : Z;
  ck_pool_id : Z;
}.
#[export] Instance ChunkHeader_eta : Eta ChunkHeader := fun h =>
  mkChunkHeader (ck_ref_count h) (ck_state h) (ck_payload_size h) (ck_capacity h)
    (ck_size_class_index h) (ck_generation h) (ck_sequence h) (ck_publish_timestamp_ns h)
    (ck_topic_id h) (ck_pool_id h).

(** [ChunkHeader{}]; also what a zero-filled segment reads as. *)
Definition zero_ChunkHeader : ChunkHeader := mkChunkHeader 0 0 0 0 0 0 0 0 0 0.

(** A mapped segment: its bytes, and the [ChunkHeader] objects placed in it, by offset.
    Metadata and payloads are accessed as bytes, chunk headers only as objects; [layout_wf]
    keeps the three kinds of storage apart. *)
Record Region := mkRegion {
  reg_bytes : list Z;
  reg_chunks : gmap Z ChunkHeader;
}.
#[export] Instance Region_eta : Eta Region := fun r => mkRegion (reg_bytes r) (reg_chunks r).

Definition region_size (r : Region) : Z := Z.of_nat (length (reg_bytes r)).

(** [reinterpret_cast<ChunkHeader*>(bytes + offset)]: undefined outside the mapping. *)
Definition region_chunk (r : Region) (offset : Z) : option ChunkHeader :=
  if (0 <=? offset) && (offset + sizeof_ChunkHeader <=? region_size r)
  then Some (default zero_ChunkHeader (reg_chunks r !! offset)) else None.

Record PoolInstrumentation := mkPoolInstrumentation {
  pi_shm_create_calls : Z;
  pi_truncate_calls : Z;
  pi_writable_map_calls : Z;
  pi_allocations : Z;
  pi_payload_copies : Z;
  pi_releases : Z;
  pi_reclaims : Z;
  pi_allocation_failures : Z;
}.
#[export] Instance PoolInstrumentation_eta : Eta PoolInstrumentation := fun i =>
  mkPoolInstrumentation (pi_shm_create_calls i) (pi_truncate_calls i) (pi_writable_map_calls i)
    (pi_allocations i) (pi_payload_copies i) (pi_releases i) (pi_reclaims i)
    (pi_allocation_failures i).

Record ChunkSnapshot := mkChunkSnapshot {
  cs_state : Z;
  cs_ref_count : Z;
  cs_payload_size : Z;
  cs_capacity : Z;
  cs_size_class_index : Z;
  cs_generation : Z;
  cs_sequence : Z;
}.

Record AllocationResult := mkAllocationResult {
  ar_error : ErrorCode;
  ar_handle : ChunkHandle;
  ar_capacity : Z;
}.

Record ReleaseResult := mkReleaseResult {
  rr_error : ErrorCode;
  rr_remaining_references : Z;
  rr_became_released : bool;
}.

(** [WritableChunkResult]: the payload pointer is the offset into the region. *)
Record WritableChunkResult := mkWritableChunkResult {
  wr_error : ErrorCode;
  wr_payload : option Z;
}.

Record MemoryPool := mkMemoryPool {
  mp_descriptor : PoolDescriptor;
  mp_region : Region;
  mp_size_classes : list SizeClassMetadata;
  mp_directory : list ChunkDirectoryEntry;
  mp_free_lists : list (list Z);
  mp_instrumentation : PoolInstrumentation;
}.
#[export] Instance MemoryPool_eta : Eta MemoryPool := fun p =>
  mkMemoryPool (mp_descriptor p) (mp_region p) (mp_size_classes p) (mp_directory p)
    (mp_free_lists p) (mp_instrumentation p).

(** ** Accesses *)

Definition pool_size (p : MemoryPool) : Z := Z.of_nat (length (mp_directory p)).

(** [directory_[index]] *)
Definition directory_at (index : Z) : cpp MemoryPool ChunkDirectoryEntry :=
  p ← this; or_undef (if 0 <=? index then mp_directory p !! Z.to_nat index else None).

(** [MemoryPool::chunkHeader]: the pointer is the offset of the header. *)
Definition chunkHeader (chunk_index : Z) : cpp MemoryPool Z :=
  entry ← directory_at chunk_index; mret (de_header_offset entry).

(** [*header] *)
Definition load_chunk (header : Z) : cpp MemoryPool ChunkHeader :=
  p ← this; or_undef (region_chunk (mp_region p) header).

(** [*header = value] *)
Definition store_chunk (header : Z) (value : ChunkHeader) : cpp MemoryPool unit :=
  _ ← load_chunk header;
  modify (fun p => p <| mp_region :=
    mp_region p <| reg_chunks := <[header := value]> (reg_chunks (mp_region p)) |> |>).

Definition count_event (event : PoolInstrumentation -> PoolInstrumentation) : cpp MemoryPool unit :=
  modify (fun p => p <| mp_instrumentation := event (mp_instrumentation p) |>).

(** [free_lists_[class_index].push_back(chunk_index)] *)
Definition push_free (class_index chunk_index : Z) : cpp MemoryPool unit :=
  p ← this;
  free_list ← or_undef (if 0 <=? class_index then mp_free_lists p !! Z.to_nat class_index else None);
  modify (fun p => p <| mp_free_lists :=
    <[Z.to_nat class_index := free_list ++ [chunk_index]]> (mp_free_lists p) |>).

(** [std::memcpy(region_.data() + offset, data, size)] *)
Definition copy_in (offset : Z) (data : list Z) : cpp MemoryPool unit :=
  p ← this;
  bytes ← or_undef (if 0 <=? offset then write_at (Z.to_nat offset) data (reg_bytes (mp_region p))
                    else None);
  modify (fun p => p <| mp_region := mp_region p <| reg_bytes := bytes |> |>).

(** [MemoryPool::handleMatches] *)
Definition handleMatches (handle : ChunkHandle) (header : ChunkHeader) : cpp MemoryPool bool :=
  p ← this;
  if negb (ch_pool_id handle =? pd_pool_id (mp_descriptor p)) then mret false else
  if negb (ch_generation handle =? ck_generation header) then mret false else
  entry ← directory_at (ch_chunk_index handle);
  mret (ch_payload_offset handle =? de_payload_offset entry).

(** The prologue every handle method shares: the index is checked, the header loaded and
    the handle compared with it; [k] continues with the header pointer and its contents. *)
Definition with_handle {A} (handle : ChunkHandle) (reject : A) (k : Z -> ChunkHeader -> cpp MemoryPool A)
    : cpp MemoryPool A :=
  p ← this;
  if pool_size p <=? ch_chunk_index handle then mret reject else
  header ← chunkHeader (ch_chunk_index handle);
  contents ← load_chunk header;
  matches ← handleMatches handle contents;
  if negb matches then mret reject else k header contents.

(** ** Construction *)

(** [SharedMemoryRegion::create]: arguments are validated, then the kernel either fails with
    [errno] or provides a zero-filled mapping; [os] is the kernel's answer. *)
Definition off_t_max : Z := 2 ^ 63 - 1.
Definition validateArguments (name : string) (size : Z) : bool :=
  isValidSharedMemoryName name && negb (size =? 0) && (size <=? off_t_max).
Definition region_create (os : option Z) (name : string) (size : Z) : outcome Region :=
  if negb (validateArguments name size) then Throw ex_invalid_argument else
  match os with
  | Some errno => Throw (ex_system_error errno)
  | None => Ret (mkRegion (replicate (Z.to_nat size) 0) ∅)
  end.

(** The stores of [MemoryPool::create] into the fresh region. *)
Fixpoint write_records (records : list (list Z)) (offset : Z) (stride : Z) (bytes : list Z)
    : option (list Z) :=
  match records with
  | [] => Some bytes
  | record :: records =>
      bytes ← write_at (Z.to_nat offset) record bytes;
      write_records records (offset + stride) stride bytes
  end.

(** [::new (bytes + header_offset) ChunkHeader{}] and the four stores after it. *)
Definition fresh_chunk (descriptor : PoolDescriptor) (e : ChunkDirectoryEntry) : ChunkHeader :=
  mkChunkHeader 0 ChunkState_Free 0 (wrap 32 (de_capacity e)) (de_size_class_index e) 0 0 0
    (pd_topic_id descriptor) (pd_pool_id descriptor).

Fixpoint place_chunks (descriptor : PoolDescriptor) (directory : list ChunkDirectoryEntry) (size : Z)
    (chunks : gmap Z ChunkHeader) : option (gmap Z ChunkHeader) :=
  match directory with
  | [] => Some chunks
  | e :: directory =>
      if (0 <=? de_header_offset e) && (de_header_offset e + sizeof_ChunkHeader <=? size)
      then place_chunks descriptor directory size
             (<[de_header_offset e := fresh_chunk descriptor e]> chunks)
      else None
  end.

Definition initialize_region (descriptor : PoolDescriptor) (layout : PoolLayout) (region : Region)
    : option Region :=
  bytes ← write_at 0 (encodePoolHeader (pl_header layout)) (reg_bytes region);
  bytes ← write_records (map encodeSizeClass (pl_size_classes layout)) kPoolHeaderSize
            kSizeClassMetadataSize bytes;
  bytes ← write_records (map encodeDirectoryEntry (pl_directory layout))
            (ph_chunk_directory_offset (pl_header layout)) kChunkDirectoryEntrySize bytes;
  chunks ← place_chunks descriptor (pl_directory layout) (region_size region) (reg_chunks region);
  Some (mkRegion bytes chunks).

(** The constructor's loop: [free_lists_[directory_[i].size_class_index].push_back(i)] for
    [i] from the last chunk down to the first. *)
Fixpoint fill_free_lists (directory : list ChunkDirectoryEntry) (index : nat)
    (free_lists : list (list Z)) : option (list (list Z)) :=
  match index with
  | O => Some free_lists
  | S index =>
      entry ← directory !! index;
      free_list ← free_lists !! Z.to_nat (de_size_class_index entry);
      fill_free_lists directory index
        (<[Z.to_nat (de_size_class_index entry) := free_list ++ [Z.of_nat index]]> free_lists)
  end.

(** The constructor [MemoryPool::MemoryPool]. *)
Definition construct_pool (descriptor : PoolDescriptor) (region : Region)
    (size_classes : list SizeClassMetadata) (directory : list ChunkDirectoryEntry) : outcome MemoryPool :=
  match fill_free_lists directory (length directory) (replicate (length size_classes) []) with
  | None => Undef
  | Some free_lists =>
      Ret (mkMemoryPool descriptor region size_classes directory free_lists
             (mkPoolInstrumentation 1 1 1 0 0 0 0 0))
  end.

(** [MemoryPool::create] *)
Definition create_pool (os : option Z) (pid : Z) (descriptor : PoolDescriptor)
    (config : MemoryPoolConfig) : outcome MemoryPool :=
  if (pd_pool_id descriptor =? 0) || (pd_topic_id descriptor =? 0) ||
     negb (pd_layout_version descriptor =? kPoolLayoutVersion)
  then Throw ex_invalid_argument
  else
    layout ← makeLayout config (pd_pool_id descriptor) (pd_topic_id descriptor) pid;
    if negb (pd_segment_size descriptor =? ph_segment_size (pl_header layout))
    then Throw ex_invalid_argument
    else
      region ← region_create os (pd_shm_name descriptor) (ph_segment_size (pl_header layout));
      match initialize_region descriptor layout region with
      | None => Undef
      | Some region => construct_pool descriptor region (pl_size_classes layout) (pl_directory layout)
      end.

(** ** Methods *)

(** [std::find_if(size_classes_, capacity >= payload_size)], as an index. *)
Fixpoint find_class (payload_size : Z) (classes : list SizeClassMetadata) : option nat :=
  match classes with
  | [] => None
  | m :: classes =>
      if payload_size <=? sc_capacity m then Some 0%nat
      else S <$> find_class payload_size classes
  end.

(** [++generation; if (generation == 0) ++generation] *)
Definition next_generation (generation : Z) : Z :=
  let generation := wrap 32 (generation + 1) in
  if generation =? 0 then wrap 32 (generation + 1) else generation.

Definition allocate (payload_size : Z) : cpp MemoryPool AllocationResult :=
  p ← this;
  match find_class payload_size (mp_size_classes p) with
  | None => mret (mkAllocationResult MessageTooLarge empty_ChunkHandle 0)
  | Some class_index =>
      free_list ← or_undef (mp_free_lists p !! class_index);
      match list.last free_list with
      | None =>
          count_event (fun i => i <| pi_allocation_failures := wrap 64 (pi_allocation_failures i + 1) |>);;
          mret (mkAllocationResult PoolExhausted empty_ChunkHandle 0)
      | Some chunk_index =>
          modify (fun p => p <| mp_free_lists :=
            <[class_index := take (length free_list - 1) free_list]> (mp_free_lists p) |>);;
          header ← chunkHeader chunk_index;
          contents ← load_chunk header;
          if negb (ck_state contents =? ChunkState_Free) || negb (ck_ref_count contents =? 0)
          then
            push_free (Z.of_nat class_index) chunk_index;;
            mret (mkAllocationResult InvalidState empty_ChunkHandle 0)
          else
            let contents := contents
              <| ck_generation := next_generation (ck_generation contents) |>
              <| ck_payload_size := wrap 32 payload_size |>
              <| ck_sequence := 0 |> <| ck_publish_timestamp_ns := 0 |>
              <| ck_state := ChunkState_Loaned |> in
            store_chunk header contents;;
            count_event (fun i => i <| pi_allocations := wrap 64 (pi_allocations i + 1) |>);;
            entry ← directory_at chunk_index;
            mret (mkAllocationResult Ok
                    (mkChunkHandle (pd_pool_id (mp_descriptor p)) chunk_index
                       (ck_generation contents) (de_payload_offset entry))
                    (ck_capacity contents))
      end
  end.

Definition writablePayload (handle : ChunkHandle) : cpp MemoryPool WritableChunkResult :=
  with_handle handle (mkWritableChunkResult InvalidChunkHandle None) (fun header contents =>
    if negb (ck_state contents =? ChunkState_Loaned)
    then mret (mkWritableChunkResult InvalidState None)
    else mret (mkWritableChunkResult Ok (Some (ch_payload_offset handle)))).

(** [MemoryPool::publishLocked] *)
Definition publishLocked (handle : ChunkHandle) (payload_size sequence initial_references : Z)
    : cpp MemoryPool ErrorCode :=
  with_handle handle InvalidChunkHandle (fun header contents =>
    if negb (ck_state contents =? ChunkState_Loaned) then mret InvalidState else
    if negb (payload_size =? ck_payload_size contents) || (ck_capacity contents <? payload_size) ||
       (sequence =? 0) || (initial_references =? 0)
    then mret InvalidArgument
    else mret Ok).

(** The stores that publish a chunk. *)
Definition mark_published (handle : ChunkHandle) (sequence timestamp references : Z)
    : cpp MemoryPool unit :=
  header ← chunkHeader (ch_chunk_index handle);
  contents ← load_chunk header;
  store_chunk header (contents <| ck_sequence := sequence |>
    <| ck_publish_timestamp_ns := timestamp |> <| ck_ref_count := references |>
    <| ck_state := ChunkState_Published |>).

(** [data] is the caller's buffer, [None] when it is [nullptr]; reading past its end is
    undefined. *)
Definition writeAndPublish (handle : ChunkHandle) (data : option (list Z)) (payload_size sequence
    publish_timestamp_ns subscriber_references : Z) : cpp MemoryPool ErrorCode :=
  if negb (payload_size =? 0) && bool_decide (data = None) then mret InvalidArgument else
  validation ← publishLocked handle payload_size sequence subscriber_references;
  if negb (is_ok validation) then mret validation else
  (if negb (payload_size =? 0)
   then
     source ← or_undef (data ≫= read_at 0 (Z.to_nat payload_size));
     copy_in (ch_payload_offset handle) source
   else mret tt);;
  mark_published handle sequence publish_timestamp_ns subscriber_references;;
  count_event (fun i => i <| pi_payload_copies := wrap 64 (pi_payload_copies i + 1) |>);;
  mret Ok.

Definition publishLoaned (handle : ChunkHandle) (payload_size sequence publish_timestamp_ns
    initial_references : Z) : cpp MemoryPool ErrorCode :=
  validation ← publishLocked handle payload_size sequence initial_references;
  if negb (is_ok validation) then mret validation else
  mark_published handle sequence publish_timestamp_ns initial_references;;
  mret Ok.

Definition addReference (handle : ChunkHandle) : cpp MemoryPool ErrorCode :=
  with_handle handle InvalidChunkHandle (fun header contents =>
    if negb (ck_state contents =? ChunkState_Published) then mret InvalidState else
    let references := ck_ref_count contents in
    if (references =? 0) || (references =? u32_max) then mret InvalidState else
    store_chunk header (contents <| ck_ref_count := wrap 32 (references + 1) |>);;
    mret Ok).

Definition release (handle : ChunkHandle) : cpp MemoryPool ReleaseResult :=
  with_handle handle (mkReleaseResult InvalidChunkHandle 0 false) (fun header contents =>
    if negb (ck_state contents =? ChunkState_Published)
    then mret (mkReleaseResult DuplicateRelease (ck_ref_count contents) false) else
    let references := ck_ref_count contents in
    if references =? 0 then mret (mkReleaseResult DuplicateRelease 0 false) else
    let remaining := wrap 32 (references - 1) in
    let released := remaining =? 0 in
    let contents := contents <| ck_ref_count := remaining |> in
    store_chunk header (if released then contents <| ck_state := ChunkState_Released |> else contents);;
    count_event (fun i => i <| pi_releases := wrap 64 (pi_releases i + 1) |>);;
    mret (mkReleaseResult Ok remaining released)).

Definition reclaim (handle : ChunkHandle) : cpp MemoryPool ErrorCode :=
  with_handle handle InvalidChunkHandle (fun header contents =>
    if negb (ck_state contents =? ChunkState_Released) || negb (ck_ref_count contents =? 0)
    then mret InvalidState else
    store_chunk header (contents <| ck_payload_size := 0 |> <| ck_sequence := 0 |>
      <| ck_publish_timestamp_ns := 0 |> <| ck_state := ChunkState_Free |>);;
    push_free (ck_size_class_index contents) (ch_chunk_index handle);;
    count_event (fun i => i <| pi_reclaims := wrap 64 (pi_reclaims i + 1) |>);;
    mret Ok).

Definition cancel (handle : ChunkHandle) : cpp MemoryPool ErrorCode :=
  with_handle handle InvalidChunkHandle (fun header contents =>
    if negb (ck_state contents =? ChunkState_Loaned) then mret InvalidState else
    store_chunk header (contents <| ck_payload_size := 0 |> <| ck_state := ChunkState_Free |>);;
    push_free (ck_size_class_index contents) (ch_chunk_index handle);;
    count_event (fun i => i <| pi_reclaims := wrap 64 (pi_reclaims i + 1) |>);;
    mret Ok).

Definition snapshot (chunk_index : Z) : cpp MemoryPool ChunkSnapshot :=
  p ← this;
  if pool_size p <=? chunk_index then throw ex_out_of_range else
  header ← chunkHeader chunk_index;
  h ← load_chunk header;
  mret (mkChunkSnapshot (ck_state h) (ck_ref_count h) (ck_payload_size h) (ck_capacity h)
          (ck_size_class_index h) (ck_generation h) (ck_sequence h)).

Definition instrumentation : cpp MemoryPool PoolInstrumentation := gets mp_instrumentation.

(** ** The pool invariant *)

(** What a chunk header agrees with its directory entry on, and the values each lifecycle
    state allows. *)
Definition chunk_state_ok (h : ChunkHeader) : Prop :=
  (ck_state h = ChunkState_Free /\ ck_ref_count h = 0) \/
  (ck_state h = ChunkState_Loaned /\ ck_ref_count h = 0 /\ ck_generation h <> 0) \/
  (ck_state h = ChunkState_Published /\ 0 < ck_ref_count h <= u32_max /\
   ck_generation h <> 0 /\ ck_sequence h <> 0) \/
  (ck_state h = ChunkState_Released /\ ck_ref_count h = 0 /\ ck_generation h <> 0).

Definition chunk_ok (d : PoolDescriptor) (e : ChunkDirectoryEntry) (h : ChunkHeader) : Prop :=
  ck_capacity h = de_capacity e /\ ck_size_class_index h = de_size_class_index e /\
  ck_topic_id h = pd_topic_id d /\ ck_pool_id h = pd_pool_id d /\ fits 32 (ck_generation h) /\
  0 <= ck_payload_size h <= ck_capacity h /\ chunk_state_ok h.

(** Chunk [i] with its directory entry and header. *)
Definition chunk_at (p : MemoryPool) (i : nat) (e : ChunkDirectoryEntry) (h : ChunkHeader) : Prop :=
  mp_directory p !! i = Some e /\ reg_chunks (mp_region p) !! de_header_offset e = Some h.

(** A free list holds each free chunk of its class, once. *)
Definition free_list_ok (p : MemoryPool) (c : nat) (l : list Z) : Prop :=
  NoDup l /\
  forall k, k ∈ l <-> exists i e h, k = Z.of_nat i /\ chunk_at p i e h /\
                   de_size_class_index e = Z.of_nat c /\ ck_state h = ChunkState_Free.

Record pool_wf (p : MemoryPool) : Prop := {
  pw_classes : classes_ordered (mp_size_classes p) 0 0 (pool_size p);
  pw_chunks : chained 0 (mp_directory p) (region_size (mp_region p));
  pw_matches : directory_matches (mp_size_classes p) (mp_directory p);
  pw_pool_size : pool_size p <= u32_max;
  pw_headers : forall i e, mp_directory p !! i = Some e ->
    exists h, chunk_at p i e h /\ chunk_ok (mp_descriptor p) e h;
  pw_free_count : length (mp_free_lists p) = length (mp_size_classes p);
  pw_free : forall c l, mp_free_lists p !! c = Some l -> free_list_ok p c l;
}.

(** The pool after storing [h] at [header] and replacing the free lists, the payload bytes
    and the counters. *)
Definition set_pool (p : MemoryPool) (header : Z) (h : ChunkHeader) (free : list (list Z))
    (bytes : list Z) (counters : PoolInstrumentation) : MemoryPool :=
  mkMemoryPool (mp_descriptor p) (mkRegion bytes (<[header := h]> (reg_chunks (mp_region p))))
    (mp_size_classes p) (mp_directory p) free counters.

(** The chunk a handle denotes: index, entry and header; [None] for a stale or foreign
    handle. *)
Definition handle_target (p : MemoryPool) (handle : ChunkHandle)
    : option (nat * ChunkDirectoryEntry * ChunkHeader) :=
  let i := Z.to_nat (ch_chunk_index handle) in
  e ← mp_directory p !! i;
  h ← reg_chunks (mp_region p) !! de_header_offset e;
  if (ch_pool_id handle =? pd_pool_id (mp_descriptor p)) &&
     (ch_generation handle =? ck_generation h) && (ch_payload_offset handle =? de_payload_offset e)
  then Some (i, e, h) else None.

(** ** Chunk accesses under the invariant *)

Lemma load_run q off h : region_chunk (mp_region q) off = Some h -> load_chunk off q = (Ret h, q).
Proof. intros Hh. unfold load_chunk. unfold_cpp. by rewrite Hh. Qed.

Lemma store_run q off h h' : region_chunk (mp_region q) off = Some h ->
  store_chunk off h' q =
    (Ret tt, set_pool q off h' (mp_free_lists q) (reg_bytes (mp_region q)) (mp_instrumentation q)).
Proof. intros Hh. unfold store_chunk, mbind, cpp_bind. by rewrite (load_run _ _ _ Hh). Qed.

Section accesses.
Context (p : MemoryPool) (Hwf : pool_wf p).
Implicit Types (i j : nat) (e : ChunkDirectoryEntry) (h : ChunkHeader).

Lemma entry_bounds i e : mp_directory p !! i = Some e ->
  0 <= de_header_offset e /\ de_payload_offset e = de_header_offset e + sizeof_ChunkHeader /\
  0 < de_capacity e /\ de_payload_offset e + de_capacity e <= region_size (mp_region p).
Proof. intros Hi. destruct (chained_bounds _ _ _ _ _ (pw_chunks _ Hwf) Hi) as (? & ? & ? & ? & ?). done. Qed.

Lemma entry_disjoint i j e e' : mp_directory p !! i = Some e -> mp_directory p !! j = Some e' -> i <> j ->
  de_payload_offset e + de_capacity e <= de_header_offset e' \/
  de_payload_offset e' + de_capacity e' <= de_header_offset e.
Proof.
  intros Hi Hj Hij. pose proof (pw_chunks _ Hwf) as Hch.
  destruct (Nat.lt_total i j) as [?|[?|?]]; [left|done|right]; eauto using chained_disjoint.
Qed.

Lemma header_offset_inj i j e e' : mp_directory p !! i = Some e -> mp_directory p !! j = Some e' ->
  de_header_offset e = de_header_offset e' -> i = j.
Proof.
  intros Hi Hj Heq. destruct (decide (i = j)) as [|Hij]; [done|]. exfalso.
  destruct (entry_bounds _ _ Hi) as (_ & ? & ? & _). destruct (entry_bounds _ _ Hj) as (_ & ? & ? & _).
  destruct (entry_disjoint _ _ _ _ Hi Hj Hij); unfold sizeof_ChunkHeader in *; lia.
Qed.

Lemma chunk_at_ok i e h : chunk_at p i e h -> chunk_ok (mp_descriptor p) e h.
Proof.
  intros [Hi Hh]. destruct (pw_headers _ Hwf _ _ Hi) as (h' & [_ Hh'] & Hok). by simplify_eq.
Qed.

Lemma chunk_at_class i e h : chunk_at p i e h ->
  exists m, mp_size_classes p !! Z.to_nat (de_size_class_index e) = Some m /\
    0 <= de_size_class_index e /\ de_capacity e = sc_capacity m.
Proof. intros [Hi _]. destruct (pw_matches _ Hwf _ _ Hi) as (m & ? & ? & ? & ?). eauto. Qed.

Lemma chunk_capacity_fits i e h : chunk_at p i e h -> fits 32 (de_capacity e).
Proof.
  intros Hat. destruct (chunk_at_class _ _ _ Hat) as (m & Hm & _ & ->).
  destruct (classes_ordered_lookup _ _ _ _ _ _ (pw_classes _ Hwf) Hm) as (? & _). ulia.
Qed.

Lemma region_chunk_at i e h : chunk_at p i e h ->
  region_chunk (mp_region p) (de_header_offset e) = Some h.
Proof.
  intros [Hi Hh]. destruct (entry_bounds _ _ Hi) as (? & ? & ? & ?). unfold region_chunk.
  rewrite (proj2 (Z.leb_le _ _)), (proj2 (Z.leb_le _ _)) by (unfold sizeof_ChunkHeader in *; lia).
  cbn [andb]. by rewrite Hh.
Qed.

Lemma chunkHeader_run i e : mp_directory p !! i = Some e ->
  chunkHeader (Z.of_nat i) p = (Ret (de_header_offset e), p).
Proof.
  intros Hi. unfold chunkHeader, directory_at. unfold_cpp.
  rewrite (proj2 (Z.leb_le _ _)), Nat2Z.id, Hi by lia. done.
Qed.

Lemma directory_at_run i e : mp_directory p !! i = Some e ->
  directory_at (Z.of_nat i) p = (Ret e, p).
Proof.
  intros Hi. unfold directory_at. unfold_cpp.
  rewrite (proj2 (Z.leb_le _ _)), Nat2Z.id, Hi by lia. done.
Qed.

Lemma load_chunk_run i e h : chunk_at p i e h -> load_chunk (de_header_offset e) p = (Ret h, p).
Proof. intros Hat. apply load_run. by eapply region_chunk_at. Qed.

Lemma store_chunk_run i e h h' : chunk_at p i e h ->
  store_chunk (de_header_offset e) h' p =
    (Ret tt, set_pool p (de_header_offset e) h' (mp_free_lists p) (reg_bytes (mp_region p))
       (mp_instrumentation p)).
Proof. intros Hat. eapply store_run. by eapply region_chunk_at. Qed.

(** The shared prologue of the handle methods, as a case analysis on the handle's target. *)
Lemma with_handle_run {A} handle (reject : A) k : 0 <= ch_chunk_index handle ->
  with_handle handle reject k p =
  match handle_target p handle with
  | Some (_, e, h) => k (de_header_offset e) h p
  | None => (Ret reject, p)
  end.
Proof.
  intros Hidx. unfold with_handle, handle_target, pool_size. unfold_cpp. case_match eqn:Hlt; bools.
  - rewrite lookup_ge_None_2 by lia. done.
  - destruct (lookup_lt_is_Some_2 (mp_directory p) (Z.to_nat (ch_chunk_index handle))) as [e He]; [lia|].
    destruct (pw_headers _ Hwf _ _ He) as (h & Hat & _).
    rewrite <- (Z2Nat.id (ch_chunk_index handle)) at 1 by done.
    rewrite (chunkHeader_run _ _ He), (load_chunk_run _ _ _ Hat). destruct Hat as [_ Hh].
    rewrite He. unfold option_bind. rewrite Hh. unfold handleMatches. unfold_cpp.
    destruct (_ =? pd_pool_id _); [|done]. cbn [negb andb].
    destruct (_ =? ck_generation _); [|done]. cbn [negb andb].
    rewrite <- (Z2Nat.id (ch_chunk_index handle)) at 1 by done.
    rewrite (directory_at_run _ _ He). by destruct (_ =? de_payload_offset _).
Qed.

Lemma handle_target_Some handle i e h : 0 <= ch_chunk_index handle ->
  handle_target p handle = Some (i, e, h) ->
  chunk_at p i e h /\ ch_chunk_index handle = Z.of_nat i /\
  ch_pool_id handle = pd_pool_id (mp_descriptor p) /\ ch_generation handle = ck_generation h /\
  ch_payload_offset handle = de_payload_offset e.
Proof.
  unfold handle_target, mbind, option_bind. intros ?. repeat case_match; intros; simplify_eq. bools.
  unfold chunk_at. split_and!; auto. lia.
Qed.

(** ** Updates that keep the invariant *)

Lemma chunk_at_set i e h h' free bytes counters j e' k :
  chunk_at p i e h ->
  chunk_at (set_pool p (de_header_offset e) h' free bytes counters) j e' k <->
  (j = i /\ e' = e /\ k = h') \/ (j <> i /\ chunk_at p j e' k).
Proof.
  intros [Hi Hh]. unfold chunk_at. simpl. split.
  - intros [Hj Hk]. destruct (decide (j = i)) as [->|Hne].
    + simplify_eq. rewrite lookup_insert_eq in Hk. by simplify_eq; left.
    + right. rewrite lookup_insert_ne in Hk; [done|]. intros ?. by eapply Hne, header_offset_inj.
  - intros [(-> & -> & ->) | (Hne & Hj & Hk)].
    + by rewrite lookup_insert_eq.
    + rewrite lookup_insert_ne; [done|]. intros ?. by eapply Hne, header_offset_inj.
Qed.

(** Storing a legal header keeps the invariant when the free lists follow the state. *)
Lemma set_pool_wf i e h h' free bytes counters :
  chunk_at p i e h -> chunk_ok (mp_descriptor p) e h' -> length bytes = length (reg_bytes (mp_region p)) ->
  length free = length (mp_free_lists p) ->
  (forall c l, free !! c = Some l ->
     free_list_ok (set_pool p (de_header_offset e) h' free bytes counters) c l) ->
  pool_wf (set_pool p (de_header_offset e) h' free bytes counters).
Proof.
  intros Hat Hok Hbytes Hlen Hfree. destruct Hwf. split; simpl; auto; try congruence.
  - unfold region_size in *. simpl. by rewrite Hbytes.
  - intros j e' Hj. destruct (decide (j = i)) as [->|Hne].
    + destruct Hat as [Hi Hh]. simplify_eq. exists h'.
      split; [apply (chunk_at_set i e h); [done|by left] | done].
    + destruct (pw_headers0 _ _ Hj) as (k & Hk & Hkok). exists k.
      split; [apply (chunk_at_set i e h); [done|by right] | done].
Qed.

(** A state change between states other than Free. *)
Lemma set_pool_wf_same i e h h' bytes counters :
  chunk_at p i e h -> chunk_ok (mp_descriptor p) e h' -> length bytes = length (reg_bytes (mp_region p)) ->
  (ck_state h = ChunkState_Free <-> ck_state h' = ChunkState_Free) ->
  pool_wf (set_pool p (de_header_offset e) h' (mp_free_lists p) bytes counters).
Proof.
  intros Hat Hok Hbytes Hst. eapply set_pool_wf; eauto. intros c l Hc.
  destruct (pw_free _ Hwf _ _ Hc) as [Hnd Hin]. split; [done|]. intros k. rewrite Hin.
  setoid_rewrite (chunk_at_set i e h h' _ _ _ _ _ _ Hat). split.
  - intros (j & e' & k' & -> & Hj & ? & ?). destruct (decide (j = i)) as [->|].
    + destruct Hat as [Hi Hh], Hj as [Hi' Hh']. simplify_eq. exists i, e, h'. naive_solver.
    + exists j, e', k'. naive_solver.
  - intros (j & e' & k' & -> & [(-> & -> & ->) | [? ?]] & ? & ?); [exists i, e, h | exists j, e', k']; naive_solver.
Qed.

(** A chunk becomes free and is appended to the list of its class. *)
Lemma set_pool_wf_push i e h h' l counters :
  chunk_at p i e h -> chunk_ok (mp_descriptor p) e h' ->
  mp_free_lists p !! Z.to_nat (de_size_class_index e) = Some l ->
  ck_state h <> ChunkState_Free -> ck_state h' = ChunkState_Free ->
  pool_wf (set_pool p (de_header_offset e) h'
    (<[Z.to_nat (de_size_class_index e) := l ++ [Z.of_nat i]]> (mp_free_lists p))
    (reg_bytes (mp_region p)) counters).
Proof.
  intros Hat Hok Hl Hst Hst'. destruct (chunk_at_class _ _ _ Hat) as (_ & _ & Hcls & _).
  eapply set_pool_wf; eauto; [by rewrite length_insert|]. intros c l' Hc.
  assert (Hother : forall c l, mp_free_lists p !! c = Some l -> Z.of_nat i ∉ l).
  { intros c0 l0 Hc0 Hin. apply (pw_free _ Hwf _ _ Hc0) in Hin as (j & e' & k & Hji & [Hj Hk] & _ & ?).
    apply Nat2Z.inj in Hji as <-. destruct Hat. by simplify_eq. }
  destruct (decide (c = Z.to_nat (de_size_class_index e))) as [->|Hne].
  - rewrite list_lookup_insert_eq in Hc by eauto using lookup_lt_Some. simplify_eq.
    destruct (pw_free _ Hwf _ _ Hl) as [Hnd Hin]. split.
    + apply list.NoDup_app. split_and!; [done | set_solver | apply NoDup_singleton].
    + intros k. rewrite elem_of_app, list_elem_of_singleton, Hin.
      setoid_rewrite (chunk_at_set i e h h' _ _ _ _ _ _ Hat). split.
      * intros [(j & e' & k' & -> & Hj & ? & ?) | ->]; [|exists i, e, h'; split_and!; auto; lia].
        exists j, e', k'. split_and!; auto. right. split; [|done]. intros ->.
        destruct Hat, Hj. by simplify_eq.
      * intros (j & e' & k' & -> & [(-> & -> & ->) | [? ?]] & ? & ?); [by right | left; eauto 10].
  - rewrite list_lookup_insert_ne in Hc by done.
    destruct (pw_free _ Hwf _ _ Hc) as [Hnd Hin]. split; [done|]. intros k. rewrite Hin.
    setoid_rewrite (chunk_at_set i e h h' _ _ _ _ _ _ Hat). split.
    + intros (j & e' & k' & -> & Hj & ? & ?). exists j, e', k'. split_and!; auto. right. split; [|done].
      intros ->. destruct Hat, Hj. by simplify_eq.
    + intros (j & e' & k' & -> & [(-> & -> & ->) | [? ?]] & ? & ?); [lia | eauto 10].
Qed.

(** The last entry of a free list is taken and its chunk leaves the free state. *)
Lemma set_pool_wf_pop i e h h' l counters :
  chunk_at p i e h -> chunk_ok (mp_descriptor p) e h' ->
  mp_free_lists p !! Z.to_nat (de_size_class_index e) = Some (l ++ [Z.of_nat i]) ->
  ck_state h' <> ChunkState_Free ->
  pool_wf (set_pool p (de_header_offset e) h'
    (<[Z.to_nat (de_size_class_index e) := l]> (mp_free_lists p))
    (reg_bytes (mp_region p)) counters).
Proof.
  intros Hat Hok Hl Hst'. destruct (chunk_at_class _ _ _ Hat) as (_ & _ & Hcls & _).
  eapply set_pool_wf; eauto; [by rewrite length_insert|]. intros c l' Hc.
  destruct (decide (c = Z.to_nat (de_size_class_index e))) as [->|Hne].
  - rewrite list_lookup_insert_eq in Hc by eauto using lookup_lt_Some. simplify_eq.
    destruct (pw_free _ Hwf _ _ Hl) as [Hnd Hin].
    apply list.NoDup_app in Hnd as (Hnd & Hdis & _). split; [done|]. intros k.
    setoid_rewrite (chunk_at_set i e h h' _ _ _ _ _ _ Hat). split.
    + intros Hk. destruct (proj1 (Hin k)) as (j & e' & k' & -> & Hj & ? & ?); [set_solver|].
      exists j, e', k'. split_and!; auto. right. split; [|done]. intros ->. set_solver.
    + intros (j & e' & k' & -> & [(-> & -> & ->) | [Hji Hj]] & ? & ?); [done|].
      assert (Hk : Z.of_nat j ∈ l' ++ [Z.of_nat i]) by (apply Hin; eauto 10).
      apply elem_of_app in Hk as [?|Hk%list_elem_of_singleton]; [done|]. lia.
  - rewrite list_lookup_insert_ne in Hc by done.
    destruct (pw_free _ Hwf _ _ Hc) as [Hnd Hin]. split; [done|]. intros k. rewrite Hin.
    setoid_rewrite (chunk_at_set i e h h' _ _ _ _ _ _ Hat). split.
    + intros (j & e' & k' & -> & Hj & ? & ?). exists j, e', k'. split_and!; auto. right. split; [|done].
      intros ->. destruct Hat as [Hi Hh], Hj as [Hi' Hh']. simplify_eq. lia.
    + intros (j & e' & k' & -> & [(-> & -> & ->) | [? ?]] & ? & ?); [lia | eauto 10].
Qed.
End accesses.
