(* ===== verification/PoolSpec.v ===== *)
(** * Abstract memory pool

    What the pool promises its publisher, without free lists, offsets of headers or
    bytes of metadata: a list of chunks, each with a capacity, a generation, a payload and
    a lifecycle status, and one rule per outcome of each operation.  The methods of
    [MemoryPool] are shown to implement it. *)

From Stdlib Require Import ZArith Lia Bool String.
From stdpp Require Import base gmap list strings option.
From S2P Require Import Prelude Types Outcome BigEndian PoolLayout MemoryPool.

Local Open Scope Z_scope.

(** ** Abstract chunks *)

Inductive chunk_status :=
  | SFree
  | SLoaned (size : Z)
  | SPublished (size sequence timestamp references : Z)
  | SReleased.

Definition is_loaned (s : chunk_status) : bool := match s with SLoaned _ => true | _ => false end.
Definition is_published (s : chunk_status) : bool :=
  match s with SPublished _ _ _ _ => true | _ => false end.
Definition is_released (s : chunk_status) : bool := match s with SReleased => true | _ => false end.

Record spec_chunk := mkSpecChunk {
  sp_capacity : Z;
  sp_offset : Z;
  sp_generation : Z;
  sp_status : chunk_status;
  sp_payload : list Z;
}.
#[export] Instance spec_chunk_eta : Eta spec_chunk := fun c =>
  mkSpecChunk (sp_capacity c) (sp_offset c) (sp_generation c) (sp_status c) (sp_payload c).

(** ** Operations and their replies *)

Inductive pool_op :=
  | OpAllocate (payload_size : Z)
  | OpWritablePayload (handle : ChunkHandle)
  | OpWriteAndPublish (handle : ChunkHandle) (data : option (list Z))
      (payload_size sequence timestamp references : Z)
  | OpPublishLoaned (handle : ChunkHandle) (payload_size sequence timestamp references : Z)
  | OpAddReference (handle : ChunkHandle)
  | OpRelease (handle : ChunkHandle)
  | OpReclaim (handle : ChunkHandle)
  | OpCancel (handle : ChunkHandle).

Inductive pool_reply :=
  | ReplyAllocation (r : AllocationResult)
  | ReplyWritable (r : WritableChunkResult)
  | ReplyError (error : ErrorCode)
  | ReplyRelease (r : ReleaseResult).

Definition exec_op (op : pool_op) : cpp MemoryPool pool_reply :=
  match op with
  | OpAllocate n => r ← allocate n; mret (ReplyAllocation r)
  | OpWritablePayload h => r ← writablePayload h; mret (ReplyWritable r)
  | OpWriteAndPublish h d n s t r => e ← writeAndPublish h d n s t r; mret (ReplyError e)
  | OpPublishLoaned h n s t r => e ← publishLoaned h n s t r; mret (ReplyError e)
  | OpAddReference h => e ← addReference h; mret (ReplyError e)
  | OpRelease h => r ← release h; mret (ReplyRelease r)
  | OpReclaim h => e ← reclaim h; mret (ReplyError e)
  | OpCancel h => e ← cancel h; mret (ReplyError e)
  end.

(** Arguments as the C++ types allow them; a non-null buffer holds [payload_size] bytes. *)
Definition op_typed (op : pool_op) : Prop :=
  match op with
  | OpAllocate n => 0 <= n
  | OpWriteAndPublish h d n s _ r =>
      0 <= ch_chunk_index h /\ 0 <= n /\ 0 <= r <= u32_max /\
      match d with Some data => n <= Z.of_nat (length data) | None => True end
  | OpPublishLoaned h n s _ r => 0 <= ch_chunk_index h /\ 0 <= r <= u32_max
  | OpWritablePayload h | OpAddReference h | OpRelease h | OpReclaim h | OpCancel h =>
      0 <= ch_chunk_index h
  end.

(** ** The specification *)

(** The capacity [allocate n] chooses: the smallest that holds [n] bytes. *)
Definition best_fit (A : list spec_chunk) (n cap : Z) : Prop :=
  n <= cap /\ Exists (fun c => sp_capacity c = cap) A /\
  Forall (fun c => n <= sp_capacity c -> cap <= sp_capacity c) A.

(** [handle] denotes chunk [i]: right pool, current generation, right offset. *)
Definition denotes (pool : Z) (A : list spec_chunk) (handle : ChunkHandle) (i : nat) (c : spec_chunk)
    : Prop :=
  A !! i = Some c /\ handle = mkChunkHandle pool (Z.of_nat i) (sp_generation c) (sp_offset c).

Definition op_handle (op : pool_op) : option ChunkHandle :=
  match op with
  | OpAllocate _ => None
  | OpWritablePayload h | OpWriteAndPublish h _ _ _ _ _ | OpPublishLoaned h _ _ _ _
  | OpAddReference h | OpRelease h | OpReclaim h | OpCancel h => Some h
  end.

(** A payload was announced but no buffer given: refused before the handle is looked at. *)
Definition null_data (op : pool_op) : bool :=
  match op with
  | OpWriteAndPublish _ d n _ _ _ => negb (n =? 0) && bool_decide (d = None)
  | _ => false
  end.

(** The status an operation needs its chunk to have. *)
Definition required (op : pool_op) (s : chunk_status) : bool :=
  match op with
  | OpAllocate _ => true
  | OpWritablePayload _ | OpWriteAndPublish _ _ _ _ _ _ | OpPublishLoaned _ _ _ _ _ | OpCancel _ =>
      is_loaned s
  | OpAddReference _ | OpRelease _ => is_published s
  | OpReclaim _ => is_released s
  end.

Definition reject_handle (op : pool_op) : pool_reply :=
  match op with
  | OpWritablePayload _ => ReplyWritable (mkWritableChunkResult InvalidChunkHandle None)
  | OpRelease _ => ReplyRelease (mkReleaseResult InvalidChunkHandle 0 false)
  | _ => ReplyError InvalidChunkHandle
  end.

Definition reject_status (op : pool_op) : pool_reply :=
  match op with
  | OpWritablePayload _ => ReplyWritable (mkWritableChunkResult InvalidState None)
  | OpRelease _ => ReplyRelease (mkReleaseResult DuplicateRelease 0 false)
  | _ => ReplyError InvalidState
  end.

(** What both publish operations are given: size, sequence, timestamp, references. *)
Definition publish_args (op : pool_op) : option (Z * Z * Z * Z) :=
  match op with
  | OpWriteAndPublish _ _ n s t r | OpPublishLoaned _ n s t r => Some (n, s, t, r)
  | _ => None
  end.

(** The payload after a publish: copied from the buffer, or as the loan left it. *)
Definition published_payload (op : pool_op) (c : spec_chunk) : list Z :=
  match op with
  | OpWriteAndPublish _ (Some data) n _ _ _ =>
      put_at 0 (take (Z.to_nat n) data) (sp_payload c)
  | _ => sp_payload c
  end.

Inductive spec_step (pool : Z) (A : list spec_chunk) : pool_op -> pool_reply -> list spec_chunk -> Prop :=
  | spec_too_large n :
      Forall (fun c => sp_capacity c < n) A ->
      spec_step pool A (OpAllocate n)
        (ReplyAllocation (mkAllocationResult MessageTooLarge empty_ChunkHandle 0)) A
  | spec_exhausted n cap :
      best_fit A n cap -> Forall (fun c => sp_capacity c = cap -> sp_status c <> SFree) A ->
      spec_step pool A (OpAllocate n)
        (ReplyAllocation (mkAllocationResult PoolExhausted empty_ChunkHandle 0)) A
  | spec_allocated n i c :
      A !! i = Some c -> best_fit A n (sp_capacity c) -> sp_status c = SFree ->
      spec_step pool A (OpAllocate n)
        (ReplyAllocation (mkAllocationResult Ok
           (mkChunkHandle pool (Z.of_nat i) (next_generation (sp_generation c)) (sp_offset c))
           (sp_capacity c)))
        (<[i := c <| sp_generation := next_generation (sp_generation c) |>
                  <| sp_status := SLoaned n |>]> A)
  | spec_null op :
      null_data op = true -> spec_step pool A op (ReplyError InvalidArgument) A
  | spec_stale op handle :
      op_handle op = Some handle -> null_data op = false ->
      (forall i c, ~ denotes pool A handle i c) -> spec_step pool A op (reject_handle op) A
  | spec_wrong_status op handle i c :
      op_handle op = Some handle -> null_data op = false -> denotes pool A handle i c ->
      required op (sp_status c) = false -> spec_step pool A op (reject_status op) A
  | spec_writable handle i c n :
      denotes pool A handle i c -> sp_status c = SLoaned n ->
      spec_step pool A (OpWritablePayload handle)
        (ReplyWritable (mkWritableChunkResult Ok (Some (sp_offset c)))) A
  | spec_bad_publish op handle i c size n s t r :
      op_handle op = Some handle -> publish_args op = Some (n, s, t, r) -> null_data op = false ->
      denotes pool A handle i c -> sp_status c = SLoaned size -> n <> size \/ s = 0 \/ r = 0 ->
      spec_step pool A op (ReplyError InvalidArgument) A
  | spec_publish op handle i c n s t r :
      op_handle op = Some handle -> publish_args op = Some (n, s, t, r) -> null_data op = false ->
      denotes pool A handle i c -> sp_status c = SLoaned n -> s <> 0 -> r <> 0 ->
      spec_step pool A op (ReplyError Ok)
        (<[i := c <| sp_status := SPublished n s t r |>
                  <| sp_payload := published_payload op c |>]> A)
  | spec_reference_limit handle i c n s t :
      denotes pool A handle i c -> sp_status c = SPublished n s t u32_max ->
      spec_step pool A (OpAddReference handle) (ReplyError InvalidState) A
  | spec_add_reference handle i c n s t r :
      denotes pool A handle i c -> sp_status c = SPublished n s t r -> r < u32_max ->
      spec_step pool A (OpAddReference handle) (ReplyError Ok)
        (<[i := c <| sp_status := SPublished n s t (r + 1) |>]> A)
  | spec_release handle i c n s t r :
      denotes pool A handle i c -> sp_status c = SPublished n s t r ->
      spec_step pool A (OpRelease handle) (ReplyRelease (mkReleaseResult Ok (r - 1) (r =? 1)))
        (<[i := c <| sp_status := if r =? 1 then SReleased else SPublished n s t (r - 1) |>]> A)
  | spec_reclaim handle i c :
      denotes pool A handle i c -> sp_status c = SReleased ->
      spec_step pool A (OpReclaim handle) (ReplyError Ok) (<[i := c <| sp_status := SFree |>]> A)
  | spec_cancel handle i c n :
      denotes pool A handle i c -> sp_status c = SLoaned n ->
      spec_step pool A (OpCancel handle) (ReplyError Ok) (<[i := c <| sp_status := SFree |>]> A).

(** ** Abstraction *)

Definition status_of (h : ChunkHeader) : chunk_status :=
  if ck_state h =? ChunkState_Free then SFree
  else if ck_state h =? ChunkState_Loaned then SLoaned (ck_payload_size h)
  else if ck_state h =? ChunkState_Published then
    SPublished (ck_payload_size h) (ck_sequence h) (ck_publish_timestamp_ns h) (ck_ref_count h)
  else SReleased.

Definition abs_chunk (e : ChunkDirectoryEntry) (h : ChunkHeader) (bytes : list Z) : spec_chunk :=
  mkSpecChunk (de_capacity e) (de_payload_offset e) (ck_generation h) (status_of h)
    (get_at (Z.to_nat (de_payload_offset e)) (Z.to_nat (de_capacity e)) bytes).

Definition abs (p : MemoryPool) : list spec_chunk :=
  map (fun e => abs_chunk e (default zero_ChunkHeader (reg_chunks (mp_region p) !! de_header_offset e))
                  (reg_bytes (mp_region p))) (mp_directory p).

(** [p'] has the layout of [p], and the bytes before the first chunk are the same. *)
Definition same_geometry (p p' : MemoryPool) : Prop :=
  mp_descriptor p' = mp_descriptor p /\ mp_size_classes p' = mp_size_classes p /\
  mp_directory p' = mp_directory p /\ region_size (mp_region p') = region_size (mp_region p) /\
  forall start o n, chained start (mp_directory p) (region_size (mp_region p)) -> Z.of_nat (o + n) <= start ->
    get_at o n (reg_bytes (mp_region p')) = get_at o n (reg_bytes (mp_region p)).

Abbreviation pool_id_of p := (pd_pool_id (mp_descriptor p)).

Lemma same_geometry_refl p : same_geometry p p.
Proof. by split_and!. Qed.

Lemma same_geometry_trans p q r : same_geometry p q -> same_geometry q r -> same_geometry p r.
Proof.
  intros (? & ? & Hdir & Hsize & H1) (? & ? & ? & ? & H2). split_and!; try congruence.
  intros start o n Hch Hon. rewrite (H2 start), (H1 start); auto. by rewrite Hdir, Hsize.
Qed.

(** ** Abstraction of accesses and updates *)

Section refinement.
Context (p : MemoryPool) (Hwf : pool_wf p).
Implicit Types (i j : nat) (e : ChunkDirectoryEntry) (h : ChunkHeader) (handle : ChunkHandle).

Lemma lookup_abs i e h : chunk_at p i e h ->
  abs p !! i = Some (abs_chunk e h (reg_bytes (mp_region p))).
Proof. intros [Hi Hh]. unfold abs. rewrite list_lookup_fmap, Hi. simpl. by rewrite Hh. Qed.

Lemma lookup_abs_inv i c : abs p !! i = Some c ->
  exists e h, chunk_at p i e h /\ c = abs_chunk e h (reg_bytes (mp_region p)).
Proof.
  unfold abs. rewrite list_lookup_fmap_Some. intros (e & -> & Hi).
  destruct (pw_headers _ Hwf _ _ Hi) as (h & [_ Hh] & _).
  exists e, h. rewrite Hh. by unfold chunk_at.
Qed.

Lemma Forall_abs (P : spec_chunk -> Prop) :
  (forall i e h, chunk_at p i e h -> P (abs_chunk e h (reg_bytes (mp_region p)))) -> Forall P (abs p).
Proof.
  intros HP. apply Forall_lookup_2. intros i c (e & h & Hat & ->)%lookup_abs_inv. eauto.
Qed.

(** A store that touches one chunk is an update of one abstract chunk. *)
Lemma abs_set_pool i e h h' free bytes counters :
  chunk_at p i e h ->
  (forall j e', mp_directory p !! j = Some e' -> j <> i ->
     get_at (Z.to_nat (de_payload_offset e')) (Z.to_nat (de_capacity e')) bytes =
     get_at (Z.to_nat (de_payload_offset e')) (Z.to_nat (de_capacity e')) (reg_bytes (mp_region p))) ->
  abs (set_pool p (de_header_offset e) h' free bytes counters) = <[i := abs_chunk e h' bytes]> (abs p).
Proof.
  intros Hat Hbytes. destruct Hat as [Hi Hh]. apply list_eq. intros j.
  destruct (decide (j = i)) as [->|Hne].
  - rewrite list_lookup_insert_eq by (unfold abs; rewrite length_map; by eapply lookup_lt_Some).
    unfold abs. rewrite list_lookup_fmap. simpl. rewrite Hi. simpl. by rewrite lookup_insert_eq.
  - rewrite list_lookup_insert_ne by done. unfold abs. rewrite !list_lookup_fmap. simpl.
    destruct (mp_directory p !! j) as [e'|] eqn:Hj; [|done]. simpl. f_equal.
    rewrite lookup_insert_ne by (intros ?; by eapply Hne, header_offset_inj).
    unfold abs_chunk. by rewrite (Hbytes j e').
Qed.

Lemma abs_set_same_bytes i e h h' free counters : chunk_at p i e h ->
  abs (set_pool p (de_header_offset e) h' free (reg_bytes (mp_region p)) counters) =
  <[i := abs_chunk e h' (reg_bytes (mp_region p))]> (abs p).
Proof. intros Hat. eapply abs_set_pool; eauto. Qed.

Lemma target_denotes handle i e h : 0 <= ch_chunk_index handle ->
  handle_target p handle = Some (i, e, h) ->
  chunk_at p i e h /\ denotes (pool_id_of p) (abs p) handle i (abs_chunk e h (reg_bytes (mp_region p))).
Proof.
  intros Hidx Ht. apply handle_target_Some in Ht as (Hat & ? & ? & ? & ?); [|done].
  split; [done|]. split; [by apply lookup_abs|]. destruct handle; simpl in *. by subst.
Qed.

Lemma no_target_denotes handle : handle_target p handle = None ->
  forall i c, ~ denotes (pool_id_of p) (abs p) handle i c.
Proof.
  intros Ht i c [Hc ->]. apply lookup_abs_inv in Hc as (e & h & [Hi Hh] & ->).
  unfold handle_target, mbind, option_bind in Ht. cbn [ch_chunk_index ch_pool_id ch_generation
    ch_payload_offset abs_chunk sp_generation sp_offset] in Ht.
  by rewrite Nat2Z.id, Hi, Hh, !Z.eqb_refl in Ht.
Qed.

Lemma is_loaned_status h : is_loaned (status_of h) = (ck_state h =? ChunkState_Loaned).
Proof. unfold status_of. destruct (Z.eqb_spec (ck_state h) ChunkState_Free) as [->|]; by repeat case_match. Qed.

Lemma is_published_status h : is_published (status_of h) = (ck_state h =? ChunkState_Published).
Proof.
  unfold status_of. destruct (Z.eqb_spec (ck_state h) ChunkState_Free) as [->|]; [done|].
  destruct (Z.eqb_spec (ck_state h) ChunkState_Loaned) as [->|]; by repeat case_match.
Qed.

Lemma is_released_status h : chunk_state_ok h ->
  is_released (status_of h) = (ck_state h =? ChunkState_Released).
Proof. unfold status_of. by intros [[-> ?] | [(-> & ?) | [(-> & ?) | (-> & ?)]]]. Qed.

(** [bytes] and [bytes'] differ at most in the payload of [e]. *)
Definition outside_payload (e : ChunkDirectoryEntry) (bytes bytes' : list Z) : Prop :=
  forall o n, Z.of_nat (o + n) <= de_payload_offset e \/ de_payload_offset e + de_capacity e <= Z.of_nat o ->
    get_at o n bytes = get_at o n bytes'.

Lemma outside_payload_others i e bytes : mp_directory p !! i = Some e ->
  outside_payload e bytes (reg_bytes (mp_region p)) ->
  forall j e', mp_directory p !! j = Some e' -> j <> i ->
    get_at (Z.to_nat (de_payload_offset e')) (Z.to_nat (de_capacity e')) bytes =
    get_at (Z.to_nat (de_payload_offset e')) (Z.to_nat (de_capacity e')) (reg_bytes (mp_region p)).
Proof.
  intros Hi Hout j e' Hj Hji. destruct (entry_bounds _ Hwf _ _ Hi) as (? & ? & ? & ?).
  destruct (entry_bounds _ Hwf _ _ Hj) as (? & ? & ? & ?). unfold sizeof_ChunkHeader in *.
  apply Hout. destruct (entry_disjoint _ Hwf _ _ _ _ Hi Hj ltac:(done)); lia.
Qed.

Lemma set_pool_geometry i e h' free bytes counters : mp_directory p !! i = Some e ->
  length bytes = length (reg_bytes (mp_region p)) -> outside_payload e bytes (reg_bytes (mp_region p)) ->
  same_geometry p (set_pool p (de_header_offset e) h' free bytes counters).
Proof.
  intros Hi Hlen Hout. unfold same_geometry, region_size. simpl. split_and!; auto.
  intros start o n Hch Hon. destruct (chained_bounds _ _ _ _ _ Hch Hi) as (? & _ & ? & _).
  unfold sizeof_ChunkHeader in *. apply Hout. lia.
Qed.

(** The operation returns, keeps the invariant and the metadata, and takes a step of the
    specification. *)
Definition refines (op : pool_op) : Prop :=
  exists r p', exec_op op p = (Ret r, p') /\ pool_wf p' /\
    spec_step (pool_id_of p) (abs p) op r (abs p') /\ same_geometry p p'.

Lemma refines_unchanged op r :
  exec_op op p = (Ret r, p) -> spec_step (pool_id_of p) (abs p) op r (abs p) -> refines op.
Proof. intros. exists r, p. split_and!; auto using same_geometry_refl. Qed.

(** A method that changes one chunk. *)
Lemma refines_update op r i e h h' free bytes counters :
  exec_op op p = (Ret r, set_pool p (de_header_offset e) h' free bytes counters) ->
  pool_wf (set_pool p (de_header_offset e) h' free bytes counters) ->
  chunk_at p i e h -> length bytes = length (reg_bytes (mp_region p)) ->
  outside_payload e bytes (reg_bytes (mp_region p)) ->
  spec_step (pool_id_of p) (abs p) op r (<[i := abs_chunk e h' bytes]> (abs p)) -> refines op.
Proof.
  intros Hrun ? Hat Hlen Hout ?. eexists _, _. split_and!; [exact Hrun | done | |].
  - erewrite abs_set_pool; [done | done |]. by eapply outside_payload_others, Hout; apply Hat.
  - eapply set_pool_geometry; [apply Hat | done | done].
Qed.

(** The handle methods: a stale handle and a chunk in the wrong state leave the pool
    unchanged; what remains is the chunk in the state the method needs. *)
Lemma handle_op_refines {X} op handle (reply : X -> pool_reply) reject k :
  exec_op op = (x ← with_handle handle reject k; mret (reply x)) ->
  op_handle op = Some handle -> null_data op = false -> reply reject = reject_handle op ->
  0 <= ch_chunk_index handle ->
  (forall i e h, chunk_at p i e h -> chunk_ok (mp_descriptor p) e h ->
     required op (status_of h) = false ->
     exists x, k (de_header_offset e) h p = (Ret x, p) /\ reply x = reject_status op) ->
  (forall i e h, chunk_at p i e h -> chunk_ok (mp_descriptor p) e h ->
     denotes (pool_id_of p) (abs p) handle i (abs_chunk e h (reg_bytes (mp_region p))) ->
     handle_target p handle = Some (i, e, h) ->
     required op (status_of h) = true ->
     exec_op op p = (x ← k (de_header_offset e) h; mret (reply x)) p -> refines op) ->
  refines op.
Proof.
  intros Hexec Hop Hnull Hrej Hidx Hwrong Hright.
  assert (Hrun : exec_op op p = match handle_target p handle with
    | Some (_, e, h) => (x ← k (de_header_offset e) h; mret (reply x)) p
    | None => (Ret (reply reject), p) end).
  { rewrite Hexec. unfold mbind at 1, cpp_bind at 1. rewrite (with_handle_run _ Hwf) by done.
    by destruct (handle_target p handle) as [[[? ?] ?]|]. }
  destruct (handle_target p handle) as [[[i e] h]|] eqn:Ht.
  - destruct (target_denotes _ _ _ _ Hidx Ht) as [Hat Hden].
    pose proof (chunk_at_ok _ Hwf _ _ _ Hat) as Hok.
    destruct (required op (status_of h)) eqn:Hreq; [by eapply Hright|].
    destruct (Hwrong _ _ _ Hat Hok Hreq) as (x & Hk & Hx).
    apply refines_unchanged with (reply x).
    + rewrite Hrun. unfold mbind, cpp_bind. by rewrite Hk.
    + rewrite Hx. by eapply spec_wrong_status.
  - apply refines_unchanged with (reply reject); [done|].
    rewrite Hrej. eapply spec_stale; eauto. by apply no_target_denotes.
Qed.

(** A header cannot be in two states. *)
Ltac state_clash :=
  match goal with H1 : ck_state ?h = _, H2 : ck_state ?h = _ |- _ => rewrite H1 in H2; discriminate end.

(** Turns [required] facts into the state of the header. *)
Lemma required_loaned h : is_loaned (status_of h) = true ->
  ck_state h = ChunkState_Loaned /\ status_of h = SLoaned (ck_payload_size h).
Proof. rewrite is_loaned_status. intros ?. bools. unfold status_of. rewrite H. by split. Qed.

Lemma required_published h : chunk_state_ok h -> is_published (status_of h) = true ->
  ck_state h = ChunkState_Published /\ 0 < ck_ref_count h <= u32_max /\
  ck_generation h <> 0 /\ ck_sequence h <> 0 /\
  status_of h = SPublished (ck_payload_size h) (ck_sequence h) (ck_publish_timestamp_ns h)
                  (ck_ref_count h).
Proof.
  rewrite is_published_status. intros Hok ?. bools. unfold status_of. rewrite H.
  destruct Hok as [[? _] | [[? _] | [(_ & [? ?] & ? & ?) | [? _]]]]; try state_clash; by split_and!.
Qed.

Lemma required_released h : chunk_state_ok h -> is_released (status_of h) = true ->
  ck_state h = ChunkState_Released /\ ck_ref_count h = 0 /\ ck_generation h <> 0 /\ status_of h = SReleased.
Proof.
  intros Hok. rewrite is_released_status by done. intros ?. bools. unfold status_of. rewrite H.
  destruct Hok as [[? _] | [[? _] | [(? & _) | (? & ? & ?)]]]; try state_clash; by split_and!.
Qed.

Lemma writablePayload_refines handle : 0 <= ch_chunk_index handle -> refines (OpWritablePayload handle).
Proof.
  intros Hidx. eapply handle_op_refines; try done.
  - intros i e h Hat Hok Hreq. cbn [required] in Hreq. cbv beta. rewrite is_loaned_status in Hreq. rewrite Hreq.
    by eexists.
  - intros i e h Hat Hok Hden _ Hreq Hrun. cbn [required] in Hreq. cbv beta zeta in Hrun. destruct (required_loaned _ Hreq) as [Hst Hs].
    assert (Hoff : ch_payload_offset handle = de_payload_offset e) by (by destruct Hden as [_ ->]).
    eapply refines_unchanged; [by rewrite Hrun, Hst, Hoff|]. by eapply spec_writable in Hden.
Qed.

Lemma addReference_refines handle : 0 <= ch_chunk_index handle -> refines (OpAddReference handle).
Proof.
  intros Hidx. eapply handle_op_refines; try done.
  - intros i e h Hat Hok Hreq. cbn [required] in Hreq. cbv beta. rewrite is_published_status in Hreq. rewrite Hreq. by eexists.
  - intros i e h Hat Hok Hden _ Hreq Hrun. cbn [required] in Hreq. cbv beta zeta in Hrun.
    destruct Hok as (? & ? & ? & ? & ? & ? & Hst).
    destruct (required_published _ Hst Hreq) as (Hpub & Hrefs & Hgen & Hseq & Hs).
    rewrite Hpub, Z.eqb_refl, (proj2 (Z.eqb_neq (ck_ref_count h) 0)) in Hrun by lia.
    cbn [negb orb] in Hrun.
    destruct (ck_ref_count h =? u32_max) eqn:Hmax; bools.
    + eapply refines_unchanged; [exact Hrun|]. eapply spec_reference_limit; [done|].
      simpl. by rewrite Hs, Hmax.
    + rewrite wrap_small in Hrun by ulia.
      eapply (refines_update _ _ i e h (h <| ck_ref_count := ck_ref_count h + 1 |>)
        (mp_free_lists p) (reg_bytes (mp_region p)));
        [| |done|done|done|].
      * rewrite Hrun. unfold_cpp. by rewrite (store_chunk_run _ Hwf _ _ _ _ Hat).
      * apply set_pool_wf_same with i h; auto.
        unfold chunk_ok. simpl. split_and!; auto; try lia.
        right; right; left. simpl. split_and!; auto; lia.
      * eapply spec_add_reference in Hden; [|exact Hs|lia].
        unfold abs_chunk, status_of in *. simpl in *. rewrite Hpub in *. exact Hden.
Qed.

(** Running a store of chunk [e], then the counters. *)
Ltac run_update Hrun Hat :=
  rewrite Hrun; unfold count_event; unfold_cpp; rewrite (store_chunk_run _ Hwf _ _ _ _ Hat).

Lemma release_refines handle : 0 <= ch_chunk_index handle -> refines (OpRelease handle).
Proof.
  intros Hidx. eapply handle_op_refines; try done.
  - intros i e h Hat Hok Hreq. cbn [required] in Hreq. cbv beta.
    rewrite is_published_status in Hreq. rewrite Hreq. eexists. split; [done|]. simpl.
    destruct Hok as (_ & _ & _ & _ & _ & _ & [[? ->] | [(? & -> & _) | [[? _] | (? & -> & _)]]]);
      try done. bools. congruence.
  - intros i e h Hat Hok Hden _ Hreq Hrun. cbn [required] in Hreq. cbv beta zeta in Hrun.
    destruct Hok as (? & ? & ? & ? & ? & ? & Hst).
    destruct (required_published _ Hst Hreq) as (Hpub & Hrefs & Hgen & Hseq & Hs).
    rewrite Hpub, Z.eqb_refl, (proj2 (Z.eqb_neq (ck_ref_count h) 0)), wrap_small in Hrun by ulia.
    cbn [negb] in Hrun.
    set (h' := if ck_ref_count h - 1 =? 0
               then h <| ck_ref_count := ck_ref_count h - 1 |> <| ck_state := ChunkState_Released |>
               else h <| ck_ref_count := ck_ref_count h - 1 |>).
    eapply (refines_update _ _ i e h h' (mp_free_lists p) (reg_bytes (mp_region p))); [| |done|done|done|].
    + run_update Hrun Hat. done.
    + apply set_pool_wf_same with i h; auto.
      * unfold chunk_ok, chunk_state_ok, h'. case_match; bools; simpl; split_and!; auto; try lia.
      * unfold h'. case_match; simpl; by rewrite Hpub.
    + assert (Hone : (ck_ref_count h =? 1) = (ck_ref_count h - 1 =? 0))
        by (destruct (Z.eqb_spec (ck_ref_count h) 1), (Z.eqb_spec (ck_ref_count h - 1) 0); lia).
      eapply spec_release in Hden; [|exact Hs]. rewrite Hone in Hden.
      replace (abs_chunk e h' (reg_bytes (mp_region p))) with
        (abs_chunk e h (reg_bytes (mp_region p)) <| sp_status :=
           if ck_ref_count h - 1 =? 0 then SReleased
           else SPublished (ck_payload_size h) (ck_sequence h) (ck_publish_timestamp_ns h)
                  (ck_ref_count h - 1) |>); [exact Hden|].
      unfold abs_chunk, h', status_of. case_match; simpl; [done|]. by rewrite Hpub.
Qed.

Lemma free_list_of i e h : chunk_at p i e h ->
  exists l, mp_free_lists p !! Z.to_nat (de_size_class_index e) = Some l.
Proof.
  intros Hat. destruct (chunk_at_class _ Hwf _ _ _ Hat) as (m & Hm & _ & _).
  apply lookup_lt_is_Some_2. rewrite (pw_free_count _ Hwf). by eapply lookup_lt_Some.
Qed.

Lemma push_free_run q c l k : 0 <= c -> mp_free_lists q !! Z.to_nat c = Some l ->
  push_free c k q = (Ret tt, q <| mp_free_lists := <[Z.to_nat c := l ++ [k]]> (mp_free_lists q) |>).
Proof. intros Hc Hl. unfold push_free. unfold_cpp. by rewrite (proj2 (Z.leb_le _ _)), Hl. Qed.

Lemma reclaim_refines handle : 0 <= ch_chunk_index handle -> refines (OpReclaim handle).
Proof.
  intros Hidx. eapply handle_op_refines; try done.
  - intros i e h Hat Hok Hreq. cbn [required] in Hreq. cbv beta.
    rewrite is_released_status in Hreq by apply Hok. rewrite Hreq. by eexists.
  - intros i e h Hat Hok Hden _ Hreq Hrun. cbn [required] in Hreq. cbv beta zeta in Hrun.
    destruct Hok as (? & Hci & ? & ? & ? & ? & Hst).
    destruct (required_released _ Hst Hreq) as (Hrel & Hrefs & Hgen & Hs).
    rewrite Hrel, Hrefs, !Z.eqb_refl in Hrun. cbn [negb orb] in Hrun.
    assert (Hidx' : ch_chunk_index handle = Z.of_nat i) by (by destruct Hden as [_ ->]).
    destruct (free_list_of _ _ _ Hat) as [l Hl].
    destruct (chunk_at_class _ Hwf _ _ _ Hat) as (_ & _ & Hcls & _).
    eapply (refines_update _ _ i e h (h <| ck_payload_size := 0 |> <| ck_sequence := 0 |>
      <| ck_publish_timestamp_ns := 0 |> <| ck_state := ChunkState_Free |>)
      (<[Z.to_nat (de_size_class_index e) := l ++ [Z.of_nat i]]> (mp_free_lists p))
      (reg_bytes (mp_region p))); [| |done|done|done|].
    + run_update Hrun Hat. rewrite Hci, Hidx'. by rewrite (push_free_run _ _ l).
    + apply set_pool_wf_push with h; auto; [|by rewrite Hrel].
      unfold chunk_ok, chunk_state_ok. simpl. split_and!; auto; try lia.
    + by eapply spec_reclaim in Hden.
Qed.

Lemma cancel_refines handle : 0 <= ch_chunk_index handle -> refines (OpCancel handle).
Proof.
  intros Hidx. eapply handle_op_refines; try done.
  - intros i e h Hat Hok Hreq. cbn [required] in Hreq. cbv beta.
    rewrite is_loaned_status in Hreq. rewrite Hreq. by eexists.
  - intros i e h Hat Hok Hden _ Hreq Hrun. cbn [required] in Hreq. cbv beta zeta in Hrun.
    destruct Hok as (? & Hci & ? & ? & ? & ? & Hst).
    destruct (required_loaned _ Hreq) as (Hloan & Hs).
    rewrite Hloan, Z.eqb_refl in Hrun. cbn [negb] in Hrun.
    assert (Hidx' : ch_chunk_index handle = Z.of_nat i) by (by destruct Hden as [_ ->]).
    destruct (free_list_of _ _ _ Hat) as [l Hl].
    destruct (chunk_at_class _ Hwf _ _ _ Hat) as (_ & _ & Hcls & _).
    eapply (refines_update _ _ i e h (h <| ck_payload_size := 0 |> <| ck_state := ChunkState_Free |>)
      (<[Z.to_nat (de_size_class_index e) := l ++ [Z.of_nat i]]> (mp_free_lists p))
      (reg_bytes (mp_region p)));
      [| |done|done|done|].
    + run_update Hrun Hat. rewrite Hci, Hidx'. by rewrite (push_free_run _ _ l).
    + apply set_pool_wf_push with h; auto; [|by rewrite Hloan].
      unfold chunk_ok, chunk_state_ok. simpl. split_and!; auto; try lia.
      destruct Hst as [[? ?] | [(? & ? & ?) | [[? ?] | [? ?]]]]; try state_clash. by left.
    + by eapply spec_cancel in Hden.
Qed.

(** ** Publishing *)

(** The verdict of [publishLocked] on the chunk a handle denotes. *)
Definition publish_verdict (h : ChunkHeader) (n s r : Z) : ErrorCode :=
  if negb (ck_state h =? ChunkState_Loaned) then InvalidState
  else if negb (n =? ck_payload_size h) || (ck_capacity h <? n) || (s =? 0) || (r =? 0)
  then InvalidArgument else Ok.

Lemma publishLocked_run handle n s r : 0 <= ch_chunk_index handle ->
  publishLocked handle n s r p =
  (Ret (match handle_target p handle with
        | Some (_, _, h) => publish_verdict h n s r
        | None => InvalidChunkHandle
        end), p).
Proof.
  intros Hidx. unfold publishLocked. rewrite (with_handle_run _ Hwf) by done.
  destruct (handle_target p handle) as [[[i e] h]|]; [|done]. unfold publish_verdict. by repeat case_match.
Qed.

Definition published_header (h : ChunkHeader) (s t r : Z) : ChunkHeader :=
  h <| ck_sequence := s |> <| ck_publish_timestamp_ns := t |> <| ck_ref_count := r |>
    <| ck_state := ChunkState_Published |>.

Lemma mark_published_run q i e h handle s t r :
  mp_directory q = mp_directory p -> reg_chunks (mp_region q) = reg_chunks (mp_region p) ->
  region_size (mp_region q) = region_size (mp_region p) ->
  chunk_at p i e h -> ch_chunk_index handle = Z.of_nat i ->
  mark_published handle s t r q =
    (Ret tt, set_pool q (de_header_offset e) (published_header h s t r) (mp_free_lists q)
               (reg_bytes (mp_region q)) (mp_instrumentation q)).
Proof.
  intros Hdir Hchunks Hsize Hat Hidx. unfold mark_published, mbind, cpp_bind. rewrite Hidx.
  assert (Hreg : region_chunk (mp_region q) (de_header_offset e) = Some h)
    by (rewrite <- (region_chunk_at _ Hwf _ _ _ Hat); unfold region_chunk; by rewrite Hsize, Hchunks).
  rewrite (chunkHeader_run _ i e) by (rewrite Hdir; apply Hat).
  by rewrite (load_run _ _ _ Hreg), (store_run _ _ _ _ Hreg).
Qed.

(** Both publish methods: a bad verdict is returned and changes nothing, a good one
    publishes the chunk with the payload the method leaves in it. *)
Lemma publish_refines op handle n s t r :
  op_handle op = Some handle -> publish_args op = Some (n, s, t, r) -> null_data op = false ->
  (forall st, required op st = is_loaned st) ->
  reject_handle op = ReplyError InvalidChunkHandle -> reject_status op = ReplyError InvalidState ->
  0 <= ch_chunk_index handle -> 0 <= r <= u32_max ->
  (forall v, publishLocked handle n s r p = (Ret v, p) -> v <> Ok ->
     exec_op op p = (Ret (ReplyError v), p)) ->
  (forall i e h, chunk_at p i e h -> ch_chunk_index handle = Z.of_nat i ->
     ch_payload_offset handle = de_payload_offset e -> n = ck_payload_size h -> 0 <= n <= de_capacity e ->
     publishLocked handle n s r p = (Ret Ok, p) ->
     exists bytes counters,
       exec_op op p = (Ret (ReplyError Ok), set_pool p (de_header_offset e) (published_header h s t r)
                                              (mp_free_lists p) bytes counters) /\
       length bytes = length (reg_bytes (mp_region p)) /\
       outside_payload e bytes (reg_bytes (mp_region p)) /\
       get_at (Z.to_nat (de_payload_offset e)) (Z.to_nat (de_capacity e)) bytes =
       published_payload op (abs_chunk e h (reg_bytes (mp_region p)))) ->
  refines op.
Proof.
  intros Hop Hargs Hnull Hreq Hrejh Hrejs Hidx Hr Hbad Hgood.
  pose proof (publishLocked_run handle n s r Hidx) as Hlock.
  destruct (handle_target p handle) as [[[i e] h]|] eqn:Ht.
  2: { eapply refines_unchanged; [by apply (Hbad _ Hlock)|]. rewrite <- Hrejh.
       eapply spec_stale; eauto. by apply no_target_denotes. }
  destruct (target_denotes _ _ _ _ Hidx Ht) as [Hat Hden].
  destruct (chunk_at_ok _ Hwf _ _ _ Hat) as (Hcap & Hcls & Htop & Hpid & Hgen & Hsize & Hst).
  apply handle_target_Some in Ht as (_ & Hi & _ & _ & Hoff); [|done].
  unfold publish_verdict in Hlock.
  destruct (negb (ck_state h =? ChunkState_Loaned)) eqn:Hloan; bools.
  { eapply refines_unchanged; [by apply (Hbad _ Hlock)|]. rewrite <- Hrejs.
    eapply spec_wrong_status; eauto. rewrite Hreq. simpl. rewrite is_loaned_status. by apply Z.eqb_neq. }
  assert (Hs : status_of h = SLoaned (ck_payload_size h)) by (unfold status_of; by rewrite Hloan).
  destruct (_ || _) eqn:Hcond.
  { eapply refines_unchanged; [by apply (Hbad _ Hlock)|].
    eapply spec_bad_publish; eauto. rewrite !orb_true_iff in Hcond.
    destruct Hcond as [[[?|?]|?]|?]; bools; auto; lia. }
  bools. subst n.
  destruct (Hgood i e h Hat Hi Hoff eq_refl) as (bytes & counters & Hrun & Hlen & Hothers & Hpay);
    [lia|done|].
  eapply refines_update; [exact Hrun | | exact Hat | done | done |].
  - apply set_pool_wf_same with i h; auto; [|simpl; by rewrite Hloan].
    unfold chunk_ok, chunk_state_ok, published_header. simpl. split_and!; auto; try lia.
    destruct Hst as [[? ?] | [(? & ? & ?) | [[? ?] | [? ?]]]]; try state_clash.
    right; right; left. split_and!; auto; lia.
  - unfold abs_chunk at 1. rewrite Hpay. by apply (spec_publish _ _ _ _ _ _ _ _ _ _ Hop Hargs Hnull Hden Hs).
Qed.

Lemma publishLoaned_refines handle n s t r : op_typed (OpPublishLoaned handle n s t r) ->
  refines (OpPublishLoaned handle n s t r).
Proof.
  intros [Hidx Hr]. eapply publish_refines; try done.
  - intros v Hv Hne. simpl. unfold publishLoaned. unfold_cpp. rewrite Hv.
    destruct (is_ok v) eqn:Hok; [by apply is_ok_spec in Hok|done].
  - intros i e h Hat Hi Hoff -> Hn Hv. exists (reg_bytes (mp_region p)), (mp_instrumentation p).
    split_and!; try done. simpl. unfold publishLoaned. unfold_cpp. rewrite Hv. simpl.
    by rewrite (mark_published_run p i e h).
Qed.

Lemma copy_in_run i e data : mp_directory p !! i = Some e -> Z.of_nat (length data) <= de_capacity e ->
  copy_in (de_payload_offset e) data p =
  (Ret tt, p <| mp_region := mp_region p
     <| reg_bytes := put_at (Z.to_nat (de_payload_offset e)) data (reg_bytes (mp_region p)) |> |>).
Proof.
  intros Hi Hlen. destruct (entry_bounds _ Hwf _ _ Hi) as (? & ? & ? & ?).
  unfold copy_in, region_size, sizeof_ChunkHeader in *. unfold_cpp.
  by rewrite (proj2 (Z.leb_le _ _)), write_at_Some by lia.
Qed.

Lemma put_at_outside_payload i e data : mp_directory p !! i = Some e ->
  Z.of_nat (length data) <= de_capacity e ->
  outside_payload e (put_at (Z.to_nat (de_payload_offset e)) data (reg_bytes (mp_region p)))
    (reg_bytes (mp_region p)).
Proof.
  intros Hi Hlen o n Ho. destruct (entry_bounds _ Hwf _ _ Hi) as (? & ? & ? & ?).
  unfold sizeof_ChunkHeader in *. apply get_at_put_at_disjoint. lia.
Qed.

Lemma payload_written i e data :
  mp_directory p !! i = Some e -> Z.of_nat (length data) <= de_capacity e ->
  get_at (Z.to_nat (de_payload_offset e)) (Z.to_nat (de_capacity e))
    (put_at (Z.to_nat (de_payload_offset e)) data (reg_bytes (mp_region p))) =
  put_at 0 data
    (get_at (Z.to_nat (de_payload_offset e)) (Z.to_nat (de_capacity e)) (reg_bytes (mp_region p))).
Proof.
  intros Hi Hlen. destruct (entry_bounds _ Hwf _ _ Hi) as (? & ? & ? & ?).
  unfold region_size, sizeof_ChunkHeader in *. apply get_at_put_at_prefix; lia.
Qed.

Lemma writeAndPublish_refines handle data n s t r :
  op_typed (OpWriteAndPublish handle data n s t r) -> refines (OpWriteAndPublish handle data n s t r).
Proof.
  intros (Hidx & Hn & Hr & Hdata).
  destruct (null_data (OpWriteAndPublish handle data n s t r)) eqn:Hnull.
  { apply refines_unchanged with (ReplyError InvalidArgument); [|by constructor].
    simpl in *. unfold writeAndPublish. by rewrite Hnull. }
  assert (Hexec : exec_op (OpWriteAndPublish handle data n s t r) =
    (e ← writeAndPublish handle data n s t r; mret (ReplyError e))) by done.
  unfold writeAndPublish in Hexec. simpl in Hnull. rewrite Hnull in Hexec.
  eapply publish_refines; try done.
  - intros v Hv Hne. rewrite Hexec. unfold_cpp. rewrite Hv.
    destruct (is_ok v) eqn:Hok; [by apply is_ok_spec in Hok|done].
  - intros i e h Hat Hi Hoff -> Hcap Hv. pose proof (proj1 Hat) as Hdir.
    destruct (ck_payload_size h =? 0) eqn:Hzero; bools.
    + exists (reg_bytes (mp_region p)). eexists. split_and!; try done.
      * rewrite Hexec. unfold count_event. unfold_cpp. rewrite Hv. cbn [is_ok negb].
        by rewrite (mark_published_run p i e h).
      * destruct data; [|done]. rewrite Hzero. simpl. by rewrite put_at_nil.
    + destruct data as [d|]; [|by destruct Hnull as [?|?]; bools]. simpl in Hdata.
      set (source := take (Z.to_nat (ck_payload_size h)) d).
      assert (Z.of_nat (length source) <= de_capacity e) by (unfold source; rewrite length_take; lia).
      exists (put_at (Z.to_nat (de_payload_offset e)) source (reg_bytes (mp_region p))). eexists.
      split_and!.
      * rewrite Hexec. unfold count_event. unfold_cpp. rewrite Hv. cbn [is_ok negb].
        unfold option_bind. rewrite read_at_Some by lia. unfold get_at. rewrite drop_0. fold source.
        unfold mret, cpp_ret.
        rewrite Hoff, (copy_in_run i) by done.
        rewrite (mark_published_run _ i e h); try done.
        unfold region_size. simpl. by rewrite length_put_at.
      * by rewrite length_put_at.
      * by eapply put_at_outside_payload.
      * by eapply payload_written.
Qed.

(** ** Allocation *)

Lemma find_class_None n classes : find_class n classes = None ->
  Forall (fun m => sc_capacity m < n) classes.
Proof.
  induction classes as [|m classes IH]; simpl; [done|]. case_match; [done|].
  destruct (find_class n classes); [done|]. bools. constructor; auto.
Qed.

Lemma find_class_Some n classes k : find_class n classes = Some k ->
  exists m, classes !! k = Some m /\ n <= sc_capacity m /\
    forall j m', classes !! j = Some m' -> (j < k)%nat -> sc_capacity m' < n.
Proof.
  revert k. induction classes as [|m classes IH]; intros k; simpl; [done|]. case_match; bools.
  - intros [= <-]. exists m. split_and!; auto. intros. lia.
  - destruct (find_class n classes) as [k'|]; [|done]. intros [= <-].
    destruct (IH k' eq_refl) as (m' & ? & ? & Hlt). exists m'. split_and!; auto.
    intros [|j] m'' Hj ?; simplify_eq/=; [lia|]. eapply Hlt; eauto. lia.
Qed.

(** The class of a chunk is determined by its capacity. *)
Lemma class_of_capacity i e h k m : chunk_at p i e h -> mp_size_classes p !! k = Some m ->
  de_capacity e = sc_capacity m -> de_size_class_index e = Z.of_nat k.
Proof.
  intros Hat Hk Hcap. destruct (chunk_at_class _ Hwf _ _ _ Hat) as (m' & Hm' & ? & ?).
  destruct (Nat.lt_total (Z.to_nat (de_size_class_index e)) k) as [Hlt|[?|Hlt]]; [| lia |];
    eapply classes_ordered_mono in Hlt; eauto using pw_classes; lia.
Qed.

(** Every size class has a chunk. *)
Lemma class_inhabited k m : mp_size_classes p !! k = Some m ->
  exists i e h, chunk_at p i e h /\ de_capacity e = sc_capacity m.
Proof.
  intros Hk.
  destruct (classes_ordered_lookup _ _ _ _ _ _ (pw_classes _ Hwf) Hk) as (? & ? & ? & ?).
  unfold pool_size in *.
  destruct (lookup_lt_is_Some_2 (mp_directory p) (Z.to_nat (sc_first_chunk_index m))) as [e He]; [lia|].
  destruct (pw_headers _ Hwf _ _ He) as (h & Hat & _).
  exists (Z.to_nat (sc_first_chunk_index m)), e, h. split; [done|].
  destruct (pw_matches _ Hwf _ _ He) as (m' & Hm' & ? & -> & Hrange).
  destruct (Nat.lt_total (Z.to_nat (de_size_class_index e)) k) as [Hlt|[Heq|Hlt]];
    [| by rewrite Heq in Hm'; simplify_eq |]; eapply classes_ordered_mono in Hlt; eauto using pw_classes; lia.
Qed.

Lemma find_class_best_fit n k m : find_class n (mp_size_classes p) = Some k ->
  mp_size_classes p !! k = Some m -> best_fit (abs p) n (sc_capacity m).
Proof.
  intros Hfind Hk. apply find_class_Some in Hfind as (m' & Hk' & Hn & Hlt).
  rewrite Hk in Hk'. injection Hk' as <-. split_and!; [done| |].
  - destruct (class_inhabited _ _ Hk) as (i & e & h & Hat & Hcap).
    apply list.Exists_exists. eexists. split; [eapply list_elem_of_lookup_2, (lookup_abs i e h Hat) | done].
  - apply (Forall_abs). intros i e h Hat. simpl. intros Hge.
    destruct (chunk_at_class _ Hwf _ _ _ Hat) as (m' & Hm' & ? & Heq). rewrite Heq in *.
    destruct (Nat.lt_total (Z.to_nat (de_size_class_index e)) k) as [?|[?|Hgt]].
    + specialize (Hlt _ _ Hm' ltac:(done)). lia.
    + subst k. simplify_eq. lia.
    + eapply classes_ordered_mono in Hgt; eauto using pw_classes. lia.
Qed.

Lemma next_generation_spec g : fits 32 g ->
  fits 32 (next_generation g) /\ next_generation g <> 0 /\
  next_generation g = (if g =? u32_max then 1 else g + 1).
Proof.
  intros Hg. unfold next_generation. case_match eqn:Hw; bools.
  - destruct (decide (g = u32_max)) as [->|].
    + rewrite Z.eqb_refl. vm_compute. split_and!; congruence.
    + rewrite wrap_small in Hw by (unfold fits, umax in *; lia). ulia.
  - destruct (decide (g = u32_max)) as [->|]; [done|].
    rewrite (proj2 (Z.eqb_neq _ _)) by done.
    rewrite wrap_small by (unfold fits, umax in *; lia). unfold fits, umax in *. lia.
Qed.

Lemma allocate_refines n : 0 <= n -> refines (OpAllocate n).
Proof.
  intros Hn. destruct (find_class n (mp_size_classes p)) as [k|] eqn:Hfind.
  2: { eapply refines_unchanged; [simpl; unfold allocate; unfold_cpp; by rewrite Hfind|].
       apply spec_too_large, Forall_abs. intros i e h Hat. simpl.
       destruct (chunk_at_class _ Hwf _ _ _ Hat) as (m & Hm & _ & ->).
       by eapply Forall_lookup_1 in Hm; [|by apply find_class_None]. }
  destruct (find_class_Some _ _ _ Hfind) as (m & Hk & Hfit & _).
  pose proof (find_class_best_fit _ _ _ Hfind Hk) as Hbest.
  destruct (lookup_lt_is_Some_2 (mp_free_lists p) k) as [l Hl].
  { rewrite (pw_free_count _ Hwf). by eapply lookup_lt_Some. }
  destruct (pw_free _ Hwf _ _ Hl) as [Hnd Hin].
  destruct (list.last l) as [x|] eqn:Hlast.
  2: { apply last_None in Hlast as ->. eexists _, _. split_and!.
       - simpl. unfold allocate, count_event. unfold_cpp. rewrite Hfind, Hl. done.
       - destruct Hwf. by split.
       - eapply spec_exhausted; [done|]. apply Forall_abs. intros i e h Hat. simpl. intros Hcap Hfree.
         assert (Z.of_nat i ∈ @nil Z) as Habs; [|by apply not_elem_of_nil in Habs].
         apply Hin. exists i, e, h. split_and!; auto; [by eapply class_of_capacity|].
         unfold status_of in Hfree. repeat case_match; bools; done.
       - done. }
  apply last_Some in Hlast as [l' ->].
  destruct (proj1 (Hin x)) as (i & e & h & -> & Hat & Hcls & Hfree); [set_solver|].
  assert (Z.to_nat (de_size_class_index e) = k) as <- by lia.
  destruct (chunk_at_class _ Hwf _ _ _ Hat) as (m' & ? & _ & Hcap'). simplify_eq.
  destruct (chunk_at_ok _ Hwf _ _ _ Hat) as (Hcap & Hci & Htop & Hpid & Hgen & Hsize & Hst).
  pose proof (chunk_capacity_fits _ Hwf _ _ _ Hat) as Hcapfits.
  destruct Hst as [[_ Hrefs] | [(? & ? & ?) | [[? ?] | [? ?]]]]; try state_clash.
  destruct (next_generation_spec _ Hgen) as (Hgen' & Hgen0 & _).
  set (h' := h <| ck_generation := next_generation (ck_generation h) |> <| ck_payload_size := n |>
    <| ck_sequence := 0 |> <| ck_publish_timestamp_ns := 0 |> <| ck_state := ChunkState_Loaned |>).
  eapply (refines_update _ _ i e h h'
    (<[Z.to_nat (de_size_class_index e) := l']> (mp_free_lists p)) (reg_bytes (mp_region p)));
    [| |done|done|done|].
  - simpl. unfold allocate, count_event. unfold_cpp. rewrite Hfind, Hl, last_snoc.
    rewrite length_app. simpl. rewrite Nat.add_sub, take_app_length.
    rewrite (chunkHeader_run _ i e) by apply Hat.
    rewrite (load_run _ _ h) by exact (region_chunk_at p Hwf i e h Hat).
    rewrite Hfree, Hrefs, !Z.eqb_refl. cbn [negb orb].
    rewrite (store_run _ _ h) by exact (region_chunk_at p Hwf i e h Hat).
    rewrite (directory_at_run _ i e) by apply Hat.
    rewrite (wrap_small 32 n) by (unfold fits in *; lia). done.
  - apply (set_pool_wf_pop p Hwf i e h); auto.
    unfold chunk_ok, chunk_state_ok. simpl. split_and!; auto; try lia.
  - simpl. rewrite Hcap.
    apply (spec_allocated _ _ n i _ (lookup_abs _ _ _ Hat)); [simpl; by rewrite Hcap'|].
    simpl. unfold status_of. by rewrite Hfree.
Qed.

(** Every operation implements the specification. *)
Lemma exec_op_refines op : op_typed op -> refines op.
Proof.
  destruct op; simpl; eauto using allocate_refines, writablePayload_refines, writeAndPublish_refines,
    publishLoaned_refines, addReference_refines, release_refines, reclaim_refines, cancel_refines.
Qed.
End refinement.
