(* ===== verification/PoolReferences.v ===== *)
(** * References to pool chunks

    A publisher holds one reference to a published chunk per subscriber that has not
    released it, and one guard reference while it dispatches.  [accounts p R] states that
    the reference counts in the pool [p] are exactly the multiplicities of the handles in
    [R], that every handle of [R] denotes a published chunk, and that no chunk waits for
    reclamation.  The lemmas say how each pool call of the publisher changes [R]; they are
    all the publisher needs to know of the pool. *)

From Stdlib Require Import ZArith Lia Bool String.
From stdpp Require Import base gmap list strings option.
From S2P Require Import Prelude Types Outcome BigEndian PoolLayout MemoryPool PoolSpec.

Local Open Scope Z_scope.

Definition references (R : list ChunkHandle) (handle : ChunkHandle) : Z :=
  Z.of_nat (count_occ ChunkHandle_eq_dec R handle).

(** The handle of chunk [i]. *)
Definition handle_of (pool : Z) (i : nat) (c : spec_chunk) : ChunkHandle :=
  mkChunkHandle pool (Z.of_nat i) (sp_generation c) (sp_offset c).

(** Who holds chunk [c]: nobody, the loan in [L], the references in [R]. *)
Definition held_by (pool : Z) (R : list ChunkHandle) (L : list (ChunkHandle * Z)) (i : nat) (c : spec_chunk) : Prop :=
  match sp_status c with
  | SFree => True
  | SLoaned n => (handle_of pool i c, n) ∈ L
  | SPublished _ _ _ r => r = references R (handle_of pool i c)
  | SReleased => False
  end.

Record accounts (p : MemoryPool) (R : list ChunkHandle) (L : list (ChunkHandle * Z)) : Prop := {
  ac_wf : pool_wf p;
  ac_refs : forall handle, handle ∈ R ->
    exists i c, denotes (pool_id_of p) (abs p) handle i c /\ is_published (sp_status c) = true;
  ac_loans : forall handle n, (handle, n) ∈ L ->
    exists i c, denotes (pool_id_of p) (abs p) handle i c /\ sp_status c = SLoaned n;
  ac_chunk : forall i c, abs p !! i = Some c -> held_by (pool_id_of p) R L i c;
  ac_once : NoDup L;
}.

(** ** Multiplicities *)

Lemma references_elem R handle : handle ∈ R <-> 0 < references R handle.
Proof.
  unfold references. rewrite list_elem_of_In, (count_occ_In ChunkHandle_eq_dec). lia.
Qed.

Lemma references_nonneg R handle : 0 <= references R handle.
Proof. unfold references. lia. Qed.

Lemma references_perm R R' handle : R ≡ₚ R' -> references R handle = references R' handle.
Proof.
  intros HR. unfold references. f_equal.
  by apply (Permutation_count_occ ChunkHandle_eq_dec).
Qed.

Lemma references_cons_eq R handle : references (handle :: R) handle = references R handle + 1.
Proof. unfold references. rewrite count_occ_cons_eq by done. lia. Qed.

Lemma references_cons_ne R handle handle' : handle' <> handle ->
  references (handle' :: R) handle = references R handle.
Proof. intros. unfold references. by rewrite count_occ_cons_neq. Qed.

#[export] Instance accounts_Proper p : Proper ((≡ₚ) ==> (≡ₚ) ==> iff) (accounts p).
Proof.
  assert (Himp : forall R R' L L', R ≡ₚ R' -> L ≡ₚ L' -> accounts p R L -> accounts p R' L').
  { intros R R' L L' HR HL [? ? ? Hchunk ?]. split; auto.
    - intros handle. rewrite <- HR. auto.
    - intros handle n. rewrite <- HL. auto.
    - intros i c Hi. specialize (Hchunk i c Hi). unfold held_by in *. destruct (sp_status c); auto.
      + by rewrite <- HL.
      + by rewrite <- (references_perm R).
    - by rewrite <- HL. }
  intros R R' HR L L' HL. split; by apply Himp.
Qed.

Lemma denotes_inj pool A handle i c j c' :
  denotes pool A handle i c -> denotes pool A handle j c' -> i = j /\ c = c'.
Proof. intros [Hi ->] [Hj [= Hidx _ _]]. assert (i = j) as -> by lia. split; congruence. Qed.

(** With no reference and no loan every chunk is free: none is lost. *)
Lemma accounts_all_free p : accounts p [] [] -> Forall (fun c => sp_status c = SFree) (abs p).
Proof.
  intros Hac. apply Forall_lookup_2. intros i c Hi. pose proof (ac_chunk _ _ _ Hac i c Hi) as Hheld.
  destruct (lookup_abs_inv p (ac_wf _ _ _ Hac) _ _ Hi) as (e & h & Hat & ->).
  destruct (chunk_at_ok _ (ac_wf _ _ _ Hac) _ _ _ Hat) as (_ & _ & _ & _ & _ & _ & Hst).
  unfold held_by in Hheld. simpl in *. unfold status_of in *.
  destruct Hst as [[Hs _] | [(Hs & _) | [(Hs & Hr & _) | (Hs & _)]]]; rewrite Hs in *; simpl in *;
    [done | by apply not_elem_of_nil in Hheld | | done].
  unfold references in Hheld. simpl in Hheld. lia.
Qed.

(** ** Updates of one chunk *)

(** What the holders must be for [c'] to replace [c] as chunk [i]. *)
Lemma accounts_update p p' R R' L L' i c c' :
  accounts p R L -> pool_wf p' -> same_geometry p p' -> abs p !! i = Some c ->
  abs p' = <[i := c']> (abs p) -> NoDup L' ->
  (forall handle, ch_chunk_index handle <> Z.of_nat i -> references R' handle = references R handle) ->
  (forall handle n, ch_chunk_index handle <> Z.of_nat i -> (handle, n) ∈ L' <-> (handle, n) ∈ L) ->
  (forall handle, handle ∈ R' -> ch_chunk_index handle = Z.of_nat i ->
     handle = handle_of (pool_id_of p) i c' /\ is_published (sp_status c') = true) ->
  (forall handle n, (handle, n) ∈ L' -> ch_chunk_index handle = Z.of_nat i ->
     handle = handle_of (pool_id_of p) i c' /\ sp_status c' = SLoaned n) ->
  held_by (pool_id_of p) R' L' i c' ->
  accounts p' R' L'.
Proof.
  intros Hac Hwf Hgeo Hi Habs Hnd HotherR HotherL HheldR HheldL Hst.
  assert (Hpid : pool_id_of p' = pool_id_of p) by (by destruct Hgeo as (-> & _)).
  assert (Hii : (i < length (abs p))%nat) by (by eapply lookup_lt_Some).
  assert (Hself : abs p' !! i = Some c') by (rewrite Habs; by apply list_lookup_insert_eq).
  assert (Hne : forall j, j <> i -> abs p' !! j = abs p !! j)
    by (intros; rewrite Habs; by apply list_lookup_insert_ne).
  split; [done | rewrite Hpid .. | done].
  - intros handle Hin. destruct (decide (ch_chunk_index handle = Z.of_nat i)) as [Hidx|Hidx].
    + destruct (HheldR _ Hin Hidx) as [-> ?]. exists i, c'. by split.
    + destruct (ac_refs _ _ _ Hac handle) as (j & d & [Hj ->] & Hpub).
      { apply references_elem. rewrite <- HotherR by done. by apply references_elem. }
      exists j, d. simpl in Hidx. split; [split|]; auto. rewrite Hne by (intros ->; done). done.
  - intros handle n Hin. destruct (decide (ch_chunk_index handle = Z.of_nat i)) as [Hidx|Hidx].
    + destruct (HheldL _ _ Hin Hidx) as [-> ?]. exists i, c'. by split.
    + destruct (ac_loans _ _ _ Hac handle n) as (j & d & [Hj ->] & Hl); [by apply HotherL|].
      exists j, d. simpl in Hidx. split; [split|]; auto. rewrite Hne by (intros ->; done). done.
  - intros j d Hj. destruct (decide (j = i)) as [->|Hji].
    + rewrite Hself in Hj. by simplify_eq.
    + rewrite Hne in Hj by done. pose proof (ac_chunk _ _ _ Hac j d Hj) as Hd. unfold held_by in *.
      destruct (sp_status d); auto; [apply HotherL | rewrite HotherR]; simpl; auto; lia.
Qed.

(** A call that changes no chunk. *)
Lemma accounts_same p p' R L :
  accounts p R L -> pool_wf p' -> same_geometry p p' -> abs p' = abs p -> accounts p' R L.
Proof.
  intros [] Hwf Hgeo Habs. assert (Hpid : pool_id_of p' = pool_id_of p) by (by destruct Hgeo as (-> & _)).
  split; rewrite ?Habs, ?Hpid; auto.
Qed.

(** ** Messages *)

(** The message in a published chunk: its size, sequence, timestamp and bytes; in a loan, what
    its owner has written so far. *)
Definition chunk_message (c : spec_chunk) : option (Z * Z * Z * list Z) :=
  match sp_status c with
  | SPublished n s t _ => Some (n, s, t, take (Z.to_nat n) (sp_payload c))
  | SLoaned n => Some (n, 0, 0, take (Z.to_nat n) (sp_payload c))
  | _ => None
  end.

Definition message (p : MemoryPool) (handle : ChunkHandle) : option (Z * Z * Z * list Z) :=
  abs p !! Z.to_nat (ch_chunk_index handle) ≫= chunk_message.

(** The handles in somebody's hands. *)
Definition handles (R : list ChunkHandle) (L : list (ChunkHandle * Z)) : list ChunkHandle := R ++ L.*1.

(** What is read through the handles [R] is the same in [p'] as in [p]. *)
Definition same_messages (p p' : MemoryPool) (R : list ChunkHandle) : Prop :=
  mp_descriptor p' = mp_descriptor p /\
  forall handle, handle ∈ R -> message p' handle = message p handle.

Lemma same_messages_trans p q r R R' : (forall handle, handle ∈ R' -> handle ∈ R) ->
  same_messages p q R -> same_messages q r R' -> same_messages p r R'.
Proof. intros Hsub [? H1] [? H2]. split; [congruence|]. intros handle Hin. rewrite H2, H1; auto. Qed.

Lemma same_messages_same p p' R : same_geometry p p' -> abs p' = abs p -> same_messages p p' R.
Proof. intros [? _] Habs. split; [done|]. intros handle _. unfold message. by rewrite Habs. Qed.

Lemma same_messages_update p p' R i c c' : same_geometry p p' -> abs p !! i = Some c -> abs p' = <[i := c']> (abs p) ->
  (forall handle, handle ∈ R -> 0 <= ch_chunk_index handle /\
     (ch_chunk_index handle = Z.of_nat i -> chunk_message c' = chunk_message c)) ->
  same_messages p p' R.
Proof.
  intros [? _] Hi Habs Hmsg. split; [done|]. intros handle Hin. destruct (Hmsg _ Hin) as [Hpos Heq]. unfold message. rewrite Habs.
  destruct (decide (ch_chunk_index handle = Z.of_nat i)) as [Hidx|].
  - rewrite Hidx, Nat2Z.id, list_lookup_insert_eq, Hi by (by eapply lookup_lt_Some). simpl. auto.
  - rewrite list_lookup_insert_ne by lia. done.
Qed.

(** The generations of the chunks, which only an allocation changes. *)
Definition generations (p : MemoryPool) : list Z := sp_generation <$> abs p.

Lemma generations_update p p' i c c' : abs p !! i = Some c -> abs p' = <[i := c']> (abs p) ->
  sp_generation c' = sp_generation c -> generations p' = generations p.
Proof.
  intros Hi Habs Hg. unfold generations. rewrite Habs, list_fmap_insert, Hg. apply list_insert_id.
  by rewrite list_lookup_fmap, Hi.
Qed.

(** ** Holders of one chunk *)

Section holders.
Context (p : MemoryPool) (R : list ChunkHandle) (L : list (ChunkHandle * Z)) (Hac : accounts p R L).
Implicit Types (i : nat) (c : spec_chunk) (handle : ChunkHandle).

(** A handle with the index of a chunk that is not published is in nobody's hands. *)
Lemma unpublished_unheld i c handle : abs p !! i = Some c ->
  is_published (sp_status c) = false -> ch_chunk_index handle = Z.of_nat i -> ~ (handle ∈ R).
Proof.
  intros Hi Hst Hidx Hin. destruct (ac_refs _ _ _ Hac _ Hin) as (j & d & [Hj ->] & Hpub).
  simpl in Hidx. assert (j = i) as -> by lia. congruence.
Qed.

Lemma unloaned_unheld i c handle n : abs p !! i = Some c ->
  is_loaned (sp_status c) = false -> ch_chunk_index handle = Z.of_nat i -> ~ ((handle, n) ∈ L).
Proof.
  intros Hi Hst Hidx Hin. destruct (ac_loans _ _ _ Hac _ _ Hin) as (j & d & [Hj ->] & Hl).
  simpl in Hidx. assert (j = i) as -> by lia. simplify_eq. by rewrite Hl in Hst.
Qed.

(** A held handle is the handle of its chunk. *)
Lemma held_handle i c handle : abs p !! i = Some c -> handle ∈ R -> ch_chunk_index handle = Z.of_nat i ->
  handle = handle_of (pool_id_of p) i c.
Proof.
  intros Hi Hin Hidx. destruct (ac_refs _ _ _ Hac _ Hin) as (j & d & [Hj ->] & _).
  simpl in Hidx. assert (j = i) as -> by lia. by simplify_eq.
Qed.

Lemma loan_handle i c handle n : abs p !! i = Some c -> (handle, n) ∈ L ->
  ch_chunk_index handle = Z.of_nat i ->
  handle = handle_of (pool_id_of p) i c /\ sp_status c = SLoaned n.
Proof.
  intros Hi Hin Hidx. destruct (ac_loans _ _ _ Hac _ _ Hin) as (j & d & [Hj ->] & Hl).
  simpl in Hidx. assert (j = i) as -> by lia. by simplify_eq.
Qed.

(** The chunk a held handle denotes, and its count. *)
Lemma reference_denotes handle : handle ∈ R ->
  exists i c n s t, denotes (pool_id_of p) (abs p) handle i c /\
    sp_status c = SPublished n s t (references R handle).
Proof.
  intros Hin. destruct (ac_refs _ _ _ Hac _ Hin) as (i & c & Hden & Hpub).
  pose proof (ac_chunk _ _ _ Hac i c (proj1 Hden)) as Hst. unfold held_by in Hst.
  destruct (sp_status c) as [| |n s t r|] eqn:Hc; try done.
  exists i, c, n, s, t. split; [done|]. destruct Hden as [_ ->]. by rewrite Hc, Hst.
Qed.

Lemma reference_index handle : handle ∈ R -> 0 <= ch_chunk_index handle.
Proof. intros Hin. destruct (reference_denotes _ Hin) as (i & c & ? & ? & ? & [_ ->] & _). simpl. lia. Qed.

Lemma loan_index handle n : (handle, n) ∈ L -> 0 <= ch_chunk_index handle.
Proof. intros Hin. destruct (ac_loans _ _ _ Hac _ _ Hin) as (i & c & [_ ->] & _). simpl. lia. Qed.

Lemma handle_index handle : handle ∈ handles R L -> 0 <= ch_chunk_index handle.
Proof.
  intros [?|((h & n) & -> & ?)%list_elem_of_fmap]%elem_of_app; [by apply reference_index | by eapply loan_index].
Qed.

(** A held handle has the generation of its chunk. *)
Lemma reference_generation handle : handle ∈ R ->
  generations p !! Z.to_nat (ch_chunk_index handle) = Some (ch_generation handle).
Proof.
  intros Hin. destruct (reference_denotes _ Hin) as (i & c & ? & ? & ? & [Hi ->] & _). simpl.
  unfold generations. by rewrite Nat2Z.id, list_lookup_fmap, Hi.
Qed.

(** The methods of the pool, run. *)
Lemma exec_step op : op_typed op -> exists r p', exec_op op p = (Ret r, p') /\ pool_wf p' /\
  spec_step (pool_id_of p) (abs p) op r (abs p') /\ same_geometry p p'.
Proof. apply (exec_op_refines p (ac_wf _ _ _ Hac)). Qed.
End holders.

(** A change of chunk [i], which none of the handles denotes. *)
Lemma same_messages_elsewhere p p' R R' L L' i c c' : accounts p R L ->
  (forall h, h ∈ handles R' L' -> h ∈ handles R L) ->
  same_geometry p p' -> abs p !! i = Some c -> abs p' = <[i := c']> (abs p) ->
  (forall h, h ∈ R' -> ch_chunk_index h = Z.of_nat i -> False) ->
  (forall h n, (h, n) ∈ L' -> ch_chunk_index h = Z.of_nat i -> False) ->
  same_messages p p' (handles R' L').
Proof.
  intros Hac Hsub Hgeo Hi Habs HR HL. eapply same_messages_update; eauto. intros h Hh.
  split; [by eapply handle_index, Hsub|]. intros Hidx. exfalso. unfold handles in Hh.
  apply elem_of_app in Hh as [?|((h' & n) & -> & ?)%list_elem_of_fmap]; eauto.
Qed.

(** ** The specification on a known chunk *)

Lemma map_run_inv {S A B} (m : cpp S A) (f : A -> B) s r s' :
  (x ← m; mret (f x)) s = (Ret r, s') -> exists x, m s = (Ret x, s') /\ r = f x.
Proof. unfold_cpp. destruct (m s) as [[x| |] s1]; intros [= <- <-]. by exists x. Qed.

(** Decides which rule of the specification applied: [Hden] fixes the chunk, [Hst] its status. *)
Ltac which_rule Hstep Hden Hst :=
  inversion Hstep; simplify_eq/=;
  repeat match goal with
  | H : forall i c, ~ denotes _ _ _ i c |- _ => by destruct (H _ _ Hden)
  | H : denotes _ _ _ _ _ |- _ => destruct (denotes_inj _ _ _ _ _ _ _ Hden H) as [<- <-]; clear H
  end;
  try match goal with H : required _ _ = false |- _ => simpl in H; rewrite Hst in H; done end;
  rewrite ?Hst in *; simplify_eq/=.

Section rules.
Context (pool : Z) (A A' : list spec_chunk) (handle : ChunkHandle) (i : nat) (c : spec_chunk).
Hypothesis Hden : denotes pool A handle i c.

Lemma release_rule reply n s t r : sp_status c = SPublished n s t r ->
  spec_step pool A (OpRelease handle) reply A' ->
  reply = ReplyRelease (mkReleaseResult Ok (r - 1) (r =? 1)) /\
  A' = <[i := c <| sp_status := if r =? 1 then SReleased else SPublished n s t (r - 1) |>]> A.
Proof using Hden. intros Hst Hstep. by which_rule Hstep Hden Hst. Qed.

Lemma reclaim_rule reply : sp_status c = SReleased -> spec_step pool A (OpReclaim handle) reply A' ->
  reply = ReplyError Ok /\ A' = <[i := c <| sp_status := SFree |>]> A.
Proof using Hden. intros Hst Hstep. by which_rule Hstep Hden Hst. Qed.

Lemma cancel_rule reply n : sp_status c = SLoaned n -> spec_step pool A (OpCancel handle) reply A' ->
  reply = ReplyError Ok /\ A' = <[i := c <| sp_status := SFree |>]> A.
Proof using Hden. intros Hst Hstep. by which_rule Hstep Hden Hst. Qed.

Lemma add_reference_rule reply n s t r : sp_status c = SPublished n s t r ->
  spec_step pool A (OpAddReference handle) reply A' ->
  (reply = ReplyError InvalidState /\ r = u32_max /\ A' = A) \/
  (reply = ReplyError Ok /\ A' = <[i := c <| sp_status := SPublished n s t (r + 1) |>]> A).
Proof using Hden. intros Hst Hstep. which_rule Hstep Hden Hst; auto. Qed.

Lemma publish_rule op reply size n s t r : op_handle op = Some handle ->
  publish_args op = Some (n, s, t, r) -> (forall st, required op st = is_loaned st) ->
  sp_status c = SLoaned size -> spec_step pool A op reply A' ->
  (reply = ReplyError InvalidArgument /\ A' = A /\ (null_data op = true \/ n <> size \/ s = 0 \/ r = 0)) \/
  (reply = ReplyError Ok /\ n = size /\ s <> 0 /\ null_data op = false /\
   A' = <[i := c <| sp_status := SPublished n s t r |> <| sp_payload := published_payload op c |>]> A).
Proof using Hden.
  intros Hop Hargs Hreq Hst Hstep.
  inversion Hstep; simplify_eq/=; auto;
    repeat match goal with
    | H : forall i c, ~ denotes _ _ _ i c |- _ => by destruct (H _ _ Hden)
    | H : denotes _ _ _ _ _ |- _ => destruct (denotes_inj _ _ _ _ _ _ _ Hden H) as [<- <-]; clear H
    end; rewrite ?Hst in *; simplify_eq/=; auto 10.
  match goal with H : required _ _ = false |- _ => by rewrite Hreq in H end.
Qed.
End rules.

(** ** The pool calls of a publisher *)

Section calls.
Context (p : MemoryPool) (L : list (ChunkHandle * Z)).
Implicit Types (R : list ChunkHandle) (handle : ChunkHandle).

(** The holders of the chunk of [handle] and of no other chunk change. *)
Lemma references_other R handle handle' i : ch_chunk_index handle = Z.of_nat i ->
  ch_chunk_index handle' <> Z.of_nat i -> references (handle :: R) handle' = references R handle'.
Proof using. intros Hi Hne. apply references_cons_ne. congruence. Qed.

(** Releasing a reference and, when it was the last, reclaiming the chunk. *)
Lemma accounts_release R handle : accounts p (handle :: R) L ->
  exists r p1, release handle p = (Ret r, p1) /\ rr_error r = Ok /\
    if rr_became_released r
    then exists p2, reclaim handle p1 = (Ret Ok, p2) /\ accounts p2 R L /\ same_messages p p2 (handles R L) /\ generations p2 = generations p
    else accounts p1 R L /\ same_messages p p1 (handles R L) /\ generations p1 = generations p.
Proof using.
  intros Hac. assert (Hin : handle ∈ handle :: R) by set_solver.
  destruct (reference_denotes _ _ _ Hac _ Hin) as (i & c & n & s & t & Hden & Hst).
  rewrite references_cons_eq in Hst. pose proof (references_nonneg R handle).
  destruct (exec_step _ _ _ Hac (OpRelease handle) (reference_index _ _ _ Hac _ Hin))
    as (reply & p1 & Hrun & Hwf1 & Hstep & Hgeo).
  apply map_run_inv in Hrun as (r & Hrun & ->). destruct (release_rule _ _ _ _ _ _ Hden _ _ _ _ _ Hst Hstep) as [[= ->] Habs].
  assert (Hidx : ch_chunk_index handle = Z.of_nat i) by (by destruct Hden as [_ ->]).
  assert (Hself : handle = handle_of (pool_id_of p) i c) by apply Hden.
  eexists _, p1. split_and!; [exact Hrun | done |]. cbn [rr_became_released].
  destruct (references R handle + 1 =? 1) eqn:Hone; bools.
  - set (c1 := c <| sp_status := SReleased |>) in *.
    assert (Hden1 : denotes (pool_id_of p1) (abs p1) handle i c1).
    { destruct Hden as [Hi ->]. destruct Hgeo as (-> & _). split; [|done].
      rewrite Habs, list_lookup_insert_eq; [done | by eapply lookup_lt_Some]. }
    destruct (exec_op_refines p1 Hwf1 (OpReclaim handle)) as (reply & p2 & Hrun2 & Hwf2 & Hstep2 & Hgeo2); [simpl; lia|].
    apply map_run_inv in Hrun2 as (e & Hrun2 & ->).
    destruct (reclaim_rule _ _ _ _ _ _ Hden1 _ eq_refl Hstep2) as [[= ->] Habs2].
    exists p2. split; [exact Hrun2|]. rewrite Habs, list_insert_insert_eq in Habs2.
    assert (Hgone : forall h', h' ∈ R -> ch_chunk_index h' = Z.of_nat i -> False).
    { intros h' Hh' Hi'.
      assert (h' = handle) as -> by (rewrite Hself; eapply held_handle; eauto; [apply Hden | set_solver]).
      apply references_elem in Hh'. lia. }
    assert (Hunl : forall h' m, (h', m) ∈ L -> ch_chunk_index h' = Z.of_nat i -> False).
    { intros h' m Hh' Hi'. eapply unloaned_unheld in Hh'; eauto; [apply Hden | by rewrite Hst]. }
    split_and!; [|eapply same_messages_elsewhere; eauto using same_geometry_trans; [unfold handles; set_solver | apply Hden]
      | by eapply generations_update; [apply Hden | exact Habs2 |]].
    eapply (accounts_update p p2 _ _ _ _ i c); eauto using same_geometry_trans, ac_once; [apply Hden|..].
    + intros h' Hh'. symmetry. by eapply references_other.
    + intros h' Hh' Hi'. by destruct (Hgone h').
    + intros h' m Hh' Hi'. exfalso. eapply unloaned_unheld in Hh'; eauto; [apply Hden | by rewrite Hst].
    + done.
  - split_and!; [|eapply same_messages_update; [done | apply Hden | exact Habs |]; intros h' Hh'; split;
             [eapply handle_index; eauto; unfold handles in *; set_solver | by unfold chunk_message; rewrite Hst]
      | by eapply generations_update; [apply Hden | exact Habs |]].
    eapply (accounts_update p p1 _ _ _ _ i c); eauto using ac_once; [apply Hden|..].
    + intros h' Hh'. symmetry. by eapply references_other.
    + intros h' Hh' Hi'. split; [|done]. change (h' = handle_of (pool_id_of p) i c).
      eapply held_handle; eauto; [apply Hden | set_solver].
    + intros h' m Hh' Hi'. exfalso. eapply unloaned_unheld in Hh'; eauto; [apply Hden | by rewrite Hst].
    + change (references R handle + 1 - 1 = references R (handle_of (pool_id_of p) i c)). rewrite <- Hself. lia.
Qed.

(** One more reference; refused only at the limit of the counter. *)
Lemma accounts_add_reference R handle : accounts p R L -> handle ∈ R ->
  exists e p', addReference handle p = (Ret e, p') /\
    (e = Ok /\ accounts p' (handle :: R) L \/
     e = InvalidState /\ references R handle = u32_max /\ accounts p' R L) /\ same_messages p p' (handles R L) /\
    generations p' = generations p.
Proof using.
  intros Hac Hin. destruct (reference_denotes _ _ _ Hac _ Hin) as (i & c & n & s & t & Hden & Hst).
  destruct (exec_step _ _ _ Hac (OpAddReference handle) (reference_index _ _ _ Hac _ Hin))
    as (reply & p1 & Hrun & Hwf1 & Hstep & Hgeo).
  apply map_run_inv in Hrun as (e & Hrun & ->).
  assert (Hidx : ch_chunk_index handle = Z.of_nat i) by (by destruct Hden as [_ ->]).
  assert (Hself : handle = handle_of (pool_id_of p) i c) by apply Hden.
  exists e, p1. split; [exact Hrun|].
  destruct (add_reference_rule _ _ _ _ _ _ Hden _ _ _ _ _ Hst Hstep) as [([= ->] & ? & Habs) | [[= ->] Habs]].
  { split_and!; [right; split_and!; eauto using accounts_same | by apply same_messages_same | unfold generations; by rewrite Habs]. }
  split_and!; [|eapply same_messages_update; [done | apply Hden | exact Habs |]; intros h' Hh'; split;
           [by eapply handle_index | by unfold chunk_message; rewrite Hst]
      | by eapply generations_update; [apply Hden | exact Habs |]].
  left. split; [done|]. eapply (accounts_update p p1 _ _ _ _ i c); eauto using ac_once; [apply Hden|..].
  - intros h' Hh'. by eapply references_other.
  - intros h' Hh' Hi'. split; [|done]. change (h' = handle_of (pool_id_of p) i c).
    apply elem_of_cons in Hh' as [->|Hh']; [done|]. eapply held_handle; eauto; apply Hden.
  - intros h' m Hh' Hi'. exfalso. eapply unloaned_unheld in Hh'; eauto; [apply Hden | by rewrite Hst].
  - change (references R handle + 1 = references (handle :: R) (handle_of (pool_id_of p) i c)).
    by rewrite <- Hself, references_cons_eq.
Qed.
End calls.

(** A loan ends: what is left of the loans with its index is nothing. *)
Lemma loan_unique p R L i c handle n : accounts p R ((handle, n) :: L) -> abs p !! i = Some c ->
  ch_chunk_index handle = Z.of_nat i ->
  forall handle' m, (handle', m) ∈ L -> ch_chunk_index handle' <> Z.of_nat i.
Proof.
  intros Hac Hi Hidx handle' m Hin Hidx'. pose proof (ac_once _ _ _ Hac) as Hnd.
  destruct (loan_handle _ _ _ Hac i c handle n) as [-> ?]; [done | set_solver | done |].
  destruct (loan_handle _ _ _ Hac i c handle' m) as [-> ?]; [done | set_solver | done |].
  apply list.NoDup_cons in Hnd as [Hnd _]. apply Hnd. congruence.
Qed.

(** The payload of a loan has room for its size. *)
Lemma loan_fits p i c n : pool_wf p -> abs p !! i = Some c -> sp_status c = SLoaned n ->
  0 <= n /\ (Z.to_nat n <= length (sp_payload c))%nat.
Proof.
  intros Hwf Hi Hst. destruct (lookup_abs_inv p Hwf _ _ Hi) as (e & h & Hat & ->).
  destruct (entry_bounds _ Hwf _ _ (proj1 Hat)) as (? & ? & ? & ?).
  destruct (chunk_at_ok _ Hwf _ _ _ Hat) as (Hcap & _ & _ & _ & _ & Hsize & _).
  simpl in *. unfold status_of in Hst. unfold region_size, sizeof_ChunkHeader in *. rewrite length_get_at by lia.
  repeat case_match; simplify_eq. lia.
Qed.

Section loans.
Context (p : MemoryPool) (R : list ChunkHandle) (L : list (ChunkHandle * Z)).
Implicit Types (handle : ChunkHandle).

Lemma accounts_cancel handle n : accounts p R ((handle, n) :: L) ->
  exists p', cancel handle p = (Ret Ok, p') /\ accounts p' R L /\ same_messages p p' (handles R L).
Proof using.
  intros Hac. assert (Hin : (handle, n) ∈ (handle, n) :: L) by set_solver.
  destruct (ac_loans _ _ _ Hac _ _ Hin) as (i & c & Hden & Hst).
  destruct (exec_step _ _ _ Hac (OpCancel handle) (loan_index _ _ _ Hac _ _ Hin))
    as (reply & p1 & Hrun & Hwf1 & Hstep & Hgeo).
  apply map_run_inv in Hrun as (e & Hrun & ->).
  destruct (cancel_rule _ _ _ _ _ _ Hden _ _ Hst Hstep) as [[= ->] Habs].
  assert (Hidx : ch_chunk_index handle = Z.of_nat i) by (by destruct Hden as [_ ->]).
  exists p1. split; [exact Hrun|]. pose proof (loan_unique _ _ _ _ _ _ _ Hac (proj1 Hden) Hidx) as Huniq.
  assert (Hun : forall h', h' ∈ R -> ch_chunk_index h' = Z.of_nat i -> False).
  { intros h' Hh' Hi'. eapply unpublished_unheld in Hh'; eauto; [apply Hden | by rewrite Hst]. }
  split; [|eapply same_messages_elsewhere; eauto; [unfold handles; set_solver | apply Hden]].
  eapply (accounts_update p p1 _ _ _ _ i c); eauto; [apply Hden | by apply ac_once, list.NoDup_cons in Hac as [] | ..].
  - intros h' m Hh'. rewrite elem_of_cons. naive_solver.
  - intros h' Hh' Hi'. by destruct (Hun h').
  - intros h' m Hh' Hi'. by destruct (Huniq _ _ Hh').
  - done.
Qed.

Lemma accounts_allocate n : 0 <= n -> accounts p R L ->
  exists r p', allocate n p = (Ret r, p') /\
    (ar_error r = Ok /\ n <= ar_capacity r /\ accounts p' R ((ar_handle r, n) :: L) /\
     generations p !! Z.to_nat (ch_chunk_index (ar_handle r)) <> Some (ch_generation (ar_handle r)) \/
     (ar_error r = MessageTooLarge \/ ar_error r = PoolExhausted) /\ accounts p' R L) /\ same_messages p p' (handles R L).
Proof using.
  intros Hn Hac. destruct (exec_step _ _ _ Hac (OpAllocate n) Hn) as (reply & p1 & Hrun & Hwf1 & Hstep & Hgeo).
  apply map_run_inv in Hrun as (r & Hrun & ->). exists r, p1. split; [exact Hrun|].
  inversion Hstep as [? Hcap Habs | ? cap Hfit Hnone Habs | ? i c Hi Hfit Hfree Hr Habs | | | | | | | | | | |]; simplify_eq/=;
    try (split; [right; split; [by auto | by eapply accounts_same] | by apply same_messages_same]).
  assert (HunR : forall h', h' ∈ R -> ch_chunk_index h' = Z.of_nat i -> False).
  { intros h' Hh' Hi'. eapply unpublished_unheld in Hh'; eauto. by rewrite Hfree. }
  assert (Hun : forall h' m, (h', m) ∈ L -> ch_chunk_index h' = Z.of_nat i -> False).
  { intros h' m Hin Hi'. eapply unloaned_unheld in Hin; eauto. by rewrite Hfree. }
  split; [|by eapply same_messages_elsewhere].
  left. split_and!; [done | apply Hfit | | ].
  2: { simpl. rewrite Nat2Z.id. unfold generations. rewrite list_lookup_fmap, Hi. simpl. intros [= Heq].
       destruct (lookup_abs_inv p (ac_wf _ _ _ Hac) _ _ Hi) as (en & h & Hat & Hceq).
       destruct (chunk_at_ok _ (ac_wf _ _ _ Hac) _ _ _ Hat) as (_ & _ & _ & _ & Hgen & _).
       destruct (next_generation_spec _ Hgen) as (_ & _ & Hnext). rewrite Hceq in Heq. simpl in Heq.
       unfold u32_max in Hnext. case_match; bools; lia. }
  eapply (accounts_update p p1 _ _ _ _ i c); eauto.
  - constructor; [by intros Hin; apply (Hun _ _ Hin) | apply (ac_once _ _ _ Hac)].
  - intros h' m Hh'. rewrite elem_of_cons. split; [intros [[= -> ->]|?]; done | auto].
  - intros h' Hh' Hi'. by destruct (HunR h').
  - intros h' m Hh' Hi'. apply elem_of_cons in Hh' as [[= -> ->]|Hh']; [done | by destruct (Hun _ _ Hh' Hi')].
  - unfold held_by. simpl. set_solver.
Qed.

Lemma accounts_writable handle n : accounts p R L -> (handle, n) ∈ L ->
  exists p', writablePayload handle p = (Ret (mkWritableChunkResult Ok (Some (ch_payload_offset handle))), p') /\
    accounts p' R L /\ same_messages p p' (handles R L).
Proof using.
  intros Hac Hin. destruct (ac_loans _ _ _ Hac _ _ Hin) as (i & c & Hden & Hst).
  destruct (exec_step _ _ _ Hac (OpWritablePayload handle) (loan_index _ _ _ Hac _ _ Hin))
    as (reply & p1 & Hrun & Hwf1 & Hstep & Hgeo).
  apply map_run_inv in Hrun as (r & Hrun & ->). which_rule Hstep Hden Hst.
  exists p1. split_and!; [by destruct Hden as [_ ->] | by eapply accounts_same | by apply same_messages_same].
Qed.

(** Publishing a loan with one reference turns the loan into that reference. *)
Lemma accounts_publish op handle size n s t : op_typed op -> op_handle op = Some handle ->
  publish_args op = Some (n, s, t, 1) -> (forall st, required op st = is_loaned st) ->
  accounts p R ((handle, size) :: L) ->
  exists e p', exec_op op p = (Ret (ReplyError e), p') /\ same_messages p p' (handles R L) /\
    (e = InvalidArgument /\ (null_data op = true \/ n <> size \/ s = 0) /\ accounts p' R ((handle, size) :: L) \/
     e = Ok /\ accounts p' (handle :: R) L /\
     exists i c, abs p !! i = Some c /\ ch_chunk_index handle = Z.of_nat i /\
       (Z.to_nat n <= length (sp_payload c))%nat /\
       message p' handle = Some (n, s, t, take (Z.to_nat n) (published_payload op c))).
Proof using.
  intros Htyped Hop Hargs Hreq Hac. assert (Hin : (handle, size) ∈ (handle, size) :: L) by set_solver.
  destruct (ac_loans _ _ _ Hac _ _ Hin) as (i & c & Hden & Hst).
  destruct (exec_step _ _ _ Hac op Htyped) as (reply & p1 & Hrun & Hwf1 & Hstep & Hgeo).
  assert (Hidx : ch_chunk_index handle = Z.of_nat i) by (by destruct Hden as [_ ->]).
  assert (Hself : handle = handle_of (pool_id_of p) i c) by apply Hden.
  destruct (publish_rule _ _ _ _ _ _ Hden _ _ _ _ _ _ _ Hop Hargs Hreq Hst Hstep)
    as [(-> & Habs & Hbad) | (-> & -> & Hs & Hnull & Habs)]; eexists _, p1; (split; [exact Hrun|]).
  { split; [by apply same_messages_same|]. left. split_and!; [done | naive_solver lia | by eapply accounts_same]. }
  assert (Hun : forall h', h' ∈ R -> ch_chunk_index h' = Z.of_nat i -> False).
  { intros h' Hh' Hi'. eapply unpublished_unheld in Hh'; eauto; [apply Hden | by rewrite Hst]. }
  pose proof (loan_unique _ _ _ _ _ _ _ Hac (proj1 Hden) Hidx) as Huniq.
  split; [eapply same_messages_elsewhere; eauto; [unfold handles; set_solver | apply Hden]|].
  right. split_and!; [done | |].
  - eapply (accounts_update p p1 _ _ _ _ i c); eauto; [apply Hden | by apply ac_once, list.NoDup_cons in Hac as [] | ..].
    + intros h' Hh'. by eapply references_other.
    + intros h' m Hh'. rewrite elem_of_cons. naive_solver.
    + intros h' Hh' Hi'. split; [|done]. change (h' = handle_of (pool_id_of p) i c).
      apply elem_of_cons in Hh' as [->|Hh']; [done | by destruct (Hun h')].
    + intros h' m Hh' Hi'. by destruct (Huniq _ _ Hh').
    + change (1 = references (handle :: R) (handle_of (pool_id_of p) i c)). rewrite <- Hself, references_cons_eq.
      pose proof (references_nonneg R handle). destruct (decide (handle ∈ R)) as [Hh|Hh]; [by destruct (Hun handle)|].
      rewrite references_elem in Hh. lia.
  - exists i, c. split_and!; [apply Hden | done | by eapply loan_fits; [apply (ac_wf _ _ _ Hac) | apply Hden |] |]. unfold message.
    rewrite Hidx, Nat2Z.id, Habs, list_lookup_insert_eq; [done | eapply lookup_lt_Some, Hden].
Qed.

(** The owner of a loan writes at the start of its payload. *)
Lemma accounts_write handle n data : accounts p R ((handle, n) :: L) -> Z.of_nat (length data) <= n ->
  exists p' old, copy_in (ch_payload_offset handle) data p = (Ret tt, p') /\ accounts p' R ((handle, n) :: L) /\
    same_messages p p' (handles R L) /\ generations p' = generations p /\
    Z.of_nat (length old) = n /\ message p handle = Some (n, 0, 0, old) /\ message p' handle = Some (n, 0, 0, put_at 0 data old).
Proof using.
  intros Hac Hlen. assert (Hin : (handle, n) ∈ (handle, n) :: L) by set_solver.
  destruct (ac_loans _ _ _ Hac _ _ Hin) as (i & c & Hden & Hst). pose proof (ac_wf _ _ _ Hac) as Hwf.
  destruct (lookup_abs_inv p Hwf _ _ (proj1 Hden)) as (e & h & Hat & ->). pose proof (proj1 Hat) as Hdir.
  destruct (loan_fits p _ _ _ Hwf (proj1 Hden) Hst) as [Hn Hfit]. destruct (entry_bounds _ Hwf _ _ Hdir) as (? & ? & ? & ?).
  pose proof (chunk_at_ok _ Hwf _ _ _ Hat) as Hok. pose proof (lookup_abs p _ _ _ Hat) as Habs0.
  assert (Hcap : Z.of_nat (length data) <= de_capacity e).
  { simpl in Hfit. unfold region_size, sizeof_ChunkHeader in *. rewrite length_get_at in Hfit by lia. lia. }
  set (bytes := put_at (Z.to_nat (de_payload_offset e)) data (reg_bytes (mp_region p))).
  set (p' := p <| mp_region := mp_region p <| reg_bytes := bytes |> |>).
  assert (Hset : p' = set_pool p (de_header_offset e) h (mp_free_lists p) bytes (mp_instrumentation p)).
  { unfold p', set_pool. destruct Hat as [_ Hh]. destruct p as [d [b ch] sc dir fl ins]. simpl in *.
    by rewrite (insert_id ch). }
  assert (Hout : outside_payload e bytes (reg_bytes (mp_region p))) by (by eapply put_at_outside_payload).
  assert (Hwf' : pool_wf p') by (rewrite Hset; apply set_pool_wf_same with i h; auto; apply length_put_at).
  assert (Hgeo : same_geometry p p') by (rewrite Hset; eapply set_pool_geometry; eauto; apply length_put_at).
  assert (Habs : abs p' = <[i := abs_chunk e h bytes]> (abs p)).
  { rewrite Hset. eapply abs_set_pool; [done | done |]. by eapply outside_payload_others. }
  assert (Hidx : ch_chunk_index handle = Z.of_nat i) by (by destruct Hden as [_ ->]).
  pose proof (loan_unique _ _ _ _ _ _ _ Hac (proj1 Hden) Hidx) as Huniq.
  assert (Hun : forall h', h' ∈ R -> ch_chunk_index h' = Z.of_nat i -> False).
  { intros h' Hh' Hi'. eapply unpublished_unheld in Hh'; eauto. by rewrite Hst. }
  exists p', (take (Z.to_nat n) (sp_payload (abs_chunk e h (reg_bytes (mp_region p))))). split_and!.
  - destruct Hden as [_ ->]. simpl. by apply (copy_in_run p Hwf i).
  - eapply (accounts_update p p' _ _ _ _ i (abs_chunk e h (reg_bytes (mp_region p)))); eauto; [apply (ac_once _ _ _ Hac) | | |].
    + intros h' Hh' Hi'. by destruct (Hun h').
    + intros h' m Hh' Hi'. by destruct (loan_handle _ _ _ Hac i _ h' m (proj1 Hden) Hh' Hi').
    + unfold held_by. change (sp_status (abs_chunk e h bytes)) with (sp_status (abs_chunk e h (reg_bytes (mp_region p)))).
      rewrite Hst. replace (handle_of (pool_id_of p) i (abs_chunk e h bytes)) with handle by apply Hden. set_solver.
  - eapply same_messages_elsewhere; eauto; unfold handles; set_solver.
  - by eapply generations_update.
  - rewrite length_take. lia.
  - unfold message. rewrite Hidx, Nat2Z.id, Habs0. simpl. unfold chunk_message. simpl in Hst. simpl. by rewrite Hst.
  - unfold message. rewrite Hidx, Nat2Z.id, Habs, list_lookup_insert_eq by (by eapply lookup_lt_Some). simpl.
    unfold chunk_message. simpl in Hst. simpl. rewrite Hst. do 2 f_equal. unfold bytes.
    rewrite (payload_written p Hwf i) by done.
    pose proof (get_at_put_at_prefix 0 (Z.to_nat n) data (sp_payload (abs_chunk e h (reg_bytes (mp_region p))))) as Hpre.
    unfold get_at at 1 2 in Hpre. rewrite !drop_0 in Hpre. apply Hpre; lia.
Qed.
End loans.
