(* ===== verification/PoolCreation.v ===== *)
(** * Creating a memory pool

    [MemoryPool::create] never writes outside the segment it asked for, and the pool it
    returns satisfies the pool invariant with every chunk free; the metadata it encodes
    reads back as the layout. *)

From Stdlib Require Import ZArith Lia Bool String.
From stdpp Require Import base gmap list strings option.
From S2P Require Import Prelude Types Outcome BigEndian PoolLayout MemoryPool PoolSpec.

Local Open Scope Z_scope.

(** ** The stores of the constructor *)

Lemma write_records_spec records off stride bytes :
  0 <= off -> 0 <= stride -> Forall (fun r => length r = Z.to_nat stride) records ->
  off + stride * Z.of_nat (length records) <= Z.of_nat (length bytes) ->
  exists bytes', write_records records off stride bytes = Some bytes' /\
    length bytes' = length bytes /\
    (forall k r, records !! k = Some r ->
       get_at (Z.to_nat (off + stride * Z.of_nat k)) (Z.to_nat stride) bytes' = r) /\
    (forall o n, Z.of_nat (o + n) <= off \/ off + stride * Z.of_nat (length records) <= Z.of_nat o ->
       get_at o n bytes' = get_at o n bytes).
Proof.
  revert off bytes. induction records as [|r records IH]; intros off bytes Hoff Hstride Hlen Hfit.
  - exists bytes. by split_and!.
  - apply Forall_cons_1 in Hlen as [Hr Hlen]. cbn [length write_records] in *.
    unfold mbind, option_bind. rewrite write_at_Some by (rewrite Hr; nia).
    destruct (IH (off + stride) (put_at (Z.to_nat off) r bytes)) as (bytes' & Hrun & Hlen' & Hget & Hout);
      try done; [lia | rewrite length_put_at; lia |].
    exists bytes'. rewrite Hrun, Hlen', length_put_at. split_and!; try done.
    + intros [|k] r' Hk; simplify_eq/=.
      * rewrite Hout by nia. rewrite Z.mul_0_r, Z.add_0_r. apply get_at_put_at_same; [done|nia].
      * rewrite <- (Hget k r' Hk). f_equal. nia.
    + intros o n Ho. rewrite Hout by nia. apply get_at_put_at_disjoint. nia.
Qed.

Lemma place_chunks_spec d dir start stop size chunks :
  chained start dir stop -> 0 <= start -> stop <= size ->
  exists chunks', place_chunks d dir size chunks = Some chunks' /\
    (forall o, o < start -> chunks' !! o = chunks !! o) /\
    (forall i e, dir !! i = Some e -> chunks' !! de_header_offset e = Some (fresh_chunk d e)).
Proof.
  revert start chunks. induction dir as [|e dir IH]; intros start chunks Hch Hstart Hstop.
  - exists chunks. by split_and!.
  - destruct Hch as (? & ? & Hpay & ? & Hch). pose proof (chained_le _ _ _ Hch).
    cbn [place_chunks]. unfold sizeof_ChunkHeader in *.
    rewrite (proj2 (Z.leb_le _ _)), (proj2 (Z.leb_le _ _)) by lia. cbn [andb].
    destruct (IH _ (<[de_header_offset e := fresh_chunk d e]> chunks) Hch) as (chunks' & Hrun & Hlow & Hat);
      [lia|lia|].
    exists chunks'. split_and!; [done| |].
    + intros o Ho. rewrite Hlow, lookup_insert_ne by lia. done.
    + intros [|i] e' Hi; simplify_eq/=; [|eauto]. rewrite Hlow, lookup_insert_eq by lia. done.
Qed.

(** The free lists while the loop has handled the chunks from [index] on. *)
Definition filled_from (directory : list ChunkDirectoryEntry) (index : nat) (free : list (list Z)) : Prop :=
  forall c l, free !! c = Some l -> NoDup l /\
    forall k, k ∈ l <-> exists i e, k = Z.of_nat i /\ (index <= i)%nat /\ directory !! i = Some e /\
                     de_size_class_index e = Z.of_nat c.

Lemma fill_free_lists_spec directory index free :
  (index <= length directory)%nat ->
  Forall (fun e => 0 <= de_size_class_index e < Z.of_nat (length free)) directory ->
  filled_from directory index free ->
  exists free', fill_free_lists directory index free = Some free' /\
    length free' = length free /\ filled_from directory 0 free'.
Proof.
  revert free. induction index as [|index IH]; intros free Hidx Hcls Hfill.
  - exists free. by split_and!.
  - destruct (lookup_lt_is_Some_2 directory index) as [e He]; [lia|].
    pose proof (Forall_lookup_1 _ _ _ _ Hcls He) as Hc. simpl in Hc.
    destruct (lookup_lt_is_Some_2 free (Z.to_nat (de_size_class_index e))) as [l Hl]; [lia|].
    cbn [fill_free_lists]. unfold mbind, option_bind. rewrite He, Hl.
    destruct (IH (<[Z.to_nat (de_size_class_index e) := l ++ [Z.of_nat index]]> free))
      as (free' & Hrun & Hlen & Hfill').
    + lia.
    + by rewrite length_insert.
    + intros c l' Hc'. destruct (decide (c = Z.to_nat (de_size_class_index e))) as [->|Hne].
      * rewrite list_lookup_insert_eq in Hc' by lia. injection Hc' as <-.
        destruct (Hfill _ _ Hl) as [Hnd Hin]. split.
        -- apply list.NoDup_app. split_and!; [done| |apply NoDup_singleton].
           intros k Hk ->%list_elem_of_singleton. apply Hin in Hk as (i & ? & ? & ? & _). lia.
        -- intros k. rewrite elem_of_app, list_elem_of_singleton, Hin. split.
           ++ intros [(i & e' & ? & ? & ? & ?) | ->]; [exists i, e' | exists index, e]; split_and!; auto; lia.
           ++ intros (i & e' & -> & ? & ? & ?). destruct (decide (i = index)) as [->|]; [by right|].
              left. exists i, e'. split_and!; auto; lia.
      * rewrite list_lookup_insert_ne in Hc' by done. destruct (Hfill _ _ Hc') as [Hnd Hin].
        split; [done|]. intros k. rewrite Hin. split.
        -- intros (i & e' & ? & ? & ? & ?). exists i, e'. split_and!; auto; lia.
        -- intros (i & e' & -> & ? & Hi & ?). exists i, e'. split_and!; auto.
           destruct (decide (i = index)) as [->|]; [|lia]. simplify_eq. lia.
    + exists free'. rewrite length_insert in Hlen. by split_and!.
Qed.

(** ** The region a layout is written to *)

(** The metadata of [layout], as [MemoryPoolView::open] will read it. *)
Record region_holds (layout : PoolLayout) (r : Region) : Prop := {
  rh_header : get_at 0 80 (reg_bytes r) = encodePoolHeader (pl_header layout);
  rh_classes : forall k m, pl_size_classes layout !! k = Some m ->
    get_at (Z.to_nat (kPoolHeaderSize + kSizeClassMetadataSize * Z.of_nat k)) 24 (reg_bytes r) =
    encodeSizeClass m;
  rh_directory : forall k e, pl_directory layout !! k = Some e ->
    get_at (Z.to_nat (ph_chunk_directory_offset (pl_header layout) +
                      kChunkDirectoryEntrySize * Z.of_nat k)) 32 (reg_bytes r) =
    encodeDirectoryEntry e;
}.

Lemma initialize_region_spec d layout r :
  layout_wf layout -> region_size r = ph_segment_size (pl_header layout) ->
  exists r', initialize_region d layout r = Some r' /\ region_size r' = region_size r /\
    region_holds layout r' /\
    forall i e, pl_directory layout !! i = Some e ->
      reg_chunks r' !! de_header_offset e = Some (fresh_chunk d e).
Proof.
  intros Hl Hsize.
  pose proof (chained_le _ _ _ (lw_chunks _ Hl)) as Hseg.
  pose proof (lw_storage _ Hl) as Hstor. pose proof (lw_directory_offset _ Hl) as Hdir.
  rewrite (lw_class_count _ Hl) in Hdir. rewrite (lw_chunk_count _ Hl) in Hstor.
  unfold initialize_region, mbind, option_bind.
  unfold region_size, kPoolHeaderSize, kSizeClassMetadataSize, kChunkDirectoryEntrySize in *.
  rewrite write_at_Some by (rewrite length_encodePoolHeader; lia).
  destruct (write_records_spec (map encodeSizeClass (pl_size_classes layout)) 80 24
    (put_at 0 (encodePoolHeader (pl_header layout)) (reg_bytes r)))
    as (b1 & Hrun1 & Hlen1 & Hget1 & Hout1); [lia|lia| | |].
  { apply Forall_map, Forall_true. intros. apply length_encodeSizeClass. }
  { rewrite length_map, length_put_at. lia. }
  rewrite Hrun1. rewrite length_put_at in Hlen1.
  destruct (write_records_spec (map encodeDirectoryEntry (pl_directory layout))
    (ph_chunk_directory_offset (pl_header layout)) 32 b1)
    as (b2 & Hrun2 & Hlen2 & Hget2 & Hout2); [lia|lia| | |].
  { apply Forall_map, Forall_true. intros. apply length_encodeDirectoryEntry. }
  { rewrite length_map. lia. }
  rewrite Hrun2.
  destruct (place_chunks_spec d (pl_directory layout) _ _ (region_size r) (reg_chunks r) (lw_chunks _ Hl))
    as (chunks & Hrun3 & _ & Hat); [lia | unfold region_size; lia |].
  unfold region_size in Hrun3. rewrite Hrun3. eexists. split_and!; [done | simpl; lia | | done].
  rewrite length_map in *. split; simpl; unfold kPoolHeaderSize, kSizeClassMetadataSize, kChunkDirectoryEntrySize.
  - rewrite Hout2, Hout1 by lia.
    apply get_at_put_at_same; [apply length_encodePoolHeader | lia].
  - intros k m Hk. pose proof (lookup_lt_Some _ _ _ Hk). rewrite Hout2 by lia.
    apply (Hget1 k). by rewrite list_lookup_fmap, Hk.
  - intros k e Hk. apply (Hget2 k). by rewrite list_lookup_fmap, Hk.
Qed.

Lemma class_index_bounds layout : layout_wf layout ->
  Forall (fun e => 0 <= de_size_class_index e < Z.of_nat (length (pl_size_classes layout)))
    (pl_directory layout).
Proof.
  intros Hl. apply Forall_lookup_2. intros i e Hi.
  destruct (lw_matches _ Hl _ _ Hi) as (m & Hm & ? & _). apply lookup_lt_Some in Hm. lia.
Qed.

(** The pool built from a layout and its region is well formed and entirely free. *)
Lemma construct_pool_wf d layout r :
  layout_wf layout -> region_size r = ph_segment_size (pl_header layout) ->
  (forall i e, pl_directory layout !! i = Some e ->
     reg_chunks r !! de_header_offset e = Some (fresh_chunk d e)) ->
  exists p, construct_pool d r (pl_size_classes layout) (pl_directory layout) = Ret p /\
    pool_wf p /\ mp_descriptor p = d /\ mp_region p = r /\
    mp_size_classes p = pl_size_classes layout /\ mp_directory p = pl_directory layout /\
    Forall (fun c => sp_status c = SFree /\ sp_generation c = 0) (abs p).
Proof.
  intros Hl Hsize Hfresh. unfold construct_pool.
  destruct (fill_free_lists_spec (pl_directory layout) (length (pl_directory layout))
    (replicate (length (pl_size_classes layout)) [])) as (free & -> & Hlen & Hfill).
  - done.
  - rewrite length_replicate. by apply class_index_bounds.
  - intros c l Hc. apply lookup_replicate in Hc as [-> _]. split; [constructor|].
    intros k. split; [set_solver|]. intros (i & e & _ & ? & Hi & _). apply lookup_lt_Some in Hi. lia.
  - rewrite length_replicate in Hlen. eexists. split_and!; [done| |done|done|done|done|].
    + pose proof (lw_chunk_count _ Hl) as Hcount. destruct (lw_nonempty _ Hl) as [? ?].
      pose proof (lw_storage _ Hl) as Hstor. pose proof (lw_directory_offset _ Hl) as Hdir.
      split; unfold pool_size in *; simpl; auto using lw_classes, lw_matches; try lia.
      * rewrite Hsize. eapply chained_weaken; [| |exact (lw_chunks _ Hl)]; [|lia].
        unfold kPoolHeaderSize, kSizeClassMetadataSize, kChunkDirectoryEntrySize in *. nia.
      * intros i e Hi. exists (fresh_chunk d e). split; [by split; [|apply (Hfresh i)]|].
        destruct (lw_matches _ Hl _ _ Hi) as (m & Hm & ? & Hcap & _).
        destruct (classes_ordered_lookup _ _ _ _ _ _ (lw_classes _ Hl) Hm) as (? & _).
        unfold chunk_ok, chunk_state_ok. simpl. rewrite wrap_small by ulia.
        split_and!; auto; try ulia.
      * intros c l Hc. destruct (Hfill _ _ Hc) as [Hnd Hin]. split; [done|]. intros k. rewrite Hin. split.
        -- intros (i & e & -> & _ & Hi & ?). exists i, e, (fresh_chunk d e).
           split_and!; auto. split; [done|by apply (Hfresh i)].
        -- intros (i & e & h & -> & [Hi _] & ? & _). exists i, e. split_and!; auto. lia.
    + apply Forall_lookup_2. intros i c. unfold abs. rewrite list_lookup_fmap_Some.
      intros (e & -> & Hi). simpl in *. by rewrite (Hfresh i e Hi).
Qed.

(** [create_pool] succeeds exactly with a pool that is well formed, free, and whose region
    holds its layout; it is never undefined. *)
Lemma create_pool_spec os pid d config :
  config_typed config ->
  match create_pool os pid d config with
  | Undef => False
  | Throw _ => True
  | Ret p =>
      pool_wf p /\ mp_descriptor p = d /\
      Forall (fun c => sp_status c = SFree /\ sp_generation c = 0) (abs p) /\
      exists layout, makeLayout config (pd_pool_id d) (pd_topic_id d) pid = Ret layout /\
        layout_wf layout /\ region_holds layout (mp_region p) /\
        mp_size_classes p = pl_size_classes layout /\ mp_directory p = pl_directory layout /\
        region_size (mp_region p) = pd_segment_size d /\
        forall i e, mp_directory p !! i = Some e ->
          reg_chunks (mp_region p) !! de_header_offset e = Some (fresh_chunk d e)
  end.
Proof.
  intros Hty. unfold create_pool. destruct (_ || _); [done|]. unfold mbind, outcome_bind.
  destruct (makeLayout _ _ _ _) as [layout|ex|] eqn:Hlay; [|done|].
  2: { unfold makeLayout in Hlay. repeat case_match; done. }
  destruct (makeLayout_wf _ _ _ _ _ Hty Hlay) as (Hl & _).
  destruct (negb _) eqn:Hseg; [done|]. bools. unfold region_create.
  destruct (validateArguments _ _) eqn:Hval; [|done]. cbn [negb]. destruct os; [done|].
  assert (Hpos : 0 <= ph_segment_size (pl_header layout)).
  { pose proof (chained_le _ _ _ (lw_chunks _ Hl)). pose proof (lw_storage _ Hl).
    pose proof (lw_directory_offset _ Hl). destruct (lw_nonempty _ Hl).
    unfold kPoolHeaderSize, kSizeClassMetadataSize, kChunkDirectoryEntrySize in *. nia. }
  set (r0 := mkRegion _ ∅).
  assert (Hr0 : region_size r0 = ph_segment_size (pl_header layout))
    by (unfold region_size, r0; simpl; rewrite length_replicate; lia).
  destruct (initialize_region_spec d layout r0 Hl Hr0) as (r & -> & Hsize & Hholds & Hfresh).
  destruct (construct_pool_wf d layout r Hl) as (p & -> & Hwf & Hd & Hr & Hc & Hdir & Hfree);
    [congruence|done|].
  rewrite Hr, Hdir. split_and!; auto. exists layout. split_and!; auto. congruence.
Qed.
