(* ===== verification/MemoryPoolView.v ===== *)
(** * Read-only view of a memory pool

    [MemoryPoolView] of [middleware/src/detail/memory_pool.cpp]: a subscriber maps a pool
    it does not trust, validates every record of its metadata, and then reads published
    chunks in place. *)

From Stdlib Require Import ZArith Lia Bool String.
From stdpp Require Import base gmap list strings option.
From S2P Require Import Prelude Types Outcome BigEndian PoolLayout MemoryPool PoolSpec PoolCreation.

Local Open Scope Z_scope.

Abbreviation invalid_shared_memory := (Throw (ex_middleware InvalidSharedMemory)).

(** [SharedMemoryRegion::openReadOnly] and [openReadWrite]: [os] is the first failing
    system call, [object] the object the name refers to. *)
Definition region_open (os : option Z) (object : Region) (name : string) (expected_size : Z)
    : outcome Region :=
  if negb (validateArguments name expected_size) then Throw ex_invalid_argument else
  match os with
  | Some errno => Throw (ex_system_error errno)
  | None =>
      if negb (region_size object =? expected_size) then Throw (ex_system_error EINVAL)
      else Ret object
  end.

(** [n] bytes at [bytes + offset]. *)
Definition load_bytes (r : Region) (offset : Z) (n : nat) : outcome (list Z) :=
  match (if 0 <=? offset then read_at (Z.to_nat offset) n (reg_bytes r) else None) with
  | Some data => Ret data
  | None => Undef
  end.

(** The header checks of [MemoryPoolView::open]. *)
Definition view_header_ok (header : PoolHeader) (region_bytes : Z) (descriptor : PoolDescriptor)
    (expected_topic_id : Z) : bool :=
  negb (negb (ph_magic header =? kMemoryPoolMagic) || negb (ph_version header =? kPoolLayoutVersion) ||
        negb (ph_header_size header =? kPoolHeaderSize) ||
        negb (ph_segment_size header =? region_bytes) ||
        negb (ph_pool_id header =? pd_pool_id descriptor) ||
        negb (ph_topic_id header =? expected_topic_id) || (ph_size_class_count header =? 0) ||
        (ph_chunk_count header =? 0) || negb (ph_size_class_offset header =? kPoolHeaderSize)).

Definition view_metadata_ok (header : PoolHeader) (region_bytes : Z) : bool :=
  (ph_size_class_offset header <=? size_max) && (ph_chunk_directory_offset header <=? size_max) &&
  (ph_chunk_storage_offset header <=? size_max) &&
  match checkedMultiply (ph_size_class_count header) kSizeClassMetadataSize,
        checkedMultiply (ph_chunk_count header) kChunkDirectoryEntrySize with
  | Some class_bytes, Some directory_bytes =>
      rangeInside (ph_size_class_offset header) class_bytes region_bytes &&
      rangeInside (ph_chunk_directory_offset header) directory_bytes region_bytes &&
      (ph_chunk_storage_offset header <=? region_bytes) &&
      (ph_chunk_storage_offset header mod kChunkAlignment =? 0)
  | _, _ => false
  end.

(** The loop over the size classes, from class [index] on. *)
Fixpoint read_classes (r : Region) (header : PoolHeader) (remaining : nat)
    (index previous_capacity expected_first_index : Z) : outcome (list SizeClassMetadata * Z) :=
  match remaining with
  | O => Ret ([], expected_first_index)
  | S remaining =>
      data ← load_bytes r (ph_size_class_offset header + index * kSizeClassMetadataSize) 24;
      let metadata := decodeSizeClass data in
      if (sc_capacity metadata =? 0) || (sc_capacity metadata <=? previous_capacity) ||
         negb (sc_first_chunk_index metadata =? expected_first_index) ||
         (sc_chunk_count metadata =? 0) || (ph_chunk_count header <? sc_chunk_count metadata) ||
         (ph_chunk_count header - sc_chunk_count metadata <? expected_first_index)
      then invalid_shared_memory
      else
        '(rest, total) ← read_classes r header remaining (index + 1) (sc_capacity metadata)
                           (wrap 64 (expected_first_index + sc_chunk_count metadata));
        Ret (metadata :: rest, total)
  end.

(** The checks on a directory entry that follows one ending at [previous_end]. *)
Definition view_entry_ok (classes : list SizeClassMetadata) (entry : ChunkDirectoryEntry)
    (previous_end region_bytes : Z) : bool :=
  match classes !! Z.to_nat (de_size_class_index entry) with
  | None => false
  | Some class =>
      (de_capacity entry =? sc_capacity class) &&
      (de_header_offset entry <=? u64_max - sizeof_ChunkHeader) &&
      (de_payload_offset entry <=? u64_max - de_capacity entry) &&
      (de_header_offset entry mod kChunkAlignment =? 0) &&
      (de_payload_offset entry =? de_header_offset entry + sizeof_ChunkHeader) &&
      (de_payload_offset entry mod kChunkAlignment =? 0) &&
      (previous_end <=? de_header_offset entry) && (de_header_offset entry <=? size_max) &&
      (de_payload_offset entry <=? size_max) && (de_capacity entry <=? size_max) &&
      rangeInside (de_payload_offset entry) (de_capacity entry) region_bytes
  end.

Definition view_chunk_ok (descriptor : PoolDescriptor) (entry : ChunkDirectoryEntry)
    (chunk : ChunkHeader) : bool :=
  (ck_capacity chunk =? de_capacity entry) &&
  (ck_size_class_index chunk =? de_size_class_index entry) &&
  (ck_topic_id chunk =? pd_topic_id descriptor) && (ck_pool_id chunk =? pd_pool_id descriptor).

(** The loop over the directory, from entry [index] on. *)
Fixpoint read_directory (r : Region) (header : PoolHeader) (descriptor : PoolDescriptor)
    (classes : list SizeClassMetadata) (remaining : nat) (index previous_end : Z)
    : outcome (list ChunkDirectoryEntry) :=
  match remaining with
  | O => Ret []
  | S remaining =>
      data ← load_bytes r (ph_chunk_directory_offset header + index * kChunkDirectoryEntrySize) 32;
      let entry := decodeDirectoryEntry data in
      if negb (view_entry_ok classes entry previous_end (region_size r)) then invalid_shared_memory else
      match region_chunk r (de_header_offset entry) with
      | None => Undef
      | Some chunk =>
          if negb (view_chunk_ok descriptor entry chunk) then invalid_shared_memory else
          rest ← read_directory r header descriptor classes remaining (index + 1)
                   (de_payload_offset entry + de_capacity entry);
          Ret (entry :: rest)
      end
  end.

(** [MemoryPoolView]: the region is the shared object itself and is passed to [read]. *)
Record MemoryPoolView := mkMemoryPoolView {
  pv_descriptor : PoolDescriptor;
  pv_size_classes : list SizeClassMetadata;
  pv_directory : list ChunkDirectoryEntry;
}.

(** [MemoryPoolView::open] *)
Definition open_view (os : option Z) (object : Region) (descriptor : PoolDescriptor)
    (expected_topic_id : Z) : outcome MemoryPoolView :=
  if (pd_pool_id descriptor =? 0) || (pd_segment_size descriptor <? kPoolHeaderSize) ||
     (size_max <? pd_segment_size descriptor) || negb (pd_topic_id descriptor =? expected_topic_id) ||
     negb (pd_layout_version descriptor =? kPoolLayoutVersion)
  then invalid_shared_memory
  else
    region ← region_open os object (pd_shm_name descriptor) (pd_segment_size descriptor);
    data ← load_bytes region 0 80;
    let header := decodePoolHeader data in
    if negb (view_header_ok header (region_size region) descriptor expected_topic_id)
    then invalid_shared_memory else
    if negb (view_metadata_ok header (region_size region)) then invalid_shared_memory else
    '(classes, total) ← read_classes region header (Z.to_nat (ph_size_class_count header)) 0 0 0;
    if negb (total =? ph_chunk_count header) then invalid_shared_memory else
    directory ← read_directory region header descriptor classes (Z.to_nat (ph_chunk_count header)) 0
                  (ph_chunk_storage_offset header);
    Ret (mkMemoryPoolView descriptor classes directory).

(** [ChunkViewResult]: the payload pointer is the offset into the region. *)
Record ChunkViewResult := mkChunkViewResult {
  vr_error : ErrorCode;
  vr_payload : option Z;
  vr_payload_size : Z;
  vr_sequence : Z;
  vr_publish_timestamp_ns : Z;
}.

(** [MemoryPoolView::read] *)
Definition read_view (view : MemoryPoolView) (r : Region) (handle : ChunkHandle) (max_message_size : Z)
    : outcome ChunkViewResult :=
  let failed error := Ret (mkChunkViewResult error None 0 0 0) in
  if negb (ch_pool_id handle =? pd_pool_id (pv_descriptor view)) ||
     (Z.of_nat (length (pv_directory view)) <=? ch_chunk_index handle) || (ch_generation handle =? 0)
  then failed InvalidChunkHandle
  else
    match (if 0 <=? ch_chunk_index handle then pv_directory view !! Z.to_nat (ch_chunk_index handle)
           else None) with
    | None => Undef
    | Some entry =>
        if negb (ch_payload_offset handle =? de_payload_offset entry) then failed InvalidChunkHandle else
        match region_chunk r (de_header_offset entry) with
        | None => Undef
        | Some header =>
            if negb (ck_state header =? ChunkState_Published) ||
               negb (ck_generation header =? ch_generation handle) ||
               negb (ck_pool_id header =? pd_pool_id (pv_descriptor view)) ||
               negb (ck_topic_id header =? pd_topic_id (pv_descriptor view)) ||
               negb (ck_capacity header =? de_capacity entry) ||
               negb (ck_size_class_index header =? de_size_class_index entry) ||
               (ck_capacity header <? ck_payload_size header) ||
               (max_message_size <? ck_payload_size header) || (ck_ref_count header =? 0) ||
               (ck_sequence header =? 0)
            then failed InvalidSharedMemory
            else Ret (mkChunkViewResult Ok (Some (de_payload_offset entry)) (ck_payload_size header)
                        (ck_sequence header) (ck_publish_timestamp_ns header))
        end
    end.

(** ** Safety on arbitrary regions *)

(** What a successful [open_view] has established about the region. *)
Record view_wf (view : MemoryPoolView) (region_bytes : Z) : Prop := {
  vw_chunks : chained 0 (pv_directory view) region_bytes;
  vw_classes : forall i e, pv_directory view !! i = Some e ->
    exists m, pv_size_classes view !! Z.to_nat (de_size_class_index e) = Some m /\
      de_capacity e = sc_capacity m;
}.

(** A mapping holds bytes. *)
Definition region_typed (r : Region) : Prop := Forall is_byte (reg_bytes r).

(** [o] is defined, and [P] holds of what it returns. *)
Definition safely {A} (o : outcome A) (P : A -> Prop) : Prop :=
  match o with Ret a => P a | Throw _ => True | Undef => False end.

Lemma safely_bind {A B} (o : outcome A) (f : A -> outcome B) (P : A -> Prop) (Q : B -> Prop) :
  safely o P -> (forall a, P a -> safely (f a) Q) -> safely (o ≫= f) Q.
Proof. destruct o; simpl; auto. Qed.

Lemma load_bytes_safe r off n :
  region_typed r -> 0 <= off -> off + Z.of_nat n <= region_size r ->
  safely (load_bytes r off n) (fun data => Forall is_byte data /\ length data = n).
Proof.
  intros Hr ? ?. unfold load_bytes, region_size in *.
  rewrite (proj2 (Z.leb_le _ _)), read_at_Some by lia. simpl.
  split; [by apply Forall_get_at | apply length_get_at; lia].
Qed.

Lemma decodeSizeClass_typed data : Forall is_byte data -> length data = 24%nat ->
  SizeClassMetadata_typed (decodeSizeClass data).
Proof.
  intros Hb Hlen. unfold SizeClassMetadata_typed, decodeSizeClass. simpl.
  split_and!; apply get_be_fits; auto; lia.
Qed.

Lemma decodeDirectoryEntry_typed data : Forall is_byte data -> length data = 32%nat ->
  ChunkDirectoryEntry_typed (decodeDirectoryEntry data).
Proof.
  intros Hb Hlen. unfold ChunkDirectoryEntry_typed, decodeDirectoryEntry. simpl.
  split_and!; apply get_be_fits; auto; lia.
Qed.

Lemma decodePoolHeader_typed data : Forall is_byte data -> length data = 80%nat ->
  PoolHeader_typed (decodePoolHeader data).
Proof.
  intros Hb Hlen. unfold PoolHeader_typed, decodePoolHeader. simpl.
  split_and!; apply get_be_fits; auto; lia.
Qed.

Lemma read_classes_safe r header remaining index previous first :
  region_typed r -> 0 <= index -> 0 <= ph_size_class_offset header -> 0 <= previous ->
  ph_size_class_offset header + (index + Z.of_nat remaining) * kSizeClassMetadataSize <= region_size r ->
  safely (read_classes r header remaining index previous first)
    (fun '(classes, _) => Forall (fun m => previous < sc_capacity m) classes).
Proof.
  intros Hr. revert index previous first. unfold kSizeClassMetadataSize.
  induction remaining as [|remaining IH]; intros index previous first Hidx Hoff Hprev Hfit; [constructor|].
  cbn [read_classes]. unfold kSizeClassMetadataSize.
  eapply safely_bind; [apply load_bytes_safe; auto; lia|]. intros data [Hb Hlen]. cbv zeta.
  destruct (decodeSizeClass_typed _ Hb Hlen) as (? & ? & ?). destruct (_ || _) eqn:Hcond; [done|]. bools.
  eapply safely_bind; [apply IH; lia|].
  intros [rest total] Hrest. simpl. constructor; [done|].
  eapply list.Forall_impl; [exact Hrest|]. cbv beta. intros. lia.
Qed.

Lemma view_entry_ok_spec classes entry previous_end limit :
  Forall (fun m => 0 < sc_capacity m) classes -> ChunkDirectoryEntry_typed entry ->
  view_entry_ok classes entry previous_end limit = true ->
  previous_end <= de_header_offset entry /\ de_header_offset entry mod kChunkAlignment = 0 /\
  de_payload_offset entry = de_header_offset entry + sizeof_ChunkHeader /\ 0 < de_capacity entry /\
  de_payload_offset entry + de_capacity entry <= limit /\
  exists m, classes !! Z.to_nat (de_size_class_index entry) = Some m /\ de_capacity entry = sc_capacity m.
Proof.
  intros Hpos Hty. unfold view_entry_ok.
  destruct (classes !! _) as [m|] eqn:Hm; [|done]. intros Hok. bools.
  rewrite rangeInside_spec in *. pose proof (Forall_lookup_1 _ _ _ _ Hpos Hm). simpl in *.
  split_and!; eauto; lia.
Qed.

Lemma read_directory_safe r header d classes remaining index previous_end :
  region_typed r -> Forall (fun m => 0 < sc_capacity m) classes -> 0 <= index ->
  0 <= ph_chunk_directory_offset header -> 0 <= previous_end <= region_size r ->
  ph_chunk_directory_offset header + (index + Z.of_nat remaining) * kChunkDirectoryEntrySize <= region_size r ->
  safely (read_directory r header d classes remaining index previous_end)
    (fun directory => chained previous_end directory (region_size r) /\
       forall i e, directory !! i = Some e ->
         exists m, classes !! Z.to_nat (de_size_class_index e) = Some m /\ de_capacity e = sc_capacity m).
Proof.
  intros Hr Hpos. revert index previous_end. unfold kChunkDirectoryEntrySize.
  induction remaining as [|remaining IH]; intros index previous_end Hidx Hoff Hprev Hfit; [by split; [simpl; lia|]|].
  cbn [read_directory]. unfold kChunkDirectoryEntrySize.
  eapply safely_bind; [apply load_bytes_safe; auto; lia|]. intros data [Hb Hlen]. cbv zeta.
  pose proof (decodeDirectoryEntry_typed _ Hb Hlen) as Hty.
  set (entry := decodeDirectoryEntry data) in *. clearbody entry.
  destruct (view_entry_ok _ _ _ _) eqn:Hok; [|done]. cbn [negb].
  apply view_entry_ok_spec in Hok as (? & ? & Hpay & ? & ? & Hm); [|done|done].
  unfold region_chunk, sizeof_ChunkHeader in *.
  rewrite (proj2 (Z.leb_le _ _)), (proj2 (Z.leb_le _ _)) by lia. cbn [andb].
  destruct (view_chunk_ok _ _ _); [|done]. cbn [negb].
  eapply safely_bind; [apply IH; lia|]. intros rest [Hch Hcls]. simpl.
  split; [by split_and!|]. intros [|i] e He; simplify_eq/=; eauto.
Qed.

Lemma open_view_safe os object d topic :
  region_typed object ->
  safely (open_view os object d topic)
    (fun view => view_wf view (region_size object) /\ pv_descriptor view = d /\
       region_size object = pd_segment_size d).
Proof.
  intros Hr. unfold open_view. destruct (_ || _) eqn:Hargs; [done|].
  apply (safely_bind _ _ (fun r => r = object /\ region_size object = pd_segment_size d)).
  { unfold region_open. destruct (validateArguments _ _); [|done]. destruct os; [done|]. cbn [negb].
    destruct (region_size object =? _) eqn:Hsz; [|done]. bools. by split. }
  intros r [-> Hsize]. bools. unfold kPoolHeaderSize in *.
  eapply safely_bind; [apply load_bytes_safe; auto; lia|]. intros data [Hb Hlen].
  pose proof (decodePoolHeader_typed _ Hb Hlen) as Hty.
  set (header := decodePoolHeader data) in *. clearbody header. cbv zeta.
  destruct Hty as (_ & _ & _ & _ & _ & _ & _ & Hcc & Hck & Hco & Hdo & Hso).
  destruct (view_header_ok _ _ _ _) eqn:Hhdr; [|done]. cbn [negb].
  destruct (view_metadata_ok _ _) eqn:Hmeta; [|done]. cbn [negb]. unfold view_metadata_ok in Hmeta.
  destruct (checkedMultiply (ph_size_class_count header) _) as [cb|] eqn:Hcb; [|by bools].
  destruct (checkedMultiply (ph_chunk_count header) _) as [db|] eqn:Hdb; [|by bools].
  apply checkedMultiply_Some in Hcb as [-> _]; [|unfold fits in *; lia|done].
  apply checkedMultiply_Some in Hdb as [-> _]; [|unfold fits in *; lia|done].
  bools. rewrite rangeInside_spec in *. unfold fits, umax in *.
  eapply safely_bind; [apply read_classes_safe; auto; lia|]. intros [classes total] Hcls.
  destruct (negb (total =? _)); [done|].
  eapply safely_bind; [apply read_directory_safe; auto; lia|]. intros directory [Hch Hm]. simpl.
  split_and!; auto. split; [|done]. simpl. eapply chained_weaken; [| |exact Hch]; lia.
Qed.

(** A read never leaves the mapping, whatever the chunk headers hold. *)
Lemma read_view_safe view r handle max :
  view_wf view (region_size r) -> 0 <= ch_chunk_index handle ->
  safely (read_view view r handle max)
    (fun result => vr_error result = Ok ->
       exists off, vr_payload result = Some off /\ vr_payload_size result <= max /\
         off + vr_payload_size result <= region_size r).
Proof.
  intros Hv Hidx. unfold read_view. destruct (_ || _) eqn:Hcond; [done|]. bools.
  rewrite (proj2 (Z.leb_le _ _)) by done.
  destruct (lookup_lt_is_Some_2 (pv_directory view) (Z.to_nat (ch_chunk_index handle))) as [e He]; [lia|].
  rewrite He. destruct (negb (_ =? de_payload_offset e)); [done|].
  destruct (chained_bounds _ _ _ _ _ (vw_chunks _ _ Hv) He) as (? & ? & ? & ? & ?).
  unfold region_chunk, sizeof_ChunkHeader in *.
  rewrite (proj2 (Z.leb_le _ _)), (proj2 (Z.leb_le _ _)) by lia. cbn [andb].
  destruct (_ || _) eqn:Hchk; [done|]. bools. simpl. intros _.
  eexists. split_and!; [done|lia|lia].
Qed.

(** ** Views of a live pool *)

(** A pool whose region still holds the layout it was created with. *)
Record pool_laid_out (p : MemoryPool) (layout : PoolLayout) : Prop := {
  po_wf : layout_wf layout;
  po_header : PoolHeader_typed (pl_header layout) /\
    ph_magic (pl_header layout) = kMemoryPoolMagic /\
    ph_version (pl_header layout) = kPoolLayoutVersion /\
    ph_header_size (pl_header layout) = kPoolHeaderSize /\
    ph_pool_id (pl_header layout) = pd_pool_id (mp_descriptor p) /\
    ph_topic_id (pl_header layout) = pd_topic_id (mp_descriptor p);
  po_holds : region_holds layout (mp_region p);
  po_classes : mp_size_classes p = pl_size_classes layout;
  po_directory : mp_directory p = pl_directory layout;
  po_size : region_size (mp_region p) = pd_segment_size (mp_descriptor p) /\
    region_size (mp_region p) = ph_segment_size (pl_header layout);
}.

Lemma laid_out_kept p p' layout : same_geometry p p' -> pool_laid_out p layout -> pool_laid_out p' layout.
Proof.
  intros (Hd & Hc & Hdir & Hsize & Hbytes) [Hl Hh [H1 H2 H3] Hcls Hdd Hsz].
  split; rewrite ?Hd, ?Hc, ?Hdir, ?Hsize; auto.
  pose proof (lw_directory_offset _ Hl) as Hdo. pose proof (lw_storage _ Hl) as Hst.
  rewrite (lw_class_count _ Hl) in *. rewrite (lw_chunk_count _ Hl) in *.
  pose proof (lw_chunks _ Hl) as Hch. rewrite <- Hdd in Hch. rewrite <- (proj2 Hsz) in Hch.
  unfold kPoolHeaderSize, kSizeClassMetadataSize, kChunkDirectoryEntrySize in *.
  split; unfold kPoolHeaderSize, kSizeClassMetadataSize, kChunkDirectoryEntrySize.
  - rewrite (Hbytes _ _ _ Hch); [done|lia].
  - intros k m Hk. pose proof (lookup_lt_Some _ _ _ Hk). rewrite (Hbytes _ _ _ Hch); [auto|lia].
  - intros k e Hk. pose proof (lookup_lt_Some _ _ _ Hk). rewrite (Hbytes _ _ _ Hch); [auto|lia].
Qed.

Lemma load_bytes_run r off n data :
  0 <= off -> off + Z.of_nat n <= region_size r -> get_at (Z.to_nat off) n (reg_bytes r) = data ->
  load_bytes r off n = Ret data.
Proof.
  intros ? ? <-. unfold load_bytes, region_size in *. by rewrite (proj2 (Z.leb_le _ _)), read_at_Some by lia.
Qed.

Section live.
Context (p : MemoryPool) (layout : PoolLayout) (Hwf : pool_wf p) (Hlaid : pool_laid_out p layout).

Lemma laid_out_typed_classes k m : pl_size_classes layout !! k = Some m -> SizeClassMetadata_typed m.
Proof.
  intros Hk. pose proof (po_wf _ _ Hlaid) as Hl.
  destruct (classes_ordered_lookup _ _ _ _ _ _ (lw_classes _ Hl) Hk) as (? & ? & ? & ?).
  pose proof (lw_chunk_count _ Hl). destruct (lw_nonempty _ Hl) as [_ ?].
  unfold SizeClassMetadata_typed. unfold fits, umax in *. lia.
Qed.

Lemma laid_out_typed_entries k e : pl_directory layout !! k = Some e -> ChunkDirectoryEntry_typed e.
Proof.
  intros Hk. pose proof (po_wf _ _ Hlaid) as Hl.
  destruct (chained_bounds _ _ _ _ _ (lw_chunks _ Hl) Hk) as (? & ? & ? & ? & ?).
  destruct (lw_matches _ Hl _ _ Hk) as (m & Hm & ? & ? & ?). apply lookup_lt_Some in Hm.
  pose proof (lw_class_count _ Hl). destruct (lw_nonempty _ Hl) as [? _].
  pose proof (lw_segment _ Hl). pose proof (lw_storage _ Hl). pose proof (lw_directory_offset _ Hl).
  destruct (lw_nonempty _ Hl) as [_ ?].
  unfold kPoolHeaderSize, kSizeClassMetadataSize, kChunkDirectoryEntrySize, sizeof_ChunkHeader in *.
  unfold ChunkDirectoryEntry_typed. unfold fits, umax in *. lia.
Qed.

(** Offsets of the metadata lie inside the region. *)
Lemma laid_out_offsets :
  80 + 24 * Z.of_nat (length (pl_size_classes layout)) = ph_chunk_directory_offset (pl_header layout) /\
  ph_chunk_directory_offset (pl_header layout) + 32 * Z.of_nat (length (pl_directory layout)) <=
    ph_chunk_storage_offset (pl_header layout) /\
  ph_chunk_storage_offset (pl_header layout) <= region_size (mp_region p) <= u64_max.
Proof.
  pose proof (po_wf _ _ Hlaid) as Hl.
  pose proof (lw_directory_offset _ Hl) as Hdo. pose proof (lw_storage _ Hl) as Hst.
  rewrite (lw_class_count _ Hl) in *. rewrite (lw_chunk_count _ Hl) in *.
  pose proof (chained_le _ _ _ (lw_chunks _ Hl)). pose proof (lw_segment _ Hl).
  destruct (po_size _ _ Hlaid) as [_ ->].
  unfold kPoolHeaderSize, kSizeClassMetadataSize, kChunkDirectoryEntrySize in *. lia.
Qed.

Lemma read_classes_run header classes k previous first :
  ph_size_class_offset header = kPoolHeaderSize -> ph_chunk_count header = Z.of_nat (length (pl_directory layout)) ->
  drop k (pl_size_classes layout) = classes -> 0 <= first -> 0 <= previous ->
  classes_ordered classes previous first (Z.of_nat (length (pl_directory layout))) ->
  read_classes (mp_region p) header (length classes) (Z.of_nat k) previous first =
    Ret (classes, Z.of_nat (length (pl_directory layout))).
Proof.
  intros Hoff Hcount. revert k previous first.
  induction classes as [|m classes IH]; intros k previous first Hdrop Hfirst Hprev Hord.
  - simpl in *. by subst.
  - assert (Hk : pl_size_classes layout !! k = Some m)
      by (rewrite <- (Nat.add_0_r k), <- lookup_drop, Hdrop; done).
    assert (Hdrop' : drop (S k) (pl_size_classes layout) = classes)
      by (rewrite <- Nat.add_1_r, <- drop_drop, Hdrop; done).
    destruct Hord as (Hcap & Hfi & Hpos & Hord). pose proof (classes_ordered_le _ _ _ _ Hord).
    pose proof (lookup_lt_Some _ _ _ Hk). destruct laid_out_offsets as (? & ? & ?).
    destruct (lw_nonempty _ (po_wf _ _ Hlaid)) as [_ Hmax]. rewrite (lw_chunk_count _ (po_wf _ _ Hlaid)) in Hmax.
    cbn [length read_classes]. unfold kPoolHeaderSize, kSizeClassMetadataSize in *. rewrite Hoff.
    rewrite (load_bytes_run _ _ _ (encodeSizeClass m)); [| lia | lia |].
    2: { pose proof (rh_classes _ _ (po_holds _ _ Hlaid) k m Hk) as <-.
         unfold kPoolHeaderSize, kSizeClassMetadataSize. f_equal. lia. }
    unfold mbind, outcome_bind. cbv zeta.
    rewrite decode_encode_size_class by (by eapply laid_out_typed_classes).
    destruct (_ || _) eqn:Hcond.
    { exfalso. rewrite !orb_true_iff in Hcond. destruct Hcond as [[[[[?|?]|?]|?]|?]|?]; bools; lia. }
    rewrite wrap_small by (unfold fits, umax in *; lia).
    specialize (IH (S k) (sc_capacity m) (first + sc_chunk_count m)).
    rewrite Nat2Z.inj_succ in IH. unfold Z.succ in IH. rewrite IH; auto; lia.
Qed.

Lemma read_directory_run header directory k previous_end :
  ph_chunk_directory_offset header = ph_chunk_directory_offset (pl_header layout) ->
  drop k (pl_directory layout) = directory -> 0 <= previous_end ->
  chained previous_end directory (region_size (mp_region p)) ->
  read_directory (mp_region p) header (mp_descriptor p) (pl_size_classes layout) (length directory)
    (Z.of_nat k) previous_end = Ret directory.
Proof.
  intros Hoff. revert k previous_end.
  induction directory as [|e directory IH]; intros k previous_end Hdrop Hprev Hch; [done|].
  assert (Hk : pl_directory layout !! k = Some e)
    by (rewrite <- (Nat.add_0_r k), <- lookup_drop, Hdrop; done).
  assert (Hdrop' : drop (S k) (pl_directory layout) = directory)
    by (rewrite <- Nat.add_1_r, <- drop_drop, Hdrop; done).
  destruct Hch as (? & Hal & Hpay & Hcap & Hch). pose proof (chained_le _ _ _ Hch).
  pose proof (lookup_lt_Some _ _ _ Hk). destruct laid_out_offsets as (? & ? & ?).
  destruct (lw_matches _ (po_wf _ _ Hlaid) _ _ Hk) as (m & Hm & ? & Hcm & _).
  assert (Hdir : mp_directory p !! k = Some e) by (by rewrite (po_directory _ _ Hlaid)).
  destruct (pw_headers _ Hwf _ _ Hdir) as (h & Hat & Hok).
  cbn [length read_directory]. unfold kChunkDirectoryEntrySize. rewrite Hoff.
  rewrite (load_bytes_run _ _ _ (encodeDirectoryEntry e)); [| lia | lia |].
  2: { pose proof (rh_directory _ _ (po_holds _ _ Hlaid) k e Hk) as <-.
       unfold kChunkDirectoryEntrySize. f_equal. lia. }
  unfold mbind, outcome_bind. cbv zeta.
  rewrite decode_encode_directory_entry by (by eapply laid_out_typed_entries).
  assert (view_entry_ok (pl_size_classes layout) e previous_end (region_size (mp_region p)) = true) as ->.
  { unfold view_entry_ok. rewrite Hm, Hcm, Z.eqb_refl, Hal, <- Hcm.
    assert (de_payload_offset e mod kChunkAlignment = 0) as ->
      by (rewrite Hpay; unfold sizeof_ChunkHeader, kChunkAlignment in *;
          rewrite <- Z.add_mod_idemp_l, Hal by lia; done).
    unfold sizeof_ChunkHeader, umax in *. repeat (apply andb_true_iff; split); try done;
      rewrite ?Z.leb_le, ?Z.eqb_eq, ?rangeInside_spec; lia. }
  rewrite (region_chunk_at _ Hwf _ _ _ Hat). cbn [negb].
  assert (view_chunk_ok (mp_descriptor p) e h = true) as ->.
  { destruct Hok as (? & ? & ? & ? & _). unfold view_chunk_ok.
    repeat (apply andb_true_iff; split); by apply Z.eqb_eq. }
  cbn [negb]. specialize (IH (S k) (de_payload_offset e + de_capacity e)).
  rewrite Nat2Z.inj_succ in IH. unfold Z.succ in IH. unfold sizeof_ChunkHeader in *.
  rewrite IH; auto. lia.
Qed.

(** A subscriber can open any pool its publisher keeps, at any point of its life. *)
Lemma open_view_live :
  validateArguments (pd_shm_name (mp_descriptor p)) (pd_segment_size (mp_descriptor p)) = true ->
  pd_pool_id (mp_descriptor p) <> 0 -> pd_layout_version (mp_descriptor p) = kPoolLayoutVersion ->
  open_view None (mp_region p) (mp_descriptor p) (pd_topic_id (mp_descriptor p)) =
    Ret (mkMemoryPoolView (mp_descriptor p) (mp_size_classes p) (mp_directory p)).
Proof.
  intros Hargs Hpool Hver. pose proof (po_wf _ _ Hlaid) as Hl.
  destruct laid_out_offsets as (Hdo & Hst & Hseg). destruct (po_size _ _ Hlaid) as [Hsize Hsize'].
  destruct (po_header _ _ Hlaid) as (Hty & Hmagic & Hv & Hhs & Hpid & Htid).
  unfold open_view. unfold kPoolHeaderSize, umax in *. rewrite Hver, !Z.eqb_refl.
  rewrite (proj2 (Z.eqb_neq _ _)), !(proj2 (Z.ltb_ge _ _)) by lia. cbn [negb orb].
  unfold region_open. rewrite Hargs, Hsize, Z.eqb_refl. cbn [negb]. unfold mbind, outcome_bind.
  rewrite (load_bytes_run _ _ _ (encodePoolHeader (pl_header layout)));
    [| lia | lia | apply (rh_header _ _ (po_holds _ _ Hlaid))].
  cbv zeta. rewrite decode_encode_pool_header by done.
  assert (view_header_ok (pl_header layout) (region_size (mp_region p)) (mp_descriptor p)
    (pd_topic_id (mp_descriptor p)) = true) as ->.
  { unfold view_header_ok. destruct (lw_nonempty _ Hl). pose proof (lw_class_offset _ Hl) as ->.
    rewrite Hmagic, Hv, Hhs, Hpid, Htid, Hsize', !Z.eqb_refl.
    rewrite !(proj2 (Z.eqb_neq _ _)) by lia. done. }
  cbn [negb].
  assert (view_metadata_ok (pl_header layout) (region_size (mp_region p)) = true) as ->.
  { destruct (lw_nonempty _ Hl) as [Hn1 Hn2].
    rewrite (lw_class_count _ Hl) in Hn1. rewrite (lw_chunk_count _ Hl) in Hn2. unfold umax in *.
    unfold view_metadata_ok. rewrite (lw_class_offset _ Hl), (lw_class_count _ Hl), (lw_chunk_count _ Hl).
    unfold checkedMultiply, kSizeClassMetadataSize, kChunkDirectoryEntrySize, kPoolHeaderSize.
    rewrite !(proj2 (Z.ltb_ge _ _)); cycle 1.
    { apply Z.div_le_lower_bound; unfold umax; lia. }
    { apply Z.div_le_lower_bound; unfold umax; lia. }
    rewrite !andb_false_r, (lw_storage_aligned _ Hl).
    repeat (apply andb_true_iff; split); try done; rewrite ?Z.leb_le, ?rangeInside_spec; unfold umax; lia. }
  cbn [negb]. rewrite (lw_class_count _ Hl), Nat2Z.id.
  change 0 with (Z.of_nat 0) at 1.
  rewrite (read_classes_run (pl_header layout) (pl_size_classes layout)); auto using lw_class_offset, lw_chunk_count, lw_classes; try done.
  rewrite (lw_chunk_count _ Hl), Z.eqb_refl, Nat2Z.id. cbn [negb].
  change 0 with (Z.of_nat 0) at 1.
  rewrite read_directory_run; auto; [| lia | rewrite Hsize'; by apply lw_chunks].
  by rewrite (po_classes _ _ Hlaid), (po_directory _ _ Hlaid).
Qed.
End live.

(** A created pool is laid out, with the arguments [create_pool] checked. *)
Lemma create_pool_laid_out os pid d config p :
  config_typed config -> fits 64 (pd_pool_id d) -> fits 64 (pd_topic_id d) ->
  create_pool os pid d config = Ret p ->
  exists layout, pool_laid_out p layout /\
    validateArguments (pd_shm_name d) (pd_segment_size d) = true /\
    pd_pool_id d <> 0 /\ pd_layout_version d = kPoolLayoutVersion.
Proof.
  intros Hty Hp Ht Hcreate. pose proof (create_pool_spec os pid d config Hty) as Hspec.
  rewrite Hcreate in Hspec.
  destruct Hspec as (Hwf & Hd & _ & layout & Hlay & Hl & Hholds & Hcls & Hdir & Hsize & _).
  destruct (makeLayout_wf _ _ _ _ _ Hty Hlay) as (_ & Hm & Hv & Hh & Hpid & Htid & Howner).
  unfold create_pool in Hcreate. destruct (_ || _) eqn:Hargs; [done|]. bools.
  unfold mbind, outcome_bind in Hcreate. rewrite Hlay in Hcreate.
  destruct (negb (pd_segment_size d =? _)) eqn:Hseg; [done|]. bools.
  unfold region_create in Hcreate. rewrite <- Hseg in Hcreate.
  destruct (validateArguments _ _) eqn:Hval; [|done].
  exists layout. split_and!; auto.
  split; [done | | done | done | done | rewrite Hd; split; congruence].
  rewrite Hd. split_and!; auto. unfold PoolHeader_typed. rewrite Hm, Hv, Hh, Hpid, Htid, Howner.
  destruct (lw_nonempty _ Hl) as [? ?]. pose proof (lw_class_offset _ Hl). pose proof (lw_segment _ Hl).
  pose proof (chained_le _ _ _ (lw_chunks _ Hl)). pose proof (lw_storage _ Hl).
  pose proof (lw_directory_offset _ Hl).
  unfold kPoolHeaderSize, kSizeClassMetadataSize, kChunkDirectoryEntrySize in *. unfold umax in *.
  split_and!; try done; try (by apply wrap_fits); unfold fits; lia.
Qed.
