(* ===== verification/SharedMemory.v ===== *)
(** * Shared memory regions

    [SharedMemoryRegion], [UniqueFd] and [unlinkSharedMemoryName] of [detail/shared_memory.cpp]
    and [detail/unique_fd.hpp].  The POSIX calls are an interface, [PosixShm], with the
    documented effects the code relies on as its laws, [PosixShmLaws]; the theorems say that
    names, descriptors and mappings never leak. *)

From Stdlib Require Import ZArith Lia Bool String.
From stdpp Require Import base gmap list strings option.
From S2P Require Import Prelude Types Outcome MemoryPool.

Local Open Scope Z_scope.

(** ** The system calls *)

(** A call returns an [errno] or a value, and changes the kernel state [K]. *)
Class PosixShm (K : Type) := {
  shm_open : string -> bool -> cpp K (Z + Z);
  ftruncate : Z -> Z -> cpp K (Z + unit);
  fstat_size : Z -> cpp K (Z + Z);
  mmap : Z -> Z -> cpp K (Z + Z);
  munmap : Z -> Z -> cpp K unit;
  close_fd : Z -> cpp K unit;
  shm_unlink : string -> cpp K (Z + unit);
}.

(** What matters of a kernel state: the names and the objects they denote, the open
    descriptors and the mapped addresses of the process. *)
Record shm_view := mkView { v_names : gmap string Z; v_fds : gset Z; v_maps : gset Z }.

Class PosixShmLaws (K : Type) `{PosixShm K} := {
  observe : K -> shm_view;
  open_new : forall name k r k', runs (shm_open name true) k r k' ->
    match r with
    | inl _ => observe k' = observe k
    | inr fd => 0 <= fd /\ ~ (fd ∈ v_fds (observe k)) /\ v_names (observe k) !! name = None /\ exists o,
        observe k' = mkView (<[name := o]> (v_names (observe k))) ({[fd]} ∪ v_fds (observe k)) (v_maps (observe k))
    end;
  open_old : forall name k r k', runs (shm_open name false) k r k' ->
    match r with
    | inl _ => observe k' = observe k
    | inr fd => 0 <= fd /\ ~ (fd ∈ v_fds (observe k)) /\
        observe k' = mkView (v_names (observe k)) ({[fd]} ∪ v_fds (observe k)) (v_maps (observe k))
    end;
  ftruncate_law : forall fd size k r k', runs (ftruncate fd size) k r k' -> observe k' = observe k;
  fstat_law : forall fd k r k', runs (fstat_size fd) k r k' -> observe k' = observe k;
  mmap_law : forall fd size k r k', runs (mmap fd size) k r k' ->
    match r with
    | inl _ => observe k' = observe k
    | inr a => a <> 0 /\ ~ (a ∈ v_maps (observe k)) /\
        observe k' = mkView (v_names (observe k)) (v_fds (observe k)) ({[a]} ∪ v_maps (observe k))
    end;
  munmap_law : forall a size k r k', runs (munmap a size) k r k' ->
    observe k' = mkView (v_names (observe k)) (v_fds (observe k)) (v_maps (observe k) ∖ {[a]});
  close_law : forall fd k r k', runs (close_fd fd) k r k' ->
    observe k' = mkView (v_names (observe k)) (v_fds (observe k) ∖ {[fd]}) (v_maps (observe k));
  (** A name of the process's own object can be removed; a missing one gives ENOENT. *)
  unlink_law : forall name k r k', runs (shm_unlink name) k r k' ->
    observe k' = mkView (delete name (v_names (observe k))) (v_fds (observe k)) (v_maps (observe k)) /\
    r = (if decide (is_Some (v_names (observe k) !! name)) then inr tt else inl ENOENT);
  (** The calls return. *)
  calls_return : (forall name excl k, exists r k', runs (shm_open name excl) k r k') /\
    (forall fd size k, exists r k', runs (ftruncate fd size) k r k') /\
    (forall fd k, exists r k', runs (fstat_size fd) k r k') /\
    (forall fd size k, exists r k', runs (mmap fd size) k r k') /\
    (forall a size k, exists k', runs (munmap a size) k tt k') /\
    (forall fd k, exists k', runs (close_fd fd) k tt k') /\
    (forall name k, exists r k', runs (shm_unlink name) k r k');
}.

(** ** Regions *)

(** [fd_] is -1 when no descriptor is held, [address_] 0 for the null pointer. *)
Record SharedMemoryRegion := mkSharedMemoryRegion {
  fd_ : Z;
  address_ : Z;
  size_ : Z;
  name_ : string;
  owns_name_ : bool;
}.

Section regions.
Context {K : Type} `{PosixShm K}.

(** [UniqueFd::reset] with its default argument. *)
Definition reset_fd (fd : Z) : cpp K unit := if 0 <=? fd then close_fd fd else mret tt.

(** A throw after the descriptor was opened closes it on the way out. *)
Definition fail_closing {A} (fd errno : Z) : cpp K A := reset_fd fd;; throw (ex_system_error errno).

Definition openObject (name : string) (exclusive : bool) : cpp K Z :=
  opened ← shm_open name exclusive;
  match opened with inl errno => throw (ex_system_error errno) | inr fd => mret fd end.

Definition region_create_os (name : string) (size : Z) : cpp K SharedMemoryRegion :=
  if negb (validateArguments name size) then throw ex_invalid_argument else
  fd ← openObject name true;
  truncated ← ftruncate fd size;
  match truncated with
  | inl errno => _ ← shm_unlink name; fail_closing fd errno
  | inr _ =>
      mapped ← mmap fd size;
      match mapped with
      | inl errno => _ ← shm_unlink name; fail_closing fd errno
      | inr address => mret (mkSharedMemoryRegion fd address size name true)
      end
  end.

(** [openReadOnly] and [openReadWrite] differ in the protection of the mapping only. *)
Definition region_open_os (name : string) (expected_size : Z) : cpp K SharedMemoryRegion :=
  if negb (validateArguments name expected_size) then throw ex_invalid_argument else
  fd ← openObject name false;
  status ← fstat_size fd;
  match status with
  | inl errno => fail_closing fd errno
  | inr st_size =>
      if (st_size <? 0) || negb (st_size =? expected_size) then fail_closing fd EINVAL else
      mapped ← mmap fd expected_size;
      match mapped with
      | inl errno => fail_closing fd errno
      | inr address => mret (mkSharedMemoryRegion fd address expected_size name false)
      end
  end.

Definition unlinkSharedMemoryName (name : string) : cpp K bool :=
  if negb (isValidSharedMemoryName name) then mret false else
  unlinked ← shm_unlink name;
  mret (match unlinked with inl errno => errno =? ENOENT | inr _ => true end).

Definition unlinkName (r : SharedMemoryRegion) : cpp K (bool * SharedMemoryRegion) :=
  if negb (owns_name_ r) then mret (true, r) else
  unlinked ← unlinkSharedMemoryName (name_ r);
  mret (if negb unlinked then (false, r)
        else (true, mkSharedMemoryRegion (fd_ r) (address_ r) (size_ r) (name_ r) false)).

(** [cleanup], which is also the destructor. *)
Definition cleanup (r : SharedMemoryRegion) : cpp K SharedMemoryRegion :=
  r ← (if negb (address_ r =? 0)
       then munmap (address_ r) (size_ r);; mret (mkSharedMemoryRegion (fd_ r) 0 0 (name_ r) (owns_name_ r))
       else mret r);
  reset_fd (fd_ r);;
  '(_, r) ← unlinkName (mkSharedMemoryRegion (-1) (address_ r) (size_ r) (name_ r) (owns_name_ r));
  mret r.

(** What a move leaves in its source; the moved-from name is not used again. *)
Definition moved_from : SharedMemoryRegion := mkSharedMemoryRegion (-1) 0 0 "" false.

(** Move construction and move assignment to another object: target and source. *)
Definition move_construct (other : SharedMemoryRegion) : SharedMemoryRegion * SharedMemoryRegion := (other, moved_from).
Definition move_assign (target other : SharedMemoryRegion) : cpp K (SharedMemoryRegion * SharedMemoryRegion) :=
  _ ← cleanup target; mret (other, moved_from).
End regions.

(** ** Resources of a region *)

(** Only a region whose name was validated owns it. *)
Definition region_ok (r : SharedMemoryRegion) : Prop := owns_name_ r = true -> isValidSharedMemoryName (name_ r) = true.

(** A view without the resources of a region. *)
Definition released (r : SharedMemoryRegion) (v : shm_view) : shm_view :=
  mkView (if owns_name_ r then delete (name_ r) (v_names v) else v_names v)
    (if 0 <=? fd_ r then v_fds v ∖ {[fd_ r]} else v_fds v)
    (if address_ r =? 0 then v_maps v else v_maps v ∖ {[address_ r]}).

Lemma released_moved v : released moved_from v = v.
Proof. by destruct v. Qed.

Section lemmas.
Context {K : Type} `{PosixShmLaws K}.
Implicit Types (k : K) (r : SharedMemoryRegion).

Lemma reset_fd_runs fd k : exists k', runs (reset_fd fd) k tt k' /\
  observe k' = mkView (v_names (observe k)) (if 0 <=? fd then v_fds (observe k) ∖ {[fd]} else v_fds (observe k)) (v_maps (observe k)).
Proof.
  unfold reset_fd. destruct (0 <=? fd).
  - destruct calls_return as (_ & _ & _ & _ & _ & Hclose & _). destruct (Hclose fd k) as (k' & Hrun).
    exists k'. split; [done|]. by eapply close_law.
  - exists k. split; [done|]. by destruct (observe k).
Qed.

Lemma fail_closing_view {A} fd errno k : exists k', fail_closing (A := A) fd errno k = (Throw (ex_system_error errno), k') /\
  observe k' = mkView (v_names (observe k)) (if 0 <=? fd then v_fds (observe k) ∖ {[fd]} else v_fds (observe k)) (v_maps (observe k)).
Proof.
  destruct (reset_fd_runs fd k) as (k' & Hrun & Hv). exists k'. split; [|done].
  unfold fail_closing, mbind, cpp_bind. by rewrite Hrun.
Qed.

Lemma unlink_name_runs r k : region_ok r -> exists b r' k', runs (unlinkName r) k (b, r') k' /\
  observe k' = mkView (if owns_name_ r then delete (name_ r) (v_names (observe k)) else v_names (observe k))
                 (v_fds (observe k)) (v_maps (observe k)) /\
  r' = mkSharedMemoryRegion (fd_ r) (address_ r) (size_ r) (name_ r) false /\ b = true.
Proof.
  intros Hok. unfold unlinkName. destruct (owns_name_ r) eqn:Ho; simpl.
  - unfold unlinkSharedMemoryName. rewrite (Hok Ho). simpl.
    destruct calls_return as (_ & _ & _ & _ & _ & _ & Hun). destruct (Hun (name_ r) k) as (res & k' & Hrun).
    destruct (unlink_law _ _ _ _ Hrun) as [Hv Hres].
    exists true, (mkSharedMemoryRegion (fd_ r) (address_ r) (size_ r) (name_ r) false), k'. split; [|done].
    eapply runs_bind; [eapply runs_bind; [exact Hrun | done]|]. rewrite Hres. by case_decide.
  - exists true, r, k. split; [done|]. split; [by destruct (observe k)|]. split; [|done].
    destruct r. simpl in *. by subst.
Qed.

(** The destructor releases exactly what the region holds. *)
Lemma cleanup_runs r k : region_ok r -> exists r' k', runs (cleanup r) k r' k' /\
  observe k' = released r (observe k) /\ r' = mkSharedMemoryRegion (-1) 0 (if address_ r =? 0 then size_ r else 0) (name_ r) false.
Proof.
  intros Hok. set (r1 := if address_ r =? 0 then r else mkSharedMemoryRegion (fd_ r) 0 0 (name_ r) (owns_name_ r)).
  assert (H1 : exists k1, runs (if negb (address_ r =? 0)
       then munmap (address_ r) (size_ r);; mret (mkSharedMemoryRegion (fd_ r) 0 0 (name_ r) (owns_name_ r))
       else mret r) k r1 k1 /\
     observe k1 = mkView (v_names (observe k)) (v_fds (observe k))
                    (if address_ r =? 0 then v_maps (observe k) else v_maps (observe k) ∖ {[address_ r]})).
  { unfold r1. destruct (address_ r =? 0); simpl.
    - exists k. split; [done|]. by destruct (observe k).
    - destruct calls_return as (_ & _ & _ & _ & Hunmap & _). destruct (Hunmap (address_ r) (size_ r) k) as (k1 & Hrun).
      exists k1. split; [by eapply runs_bind|]. by eapply munmap_law. }
  destruct H1 as (k1 & Hrun1 & Hv1). destruct (reset_fd_runs (fd_ r1) k1) as (k2 & Hrun2 & Hv2).
  destruct (unlink_name_runs (mkSharedMemoryRegion (-1) (address_ r1) (size_ r1) (name_ r1) (owns_name_ r1)) k2)
    as (b & r3 & k3 & Hrun3 & Hv3 & Hr3 & _).
  { unfold region_ok, r1. simpl. by destruct (address_ r =? 0). }
  exists r3, k3. split_and!.
  - eapply runs_bind; [exact Hrun1|]. eapply runs_bind; [exact Hrun2|]. by eapply runs_bind; [exact Hrun3|].
  - rewrite Hv3, Hv2, Hv1. simpl. unfold released, r1. by destruct (address_ r =? 0).
  - rewrite Hr3. unfold r1. simpl. destruct (Z.eqb_spec (address_ r) 0) as [Ha|]; [by rewrite Ha | done].
Qed.

(** A view with the resources of a fresh region added. *)
Definition acquired (r : SharedMemoryRegion) (v v' : shm_view) : Prop :=
  0 <= fd_ r /\ ~ (fd_ r ∈ v_fds v) /\ address_ r <> 0 /\ ~ (address_ r ∈ v_maps v) /\
  (owns_name_ r = true -> v_names v !! name_ r = None) /\
  exists o, v' = mkView (if owns_name_ r then <[name_ r := o]> (v_names v) else v_names v)
                   ({[fd_ r]} ∪ v_fds v) ({[address_ r]} ∪ v_maps v).

Lemma difference_added (x : Z) (X : gset Z) : ~ (x ∈ X) -> ({[x]} ∪ X) ∖ {[x]} = X.
Proof using. intros Hx. apply set_eq. intros y. destruct (decide (y = x)) as [->|]; set_solver. Qed.

Lemma released_acquired r v v' : acquired r v v' -> released r v' = v.
Proof using.
  intros (Hfd & Hfdn & Ha & Han & Hname & o & ->). unfold released. simpl.
  rewrite (proj2 (Z.leb_le _ _)), (proj2 (Z.eqb_neq _ _)), !difference_added by done.
  destruct v as [names fds maps]. simpl in *. f_equal.
  destruct (owns_name_ r); [|done]. by apply delete_insert_id, Hname.
Qed.

(** Rolling back a creation that failed after the object was made. *)
Lemma rollback_view name fd o k0 k errno :
  0 <= fd -> ~ (fd ∈ v_fds (observe k0)) -> v_names (observe k0) !! name = None ->
  observe k = mkView (<[name := o]> (v_names (observe k0))) ({[fd]} ∪ v_fds (observe k0)) (v_maps (observe k0)) ->
  exists k', (_ ← shm_unlink name; fail_closing (A := SharedMemoryRegion) fd errno) k =
    (Throw (ex_system_error errno), k') /\ observe k' = observe k0.
Proof.
  intros Hfd Hnew Hname Hk. destruct calls_return as (_ & _ & _ & _ & _ & _ & Hun).
  destruct (Hun name k) as (r & k1 & Hrun). destruct (unlink_law _ _ _ _ Hrun) as [Hv1 _].
  destruct (fail_closing_view (A := SharedMemoryRegion) fd errno k1) as (k2 & Hrun2 & Hv2).
  exists k2. split; [unfold mbind, cpp_bind; by rewrite Hrun|].
  rewrite Hv2, Hv1, Hk. simpl. rewrite (proj2 (Z.leb_le _ _)), difference_added, delete_insert_id by done.
  by destruct (observe k0).
Qed.

Lemma region_create_view name size k : exists o k', region_create_os name size k = (o, k') /\
  match o with
  | Ret r => validateArguments name size = true /\ acquired r (observe k) (observe k') /\
             name_ r = name /\ size_ r = size /\ owns_name_ r = true
  | Throw _ => observe k' = observe k
  | Undef => False
  end.
Proof.
  unfold region_create_os. destruct (validateArguments name size); simpl; [|by exists (Throw ex_invalid_argument), k].
  destruct calls_return as (Hopen & Htr & _ & Hmap & _).
  destruct (Hopen name true k) as (ro & k1 & Hrun1). pose proof (open_new _ _ _ _ Hrun1) as Hv1.
  unfold openObject, mbind at 1, cpp_bind at 1, mbind at 1, cpp_bind at 1. rewrite Hrun1.
  destruct ro as [errno|fd]; [by exists (Throw (ex_system_error errno)), k1|]. simpl.
  destruct Hv1 as (Hfd & Hnew & Hname & ob & Hv1).
  destruct (Htr fd size k1) as (rt & k2 & Hrun2). pose proof (ftruncate_law _ _ _ _ _ Hrun2) as Hv2.
  unfold mbind at 1, cpp_bind at 1. rewrite Hrun2. rewrite Hv1 in Hv2. destruct rt as [errno|[]].
  { destruct (rollback_view name fd ob k k2 errno Hfd Hnew Hname Hv2) as (k3 & Hrun3 & Hv3).
    by exists (Throw (ex_system_error errno)), k3. }
  destruct (Hmap fd size k2) as (rm & k3 & Hrun3). pose proof (mmap_law _ _ _ _ _ Hrun3) as Hv3.
  unfold mbind at 1, cpp_bind at 1. rewrite Hrun3. destruct rm as [errno|a].
  { rewrite Hv2 in Hv3. destruct (rollback_view name fd ob k k3 errno Hfd Hnew Hname Hv3) as (k4 & Hrun4 & Hv4).
    by exists (Throw (ex_system_error errno)), k4. }
  rewrite Hv2 in Hv3. simpl in Hv3. destruct Hv3 as (Ha & Han & Hv3).
  eexists (Ret _), k3. split; [done|]. unfold acquired. simpl. split_and!; try done. by exists ob.
Qed.

Lemma region_open_view name size k : exists o k', region_open_os name size k = (o, k') /\
  match o with
  | Ret r => validateArguments name size = true /\ acquired r (observe k) (observe k') /\
             name_ r = name /\ size_ r = size /\ owns_name_ r = false
  | Throw _ => observe k' = observe k
  | Undef => False
  end.
Proof.
  unfold region_open_os. destruct (validateArguments name size); simpl; [|by exists (Throw ex_invalid_argument), k].
  destruct calls_return as (Hopen & _ & Hstat & Hmap & _).
  destruct (Hopen name false k) as (ro & k1 & Hrun1). pose proof (open_old _ _ _ _ Hrun1) as Hv1.
  unfold openObject, mbind at 1, cpp_bind at 1, mbind at 1, cpp_bind at 1. rewrite Hrun1.
  destruct ro as [errno|fd]; [by exists (Throw (ex_system_error errno)), k1|]. simpl.
  destruct Hv1 as (Hfd & Hnew & Hv1).
  assert (Hclose : forall errno k', observe k' = observe k1 ->
            exists o k'', fail_closing (A := SharedMemoryRegion) fd errno k' = (o, k'') /\
              match o with Ret _ => False | Throw _ => observe k'' = observe k | Undef => False end).
  { intros errno k' Hk'. destruct (fail_closing_view (A := SharedMemoryRegion) fd errno k') as (k'' & Hf & Hv).
    eexists _, k''. split; [exact Hf|]. rewrite Hv, Hk', Hv1. simpl.
    rewrite (proj2 (Z.leb_le _ _)), difference_added by done. by destruct (observe k). }
  destruct (Hstat fd k1) as (rs & k2 & Hrun2). pose proof (fstat_law _ _ _ _ Hrun2) as Hv2.
  unfold mbind at 1, cpp_bind at 1. rewrite Hrun2. destruct rs as [errno|st].
  { destruct (Hclose errno k2 Hv2) as (o & k'' & ? & ?). exists o, k''. split; [done|]. by destruct o. }
  destruct ((st <? 0) || negb (st =? size)).
  { destruct (Hclose EINVAL k2 Hv2) as (o & k'' & ? & ?). exists o, k''. split; [done|]. by destruct o. }
  destruct (Hmap fd size k2) as (rm & k3 & Hrun3). pose proof (mmap_law _ _ _ _ _ Hrun3) as Hv3.
  unfold mbind at 1, cpp_bind at 1. rewrite Hrun3. destruct rm as [errno|a].
  { destruct (Hclose errno k3) as (o & k'' & ? & ?); [congruence|]. exists o, k''. split; [done|]. by destruct o. }
  rewrite Hv2, Hv1 in Hv3. simpl in Hv3. destruct Hv3 as (Ha & Han & Hv3).
  eexists (Ret _), k3. split; [done|]. unfold acquired. simpl. split_and!; try done.
Qed.
End lemmas.

(** ** A kernel

    One process, a plan of which of the next fallible calls fail, and fresh numbers for
    descriptors, addresses and objects. *)

Record toy_kernel := mkToyKernel { tk_view : shm_view; tk_size : Z; tk_faults : list bool }.

Definition tk_fault {A} (errno : Z) (c : cpp toy_kernel (Z + A)) : cpp toy_kernel (Z + A) := fun k =>
  match tk_faults k with
  | true :: faults => (Ret (inl errno), mkToyKernel (tk_view k) (tk_size k) faults)
  | _ :: faults => c (mkToyKernel (tk_view k) (tk_size k) faults)
  | [] => c k
  end.

Definition fresh_number (X : gset Z) : Z := 1 + set_fold Z.max 0 X.

Lemma fresh_number_new X : 0 < fresh_number X /\ ~ (fresh_number X ∈ X).
Proof.
  unfold fresh_number. assert (Hall : 0 <= set_fold Z.max 0 X /\ forall x, x ∈ X -> x <= set_fold Z.max 0 X).
  { apply (set_fold_ind_L (fun m X => 0 <= m /\ forall x, x ∈ X -> x <= m)); [set_solver by lia|].
    intros x Y m Hx [Hm HY]. split; [lia|]. intros y [->%elem_of_singleton|Hy]%elem_of_union; [lia|].
    specialize (HY _ Hy). lia. }
  destruct Hall as [H0 Hall]. split; [lia|]. intros Hin. specialize (Hall _ Hin). lia.
Qed.

Definition tk_open (name : string) (exclusive : bool) (k : toy_kernel) : outcome (Z + Z) * toy_kernel :=
  let v := tk_view k in
  let fd := fresh_number (v_fds v) in
  match v_names v !! name, exclusive with
  | Some _, true => (Ret (inl 17), k)
  | None, false => (Ret (inl ENOENT), k)
  | Some _, false => (Ret (inr fd), mkToyKernel (mkView (v_names v) ({[fd]} ∪ v_fds v) (v_maps v)) (tk_size k) (tk_faults k))
  | None, true =>
      (Ret (inr fd), mkToyKernel (mkView (<[name := 0]> (v_names v)) ({[fd]} ∪ v_fds v) (v_maps v)) (tk_size k) (tk_faults k))
  end.

Definition tk_map (fd size : Z) (k : toy_kernel) : outcome (Z + Z) * toy_kernel :=
  let v := tk_view k in
  let a := fresh_number (v_maps v) in
  (Ret (inr a), mkToyKernel (mkView (v_names v) (v_fds v) ({[a]} ∪ v_maps v)) (tk_size k) (tk_faults k)).

#[export] Instance toy_shm : PosixShm toy_kernel := {
  shm_open name exclusive := tk_fault 13 (tk_open name exclusive);
  ftruncate fd size := tk_fault 27 (fun k => (Ret (inr tt), mkToyKernel (tk_view k) size (tk_faults k)));
  fstat_size fd := tk_fault 9 (fun k => (Ret (inr (tk_size k)), k));
  mmap fd size := tk_fault 12 (tk_map fd size);
  munmap a size := modify (fun k =>
    let v := tk_view k in mkToyKernel (mkView (v_names v) (v_fds v) (v_maps v ∖ {[a]})) (tk_size k) (tk_faults k));
  close_fd fd := modify (fun k =>
    let v := tk_view k in mkToyKernel (mkView (v_names v) (v_fds v ∖ {[fd]}) (v_maps v)) (tk_size k) (tk_faults k));
  shm_unlink name := fun k =>
    let v := tk_view k in
    (Ret (if decide (is_Some (v_names v !! name)) then inr tt else inl ENOENT),
     mkToyKernel (mkView (delete name (v_names v)) (v_fds v) (v_maps v)) (tk_size k) (tk_faults k));
}.

(** A fault leaves the view alone; otherwise the call runs on the same view. *)
Lemma tk_fault_cases {A} errno (c : cpp toy_kernel (Z + A)) k r k' :
  runs (tk_fault errno c) k r k' ->
  (r = inl errno /\ tk_view k' = tk_view k) \/ exists k0, tk_view k0 = tk_view k /\ runs c k0 r k'.
Proof.
  unfold runs, tk_fault. destruct (tk_faults k) as [|[] faults]; intros Hrun.
  - right. by exists k.
  - injection Hrun as <- <-. by left.
  - right. eexists. by split; [|exact Hrun].
Qed.

Lemma tk_fault_returns {A} errno (c : cpp toy_kernel (Z + A)) :
  (forall k, exists r k', runs c k r k') -> forall k, exists r k', runs (tk_fault errno c) k r k'.
Proof.
  intros Hc k. unfold runs, tk_fault. destruct (tk_faults k) as [|[] faults]; [apply Hc | eauto | apply Hc].
Qed.

#[export] Instance toy_shm_laws : PosixShmLaws toy_kernel.
Proof.
  refine {| observe := tk_view |}.
  - intros name k r k' [[-> Hv] | (k0 & Hv & Hrun)]%tk_fault_cases; [done|].
    unfold runs, tk_open in Hrun. rewrite Hv in Hrun. destruct (fresh_number_new (v_fds (tk_view k))).
    destruct (v_names (tk_view k) !! name) eqn:Hn; injection Hrun as <- <-; [done|].
    split_and!; [lia | done | done | by eexists].
  - intros name k r k' [[-> Hv] | (k0 & Hv & Hrun)]%tk_fault_cases; [done|].
    unfold runs, tk_open in Hrun. rewrite Hv in Hrun. destruct (fresh_number_new (v_fds (tk_view k))).
    destruct (v_names (tk_view k) !! name) eqn:Hn; injection Hrun as <- <-; [|done].
    split_and!; [lia | done | done].
  - intros fd size k r k' [[-> Hv] | (k0 & Hv & Hrun)]%tk_fault_cases; [done|]. by injection Hrun as <- <-.
  - intros fd k r k' [[-> Hv] | (k0 & Hv & Hrun)]%tk_fault_cases; [done|]. by injection Hrun as <- <-.
  - intros fd size k r k' [[-> Hv] | (k0 & Hv & Hrun)]%tk_fault_cases; [done|].
    unfold runs, tk_map in Hrun. rewrite Hv in Hrun. destruct (fresh_number_new (v_maps (tk_view k))).
    injection Hrun as <- <-. split_and!; [lia | done | done].
  - intros a size k r k' Hrun. by injection Hrun as <- <-.
  - intros fd k r k' Hrun. by injection Hrun as <- <-.
  - intros name k r k' Hrun. by injection Hrun as <- <-.
  - split_and!; intros; try (simpl; unfold runs; by eauto); apply tk_fault_returns; intros k0; simpl.
    + unfold runs, tk_open. destruct (v_names _ !! _), excl; eauto.
    + unfold runs. eauto.
    + unfold runs. eauto.
    + unfold runs, tk_map. eauto.
Defined.

(** ** Theorems *)

Section theorems.
Context {K : Type} `{PosixShmLaws K}.

(** Creating a region either throws and leaves names, descriptors and mappings as they
    were (a name made before a failing [ftruncate] or [mmap] is removed again), or returns a
    region that owns a name that was free; destroying that region gives back exactly the
    state before. *)
Theorem region_creation_is_atomic name size (k : K) :
  exists o k', region_create_os name size k = (o, k') /\
  match o with
  | Ret r => owns_name_ r = true /\ v_names (observe k) !! name = None /\ is_Some (v_names (observe k') !! name) /\
             exists r' k'', runs (cleanup r) k' r' k'' /\ observe k'' = observe k
  | Throw _ => observe k' = observe k
  | Undef => False
  end.
Proof.
  destruct (region_create_view name size k) as (o & k' & Hrun & Ho). exists o, k'. split; [done|].
  destruct o as [r| |]; [|done|done]. destruct Ho as (Hargs & Hacq & Hname & Hsize & Hown).
  destruct (cleanup_runs r k') as (r' & k'' & Hclean & Hv & _).
  { intros _. rewrite Hname. unfold validateArguments in Hargs. by bools. }
  pose proof Hacq as (_ & _ & _ & _ & Hfree & ob & Hk'). rewrite Hown, Hname in Hk', Hfree.
  split_and!; [done | by apply Hfree | rewrite Hk'; simpl; rewrite lookup_insert_eq; eauto |].
  exists r', k''. split; [done|]. by rewrite Hv, (released_acquired r (observe k)).
Qed.

(** Opening an existing object checks its size and, on any failure, closes the descriptor
    it opened; a region opened this way never owns the name, so destroying it restores the
    state before and the name stays for the owner. *)
Theorem region_opening_is_neutral name size (k : K) :
  exists o k', region_open_os name size k = (o, k') /\
  match o with
  | Ret r => owns_name_ r = false /\ v_names (observe k') = v_names (observe k) /\
             exists r' k'', runs (cleanup r) k' r' k'' /\ observe k'' = observe k
  | Throw _ => observe k' = observe k
  | Undef => False
  end.
Proof.
  destruct (region_open_view name size k) as (o & k' & Hrun & Ho). exists o, k'. split; [done|].
  destruct o as [r| |]; [|done|done]. destruct Ho as (Hargs & Hacq & Hname & Hsize & Hown).
  destruct (cleanup_runs r k') as (r' & k'' & Hclean & Hv & _); [by intros ?; congruence|].
  pose proof Hacq as (_ & _ & _ & _ & _ & ob & Hk'). rewrite Hown in Hk'.
  split_and!; [done | by rewrite Hk' |]. exists r', k''. split; [done|]. by rewrite Hv, (released_acquired r (observe k)).
Qed.

(** Assigning a region by move releases what the target held, once, and hands over what
    the source held: destroying both afterwards releases each region's resources exactly
    once. *)
Theorem move_assignment_transfers (target source : SharedMemoryRegion) (k : K) :
  region_ok target -> region_ok source ->
  exists target' source' k1, runs (move_assign target source) k (target', source') k1 /\
    target' = source /\ owns_name_ source' = false /\ address_ source' = 0 /\
    observe k1 = released target (observe k) /\
    exists r1 k2 r2 k3, runs (cleanup source') k1 r1 k2 /\ runs (cleanup target') k2 r2 k3 /\
      observe k2 = observe k1 /\ observe k3 = released source (released target (observe k)).
Proof.
  intros Ht Hs. destruct (cleanup_runs target k Ht) as (r & k1 & Hrun & Hv & _).
  exists source, moved_from, k1. split; [by eapply runs_bind|]. split_and!; try done.
  destruct (cleanup_runs moved_from k1) as (r1 & k2 & Hrun1 & Hv1 & _); [done|].
  destruct (cleanup_runs source k2 Hs) as (r2 & k3 & Hrun2 & Hv2 & _).
  exists r1, k2, r2, k3. rewrite released_moved in Hv1. split_and!; try done. by rewrite Hv2, Hv1, Hv.
Qed.
End theorems.

Definition empty_kernel (faults : list bool) : toy_kernel := mkToyKernel (mkView ∅ ∅ ∅) 0 faults.

Lemma region_creation_is_atomic_witness :
  exists o k', region_create_os "/mw_pool" 4096 (empty_kernel [false; false; true]) = (o, k') /\
    match o with Ret _ => False | Throw _ => tk_view k' = mkView ∅ ∅ ∅ | Undef => False end.
Proof.
  destruct (region_creation_is_atomic "/mw_pool" 4096 (empty_kernel [false; false; true])) as (o & k' & Hrun & Ho).
  exists o, k'. split; [exact Hrun|]. vm_compute in Hrun. injection Hrun as <- <-. exact Ho.
Defined.

Lemma region_opening_is_neutral_witness :
  exists o k', region_open_os "/mw_pool" 4096 (empty_kernel []) = (o, k') /\
    match o with Ret _ => False | Throw e => e = ex_system_error ENOENT /\ tk_view k' = mkView ∅ ∅ ∅ | Undef => False end.
Proof.
  destruct (region_opening_is_neutral "/mw_pool" 4096 (empty_kernel [])) as (o & k' & Hrun & Ho).
  exists o, k'. split; [exact Hrun|]. vm_compute in Hrun. injection Hrun as <- <-. split; [reflexivity | exact Ho].
Defined.

Lemma move_assignment_transfers_witness :
  exists target' source' k1,
    runs (move_assign (mkSharedMemoryRegion 3 64 4096 "/first" true) (mkSharedMemoryRegion 4 65 4096 "/second" true))
      (mkToyKernel (mkView {["/first" := 0; "/second" := 0]} {[3; 4]} {[64; 65]}) 4096 []) (target', source') k1 /\
    target' = mkSharedMemoryRegion 4 65 4096 "/second" true.
Proof.
  destruct (move_assignment_transfers (mkSharedMemoryRegion 3 64 4096 "/first" true)
    (mkSharedMemoryRegion 4 65 4096 "/second" true)
    (mkToyKernel (mkView {["/first" := 0; "/second" := 0]} {[3; 4]} {[64; 65]}) 4096 [])
    ltac:(intros _; reflexivity) ltac:(intros _; reflexivity)) as (t & s & k1 & Hrun & Ht & _).
  exists t, s, k1. split; [exact Hrun | exact Ht].
Defined.
