(* ===== verification/PoolTheorems.v ===== *)
(** * Pool theorems

    What publisher and subscribers can rely on, over whole sequences of pool operations:
    reference counting, stale handles, and payloads that stay readable and unchanged while
    they are referenced. *)

From Stdlib Require Import ZArith Lia Bool String.
From stdpp Require Import base gmap list strings option.
From S2P Require Import Prelude Types Outcome BigEndian PoolLayout MemoryPool PoolSpec PoolCreation MemoryPoolView.

Local Open Scope Z_scope.

(** A sequence of calls on one pool. *)
Fixpoint exec_ops (ops : list pool_op) : cpp MemoryPool (list pool_reply) :=
  match ops with
  | [] => mret []
  | op :: ops => r ← exec_op op; rs ← exec_ops ops; mret (r :: rs)
  end.

(** The abstract run of a sequence. *)
Inductive spec_run (pool : Z) : list spec_chunk -> list pool_op -> list pool_reply -> list spec_chunk -> Prop :=
  | spec_run_nil A : spec_run pool A [] [] A
  | spec_run_cons A op r A' ops rs A'' :
      spec_step pool A op r A' -> spec_run pool A' ops rs A'' ->
      spec_run pool A (op :: ops) (r :: rs) A''.

(** The view a subscriber of [p] holds. *)
Definition view_of (p : MemoryPool) : MemoryPoolView :=
  mkMemoryPoolView (mp_descriptor p) (mp_size_classes p) (mp_directory p).

(** ** Sequences *)

Lemma exec_ops_refines p ops : pool_wf p -> Forall op_typed ops ->
  exists rs p', exec_ops ops p = (Ret rs, p') /\ pool_wf p' /\ same_geometry p p' /\
    spec_run (pool_id_of p) (abs p) ops rs (abs p').
Proof.
  intros Hwf Hty. revert p Hwf. induction Hty as [|op ops Hop Hty IH]; intros p Hwf.
  - exists [], p. split_and!; auto using same_geometry_refl. constructor.
  - destruct (exec_op_refines p Hwf op Hop) as (r & p1 & Hrun & Hwf1 & Hstep & Hgeo).
    destruct (IH p1 Hwf1) as (rs & p2 & Hruns & Hwf2 & Hgeo2 & Hsteps).
    exists (r :: rs), p2. split_and!; eauto using same_geometry_trans.
    + simpl. unfold_cpp. by rewrite Hrun, Hruns.
    + destruct Hgeo as [Hd _]. rewrite Hd in Hsteps. econstructor; eauto.
Qed.

Lemma spec_run_app pool A ops1 rs1 A1 ops2 rs2 A2 :
  spec_run pool A ops1 rs1 A1 -> spec_run pool A1 ops2 rs2 A2 ->
  spec_run pool A (ops1 ++ ops2) (rs1 ++ rs2) A2.
Proof. induction 1; simpl; intros; [done|]. econstructor; eauto. Qed.

Lemma spec_run_cons_inv pool A op ops rs A'' : spec_run pool A (op :: ops) rs A'' ->
  exists r A' rs', rs = r :: rs' /\ spec_step pool A op r A' /\ spec_run pool A' ops rs' A''.
Proof. inversion 1; subst; eauto 10. Qed.

Lemma spec_run_nil_inv pool A rs A' : spec_run pool A [] rs A' -> rs = [] /\ A' = A.
Proof. by inversion 1. Qed.

(** ** The specification is deterministic on handles *)

Lemma denotes_fun pool A handle i c i' c' :
  denotes pool A handle i c -> denotes pool A handle i' c' -> i' = i /\ c' = c.
Proof. intros [Hi ->] [Hi' [= Hidx _ _]]. assert (i' = i) as -> by lia. by simplify_eq. Qed.

(** Inverts a step whose handle denotes a known chunk. *)
Ltac step_inv Hstep Hden :=
  inversion Hstep; subst; simplify_eq/=;
  repeat match goal with
  | H : denotes _ _ _ _ _ |- _ =>
      lazymatch type of Hden with
      | denotes _ _ ?h ?i ?c => lazymatch H with Hden => fail | _ =>
          let E1 := fresh in let E2 := fresh in
          destruct (denotes_fun _ _ _ _ _ _ _ Hden H) as [E1 E2]; subst; clear H end
      end
  end;
  try match goal with H : forall i c, ~ denotes _ _ _ i c |- _ => destruct (H _ _ Hden) end;
  try congruence.

Lemma spec_release_inv pool A handle i c n s t r reply A' :
  denotes pool A handle i c -> sp_status c = SPublished n s t r ->
  spec_step pool A (OpRelease handle) reply A' ->
  reply = ReplyRelease (mkReleaseResult Ok (r - 1) (r =? 1)) /\
  A' = <[i := c <| sp_status := if r =? 1 then SReleased else SPublished n s t (r - 1) |>]> A.
Proof.
  intros Hden Hst Hstep. step_inv Hstep Hden.
  - rewrite Hst in *. done.
  - rewrite Hst in *. by simplify_eq.
Qed.

Lemma spec_add_reference_inv pool A handle i c n s t r reply A' :
  denotes pool A handle i c -> sp_status c = SPublished n s t r -> r < u32_max ->
  spec_step pool A (OpAddReference handle) reply A' ->
  reply = ReplyError Ok /\ A' = <[i := c <| sp_status := SPublished n s t (r + 1) |>]> A.
Proof. intros Hden Hst Hr Hstep. step_inv Hstep Hden; rewrite Hst in *; simplify_eq; try lia; done. Qed.

Lemma spec_publish_loaned_inv pool A handle i c n s t r reply A' :
  denotes pool A handle i c -> sp_status c = SLoaned n -> s <> 0 -> r <> 0 ->
  spec_step pool A (OpPublishLoaned handle n s t r) reply A' ->
  reply = ReplyError Ok /\ A' = <[i := c <| sp_status := SPublished n s t r |>]> A.
Proof.
  intros Hden Hst Hs Hr Hstep. step_inv Hstep Hden; rewrite Hst in *; simplify_eq; auto.
  naive_solver.
Qed.

Lemma spec_write_inv pool A handle data i c n s t r reply A' :
  denotes pool A handle i c -> sp_status c = SLoaned n -> s <> 0 -> r <> 0 ->
  spec_step pool A (OpWriteAndPublish handle (Some data) n s t r) reply A' ->
  reply = ReplyError Ok /\
  A' = <[i := c <| sp_status := SPublished n s t r |>
               <| sp_payload := put_at 0 (take (Z.to_nat n) data) (sp_payload c) |>]> A.
Proof.
  intros Hden Hst Hs Hr Hstep. step_inv Hstep Hden; rewrite ?Hst in *; simplify_eq; auto;
    [by rewrite andb_false_r in * | naive_solver].
Qed.

Lemma spec_reclaim_inv pool A handle i c reply A' :
  denotes pool A handle i c -> sp_status c = SReleased -> spec_step pool A (OpReclaim handle) reply A' ->
  reply = ReplyError Ok /\ A' = <[i := c <| sp_status := SFree |>]> A.
Proof. intros Hden Hst Hstep. step_inv Hstep Hden; rewrite Hst in *; by simplify_eq. Qed.

Lemma spec_allocated_inv pool A n fresh capacity A' :
  spec_step pool A (OpAllocate n) (ReplyAllocation (mkAllocationResult Ok fresh capacity)) A' ->
  exists i c, A !! i = Some c /\ best_fit A n (sp_capacity c) /\ sp_status c = SFree /\
    fresh = mkChunkHandle pool (Z.of_nat i) (next_generation (sp_generation c)) (sp_offset c) /\
    capacity = sp_capacity c /\
    A' = <[i := c <| sp_generation := next_generation (sp_generation c) |> <| sp_status := SLoaned n |>]> A.
Proof. inversion 1; subst; simplify_eq/=; eauto 10. Qed.

(** A handle that denotes nothing is rejected by every operation, which changes nothing. *)
Lemma spec_stale_inv pool A op handle reply A' :
  op_handle op = Some handle -> null_data op = false -> (forall i c, ~ denotes pool A handle i c) ->
  spec_step pool A op reply A' -> reply = reject_handle op /\ A' = A.
Proof.
  intros Hop Hnull Hno Hstep. inversion Hstep; subst; simplify_eq/=; try done; try congruence;
    match goal with H : denotes _ _ _ _ _ |- _ => by destruct (Hno _ _ H) end.
Qed.

(** The handle of a chunk keeps denoting it through updates of its status. *)
Lemma denotes_insert pool A handle i c st :
  denotes pool A handle i c -> denotes pool (<[i := c <| sp_status := st |>]> A) handle i (c <| sp_status := st |>).
Proof.
  intros [Hi ->]. split; [|done]. apply list_lookup_insert_eq. by eapply lookup_lt_Some.
Qed.

(** ** Reference counting *)

(** The replies to [k] releases of a chunk with [k] references. *)
Fixpoint release_replies (k : nat) : list pool_reply :=
  match k with
  | O => []
  | S k => ReplyRelease (mkReleaseResult Ok (Z.of_nat k) (Z.of_nat k =? 0)) :: release_replies k
  end.

Lemma spec_add_references pool k A handle i c n s t r rs A' :
  denotes pool A handle i c -> sp_status c = SPublished n s t r -> r + Z.of_nat k <= u32_max ->
  spec_run pool A (replicate k (OpAddReference handle)) rs A' ->
  rs = replicate k (ReplyError Ok) /\
  A' = <[i := c <| sp_status := SPublished n s t (r + Z.of_nat k) |>]> A.
Proof.
  revert A c r rs. induction k as [|k IH]; intros A c r rs Hden Hst Hmax Hrun.
  - apply spec_run_nil_inv in Hrun as [-> ->]. split; [done|]. rewrite Z.add_0_r, <- Hst. destruct Hden as [Hi _]. symmetry.
    rewrite list_insert_id; [done|]. by destruct c.
  - apply spec_run_cons_inv in Hrun as (r1 & A1 & rs1 & -> & Hstep & Hrun).
    destruct (spec_add_reference_inv _ _ _ _ _ _ _ _ _ _ _ Hden Hst ltac:(lia) Hstep) as [-> ->].
    destruct (IH _ _ (r + 1) _ (denotes_insert _ _ _ _ _ _ Hden) eq_refl ltac:(lia) Hrun) as [-> ->].
    rewrite list_insert_insert_eq. split; [done|].
    by replace (r + 1 + Z.of_nat k) with (r + Z.of_nat (S k)) by lia.
Qed.

Lemma spec_releases pool k A handle i c n s t rs A' :
  denotes pool A handle i c -> sp_status c = SPublished n s t (Z.of_nat (S k)) ->
  spec_run pool A (replicate (S k) (OpRelease handle)) rs A' ->
  rs = release_replies (S k) /\ A' = <[i := c <| sp_status := SReleased |>]> A.
Proof.
  revert A c rs. induction k as [|k IH]; intros A c rs Hden Hst Hrun;
    apply spec_run_cons_inv in Hrun as (r1 & A1 & rs1 & -> & Hstep & Hrun);
    destruct (spec_release_inv _ _ _ _ _ _ _ _ _ _ _ Hden Hst Hstep) as [-> ->].
  - by apply spec_run_nil_inv in Hrun as [-> ->].
  - fold (replicate (S k) (OpRelease handle)) in Hrun.
    rewrite (proj2 (Z.eqb_neq (Z.of_nat (S (S k))) 1)) in * by lia.
    replace (Z.of_nat (S (S k)) - 1) with (Z.of_nat (S k)) in * by lia.
    destruct (IH _ _ _ (denotes_insert _ _ _ _ _ _ Hden) eq_refl Hrun) as [-> ->].
    rewrite list_insert_insert_eq. split; [|done]. cbn [release_replies].
    by destruct (Z.eqb_spec (Z.of_nat (S k)) 0); [lia|].
Qed.

(** The calls of the zero-copy publisher for a sample with [k] subscribers: publish with the
    guard reference, one reference per subscriber, [k + 1] releases, reclaim. *)
Definition sample_life (handle : ChunkHandle) (n s t : Z) (k : nat) : list pool_op :=
  OpPublishLoaned handle n s t 1 :: replicate k (OpAddReference handle) ++
  replicate (S k) (OpRelease handle) ++ [OpReclaim handle].

Lemma spec_run_app_inv pool A ops1 ops2 rs A2 : spec_run pool A (ops1 ++ ops2) rs A2 ->
  exists rs1 A1 rs2, rs = rs1 ++ rs2 /\ spec_run pool A ops1 rs1 A1 /\ spec_run pool A1 ops2 rs2 A2.
Proof.
  revert A rs. induction ops1 as [|op ops1 IH]; intros A rs Hrun; simpl in Hrun.
  - exists [], A, rs. split_and!; auto. constructor.
  - apply spec_run_cons_inv in Hrun as (r & A' & rs' & -> & Hstep & Hrun).
    destruct (IH _ _ Hrun) as (rs1 & A1 & rs2 & -> & ? & ?). exists (r :: rs1), A1, rs2. split_and!; auto. econstructor; eauto.
Qed.

Lemma spec_sample_life pool A handle i c n s t k rs A' :
  denotes pool A handle i c -> sp_status c = SLoaned n -> s <> 0 -> Z.of_nat k < u32_max ->
  spec_run pool A (sample_life handle n s t k) rs A' ->
  rs = ReplyError Ok :: replicate k (ReplyError Ok) ++ release_replies (S k) ++ [ReplyError Ok] /\
  A' = <[i := c <| sp_status := SFree |>]> A.
Proof.
  intros Hden Hst Hs Hk Hrun.
  apply spec_run_cons_inv in Hrun as (r1 & A0 & rs0 & -> & Hstep & Hrun).
  destruct (spec_publish_loaned_inv _ _ _ _ _ _ _ _ 1 _ _ Hden Hst Hs ltac:(done) Hstep) as [-> ->].
  apply spec_run_app_inv in Hrun as (rs1 & A1 & rs' & -> & Hadd & Hrest).
  apply spec_run_app_inv in Hrest as (rs2 & A2 & rs3 & -> & Hrel & Hlast).
  apply denotes_insert with (st := SPublished n s t 1) in Hden as Hden1.
  destruct (spec_add_references _ k _ _ _ _ _ _ _ 1 _ _ Hden1 eq_refl ltac:(lia) Hadd) as [-> ->].
  replace (1 + Z.of_nat k) with (Z.of_nat (S k)) in Hrel by lia.
  apply denotes_insert with (st := SPublished n s t (Z.of_nat (S k))) in Hden1 as Hden2.
  destruct (spec_releases _ k _ _ _ _ _ _ _ _ _ Hden2 eq_refl Hrel) as [-> ->].
  apply denotes_insert with (st := SReleased) in Hden2 as Hden3.
  apply spec_run_cons_inv in Hlast as (r3 & A3 & rs4 & -> & Hstep3 & [-> ->]%spec_run_nil_inv).
  destruct (spec_reclaim_inv _ _ _ _ _ _ _ Hden3 eq_refl Hstep3) as [-> ->].
  by rewrite !list_insert_insert_eq.
Qed.

(** ** Published payloads are stable *)

(** Whatever else happens to the pool, a published chunk whose reference is not released
    stays published with the same size, sequence, timestamp and payload. *)
Lemma spec_step_stable pool A op r A' i c n s t k :
  spec_step pool A op r A' -> A !! i = Some c -> sp_status c = SPublished n s t k ->
  op <> OpRelease (mkChunkHandle pool (Z.of_nat i) (sp_generation c) (sp_offset c)) ->
  exists k', A' !! i = Some (c <| sp_status := SPublished n s t k' |>).
Proof.
  intros Hstep Hi Hst Hop.
  assert (Hsame : exists k', A !! i = Some (c <| sp_status := SPublished n s t k' |>))
    by (exists k; rewrite Hi; f_equal; destruct c; simpl in *; by subst).
  assert (Hother : forall j c', j <> i -> exists k', <[j := c']> A !! i = Some (c <| sp_status := SPublished n s t k' |>))
    by (intros j c' Hj; by rewrite list_lookup_insert_ne).
  inversion Hstep; subst; auto;
    repeat match goal with H : denotes _ _ _ _ _ |- _ => destruct H as [? ->] end;
    (destruct (decide (i0 = i)) as [->|]; [|by apply Hother]); simplify_eq; try congruence.
  - rewrite list_lookup_insert_eq by (by eapply lookup_lt_Some). eexists.
    rewrite Hst in *. by simplify_eq.
Qed.

Lemma spec_run_stable pool A ops rs A' i c n s t k :
  spec_run pool A ops rs A' -> A !! i = Some c -> sp_status c = SPublished n s t k ->
  OpRelease (mkChunkHandle pool (Z.of_nat i) (sp_generation c) (sp_offset c)) ∉ ops ->
  exists k', A' !! i = Some (c <| sp_status := SPublished n s t k' |>).
Proof.
  intros Hrun. revert c k. induction Hrun as [A|A op r A1 ops rs A2 Hstep Hrun IH]; intros c k Hi Hst Hno.
  - exists k. rewrite Hi. f_equal. destruct c; simpl in *. by subst.
  - apply not_elem_of_cons in Hno as [Hop Hno].
    destruct (spec_step_stable _ _ _ _ _ _ _ _ _ _ _ Hstep Hi Hst) as [k1 Hk1]; [done|].
    destruct (IH _ _ Hk1 eq_refl) as [k2 Hk2]; [done|]. by exists k2.
Qed.

(** ** Reading through a view *)

Section reading.
Context (p : MemoryPool) (Hwf : pool_wf p).

(** A published chunk is read in place: offset, size, sequence and timestamp are those of
    the specification. *)
Lemma read_published handle i c n s t k max :
  denotes (pool_id_of p) (abs p) handle i c -> sp_status c = SPublished n s t k -> n <= max ->
  read_view (view_of p) (mp_region p) handle max =
    Ret (mkChunkViewResult Ok (Some (sp_offset c)) n s t) /\
  get_at (Z.to_nat (sp_offset c)) (Z.to_nat n) (reg_bytes (mp_region p)) = take (Z.to_nat n) (sp_payload c).
Proof.
  intros [Hi ->] Hst Hn. destruct (lookup_abs_inv p Hwf _ _ Hi) as (e & h & Hat & ->).
  destruct (chunk_at_ok _ Hwf _ _ _ Hat) as (Hcap & Hcls & Htop & Hpid & Hgen & Hsize & Hok).
  simpl in Hst.
  destruct (required_published h Hok) as (Hpub & Hrefs & Hgen0 & Hseq & Hs); [by rewrite Hst|].
  rewrite Hst in Hs. simplify_eq. simpl. split.
  - unfold read_view. cbn [ch_pool_id ch_chunk_index ch_generation ch_payload_offset view_of pv_descriptor
      pv_directory sp_generation sp_offset abs_chunk].
    pose proof (lookup_lt_Some _ _ _ (proj1 Hat)).
    rewrite Z.eqb_refl, (proj2 (Z.leb_gt _ _)), (proj2 (Z.eqb_neq (ck_generation h) 0)) by lia. cbn [negb orb].
    rewrite (proj2 (Z.leb_le 0 _)), Nat2Z.id, (proj1 Hat), Z.eqb_refl by lia. cbn [negb].
    rewrite (region_chunk_at _ Hwf _ _ _ Hat), Hpub, Hpid, Htop, Hcls, Hcap, !Z.eqb_refl.
    rewrite !(proj2 (Z.ltb_ge _ _)), !(proj2 (Z.eqb_neq _ _)) by lia. done.
  - unfold get_at. rewrite take_take. f_equal. lia.
Qed.

(** Nothing else can be read. *)
Lemma read_only_published handle max result :
  0 <= ch_chunk_index handle ->
  read_view (view_of p) (mp_region p) handle max = Ret result -> vr_error result = Ok ->
  exists i c n s t k, denotes (pool_id_of p) (abs p) handle i c /\ sp_status c = SPublished n s t k /\
    n <= max /\ result = mkChunkViewResult Ok (Some (sp_offset c)) n s t.
Proof.
  intros Hidx. unfold read_view. cbv zeta beta. cbn [view_of pv_descriptor pv_directory].
  destruct (_ || _) eqn:Hc1; [by intros [= <-]|]. rewrite (proj2 (Z.leb_le _ _)) by done.
  destruct (mp_directory p !! _) as [e|] eqn:He; [|done].
  destruct (_ =? de_payload_offset e) eqn:Hoff; [|by intros [= <-]]. cbn [negb].
  destruct (pw_headers _ Hwf _ _ He) as (h & Hat & _).
  rewrite (region_chunk_at _ Hwf _ _ _ Hat). cbv iota. bools.
  destruct (_ || _) eqn:Hc2; [by intros [= <-]|].
  intros [= <-] _. bools.
  exists (Z.to_nat (ch_chunk_index handle)), (abs_chunk e h (reg_bytes (mp_region p))).
  exists (ck_payload_size h), (ck_sequence h), (ck_publish_timestamp_ns h), (ck_ref_count h).
  split_and!; auto.
  - split; [by apply lookup_abs|]. destruct handle; simpl in *. rewrite Z2Nat.id by lia. congruence.
  - simpl. unfold status_of. by replace (ck_state h) with ChunkState_Published.
Qed.
End reading.

(** The payload of a chunk fills its capacity. *)
Lemma length_payload p i c : pool_wf p -> abs p !! i = Some c ->
  Z.of_nat (length (sp_payload c)) = sp_capacity c.
Proof.
  intros Hwf Hi. destruct (lookup_abs_inv p Hwf _ _ Hi) as (e & h & [He _] & ->). simpl.
  destruct (entry_bounds _ Hwf _ _ He) as (? & ? & ? & ?). unfold region_size, sizeof_ChunkHeader in *.
  rewrite length_get_at; lia.
Qed.

(** ** Theorems *)

(** C38: a layout computed from any configuration the C++ types allow has its metadata and
    chunks inside the segment, aligned and pairwise disjoint, its size classes in strictly
    increasing capacity, and every directory entry in the range of its class. *)
Theorem layout_is_well_formed config pool_id topic_id pid layout :
  config_typed config -> makeLayout config pool_id topic_id pid = Ret layout -> layout_wf layout.
Proof. intros Hty Hlay. apply (makeLayout_wf _ _ _ _ _ Hty Hlay). Qed.

(** Creating a pool never writes outside its segment, and a pool that is created
    satisfies the pool invariant, has every chunk free with generation zero, and holds the
    encoded layout in its region. *)
Theorem create_pool_correct os pid d config :
  config_typed config ->
  safely (create_pool os pid d config) (fun p =>
    pool_wf p /\ mp_descriptor p = d /\
    Forall (fun c => sp_status c = SFree /\ sp_generation c = 0) (abs p) /\
    exists layout, makeLayout config (pd_pool_id d) (pd_topic_id d) pid = Ret layout /\
      layout_wf layout /\ region_holds layout (mp_region p)).
Proof.
  intros Hty. pose proof (create_pool_spec os pid d config Hty) as Hspec. unfold safely.
  destruct (create_pool _ _ _ _); [|done|done].
  destruct Hspec as (? & ? & ? & layout & ? & ? & ? & _). eauto 10.
Qed.

(** C1: every sequence of pool calls, on every branch, returns, preserves the pool
    invariant, and is a run of the abstract pool: free lists, offsets and headers implement
    the chunk lifecycle, best-fit allocation and reference counts. *)
Theorem pool_refines_specification p ops :
  pool_wf p -> Forall op_typed ops ->
  exists rs p', exec_ops ops p = (Ret rs, p') /\ pool_wf p' /\
    spec_run (pool_id_of p) (abs p) ops rs (abs p').
Proof.
  intros Hwf Hty. destruct (exec_ops_refines p ops Hwf Hty) as (rs & p' & ? & ? & _ & ?). eauto 10.
Qed.

(** A loaned chunk published with the guard reference, referenced once for each of [k]
    subscribers and released [k + 1] times reports the remaining references at each
    release, becomes released exactly at the last one, and reclaiming it frees it; no other
    chunk changes. *)
Theorem sample_life_frees_chunk p handle i c n s t k :
  pool_wf p -> denotes (pool_id_of p) (abs p) handle i c -> sp_status c = SLoaned n -> s <> 0 ->
  Z.of_nat k < u32_max ->
  exists p', exec_ops (sample_life handle n s t k) p =
      (Ret (ReplyError Ok :: replicate k (ReplyError Ok) ++ release_replies (S k) ++ [ReplyError Ok]), p') /\
    pool_wf p' /\ abs p' = <[i := c <| sp_status := SFree |>]> (abs p).
Proof.
  intros Hwf Hden Hst Hs Hk.
  assert (Hty : Forall op_typed (sample_life handle n s t k)).
  { assert (0 <= ch_chunk_index handle) by (destruct Hden as [_ ->]; simpl; lia).
    unfold sample_life. repeat apply Forall_cons_2 || apply Forall_app_2 || apply Forall_replicate;
      auto; simpl; unfold umax; auto with lia. }
  destruct (exec_ops_refines p _ Hwf Hty) as (rs & p' & Hrun & Hwf' & _ & Hspec).
  destruct (spec_sample_life _ _ _ _ _ _ _ _ _ _ _ Hden Hst Hs Hk Hspec) as [-> Habs]. eauto.
Qed.

(** Once a chunk has been allocated again, a handle with an earlier generation is
    rejected by every operation, which changes no chunk. *)
Theorem stale_handle_rejected p n fresh capacity p' old op :
  pool_wf p -> 0 <= n -> allocate n p = (Ret (mkAllocationResult Ok fresh capacity), p') ->
  ch_chunk_index old = ch_chunk_index fresh -> ch_generation old <> ch_generation fresh ->
  op_handle op = Some old -> null_data op = false -> op_typed op ->
  exists p'', exec_op op p' = (Ret (reject_handle op), p'') /\ abs p'' = abs p'.
Proof.
  intros Hwf Hn Halloc Hidx Hgen Hop Hnull Hty.
  destruct (exec_op_refines p Hwf (OpAllocate n) Hn) as (r & q & Hrun & Hwf' & Hstep & Hgeo).
  simpl in Hrun. unfold_cpp. rewrite Halloc in Hrun. simplify_eq.
  destruct (exec_op_refines q Hwf' op Hty) as (r & p'' & Hrun & _ & Hstep' & _).
  destruct (spec_allocated_inv _ _ _ _ _ _ Hstep) as (i & c & Hi & _ & _ & -> & _ & HA).
  assert (Hno : forall j c', ~ denotes (pool_id_of q) (abs q) old j c').
  { intros j c' [Hj ->]. simpl in *. assert (j = i) as -> by lia.
    rewrite HA, list_lookup_insert_eq in Hj by (by eapply lookup_lt_Some). by simplify_eq. }
  destruct (spec_stale_inv _ _ _ _ _ _ Hop Hnull Hno Hstep') as [-> Habs]. eauto.
Qed.

(** The bytes given to [writeAndPublish] on a freshly allocated chunk are what every
    subscriber reads through its view, with the size, sequence and timestamp published. *)
Theorem published_bytes_are_read p n handle capacity p1 data s t r max :
  pool_wf p -> 0 <= n <= max -> allocate n p = (Ret (mkAllocationResult Ok handle capacity), p1) ->
  Z.of_nat (length data) = n -> s <> 0 -> 0 < r <= u32_max ->
  exists p2, writeAndPublish handle (Some data) n s t r p1 = (Ret Ok, p2) /\ pool_wf p2 /\
    read_view (view_of p2) (mp_region p2) handle max =
      Ret (mkChunkViewResult Ok (Some (ch_payload_offset handle)) n s t) /\
    get_at (Z.to_nat (ch_payload_offset handle)) (Z.to_nat n) (reg_bytes (mp_region p2)) = data.
Proof.
  intros Hwf Hn Halloc Hlen Hs Hr.
  destruct (exec_op_refines p Hwf (OpAllocate n)) as (r1 & q & Hrun & Hwf1 & Hstep & Hgeo1); [simpl; lia|].
  simpl in Hrun. unfold_cpp. rewrite Halloc in Hrun. simplify_eq.
  destruct (spec_allocated_inv _ _ _ _ _ _ Hstep) as (i & c & Hi & Hbest & _ & -> & -> & HA).
  set (handle := mkChunkHandle _ _ _ _). set (c1 := c <| sp_generation := _ |> <| sp_status := _ |>) in *.
  set (n := Z.of_nat (length data)) in *.
  assert (Hden : denotes (pool_id_of q) (abs q) handle i c1).
  { split; [rewrite HA; apply list_lookup_insert_eq; by eapply lookup_lt_Some|].
    unfold handle, c1. simpl. by rewrite (proj1 Hgeo1). }
  destruct (exec_op_refines q Hwf1 (OpWriteAndPublish handle (Some data) n s t r))
    as (r2 & p2 & Hrun2 & Hwf2 & Hstep2 & Hgeo2); [unfold handle; simpl; lia|].
  destruct (spec_write_inv _ _ _ _ _ _ _ _ _ r _ _ Hden eq_refl Hs ltac:(lia) Hstep2) as [-> HA2].
  exists p2. simpl in Hrun2. unfold_cpp.
  destruct (writeAndPublish _ _ _ _ _ _ q) as [[e|?|] q'] eqn:Hw; simplify_eq.
  split; [done|]. split; [done|].
  set (c2 := c1 <| sp_status := _ |> <| sp_payload := _ |>) in *.
  assert (Hi2 : abs p2 !! i = Some c2).
  { rewrite HA2. apply list_lookup_insert_eq. destruct Hden as [Hd _]. by eapply lookup_lt_Some. }
  destruct (read_published p2 Hwf2 handle i c2 n s t r max) as [Hread Hbytes];
    [split; [done|]; by rewrite (proj1 Hgeo2), (proj1 Hgeo1) | done | lia |].
  split; [done|]. change (ch_payload_offset handle) with (sp_offset c2). rewrite Hbytes.
  change (sp_payload c2) with (put_at 0 (take (Z.to_nat n) data) (sp_payload c)).
  unfold n. rewrite Nat2Z.id, (take_ge data) by lia.
  rewrite <- (drop_0 (put_at 0 data (sp_payload c))). apply get_at_put_at_same; [done|].
  pose proof (length_payload _ _ _ Hwf Hi). destruct Hbest as [? _]. unfold n in *. lia.
Qed.

(** C28: while a published chunk's reference is not released, no sequence of pool calls,
    publications of other messages included, changes what a subscriber reads from it. *)
Theorem referenced_payload_is_stable p ops handle i c n s t k max :
  pool_wf p -> denotes (pool_id_of p) (abs p) handle i c -> sp_status c = SPublished n s t k ->
  n <= max -> Forall op_typed ops -> OpRelease handle ∉ ops ->
  exists rs p', exec_ops ops p = (Ret rs, p') /\
    read_view (view_of p) (mp_region p') handle max = Ret (mkChunkViewResult Ok (Some (sp_offset c)) n s t) /\
    get_at (Z.to_nat (sp_offset c)) (Z.to_nat n) (reg_bytes (mp_region p')) = take (Z.to_nat n) (sp_payload c).
Proof.
  intros Hwf Hden Hst Hn Hty Hno. destruct Hden as [Hi ->].
  destruct (exec_ops_refines p ops Hwf Hty) as (rs & p' & Hrun & Hwf' & Hgeo & Hspec).
  destruct (spec_run_stable _ _ _ _ _ _ _ _ _ _ _ Hspec Hi Hst Hno) as [k' Hk'].
  exists rs, p'. split; [done|]. destruct Hgeo as (Hd & Hc & Hdir & _).
  replace (view_of p) with (view_of p') by (unfold view_of; congruence).
  destruct (read_published p' Hwf' (mkChunkHandle (pool_id_of p) (Z.of_nat i) (sp_generation c) (sp_offset c))
    i (c <| sp_status := SPublished n s t k' |>) n s t k' max) as [Hread Hbytes]; [|done|done|].
  { split; [done|]. by rewrite Hd. }
  split; [exact Hread | exact Hbytes].
Qed.

(** C30: opening a pool whose segment holds arbitrary bytes and arbitrary chunk headers
    never reads outside the mapping; when it succeeds, every later read, whatever the
    headers have become, stays inside the mapping and below the size limit. *)
Theorem view_reads_stay_inside os object d topic :
  region_typed object ->
  safely (open_view os object d topic) (fun view =>
    forall r handle max, region_size r = region_size object -> 0 <= ch_chunk_index handle ->
      safely (read_view view r handle max) (fun result => vr_error result = Ok ->
        exists off, vr_payload result = Some off /\ vr_payload_size result <= max /\
          off + vr_payload_size result <= region_size r)).
Proof.
  intros Hty. pose proof (open_view_safe os object d topic Hty) as Hsafe.
  destruct (open_view _ _ _ _) as [view| |]; [|done|done]. destruct Hsafe as (Hv & _).
  intros r handle max Hsize Hidx. apply read_view_safe; [by rewrite Hsize | done].
Qed.

(** A pool that was created with its descriptor and then used by any sequence of calls. *)
Definition live_pool (p : MemoryPool) : Prop :=
  exists pid config p0 ops rs, config_typed config /\ fits 64 (pd_pool_id (mp_descriptor p)) /\ fits 64 (pd_topic_id (mp_descriptor p)) /\
    create_pool None pid (mp_descriptor p) config = Ret p0 /\ Forall op_typed ops /\ exec_ops ops p0 = (Ret rs, p).

Lemma live_pool_view p : live_pool p ->
  pool_wf p /\ validateArguments (pd_shm_name (mp_descriptor p)) (pd_segment_size (mp_descriptor p)) = true /\
  pd_pool_id (mp_descriptor p) <> 0 /\ pd_layout_version (mp_descriptor p) = kPoolLayoutVersion /\
  open_view None (mp_region p) (mp_descriptor p) (pd_topic_id (mp_descriptor p)) = Ret (view_of p).
Proof.
  intros (pid & config & p0 & ops & rs & Hcfg & Hp & Ht & Hcreate & Hty & Hrun).
  pose proof (create_pool_laid_out None pid _ config p0 Hcfg Hp Ht Hcreate) as (layout & Hlaid & Hargs & Hnz & Hver).
  pose proof (create_pool_spec None pid (mp_descriptor p) config Hcfg) as Hspec. rewrite Hcreate in Hspec.
  destruct Hspec as (Hwf & Hd & _).
  destruct (exec_ops_refines p0 ops Hwf Hty) as (rs' & q & Hrun' & Hwf' & Hgeo & _).
  rewrite Hrun in Hrun'. simplify_eq. split_and!; [done | done | done | done |].
  apply (open_view_live q layout Hwf' (laid_out_kept _ _ _ Hgeo Hlaid)); done.
Qed.

(** A subscriber that opens the segment of a created pool, after any sequence of pool
    calls, obtains exactly the publisher's size classes and directory. *)
Theorem live_pool_opens pid d config p ops rs p' :
  config_typed config -> fits 64 (pd_pool_id d) -> fits 64 (pd_topic_id d) ->
  create_pool None pid d config = Ret p -> Forall op_typed ops -> exec_ops ops p = (Ret rs, p') ->
  open_view None (mp_region p') d (pd_topic_id d) = Ret (view_of p').
Proof.
  intros Hcfg Hp Ht Hcreate Hty Hrun.
  pose proof (create_pool_spec None pid d config Hcfg) as Hspec. rewrite Hcreate in Hspec. destruct Hspec as (Hwf & Hd & _).
  destruct (exec_ops_refines p ops Hwf Hty) as (rs' & q & Hrun' & _ & [Hd' _] & _).
  rewrite Hrun in Hrun'. simplify_eq. rewrite <- Hd' in *. apply live_pool_view. by exists pid, config, p, ops, rs'.
Qed.

(** ** A concrete pool *)

Definition example_config : MemoryPoolConfig :=
  mkMemoryPoolConfig [mkMemoryPoolClassConfig 64 2; mkMemoryPoolClassConfig 128 1].
Definition example_descriptor : PoolDescriptor := mkPoolDescriptor "/mw-pool-7" 7 704 3 kPoolLayoutVersion.
Definition empty_pool : MemoryPool :=
  mkMemoryPool empty_PoolDescriptor (mkRegion [] ∅) [] [] [] (mkPoolInstrumentation 0 0 0 0 0 0 0 0).
Definition pool_or_empty (o : outcome MemoryPool) : MemoryPool :=
  match o with Ret p => p | _ => empty_pool end.
Definition example_pool : MemoryPool :=
  pool_or_empty (create_pool None 42 example_descriptor example_config).

(** The pool after allocating a three-byte chunk, and after publishing it with one reference. *)
Definition example_handle : ChunkHandle := mkChunkHandle 7 0 1 320.
Definition example_loaned : MemoryPool := (exec_ops [OpAllocate 3] example_pool).2.
Definition example_publish : pool_op := OpWriteAndPublish example_handle (Some [10; 20; 30]) 3 1 99 1.
Definition example_published : MemoryPool := (exec_ops [example_publish] example_loaned).2.

Lemma example_config_typed : config_typed example_config.
Proof. repeat constructor; vm_compute; congruence. Qed.

Lemma example_created : create_pool None 42 example_descriptor example_config = Ret example_pool.
Proof. vm_compute. reflexivity. Qed.

Lemma example_pool_wf : pool_wf example_pool.
Proof.
  pose proof (create_pool_spec None 42 example_descriptor example_config example_config_typed) as H.
  rewrite example_created in H. apply H.
Qed.

Lemma example_loaned_wf : pool_wf example_loaned.
Proof.
  destruct (exec_ops_refines example_pool [OpAllocate 3] example_pool_wf) as (rs & p' & Hrun & Hwf & _).
  - repeat constructor; simpl; lia.
  - unfold example_loaned. by rewrite Hrun.
Qed.

Lemma example_published_wf : pool_wf example_published.
Proof.
  destruct (exec_ops_refines example_loaned [example_publish] example_loaned_wf) as (rs & p' & Hrun & Hwf & _).
  - repeat constructor; simpl; unfold umax; lia.
  - unfold example_published. by rewrite Hrun.
Qed.

Lemma layout_is_well_formed_witness :
  match makeLayout example_config 7 3 42 with Ret layout => layout_wf layout | _ => False end.
Proof.
  destruct (makeLayout example_config 7 3 42) as [layout| |] eqn:Hlay; [|discriminate Hlay|discriminate Hlay].
  exact (layout_is_well_formed example_config 7 3 42 layout example_config_typed Hlay).
Defined.

Lemma create_pool_correct_witness : pool_wf example_pool.
Proof.
  pose proof (create_pool_correct None 42 example_descriptor example_config example_config_typed) as H.
  rewrite example_created in H. apply H.
Defined.

Lemma pool_refines_specification_witness :
  exists rs p', exec_ops [OpAllocate 3; example_publish; OpRelease example_handle] example_pool = (Ret rs, p') /\
    pool_wf p' /\ spec_run (pool_id_of example_pool) (abs example_pool)
      [OpAllocate 3; example_publish; OpRelease example_handle] rs (abs p').
Proof.
  apply pool_refines_specification; [exact example_pool_wf|].
  repeat constructor; simpl; unfold umax; lia.
Defined.

Lemma sample_life_frees_chunk_witness :
  exists p', exec_ops (sample_life example_handle 3 1 99 2) example_loaned =
      (Ret (ReplyError Ok :: replicate 2 (ReplyError Ok) ++ release_replies 3 ++ [ReplyError Ok]), p') /\
    pool_wf p'.
Proof.
  destruct (sample_life_frees_chunk example_loaned example_handle 0
    (mkSpecChunk 64 320 1 (SLoaned 3) (replicate 64 0)) 3 1 99 2) as (p' & Hrun & Hwf & _);
    [exact example_loaned_wf | split; vm_compute; reflexivity | reflexivity | discriminate | reflexivity |].
  exists p'. split; [exact Hrun | exact Hwf].
Defined.

Lemma stale_handle_rejected_witness :
  exists p'', exec_op (OpCancel (mkChunkHandle 7 0 0 320)) example_loaned =
    (Ret (ReplyError InvalidChunkHandle), p'') /\ abs p'' = abs example_loaned.
Proof.
  apply (stale_handle_rejected example_pool 3 example_handle 64 example_loaned
    (mkChunkHandle 7 0 0 320) (OpCancel (mkChunkHandle 7 0 0 320)));
    [exact example_pool_wf | lia | vm_compute; reflexivity | reflexivity | discriminate | reflexivity
    | reflexivity | simpl; lia].
Defined.

Lemma published_bytes_are_read_witness :
  exists p2, writeAndPublish example_handle (Some [10; 20; 30]) 3 1 99 1 example_loaned = (Ret Ok, p2) /\
    get_at 320 3 (reg_bytes (mp_region p2)) = [10; 20; 30].
Proof.
  destruct (published_bytes_are_read example_pool 3 example_handle 64 example_loaned [10; 20; 30] 1 99 1 1024)
    as (p2 & Hrun & _ & _ & Hbytes);
    [exact example_pool_wf | lia | vm_compute; reflexivity | reflexivity | discriminate | unfold umax; lia |].
  exists p2. split; [exact Hrun | exact Hbytes].
Defined.

Lemma referenced_payload_is_stable_witness :
  exists rs p', exec_ops [OpAllocate 5; OpAllocate 5; OpCancel example_handle] example_published = (Ret rs, p') /\
    read_view (view_of example_published) (mp_region p') example_handle 1024 =
      Ret (mkChunkViewResult Ok (Some 320) 3 1 99).
Proof.
  destruct (referenced_payload_is_stable example_published
    [OpAllocate 5; OpAllocate 5; OpCancel example_handle] example_handle 0
    (mkSpecChunk 64 320 1 (SPublished 3 1 99 1) ([10; 20; 30] ++ replicate 61 0)) 3 1 99 1 1024)
    as (rs & p' & Hrun & Hread & _);
    [exact example_published_wf | split; vm_compute; reflexivity | reflexivity | lia
    | repeat constructor; simpl; lia | by rewrite !not_elem_of_cons; split_and!; [..|apply not_elem_of_nil] |].
  exists rs, p'. split; [exact Hrun | exact Hread].
Defined.

Lemma view_reads_stay_inside_witness :
  safely (open_view None (mp_region example_published) example_descriptor 3) (fun view =>
    safely (read_view view (mp_region example_published) example_handle 1024) (fun result =>
      vr_error result = Ok -> exists off, vr_payload result = Some off /\ vr_payload_size result <= 1024 /\
        off + vr_payload_size result <= region_size (mp_region example_published))).
Proof.
  assert (Hty : region_typed (mp_region example_published)).
  { apply all_bytes_spec. vm_compute. reflexivity. }
  pose proof (view_reads_stay_inside None (mp_region example_published) example_descriptor 3 Hty) as H.
  destruct (open_view _ _ _ _) as [view| |]; [|exact I|exact H].
  exact (H _ example_handle 1024 eq_refl ltac:(vm_compute; discriminate)).
Defined.

Lemma live_pool_opens_witness :
  open_view None (mp_region example_loaned) example_descriptor 3 = Ret (view_of example_loaned).
Proof.
  apply (live_pool_opens 42 example_descriptor example_config example_pool [OpAllocate 3]
    [ReplyAllocation (mkAllocationResult Ok example_handle 64)] example_loaned);
    [exact example_config_typed | split; [discriminate|reflexivity] | split; [discriminate|reflexivity]
    | exact example_created | repeat constructor; simpl; lia | vm_compute; reflexivity].
Defined.
