(* ===== verification/SocketIo.v ===== *)
(** * Exact socket transfers

    [readExactWith], [writeAllWith], [readExact] and [writeAll] of [detail/socket_io.hpp] and
    [detail/socket_io.cpp].  The operation the loops repeat ([recv] or [send]) is a parameter;
    the loops carry fuel, because an operation may be interrupted for ever, and the theorems
    give enough of it. *)

From Stdlib Require Import ZArith Lia Bool.
From stdpp Require Import base list option.
From S2P Require Import Prelude Types.

Local Open Scope Z_scope.

Inductive IoStatus := IoComplete | IoClosed | IoError.
#[export] Instance IoStatus_eq_dec : EqDecision IoStatus.
Proof. solve_decision. Defined.

Record IoResult := mkIoResult { io_status : IoStatus; io_transferred : Z; io_error_number : Z }.

Definition EIO : Z := 5.
Definition EINTR : Z := 4.
Definition EPIPE : Z := 32.
Definition ECONNRESET : Z := 104.
Definition ENOTCONN : Z := 107.

(** What one call does: its result, [errno], and for a read the bytes it stores at the
    destination. *)
Record io_reply := mkIoReply { io_result : Z; io_errno : Z; io_data : list Z }.

(** ** The loops *)

Section loops.
Context {E : Type}.

Fixpoint readExactWith (operation : Z -> E -> io_reply * E) (fuel : nat) (size transferred : Z)
    (buffer : list Z) (env : E) : option (IoResult * list Z * E) :=
  if transferred <? size then
    match fuel with
    | O => None
    | S fuel =>
        let remaining := size - transferred in
        let '(reply, env) := operation remaining env in
        let buffer := put_at (Z.to_nat transferred) (io_data reply) buffer in
        if 0 <? io_result reply then
          if remaining <? io_result reply then Some (mkIoResult IoError transferred EIO, buffer, env)
          else readExactWith operation fuel size (transferred + io_result reply) buffer env
        else if io_result reply =? 0 then Some (mkIoResult IoClosed transferred 0, buffer, env)
        else if io_errno reply =? EINTR then readExactWith operation fuel size transferred buffer env
        else Some (mkIoResult IoError transferred (io_errno reply), buffer, env)
    end
  else Some (mkIoResult IoComplete transferred 0, buffer, env).

(** The operation gets the bytes from [current + transferred] on. *)
Fixpoint writeAllWith (operation : list Z -> E -> io_reply * E) (fuel : nat) (buffer : list Z) (transferred : Z)
    (env : E) : option (IoResult * E) :=
  let size := Z.of_nat (length buffer) in
  if transferred <? size then
    match fuel with
    | O => None
    | S fuel =>
        let remaining := size - transferred in
        let '(reply, env) := operation (drop (Z.to_nat transferred) buffer) env in
        if 0 <? io_result reply then
          if remaining <? io_result reply then Some (mkIoResult IoError transferred EIO, env)
          else writeAllWith operation fuel buffer (transferred + io_result reply) env
        else if io_result reply =? 0 then Some (mkIoResult IoClosed transferred 0, env)
        else if io_errno reply =? EINTR then writeAllWith operation fuel buffer transferred env
        else Some (mkIoResult IoError transferred (io_errno reply), env)
    end
  else Some (mkIoResult IoComplete transferred 0, env).

Definition isDisconnectError (error_number : Z) : bool :=
  (error_number =? EPIPE) || (error_number =? ECONNRESET) || (error_number =? ENOTCONN).

(** What [readExact] and [writeAll] make of the result of the loop. *)
Definition disconnect_closes (result : IoResult) : IoResult :=
  if bool_decide (io_status result = IoError) && isDisconnectError (io_error_number result)
  then mkIoResult IoClosed (io_transferred result) (io_error_number result) else result.

Definition readExact (recv : Z -> E -> io_reply * E) (fuel : nat) (size : Z) (buffer : list Z) (env : E)
    : option (IoResult * list Z * E) :=
  '(result, buffer, env) ← readExactWith recv fuel size 0 buffer env;
  Some (disconnect_closes result, buffer, env).

Definition writeAll (send : list Z -> E -> io_reply * E) (fuel : nat) (buffer : list Z) (env : E)
    : option (IoResult * E) :=
  '(result, env) ← writeAllWith send fuel buffer 0 env;
  Some (disconnect_closes result, env).
End loops.

(** ** Contracts of the operations *)

(** An operation that reads a stream until the peer closes it: it stores a non-empty prefix
    of the bytes to come, of at most the size asked for, or returns 0 at the end of the stream,
    or is interrupted, which does not happen for ever. *)
Record reads_stream {E} (operation : Z -> E -> io_reply * E) (stream : E -> list Z) (interrupts : E -> nat) : Prop := {
  rs_step : forall remaining env, 0 < remaining ->
    let '(reply, env') := operation remaining env in
    (io_result reply = Z.of_nat (length (io_data reply)) /\ 0 < io_result reply <= remaining /\
     stream env = io_data reply ++ stream env') \/
    (io_result reply = 0 /\ io_data reply = [] /\ stream env = [] /\ stream env' = []) \/
    (io_result reply = -1 /\ io_errno reply = EINTR /\ io_data reply = [] /\ stream env' = stream env /\
     (interrupts env' < interrupts env)%nat);
}.

(** An operation that accepts a non-empty prefix of the bytes it is given. *)
Record writes_stream {E} (operation : list Z -> E -> io_reply * E) (sent : E -> list Z) (interrupts : E -> nat) : Prop := {
  ws_step : forall data env, data <> [] ->
    let '(reply, env') := operation data env in
    (0 < io_result reply <= Z.of_nat (length data) /\ sent env' = sent env ++ take (Z.to_nat (io_result reply)) data) \/
    (io_result reply = -1 /\ io_errno reply = EINTR /\ sent env' = sent env /\ (interrupts env' < interrupts env)%nat);
}.

(** ** Lemmas *)

Section reading.
Context {E : Type} (operation : Z -> E -> io_reply * E).

Lemma read_step fuel size transferred buffer env :
  readExactWith operation (S fuel) size transferred buffer env =
  if transferred <? size then
    let '(reply, env) := operation (size - transferred) env in
    let buffer := put_at (Z.to_nat transferred) (io_data reply) buffer in
    if 0 <? io_result reply then
      if size - transferred <? io_result reply then Some (mkIoResult IoError transferred EIO, buffer, env)
      else readExactWith operation fuel size (transferred + io_result reply) buffer env
    else if io_result reply =? 0 then Some (mkIoResult IoClosed transferred 0, buffer, env)
    else if io_errno reply =? EINTR then readExactWith operation fuel size transferred buffer env
    else Some (mkIoResult IoError transferred (io_errno reply), buffer, env)
  else Some (mkIoResult IoComplete transferred 0, buffer, env).
Proof. reflexivity. Qed.

(** More fuel does not change a result. *)
Lemma read_fuel fuel size transferred buffer env r :
  readExactWith operation fuel size transferred buffer env = Some r ->
  readExactWith operation (S fuel) size transferred buffer env = Some r.
Proof.
  revert transferred buffer env. induction fuel as [|fuel IH]; intros transferred buffer env.
  - simpl. by case_match.
  - rewrite (read_step fuel), (read_step (S fuel)). case_match; [|done]. destruct (operation _ env) as [reply env'].
    cbv zeta.
    destruct (0 <? _); [destruct (_ <? io_result reply) | destruct (_ =? 0); [|destruct (_ =? EINTR)]]; (done || apply IH).
Qed.

(** One step that stores data, and one that is interrupted. *)
Lemma read_data fuel size transferred buffer env reply env' :
  transferred < size -> operation (size - transferred) env = (reply, env') -> 0 < io_result reply <= size - transferred ->
  readExactWith operation (S fuel) size transferred buffer env =
  readExactWith operation fuel size (transferred + io_result reply)
    (put_at (Z.to_nat transferred) (io_data reply) buffer) env'.
Proof.
  intros Ht Hop Hr. cbn [readExactWith]. rewrite (proj2 (Z.ltb_lt _ _)) by lia. cbv zeta. rewrite Hop.
  rewrite (proj2 (Z.ltb_lt 0 _)) by lia. by rewrite (proj2 (Z.ltb_ge (size - transferred) _)) by lia.
Qed.

Lemma read_interrupted fuel size transferred buffer env reply env' :
  transferred < size -> operation (size - transferred) env = (reply, env') -> io_result reply = -1 ->
  io_errno reply = EINTR -> io_data reply = [] ->
  readExactWith operation (S fuel) size transferred buffer env =
  readExactWith operation fuel size transferred buffer env'.
Proof.
  intros Ht Hop Hr He Hd. cbn [readExactWith]. rewrite (proj2 (Z.ltb_lt _ _)) by lia. cbv zeta.
  rewrite Hop, Hr, He, Hd, put_at_nil. done.
Qed.

Context (stream : E -> list Z) (interrupts : E -> nat) (Hop : reads_stream operation stream interrupts).

Lemma take_put_at k n (data buffer : list Z) :
  (k + length data <= length buffer)%nat -> n = (k + length data)%nat ->
  take n (put_at k data buffer) = take k buffer ++ data.
Proof using.
  intros Hl ->. unfold put_at, write_at. rewrite decide_True by done. simpl.
  rewrite app_assoc, take_app_le by (rewrite length_app, length_take; lia).
  rewrite firstn_all2; [done|]. rewrite length_app, length_take. lia.
Qed.

Lemma read_closed fuel size transferred buffer env reply env' :
  transferred < size -> operation (size - transferred) env = (reply, env') -> io_result reply = 0 ->
  io_data reply = [] ->
  readExactWith operation (S fuel) size transferred buffer env =
  Some (mkIoResult IoClosed transferred 0, buffer, env').
Proof using.
  intros Ht Heq Hr Hd. rewrite read_step, (proj2 (Z.ltb_lt _ _)), Heq by lia. cbv zeta.
  by rewrite Hr, Hd, put_at_nil.
Qed.

(** What the loop makes of [left] bytes still wanted and [available] bytes to come. *)
Definition read_outcome (size transferred : Z) (left available : nat) : IoResult :=
  if decide (left <= available)%nat then mkIoResult IoComplete size 0
  else mkIoResult IoClosed (transferred + Z.of_nat available) 0.

(** From any point of the loop, enough fuel takes what the stream has for the rest of the
    buffer. *)
Lemma read_finishes (left : nat) : forall size transferred buffer env,
  0 <= transferred -> size - transferred = Z.of_nat left -> Z.of_nat (length buffer) = size ->
  exists fuel buffer' env', readExactWith operation fuel size transferred buffer env =
    Some (read_outcome size transferred left (length (stream env)), buffer', env') /\
    let got := take left (stream env) in
    take (Z.to_nat transferred + length got) buffer' = take (Z.to_nat transferred) buffer ++ got /\
    length buffer' = length buffer /\ stream env' = drop left (stream env).
Proof using Hop.
  induction (lt_wf left) as [left _ IHleft]. intros size transferred buffer env Ht Hleft Hbuf.
  remember (interrupts env) as k eqn:Hk. revert env Hk.
  induction (lt_wf k) as [k _ IHk]. intros env ->.
  destruct left as [|left'].
  - exists 0%nat, buffer, env. cbn [readExactWith]. rewrite (proj2 (Z.ltb_ge _ _)) by lia.
    unfold read_outcome. rewrite decide_True by lia. cbv zeta. rewrite !take_0, drop_0, app_nil_r, Nat.add_0_r.
    split; [do 4 f_equal; lia | done].
  - assert (Hlt : transferred < size) by lia.
    pose proof (rs_step _ _ _ Hop (size - transferred) env ltac:(lia)) as Hstep.
    destruct (operation (size - transferred) env) as [reply env1] eqn:Heq.
    destruct Hstep as [(Hlen & Hr & Hstr) | [(Hr & Hd & Hstr & Hstr1) | (Hr & He & Hd & Hstr & Hint)]].
    + set (n := length (io_data reply)) in *.
      destruct (IHleft (S left' - n)%nat ltac:(lia) size (transferred + io_result reply)
                  (put_at (Z.to_nat transferred) (io_data reply) buffer) env1)
        as (fuel & buffer2 & env2 & Hrun & Hbuf2 & Hl2 & Hs2); [lia | lia | by rewrite length_put_at|].
      exists (S fuel), buffer2, env2. rewrite (read_data _ _ _ _ _ _ _ Hlt Heq Hr), Hrun. cbv zeta in Hbuf2 |- *.
      rewrite Hstr. rewrite take_app_ge, drop_app_ge by (fold n; lia). fold n. rewrite length_put_at in Hl2.
      split_and!; [|clear Hs2 Hrun|done|done].
      * unfold read_outcome. rewrite length_app. fold n. repeat case_decide; try lia; do 4 f_equal; lia.
      * rewrite (take_put_at (Z.to_nat transferred)), <- app_assoc in Hbuf2 by (fold n; lia).
        rewrite length_app. fold n. rewrite <- Hbuf2. f_equal. lia.
    + exists 1%nat, buffer, env1. rewrite (read_closed _ _ _ _ _ _ _ Hlt Heq Hr Hd), Hstr, Hstr1. cbv zeta. unfold read_outcome. rewrite decide_False by (simpl; lia).
      rewrite take_nil, drop_nil, Nat.add_0_r, app_nil_r, Z.add_0_r. done.
    + destruct (IHk (interrupts env1) Hint env1 eq_refl) as (fuel & buffer2 & env2 & Hrun & Hbuf2 & Hl2 & Hs2).
      exists (S fuel), buffer2, env2. rewrite (read_interrupted _ _ _ _ _ _ _ Hlt Heq Hr He Hd), Hrun.
      by rewrite Hstr in Hbuf2, Hs2 |- *.
Qed.
End reading.

Section writing.
Context {E : Type} (operation : list Z -> E -> io_reply * E) (sent : E -> list Z) (interrupts : E -> nat).
Hypothesis Hop : writes_stream operation sent interrupts.

Lemma write_step fuel buffer transferred env :
  writeAllWith operation (S fuel) buffer transferred env =
  if transferred <? Z.of_nat (length buffer) then
    let '(reply, env) := operation (drop (Z.to_nat transferred) buffer) env in
    if 0 <? io_result reply then
      if Z.of_nat (length buffer) - transferred <? io_result reply
      then Some (mkIoResult IoError transferred EIO, env)
      else writeAllWith operation fuel buffer (transferred + io_result reply) env
    else if io_result reply =? 0 then Some (mkIoResult IoClosed transferred 0, env)
    else if io_errno reply =? EINTR then writeAllWith operation fuel buffer transferred env
    else Some (mkIoResult IoError transferred (io_errno reply), env)
  else Some (mkIoResult IoComplete transferred 0, env).
Proof using. reflexivity. Qed.

Lemma write_finishes (left : nat) : forall buffer transferred env,
  0 <= transferred -> Z.of_nat (length buffer) - transferred = Z.of_nat left ->
  exists fuel env', writeAllWith operation fuel buffer transferred env =
    Some (mkIoResult IoComplete (Z.of_nat (length buffer)) 0, env') /\
    sent env' = sent env ++ drop (Z.to_nat transferred) buffer.
Proof using Hop.
  induction (lt_wf left) as [left _ IHleft]. intros buffer transferred env Ht Hleft.
  remember (interrupts env) as k eqn:Hk. revert env Hk.
  induction (lt_wf k) as [k _ IHk]. intros env ->.
  destruct left as [|left'].
  - exists 0%nat, env. simpl. rewrite (proj2 (Z.ltb_ge _ _)), drop_ge, app_nil_r by lia.
    split; [do 3 f_equal; lia | done].
  - assert (Hne : drop (Z.to_nat transferred) buffer <> []).
    { intros Hnil%(f_equal length). rewrite length_drop in Hnil. simpl in Hnil. lia. }
    pose proof (ws_step _ _ _ Hop _ env Hne) as Hstep.
    destruct (operation (drop (Z.to_nat transferred) buffer) env) as [reply env1] eqn:Heq.
    rewrite length_drop in Hstep. destruct Hstep as [(Hr & Hsent) | (Hr & He & Hsent & Hint)].
    + destruct (IHleft (S left' - Z.to_nat (io_result reply))%nat ltac:(lia) buffer (transferred + io_result reply) env1)
        as (fuel & env2 & Hrun & Hs2); [lia | lia |].
      exists (S fuel), env2. rewrite write_step, (proj2 (Z.ltb_lt _ _)), Heq by lia.
      rewrite (proj2 (Z.ltb_lt 0 _)), (proj2 (Z.ltb_ge (Z.of_nat _ - _) _)) by lia.
      split; [exact Hrun|]. rewrite Hs2, Hsent, <- app_assoc. f_equal.
      replace (Z.to_nat (transferred + io_result reply)) with (Z.to_nat transferred + Z.to_nat (io_result reply))%nat by lia.
      by rewrite <- drop_drop, take_drop.
    + destruct (IHk (interrupts env1) Hint env1 eq_refl) as (fuel & env2 & Hrun & Hs2).
      exists (S fuel), env2. rewrite write_step, (proj2 (Z.ltb_lt _ _)), Heq by lia. rewrite Hr, He. simpl.
      split; [exact Hrun | by rewrite Hs2, Hsent].
Qed.
End writing.

(** ** A pipe

    Bytes on the way, and a plan of what the next calls do: an interrupt, or a fragment of at
    most some size. *)

Record pipe := mkPipe { pipe_bytes : list Z; pipe_plan : list nat }.

Definition pipe_next (plan : list nat) (wanted : nat) : nat * list nat :=
  match plan with [] => (wanted, []) | n :: plan => (Nat.min n wanted, plan) end.

Definition interrupted : io_reply := mkIoReply (-1) EINTR [].

Definition pipe_recv (remaining : Z) (p : pipe) : io_reply * pipe :=
  let '(n, plan) := pipe_next (pipe_plan p) (Z.to_nat remaining) in
  match pipe_bytes p, n with
  | [], _ => (mkIoReply 0 0 [], mkPipe [] plan)
  | _, O => (interrupted, mkPipe (pipe_bytes p) plan)
  | bytes, _ => (mkIoReply (Z.of_nat (length (take n bytes))) 0 (take n bytes), mkPipe (drop n bytes) plan)
  end.

Definition pipe_send (data : list Z) (p : pipe) : io_reply * pipe :=
  let '(n, plan) := pipe_next (pipe_plan p) (length data) in
  match n with
  | O => (interrupted, mkPipe (pipe_bytes p) plan)
  | _ => (mkIoReply (Z.of_nat (length (take n data))) 0 [], mkPipe (pipe_bytes p ++ take n data) plan)
  end.

Lemma pipe_recv_reads : reads_stream pipe_recv pipe_bytes (fun p => length (pipe_plan p)).
Proof.
  split. intros remaining [bytes plan] Hr. unfold pipe_recv. simpl.
  destruct (pipe_next plan (Z.to_nat remaining)) as [n plan'] eqn:Hn.
  destruct bytes as [|b bytes]; [right; left; done|]. destruct n as [|n].
  - right. right. simpl. split_and!; try done. unfold pipe_next in Hn. destruct plan; simplify_eq/=; lia.
  - left. assert (S n <= Z.to_nat remaining)%nat by (unfold pipe_next in Hn; destruct plan; simplify_eq/=; lia).
    cbn [io_result io_data pipe_bytes]. rewrite take_drop. split_and!; [done | simpl; lia | | done].
    rewrite length_take. lia.
Qed.

Lemma pipe_send_writes : writes_stream pipe_send pipe_bytes (fun p => length (pipe_plan p)).
Proof.
  split. intros data [bytes plan] Hd. unfold pipe_send. simpl.
  destruct (pipe_next plan (length data)) as [n plan'] eqn:Hn. destruct n as [|n].
  - right. simpl. split_and!; try done. destruct data; [done|]. unfold pipe_next in Hn. destruct plan; simplify_eq/=; lia.
  - left. assert (S n <= length data)%nat by (unfold pipe_next in Hn; destruct plan; simplify_eq/=; lia).
    cbn [io_result pipe_bytes]. rewrite length_take, Nat.min_l by done. split; [lia|]. by rewrite Nat2Z.id.
Qed.

(** ** Theorems *)

(** C39: However the stream is cut into fragments and however often the call is interrupted,
    [readExact] returns, fills the buffer with exactly the next [size] bytes when there are
    that many, and otherwise says Closed with the number of bytes it stored; it takes nothing
    beyond them off the stream. *)
Theorem read_exact_reassembles {E} (recv : Z -> E -> io_reply * E) stream interrupts size buffer env :
  reads_stream recv stream interrupts -> Z.of_nat (length buffer) = size ->
  exists fuel result buffer' env', readExact recv fuel size buffer env = Some (result, buffer', env') /\
    result = read_outcome size 0 (Z.to_nat size) (length (stream env)) /\
    take (Z.to_nat (io_transferred result)) buffer' = take (Z.to_nat size) (stream env) /\
    length buffer' = length buffer /\ stream env' = drop (Z.to_nat size) (stream env).
Proof.
  intros Hop Hsize.
  destruct (read_finishes recv stream interrupts Hop (Z.to_nat size) size 0 buffer env)
    as (fuel & buffer' & env' & Hrun & Hbuf & Hl & Hs); [lia | lia | done |].
  exists fuel, (read_outcome size 0 (Z.to_nat size) (length (stream env))), buffer', env'.
  split; [|split; [done|split; [|done]]].
  - unfold readExact. rewrite Hrun. simpl. unfold read_outcome. by case_decide.
  - cbv zeta in Hbuf. cbn [Z.to_nat Nat.add take app] in Hbuf. rewrite <- Hbuf at 1. f_equal.
    rewrite length_take. unfold read_outcome. case_decide; simpl; lia.
Qed.

Lemma read_exact_reassembles_witness :
  exists fuel result buffer' p', readExact pipe_recv fuel 5 [0; 0; 0; 0; 0] (mkPipe [1; 2; 3; 4; 5; 6] [0; 2; 0; 0; 1]%nat)
    = Some (result, buffer', p') /\ io_status result = IoComplete /\ pipe_bytes p' = [6].
Proof.
  destruct (read_exact_reassembles pipe_recv pipe_bytes (fun p => length (pipe_plan p)) 5 [0; 0; 0; 0; 0]
              (mkPipe [1; 2; 3; 4; 5; 6] [0; 2; 0; 0; 1]%nat) pipe_recv_reads eq_refl)
    as (fuel & result & buffer' & p' & Hrun & Hres & _ & _ & Hs).
  exists fuel, result, buffer', p'. split; [exact Hrun | split; [rewrite Hres; reflexivity | exact Hs]].
Defined.

(** However few bytes each call accepts and however often it is interrupted, [writeAll]
    returns Complete with every byte of the buffer sent once, in order. *)
Theorem write_all_delivers {E} (send : list Z -> E -> io_reply * E) sent interrupts buffer env :
  writes_stream send sent interrupts ->
  exists fuel env', writeAll send fuel buffer env =
    Some (mkIoResult IoComplete (Z.of_nat (length buffer)) 0, env') /\ sent env' = sent env ++ buffer.
Proof.
  intros Hop. destruct (write_finishes send sent interrupts Hop (length buffer) buffer 0 env)
    as (fuel & env' & Hrun & Hs); [lia | lia |].
  exists fuel, env'. split; [unfold writeAll; by rewrite Hrun | done].
Qed.

Lemma write_all_delivers_witness :
  exists fuel p', writeAll pipe_send fuel [7; 8; 9] (mkPipe [] [1; 0; 0; 1]%nat) =
    Some (mkIoResult IoComplete 3 0, p') /\ pipe_bytes p' = [7; 8; 9].
Proof.
  apply (write_all_delivers pipe_send pipe_bytes (fun p => length (pipe_plan p)) [7; 8; 9]
           (mkPipe [] [1; 0; 0; 1]%nat) pipe_send_writes).
Defined.
