(* ===== verification/SubscriberQueue.v ===== *)
(** * Shared subscriber queue

    [SharedSubscriberQueue] of [middleware/src/detail/subscriber_queue.{hpp,cpp}]: the ring of
    chunk handles a publisher fills and a subscriber empties through shared memory, under
    a robust process-shared mutex.  A method runs between locking and unlocking, so it is
    one atomic step on the shared object, except [enqueue] under the [Block] policy, which
    gives the mutex away while it waits. *)

From Stdlib Require Import ZArith Lia Bool String.
From stdpp Require Import base gmap list strings option.
From S2P Require Import Prelude Types Outcome PoolLayout MemoryPool MemoryPoolView.

Local Open Scope Z_scope.

Definition kSubscriberQueueMagic : Z := 0x4D575151.
Definition kMaxSubscriberQueueDepth : Z := 65536.
(** [sizeof(SubscriberQueueHeader)] and [sizeof(ChunkHandle)], with the pthread types of
    x86-64 glibc. *)
Definition sizeof_SubscriberQueueHeader : Z := 256.
Definition sizeof_ChunkHandle : Z := 24.
Definition alignof_ChunkHandle : Z := 8.

Record QueueStats := mkQueueStats {
  qs_enqueued : Z;
  qs_dequeued : Z;
  qs_dropped_newest : Z;
  qs_dropped_oldest : Z;
  qs_block_timeouts : Z;
  qs_blocked_count : Z;
  qs_blocked_time_ns : Z;
  qs_owner_death_recoveries : Z;
  qs_peer_resets : Z;
  qs_current_size : Z;
  qs_max_size : Z;
}.

(** [SubscriberQueueHeader], without the mutex and the condition variable. *)
Record QueueHeader := mkQueueHeader {
  qh_magic : Z;
  qh_version : Z;
  qh_header_size : Z;
  qh_segment_size : Z;
  qh_queue_id : Z;
  qh_block_timeout_ms : Z;
  qh_capacity : Z;
  qh_head : Z;
  qh_tail : Z;
  qh_size : Z;
  qh_max_size : Z;
  qh_attachment_count : Z;
  qh_closed : Z;
  qh_overflow_policy : Z;
  qh_enqueued : Z;
  qh_dequeued : Z;
  qh_dropped_newest : Z;
  qh_dropped_oldest : Z;
  qh_block_timeouts : Z;
  qh_blocked_count : Z;
  qh_blocked_time_ns : Z;
  qh_owner_death_recoveries : Z;
  qh_peer_resets : Z;
}.
#[export] Instance QueueHeader_eta : Eta QueueHeader := fun h =>
  mkQueueHeader (qh_magic h) (qh_version h) (qh_header_size h) (qh_segment_size h) (qh_queue_id h)
    (qh_block_timeout_ms h) (qh_capacity h) (qh_head h) (qh_tail h) (qh_size h) (qh_max_size h)
    (qh_attachment_count h) (qh_closed h) (qh_overflow_policy h) (qh_enqueued h) (qh_dequeued h)
    (qh_dropped_newest h) (qh_dropped_oldest h) (qh_block_timeouts h) (qh_blocked_count h)
    (qh_blocked_time_ns h) (qh_owner_death_recoveries h) (qh_peer_resets h).

(** The shared object: the header and the [ChunkHandle] slots after it. *)
Record SharedQueue := mkSharedQueue {
  sq_header : QueueHeader;
  sq_slots : list ChunkHandle;
}.
#[export] Instance SharedQueue_eta : Eta SharedQueue := fun q => mkSharedQueue (sq_header q) (sq_slots q).

Inductive QueueEnqueueStatus :=
  | QueueAccepted
  | QueueDroppedNewest
  | QueueTimedOut
  | QueueClosedStatus
  | QueueNotificationFailed
  | QueueSynchronizationError.

Record QueueEnqueueResult := mkQueueEnqueueResult {
  er_status : QueueEnqueueStatus;
  er_dropped_oldest : option ChunkHandle;
  er_notification_sent : bool;
  er_blocked : bool;
  er_blocked_time_ns : Z;
}.

(** [timespec] *)
Record timespec := mkTimespec { tv_sec : Z; tv_nsec : Z }.

(** The result of [pthread_mutex_lock]: success, [EOWNERDEAD] with the result of
    [pthread_mutex_consistent], [ENOTRECOVERABLE], another error. *)
Inductive lock_result :=
  | LockAcquired
  | LockOwnerDead (consistent : bool)
  | LockNotRecoverable
  | LockFailed.

(** One return of [pthread_cond_timedwait] before the deadline, with what other processes
    did to the queue while the mutex was released. *)
Inductive wait_error :=
  | WaitWoken
  | WaitOwnerDead (consistent : bool)
  | WaitFailed.
Record wakeup := mkWakeup {
  wk_others : SharedQueue -> SharedQueue;
  wk_error : wait_error;
}.

(** The environment of a blocking [enqueue]: the clock, and what the waits on a given
    deadline return: finitely many wake-ups, then the deadline passes. *)
Record wait_env := mkWaitEnv {
  we_clock : option timespec;
  we_start : timespec;
  we_end : timespec;
  we_wakeups : timespec -> list wakeup;
  we_expiry : SharedQueue -> SharedQueue;
}.

(** ** Locking *)

Definition header_ : cpp SharedQueue QueueHeader := gets sq_header.
Definition set_header (f : QueueHeader -> QueueHeader) : cpp SharedQueue unit :=
  modify (fun q => q <| sq_header := f (sq_header q) |>).

Definition resetRingAfterOwnerDeath : cpp SharedQueue unit :=
  set_header (fun h => h <| qh_head := 0 |> <| qh_tail := 0 |> <| qh_size := 0 |>
    <| qh_owner_death_recoveries := wrap 64 (qh_owner_death_recoveries h + 1) |>).

Definition makeMutexConsistentAfterOwnerDeath (consistent : bool) : cpp SharedQueue bool :=
  resetRingAfterOwnerDeath;; mret consistent.

(** [PthreadLock]'s constructor; the result is [locked()]. *)
Definition PthreadLock (r : lock_result) : cpp SharedQueue bool :=
  match r with
  | LockAcquired => mret true
  | LockOwnerDead consistent => makeMutexConsistentAfterOwnerDeath consistent
  | LockNotRecoverable | LockFailed => mret false
  end.

(** The result of [pthread_cond_timedwait] other than [ETIMEDOUT]. *)
Definition recoverConditionWaitOwnerDeath (error : wait_error) : cpp SharedQueue bool :=
  match error with
  | WaitWoken => mret true
  | WaitFailed => mret false
  | WaitOwnerDead consistent => makeMutexConsistentAfterOwnerDeath consistent
  end.

(** ** Time *)

(** [std::numeric_limits<time_t>::max()] *)
Definition time_max : Z := 2 ^ 63 - 1.

(** [clock] is the result of [clock_gettime], [None] when it fails. *)
Definition monotonicDeadline (clock : option timespec) (timeout_ms : Z) : timespec :=
  match clock with
  | None => mkTimespec 0 0
  | Some deadline =>
      let seconds := timeout_ms / 1000 in
      let nanoseconds := (timeout_ms mod 1000) * 1000000 in
      if time_max - tv_sec deadline <? seconds then mkTimespec time_max 999999999
      else
        let sec := tv_sec deadline + seconds in
        let nsec := tv_nsec deadline + nanoseconds in
        if 1000000000 <=? nsec then mkTimespec (sec + 1) (nsec - 1000000000) else mkTimespec sec nsec
  end.

Definition elapsedNanoseconds (start finish : timespec) : Z :=
  let seconds := tv_sec finish - tv_sec start in
  let nanoseconds := tv_nsec finish - tv_nsec start in
  let elapsed := seconds * 1000000000 + nanoseconds in
  if elapsed <=? 0 then 0 else elapsed.

(** ** Validation *)

Definition slotsOffset : Z :=
  Z.land (sizeof_SubscriberQueueHeader + alignof_ChunkHandle - 1) (Z.lnot (alignof_ChunkHandle - 1)).

Definition immutableHeaderMatches (h : QueueHeader) (d : QueueDescriptor) : bool :=
  (qh_magic h =? kSubscriberQueueMagic) && (qh_version h =? kQueueLayoutVersion) &&
  (qh_header_size h =? sizeof_SubscriberQueueHeader) && (qh_segment_size h =? qd_segment_size d) &&
  (qh_queue_id h =? qd_queue_id d) && (qh_capacity h =? qd_capacity d) &&
  (qh_overflow_policy h =? OverflowPolicy_to_u16 (qd_overflow_policy d)) &&
  (qh_block_timeout_ms h =? qd_block_timeout_ms d).

Definition ringInvariantsHold (h : QueueHeader) : bool :=
  negb (qh_capacity h =? 0) && (qh_head h <? qh_capacity h) && (qh_tail h <? qh_capacity h) &&
  (qh_size h <=? qh_capacity h).

(** [SharedSubscriberQueue::requiredSegmentSize] *)
Definition requiredQueueSegmentSize (capacity : Z) : outcome Z :=
  if (capacity =? 0) || (kMaxSubscriberQueueDepth <? capacity) then Throw ex_invalid_argument else
  match checkedMultiply capacity sizeof_ChunkHandle with
  | None => Throw ex_overflow_error
  | Some slot_bytes =>
      match checkedAdd slotsOffset slot_bytes with
      | None => Throw ex_overflow_error
      | Some total => Ret total
      end
  end.

Definition validateDescriptor (d : QueueDescriptor) : outcome unit :=
  if negb (isValidSharedMemoryName (qd_shm_name d)) || (qd_queue_id d =? 0) ||
     negb (qd_layout_version d =? kQueueLayoutVersion) || (qd_capacity d =? 0) ||
     (kMaxSubscriberQueueDepth <? qd_capacity d) || negb (validOverflowPolicy (qd_overflow_policy d)) ||
     (qd_block_timeout_ms d =? 0)
  then Throw ex_invalid_argument
  else
    required ← requiredQueueSegmentSize (qd_capacity d);
    if negb (qd_segment_size d =? required) then Throw ex_invalid_argument else Ret tt.

(** ** Creation and opening *)

(** The process-local object around the shared one. *)
Record QueueClient := mkQueueClient {
  qc_descriptor : QueueDescriptor;
  qc_owner : bool;
  qc_attached : bool;
}.
#[export] Instance QueueClient_eta : Eta QueueClient := fun c =>
  mkQueueClient (qc_descriptor c) (qc_owner c) (qc_attached c).

(** [SubscriberQueueHeader{}] followed by the stores of [create]. *)
Definition fresh_header (d : QueueDescriptor) : QueueHeader :=
  mkQueueHeader kSubscriberQueueMagic kQueueLayoutVersion (wrap 16 sizeof_SubscriberQueueHeader)
    (qd_segment_size d) (qd_queue_id d) (qd_block_timeout_ms d) (qd_capacity d) 0 0 0 0 1 0
    (OverflowPolicy_to_u16 (qd_overflow_policy d)) 0 0 0 0 0 0 0 0 0.

(** The pthread objects [create] initialises, and the calls it makes in this order. *)
Inductive sync_object := MutexAttributes | QueueMutex | ConditionAttributes | QueueCondition.
#[export] Instance sync_object_eq_dec : EqDecision sync_object.
Proof. solve_decision. Defined.

Inductive sync_call :=
  | MutexattrInit | MutexattrSetpshared | MutexattrSetrobust | MutexInit
  | CondattrInit | CondattrSetpshared | CondattrSetclock | CondInit.

Definition initializes (call : sync_call) : option sync_object :=
  match call with
  | MutexattrInit => Some MutexAttributes
  | MutexInit => Some QueueMutex
  | CondattrInit => Some ConditionAttributes
  | CondInit => Some QueueCondition
  | _ => None
  end.

(** One call, which fails with [errors call]; the state is the list of initialised objects,
    which the [..._initialized] flags record. *)
Definition sync_init (errors : sync_call -> option Z) (call : sync_call) : cpp (list sync_object) unit :=
  match errors call with
  | Some errno => throw (ex_system_error errno)
  | None => modify (fun live => option_list (initializes call) ++ live)
  end.
Definition sync_destroy (object : sync_object) : cpp (list sync_object) unit :=
  modify (fun live => filter (fun o => o <> object) live).

Definition initialize_sync (errors : sync_call -> option Z) : cpp (list sync_object) unit :=
  for_each [MutexattrInit; MutexattrSetpshared; MutexattrSetrobust; MutexInit; CondattrInit;
            CondattrSetpshared; CondattrSetclock; CondInit] (sync_init errors).

(** The [catch] block. *)
Definition undo_sync : cpp (list sync_object) unit :=
  for_each [QueueCondition; QueueMutex; ConditionAttributes; MutexAttributes] (fun object =>
    live ← this; if bool_decide (object ∈ live) then sync_destroy object else mret tt).

(** [SharedSubscriberQueue::create]: [os] is the first failing system call of the region,
    [errors] says which pthread initialisations fail. *)
Definition create_queue (os : option Z) (errors : sync_call -> option Z) (d : QueueDescriptor)
    : cpp (list sync_object) (QueueClient * SharedQueue) :=
  lift (validateDescriptor d);;
  if negb (validateArguments (qd_shm_name d) (qd_segment_size d)) then throw ex_invalid_argument else
  match os with
  | Some errno => throw (ex_system_error errno)
  | None => fun live =>
      match initialize_sync errors live with
      | (Ret _, live) =>
          (sync_destroy ConditionAttributes;; sync_destroy MutexAttributes;;
           mret (mkQueueClient d true true,
                 mkSharedQueue (fresh_header d) (replicate (Z.to_nat (qd_capacity d)) empty_ChunkHandle))) live
      | (Throw e, live) => (undo_sync;; throw e) live
      | (Undef, live) => (Undef, live)
      end
  end.

(** The size of the object as [fstat] reports it. *)
Definition queue_object_size (q : SharedQueue) : Z :=
  slotsOffset + sizeof_ChunkHandle * Z.of_nat (length (sq_slots q)).

(** [SharedMemoryRegion::openReadWrite] of the object [q]. *)
Definition queue_region_open (os : option Z) (q : SharedQueue) (name : string) (expected_size : Z)
    : outcome unit :=
  if negb (validateArguments name expected_size) then Throw ex_invalid_argument else
  match os with
  | Some errno => Throw (ex_system_error errno)
  | None =>
      if negb (queue_object_size q =? expected_size) then Throw (ex_system_error EINVAL) else Ret tt
  end.

(** [SharedSubscriberQueue::open] *)
Definition open_queue (os : option Z) (lock : lock_result) (d : QueueDescriptor)
    : cpp SharedQueue QueueClient :=
  lift (validateDescriptor d);;
  q ← this;
  lift (queue_region_open os q (qd_shm_name d) (qd_segment_size d));;
  if negb (immutableHeaderMatches (sq_header q) d) then throw (ex_middleware InvalidSharedMemory) else
  locked ← PthreadLock lock;
  if negb locked then throw (ex_middleware SharedMemoryError) else
  h ← header_;
  if negb (ringInvariantsHold h) then throw (ex_middleware InvalidSharedMemory) else
  if negb (qh_closed h =? 0) || (qh_attachment_count h =? u32_max)
  then throw (ex_middleware QueueClosed) else
  set_header (fun h => h <| qh_attachment_count := wrap 32 (qh_attachment_count h + 1) |>);;
  mret (mkQueueClient d false true).

(** ** Ring accesses *)

(** [slots()[index]] *)
Definition slot (index : Z) : cpp SharedQueue ChunkHandle :=
  q ← this; or_undef (if 0 <=? index then sq_slots q !! Z.to_nat index else None).

(** [slots()[index] = handle] *)
Definition set_slot (index : Z) (handle : ChunkHandle) : cpp SharedQueue unit :=
  _ ← slot index; modify (fun q => q <| sq_slots := <[Z.to_nat index := handle]> (sq_slots q) |>).

(** [value % capacity] on [uint32_t]: undefined for a zero capacity. *)
Definition ring_mod (value capacity : Z) : cpp SharedQueue Z :=
  if capacity =? 0 then undefined else mret (value mod capacity).

(** [head = (head + 1U) % capacity; --size] *)
Definition advance_head : cpp SharedQueue unit :=
  h ← header_;
  next ← ring_mod (wrap 32 (qh_head h + 1)) (qh_capacity h);
  set_header (fun h => h <| qh_head := next |> <| qh_size := wrap 32 (qh_size h - 1) |>).

(** ** [enqueue] *)

(** The stores after space has been found, with the notification and its rollback.
    [notify] is [None] for a null callback, else the value it returns. *)
Definition append_slot (handle : ChunkHandle) (notify : option bool) (needs_notification : bool)
    (dropped : option ChunkHandle) (blocked : bool) (blocked_time_ns : Z)
    : cpp SharedQueue QueueEnqueueResult :=
  h ← header_;
  set_slot (qh_tail h) handle;;
  tail ← ring_mod (wrap 32 (qh_tail h + 1)) (qh_capacity h);
  set_header (fun h =>
    let size := wrap 32 (qh_size h + 1) in
    h <| qh_tail := tail |> <| qh_size := size |>
      <| qh_enqueued := wrap 64 (qh_enqueued h + 1) |> <| qh_max_size := Z.max (qh_max_size h) size |>);;
  match notify with
  | Some sent =>
      if needs_notification then
        if sent then mret (mkQueueEnqueueResult QueueAccepted dropped true blocked blocked_time_ns)
        else
          set_header (fun h =>
            h <| qh_tail := if qh_tail h =? 0 then wrap 32 (qh_capacity h - 1) else qh_tail h - 1 |>
              <| qh_size := wrap 32 (qh_size h - 1) |> <| qh_enqueued := wrap 64 (qh_enqueued h - 1) |>);;
          mret (mkQueueEnqueueResult QueueNotificationFailed None false blocked blocked_time_ns)
      else mret (mkQueueEnqueueResult QueueAccepted dropped false blocked blocked_time_ns)
  | None => mret (mkQueueEnqueueResult QueueAccepted dropped false blocked blocked_time_ns)
  end.

(** The wait loop: [None] means space was found or the queue closed, [Some status] that the
    loop returned from [enqueue]. *)
Fixpoint wait_for_space (wakeups : list wakeup) (expiry : SharedQueue -> SharedQueue) (elapsed : Z)
    : cpp SharedQueue (option QueueEnqueueStatus) :=
  h ← header_;
  if negb ((qh_size h =? qh_capacity h) && (qh_closed h =? 0)) then mret None else
  match wakeups with
  | [] =>
      modify expiry;;
      set_header (fun h => h <| qh_blocked_time_ns := wrap 64 (qh_blocked_time_ns h + elapsed) |>
        <| qh_block_timeouts := wrap 64 (qh_block_timeouts h + 1) |>);;
      mret (Some QueueTimedOut)
  | w :: wakeups =>
      modify (wk_others w);;
      recovered ← recoverConditionWaitOwnerDeath (wk_error w);
      if negb recovered then
        set_header (fun h => h <| qh_blocked_time_ns := wrap 64 (qh_blocked_time_ns h + elapsed) |>);;
        mret (Some QueueSynchronizationError)
      else wait_for_space wakeups expiry elapsed
  end.

(** The branch of [enqueue] for a full queue that neither policy of dropping applies to. *)
Definition block_for_space (env : wait_env) (block_timeout_ms : Z) (handle : ChunkHandle)
    (notify : option bool) : cpp SharedQueue QueueEnqueueResult :=
  let deadline := monotonicDeadline (we_clock env) block_timeout_ms in
  let elapsed := elapsedNanoseconds (we_start env) (we_end env) in
  set_header (fun h => h <| qh_blocked_count := wrap 64 (qh_blocked_count h + 1) |>);;
  failed ← wait_for_space (we_wakeups env deadline) (we_expiry env) elapsed;
  match failed with
  | Some status => mret (mkQueueEnqueueResult status None false true elapsed)
  | None =>
      set_header (fun h => h <| qh_blocked_time_ns := wrap 64 (qh_blocked_time_ns h + elapsed) |>);;
      h ← header_;
      if negb (qh_closed h =? 0) then mret (mkQueueEnqueueResult QueueClosedStatus None false true elapsed)
      else append_slot handle notify (qh_size h =? 0) None true elapsed
  end.

Definition enqueue (lock : lock_result) (env : wait_env) (handle : ChunkHandle) (notify : option bool)
    : cpp SharedQueue QueueEnqueueResult :=
  locked ← PthreadLock lock;
  if negb locked then mret (mkQueueEnqueueResult QueueSynchronizationError None false false 0) else
  h ← header_;
  if negb (qh_closed h =? 0) then mret (mkQueueEnqueueResult QueueClosedStatus None false false 0) else
  let needs_notification := qh_size h =? 0 in
  if negb (qh_size h =? qh_capacity h) then append_slot handle notify needs_notification None false 0 else
  match OverflowPolicy_of_u16 (qh_overflow_policy h) with
  | DropNewest =>
      set_header (fun h => h <| qh_dropped_newest := wrap 64 (qh_dropped_newest h + 1) |>);;
      mret (mkQueueEnqueueResult QueueDroppedNewest None false false 0)
  | DropOldest =>
      dropped ← slot (qh_head h);
      advance_head;;
      set_header (fun h => h <| qh_dropped_oldest := wrap 64 (qh_dropped_oldest h + 1) |>);;
      append_slot handle notify false (Some dropped) false 0
  | _ => block_for_space env (qh_block_timeout_ms h) handle notify
  end.

(** ** The other methods *)

Definition tryDequeue (lock : lock_result) : cpp SharedQueue (option ChunkHandle) :=
  locked ← PthreadLock lock;
  h ← header_;
  if negb locked || (qh_size h =? 0) then mret None else
  handle ← slot (qh_head h);
  advance_head;;
  set_header (fun h => h <| qh_dequeued := wrap 64 (qh_dequeued h + 1) |>);;
  mret (Some handle).

Definition peek (lock : lock_result) : cpp SharedQueue (option ChunkHandle) :=
  locked ← PthreadLock lock;
  h ← header_;
  if negb locked || (qh_size h =? 0) then mret None else
  handle ← slot (qh_head h); mret (Some handle).

(** [while (size != 0U) ...]; [fuel] bounds the iterations by the size the loop starts with. *)
Fixpoint drain_loop (fuel : nat) : cpp SharedQueue (list ChunkHandle) :=
  h ← header_;
  if qh_size h =? 0 then mret [] else
  match fuel with
  | O => undefined
  | S fuel =>
      handle ← slot (qh_head h);
      advance_head;;
      rest ← drain_loop fuel;
      mret (handle :: rest)
  end.

Definition drain_all : cpp SharedQueue (list ChunkHandle) :=
  h ← header_;
  handles ← drain_loop (Z.to_nat (qh_size h));
  set_header (fun h => h <| qh_tail := qh_head h |>);;
  mret handles.

Definition drain (lock : lock_result) : cpp SharedQueue (list ChunkHandle) :=
  locked ← PthreadLock lock;
  if negb locked then throw (ex_middleware SharedMemoryError) else drain_all.

Definition closeAndDrain (lock : lock_result) : cpp SharedQueue (list ChunkHandle) :=
  locked ← PthreadLock lock;
  if negb locked then throw (ex_middleware SharedMemoryError) else
  set_header (fun h => h <| qh_closed := 1 |>);;
  drain_all.

(** The compaction loop of [discardPool], from position [index] on; returns [kept]. *)
Fixpoint discard_loop (remaining : nat) (pool_id original_head index kept : Z) : cpp SharedQueue Z :=
  match remaining with
  | O => mret kept
  | S remaining =>
      h ← header_;
      from ← ring_mod (wrap 32 (original_head + index)) (qh_capacity h);
      handle ← slot from;
      if negb (pool_id =? 0) && negb (ch_pool_id handle =? pool_id) then
        to ← ring_mod (wrap 32 (original_head + kept)) (qh_capacity h);
        set_slot to handle;;
        discard_loop remaining pool_id original_head (index + 1) (kept + 1)
      else discard_loop remaining pool_id original_head (index + 1) kept
  end.

Definition discardPool (lock : lock_result) (pool_id : Z) : cpp SharedQueue unit :=
  locked ← PthreadLock lock;
  if negb locked then mret tt else
  h ← header_;
  kept ← discard_loop (Z.to_nat (qh_size h)) pool_id (qh_head h) 0 0;
  tail ← ring_mod (wrap 32 (qh_head h + kept)) (qh_capacity h);
  let original_head := qh_head h in
  set_header (fun h => h <| qh_head := original_head |> <| qh_tail := tail |> <| qh_size := kept |>
    <| qh_peer_resets := wrap 64 (qh_peer_resets h + 1) |>).

(** [SharedSubscriberQueue::recoverAndClose], which catches every exception: [lock] is the
    result of [pthread_mutex_trylock]. *)
Definition recoverAndClose (os : option Z) (lock : lock_result) (d : QueueDescriptor)
    : cpp SharedQueue ErrorCode :=
  q ← this;
  match (validateDescriptor d;; queue_region_open os q (qd_shm_name d) (qd_segment_size d)) with
  | Throw (ex_system_error errno) => mret (if errno =? ENOENT then Ok else SharedMemoryError)
  | Throw _ => mret InvalidSharedMemory
  | Undef => undefined
  | Ret _ =>
      if negb (immutableHeaderMatches (sq_header q) d) then mret InvalidSharedMemory else
      locked ← PthreadLock lock;
      if negb locked then mret SharedMemoryError else
      set_header (fun h => h <| qh_head := 0 |> <| qh_tail := 0 |> <| qh_size := 0 |> <| qh_closed := 1 |>
        <| qh_peer_resets := wrap 64 (qh_peer_resets h + 1) |>);;
      mret Ok
  end.

Definition abandonMutexForTesting (lock : lock_result) (corrupt_invariants : bool) : cpp SharedQueue bool :=
  match lock with
  | LockAcquired =>
      (if corrupt_invariants then
         set_header (fun h => h <| qh_head := qh_capacity h |> <| qh_tail := qh_capacity h |>
           <| qh_size := qh_capacity h |>)
       else mret tt);;
      mret true
  | _ => mret false
  end.

Definition stats (lock : lock_result) : cpp SharedQueue QueueStats :=
  locked ← PthreadLock lock;
  if negb locked then mret (mkQueueStats 0 0 0 0 0 0 0 0 0 0 0) else
  h ← header_;
  mret (mkQueueStats (qh_enqueued h) (qh_dequeued h) (qh_dropped_newest h) (qh_dropped_oldest h)
          (qh_block_timeouts h) (qh_blocked_count h) (qh_blocked_time_ns h)
          (qh_owner_death_recoveries h) (qh_peer_resets h) (qh_size h) (qh_max_size h)).

Definition close (client : QueueClient) (lock : lock_result) : cpp SharedQueue unit :=
  if negb (qc_attached client) then mret tt else
  locked ← PthreadLock lock;
  if negb locked then mret tt else set_header (fun h => h <| qh_closed := 1 |>).

(** [detach] returns the client, no longer attached, and whether it destroys the mutex. *)
Definition detach (client : QueueClient) (lock : lock_result) : cpp SharedQueue (QueueClient * bool) :=
  if negb (qc_attached client) then mret (client, false) else
  locked ← PthreadLock lock;
  h ← header_;
  let detached := client <| qc_attached := false |> in
  if negb locked || (qh_attachment_count h =? 0) then mret (detached, false) else
  set_header (fun h => h <| qh_attachment_count := wrap 32 (qh_attachment_count h - 1) |>);;
  h ← header_;
  mret (detached, qh_attachment_count h =? 0).

(** [~SharedSubscriberQueue] *)
Definition destroy_queue (client : QueueClient) (close_lock detach_lock : lock_result)
    : cpp SharedQueue (QueueClient * bool) :=
  (if qc_owner client then close client close_lock else mret tt);;
  detach client detach_lock.

(** ** Invariants *)

(** What every process relies on to stay inside the slots: checked by [open_queue], and
    restored from anything by an owner-death recovery. *)
Record ring_safe (q : SharedQueue) : Prop := {
  rs_capacity : 0 < qh_capacity (sq_header q) <= kMaxSubscriberQueueDepth;
  rs_slots : Z.of_nat (length (sq_slots q)) = qh_capacity (sq_header q);
  rs_head : 0 <= qh_head (sq_header q) < qh_capacity (sq_header q);
  rs_tail : 0 <= qh_tail (sq_header q) < qh_capacity (sq_header q);
  rs_size : 0 <= qh_size (sq_header q) <= qh_capacity (sq_header q);
}.

(** The invariant the methods keep. *)
Record queue_wf (q : SharedQueue) : Prop := {
  qw_safe : ring_safe q;
  qw_tail : qh_tail (sq_header q) = (qh_head (sq_header q) + qh_size (sq_header q)) mod qh_capacity (sq_header q);
  qw_max : qh_size (sq_header q) <= qh_max_size (sq_header q) <= qh_capacity (sq_header q);
}.

(** The handle at ring position [k] from the head. *)
Definition ring_at (q : SharedQueue) (k : nat) : ChunkHandle :=
  default empty_ChunkHandle
    (sq_slots q !! Z.to_nat ((qh_head (sq_header q) + Z.of_nat k) mod qh_capacity (sq_header q))).

(** The abstraction: the queued handles, oldest first. *)
Definition contents (q : SharedQueue) : list ChunkHandle :=
  map (ring_at q) (seq 0 (Z.to_nat (qh_size (sq_header q)))).

Definition closed (q : SharedQueue) : bool := negb (qh_closed (sq_header q) =? 0).
Definition capacity (q : SharedQueue) : nat := Z.to_nat (qh_capacity (sq_header q)).

(** ** Ring arithmetic *)

Lemma mod_shift_inj a c j k : 0 < c -> 0 <= j < c -> 0 <= k < c -> (a + j) mod c = (a + k) mod c -> j = k.
Proof.
  intros Hc Hj Hk Heq. pose proof (Z.div_mod (a + j) c ltac:(lia)). pose proof (Z.div_mod (a + k) c ltac:(lia)).
  set (x := (a + j) / c) in *. set (y := (a + k) / c) in *. clearbody x y.
  assert (x = y) by nia. subst. lia.
Qed.

Lemma mod_add_mod_l a b c : 0 < c -> (a mod c + b) mod c = (a + b) mod c.
Proof. intros. rewrite Z.add_mod_idemp_l; lia. Qed.

Lemma length_contents q : length (contents q) = Z.to_nat (qh_size (sq_header q)).
Proof. unfold contents. by rewrite length_map, length_seq. Qed.

Lemma contents_eq q l : length l = Z.to_nat (qh_size (sq_header q)) ->
  (forall k h, l !! k = Some h -> ring_at q k = h) -> contents q = l.
Proof.
  intros Hlen Hat. apply list_eq. intros k. unfold contents. rewrite list_lookup_fmap.
  destruct (decide (k < length l)%nat) as [Hk|Hk].
  - rewrite lookup_seq_lt by lia. simpl. destruct (lookup_lt_is_Some_2 l k Hk) as [h Hh].
    rewrite Hh. f_equal. by apply Hat.
  - rewrite (lookup_ge_None_2 l), (lookup_ge_None_2 (seq _ _)); [done | rewrite length_seq; lia | lia].
Qed.

Lemma lookup_contents q k : (k < Z.to_nat (qh_size (sq_header q)))%nat -> contents q !! k = Some (ring_at q k).
Proof. intros. unfold contents. by rewrite list_lookup_fmap, lookup_seq_lt. Qed.

Lemma lookup_contents_inv q k h : contents q !! k = Some h ->
  (k < Z.to_nat (qh_size (sq_header q)))%nat /\ ring_at q k = h.
Proof.
  intros Hk. pose proof (lookup_lt_Some _ _ _ Hk) as Hlt. rewrite length_contents in Hlt.
  rewrite lookup_contents in Hk by done. by simplify_eq.
Qed.

Lemma contents_nil q : qh_size (sq_header q) = 0 -> contents q = [].
Proof. intros Hs. unfold contents. by rewrite Hs. Qed.

(** ** The primitive steps *)

Section steps.
Context (q : SharedQueue) (Hsafe : ring_safe q).

Lemma slot_run k : slot ((qh_head (sq_header q) + Z.of_nat k) mod qh_capacity (sq_header q)) q =
  (Ret (ring_at q k), q).
Proof.
  pose proof (rs_capacity _ Hsafe). pose proof (rs_slots _ Hsafe).
  pose proof (Z.mod_pos_bound (qh_head (sq_header q) + Z.of_nat k) (qh_capacity (sq_header q)) ltac:(lia)).
  unfold slot, ring_at. unfold_cpp. rewrite (proj2 (Z.leb_le _ _)) by lia.
  destruct (lookup_lt_is_Some_2 (sq_slots q)
    (Z.to_nat ((qh_head (sq_header q) + Z.of_nat k) mod qh_capacity (sq_header q)))) as [h Hh]; [lia|].
  by rewrite Hh.
Qed.

Lemma slot_head_run : slot (qh_head (sq_header q)) q = (Ret (ring_at q 0), q).
Proof.
  rewrite <- (slot_run 0), Z.add_0_r, Z.mod_small by apply Hsafe. done.
Qed.

Definition popped : SharedQueue :=
  q <| sq_header := sq_header q
    <| qh_head := (qh_head (sq_header q) + 1) mod qh_capacity (sq_header q) |>
    <| qh_size := qh_size (sq_header q) - 1 |> |>.

Lemma advance_head_run : 0 < qh_size (sq_header q) -> advance_head q = (Ret tt, popped).
Proof.
  intros Hsz. pose proof (rs_capacity _ Hsafe). pose proof (rs_head _ Hsafe). pose proof (rs_size _ Hsafe).
  unfold advance_head, ring_mod, header_, set_header, kMaxSubscriberQueueDepth in *. unfold_cpp.
  rewrite (proj2 (Z.eqb_neq _ _)) by lia. rewrite !wrap_small by (unfold fits; lia). done.
Qed.

Lemma popped_safe : 0 < qh_size (sq_header q) -> ring_safe popped.
Proof.
  intros Hsz. destruct Hsafe. split; simpl; auto; [|lia]. apply Z.mod_pos_bound. lia.
Qed.

Lemma popped_contents : 0 < qh_size (sq_header q) -> contents q = ring_at q 0 :: contents popped.
Proof.
  intros Hsz. pose proof (rs_capacity _ Hsafe). apply contents_eq.
  - simpl. rewrite length_contents. simpl. lia.
  - intros [|k] h Hk; simplify_eq/=; [done|].
    apply lookup_contents_inv in Hk as [_ <-]. unfold ring_at. simpl. do 3 f_equal.
    rewrite mod_add_mod_l by lia. f_equal. lia.
Qed.

Lemma popped_wf : queue_wf q -> 0 < qh_size (sq_header q) -> queue_wf popped.
Proof.
  intros [_ Ht Hm] Hsz. pose proof (rs_capacity _ Hsafe). split; [by apply popped_safe| |simpl; lia].
  simpl. rewrite Ht, mod_add_mod_l by lia. f_equal. lia.
Qed.

(** Appending at the tail. *)
Definition pushed (handle : ChunkHandle) : SharedQueue :=
  mkSharedQueue
    (sq_header q
      <| qh_tail := (qh_tail (sq_header q) + 1) mod qh_capacity (sq_header q) |>
      <| qh_size := qh_size (sq_header q) + 1 |>
      <| qh_enqueued := wrap 64 (qh_enqueued (sq_header q) + 1) |>
      <| qh_max_size := Z.max (qh_max_size (sq_header q)) (qh_size (sq_header q) + 1) |>)
    (<[Z.to_nat (qh_tail (sq_header q)) := handle]> (sq_slots q)).

Lemma pushed_safe handle : qh_size (sq_header q) < qh_capacity (sq_header q) -> ring_safe (pushed handle).
Proof.
  intros Hsz. destruct Hsafe. split; simpl; auto; rewrite ?length_insert; auto; [|lia].
  apply Z.mod_pos_bound. lia.
Qed.

Lemma pushed_contents handle : queue_wf q -> qh_size (sq_header q) < qh_capacity (sq_header q) ->
  contents (pushed handle) = contents q ++ [handle].
Proof.
  intros [_ Ht _] Hsz. pose proof (rs_capacity _ Hsafe). pose proof (rs_slots _ Hsafe).
  pose proof (rs_size _ Hsafe). pose proof (rs_tail _ Hsafe). apply contents_eq.
  - rewrite length_app, length_contents. simpl. lia.
  - intros k h Hk. unfold ring_at. simpl. apply lookup_app_Some in Hk as [Hk | [Hge Hk]].
    + apply lookup_contents_inv in Hk as [Hlt <-]. unfold ring_at.
      rewrite list_lookup_insert_ne; [done|]. rewrite Ht. intros Heq.
      apply Z2Nat.inj in Heq; [|apply Z.mod_pos_bound; lia ..].
      apply mod_shift_inj in Heq; lia.
    + rewrite length_contents in *. apply list_lookup_singleton_Some in Hk as [Hk <-].
      replace (Z.of_nat k) with (qh_size (sq_header q)) by lia. rewrite <- Ht.
      by rewrite list_lookup_insert_eq by lia.
Qed.

Lemma pushed_wf handle : queue_wf q -> qh_size (sq_header q) < qh_capacity (sq_header q) ->
  queue_wf (pushed handle).
Proof.
  intros [_ Ht Hm] Hsz. pose proof (rs_capacity _ Hsafe). pose proof (rs_size _ Hsafe).
  split; [by apply pushed_safe| |simpl; lia]. simpl. rewrite Ht, mod_add_mod_l by lia. f_equal. lia.
Qed.
End steps.

(** Changes outside the ring. *)
Definition same_ring (q q' : SharedQueue) : Prop :=
  sq_slots q' = sq_slots q /\ qh_capacity (sq_header q') = qh_capacity (sq_header q) /\
  qh_head (sq_header q') = qh_head (sq_header q) /\ qh_tail (sq_header q') = qh_tail (sq_header q) /\
  qh_size (sq_header q') = qh_size (sq_header q) /\ qh_max_size (sq_header q') = qh_max_size (sq_header q).

Lemma same_ring_safe q q' : same_ring q q' -> ring_safe q -> ring_safe q'.
Proof. intros (? & ? & ? & ? & ? & ?) []. split; congruence. Qed.

Lemma same_ring_wf q q' : same_ring q q' -> queue_wf q -> queue_wf q'.
Proof.
  intros Hsame [Hs Ht Hm]. split; [by eapply same_ring_safe| |];
    destruct Hsame as (? & ? & ? & ? & ? & ?); [congruence | lia].
Qed.

Lemma same_ring_contents q q' : same_ring q q' -> contents q' = contents q.
Proof.
  intros (Hsl & Hc & Hh & _ & Hsz & _). unfold contents, ring_at. by rewrite Hsl, Hc, Hh, Hsz.
Qed.

(** ** Locking and recovery *)

Definition lock_ok (r : lock_result) : bool :=
  match r with LockAcquired => true | LockOwnerDead consistent => consistent | _ => false end.

Definition reset_ring (q : SharedQueue) : SharedQueue :=
  q <| sq_header := sq_header q <| qh_head := 0 |> <| qh_tail := 0 |> <| qh_size := 0 |>
    <| qh_owner_death_recoveries := wrap 64 (qh_owner_death_recoveries (sq_header q) + 1) |> |>.

(** The queue as the constructor of [PthreadLock] leaves it. *)
Definition lock_state (r : lock_result) (q : SharedQueue) : SharedQueue :=
  match r with LockOwnerDead _ => reset_ring q | _ => q end.

(** The part of the object a dead owner cannot have broken: the layout, and the high-water
    mark within the capacity. *)
Definition queue_memory (q : SharedQueue) : Prop :=
  0 < qh_capacity (sq_header q) <= kMaxSubscriberQueueDepth /\
  Z.of_nat (length (sq_slots q)) = qh_capacity (sq_header q) /\
  0 <= qh_max_size (sq_header q) <= qh_capacity (sq_header q).

Lemma PthreadLock_run r q : PthreadLock r q = (Ret (lock_ok r), lock_state r q).
Proof. by destruct r. Qed.

Lemma queue_wf_memory q : queue_wf q -> queue_memory q.
Proof. intros [[] _ ?]. split_and!; auto; lia. Qed.

Lemma reset_ring_wf q : queue_memory q -> queue_wf (reset_ring q).
Proof. intros (? & ? & ?). split; [split; simpl; auto; lia | simpl; by rewrite Z.mod_0_l by lia | simpl; lia]. Qed.

Lemma lock_state_wf r q : queue_wf q -> queue_wf (lock_state r q).
Proof. intros. destruct r; simpl; auto using reset_ring_wf, queue_wf_memory. Qed.

Lemma lock_state_contents r q : contents (lock_state r q) =
  match r with LockOwnerDead _ => [] | _ => contents q end.
Proof. by destruct r. Qed.

(** ** Counters *)

(** Handles accepted, minus those dequeued, dropped as oldest and still queued: what the
    counters of [QueueStats] balance to, in the 64-bit arithmetic they are kept in. *)
Definition queue_balance (q : SharedQueue) : Z :=
  let h := sq_header q in
  wrap 64 (qh_enqueued h - qh_dequeued h - qh_dropped_oldest h - qh_size h).

Lemma wrap_congr w a b k : 0 <= w -> a = b + k * 2 ^ w -> wrap w a = wrap w b.
Proof. intros ? ->. unfold wrap. apply Z.mod_add. lia. Qed.

Lemma wrap_exists w z : 0 <= w -> exists k, wrap w z = z + k * 2 ^ w.
Proof. intros. exists (- (z / 2 ^ w)). unfold wrap. rewrite Z.mod_eq by lia. lia. Qed.

Lemma pushed_balance q handle : queue_balance (pushed q handle) = queue_balance q.
Proof.
  unfold queue_balance. simpl. destruct (wrap_exists 64 (qh_enqueued (sq_header q) + 1)) as [k ->]; [lia|].
  apply wrap_congr with k; lia.
Qed.

Lemma popped_balance q q' : ring_safe q ->
  qh_enqueued (sq_header q') = qh_enqueued (sq_header q) ->
  qh_size (sq_header q') = qh_size (sq_header q) - 1 ->
  (qh_dequeued (sq_header q') = wrap 64 (qh_dequeued (sq_header q) + 1) /\
     qh_dropped_oldest (sq_header q') = qh_dropped_oldest (sq_header q) \/
   qh_dequeued (sq_header q') = qh_dequeued (sq_header q) /\
     qh_dropped_oldest (sq_header q') = wrap 64 (qh_dropped_oldest (sq_header q) + 1)) ->
  queue_balance q' = queue_balance q.
Proof.
  intros _ He Hz Hd. unfold queue_balance. cbv zeta. rewrite He, Hz. destruct Hd as [[-> ->] | [-> ->]].
  - destruct (wrap_exists 64 (qh_dequeued (sq_header q) + 1)) as [k ->]; [lia|]. apply wrap_congr with (- k); lia.
  - destruct (wrap_exists 64 (qh_dropped_oldest (sq_header q) + 1)) as [k ->]; [lia|].
    apply wrap_congr with (- k); lia.
Qed.

(** ** [tryDequeue], [peek] *)

Lemma head_contents q : ring_safe q ->
  list.head (contents q) = if qh_size (sq_header q) =? 0 then None else Some (ring_at q 0).
Proof.
  intros Hs. pose proof (rs_size _ Hs). case_match; bools; [by rewrite contents_nil|].
  by rewrite (popped_contents q Hs) by lia.
Qed.

Lemma tryDequeue_spec r q : queue_wf q ->
  exists q', tryDequeue r q = (Ret (if lock_ok r then list.head (contents (lock_state r q)) else None), q') /\
    queue_wf q' /\ closed q' = closed q /\ queue_balance q' = queue_balance (lock_state r q) /\
    contents q' = if lock_ok r then tail (contents (lock_state r q)) else contents (lock_state r q).
Proof.
  intros Hwf. pose proof (lock_state_wf r q Hwf) as Hwf0. pose proof (qw_safe _ Hwf0) as Hs.
  assert (Hcl : closed (lock_state r q) = closed q) by (by destruct r).
  unfold tryDequeue, header_, set_header. unfold_cpp. rewrite PthreadLock_run.
  set (q0 := lock_state r q) in *. rewrite (head_contents q0) by done. pose proof (rs_size _ Hs).
  destruct (lock_ok r); cbn [negb orb]; [|by exists q0].
  destruct (qh_size (sq_header q0) =? 0) eqn:Hz; bools.
  - exists q0. split_and!; auto. by rewrite contents_nil.
  - rewrite slot_head_run, advance_head_run by (done || lia). eexists. split; [done|].
    assert (Hsame : same_ring (popped q0) (popped q0 <| sq_header := sq_header (popped q0)
      <| qh_dequeued := wrap 64 (qh_dequeued (sq_header (popped q0)) + 1) |> |>)) by (by split_and!).
    split_and!; [eapply same_ring_wf; [exact Hsame | apply popped_wf; auto; lia] | done | |].
    { apply popped_balance; auto. }
    rewrite (same_ring_contents _ _ Hsame), (popped_contents q0 Hs) by lia. done.
Qed.

Lemma peek_spec r q : queue_wf q ->
  peek r q = (Ret (if lock_ok r then list.head (contents (lock_state r q)) else None), lock_state r q).
Proof.
  intros Hwf. pose proof (qw_safe _ (lock_state_wf r q Hwf)) as Hs.
  unfold peek, header_. unfold_cpp. rewrite PthreadLock_run, (head_contents (lock_state r q)) by done.
  destruct (lock_ok r); cbn [negb orb]; [|done]. case_match; [done|]. by rewrite slot_head_run.
Qed.

(** ** [drain], [closeAndDrain] *)

Lemma drain_loop_spec n q : queue_wf q -> Z.to_nat (qh_size (sq_header q)) = n ->
  exists q', drain_loop n q = (Ret (contents q), q') /\ queue_wf q' /\ qh_size (sq_header q') = 0 /\
    closed q' = closed q.
Proof.
  revert q. induction n as [|n IH]; intros q Hwf Hn; pose proof (qw_safe _ Hwf) as Hs;
    pose proof (rs_size _ Hs); cbn [drain_loop]; unfold header_; unfold_cpp.
  - rewrite (proj2 (Z.eqb_eq _ _)) by lia. exists q. rewrite contents_nil by lia. split_and!; auto. lia.
  - rewrite (proj2 (Z.eqb_neq _ _)) by lia.
    rewrite slot_head_run, advance_head_run by (done || lia).
    destruct (IH (popped q)) as (q' & Hrun & Hwf' & Hz & Hcl); [apply popped_wf; auto; lia | simpl; lia |].
    rewrite Hrun. exists q'. rewrite (popped_contents q) by (done || lia). by split_and!.
Qed.

Lemma drain_all_spec q : queue_wf q ->
  exists q', drain_all q = (Ret (contents q), q') /\ queue_wf q' /\ contents q' = [] /\ closed q' = closed q.
Proof.
  intros Hwf. destruct (drain_loop_spec _ q Hwf eq_refl) as (q' & Hrun & Hwf' & Hz & Hcl).
  unfold drain_all, header_, set_header. unfold_cpp. rewrite Hrun. eexists. split; [done|].
  destruct Hwf' as [[] ? ?]. split_and!; [|by apply contents_nil | done].
  split; [split; simpl; auto; lia | simpl; rewrite Hz, Z.add_0_r, Z.mod_small; lia | simpl; lia].
Qed.

Lemma drain_spec r q : queue_wf q -> lock_ok r = true ->
  exists q', drain r q = (Ret (contents (lock_state r q)), q') /\ queue_wf q' /\ contents q' = [] /\
    closed q' = closed q.
Proof.
  intros Hwf Hr. unfold drain. unfold_cpp. rewrite PthreadLock_run, Hr. cbn [negb].
  destruct (drain_all_spec _ (lock_state_wf r q Hwf)) as (q' & ? & ? & ? & Hcl).
  exists q'. split_and!; auto. rewrite Hcl. by destruct r.
Qed.

Lemma closeAndDrain_spec r q : queue_wf q -> lock_ok r = true ->
  exists q', closeAndDrain r q = (Ret (contents (lock_state r q)), q') /\ queue_wf q' /\ contents q' = [] /\
    closed q' = true.
Proof.
  intros Hwf Hr. unfold closeAndDrain, set_header. unfold_cpp. rewrite PthreadLock_run, Hr. cbn [negb].
  set (q0 := lock_state r q). set (q1 := q0 <| sq_header := sq_header q0 <| qh_closed := 1 |> |>).
  assert (Hsame : same_ring q0 q1) by (by split_and!).
  destruct (drain_all_spec q1) as (q' & Hrun & ? & ? & Hcl);
    [eapply same_ring_wf; [exact Hsame | by apply lock_state_wf]|].
  exists q'. rewrite <- (same_ring_contents _ _ Hsame). split_and!; auto.
Qed.

(** ** [discardPool] *)

Definition keeps (pool_id : Z) (h : ChunkHandle) : bool :=
  negb (pool_id =? 0) && negb (ch_pool_id h =? pool_id).

Lemma ring_index_small q k : ring_safe q -> (k <= capacity q)%nat ->
  wrap 32 (qh_head (sq_header q) + Z.of_nat k) = qh_head (sq_header q) + Z.of_nat k.
Proof.
  intros Hs Hk. pose proof (rs_capacity _ Hs). pose proof (rs_head _ Hs).
  unfold capacity, kMaxSubscriberQueueDepth in *. apply wrap_small. unfold fits. lia.
Qed.

(** Storing at ring position [k]. *)
Definition stored_at (q : SharedQueue) (k : nat) (handle : ChunkHandle) : SharedQueue :=
  q <| sq_slots :=
    <[Z.to_nat ((qh_head (sq_header q) + Z.of_nat k) mod qh_capacity (sq_header q)) := handle]> (sq_slots q) |>.

Lemma set_slot_run q k handle : ring_safe q ->
  set_slot ((qh_head (sq_header q) + Z.of_nat k) mod qh_capacity (sq_header q)) handle q =
    (Ret tt, stored_at q k handle).
Proof. intros Hs. unfold set_slot, mbind, cpp_bind. by rewrite slot_run. Qed.

Lemma stored_at_safe q k handle : ring_safe q -> ring_safe (stored_at q k handle).
Proof. intros []. split; simpl; auto. by rewrite length_insert. Qed.

Lemma ring_at_stored q k handle j : ring_safe q -> (k < capacity q)%nat -> (j < capacity q)%nat ->
  ring_at (stored_at q k handle) j = if decide (j = k) then handle else ring_at q j.
Proof.
  intros Hs Hk Hj. pose proof (rs_capacity _ Hs). pose proof (rs_slots _ Hs). unfold capacity in *.
  assert (Hb : forall i, 0 <= (qh_head (sq_header q) + Z.of_nat i) mod qh_capacity (sq_header q) <
    qh_capacity (sq_header q)) by (intros; apply Z.mod_pos_bound; lia).
  unfold ring_at. simpl. case_decide as Hjk.
  - subst. pose proof (Hb k). by rewrite list_lookup_insert_eq by lia.
  - rewrite list_lookup_insert_ne; [done|]. intros Heq. pose proof (Hb k). pose proof (Hb j).
    apply Z2Nat.inj in Heq; [|lia|lia]. apply mod_shift_inj in Heq; lia.
Qed.

Lemma discard_loop_spec pool_id (l : list ChunkHandle) n i q :
  ring_safe q -> (length l <= capacity q)%nat -> (i + n = length l)%nat ->
  (forall j h, l !! j = Some h -> (i <= j)%nat -> ring_at q j = h) ->
  (forall j h, filter (fun h => keeps pool_id h = true) (take i l) !! j = Some h -> ring_at q j = h) ->
  exists q', discard_loop n pool_id (qh_head (sq_header q)) (Z.of_nat i)
      (Z.of_nat (length (filter (fun h => keeps pool_id h = true) (take i l)))) q =
      (Ret (Z.of_nat (length (filter (fun h => keeps pool_id h = true) l))), q') /\
    sq_header q' = sq_header q /\ length (sq_slots q') = length (sq_slots q) /\
    forall j h, filter (fun h => keeps pool_id h = true) l !! j = Some h -> ring_at q' j = h.
Proof.
  revert i q. induction n as [|n IH]; intros i q Hs Hlen Hn Hrest Hkept.
  - rewrite take_ge in * by lia. exists q. by split_and!.
  - destruct (lookup_lt_is_Some_2 l i) as [h Hh]; [lia|].
    pose proof (rs_capacity _ Hs). set (kept := filter (fun h => keeps pool_id h = true) (take i l)) in *.
    assert (Hk : (length kept <= i)%nat)
      by (unfold kept; etrans; [apply length_filter | rewrite length_take; lia]).
    assert (Hi : (i < capacity q)%nat) by lia.
    cbn [discard_loop]. unfold header_, ring_mod. unfold_cpp. rewrite (proj2 (Z.eqb_neq _ _)) by lia.
    rewrite ring_index_small, slot_run, (Hrest i h) by (done || lia).
    assert (Hsnoc : filter (fun h => keeps pool_id h = true) (take (S i) l) =
      kept ++ filter (fun h => keeps pool_id h = true) [h])
      by (rewrite (take_S_r _ _ _ Hh), list.filter_app; done).
    rewrite filter_cons, filter_nil in Hsnoc. fold (keeps pool_id h).
    destruct (keeps pool_id h) eqn:Hkeep.
    + rewrite ring_index_small, set_slot_run by (done || lia).
      rewrite decide_True in Hsnoc by done.
      destruct (IH (S i) (stored_at q (length kept) h)) as (q' & Hrun & Hh' & Hsl & Hat);
        [by apply stored_at_safe | done | lia | | |].
      * intros j h' Hj Hij. pose proof (lookup_lt_Some _ _ _ Hj). rewrite ring_at_stored by (done || lia).
        rewrite decide_False by lia. apply Hrest; [done|lia].
      * intros j h'. rewrite Hsnoc. intros Hj.
        pose proof (lookup_lt_Some _ _ _ Hj) as Hlt. rewrite length_app in Hlt. simpl in Hlt.
        rewrite ring_at_stored by (done || lia). apply lookup_app_Some in Hj as [Hj | [Hge Hj]].
        -- pose proof (lookup_lt_Some _ _ _ Hj). rewrite decide_False by lia. by apply Hkept.
        -- apply list_lookup_singleton_Some in Hj as [? <-]. by rewrite decide_True by lia.
      * rewrite Hsnoc, length_app in Hrun. simpl in Hrun.
        replace (Z.of_nat (length kept + 1)) with (Z.of_nat (length kept) + 1) in Hrun by lia.
        replace (Z.of_nat (S i)) with (Z.of_nat i + 1) in Hrun by lia.
        exists q'. rewrite Hrun. simpl in *. rewrite length_insert in Hsl. by split_and!.
    + rewrite decide_False, app_nil_r in Hsnoc by done.
      destruct (IH (S i) q) as (q' & Hrun & Hh' & Hsl & Hat); [done | done | lia | | |].
      * intros j h' Hj Hij. apply Hrest; [done|lia].
      * by rewrite Hsnoc.
      * rewrite Hsnoc in Hrun. replace (Z.of_nat (S i)) with (Z.of_nat i + 1) in Hrun by lia.
        exists q'. by split_and!.
Qed.

Lemma discardPool_spec r pool_id q : queue_wf q -> lock_ok r = true ->
  exists q', discardPool r pool_id q = (Ret tt, q') /\ queue_wf q' /\ closed q' = closed q /\
    contents q' = filter (fun h => keeps pool_id h = true) (contents (lock_state r q)).
Proof.
  intros Hwf Hr. unfold discardPool, header_, set_header. unfold_cpp. rewrite PthreadLock_run, Hr. cbn [negb].
  assert (Hcl : closed (lock_state r q) = closed q) by (by destruct r).
  pose proof (lock_state_wf r q Hwf) as Hwf0. set (q0 := lock_state r q) in *. clearbody q0.
  pose proof (qw_safe _ Hwf0) as Hs. pose proof (rs_size _ Hs). pose proof (rs_capacity _ Hs).
  pose proof (length_contents q0) as Hlen.
  destruct (discard_loop_spec pool_id (contents q0) (Z.to_nat (qh_size (sq_header q0))) 0 q0)
    as (q1 & Hrun & Hh & Hsl & Hat); try done.
  { unfold capacity. lia. }
  { intros j h Hj _. by apply lookup_contents_inv in Hj as [_ ->]. }
  set (keptl := filter (fun h => keeps pool_id h = true) (contents q0)) in *.
  assert (Hk : (length keptl <= length (contents q0))%nat) by apply length_filter.
  change (Z.of_nat 0) with 0 in Hrun. change (Z.of_nat (length (filter _ (take 0 _)))) with 0 in Hrun.
  rewrite Hrun. unfold ring_mod. rewrite (proj2 (Z.eqb_neq _ _)) by lia. unfold_cpp.
  rewrite ring_index_small by (done || (unfold capacity; lia)).
  eexists. split; [done|]. destruct Hs. destruct Hwf0.
  split_and!; [|by unfold closed in *; simpl; rewrite Hh|].
  - split; [split|..]; simpl; rewrite ?Hh, ?Hsl; auto; try lia. apply Z.mod_pos_bound. lia.
  - apply contents_eq; [simpl; lia|]. intros j h Hj. rewrite <- (Hat j h Hj).
    unfold ring_at. simpl. by rewrite Hh.
Qed.

(** ** [enqueue] *)

(** The queue after a failed notification: the slot and the high-water mark keep their new
    values, everything else is as before. *)
Definition rolled_back (q : SharedQueue) (handle : ChunkHandle) : SharedQueue :=
  mkSharedQueue
    (sq_header q <| qh_enqueued := wrap 64 (wrap 64 (qh_enqueued (sq_header q) + 1) - 1) |>
      <| qh_max_size := Z.max (qh_max_size (sq_header q)) (qh_size (sq_header q) + 1) |>)
    (<[Z.to_nat (qh_tail (sq_header q)) := handle]> (sq_slots q)).

Lemma tail_rollback c t : 0 <= t < c ->
  (if (t + 1) mod c =? 0 then c - 1 else (t + 1) mod c - 1) = t.
Proof.
  intros Ht. destruct (decide (t + 1 = c)) as [<-|].
  - rewrite Z.mod_same by lia. simpl. lia.
  - rewrite Z.mod_small by lia. case_match; bools; lia.
Qed.

Lemma append_slot_run q handle notify need dropped blocked t :
  ring_safe q -> qh_size (sq_header q) < qh_capacity (sq_header q) ->
  append_slot handle notify need dropped blocked t q =
  match notify, need with
  | Some false, true =>
      (Ret (mkQueueEnqueueResult QueueNotificationFailed None false blocked t), rolled_back q handle)
  | Some true, true => (Ret (mkQueueEnqueueResult QueueAccepted dropped true blocked t), pushed q handle)
  | _, _ => (Ret (mkQueueEnqueueResult QueueAccepted dropped false blocked t), pushed q handle)
  end.
Proof.
  intros Hs Hsz. pose proof (rs_capacity _ Hs). pose proof (rs_tail _ Hs). pose proof (rs_size _ Hs).
  pose proof (rs_slots _ Hs). unfold kMaxSubscriberQueueDepth in *.
  unfold append_slot, set_slot, slot, header_, set_header, ring_mod. unfold_cpp.
  rewrite (proj2 (Z.leb_le _ _)) by lia.
  destruct (lookup_lt_is_Some_2 (sq_slots q) (Z.to_nat (qh_tail (sq_header q)))) as [x Hx]; [lia|].
  rewrite Hx, (proj2 (Z.eqb_neq _ _)) by lia.
  rewrite (wrap_small 32 (qh_tail (sq_header q) + 1)) by (unfold fits; lia).
  destruct notify as [[]|], need; simpl; rewrite !(wrap_small 32 (_ + 1)) by (unfold fits; lia); try done.
  rewrite !(wrap_small 32) by (unfold fits; lia).
  rewrite tail_rollback, Z.add_simpl_r by lia. done.
Qed.

Lemma rolled_back_wf q handle : queue_wf q -> qh_size (sq_header q) < qh_capacity (sq_header q) ->
  queue_wf (rolled_back q handle) /\ contents (rolled_back q handle) = contents q.
Proof.
  intros Hwf Hsz. pose proof (qw_safe _ Hwf) as Hs. pose proof (rs_slots _ Hs). pose proof (rs_size _ Hs).
  pose proof (rs_capacity _ Hs). split.
  - destruct Hs, Hwf. split; [split|..]; simpl; rewrite ?length_insert; auto; lia.
  - apply contents_eq; [by rewrite length_contents|]. intros k h [Hk <-]%lookup_contents_inv.
    unfold ring_at. simpl. rewrite list_lookup_insert_ne; [done|]. rewrite (qw_tail _ Hwf). intros Heq.
    apply Z2Nat.inj in Heq; [|apply Z.mod_pos_bound; lia ..]. apply mod_shift_inj in Heq; lia.
Qed.

(** Other processes keep the invariant while a publisher waits. *)
Definition env_ok (env : wait_env) : Prop :=
  (forall deadline, Forall (fun w => forall q, queue_wf q -> queue_wf (wk_others w q)) (we_wakeups env deadline)) /\
  forall q, queue_wf q -> queue_wf (we_expiry env q).

(** The queue is full and open, so that a blocking [enqueue] goes on waiting. *)
Definition stuck (q : SharedQueue) : Prop := length (contents q) = capacity q /\ closed q = false.

(** The queue a waiter finds after a wake-up: what the others made of it, emptied when one of
    them died with the mutex; and whether the waiter holds a usable mutex then. *)
Definition woken (w : wakeup) (q : SharedQueue) : SharedQueue :=
  match wk_error w with WaitOwnerDead _ => reset_ring (wk_others w q) | _ => wk_others w q end.
Definition wake_ok (w : wakeup) : bool :=
  match wk_error w with WaitWoken => true | WaitOwnerDead consistent => consistent | WaitFailed => false end.

(** A wait on a queue: it goes on exactly while the queue is stuck, through the given wake-ups,
    and only the others change the queue.  It ends with [None] when there is space or the queue
    was closed, and with a status when the mutex is lost or the deadline passes. *)
Inductive waits (expiry : SharedQueue -> SharedQueue)
    : list wakeup -> SharedQueue -> option QueueEnqueueStatus -> SharedQueue -> Prop :=
  | waits_over ws q : ~ stuck q -> waits expiry ws q None q
  | waits_expired q : stuck q -> waits expiry [] q (Some QueueTimedOut) (expiry q)
  | waits_lost w ws q : stuck q -> wake_ok w = false ->
      waits expiry (w :: ws) q (Some QueueSynchronizationError) (woken w q)
  | waits_on w ws q stop q1 : stuck q -> wake_ok w = true -> waits expiry ws (woken w q) stop q1 ->
      waits expiry (w :: ws) q stop q1.

Lemma size_lt_length q : ring_safe q ->
  (qh_size (sq_header q) < qh_capacity (sq_header q) <-> (length (contents q) < capacity q)%nat).
Proof. intros []. rewrite length_contents. unfold capacity. lia. Qed.

Lemma size_full_length q : ring_safe q -> qh_size (sq_header q) = qh_capacity (sq_header q) ->
  length (contents q) = capacity q.
Proof. intros [] ?. rewrite length_contents. unfold capacity. lia. Qed.

Lemma stuck_test q : ring_safe q ->
  ((qh_size (sq_header q) =? qh_capacity (sq_header q)) && (qh_closed (sq_header q) =? 0)) = true <-> stuck q.
Proof.
  intros Hs. pose proof (rs_size _ Hs). pose proof (rs_capacity _ Hs). unfold stuck, closed.
  rewrite length_contents, andb_true_iff, negb_false_iff, Z.eqb_eq. unfold capacity. split; intros [? ?]; (split; [lia|done]).
Qed.

Lemma recover_run w q : recoverConditionWaitOwnerDeath (wk_error w) (wk_others w q) = (Ret (wake_ok w), woken w q).
Proof. unfold wake_ok, woken. by destruct (wk_error w). Qed.

Lemma woken_wf w q : (forall q, queue_wf q -> queue_wf (wk_others w q)) -> queue_wf q -> queue_wf (woken w q).
Proof. intros Hw Hq. specialize (Hw q Hq). unfold woken. destruct (wk_error w); auto using reset_ring_wf, queue_wf_memory. Qed.

(** The wait loop waits, and otherwise changes only the wait counters. *)
Lemma wait_for_space_spec wakeups expiry elapsed q :
  queue_wf q -> Forall (fun w => forall q, queue_wf q -> queue_wf (wk_others w q)) wakeups ->
  (forall q, queue_wf q -> queue_wf (expiry q)) ->
  exists stop q1 q', wait_for_space wakeups expiry elapsed q = (Ret stop, q') /\
    waits expiry wakeups q stop q1 /\ queue_wf q1 /\ same_ring q1 q' /\ closed q' = closed q1 /\
    match stop with None => q' = q1 /\ ~ stuck q1 | Some _ => True end.
Proof.
  intros Hwf Hall Hexp. revert q Hwf.
  induction Hall as [|w wakeups Hw Hall IH]; intros q Hwf; pose proof (stuck_test q (qw_safe _ Hwf)) as Htest;
    cbn [wait_for_space]; unfold header_, set_header; unfold_cpp;
    (destruct (_ && _) eqn:Hfull; cbn [negb];
      [| assert (Hns : ~ stuck q) by (intros Hst; by apply Htest in Hst);
         exists None, q, q; by split_and!; auto using waits_over]);
    pose proof (proj1 Htest eq_refl) as Hst.
  - exists (Some QueueTimedOut), (expiry q). eexists. split_and!; [done | by apply waits_expired | auto | by split_and! | done | done].
  - rewrite recover_run. pose proof (woken_wf w q Hw Hwf) as Hwf1. destruct (wake_ok w) eqn:Hok; cbn [negb].
    + destruct (IH _ Hwf1) as (stop & q1 & q' & Hrun & Hwaits & Hrest). exists stop, q1, q'.
      split_and!; [done | by apply waits_on | apply Hrest ..].
    + exists (Some QueueSynchronizationError), (woken w q). eexists.
      split_and!; [done | by apply waits_lost | done | by split_and! | done | done].
Qed.

(** The waiter is counted before it waits. *)
Definition count_blocked (q : SharedQueue) : SharedQueue :=
  q <| sq_header := sq_header q <| qh_blocked_count := wrap 64 (qh_blocked_count (sq_header q) + 1) |> |>.

(** What [enqueue] may do to the list of handles, for each state and policy; [q] is the
    queue once the lock is held, and under the blocking policy [q1] the queue the others leave
    when the wait ends, to which the handle is added or nothing is done. *)
Inductive enqueue_spec (env : wait_env) (q : SharedQueue) (handle : ChunkHandle) (notify : option bool)
    : QueueEnqueueResult -> SharedQueue -> Prop :=
  | enqueue_closed q' :
      closed q = true -> contents q' = contents q ->
      enqueue_spec env q handle notify (mkQueueEnqueueResult QueueClosedStatus None false false 0) q'
  | enqueue_accepted q' sent :
      closed q = false -> (length (contents q) < capacity q)%nat ->
      contents q' = contents q ++ [handle] ->
      (sent = true <-> contents q = [] /\ notify = Some true) -> (contents q = [] -> notify <> Some false) ->
      enqueue_spec env q handle notify (mkQueueEnqueueResult QueueAccepted None sent false 0) q'
  | enqueue_notification_failed q' :
      closed q = false -> contents q = [] -> notify = Some false -> contents q' = [] ->
      enqueue_spec env q handle notify (mkQueueEnqueueResult QueueNotificationFailed None false false 0) q'
  | enqueue_dropped_newest q' :
      closed q = false -> length (contents q) = capacity q ->
      OverflowPolicy_of_u16 (qh_overflow_policy (sq_header q)) = DropNewest -> contents q' = contents q ->
      enqueue_spec env q handle notify (mkQueueEnqueueResult QueueDroppedNewest None false false 0) q'
  | enqueue_dropped_oldest q' oldest rest :
      closed q = false -> length (contents q) = capacity q ->
      OverflowPolicy_of_u16 (qh_overflow_policy (sq_header q)) = DropOldest ->
      contents q = oldest :: rest -> contents q' = rest ++ [handle] ->
      enqueue_spec env q handle notify (mkQueueEnqueueResult QueueAccepted (Some oldest) false false 0) q'
  | enqueue_blocked q' q1 stop result :
      closed q = false -> length (contents q) = capacity q ->
      OverflowPolicy_of_u16 (qh_overflow_policy (sq_header q)) <> DropNewest ->
      OverflowPolicy_of_u16 (qh_overflow_policy (sq_header q)) <> DropOldest ->
      waits (we_expiry env)
        (we_wakeups env (monotonicDeadline (we_clock env) (qh_block_timeout_ms (sq_header q)))) (count_blocked q) stop q1 ->
      er_blocked result = true -> er_dropped_oldest result = None ->
      match stop with
      | Some status => er_status result = status /\ er_notification_sent result = false /\ contents q' = contents q1
      | None =>
          if closed q1 then
            er_status result = QueueClosedStatus /\ er_notification_sent result = false /\ contents q' = contents q1
          else if bool_decide (contents q1 = [] /\ notify = Some false) then
            er_status result = QueueNotificationFailed /\ er_notification_sent result = false /\ contents q' = []
          else
            er_status result = QueueAccepted /\ (length (contents q1) < capacity q1)%nat /\
            contents q' = contents q1 ++ [handle] /\
            (er_notification_sent result = true <-> contents q1 = [] /\ notify = Some true)
      end ->
      enqueue_spec env q handle notify result q'.

Lemma size_zero_contents q : ring_safe q -> (qh_size (sq_header q) =? 0) = bool_decide (contents q = []).
Proof.
  intros []. destruct (Z.eqb_spec (qh_size (sq_header q)) 0).
  - by rewrite contents_nil, bool_decide_true.
  - rewrite bool_decide_false; [done|]. intros Hnil. pose proof (length_contents q) as Hl.
    rewrite Hnil in Hl. simpl in Hl. lia.
Qed.

Lemma not_stuck_space q : ring_safe q -> closed q = false -> ~ stuck q -> qh_size (sq_header q) < qh_capacity (sq_header q).
Proof.
  intros Hs Hc Hns. pose proof (rs_size _ Hs). destruct (decide (qh_size (sq_header q) = qh_capacity (sq_header q))); [|lia].
  destruct Hns. split; [by apply size_full_length | done].
Qed.

Lemma block_for_space_refines env handle notify q : queue_wf q -> env_ok env ->
  closed q = false -> length (contents q) = capacity q ->
  OverflowPolicy_of_u16 (qh_overflow_policy (sq_header q)) <> DropNewest ->
  OverflowPolicy_of_u16 (qh_overflow_policy (sq_header q)) <> DropOldest ->
  exists result q', block_for_space env (qh_block_timeout_ms (sq_header q)) handle notify q = (Ret result, q') /\ queue_wf q' /\
    enqueue_spec env q handle notify result q'.
Proof.
  intros Hwf [Hwake Hexp] Hopen Hlen Hn1 Hn2. unfold block_for_space. cbv zeta.
  set (elapsed := elapsedNanoseconds _ _). unfold set_header, modify, header_, gets. unfold mbind, cpp_bind.
  fold (count_blocked q).
  assert (Hwfb : queue_wf (count_blocked q)) by (eapply same_ring_wf; [|exact Hwf]; by split_and!).
  destruct (wait_for_space_spec _ (we_expiry env) elapsed _ Hwfb
    (Hwake (monotonicDeadline (we_clock env) (qh_block_timeout_ms (sq_header q)))) Hexp)
    as (stop & q1 & q' & -> & Hwaits & Hwf1 & Hring & Hcl' & Hstop).
  pose proof (same_ring_contents _ _ Hring) as Hc'.
  destruct stop as [status|].
  { eexists _, q'. split_and!; [done | by eapply same_ring_wf |]. by eapply enqueue_blocked. }
  destruct Hstop as [-> Hns]. clear Hc' Hcl' Hring.
  set (q2 := q1 <| sq_header := _ |>). assert (Hsame : same_ring q1 q2) by (by split_and!).
  pose proof (same_ring_wf _ _ Hsame Hwf1) as Hwf2. pose proof (same_ring_contents _ _ Hsame) as Hc2.
  pose proof (qw_safe _ Hwf2) as Hs2.
  destruct (negb (qh_closed (sq_header q2) =? 0)) eqn:Hcl.
  { eexists _, q2. split_and!; [done | done |]. eapply enqueue_blocked; eauto. cbv iota.
    assert (closed q1 = true) as -> by exact Hcl. by split_and!. }
  assert (Hc1 : closed q1 = false) by exact Hcl. pose proof (not_stuck_space q1 (qw_safe _ Hwf1) Hc1 Hns) as Hlt.
  assert (Hlt2 : qh_size (sq_header q2) < qh_capacity (sq_header q2)) by done.
  pose proof (proj1 (size_lt_length _ (qw_safe _ Hwf1)) Hlt).
  pose proof (pushed_contents q2 Hs2 handle Hwf2 Hlt2) as Hpush. rewrite Hc2 in Hpush.
  pose proof (pushed_wf q2 Hs2 handle Hwf2 Hlt2). destruct (rolled_back_wf q2 handle Hwf2 Hlt2) as [? Hroll].
  rewrite append_slot_run, size_zero_contents, Hc2 by done.
  destruct notify as [[]|], (decide (contents q1 = [])) as [Hnil|Hnil]; rewrite ?(bool_decide_eq_true_2 _ Hnil), ?(bool_decide_eq_false_2 _ Hnil);
    (eexists _, _; split_and!; [done | done |]); eapply (enqueue_blocked _ _ _ _ _ q1); eauto; cbv iota; rewrite Hc1;
    try (rewrite bool_decide_eq_false_2 by naive_solver; split_and!; [done | done | done | simpl; naive_solver]).
  rewrite bool_decide_eq_true_2 by done. split_and!; [done | done | congruence].
Qed.

Lemma enqueue_refines env r handle notify q : queue_wf (lock_state r q) -> env_ok env -> lock_ok r = true ->
  exists result q', enqueue r env handle notify q = (Ret result, q') /\ queue_wf q' /\
    enqueue_spec env (lock_state r q) handle notify result q'.
Proof.
  intros Hwf0 Henv Hr. unfold enqueue. unfold mbind, cpp_bind. rewrite PthreadLock_run, Hr. cbn [negb].
  set (q0 := lock_state r q) in *. clearbody q0. clear q r Hr.
  pose proof (qw_safe _ Hwf0) as Hs. pose proof (rs_size _ Hs). pose proof (rs_capacity _ Hs).
  unfold header_, gets at 1.
  destruct (negb (qh_closed (sq_header q0) =? 0)) eqn:Hcl.
  { eexists _, q0. split_and!; [done | done | by apply enqueue_closed]. }
  assert (Hopen : closed q0 = false) by done.
  destruct (negb (_ =? qh_capacity _)) eqn:Hfull; bools.
  { assert (Hlt : qh_size (sq_header q0) < qh_capacity (sq_header q0)) by lia.
    pose proof (proj1 (size_lt_length _ Hs) Hlt). pose proof (pushed_contents q0 Hs handle Hwf0 Hlt) as Hpush.
    pose proof (pushed_wf q0 Hs handle Hwf0 Hlt). destruct (rolled_back_wf q0 handle Hwf0 Hlt) as [? Hroll].
    rewrite append_slot_run, size_zero_contents by done.
    destruct notify as [[]|], (bool_decide (contents q0 = [])) eqn:Hnil; bools;
      (eexists _, _; split_and!; [done | done |]); try (by apply enqueue_accepted; naive_solver).
    apply enqueue_notification_failed; auto. congruence. }
  pose proof (size_full_length _ Hs Hfull) as Hlen.
  destruct (OverflowPolicy_of_u16 _) eqn:Hpol.
  - eexists _, _. split_and!; [done | | by apply enqueue_dropped_newest].
    eapply same_ring_wf; [|exact Hwf0]. by split_and!.
  - rewrite slot_head_run, advance_head_run by (done || lia). unfold set_header, modify at 1.
    pose proof (popped_wf q0 Hs Hwf0 ltac:(lia)) as Hwfp. set (q1 := popped q0 <| sq_header := _ |>).
    assert (Hsame : same_ring (popped q0) q1) by (by split_and!).
    pose proof (same_ring_wf _ _ Hsame Hwfp) as Hwf1. pose proof (qw_safe _ Hwf1) as Hs1.
    assert (Hlt1 : qh_size (sq_header q1) < qh_capacity (sq_header q1)) by (simpl; lia).
    rewrite append_slot_run by done. destruct notify as [[]|]; eexists _, _; (split_and!; [done| |]);
      auto using pushed_wf;
      (eapply enqueue_dropped_oldest; [done | done | done | by apply popped_contents; [|lia] |];
       rewrite pushed_contents, (same_ring_contents _ _ Hsame) by done; done).
  - apply block_for_space_refines; auto; congruence.
  - apply block_for_space_refines; auto; congruence.
Qed.

(** No other process acts while the publisher waits. *)
Definition quiet (env : wait_env) : Prop :=
  (forall deadline, Forall (fun w => wk_others w = id /\ wk_error w = WaitWoken) (we_wakeups env deadline)) /\
  we_expiry env = id.

Lemma quiet_env_ok env : quiet env -> env_ok env.
Proof.
  intros [Hw He]. split; [|by rewrite He]. intros d. eapply list.Forall_impl; [exact (Hw d)|].
  by intros w [-> _].
Qed.

(** Alone, a blocked publisher times out and changes only the wait counters. *)
Lemma block_for_space_quiet env timeout handle notify q :
  quiet env -> qh_size (sq_header q) = qh_capacity (sq_header q) -> qh_closed (sq_header q) = 0 ->
  exists elapsed q', block_for_space env timeout handle notify q =
      (Ret (mkQueueEnqueueResult QueueTimedOut None false true elapsed), q') /\
    same_ring q q' /\ queue_balance q' = queue_balance q.
Proof.
  intros [Hw He] Hfull Hopen. unfold block_for_space. cbv zeta. set (elapsed := elapsedNanoseconds _ _).
  set (deadline := monotonicDeadline _ _). specialize (Hw deadline). rewrite He.
  assert (Hwait : forall ws q, Forall (fun w => wk_others w = id /\ wk_error w = WaitWoken) ws ->
    qh_size (sq_header q) = qh_capacity (sq_header q) -> qh_closed (sq_header q) = 0 ->
    exists q', wait_for_space ws id elapsed q = (Ret (Some QueueTimedOut), q') /\
      same_ring q q' /\ queue_balance q' = queue_balance q).
  { induction ws as [|w ws IH]; intros q0 Hws Hf Ho; cbn [wait_for_space]; unfold header_, set_header; unfold_cpp;
      rewrite Hf, Ho, !Z.eqb_refl; cbn [andb negb].
    - eexists. split_and!; done.
    - apply Forall_cons_1 in Hws as [[-> ->] Hws]. simpl. unfold_cpp. by apply IH. }
  unfold set_header, modify. unfold mbind, cpp_bind.
  destruct (Hwait (we_wakeups env deadline) (q <| sq_header := sq_header q
    <| qh_blocked_count := wrap 64 (qh_blocked_count (sq_header q) + 1) |> |>))
    as (q' & Hrun & Hsame & Hbal); [done | done | done |].
  rewrite Hrun. exists elapsed, q'. split_and!; try done; apply Hsame.
Qed.

Lemma rolled_back_balance q handle : queue_balance (rolled_back q handle) = queue_balance q.
Proof.
  unfold queue_balance. simpl.
  destruct (wrap_exists 64 (qh_enqueued (sq_header q) + 1)) as [k1 ->]; [lia|].
  destruct (wrap_exists 64 (qh_enqueued (sq_header q) + 1 + k1 * 2 ^ 64 - 1)) as [k2 ->]; [lia|].
  apply wrap_congr with (k1 + k2); lia.
Qed.

Lemma append_slot_balance q handle notify need dropped blocked t result q' :
  ring_safe q -> qh_size (sq_header q) < qh_capacity (sq_header q) ->
  append_slot handle notify need dropped blocked t q = (Ret result, q') ->
  queue_balance q' = queue_balance q /\ er_blocked result = blocked.
Proof.
  intros Hs Hlt. rewrite append_slot_run by done.
  destruct notify as [[]|], need; intros [= <- <-]; rewrite ?pushed_balance, ?rolled_back_balance; done.
Qed.

(** Alone, [enqueue] keeps the counters balanced, and only a timeout follows a wait. *)
Lemma enqueue_balance env r handle notify q result q' :
  queue_wf q -> quiet env -> lock_ok r = true -> enqueue r env handle notify q = (Ret result, q') ->
  queue_balance q' = queue_balance (lock_state r q) /\
  (er_blocked result = true -> er_status result = QueueTimedOut /\ contents q' = contents (lock_state r q)).
Proof.
  intros Hwf Hq Hr. unfold enqueue. unfold mbind, cpp_bind. rewrite PthreadLock_run, Hr. cbn [negb].
  pose proof (lock_state_wf r q Hwf) as Hwf0. set (q0 := lock_state r q) in *. clearbody q0. clear q Hwf r Hr.
  pose proof (qw_safe _ Hwf0) as Hs. pose proof (rs_size _ Hs). pose proof (rs_capacity _ Hs).
  unfold header_, gets at 1.
  destruct (negb (qh_closed (sq_header q0) =? 0)) eqn:Hcl; [by intros [= <- <-]|].
  destruct (negb (_ =? qh_capacity _)) eqn:Hfull; bools.
  { intros Hrun. apply append_slot_balance in Hrun as [? Hb]; [by rewrite Hb | done | lia]. }
  destruct (OverflowPolicy_of_u16 _) eqn:Hpol.
  - by intros [= <- <-].
  - rewrite slot_head_run, advance_head_run by (done || lia). unfold set_header, modify at 1.
    set (q1 := popped q0 <| sq_header := _ |>). intros Hrun.
    assert (Hsame : same_ring (popped q0) q1) by (by split_and!).
    pose proof (same_ring_safe _ _ Hsame (popped_safe q0 Hs ltac:(lia))) as Hs1.
    apply append_slot_balance in Hrun as [Hb Hbl]; [|done|simpl; lia]. rewrite Hbl. split; [|done].
    rewrite Hb. apply popped_balance; auto.
  - destruct (block_for_space_quiet env (qh_block_timeout_ms (sq_header q0)) handle notify q0 Hq Hfull Hcl)
      as (t & q2 & -> & Hsame & Hbal). intros [= <- <-]. split; [done|]. intros _.
    split; [done | by apply same_ring_contents].
  - destruct (block_for_space_quiet env (qh_block_timeout_ms (sq_header q0)) handle notify q0 Hq Hfull Hcl)
      as (t & q2 & -> & Hsame & Hbal). intros [= <- <-]. split; [done|]. intros _.
    split; [done | by apply same_ring_contents].
Qed.
