(* ===== verification/QueueTheorems.v ===== *)
(** * Queue theorems

    What publisher and subscriber can rely on, over sequences of queue calls: first-in
    first-out order without loss or duplication, balanced counters, recovery from a dead
    owner, and accesses that never leave the slots. *)

From Stdlib Require Import ZArith Lia Bool String.
From stdpp Require Import base gmap list strings option.
From S2P Require Import Prelude Types Outcome PoolLayout MemoryPool MemoryPoolView SubscriberQueue.

Local Open Scope Z_scope.

(** ** Calls *)

Inductive queue_op :=
  | QEnqueue (lock : lock_result) (env : wait_env) (handle : ChunkHandle) (notify : option bool)
  | QTryDequeue (lock : lock_result)
  | QPeek (lock : lock_result)
  | QDrain (lock : lock_result)
  | QCloseAndDrain (lock : lock_result)
  | QDiscardPool (lock : lock_result) (pool_id : Z)
  | QStats (lock : lock_result)
  | QClose (client : QueueClient) (lock : lock_result).

Inductive queue_reply :=
  | ReplyEnqueue (r : QueueEnqueueResult)
  | ReplyHandle (h : option ChunkHandle)
  | ReplyHandles (hs : list ChunkHandle)
  | ReplyStats (s : QueueStats)
  | ReplyNone.

Definition exec_queue_op (op : queue_op) : cpp SharedQueue queue_reply :=
  match op with
  | QEnqueue r env h n => x ← enqueue r env h n; mret (ReplyEnqueue x)
  | QTryDequeue r => x ← tryDequeue r; mret (ReplyHandle x)
  | QPeek r => x ← peek r; mret (ReplyHandle x)
  | QDrain r => x ← drain r; mret (ReplyHandles x)
  | QCloseAndDrain r => x ← closeAndDrain r; mret (ReplyHandles x)
  | QDiscardPool r id => discardPool r id;; mret ReplyNone
  | QStats r => x ← stats r; mret (ReplyStats x)
  | QClose c r => close c r;; mret ReplyNone
  end.

Fixpoint exec_queue_ops (ops : list queue_op) : cpp SharedQueue (list queue_reply) :=
  match ops with
  | [] => mret []
  | op :: ops => r ← exec_queue_op op; rs ← exec_queue_ops ops; mret (r :: rs)
  end.

(** ** Histories

    What happens to the handles of a queue, as events: one enters behind the others, the oldest
    leaves, the ring is emptied because an owner of the mutex died, the handles of a pool are
    discarded. *)

Inductive ring_event :=
  | Entered (handle : ChunkHandle)
  | Left (handle : ChunkHandle)
  | RingReset
  | Discarded (pool_id : Z).

Definition event_effect (e : ring_event) (handles : list ChunkHandle) : option (list ChunkHandle) :=
  match e with
  | Entered h => Some (handles ++ [h])
  | Left h =>
      match handles with
      | oldest :: rest => if ChunkHandle_eqb oldest h then Some rest else None
      | [] => None
      end
  | RingReset => Some []
  | Discarded pool_id => Some (filter (fun h => keeps pool_id h = true) handles)
  end.
Fixpoint replay (log : list ring_event) (handles : list ChunkHandle) : option (list ChunkHandle) :=
  match log with
  | [] => Some handles
  | e :: log => event_effect e handles ≫= replay log
  end.


(** Events that take handles out; events that lose none. *)
Definition removal (e : ring_event) : Prop := match e with Entered _ => False | _ => True end.

(** Other processes, while the mutex is theirs, keep the ring invariant and take handles out, one by
    one, by discarding a pool or by recovering from a dead owner; the one publisher of the topic
    is waiting, so that nobody else adds any. *)
Definition takes_out (others : SharedQueue -> SharedQueue) (q : SharedQueue) (log : list ring_event) : Prop :=
  Forall removal log /\ replay log (contents q) = Some (contents (others q)).
Definition consumes (others : SharedQueue -> SharedQueue) : Prop :=
  forall q, queue_wf q -> queue_wf (others q) /\ exists log, takes_out others q log.
Definition env_consumes (env : wait_env) : Prop :=
  (forall deadline, Forall (fun w => consumes (wk_others w)) (we_wakeups env deadline)) /\ consumes (we_expiry env).

Definition lock_events (r : lock_result) : list ring_event :=
  match r with LockOwnerDead _ => [RingReset] | _ => [] end.
Definition wake_events (w : wakeup) : list ring_event :=
  match wk_error w with WaitOwnerDead _ => [RingReset] | _ => [] end.

(** The events of a wait: what the others did in each wake-up that was waited for. *)
Inductive wait_history (expiry : SharedQueue -> SharedQueue)
    : list wakeup -> SharedQueue -> list ring_event -> SharedQueue -> Prop :=
  | history_over ws q : ~ stuck q -> wait_history expiry ws q [] q
  | history_expired q log : stuck q -> takes_out expiry q log -> wait_history expiry [] q log (expiry q)
  | history_lost w ws q log : stuck q -> wake_ok w = false -> takes_out (wk_others w) q log ->
      wait_history expiry (w :: ws) q (log ++ wake_events w) (woken w q)
  | history_on w ws q log log' q1 : stuck q -> wake_ok w = true -> takes_out (wk_others w) q log ->
      wait_history expiry ws (woken w q) log' q1 ->
      wait_history expiry (w :: ws) q ((log ++ wake_events w) ++ log') q1.

(** The events of one call, read off its lock, its reply and its wait. *)
Definition op_lock (op : queue_op) : lock_result :=
  match op with
  | QEnqueue r _ _ _ | QTryDequeue r | QPeek r | QDrain r | QCloseAndDrain r | QDiscardPool r _ | QStats r => r
  | QClose c r => if qc_attached c then r else LockAcquired
  end.
Definition reply_events (op : queue_op) (r : queue_reply) : list ring_event :=
  match op, r with
  | QEnqueue _ _ h _, ReplyEnqueue x =>
      (Left <$> option_list (er_dropped_oldest x)) ++ match er_status x with QueueAccepted => [Entered h] | _ => [] end
  | QTryDequeue _, ReplyHandle h => Left <$> option_list h
  | QDrain _, ReplyHandles hs | QCloseAndDrain _, ReplyHandles hs => Left <$> hs
  | QDiscardPool lock pool_id, _ => if lock_ok lock then [Discarded pool_id] else []
  | _, _ => []
  end.
Definition waited (op : queue_op) (q : SharedQueue) (r : queue_reply) (log : list ring_event) : Prop :=
  match op, r with
  | QEnqueue lock env _ _, ReplyEnqueue x =>
      if er_blocked x then
        exists q1, wait_history (we_expiry env)
          (we_wakeups env (monotonicDeadline (we_clock env) (qh_block_timeout_ms (sq_header q))))
          (count_blocked (lock_state lock q)) log q1
      else log = []
  | _, _ => log = []
  end.

(** The events of a sequence of calls. *)
Inductive history : list queue_op -> SharedQueue -> list queue_reply -> list ring_event -> Prop :=
  | history_nil q : history [] q [] []
  | history_cons op ops q r q1 rs wait log :
      exec_queue_op op q = (Ret r, q1) -> waited op q r wait -> history ops q1 rs log ->
      history (op :: ops) q (r :: rs) ((lock_events (op_lock op) ++ wait ++ reply_events op r) ++ log).

(** Calls that return: a drain that cannot lock the mutex throws.  While an [enqueue] is blocked the
    others take handles out. *)
Definition op_ok (op : queue_op) : Prop :=
  match op with
  | QEnqueue _ env _ _ => env_consumes env
  | QDrain r | QCloseAndDrain r => lock_ok r = true
  | _ => True
  end.

(** Calls that move handles one at a time and are not interfered with: the counters account
    for them. *)
Definition counted_op (op : queue_op) : Prop :=
  match op with
  | QEnqueue r env _ _ => r = LockAcquired /\ quiet env
  | QTryDequeue r | QPeek r | QStats r | QClose _ r => r = LockAcquired
  | QDrain _ | QCloseAndDrain _ | QDiscardPool _ _ => False
  end.

(** ** One call *)

Lemma set_closed_wf q : queue_wf q ->
  let q' := q <| sq_header := sq_header q <| qh_closed := 1 |> |> in
  queue_wf q' /\ contents q' = contents q /\ queue_balance q' = queue_balance q.
Proof.
  intros Hwf. cbv zeta. set (q' := q <| sq_header := _ |>).
  assert (Hsame : same_ring q q') by (by split_and!).
  split_and!; [by eapply same_ring_wf | by apply same_ring_contents | done].
Qed.

Lemma exec_queue_op_balance op q : queue_wf q -> counted_op op ->
  exists r q', exec_queue_op op q = (Ret r, q') /\ queue_wf q' /\ queue_balance q' = queue_balance q.
Proof.
  intros Hwf Hop. destruct op; simpl in Hop; try done; try subst lock; cbn [exec_queue_op].
  - destruct Hop as [-> Hq].
    destruct (enqueue_refines env LockAcquired handle notify q Hwf (quiet_env_ok _ Hq) eq_refl) as (x & q' & Hrun & Hwf' & _).
    destruct (enqueue_balance env LockAcquired handle notify q x q' Hwf Hq eq_refl Hrun) as [Hbal _].
    exists (ReplyEnqueue x), q'. unfold_cpp. by rewrite Hrun.
  - destruct (tryDequeue_spec LockAcquired q Hwf) as (q' & Hrun & ? & _ & Hbal & _).
    eexists _, q'. unfold_cpp. by rewrite Hrun.
  - eexists _, q. unfold_cpp. by rewrite (peek_spec LockAcquired q Hwf).
  - by eexists _, q.
  - unfold close, set_header. destruct (set_closed_wf q Hwf) as (? & _ & ?).
    destruct (qc_attached client); unfold_cpp; simpl; by eexists _, _.
Qed.

Lemma exec_queue_ops_balance ops q : queue_wf q -> Forall counted_op ops ->
  exists rs q', exec_queue_ops ops q = (Ret rs, q') /\ queue_balance q' = queue_balance q.
Proof.
  intros Hwf Hops. revert q Hwf. induction Hops as [|op ops Hop Hops IH]; intros q Hwf; [by exists [], q|].
  destruct (exec_queue_op_balance op q Hwf Hop) as (r & q1 & Hrun & Hwf1 & Hb1).
  destruct (IH q1 Hwf1) as (rs & q2 & Hrun2 & Hb2). exists (r :: rs), q2.
  cbn [exec_queue_ops]. unfold_cpp. rewrite Hrun, Hrun2. split; [done | congruence].
Qed.

(** ** Replaying *)

Lemma replay_app log log' handles : replay (log ++ log') handles = replay log handles ≫= replay log'.
Proof.
  revert handles. induction log as [|e log IH]; intros handles; simpl; [done|].
  destruct (event_effect e handles); simpl; auto.
Qed.

Lemma replay_left handles rest : replay (Left <$> handles) (handles ++ rest) = Some rest.
Proof.
  induction handles as [|h handles IH]; simpl; [done|]. by rewrite (proj2 (ChunkHandle_eqb_spec h h)).
Qed.

Lemma replay_lock r q : replay (lock_events r) (contents q) = Some (contents (lock_state r q)).
Proof. rewrite lock_state_contents. by destruct r. Qed.

Lemma replay_wake w q : replay (wake_events w) (contents (wk_others w q)) = Some (contents (woken w q)).
Proof. unfold wake_events, woken. by destruct (wk_error w). Qed.


(** A wait that consuming processes interrupt has a history, which replays to what they leave. *)
Lemma waits_history expiry ws q stop q1 : queue_wf q -> Forall (fun w => consumes (wk_others w)) ws -> consumes expiry ->
  waits expiry ws q stop q1 -> exists log, wait_history expiry ws q log q1 /\ replay log (contents q) = Some (contents q1).
Proof.
  intros Hwf Hws Hexp Hwaits. revert Hwf Hws.
  induction Hwaits as [ws q Hns | q Hst | w ws q Hst Hok | w ws q stop q1 Hst Hok Hwaits IH]; intros Hwf Hws.
  - exists []. by split; [apply history_over|].
  - destruct (Hexp q Hwf) as [_ (log & Hlog)]. exists log. split; [by apply history_expired | apply Hlog].
  - apply Forall_cons_1 in Hws as [Hw _]. destruct (Hw q Hwf) as [_ (log & Hlog)]. exists (log ++ wake_events w).
    split; [by apply history_lost|]. rewrite replay_app, (proj2 Hlog). apply replay_wake.
  - apply Forall_cons_1 in Hws as [Hw Hws]. destruct (Hw q Hwf) as [_ (log & Hlog)].
    destruct IH as (log' & Hh & Hr); [|done|].
    { apply woken_wf; [|done]. intros q0 Hq0. by apply Hw. }
    exists ((log ++ wake_events w) ++ log'). split; [by apply history_on|].
    rewrite !replay_app, (proj2 Hlog). simpl. by rewrite replay_wake.
Qed.

Lemma env_consumes_ok env : env_consumes env -> env_ok env.
Proof.
  intros [Hw He]. split; [|intros q Hq; by apply He]. intros d. eapply list.Forall_impl; [exact (Hw d)|].
  intros w Hc q Hq. by apply Hc.
Qed.

(** A wait that fails does so by its deadline or for the mutex. *)
Lemma waits_stop expiry ws q status q1 : waits expiry ws q (Some status) q1 ->
  status = QueueTimedOut \/ status = QueueSynchronizationError.
Proof.
  remember (Some status) as stop eqn:Hstop. induction 1; simplify_eq; auto.
Qed.

Definition enqueue_events (handle : ChunkHandle) (x : QueueEnqueueResult) : list ring_event :=
  (Left <$> option_list (er_dropped_oldest x)) ++ match er_status x with QueueAccepted => [Entered handle] | _ => [] end.

(** The events of an [enqueue] after the lock. *)
Lemma enqueue_spec_replay env handle notify q x q' : queue_wf q -> env_consumes env ->
  enqueue_spec env q handle notify x q' ->
  exists wait, replay (wait ++ enqueue_events handle x) (contents q) = Some (contents q') /\
    if er_blocked x then exists q1, wait_history (we_expiry env)
      (we_wakeups env (monotonicDeadline (we_clock env) (qh_block_timeout_ms (sq_header q)))) (count_blocked q) wait q1
    else wait = [].
Proof.
  intros Hwf [Hwake Hexp] Hspec.
  destruct Hspec as [? ? H | ? ? ? ? H | ? ? H1 ? H2 | ? ? ? ? H | ? ? ? ? ? ? H1 H2 | q' q1 stop x ? ? ? ? Hwaits Hb Hd Hstop].
  1-5: exists []; split; [|done]; simpl.
  - by rewrite H.
  - by rewrite H.
  - by rewrite H1, H2.
  - by rewrite H.
  - rewrite H1, H2. simpl. by rewrite (proj2 (ChunkHandle_eqb_spec oldest oldest)).
  - assert (Hsame : same_ring q (count_blocked q)) by (by split_and!).
    destruct (waits_history _ _ _ _ _ (same_ring_wf _ _ Hsame Hwf) (Hwake _) Hexp Hwaits) as (wait & Hh & Hr).
    exists wait. rewrite Hb. split; [|by exists q1]. rewrite replay_app, <- (same_ring_contents _ _ Hsame), Hr. simpl.
    unfold enqueue_events. rewrite Hd. simpl.
    destruct stop as [status|]; [|destruct (closed q1); [|case_bool_decide as Hn]].
    + destruct Hstop as (Hst & _ & ->). rewrite Hst. by destruct (waits_stop _ _ _ _ _ Hwaits) as [-> | ->].
    + by destruct Hstop as (-> & _ & ->).
    + destruct Hn as [Hn _]. destruct Hstop as (-> & _ & ->). by rewrite Hn.
    + by destruct Hstop as (-> & _ & -> & _).
Qed.

(** The lock changes neither the blocking time nor what a wait is for. *)
Lemma lock_state_timeout r q : qh_block_timeout_ms (sq_header (lock_state r q)) = qh_block_timeout_ms (sq_header q).
Proof. by destruct r. Qed.

Lemma enqueue_history env r handle notify q : queue_wf q -> env_consumes env ->
  exists x q' wait, enqueue r env handle notify q = (Ret x, q') /\ queue_wf q' /\
    waited (QEnqueue r env handle notify) q (ReplyEnqueue x) wait /\
    replay (lock_events r ++ wait ++ enqueue_events handle x) (contents q) = Some (contents q').
Proof.
  intros Hwf Henv. pose proof (lock_state_wf r q Hwf) as Hwf0. destruct (lock_ok r) eqn:Hr.
  - destruct (enqueue_refines env r handle notify q Hwf0 (env_consumes_ok _ Henv) Hr) as (x & q' & Hrun & Hwf' & Hspec).
    destruct (enqueue_spec_replay _ _ _ _ _ _ Hwf0 Henv Hspec) as (wait & Hreplay & Hwait).
    exists x, q', wait. rewrite lock_state_timeout in Hwait. rewrite replay_app, replay_lock. by split_and!.
  - exists (mkQueueEnqueueResult QueueSynchronizationError None false false 0), (lock_state r q), [].
    split_and!; [|done|done|by rewrite app_nil_r, replay_lock]. unfold enqueue. unfold_cpp. by rewrite PthreadLock_run, Hr.
Qed.

(** ** Sequences of calls *)

Lemma exec_queue_op_history op q : queue_wf q -> op_ok op ->
  exists r q' wait, exec_queue_op op q = (Ret r, q') /\ queue_wf q' /\ waited op q r wait /\
    replay (lock_events (op_lock op) ++ wait ++ reply_events op r) (contents q) = Some (contents q').
Proof.
  intros Hwf Hop. pose proof (fun r => lock_state_wf r q Hwf) as Hwf0. destruct op; simpl in Hop; cbn [exec_queue_op op_lock].
  - destruct (enqueue_history env lock handle notify q Hwf Hop) as (x & q' & wait & Hrun & Hrest).
    exists (ReplyEnqueue x), q', wait. split; [|exact Hrest]. unfold_cpp. by rewrite Hrun.
  - destruct (tryDequeue_spec lock q Hwf) as (q' & Hrun & ? & _ & _ & Hc). eexists _, q', [].
    split_and!; [unfold_cpp; by rewrite Hrun | done | done |]. rewrite replay_app, replay_lock, Hc. cbn [reply_events mbind option_bind].
    destruct (lock_ok lock); [|done]. destruct (contents (lock_state lock q)) as [|h hs]; [done|]. exact (replay_left [h] hs).
  - eexists _, (lock_state lock q), []. split_and!; [unfold_cpp; by rewrite (peek_spec lock q Hwf) | done | done |].
    by rewrite !app_nil_r, replay_lock.
  - destruct (drain_spec lock q Hwf Hop) as (q' & Hrun & ? & Hc & _). eexists _, q', [].
    split_and!; [unfold_cpp; by rewrite Hrun | done | done |]. rewrite replay_app, replay_lock, Hc. cbn [reply_events mbind option_bind app].
    rewrite <- (app_nil_r (contents (lock_state lock q))) at 2. apply replay_left.
  - destruct (closeAndDrain_spec lock q Hwf Hop) as (q' & Hrun & ? & Hc & _). eexists _, q', [].
    split_and!; [unfold_cpp; by rewrite Hrun | done | done |]. rewrite replay_app, replay_lock, Hc. cbn [reply_events mbind option_bind app].
    rewrite <- (app_nil_r (contents (lock_state lock q))) at 2. apply replay_left.
  - destruct (lock_ok lock) eqn:Hl.
    + destruct (discardPool_spec lock pool_id q Hwf Hl) as (q' & Hrun & ? & _ & Hc). eexists _, q', [].
      split_and!; [unfold_cpp; by rewrite Hrun | done | done |]. rewrite replay_app, replay_lock, Hc. simpl. by rewrite Hl.
    + eexists _, (lock_state lock q), []. split_and!; [|done|done|].
      * unfold discardPool. unfold_cpp. by rewrite PthreadLock_run, Hl.
      * rewrite replay_app, replay_lock. simpl. by rewrite Hl.
  - exists (ReplyStats (match (stats lock q).1 with Ret x => x | _ => mkQueueStats 0 0 0 0 0 0 0 0 0 0 0 end)), (lock_state lock q), [].
    split_and!; [|done|done|by rewrite !app_nil_r, replay_lock].
    unfold stats, header_. unfold_cpp. rewrite PthreadLock_run. by destruct (lock_ok lock).
  - unfold close, set_header. destruct (qc_attached client); simpl.
    2: { by eexists _, q, []. }
    unfold_cpp. rewrite PthreadLock_run. destruct (lock_ok lock); simpl.
    + destruct (set_closed_wf _ (Hwf0 lock)) as (? & Hc & _). eexists _, _, []. split_and!; [done | done | done |].
      by rewrite !app_nil_r, replay_lock, Hc.
    + eexists _, (lock_state lock q), []. split_and!; [done | done | done | by rewrite !app_nil_r, replay_lock].
Qed.

Lemma exec_queue_ops_history ops q : queue_wf q -> Forall op_ok ops ->
  exists rs q' log, exec_queue_ops ops q = (Ret rs, q') /\ queue_wf q' /\ history ops q rs log /\
    replay log (contents q) = Some (contents q').
Proof.
  intros Hwf Hops. revert q Hwf. induction Hops as [|op ops Hop Hops IH]; intros q Hwf.
  - exists [], q, []. by split_and!; auto using history_nil.
  - destruct (exec_queue_op_history op q Hwf Hop) as (r & q1 & wait & Hrun & Hwf1 & Hw1 & Hr1).
    destruct (IH q1 Hwf1) as (rs & q2 & log & Hrun2 & Hwf2 & Hh2 & Hr2).
    exists (r :: rs), q2, ((lock_events (op_lock op) ++ wait ++ reply_events op r) ++ log). split_and!; [|done| |].
    + cbn [exec_queue_ops]. unfold_cpp. by rewrite Hrun, Hrun2.
    + by eapply history_cons.
    + by rewrite replay_app, Hr1.
Qed.

(** ** Memory safety without trust in the ring *)

Definition stays_inside {A} (c : outcome A * SharedQueue) : Prop :=
  match c with (Undef, _) => False | (_, q') => ring_safe q' end.

Lemma lock_state_safe r q : ring_safe q -> ring_safe (lock_state r q).
Proof. intros Hs. destruct r; simpl; auto. destruct Hs. split; simpl; auto; lia. Qed.

Lemma drain_loop_inside n q : ring_safe q -> Z.to_nat (qh_size (sq_header q)) = n ->
  exists hs q', drain_loop n q = (Ret hs, q') /\ ring_safe q'.
Proof.
  revert q. induction n as [|n IH]; intros q Hs Hn; pose proof (rs_size _ Hs);
    cbn [drain_loop]; unfold header_; unfold_cpp.
  - rewrite (proj2 (Z.eqb_eq _ _)) by lia. by exists [], q.
  - rewrite (proj2 (Z.eqb_neq _ _)) by lia. rewrite slot_head_run, advance_head_run by (done || lia).
    destruct (IH (popped q)) as (hs & q' & -> & ?); [apply popped_safe; auto; lia | simpl; lia | eauto].
Qed.

Lemma drain_all_inside q : ring_safe q -> stays_inside (drain_all q).
Proof.
  intros Hs. unfold drain_all, header_, set_header. unfold_cpp.
  destruct (drain_loop_inside _ q Hs eq_refl) as (hs & q' & -> & []). simpl. by split.
Qed.

Lemma wait_for_space_inside wakeups expiry elapsed q :
  ring_safe q -> Forall (fun w => forall q, ring_safe q -> ring_safe (wk_others w q)) wakeups ->
  (forall q, ring_safe q -> ring_safe (expiry q)) ->
  exists result q', wait_for_space wakeups expiry elapsed q = (Ret result, q') /\ ring_safe q' /\
    (result = None -> qh_size (sq_header q') <> qh_capacity (sq_header q') \/ closed q' = true).
Proof.
  intros Hs Hall Hexp. revert q Hs. induction Hall as [|w wakeups Hw Hall IH]; intros q Hs;
    cbn [wait_for_space]; unfold header_, set_header; unfold_cpp;
    (destruct (_ && _) eqn:Hfull; cbn [negb]; bools;
      [| exists None, q; split_and!; auto; intros _; destruct Hfull; bools;
         [by left | right; unfold closed; by apply negb_true_iff, Z.eqb_neq]]).
  - eexists _, _. split_and!; [done| |done]. eapply same_ring_safe; [|by apply Hexp]. by split_and!.
  - specialize (Hw q Hs). set (q1 := wk_others w q) in *. clearbody q1.
    assert (Hrec : exists b q2, recoverConditionWaitOwnerDeath (wk_error w) q1 = (Ret b, q2) /\ ring_safe q2).
    { destruct (wk_error w); simpl; eexists _, _; (split; [done|]); auto.
      by apply (lock_state_safe (LockOwnerDead consistent) q1). }
    destruct Hrec as ([] & q2 & -> & Hs2); cbn [negb]; [by apply IH|].
    eexists _, _. split_and!; [done| |done]. eapply same_ring_safe; [|exact Hs2]. by split_and!.
Qed.

Lemma append_slot_inside q handle notify need dropped blocked t :
  ring_safe q -> qh_size (sq_header q) < qh_capacity (sq_header q) ->
  stays_inside (append_slot handle notify need dropped blocked t q).
Proof.
  intros Hs Hlt. rewrite append_slot_run by done.
  assert (ring_safe (rolled_back q handle)) by (destruct Hs; split; simpl; rewrite ?length_insert; auto).
  pose proof (pushed_safe q Hs handle Hlt). by destruct notify as [[]|], need.
Qed.

(** Other processes keep the ring inside the slots, whatever else they do to it. *)
Definition env_safe (env : wait_env) : Prop :=
  (forall deadline, Forall (fun w => forall q, ring_safe q -> ring_safe (wk_others w q)) (we_wakeups env deadline)) /\
  forall q, ring_safe q -> ring_safe (we_expiry env q).

Lemma block_for_space_inside env timeout handle notify q : ring_safe q -> env_safe env ->
  stays_inside (block_for_space env timeout handle notify q).
Proof.
  intros Hs [Hwake Hexp]. unfold block_for_space. cbv zeta. set (elapsed := elapsedNanoseconds _ _).
  unfold set_header, modify, header_, gets. unfold mbind, cpp_bind. set (qb := q <| sq_header := _ |>).
  assert (Hsb : ring_safe qb) by (eapply same_ring_safe; [|exact Hs]; by split_and!).
  destruct (wait_for_space_inside _ (we_expiry env) elapsed qb Hsb
    (Hwake (monotonicDeadline (we_clock env) timeout)) Hexp) as (failed & q1 & -> & Hs1 & Hres).
  destruct failed as [status|]; [done|].
  set (q2 := q1 <| sq_header := _ |>). assert (Hsame : same_ring q1 q2) by (by split_and!).
  pose proof (same_ring_safe _ _ Hsame Hs1) as Hs2.
  destruct (negb (qh_closed (sq_header q2) =? 0)) eqn:Hcl; [done|].
  apply append_slot_inside; [done|]. pose proof (rs_size _ Hs2).
  destruct (Hres eq_refl) as [Hne | Hclosed]; [simpl in *; lia|].
  change (closed q1 = false) in Hcl. congruence.
Qed.

Lemma enqueue_inside r env handle notify q : ring_safe q -> env_safe env ->
  stays_inside (enqueue r env handle notify q).
Proof.
  intros Hs Henv. unfold enqueue. unfold mbind, cpp_bind. rewrite PthreadLock_run.
  pose proof (lock_state_safe r q Hs) as Hs0. set (q0 := lock_state r q) in *. clearbody q0. clear q Hs.
  pose proof (rs_size _ Hs0). pose proof (rs_capacity _ Hs0).
  destruct (lock_ok r); cbn [negb]; [|done]. unfold header_, gets at 1.
  destruct (negb (qh_closed _ =? 0)); [done|].
  destruct (negb (_ =? qh_capacity _)) eqn:Hfull; bools; [apply append_slot_inside; auto; lia|].
  destruct (OverflowPolicy_of_u16 _); try by apply block_for_space_inside.
  - unfold set_header, modify. simpl. eapply same_ring_safe; [|exact Hs0]. by split_and!.
  - rewrite slot_head_run, advance_head_run by (done || lia). unfold set_header, modify at 1.
    apply append_slot_inside; [|simpl; lia].
    eapply same_ring_safe; [|apply (popped_safe q0 Hs0); lia]. by split_and!.
Qed.

(** *** An accepted handle is the newest entry *)

(** The handle in the slot before the tail. *)
Definition newest (q : SharedQueue) : option ChunkHandle :=
  if 0 <? qh_size (sq_header q) then sq_slots q !! Z.to_nat ((qh_tail (sq_header q) - 1) mod qh_capacity (sq_header q)) else None.

(** In a well-formed queue it is the last of the handles. *)
Lemma newest_last q : queue_wf q -> newest q = list.last (contents q).
Proof.
  intros Hwf. pose proof (qw_safe _ Hwf) as Hs. pose proof (rs_size _ Hs). pose proof (rs_capacity _ Hs). pose proof (rs_slots _ Hs).
  unfold newest. destruct (0 <? qh_size (sq_header q)) eqn:Hsz; bools.
  2: { unfold contents. by replace (qh_size (sq_header q)) with 0 by lia. }
  rewrite last_lookup, length_contents. unfold contents. rewrite list_lookup_fmap, lookup_seq_lt by lia. simpl. unfold ring_at.
  rewrite (qw_tail _ Hwf), Zminus_mod_idemp_l.
  replace (qh_head (sq_header q) + qh_size (sq_header q) - 1) with (qh_head (sq_header q) + Z.of_nat (pred (Z.to_nat (qh_size (sq_header q))))) by lia.
  pose proof (Z.mod_pos_bound (qh_head (sq_header q) + Z.of_nat (pred (Z.to_nat (qh_size (sq_header q))))) (qh_capacity (sq_header q)) ltac:(lia)).
  destruct (lookup_lt_is_Some_2 (sq_slots q) (Z.to_nat ((qh_head (sq_header q) + Z.of_nat (pred (Z.to_nat (qh_size (sq_header q))))) mod qh_capacity (sq_header q)))) as [h Hh]; [lia|].
  by rewrite Hh.
Qed.

(** A wait that fails does not accept. *)
Lemma wait_for_space_refuses wakeups expiry elapsed : forall q status q',
  wait_for_space wakeups expiry elapsed q = (Ret (Some status), q') -> status <> QueueAccepted.
Proof.
  induction wakeups as [|w wakeups IH]; intros q status q'; cbn [wait_for_space]; unfold header_, set_header; unfold_cpp;
    (destruct (negb _); [done|]); [by intros [= <- _]|].
  destruct (recoverConditionWaitOwnerDeath _ _) as [[[]| |] q1]; cbn [negb]; [apply IH|by intros [= <- _]|done|done].
Qed.

Definition accepts_as_newest (handle : ChunkHandle) (c : outcome QueueEnqueueResult * SharedQueue) : Prop :=
  match c with (Ret result, q') => er_status result = QueueAccepted -> newest q' = Some handle | _ => True end.

Lemma append_slot_newest q handle notify need dropped blocked t :
  ring_safe q -> qh_size (sq_header q) < qh_capacity (sq_header q) ->
  accepts_as_newest handle (append_slot handle notify need dropped blocked t q).
Proof.
  intros Hs Hlt. rewrite append_slot_run by done.
  assert (newest (pushed q handle) = Some handle).
  { pose proof (rs_size _ Hs). pose proof (rs_tail _ Hs). pose proof (rs_slots _ Hs). unfold newest. simpl.
    rewrite (proj2 (Z.ltb_lt _ _)) by lia. rewrite Zminus_mod_idemp_l, Z.add_simpl_r, Z.mod_small by lia.
    by rewrite list_lookup_insert_eq by lia. }
  destruct notify as [[]|], need; simpl; by intros Hst.
Qed.

Lemma enqueue_newest r env handle notify q : ring_safe q -> env_safe env ->
  accepts_as_newest handle (enqueue r env handle notify q).
Proof.
  intros Hs [Hwake Hexp]. unfold enqueue. unfold mbind, cpp_bind. rewrite PthreadLock_run.
  pose proof (lock_state_safe r q Hs) as Hs0. set (q0 := lock_state r q) in *. clearbody q0. clear q Hs.
  pose proof (rs_size _ Hs0). pose proof (rs_capacity _ Hs0).
  destruct (lock_ok r); cbn [negb]; [|done]. unfold header_, gets at 1.
  destruct (negb (qh_closed _ =? 0)); [done|].
  destruct (negb (_ =? qh_capacity _)) eqn:Hfull; bools; [apply append_slot_newest; auto; lia|].
  assert (Hblock : accepts_as_newest handle (block_for_space env (qh_block_timeout_ms (sq_header q0)) handle notify q0)).
  { unfold block_for_space. cbv zeta. set (elapsed := elapsedNanoseconds _ _).
    unfold set_header, modify, header_, gets. unfold mbind, cpp_bind. set (qb := q0 <| sq_header := _ |>).
    assert (Hsb : ring_safe qb) by (eapply same_ring_safe; [|exact Hs0]; by split_and!).
    destruct (wait_for_space_inside _ (we_expiry env) elapsed qb Hsb
      (Hwake (monotonicDeadline (we_clock env) (qh_block_timeout_ms (sq_header q0)))) Hexp) as (failed & q1 & Hrun & Hs1 & Hres).
    rewrite Hrun. destruct failed as [status|]; [intros Hst; by apply wait_for_space_refuses in Hrun|].
    set (q2 := q1 <| sq_header := _ |>). assert (Hsame : same_ring q1 q2) by (by split_and!).
    pose proof (same_ring_safe _ _ Hsame Hs1) as Hs2.
    destruct (negb (qh_closed (sq_header q2) =? 0)) eqn:Hcl; [done|].
    apply append_slot_newest; [done|]. pose proof (rs_size _ Hs2).
    destruct (Hres eq_refl) as [Hne | Hclosed]; [simpl in *; lia|].
    change (closed q1 = false) in Hcl. congruence. }
  destruct (OverflowPolicy_of_u16 _); try exact Hblock; [done|].
  rewrite slot_head_run, advance_head_run by (done || lia). unfold set_header, modify at 1.
  apply append_slot_newest; [|simpl; lia].
  eapply same_ring_safe; [|apply (popped_safe q0 Hs0); lia]. by split_and!.
Qed.

(** A handle that was dropped for another was in a slot. *)
Lemma append_slot_dropped handle notify need dropped blocked t q result q' :
  append_slot handle notify need dropped blocked t q = (Ret result, q') -> forall old, er_dropped_oldest result = Some old -> dropped = Some old.
Proof.
  unfold append_slot, set_slot, ring_mod, header_, set_header. unfold_cpp.
  repeat case_match; try done; intros Heq old; injection Heq as <- _; done.
Qed.

Lemma enqueue_dropped r env handle notify q result q' : ring_safe q ->
  enqueue r env handle notify q = (Ret result, q') -> forall old, er_dropped_oldest result = Some old -> old ∈ sq_slots q.
Proof.
  intros Hs. unfold enqueue. unfold mbind, cpp_bind. rewrite PthreadLock_run.
  assert (Hslots : sq_slots (lock_state r q) = sq_slots q) by (by destruct r).
  pose proof (lock_state_safe r q Hs) as Hs0. rewrite <- Hslots. set (q0 := lock_state r q) in *. clearbody q0. clear Hslots.
  destruct (lock_ok r); cbn [negb]; [|by intros [= <- _]]. unfold header_, gets at 1.
  destruct (negb (qh_closed _ =? 0)); [by intros [= <- _]|].
  destruct (negb (_ =? qh_capacity _)) eqn:Hfull; bools; [intros Hrun old Hold; by eapply append_slot_dropped in Hrun; [|exact Hold]|].
  assert (Hblock : block_for_space env (qh_block_timeout_ms (sq_header q0)) handle notify q0 = (Ret result, q') ->
    forall old, er_dropped_oldest result = Some old -> old ∈ sq_slots q0).
  { unfold block_for_space, header_, set_header. unfold_cpp. destruct (wait_for_space _ _ _ _) as [[[status|]| |] q1]; try done; [by intros [= <- _]|].
    destruct (negb _); [by intros [= <- _]|]. intros Hrun old Hold. by eapply append_slot_dropped in Hrun; [|exact Hold]. }
  destruct (OverflowPolicy_of_u16 _); try exact Hblock; [by intros [= <- _]|].
  pose proof (rs_size _ Hs0). pose proof (rs_capacity _ Hs0). pose proof (rs_head _ Hs0). pose proof (rs_slots _ Hs0).
  destruct (slot (qh_head (sq_header q0)) q0) as [[dropped| |] q1] eqn:Hslot; [|done|done].
  assert (Hd : dropped ∈ sq_slots q0).
  { unfold slot in Hslot. unfold_cpp. repeat case_match; try done. injection Hslot as <- _. by eapply list_elem_of_lookup_2. }
  destruct (advance_head q1) as [[[]| |] q2]; [|done|done]. unfold set_header, modify at 1. intros Hrun old Hold.
  eapply append_slot_dropped in Hrun; [|exact Hold]. by injection Hrun as ->.
Qed.

Lemma discardPool_inside r pool_id q : ring_safe q -> stays_inside (discardPool r pool_id q).
Proof.
  intros Hs. unfold discardPool, header_, set_header. unfold_cpp. rewrite PthreadLock_run.
  pose proof (lock_state_safe r q Hs) as Hs0. set (q0 := lock_state r q) in *. clearbody q0. clear q Hs.
  destruct (lock_ok r); cbn [negb]; [|done]. pose proof (rs_size _ Hs0). pose proof (rs_capacity _ Hs0).
  pose proof (length_contents q0) as Hlen.
  destruct (discard_loop_spec pool_id (contents q0) (Z.to_nat (qh_size (sq_header q0))) 0 q0)
    as (q1 & Hrun & Hh & Hsl & _); try done.
  { unfold capacity. lia. }
  { intros j h Hj _. by apply lookup_contents_inv in Hj as [_ ->]. }
  set (kept := filter (fun h => keeps pool_id h = true) (contents q0)) in *.
  assert (Hk : (length kept <= length (contents q0))%nat) by apply length_filter.
  change (Z.of_nat 0) with 0 in Hrun. change (Z.of_nat (length (filter _ (take 0 _)))) with 0 in Hrun.
  rewrite Hrun. unfold ring_mod. rewrite (proj2 (Z.eqb_neq _ _)) by lia. unfold_cpp. simpl.
  destruct Hs0. split; simpl; rewrite ?Hh, ?Hsl; auto; try lia. apply Z.mod_pos_bound. lia.
Qed.

Definition op_env_safe (op : queue_op) : Prop :=
  match op with QEnqueue _ env _ _ => env_safe env | _ => True end.

Lemma stays_inside_ret {A B} (c : cpp SharedQueue A) (f : A -> B) q :
  stays_inside (c q) -> stays_inside ((x ← c; mret (f x)) q).
Proof. unfold_cpp. by destruct (c q) as [[] ?]. Qed.

Lemma exec_queue_op_inside op q : ring_safe q -> op_env_safe op -> stays_inside (exec_queue_op op q).
Proof.
  intros Hs Henv. destruct op; cbn [exec_queue_op]; apply stays_inside_ret.
  - by apply enqueue_inside.
  - unfold tryDequeue, header_, set_header. unfold_cpp. rewrite PthreadLock_run.
    pose proof (lock_state_safe lock q Hs) as Hs0. set (q0 := lock_state lock q) in *. clearbody q0.
    pose proof (rs_size _ Hs0). destruct (_ || _) eqn:Hc; [done|]. bools.
    rewrite slot_head_run, advance_head_run by (done || lia). simpl.
    eapply same_ring_safe; [|apply (popped_safe q0 Hs0); lia]. by split_and!.
  - unfold peek, header_. unfold_cpp. rewrite PthreadLock_run.
    pose proof (lock_state_safe lock q Hs) as Hs0. set (q0 := lock_state lock q) in *. clearbody q0.
    destruct (_ || _) eqn:Hc; [done|]. by rewrite slot_head_run.
  - unfold drain. unfold_cpp. rewrite PthreadLock_run. pose proof (lock_state_safe lock q Hs).
    destruct (lock_ok lock); cbn [negb]; [by apply drain_all_inside | done].
  - unfold closeAndDrain, set_header. unfold_cpp. rewrite PthreadLock_run. pose proof (lock_state_safe lock q Hs).
    destruct (lock_ok lock); cbn [negb]; [|done]. apply drain_all_inside.
    eapply same_ring_safe; [|done]. by split_and!.
  - by apply discardPool_inside.
  - unfold stats, header_. unfold_cpp. rewrite PthreadLock_run. pose proof (lock_state_safe lock q Hs).
    by destruct (lock_ok lock).
  - unfold close, set_header. unfold_cpp. destruct (qc_attached client); [|done]. cbn [negb].
    rewrite PthreadLock_run. pose proof (lock_state_safe lock q Hs). destruct (lock_ok lock); [|done].
    eapply same_ring_safe; [|done]. by split_and!.
Qed.

(** ** Creating, opening, closing *)

(** Header fields as their unsigned types allow them. *)
Definition header_typed (h : QueueHeader) : Prop :=
  0 <= qh_head h /\ 0 <= qh_tail h /\ 0 <= qh_size h /\ fits 32 (qh_attachment_count h).

Lemma requiredQueueSegmentSize_spec capacity : 0 < capacity <= kMaxSubscriberQueueDepth ->
  requiredQueueSegmentSize capacity = Ret (slotsOffset + sizeof_ChunkHandle * capacity).
Proof.
  unfold kMaxSubscriberQueueDepth. intros Hc. unfold requiredQueueSegmentSize, kMaxSubscriberQueueDepth.
  rewrite (proj2 (Z.eqb_neq _ _)), (proj2 (Z.ltb_ge _ _)) by lia. cbn [orb].
  unfold checkedMultiply, sizeof_ChunkHandle. rewrite (proj2 (Z.ltb_ge (size_max / _) _)).
  2: { apply Z.div_le_lower_bound; unfold umax; lia. }
  rewrite andb_false_r. unfold checkedAdd. change slotsOffset with 256. unfold umax.
  rewrite (proj2 (Z.ltb_ge _ _)) by lia. f_equal. lia.
Qed.

Lemma validateDescriptor_spec d : 0 <= qd_capacity d -> validateDescriptor d = Ret tt ->
  0 < qd_capacity d <= kMaxSubscriberQueueDepth /\
  qd_segment_size d = slotsOffset + sizeof_ChunkHandle * qd_capacity d /\ qd_queue_id d <> 0 /\
  qd_layout_version d = kQueueLayoutVersion /\ validOverflowPolicy (qd_overflow_policy d) = true.
Proof.
  intros Hpos. unfold validateDescriptor. destruct (_ || _) eqn:Hc; [done|]. bools.
  unfold mbind, outcome_bind. rewrite requiredQueueSegmentSize_spec by lia.
  destruct (qd_segment_size d =? _) eqn:Hs; [|done]. bools. intros _. split_and!; auto; lia.
Qed.

Lemma validateDescriptor_defined d : validateDescriptor d <> Undef.
Proof.
  unfold validateDescriptor, requiredQueueSegmentSize, mbind, outcome_bind. by repeat case_match.
Qed.

(** Whichever initialisation fails first, the [catch] block destroys what was initialised. *)
Lemma initialize_sync_cases errors : exists o live, initialize_sync errors [] = (o, live) /\
  match o with
  | Ret _ => live = [QueueCondition; ConditionAttributes; QueueMutex; MutexAttributes]
  | Throw e => snd (undo_sync live) = []
  | Undef => False
  end.
Proof.
  unfold initialize_sync, sync_init. cbn [for_each]. unfold_cpp.
  repeat match goal with |- context [errors ?c] => destruct (errors c); [eexists _, _; split; reflexivity|] end.
  eexists _, _. split; reflexivity.
Qed.

Definition new_queue (d : QueueDescriptor) (client : QueueClient) (q : SharedQueue) : Prop :=
  queue_wf q /\ contents q = [] /\ closed q = false /\ capacity q = Z.to_nat (qd_capacity d) /\
  qh_attachment_count (sq_header q) = 1 /\ client = mkQueueClient d true true /\
  immutableHeaderMatches (sq_header q) d = true /\ queue_object_size q = qd_segment_size d /\
  sq_slots q = replicate (Z.to_nat (qd_capacity d)) empty_ChunkHandle.

Lemma undo_sync_runs live : exists live', runs undo_sync live tt live'.
Proof.
  destruct (for_each_invariant (fun _ : list sync_object => True)
    [QueueCondition; QueueMutex; ConditionAttributes; MutexAttributes] (fun object =>
      live ← this; if bool_decide (object ∈ live) then sync_destroy object else mret tt) live) as (l & Hrun & _); [|done|eauto].
  intros o l _ _. unfold runs. unfold_cpp. case_bool_decide; eexists; by split.
Qed.

Lemma create_queue_spec os errors d : 0 <= qd_capacity d ->
  exists o live, create_queue os errors d [] = (o, live) /\
  match o with
  | Ret (client, q) => new_queue d client q /\ live = [QueueCondition; QueueMutex]
  | Throw _ => live = []
  | Undef => False
  end.
Proof.
  intros Hpos. unfold create_queue, lift, mbind at 1, cpp_bind at 1.
  destruct (validateDescriptor d) as [[]| |] eqn:Hv; [|by eexists _, _|by apply validateDescriptor_defined in Hv].
  apply validateDescriptor_spec in Hv as (Hc & Hseg & _ & _ & _); [|done].
  destruct (negb _); [by eexists _, _|]. destruct os; [by eexists _, _|].
  destruct (initialize_sync_cases errors) as (o & live & Hrun & Ho). rewrite Hrun. destruct o as [[]|e|]; [| |done].
  - subst live. eexists _, _. split; [reflexivity|]. split; [|done]. unfold new_queue. split_and!; auto.
    + split; [split|..]; simpl; rewrite ?length_replicate; try lia. by rewrite Z.mod_0_l by lia.
    + unfold immutableHeaderMatches. simpl. by rewrite !Z.eqb_refl.
    + unfold queue_object_size. simpl. rewrite length_replicate. lia.
  - destruct (undo_sync_runs live) as (live' & Hundo). eexists (Throw e), live'. split.
    + unfold mbind, cpp_bind. by rewrite Hundo.
    + unfold runs in Hundo. by rewrite Hundo in Ho.
Qed.

Lemma immutableHeaderMatches_capacity h d : immutableHeaderMatches h d = true -> qh_capacity h = qd_capacity d.
Proof. unfold immutableHeaderMatches. intros. bools. done. Qed.

(** Opening an object with arbitrary contents is defined; when it succeeds the ring stays
    inside the slots. *)
Lemma open_queue_safe os lock d q : header_typed (sq_header q) -> 0 <= qd_capacity d ->
  match open_queue os lock d q with
  | (Undef, _) => False
  | (Throw _, _) => True
  | (Ret client, q') => ring_safe q' /\ closed q' = false /\ qc_attached client = true /\
      qh_attachment_count (sq_header q') = qh_attachment_count (sq_header q) + 1
  end.
Proof.
  intros (Hh & Ht & Hsz & Hatt) Hpos. unfold open_queue. unfold_cpp.
  destruct (validateDescriptor d) as [[]| |] eqn:Hv; [|done|by apply validateDescriptor_defined in Hv].
  apply validateDescriptor_spec in Hv as (Hc & Hseg & _ & _ & _); [|done].
  unfold queue_region_open. destruct (validateArguments _ _); [|done]. cbn [negb]. destruct os; [done|].
  destruct (queue_object_size q =? _) eqn:Hobj; [|done]. cbn [negb]. bools.
  destruct (immutableHeaderMatches _ _) eqn:Him; [|done]. cbn [negb].
  apply immutableHeaderMatches_capacity in Him. unfold queue_object_size, sizeof_ChunkHandle in *.
  rewrite PthreadLock_run. destruct (lock_ok lock); [|done]. cbn [negb]. unfold header_, set_header. unfold_cpp.
  set (q0 := lock_state lock q).
  assert (Hq0 : qh_capacity (sq_header q0) = qd_capacity d /\ length (sq_slots q0) = length (sq_slots q) /\
    0 <= qh_head (sq_header q0) /\ 0 <= qh_tail (sq_header q0) /\ 0 <= qh_size (sq_header q0) /\
    qh_attachment_count (sq_header q0) = qh_attachment_count (sq_header q))
    by (destruct lock; simpl; split_and!; auto; lia).
  destruct Hq0 as (? & Hlen & ? & ? & ? & Hatt0). clearbody q0.
  destruct (ringInvariantsHold _) eqn:Hring; [|done]. cbn [negb]. unfold ringInvariantsHold in Hring. bools.
  destruct (_ || _) eqn:Hcl; [done|]. bools.
  rewrite wrap_small by (unfold fits, umax in *; lia).
  split_and!; [|by apply negb_false_iff, Z.eqb_eq | done | simpl; lia].
  split; simpl; lia.
Qed.

(** The detachments of [clients], each with an acquired lock. *)
Fixpoint detach_all (clients : list QueueClient) : cpp SharedQueue (list bool) :=
  match clients with
  | [] => mret []
  | c :: clients => '(_, last) ← detach c LockAcquired; rest ← detach_all clients; mret (last :: rest)
  end.

Lemma detach_all_spec clients q :
  Forall (fun c => qc_attached c = true) clients ->
  qh_attachment_count (sq_header q) = Z.of_nat (length clients) ->
  Z.of_nat (length clients) <= u32_max ->
  exists q', detach_all clients q =
      (Ret (match clients with [] => [] | _ => replicate (length clients - 1) false ++ [true] end), q') /\
    qh_attachment_count (sq_header q') = 0 /\ contents q' = contents q.
Proof.
  intros Hall. revert q. induction Hall as [|c clients Hc Hall IH]; intros q Hcount Hmax.
  - exists q. by split_and!.
  - cbn [length] in Hcount, Hmax. cbn [detach_all]. unfold detach, header_, set_header. rewrite Hc. unfold_cpp. simpl.
    rewrite (proj2 (Z.eqb_neq _ _)) by lia. simpl.
    rewrite Hcount, wrap_small by (unfold fits, umax in *; lia).
    set (q1 := q <| sq_header := _ |>).
    destruct (IH q1) as (q' & Hrun & Hz & Hcont); [simpl; lia | lia |].
    assert (Hsame : contents q1 = contents q) by (apply same_ring_contents; by split_and!).
    rewrite Hrun. exists q'. split_and!; [|done|congruence]. destruct clients as [|c' clients].
    + simpl. done.
    + rewrite (proj2 (Z.eqb_neq _ _)) by (simpl; lia). cbn [length]. by rewrite !Nat.sub_succ, !Nat.sub_0_r.
Qed.

(** ** Time *)

Definition timespec_ns (t : timespec) : Z := tv_sec t * 1000000000 + tv_nsec t.
Definition normalized (t : timespec) : Prop := 0 <= tv_sec t /\ 0 <= tv_nsec t < 1000000000.

Lemma monotonicDeadline_spec now timeout_ms : normalized now -> fits 64 timeout_ms ->
  normalized (monotonicDeadline (Some now) timeout_ms) /\
  (tv_sec now < time_max - timeout_ms / 1000 ->
   timespec_ns (monotonicDeadline (Some now) timeout_ms) = timespec_ns now + timeout_ms * 1000000 /\
   tv_sec (monotonicDeadline (Some now) timeout_ms) <= time_max).
Proof.
  intros [Hs Hn] Ht. unfold fits in Ht. unfold monotonicDeadline, timespec_ns, normalized. cbv zeta.
  pose proof (Z.div_mod timeout_ms 1000 ltac:(lia)). pose proof (Z.mod_pos_bound timeout_ms 1000 ltac:(lia)).
  assert (0 <= timeout_ms / 1000) by (apply Z.div_pos; lia). unfold time_max.
  repeat case_match; bools; simpl; split_and!; intros; try lia.
Qed.

(** ** A concrete queue *)

Definition example_queue_descriptor : QueueDescriptor :=
  mkQueueDescriptor "/mw-q-5" 5 304 2 kQueueLayoutVersion DropOldest 100.
Definition example_queue : SharedQueue :=
  match fst (create_queue None (fun _ => None) example_queue_descriptor []) with
  | Ret (_, q) => q
  | _ => mkSharedQueue (fresh_header example_queue_descriptor) []
  end.
Definition quiet_env : wait_env :=
  mkWaitEnv (Some (mkTimespec 10 0)) (mkTimespec 10 0) (mkTimespec 10 5) (fun _ => []) id.
Definition h1 : ChunkHandle := mkChunkHandle 7 0 1 320.
Definition h2 : ChunkHandle := mkChunkHandle 7 1 1 448.
Definition h3 : ChunkHandle := mkChunkHandle 8 0 1 320.

Lemma example_queue_wf : queue_wf example_queue.
Proof.
  destruct (create_queue_spec None (fun _ => None) example_queue_descriptor ltac:(done)) as (o & live & Hrun & H).
  unfold example_queue. rewrite Hrun. cbn [fst].
  destruct o as [[client q]| |]; [apply H | vm_compute in Hrun; discriminate | done].
Qed.

Lemma quiet_env_quiet : quiet quiet_env.
Proof. split; [intros; constructor | done]. Qed.

(** ** Theorems *)

(** Creating a queue is always defined; a created queue satisfies the ring invariant, is
    empty and open with one attachment, and its mutex and condition variable are live; when
    any of the eight pthread initialisations fails, every object initialised before it is
    destroyed again. *)
Theorem queue_creation_is_clean os errors d : 0 <= qd_capacity d ->
  exists o live, create_queue os errors d [] = (o, live) /\
  match o with
  | Ret (client, q) => new_queue d client q /\ live = [QueueCondition; QueueMutex]
  | Throw _ => live = []
  | Undef => False
  end.
Proof. apply create_queue_spec. Qed.

Lemma queue_creation_is_clean_witness :
  exists o live, create_queue None (fun c => match c with CondInit => Some 12 | _ => None end) example_queue_descriptor [] =
    (o, live) /\ live = [].
Proof.
  destruct (queue_creation_is_clean None (fun c => match c with CondInit => Some 12 | _ => None end)
              example_queue_descriptor ltac:(done)) as (o & live & Hrun & Ho).
  exists o, live. split; [exact Hrun|]. vm_compute in Hrun. injection Hrun as <- <-. exact Ho.
Defined.


(** C31: an enqueue that holds the lock returns under every policy, keeps the ring invariant, and
    does to the list of handles what the policy says.  Under the blocking policy it waits
    exactly while the queue is full and open and through the wake-ups it is given; it then adds its
    handle to the queue the others left, or, when the wait ended with the deadline, the loss of
    the mutex or the closing of the queue, leaves that queue as it is.  The others keep the
    ring invariant while they hold the mutex. *)
Theorem enqueue_meets_specification env r handle notify q :
  queue_wf q -> env_ok env -> lock_ok r = true ->
  exists result q', enqueue r env handle notify q = (Ret result, q') /\ queue_wf q' /\
    enqueue_spec env (lock_state r q) handle notify result q'.
Proof. intros Hwf Henv Hr. apply enqueue_refines; auto using lock_state_wf. Qed.

(** The enqueued, dequeued and dropped-oldest counters and the current size stay
    balanced, in 64-bit arithmetic, through every sequence of enqueues (rolled back ones
    included) and dequeues. *)
Theorem queue_counters_balance ops q rs q' :
  queue_wf q -> Forall counted_op ops -> exec_queue_ops ops q = (Ret rs, q') ->
  queue_balance q' = queue_balance q.
Proof.
  intros Hwf Hops Hrun.
  destruct (exec_queue_ops_balance ops q Hwf Hops) as (rs' & q1 & Hrun' & Hbal). rewrite Hrun in Hrun'. by simplify_eq.
Qed.

(** Discarding a pool keeps exactly the handles of other pools, in order; with pool 0
    it empties the queue. *)
Theorem discardPool_filters r pool_id q :
  queue_wf q -> lock_ok r = true ->
  exists q', discardPool r pool_id q = (Ret tt, q') /\ queue_wf q' /\
    contents q' = filter (fun h => keeps pool_id h = true) (contents (lock_state r q)).
Proof.
  intros Hwf Hr. destruct (discardPool_spec r pool_id q Hwf Hr) as (q' & ? & ? & _ & ?). eauto.
Qed.

(** C32: after a process died holding the mutex with the ring in any state, head, tail and
    size out of range included, the next locker finds an empty well-formed ring, and its
    enqueue on an open queue succeeds with just its handle queued. *)
Theorem owner_death_recovers q env handle :
  queue_memory q -> closed q = false -> env_ok env ->
  exists q', enqueue (LockOwnerDead true) env handle (Some true) q =
      (Ret (mkQueueEnqueueResult QueueAccepted None true false 0), q') /\
    queue_wf q' /\ contents q' = [handle] /\
    qh_owner_death_recoveries (sq_header (lock_state (LockOwnerDead true) q)) =
      wrap 64 (qh_owner_death_recoveries (sq_header q) + 1).
Proof.
  intros Hmem Hopen Henv.
  pose proof (reset_ring_wf q Hmem : queue_wf (lock_state (LockOwnerDead true) q)) as Hwf.
  destruct (enqueue_refines env (LockOwnerDead true) handle (Some true) q Hwf Henv eq_refl)
    as (result & q' & Hrun & Hwf' & Hspec).
  assert (Hnil : contents (lock_state (LockOwnerDead true) q) = []) by done.
  assert (Hcl : closed (lock_state (LockOwnerDead true) q) = false) by done.
  assert (Hcap : (0 < capacity (lock_state (LockOwnerDead true) q))%nat)
    by (unfold capacity; destruct Hmem; simpl; lia).
  destruct Hspec; try congruence; try (rewrite Hnil in *; simpl in *; lia).
  assert (sent = true) as -> by (apply H2; by split). exists q'. by split_and!.
Qed.

(** No queue method ever indexes outside the slots or divides by zero, even on a ring
    whose head, tail and size disagree, as long as each is in range; it leaves them in
    range. *)
Theorem queue_stays_inside op q :
  ring_safe q -> op_env_safe op -> stays_inside (exec_queue_op op q).
Proof. apply exec_queue_op_inside. Qed.

(** Opening an object of arbitrary contents is always defined, and succeeds only on an
    open queue whose ring is inside its slots, counting one more attachment. *)
Theorem open_queue_validates os lock d q :
  header_typed (sq_header q) -> 0 <= qd_capacity d ->
  match open_queue os lock d q with
  | (Undef, _) => False
  | (Throw _, _) => True
  | (Ret client, q') => ring_safe q' /\ closed q' = false /\ qc_attached client = true /\
      qh_attachment_count (sq_header q') = qh_attachment_count (sq_header q) + 1
  end.
Proof. apply open_queue_safe. Qed.

(** Of all the processes attached to a queue, exactly the last to detach destroys the
    mutex and the condition variable; detaching leaves the handles alone. *)
Theorem last_detach_destroys clients q :
  Forall (fun c => qc_attached c = true) clients -> clients <> [] ->
  qh_attachment_count (sq_header q) = Z.of_nat (length clients) -> Z.of_nat (length clients) <= u32_max ->
  exists q', detach_all clients q = (Ret (replicate (length clients - 1) false ++ [true]), q') /\
    qh_attachment_count (sq_header q') = 0 /\ contents q' = contents q.
Proof. intros Hall Hne Hcount Hmax. destruct (detach_all_spec clients q Hall Hcount Hmax) as (q' & ? & ?). by destruct clients; eauto. Qed.

(** The deadline of a blocking enqueue is a normalised time exactly the timeout after
    now, saturating instead of overflowing [time_t]. *)
Theorem deadline_is_exact now timeout_ms :
  normalized now -> fits 64 timeout_ms ->
  normalized (monotonicDeadline (Some now) timeout_ms) /\
  (tv_sec now < time_max - timeout_ms / 1000 ->
   timespec_ns (monotonicDeadline (Some now) timeout_ms) = timespec_ns now + timeout_ms * 1000000 /\
   tv_sec (monotonicDeadline (Some now) timeout_ms) <= time_max).
Proof. apply monotonicDeadline_spec. Qed.

(** ** Witnesses *)

Definition example_ops : list queue_op :=
  [QEnqueue LockAcquired quiet_env h1 (Some true); QEnqueue LockAcquired quiet_env h2 (Some true);
   QEnqueue LockAcquired quiet_env h3 (Some true); QTryDequeue LockAcquired].

(** A queue for one handle that blocks its publisher, whose subscriber takes the handle while the
    publisher waits for the second time and then dies with the mutex. *)
Definition blocking_descriptor : QueueDescriptor :=
  mkQueueDescriptor "/mw-q-6" 6 280 1 kQueueLayoutVersion BlockWithTimeout 100.
Definition blocking_queue : SharedQueue :=
  match fst (create_queue None (fun _ => None) blocking_descriptor []) with
  | Ret (_, q) => q
  | _ => mkSharedQueue (fresh_header blocking_descriptor) []
  end.
Definition take_one (q : SharedQueue) : SharedQueue := (tryDequeue LockAcquired q).2.
Definition taking_env : wait_env :=
  mkWaitEnv (Some (mkTimespec 10 0)) (mkTimespec 10 0) (mkTimespec 10 5)
    (fun _ => [mkWakeup id WaitWoken; mkWakeup take_one WaitWoken]) id.

Lemma blocking_queue_wf : queue_wf blocking_queue.
Proof.
  destruct (create_queue_spec None (fun _ => None) blocking_descriptor ltac:(done)) as (o & live & Hrun & H).
  unfold blocking_queue. rewrite Hrun. cbn [fst].
  destruct o as [[client q]| |]; [apply H | vm_compute in Hrun; discriminate | done].
Qed.

Lemma id_consumes : consumes id.
Proof. intros q Hq. split; [done|]. exists []. by split. Qed.

Lemma take_one_consumes : consumes take_one.
Proof.
  intros q Hq. destruct (tryDequeue_spec LockAcquired q Hq) as (q' & Hrun & Hwf & _ & _ & Hc). unfold take_one, takes_out.
  rewrite Hrun. split; [done|]. exists (Left <$> option_list (list.head (contents q))). simpl in Hc |- *. rewrite Hc.
  destruct (contents q) as [|h hs]; [by split|]. split; [by repeat constructor | exact (replay_left [h] hs)].
Qed.

Lemma quiet_env_consumes : env_consumes quiet_env.
Proof. split; [intros; constructor | exact id_consumes]. Qed.

Lemma taking_env_consumes : env_consumes taking_env.
Proof. split; [|exact id_consumes]. intros d. constructor; [exact id_consumes|]. constructor; [exact take_one_consumes | constructor]. Qed.



(** The queue with its one place taken. *)
Definition full_queue : SharedQueue := (enqueue LockAcquired quiet_env h1 (Some true) blocking_queue).2.

Lemma full_queue_wf : queue_wf full_queue.
Proof.
  destruct (enqueue_refines quiet_env LockAcquired h1 (Some true) blocking_queue blocking_queue_wf
    (env_consumes_ok _ quiet_env_consumes) eq_refl) as (x & q' & Hrun & Hwf & _).
  unfold full_queue. by rewrite Hrun.
Qed.

Lemma enqueue_meets_specification_witness :
  exists q', enqueue LockAcquired taking_env h2 (Some true) full_queue =
      (Ret (mkQueueEnqueueResult QueueAccepted None true true 5), q') /\ queue_wf q' /\
    enqueue_spec taking_env full_queue h2 (Some true) (mkQueueEnqueueResult QueueAccepted None true true 5) q'.
Proof.
  destruct (enqueue_meets_specification taking_env LockAcquired h2 (Some true) full_queue full_queue_wf
    (env_consumes_ok _ taking_env_consumes) eq_refl) as (result & q' & Hrun & Hwf & Hspec).
  assert (Hfst : (enqueue LockAcquired taking_env h2 (Some true) full_queue).1 = Ret result) by (rewrite Hrun; reflexivity).
  vm_compute in Hfst. injection Hfst as <-. exists q'. split; [exact Hrun | split; [exact Hwf | exact Hspec]].
Defined.

Lemma queue_counters_balance_witness :
  queue_balance (exec_queue_ops example_ops example_queue).2 = queue_balance example_queue.
Proof.
  apply (queue_counters_balance example_ops example_queue
    match (exec_queue_ops example_ops example_queue).1 with Ret rs => rs | _ => [] end);
    [exact example_queue_wf | repeat constructor; intros; constructor | vm_compute; reflexivity].
Defined.

Lemma discardPool_filters_witness :
  exists q', discardPool LockAcquired 7 (exec_queue_ops (take 3 example_ops) example_queue).2 = (Ret tt, q') /\
    contents q' = [h3].
Proof.
  destruct (exec_queue_ops_history (take 3 example_ops) example_queue example_queue_wf)
    as (rs & q & log & Hrun & Hwf & _); [pose proof quiet_env_consumes; simpl; rewrite !list.Forall_cons; by split_and!|].
  destruct (discardPool_filters LockAcquired 7 (exec_queue_ops (take 3 example_ops) example_queue).2)
    as (q' & Hq & _ & Hc); [rewrite Hrun; exact Hwf | reflexivity |].
  exists q'. split; [exact Hq|]. rewrite Hc. vm_compute. reflexivity.
Defined.

Lemma owner_death_recovers_witness :
  exists q', enqueue (LockOwnerDead true) quiet_env h1 (Some true)
      (abandonMutexForTesting LockAcquired true example_queue).2 =
      (Ret (mkQueueEnqueueResult QueueAccepted None true false 0), q') /\ contents q' = [h1].
Proof.
  destruct (owner_death_recovers (abandonMutexForTesting LockAcquired true example_queue).2 quiet_env h1)
    as (q' & Hrun & _ & Hc & _);
    [vm_compute; repeat split; congruence | vm_compute; reflexivity | exact (quiet_env_ok _ quiet_env_quiet) |].
  exists q'. split; [exact Hrun | exact Hc].
Defined.

Lemma queue_stays_inside_witness : stays_inside (exec_queue_op (QTryDequeue LockAcquired) example_queue).
Proof. apply queue_stays_inside; [exact (qw_safe _ example_queue_wf) | exact I]. Defined.

Lemma open_queue_validates_witness :
  match open_queue None LockAcquired example_queue_descriptor example_queue with
  | (Ret client, q') => ring_safe q' /\ qh_attachment_count (sq_header q') = 2
  | _ => False
  end.
Proof.
  pose proof (open_queue_validates None LockAcquired example_queue_descriptor example_queue) as H.
  destruct (open_queue _ _ _ _) as [[client|e|] q'] eqn:E;
    [|vm_compute in E; discriminate E|vm_compute in E; discriminate E].
  destruct H as (Hs & _ & _ & Hc); [vm_compute; repeat split; congruence | vm_compute; congruence |].
  split; [exact Hs | rewrite Hc; vm_compute; reflexivity].
Defined.

Lemma last_detach_destroys_witness :
  exists q', detach_all [mkQueueClient example_queue_descriptor true true] example_queue = (Ret [true], q').
Proof.
  destruct (last_detach_destroys [mkQueueClient example_queue_descriptor true true] example_queue)
    as (q' & Hrun & _);
    [repeat constructor | discriminate | vm_compute; reflexivity | vm_compute; congruence |].
  exists q'. exact Hrun.
Defined.

Lemma deadline_is_exact_witness :
  timespec_ns (monotonicDeadline (Some (mkTimespec 10 999000000)) 2500) = 13499000000.
Proof.
  destruct (deadline_is_exact (mkTimespec 10 999000000) 2500) as [_ H];
    [vm_compute; repeat split; congruence | vm_compute; split; congruence |].
  destruct H as [H _]; [vm_compute; reflexivity|]. rewrite H. vm_compute. reflexivity.
Defined.
