(* ===== verification/PublisherState.v ===== *)
(** * Publisher state and surroundings

    The data of [Publisher::Impl] ([middleware/src/publisher.cpp]), the structures it gets from the
    registry client ([detail/registry_client.hpp]), and what surrounds a publisher: the sockets and
    shared queues it reaches through its connections, and the answers of the kernel, the clock
    and the registry during one call. *)

From Stdlib Require Import ZArith Lia Bool String.
From stdpp Require Import base gmap list strings option pretty.
From S2P Require Import Prelude Types Outcome BigEndian QueueProtocol PoolLayout MemoryPool SocketIo SubscriberQueue.

Local Open Scope Z_scope.

(** ** Structures *)

Record PublisherConfig := mkPublisherConfig {
  pc_socket_path : string;
  pc_max_message_size : Z;
  pc_type_name : string;
  pc_type_hash : string;
  pc_transport : TransportType;
  pc_shm_ack_timeout : Z;
  pc_memory_pool : MemoryPoolConfig;
}.

Record RegistryEndpoint := mkRegistryEndpoint {
  rg_topic_id : Z;
  rg_endpoint_id : Z;
  rg_pool : PoolDescriptor;
}.

Record RegistrySubscriber := mkRegistrySubscriber {
  rs_endpoint_id : Z;
  rs_data_socket_path : string;
  rs_max_message_size : Z;
  rs_queue : QueueDescriptor;
}.

Record RegistryDiscovery := mkRegistryDiscovery {
  rd_topic_id : Z;
  rd_transport : TransportType;
  rd_pool : PoolDescriptor;
  rd_subscribers : list RegistrySubscriber;
}.

(** [detail::PeerEventKind]; the client rejects other values. *)
Inductive PeerKind := PeerPublisherDead | PeerSubscriberDead.

Record RegistryPeerEvent := mkRegistryPeerEvent {
  re_kind : PeerKind;
  re_target_endpoint_id : Z;
  re_dead_endpoint_id : Z;
  re_topic_id : Z;
  re_resource_id : Z;
}.

Inductive ReleaseReceiveStatus := ReleaseProgress | ReleaseWouldBlock | ReleaseDisconnected.

(** The socket is its descriptor, the queue the client side of the shared object. *)
Record DataConnection := mkDataConnection {
  dc_endpoint_id : Z;
  dc_socket : Z;
  dc_max_message_size : Z;
  dc_queue : option QueueClient;
  dc_release_buffer : list Z;
  dc_release_bytes : Z;
  dc_outstanding : list ChunkHandle;
}.
#[export] Instance DataConnection_eta : Eta DataConnection := fun c =>
  mkDataConnection (dc_endpoint_id c) (dc_socket c) (dc_max_message_size c) (dc_queue c)
    (dc_release_buffer c) (dc_release_bytes c) (dc_outstanding c).

(** [DataConnection{}] *)
Definition empty_connection : DataConnection :=
  mkDataConnection 0 (-1) 0 None (replicate kQueueReleaseSize 0) 0 [].

Record LoanAllocation := mkLoanAllocation {
  la_allocation : AllocationResult;
  la_payload : option Z;
}.

(** [Publisher::Impl]; [im_registry_session] says whether the pointer is set. *)
Record Impl := mkImpl {
  im_topic : string;
  im_config : PublisherConfig;
  im_connections : list DataConnection;
  im_registry_session : bool;
  im_pool : option MemoryPool;
  im_topic_id : Z;
  im_endpoint_id : Z;
  im_negotiated_max_message_size : Z;
  im_sequence : Z;
  im_failed_endpoint_ids : gset Z;
  im_next_discovery_refresh : Z;
  im_discovery_refresh_required : bool;
}.
#[export] Instance Impl_eta : Eta Impl := fun m =>
  mkImpl (im_topic m) (im_config m) (im_connections m) (im_registry_session m) (im_pool m)
    (im_topic_id m) (im_endpoint_id m) (im_negotiated_max_message_size m) (im_sequence m)
    (im_failed_endpoint_ids m) (im_next_discovery_refresh m) (im_discovery_refresh_required m).

#[export] Instance PublishResult_eta : Eta PublishResult := fun r =>
  mkPublishResult (pr_error r) (pr_sequence r) (pr_payload_size r) (pr_enqueued r)
    (pr_dropped_newest r) (pr_dropped_oldest r) (pr_block_timeouts r) (pr_blocked_count r)
    (pr_blocked_time_ns r).

(** [PublishResult{error, sequence, payload_size}] *)
Definition publish_result (error : ErrorCode) (sequence payload_size : Z) : PublishResult :=
  mkPublishResult error sequence payload_size 0 0 0 0 0 0.

(** ** Sockets *)

(** What the kernel has for the next calls on a connected socket: bytes to receive (no bytes
    is the end of the stream) or an [errno], then [EAGAIN]; the results of the next sends, after
    which it accepts everything; and the bytes it has accepted. *)
Inductive incoming := InData (bytes : list Z) | InError (errno : Z).
Record socket := mkSocket {
  so_incoming : list incoming;
  so_replies : list io_reply;
  so_sent : list Z;
}.
#[export] Instance socket_eta : Eta socket := fun s => mkSocket (so_incoming s) (so_replies s) (so_sent s).
Definition idle_socket : socket := mkSocket [] [] [].

Definition EAGAIN : Z := 11.

(** One [recv] of at most [size] bytes with [MSG_DONTWAIT]: the bytes, or [errno]. *)
Definition recv_step (size : Z) (s : socket) : (list Z + Z) * socket :=
  match so_incoming s with
  | [] => (inr EAGAIN, s)
  | InError errno :: rest => (inr errno, s <| so_incoming := rest |>)
  | InData bytes :: rest =>
      let left := drop (Z.to_nat size) bytes in
      (inl (take (Z.to_nat size) bytes),
       s <| so_incoming := match left with [] => rest | _ => InData left :: rest end |>)
  end.

(** One [send]. *)
Definition send_step (data : list Z) (s : socket) : io_reply * socket :=
  match so_replies s with
  | [] => (mkIoReply (Z.of_nat (length data)) 0 [], s <| so_sent := so_sent s ++ data |>)
  | reply :: rest =>
      (reply, s <| so_replies := rest |>
                <| so_sent := so_sent s ++ take (Z.to_nat (io_result reply)) data |>)
  end.

(** Bounds the number of calls that return before [EAGAIN]. *)
Definition incoming_size (s : socket) : nat :=
  sum_list_with (fun a => match a with InData bytes => S (length bytes) | InError _ => 1%nat end) (so_incoming s).

(** ** Surroundings *)

(** [wd_queues]: the shared queue objects, by name; [wd_unadvertised]: the endpoints
    unadvertised at the registry. *)
Record World := mkWorld {
  wd_sockets : gmap Z socket;
  wd_queues : gmap string SharedQueue;
  wd_unadvertised : list Z;
}.
#[export] Instance World_eta : Eta World := fun w =>
  mkWorld (wd_sockets w) (wd_queues w) (wd_unadvertised w).

Record PubState := mkPubState { ps_impl : Impl; ps_world : World }.
#[export] Instance PubState_eta : Eta PubState := fun s => mkPubState (ps_impl s) (ps_world s).

(** The kernel on [socket] and [connect]: a descriptor or [errno], and the [errno] of a failed
    [connect]. *)
Record connect_answer := mkConnectAnswer { ca_socket : Z + Z; ca_connect : option Z }.

(** One return of [poll], with what arrived meanwhile. *)
Record poll_answer := mkPollAnswer { pa_others : World -> World; pa_result : Z; pa_errno : Z }.

(** The answers a publisher gets during one call, by endpoint where it asks once per
    connection. *)
Record call_env := mkCallEnv {
  ce_now : Z;
  ce_refreshed : Z;
  ce_timestamp_ns : Z;
  ce_events : outcome (list RegistryPeerEvent);
  ce_resolve : outcome RegistryDiscovery;
  ce_connect : Z -> connect_answer;
  ce_reserve : Z -> bool;
  ce_open : Z -> option Z * lock_result;
  ce_lock : Z -> lock_result;
  ce_wait : Z -> wait_env;
  ce_detach : Z -> lock_result;
  ce_polls : list poll_answer;
}.

(** ** Accesses *)

Definition impl : cpp PubState Impl := gets ps_impl.
Definition set_impl (f : Impl -> Impl) : cpp PubState unit :=
  modify (fun s => s <| ps_impl := f (ps_impl s) |>).
Definition set_world (f : World -> World) : cpp PubState unit :=
  modify (fun s => s <| ps_world := f (ps_world s) |>).

(** [pool->method()] *)
Definition on_pool {A} (method : cpp MemoryPool A) : cpp PubState A := fun s =>
  match im_pool (ps_impl s) with
  | None => (Undef, s)
  | Some p => let '(r, p') := method p in (r, s <| ps_impl := ps_impl s <| im_pool := Some p' |> |>)
  end.

(** [connection.queue->method()]: the mapping of the shared object named in the descriptor. *)
Definition on_queue {A} (client : QueueClient) (method : cpp SharedQueue A) : cpp PubState A := fun s =>
  let name := qd_shm_name (qc_descriptor client) in
  match wd_queues (ps_world s) !! name with
  | None => (Undef, s)
  | Some q =>
      let '(r, q') := method q in
      (r, s <| ps_world := ps_world s <| wd_queues := <[name := q']> (wd_queues (ps_world s)) |> |>)
  end.

Definition socket_of (w : World) (fd : Z) : socket := default idle_socket (wd_sockets w !! fd).
Definition set_socket (fd : Z) (s : socket) : cpp PubState unit :=
  set_world (fun w => w <| wd_sockets := <[fd := s]> (wd_sockets w) |>).

Definition recv (fd size : Z) : cpp PubState (list Z + Z) :=
  s ← this;
  let '(answer, socket) := recv_step size (socket_of (ps_world s) fd) in
  set_socket fd socket;; mret answer.

(** [detail::writeAll(fd, data)]: each [send] uses up a reply, so the fuel is enough. *)
Definition write_socket (fd : Z) (data : list Z) : cpp PubState IoResult :=
  s ← this;
  let socket := socket_of (ps_world s) fd in
  match writeAll send_step (S (length (so_replies socket))) data socket with
  | None => undefined
  | Some (result, socket) => set_socket fd socket;; mret result
  end.

(** ** [detail/unix_socket.cpp] *)

(** [sizeof(sockaddr_un::sun_path)] *)
Definition sun_path_size : Z := 108.

(** [makeAddress]: the checks on the path. *)
Definition makeAddress (socket_path : string) : outcome unit :=
  if string_size socket_path =? 0 then Throw ex_invalid_argument else
  if sun_path_size <=? string_size socket_path then Throw ex_invalid_argument else Ret tt.

Definition createSocket (answer : connect_answer) : outcome Z :=
  match ca_socket answer with inl fd => Ret fd | inr errno => Throw (ex_system_error errno) end.

Definition connectUnixSocket (answer : connect_answer) (socket_path : string) : outcome Z :=
  makeAddress socket_path;;
  fd ← createSocket answer;
  match ca_connect answer with Some errno => Throw (ex_system_error errno) | None => Ret fd end.
