(* ===== verification/Publisher.v ===== *)
(** * Publisher

    [Publisher::Impl] and [Publisher] of [middleware/src/publisher.cpp]: connecting to the
    subscribers the registry knows, publishing over Unix sockets or through the memory pool and
    the subscriber queues, lending chunks, and taking back the references that subscribers
    release, by message, by disconnecting or by dying. *)

From Stdlib Require Import ZArith Lia Bool String.
From stdpp Require Import base gmap list strings option pretty.
From S2P Require Import Prelude Types Outcome BigEndian FrameProtocol QueueProtocol PoolLayout MemoryPool SocketIo SubscriberQueue PublisherState.

Local Open Scope Z_scope.

Definition kShmDiscoveryRefreshInterval : Z := 1000000.

Definition validTransport (transport : TransportType) : bool :=
  bool_decide (transport = UnixDomainSocket) || bool_decide (transport = SharedMemory).

Definition validateConfig (config : PublisherConfig) (registry_mode : bool) : outcome unit :=
  if negb registry_mode && (string_size (pc_socket_path config) =? 0) then Throw ex_invalid_argument else
  if u32_max <? pc_max_message_size config then Throw ex_invalid_argument else
  if negb (validTransport (pc_transport config)) then Throw ex_invalid_argument else
  if negb registry_mode && negb (bool_decide (pc_transport config = UnixDomainSocket))
  then Throw ex_invalid_argument else
  if registry_mode && ((string_size (pc_type_name config) =? 0) || (string_size (pc_type_hash config) =? 0))
  then Throw ex_invalid_argument else
  if bool_decide (pc_transport config = SharedMemory) && (pc_shm_ack_timeout config <=? 0)
  then Throw ex_invalid_argument else Ret tt.

Definition mapIoError (status : IoStatus) : ErrorCode :=
  match status with IoClosed => ConnectionLost | _ => Types.IoError end.

(** Nanoseconds of the steady clock; the result is milliseconds, rounded up. *)
Definition int_max : Z := 2 ^ 31 - 1.
Definition remainingPollTimeout (now deadline : Z) : Z :=
  if deadline <=? now then 0 else
  let remaining := deadline - now in
  Z.min ((remaining + 1000000 - 1) ÷ 1000000) int_max.

(** The id, and the counter after [fetch_add]. *)
Definition nextPoolId (pid counter : Z) : Z * Z :=
  (Z.lor (wrap 64 (Z.shiftl (wrap 32 pid) 32)) counter, wrap 32 (counter + 1)).

Fixpoint outstanding_loop (size_classes : list MemoryPoolClassConfig) (total : Z) : Z :=
  match size_classes with
  | [] => total
  | size_class :: size_classes =>
      if size_max - total <? chunk_count size_class then size_max
      else outstanding_loop size_classes (total + chunk_count size_class)
  end.
Definition outstandingLimit (config : MemoryPoolConfig) : Z := outstanding_loop (cfg_size_classes config) 0.

(** ** Loops over the connections

    [body] gets the current element and returns it as it leaves it, or [None] when the
    iteration erases it; [A] is what the iterations accumulate. *)
Fixpoint connection_loop {A} (body : A -> DataConnection -> cpp PubState (A * option DataConnection))
    (done todo : list DataConnection) (a : A) : cpp PubState A :=
  match todo with
  | [] => mret a
  | connection :: todo =>
      '(a, kept) ← body a connection;
      let done := done ++ option_list kept in
      set_impl (fun m => m <| im_connections := done ++ todo |>);;
      connection_loop body done todo a
  end.

Definition for_connections {A} (body : A -> DataConnection -> cpp PubState (A * option DataConnection)) (a : A)
    : cpp PubState A :=
  m ← impl; connection_loop body [] (im_connections m) a.

(** The destructor of an erased connection: the socket is closed and the queue detached. *)
Definition destroy_connection (env : call_env) (connection : DataConnection) : cpp PubState unit :=
  match dc_queue connection with
  | None => mret tt
  | Some client =>
      on_queue client (destroy_queue client (ce_detach env (dc_endpoint_id connection))
                         (ce_detach env (dc_endpoint_id connection)));;
      mret tt
  end.

(** ** References *)

Definition releaseReference (handle : ChunkHandle) : cpp PubState ErrorCode :=
  m ← impl;
  match im_pool m with
  | None => mret InvalidState
  | Some _ =>
      result ← on_pool (release handle);
      if negb (is_ok (rr_error result)) then mret (rr_error result) else
      if rr_became_released result then on_pool (reclaim handle) else mret Ok
  end.

Definition releaseAllOutstanding (connection : DataConnection) : cpp PubState DataConnection :=
  for_each (dc_outstanding connection) (fun handle => releaseReference handle;; mret tt);;
  mret (connection <| dc_outstanding := [] |> <| dc_release_bytes := 0 |>).

Definition removeEndpoint (env : call_env) (dead_endpoint_id : Z) : cpp PubState unit :=
  for_connections (fun _ connection =>
    if dc_endpoint_id connection =? dead_endpoint_id then
      connection ← releaseAllOutstanding connection;
      destroy_connection env connection;;
      mret (tt, None)
    else mret (tt, Some connection)) tt;;
  set_impl (fun m => m <| im_failed_endpoint_ids := {[ dead_endpoint_id ]} ∪ im_failed_endpoint_ids m |>
                       <| im_discovery_refresh_required := true |>).

(** [std::find] followed by [erase] of the element found. *)
Fixpoint find_and_erase (handle : ChunkHandle) (outstanding : list ChunkHandle) : option (list ChunkHandle) :=
  match outstanding with
  | [] => None
  | item :: outstanding =>
      if ChunkHandle_eqb item handle then Some outstanding
      else cons item <$> find_and_erase handle outstanding
  end.

Definition releaseOutstanding (connection : DataConnection) (handle : ChunkHandle) : cpp PubState DataConnection :=
  match find_and_erase handle (dc_outstanding connection) with
  | None => mret connection
  | Some outstanding =>
      releaseReference handle;;
      mret (connection <| dc_outstanding := outstanding |>)
  end.

(** ** Release messages *)

(** The [while] loop of [receiveOneRelease]: [None] when the buffer is full. *)
Fixpoint fill_release (fuel : nat) (connection : DataConnection)
    : cpp PubState (DataConnection * option ReleaseReceiveStatus) :=
  if negb (dc_release_bytes connection <? Z.of_nat kQueueReleaseSize) then mret (connection, None) else
  match fuel with
  | O => undefined
  | S fuel =>
      received ← recv (dc_socket connection) (Z.of_nat kQueueReleaseSize - dc_release_bytes connection);
      match received with
      | inl bytes =>
          if 0 <? Z.of_nat (length bytes) then
            fill_release fuel
              (connection <| dc_release_buffer :=
                               put_at (Z.to_nat (dc_release_bytes connection)) bytes (dc_release_buffer connection) |>
                          <| dc_release_bytes := dc_release_bytes connection + Z.of_nat (length bytes) |>)
          else mret (connection, Some ReleaseDisconnected)
      | inr errno =>
          if errno =? EINTR then fill_release fuel connection else
          if errno =? EAGAIN then mret (connection, Some ReleaseWouldBlock) else
          mret (connection, Some ReleaseDisconnected)
      end
  end.

(** [recv] answers other than [EAGAIN] are finitely many, so the fuel is enough. *)
Definition recv_fuel (fd : Z) : cpp PubState nat :=
  s ← this; mret (S (incoming_size (socket_of (ps_world s) fd))).

Definition receiveOneRelease (connection : DataConnection) : cpp PubState (DataConnection * ReleaseReceiveStatus) :=
  fuel ← recv_fuel (dc_socket connection);
  '(connection, stopped) ← fill_release fuel connection;
  match stopped with
  | Some status => mret (connection, status)
  | None =>
      let handle := decodeQueueRelease (Some (dc_release_buffer connection)) in
      let connection := connection <| dc_release_bytes := 0 |> in
      match handle with
      | None => mret (connection, ReleaseDisconnected)
      | Some handle =>
          connection ← releaseOutstanding connection handle;
          mret (connection, ReleaseProgress)
      end
  end.

(** The inner [while (true)]: the connection, and whether it was disconnected. *)
Fixpoint drain_connection (fuel : nat) (connection : DataConnection) : cpp PubState (DataConnection * bool) :=
  match fuel with
  | O => undefined
  | S fuel =>
      '(connection, status) ← receiveOneRelease connection;
      match status with
      | ReleaseDisconnected => mret (connection, true)
      | ReleaseWouldBlock => mret (connection, false)
      | ReleaseProgress => drain_connection fuel connection
      end
  end.

Definition drainReleasesNonBlocking (env : call_env) : cpp PubState unit :=
  m ← impl;
  match im_pool m with
  | None => mret tt
  | Some _ =>
      for_connections (fun _ connection =>
        fuel ← recv_fuel (dc_socket connection);
        '(connection, disconnected) ← drain_connection fuel connection;
        if disconnected : bool then
          connection ← releaseAllOutstanding connection;
          destroy_connection env connection;;
          (if negb (dc_endpoint_id connection =? 0)
           then set_impl (fun m => m <| im_failed_endpoint_ids :=
                  {[ dc_endpoint_id connection ]} ∪ im_failed_endpoint_ids m |>)
           else mret tt);;
          set_impl (fun m => m <| im_discovery_refresh_required := true |>);;
          mret (tt, None)
        else mret (tt, Some connection)) tt
  end.

Definition processPeerEvents (env : call_env) : cpp PubState unit :=
  m ← impl;
  if negb (im_registry_session m) || (im_endpoint_id m =? 0) then mret tt else
  drainReleasesNonBlocking env;;
  match ce_events env with
  | Ret events =>
      for_each events (fun event =>
        match re_kind event with
        | PeerSubscriberDead => removeEndpoint env (re_dead_endpoint_id event)
        | PeerPublisherDead => mret tt
        end)
  | Throw _ => mret tt
  | Undef => undefined
  end.

Definition outstandingCount (connections : list DataConnection) : Z :=
  wrap 64 (Z.of_nat (sum_list_with (fun c => length (dc_outstanding c)) connections)).

(** The loops of [waitForOutstandingReleases] over the returns of [poll], the last of which
    is the timeout. *)
Fixpoint wait_loop (env : call_env) (polls : list poll_answer) : cpp PubState unit :=
  m ← impl;
  if outstandingCount (im_connections m) =? 0 then mret tt else
  let descriptors := filter (fun c => dc_outstanding c <> []) (im_connections m) in
  if bool_decide (descriptors = []) then mret tt else
  match polls with
  | [] => mret tt
  | answer :: polls =>
      set_world (pa_others answer);;
      if (pa_result answer <? 0) && (pa_errno answer =? EINTR) then wait_loop env polls else
      if pa_result answer <=? 0 then mret tt else
      drainReleasesNonBlocking env;;
      wait_loop env polls
  end.
Definition waitForOutstandingReleases (env : call_env) : cpp PubState unit := wait_loop env (ce_polls env).

(** The inner range-for of [drainQueuedReferences]. *)
Fixpoint release_handles (handles : list ChunkHandle) (connection : DataConnection) : cpp PubState DataConnection :=
  match handles with
  | [] => mret connection
  | handle :: handles =>
      connection ← releaseOutstanding connection handle; release_handles handles connection
  end.

(** [catch (...) {}] around a call that yields a list. *)
Definition or_nothing {A} (c : cpp PubState (list A)) : cpp PubState (list A) := fun s =>
  match c s with (Throw _, s) => (Ret [], s) | r => r end.

Definition drainQueuedReferences (env : call_env) : cpp PubState unit :=
  for_connections (fun _ connection =>
    match dc_queue connection with
    | None => mret (tt, Some connection)
    | Some client =>
        handles ← or_nothing (on_queue client (drain (ce_lock env (dc_endpoint_id connection))));
        connection ← release_handles handles connection;
        mret (tt, Some connection)
    end) tt.

(** ** Discovery *)

(** [SharedSubscriberQueue::open] of the object the descriptor names. *)
Definition open_subscriber_queue (env : call_env) (endpoint_id : Z) (d : QueueDescriptor) : cpp PubState QueueClient :=
  s ← this;
  match wd_queues (ps_world s) !! qd_shm_name d with
  | None => lift (validateDescriptor d);; throw (ex_system_error ENOENT)
  | Some q =>
      let '(os, lock) := ce_open env endpoint_id in
      on_queue (mkQueueClient d false false) (open_queue os lock d)
  end.

(** [connections.erase] of the connections, and [failed_endpoint_ids.erase] of the ids, that the
    registry no longer lists. *)
Definition forget_undiscovered (env : call_env) (discovered_ids : gset Z) : cpp PubState unit :=
  for_connections (fun _ connection =>
    if bool_decide (dc_endpoint_id connection ∈ discovered_ids) then mret (tt, Some connection) else
    connection ← releaseAllOutstanding connection;
    destroy_connection env connection;;
    mret (tt, None)) tt;;
  set_impl (fun m => m <| im_failed_endpoint_ids :=
    filter (fun id => id ∈ discovered_ids) (im_failed_endpoint_ids m) |>).

(** The [try] block of one discovered subscriber. *)
Definition open_connection (env : call_env) (subscriber : RegistrySubscriber) : cpp PubState DataConnection :=
  m ← impl;
  fd ← lift (connectUnixSocket (ce_connect env (rs_endpoint_id subscriber)) (rs_data_socket_path subscriber));
  let connection := empty_connection <| dc_endpoint_id := rs_endpoint_id subscriber |>
    <| dc_socket := fd |> <| dc_max_message_size := rs_max_message_size subscriber |> in
  (if ce_reserve env (outstandingLimit (pc_memory_pool (im_config m))) then mret tt else throw ex_length_error);;
  if bool_decide (pc_transport (im_config m) = SharedMemory) then
    client ← open_subscriber_queue env (rs_endpoint_id subscriber) (rs_queue subscriber);
    mret (connection <| dc_queue := Some client |>)
  else mret connection.

Definition connect_subscriber (env : call_env) (subscriber : RegistrySubscriber) : cpp PubState unit :=
  m ← impl;
  if bool_decide (rs_endpoint_id subscriber ∈ map dc_endpoint_id (im_connections m)) ||
     bool_decide (rs_endpoint_id subscriber ∈ im_failed_endpoint_ids m) then mret tt else
  fun s =>
    match open_connection env subscriber s with
    | (Ret connection, s) =>
        set_impl (fun m => m <| im_connections := im_connections m ++ [connection] |>) s
    | (Throw _, s) =>
        set_impl (fun m => m <| im_failed_endpoint_ids :=
          {[ rs_endpoint_id subscriber ]} ∪ im_failed_endpoint_ids m |>) s
    | (Undef, s) => (Undef, s)
    end.

Definition negotiated (max_message_size : Z) (connections : list DataConnection) : Z :=
  foldl (fun size c => Z.min size (dc_max_message_size c)) max_message_size connections.

(** [discovery.pool] names the publisher's own pool. *)
Definition pool_matches (pool : option MemoryPool) (found : PoolDescriptor) : bool :=
  match pool with
  | None => false
  | Some p =>
      bool_decide (pd_shm_name found = pd_shm_name (mp_descriptor p)) &&
      (pd_pool_id found =? pd_pool_id (mp_descriptor p)) &&
      (pd_segment_size found =? pd_segment_size (mp_descriptor p)) &&
      (pd_layout_version found =? pd_layout_version (mp_descriptor p))
  end.

(** What the outer [try] block does with the answer of the registry. *)
Definition apply_discovery (env : call_env) (discovery : RegistryDiscovery) : cpp PubState ErrorCode :=
  m ← impl;
  if negb (bool_decide (rd_transport discovery = pc_transport (im_config m))) ||
     negb (rd_topic_id discovery =? im_topic_id m) then mret TransportMismatch else
  if bool_decide (pc_transport (im_config m) = SharedMemory) && negb (pool_matches (im_pool m) (rd_pool discovery))
  then mret InvalidSharedMemory else
  forget_undiscovered env (list_to_set (map rs_endpoint_id (rd_subscribers discovery)));;
  for_each (rd_subscribers discovery) (connect_subscriber env);;
  set_impl (fun m => m
    <| im_negotiated_max_message_size := negotiated (pc_max_message_size (im_config m)) (im_connections m) |>
    <| im_discovery_refresh_required := false |>
    <| im_next_discovery_refresh := ce_refreshed env + kShmDiscoveryRefreshInterval |>);;
  m ← impl;
  mret (if bool_decide (im_connections m = []) then ConnectionLost else Ok).

(** The handlers of the outer [try]. *)
Definition discovery_error (e : exn) : ErrorCode :=
  match e with
  | ex_middleware code => code
  | ex_system_error _ => ConnectionLost
  | _ => Types.IoError
  end.

Definition connectDiscoveredEndpoints (env : call_env) : cpp PubState ErrorCode :=
  m ← impl;
  if negb (im_registry_session m) then
    mret (if bool_decide (im_connections m = []) then InvalidState else Ok)
  else
  processPeerEvents env;;
  m ← impl;
  if (im_endpoint_id m =? 0) || (im_topic_id m =? 0) then mret InvalidState else
  if bool_decide (pc_transport (im_config m) = UnixDomainSocket) && negb (bool_decide (im_connections m = []))
  then mret Ok else
  if bool_decide (pc_transport (im_config m) = SharedMemory) && negb (im_discovery_refresh_required m) &&
     negb (bool_decide (im_connections m = [])) && (ce_now env <? im_next_discovery_refresh m)
  then mret Ok else
  match ce_resolve env with
  | Ret discovery => apply_discovery env discovery
  | Throw e => mret (discovery_error e)
  | Undef => undefined
  end.

(** ** Publishing *)

(** Reads [size] bytes of the caller's buffer. *)
Definition read_payload (data : option (list Z)) (size : Z) : cpp PubState (list Z) :=
  if size =? 0 then mret [] else or_undef (data ≫= read_at 0 (Z.to_nat size)).

Record uds_progress := mkUdsProgress { up_enqueued : Z; up_first_error : ErrorCode }.

(** One iteration of [publishUds]. *)
Definition send_frame (env : call_env) (encoded_header payload : list Z) (progress : uds_progress)
    (connection : DataConnection) : cpp PubState (uds_progress * option DataConnection) :=
  header_result ← write_socket (dc_socket connection) encoded_header;
  payload_result ← (if bool_decide (io_status header_result = IoComplete)
                    then write_socket (dc_socket connection) payload else mret header_result);
  if negb (bool_decide (io_status payload_result = IoComplete)) then
    destroy_connection env connection;;
    mret (mkUdsProgress (up_enqueued progress)
            (if is_ok (up_first_error progress) then mapIoError (io_status payload_result)
             else up_first_error progress), None)
  else mret (mkUdsProgress (wrap 32 (up_enqueued progress + 1)) (up_first_error progress), Some connection).

Definition publishUds (env : call_env) (data : option (list Z)) (size next_sequence : Z) : cpp PubState PublishResult :=
  let header := mkFrameHeader kFrameMagic (wrap 32 size) next_sequence (ce_timestamp_ns env) in
  payload ← read_payload data size;
  progress ← for_connections (send_frame env (encodeFrameHeader header) payload) (mkUdsProgress 0 Ok);
  let result := publish_result ConnectionLost next_sequence size <| pr_enqueued := up_enqueued progress |> in
  if negb (up_enqueued progress =? 0) then
    set_impl (fun m => m <| im_sequence := next_sequence |>);;
    mret (result <| pr_error := Ok |>)
  else
    mret (result <| pr_payload_size := 0 |>
                 <| pr_error := if is_ok (up_first_error progress) then ConnectionLost else up_first_error progress |>).

(** [sendWake]: whether the frame went out, and the socket after it. *)
Definition sendWake (frame : list Z) (s : socket) : option (bool * socket) :=
  '(result, s) ← writeAll send_step (S (length (so_replies s))) frame s;
  Some (bool_decide (io_status result = IoComplete), s).

(** [connection.queue->enqueue(handle, sendWake, &wake)]: the callback runs only when the queue
    was empty, and then its result decides. *)
Definition enqueue_and_wake (env : call_env) (connection : DataConnection) (client : QueueClient)
    (handle : ChunkHandle) (frame : list Z) : cpp PubState QueueEnqueueResult :=
  s ← this;
  '(sent, socket) ← or_undef (sendWake frame (socket_of (ps_world s) (dc_socket connection)));
  result ← on_queue client (enqueue (ce_lock env (dc_endpoint_id connection))
                              (ce_wait env (dc_endpoint_id connection)) handle (Some sent));
  (if er_notification_sent result || match er_status result with QueueNotificationFailed => true | _ => false end
   then set_socket (dc_socket connection) socket else mret tt);;
  mret result.

Record dispatch := mkDispatch {
  dp_result : PublishResult;
  dp_first_failure : ErrorCode;
  dp_failed_endpoints : list Z;
}.
#[export] Instance dispatch_eta : Eta dispatch := fun d =>
  mkDispatch (dp_result d) (dp_first_failure d) (dp_failed_endpoints d).

(** [if (first_failure == Ok) first_failure = error] *)
Definition note_failure (error : ErrorCode) (d : dispatch) : dispatch :=
  if is_ok (dp_first_failure d) then d <| dp_first_failure := error |> else d.

(** The [switch] over the statuses of a refused handle. *)
Definition dispatch_refused (status : QueueEnqueueStatus) (endpoint_id : Z) (d : dispatch) : dispatch :=
  let r := dp_result d in
  match status with
  | QueueDroppedNewest =>
      note_failure QueueFull (d <| dp_result := r <| pr_dropped_newest := wrap 32 (pr_dropped_newest r + 1) |> |>)
  | QueueTimedOut =>
      d <| dp_result := r <| pr_block_timeouts := wrap 32 (pr_block_timeouts r + 1) |> |>
        <| dp_first_failure := QueueTimeout |>
  | QueueClosedStatus =>
      note_failure QueueClosed d <| dp_failed_endpoints := dp_failed_endpoints d ++ [endpoint_id] |>
  | QueueNotificationFailed =>
      note_failure ConnectionLost d <| dp_failed_endpoints := dp_failed_endpoints d ++ [endpoint_id] |>
  | QueueSynchronizationError => note_failure SharedMemoryError d
  | QueueAccepted => d
  end.

(** One iteration of [dispatchPublished]. *)
Definition dispatch_connection (env : call_env) (handle : ChunkHandle) (d : dispatch) (connection : DataConnection)
    : cpp PubState (dispatch * option DataConnection) :=
  match dc_queue connection with
  | None => mret (note_failure InvalidState d, Some connection)
  | Some client =>
      m ← impl;
      if outstandingLimit (pc_memory_pool (im_config m)) <=? Z.of_nat (length (dc_outstanding connection))
      then mret (note_failure PoolExhausted d, Some connection) else
      reference_error ← on_pool (addReference handle);
      if negb (is_ok reference_error) then mret (note_failure reference_error d, Some connection) else
      p ← or_undef (im_pool m);
      match encodeQueueWake (mkQueueWake (mp_descriptor p) (qd_queue_id (qc_descriptor client))) with
      | None => releaseReference handle;; mret (note_failure InvalidState d, Some connection)
      | Some encoded_wake =>
          enqueue ← enqueue_and_wake env connection client handle encoded_wake;
          let r := dp_result d in
          let d := if er_blocked enqueue
                   then d <| dp_result := r <| pr_blocked_count := wrap 32 (pr_blocked_count r + 1) |>
                              <| pr_blocked_time_ns := wrap 64 (pr_blocked_time_ns r + er_blocked_time_ns enqueue) |> |>
                   else d in
          match er_status enqueue with
          | QueueAccepted =>
              let connection := connection <| dc_outstanding := dc_outstanding connection ++ [handle] |> in
              let r := dp_result d in
              let d := d <| dp_result := r <| pr_enqueued := wrap 32 (pr_enqueued r + 1) |> |> in
              match er_dropped_oldest enqueue with
              | None => mret (d, Some connection)
              | Some oldest =>
                  let r := dp_result d in
                  connection ← releaseOutstanding connection oldest;
                  mret (d <| dp_result := r <| pr_dropped_oldest := wrap 32 (pr_dropped_oldest r + 1) |> |>, Some connection)
              end
          | status =>
              releaseReference handle;;
              mret (dispatch_refused status (dc_endpoint_id connection) d, Some connection)
          end
      end
  end.

Definition dispatchPublished (env : call_env) (handle : ChunkHandle) (payload_size next_sequence : Z)
    : cpp PubState PublishResult :=
  d ← for_connections (dispatch_connection env handle)
        (mkDispatch (publish_result ConnectionLost next_sequence payload_size) Ok []);
  releaseReference handle;;
  set_impl (fun m => m <| im_sequence := next_sequence |>);;
  for_each (dp_failed_endpoints d) (removeEndpoint env);;
  mret (dp_result d <| pr_error :=
    if negb (pr_enqueued (dp_result d) =? 0) then Ok
    else if is_ok (dp_first_failure d) then ConnectionLost else dp_first_failure d |>).

Definition publishSharedMemoryCopy (env : call_env) (data : option (list Z)) (size next_sequence : Z)
    : cpp PubState PublishResult :=
  allocation ← on_pool (allocate size);
  if negb (is_ok (ar_error allocation)) then mret (publish_result (ar_error allocation) next_sequence 0) else
  publish_error ← on_pool (writeAndPublish (ar_handle allocation) data size next_sequence (ce_timestamp_ns env) 1);
  if negb (is_ok publish_error) then
    on_pool (cancel (ar_handle allocation));;
    mret (publish_result publish_error next_sequence 0)
  else dispatchPublished env (ar_handle allocation) size next_sequence.

(** ** Loans *)

Definition allocateLoan (env : call_env) (size : Z) : cpp PubState LoanAllocation :=
  m ← impl;
  if negb (bool_decide (pc_transport (im_config m) = SharedMemory)) || bool_decide (im_pool m = None)
  then mret (mkLoanAllocation (mkAllocationResult UnsupportedTransport empty_ChunkHandle 0) None) else
  if (pc_max_message_size (im_config m) <? size) || (u32_max <? size)
  then mret (mkLoanAllocation (mkAllocationResult MessageTooLarge empty_ChunkHandle 0) None) else
  processPeerEvents env;;
  drainReleasesNonBlocking env;;
  allocation ← on_pool (allocate size);
  if negb (is_ok (ar_error allocation)) then mret (mkLoanAllocation allocation None) else
  writable ← on_pool (writablePayload (ar_handle allocation));
  if negb (is_ok (wr_error writable)) then
    on_pool (cancel (ar_handle allocation));;
    mret (mkLoanAllocation (mkAllocationResult (wr_error writable) (ar_handle allocation) (ar_capacity allocation)) None)
  else mret (mkLoanAllocation allocation (wr_payload writable)).

Definition publishLoanedSample (env : call_env) (handle : ChunkHandle) (payload_size : Z) : cpp PubState PublishResult :=
  m ← impl;
  if bool_decide (im_pool m = None) || negb (bool_decide (pc_transport (im_config m) = SharedMemory))
  then mret (publish_result UnsupportedTransport 0 0) else
  if im_sequence m =? u64_max then
    on_pool (cancel handle);; mret (publish_result InvalidState 0 0) else
  drainReleasesNonBlocking env;;
  connection_error ← connectDiscoveredEndpoints env;
  if negb (is_ok connection_error) then
    on_pool (cancel handle);; mret (publish_result connection_error 0 0) else
  m ← impl;
  if im_negotiated_max_message_size m <? payload_size then
    on_pool (cancel handle);; mret (publish_result MessageTooLarge 0 0) else
  let next_sequence := im_sequence m + 1 in
  publish_error ← on_pool (publishLoaned handle payload_size next_sequence (ce_timestamp_ns env) 1);
  if negb (is_ok publish_error) then
    on_pool (cancel handle);; mret (publish_result publish_error next_sequence 0)
  else dispatchPublished env handle payload_size next_sequence.

Definition cancelLoanedSample (handle : ChunkHandle) : cpp PubState ErrorCode :=
  m ← impl;
  match im_pool m with None => mret InvalidState | Some _ => on_pool (cancel handle) end.

(** ** [Publisher]

    [has_impl] is false for a publisher that was moved from. *)

Definition publish (has_impl : bool) (env : call_env) (data : option (list Z)) (size : Z) : cpp PubState PublishResult :=
  if negb has_impl then mret (publish_result InvalidState 0 0) else
  if bool_decide (data = None) && negb (size =? 0) then mret (publish_result InvalidArgument 0 0) else
  m ← impl;
  if (pc_max_message_size (im_config m) <? size) || (u32_max <? size)
  then mret (publish_result MessageTooLarge 0 0) else
  if im_sequence m =? u64_max then mret (publish_result InvalidState 0 0) else
  drainReleasesNonBlocking env;;
  connection_result ← connectDiscoveredEndpoints env;
  if negb (is_ok connection_result) then mret (publish_result connection_result 0 0) else
  m ← impl;
  if im_negotiated_max_message_size m <? size then mret (publish_result MessageTooLarge 0 0) else
  let next_sequence := im_sequence m + 1 in
  if bool_decide (pc_transport (im_config m) = SharedMemory)
  then publishSharedMemoryCopy env data size next_sequence
  else publishUds env data size next_sequence.

(** ** Construction and destruction *)

(** Direct mode: one connection to the configured socket. *)
Definition create_direct (answer : connect_answer) (topic : string) (config : PublisherConfig) : outcome Impl :=
  validateConfig config false;;
  fd ← connectUnixSocket answer (pc_socket_path config);
  Ret (mkImpl topic config
         [empty_connection <| dc_socket := fd |> <| dc_max_message_size := pc_max_message_size config |>]
         false None 0 0 (pc_max_message_size config) 0 ∅ 0 true).

(** The descriptor a shared-memory publisher advertises. *)
Definition advertised_pool (pid counter : Z) (config : PublisherConfig) : outcome PoolDescriptor :=
  if bool_decide (pc_transport config = SharedMemory) then
    let pool_id := (nextPoolId pid counter).1 in
    segment_size ← requiredPoolSegmentSize (pc_memory_pool config) pid;
    Ret (mkPoolDescriptor ("/mw_pool_" +:+ pretty pid +:+ "_" +:+ pretty pool_id) pool_id segment_size 0
           kPoolLayoutVersion)
  else Ret empty_PoolDescriptor.

(** Registry mode: [advertise] is the registry's answer, [os] the failing system call of the
    pool's segment. *)
Definition create_registered (pid counter : Z) (advertise : PoolDescriptor -> outcome RegistryEndpoint)
    (os : option Z) (topic : string) (config : PublisherConfig) : cpp World Impl :=
  lift (validateConfig config true);;
  advertised ← lift (advertised_pool pid counter config);
  endpoint ← lift (advertise advertised);
  let made pool := mkImpl topic config [] true pool (rg_topic_id endpoint) (rg_endpoint_id endpoint)
                     (pc_max_message_size config) 0 ∅ 0 true in
  if bool_decide (pc_transport config = SharedMemory) then
    let advertised := mkPoolDescriptor (pd_shm_name advertised) (pd_pool_id advertised) (pd_segment_size advertised)
                        (rg_topic_id endpoint) (pd_layout_version advertised) in
    match create_pool os pid advertised (pc_memory_pool config) with
    | Ret pool => mret (made (Some pool))
    | Throw e =>
        modify (fun w => w <| wd_unadvertised := rg_endpoint_id endpoint :: wd_unadvertised w |>);; throw e
    | Undef => undefined
    end
  else mret (made None).

(** [~Impl] *)
Definition destroy_publisher (env : call_env) : cpp PubState unit :=
  m ← impl;
  (match im_pool m with
   | None => mret tt
   | Some _ =>
       processPeerEvents env;;
       waitForOutstandingReleases env;;
       drainQueuedReferences env
   end);;
  for_connections (fun _ connection => destroy_connection env connection;; mret (tt, None)) tt;;
  set_impl (fun m => m <| im_pool := None |>);;
  m ← impl;
  if im_registry_session m && negb (im_endpoint_id m =? 0)
  then set_world (fun w => w <| wd_unadvertised := im_endpoint_id m :: wd_unadvertised w |>)
  else mret tt.
