(* ===== verification/PublisherInvariant.v ===== *)
(** * Invariant of the publisher

    The references a publisher holds are the handles in the [outstanding] lists of its
    connections.  [pub_inv] states that the reference counts of the pool are exactly those
    references, that the queues behind the connections stay inside their slots, and that the
    release buffers have their size.  The lemmas show, method by method, that every call returns
    and keeps this; inside a loop or a call the references of the connection at hand, of the
    others and the guard reference are one list [O]. *)

From Stdlib Require Import ZArith Lia Bool String.
From stdpp Require Import base gmap list strings option.
From S2P Require Import Prelude Types Outcome BigEndian FrameProtocol QueueProtocol PoolLayout MemoryPool PoolSpec PoolReferences SocketIo SubscriberQueue QueueTheorems PublisherState Publisher.

Local Open Scope Z_scope.

(** ** Definitions *)

(** The queue fields are unsigned. *)
Definition queue_unsigned (q : SharedQueue) : Prop :=
  0 <= qh_head (sq_header q) /\ 0 <= qh_tail (sq_header q) /\ 0 <= qh_size (sq_header q).

Definition world_ok (w : World) : Prop := map_Forall (fun _ q => queue_unsigned q) (wd_queues w).

Definition queue_ready (w : World) (client : QueueClient) : Prop :=
  exists q, wd_queues w !! qd_shm_name (qc_descriptor client) = Some q /\ ring_safe q.

Record connection_ok (w : World) (c : DataConnection) : Prop := {
  co_bytes : 0 <= dc_release_bytes c < Z.of_nat kQueueReleaseSize;
  co_buffer : length (dc_release_buffer c) = kQueueReleaseSize;
  co_queue : forall client, dc_queue c = Some client -> queue_ready w client;
}.

(** All the references a list of connections holds. *)
Definition held (connections : list DataConnection) : list ChunkHandle :=
  flat_map dc_outstanding connections.

(** The pool accounts for the references [O] and the loans [L]. *)
Definition core (O : list ChunkHandle) (L : list (ChunkHandle * Z)) (s : PubState) : Prop :=
  match im_pool (ps_impl s) with
  | Some p => accounts p O L
  | None => O = [] /\ L = []
  end /\ world_ok (ps_world s).

(** [R]: references held outside the connections, the guard of a publish in progress. *)
Record pub_inv (R : list ChunkHandle) (L : list (ChunkHandle * Z)) (s : PubState) : Prop := {
  pi_core : core (held (im_connections (ps_impl s)) ++ R) L s;
  pi_connections : Forall (connection_ok (ps_world s)) (im_connections (ps_impl s));
}.

(** What a method leaves alone: the identity of the publisher, and the readiness of queues. *)
Definition world_le (w w' : World) : Prop := forall client, queue_ready w client -> queue_ready w' client.

Record evolves (s s' : PubState) : Prop := {
  ev_config : im_config (ps_impl s') = im_config (ps_impl s);
  ev_session : im_registry_session (ps_impl s') = im_registry_session (ps_impl s);
  ev_topic : im_topic_id (ps_impl s') = im_topic_id (ps_impl s);
  ev_endpoint : im_endpoint_id (ps_impl s') = im_endpoint_id (ps_impl s);
  ev_sequence : im_sequence (ps_impl s') = im_sequence (ps_impl s);
  ev_world : world_le (ps_world s) (ps_world s');
}.

(** What is read through the handles [O] is unchanged. *)
Definition pool_keeps (s s' : PubState) (O : list ChunkHandle) : Prop :=
  match im_pool (ps_impl s), im_pool (ps_impl s') with
  | Some p, Some p' => same_messages p p' O
  | None, None => True
  | _, _ => False
  end.

Definition pool_generations (s : PubState) : list Z :=
  match im_pool (ps_impl s) with Some p => generations p | None => [] end.

(** A method took the references [O] to [O']. *)
Record transition (O O' : list ChunkHandle) (L : list (ChunkHandle * Z)) (s s' : PubState) : Prop := {
  tr_core : core O' L s';
  tr_sub : forall handle, handle ∈ O' -> handle ∈ O;
  tr_keeps : pool_keeps s s' (handles O' L);
  tr_evolves : evolves s s';
  tr_generations : pool_generations s' = pool_generations s;
}.

(** ** Structural lemmas *)

Lemma handles_sub O O' L : (forall handle, handle ∈ O' -> handle ∈ O) ->
  forall handle, handle ∈ handles O' L -> handle ∈ handles O L.
Proof. unfold handles. set_solver. Qed.

#[export] Instance core_Proper : Proper ((≡ₚ) ==> (=) ==> (=) ==> iff) core.
Proof.
  intros O O' HO L _ <- s _ <-. unfold core. destruct (im_pool (ps_impl s)); [by rewrite HO|].
  split; intros [[-> ->] ?]; (split; [split; [|done]|done]).
  - by apply Permutation_nil.
  - by apply Permutation_nil; symmetry.
Qed.

Lemma world_le_refl w : world_le w w.
Proof. intros ?; done. Qed.

Lemma evolves_refl s : evolves s s.
Proof. split; try done; apply world_le_refl. Qed.

Lemma evolves_trans s1 s2 s3 : evolves s1 s2 -> evolves s2 s3 -> evolves s1 s3.
Proof. intros [] []. split; try congruence. unfold world_le in *. auto. Qed.

Lemma pool_keeps_trans s1 s2 s3 O O' : (forall handle, handle ∈ O' -> handle ∈ O) ->
  pool_keeps s1 s2 O -> pool_keeps s2 s3 O' -> pool_keeps s1 s3 O'.
Proof.
  unfold pool_keeps. intros Hsub.
  destruct (im_pool (ps_impl s1)), (im_pool (ps_impl s2)), (im_pool (ps_impl s3)); try done.
  intros. by eapply same_messages_trans.
Qed.

Lemma transition_trans O1 O2 O3 L s1 s2 s3 :
  transition O1 O2 L s1 s2 -> transition O2 O3 L s2 s3 -> transition O1 O3 L s1 s3.
Proof.
  intros [] []. split; auto; [by eapply pool_keeps_trans; [by apply handles_sub|..] | by eapply evolves_trans | congruence].
Qed.

Lemma pool_keeps_refl s O : pool_keeps s s O.
Proof. unfold pool_keeps. destruct (im_pool (ps_impl s)); [|done]. apply same_messages_same; auto using same_geometry_refl. Qed.

Lemma transition_refl O L s : core O L s -> transition O O L s s.
Proof. intros. split; auto using pool_keeps_refl, evolves_refl. Qed.

Lemma transition_perm O1 O1' O2 O2' L s s' : O1 ≡ₚ O1' -> O2 ≡ₚ O2' ->
  transition O1 O2 L s s' -> transition O1' O2' L s s'.
Proof.
  intros H1 H2 [? ? Hk ? ?]. split; [by rewrite <- H2 | | | done | done].
  - intros handle. rewrite <- H1, <- H2. auto.
  - unfold pool_keeps in *. destruct (im_pool (ps_impl s)), (im_pool (ps_impl s')); try done.
    destruct Hk as [? Hk]. split; [done|]. intros handle. unfold handles in *. rewrite <- H2. auto.
Qed.

Lemma connection_ok_le w w' c : world_le w w' -> connection_ok w c -> connection_ok w' c.
Proof. intros Hle []. split; auto. Qed.

Lemma connections_ok_le w w' cs : world_le w w' -> Forall (connection_ok w) cs -> Forall (connection_ok w') cs.
Proof. intros Hle Hcs. eapply list.Forall_impl; [exact Hcs|]. intros c. by apply connection_ok_le. Qed.

Lemma held_app cs cs' : held (cs ++ cs') = held cs ++ held cs'.
Proof. apply flat_map_app. Qed.

(** ** Accesses *)

Lemma wp_impl s (Q : Impl -> PubState -> Prop) : Q (ps_impl s) s -> wp impl s Q.
Proof. done. Qed.

Lemma wp_on_pool {A} (method : cpp MemoryPool A) s p (Q : A -> PubState -> Prop) :
  im_pool (ps_impl s) = Some p ->
  wp method p (fun a p' => Q a (s <| ps_impl := ps_impl s <| im_pool := Some p' |> |>)) ->
  wp (on_pool method) s Q.
Proof. unfold wp, on_pool. intros ->. by destruct (method p) as [[] ?]. Qed.

(** A state whose pool was replaced. *)
Definition with_pool (s : PubState) (p : MemoryPool) : PubState :=
  s <| ps_impl := ps_impl s <| im_pool := Some p |> |>.

Lemma with_pool_transition O O' L s p p' : im_pool (ps_impl s) = Some p -> core O L s ->
  accounts p' O' L -> (forall handle, handle ∈ O' -> handle ∈ O) -> same_messages p p' (handles O' L) ->
  generations p' = generations p ->
  transition O O' L s (with_pool s p').
Proof.
  intros Hp [_ Hw] Hac Hsub Hk Hg. split; [by split | done | | split; try done; apply world_le_refl |].
  - unfold pool_keeps, with_pool. by rewrite Hp.
  - unfold pool_generations, with_pool. by rewrite Hp.
Qed.

(** ** References *)

Section references.
Context (L : list (ChunkHandle * Z)).
Implicit Types (O : list ChunkHandle) (s : PubState) (handle : ChunkHandle) (c : DataConnection).

(** With references there is a pool. *)
Lemma core_pool O s handle : handle ∈ O -> core O L s ->
  exists p, im_pool (ps_impl s) = Some p /\ accounts p O L.
Proof.
  unfold core. intros Hin [Hcore _]. destruct (im_pool (ps_impl s)) as [p|]; [eauto|].
  destruct Hcore as [-> _]. set_solver.
Qed.

Lemma releaseReference_ok O s handle : core (handle :: O) L s ->
  wp (releaseReference handle) s (fun e s' => e = Ok /\ transition (handle :: O) O L s s' /\ exists p, s' = with_pool s p).
Proof.
  intros Hcore. destruct (core_pool _ _ handle (list_elem_of_here _ _) Hcore) as (p & Hp & Hac).
  assert (Hsub : forall h, h ∈ O -> h ∈ handle :: O) by set_solver.
  unfold releaseReference. apply wp_bind, wp_impl. rewrite Hp.
  destruct (accounts_release _ _ _ _ Hac) as (r & p1 & Hrun & Hok & Hrest).
  apply wp_bind. eapply wp_on_pool; [exact Hp|]. apply wp_run. eexists r, p1. split; [exact Hrun|]. rewrite Hok. simpl.
  fold (with_pool s p1). destruct (rr_became_released r).
  - destruct Hrest as (p2 & Hrun2 & Hac2 & Hk & Hg). eapply wp_on_pool; [done|]. apply wp_run. exists Ok, p2.
    split; [exact Hrun2|]. split; [done|]. change (_ <| ps_impl := _ |>) with (with_pool s p2) at 1.
    split; [by apply with_pool_transition with p | by exists p2].
  - destruct Hrest as (Hac1 & Hk & Hg). split_and!; [done | by apply with_pool_transition with p | by exists p1].
Qed.

Lemma release_list_ok O hs s : core (hs ++ O) L s ->
  wp (for_each hs (fun handle => releaseReference handle;; mret tt)) s
    (fun _ s' => transition (hs ++ O) O L s s').
Proof.
  intros Hcore.
  apply (wp_for_each (fun hs' s' => transition (hs ++ O) (hs' ++ O) L s s')); [|by apply transition_refl].
  intros handle hs' s' Htr. apply wp_bind. eapply wp_mono, releaseReference_ok; [|apply (tr_core _ _ _ _ _ Htr)].
  intros e s2 (_ & Htr2 & _). by eapply transition_trans.
Qed.

Lemma releaseAllOutstanding_ok O c s : core (dc_outstanding c ++ O) L s ->
  wp (releaseAllOutstanding c) s (fun c' s' =>
    c' = c <| dc_outstanding := [] |> <| dc_release_bytes := 0 |> /\
    transition (dc_outstanding c ++ O) O L s s').
Proof. intros Hcore. apply wp_bind. eapply wp_mono; [|by apply release_list_ok]. intros u s' Htr. by split. Qed.

Lemma find_and_erase_spec handle hs :
  match find_and_erase handle hs with
  | Some rest => hs ≡ₚ handle :: rest
  | None => ~ (handle ∈ hs)
  end.
Proof.
  induction hs as [|item hs IH]; simpl; [set_solver|].
  destruct (ChunkHandle_eqb item handle) eqn:Heq; [by apply ChunkHandle_eqb_spec in Heq as ->|].
  assert (item <> handle) by (intros ->; by rewrite (proj2 (ChunkHandle_eqb_spec _ _)) in Heq).
  destruct (find_and_erase handle hs) as [rest|]; simpl; [|set_solver].
  rewrite IH. constructor.
Qed.

(** Only the outstanding list of the connection changes. *)
Definition same_connection (c c' : DataConnection) : Prop :=
  dc_endpoint_id c' = dc_endpoint_id c /\ dc_socket c' = dc_socket c /\
  dc_max_message_size c' = dc_max_message_size c /\ dc_queue c' = dc_queue c.

Lemma same_connection_trans c c' c'' : same_connection c c' -> same_connection c' c'' -> same_connection c c''.
Proof. unfold same_connection. intuition congruence. Qed.

Lemma releaseOutstanding_ok O c handle s : core (dc_outstanding c ++ O) L s ->
  wp (releaseOutstanding c handle) s (fun c' s' =>
    c' = c <| dc_outstanding := default (dc_outstanding c) (find_and_erase handle (dc_outstanding c)) |> /\
    transition (dc_outstanding c ++ O) (dc_outstanding c' ++ O) L s s' /\ ps_world s' = ps_world s).
Proof.
  intros Hcore. unfold releaseOutstanding. pose proof (find_and_erase_spec handle (dc_outstanding c)) as Hspec.
  destruct (find_and_erase handle (dc_outstanding c)) as [rest|].
  2: { simpl. split_and!; [by destruct c | by apply transition_refl | done]. }
  apply wp_bind. eapply wp_mono, releaseReference_ok with (O := rest ++ O).
  - intros e s' (_ & Htr & p & Hw). split_and!; [done | | by rewrite Hw].
    eapply transition_perm; [| |exact Htr]; [by rewrite Hspec | done].
  - by rewrite Hspec in Hcore.
Qed.
End references.

(** ** Release messages *)

Lemma transition_same O L s s' : core O L s -> evolves s s' ->
  im_pool (ps_impl s') = im_pool (ps_impl s) -> world_ok (ps_world s') -> transition O O L s s'.
Proof.
  intros [Hpool Hw] Hev Hp Hw'. split; [| done | | done |].
  - by split; [rewrite Hp|].
  - unfold pool_keeps. rewrite Hp. apply pool_keeps_refl.
  - unfold pool_generations. by rewrite Hp.
Qed.

Lemma same_queues_le w w' : wd_queues w' = wd_queues w -> world_le w w' /\ (world_ok w -> world_ok w').
Proof. intros Hq. unfold world_le, queue_ready, world_ok. by rewrite Hq. Qed.

(** A change of sockets only. *)
Lemma socket_transition O L s fd so : core O L s ->
  transition O O L s (s <| ps_world := ps_world s <| wd_sockets := <[fd := so]> (wd_sockets (ps_world s)) |> |>).
Proof.
  intros Hcore. apply transition_same; [done | | done | apply Hcore]. split; try done. by apply same_queues_le.
Qed.

Definition pending (s : PubState) (fd : Z) : nat := incoming_size (socket_of (ps_world s) fd).

Lemma recv_step_spec size so : 0 < size ->
  match recv_step size so with
  | (inl bytes, so') => Z.of_nat (length bytes) <= size /\ (incoming_size so' < incoming_size so)%nat
  | (inr errno, so') => (incoming_size so' < incoming_size so)%nat \/ errno = EAGAIN /\ so' = so
  end.
Proof.
  intros Hsize. unfold recv_step, incoming_size. destruct (so_incoming so) as [|[bytes|errno] rest]; [by right | | left; simpl; lia].
  rewrite length_take. split; [lia|]. cbn [so_incoming update_with]. simpl.
  destruct (drop (Z.to_nat size) bytes) as [|b left] eqn:Hdrop; simpl; [lia|].
  apply (f_equal length) in Hdrop. rewrite length_drop in Hdrop. simpl in Hdrop. lia.
Qed.

Lemma recv_ok O L s fd size (Q : list Z + Z -> PubState -> Prop) : core O L s -> 0 < size ->
  (forall bytes s', transition O O L s s' -> Z.of_nat (length bytes) <= size ->
     (pending s' fd < pending s fd)%nat -> Q (inl bytes) s') ->
  (forall errno s', transition O O L s s' ->
     (pending s' fd < pending s fd)%nat \/ errno = EAGAIN /\ pending s' fd = pending s fd -> Q (inr errno) s') ->
  wp (recv fd size) s Q.
Proof.
  intros Hcore Hsize HQ1 HQ2. unfold recv, wp. unfold_cpp.
  pose proof (recv_step_spec size (socket_of (ps_world s) fd) Hsize) as Hspec.
  destruct (recv_step size (socket_of (ps_world s) fd)) as [answer so'] eqn:Hstep. simpl.
  assert (Hpend : pending (s <| ps_world := ps_world s <| wd_sockets := <[fd := so']> (wd_sockets (ps_world s)) |> |>) fd
                  = incoming_size so').
  { unfold pending, socket_of. simpl. by rewrite lookup_insert_eq. }
  destruct answer as [bytes|errno].
  - destruct Hspec. apply HQ1; [by apply socket_transition | done | by rewrite Hpend].
  - apply HQ2; [by apply socket_transition|]. rewrite Hpend. by destruct Hspec as [? | [-> ->]]; [left | right].
Qed.

(** The release buffer may be full only between the loop and the decoding. *)
Definition filling (c : DataConnection) : Prop :=
  0 <= dc_release_bytes c <= Z.of_nat kQueueReleaseSize /\ length (dc_release_buffer c) = kQueueReleaseSize.

Lemma fill_release_ok O L fuel : forall c s, core O L s -> filling c -> (pending s (dc_socket c) < fuel)%nat ->
  wp (fill_release fuel c) s (fun '(c', stopped) s' =>
    transition O O L s s' /\ same_connection c c' /\ dc_outstanding c' = dc_outstanding c /\ filling c' /\
    (pending s' (dc_socket c) <= pending s (dc_socket c))%nat /\
    match stopped with
    | None => dc_release_bytes c' = Z.of_nat kQueueReleaseSize /\
        (dc_release_bytes c < Z.of_nat kQueueReleaseSize -> (pending s' (dc_socket c) < pending s (dc_socket c))%nat)
    | Some status => dc_release_bytes c' < Z.of_nat kQueueReleaseSize /\ status <> ReleaseProgress
    end).
Proof.
  induction fuel as [|fuel IH]; intros c s Hcore Hfill Hfuel; [lia|].
  cbn [fill_release]. destruct (negb _) eqn:Hfull; bools.
  { destruct Hfill. simpl. split_and!; auto using transition_refl; try done; lia. }
  apply wp_bind, (recv_ok O L); [done | lia | |].
  - intros bytes s1 Htr Hlen Hpend. destruct (0 <? Z.of_nat (length bytes)) eqn:Hpos; bools.
    2: { simpl. split_and!; auto; try done. lia. }
    destruct Hfill as [Hb Hbuf]. eapply wp_mono; [|apply IH].
    + intros [c' stopped] s2 (Htr2 & Hsame & Hout & Hfill2 & Hle & Hstop).
      split_and!; [by eapply transition_trans | by eapply same_connection_trans; [|exact Hsame] | done | done | simpl in Hle; lia |].
      simpl in *. destruct stopped; [done|]. destruct Hstop. split; [done | lia].
    + apply (tr_core _ _ _ _ _ Htr).
    + split; simpl; [lia | by rewrite length_put_at].
    + simpl. lia.
  - intros errno s1 Htr Hpend. destruct (errno =? EINTR) eqn:Hint; bools.
    + destruct Hpend as [Hpend | [-> _]]; [|done].
      eapply wp_mono; [|apply IH; [apply (tr_core _ _ _ _ _ Htr) | done | lia]].
      intros [c' stopped] s2 (Htr2 & Hsame & Hout & Hfill2 & Hle & Hstop).
      split_and!; [by eapply transition_trans | done | done | done | lia |].
      destruct stopped; [done|]. destruct Hstop. split; [done | lia].
    + destruct (errno =? EAGAIN); simpl; split_and!; auto; try done; lia.
Qed.

(** A connection between two calls: the buffer is not full. *)
Definition receiving (c : DataConnection) : Prop :=
  0 <= dc_release_bytes c < Z.of_nat kQueueReleaseSize /\ length (dc_release_buffer c) = kQueueReleaseSize.

Lemma wp_recv_fuel fd s (Q : nat -> PubState -> Prop) : Q (S (pending s fd)) s -> wp (recv_fuel fd) s Q.
Proof. done. Qed.

Lemma receiveOneRelease_ok O L c s : core (dc_outstanding c ++ O) L s -> receiving c ->
  wp (receiveOneRelease c) s (fun '(c', status) s' =>
    transition (dc_outstanding c ++ O) (dc_outstanding c' ++ O) L s s' /\ same_connection c c' /\ receiving c' /\
    (pending s' (dc_socket c) <= pending s (dc_socket c))%nat /\
    (status = ReleaseProgress -> (pending s' (dc_socket c) < pending s (dc_socket c))%nat)).
Proof.
  intros Hcore [Hb Hbuf]. unfold receiveOneRelease. apply wp_bind, wp_recv_fuel, wp_bind.
  eapply wp_mono; [|apply (fill_release_ok (dc_outstanding c ++ O) L); [exact Hcore | by split; [lia|] | lia]].
  intros [c1 stopped] s1 (Htr & Hsame & Hout & [Hb1 Hbuf1] & Hle & Hstop).
  destruct stopped as [status|].
  { destruct Hstop as [Hlt Hnp]. apply wp_ret. rewrite Hout. split_and!; auto; [by split; [lia|] | done]. }
  destruct Hstop as [Hfull Hlt]. specialize (Hlt ltac:(lia)). rewrite <- Hout in Htr at 2.
  assert (Hready : receiving (c1 <| dc_release_bytes := 0 |>)) by (split; simpl; [unfold kQueueReleaseSize; lia | done]).
  destruct (decodeQueueRelease (Some (dc_release_buffer c1))) as [handle|].
  2: { apply wp_ret. by split_and!. }
  apply wp_bind. eapply wp_mono; [|apply releaseOutstanding_ok with (O := O) (L := L); apply (tr_core _ _ _ _ _ Htr)].
  intros c2 s2 (Heq & Htr2 & Hw2). apply wp_ret. unfold pending in *. rewrite Hw2.
  split_and!; [by eapply transition_trans | | | lia | done].
  - eapply same_connection_trans; [exact Hsame|]. by rewrite Heq.
  - by rewrite Heq.
Qed.

Lemma drain_connection_ok O L fuel : forall c s, core (dc_outstanding c ++ O) L s -> receiving c ->
  (pending s (dc_socket c) < fuel)%nat ->
  wp (drain_connection fuel c) s (fun '(c', disconnected) s' =>
    transition (dc_outstanding c ++ O) (dc_outstanding c' ++ O) L s s' /\ same_connection c c' /\ receiving c').
Proof.
  induction fuel as [|fuel IH]; intros c s Hcore Hrec Hfuel; [lia|]. cbn [drain_connection].
  apply wp_bind. eapply wp_mono; [|apply (receiveOneRelease_ok O L); [exact Hcore | done]].
  intros [c1 status] s1 (Htr & Hsame & Hrec1 & Hle & Hlt). destruct status; [|apply wp_ret; by split_and! ..].
  specialize (Hlt eq_refl). destruct Hsame as (Hid & Hso & Hmax & Hq).
  eapply wp_mono; [|apply IH; [apply (tr_core _ _ _ _ _ Htr) | done | rewrite Hso; lia]].
  intros [c2 disc] s2 (Htr2 & Hsame2 & Hrec2). split_and!; [by eapply transition_trans | | done].
  eapply same_connection_trans; [|exact Hsame2]. by split_and!.
Qed.

(** ** Queues *)

Definition with_queue (s : PubState) (name : string) (q : SharedQueue) : PubState :=
  s <| ps_world := ps_world s <| wd_queues := <[name := q]> (wd_queues (ps_world s)) |> |>.

Lemma wp_on_queue {A} (method : cpp SharedQueue A) s client q (Q : A -> PubState -> Prop) :
  wd_queues (ps_world s) !! qd_shm_name (qc_descriptor client) = Some q ->
  wp method q (fun a q' => Q a (with_queue s (qd_shm_name (qc_descriptor client)) q')) ->
  wp (on_queue client method) s Q.
Proof. unfold wp, on_queue. intros ->. by destruct (method q) as [[] ?]. Qed.

Lemma ring_safe_unsigned q : ring_safe q -> queue_unsigned q.
Proof. intros []. unfold queue_unsigned. lia. Qed.

(** A queue that was inside its slots, if it was reached before, stays so. *)
Lemma with_queue_transition O L s name q q' : core O L s -> wd_queues (ps_world s) !! name = Some q ->
  (ring_safe q -> ring_safe q') -> queue_unsigned q' -> transition O O L s (with_queue s name q').
Proof.
  intros Hcore Hq Hsafe Huns. apply transition_same; [done | | done |].
  - split; try done. intros client (q0 & Hq0 & Hs0). unfold queue_ready. simpl.
    destruct (decide (name = qd_shm_name (qc_descriptor client))) as [->|Hne].
    + exists q'. rewrite lookup_insert_eq. simplify_eq. auto.
    + exists q0. by rewrite lookup_insert_ne.
  - intros name' q0. simpl. destruct (decide (name = name')) as [->|Hne].
    + rewrite lookup_insert_eq. by intros [= <-].
    + rewrite lookup_insert_ne by done. apply Hcore.
Qed.

Lemma destroy_queue_inside client r1 r2 q : ring_safe q ->
  wp (destroy_queue client r1 r2) q (fun _ q' => ring_safe q').
Proof.
  intros Hs. unfold destroy_queue. apply wp_bind.
  assert (Hclose : wp (if qc_owner client then close client r1 else mret tt) q (fun _ q' => ring_safe q')).
  { destruct (qc_owner client); [|done]. unfold close. destruct (negb _); [done|].
    apply wp_bind. unfold wp at 1. rewrite PthreadLock_run. pose proof (lock_state_safe r1 q Hs).
    destruct (lock_ok r1); simpl; [|done]. eapply same_ring_safe; [|done]. by split_and!. }
  eapply wp_mono; [|exact Hclose]. intros u q1 Hs1. unfold detach. destruct (negb _); [done|].
  apply wp_bind. unfold wp at 1. rewrite PthreadLock_run. pose proof (lock_state_safe r2 q1 Hs1) as Hs2.
  unfold header_, set_header, wp. unfold_cpp. destruct (_ || _); [done|].
  eapply same_ring_safe; [|exact Hs2]. by split_and!.
Qed.

Lemma destroy_connection_ok O L env c s : core O L s -> connection_ok (ps_world s) c ->
  wp (destroy_connection env c) s (fun _ s' => transition O O L s s').
Proof.
  intros Hcore Hc. unfold destroy_connection. destruct (dc_queue c) as [client|] eqn:Hq; [|by apply wp_ret, transition_refl].
  destruct (co_queue _ _ Hc client Hq) as (q & Hlook & Hs).
  apply wp_bind. eapply wp_on_queue; [exact Hlook|]. eapply wp_mono; [|by apply destroy_queue_inside].
  intros u q' Hs'. apply wp_ret. eapply with_queue_transition; eauto using ring_safe_unsigned.
Qed.

(** ** Loops over the connections *)

Lemma set_connections_core O L s cs :
  core O L (s <| ps_impl := ps_impl s <| im_connections := cs |> |>) <-> core O L s.
Proof. done. Qed.

Section loop.
Context {A : Type} (R : list ChunkHandle) (L : list (ChunkHandle * Z)).
Context (body : A -> DataConnection -> cpp PubState (A * option DataConnection)).
Context (I : list DataConnection -> list DataConnection -> A -> World -> Prop).

(** [F]: the references of the other connections; [I] relates the connections done and to
    do, what was accumulated, and the surroundings. *)
Definition body_ok (s : PubState) : Prop := forall done todo a c F s1,
  core (dc_outstanding c ++ F ++ R) L s1 -> connection_ok (ps_world s1) c -> evolves s s1 ->
  I done (c :: todo) a (ps_world s1) ->
  wp (body a c) s1 (fun '(a', kept) s2 =>
    transition (dc_outstanding c ++ F ++ R) (held (option_list kept) ++ F ++ R) L s1 s2 /\
    Forall (connection_ok (ps_world s2)) (option_list kept) /\
    I (done ++ option_list kept) todo a' (ps_world s2)).

Lemma connection_loop_ok s0 (Hbody : body_ok s0) todo : forall done a s,
  transition (held (im_connections (ps_impl s0)) ++ R) (held (done ++ todo) ++ R) L s0 s ->
  Forall (connection_ok (ps_world s)) (done ++ todo) -> im_connections (ps_impl s) = done ++ todo ->
  I done todo a (ps_world s) ->
  wp (connection_loop body done todo a) s (fun a' s' => pub_inv R L s' /\
    transition (held (im_connections (ps_impl s0)) ++ R) (held (im_connections (ps_impl s')) ++ R) L s0 s' /\
    I (im_connections (ps_impl s')) [] a' (ps_world s')).
Proof.
  induction todo as [|c todo IH]; intros done a s Htr Hok Hconn HI.
  { apply wp_ret. rewrite app_nil_r in *. rewrite Hconn. split_and!; [split; rewrite Hconn | ..]; auto. apply (tr_core _ _ _ _ _ Htr). }
  cbn [connection_loop]. apply wp_bind.
  assert (Hperm : held (done ++ c :: todo) ++ R ≡ₚ dc_outstanding c ++ held (done ++ todo) ++ R).
  { rewrite !held_app. simpl. rewrite <- !app_assoc. apply Permutation_app_swap_app. }
  apply Forall_app in Hok as [Hdone [Hc Htodo]%Forall_cons_1].
  eapply wp_mono; [|apply (Hbody done todo a c (held (done ++ todo)) s); auto; [|apply Htr]].
  2: { rewrite <- Hperm. apply (tr_core _ _ _ _ _ Htr). }
  intros [a' kept] s1 (Htr1 & Hkept & HI1). apply wp_bind.
  set (s2 := s1 <| ps_impl := ps_impl s1 <| im_connections := (done ++ option_list kept) ++ todo |> |>).
  assert (Htr2 : transition (held (im_connections (ps_impl s0)) ++ R) (held ((done ++ option_list kept) ++ todo) ++ R) L s0 s2).
  { assert (Htr' : transition (held (im_connections (ps_impl s0)) ++ R) (held (option_list kept) ++ held (done ++ todo) ++ R) L s0 s1).
    { eapply transition_trans; [exact Htr|]. eapply transition_perm; [symmetry; exact Hperm | done | exact Htr1]. }
    eapply transition_perm in Htr'; [|done|]; [destruct Htr' as [? ? ? [] ?]; split; [done .. | by split | done]|].
    rewrite !held_app, <- !app_assoc. apply Permutation_app_swap_app. }
  change (wp (connection_loop body (done ++ option_list kept) todo a') s2
    (fun a' s' => pub_inv R L s' /\
       transition (held (im_connections (ps_impl s0)) ++ R) (held (im_connections (ps_impl s')) ++ R) L s0 s' /\
       I (im_connections (ps_impl s')) [] a' (ps_world s'))).
  apply IH; [done | | done | done].
  assert (Hle : world_le (ps_world s) (ps_world s2)) by apply (tr_evolves _ _ _ _ _ Htr1).
  rewrite !Forall_app. split_and!; eauto using connections_ok_le.
Qed.

Lemma for_connections_ok a s : pub_inv R L s -> body_ok s -> I [] (im_connections (ps_impl s)) a (ps_world s) ->
  wp (for_connections body a) s (fun a' s' => pub_inv R L s' /\
    transition (held (im_connections (ps_impl s)) ++ R) (held (im_connections (ps_impl s')) ++ R) L s s' /\
    I (im_connections (ps_impl s')) [] a' (ps_world s')).
Proof.
  intros [Hcore Hok] Hbody HI. unfold for_connections. apply wp_bind, wp_impl.
  apply connection_loop_ok; auto. by apply transition_refl.
Qed.
End loop.

(** ** Whole methods *)

(** A state that differs in fields neither [evolves] nor the queues mention. *)
Ltac evolve := split; try done; by apply same_queues_le.

(** The state between two statements of a method: the invariant holds, and every reference
    still held was held at the start. *)
Definition connections_of (s : PubState) : list DataConnection := im_connections (ps_impl s).
Definition advances (R : list ChunkHandle) (L : list (ChunkHandle * Z)) (s s' : PubState) : Prop :=
  pub_inv R L s' /\ transition (held (connections_of s) ++ R) (held (connections_of s') ++ R) L s s'.

Lemma advances_refl R L s : pub_inv R L s -> advances R L s s.
Proof. intros Hinv. split; [done|]. apply transition_refl, Hinv. Qed.

Lemma advances_trans R L s1 s2 s3 : advances R L s1 s2 -> advances R L s2 s3 -> advances R L s1 s3.
Proof. intros [? ?] [? ?]. split; [done|]. by eapply transition_trans. Qed.

(** A change of the fields the invariant does not mention. *)
Lemma advances_set R L s f : pub_inv R L s -> im_pool (f (ps_impl s)) = im_pool (ps_impl s) ->
  im_connections (f (ps_impl s)) = im_connections (ps_impl s) ->
  evolves s (s <| ps_impl := f (ps_impl s) |>) -> advances R L s (s <| ps_impl := f (ps_impl s) |>).
Proof.
  intros [[Hpool Hw] Hok] Hp Hc Hev. unfold advances, connections_of. simpl. rewrite Hc. split.
  - split; unfold core; simpl; rewrite Hc, ?Hp; by try split.
  - apply transition_same; auto. by split.
Qed.

(** Runs a statement that keeps the invariant, then the rest from the state it leaves. *)
Lemma wp_advances {A B} R L (c : cpp PubState A) (k : A -> cpp PubState B) s s1 (P : A -> PubState -> Prop)
    (Q : B -> PubState -> Prop) :
  advances R L s s1 -> wp c s1 (fun a s2 => advances R L s1 s2 /\ P a s2) ->
  (forall a s2, advances R L s s2 -> evolves s1 s2 -> P a s2 -> wp (k a) s2 Q) -> wp (c ≫= k) s1 Q.
Proof.
  intros H1 Hc Hk. apply wp_bind. eapply wp_mono, Hc. intros a s2 [Hadv HP].
  apply Hk; [by eapply advances_trans | apply Hadv | done].
Qed.

Lemma release_and_destroy_ok O L env c s : core (dc_outstanding c ++ O) L s -> connection_ok (ps_world s) c ->
  wp (releaseAllOutstanding c) s (fun c' s1 => dc_endpoint_id c' = dc_endpoint_id c /\
    wp (destroy_connection env c') s1 (fun _ s2 => transition (dc_outstanding c ++ O) O L s s2)).
Proof.
  intros Hcore Hc. eapply wp_mono; [|by apply releaseAllOutstanding_ok].
  intros c' s1 [-> Htr]. split; [done|]. eapply wp_mono; [|apply (destroy_connection_ok O L)].
  - intros u s2 Htr2. by eapply transition_trans.
  - apply (tr_core _ _ _ _ _ Htr).
  - assert (Hc1 : connection_ok (ps_world s1) c) by (eapply connection_ok_le, Hc; apply (tr_evolves _ _ _ _ _ Htr)).
    destruct Hc1. split; simpl; auto. unfold kQueueReleaseSize. lia.
Qed.

(** The loop that drops the connections for which [drop] holds. *)
Lemma drop_loop_ok R L env (drop : DataConnection -> bool) s
    (body : unit -> DataConnection -> cpp PubState (unit * option DataConnection)) :
  (forall u c, body u c = if drop c then connection ← releaseAllOutstanding c;
                            destroy_connection env connection;; mret (tt, None)
                          else mret (tt, Some c)) ->
  pub_inv R L s ->
  wp (for_connections body tt) s (fun _ s' => advances R L s s' /\
    connections_of s' = filter (fun c => drop c = false) (connections_of s)).
Proof.
  intros Hbody Hinv.
  eapply wp_mono; [|apply (for_connections_ok R L body (fun done todo _ _ =>
    done ++ filter (fun c => drop c = false) todo = filter (fun c => drop c = false) (connections_of s))); [done | | done]].
  - intros u s' (Hinv' & Htr & HI). rewrite app_nil_r in HI. by split_and!.
  - intros done todo u c F s1 Hcore Hc Hev HI. rewrite Hbody. rewrite filter_cons in HI. destruct (drop c) eqn:Hd.
    + apply wp_bind. eapply wp_mono; [|apply (release_and_destroy_ok (F ++ R) L env c s1 Hcore Hc)].
      intros c' s2 [_ Hwp]. apply wp_bind. eapply wp_mono, Hwp. intros u' s3 Htr. apply wp_ret. simpl.
      rewrite decide_False in HI by congruence. rewrite app_nil_r. split_and!; auto.
    + apply wp_ret. rewrite decide_True in HI by done. simpl. rewrite app_nil_r.
      split_and!; [by apply transition_refl | by constructor | by rewrite <- app_assoc].
Qed.

Lemma removeEndpoint_ok R L env id s : pub_inv R L s ->
  wp (removeEndpoint env id) s (fun _ s' => advances R L s s' /\
    connections_of s' = filter (fun c => (dc_endpoint_id c =? id) = false) (connections_of s)).
Proof.
  intros Hinv. unfold removeEndpoint. apply wp_bind.
  eapply wp_mono; [|by apply (drop_loop_ok R L env (fun c => dc_endpoint_id c =? id))].
  intros u s1 [Hadv Hconn]. split; [|done]. eapply advances_trans; [exact Hadv|].
  apply advances_set with (f := fun m => m <| im_failed_endpoint_ids := {[ id ]} ∪ im_failed_endpoint_ids m |>
    <| im_discovery_refresh_required := true |>); [apply Hadv | done | done | evolve].
Qed.

(** A change of fields during an iteration. *)
Lemma set_transition O L s f : core O L s -> im_pool (f (ps_impl s)) = im_pool (ps_impl s) ->
  evolves s (s <| ps_impl := f (ps_impl s) |>) -> transition O O L s (s <| ps_impl := f (ps_impl s) |>).
Proof. intros Hcore Hp Hev. apply transition_same; auto. apply Hcore. Qed.

Definition endpoint_ids (connections : list DataConnection) : list Z := map dc_endpoint_id connections.

Definition shrinks (s s' : PubState) : Prop :=
  endpoint_ids (connections_of s') `sublist_of` endpoint_ids (connections_of s).

Lemma shrinks_trans s1 s2 s3 : shrinks s1 s2 -> shrinks s2 s3 -> shrinks s1 s3.
Proof. unfold shrinks. intros. by etrans. Qed.

(** One connection per endpoint, and fewer than the counters of a [PublishResult] can count. *)
Definition distinct (s : PubState) : Prop :=
  NoDup (endpoint_ids (connections_of s)) /\ Z.of_nat (length (connections_of s)) < 2 ^ 32.

Lemma shrinks_distinct s s' : shrinks s s' -> distinct s -> distinct s'.
Proof.
  unfold shrinks, distinct. intros Hsub [Hnd Hlen]. split; [by eapply sublist_NoDup|].
  apply sublist_length in Hsub. unfold endpoint_ids in Hsub. rewrite !length_map in Hsub. lia.
Qed.

Lemma filter_shrinks s s' (P : DataConnection -> Prop) `{!forall c, Decision (P c)} :
  connections_of s' = filter P (connections_of s) -> shrinks s s'.
Proof.
  unfold shrinks, endpoint_ids. intros ->. induction (connections_of s) as [|c cs IH]; [done|].
  rewrite filter_cons. simpl. case_decide; [by apply sublist_skip | by apply sublist_cons].
Qed.

Lemma receiving_ok w c c' : connection_ok w c -> same_connection c c' -> receiving c' -> connection_ok w c'.
Proof. intros [] (_ & _ & _ & Hq) [? ?]. split; auto. by rewrite Hq. Qed.

Lemma drainReleasesNonBlocking_ok R L env s : pub_inv R L s ->
  wp (drainReleasesNonBlocking env) s (fun _ s' => advances R L s s' /\ shrinks s s').
Proof.
  intros Hinv. unfold drainReleasesNonBlocking. apply wp_bind, wp_impl.
  destruct (im_pool (ps_impl s)); [|by apply wp_ret; split; [apply advances_refl | unfold shrinks]].
  eapply wp_mono; [|apply (for_connections_ok R L _ (fun done todo _ _ =>
    endpoint_ids (done ++ todo) `sublist_of` endpoint_ids (connections_of s))); [done | | done]].
  { intros u s' (Hinv' & Htr & HI). rewrite app_nil_r in HI. by split_and!. }
  intros done todo u c F s1 Hcore Hc Hev HI. apply wp_bind, wp_recv_fuel, wp_bind.
  eapply wp_mono; [|apply (drain_connection_ok (F ++ R) L); [exact Hcore | by destruct Hc | lia]].
  intros [c1 disconnected] s2 (Htr & Hsame & Hrec).
  assert (Hc1 : connection_ok (ps_world s2) c1).
  { eapply receiving_ok; [|exact Hsame|done]. eapply connection_ok_le, Hc. apply (tr_evolves _ _ _ _ _ Htr). }
  destruct disconnected.
  - apply wp_bind. eapply wp_mono; [|apply (release_and_destroy_ok (F ++ R) L env c1); [apply (tr_core _ _ _ _ _ Htr) | done]].
    intros c2 s3 [Hid Hwp]. apply wp_bind. eapply wp_mono, Hwp. intros u' s4 Htr2.
    assert (Htr3 : transition (dc_outstanding c ++ F ++ R) (F ++ R) L s1 s4) by (by eapply transition_trans).
    apply wp_bind. apply wp_mono with (Q := fun _ s5 => transition (F ++ R) (F ++ R) L s4 s5).
    + intros u'' s5 Htr5. apply wp_bind. unfold set_impl, modify, wp at 1. apply wp_ret. simpl. rewrite app_nil_r.
      split_and!; [|done|].
      * eapply transition_trans; [exact Htr3|]. eapply transition_trans; [exact Htr5|].
        apply (set_transition _ _ _ (fun m => m <| im_discovery_refresh_required := true |>)); [apply (tr_core _ _ _ _ _ Htr5) | done | evolve].
      * etrans; [|exact HI]. unfold endpoint_ids. rewrite !map_app. simpl. apply sublist_app; [done | by apply sublist_cons].
    + destruct (negb _); [|by apply wp_ret, transition_refl; apply (tr_core _ _ _ _ _ Htr3)].
      unfold set_impl, modify, wp.
      apply (set_transition _ _ _ (fun m => m <| im_failed_endpoint_ids := {[ dc_endpoint_id c2 ]} ∪ im_failed_endpoint_ids m |>));
        [apply (tr_core _ _ _ _ _ Htr3) | done | evolve].
  - apply wp_ret. simpl. rewrite app_nil_r. split_and!; [done | by constructor |].
    unfold endpoint_ids in *. rewrite !map_app in *. simpl in *. destruct Hsame as (-> & _).
    by rewrite <- app_assoc.
Qed.

(** Removing endpoints one after the other. *)
Lemma remove_endpoints_ok R L env ids s : pub_inv R L s ->
  wp (for_each ids (removeEndpoint env)) s (fun _ s' => advances R L s s' /\
    connections_of s' = filter (fun c => ~ (dc_endpoint_id c ∈ ids)) (connections_of s)).
Proof.
  revert s. induction ids as [|id ids IH]; intros s Hinv.
  { apply wp_ret. split; [by apply advances_refl|]. symmetry. apply filter_keep_all, Forall_true. set_solver. }
  cbn [for_each]. apply wp_bind. eapply wp_mono; [|by apply (removeEndpoint_ok R L)].
  intros u s1 [Hadv Hconn]. eapply wp_mono; [|apply IH, Hadv].
  intros u' s2 [Hadv2 Hconn2]. split; [by eapply advances_trans|].
  rewrite Hconn2, Hconn, list_filter_filter. apply list_filter_iff. intros c.
  rewrite not_elem_of_cons, Z.eqb_neq. naive_solver.
Qed.

(** ** Surroundings that behave *)

(** Other processes keep the queues inside their slots, whatever else they do. *)
Definition others_ok (f : World -> World) : Prop := forall w, world_ok w -> world_ok (f w) /\ world_le w (f w).

(** The registry client answers or throws, and never throws [ErrorCode::Ok]; the answers have
    the types of the protocol. *)
Record env_answers (env : call_env) : Prop := {
  en_events : ce_events env <> Undef;
  en_resolve : match ce_resolve env with
    | Ret discovery => Forall (fun subscriber => 0 <= qd_capacity (rs_queue subscriber)) (rd_subscribers discovery) /\
        Z.of_nat (length (rd_subscribers discovery)) < 2 ^ 32
    | Throw e => e <> ex_middleware Ok
    | Undef => False
    end;
  en_wait : forall id, env_safe (ce_wait env id);
  en_polls : Forall (fun answer => others_ok (pa_others answer)) (ce_polls env);
}.

Lemma processPeerEvents_ok R L env s : env_answers env -> pub_inv R L s ->
  wp (processPeerEvents env) s (fun _ s' => advances R L s s' /\ shrinks s s').
Proof.
  intros Henv Hinv. unfold processPeerEvents. apply wp_bind, wp_impl.
  destruct (_ || _); [by apply wp_ret; split; [apply advances_refl | unfold shrinks]|].
  apply wp_bind. eapply wp_mono; [|by apply (drainReleasesNonBlocking_ok R L)].
  intros u s1 [Hadv Hsub]. pose proof (en_events _ Henv) as Hev.
  destruct (ce_events env) as [events| |]; [|by apply wp_ret|done].
  apply (wp_for_each (fun _ s' => advances R L s s' /\ shrinks s s')); [|done].
  intros event events' s2 [Hadv2 Hsub2]. destruct (re_kind event); [by apply wp_ret|].
  eapply wp_mono; [|by apply (removeEndpoint_ok R L), Hadv2]. intros u' s3 [Hadv3 Hconn].
  split; [by eapply advances_trans|]. eapply shrinks_trans; [exact Hsub2|]. by eapply filter_shrinks.
Qed.

(** Other processes act. *)
Lemma others_advance R L s f : others_ok f -> pub_inv R L s -> advances R L s (s <| ps_world := f (ps_world s) |>).
Proof.
  intros Hf [Hcore Hok]. destruct Hcore as [Hpool Hw]. destruct (Hf _ Hw) as [Hw' Hle].
  assert (Htr : transition (held (connections_of s) ++ R) (held (connections_of s) ++ R) L s
    (s <| ps_world := f (ps_world s) |>)).
  { apply transition_same; [by split | by split | done | done]. }
  split; [|exact Htr]. split; [apply (tr_core _ _ _ _ _ Htr)|]. by eapply connections_ok_le.
Qed.

Lemma wait_loop_ok R L env polls : Forall (fun answer => others_ok (pa_others answer)) polls -> forall s,
  pub_inv R L s -> wp (wait_loop env polls) s (fun _ s' => advances R L s s' /\ shrinks s s').
Proof.
  induction 1 as [|answer polls Hf _ IH]; intros s Hinv; cbn [wait_loop];
    apply wp_bind, wp_impl; (destruct (_ =? 0); [by apply wp_ret; split; [apply advances_refl | unfold shrinks]|]);
    (case_bool_decide; [by apply wp_ret; split; [apply advances_refl | unfold shrinks]|]).
  { by apply wp_ret; split; [apply advances_refl | unfold shrinks]. }
  apply wp_bind. unfold set_world, modify, wp at 1.
  pose proof (others_advance R L s _ Hf Hinv) as Hadv. set (s1 := s <| ps_world := _ |>) in *.
  assert (Hsub : shrinks s s1) by (unfold shrinks; done).
  assert (Hrest : forall s2, advances R L s s2 -> shrinks s s2 ->
    wp (wait_loop env polls) s2 (fun _ s' => advances R L s s' /\ shrinks s s')).
  { intros s2 Hadv2 Hsub2. eapply wp_mono; [|apply IH, Hadv2]. intros u s3 [Hadv3 Hsub3].
    split; [by eapply advances_trans | by eapply shrinks_trans]. }
  destruct (_ && _); [by apply Hrest|]. destruct (pa_result answer <=? 0); [by apply wp_ret|].
  apply wp_bind. eapply wp_mono; [|apply (drainReleasesNonBlocking_ok R L), Hadv].
  intros u s2 [Hadv2 Hsub2]. apply Hrest; [by eapply advances_trans | exact (shrinks_trans _ _ _ Hsub Hsub2)].
Qed.

Lemma release_handles_ok O L hs : forall c s, core (dc_outstanding c ++ O) L s ->
  wp (release_handles hs c) s (fun c' s' => transition (dc_outstanding c ++ O) (dc_outstanding c' ++ O) L s s' /\
    same_connection c c' /\ dc_release_bytes c' = dc_release_bytes c /\ dc_release_buffer c' = dc_release_buffer c).
Proof.
  induction hs as [|h hs IH]; intros c s Hcore; cbn [release_handles].
  { apply wp_ret. by split_and!; [apply transition_refl|..]. }
  apply wp_bind. eapply wp_mono; [|by apply releaseOutstanding_ok]. intros c1 s1 (Heq & Htr & _).
  eapply wp_mono; [|apply (IH c1), (tr_core _ _ _ _ _ Htr)]. intros c2 s2 (Htr2 & Hsame & -> & ->).
  split_and!; [by eapply transition_trans | | by rewrite Heq | by rewrite Heq].
  eapply same_connection_trans; [|exact Hsame]. by rewrite Heq.
Qed.

Lemma drainQueuedReferences_ok R L env s : pub_inv R L s ->
  wp (drainQueuedReferences env) s (fun _ s' => advances R L s s' /\ shrinks s s').
Proof.
  intros Hinv. unfold drainQueuedReferences.
  eapply wp_mono; [|apply (for_connections_ok R L _ (fun done todo _ _ =>
    endpoint_ids (done ++ todo) `sublist_of` endpoint_ids (connections_of s))); [done | | done]].
  { intros u s' (Hinv' & Htr & HI). rewrite app_nil_r in HI. by split_and!. }
  intros done todo u c F s1 Hcore Hc Hev HI.
  assert (Hids : forall c' : DataConnection, dc_endpoint_id c' = dc_endpoint_id c ->
    endpoint_ids ((done ++ option_list (Some c')) ++ todo) `sublist_of` endpoint_ids (connections_of s)).
  { intros c' Hid. unfold endpoint_ids in *. rewrite !map_app in *. simpl in *. by rewrite Hid, <- app_assoc. }
  destruct (dc_queue c) as [client|] eqn:Hq.
  2: { apply wp_ret. simpl. rewrite app_nil_r. split_and!; [by apply transition_refl | by constructor | by apply Hids]. }
  destruct (co_queue _ _ Hc client Hq) as (q & Hlook & Hs). apply wp_bind.
  apply wp_mono with (Q := fun _ s2 => transition (dc_outstanding c ++ F ++ R) (dc_outstanding c ++ F ++ R) L s1 s2).
  - intros hs s2 Htr. apply wp_bind. eapply wp_mono; [|apply (release_handles_ok (F ++ R) L), (tr_core _ _ _ _ _ Htr)].
    intros c' s3 (Htr2 & Hsame & Hb & Hbuf). apply wp_ret. simpl. rewrite app_nil_r.
    assert (Htr3 : transition (dc_outstanding c ++ F ++ R) (dc_outstanding c' ++ F ++ R) L s1 s3) by (by eapply transition_trans).
    split_and!; [done | | by apply Hids, Hsame]. constructor; [|constructor].
    eapply receiving_ok; [|exact Hsame|].
    + eapply connection_ok_le, Hc. apply (tr_evolves _ _ _ _ _ Htr3).
    + destruct Hc. by split; rewrite ?Hb, ?Hbuf.
  - unfold wp, or_nothing, on_queue. rewrite Hlook.
    pose proof (exec_queue_op_inside (QDrain (ce_lock env (dc_endpoint_id c))) q Hs Logic.I) as Hin.
    simpl in Hin. unfold mbind, cpp_bind in Hin.
    destruct (drain (ce_lock env (dc_endpoint_id c)) q) as [[hs| |] q']; simpl in *; try done;
      (eapply with_queue_transition; eauto using ring_safe_unsigned).
Qed.
