(* ===== verification/PublisherReleases.v ===== *)
(** * What comes in, and what the publisher's methods leave alone

    [receiveOneRelease] puts a release message together from whatever fragments the socket
    yields, within one call or over several, and gives back the reference it names.  Receiving
    releases and looking for subscribers send nothing on any socket, and dropping connections
    leaves the queues of the others alone. *)

From Stdlib Require Import ZArith Lia Bool String.
From stdpp Require Import base gmap list strings option.
From S2P Require Import Prelude Types Outcome BigEndian PoolProtocol QueueProtocol PoolLayout MemoryPool PoolSpec PoolReferences SocketIo SubscriberQueue PublisherState Publisher PublisherInvariant.

Local Open Scope Z_scope.

(** The bytes on their way, in fragments that are not empty, with interrupts between them. *)
Definition fragment_bytes (a : incoming) : list Z := match a with InData bytes => bytes | InError _ => [] end.
Definition stream_of (w : World) (fd : Z) : list Z := flat_map fragment_bytes (so_incoming (socket_of w fd)).
Definition fragment_ok (a : incoming) : Prop := match a with InData bytes => bytes <> [] | InError e => e = EINTR end.
Definition flowing (w : World) (fd : Z) : Prop := Forall fragment_ok (so_incoming (socket_of w fd)).

Lemma recv_step_flow size so : 0 < size -> Forall fragment_ok (so_incoming so) ->
  let '(answer, so') := recv_step size so in
  Forall fragment_ok (so_incoming so') /\
  match answer with
  | inl bytes => bytes <> [] /\ Z.of_nat (length bytes) <= size /\ flat_map fragment_bytes (so_incoming so) = bytes ++ flat_map fragment_bytes (so_incoming so')
  | inr errno => flat_map fragment_bytes (so_incoming so) = flat_map fragment_bytes (so_incoming so') /\
      (errno = EINTR \/ errno = EAGAIN /\ flat_map fragment_bytes (so_incoming so) = [])
  end.
Proof.
  intros Hsize Hok. unfold recv_step. destruct (so_incoming so) as [|[bytes|errno] rest] eqn:Hin.
  - rewrite Hin. split; [done|]. split; [done|]. by right.
  - apply Forall_cons_1 in Hok as [Hb Hrest]. cbn [so_incoming update_with]. simpl in Hb.
    assert (Htake : take (Z.to_nat size) bytes <> []).
    { destruct bytes; [done|]. destruct (Z.to_nat size) eqn:Hn; [lia | done]. }
    assert (Hlen : Z.of_nat (length (take (Z.to_nat size) bytes)) <= size) by (rewrite length_take; lia).
    destruct (drop (Z.to_nat size) bytes) as [|b left] eqn:Hd; simpl.
    + split; [done|]. split; [done|]. split; [done|]. f_equal. rewrite <- (take_drop (Z.to_nat size) bytes) at 1. by rewrite Hd, app_nil_r.
    + split; [by constructor|]. split; [done|]. split; [done|]. rewrite <- (take_drop (Z.to_nat size) bytes) at 1. by rewrite Hd, <- app_assoc.
  - apply Forall_cons_1 in Hok as [He Hrest]. simpl. split; [done|]. split; [done|]. by left.
Qed.

Lemma recv_flow fd size s : 0 < size -> flowing (ps_world s) fd ->
  wp (recv fd size) s (fun answer s' => flowing (ps_world s') fd /\
    match answer with
    | inl bytes => bytes <> [] /\ Z.of_nat (length bytes) <= size /\ stream_of (ps_world s) fd = bytes ++ stream_of (ps_world s') fd
    | inr errno => stream_of (ps_world s) fd = stream_of (ps_world s') fd /\
        (errno = EINTR \/ errno = EAGAIN /\ stream_of (ps_world s) fd = [])
    end).
Proof.
  intros Hsize Hok. unfold recv, wp. unfold_cpp. pose proof (recv_step_flow size _ Hsize Hok) as Hstep.
  destruct (recv_step size (socket_of (ps_world s) fd)) as [answer so']. simpl.
  unfold flowing, stream_of, socket_of at 1 3 5. simpl. rewrite lookup_insert_eq. simpl.
  destruct answer; exact Hstep.
Qed.

(** The connection has the first [dc_release_bytes] bytes of [frame]. *)
Definition received_so_far (c : DataConnection) : list Z := take (Z.to_nat (dc_release_bytes c)) (dc_release_buffer c).

Lemma fill_release_flow frame rest fuel : length frame = kQueueReleaseSize -> forall c s c' stopped s',
  filling c -> flowing (ps_world s) (dc_socket c) ->
  received_so_far c ++ stream_of (ps_world s) (dc_socket c) = frame ++ rest ->
  fill_release fuel c s = (Ret (c', stopped), s') ->
  stopped = None /\ dc_release_buffer c' = frame /\ flowing (ps_world s') (dc_socket c) /\
  stream_of (ps_world s') (dc_socket c) = rest.
Proof.
  intros Hframe. revert fuel.
  assert (Hdone : forall c s c' stopped s', filling c -> flowing (ps_world s) (dc_socket c) ->
    received_so_far c ++ stream_of (ps_world s) (dc_socket c) = frame ++ rest ->
    Z.of_nat kQueueReleaseSize <= dc_release_bytes c ->
    (Ret (c, @None ReleaseReceiveStatus), s) = (Ret (c', stopped), s') ->
    stopped = None /\ dc_release_buffer c' = frame /\ flowing (ps_world s') (dc_socket c) /\
    stream_of (ps_world s') (dc_socket c) = rest).
  { intros c s c' stopped s' [Hb Hbuf] Hflow Hsplit Hfull [= <- <- <-].
    unfold received_so_far in Hsplit. rewrite take_ge in Hsplit by lia.
    apply app_inj_1 in Hsplit as [-> ->]; [by split_and! | lia]. }
  induction fuel as [|fuel IH]; intros c s c' stopped s' Hfill Hflow Hsplit; cbn [fill_release];
    (destruct (negb _) eqn:Hfull; bools; [by apply Hdone|]); [done|]. unfold mbind, cpp_bind.
  pose proof Hfill as [Hb Hbuf].
  pose proof (recv_flow (dc_socket c) (Z.of_nat kQueueReleaseSize - dc_release_bytes c) s ltac:(lia) Hflow) as Hrecv.
  unfold wp in Hrecv. destruct (recv _ _ s) as [[[bytes|errno]| |] s1]; try done.
  - destruct Hrecv as (Hflow1 & Hne & Hlen & Hstream).
    destruct (0 <? Z.of_nat (length bytes)) eqn:Hpos; bools; [|by destruct bytes].
    set (c1 := c <| dc_release_buffer := _ |> <| dc_release_bytes := _ |>). intros Hrun.
    change (dc_socket c) with (dc_socket c1). apply (IH c1 s1); [|done| |done].
    + split; simpl; [lia | by rewrite length_put_at].
    + change (dc_socket c1) with (dc_socket c). rewrite <- Hsplit, Hstream, app_assoc. f_equal.
      unfold received_so_far, c1. cbn [dc_release_buffer dc_release_bytes update_with]. simpl. apply take_put_at; lia.
  - destruct Hrecv as (Hflow1 & Hstream & [-> | [-> Hnil]]); [apply IH; [done | done | by rewrite <- Hstream]|].
    exfalso. rewrite Hnil, app_nil_r in Hsplit. apply (f_equal length) in Hsplit. unfold received_so_far in Hsplit.
    rewrite length_take, length_app in Hsplit. lia.
Qed.

(** A release message that has arrived is received whole, and the reference it names is given
    back; nothing of what follows it is taken off the stream. *)
Lemma release_received O L c handle rest s : core (dc_outstanding c ++ O) L s -> receiving c ->
  ChunkHandle_typed handle -> ch_pool_id handle <> 0 -> ch_generation handle <> 0 ->
  flowing (ps_world s) (dc_socket c) ->
  received_so_far c ++ stream_of (ps_world s) (dc_socket c) = encodeQueueRelease handle ++ rest ->
  wp (receiveOneRelease c) s (fun '(c', status) s' => status = ReleaseProgress /\
    transition (dc_outstanding c ++ O) (dc_outstanding c' ++ O) L s s' /\
    dc_outstanding c' = default (dc_outstanding c) (find_and_erase handle (dc_outstanding c)) /\
    dc_release_bytes c' = 0 /\ stream_of (ps_world s') (dc_socket c) = rest /\ flowing (ps_world s') (dc_socket c)).
Proof.
  intros Hcore [Hb Hbuf] Hty Hpool Hgen Hflow Hsplit. unfold receiveOneRelease. apply wp_bind, wp_recv_fuel, wp_bind.
  assert (Hfill : filling c) by (by split; [lia|]).
  eapply wp_mono; [|apply (wp_and _ _ (fun '(c1, stopped) s1 => stopped = None /\
    dc_release_buffer c1 = encodeQueueRelease handle /\ flowing (ps_world s1) (dc_socket c) /\
    stream_of (ps_world s1) (dc_socket c) = rest));
    [|apply (fill_release_ok (dc_outstanding c ++ O) L); [exact Hcore | done | lia]]].
  2: { intros [c1 stopped] s1 Hrun. eapply fill_release_flow; [apply length_encodeQueueRelease | done | done | exact Hsplit | exact Hrun]. }
  intros [c1 stopped] s1 [(-> & Hframe & Hflow1 & Hrest) (Htr & Hsame & Hout & _)].
  rewrite Hframe, decode_encode_queue_release by done. apply wp_bind.
  eapply wp_mono; [|apply releaseOutstanding_ok with (O := O) (L := L); simpl; rewrite Hout; apply (tr_core _ _ _ _ _ Htr)].
  intros c2 s2 (Heq & Htr2 & Hw2). apply wp_ret. rewrite Hw2, Heq. simpl. rewrite Hout. simpl in Htr2. rewrite Hout in Htr2.
  rewrite Heq in Htr2. cbn in Htr2. rewrite Hout in Htr2. split_and!; try done. by eapply transition_trans.
Qed.

(** ** Relations between the surroundings before and after *)

(** Whatever the outcome of [c], the world before and after are related by [R]. *)
Definition moves (R : World -> World -> Prop) {A} (c : cpp PubState A) : Prop :=
  forall s r s', c s = (r, s') -> R (ps_world s) (ps_world s').

Section moves.
Context (R : World -> World -> Prop) `{!PreOrder R}.

Lemma moves_still {A} (c : cpp PubState A) : (forall s r s', c s = (r, s') -> ps_world s' = ps_world s) -> moves R c.
Proof using All. intros H s r s' Hrun. by rewrite (H _ _ _ Hrun). Qed.

Lemma moves_ret {A} (a : A) : moves R (mret a).
Proof using All. apply moves_still. by intros s r s' [= _ <-]. Qed.
Lemma moves_throw {A} e : moves R (throw e : cpp PubState A).
Proof using All. apply moves_still. by intros s r s' [= _ <-]. Qed.
Lemma moves_undefined {A} : moves R (undefined : cpp PubState A).
Proof using All. apply moves_still. by intros s r s' [= _ <-]. Qed.
Lemma moves_lift {A} (o : outcome A) : moves R (lift o).
Proof using All. apply moves_still. by intros s r s' [= _ <-]. Qed.
Lemma moves_or_undef {A} (o : option A) : moves R (or_undef o).
Proof using All. apply moves_still. by destruct o; intros s r s' [= _ <-]. Qed.
Lemma moves_this : moves R this.
Proof using All. apply moves_still. by intros s r s' [= _ <-]. Qed.
Lemma moves_gets {A} (f : PubState -> A) : moves R (gets f).
Proof using All. apply moves_still. by intros s r s' [= _ <-]. Qed.
Lemma moves_set_impl f : moves R (set_impl f).
Proof using All. apply moves_still. by intros s r s' [= _ <-]. Qed.
Lemma moves_on_pool {A} (method : cpp MemoryPool A) : moves R (on_pool method).
Proof using All.
  apply moves_still. unfold on_pool. intros s r s'. destruct (im_pool _); [|by intros [= _ <-]].
  destruct (method _). by intros [= _ <-].
Qed.

Lemma moves_bind_value {A B} (c : cpp PubState A) (k : A -> cpp PubState B) : moves R c ->
  (forall s a s', c s = (Ret a, s') -> moves R (k a)) -> moves R (c ≫= k).
Proof using All.
  intros Hc Hk s r s'. unfold mbind, cpp_bind. destruct (c s) as [[a| |] s1] eqn:Hrun; pose proof (Hc _ _ _ Hrun) as HR.
  - intros Hrun2. etrans; [exact HR|]. by eapply Hk.
  - by intros [= _ <-].
  - by intros [= _ <-].
Qed.

Lemma moves_bind {A B} (c : cpp PubState A) (k : A -> cpp PubState B) : moves R c -> (forall a, moves R (k a)) -> moves R (c ≫= k).
Proof using All. intros Hc Hk. by apply moves_bind_value. Qed.

Lemma moves_for_each {A} (l : list A) (body : A -> cpp PubState unit) : (forall a, moves R (body a)) -> moves R (for_each l body).
Proof using All.
  intros Hbody. induction l as [|a l IH]; [apply moves_ret|]. cbn [for_each]. by apply moves_bind.
Qed.

(** The bodies that [connection_loop] runs are those of the connections it starts with. *)
Lemma moves_connection_loop {A} (body : A -> DataConnection -> cpp PubState (A * option DataConnection)) todo :
  (forall a c, c ∈ todo -> moves R (body a c)) -> forall done a, moves R (connection_loop body done todo a).
Proof using All.
  induction todo as [|c todo IH]; intros Hbody done a; cbn [connection_loop]; [apply moves_ret|].
  apply moves_bind; [apply Hbody; left|]. intros [a' kept]. apply moves_bind; [apply moves_set_impl|]. intros _.
  apply IH. intros a0 c0 Hc0. apply Hbody. by right.
Qed.

Lemma moves_for_connections {A} (body : A -> DataConnection -> cpp PubState (A * option DataConnection)) a :
  (forall a c, moves R (body a c)) -> moves R (for_connections body a).
Proof using All. intros Hbody. unfold for_connections. apply moves_bind; [apply moves_gets|]. intros m. by apply moves_connection_loop. Qed.

Lemma moves_releaseReference handle : moves R (releaseReference handle).
Proof using All.
  unfold releaseReference. apply moves_bind; [apply moves_gets|]. intros m. destruct (im_pool m); [|apply moves_ret].
  apply moves_bind; [apply moves_on_pool|]. intros r. destruct (negb _); [apply moves_ret|].
  destruct (rr_became_released r); [apply moves_on_pool|apply moves_ret].
Qed.

Lemma moves_releaseOutstanding c handle : moves R (releaseOutstanding c handle).
Proof using All.
  unfold releaseOutstanding. destruct (find_and_erase _ _); [|apply moves_ret].
  apply moves_bind; [apply moves_releaseReference|]. intros _. apply moves_ret.
Qed.

Lemma moves_releaseAllOutstanding c : moves R (releaseAllOutstanding c).
Proof using All.
  unfold releaseAllOutstanding. apply moves_bind; [|intros _; apply moves_ret]. apply moves_for_each. intros handle.
  apply moves_bind; [apply moves_releaseReference|]. intros _. apply moves_ret.
Qed.
End moves.

(** Proves that a method moves as a relation says: by a lemma about the method, or by its shape. *)
Create HintDb moves.
Ltac moves :=
  repeat first
    [ solve [auto with moves nocore] | apply moves_ret; exact _ | apply moves_throw; exact _ | apply moves_undefined; exact _ | apply moves_lift; exact _
    | apply moves_or_undef; exact _ | apply moves_this; exact _ | apply moves_gets; exact _ | apply moves_set_impl; exact _
    | apply moves_on_pool; exact _ | apply moves_releaseReference; exact _ | apply moves_releaseOutstanding; exact _
    | apply moves_releaseAllOutstanding; exact _
    | apply moves_for_each; [exact _ | intros ?] | apply moves_for_connections; [exact _ | intros ? ?]
    | apply moves_bind; [exact _ | | intros ?] | progress cbv zeta
    | match goal with |- moves _ (match ?x with _ => _ end) => destruct x end ].

(** ** Sockets *)

(** The bytes the kernel has accepted on a socket. *)
Definition sent_on (w : World) (fd : Z) : list Z := so_sent (socket_of w fd).

(** Nothing was sent. *)
Definition sends_nothing (w w' : World) : Prop := forall fd, sent_on w' fd = sent_on w fd.

#[export] Instance sends_nothing_preorder : PreOrder sends_nothing.
Proof. split; [by intros w fd|]. intros w1 w2 w3 H12 H23 fd. by rewrite H23, H12. Qed.

Lemma on_queue_sends_nothing {A} client (method : cpp SharedQueue A) : moves sends_nothing (on_queue client method).
Proof.
  intros s r s'. unfold on_queue. destruct (wd_queues _ !! _); [|by intros [= _ <-] fd]. destruct (method _). by intros [= _ <-] fd.
Qed.
#[export] Hint Resolve on_queue_sends_nothing : moves.

Lemma recv_sends_nothing fd size : moves sends_nothing (recv fd size).
Proof.
  intros s r s'. unfold recv. unfold_cpp. destruct (recv_step size (socket_of (ps_world s) fd)) as [answer so] eqn:Hstep.
  assert (Hso : so_sent so = so_sent (socket_of (ps_world s) fd)).
  { unfold recv_step in Hstep. destruct (so_incoming _) as [|[bytes|errno] rest]; by simplify_eq. }
  intros [= _ <-] fd'. unfold sent_on, socket_of. simpl. destruct (decide (fd' = fd)) as [->|Hne].
  - rewrite lookup_insert_eq. simpl. by rewrite Hso.
  - by rewrite lookup_insert_ne.
Qed.
#[export] Hint Resolve recv_sends_nothing : moves.

Lemma fill_release_sends_nothing fuel : forall c, moves sends_nothing (fill_release fuel c).
Proof.
  induction fuel as [|fuel IH]; intros c; cbn [fill_release]; destruct (negb _); moves.
Qed.
#[export] Hint Resolve fill_release_sends_nothing : moves.

Lemma receiveOneRelease_sends_nothing c : moves sends_nothing (receiveOneRelease c).
Proof. unfold receiveOneRelease, recv_fuel. moves. Qed.
#[export] Hint Resolve receiveOneRelease_sends_nothing : moves.

Lemma drain_connection_sends_nothing fuel : forall c, moves sends_nothing (drain_connection fuel c).
Proof. induction fuel as [|fuel IH]; intros c; cbn [drain_connection]; moves. Qed.
#[export] Hint Resolve drain_connection_sends_nothing : moves.

Lemma destroy_connection_sends_nothing env c : moves sends_nothing (destroy_connection env c).
Proof. unfold destroy_connection. moves. Qed.
#[export] Hint Resolve destroy_connection_sends_nothing : moves.

Lemma drainReleasesNonBlocking_sends_nothing env : moves sends_nothing (drainReleasesNonBlocking env).
Proof.
  unfold drainReleasesNonBlocking, impl, recv_fuel. moves.
Qed.
#[export] Hint Resolve drainReleasesNonBlocking_sends_nothing : moves.

Lemma removeEndpoint_sends_nothing env id : moves sends_nothing (removeEndpoint env id).
Proof. unfold removeEndpoint. moves. Qed.
#[export] Hint Resolve removeEndpoint_sends_nothing : moves.

Lemma processPeerEvents_sends_nothing env : moves sends_nothing (processPeerEvents env).
Proof.
  unfold processPeerEvents, impl. moves.
Qed.
#[export] Hint Resolve processPeerEvents_sends_nothing : moves.

Lemma connect_subscriber_sends_nothing env subscriber : moves sends_nothing (connect_subscriber env subscriber).
Proof.
  assert (Hopen : moves sends_nothing (open_connection env subscriber)).
  { unfold open_connection, open_subscriber_queue, impl. moves. }
  unfold connect_subscriber, impl. apply moves_bind; [exact _|apply moves_gets; exact _|]. intros m. destruct (_ || _); [moves|].
  intros s r s'. destruct (open_connection env subscriber s) as [[c|e|] s1] eqn:Hrun; apply Hopen in Hrun.
  - intros [= _ <-]. exact Hrun.
  - intros [= _ <-]. exact Hrun.
  - by intros [= _ <-].
Qed.
#[export] Hint Resolve connect_subscriber_sends_nothing : moves.

Lemma connectDiscoveredEndpoints_sends_nothing env : moves sends_nothing (connectDiscoveredEndpoints env).
Proof.
  unfold connectDiscoveredEndpoints, apply_discovery, forget_undiscovered, impl. moves.
Qed.

(** Receiving releases and looking for subscribers, which come before every publication. *)
Definition prepare (env : call_env) : cpp PubState ErrorCode := drainReleasesNonBlocking env;; connectDiscoveredEndpoints env.

Lemma prepare_sends_nothing env : moves sends_nothing (prepare env).
Proof.
  unfold prepare. apply moves_bind; [exact _|apply drainReleasesNonBlocking_sends_nothing|]. intros _.
  apply connectDiscoveredEndpoints_sends_nothing.
Qed.

(** ** Queues *)

(** The name of a connection's queue. *)
Definition queue_name (c : DataConnection) : option string := (fun client => qd_shm_name (qc_descriptor client)) <$> dc_queue c.

(** The queue [name] is as before. *)
Definition same_queue (name : string) (w w' : World) : Prop := wd_queues w' !! name = wd_queues w !! name.

#[export] Instance same_queue_preorder name : PreOrder (same_queue name).
Proof. split; [by intros w|]. intros w1 w2 w3 H12 H23. unfold same_queue in *. congruence. Qed.

Lemma on_other_queue {A} name client (method : cpp SharedQueue A) : qd_shm_name (qc_descriptor client) <> name ->
  moves (same_queue name) (on_queue client method).
Proof.
  intros Hne s r s'. unfold on_queue. destruct (wd_queues _ !! _); [|by intros [= _ <-]]. destruct (method _). intros [= _ <-].
  unfold same_queue. simpl. by rewrite lookup_insert_ne.
Qed.

Lemma destroy_other_connection name env c : queue_name c <> Some name -> moves (same_queue name) (destroy_connection env c).
Proof.
  unfold queue_name, destroy_connection. intros Hne. destruct (dc_queue c) as [client|]; moves. apply on_other_queue.
  intros Heq. apply Hne. simpl. by rewrite Heq.
Qed.

Lemma releaseAllOutstanding_same c s c' s' : releaseAllOutstanding c s = (Ret c', s') -> dc_queue c' = dc_queue c.
Proof.
  unfold releaseAllOutstanding. unfold mbind, cpp_bind. destruct (for_each _ _ s) as [[[]| |] s1]; [|done|done]. by intros [= <- _].
Qed.

(** Removing endpoints detaches only the queues of their connections. *)
Lemma remove_other_endpoint name env id s u s' : removeEndpoint env id s = (Ret u, s') ->
  (forall c, c ∈ connections_of s -> dc_endpoint_id c = id -> queue_name c <> Some name) ->
  same_queue name (ps_world s) (ps_world s').
Proof.
  intros Hrun Hne. unfold removeEndpoint in Hrun. unfold mbind at 1, cpp_bind at 1 in Hrun. unfold for_connections in Hrun.
  unfold mbind at 1, cpp_bind at 1, impl, gets in Hrun.
  destruct (connection_loop _ _ _ _ s) as [[v| |] s1] eqn:Hloop; [|done|done].
  assert (Hw : ps_world s' = ps_world s1) by (by unfold set_impl, modify in Hrun; injection Hrun as _ <-).
  rewrite Hw. revert Hloop. apply moves_connection_loop; [exact _|]. intros a c Hc. destruct (_ =? id) eqn:Hid; bools; [|moves].
  apply moves_bind_value; [exact _|apply moves_releaseAllOutstanding; exact _|]. intros s2 c' s3 Hrel.
  apply releaseAllOutstanding_same in Hrel. apply moves_bind; [exact _| |intros _; moves]. apply destroy_other_connection.
  unfold queue_name. rewrite Hrel. by apply Hne.
Qed.

Lemma remove_other_endpoints R L name env ids : forall s, pub_inv R L s ->
  (forall c, c ∈ connections_of s -> dc_endpoint_id c ∈ ids -> queue_name c <> Some name) ->
  wp (for_each ids (removeEndpoint env)) s (fun _ s' => same_queue name (ps_world s) (ps_world s')).
Proof.
  induction ids as [|id ids IH]; intros s Hinv Hne; cbn [for_each]; [by apply wp_ret|].
  apply wp_bind. eapply wp_mono; [|apply wp_and; [intros u s' Hrun; exact (remove_other_endpoint name env id s u s' Hrun)|by apply (removeEndpoint_ok R L)]].
  intros u s1 (Hsame & Hadv & Hconn). eapply wp_mono; [|apply IH; [apply Hadv|]].
  - intros u' s2 Hsame2. etrans; [|exact Hsame2]. apply Hsame. intros c Hc Hid. apply Hne; [done|]. rewrite Hid. left.
  - intros c. rewrite Hconn, list_elem_of_filter. intros [_ Hc] Hid. apply Hne; [done|by right].
Qed.

Lemma remove_other_endpoints_run R L name env ids s u s' : pub_inv R L s -> for_each ids (removeEndpoint env) s = (Ret u, s') ->
  (forall c, c ∈ connections_of s -> dc_endpoint_id c ∈ ids -> queue_name c <> Some name) ->
  same_queue name (ps_world s) (ps_world s').
Proof.
  intros Hinv Hrun Hne. pose proof (remove_other_endpoints R L name env ids s Hinv Hne) as Hwp. unfold wp in Hwp. by rewrite Hrun in Hwp.
Qed.
