(* ===== verification/PublisherMethods.v ===== *)
(** * Publisher methods

    Discovery, publishing and lending keep the publisher's invariant: the connections match
    what the registry lists, a published chunk is referenced once per subscriber that
    accepted it, and a failed publish gives its chunk back. *)

From Stdlib Require Import ZArith Lia Bool String.
From stdpp Require Import base gmap list strings option.
From S2P Require Import Prelude Types Outcome BigEndian FrameProtocol QueueProtocol PoolLayout MemoryPool PoolSpec PoolReferences SocketIo SubscriberQueue QueueTheorems PublisherState Publisher PublisherInvariant PublisherReleases.

Local Open Scope Z_scope.

(** ** Discovery *)

(** Opening leaves the fields of the queue unsigned and a ring inside its slots there, and
    yields a queue whose ring is inside its slots. *)
Lemma open_queue_keeps os lock d q : queue_unsigned q -> 0 <= qd_capacity d ->
  match open_queue os lock d q with
  | (Undef, _) => False
  | (r, q') => queue_unsigned q' /\ (ring_safe q -> ring_safe q') /\
      forall client, r = Ret client -> ring_safe q' /\ client = mkQueueClient d false true
  end.
Proof.
  intros Huns Hpos. unfold open_queue. unfold_cpp.
  destruct (validateDescriptor d) as [[]| |] eqn:Hv; [|done|by apply validateDescriptor_defined in Hv].
  apply validateDescriptor_spec in Hv as (Hc & Hseg & _ & _ & _); [|done].
  unfold queue_region_open. destruct (validateArguments _ _); [|done]. cbn [negb]. destruct os; [done|].
  destruct (queue_object_size q =? _) eqn:Hobj; [|done]. cbn [negb]. bools.
  destruct (immutableHeaderMatches _ _) eqn:Him; [|done]. cbn [negb].
  apply immutableHeaderMatches_capacity in Him. unfold queue_object_size, sizeof_ChunkHandle in *.
  rewrite PthreadLock_run. pose proof (lock_state_safe lock q) as Hsafe.
  assert (Hq0 : queue_unsigned (lock_state lock q) /\ qh_capacity (sq_header (lock_state lock q)) = qd_capacity d /\
    length (sq_slots (lock_state lock q)) = length (sq_slots q))
    by (destruct Huns as (? & ? & ?); destruct lock; unfold queue_unsigned; simpl; split_and!; auto; lia).
  set (q0 := lock_state lock q) in *. destruct Hq0 as (Huns0 & Hcap & Hlen). clearbody q0.
  destruct (lock_ok lock); [|done]. cbn [negb]. unfold header_, set_header. unfold_cpp.
  destruct (ringInvariantsHold _) eqn:Hring; [|done]. cbn [negb]. unfold ringInvariantsHold in Hring. bools.
  destruct (_ || _) eqn:Hcl; [done|]. destruct Huns0 as (? & ? & ?).
  assert (Hs : ring_safe q0) by (split; lia).
  set (q1 := q0 <| sq_header := _ |>). assert (Hs1 : ring_safe q1) by (eapply same_ring_safe; [|exact Hs]; by split_and!).
  split_and!; [by apply ring_safe_unsigned | done |]. by intros client [= <-].
Qed.

Lemma open_subscriber_queue_keeps O L env id d s : core O L s -> 0 <= qd_capacity d ->
  match open_subscriber_queue env id d s with
  | (Undef, _) => False
  | (r, s') => transition O O L s s' /\ ps_impl s' = ps_impl s /\
      forall client, r = Ret client -> queue_ready (ps_world s') client
  end.
Proof.
  intros Hcore Hpos. unfold open_subscriber_queue, on_queue. unfold_cpp. cbn [qc_descriptor].
  destruct (wd_queues (ps_world s) !! qd_shm_name d) as [q|] eqn:Hq.
  - destruct (ce_open env id) as [os lock]. cbn [qc_descriptor]. rewrite Hq.
    pose proof (open_queue_keeps os lock d q (proj2 Hcore _ _ Hq) Hpos) as Hopen.
    destruct (open_queue os lock d q) as [[client| |] q']; [| |done];
      destruct Hopen as (Huns & Hsafe & Hret); fold (with_queue s (qd_shm_name d) q');
      (split_and!; [by eapply with_queue_transition | done |]); [|done].
    intros c [= <-]. destruct (Hret client eq_refl) as [Hs ->]. exists q'. simpl. by rewrite lookup_insert_eq.
  - destruct (validateDescriptor d) as [[]| |] eqn:Hv; [by split_and!; [apply transition_refl|..] .. |
      by apply validateDescriptor_defined in Hv].
Qed.

Definition fresh_connection (w : World) (subscriber : RegistrySubscriber) (c : DataConnection) : Prop :=
  connection_ok w c /\ dc_endpoint_id c = rs_endpoint_id subscriber /\ dc_outstanding c = [] /\
  dc_max_message_size c = rs_max_message_size subscriber.

Lemma open_connection_keeps O L env subscriber s : core O L s -> 0 <= qd_capacity (rs_queue subscriber) ->
  match open_connection env subscriber s with
  | (Undef, _) => False
  | (r, s') => transition O O L s s' /\ ps_impl s' = ps_impl s /\
      forall c, r = Ret c -> fresh_connection (ps_world s') subscriber c
  end.
Proof.
  intros Hcore Hpos. pose proof (transition_refl _ _ _ Hcore) as Hrefl. unfold open_connection, impl. unfold_cpp.
  assert (Hdef : connectUnixSocket (ce_connect env (rs_endpoint_id subscriber)) (rs_data_socket_path subscriber) <> Undef).
  { unfold connectUnixSocket, makeAddress, createSocket, mbind, outcome_bind. by repeat case_match. }
  destruct (connectUnixSocket _ _) as [fd| |]; [|done|done].
  destruct (ce_reserve env _); [|done]. case_bool_decide.
  - pose proof (open_subscriber_queue_keeps O L env (rs_endpoint_id subscriber) (rs_queue subscriber) s Hcore Hpos) as Hopen.
    destruct (open_subscriber_queue _ _ _ s) as [[client| |] s']; [| |done]; destruct Hopen as (Htr & Himpl & Hret);
      (split_and!; [done | done |]); [|done].
    intros c [= <-]. unfold fresh_connection. split_and!; try done. split; simpl; [unfold kQueueReleaseSize; lia | done |].
    intros ? [= <-]. by apply Hret.
  - split_and!; [done | done |]. intros c [= <-]. unfold fresh_connection. by split_and!.
Qed.

(** What connecting to one subscriber does to the connections and the failed endpoints. *)
Definition connects (subscriber : RegistrySubscriber) (s s' : PubState) : Prop :=
  im_failed_endpoint_ids (ps_impl s) ⊆ im_failed_endpoint_ids (ps_impl s') /\
  (connections_of s' = connections_of s /\
     (rs_endpoint_id subscriber ∈ endpoint_ids (connections_of s) \/
      rs_endpoint_id subscriber ∈ im_failed_endpoint_ids (ps_impl s')) \/
   exists c, connections_of s' = connections_of s ++ [c] /\ fresh_connection (ps_world s') subscriber c /\
     ~ (rs_endpoint_id subscriber ∈ endpoint_ids (connections_of s))).

Lemma connect_subscriber_ok R L env subscriber s : pub_inv R L s -> 0 <= qd_capacity (rs_queue subscriber) ->
  wp (connect_subscriber env subscriber) s (fun _ s' => advances R L s s' /\ connects subscriber s s').
Proof.
  intros Hinv Hpos. unfold connect_subscriber. apply wp_bind, wp_impl.
  case_bool_decide as Hid; cbn [orb].
  { apply wp_ret. split; [by apply advances_refl|]. split; [done|]. left. split; [done | by left]. }
  case_bool_decide as Hfailed; cbn [orb].
  { apply wp_ret. split; [by apply advances_refl|]. split; [done|]. left. split; [done | by right]. }
  destruct Hinv as [Hcore Hok]. unfold wp.
  pose proof (open_connection_keeps _ _ env subscriber s Hcore Hpos) as Hopen.
  destruct (open_connection env subscriber s) as [[c| |] s1]; [| |done]; destruct Hopen as (Htr & Himpl & Hret);
    pose proof (tr_core _ _ _ _ _ Htr) as Hcore1;
    assert (Hok1 : Forall (connection_ok (ps_world s1)) (connections_of s))
      by (eapply connections_ok_le, Hok; apply (tr_evolves _ _ _ _ _ Htr));
    unfold set_impl, modify; set (s2 := s1 <| ps_impl := _ |>).
  - specialize (Hret c eq_refl) as Hfresh. assert (Hc : connections_of s2 = connections_of s ++ [c]).
    { unfold s2, connections_of. simpl. by rewrite Himpl. }
    assert (Hheld : held (connections_of s2) = held (connections_of s)).
    { rewrite Hc, held_app. simpl. destruct Hfresh as (_ & _ & -> & _). by rewrite app_nil_r. }
    assert (Htr2 : transition (held (connections_of s) ++ R) (held (connections_of s2) ++ R) L s s2).
    { rewrite Hheld. eapply transition_trans; [exact Htr|].
      apply set_transition with (f := fun m => m <| im_connections := im_connections m ++ [c] |>); [done | done | evolve]. }
    split.
    + split; [|done]. split; [apply (tr_core _ _ _ _ _ Htr2)|]. fold (connections_of s2). rewrite Hc.
      apply Forall_app. split; [done|]. constructor; [apply Hfresh | constructor].
    + split; [unfold s2; simpl; by rewrite Himpl|]. right. exists c. by split_and!.
  - assert (Hadv : advances R L s s1).
    { split; [|by unfold connections_of; rewrite Himpl]. split; [by rewrite Himpl | unfold connections_of in *; by rewrite Himpl]. }
    split.
    + eapply advances_trans; [exact Hadv|]. apply advances_set with (f := fun m => m <| im_failed_endpoint_ids :=
        {[ rs_endpoint_id subscriber ]} ∪ im_failed_endpoint_ids m |>); [apply Hadv | done | done | evolve].
    + split; [unfold s2; simpl; rewrite Himpl; set_solver|]. left.
      unfold s2, connections_of. simpl. rewrite Himpl. split; [done | right; set_solver].
Qed.

Lemma forget_undiscovered_ok R L env D s : pub_inv R L s ->
  wp (forget_undiscovered env D) s (fun _ s' => advances R L s s' /\
    connections_of s' = filter (fun c => dc_endpoint_id c ∈ D) (connections_of s)).
Proof.
  intros Hinv. unfold forget_undiscovered. apply wp_bind.
  eapply wp_mono; [|apply (drop_loop_ok R L env (fun c => negb (bool_decide (dc_endpoint_id c ∈ D)))); [|done]].
  2: { intros u c. by case_bool_decide. }
  intros u s1 [Hadv Hconn]. unfold set_impl, modify, wp. split.
  - eapply advances_trans; [exact Hadv|]. apply advances_set with (f := fun m => m <| im_failed_endpoint_ids :=
      filter (fun id => id ∈ D) (im_failed_endpoint_ids m) |>); [apply Hadv | done | done | evolve].
  - change (connections_of s1 = filter (fun c => dc_endpoint_id c ∈ D) (connections_of s)). rewrite Hconn.
    apply list_filter_iff. intros c. rewrite negb_false_iff. by rewrite bool_decide_eq_true.
Qed.

(** The publisher's view agrees with the list [D] of the registry. *)
Record agrees (D : gset Z) (s s' : PubState) : Prop := {
  ag_once : NoDup (endpoint_ids (connections_of s)) -> NoDup (endpoint_ids (connections_of s'));
  ag_known : forall id, id ∈ endpoint_ids (connections_of s') -> id ∈ D;
  ag_reached : forall id, id ∈ D ->
    id ∈ endpoint_ids (connections_of s') \/ id ∈ im_failed_endpoint_ids (ps_impl s');
}.

Lemma connect_all_ok R L env subscribers s : pub_inv R L s ->
  Forall (fun subscriber => 0 <= qd_capacity (rs_queue subscriber)) subscribers ->
  (forall id, id ∈ endpoint_ids (connections_of s) -> id ∈ map rs_endpoint_id subscribers) ->
  wp (for_each subscribers (connect_subscriber env)) s (fun _ s' => advances R L s s' /\
    agrees (list_to_set (map rs_endpoint_id subscribers)) s s').
Proof.
  intros Hinv Hcap Hknown. set (D := map rs_endpoint_id subscribers) in *.
  eapply wp_mono; [|apply (wp_for_each (fun rest s' => advances R L s s' /\
    Forall (fun subscriber => 0 <= qd_capacity (rs_queue subscriber)) rest /\ (forall x, x ∈ rest -> rs_endpoint_id x ∈ D) /\
    (NoDup (endpoint_ids (connections_of s)) -> NoDup (endpoint_ids (connections_of s'))) /\
    (forall id, id ∈ endpoint_ids (connections_of s') -> id ∈ D) /\
    (forall id, id ∈ D -> id ∈ map rs_endpoint_id rest \/ id ∈ endpoint_ids (connections_of s') \/
       id ∈ im_failed_endpoint_ids (ps_impl s'))))].
  - intros u s' (Hadv & _ & _ & Hnd & Hk & Hr). split; [done|]. split; [done | set_solver |].
    intros id Hid. destruct (Hr id) as [Hnil|?]; [set_solver | by apply not_elem_of_nil in Hnil | done].
  - intros x rest s1 (Hadv & Hcaps & Hin & Hnd & Hk & Hr). apply Forall_cons_1 in Hcaps as [Hx Hcaps].
    eapply wp_mono; [|apply (connect_subscriber_ok R L); [apply Hadv | done]].
    intros u s2 (Hadv2 & Hfailed & Hcon).
    assert (HxD : rs_endpoint_id x ∈ D) by (apply Hin; set_solver).
    split_and!; [by eapply advances_trans | done | set_solver | ..];
      (destruct Hcon as [[Heq Hor] | (c & Heq & (_ & Hid & _) & Hnew)]; rewrite Heq; unfold endpoint_ids in *;
       rewrite ?map_app in *; simpl; rewrite ?Hid).
    + done.
    + intros Hs. apply list.NoDup_app. split_and!; [by apply Hnd | set_solver | apply NoDup_singleton].
    + done.
    + intros id [?|?]%elem_of_app; [auto | set_solver].
    + intros id HidD. destruct (Hr id HidD) as [Hc | [? | ?]]; [|by auto | right; right; set_solver].
      simpl in Hc. apply elem_of_cons in Hc as [->|?]; [|by left]. right. destruct Hor as [?|?]; auto.
    + intros id HidD. rewrite elem_of_app. destruct (Hr id HidD) as [Hc | [? | ?]]; [|by auto | right; right; set_solver].
      simpl in Hc. apply elem_of_cons in Hc as [->|?]; [|by left]. right. left. right. set_solver.
  - split_and!; auto using advances_refl. intros x Hx. unfold D. by apply list_elem_of_fmap_2.
Qed.

Lemma agrees_distinct subscribers s s' : Z.of_nat (length subscribers) < 2 ^ 32 ->
  agrees (list_to_set (map rs_endpoint_id subscribers)) s s' -> distinct s -> distinct s'.
Proof.
  intros Hlen [Hnd Hk _] [Hs _]. specialize (Hnd Hs). split; [done|].
  assert (Hsub : endpoint_ids (connections_of s') ⊆+ map rs_endpoint_id subscribers).
  { apply NoDup_submseteq; [done|]. intros id Hid. specialize (Hk id Hid). by apply elem_of_list_to_set in Hk. }
  apply submseteq_length in Hsub. unfold endpoint_ids in Hsub. rewrite !length_map in Hsub. lia.
Qed.

(** The outcome of a refresh: a mismatch changes nothing, otherwise the publisher agrees with
    the registry and has negotiated the smallest limit. *)
Inductive refreshed (discovery : RegistryDiscovery) (s s' : PubState) : ErrorCode -> Prop :=
  | refresh_mismatch : s' = s -> rd_transport discovery <> pc_transport (im_config (ps_impl s)) \/
      rd_topic_id discovery <> im_topic_id (ps_impl s) -> refreshed discovery s s' TransportMismatch
  | refresh_other_pool : s' = s -> pool_matches (im_pool (ps_impl s)) (rd_pool discovery) = false ->
      refreshed discovery s s' InvalidSharedMemory
  | refresh_done : agrees (list_to_set (map rs_endpoint_id (rd_subscribers discovery))) s s' ->
      im_negotiated_max_message_size (ps_impl s') =
        negotiated (pc_max_message_size (im_config (ps_impl s))) (connections_of s') ->
      im_discovery_refresh_required (ps_impl s') = false ->
      refreshed discovery s s' (if bool_decide (connections_of s' = []) then ConnectionLost else Ok).

Lemma apply_discovery_ok R L env discovery s : pub_inv R L s ->
  Forall (fun subscriber => 0 <= qd_capacity (rs_queue subscriber)) (rd_subscribers discovery) ->
  wp (apply_discovery env discovery) s (fun e s' => advances R L s s' /\ refreshed discovery s s' e).
Proof.
  intros Hinv Hcap. unfold apply_discovery. apply wp_bind, wp_impl.
  destruct (_ || _) eqn:Hmis; bools.
  { apply wp_ret. split; [by apply advances_refl|]. apply refresh_mismatch; [done|].
    destruct Hmis; bools; auto. }
  destruct (_ && _) eqn:Hpool; bools.
  { apply wp_ret. split; [by apply advances_refl | by apply refresh_other_pool]. }
  apply wp_bind. eapply wp_mono; [|by apply (forget_undiscovered_ok R L)]. intros u s1 [Hadv1 Hconn1].
  apply wp_bind. eapply wp_mono; [|apply (connect_all_ok R L); [apply Hadv1 | done |]].
  2: { intros id. rewrite Hconn1. unfold endpoint_ids. intros (c & -> & Hc)%list_elem_of_fmap.
       apply list_elem_of_filter in Hc as [Hc _]. by apply elem_of_list_to_set in Hc. }
  intros u2 s2 [Hadv2 [Hnd Hk Hr]]. apply wp_bind. unfold set_impl, modify, wp at 1. apply wp_bind, wp_impl, wp_ret.
  set (s3 := s2 <| ps_impl := _ |>). assert (Hadv : advances R L s s2) by (by eapply advances_trans).
  split.
  - eapply advances_trans; [exact Hadv|]. apply advances_set with (f := fun m => m
      <| im_negotiated_max_message_size := negotiated (pc_max_message_size (im_config m)) (im_connections m) |>
      <| im_discovery_refresh_required := false |>
      <| im_next_discovery_refresh := ce_refreshed env + kShmDiscoveryRefreshInterval |>); [apply Hadv | done | done | evolve].
  - apply refresh_done; [|unfold s3; simpl; by rewrite (ev_config _ _ (tr_evolves _ _ _ _ _ (proj2 Hadv))) | done].
    split; [|done|done]. intros Hs. apply Hnd. eapply sublist_NoDup; [exact Hs|]. by eapply filter_shrinks.
Qed.

(** What is known after looking for subscribers: on success there is one. *)
Lemma connectDiscoveredEndpoints_ok R L env s : env_answers env -> pub_inv R L s ->
  wp (connectDiscoveredEndpoints env) s (fun e s' => advances R L s s' /\
    (e = Ok -> connections_of s' <> []) /\ (distinct s -> distinct s')).
Proof.
  intros Henv Hinv. unfold connectDiscoveredEndpoints. apply wp_bind, wp_impl.
  destruct (negb (im_registry_session _)).
  { apply wp_ret. split_and!; [by apply advances_refl | by case_bool_decide | done]. }
  apply wp_bind. eapply wp_mono; [|by apply (processPeerEvents_ok R L)]. intros u s1 [Hadv Hsub].
  assert (Hnd : distinct s -> distinct s1) by (by apply shrinks_distinct).
  apply wp_bind, wp_impl. destruct (_ || _); [by apply wp_ret; split_and!|].
  destruct (_ && _) eqn:Huds; bools.
  { apply wp_ret. by split_and!. }
  destruct (bool_decide (pc_transport _ = SharedMemory) && _ && _ && _) eqn:Hfresh; bools.
  { apply wp_ret. by split_and!. }
  pose proof (en_resolve _ Henv) as Hres. destruct (ce_resolve env) as [discovery|e|]; [| |done].
  - destruct Hres as [Hcap Hcount]. eapply wp_mono; [|apply (apply_discovery_ok R L); [apply Hadv | done]]. intros e s2 [Hadv2 Href].
    split_and!; [by eapply advances_trans | |].
    + intros ->. inversion Href as [| |? ? ? Heq]. by case_bool_decide.
    + intros Hs. inversion Href as [-> | -> | Hag]; auto. eapply agrees_distinct; eauto.
  - apply wp_ret. split_and!; [done | | done]. intros He. destruct e; try done. simpl in He. by rewrite He in Hres.
Qed.

(** ** Dispatch *)

(** Every [send] uses up a reply, and the kernel accepts everything once they are used up. *)
Lemma writeAllWith_returns fuel : forall data transferred so,
  (length (so_replies so) < fuel)%nat -> 0 <= transferred ->
  exists r so', writeAllWith send_step fuel data transferred so = Some (r, so').
Proof.
  induction fuel as [|fuel IH]; intros data transferred so Hfuel Hpos; [lia|].
  cbn [writeAllWith]. destruct (transferred <? _) eqn:Hlt; [|eauto]. bools. unfold send_step.
  destruct (so_replies so) as [|reply rest] eqn:Hrep; cbn [io_result io_errno].
  - rewrite length_drop. destruct (0 <? _) eqn:Hp; bools; [|lia].
    destruct (_ <? Z.of_nat (length data - _)); [eauto|].
    destruct fuel; cbn [writeAllWith]; rewrite (proj2 (Z.ltb_ge _ _)) by lia; eauto.
  - repeat case_match; bools; eauto; apply IH; simpl in *; lia.
Qed.

Lemma writeAll_returns data so :
  exists r so', writeAll send_step (S (length (so_replies so))) data so = Some (r, so').
Proof.
  destruct (writeAllWith_returns (S (length (so_replies so))) data 0 so) as (r & so' & Hrun); [lia | lia |].
  unfold writeAll. rewrite Hrun. simpl. eauto.
Qed.

(** Methods that never throw. *)
Definition no_throw {S A} (c : cpp S A) : Prop := forall s e s', c s <> (Throw e, s').

Lemma no_throw_bind {S A B} (c : cpp S A) (k : A -> cpp S B) :
  no_throw c -> (forall a, no_throw (k a)) -> no_throw (c ≫= k).
Proof.
  intros Hc Hk s e s'. unfold mbind, cpp_bind. specialize (Hc s).
  destruct (c s) as [[a|e1|] s1]; [apply Hk | by destruct (Hc e1 s1) | done].
Qed.

Lemma or_undef_no_throw {S A} (o : option A) : no_throw (S := S) (or_undef o).
Proof. by destruct o. Qed.

Ltac no_throw :=
  repeat first
    [ apply no_throw_bind; [|intros ?] | apply or_undef_no_throw | progress cbv zeta
    | match goal with |- no_throw (match ?x with _ => _ end) => destruct x end
    | by intros ? ? ? [=] ].

Lemma wait_for_space_no_throw wakeups expiry elapsed : no_throw (wait_for_space wakeups expiry elapsed).
Proof.
  induction wakeups; cbn [wait_for_space]; unfold header_, set_header, recoverConditionWaitOwnerDeath,
    makeMutexConsistentAfterOwnerDeath, resetRingAfterOwnerDeath, set_header; no_throw; done.
Qed.

Lemma enqueue_no_throw lock env handle notify : no_throw (enqueue lock env handle notify).
Proof.
  unfold enqueue, block_for_space, append_slot, advance_head, set_slot, slot, ring_mod, PthreadLock, header_, set_header,
    makeMutexConsistentAfterOwnerDeath, resetRingAfterOwnerDeath, set_header.
  no_throw; apply wait_for_space_no_throw.
Qed.

Lemma enqueue_and_wake_ok O L env c client handle frame s : core O L s -> queue_ready (ps_world s) client ->
  env_safe (ce_wait env (dc_endpoint_id c)) ->
  wp (enqueue_and_wake env c client handle frame) s (fun r s' => transition O O L s s' /\
    (forall name, qd_shm_name (qc_descriptor client) <> name -> same_queue name (ps_world s) (ps_world s')) /\
    (er_status r = QueueAccepted -> exists q, wd_queues (ps_world s') !! qd_shm_name (qc_descriptor client) = Some q /\ newest q = Some handle) /\
    (er_dropped_oldest r = Some handle -> exists q, wd_queues (ps_world s) !! qd_shm_name (qc_descriptor client) = Some q /\ handle ∈ sq_slots q)).
Proof.
  intros Hcore (q & Hq & Hs) Henv. unfold enqueue_and_wake. apply wp_bind. unfold this, wp at 1. apply wp_bind.
  destruct (writeAll_returns frame (socket_of (ps_world s) (dc_socket c))) as (r & so & Hrun).
  unfold sendWake. rewrite Hrun. simpl. apply wp_ret, wp_bind. eapply wp_on_queue; [exact Hq|].
  pose proof (exec_queue_op_inside (QEnqueue (ce_lock env (dc_endpoint_id c)) (ce_wait env (dc_endpoint_id c)) handle
    (Some (bool_decide (io_status r = IoComplete)))) q Hs Henv) as Hin.
  simpl in Hin. unfold mbind, cpp_bind in Hin. unfold wp.
  pose proof (enqueue_no_throw (ce_lock env (dc_endpoint_id c)) (ce_wait env (dc_endpoint_id c)) handle
    (Some (bool_decide (io_status r = IoComplete))) q) as Hnt.
  pose proof (enqueue_newest (ce_lock env (dc_endpoint_id c)) (ce_wait env (dc_endpoint_id c)) handle
    (Some (bool_decide (io_status r = IoComplete))) q Hs Henv) as Hnew.
  destruct (enqueue _ _ _ _ q) as [[result|e|] q'] eqn:Henq; [|by destruct (Hnt e q')|done]. simpl in Hin, Hnew.
  pose proof (enqueue_dropped _ _ _ _ _ _ _ Hs Henq handle) as Hdropped.
  assert (Htr : transition O O L s (with_queue s (qd_shm_name (qc_descriptor client)) q'))
    by (eapply with_queue_transition; eauto using ring_safe_unsigned).
  assert (Hothers : forall name, qd_shm_name (qc_descriptor client) <> name ->
    same_queue name (ps_world s) (ps_world (with_queue s (qd_shm_name (qc_descriptor client)) q'))).
  { intros name Hne. unfold same_queue. simpl. by rewrite lookup_insert_ne. }
  assert (Hq' : wd_queues (ps_world (with_queue s (qd_shm_name (qc_descriptor client)) q')) !! qd_shm_name (qc_descriptor client) = Some q')
    by (simpl; by rewrite lookup_insert_eq).
  destruct (_ || _); [|split_and!; [exact Htr|exact Hothers|eauto|eauto]].
  split_and!; [|exact Hothers|eauto|eauto].
  eapply transition_trans; [exact Htr|]. apply socket_transition, (tr_core _ _ _ _ _ Htr).
Qed.

(** [handle] is the newest entry of the connection's queue. *)
Definition queued (handle : ChunkHandle) (w : World) (c : DataConnection) : Prop :=
  exists name q, queue_name c = Some name /\ wd_queues w !! name = Some q /\ newest q = Some handle.

(** [handle] was in the connection's queue already, where it should not have been. *)
Definition stale (handle : ChunkHandle) (w : World) (c : DataConnection) : Prop :=
  exists name q, queue_name c = Some name /\ wd_queues w !! name = Some q /\ handle ∈ sq_slots q.

(** The queues of the other connections are as before. *)
Definition only_queue_of (c : DataConnection) (w w' : World) : Prop :=
  forall name, queue_name c <> Some name -> same_queue name w w'.

Lemma only_queue_of_trans c w1 w2 w3 : only_queue_of c w1 w2 -> only_queue_of c w2 w3 -> only_queue_of c w1 w3.
Proof. intros H12 H23 name Hne. etrans; [by apply H12|by apply H23]. Qed.

(** What one iteration did: the handle was accepted, is the newest entry of the queue and is
    outstanding, unless it was in the queue before and dropped for itself, or it was refused and
    the connection is as before. *)
Definition enqueued_of (d : dispatch) : Z := pr_enqueued (dp_result d).

Definition same_message (d d' : dispatch) : Prop :=
  pr_sequence (dp_result d') = pr_sequence (dp_result d) /\ pr_payload_size (dp_result d') = pr_payload_size (dp_result d).

Inductive dispatched (handle : ChunkHandle) (c : DataConnection) (d : dispatch) (c' : DataConnection) (d' : dispatch) (w w' : World) : Prop :=
  | dispatch_accepted (oldest : option ChunkHandle) :
      same_message d d' -> enqueued_of d' = wrap 32 (enqueued_of d + 1) -> dp_first_failure d' = dp_first_failure d ->
      dc_outstanding c' = match oldest with
        | None => dc_outstanding c ++ [handle]
        | Some old => default (dc_outstanding c ++ [handle]) (find_and_erase old (dc_outstanding c ++ [handle]))
        end -> queued handle w' c' -> handle ∈ dc_outstanding c' \/ stale handle w c ->
      dp_failed_endpoints d' = dp_failed_endpoints d -> dispatched handle c d c' d' w w'
  | dispatch_failed :
      same_message d d' -> enqueued_of d' = enqueued_of d -> dp_first_failure d' <> Ok -> dc_outstanding c' = dc_outstanding c ->
      (forall id, id ∈ dp_failed_endpoints d' -> id ∈ dp_failed_endpoints d \/ id = dc_endpoint_id c) ->
      dispatched handle c d c' d' w w'.

Lemma note_failure_failed e d : dp_failed_endpoints (note_failure e d) = dp_failed_endpoints d.
Proof. unfold note_failure. by destruct (is_ok _). Qed.

Lemma note_failure_spec e d : e <> Ok -> dp_result (note_failure e d) = dp_result d /\ dp_first_failure (note_failure e d) <> Ok.
Proof.
  intros He. unfold note_failure. destruct (is_ok (dp_first_failure d)) eqn:Hf; [done|]. split; [done|].
  intros Hok. by rewrite Hok in Hf.
Qed.

Lemma dispatch_refused_spec status id d : status <> QueueAccepted ->
  same_message d (dispatch_refused status id d) /\
  enqueued_of (dispatch_refused status id d) = enqueued_of d /\ dp_first_failure (dispatch_refused status id d) <> Ok /\
  forall i, i ∈ dp_failed_endpoints (dispatch_refused status id d) -> i ∈ dp_failed_endpoints d \/ i = id.
Proof.
  assert (Hfailed : forall i, i ∈ dp_failed_endpoints (dispatch_refused status id d) -> i ∈ dp_failed_endpoints d \/ i = id).
  { intros i. unfold dispatch_refused. destruct status; cbn [dp_failed_endpoints update_with]; simpl; rewrite ?note_failure_failed; simpl; set_solver. }
  intros Hst. unfold enqueued_of, same_message. destruct status; simpl; try done;
    match goal with |- context [note_failure ?e ?x] => pose proof (note_failure_spec e x ltac:(done)) as [Hr ?] end;
    by rewrite ?Hr.
Qed.

Lemma dispatch_connection_ok O L env handle d c s : core (dc_outstanding c ++ O) L s -> handle ∈ O ->
  connection_ok (ps_world s) c -> env_safe (ce_wait env (dc_endpoint_id c)) ->
  wp (dispatch_connection env handle d c) s (fun '(d', kept) s' => exists c', kept = Some c' /\
    transition (dc_outstanding c ++ O) (dc_outstanding c' ++ O) L s s' /\ connection_ok (ps_world s') c' /\
    same_connection c c' /\ only_queue_of c (ps_world s) (ps_world s') /\ dispatched handle c d c' d' (ps_world s) (ps_world s')).
Proof.
  intros Hcore Hin Hc Henv. unfold dispatch_connection.
  pose proof (transition_refl _ _ _ Hcore) as Hrefl.
  assert (Hsame : same_connection c c) by (by split_and!).
  assert (Hstill : forall s', ps_world s' = ps_world s -> only_queue_of c (ps_world s) (ps_world s')) by (by intros s' -> name _).
  destruct (dc_queue c) as [client|] eqn:Hq.
  2: { apply wp_ret. exists c. destruct (note_failure_spec InvalidState d) as [Hr ?]; [done|].
       split_and!; auto. apply dispatch_failed; unfold enqueued_of, same_message; rewrite ?Hr, ?note_failure_failed; auto. }
  apply wp_bind, wp_impl. destruct (_ <=? Z.of_nat _).
  { apply wp_ret. exists c. destruct (note_failure_spec PoolExhausted d) as [Hr ?]; [done|].
    split_and!; auto. apply dispatch_failed; unfold enqueued_of, same_message; rewrite ?Hr, ?note_failure_failed; auto. }
  destruct (core_pool L (dc_outstanding c ++ O) s handle) as (p & Hp & Hac); [set_solver | done |].
  destruct (accounts_add_reference p L _ handle Hac) as (e & p1 & Hrun & Hcase & Hmsg & Hgen); [set_solver|].
  apply wp_bind. eapply wp_on_pool; [exact Hp|]. apply wp_run. exists e, p1. split; [exact Hrun|]. fold (with_pool s p1).
  destruct Hcase as [[-> Hac1] | (-> & _ & Hac1)]; cbn [is_ok negb].
  2: { apply wp_ret. exists c. destruct (note_failure_spec InvalidState d) as [Hr ?]; [done|].
       assert (Htr : transition (dc_outstanding c ++ O) (dc_outstanding c ++ O) L s (with_pool s p1))
         by (by apply with_pool_transition with p).
       split_and!; auto. apply dispatch_failed; unfold enqueued_of, same_message; rewrite ?Hr, ?note_failure_failed; auto. }
  assert (Htr1 : transition (dc_outstanding c ++ O) (handle :: dc_outstanding c ++ O) L s (with_pool s p1)).
  { apply with_pool_transition with p; auto; [set_solver|]. destruct Hmsg as [? Hmsg]. split; [done|].
    intros h Hh. apply Hmsg. unfold handles in *. set_solver. }
  rewrite Hp. simpl. apply wp_bind, wp_ret.
  (* giving the reference back *)
  assert (Hback : forall s2 d', only_queue_of c (ps_world s) (ps_world s2) ->
    (forall id, id ∈ dp_failed_endpoints d' -> id ∈ dp_failed_endpoints d \/ id = dc_endpoint_id c) -> transition (handle :: dc_outstanding c ++ O) (handle :: dc_outstanding c ++ O) L (with_pool s p1) s2 ->
    same_message d d' -> enqueued_of d' = enqueued_of d -> dp_first_failure d' <> Ok ->
    wp (releaseReference handle;; mret (d', Some c)) s2 (fun '(d', kept) s' => exists c', kept = Some c' /\
      transition (dc_outstanding c ++ O) (dc_outstanding c' ++ O) L s s' /\ connection_ok (ps_world s') c' /\
      same_connection c c' /\ only_queue_of c (ps_world s) (ps_world s') /\ dispatched handle c d c' d' (ps_world s) (ps_world s'))).
  { intros s2 d' Honly Hfe Htr2 Hmes Henq Hfail. apply wp_bind.
    eapply wp_mono; [|apply (releaseReference_ok L), (tr_core _ _ _ _ _ Htr2)].
    intros e s3 (_ & Htr3 & p3 & Hs3). apply wp_ret. exists c.
    assert (Hw3 : ps_world s3 = ps_world s2) by (by rewrite Hs3).
    assert (Htr : transition (dc_outstanding c ++ O) (dc_outstanding c ++ O) L s s3)
      by (eapply transition_trans; [exact Htr1|]; by eapply transition_trans).
    split_and!; auto; [|by rewrite Hw3|by apply dispatch_failed].
    eapply connection_ok_le; [apply (tr_evolves _ _ _ _ _ Htr) | done]. }
  destruct (encodeQueueWake _) as [frame|].
  2: { destruct (note_failure_spec InvalidState d) as [Hr ?]; [done|].
       apply Hback; [by apply Hstill | rewrite note_failure_failed; auto | apply transition_refl, (tr_core _ _ _ _ _ Htr1) | unfold same_message; by rewrite Hr | unfold enqueued_of; by rewrite Hr | done]. }
  apply wp_bind. eapply wp_mono; [|apply (enqueue_and_wake_ok (handle :: dc_outstanding c ++ O) L); [apply (tr_core _ _ _ _ _ Htr1) | by apply (co_queue _ _ Hc) | done]].
  intros r s2 (Htr2 & Hothers & Hqueued & Hold). set (d1 := if er_blocked r then _ else d).
  assert (Honly : only_queue_of c (ps_world s) (ps_world s2)).
  { intros name Hne. apply (Hothers name). intros Heq. apply Hne. unfold queue_name. rewrite Hq. simpl. by rewrite Heq. }
  assert (Hfe1 : dp_failed_endpoints d1 = dp_failed_endpoints d) by (unfold d1; by destruct (er_blocked r)).
  assert (Hd1 : same_message d d1 /\ enqueued_of d1 = enqueued_of d /\ dp_first_failure d1 = dp_first_failure d)
    by (unfold d1, enqueued_of, same_message; by destruct (er_blocked r)).
  clearbody d1. destruct Hd1 as ([Hs1 Hp1] & Henq1 & Hfail1).
  destruct (er_status r) eqn:Hst.
  2-6: match type of Hst with _ = ?status =>
         destruct (dispatch_refused_spec status (dc_endpoint_id c) d1) as ([Hs2 Hp2] & Hx & Hy & Hz); [done|];
         apply (Hback s2 (dispatch_refused status (dc_endpoint_id c) d1)); 
           [exact Honly | by rewrite Hfe1 in Hz | exact Htr2 | split; congruence | by rewrite Hx | done]
       end.
  (* accepted *)
  set (c1 := c <| dc_outstanding := dc_outstanding c ++ [handle] |>).
  assert (Htr3 : transition (dc_outstanding c ++ O) (dc_outstanding c1 ++ O) L s s2).
  { eapply transition_trans; [exact Htr1|]. eapply transition_perm; [done | | exact Htr2].
    simpl. rewrite <- app_assoc. apply Permutation_middle. }
  assert (Hc1 : connection_ok (ps_world s2) c1).
  { eapply (receiving_ok _ c); [|done|by destruct Hc]. eapply connection_ok_le, Hc. apply (tr_evolves _ _ _ _ _ Htr3). }
  assert (Hnewest : forall c', dc_queue c' = dc_queue c -> queued handle (ps_world s2) c').
  { intros c' Hc'. destruct (Hqueued eq_refl) as (q' & Hq' & Hnew). exists (qd_shm_name (qc_descriptor client)), q'.
    split_and!; [unfold queue_name; by rewrite Hc', Hq|done|done]. }
  destruct (er_dropped_oldest r) as [oldest|].
  - apply wp_bind. eapply wp_mono; [|apply (releaseOutstanding_ok L O c1), (tr_core _ _ _ _ _ Htr3)].
    intros c2 s3 (Heq & Htr4 & Hw).
    assert (Hheld : handle ∈ dc_outstanding c2 \/ stale handle (ps_world s) c).
    { destruct (decide (oldest = handle)) as [->|Hne].
      - right. destruct (Hold eq_refl) as (q' & Hq' & Hslot). exists (qd_shm_name (qc_descriptor client)), q'.
        split_and!; [unfold queue_name; by rewrite Hq|done|done].
      - left. rewrite Heq. simpl. pose proof (find_and_erase_spec oldest (dc_outstanding c ++ [handle])) as Hspec.
        destruct (find_and_erase oldest _) as [rest|]; simpl; [|set_solver].
        assert (handle ∈ oldest :: rest) by (rewrite <- Hspec; set_solver). set_solver. }
    apply wp_ret. exists c2.
    split_and!; [done | by eapply transition_trans | | by rewrite Heq | by rewrite Hw |].
    + rewrite Hw, Heq. destruct Hc1. by split.
    + apply (dispatch_accepted _ _ _ _ _ _ _ (Some oldest)); [done | unfold enqueued_of in *; simpl; by rewrite Henq1 | done | by rewrite Heq | rewrite Hw; apply Hnewest; by rewrite Heq | done | done].
  - apply wp_ret. exists c1. split_and!; auto.
    apply (dispatch_accepted _ _ _ _ _ _ _ None); [done | unfold enqueued_of in *; simpl; by rewrite Henq1 | done | done | by apply Hnewest | left; simpl; set_solver | done].
Qed.

(** The end of a public call: the invariant holds with the loans [L'], the publisher is the
    same, and what is read through the references still held and the loans [K] has not changed. *)
Record same_publisher (s s' : PubState) : Prop := {
  sp_config : im_config (ps_impl s') = im_config (ps_impl s);
  sp_session : im_registry_session (ps_impl s') = im_registry_session (ps_impl s);
  sp_topic : im_topic_id (ps_impl s') = im_topic_id (ps_impl s);
  sp_endpoint : im_endpoint_id (ps_impl s') = im_endpoint_id (ps_impl s);
  sp_world : world_le (ps_world s) (ps_world s');
}.

(** The references held at the start that are still held. *)
Definition survivors (s s' : PubState) : list ChunkHandle :=
  filter (fun handle => handle ∈ held (connections_of s)) (held (connections_of s')).

Record completes (K L' : list (ChunkHandle * Z)) (s s' : PubState) : Prop := {
  cp_inv : pub_inv [] L' s';
  cp_same : same_publisher s s';
  cp_keeps : pool_keeps s s' (handles (survivors s s') K);
  cp_distinct : distinct s -> distinct s';
}.

Lemma evolves_same s s' : evolves s s' -> same_publisher s s'.
Proof. intros []. by split. Qed.

Lemma same_publisher_trans s1 s2 s3 : same_publisher s1 s2 -> same_publisher s2 s3 -> same_publisher s1 s3.
Proof. intros [] []. split; try congruence. unfold world_le in *. auto. Qed.

Lemma pool_keeps_sub s s' O O' : (forall handle, handle ∈ O' -> handle ∈ O) -> pool_keeps s s' O -> pool_keeps s s' O'.
Proof.
  unfold pool_keeps. intros Hsub. destruct (im_pool (ps_impl s)), (im_pool (ps_impl s')); try done.
  intros [? Hm]. split; auto.
Qed.

Lemma survivors_sub s s' handle : handle ∈ survivors s s' ->
  handle ∈ held (connections_of s') /\ handle ∈ held (connections_of s).
Proof. unfold survivors. rewrite list_elem_of_filter. tauto. Qed.

Lemma advances_completes L s s' : advances [] L s s' -> (distinct s -> distinct s') -> completes L L s s'.
Proof.
  intros [Hinv [_ _ Hk Hev _]] Hdis. rewrite !app_nil_r in Hk. split; auto using evolves_same.
  eapply pool_keeps_sub, Hk. apply handles_sub. by intros handle [? _]%survivors_sub.
Qed.

(** No other connection of [all] has the [f] of [c]: its socket, or the name of its queue. *)
Definition sole {A} (f : DataConnection -> A) (all : list DataConnection) (c : DataConnection) : Prop :=
  forall c', c' ∈ all -> f c' = f c -> dc_endpoint_id c' = dc_endpoint_id c.

(** The result of a dispatch to the connections of [s].  [took] are the connections that accepted the
    handle: they are counted, they are still connected, the handle is the newest entry of their
    queues, they hold it, unless it was in their queue before, and nobody else holds it. *)
Record dispatch_result (handle : ChunkHandle) (size sequence : Z) (s s' : PubState) (r : PublishResult) : Prop := {
  dr_sequence : pr_sequence r = sequence /\ im_sequence (ps_impl s') = sequence;
  dr_size : pr_payload_size r = size;
  dr_enqueued : 0 <= pr_enqueued r <= Z.of_nat (length (connections_of s));
  dr_ok : pr_error r = Ok <-> pr_enqueued r <> 0;
  dr_freed : pr_error r <> Ok -> ~ (handle ∈ held (connections_of s'));
  dr_new : forall h, h ∈ held (connections_of s') -> h = handle \/ h ∈ held (connections_of s);
  dr_took : exists took, took `sublist_of` connections_of s' /\ pr_enqueued r = Z.of_nat (length took) /\
    (forall c, c ∈ connections_of s' -> handle ∈ dc_outstanding c -> c ∈ took) /\
    (forall c, c ∈ took -> sole queue_name (connections_of s) c ->
       queued handle (ps_world s') c /\ (handle ∈ dc_outstanding c \/ stale handle (ps_world s) c));
}.

(** What the iterations over [all] have established: the connections that took the handle are
    counted and have it in their queues, and only they may hold it; the endpoints to remove are
    others. *)
Record dispatching (handle : ChunkHandle) (size sequence : Z) (all done todo : list DataConnection) (w0 : World) (d : dispatch) (w : World) : Prop := {
  dg_message : pr_sequence (dp_result d) = sequence /\ pr_payload_size (dp_result d) = size;
  dg_visited : exists visited, all = visited ++ todo /\ Forall2 same_connection visited done;
  dg_frame : forall name, (forall c, c ∈ done -> queue_name c <> Some name) -> same_queue name w0 w;
  dg_todo : ~ (handle ∈ held todo);
  dg_failed : forall id, id ∈ dp_failed_endpoints d -> id ∈ endpoint_ids done;
  dg_took : exists took, took `sublist_of` done /\ enqueued_of d = Z.of_nat (length took) /\
    (forall c, c ∈ done -> handle ∈ dc_outstanding c -> c ∈ took) /\
    forall c, c ∈ took -> ~ (dc_endpoint_id c ∈ dp_failed_endpoints d) /\
      (sole queue_name all c -> queued handle w c /\ (handle ∈ dc_outstanding c \/ stale handle w0 c));
}.

Lemma find_and_erase_sub old hs h : h ∈ default hs (find_and_erase old hs) -> h ∈ hs.
Proof.
  pose proof (find_and_erase_spec old hs) as Hspec. destruct (find_and_erase old hs); simpl; [|done].
  rewrite Hspec. set_solver.
Qed.

(** An accepted handle is the only one that can be new. *)
Lemma dispatched_held handle c d c' d' w w' h : dispatched handle c d c' d' w w' -> h ∈ dc_outstanding c' ->
  h = handle \/ h ∈ dc_outstanding c.
Proof.
  intros [oldest _ _ _ -> | _ _ _ ->]; [|by right]. destruct oldest as [old|]; [|set_solver].
  intros Hin%find_and_erase_sub. set_solver.
Qed.

Lemma same_connections_ids visited done : Forall2 same_connection visited done -> endpoint_ids done = endpoint_ids visited.
Proof. unfold endpoint_ids. induction 1 as [|c c' l l' (Hid & _)]; simpl; congruence. Qed.

Lemma queued_same handle c w w' : (forall name, queue_name c = Some name -> same_queue name w w') -> queued handle w c -> queued handle w' c.
Proof. intros Hsame (name & q & Hname & Hq & Hnew). exists name, q. split_and!; [done|by rewrite (Hsame name Hname)|done]. Qed.

Section iteration.
Context (handle : ChunkHandle) (size sequence : Z) (all done todo : list DataConnection) (c c' : DataConnection) (d d' : dispatch) (w0 w w' : World).
Context (Hlen : Z.of_nat (length all) < 2 ^ 32) (Hids : NoDup (endpoint_ids all)).
Context (Hd : dispatching handle size sequence all done (c :: todo) w0 d w) (Hsame : same_connection c c').
Context (Honly : only_queue_of c w w').

(** The connection at hand is none of those visited before. *)
Lemma visited_others c0 : c0 ∈ done -> dc_endpoint_id c0 <> dc_endpoint_id c.
Proof using Hd Hids.
  destruct (dg_visited _ _ _ _ _ _ _ _ _ Hd) as (visited & Hall & Hv). intros Hc0 Heq.
  rewrite Hall in Hids. unfold endpoint_ids in Hids. rewrite map_app in Hids. simpl in Hids.
  apply list.NoDup_app in Hids as (_ & Hno & _). apply (Hno (dc_endpoint_id c)); [|left].
  change (dc_endpoint_id c ∈ endpoint_ids visited). rewrite <- (same_connections_ids _ _ Hv), <- Heq. unfold endpoint_ids. by apply list_elem_of_fmap_2.
Qed.

(** What was queued before still is. *)
Lemma queued_kept c0 : c0 ∈ done -> sole queue_name all c0 -> queued handle w c0 -> queued handle w' c0.
Proof using Hd Hids Hlen Honly.
  intros Hc0 Hsole. apply queued_same. intros name Hname. apply Honly. intros Heq. apply (visited_others c0 Hc0). symmetry.
  apply Hsole; [|congruence]. destruct (dg_visited _ _ _ _ _ _ _ _ _ Hd) as (visited & -> & _). apply elem_of_app. right. left.
Qed.

Lemma visited_step : exists visited, all = visited ++ todo /\ Forall2 same_connection visited (done ++ [c']).
Proof using Hd Hids Hlen Hsame.
  destruct (dg_visited _ _ _ _ _ _ _ _ _ Hd) as (visited & -> & Hv). exists (visited ++ [c]). split; [by rewrite <- app_assoc|].
  apply Forall2_app; [done|]. by constructor.
Qed.

(** The queue of the connection at hand is as it was when the dispatch began. *)
Lemma stale_at_start : sole queue_name all c -> stale handle w c -> stale handle w0 c.
Proof using Hd Hids Hlen.
  intros Hsole (name & q & Hname & Hq & Hslot). exists name, q. split_and!; [done| |done].
  rewrite <- (dg_frame _ _ _ _ _ _ _ _ _ Hd name); [done|]. intros c0 Hc0 Hname0. apply (visited_others c0 Hc0).
  destruct (dg_visited _ _ _ _ _ _ _ _ _ Hd) as (visited & Hall & Hv).
  destruct (Forall2_partner _ _ _ c0 Hv Hc0) as (c1 & Hc1 & (Hid & _ & _ & Hqc)). rewrite Hid.
  apply Hsole; [rewrite Hall; apply elem_of_app; by left|]. unfold queue_name in *. rewrite <- Hqc. congruence.
Qed.

Lemma frame_step name : (forall c0, c0 ∈ done ++ [c'] -> queue_name c0 <> Some name) -> same_queue name w0 w'.
Proof using Hd Hsame Honly.
  intros Hne. etrans; [apply (dg_frame _ _ _ _ _ _ _ _ _ Hd); intros c0 Hc0; apply Hne, elem_of_app; by left|].
  apply Honly. destruct Hsame as (_ & _ & _ & Hqc). unfold queue_name. rewrite <- Hqc. apply (Hne c'), elem_of_app. right. left.
Qed.

Lemma sole_same c0 : queue_name c0 = queue_name c -> dc_endpoint_id c0 = dc_endpoint_id c -> sole queue_name all c0 -> sole queue_name all c.
Proof using. intros Hq Hi Hsole c1 Hc1 Hq1. rewrite <- Hi. apply Hsole; [done|congruence]. Qed.

Lemma dispatching_step : dispatched handle c d c' d' w w' -> dispatching handle size sequence all (done ++ [c']) todo w0 d' w'.
Proof using All.
  destruct Hd as [[Hs Hp] _ _ Htodo Hfailed (took & Hsub & Henq & Hhold & Htook)]. simpl in Htodo. rewrite elem_of_app in Htodo.
  assert (Hdone : (length took + 1 <= length all)%nat).
  { destruct visited_step as (visited & -> & Hv%Forall2_length). apply sublist_length in Hsub. rewrite length_app in *. simpl in *. lia. }
  assert (Hid : dc_endpoint_id c' = dc_endpoint_id c) by apply Hsame.
  assert (Hqc : queue_name c' = queue_name c) by (unfold queue_name; by destruct Hsame as (_ & _ & _ & ->)).
  intros [oldest [Hs' Hp'] Henq' _ Hout Hq Hst Hf | [Hs' Hp'] Henq' _ Hout Hf].
  - split; [split; congruence|exact visited_step|exact frame_step|tauto| |].
    + rewrite Hf. unfold endpoint_ids. rewrite map_app. intros id ?%Hfailed. apply elem_of_app. by left.
    + exists (took ++ [c']). split_and!; [by apply sublist_app| | |].
      * rewrite Henq', Henq, wrap_small, length_app; simpl; unfold fits; lia.
      * intros c0 [Hc0|Hc0]%elem_of_app Hin; apply elem_of_app; [left; by apply Hhold|by right].
      * intros c0 [Hc0| ->%list_elem_of_singleton]%elem_of_app; rewrite Hf.
        -- destruct (Htook c0 Hc0) as [? Hq0]. split; [done|]. intros Hsole. destruct (Hq0 Hsole). split; [|done].
           apply queued_kept; [by eapply elem_of_submseteq, sublist_submseteq|done|done].
        -- split; [|intros Hsole; split; [done|]; destruct Hst as [?|(name & q & Hname & Hq1 & Hslot)]; [by left|right]].
           2: { destruct (stale_at_start (sole_same c' Hqc Hid Hsole)) as (name' & q' & ? & ? & ?); [by exists name, q|].
                exists name', q'. by rewrite Hqc. }
           rewrite Hid. intros (c0 & Heq & Hc0)%Hfailed%list_elem_of_fmap. by apply (visited_others c0).
  - split; [split; congruence|exact visited_step|exact frame_step|tauto| |].
    + unfold endpoint_ids. rewrite map_app. intros id [?%Hfailed| ->]%Hf; apply elem_of_app; [by left|]. right. simpl. rewrite Hid. left.
    + exists took. split_and!; [by apply sublist_inserts_r|congruence| |].
      * intros c0 [Hc0| ->%list_elem_of_singleton]%elem_of_app Hin; [by apply Hhold|]. rewrite Hout in Hin. tauto.
      * intros c0 Hc0. destruct (Htook c0 Hc0) as [Hno Hq0]. assert (Hc0d : c0 ∈ done) by (by eapply elem_of_submseteq, sublist_submseteq).
        split; [intros [?|Heq]%Hf; [done|by apply (visited_others c0)]|]. intros Hsole. destruct (Hq0 Hsole). split; [|done].
        by apply queued_kept.
Qed.
End iteration.

(** Once the handle's guard reference is released and the failed endpoints are removed. *)
Lemma dispatching_end handle size sequence all conns w0 d w w' failed (kept : list DataConnection) :
  NoDup (endpoint_ids all) -> dispatching handle size sequence all conns [] w0 d w -> failed = dp_failed_endpoints d ->
  kept = filter (fun c => ~ (dc_endpoint_id c ∈ failed)) conns ->
  (forall name, (forall c, c ∈ conns -> dc_endpoint_id c ∈ failed -> queue_name c <> Some name) -> same_queue name w w') ->
  exists took, took `sublist_of` kept /\ enqueued_of d = Z.of_nat (length took) /\
    (forall c, c ∈ kept -> handle ∈ dc_outstanding c -> c ∈ took) /\
    (forall c, c ∈ took -> sole queue_name all c -> queued handle w' c /\ (handle ∈ dc_outstanding c \/ stale handle w0 c)).
Proof.
  intros Hids [_ (visited & Hall & Hv) _ _ _ (took & Hsub & Henq & Hhold & Htook)] -> -> Hframe. rewrite app_nil_r in Hall. subst visited.
  exists took. split_and!; [|done| |].
  - rewrite <- (filter_keep_all (fun c => ~ (dc_endpoint_id c ∈ dp_failed_endpoints d)) took); [by apply filter_sublist|].
    apply list.Forall_forall. intros c Hc. by apply Htook.
  - intros c [_ Hc]%list_elem_of_filter. by apply Hhold.
  - intros c Hc Hsole. destruct (Htook c Hc) as [Hno Hq]. destruct (Hq Hsole). split; [|done]. apply (queued_same _ _ w); [|done]. intros name Hname. apply Hframe.
    intros c0 Hc0 Hfailed Hname0. apply Hno.
    destruct (Forall2_partner _ _ _ c0 Hv Hc0) as (c1 & Hc1 & (Hid & _ & _ & Hqc)).
    rewrite <- (Hsole c1 Hc1); [by rewrite <- Hid|]. unfold queue_name in *. rewrite <- Hqc. congruence.
Qed.

(** The error of a dispatch. *)
Lemma dispatch_error_ok (enqueued : Z) (first_failure : ErrorCode) :
  (if negb (enqueued =? 0) then Ok else if is_ok first_failure then ConnectionLost else first_failure) = Ok <-> enqueued <> 0.
Proof. destruct (enqueued =? 0) eqn:H0; bools; simpl; [|done]. split; [|done]. by destruct first_failure. Qed.

Lemma dispatchPublished_ok L env handle size sequence s : env_answers env ->
  pub_inv [handle] L s -> ~ (handle ∈ held (connections_of s)) -> distinct s ->
  wp (dispatchPublished env handle size sequence) s (fun r s' => completes L L s s' /\
    pool_keeps s s' (handles (held (connections_of s')) L) /\ dispatch_result handle size sequence s s' r).
Proof.
  intros Henv Hinv Hnew [Hids Hlen]. unfold dispatchPublished. apply wp_bind.
  eapply wp_mono; [|apply (for_connections_ok [handle] L _ (fun done todo d w =>
    dispatching handle size sequence (connections_of s) done todo (ps_world s) d w /\
    (forall h, h ∈ held (done ++ todo) -> h = handle \/ h ∈ held (connections_of s)))); [done | |]].
  - intros d s1 (Hinv1 & Htr1 & Hdg & Hheld). rewrite app_nil_r in Hheld.
    change (im_connections (ps_impl s1)) with (connections_of s1) in *.
    assert (Hl : endpoint_ids (connections_of s1) = endpoint_ids (connections_of s)).
    { destruct (dg_visited _ _ _ _ _ _ _ _ _ Hdg) as (visited & -> & Hv). rewrite app_nil_r. by apply same_connections_ids. }
    apply wp_bind. eapply wp_mono; [|apply (releaseReference_ok L (held (connections_of s1)))].
    2: { eapply core_Proper; [|done|done|apply Hinv1]. apply Permutation_cons_append. }
    intros e s2 (_ & Htr2 & p2 & Hs2). assert (Hc2 : connections_of s2 = connections_of s1) by (by rewrite Hs2).
    assert (Hok2 : Forall (connection_ok (ps_world s2)) (connections_of s2)) by (rewrite Hs2; apply Hinv1).
    apply wp_bind. unfold set_impl, modify, wp at 1. set (s3 := s2 <| ps_impl := _ |>).
    assert (Hinv3 : pub_inv [] L s3).
    { split; [|done]. rewrite app_nil_r. fold (connections_of s3). change (connections_of s3) with (connections_of s2).
      rewrite Hc2. apply (tr_core _ _ _ _ _ Htr2). }
    apply wp_bind. eapply wp_mono; [|apply (wp_and _ _ (fun _ s4 => forall name, (forall c, c ∈ connections_of s3 ->
        dc_endpoint_id c ∈ dp_failed_endpoints d -> queue_name c <> Some name) -> same_queue name (ps_world s3) (ps_world s4)));
      [intros u s4 Hrun name; exact (remove_other_endpoints_run [] L name env _ s3 u s4 Hinv3 Hrun)|by apply (remove_endpoints_ok [] L)]].
    intros u s4 (Hframe & Hadv4 & Hc4). apply wp_ret.
    change (connections_of s3) with (connections_of s2) in Hc4, Hframe. rewrite Hc2 in Hc4, Hframe.
    pose proof (proj2 Hadv4) as Htr4. rewrite !app_nil_r in Htr4. change (connections_of s3) with (connections_of s2) in Htr4.
    rewrite Hc2 in Htr4.
    assert (Hkeeps : pool_keeps s s4 (handles (held (connections_of s4)) L)).
    { eapply pool_keeps_trans; [apply handles_sub, (tr_sub _ _ _ _ _ Htr4) | | apply (tr_keeps _ _ _ _ _ Htr4)].
      apply (pool_keeps_trans s s1 s3 (handles (held (connections_of s1) ++ [handle]) L)); [unfold handles; set_solver | apply (tr_keeps _ _ _ _ _ Htr1) | apply (tr_keeps _ _ _ _ _ Htr2)]. }
    assert (Hw3 : ps_world s3 = ps_world s1) by (unfold s3; simpl; by rewrite Hs2). rewrite Hw3 in Hframe.
    pose proof (dispatching_end handle size sequence _ _ _ d _ (ps_world s4) _ _ Hids Hdg eq_refl Hc4 Hframe) as Htook.
    split_and!; [|done|].
    + split; [apply Hadv4 | | |].
      * eapply same_publisher_trans; [apply evolves_same, (tr_evolves _ _ _ _ _ Htr1)|].
        eapply same_publisher_trans; [apply evolves_same, (tr_evolves _ _ _ _ _ Htr2)|].
        apply (same_publisher_trans _ s3); [split; try done; by apply same_queues_le | apply evolves_same, (tr_evolves _ _ _ _ _ Htr4)].
      * eapply pool_keeps_sub, Hkeeps. apply handles_sub. by intros h [? _]%survivors_sub.
      * apply shrinks_distinct. unfold shrinks. rewrite <- Hl. by eapply (filter_shrinks s1).
    + assert (Hsub : forall h, h ∈ held (connections_of s4) -> h ∈ held (connections_of s1)) by apply (tr_sub _ _ _ _ _ Htr4).
      pose proof (dispatch_error_ok (enqueued_of d) (dp_first_failure d)) as Herr. destruct (dg_message _ _ _ _ _ _ _ _ _ Hdg).
      split; simpl; auto.
      * split; [done|]. rewrite (ev_sequence _ _ (tr_evolves _ _ _ _ _ Htr4)). done.
      * destruct Htook as (took & Hsubl & Henq & _). unfold enqueued_of in Henq. apply sublist_length in Hsubl.
        assert (length (connections_of s4) <= length (connections_of s))%nat; [|lia].
        apply (f_equal length) in Hl. unfold endpoint_ids in Hl. rewrite !length_map in Hl. rewrite Hc4, <- Hl. apply length_filter.
      * intros Hne Hin. destruct Htook as (took & _ & Henq & Hhold & _). apply Hne, Herr. rewrite Henq.
        unfold held in Hin. apply list_elem_of_In, in_flat_map in Hin as (c & Hc%list_elem_of_In & Hin%list_elem_of_In).
        specialize (Hhold c Hc Hin). destruct took; [by apply not_elem_of_nil in Hhold|simpl; lia].
  - intros done todo d c F s1 Hcore Hc Hev (Hdg & Hheld).
    eapply wp_mono; [|apply (dispatch_connection_ok (F ++ [handle]) L); [exact Hcore | set_solver | done | apply (en_wait _ Henv)]].
    intros [d' kept] s2 (c' & -> & Htr & Hok & Hsame & Honly & Hd). simpl. rewrite app_nil_r.
    split_and!; [done | by constructor | |].
    + by eapply dispatching_step.
    + intros h. rewrite !held_app in *. simpl. rewrite app_nil_r, <- app_assoc.
      rewrite !elem_of_app. intros [?|[Hh|?]]; [apply Hheld; set_solver | | apply Hheld; set_solver].
      destruct (dispatched_held _ _ _ _ _ _ _ _ Hd Hh); [by left | apply Hheld; set_solver].
  - split; [|by right]. split; simpl; [done | by exists [] | done | exact Hnew | set_solver |].
    exists []. split_and!; [done | done | set_solver | set_solver].
Qed.
