(* ===== verification/PublisherCalls.v ===== *)
(** * Public calls of the publisher

    Each public call of [Publisher] and of the loan owner returns and keeps the invariant, with
    the references and loans it created or ended accounted for. *)

From Stdlib Require Import ZArith Lia Bool String.
From stdpp Require Import base gmap list strings option.
From S2P Require Import Prelude Types Outcome BigEndian FrameProtocol QueueProtocol PoolLayout MemoryPool PoolSpec PoolReferences SocketIo SubscriberQueue QueueTheorems PublisherState Publisher PublisherInvariant PublisherReleases PublisherMethods.

Local Open Scope Z_scope.

(** ** Pool calls *)

Lemma with_pool_inv R R' L L' s p p' : im_pool (ps_impl s) = Some p -> pub_inv R L s ->
  accounts p' (held (connections_of s) ++ R') L' -> pub_inv R' L' (with_pool s p').
Proof. intros Hp [[_ Hw] Hok] Hac. by split; [split|]. Qed.

Lemma inv_pool R L s p : im_pool (ps_impl s) = Some p -> pub_inv R L s ->
  accounts p (held (connections_of s) ++ R) L.
Proof. intros Hp [[Hpool _] _]. by rewrite Hp in Hpool. Qed.

(** A call that only replaced the pool. *)
Lemma with_pool_completes K L L' s p p' : im_pool (ps_impl s) = Some p -> pub_inv [] L s ->
  accounts p' (held (connections_of s) ++ []) L' -> same_messages p p' (handles (held (connections_of s) ++ []) K) ->
  completes K L' s (with_pool s p').
Proof.
  intros Hp Hinv Hac Hm. split; [by eapply with_pool_inv | split; try done; by apply same_queues_le | | done].
  unfold pool_keeps. rewrite Hp. simpl. destruct Hm as [? Hm]. split; [done|].
  intros h Hh. apply Hm. eapply handles_sub, Hh. intros h' [_ Hh']%survivors_sub. set_solver.
Qed.

Lemma completes_trans K L L' s s1 s' : completes K L s s1 -> completes K L' s1 s' ->
  (forall h, h ∈ held (connections_of s') -> h ∈ held (connections_of s) -> h ∈ held (connections_of s1)) ->
  completes K L' s s'.
Proof.
  intros [_ Hs1 Hk1 Hd1] [Hinv Hs2 Hk2 Hd2] Hsub. split; [done | by eapply same_publisher_trans | | auto].
  eapply (pool_keeps_trans s s1 s' (handles (survivors s s1) K)).
  - apply handles_sub. intros h [H1 H2]%survivors_sub. apply list_elem_of_filter. auto.
  - done.
  - eapply pool_keeps_sub, Hk2. apply handles_sub. intros h [H1 H2]%survivors_sub. apply list_elem_of_filter. auto.
Qed.

Lemma completes_kept K K' L s s' : (forall x, x ∈ K' -> x ∈ K) -> completes K L s s' -> completes K' L s s'.
Proof.
  intros Hsub [Hinv Hs Hk Hd]. split; auto. eapply pool_keeps_sub, Hk. unfold handles.
  intros h [?|(x & -> & ?)%list_elem_of_fmap]%elem_of_app; apply elem_of_app; [by left|].
  right. apply list_elem_of_fmap_2; auto.
Qed.

(** A handle on loan is not referenced by any connection. *)
Lemma loan_not_held L s p handle n : im_pool (ps_impl s) = Some p -> pub_inv [] ((handle, n) :: L) s ->
  ~ (handle ∈ held (connections_of s)).
Proof.
  intros Hp Hinv Hin. pose proof (inv_pool _ _ _ _ Hp Hinv) as Hac.
  destruct (ac_loans _ _ _ Hac handle n) as (i & c & Hden & Hst); [set_solver|].
  eapply (unpublished_unheld _ _ _ Hac i c handle); [apply Hden | by rewrite Hst | by destruct Hden as [_ ->] | set_solver].
Qed.

Lemma cancel_ok L s p handle n (Q : ErrorCode -> PubState -> Prop) : im_pool (ps_impl s) = Some p ->
  pub_inv [] ((handle, n) :: L) s ->
  (forall s', completes L L s s' -> connections_of s' = connections_of s -> im_sequence (ps_impl s') = im_sequence (ps_impl s) ->
     ps_world s' = ps_world s -> Q Ok s') ->
  wp (on_pool (cancel handle)) s Q.
Proof.
  intros Hp Hinv HQ. destruct (accounts_cancel _ _ _ _ _ (inv_pool _ _ _ _ Hp Hinv)) as (p' & Hrun & Hac & Hm).
  eapply wp_on_pool; [exact Hp|]. apply wp_run. exists Ok, p'. split; [exact Hrun|].
  apply HQ; [by eapply with_pool_completes | done | done | done].
Qed.

(** ** Publishing a loan *)

(** A connection that holds [handle] can read [m] through it. *)
Definition readable (s : PubState) (handle : ChunkHandle) (m : Z * Z * Z * list Z) : Prop :=
  exists p, im_pool (ps_impl s) = Some p /\ message p handle = Some m.

(** From a loan that was just published with one reference, the guard. *)
Lemma dispatch_loan_ok L env s p p1 handle size sequence m : env_answers env ->
  im_pool (ps_impl s) = Some p -> pub_inv [] ((handle, size) :: L) s ->
  accounts p1 (handle :: held (connections_of s) ++ []) L -> same_messages p p1 (handles (held (connections_of s) ++ []) L) ->
  message p1 handle = Some m -> distinct s ->
  wp (dispatchPublished env handle size sequence) (with_pool s p1) (fun r s' => completes L L s s' /\
    dispatch_result handle size sequence s s' r /\ (handle ∈ held (connections_of s') -> readable s' handle m)).
Proof.
  intros Henv Hp Hinv Hac Hm Hmsg Hdis. pose proof (loan_not_held _ _ _ _ _ Hp Hinv) as Hnew.
  assert (Hinv1 : pub_inv [handle] L (with_pool s p1)).
  { eapply with_pool_inv; eauto. eapply accounts_Proper; [|done|exact Hac].
    rewrite app_nil_r. symmetry. apply Permutation_cons_append. }
  eapply wp_mono; [|by apply dispatchPublished_ok].
  intros r s' ([Hinv' Hsame Hk Hdis'] & Hkeeps & [Hd1 Hd2 Hd3 Hd4 Hd5 Hd6 Hd7]). split_and!.
  - split; [done | by destruct Hsame | | done].
    unfold pool_keeps in Hkeeps |- *. rewrite Hp. simpl in Hkeeps. destruct (im_pool (ps_impl s')) as [p'|]; [|done].
    destruct Hm as [Hdesc Hm], Hkeeps as [Hdesc' Hk']. split; [congruence|].
    intros h Hh. rewrite Hk', Hm; [done | eapply handles_sub, Hh; intros h' [? ?]%survivors_sub; set_solver ..].
  - by split.
  - intros Hin. unfold readable, pool_keeps in *. simpl in Hkeeps. destruct (im_pool (ps_impl s')) as [p'|]; [|done].
    exists p'. split; [done|]. destruct Hkeeps as [_ Hk']. rewrite Hk'; [done|]. unfold handles. set_solver.
Qed.

(** The publishers differ only in what their pools contain. *)
Definition same_but_contents (s s0 : PubState) : Prop :=
  s0 <| ps_impl := ps_impl s0 <| im_pool := None |> |> = s <| ps_impl := ps_impl s <| im_pool := None |> |> /\
  (mp_descriptor <$> im_pool (ps_impl s0)) = (mp_descriptor <$> im_pool (ps_impl s)).

Lemma same_but_contents_trans s1 s2 s3 : same_but_contents s1 s2 -> same_but_contents s2 s3 -> same_but_contents s1 s3.
Proof. unfold same_but_contents. intros [? ?] [? ?]. split; congruence. Qed.

Lemma same_but_contents_connections s s0 : same_but_contents s s0 -> connections_of s0 = connections_of s /\
  im_sequence (ps_impl s0) = im_sequence (ps_impl s) /\ ps_world s0 = ps_world s.
Proof. intros [Heq _]. destruct s as [[] ?], s0 as [[] ?]. unfold connections_of. simpl in *. by simplify_eq. Qed.

(** [s1]: after receiving releases and looking for subscribers in [s], whatever its chunks hold. *)
Definition prepared (env : call_env) (s s1 : PubState) : Prop :=
  exists s0, same_but_contents s s0 /\ prepare env s0 = (Ret Ok, s1).

(** The outcome of publishing: refused, with nothing sent, or dispatched to the connections of [s1] with
    [data] readable by its holders. *)
Inductive published (env : call_env) (size sequence : Z) (data : list Z -> Prop) (s s' : PubState) (r : PublishResult) : Prop :=
  | publish_refused : pr_error r <> Ok -> pr_enqueued r = 0 -> pr_payload_size r = 0 ->
      im_sequence (ps_impl s') = im_sequence (ps_impl s) ->
      (forall h, h ∈ held (connections_of s') -> h ∈ held (connections_of s)) ->
      sends_nothing (ps_world s) (ps_world s') ->
      published env size sequence data s s' r
  | publish_dispatched s1 handle bytes : prepared env s s1 -> connections_of s1 <> [] -> ~ (handle ∈ held (connections_of s)) ->
      (forall h, h ∈ held (connections_of s1) -> h ∈ held (connections_of s)) ->
      dispatch_result handle size sequence s1 s' r -> data bytes ->
      (handle ∈ held (connections_of s') -> readable s' handle (size, sequence, ce_timestamp_ns env, bytes)) ->
      published env size sequence data s s' r.

(** The same outcome from a state with other contents, for data it implies. *)
Lemma published_mono env size sequence (data data' : list Z -> Prop) s s1 s' r :
  same_but_contents s s1 -> (forall bytes, data bytes -> data' bytes) ->
  published env size sequence data s1 s' r -> published env size sequence data' s s' r.
Proof.
  intros Hsame Hd Hpub. destruct (same_but_contents_connections _ _ Hsame) as (Hc & Hs & Hw).
  destruct Hpub as [He H0 Hp Hs' Hh Hq | s2 handle bytes (s0 & Hs0 & Hprep) Hne Hnew Hs2 Hdr Hb Hr].
  - apply publish_refused; auto; [congruence | by rewrite <- Hc | by rewrite <- Hw].
  - apply (publish_dispatched _ _ _ _ _ _ _ s2 handle bytes); auto; [|by rewrite <- Hc ..].
    exists s0. split; [by eapply same_but_contents_trans|done].
Qed.

Lemma take_published_payload data n (payload : list Z) :
  (Z.to_nat n <= length payload)%nat -> n <= Z.of_nat (length data) -> 0 <= n ->
  take (Z.to_nat n) (put_at 0 (take (Z.to_nat n) data) payload) = take (Z.to_nat n) data.
Proof.
  intros Hp Hd Hn. assert (length (take (Z.to_nat n) data) = Z.to_nat n) by (rewrite length_take; lia).
  rewrite (take_put_at 0) by lia. by rewrite take_0.
Qed.

(** [data] as the caller must give it: [size] bytes, or nothing when [size] is 0. *)
Definition buffer_ok (data : option (list Z)) (size : Z) : Prop :=
  match data with Some bytes => size <= Z.of_nat (length bytes) | None => size = 0 end.

(** Draining and discovery, which come before every publication. *)
Lemma prepare_ok L env s (Q : ErrorCode -> PubState -> Prop) : env_answers env -> pub_inv [] L s -> distinct s ->
  (forall e s1, prepare env s = (Ret e, s1) -> advances [] L s s1 -> distinct s1 -> (e = Ok -> connections_of s1 <> []) -> Q e s1) ->
  wp (drainReleasesNonBlocking env;; connectDiscoveredEndpoints env) s Q.
Proof.
  intros Henv Hinv Hdis HQ. change (wp (prepare env) s Q).
  enough (wp (prepare env) s (fun e s1 => advances [] L s s1 /\ distinct s1 /\ (e = Ok -> connections_of s1 <> []))) as H.
  { apply wp_run in H as (e & s1 & Hrun & H). unfold wp. rewrite Hrun. naive_solver. }
  unfold prepare. apply wp_bind. eapply wp_mono; [|by apply (drainReleasesNonBlocking_ok [] L)].
  intros u s1 [Hadv Hsh]. eapply wp_mono; [|apply (connectDiscoveredEndpoints_ok [] L); [done | apply Hadv]].
  intros e s2 (Hadv2 & Hne & Hd). split_and!; [by eapply advances_trans | | done].
  apply Hd. by eapply shrinks_distinct.
Qed.

Lemma wp_assoc {S A B C} (c : cpp S A) (k : A -> cpp S B) (l : B -> cpp S C) s Q :
  wp ((c ≫= k) ≫= l) s Q -> wp (c ≫= fun a => k a ≫= l) s Q.
Proof. unfold wp, mbind, cpp_bind. by destruct (c s) as [[a| |] s']. Qed.

Lemma advances_pool R L s s1 p : im_pool (ps_impl s) = Some p -> advances R L s s1 ->
  exists p1, im_pool (ps_impl s1) = Some p1 /\ same_messages p p1 (handles (held (connections_of s1) ++ R) L).
Proof.
  intros Hp [_ Htr]. pose proof (tr_keeps _ _ _ _ _ Htr) as Hk. unfold pool_keeps in Hk. rewrite Hp in Hk.
  destruct (im_pool (ps_impl s1)); [eauto | done].
Qed.

Lemma advances_held R L s s1 : advances R L s s1 ->
  forall h, h ∈ held (connections_of s1) ++ R -> h ∈ held (connections_of s) ++ R.
Proof. intros [_ Htr]. apply (tr_sub _ _ _ _ _ Htr). Qed.

(** No chunk is free: the publication is refused with the allocation's error, and only the pool, where
    chunks may have been reclaimed, has changed. *)
Definition no_chunk (size sequence : Z) (s s' : PubState) (r : PublishResult) : Prop :=
  exists a, on_pool (allocate size) s = (Ret a, s') /\ ar_error a <> Ok /\ r = publish_result (ar_error a) sequence 0.

(** The copy of [data] was dispatched under a handle that nobody held in [s0]. *)
Definition copy_dispatched (env : call_env) (data : option (list Z)) (size sequence : Z) (s0 s s' : PubState) (r : PublishResult) : Prop :=
  exists handle, ~ (handle ∈ held (connections_of s0)) /\ dispatch_result handle size sequence s s' r /\
    (handle ∈ held (connections_of s') ->
     readable s' handle (size, sequence, ce_timestamp_ns env, take (Z.to_nat size) (default [] data))).

(** [s0]: the start of the call, before subscribers were looked for. *)
Lemma publishSharedMemoryCopy_ok L env data size sequence s0 s p : env_answers env -> advances [] L s0 s -> pub_inv [] L s0 ->
  im_pool (ps_impl s) = Some p -> 0 <= size -> buffer_ok data size -> sequence <> 0 ->
  distinct s -> connections_of s <> [] ->
  wp (publishSharedMemoryCopy env data size sequence) s (fun r s' => completes L L s0 s' /\
    (no_chunk size sequence s s' r \/ copy_dispatched env data size sequence s0 s s' r) /\
    (im_sequence (ps_impl s') = im_sequence (ps_impl s0) \/ im_sequence (ps_impl s') = sequence)).
Proof.
  intros Henv Hadv Hinv0 Hp Hsize Hdata Hseq Hdis Hne. pose proof (proj1 Hadv) as Hinv.
  pose proof (advances_held _ _ _ _ Hadv) as Hsub. rewrite !app_nil_r in Hsub.
  assert (Hcomp0 : completes L L s0 s) by (by apply advances_completes). unfold publishSharedMemoryCopy.
  destruct (accounts_allocate p _ L size Hsize (inv_pool _ _ _ _ Hp Hinv)) as (a & p1 & Hrun & Hcase & Hm1).
  apply wp_bind. eapply wp_on_pool; [exact Hp|]. apply wp_run. exists a, p1. split; [exact Hrun|]. fold (with_pool s p1).
  destruct Hcase as [(Hok & Hcap & Hac1 & Hfresh) | [Herr Hac1]].
  2: { assert (negb (is_ok (ar_error a)) = true) as -> by (by destruct Herr as [-> | ->]). apply wp_ret.
       split; [eapply completes_trans; [exact Hcomp0 | by eapply with_pool_completes | done]|].
       split; [left; exists a; split_and!; [|by destruct Herr as [-> | ->]|done]|left; apply (ev_sequence _ _ (tr_evolves _ _ _ _ _ (proj2 Hadv)))].
       unfold on_pool. by rewrite Hp, Hrun. }
  rewrite Hok. cbn [is_ok negb]. set (s1 := with_pool s p1). set (handle := ar_handle a) in *.
  assert (Hnew : ~ (handle ∈ held (connections_of s0))).
  { intros Hin. pose proof (tr_generations _ _ _ _ _ (proj2 Hadv)) as Hgen. unfold pool_generations in Hgen.
    rewrite Hp in Hgen. destruct (core_pool L _ s0 handle ltac:(apply elem_of_app; by left) (pi_core _ _ _ Hinv0)) as (p0 & Hp0 & Hac0).
    rewrite Hp0 in Hgen. apply Hfresh. rewrite Hgen. eapply reference_generation; [exact Hac0 | set_solver]. }
  assert (Hinv1 : pub_inv [] ((handle, size) :: L) s1) by (by eapply with_pool_inv).
  assert (Hidx : 0 <= ch_chunk_index handle) by (eapply loan_index; [exact Hac1 | apply list_elem_of_here]).
  destruct (accounts_publish p1 (held (connections_of s) ++ []) L (OpWriteAndPublish handle data size sequence (ce_timestamp_ns env) 1) handle size size
    sequence (ce_timestamp_ns env)) as (e & p2 & Hrun2 & Hm2 & Hcase); try done.
  { simpl. split_and!; auto; [lia | unfold umax; lia |]. by destruct data. }
  apply map_run_inv in Hrun2 as (e' & Hrun2 & [= <-]).
  apply wp_bind. eapply wp_on_pool; [done|]. apply wp_run. exists e, p2. split; [exact Hrun2|].
  destruct Hcase as [(_ & [Hnull | [?|?]] & _) | (-> & Hac2 & i & c & _ & _ & Hfit & Hmsg)]; [|done|done|].
  { simpl in Hnull. by destruct data; bools. }
  cbn [is_ok negb]. eapply wp_mono; [|apply (dispatch_loan_ok L env s1 p1 p2); try done].
  intros r s' (Hcomp & Hd & Hread). split_and!; [| |right; apply (dr_sequence _ _ _ _ _ _ Hd)].
  - eapply completes_trans; [exact Hcomp0 | |].
    + eapply completes_trans; [by eapply with_pool_completes | exact Hcomp | done].
    + intros h Hh Hh0. destruct (dr_new _ _ _ _ _ _ Hd h Hh) as [->|?]; [done|]. done.
  - right. exists handle. split_and!; [done | by destruct Hd; split |].
    intros Hin. specialize (Hread Hin). simpl in Hread. destruct data as [bytes|]; simpl in *.
    + by rewrite take_published_payload in Hread.
    + by subst size.
Qed.

Section loan.
Context (L : list (ChunkHandle * Z)) (env : call_env) (handle : ChunkHandle) (n : Z) (s : PubState) (p : MemoryPool).
Context (Henv : env_answers env) (Hp : im_pool (ps_impl s) = Some p) (Hinv : pub_inv [] ((handle, n) :: L) s).
Context (Hseq : 0 <= im_sequence (ps_impl s) <= u64_max).

(** The call gives the loan back and is refused. *)
Lemma refuse_loan_ok s1 error sequence data : error <> Ok -> sends_nothing (ps_world s) (ps_world s1) ->
  advances [] ((handle, n) :: L) s s1 -> distinct s1 ->
  wp (on_pool (cancel handle);; mret (publish_result error sequence 0)) s1 (fun r s' => completes L L s s' /\
    0 <= im_sequence (ps_impl s') <= u64_max /\
    published env n (im_sequence (ps_impl s) + 1) data s s' r).
Proof using Henv Hp Hinv Hseq.
  intros He Hquiet Hadv Hdis. destruct (advances_pool _ _ _ _ _ Hp Hadv) as (p1 & Hp1 & _). pose proof (advances_held _ _ _ _ Hadv) as Hsub.
  apply wp_bind, (cancel_ok L s1 p1 handle n); [done | apply Hadv |].
  intros s' Hcomp Hc Hs Hw. apply wp_ret. rewrite !app_nil_r in Hsub.
  assert (Hs' : im_sequence (ps_impl s') = im_sequence (ps_impl s))
    by (rewrite Hs; apply (ev_sequence _ _ (tr_evolves _ _ _ _ _ (proj2 Hadv)))).
  split_and!; [|lia|lia|].
  - eapply (completes_trans L ((handle, n) :: L)); [|exact Hcomp|by rewrite Hc].
    eapply completes_kept; [|by apply advances_completes]. set_solver.
  - apply publish_refused; auto; [by rewrite Hc | by rewrite Hw].
Qed.

Lemma publishLoanedSample_ok : pc_transport (im_config (ps_impl s)) = SharedMemory -> distinct s ->
  wp (publishLoanedSample env handle n) s (fun r s' => completes L L s s' /\ 0 <= im_sequence (ps_impl s') <= u64_max /\
    published env n (im_sequence (ps_impl s) + 1)
      (fun bytes => message p handle = Some (n, 0, 0, bytes)) s s' r).
Proof using Henv Hp Hinv Hseq.
  intros Htr Hdis. unfold publishLoanedSample. apply wp_bind, wp_impl.
  rewrite bool_decide_eq_false_2, bool_decide_eq_true_2 by (done || by rewrite Hp). cbn [orb negb].
  destruct (_ =? u64_max) eqn:Hmax; bools.
  { apply refuse_loan_ok; [done | by intros fd | by apply advances_refl | done]. }
  apply wp_assoc, wp_bind, (prepare_ok ((handle, n) :: L)); [done | done | done |].
  intros e s1 Hprep Hadv Hdis1 Hne. pose proof (prepare_sends_nothing env _ _ _ Hprep) as Hquiet.
  destruct (is_ok e) eqn:Hok; cbn [negb].
  2: { apply refuse_loan_ok; [by intros -> | done | done | done]. }
  assert (e = Ok) as -> by (by destruct e). specialize (Hne eq_refl). apply wp_bind, wp_impl.
  pose proof (ev_sequence _ _ (tr_evolves _ _ _ _ _ (proj2 Hadv))) as Hs1. rewrite Hs1.
  destruct (_ <? n); [by apply refuse_loan_ok|].
  destruct (advances_pool _ _ _ _ _ Hp Hadv) as (p1 & Hp1 & Hm1).
  pose proof (inv_pool _ _ _ _ Hp1 (proj1 Hadv)) as Hac1.
  assert (Hin : (handle, n) ∈ (handle, n) :: L) by apply list_elem_of_here.
  destruct (accounts_publish p1 (held (connections_of s1) ++ []) L
    (OpPublishLoaned handle n (im_sequence (ps_impl s) + 1) (ce_timestamp_ns env) 1) handle n n
    (im_sequence (ps_impl s) + 1) (ce_timestamp_ns env)) as (e & p2 & Hrun2 & Hm2 & Hcase); try done.
  { simpl. split; [by eapply loan_index | unfold umax; lia]. }
  apply map_run_inv in Hrun2 as (e' & Hrun2 & [= <-]).
  apply wp_bind. eapply wp_on_pool; [done|]. apply wp_run. exists e, p2. split; [exact Hrun2|].
  destruct Hcase as [(_ & [Hnull | [?|?]] & _) | (-> & Hac2 & i & c & Hi & Hidx & Hfit & Hmsg)]; [done | done | lia |].
  cbn [is_ok negb]. eapply wp_mono; [|apply (dispatch_loan_ok L env s1 p1 p2); try done; apply Hadv].
  intros r s' (Hcomp & Hd & Hread).
  assert (Hcomp1 : completes L ((handle, n) :: L) s s1)
    by (eapply completes_kept; [|by apply advances_completes]; set_solver).
  pose proof (advances_held _ _ _ _ Hadv) as Hsub. rewrite !app_nil_r in Hsub.
  destruct (loan_handle _ _ _ Hac1 i c handle n Hi Hin Hidx) as [_ Hst].
  assert (Hpm : message p1 handle = Some (n, 0, 0, take (Z.to_nat n) (sp_payload c))).
  { unfold message. rewrite Hidx, Nat2Z.id, Hi. simpl. unfold chunk_message. by rewrite Hst. }
  destruct Hm1 as [_ Hm1]. rewrite Hm1 in Hpm by (unfold handles; set_solver).
  destruct (dr_sequence _ _ _ _ _ _ Hd) as [_ Hs']. rewrite Hs'. split_and!; [|lia|lia|].
  - eapply completes_trans; [exact Hcomp1 | exact Hcomp |]. intros h Hh Hh'.
    destruct (dr_new _ _ _ _ _ _ Hd h Hh) as [->|?]; [|done]. exfalso. by eapply loan_not_held in Hinv; eauto.
  - eapply (publish_dispatched _ _ _ _ _ _ _ s1); eauto; [by exists s|]. by eapply loan_not_held.
Qed.
End loan.

(** ** Lending *)

(** A loan was made, or refused without a trace. *)
Inductive lent (L : list (ChunkHandle * Z)) (size : Z) (s' : PubState) (a : LoanAllocation) : Prop :=
  | loan_made : ar_error (la_allocation a) = Ok -> la_payload a = Some (ch_payload_offset (ar_handle (la_allocation a))) ->
      size <= ar_capacity (la_allocation a) -> pub_inv [] ((ar_handle (la_allocation a), size) :: L) s' -> lent L size s' a
  | loan_refused : ar_error (la_allocation a) <> Ok -> la_payload a = None -> pub_inv [] L s' -> lent L size s' a.

Definition loans_after (L : list (ChunkHandle * Z)) (size : Z) (a : LoanAllocation) : list (ChunkHandle * Z) :=
  if is_ok (ar_error (la_allocation a)) then (ar_handle (la_allocation a), size) :: L else L.

Lemma allocateLoan_ok L env size s : env_answers env -> pub_inv [] L s -> 0 <= size -> distinct s ->
  wp (allocateLoan env size) s (fun a s' => completes L (loans_after L size a) s s' /\ lent L size s' a /\
    im_sequence (ps_impl s') = im_sequence (ps_impl s) /\ shrinks s s').
Proof.
  intros Henv Hinv Hsize Hdis. unfold allocateLoan, loans_after. apply wp_bind, wp_impl.
  assert (Hrefuse : forall e, e <> Ok -> wp (mret (mkLoanAllocation (mkAllocationResult e empty_ChunkHandle 0) None)) s (fun a s' =>
    completes L (loans_after L size a) s s' /\ lent L size s' a /\ im_sequence (ps_impl s') = im_sequence (ps_impl s) /\ shrinks s s')).
  { intros e He. apply wp_ret. unfold loans_after. simpl. assert (is_ok e = false) as -> by (by destruct e).
    split_and!; [by apply advances_completes; [apply advances_refl|] | by apply loan_refused | done | by unfold shrinks]. }
  destruct (im_pool (ps_impl s)) as [p|] eqn:Hp; [|by rewrite (bool_decide_eq_true_2 (@None MemoryPool = None)), orb_true_r by done; apply Hrefuse].
  destruct (_ || _); [by apply Hrefuse|]. destruct (_ || _); [by apply Hrefuse|].
  apply wp_bind. eapply wp_mono; [|by apply (processPeerEvents_ok [] L)]. intros u s1 [Hadv1 Hsh1].
  apply wp_bind. eapply wp_mono; [|apply (drainReleasesNonBlocking_ok [] L), Hadv1]. intros u2 s2 [Hadv2 Hsh2].
  assert (Hadv : advances [] L s s2) by (by eapply advances_trans).
  assert (Hsh : shrinks s s2) by exact (shrinks_trans _ _ _ Hsh1 Hsh2).
  pose proof (ev_sequence _ _ (tr_evolves _ _ _ _ _ (proj2 Hadv))) as Hs2.
  destruct (advances_pool _ _ _ _ _ Hp Hadv) as (p2 & Hp2 & _).
  destruct (accounts_allocate p2 _ L size Hsize (inv_pool _ _ _ _ Hp2 (proj1 Hadv))) as (a & p3 & Hrun & Hcase & Hm3).
  apply wp_bind. eapply wp_on_pool; [exact Hp2|]. apply wp_run. exists a, p3. split; [exact Hrun|]. fold (with_pool s2 p3).
  assert (Hcomp2 : completes L L s s2) by (apply advances_completes; [done | by apply shrinks_distinct]).
  destruct Hcase as [(Hok & Hcap & Hac3 & _) | [Herr Hac3]].
  2: { assert (is_ok (ar_error a) = false) as Hno by (by destruct Herr as [-> | ->]). rewrite Hno. apply wp_ret. simpl.
       rewrite Hno. split_and!; [| apply loan_refused | done | done].
       - eapply completes_trans; [exact Hcomp2 | by eapply with_pool_completes; [|apply Hadv|..] | done].
       - simpl. by destruct Herr as [-> | ->].
       - done.
       - eapply with_pool_inv; [done | apply Hadv | done]. }
  rewrite Hok. cbn [is_ok negb].
  destruct (accounts_writable p3 _ _ (ar_handle a) size Hac3 (list_elem_of_here _ _)) as (p4 & Hrun4 & Hac4 & Hm4).
  apply wp_bind. eapply wp_on_pool; [done|]. apply wp_run. eexists _, p4. split; [exact Hrun4|]. cbn [wr_error is_ok negb].
  apply wp_ret. cbn [la_allocation]. rewrite Hok. cbn [is_ok].
  change (_ <| ps_impl := _ |>) with (with_pool s2 p4).
  assert (Hinv4 : pub_inv [] ((ar_handle a, size) :: L) (with_pool s2 p4)) by (by eapply with_pool_inv; [|apply Hadv|]).
  split_and!; [|by eapply loan_made | done | done].
  eapply completes_trans; [exact Hcomp2 | eapply with_pool_completes; [exact Hp2 | apply Hadv | done |] | done].
  eapply same_messages_trans; [|exact Hm3|]; [done|]. destruct Hm4 as [? Hm4]. split; [done|].
  intros h Hh. apply Hm4. unfold handles in *. set_solver.
Qed.
