(* ===== verification/PublisherUds.v ===== *)
(** * Publishing over Unix sockets

    [publishUds] sends the frame to every connection, drops the connections that fail, and
    counts the others; [publish], the public call, on either transport; the destructor. *)

From Stdlib Require Import ZArith Lia Bool String.
From stdpp Require Import base gmap list strings option.
From S2P Require Import Prelude Types Outcome BigEndian FrameProtocol QueueProtocol PoolLayout MemoryPool PoolSpec PoolReferences SocketIo SubscriberQueue QueueTheorems PublisherState Publisher PublisherInvariant PublisherReleases PublisherMethods PublisherCalls.

Local Open Scope Z_scope.

(** ** Sockets *)

(** A transfer that is reported complete was accepted whole. *)
Lemma writeAllWith_complete fuel : forall data transferred so r so',
  0 <= transferred <= Z.of_nat (length data) ->
  writeAllWith send_step fuel data transferred so = Some (r, so') -> io_status r = IoComplete ->
  so_sent so' = so_sent so ++ drop (Z.to_nat transferred) data.
Proof.
  induction fuel as [|fuel IH]; intros data transferred so r so' Ht; cbn [writeAllWith];
    (destruct (transferred <? _) eqn:Hlt; bools; [|intros [= <- <-] _; by rewrite drop_ge, app_nil_r by lia]); [done|].
  unfold send_step. destruct (so_replies so) as [|reply rest]; cbn [io_result io_errno].
  - rewrite length_drop. destruct (0 <? _) eqn:Hp; bools; [|lia].
    destruct (_ <? Z.of_nat (length data - _)) eqn:Hover; [intros [= <- <-]; done|]. bools.
    intros Hrun Hst. apply IH in Hrun; [|lia|done]. rewrite Hrun. simpl.
    rewrite (drop_ge data (Z.to_nat (transferred + _))), app_nil_r by lia. done.
  - destruct (0 <? io_result reply) eqn:Hp; bools.
    + destruct (_ <? io_result reply) eqn:Hover; [intros [= <- <-]; done|]. bools.
      intros Hrun Hst. apply IH in Hrun; [|lia|done]. rewrite Hrun. simpl. rewrite <- app_assoc. f_equal.
      replace (Z.to_nat (transferred + io_result reply)) with (Z.to_nat transferred + Z.to_nat (io_result reply))%nat by lia.
      by rewrite <- drop_drop, take_drop.
    + destruct (io_result reply =? 0); [intros [= <- <-]; done|].
      destruct (io_errno reply =? EINTR); [|intros [= <- <-]; done].
      intros Hrun Hst. apply IH in Hrun; [|lia|done]. rewrite Hrun. simpl.
      by rewrite (Z2Nat.nonpos (io_result reply)), take_0, app_nil_r by lia.
Qed.

Lemma writeAll_complete data so r so' fuel : writeAll send_step fuel data so = Some (r, so') ->
  io_status r = IoComplete -> so_sent so' = so_sent so ++ data.
Proof.
  unfold writeAll. destruct (writeAllWith send_step fuel data 0 so) as [[r0 so0]|] eqn:Hrun; [|done]. simpl.
  intros [= <- <-] Hst. apply writeAllWith_complete in Hrun; [done | lia |].
  unfold disconnect_closes in Hst. by destruct (_ && _).
Qed.

(** Only the socket [fd] changes. *)
Definition only_socket (fd : Z) (w w' : World) : Prop :=
  forall fd', fd' <> fd -> socket_of w' fd' = socket_of w fd'.

Lemma write_socket_ok O L fd data s : core O L s ->
  wp (write_socket fd data) s (fun r s' => transition O O L s s' /\ only_socket fd (ps_world s) (ps_world s') /\
    (io_status r = IoComplete -> sent_on (ps_world s') fd = sent_on (ps_world s) fd ++ data)).
Proof.
  intros Hcore. unfold write_socket. apply wp_bind. unfold this, wp at 1.
  destruct (writeAll_returns data (socket_of (ps_world s) fd)) as (r & so & Hrun). rewrite Hrun.
  apply wp_bind. unfold set_socket, set_world, modify, wp at 1. apply wp_ret. split_and!.
  - by apply socket_transition.
  - intros fd' Hne. unfold socket_of. simpl. by rewrite lookup_insert_ne.
  - intros Hst. unfold sent_on, socket_of at 1. simpl. rewrite lookup_insert_eq. simpl. by eapply writeAll_complete.
Qed.

Lemma destroy_connection_sockets env c s u s' : destroy_connection env c s = (Ret u, s') ->
  wd_sockets (ps_world s') = wd_sockets (ps_world s).
Proof.
  unfold destroy_connection, on_queue. destruct (dc_queue c); [|by intros [= _ <-]]. unfold_cpp.
  destruct (_ !! _); [|done]. destruct (destroy_queue _ _ _ _) as [[] ?]; by intros [= _ <-].
Qed.

(** ** One connection *)

Lemma send_frame_ok O L env header payload progress c s : core (dc_outstanding c ++ O) L s -> connection_ok (ps_world s) c ->
  dc_outstanding c = [] ->
  wp (send_frame env header payload progress c) s (fun '(progress', kept) s' =>
    transition O O L s s' /\ only_socket (dc_socket c) (ps_world s) (ps_world s') /\
    match kept with
    | Some c' => c' = c /\ progress' = mkUdsProgress (wrap 32 (up_enqueued progress + 1)) (up_first_error progress) /\
        sent_on (ps_world s') (dc_socket c) = sent_on (ps_world s) (dc_socket c) ++ header ++ payload
    | None => up_enqueued progress' = up_enqueued progress
    end).
Proof.
  intros Hcore Hc Hout. rewrite Hout in Hcore. unfold send_frame. apply wp_bind.
  eapply wp_mono; [|by apply (write_socket_ok O L)]. intros r s1 (Htr1 & Hon1 & Hs1). apply wp_bind.
  apply wp_mono with (Q := fun r' s2 => transition O O L s s2 /\ only_socket (dc_socket c) (ps_world s) (ps_world s2) /\
    (io_status r' = IoComplete ->
       sent_on (ps_world s2) (dc_socket c) = sent_on (ps_world s) (dc_socket c) ++ header ++ payload)).
  2: { case_bool_decide as Hst; [|by apply wp_ret].
       eapply wp_mono; [|apply (write_socket_ok O L), (tr_core _ _ _ _ _ Htr1)]. intros r' s2 (Htr2 & Hon2 & Hs2).
       split_and!; [by eapply transition_trans | intros fd Hne; by rewrite Hon2, Hon1 |].
       intros Hst'. by rewrite (Hs2 Hst'), (Hs1 Hst), <- app_assoc. }
  intros r' s2 (Htr2 & Hon2 & Hs2). case_bool_decide as Hst; cbn [negb]; [by apply wp_ret; split_and!; auto|].
  apply wp_bind. eapply wp_mono; [|apply wp_and; [intros u s'; apply destroy_connection_sockets | apply (destroy_connection_ok O L)]].
  - intros u s3 [Hso Htr3]. apply wp_ret. split_and!; [by eapply transition_trans | | done].
    intros fd Hne. rewrite <- Hon2 by done. unfold socket_of. by rewrite Hso.
  - apply (tr_core _ _ _ _ _ Htr2).
  - eapply connection_ok_le, Hc. apply (tr_evolves _ _ _ _ _ Htr2).
Qed.

(** ** The loop *)

(** The result: the connections left are those that took the frame. *)
Record uds_result (frame : list Z) (size sequence : Z) (s s' : PubState) (r : PublishResult) : Prop := {
  ur_sequence : pr_sequence r = sequence;
  ur_enqueued : pr_enqueued r = Z.of_nat (length (connections_of s'));
  ur_ok : pr_error r = Ok <-> connections_of s' <> [];
  ur_counter : im_sequence (ps_impl s') = if is_ok (pr_error r) then sequence else im_sequence (ps_impl s);
  ur_size : pr_payload_size r = if is_ok (pr_error r) then size else 0;
  ur_sub : connections_of s' `sublist_of` connections_of s;
  ur_sent : forall c, c ∈ connections_of s' -> sole dc_socket (connections_of s) c ->
    sent_on (ps_world s') (dc_socket c) = sent_on (ps_world s) (dc_socket c) ++ frame;
  ur_others : forall fd, (forall c, c ∈ connections_of s -> dc_socket c <> fd) -> sent_on (ps_world s') fd = sent_on (ps_world s) fd;
}.

(** What holds between two iterations that started from the connections [all] in [w0]: [done] got the
    whole frame, [todo] and foreign sockets nothing. *)
Record sending (frame : list Z) (all : list DataConnection) (w0 : World) (done todo : list DataConnection)
    (progress : uds_progress) (w : World) : Prop := {
  sg_sub : done ++ todo `sublist_of` all;
  sg_count : up_enqueued progress = Z.of_nat (length done);
  sg_done : forall c, c ∈ done -> sole dc_socket all c -> sent_on w (dc_socket c) = sent_on w0 (dc_socket c) ++ frame;
  sg_todo : forall c, c ∈ todo -> sole dc_socket all c -> sent_on w (dc_socket c) = sent_on w0 (dc_socket c);
  sg_others : forall fd, (forall c, c ∈ all -> dc_socket c <> fd) -> sent_on w fd = sent_on w0 fd;
}.

Lemma sublist_NoDup_map {A B} (f : A -> B) (l k : list A) : l `sublist_of` k -> NoDup (map f k) -> NoDup (map f l).
Proof.
  intros Hsub Hnd. eapply sublist_NoDup; [exact Hnd|]. clear Hnd.
  induction Hsub; simpl; [constructor | by apply sublist_skip | by apply sublist_cons].
Qed.

Lemma sending_step frame all w0 w w' done todo c progress progress' (kept : bool) :
  Z.of_nat (length all) < 2 ^ 32 -> NoDup (endpoint_ids all) -> sending frame all w0 done (c :: todo) progress w ->
  only_socket (dc_socket c) w w' ->
  (if kept then up_enqueued progress' = wrap 32 (up_enqueued progress + 1) /\
     sent_on w' (dc_socket c) = sent_on w (dc_socket c) ++ frame
   else up_enqueued progress' = up_enqueued progress) ->
  sending frame all w0 (done ++ if kept then [c] else []) todo progress' w'.
Proof.
  intros Hlen Hids [Hsub Henq Hdone Htodo Hothers] Hon Hk.
  assert (Hl : (length done + S (length todo) <= length all)%nat)
    by (apply sublist_length in Hsub; rewrite length_app in Hsub; done).
  assert (Hc : c ∈ all) by (eapply elem_of_submseteq; [|by apply sublist_submseteq]; set_solver).
  assert (Hrest : forall c', c' ∈ done ++ todo -> sole dc_socket all c' -> sent_on w' (dc_socket c') = sent_on w (dc_socket c')).
  { intros c' Hin Hsole. unfold sent_on. rewrite Hon; [done|]. intros Heq.
    specialize (Hsole c Hc (eq_sym Heq)). eapply (sublist_NoDup_map dc_endpoint_id) in Hids; [|exact Hsub].
    rewrite map_app in Hids. simpl in Hids. rewrite <- Permutation_middle, <- map_app in Hids.
    apply list.NoDup_cons in Hids as [Hnot _]. apply Hnot. rewrite Hsole. by apply list_elem_of_fmap_2. }
  split.
  - etrans; [|exact Hsub]. destruct kept; [by rewrite <- app_assoc|]. rewrite app_nil_r.
    apply sublist_app; [done | by apply sublist_cons].
  - destruct kept; [|by rewrite app_nil_r, Hk]. destruct Hk as [-> _]. rewrite Henq, wrap_small, length_app; simpl; unfold fits; lia.
  - intros c' [Hin|Hin]%elem_of_app Hsole; [by rewrite Hrest, Hdone by set_solver|].
    destruct kept; [|set_solver]. apply list_elem_of_singleton in Hin as ->. destruct Hk as [_ ->]. by rewrite Htodo by set_solver.
  - intros c' Hin Hsole. by rewrite Hrest, Htodo by set_solver.
  - intros fd Hfd. rewrite <- Hothers by done. unfold sent_on. rewrite Hon; [done|]. intros Heq. by apply (Hfd c).
Qed.

Lemma read_payload_ok data size s : 0 <= size -> buffer_ok data size ->
  read_payload data size s = (Ret (take (Z.to_nat size) (default [] data)), s).
Proof.
  intros Hs Hb. unfold read_payload. destruct (size =? 0) eqn:H0; bools; [by subst|].
  destruct data as [bytes|]; simpl in *; [|lia]. unfold read_at. by rewrite decide_True by lia.
Qed.

Lemma publishUds_ok env data size sequence s : im_pool (ps_impl s) = None -> pub_inv [] [] s -> distinct s ->
  0 <= size <= u32_max -> buffer_ok data size ->
  wp (publishUds env data size sequence) s (fun r s' => completes [] [] s s' /\ im_pool (ps_impl s') = None /\
    uds_result (encodeFrameHeader (mkFrameHeader kFrameMagic size sequence (ce_timestamp_ns env)) ++
                take (Z.to_nat size) (default [] data)) size sequence s s' r).
Proof.
  intros Hp Hinv Hdis Hsize Hb. unfold publishUds. rewrite wrap_small by (unfold fits, u32_max in *; lia).
  set (header := encodeFrameHeader _). apply wp_bind. unfold wp at 1. rewrite read_payload_ok by (done || lia).
  set (payload := take _ _). apply wp_bind.
  eapply wp_mono; [|apply (for_connections_ok [] [] _ (fun done todo progress w => held todo = [] /\
    sending (header ++ payload) (connections_of s) (ps_world s) done todo progress w)); [done | |]].
  - intros progress s1 (Hinv1 & Htr & _ & [Hsub Henq Hsent _ Hothers]). rewrite app_nil_r in Hsub.
    change (im_connections (ps_impl s1)) with (connections_of s1) in *.
    assert (Hp1 : im_pool (ps_impl s1) = None).
    { pose proof (tr_keeps _ _ _ _ _ Htr) as Hk. unfold pool_keeps in Hk. rewrite Hp in Hk. by destruct (im_pool (ps_impl s1)). }
    assert (Hadv : advances [] [] s s1) by (by split).
    assert (Hd : distinct s -> distinct s1).
    { apply shrinks_distinct. unfold shrinks, endpoint_ids. clear -Hsub. induction Hsub; simpl; [constructor | by apply sublist_skip | by apply sublist_cons]. }
    pose proof (ev_sequence _ _ (tr_evolves _ _ _ _ _ Htr)) as Hseq.
    assert (Hnil : up_enqueued progress <> 0 <-> connections_of s1 <> []).
    { rewrite Henq. by destruct (connections_of s1). }
    destruct (up_enqueued progress =? 0) eqn:H0; bools; cbn [negb].
    + assert (Herr : forall e, (if is_ok e then ConnectionLost else e) <> Ok) by (by intros []).
      apply wp_ret. split_and!; [by apply advances_completes | done |].
      specialize (Herr (up_first_error progress)).
      assert (is_ok (if is_ok (up_first_error progress) then ConnectionLost else up_first_error progress) = false) as Hno
        by (by destruct (up_first_error progress)).
      split; simpl; rewrite ?Hno; auto; tauto.
    + apply wp_bind. unfold set_impl, modify, wp at 1. apply wp_ret. split_and!; [|done|].
      * destruct (advances_completes _ _ _ Hadv Hd) as [[? ?] [] ? ?]. split; auto; by split.
      * split; simpl; auto; tauto.
  - intros done todo progress c F s1 Hcore Hc Hev [[Hnil Hheld]%app_nil HI].
    eapply wp_mono; [|apply (send_frame_ok (F ++ []) []); [exact Hcore | done | done]].
    intros [progress' kept] s2 (Htr & Hon & Hk). destruct kept as [c'|]; rewrite Hnil; simpl.
    + destruct Hk as (-> & -> & Hs). rewrite Hnil.
      split_and!; [done | constructor; [|constructor]; eapply connection_ok_le, Hc; apply (tr_evolves _ _ _ _ _ Htr) | done |].
      by eapply (sending_step _ _ _ _ _ _ _ _ _ _ true); [apply Hdis | apply Hdis | exact HI | |].
    + split_and!; [done | constructor | done |].
      by eapply (sending_step _ _ _ _ _ _ _ _ _ _ false); [apply Hdis | apply Hdis | exact HI | |].
  - destruct Hinv as [[Hcore _] _]. rewrite Hp in Hcore. destruct Hcore as [[Hnil _]%app_nil _]. split; [done|]. split; [done | done | set_solver | done | done].
Qed.

(** ** The publisher between two public calls *)

Definition transport_ok (s : PubState) : Prop :=
  pc_transport (im_config (ps_impl s)) =
  match im_pool (ps_impl s) with Some _ => SharedMemory | None => UnixDomainSocket end.

(** [L]: the loans in the hands of the application. *)
Record publisher_ok (L : list (ChunkHandle * Z)) (s : PubState) : Prop := {
  po_inv : pub_inv [] L s;
  po_distinct : distinct s;
  po_transport : transport_ok s;
  po_sequence : 0 <= im_sequence (ps_impl s) <= u64_max;
}.

(** A public call leaves a publisher that is the same, with the loans [L'], and what is read
    through references still held and the loans [K] is unchanged. *)
Definition leaves (K L' : list (ChunkHandle * Z)) (s s' : PubState) : Prop :=
  publisher_ok L' s' /\ same_publisher s s' /\ pool_keeps s s' (handles (survivors s s') K).

Lemma completes_leaves K L L' s s' : publisher_ok L s -> completes K L' s s' ->
  0 <= im_sequence (ps_impl s') <= u64_max -> leaves K L' s s'.
Proof.
  intros [Hinv Hdis Htr Hseq] [Hinv' Hsame Hk Hd] Hseq'. split_and!; [|done|done]. split; auto.
  unfold transport_ok in *. rewrite (sp_config _ _ Hsame), Htr. unfold pool_keeps in Hk.
  by destruct (im_pool (ps_impl s)), (im_pool (ps_impl s')).
Qed.

Lemma publisher_loans L s : publisher_ok L s -> im_pool (ps_impl s) = None -> L = [].
Proof. intros [[[Hpool _] _] _ _ _] Hp. rewrite Hp in Hpool. by destruct Hpool. Qed.

(** Why a publication is refused before anything is done. *)
Definition refused_early (data : option (list Z)) (size : Z) (s : PubState) (error : ErrorCode) : Prop :=
  error = InvalidArgument /\ data = None /\ size <> 0 \/
  error = MessageTooLarge /\ (pc_max_message_size (im_config (ps_impl s)) < size \/ u32_max < size) \/
  error = InvalidState /\ im_sequence (ps_impl s) = u64_max.

(** Why it is refused once releases were received and subscribers were looked for, with the result
    [found]. *)
Definition refused_late (size : Z) (found : ErrorCode) (s1 : PubState) (error : ErrorCode) : Prop :=
  found <> Ok /\ error = found \/
  found = Ok /\ error = MessageTooLarge /\ im_negotiated_max_message_size (ps_impl s1) < size.

(** What becomes of a publication that starts in [s] and ends in [s'].  [s1] is the state after
    [prepare], which sends nothing and takes no new references. *)
Inductive publish_outcome (env : call_env) (data : option (list Z)) (size : Z) (s s' : PubState) (r : PublishResult) : Prop :=
  | outcome_early error : refused_early data size s error -> r = publish_result error 0 0 -> s' = s ->
      publish_outcome env data size s s' r
  | outcome_late found s1 error : prepare env s = (Ret found, s1) -> refused_late size found s1 error ->
      r = publish_result error 0 0 -> s' = s1 -> publish_outcome env data size s s' r
  | outcome_no_chunk s1 : prepare env s = (Ret Ok, s1) -> pc_transport (im_config (ps_impl s)) = SharedMemory ->
      no_chunk size (im_sequence (ps_impl s) + 1) s1 s' r -> publish_outcome env data size s s' r
  | outcome_dispatched s1 : prepare env s = (Ret Ok, s1) -> pc_transport (im_config (ps_impl s)) = SharedMemory ->
      connections_of s1 <> [] -> copy_dispatched env data size (im_sequence (ps_impl s) + 1) s s1 s' r ->
      publish_outcome env data size s s' r
  | outcome_sent s1 : prepare env s = (Ret Ok, s1) -> pc_transport (im_config (ps_impl s)) = UnixDomainSocket ->
      connections_of s1 <> [] ->
      uds_result (encodeFrameHeader (mkFrameHeader kFrameMagic size (im_sequence (ps_impl s) + 1) (ce_timestamp_ns env)) ++
                  take (Z.to_nat size) (default [] data)) size (im_sequence (ps_impl s) + 1) s1 s' r ->
      publish_outcome env data size s s' r.

(** What [prepare] leaves as it was: the sequence, and what was sent; it may only give references back. *)
Definition undisturbed (s s1 : PubState) : Prop :=
  im_sequence (ps_impl s1) = im_sequence (ps_impl s) /\ sends_nothing (ps_world s) (ps_world s1) /\
  forall h, h ∈ held (connections_of s1) -> h ∈ held (connections_of s).

Lemma advances_undisturbed L s s1 : advances [] L s s1 -> sends_nothing (ps_world s) (ps_world s1) -> undisturbed s s1.
Proof.
  intros Hadv Hq. pose proof (advances_held _ _ _ _ Hadv) as Hsub. rewrite !app_nil_r in Hsub.
  split_and!; [apply (ev_sequence _ _ (tr_evolves _ _ _ _ _ (proj2 Hadv)))|done|done].
Qed.

(** After a refusal the publisher is left as the statements before it left it. *)
Lemma advances_leaves L s s1 : publisher_ok L s -> advances [] L s s1 -> distinct s1 -> leaves L L s s1.
Proof.
  intros Hok Hadv Hdis. eapply completes_leaves; [done | by apply advances_completes |].
  rewrite (ev_sequence _ _ (tr_evolves _ _ _ _ _ (proj2 Hadv))). apply Hok.
Qed.

Lemma publish_ok L env data size s : env_answers env -> publisher_ok L s -> 0 <= size ->
  data = None \/ buffer_ok data size ->
  wp (publish true env data size) s (fun r s' => leaves L L s s' /\ publish_outcome env data size s s' r /\
    forall found s1, prepare env s = (Ret found, s1) -> undisturbed s s1).
Proof.
  intros Henv Hok Hsize Hb. pose proof (po_inv _ _ Hok) as Hinv. pose proof (po_distinct _ _ Hok) as Hdis.
  pose proof (po_sequence _ _ Hok) as Hseq. pose proof (advances_refl _ _ _ Hinv) as Hrefl.
  assert (Hquiet : forall found s1, prepare env s = (Ret found, s1) -> undisturbed s s1).
  { intros found s1 Hrun. pose proof (prepare_ok L env s (fun _ s1 => advances [] L s s1) Henv Hinv Hdis ltac:(auto)) as Hwp.
    unfold wp in Hwp. change (match prepare env s with (Ret _, s1) => advances [] L s s1 | _ => False end) in Hwp.
    rewrite Hrun in Hwp. eapply advances_undisturbed; [exact Hwp|]. by eapply prepare_sends_nothing. }
  assert (Hearly : forall error, refused_early data size s error -> wp (mret (publish_result error 0 0)) s (fun r s' =>
    leaves L L s s' /\ publish_outcome env data size s s' r /\ forall found s1, prepare env s = (Ret found, s1) -> undisturbed s s1)).
  { intros error He. apply wp_ret. split_and!; [by apply advances_leaves | by eapply outcome_early | done]. }
  unfold publish. cbn [negb]. destruct (_ && _) eqn:Hnull.
  { bools. apply Hearly. left. by split_and!. }
  assert (Hbuf : buffer_ok data size) by (destruct Hb as [-> | ?]; [simpl; rewrite bool_decide_eq_true_2 in Hnull by done; cbn [andb] in Hnull; by apply negb_false_iff, Z.eqb_eq in Hnull | done]).
  apply wp_bind, wp_impl. destruct (_ || _) eqn:Hbig; bools.
  { apply Hearly. right. left. split; [done|]. destruct Hbig; bools; lia. }
  destruct (_ =? u64_max) eqn:Hmax; bools; [by apply Hearly; right; right|].
  apply wp_assoc, wp_bind, (prepare_ok L); [done | done | done |]. intros e s1 Hprep Hadv Hdis1 Hne.
  assert (Hlate : forall error, refused_late size e s1 error -> wp (mret (publish_result error 0 0)) s1 (fun r s' =>
    leaves L L s s' /\ publish_outcome env data size s s' r /\ forall found s1, prepare env s = (Ret found, s1) -> undisturbed s s1)).
  { intros error He. apply wp_ret. split_and!; [by apply advances_leaves | by eapply outcome_late | done]. }
  destruct (is_ok e) eqn:Hoke; cbn [negb]; [|apply Hlate; left; split; [by intros ->|done]].
  assert (e = Ok) as -> by (by destruct e). specialize (Hne eq_refl). apply wp_bind, wp_impl.
  pose proof (tr_evolves _ _ _ _ _ (proj2 Hadv)) as Hev. pose proof (ev_sequence _ _ Hev) as Hs1. rewrite Hs1.
  rewrite (ev_config _ _ Hev). destruct (_ <? size) eqn:Hneg; bools; [by apply Hlate; right|].
  assert (Hcomp1 : completes L L s s1) by (by apply advances_completes).
  pose proof (po_transport _ _ Hok) as Htrans. unfold transport_ok in Htrans. rewrite Htrans.
  destruct (im_pool (ps_impl s)) as [p|] eqn:Hp.
  - rewrite bool_decide_eq_true_2 by done. destruct (advances_pool _ _ _ _ _ Hp Hadv) as (p1 & Hp1 & _).
    eapply wp_mono; [|apply (publishSharedMemoryCopy_ok L env data size _ s s1 p1); auto; lia].
    intros r s' (Hcomp & Hcase & Hseq'). split_and!; [|destruct Hcase; [by eapply outcome_no_chunk|by eapply outcome_dispatched]|done].
    eapply completes_leaves; [done | exact Hcomp | lia].
  - rewrite bool_decide_eq_false_2 by done. pose proof (publisher_loans _ _ Hok Hp) as ->.
    eapply wp_mono; [|apply (publishUds_ok env data size _ s1); [|apply Hadv|done|unfold u32_max in *; lia|done]].
    + intros r s' (Hcomp & Hp' & Hur). split_and!; [|by eapply outcome_sent|done].
      eapply completes_leaves; [done | |].
      * split; [apply Hcomp | eapply same_publisher_trans; [apply Hcomp1 | apply Hcomp] | | ].
        -- unfold pool_keeps. by rewrite Hp, Hp'.
        -- intros _. by apply (cp_distinct _ _ _ _ Hcomp).
      * rewrite (ur_counter _ _ _ _ _ _ Hur). destruct (is_ok (pr_error r)); lia.
    + pose proof (cp_keeps _ _ _ _ Hcomp1) as Hk. unfold pool_keeps in Hk. rewrite Hp in Hk. by destruct (im_pool (ps_impl s1)).
Qed.
