(* ===== verification/PublisherLifecycle.v ===== *)
(** * Construction and destruction of a publisher

    A publisher that is created satisfies its invariant, one whose pool cannot be created takes
    its advertisement back, and the destructor returns with every connection closed and the
    endpoint unadvertised. *)

From Stdlib Require Import ZArith Lia Bool String.
From stdpp Require Import base gmap list strings option.
From S2P Require Import Prelude Types Outcome BigEndian FrameProtocol QueueProtocol PoolLayout MemoryPool PoolSpec PoolReferences PoolCreation SocketIo SubscriberQueue QueueTheorems PublisherState Publisher PublisherInvariant PublisherMethods PublisherCalls PublisherUds.

Local Open Scope Z_scope.

(** ** Construction *)

Lemma fresh_pool_accounts p : pool_wf p -> Forall (fun c => sp_status c = SFree /\ sp_generation c = 0) (abs p) ->
  accounts p [] [].
Proof.
  intros Hwf Hfree. split; [done | set_solver | set_solver | | constructor].
  intros i c Hi. pose proof (Forall_lookup_1 _ _ _ _ Hfree Hi) as [Hst _]. unfold held_by. by rewrite Hst.
Qed.

Lemma publisher_fresh topic config session pool topic_id endpoint_id size w :
  pc_transport config = match pool with Some _ => SharedMemory | None => UnixDomainSocket end ->
  match pool with Some p => accounts p [] [] | None => True end -> world_ok w ->
  publisher_ok [] (mkPubState (mkImpl topic config [] session pool topic_id endpoint_id size 0 ∅ 0 true) w).
Proof.
  intros Htr Hpool Hw. split; [|split; simpl; [constructor | lia] | done | simpl; unfold u64_max; lia].
  split; [|constructor]. split; [by destruct pool | done].
Qed.

(** The descriptor of the pool behind an endpoint: the advertised one, in the topic the registry
    assigned. *)
Definition pool_of_endpoint (advertised : PoolDescriptor) (endpoint : RegistryEndpoint) : PoolDescriptor :=
  mkPoolDescriptor (pd_shm_name advertised) (pd_pool_id advertised) (pd_segment_size advertised)
    (rg_topic_id endpoint) (pd_layout_version advertised).

Lemma advertised_pool_defined pid counter config : advertised_pool pid counter config <> Undef.
Proof.
  unfold advertised_pool. case_bool_decide; [|done]. unfold requiredPoolSegmentSize, mbind, outcome_bind.
  destruct (makeLayout _ _ _ _) eqn:Hlay; [done | done |]. unfold makeLayout in Hlay. repeat case_match; done.
Qed.

(** What the constructor did: a publisher with its invariant, or nothing but an exception, with
    the endpoint unadvertised if it had been advertised. *)
Definition created (advertise : PoolDescriptor -> outcome RegistryEndpoint) (config : PublisherConfig) (w w' : World)
    (r : outcome Impl) : Prop :=
  match r with
  | Ret m => w' = w /\ publisher_ok [] (mkPubState m w) /\ im_connections m = [] /\ im_sequence m = 0 /\
      exists advertised endpoint, advertise advertised = Ret endpoint /\
        im_endpoint_id m = rg_endpoint_id endpoint /\ im_topic_id m = rg_topic_id endpoint /\
        match im_pool m with
        | Some p => pc_transport config = SharedMemory /\ mp_descriptor p = pool_of_endpoint advertised endpoint /\
            Forall (fun c => sp_status c = SFree) (abs p)
        | None => pc_transport config = UnixDomainSocket /\ advertised = empty_PoolDescriptor
        end
  | Throw _ => w' = w \/ exists advertised endpoint, advertise advertised = Ret endpoint /\
      w' = w <| wd_unadvertised := rg_endpoint_id endpoint :: wd_unadvertised w |>
  | Undef => False
  end.

Lemma validateConfig_transport config registry_mode : validateConfig config registry_mode = Ret tt ->
  validTransport (pc_transport config) = true.
Proof. unfold validateConfig. repeat case_match; try done. intros _. by apply negb_false_iff. Qed.

Lemma validateConfig_defined config registry_mode : validateConfig config registry_mode <> Undef.
Proof. unfold validateConfig. by repeat case_match. Qed.

Lemma create_registered_ok pid counter advertise os topic config w :
  config_typed (pc_memory_pool config) -> (forall d, advertise d <> Undef) -> world_ok w ->
  let '(r, w') := create_registered pid counter advertise os topic config w in created advertise config w w' r.
Proof.
  intros Hty Hadv Hw. unfold create_registered. unfold_cpp. pose proof (validateConfig_defined config true).
  destruct (validateConfig config true) as [[]|e|] eqn:Hv; [|by left|done].
  pose proof (advertised_pool_defined pid counter config).
  destruct (advertised_pool pid counter config) as [advertised|e|] eqn:Hpool; [|by left|done].
  specialize (Hadv advertised). destruct (advertise advertised) as [endpoint|e|] eqn:Hend; [|by left|done].
  case_bool_decide as Htr.
  - fold (pool_of_endpoint advertised endpoint).
    pose proof (create_pool_spec os pid (pool_of_endpoint advertised endpoint) _ Hty) as Hspec.
    destruct (create_pool _ _ _ _) as [p|e|]; [| right; by exists advertised, endpoint |done].
    destruct Hspec as (Hwf & Hd & Hfree & _).
    split_and!; [done | apply publisher_fresh; auto using fresh_pool_accounts | done | done |].
    exists advertised, endpoint. split_and!; try done. simpl. split_and!; [done | done |].
    eapply list.Forall_impl; [exact Hfree|]. by intros c [].
  - apply validateConfig_transport in Hv. unfold validTransport in Hv. apply orb_true_iff in Hv as [Hv|Hv]; bools; [|done].
    split_and!; [done | by apply publisher_fresh | done | done |].
    exists advertised, endpoint. split_and!; try done. simpl. split; [done|].
    unfold advertised_pool in Hpool. rewrite bool_decide_eq_false_2 in Hpool by done. by simplify_eq.
Qed.

(** Direct mode: one connection, no pool, no registry. *)
Lemma create_direct_ok answer topic config w : world_ok w ->
  match create_direct answer topic config with
  | Ret m => publisher_ok [] (mkPubState m w) /\ im_registry_session m = false /\
      exists fd, map dc_socket (im_connections m) = [fd] /\ ca_socket answer = inl fd
  | Throw _ => True
  | Undef => False
  end.
Proof.
  intros Hw. unfold create_direct, connectUnixSocket, makeAddress, createSocket. unfold mbind, outcome_bind.
  pose proof (validateConfig_defined config false).
  destruct (validateConfig config false) as [[]|e|] eqn:Hv; [|done|done].
  assert (Htr : pc_transport config = UnixDomainSocket).
  { destruct (decide (pc_transport config = UnixDomainSocket)) as [|Hne]; [done|]. unfold validateConfig in Hv.
    rewrite (bool_decide_eq_false_2 _ Hne) in Hv. cbn [negb andb] in Hv. by repeat case_match. }
  destruct (_ =? 0); [done|]. destruct (_ <=? _); [done|]. destruct (ca_socket answer) as [fd|errno]; [|done].
  destruct (ca_connect answer); [done|]. split_and!; [|done|by exists fd].
  split; [|split; simpl; [apply NoDup_singleton | lia] | done | simpl; unfold u64_max; lia].
  split; [by split|]. constructor; [|constructor]. split; simpl; [unfold kQueueReleaseSize; lia | done | done].
Qed.

(** ** Destruction *)

Lemma close_connections_ok O L env todo : forall s, core O L s -> Forall (connection_ok (ps_world s)) todo ->
  connections_of s = todo ->
  wp (connection_loop (fun _ connection => destroy_connection env connection;; mret (tt, None)) [] todo tt) s
    (fun _ s' => core O L s' /\ connections_of s' = [] /\ evolves s s').
Proof.
  induction todo as [|c todo IH]; intros s Hcore Hok Hc; cbn [connection_loop].
  { apply wp_ret. split_and!; auto using evolves_refl. }
  apply Forall_cons_1 in Hok as [Hc0 Hok]. apply wp_bind, wp_bind.
  eapply wp_mono; [|by apply (destroy_connection_ok O L)]. intros u s1 Htr. apply wp_ret, wp_bind.
  unfold set_impl, modify, wp at 1. simpl option_list. cbn [app]. set (s2 := s1 <| ps_impl := _ |>).
  assert (Hev : evolves s s2) by (eapply evolves_trans; [apply (tr_evolves _ _ _ _ _ Htr)|]; evolve).
  eapply wp_mono; [|apply (IH s2)].
  - intros u' s3 (? & ? & ?). split_and!; [done | done | by eapply evolves_trans].
  - apply (tr_core _ _ _ _ _ Htr).
  - eapply connections_ok_le, Hok. apply Hev.
  - done.
Qed.

Lemma destroy_publisher_ok L env s : env_answers env -> pub_inv [] L s ->
  wp (destroy_publisher env) s (fun _ s' => connections_of s' = [] /\ im_pool (ps_impl s') = None /\
    world_le (ps_world s) (ps_world s') /\
    (im_registry_session (ps_impl s) = true -> im_endpoint_id (ps_impl s) <> 0 ->
       exists others, wd_unadvertised (ps_world s') = im_endpoint_id (ps_impl s) :: others)).
Proof.
  intros Henv Hinv. unfold destroy_publisher. apply wp_bind, wp_impl. apply wp_bind.
  apply wp_mono with (Q := fun _ s1 => advances [] L s s1).
  2: { destruct (im_pool (ps_impl s)); [|by apply wp_ret, advances_refl].
       apply wp_bind. eapply wp_mono; [|by apply (processPeerEvents_ok [] L)]. intros u s1 [Hadv1 _].
       apply wp_bind. eapply wp_mono; [|apply (wait_loop_ok [] L); [apply (en_polls _ Henv) | apply Hadv1]].
       intros u2 s2 [Hadv2 _]. eapply wp_mono; [|apply (drainQueuedReferences_ok [] L), Hadv2].
       intros u3 s3 [Hadv3 _]. eapply advances_trans; [exact Hadv1|]. by eapply advances_trans. }
  intros u s1 [Hinv1 Htr1]. apply wp_bind. unfold for_connections at 1. apply wp_bind, wp_impl.
  eapply wp_mono; [|eapply close_connections_ok; [apply Hinv1 | apply Hinv1 | done]].
  intros u2 s2 (_ & Hc2 & Hev2). apply wp_bind. unfold set_impl, modify, wp at 1. apply wp_bind, wp_impl. simpl.
  assert (Hev : evolves s s2) by (by eapply evolves_trans; [apply (tr_evolves _ _ _ _ _ Htr1)|]).
  rewrite (ev_session _ _ Hev), (ev_endpoint _ _ Hev).
  destruct (_ && _) eqn:Hreg.
  - unfold set_world, modify, wp. split_and!; [done | done | | eauto].
    intros client Hr. by apply (ev_world _ _ Hev).
  - apply wp_ret. split_and!; [done | done | apply Hev |]. intros Hs He. exfalso. rewrite Hs in Hreg. simpl in Hreg. by bools.
Qed.
