(* ===== verification/LoanedSample.v ===== *)
(** * Loaned samples

    [LoanedSample] of [middleware/src/loaned_sample.cpp], over any owner that honours the
    contract of [detail/loaned_sample_owner.hpp]: a sample is active exactly while it holds its
    loan, and each loan ends once, by publishing, by cancelling or with the destructor. *)

From Stdlib Require Import ZArith Lia Bool String.
From stdpp Require Import base gmap list strings option.
From S2P Require Import Prelude Types Outcome PoolProtocol MemoryPool PublisherState.

Local Open Scope Z_scope.

(** ** The owner *)

(** [detail::LoanedSampleOwner] *)
Class LoanedSampleOwner (S : Type) := {
  owner_publishLoanedSample : ChunkHandle -> Z -> cpp S PublishResult;
  owner_cancelLoanedSample : ChunkHandle -> cpp S ErrorCode;
}.

(** What an owner promises: [loans L s] says that exactly the loans [L] are out, each with its
    size; publishing or cancelling one of them returns and ends it. *)
Class OwnerContract (S : Type) (owner : LoanedSampleOwner S) (loans : list (ChunkHandle * Z) -> S -> Prop) : Prop := {
  loans_Proper :: Proper ((≡ₚ) ==> (=) ==> iff) loans;
  publish_ends : forall L handle n s, loans ((handle, n) :: L) s ->
    wp (owner_publishLoanedSample handle n) s (fun _ s' => loans L s');
  cancel_ends : forall L handle n s, loans ((handle, n) :: L) s ->
    wp (owner_cancelLoanedSample handle) s (fun e s' => e = Ok /\ loans L s');
}.

(** ** The sample *)

(** [ls_owner]: whether [owner_] is set; [ls_payload]: the offset of the payload in the pool. *)
Record LoanedSample := mkLoanedSample {
  ls_owner : bool;
  ls_payload : option Z;
  ls_size : Z;
  ls_capacity : Z;
  ls_pool_id : Z;
  ls_chunk_index : Z;
  ls_generation : Z;
  ls_payload_offset : Z;
  ls_error : ErrorCode;
  ls_active : bool;
}.
#[export] Instance LoanedSample_eta : Eta LoanedSample := fun l =>
  mkLoanedSample (ls_owner l) (ls_payload l) (ls_size l) (ls_capacity l) (ls_pool_id l) (ls_chunk_index l)
    (ls_generation l) (ls_payload_offset l) (ls_error l) (ls_active l).

(** The default constructor, the one for an error, and the one for a loan. *)
Definition empty_sample : LoanedSample := mkLoanedSample false None 0 0 0 0 0 0 InvalidState false.
Definition error_sample (error : ErrorCode) : LoanedSample := empty_sample <| ls_error := error |>.
Definition loaned_sample (payload : option Z) (size capacity pool_id chunk_index generation payload_offset : Z)
    : LoanedSample :=
  mkLoanedSample true payload size capacity pool_id chunk_index generation payload_offset Ok true.

(** The object left by [std::exchange] of every field; the new object has the old fields. *)
Definition moved_sample : LoanedSample := mkLoanedSample false None 0 0 0 0 0 0 InvalidState false.

(** The move constructor: the new sample and [other] after it. *)
Definition move_sample (other : LoanedSample) : LoanedSample * LoanedSample := (other, moved_sample).

Definition sample_data (l : LoanedSample) : option Z := if ls_active l then ls_payload l else None.
Definition sample_valid (l : LoanedSample) : bool := ls_active l && ls_owner l && is_ok (ls_error l).
Definition sample_handle (l : LoanedSample) : ChunkHandle :=
  mkChunkHandle (ls_pool_id l) (ls_chunk_index l) (ls_generation l) (ls_payload_offset l).

Section methods.
Context {S : Type} `{owner : LoanedSampleOwner S}.

Definition sample_publish (l : LoanedSample) : cpp S (PublishResult * LoanedSample) :=
  if negb (sample_valid l) then mret (publish_result InvalidState 0 0, l) else
  result ← owner_publishLoanedSample (sample_handle l) (ls_size l);
  mret (result, l <| ls_active := false |> <| ls_payload := None |> <| ls_error := pr_error result |>
                  <| ls_owner := false |>).

(** [cancel], which is also the destructor. *)
Definition sample_cancel (l : LoanedSample) : cpp S LoanedSample :=
  l ← (if ls_active l && ls_owner l
       then error ← owner_cancelLoanedSample (sample_handle l); mret (l <| ls_error := error |>)
       else mret l);
  mret (l <| ls_active := false |> <| ls_payload := None |> <| ls_owner := false |>).

(** [operator=(LoanedSample&&)] of two different objects: the target and [other] after it. *)
Definition sample_assign (l other : LoanedSample) : cpp S (LoanedSample * LoanedSample) :=
  sample_cancel l;; mret (move_sample other).
End methods.

(** ** The samples of an application

    The variables of type [LoanedSample] an application has, in the order they were made. *)

Inductive sample_op :=
  | SamplePublish (i : nat)
  | SampleDestroy (i : nat)
  | SampleMove (i : nat)
  | SampleAssign (i j : nat).

Section application.
Context {S : Type} `{owner : LoanedSampleOwner S}.

(** Runs a method on variable [i] and stores what it leaves there. *)
Definition on_sample {A} (i : nat) (samples : list LoanedSample) (method : LoanedSample -> cpp S (A * LoanedSample))
    : cpp S (list LoanedSample) :=
  match samples !! i with
  | None => mret samples
  | Some l => '(_, l) ← method l; mret (<[i := l]> samples)
  end.

(** A move constructs a new variable; an assignment between the same variable does nothing. *)
Definition sample_step (op : sample_op) (samples : list LoanedSample) : cpp S (list LoanedSample) :=
  match op with
  | SamplePublish i => on_sample i samples sample_publish
  | SampleDestroy i => on_sample i samples (fun l => l ← sample_cancel l; mret (tt, l))
  | SampleMove i =>
      match samples !! i with
      | None => mret samples
      | Some l => let '(new, l) := move_sample l in mret (<[i := l]> samples ++ [new])
      end
  | SampleAssign i j =>
      if bool_decide (i = j) then mret samples else
      match samples !! i, samples !! j with
      | Some l, Some other =>
          '(l, other) ← sample_assign l other; mret (<[j := other]> (<[i := l]> samples))
      | _, _ => mret samples
      end
  end.
End application.

(** ** Invariant of the class *)

(** Active exactly when the owner is held; the pointer is usable exactly then. *)
Record sample_ok (l : LoanedSample) : Prop := {
  so_owner : ls_owner l = ls_active l;
  so_error : ls_active l = true -> ls_error l = Ok;
  so_place : ls_active l = true -> ls_payload l = Some (ls_payload_offset l);
  so_null : ls_active l = false -> ls_payload l = None;
}.

Definition sample_loan (l : LoanedSample) : list (ChunkHandle * Z) :=
  if ls_active l then [(sample_handle l, ls_size l)] else [].

(** The loans in the hands of an application. *)
Definition sample_loans (samples : list LoanedSample) : list (ChunkHandle * Z) := flat_map sample_loan samples.

(** The loans of the other variables. *)
Lemma sample_loans_split i samples l : samples !! i = Some l ->
  exists F, sample_loans samples ≡ₚ sample_loan l ++ F /\
    forall l', sample_loans (<[i := l']> samples) ≡ₚ sample_loan l' ++ F.
Proof.
  intros Hi. exists (sample_loans (take i samples) ++ sample_loans (drop (S i) samples)).
  assert (Hall : forall l', sample_loans (<[i := l']> samples) ≡ₚ
    sample_loan l' ++ sample_loans (take i samples) ++ sample_loans (drop (S i) samples)).
  { intros l'. rewrite insert_take_drop by (by eapply lookup_lt_Some). unfold sample_loans.
    rewrite flat_map_app. simpl. apply Permutation_app_swap_app. }
  split; [|done]. by rewrite <- Hall, list_insert_id.
Qed.

Lemma valid_active l : sample_ok l -> sample_valid l = ls_active l.
Proof. intros [Ho He _ _]. unfold sample_valid. rewrite Ho. destruct (ls_active l); [by rewrite He | done]. Qed.

Section contract.
Context {S : Type} {owner : LoanedSampleOwner S} {loans : list (ChunkHandle * Z) -> S -> Prop}.
Context `{!OwnerContract S owner loans}.
Implicit Types (l : LoanedSample) (F : list (ChunkHandle * Z)) (s : S).

Lemma sample_publish_ok l F s : sample_ok l -> loans (sample_loan l ++ F) s ->
  wp (sample_publish l) s (fun '(_, l') s' => sample_ok l' /\ sample_loan l' = [] /\ loans F s').
Proof.
  intros Hok Hloans. unfold sample_publish. rewrite valid_active by done. unfold sample_loan in Hloans |- *.
  destruct (ls_active l) eqn:Hact; cbn [negb].
  - apply wp_bind. eapply wp_mono; [|by eapply publish_ends]. intros r s' Hs'. apply wp_ret. by split_and!.
  - apply wp_ret. rewrite Hact. by split_and!.
Qed.

Lemma sample_cancel_ok l F s : sample_ok l -> loans (sample_loan l ++ F) s ->
  wp (sample_cancel l) s (fun l' s' => sample_ok l' /\ sample_loan l' = [] /\ loans F s').
Proof.
  intros Hok Hloans. unfold sample_cancel. rewrite (so_owner _ Hok). unfold sample_loan in Hloans.
  apply wp_bind. destruct (ls_active l) eqn:Hact; cbn [andb].
  - apply wp_bind. eapply wp_mono; [|by eapply cancel_ends]. intros e s' [-> Hs']. apply wp_ret, wp_ret. by split_and!.
  - apply wp_ret, wp_ret. by split_and!.
Qed.

Lemma on_sample_ok {A} i samples (method : LoanedSample -> cpp S (A * LoanedSample)) s :
  (forall l F s, sample_ok l -> loans (sample_loan l ++ F) s ->
     wp (method l) s (fun '(_, l') s' => sample_ok l' /\ sample_loan l' = [] /\ loans F s')) ->
  Forall sample_ok samples -> loans (sample_loans samples) s ->
  wp (on_sample i samples method) s (fun samples' s' => Forall sample_ok samples' /\ loans (sample_loans samples') s').
Proof.
  intros Hm Hok Hloans. unfold on_sample. destruct (samples !! i) as [l|] eqn:Hi; [|by apply wp_ret].
  destruct (sample_loans_split _ _ _ Hi) as (F & HF & Hins). rewrite HF in Hloans.
  apply wp_bind. eapply wp_mono; [|apply Hm; [by eapply Forall_lookup_1 | exact Hloans]].
  intros [a l'] s' (Hl' & Hnil & Hs'). apply wp_ret. split; [by apply Forall_insert|].
  by rewrite Hins, Hnil.
Qed.

(** Every operation on the samples of an application keeps the class invariant of each, and
    the loans that are out are those the samples hold. *)
Lemma sample_step_ok op samples s : Forall sample_ok samples -> loans (sample_loans samples) s ->
  wp (sample_step op samples) s (fun samples' s' => Forall sample_ok samples' /\ loans (sample_loans samples') s').
Proof.
  intros Hok Hloans. assert (Hmoved : sample_ok moved_sample) by (by split). destruct op as [i|i|i|i j]; cbn [sample_step].
  - apply on_sample_ok; [|done|done]. intros l F s' ? ?. by apply sample_publish_ok.
  - apply on_sample_ok; [|done|done]. intros l F s' ? ?. apply wp_bind. eapply wp_mono; [|by eapply sample_cancel_ok].
    intros l' s2 Hl'. by apply wp_ret.
  - destruct (samples !! i) as [l|] eqn:Hi; [|by apply wp_ret]. simpl. apply wp_ret.
    destruct (sample_loans_split _ _ _ Hi) as (F & HF & Hins). rewrite HF in Hloans. split.
    + apply Forall_app. split; [by apply Forall_insert|]. constructor; [by eapply Forall_lookup_1 | constructor].
    + unfold sample_loans in *. rewrite flat_map_app. fold (sample_loans (<[i := moved_sample]> samples)).
      rewrite Hins. simpl. rewrite app_nil_r. by rewrite (Permutation_app_comm F).
  - case_bool_decide as Hij; [by apply wp_ret|]. destruct (samples !! i) as [l|] eqn:Hi; [|by apply wp_ret].
    destruct (samples !! j) as [other|] eqn:Hj; [|by apply wp_ret].
    destruct (sample_loans_split _ _ _ Hi) as (F & HF & Hins). rewrite HF in Hloans.
    unfold sample_assign. apply wp_bind, wp_bind.
    eapply wp_mono; [|apply sample_cancel_ok; [by eapply Forall_lookup_1 | exact Hloans]].
    intros l' s' (_ & _ & Hs'). apply wp_ret, wp_ret.
    assert (Hj' : <[i := other]> samples !! j = Some other) by (by rewrite list_lookup_insert_ne).
    destruct (sample_loans_split _ _ _ Hj') as (G & HG & Hins'). split.
    + apply Forall_insert; [|done]. apply Forall_insert; [done | by eapply Forall_lookup_1].
    + rewrite Hins'. simpl. rewrite Hins in HG. by rewrite (Permutation_app_inv_l _ _ _ HG) in Hs'.
Qed.
End contract.

(** ** Runs *)

Section runs.
Context {S : Type} `{owner : LoanedSampleOwner S}.

Fixpoint run_samples (ops : list sample_op) (samples : list LoanedSample) : cpp S (list LoanedSample) :=
  match ops with
  | [] => mret samples
  | op :: ops => samples ← sample_step op samples; run_samples ops samples
  end.

(** The end of the scope of the samples: every destructor runs. *)
Definition destroy_samples (samples : list LoanedSample) : cpp S unit :=
  for_each samples (fun l => sample_cancel l;; mret tt).
End runs.

Lemma run_samples_ok {S} {owner : LoanedSampleOwner S} {loans} `{!OwnerContract S owner loans} ops :
  forall samples s, Forall sample_ok samples -> loans (sample_loans samples) s ->
  wp (run_samples ops samples) s (fun samples' s' => Forall sample_ok samples' /\ loans (sample_loans samples') s').
Proof.
  induction ops as [|op ops IH]; intros samples s Hok Hs; [by apply wp_ret|]. cbn [run_samples]. apply wp_bind.
  eapply wp_mono; [|by apply sample_step_ok]. intros samples' s' [Hok' Hs']. by apply IH.
Qed.

Lemma destroy_samples_ok {S} {owner : LoanedSampleOwner S} {loans} `{!OwnerContract S owner loans} samples s :
  Forall sample_ok samples -> loans (sample_loans samples) s ->
  wp (destroy_samples samples) s (fun _ s' => loans [] s').
Proof.
  intros Hok Hs. unfold destroy_samples.
  eapply wp_mono; [|apply (wp_for_each (fun rest s' => Forall sample_ok rest /\ loans (sample_loans rest) s'))].
  - intros u s' [_ Hs']. exact Hs'.
  - intros l rest s' [[Hl Hrest]%Forall_cons_1 Hs']. apply wp_bind.
    eapply wp_mono; [|by apply (sample_cancel_ok l (sample_loans rest))]. intros l' s2 (_ & _ & Hs2). by apply wp_ret.
  - done.
Qed.

(** ** Theorems *)

(** C33: with any owner that honours its contract, whatever an application does with its samples
    (publishing, destroying, moving, assigning, in any order and any number of times), every
    call returns and the loans that are out are those its active samples hold; when the
    samples go out of scope no loan is left. *)
Theorem samples_return_every_loan {S} (owner : LoanedSampleOwner S) loans ops samples s :
  OwnerContract S owner loans -> Forall sample_ok samples -> loans (sample_loans samples) s ->
  exists samples' s', run_samples ops samples s = (Ret samples', s') /\ loans (sample_loans samples') s' /\
    exists s'', destroy_samples samples' s' = (Ret tt, s'') /\ loans [] s''.
Proof.
  intros Hc Hok Hs. pose proof (run_samples_ok ops samples s Hok Hs) as Hrun.
  apply wp_run in Hrun as (samples' & s' & Hrun & Hok' & Hs'). exists samples', s'. split_and!; [done | done |].
  pose proof (destroy_samples_ok samples' s' Hok' Hs') as Hend. apply wp_run in Hend as ([] & s'' & ? & ?). by exists s''.
Qed.

(** C34: the class invariant of a sample, which needs nothing from the owner: the constructors
    establish it and every operation that returns keeps it.  A sample is active exactly while
    it holds its owner; then its error is [Ok] and its pointer is the payload; otherwise
    [data()] is null, [valid()] is false and publishing answers [InvalidState] without a call
    of the owner. *)
Theorem sample_class_invariant {S} (owner : LoanedSampleOwner S) op samples s samples' s' :
  Forall sample_ok samples -> sample_step op samples s = (Ret samples', s') ->
  Forall sample_ok samples' /\
  (forall error size capacity pool_id chunk_index generation offset, sample_ok empty_sample /\ sample_ok (error_sample error) /\
     sample_ok (loaned_sample (Some offset) size capacity pool_id chunk_index generation offset)) /\
  forall l, l ∈ samples' -> sample_valid l = ls_active l /\ (ls_active l = true -> sample_data l = Some (ls_payload_offset l)) /\
    (ls_active l = false -> sample_data l = None /\
       forall s, sample_publish (owner := owner) l s = (Ret (publish_result InvalidState 0 0, l), s)).
Proof.
  intros Hok Hstep. assert (Hok' : Forall sample_ok samples'); [|split_and!; [done | by repeat split |]].
  - assert (Hcancel : forall l s l' s', sample_cancel (owner := owner) l s = (Ret l', s') -> sample_ok l').
    { intros l s0 l' s1. unfold sample_cancel. unfold_cpp. destruct (_ && _).
      - destruct (owner_cancelLoanedSample _ s0) as [[e| |] s2]; by intros [= <- _].
      - by intros [= <- _]. }
    assert (Hmoved : sample_ok moved_sample) by (by split).
    destruct op as [i|i|i|i j]; cbn [sample_step] in Hstep; unfold on_sample in Hstep.
    + destruct (samples !! i) as [l|] eqn:Hi; [|by injection Hstep as <- <-]. unfold sample_publish in Hstep. unfold_cpp.
      pose proof (Forall_lookup_1 _ _ _ _ Hok Hi) as Hl. destruct (negb _); [simplify_eq; by apply Forall_insert|].
      destruct (owner_publishLoanedSample _ _ s) as [[r| |] s1]; simplify_eq. by apply Forall_insert.
    + destruct (samples !! i) as [l|] eqn:Hi; [|by injection Hstep as <- <-]. unfold mbind, cpp_bind in Hstep.
      destruct (sample_cancel l s) as [[l'| |] s1] eqn:Hc; try done. apply Hcancel in Hc.
      injection Hstep as <- <-. by apply Forall_insert.
    + destruct (samples !! i) as [l|] eqn:Hi; [|by injection Hstep as <- <-]. injection Hstep as <- <-.
      pose proof (Forall_lookup_1 _ _ _ _ Hok Hi). apply Forall_app. split; [by apply Forall_insert | by constructor].
    + case_bool_decide; [by injection Hstep as <- <-|]. destruct (samples !! i) as [l|] eqn:Hi; [|by injection Hstep as <- <-].
      destruct (samples !! j) as [other|] eqn:Hj; [|by injection Hstep as <- <-]. unfold sample_assign, mbind, cpp_bind in Hstep.
      destruct (sample_cancel l s) as [[l'| |] s1] eqn:Hc; try done. injection Hstep as <- <-.
      apply Forall_insert; [|done]. apply Forall_insert; [done | by eapply Forall_lookup_1].
  - intros l Hin. rewrite list.Forall_forall in Hok'. specialize (Hok' _ Hin). rewrite valid_active by done. unfold sample_data.
    split_and!; [done | intros Hact; rewrite Hact; by apply so_place |]. intros Hact. split; [by rewrite Hact|].
    intros s0. unfold sample_publish. by rewrite valid_active, Hact.
Qed.

(** ** A concrete owner *)

(** A ledger of the loans that are out. *)
Definition ledger : Type := list (ChunkHandle * Z).
Definition strike (handle : ChunkHandle) (l : list (ChunkHandle * Z)) : list (ChunkHandle * Z) :=
  filter (fun '(h, _) => h <> handle) l.
#[export] Instance ledger_owner : LoanedSampleOwner ledger := {
  owner_publishLoanedSample := fun handle n => modify (strike handle);; mret (publish_result Ok 1 n);
  owner_cancelLoanedSample := fun handle => modify (strike handle);; mret Ok;
}.
Definition ledger_loans (L : ledger) (l : ledger) : Prop := l ≡ₚ L /\ NoDup L.*1.

Lemma strike_ends L handle n l : ledger_loans ((handle, n) :: L) l -> ledger_loans L (strike handle l).
Proof.
  intros [Hp Hnd]. simpl in Hnd. apply list.NoDup_cons in Hnd as [Hnot Hnd]. split; [|done]. unfold strike. rewrite Hp.
  rewrite filter_cons_False by naive_solver. rewrite (filter_keep_all _ L); [done|]. apply list.Forall_forall.
  intros [h m] Hin ->. apply Hnot. apply list_elem_of_fmap. by exists (handle, m).
Qed.

#[export] Instance ledger_contract : OwnerContract ledger ledger_owner ledger_loans.
Proof.
  split.
  - intros L L' HL l _ <-. unfold ledger_loans. by rewrite HL.
  - intros L handle n l Hl. by apply strike_ends in Hl.
  - intros L handle n l Hl. split; [done|]. by apply strike_ends in Hl.
Qed.

Definition example_sample : LoanedSample := loaned_sample (Some 320) 3 64 7 0 1 320.

Lemma samples_return_every_loan_witness : exists samples s',
  run_samples [SampleMove 0; SamplePublish 0; SampleAssign 0 1] [example_sample]
    [(sample_handle example_sample, 3)] = (Ret samples, s') /\
  exists s'', destroy_samples samples s' = (Ret tt, s'') /\ s'' ≡ₚ [].
Proof.
  destruct (samples_return_every_loan ledger_owner ledger_loans [SampleMove 0; SamplePublish 0; SampleAssign 0 1] [example_sample]
    [(sample_handle example_sample, 3)] ledger_contract) as (samples & s' & Hrun & _ & s'' & Hend & Hs).
  - constructor; [by split | constructor].
  - split; [done | apply NoDup_singleton].
  - exists samples, s'. split; [exact Hrun|]. exists s''. split; [exact Hend | apply Hs].
Defined.

Lemma sample_class_invariant_witness : sample_valid example_sample = ls_active example_sample.
Proof.
  apply (sample_class_invariant ledger_owner (SampleMove 0) [example_sample] [] [moved_sample; example_sample] []).
  - constructor; [by split | constructor].
  - reflexivity.
  - apply list_elem_of_further, list_elem_of_here.
Defined.
