(* ===== verification/PublisherLoans.v ===== *)
(** * A publisher and the samples it lends

    [Publisher::loan], the publisher as the owner of loaned samples, and whole runs of an
    application: publications, loans, writes into them, operations on the samples and the steps
    of other processes, in any order. *)

From Stdlib Require Import ZArith Lia Bool String.
From stdpp Require Import base gmap list strings option.
From S2P Require Import Prelude Types Outcome BigEndian FrameProtocol QueueProtocol PoolLayout MemoryPool PoolSpec PoolReferences SocketIo SubscriberQueue QueueTheorems PublisherState Publisher PublisherInvariant PublisherMethods PublisherCalls PublisherUds LoanedSample.

Local Open Scope Z_scope.

(** ** [Publisher::loan] *)

Definition loan (has_impl : bool) (env : call_env) (size : Z) : cpp PubState LoanedSample :=
  if negb has_impl then mret (error_sample InvalidState) else
  loan ← allocateLoan env size;
  let allocation := la_allocation loan in
  if negb (is_ok (ar_error allocation)) then mret (error_sample (ar_error allocation)) else
  let handle := ar_handle allocation in
  mret (loaned_sample (la_payload loan) size (ar_capacity allocation) (ch_pool_id handle) (ch_chunk_index handle)
          (ch_generation handle) (ch_payload_offset handle)).

(** [Publisher::Impl] is a [detail::LoanedSampleOwner]; [env] are the answers it gets during the
    call. *)
#[export] Instance publisher_owner (env : call_env) : LoanedSampleOwner PubState := {
  owner_publishLoanedSample := publishLoanedSample env;
  owner_cancelLoanedSample := cancelLoanedSample;
}.

(** ** Runs of an application *)

Inductive app_op :=
  | AppPublish (env : call_env) (data : option (list Z)) (size : Z)
  | AppLoan (env : call_env) (size : Z)
  | AppWrite (i : nat) (data : list Z)
  | AppSample (env : call_env) (op : sample_op)
  | AppOthers (others : World -> World).

(** [memcpy(sample.data(), data, n)] by an application that looks at [valid()] and [size()]. *)
Definition write_sample (l : LoanedSample) (data : list Z) : cpp PubState unit :=
  if sample_valid l && (Z.of_nat (length data) <=? ls_size l) then
    payload ← or_undef (sample_data l); on_pool (copy_in payload data)
  else mret tt.

Definition app_step (op : app_op) (samples : list LoanedSample) : cpp PubState (list LoanedSample) :=
  match op with
  | AppPublish env data size => publish true env data size;; mret samples
  | AppLoan env size => l ← loan true env size; mret (samples ++ [l])
  | AppWrite i data =>
      match samples !! i with Some l => write_sample l data | None => mret tt end;; mret samples
  | AppSample env op => sample_step (owner := publisher_owner env) op samples
  | AppOthers others => set_world others;; mret samples
  end.

Fixpoint run_app (ops : list app_op) (samples : list LoanedSample) : cpp PubState (list LoanedSample) :=
  match ops with
  | [] => mret samples
  | op :: ops => samples ← app_step op samples; run_app ops samples
  end.

(** The calls have the types of the interface, the surroundings answer. *)
Definition app_op_ok (op : app_op) : Prop :=
  match op with
  | AppPublish env data size => env_answers env /\ 0 <= size /\ (data = None \/ buffer_ok data size)
  | AppLoan env size => env_answers env /\ 0 <= size
  | AppWrite _ _ => True
  | AppSample env _ => env_answers env
  | AppOthers others => others_ok others
  end.

(** ** The contract *)

Lemma publisher_ok_perm L L' s : L ≡ₚ L' -> publisher_ok L s -> publisher_ok L' s.
Proof.
  intros HL [[[Hpool Hw] Hok] Hdis Htr Hseq]. split; auto. split; [|done]. split; [|done].
  destruct (im_pool (ps_impl s)); [by rewrite <- HL|]. destruct Hpool as [? ->]. split; [done|].
  by apply Permutation_nil.
Qed.

Lemma loans_pool L s loan : publisher_ok (loan :: L) s -> exists p, im_pool (ps_impl s) = Some p.
Proof. intros Hok. destruct (im_pool (ps_impl s)) eqn:Hp; [eauto|]. by apply publisher_loans in Hok. Qed.

Lemma cancelLoanedSample_ok L handle n s : publisher_ok ((handle, n) :: L) s ->
  wp (cancelLoanedSample handle) s (fun e s' => e = Ok /\ leaves L L s s' /\ connections_of s' = connections_of s).
Proof.
  intros Hok. destruct (loans_pool _ _ _ Hok) as [p Hp]. unfold cancelLoanedSample. apply wp_bind, wp_impl.
  rewrite Hp. apply (cancel_ok L s p handle n); [done | apply Hok |]. intros s' Hcomp Hc Hs _. split_and!; [done | | done].
  eapply completes_leaves; [exact Hok | done |]. rewrite Hs. apply Hok.
Qed.

Lemma publish_loan_ok L env handle n s : env_answers env -> publisher_ok ((handle, n) :: L) s ->
  wp (publishLoanedSample env handle n) s (fun r s' => leaves L L s s' /\
    published env n (im_sequence (ps_impl s) + 1)
      (fun bytes => readable s handle (n, 0, 0, bytes)) s s' r).
Proof.
  intros Henv Hok. destruct (loans_pool _ _ _ Hok) as [p Hp]. pose proof (po_transport _ _ Hok) as Htr.
  unfold transport_ok in Htr. rewrite Hp in Htr. pose proof (po_sequence _ _ Hok) as Hseq.
  eapply wp_mono; [|by apply (publishLoanedSample_ok L env handle n s p); auto; apply Hok].
  intros r s' (Hcomp & Hs' & Hpub). split; [by eapply completes_leaves|].
  destruct Hpub as [| s1 h bytes Hprep]; [by apply publish_refused|].
  eapply (publish_dispatched _ _ _ _ _ _ _ s1 h bytes); auto. by exists p.
Qed.

Lemma publisher_contract env : env_answers env -> OwnerContract PubState (publisher_owner env) publisher_ok.
Proof.
  intros Henv. split.
  - intros L L' HL s _ <-. split; apply publisher_ok_perm; solve [done | by symmetry].
  - intros L handle n s Hok. eapply wp_mono; [|by apply (publish_loan_ok L)]. by intros r s' [[] _].
  - intros L handle n s Hok. eapply wp_mono; [|by apply (cancelLoanedSample_ok L handle n)]. intros e s' (-> & [Hok' _] & _). done.
Qed.

(** ** One step *)

Lemma loan_ok L env size s : env_answers env -> publisher_ok L s -> 0 <= size ->
  wp (loan true env size) s (fun l s' => sample_ok l /\ leaves L (sample_loan l ++ L) s s' /\
    (ls_active l = true -> ls_size l = size /\ size <= ls_capacity l) /\
    im_sequence (ps_impl s') = im_sequence (ps_impl s)).
Proof.
  intros Henv Hok Hsize. unfold loan. cbn [negb]. apply wp_bind.
  eapply wp_mono; [|apply (allocateLoan_ok L); auto; apply Hok]. intros a s' (Hcomp & Hlent & Hs & _).
  unfold loans_after in Hcomp. destruct (is_ok (ar_error (la_allocation a))) eqn:Hok'; cbn [negb]; apply wp_ret.
  - destruct Hlent as [He Hpay Hcap _ | He _ _]; [|by rewrite He in Hok' || (destruct (ar_error (la_allocation a)))].
    split_and!; [by split | | done | done]. eapply completes_leaves; [exact Hok | | rewrite Hs; apply Hok].
    cbn [sample_loan ls_active loaned_sample app]. by destruct (ar_handle (la_allocation a)).
  - split_and!; [by split | | done | done]. eapply completes_leaves; [exact Hok | done | rewrite Hs; apply Hok].
Qed.

Lemma write_sample_ok L l data s : sample_ok l -> publisher_ok (sample_loan l ++ L) s ->
  wp (write_sample l data) s (fun _ s' => publisher_ok (sample_loan l ++ L) s' /\ same_but_contents s s' /\ same_publisher s s' /\
    (ls_active l = true -> Z.of_nat (length data) <= ls_size l -> exists old, Z.of_nat (length old) = ls_size l /\
       readable s (sample_handle l) (ls_size l, 0, 0, old) /\
       readable s' (sample_handle l) (ls_size l, 0, 0, put_at 0 data old))).
Proof.
  intros Hl Hok. unfold write_sample. rewrite valid_active by done. unfold sample_loan, sample_data in *.
  assert (Hsame : same_publisher s s) by (split; [done .. | by intros client]).
  destruct (ls_active l) eqn:Hact; cbn [andb]; [|by apply wp_ret].
  destruct (_ <=? ls_size l) eqn:Hlen; bools; [|apply wp_ret; split_and!; [done | done | done | lia]].
  rewrite (so_place _ Hl Hact). apply wp_bind, wp_ret. destruct (loans_pool _ _ _ Hok) as [p Hp].
  destruct (accounts_write p (held (connections_of s) ++ []) L (sample_handle l) (ls_size l) data) as
    (p' & old & Hrun & Hac & [Hdesc _] & _ & Hlo & Hm & Hm'); [by eapply inv_pool, Hok | done |].
  eapply wp_on_pool; [exact Hp|]. apply wp_run. exists tt, p'. split; [exact Hrun|]. fold (with_pool s p').
  split_and!; [|split; [done|simpl; by rewrite Hp, Hdesc]|by destruct Hsame|].
  - destruct Hok as [Hinv Hdis Htr Hseq]. split; [by eapply with_pool_inv | done | | done].
    unfold transport_ok in *. by rewrite Hp in Htr.
  - intros _ _. exists old. split_and!; [done | by exists p | by exists p'].
Qed.

(** What is written into an active sample is what is published. *)
Lemma write_publish_ok L env l data s : env_answers env -> sample_ok l -> ls_active l = true -> publisher_ok (sample_loan l ++ L) s ->
  Z.of_nat (length data) = ls_size l ->
  wp (write_sample l data;; sample_publish (owner := publisher_owner env) l) s (fun '(r, l') s' =>
    publisher_ok L s' /\ sample_loan l' = [] /\ sample_data l' = None /\ same_publisher s s' /\
    published env (ls_size l) (im_sequence (ps_impl s) + 1) (fun bytes => bytes = data) s s' r).
Proof.
  intros Henv Hl Hact Hok Hlen. apply wp_bind. eapply wp_mono; [|by apply (write_sample_ok L)]. intros u s1 (Hok1 & Hbut & Hsame & Hold).
  destruct (same_but_contents_connections _ _ Hbut) as (_ & Hs & _).
  destruct (Hold Hact ltac:(lia)) as (old & Holen & _ & Hread).
  assert (Hput : put_at 0 data old = data).
  { unfold put_at, write_at. rewrite decide_True by lia. simpl. rewrite drop_ge, app_nil_r by lia. done. }
  rewrite Hput in Hread. unfold sample_publish. rewrite valid_active, Hact by done. cbn [negb].
  unfold sample_loan in Hok1. rewrite Hact in Hok1. apply wp_bind.
  eapply wp_mono; [|by apply (publish_loan_ok L)]. intros r s' [(Hok' & Hsame' & _) Hpub]. apply wp_ret.
  split_and!; [done | done | done | by eapply same_publisher_trans |].
  rewrite Hs in Hpub. eapply published_mono; [exact Hbut | | exact Hpub]. intros bytes (p & Hp & Hm).
  destruct Hread as (p' & Hp' & Hm'). by simplify_eq.
Qed.

Definition app_ok (samples : list LoanedSample) (s : PubState) : Prop :=
  Forall sample_ok samples /\ publisher_ok (sample_loans samples) s.

Lemma app_step_ok op samples s : app_op_ok op -> app_ok samples s -> wp (app_step op samples) s app_ok.
Proof.
  intros Hop [Hsamples Hok]. destruct op as [env data size|env size|i data|env op|others]; cbn [app_step app_op_ok] in *.
  - destruct Hop as (Henv & Hsize & Hb). apply wp_bind. eapply wp_mono; [|by apply (publish_ok (sample_loans samples))].
    intros r s' [[Hok' _] _]. by apply wp_ret.
  - destruct Hop as [Henv Hsize]. apply wp_bind. eapply wp_mono; [|by apply (loan_ok (sample_loans samples))].
    intros l s' (Hl & [Hok' _] & _). apply wp_ret. split; [apply Forall_app; split; [done | by constructor]|].
    eapply publisher_ok_perm, Hok'. unfold sample_loans. rewrite flat_map_app. simpl. rewrite app_nil_r.
    apply Permutation_app_comm.
  - apply wp_bind. destruct (samples !! i) as [l|] eqn:Hi; [|by apply wp_ret, wp_ret].
    destruct (sample_loans_split _ _ _ Hi) as (F & HF & _).
    eapply wp_mono; [|apply (write_sample_ok F); [by eapply Forall_lookup_1 | by eapply publisher_ok_perm]].
    intros u s' [Hok' _]. apply wp_ret. split; [done|]. by eapply publisher_ok_perm.
  - pose proof (publisher_contract env Hop). by apply sample_step_ok.
  - apply wp_bind. unfold set_world, modify, wp at 1. apply wp_ret. split; [done|].
    destruct Hok as [Hinv Hdis Htr Hseq]. destruct (others_advance _ _ _ _ Hop Hinv) as [Hinv' _]. by split.
Qed.

Lemma run_app_ok ops : forall samples s, Forall app_op_ok ops -> app_ok samples s -> wp (run_app ops samples) s app_ok.
Proof.
  induction ops as [|op ops IH]; intros samples s Hops Hok; [by apply wp_ret|].
  apply Forall_cons_1 in Hops as [Hop Hops]. cbn [run_app]. apply wp_bind.
  eapply wp_mono; [|by apply app_step_ok]. intros samples' s' Hok'. by apply IH.
Qed.
