(* ===== verification/PublisherTheorems.v ===== *)
(** * Theorems about the publisher

    Whole runs of an application keep every chunk accounted for; what a publication, a loan, a
    release message, a discovery, a dead subscriber and a failed construction do. *)

From Stdlib Require Import ZArith Lia Bool String.
From stdpp Require Import base gmap list strings option.
From S2P Require Import Prelude Types Outcome BigEndian FrameProtocol QueueProtocol PoolProtocol PoolLayout MemoryPool PoolSpec PoolReferences PoolCreation PoolTheorems SocketIo SubscriberQueue QueueTheorems PublisherState Publisher PublisherInvariant PublisherReleases PublisherMethods PublisherCalls PublisherUds PublisherLifecycle LoanedSample PublisherLoans.

Local Open Scope Z_scope.

(** ** Theorems *)

(** C4: whatever an application does with a publisher and the samples it was lent, in any order,
    every call returns, every sample keeps its class invariant, and the chunks of the pool stay
    accounted for: the reference count of a published chunk is the number of outstanding
    entries for it, the loaned chunks are those of the active samples, and when there is
    neither an outstanding reference nor an active sample every chunk is free. *)
Theorem application_keeps_accounts ops s :
  publisher_ok [] s -> Forall app_op_ok ops ->
  exists samples s', run_app ops [] s = (Ret samples, s') /\ Forall sample_ok samples /\
    publisher_ok (sample_loans samples) s' /\
    forall p, im_pool (ps_impl s') = Some p ->
      accounts p (held (connections_of s')) (sample_loans samples) /\
      (held (connections_of s') = [] -> sample_loans samples = [] -> Forall (fun c => sp_status c = SFree) (abs p)).
Proof.
  intros Hok Hops. pose proof (run_app_ok ops [] s Hops) as Hrun. apply wp_run in Hrun as (samples & s' & Hrun & Hs & Hok');
    [|by split]. exists samples, s'. split_and!; [done | done | done |]. intros p Hp.
  pose proof (inv_pool _ _ _ _ Hp (po_inv _ _ Hok')) as Hac. rewrite app_nil_r in Hac. split; [done|].
  intros Hh Hl. rewrite Hh, Hl in Hac. by apply accounts_all_free.
Qed.

(** C5: what a publication does.  It returns, ends with the publisher's invariant and leaves what
    subscribers can still read untouched, and one of five things has happened.  An invalid
    argument, an oversized message or a used-up sequence changes nothing at all.  Any other call
    first receives the releases that have arrived and looks for subscribers ([prepare]), which keeps
    the sequence, sends nothing on any socket and may only give references back; when this fails, the
    negotiated limit is exceeded or no chunk is free, the call is refused with that error and
    nothing else has changed but the pool's free chunks.  Over shared memory the result counts
    exactly the connections that took the handle: they are still connected, the handle is the
    newest entry of their queues and, unless it was there before, outstanding; nobody else holds
    it, and its holders read the published bytes.  Over Unix sockets it counts exactly the
    connections that are left, each of which was sent exactly the frame, and foreign sockets were
    sent nothing.  It is [Ok] exactly when somebody took the message.  The claims about a queue or a
    socket are for a connection that shares it with no other ([sole]); that a [send] returns is
    part of the model of the kernel. *)
Theorem publication_outcome L env data size s :
  env_answers env -> publisher_ok L s -> 0 <= size -> data = None \/ buffer_ok data size ->
  exists r s', publish true env data size s = (Ret r, s') /\ leaves L L s s' /\ publish_outcome env data size s s' r /\
    (forall found s1, prepare env s = (Ret found, s1) -> undisturbed s s1).
Proof. intros Henv Hok Hs Hb. apply wp_run. by apply publish_ok. Qed.

(** C27: zero copy.  What the application writes into an active sample and publishes is what the
    holders of the chunk read, with the size of the sample and the next sequence; the sample is
    spent and its loan over, whether or not a subscriber took it. *)
Theorem loaned_bytes_are_delivered L env l data s :
  env_answers env -> sample_ok l -> ls_active l = true -> publisher_ok (sample_loan l ++ L) s ->
  Z.of_nat (length data) = ls_size l ->
  exists r l' s', (write_sample l data;; sample_publish (owner := publisher_owner env) l) s = (Ret (r, l'), s') /\
    publisher_ok L s' /\ sample_loan l' = [] /\ sample_data l' = None /\
    published env (ls_size l) (im_sequence (ps_impl s) + 1) (fun bytes => bytes = data) s s' r.
Proof.
  intros Henv Hl Hact Hok Hlen. pose proof (write_publish_ok L env l data s Henv Hl Hact Hok Hlen) as Hwp.
  apply wp_run in Hwp as ([r l'] & s' & Hrun & ? & ? & ? & _ & ?). by exists r, l', s'.
Qed.

(** Over Unix sockets a publication keeps exactly the connections that took the whole
    frame, header and payload, counts them, and advances the sequence only if there is one. *)
Theorem uds_publication_delivers env data size sequence s :
  im_pool (ps_impl s) = None -> pub_inv [] [] s -> distinct s -> 0 <= size <= u32_max -> buffer_ok data size ->
  exists r s', publishUds env data size sequence s = (Ret r, s') /\ pub_inv [] [] s' /\
    uds_result (encodeFrameHeader (mkFrameHeader kFrameMagic size sequence (ce_timestamp_ns env)) ++
                take (Z.to_nat size) (default [] data)) size sequence s s' r.
Proof.
  intros Hp Hinv Hdis Hs Hb. pose proof (publishUds_ok env data size sequence s Hp Hinv Hdis Hs Hb) as Hwp.
  apply wp_run in Hwp as (r & s' & Hrun & Hcomp & _ & Hur). exists r, s'. split_and!; [done | apply Hcomp | done].
Qed.

(** A refresh with the answer of the registry that matches the publisher leaves one
    connection per endpoint, only to endpoints the registry lists, to every one of them that
    is not recorded as failed, gives back the references of the others, and negotiates the
    smallest message size; an answer for another transport, topic or pool changes nothing. *)
Theorem discovery_agrees_with_registry L env discovery s :
  pub_inv [] L s -> Forall (fun subscriber => 0 <= qd_capacity (rs_queue subscriber)) (rd_subscribers discovery) ->
  exists e s', apply_discovery env discovery s = (Ret e, s') /\ pub_inv [] L s' /\ refreshed discovery s s' e /\
    (forall handle, handle ∈ held (connections_of s') -> handle ∈ held (connections_of s)).
Proof.
  intros Hinv Hcap. pose proof (apply_discovery_ok [] L env discovery s Hinv Hcap) as Hwp.
  apply wp_run in Hwp as (e & s' & Hrun & Hadv & Href). exists e, s'. split_and!; [done | apply Hadv | done |].
  pose proof (advances_held _ _ _ _ Hadv) as Hsub. by rewrite !app_nil_r in Hsub.
Qed.

(** A release message is received however it is fragmented and interrupted, also when its
    first bytes arrived in an earlier call: the call makes progress, takes exactly the message
    off the stream, and gives back one of the connection's references to the handle. *)
Theorem release_message_gives_back O L c handle rest s :
  core (dc_outstanding c ++ O) L s -> receiving c -> ChunkHandle_typed handle -> ch_pool_id handle <> 0 ->
  ch_generation handle <> 0 -> flowing (ps_world s) (dc_socket c) ->
  received_so_far c ++ stream_of (ps_world s) (dc_socket c) = encodeQueueRelease handle ++ rest ->
  exists c' s', receiveOneRelease c s = (Ret (c', ReleaseProgress), s') /\ core (dc_outstanding c' ++ O) L s' /\
    stream_of (ps_world s') (dc_socket c) = rest /\ dc_release_bytes c' = 0 /\
    (handle ∈ dc_outstanding c -> dc_outstanding c ≡ₚ handle :: dc_outstanding c') /\
    (~ (handle ∈ dc_outstanding c) -> dc_outstanding c' = dc_outstanding c).
Proof.
  intros Hcore Hrec Hty Hp Hg Hflow Hsplit.
  pose proof (release_received O L c handle rest s Hcore Hrec Hty Hp Hg Hflow Hsplit) as Hwp.
  apply wp_run in Hwp as ([c' status] & s' & Hrun & -> & Htr & Hout & Hb & Hstr & _). exists c', s'.
  pose proof (find_and_erase_spec handle (dc_outstanding c)) as Hspec.
  split_and!; [done | apply (tr_core _ _ _ _ _ Htr) | done | done | |];
    rewrite Hout; destruct (find_and_erase handle (dc_outstanding c)); simpl; try done.
  intros Hnot. destruct Hnot. rewrite Hspec. set_solver.
Qed.

(** When the registry reports a subscriber dead, the publisher drops exactly its
    connections, gives back every reference they held, and keeps those of all others and what
    they read; the endpoint is not tried again until the registry stops listing it. *)
Theorem dead_subscriber_is_dropped L env id s : pub_inv [] L s ->
  exists s', removeEndpoint env id s = (Ret tt, s') /\ pub_inv [] L s' /\
    connections_of s' = filter (fun c => dc_endpoint_id c <> id) (connections_of s) /\
    pool_keeps s s' (handles (held (connections_of s')) L) /\ id ∈ im_failed_endpoint_ids (ps_impl s').
Proof.
  intros Hinv. pose proof (removeEndpoint_ok [] L env id s Hinv) as Hwp.
  apply wp_run in Hwp as ([] & s' & Hrun & [Hinv' Htr] & Hc). exists s'. split_and!; [done | done | | |].
  - rewrite Hc. apply list_filter_iff. intros c. by rewrite Z.eqb_neq.
  - pose proof (tr_keeps _ _ _ _ _ Htr) as Hk. by rewrite app_nil_r in Hk.
  - unfold removeEndpoint in Hrun. unfold mbind, cpp_bind in Hrun.
    destruct (for_connections _ _ s) as [[u| |] s1]; try done. unfold set_impl, modify in Hrun. simplify_eq. simpl. set_solver.
Qed.

(** A registered publisher that is created satisfies its invariant with the pool it
    advertised, every chunk free; when the pool cannot be created the endpoint is unadvertised
    again, and nothing else is left behind. *)
Theorem failed_creation_unadvertises pid counter advertise os topic config w :
  config_typed (pc_memory_pool config) -> (forall d, advertise d <> Undef) -> world_ok w ->
  created advertise config w (create_registered pid counter advertise os topic config w).2
    (create_registered pid counter advertise os topic config w).1.
Proof.
  intros Hty Hadv Hw. pose proof (create_registered_ok pid counter advertise os topic config w Hty Hadv Hw) as H.
  by destruct (create_registered pid counter advertise os topic config w).
Qed.

(** ** Limits and identifiers *)

(** The number of chunks of a configuration, computed without overflow. *)
Definition chunk_total (config : MemoryPoolConfig) : Z :=
  foldr (fun c total => chunk_count c + total) 0 (cfg_size_classes config).

Lemma outstanding_loop_spec classes total : Forall (fun c => 0 <= chunk_count c) classes -> 0 <= total <= size_max ->
  outstanding_loop classes total = Z.min size_max (total + foldr (fun c t => chunk_count c + t) 0 classes).
Proof.
  revert total. induction classes as [|c classes IH]; intros total Hpos Ht; simpl; [lia|].
  apply Forall_cons_1 in Hpos as [Hc Hpos].
  assert (0 <= foldr (fun c t => chunk_count c + t) 0 classes).
  { clear -Hpos. induction Hpos; simpl; lia. }
  destruct (_ <? chunk_count c) eqn:Hover; bools; [lia|]. rewrite IH; [lia | done | lia].
Qed.

(** The limit on the references of one connection is the number of chunks of the pool,
    saturated at the largest [size_t] instead of wrapping. *)
Theorem outstanding_limit_saturates config :
  Forall (fun c => 0 <= chunk_count c) (cfg_size_classes config) ->
  outstandingLimit config = Z.min size_max (chunk_total config).
Proof. intros Hpos. unfold outstandingLimit. rewrite outstanding_loop_spec; [done | done | unfold size_max; lia]. Qed.

(** ** A concrete publisher *)

(** One subscriber, with the queue of [QueueTheorems] and an open socket. *)
Definition example_publisher_config : PublisherConfig :=
  mkPublisherConfig "" 128 "Pose" "v1" SharedMemory 1000 example_config.
Definition example_subscriber : RegistrySubscriber := mkRegistrySubscriber 11 "/tmp/sub.sock" 128 example_queue_descriptor.
Definition example_connection : DataConnection :=
  empty_connection <| dc_endpoint_id := 11 |> <| dc_socket := 7 |> <| dc_max_message_size := 128 |>
    <| dc_queue := Some (mkQueueClient example_queue_descriptor false true) |>.
Definition example_world : World := mkWorld ∅ {[ "/mw-q-5"%string := example_queue ]} [].
Definition example_publisher : PubState :=
  mkPubState (mkImpl "pose" example_publisher_config [example_connection] true (Some example_pool) 3 5 128 0 ∅ 0 true)
    example_world.
Definition example_env : call_env :=
  mkCallEnv 0 0 99 (Ret []) (Ret (mkRegistryDiscovery 3 SharedMemory example_descriptor [example_subscriber]))
    (fun _ => mkConnectAnswer (inl 7) None) (fun _ => true) (fun _ => (None, LockAcquired)) (fun _ => LockAcquired)
    (fun _ => quiet_env) (fun _ => LockAcquired) [].

Lemma example_env_answers : env_answers example_env.
Proof.
  split; [done | | | constructor].
  - split; [apply Forall_singleton; vm_compute; discriminate | reflexivity].
  - intros id. split; [intros deadline; constructor | done].
Qed.

Lemma example_world_ok : world_ok example_world.
Proof.
  apply map_Forall_singleton. apply ring_safe_unsigned, (qw_safe _ example_queue_wf).
Qed.

Lemma example_queue_ready : queue_ready example_world (mkQueueClient example_queue_descriptor false true).
Proof. exists example_queue. split; [reflexivity | apply (qw_safe _ example_queue_wf)]. Qed.

Lemma example_pool_accounts : accounts example_pool [] [].
Proof.
  pose proof (create_pool_spec None 42 example_descriptor example_config example_config_typed) as H.
  rewrite example_created in H. destruct H as (Hwf & _ & Hfree & _). by apply fresh_pool_accounts.
Qed.

Lemma example_publisher_ok : publisher_ok [] example_publisher.
Proof.
  split; [|split; simpl; [apply NoDup_singleton | lia] | reflexivity | simpl; unfold u64_max; lia]. split.
  - split; [exact example_pool_accounts | exact example_world_ok].
  - constructor; [|constructor]. split; simpl; [unfold kQueueReleaseSize; lia | reflexivity |].
    intros client [= <-]. exact example_queue_ready.
Qed.

(** A run: a loan is written and published, another one is dropped, a message is copied. *)
Definition example_run : list app_op :=
  [AppLoan example_env 3; AppWrite 0 [1; 2; 3]; AppSample example_env (SamplePublish 0);
   AppPublish example_env (Some [4; 5]) 2; AppLoan example_env 100; AppSample example_env (SampleDestroy 1)].

Lemma example_run_ok : Forall app_op_ok example_run.
Proof.
  pose proof example_env_answers. unfold example_run. rewrite !list.Forall_cons. cbn [app_op_ok buffer_ok length].
  split_and!; auto; lia.
Qed.


(** What a run that returned shows. *)
Definition observe {S A B} (f : A -> S -> B) (r : outcome A * S) : option B :=
  match r with (Ret a, s) => Some (f a s) | _ => None end.

Lemma application_keeps_accounts_witness : exists samples s',
  run_app example_run [] example_publisher = (Ret samples, s') /\
  held (connections_of s') = [mkChunkHandle 7 0 1 320; mkChunkHandle 7 1 1 448] /\ sample_loans samples = [].
Proof.
  destruct (application_keeps_accounts example_run example_publisher example_publisher_ok example_run_ok)
    as (samples & s' & Hrun & _). exists samples, s'. split; [exact Hrun|].
  assert (Hobs : observe (fun samples s' => (held (connections_of s'), sample_loans samples))
    (run_app example_run [] example_publisher) = Some ([mkChunkHandle 7 0 1 320; mkChunkHandle 7 1 1 448], []))
    by (vm_compute; reflexivity).
  rewrite Hrun in Hobs. injection Hobs as Hheld Hloans. split; assumption.
Defined.

(** The handle that the publication queues, which the theorem says the only subscriber has. *)
Lemma publication_outcome_witness : exists r s',
  publish true example_env (Some [4; 5]) 2 example_publisher = (Ret r, s') /\ pr_error r = Ok /\ pr_enqueued r = 1 /\
  publisher_ok [] s' /\
  exists handle c, c ∈ connections_of s' /\ queued handle (ps_world s') c /\
    (handle ∈ held (connections_of s') -> readable s' handle (2, 1, 99, [4; 5])).
Proof.
  destruct (publication_outcome [] example_env (Some [4; 5]) 2 example_publisher example_env_answers example_publisher_ok)
    as (r & s' & Hrun & [Hok _] & Hout & _); [lia | right; simpl; lia |]. exists r, s'. split; [exact Hrun|].
  assert (Hobs : observe (fun r s' => (pr_error r, pr_enqueued r, endpoint_ids (connections_of s')))
    (publish true example_env (Some [4; 5]) 2 example_publisher) = Some (Ok, 1, [11])) by (vm_compute; reflexivity).
  rewrite Hrun in Hobs. injection Hobs as He Hn Hids. split; [exact He | split; [exact Hn | split; [exact Hok|]]].
  assert (Hsole : forall s1, prepare example_env example_publisher = (Ret Ok, s1) -> forall c, c ∈ connections_of s' ->
    sole queue_name (connections_of s1) c).
  { intros s1 Hprep c Hc c' Hc' _.
    assert (Hone : observe (fun _ s1 => endpoint_ids (connections_of s1)) (prepare example_env example_publisher) = Some [11])
      by (vm_compute; reflexivity).
    rewrite Hprep in Hone. injection Hone as Hone. pose proof (list_elem_of_fmap_2 dc_endpoint_id _ _ Hc) as H1. pose proof (list_elem_of_fmap_2 dc_endpoint_id _ _ Hc') as H2.
    change (dc_endpoint_id c ∈ endpoint_ids (connections_of s')) in H1. change (dc_endpoint_id c' ∈ endpoint_ids (connections_of s1)) in H2.
    rewrite Hids in H1. rewrite Hone in H2. apply list_elem_of_singleton in H1, H2. congruence. }
  destruct Hout as [error _ -> _ | found s1 error _ _ -> _ | s1 _ _ (a & _ & Ha & ->) | s1 Hprep _ _ (handle & _ & Hd & Hread) | s1 _ Htr _ _].
  - simpl in Hn. lia.
  - simpl in Hn. lia.
  - simpl in Hn. lia.
  - destruct (dr_took _ _ _ _ _ _ Hd) as (took & Hsub & Hcount & _ & Hq). destruct took as [|c took]; [simpl in Hcount; lia|].
    assert (Hc : c ∈ connections_of s') by (eapply elem_of_submseteq; [left|by apply sublist_submseteq]).
    exists handle, c. split; [exact Hc|]. split; [apply Hq; [left|by apply Hsole]|exact Hread].
  - discriminate.
Defined.

(** The publisher after a loan of three bytes. *)
Definition example_lender : PubState := (loan true example_env 3 example_publisher).2.
Definition example_loan : LoanedSample := loaned_sample (Some 320) 3 64 7 0 1 320.

Lemma example_lender_ok : publisher_ok (sample_loan example_loan ++ []) example_lender.
Proof.
  pose proof (loan_ok [] example_env 3 example_publisher example_env_answers example_publisher_ok ltac:(lia)) as Hwp.
  destruct (proj1 (wp_run _ _ _) Hwp) as (l & s' & Hrun & _ & [Hok _] & _).
  assert (Hobs : observe (fun l _ => l) (loan true example_env 3 example_publisher) = Some example_loan)
    by (vm_compute; reflexivity).
  rewrite Hrun in Hobs. injection Hobs as <-.
  assert (Heq : example_lender = s') by exact (f_equal snd Hrun). rewrite Heq. exact Hok.
Qed.

Lemma loaned_bytes_are_delivered_witness : exists r l' s',
  (write_sample example_loan [1; 2; 3];; sample_publish (owner := publisher_owner example_env) example_loan)
    example_lender = (Ret (r, l'), s') /\ pr_error r = Ok /\ sample_data l' = None.
Proof.
  destruct (loaned_bytes_are_delivered [] example_env example_loan [1; 2; 3] example_lender example_env_answers)
    as (r & l' & s' & Hrun & _ & _ & Hd & _); [split; done | reflexivity | exact example_lender_ok | reflexivity |].
  exists r, l', s'. split; [exact Hrun|].
  assert (Hobs : observe (fun '(r, _) _ => pr_error r)
    ((write_sample example_loan [1; 2; 3];; sample_publish (owner := publisher_owner example_env) example_loan)
    example_lender) = Some Ok) by (vm_compute; reflexivity).
  rewrite Hrun in Hobs. injection Hobs as He. split; [exact He | exact Hd].
Defined.

(** The publisher after that publication, when the subscriber sends the chunk back in two
    fragments with an interrupt between them. *)
Definition example_release : list Z := encodeQueueRelease example_handle.
Definition example_sending : socket :=
  mkSocket [InData (take 10 example_release); InError EINTR; InData (drop 10 example_release)] [] [].
Definition example_holding : DataConnection := example_connection <| dc_outstanding := [example_handle] |>.
Definition example_after : PubState := (publish true example_env (Some [4; 5]) 2 example_publisher).2.
Definition example_releasing : PubState :=
  example_after <| ps_world := ps_world example_after <| wd_sockets := {[ 7 := example_sending ]} |> |>.

Lemma example_after_ok : publisher_ok [] example_after.
Proof.
  assert (Hb : buffer_ok (Some [4; 5]) 2) by (simpl; lia).
  pose proof (publish_ok [] example_env (Some [4; 5]) 2 example_publisher example_env_answers example_publisher_ok
    ltac:(lia) (or_intror Hb)) as Hwp.
  destruct (proj1 (wp_run _ _ _) Hwp) as (r & s' & Hrun & [Hok _] & _).
  assert (Heq : example_after = s') by exact (f_equal snd Hrun). rewrite Heq. exact Hok.
Qed.

Lemma example_after_connections : connections_of example_after = [example_holding].
Proof. vm_compute. reflexivity. Qed.

Lemma example_releasing_core : core (dc_outstanding example_holding ++ []) [] example_releasing.
Proof.
  destruct (pi_core _ _ _ (po_inv _ _ example_after_ok)) as [Hpool Hw].
  fold (connections_of example_after) in Hpool. rewrite example_after_connections in Hpool. split; [exact Hpool | exact Hw].
Qed.

Lemma release_message_gives_back_witness : exists c' s',
  receiveOneRelease example_holding example_releasing = (Ret (c', ReleaseProgress), s') /\ dc_outstanding c' = [].
Proof.
  destruct (release_message_gives_back [] [] example_holding example_handle [] example_releasing)
    as (c' & s' & Hrun & _ & _ & _ & Hperm & _).
  - exact example_releasing_core.
  - split; [unfold kQueueReleaseSize; simpl; lia | reflexivity].
  - unfold ChunkHandle_typed, fits. simpl. lia.
  - discriminate.
  - discriminate.
  - unfold flowing. vm_compute. repeat constructor; discriminate.
  - vm_compute. reflexivity.
  - exists c', s'. split; [exact Hrun|]. specialize (Hperm (list_elem_of_here _ _)).
    apply Permutation_length in Hperm. destruct (dc_outstanding c'); [reflexivity | discriminate].
Defined.

Lemma dead_subscriber_is_dropped_witness : exists s',
  removeEndpoint example_env 11 example_after = (Ret tt, s') /\ connections_of s' = [].
Proof.
  destruct (dead_subscriber_is_dropped [] example_env 11 example_after (po_inv _ _ example_after_ok))
    as (s' & Hrun & _ & Hc & _). exists s'. split; [exact Hrun|].
  rewrite Hc, example_after_connections. reflexivity.
Defined.

Lemma discovery_agrees_with_registry_witness : exists e s',
  apply_discovery example_env (mkRegistryDiscovery 3 SharedMemory example_descriptor []) example_after = (Ret e, s') /\
  e = ConnectionLost /\ connections_of s' = [].
Proof.
  destruct (discovery_agrees_with_registry [] example_env (mkRegistryDiscovery 3 SharedMemory example_descriptor [])
    example_after (po_inv _ _ example_after_ok)) as (e & s' & Hrun & _); [constructor|].
  exists e, s'. split; [exact Hrun|].
  assert (Hobs : observe (fun e s' => (e, connections_of s'))
    (apply_discovery example_env (mkRegistryDiscovery 3 SharedMemory example_descriptor []) example_after)
    = Some (ConnectionLost, [])) by (vm_compute; reflexivity).
  rewrite Hrun in Hobs. injection Hobs as He Hc. split; assumption.
Defined.

(** A publisher over Unix sockets with two connections, the second of which is broken. *)
Definition example_uds : PubState :=
  mkPubState (mkImpl "pose" (mkPublisherConfig "" 128 "Pose" "v1" UnixDomainSocket 1000 example_config)
    [empty_connection <| dc_endpoint_id := 11 |> <| dc_socket := 7 |>; empty_connection <| dc_endpoint_id := 12 |> <| dc_socket := 8 |>]
    true None 3 5 128 0 ∅ 0 true)
    (mkWorld {[ 8 := mkSocket [] [mkIoReply (-1) EPIPE []] [] ]} ∅ []).

Lemma uds_publication_delivers_witness : exists r s',
  publishUds example_env (Some [4; 5]) 2 1 example_uds = (Ret r, s') /\
  pr_error r = Ok /\ length (connections_of s') = 1%nat /\ pr_enqueued r = Z.of_nat (length (connections_of s')).
Proof.
  destruct (uds_publication_delivers example_env (Some [4; 5]) 2 1 example_uds) as (r & s' & Hrun & _ & Hres).
  - reflexivity.
  - split; [split; [split; reflexivity | apply map_Forall_empty]|].
    constructor; [|constructor; [|constructor]]; (split; [unfold kQueueReleaseSize; simpl; lia | reflexivity | discriminate]).
  - split; [|reflexivity]. constructor; [|apply NoDup_singleton]. rewrite list_elem_of_singleton. discriminate.
  - unfold u32_max. lia.
  - simpl. lia.
  - exists r, s'. split; [exact Hrun|].
    assert (Hobs : observe (fun r s' => (pr_error r, length (connections_of s')))
      (publishUds example_env (Some [4; 5]) 2 1 example_uds) = Some (Ok, 1%nat)) by (vm_compute; reflexivity).
    rewrite Hrun in Hobs. injection Hobs as He Hc. split; [exact He | split; [exact Hc | apply (ur_enqueued _ _ _ _ _ _ Hres)]].
Defined.

Lemma failed_creation_unadvertises_witness :
  let r := create_registered 42 1 (fun d => Ret (mkRegistryEndpoint 3 5 d)) (Some 28) "pose" example_publisher_config example_world in
  created (fun d => Ret (mkRegistryEndpoint 3 5 d)) example_publisher_config example_world r.2 r.1 /\
  wd_unadvertised r.2 = [5].
Proof.
  split.
  - apply (failed_creation_unadvertises 42 1 (fun d => Ret (mkRegistryEndpoint 3 5 d)) (Some 28) "pose"
      example_publisher_config example_world example_config_typed); [discriminate | exact example_world_ok].
  - vm_compute. reflexivity.
Defined.

Lemma outstanding_limit_saturates_witness : outstandingLimit example_config = 3.
Proof.
  rewrite (outstanding_limit_saturates example_config); [reflexivity|].
  constructor; [simpl; lia | constructor; [simpl; lia | constructor]].
Defined.
