(* ===== verification/UnixListener.v ===== *)
(** * Unix listeners

    [UnixListener] of [middleware/src/detail/unix_socket.cpp]: a listening socket bound to a
    path of the file system, which it unlinks when it is destroyed.  The theorem says that
    whatever is done with the listeners of a process, every path they bound is unlinked once,
    and a path somebody else bound never. *)

From Stdlib Require Import ZArith Lia Bool String.
From stdpp Require Import base gmap list strings option.
From S2P Require Import Prelude Types Outcome SocketIo PublisherState.

Local Open Scope Z_scope.

Definition EADDRINUSE : Z := 98.

(** The paths bound in the file system and the open sockets of the process. *)
Record SocketFiles := mkSocketFiles { sf_paths : gset string; sf_fds : gset Z }.
#[export] Instance SocketFiles_eta : Eta SocketFiles := fun f => mkSocketFiles (sf_paths f) (sf_fds f).

(** [ul_fd] is -1 when no descriptor is held. *)
Record UnixListener := mkUnixListener {
  ul_fd : Z;
  ul_socket_path : string;
  ul_owns_path : bool;
}.

(** The kernel on [socket], [bind] and [listen]: a descriptor or [errno], and the [errno] of a
    call that fails; [bind] also fails on a path that exists. *)
Record listen_answer := mkListenAnswer {
  la_socket : Z + Z;
  la_bind : option Z;
  la_listen : option Z;
}.

(** ** Operations *)

(** [UniqueFd::reset] *)
Definition close_socket (fd : Z) : cpp SocketFiles unit :=
  if 0 <=? fd then modify (fun f => f <| sf_fds := sf_fds f ∖ {[ fd ]} |>) else mret tt.

Definition unlink (path : string) : cpp SocketFiles unit :=
  modify (fun f => f <| sf_paths := sf_paths f ∖ {[ path ]} |>).

Definition bind_path (answer : listen_answer) (path : string) : cpp SocketFiles (option Z) :=
  f ← this;
  if bool_decide (path ∈ sf_paths f) then mret (Some EADDRINUSE) else
  match la_bind answer with
  | Some errno => mret (Some errno)
  | None => modify (fun f => f <| sf_paths := {[ path ]} ∪ sf_paths f |>);; mret None
  end.

(** [UnixListener::create]; a throw after the socket was made closes it. *)
Definition create_listener (answer : listen_answer) (socket_path : string) (backlog : Z)
    : cpp SocketFiles UnixListener :=
  lift (makeAddress socket_path);;
  fd ← lift (createSocket (mkConnectAnswer (la_socket answer) None));
  modify (fun f => f <| sf_fds := {[ fd ]} ∪ sf_fds f |>);;
  bound ← bind_path answer socket_path;
  match bound with
  | Some errno => close_socket fd;; throw (ex_system_error errno)
  | None =>
      if backlog <=? 0 then
        unlink socket_path;; close_socket fd;; throw ex_invalid_argument
      else
        match la_listen answer with
        | Some errno => unlink socket_path;; close_socket fd;; throw (ex_system_error errno)
        | None => mret (mkUnixListener fd socket_path true)
        end
  end.

(** [cleanup], which is also the destructor. *)
Definition cleanup_listener (l : UnixListener) : cpp SocketFiles UnixListener :=
  close_socket (ul_fd l);;
  (if ul_owns_path l then unlink (ul_socket_path l) else mret tt);;
  mret (mkUnixListener (-1) (ul_socket_path l) false).

(** A moved-from listener has no descriptor and no path to unlink; its path string is not used
    again. *)
Definition moved_listener : UnixListener := mkUnixListener (-1) "" false.

(** The move constructor, and the assignment of two different objects: target and source. *)
Definition move_listener (other : UnixListener) : UnixListener * UnixListener := (other, moved_listener).
Definition assign_listener (l other : UnixListener) : cpp SocketFiles (UnixListener * UnixListener) :=
  cleanup_listener l;; mret (move_listener other).

(** [UnixListener::accept]: [answer] is the accepted descriptor or [errno]. *)
Definition accept_connection (answer : Z + Z) : outcome (option Z) :=
  match answer with
  | inl accepted => Ret (Some accepted)
  | inr errno =>
      if errno =? EAGAIN then Ret None else
      if errno =? EINTR then Ret None else Throw (ex_system_error errno)
  end.

(** ** The listeners of a process *)

Inductive listener_op :=
  | ListenerCreate (answer : listen_answer) (path : string) (backlog : Z)
  | ListenerMove (i : nat)
  | ListenerAssign (i j : nat)
  | ListenerDestroy (i : nat).

(** A constructor that throws makes no variable. *)
Definition listener_step (op : listener_op) (ls : list UnixListener) : cpp SocketFiles (list UnixListener) :=
  match op with
  | ListenerCreate answer path backlog => fun f =>
      match create_listener answer path backlog f with
      | (Ret l, f) => (Ret (ls ++ [l]), f)
      | (Throw _, f) => (Ret ls, f)
      | (Undef, f) => (Undef, f)
      end
  | ListenerMove i =>
      match ls !! i with
      | None => mret ls
      | Some l => let '(new, l) := move_listener l in mret (<[i := l]> ls ++ [new])
      end
  | ListenerAssign i j =>
      if bool_decide (i = j) then mret ls else
      match ls !! i, ls !! j with
      | Some l, Some other =>
          '(l, other) ← assign_listener l other; mret (<[j := other]> (<[i := l]> ls))
      | _, _ => mret ls
      end
  | ListenerDestroy i =>
      match ls !! i with
      | None => mret ls
      | Some l => l ← cleanup_listener l; mret (<[i := l]> ls)
      end
  end.

Fixpoint run_listeners (ops : list listener_op) (ls : list UnixListener) : cpp SocketFiles (list UnixListener) :=
  match ops with
  | [] => mret ls
  | op :: ops => ls ← listener_step op ls; run_listeners ops ls
  end.

Definition destroy_listeners (ls : list UnixListener) : cpp SocketFiles unit :=
  for_each ls (fun l => cleanup_listener l;; mret tt).

(** The kernel gives out descriptors that are not in use. *)
Definition op_fresh (f : SocketFiles) (op : listener_op) : Prop :=
  match op with
  | ListenerCreate answer _ _ => match la_socket answer with inl fd => 0 <= fd /\ fd ∉ sf_fds f | inr _ => True end
  | _ => True
  end.
Fixpoint ops_fresh (ops : list listener_op) (ls : list UnixListener) (f : SocketFiles) : Prop :=
  match ops with
  | [] => True
  | op :: ops => op_fresh f op /\
      match listener_step op ls f with (Ret ls, f) => ops_fresh ops ls f | _ => True end
  end.

(** ** Ownership *)

(** What a listener owns. *)
Definition owned_paths (l : UnixListener) : list string := if ul_owns_path l then [ul_socket_path l] else [].
Definition owned_fds (l : UnixListener) : list Z := if 0 <=? ul_fd l then [ul_fd l] else [].

(** The files are those of the surroundings, [base], and those the listeners own, each of
    which belongs to one listener only. *)
Record owns (base : SocketFiles) (paths : list string) (fds : list Z) (f : SocketFiles) : Prop := {
  ow_paths : sf_paths f = sf_paths base ∪ list_to_set paths;
  ow_fds : sf_fds f = sf_fds base ∪ list_to_set fds;
  ow_paths_once : NoDup paths;
  ow_fds_once : NoDup fds;
  ow_paths_apart : forall p, p ∈ paths -> p ∉ sf_paths base;
  ow_fds_apart : forall fd, fd ∈ fds -> fd ∉ sf_fds base;
}.
Definition listeners_own (base : SocketFiles) (ls : list UnixListener) : SocketFiles -> Prop :=
  owns base (flat_map owned_paths ls) (flat_map owned_fds ls).

#[export] Instance owns_Proper base : Proper ((≡ₚ) ==> (≡ₚ) ==> (=) ==> iff) (owns base).
Proof.
  assert (Hone : forall P P' F F' f, P ≡ₚ P' -> F ≡ₚ F' -> owns base P F f -> owns base P' F' f).
  { intros P P' F F' f HP HF [Hp Hf HnP HnF HaP HaF]. split.
    - rewrite Hp. apply leibniz_equiv. by rewrite HP.
    - rewrite Hf. apply leibniz_equiv. by rewrite HF.
    - by rewrite <- HP.
    - by rewrite <- HF.
    - intros p. rewrite <- HP. apply HaP.
    - intros fd. rewrite <- HF. apply HaF. }
  intros P P' HP F F' HF f _ <-. split; apply Hone; done.
Qed.

(** Adding to and removing from a list of owned things. *)
Lemma add_owned {A} `{Countable A} (x : A) (base X : gset A) (l : list A) :
  X = base ∪ list_to_set l -> NoDup l -> (forall y, y ∈ l -> y ∉ base) -> x ∉ X ->
  {[ x ]} ∪ X = base ∪ list_to_set (x :: l) /\ NoDup (x :: l) /\ forall y, y ∈ x :: l -> y ∉ base.
Proof.
  intros -> Hnd Hap Hx. apply not_elem_of_union in Hx as [Hb Hl]. rewrite elem_of_list_to_set in Hl. split_and!.
  - apply leibniz_equiv. intros y. simpl. rewrite !elem_of_union. naive_solver.
  - by apply list.NoDup_cons.
  - intros y [-> | Hy]%elem_of_cons; [done | by apply Hap].
Qed.

Lemma remove_owned {A} `{Countable A} (x : A) (base X : gset A) (l : list A) :
  X = base ∪ list_to_set (x :: l) -> NoDup (x :: l) -> (forall y, y ∈ x :: l -> y ∉ base) ->
  X ∖ {[ x ]} = base ∪ list_to_set l /\ NoDup l /\ forall y, y ∈ l -> y ∉ base.
Proof.
  intros -> [Hnot Hnd]%list.NoDup_cons Hap. split_and!; [|done|].
  - apply leibniz_equiv. intros y. specialize (Hap x (list_elem_of_here _ _)). simpl.
    rewrite elem_of_difference, !elem_of_union, elem_of_singleton, !elem_of_list_to_set.
    split; [naive_solver|]. intros [Hy | Hy]; (split; [naive_solver|]); intros ->; done.
  - intros y Hy. by apply Hap, list_elem_of_further.
Qed.

Lemma unlink_owns base path P F f : owns base (path :: P) F f ->
  owns base P F (f <| sf_paths := sf_paths f ∖ {[ path ]} |>).
Proof. intros [Hp Hf HnP HnF HaP HaF]. destruct (remove_owned _ _ _ _ Hp HnP HaP) as (? & ? & ?). by split. Qed.

Lemma close_owns base fd P F f : owns base P (fd :: F) f -> owns base P F (f <| sf_fds := sf_fds f ∖ {[ fd ]} |>).
Proof. intros [Hp Hf HnP HnF HaP HaF]. destruct (remove_owned _ _ _ _ Hf HnF HaF) as (? & ? & ?). by split. Qed.

Lemma open_owns base fd P F f : fd ∉ sf_fds f -> owns base P F f -> owns base P (fd :: F) (f <| sf_fds := {[ fd ]} ∪ sf_fds f |>).
Proof. intros Hnew [Hp Hf HnP HnF HaP HaF]. destruct (add_owned fd _ _ _ Hf HnF HaF Hnew) as (? & ? & ?). by split. Qed.

Lemma bind_owns base path P F f : path ∉ sf_paths f -> owns base P F f ->
  owns base (path :: P) F (f <| sf_paths := {[ path ]} ∪ sf_paths f |>).
Proof. intros Hnew [Hp Hf HnP HnF HaP HaF]. destruct (add_owned path _ _ _ Hp HnP HaP Hnew) as (? & ? & ?). by split. Qed.

(** Destroying a listener gives up what it owns. *)
Lemma cleanup_owns base l P F f : owns base (owned_paths l ++ P) (owned_fds l ++ F) f ->
  wp (cleanup_listener l) f (fun l' f' => owns base P F f' /\ owned_paths l' = [] /\ owned_fds l' = []).
Proof.
  intros Hown. unfold cleanup_listener, close_socket, unlink, owned_paths, owned_fds in *. unfold wp. unfold_cpp.
  destruct (0 <=? ul_fd l); destruct (ul_owns_path l); simpl in *; split_and!; try done.
  - by apply close_owns, unlink_owns in Hown.
  - by apply close_owns.
  - by apply unlink_owns.
Qed.

(** A listener that was not made leaves nothing behind. *)
Lemma create_owns base answer path backlog P F f : op_fresh f (ListenerCreate answer path backlog) -> owns base P F f ->
  match create_listener answer path backlog f with
  | (Ret l, f') => owned_paths l = [path] /\ owns base (owned_paths l ++ P) (owned_fds l ++ F) f'
  | (Throw _, f') => owns base P F f'
  | (Undef, _) => False
  end.
Proof.
  intros Hfresh Hown. unfold create_listener, createSocket, bind_path, makeAddress, close_socket, unlink. simpl in Hfresh. unfold_cpp.
  destruct (_ =? 0); [done|]. destruct (_ <=? string_size path); [done|]. simpl.
  destruct (la_socket answer) as [fd|errno]; simpl; [|done]. destruct Hfresh as [Hpos Hnew].
  rewrite (proj2 (Z.leb_le _ _) Hpos). pose proof (open_owns _ _ _ _ _ Hnew Hown) as Hopen.
  assert (Hclose : forall f', owns base P (fd :: F) f' -> owns base P F (f' <| sf_fds := sf_fds f' ∖ {[ fd ]} |>)) by (intros; by apply close_owns).
  case_bool_decide as Hin; [by apply Hclose|]. destruct (la_bind answer); [by apply Hclose|].
  pose proof (fun Hnot => bind_owns base path P (fd :: F) _ Hnot Hopen) as Hbound. specialize (Hbound Hin).
  destruct (backlog <=? 0); [by apply Hclose, unlink_owns|]. destruct (la_listen answer); [by apply Hclose, unlink_owns|].
  unfold owned_paths, owned_fds. simpl. by rewrite (proj2 (Z.leb_le _ _) Hpos).
Qed.

(** What the other listeners own. *)
Lemma listeners_split i ls l : ls !! i = Some l -> exists P F,
  (flat_map owned_paths ls ≡ₚ owned_paths l ++ P /\ flat_map owned_fds ls ≡ₚ owned_fds l ++ F) /\
  forall l', flat_map owned_paths (<[i := l']> ls) ≡ₚ owned_paths l' ++ P /\ flat_map owned_fds (<[i := l']> ls) ≡ₚ owned_fds l' ++ F.
Proof.
  intros Hi. exists (flat_map owned_paths (take i ls) ++ flat_map owned_paths (drop (S i) ls)),
    (flat_map owned_fds (take i ls) ++ flat_map owned_fds (drop (S i) ls)).
  assert (Hall : forall l', flat_map owned_paths (<[i := l']> ls) ≡ₚ owned_paths l' ++ flat_map owned_paths (take i ls) ++ flat_map owned_paths (drop (S i) ls) /\
    flat_map owned_fds (<[i := l']> ls) ≡ₚ owned_fds l' ++ flat_map owned_fds (take i ls) ++ flat_map owned_fds (drop (S i) ls)).
  { intros l'. rewrite insert_take_drop by (by eapply lookup_lt_Some). rewrite !flat_map_app. simpl. split; apply Permutation_app_swap_app. }
  split; [|done]. rewrite <- (list_insert_id ls i l Hi) at 1 4. apply Hall.
Qed.

Lemma listener_step_owns base op ls f : op_fresh f op -> listeners_own base ls f ->
  wp (listener_step op ls) f (fun ls' f' => listeners_own base ls' f').
Proof.
  intros Hfresh Hown. unfold listeners_own in *. destruct op as [answer path backlog|i|i j|i]; cbn [listener_step].
  - unfold wp. pose proof (create_owns base answer path backlog _ _ f Hfresh Hown) as Hc.
    destruct (create_listener answer path backlog f) as [[l| |] f']; try done. destruct Hc as [_ Hc].
    rewrite !flat_map_app. simpl. rewrite !app_nil_r. by rewrite (Permutation_app_comm (flat_map owned_paths ls)), (Permutation_app_comm (flat_map owned_fds ls)).
  - destruct (ls !! i) as [l|] eqn:Hi; [|by apply wp_ret]. simpl. apply wp_ret.
    destruct (listeners_split _ _ _ Hi) as (P & F & [HP HF] & Hins). destruct (Hins moved_listener) as [HP' HF']. rewrite HP, HF in Hown.
    rewrite !flat_map_app, HP', HF'. simpl. rewrite !app_nil_r. by rewrite (Permutation_app_comm P), (Permutation_app_comm F).
  - case_bool_decide as Hij; [by apply wp_ret|]. destruct (ls !! i) as [l|] eqn:Hi; [|by apply wp_ret].
    destruct (ls !! j) as [other|] eqn:Hj; [|by apply wp_ret]. unfold assign_listener. apply wp_bind, wp_bind.
    destruct (listeners_split _ _ _ Hi) as (P & F & [HP HF] & Hins). rewrite HP, HF in Hown.
    eapply wp_mono; [|by apply cleanup_owns]. intros l' f' (Hf' & _ & _). apply wp_ret, wp_ret.
    assert (Hj' : <[i := other]> ls !! j = Some other) by (by rewrite list_lookup_insert_ne).
    destruct (listeners_split _ _ _ Hj') as (P2 & F2 & [HP2 HF2] & Hins2). destruct (Hins2 moved_listener) as [HP3 HF3].
    destruct (Hins other) as [HP4 HF4]. rewrite HP3, HF3. simpl. rewrite HP4 in HP2. rewrite HF4 in HF2.
    apply Permutation_app_inv_l in HP2. apply Permutation_app_inv_l in HF2. by rewrite HP2, HF2 in Hf'.
  - destruct (ls !! i) as [l|] eqn:Hi; [|by apply wp_ret]. apply wp_bind.
    destruct (listeners_split _ _ _ Hi) as (P & F & [HP HF] & Hins). rewrite HP, HF in Hown.
    eapply wp_mono; [|by apply cleanup_owns]. intros l' f' (Hf' & Hp' & Hfd'). apply wp_ret.
    destruct (Hins l') as [-> ->]. by rewrite Hp', Hfd'.
Qed.

Lemma run_listeners_owns base ops : forall ls f, ops_fresh ops ls f -> listeners_own base ls f ->
  wp (run_listeners ops ls) f (fun ls' f' => listeners_own base ls' f').
Proof.
  induction ops as [|op ops IH]; intros ls f Hfresh Hown; [by apply wp_ret|]. destruct Hfresh as [Hop Hfresh].
  cbn [run_listeners]. pose proof (listener_step_owns base op ls f Hop Hown) as Hstep. apply wp_bind. unfold wp in Hstep |- *.
  destruct (listener_step op ls f) as [[ls'| |] f']; try done. by apply IH.
Qed.

Lemma destroy_listeners_owns base ls f : listeners_own base ls f ->
  wp (destroy_listeners ls) f (fun _ f' => owns base [] [] f').
Proof.
  intros Hown. unfold destroy_listeners.
  eapply wp_mono; [|apply (wp_for_each (fun rest f' => listeners_own base rest f')); [|exact Hown]]; [done|].
  intros l rest f' Hf'. apply wp_bind. eapply wp_mono; [|apply (cleanup_owns base l); exact Hf'].
  intros l' f2 (Hf2 & _). by apply wp_ret.
Qed.

(** ** Theorem *)

(** Whatever a process does with its listeners (creating them, with any of the system calls
    failing, moving, assigning, destroying, in any order), a path that somebody else bound is
    never unlinked, and when the listeners go out of scope the file system and the open
    descriptors are as before: every bound path was unlinked and every socket closed once. *)
Theorem listeners_unlink_their_paths ops base : ops_fresh ops [] base ->
  exists ls f, run_listeners ops [] base = (Ret ls, f) /\ sf_paths base ⊆ sf_paths f /\
    (forall l, l ∈ ls -> ul_owns_path l = true -> ul_socket_path l ∈ sf_paths f ∖ sf_paths base) /\
    exists f', destroy_listeners ls f = (Ret tt, f') /\ sf_paths f' = sf_paths base /\ sf_fds f' = sf_fds base.
Proof.
  intros Hfresh. assert (Hinit : listeners_own base [] base).
  { split; simpl; try set_solver; apply NoDup_nil_2. }
  pose proof (run_listeners_owns base ops [] base Hfresh Hinit) as Hrun. apply wp_run in Hrun as (ls & f & Hrun & Hown).
  exists ls, f. split_and!; [done | rewrite (ow_paths _ _ _ _ Hown); set_solver | |].
  - intros l Hl Howns. assert (Hin : ul_socket_path l ∈ flat_map owned_paths ls).
    { apply list_elem_of_In, in_flat_map. exists l. split; [by apply list_elem_of_In|]. unfold owned_paths. rewrite Howns. by left. }
    pose proof (ow_paths_apart _ _ _ _ Hown _ Hin). rewrite (ow_paths _ _ _ _ Hown). set_solver.
  - pose proof (destroy_listeners_owns base ls f Hown) as Hend. apply wp_run in Hend as ([] & f' & Hend & Hf').
    exists f'. split_and!; [done | rewrite (ow_paths _ _ _ _ Hf'); set_solver | rewrite (ow_fds _ _ _ _ Hf'); set_solver].
Qed.

Definition example_listen (fd : Z) (listen : option Z) : listen_answer := mkListenAnswer (inl fd) None listen.

Lemma listeners_unlink_their_paths_witness :
  let ops := [ListenerCreate (example_listen 3 None) "/tmp/a" 16; ListenerCreate (example_listen 4 (Some 98)) "/tmp/b" 16;
              ListenerCreate (example_listen 4 None) "/tmp/c" 16; ListenerMove 0; ListenerAssign 0 1; ListenerDestroy 2] in
  let base := mkSocketFiles {[ "/tmp/c" ]} {[ 0; 1; 2 ]} in
  exists ls f, run_listeners ops [] base = (Ret ls, f) /\ sf_paths base ⊆ sf_paths f /\
    exists f', destroy_listeners ls f = (Ret tt, f') /\ sf_paths f' = sf_paths base /\ sf_fds f' = sf_fds base.
Proof.
  intros ops base. destruct (listeners_unlink_their_paths ops base) as (ls & f & Hrun & Hsub & _ & Hend).
  - vm_compute. split_and!; try done; set_solver.
  - exists ls, f. by split_and!.
Defined.
