(* ===== verification/SampleView.v ===== *)
(** * Sample views

    [SampleView] of [middleware/src/sample_view.cpp], over any release context that honours
    the contract of [detail/sample_release_context.hpp]: a subscriber reads a chunk in place
    through a view, and the chunk is released once, when its view is destroyed or assigned
    over. *)

From Stdlib Require Import ZArith Lia Bool String.
From stdpp Require Import base gmap list strings option.
From S2P Require Import Prelude Types Outcome PoolProtocol.

Local Open Scope Z_scope.

(** ** Release contexts *)

(** [detail::SampleReleaseContext]: the objects of type [C] that share the state [S]. *)
Class SampleReleaseContext (S C : Type) := {
  context_release : C -> ChunkHandle -> cpp S unit;
}.

(** What a context promises: [held H s] says that exactly the chunks [H], each with its context,
    are still to be released; releasing one of them returns and takes it off. *)
Class ReleaseContract (S C : Type) (context : SampleReleaseContext S C) (held : list (C * ChunkHandle) -> S -> Prop) : Prop := {
  held_Proper :: Proper ((≡ₚ) ==> (=) ==> iff) held;
  release_ends : forall H c handle s, held ((c, handle) :: H) s ->
    wp (context_release c handle) s (fun _ s' => held H s');
}.

(** ** The view *)

(** [V]: the mapped pool, which the view keeps alive; [sv_payload]: the offset of the payload in
    the mapping. *)
Record SampleView {C V : Type} := mkSampleView {
  sv_release_context : option C;
  sv_pool_view : option V;
  sv_payload : option Z;
  sv_size : Z;
  sv_sequence : Z;
  sv_publish_timestamp_ns : Z;
  sv_pool_id : Z;
  sv_chunk_index : Z;
  sv_generation : Z;
  sv_payload_offset : Z;
  sv_active : bool;
}.
Arguments SampleView : clear implicits.
#[export] Instance SampleView_eta {C V} : Eta (SampleView C V) := fun v =>
  mkSampleView C V (sv_release_context v) (sv_pool_view v) (sv_payload v) (sv_size v) (sv_sequence v)
    (sv_publish_timestamp_ns v) (sv_pool_id v) (sv_chunk_index v) (sv_generation v) (sv_payload_offset v) (sv_active v).

Section view.
Context {S C V : Type} `{context : SampleReleaseContext S C}.

(** The default constructor, and the one of the subscriber. *)
Definition empty_view : SampleView C V := mkSampleView C V None None None 0 0 0 0 0 0 0 false.
Definition make_view (release_context : option C) (pool_view : option V) (payload : option Z)
    (size sequence publish_timestamp_ns pool_id chunk_index generation payload_offset : Z) : SampleView C V :=
  mkSampleView C V release_context pool_view payload size sequence publish_timestamp_ns pool_id chunk_index
    generation payload_offset true.

(** The move constructor takes every field and leaves an empty view: the new view and [other]. *)
Definition move_view (other : SampleView C V) : SampleView C V * SampleView C V := (other, empty_view).

Definition view_handle (v : SampleView C V) : ChunkHandle :=
  mkChunkHandle (sv_pool_id v) (sv_chunk_index v) (sv_generation v) (sv_payload_offset v).
Definition view_data (v : SampleView C V) : option Z := if sv_active v then sv_payload v else None.
Definition view_valid (v : SampleView C V) : bool :=
  sv_active v && bool_decide (is_Some (sv_release_context v)) && bool_decide (is_Some (sv_pool_view v)) &&
  bool_decide (is_Some (sv_payload v)).

(** [release], which is also the destructor. *)
Definition view_release (v : SampleView C V) : cpp S (SampleView C V) :=
  (match sv_release_context v with
   | Some c => if sv_active v then context_release c (view_handle v) else mret tt
   | None => mret tt
   end);;
  mret (mkSampleView C V None None None (sv_size v) (sv_sequence v) (sv_publish_timestamp_ns v) (sv_pool_id v)
          (sv_chunk_index v) (sv_generation v) (sv_payload_offset v) false).

(** [operator=(SampleView&&)] of two different objects: the target and [other] after it. *)
Definition view_assign (v other : SampleView C V) : cpp S (SampleView C V * SampleView C V) :=
  view_release v;; mret (move_view other).

(** ** The views of an application *)

Inductive view_op :=
  | ViewDestroy (i : nat)
  | ViewMove (i : nat)
  | ViewAssign (i j : nat).

Definition view_step (op : view_op) (views : list (SampleView C V)) : cpp S (list (SampleView C V)) :=
  match op with
  | ViewDestroy i =>
      match views !! i with
      | None => mret views
      | Some v => v ← view_release v; mret (<[i := v]> views)
      end
  | ViewMove i =>
      match views !! i with
      | None => mret views
      | Some v => let '(new, v) := move_view v in mret (<[i := v]> views ++ [new])
      end
  | ViewAssign i j =>
      if bool_decide (i = j) then mret views else
      match views !! i, views !! j with
      | Some v, Some other => '(v, other) ← view_assign v other; mret (<[j := other]> (<[i := v]> views))
      | _, _ => mret views
      end
  end.

Fixpoint run_views (ops : list view_op) (views : list (SampleView C V)) : cpp S (list (SampleView C V)) :=
  match ops with
  | [] => mret views
  | op :: ops => views ← view_step op views; run_views ops views
  end.

(** The end of the scope of the views. *)
Definition destroy_views (views : list (SampleView C V)) : cpp S unit :=
  for_each views (fun v => view_release v;; mret tt).
End view.

(** ** Invariant of the class *)

(** A view is active exactly while it holds its context, its mapping and its pointer. *)
Record view_ok {C V} (v : SampleView C V) : Prop := {
  vo_context : is_Some (sv_release_context v) <-> sv_active v = true;
  vo_pool : is_Some (sv_pool_view v) <-> sv_active v = true;
  vo_payload : is_Some (sv_payload v) <-> sv_active v = true;
}.

(** The chunk a view has to release. *)
Definition view_chunk {C V} (v : SampleView C V) : list (C * ChunkHandle) :=
  match sv_release_context v with
  | Some c => if sv_active v then [(c, view_handle v)] else []
  | None => []
  end.
Definition view_chunks {C V} (views : list (SampleView C V)) : list (C * ChunkHandle) := flat_map view_chunk views.

Lemma empty_view_ok {C V} : view_ok (@empty_view C V).
Proof. split; by split; intros Hf; [destruct Hf | discriminate Hf]. Qed.

Lemma valid_is_active {C V} (v : SampleView C V) : view_ok v -> view_valid v = sv_active v.
Proof.
  intros [Hc Hp Hd]. unfold view_valid. destruct (sv_active v); [|done].
  rewrite !bool_decide_true by (by apply Hc || by apply Hp || by apply Hd). done.
Qed.

Lemma view_chunks_app {C V} (a b : list (SampleView C V)) : view_chunks (a ++ b) = view_chunks a ++ view_chunks b.
Proof. apply flat_map_app. Qed.

Lemma view_chunks_split {C V} i (views : list (SampleView C V)) v : views !! i = Some v ->
  exists F, view_chunks views ≡ₚ view_chunk v ++ F /\
    forall v', view_chunks (<[i := v']> views) ≡ₚ view_chunk v' ++ F.
Proof.
  intros Hi. exists (view_chunks (take i views) ++ view_chunks (drop (S i) views)).
  assert (Hall : forall v', view_chunks (<[i := v']> views) ≡ₚ
    view_chunk v' ++ view_chunks (take i views) ++ view_chunks (drop (S i) views)).
  { intros v'. rewrite insert_take_drop by (by eapply lookup_lt_Some). unfold view_chunks.
    rewrite flat_map_app. simpl. apply Permutation_app_swap_app. }
  split; [|done]. by rewrite <- Hall, list_insert_id.
Qed.

Section contract.
Context {S C V : Type} {context : SampleReleaseContext S C} {held : list (C * ChunkHandle) -> S -> Prop}.
Context `{!ReleaseContract S C context held}.
Implicit Types (v : SampleView C V) (s : S).

Lemma view_release_ok v H s : held (view_chunk v ++ H) s ->
  wp (view_release v) s (fun v' s' => view_ok v' /\ view_chunk v' = [] /\ held H s').
Proof.
  intros Hheld. unfold view_release, view_chunk in *. apply wp_bind.
  assert (Hok : forall s', held H s' -> wp (mret (mkSampleView C V None None None (sv_size v) (sv_sequence v)
    (sv_publish_timestamp_ns v) (sv_pool_id v) (sv_chunk_index v) (sv_generation v) (sv_payload_offset v) false)) s'
    (fun v' s' => view_ok v' /\ (match sv_release_context v' with Some c => if sv_active v' then [(c, view_handle v')] else [] | None => [] end) = [] /\ held H s')).
  { intros s' Hs'. apply wp_ret. split_and!; [|done|done]. split; split; intros Hf; (by destruct Hf) || discriminate Hf. }
  destruct (sv_release_context v) as [c|]; [destruct (sv_active v)|]; [|by apply wp_ret, Hok ..].
  eapply wp_mono; [|by apply release_ends]. intros u s' Hs'. by apply Hok.
Qed.

Lemma view_step_ok op (views : list (SampleView C V)) s : Forall view_ok views -> held (view_chunks views) s ->
  wp (view_step op views) s (fun views' s' => Forall view_ok views' /\ held (view_chunks views') s').
Proof.
  intros Hok Hheld. destruct op as [i|i|i j]; cbn [view_step].
  - destruct (views !! i) as [v|] eqn:Hi; [|by apply wp_ret].
    destruct (view_chunks_split _ _ _ Hi) as (F & HF & Hins). rewrite HF in Hheld. apply wp_bind.
    eapply wp_mono; [|by apply view_release_ok]. intros v' s' (Hv' & Hnil & Hs'). apply wp_ret.
    split; [by apply Forall_insert|]. by rewrite Hins, Hnil.
  - destruct (views !! i) as [v|] eqn:Hi; [|by apply wp_ret]. simpl. apply wp_ret.
    destruct (view_chunks_split _ _ _ Hi) as (F & HF & Hins). rewrite HF in Hheld. split.
    + apply Forall_app. split; [apply Forall_insert; [done | apply empty_view_ok]|]. constructor; [by eapply Forall_lookup_1 | constructor].
    + rewrite view_chunks_app, Hins. simpl. rewrite app_nil_r. by rewrite (Permutation_app_comm F).
  - case_bool_decide as Hij; [by apply wp_ret|]. destruct (views !! i) as [v|] eqn:Hi; [|by apply wp_ret].
    destruct (views !! j) as [other|] eqn:Hj; [|by apply wp_ret].
    destruct (view_chunks_split _ _ _ Hi) as (F & HF & Hins). rewrite HF in Hheld.
    unfold view_assign. apply wp_bind, wp_bind. eapply wp_mono; [|by apply view_release_ok].
    intros v' s' (_ & _ & Hs'). apply wp_ret, wp_ret.
    assert (Hj' : <[i := other]> views !! j = Some other) by (by rewrite list_lookup_insert_ne).
    destruct (view_chunks_split _ _ _ Hj') as (G & HG & Hins'). split.
    + apply Forall_insert; [|apply empty_view_ok]. apply Forall_insert; [done | by eapply Forall_lookup_1].
    + rewrite Hins'. simpl. rewrite Hins in HG. by rewrite (Permutation_app_inv_l _ _ _ HG) in Hs'.
Qed.

Lemma run_views_ok ops : forall (views : list (SampleView C V)) s, Forall view_ok views -> held (view_chunks views) s ->
  wp (run_views ops views) s (fun views' s' => Forall view_ok views' /\ held (view_chunks views') s').
Proof.
  induction ops as [|op ops IH]; intros views s Hok Hs; [by apply wp_ret|]. cbn [run_views]. apply wp_bind.
  eapply wp_mono; [|by apply view_step_ok]. intros views' s' [Hok' Hs']. by apply IH.
Qed.

Lemma destroy_views_ok (views : list (SampleView C V)) s : held (view_chunks views) s ->
  wp (destroy_views views) s (fun _ s' => held [] s').
Proof.
  intros Hs. unfold destroy_views.
  eapply wp_mono; [|apply (wp_for_each (fun rest s' => held (view_chunks rest) s')); [|exact Hs]]; [done|].
  intros v rest s' Hs'. apply wp_bind. eapply wp_mono; [|by apply (view_release_ok v (view_chunks rest))].
  intros v' s2 (_ & _ & Hs2). by apply wp_ret.
Qed.
End contract.
