(* ===== verification/SubscriberState.v ===== *)
(** * Subscriber state and surroundings

    The data of [Subscriber::Impl] ([middleware/src/subscriber.cpp]) and what surrounds a
    subscriber: the sockets, queues and pools it shares with publishers, and the answers of the
    kernel and of the registry.  Other processes run at any time: they may change what is
    shared before each access the subscriber makes to it. *)

From Stdlib Require Import ZArith Lia Bool String.
From stdpp Require Import base gmap list strings option pretty.
From S2P Require Import Prelude Types Outcome BigEndian FrameProtocol QueueProtocol PoolLayout MemoryPool MemoryPoolView SocketIo SubscriberQueue PublisherState UnixListener SampleView.

Local Open Scope Z_scope.

(** ** Structures *)

(** The timeout is in milliseconds. *)
Record SubscriberConfig := mkSubscriberConfig {
  uc_socket_path : string;
  uc_max_message_size : Z;
  uc_type_name : string;
  uc_type_hash : string;
  uc_transport : TransportType;
  uc_queue_depth : Z;
  uc_overflow_policy : OverflowPolicy;
  uc_block_timeout : Z;
}.

(** The defaults of the fields after [socket_path]. *)
Definition default_subscriber_config (socket_path : string) : SubscriberConfig :=
  mkSubscriberConfig socket_path (4 * 1024 * 1024) "mw.raw" "mw.raw.v1" UnixDomainSocket 8 DropOldest 100.

Record ReceivedMessage := mkReceivedMessage {
  rm_payload : list Z;
  rm_sequence : Z;
  rm_publish_timestamp_ns : Z;
  rm_pool_id : Z;
  rm_chunk_index : Z;
  rm_chunk_generation : Z;
  rm_payload_offset : Z;
}.

Inductive UdsReceiveStatus :=
  | UdsNeedMore
  | UdsMessageReady
  | UdsDisconnected
  | UdsTruncated
  | UdsInvalidFrame
  | UdsMessageTooLarge
  | UdsTransportMismatch
  | UdsIoError.

Record UdsReceiveResult := mkUdsReceiveResult {
  ur_status : UdsReceiveStatus;
  ur_message : option ReceivedMessage;
}.

(** A [MemoryPoolView] with the shared object it has mapped. *)
Record MappedPool := mkMappedPool { mv_view : MemoryPoolView; mv_object : Z }.

(** A [SocketReleaseContext] is its socket: the descriptor is not reused while the context
    lives. *)
Definition release_context : Type := Z.

Record ViewData := mkViewData {
  vd_release_context : release_context;
  vd_pool_view : MappedPool;
  vd_handle : ChunkHandle;
  vd_payload : option Z;
  vd_payload_size : Z;
  vd_sequence : Z;
  vd_publish_timestamp_ns : Z;
}.

(** [Subscriber::Impl]; [si_registry_session] says whether the pointer is set. *)
Record SubscriberImpl := mkSubscriberImpl {
  si_topic : string;
  si_config : SubscriberConfig;
  si_listener : UnixListener;
  si_release_context : option release_context;
  si_header_buffer : list Z;
  si_header_bytes : Z;
  si_decoded_header : option FrameHeader;
  si_payload : list Z;
  si_payload_bytes : Z;
  si_last_error : ErrorCode;
  si_registry_session : bool;
  si_topic_id : Z;
  si_endpoint_id : Z;
  si_discovered_pool : PoolDescriptor;
  si_queue : option QueueClient;
  si_pool_view : option MappedPool;
}.
#[export] Instance SubscriberImpl_eta : Eta SubscriberImpl := fun m =>
  mkSubscriberImpl (si_topic m) (si_config m) (si_listener m) (si_release_context m) (si_header_buffer m)
    (si_header_bytes m) (si_decoded_header m) (si_payload m) (si_payload_bytes m) (si_last_error m)
    (si_registry_session m) (si_topic_id m) (si_endpoint_id m) (si_discovered_pool m) (si_queue m) (si_pool_view m).

(** ** Surroundings *)

(** The sockets by descriptor, the queue objects by the name they were created with and the
    names that are linked, and the pool objects with the names that denote them: an object
    outlives its name while it is mapped. *)
Record Shared := mkShared {
  sh_sockets : gmap Z socket;
  sh_queues : gmap string SharedQueue;
  sh_queue_names : gset string;
  sh_pool_names : gmap string Z;
  sh_pools : gmap Z Region;
}.
#[export] Instance Shared_eta : Eta Shared := fun w =>
  mkShared (sh_sockets w) (sh_queues w) (sh_queue_names w) (sh_pool_names w) (sh_pools w).

(** What [poll] on one descriptor returns, with [errno] and [revents]. *)
Record poll_result := mkPollResult { po_result : Z; po_errno : Z; po_revents : Z }.

(** The answers to come, in order: what other processes do before each access to the shared
    state (then nothing), the returns of [poll] (then the timeout), of [accept] (then
    [EAGAIN]), of locking a mutex (then success), of opening a shared object (then success if
    it exists), and of [takePeerEvents] (then no events). *)
Record Kernel := mkKernel {
  kn_others : list (Shared -> Shared);
  kn_polls : list poll_result;
  kn_accepts : list (Z + Z);
  kn_locks : list lock_result;
  kn_opens : list (option Z);
  kn_events : list (outcome (list RegistryPeerEvent));
}.
#[export] Instance Kernel_eta : Eta Kernel := fun k =>
  mkKernel (kn_others k) (kn_polls k) (kn_accepts k) (kn_locks k) (kn_opens k) (kn_events k).

(** [su_unsubscribed]: the endpoints unsubscribed at the registry. *)
Record SubState := mkSubState {
  su_impl : SubscriberImpl;
  su_shared : Shared;
  su_kernel : Kernel;
  su_files : SocketFiles;
  su_unsubscribed : list Z;
}.
#[export] Instance SubState_eta : Eta SubState := fun s =>
  mkSubState (su_impl s) (su_shared s) (su_kernel s) (su_files s) (su_unsubscribed s).

(** ** Accesses *)

Definition self : cpp SubState SubscriberImpl := gets su_impl.
Definition set_self (f : SubscriberImpl -> SubscriberImpl) : cpp SubState unit :=
  modify (fun s => s <| su_impl := f (su_impl s) |>).
Definition set_kernel (f : Kernel -> Kernel) : cpp SubState unit :=
  modify (fun s => s <| su_kernel := f (su_kernel s) |>).

Definition interfere : cpp SubState unit := fun s =>
  match kn_others (su_kernel s) with
  | [] => (Ret tt, s)
  | others :: rest =>
      (Ret tt, s <| su_shared := others (su_shared s) |> <| su_kernel := su_kernel s <| kn_others := rest |> |>)
  end.

(** The next answer of a list, or [last] for ever. *)
Definition next_answer {A} (answers : Kernel -> list A) (rest : list A -> Kernel -> Kernel) (last : A) : cpp SubState A :=
  s ← this;
  match answers (su_kernel s) with
  | [] => mret last
  | answer :: more => set_kernel (rest more);; mret answer
  end.
Definition next_poll : cpp SubState poll_result :=
  next_answer kn_polls (fun l k => k <| kn_polls := l |>) (mkPollResult 0 0 0).
Definition next_accept : cpp SubState (Z + Z) :=
  next_answer kn_accepts (fun l k => k <| kn_accepts := l |>) (inr EAGAIN).
Definition next_lock : cpp SubState lock_result :=
  next_answer kn_locks (fun l k => k <| kn_locks := l |>) LockAcquired.
Definition next_open : cpp SubState (option Z) :=
  next_answer kn_opens (fun l k => k <| kn_opens := l |>) None.
Definition next_events : cpp SubState (outcome (list RegistryPeerEvent)) :=
  next_answer kn_events (fun l k => k <| kn_events := l |>) (Ret []).

Definition EBADF : Z := 9.

(** The socket behind a descriptor; one without an entry is idle. *)
Definition shared_socket (w : Shared) (fd : Z) : socket := default idle_socket (sh_sockets w !! fd).
Definition set_shared_socket (fd : Z) (so : socket) : cpp SubState unit :=
  modify (fun s => s <| su_shared := su_shared s <| sh_sockets := <[fd := so]> (sh_sockets (su_shared s)) |> |>).

(** [recv(connectionFd(), ..., size, MSG_DONTWAIT)] *)
Definition recv_connection (size : Z) : cpp SubState (list Z + Z) :=
  s ← this;
  match si_release_context (su_impl s) with
  | None => mret (inr EBADF)
  | Some fd =>
      let '(answer, so) := recv_step size (shared_socket (su_shared s) fd) in
      set_shared_socket fd so;; mret answer
  end.

(** [queue->method()]: the mutex is locked after others had their turn. *)
Definition in_queue {A} (client : QueueClient) (method : cpp SharedQueue A) : cpp SubState A := fun s =>
  let name := qd_shm_name (qc_descriptor client) in
  match sh_queues (su_shared s) !! name with
  | None => (Undef, s)
  | Some q =>
      let '(r, q') := method q in
      (r, s <| su_shared := su_shared s <| sh_queues := <[name := q']> (sh_queues (su_shared s)) |> |>)
  end.
Definition on_own_queue {A} (client : QueueClient) (method : lock_result -> cpp SharedQueue A) : cpp SubState A :=
  interfere;;
  lock ← next_lock;
  in_queue client (method lock).

(** [MemoryPoolView::open] of the object the descriptor names; opening a name that denotes none
    fails. *)
Definition find_pool (w : Shared) (name : string) : option (Z * Region) :=
  object ← sh_pool_names w !! name; region ← sh_pools w !! object; Some (object, region).
Definition open_pool_view (descriptor : PoolDescriptor) (expected_topic_id : Z) : cpp SubState MappedPool :=
  interfere;;
  os ← next_open;
  s ← this;
  let found := find_pool (su_shared s) (pd_shm_name descriptor) in
  let os := match found with None => Some (default ENOENT os) | Some _ => os end in
  let '(object, region) := default (0, mkRegion [] ∅) found in
  view ← lift (open_view os region descriptor expected_topic_id);
  mret (mkMappedPool view object).

(** A read of the mapped object. *)
Definition on_mapping {A} (pool : MappedPool) (access : Region -> outcome A) : cpp SubState A :=
  interfere;;
  s ← this;
  match sh_pools (su_shared s) !! mv_object pool with
  | None => undefined
  | Some region => lift (access region)
  end.
