(* ===== verification/Subscriber.v ===== *)
(** * Subscriber

    [Subscriber::Impl] and [Subscriber] of [middleware/src/subscriber.cpp]: accepting the
    publisher's connection, putting data frames and wake frames together from the stream,
    mapping the pool a wake names, taking handles off the queue and lending the chunks to the
    application as views, and forgetting a publisher that died or disconnected. *)

From Stdlib Require Import ZArith Lia Bool String.
From stdpp Require Import base gmap list strings option pretty.
From S2P Require Import Prelude Types Outcome BigEndian FrameProtocol QueueProtocol PoolLayout MemoryPool MemoryPoolView SocketIo SubscriberQueue PublisherState UnixListener SampleView SubscriberState.

Local Open Scope Z_scope.

Definition validTransport (transport : TransportType) : bool :=
  bool_decide (transport = UnixDomainSocket) || bool_decide (transport = SharedMemory).

Definition validateConfig (config : SubscriberConfig) (registry_mode : bool) : outcome unit :=
  if string_size (uc_socket_path config) =? 0 then Throw ex_invalid_argument else
  if u32_max <? uc_max_message_size config then Throw ex_invalid_argument else
  if negb (validTransport (uc_transport config)) then Throw ex_invalid_argument else
  if negb registry_mode && negb (bool_decide (uc_transport config = UnixDomainSocket))
  then Throw ex_invalid_argument else
  if registry_mode && ((string_size (uc_type_name config) =? 0) || (string_size (uc_type_hash config) =? 0))
  then Throw ex_invalid_argument else
  if (uc_queue_depth config =? 0) || (kMaxSubscriberQueueDepth <? uc_queue_depth config)
  then Throw ex_invalid_argument else
  if negb (validOverflowPolicy (uc_overflow_policy config)) then Throw ex_invalid_argument else
  if uc_block_timeout config <=? 0 then Throw ex_invalid_argument else Ret tt.

(** Nanoseconds of the steady clock and milliseconds asked for; the result is milliseconds. *)
Definition int_max : Z := 2 ^ 31 - 1.
Definition pollTimeout (now deadline requested_timeout : Z) : Z :=
  if requested_timeout <=? 0 then 0 else
  if deadline <=? now then 0 else
  let remaining := deadline - now in
  let rounded_up := (remaining + 1000000 - 1) ÷ 1000000 in
  Z.min rounded_up int_max.

(** The id, and the counter after [fetch_add]. *)
Definition nextQueueId (pid counter : Z) : Z * Z :=
  (Z.lor (wrap 64 (Z.shiftl (wrap 32 pid) 32)) counter, wrap 32 (counter + 1)).

(** [SocketReleaseContext::release]: each [send] uses up a reply, so the fuel is enough. *)
Definition socket_release (fd : release_context) (handle : ChunkHandle) : cpp SubState unit :=
  let frame := encodeQueueRelease handle in
  s ← this;
  let so := shared_socket (su_shared s) fd in
  match writeAll send_step (S (length (so_replies so))) frame so with
  | None => undefined
  | Some (_, so) => set_shared_socket fd so
  end.
#[export] Instance SocketReleaseContext : SampleReleaseContext SubState release_context := {
  context_release := socket_release;
}.

(** ** Connection *)

Definition resetFrame : cpp SubState unit :=
  set_self (fun m => m <| si_header_bytes := 0 |> <| si_decoded_header := None |> <| si_payload := [] |>
                       <| si_payload_bytes := 0 |>).

Definition resetConnection : cpp SubState unit :=
  set_self (fun m => m <| si_release_context := None |>);; resetFrame.

Definition acceptPendingConnection : cpp SubState unit :=
  m ← self;
  match si_release_context m with
  | Some _ => mret tt
  | None =>
      answer ← next_accept;
      match accept_connection answer with
      | Ret (Some accepted) =>
          set_self (fun m => m <| si_release_context := Some accepted |>);; resetFrame
      | _ => mret tt
      end
  end.

(** ** Receiving *)

(** Why a receive loop stopped: the end of the stream, or an [errno] other than [EINTR]. *)
Inductive recv_stop := StopClosed | StopErrno (errno : Z).

(** [recv] answers other than [EAGAIN] are finitely many, so this fuel is enough. *)
Definition connection_fuel : cpp SubState nat :=
  s ← this;
  mret (match si_release_context (su_impl s) with
        | None => 1%nat
        | Some fd => S (incoming_size (shared_socket (su_shared s) fd))
        end).

(** [header_bytes < size]: [recv] into [header_buffer]; [None] once the header is complete. *)
Fixpoint fill_header (size : nat) (fuel : nat) : cpp SubState (option recv_stop) :=
  m ← self;
  if negb (si_header_bytes m <? Z.of_nat size) then mret None else
  match fuel with
  | O => undefined
  | S fuel =>
      received ← recv_connection (Z.of_nat size - si_header_bytes m);
      match received with
      | inl bytes =>
          if 0 <? Z.of_nat (length bytes) then
            set_self (fun m => m
              <| si_header_buffer := put_at (Z.to_nat (si_header_bytes m)) bytes (si_header_buffer m) |>
              <| si_header_bytes := si_header_bytes m + Z.of_nat (length bytes) |>);;
            fill_header size fuel
          else mret (Some StopClosed)
      | inr errno => if errno =? EINTR then fill_header size fuel else mret (Some (StopErrno errno))
      end
  end.

(** [payload_bytes < payload.size()] *)
Fixpoint fill_payload (fuel : nat) : cpp SubState (option recv_stop) :=
  m ← self;
  let size := Z.of_nat (length (si_payload m)) in
  if negb (si_payload_bytes m <? size) then mret None else
  match fuel with
  | O => undefined
  | S fuel =>
      received ← recv_connection (size - si_payload_bytes m);
      match received with
      | inl bytes =>
          if 0 <? Z.of_nat (length bytes) then
            set_self (fun m => m
              <| si_payload := put_at (Z.to_nat (si_payload_bytes m)) bytes (si_payload m) |>
              <| si_payload_bytes := si_payload_bytes m + Z.of_nat (length bytes) |>);;
            fill_payload fuel
          else mret (Some StopClosed)
      | inr errno => if errno =? EINTR then fill_payload fuel else mret (Some (StopErrno errno))
      end
  end.

(** [vector::resize] *)
Definition resize (size : Z) (v : list Z) : list Z :=
  take (Z.to_nat size) v ++ replicate (Z.to_nat size - length v) 0.

(** Decoding and validating a complete header: [Some status] when it is refused. *)
Definition accept_header : cpp SubState (option UdsReceiveStatus) :=
  m ← self;
  match si_decoded_header m with
  | Some _ => mret None
  | None =>
      let decoded := decodeFrameHeader (Some (take kFrameHeaderSize (si_header_buffer m))) in
      set_self (fun m => m <| si_decoded_header := decoded |>);;
      match decoded with
      | None => mret (Some UdsInvalidFrame)
      | Some header =>
          match validateFrameHeader header (uc_max_message_size (si_config m)) with
          | FrameBadMagic =>
              mret (Some (if fh_magic header =? kQueueProtocolMagic then UdsTransportMismatch else UdsInvalidFrame))
          | FramePayloadTooLarge => mret (Some UdsMessageTooLarge)
          | FrameValid =>
              set_self (fun m => m <| si_payload := resize (fh_payload_size header) (si_payload m) |>);;
              mret None
          end
      end
  end.

Definition receiveUdsAvailable : cpp SubState UdsReceiveResult :=
  let stop status := mret (mkUdsReceiveResult status None) in
  fuel ← connection_fuel;
  stopped ← fill_header kFrameHeaderSize fuel;
  match stopped with
  | Some StopClosed =>
      m ← self; stop (if si_header_bytes m =? 0 then UdsDisconnected else UdsTruncated)
  | Some (StopErrno errno) =>
      if errno =? EAGAIN then stop UdsNeedMore else
      if (errno =? ECONNRESET) || (errno =? ENOTCONN) then stop UdsDisconnected else stop UdsIoError
  | None =>
      refused ← accept_header;
      match refused with
      | Some status => stop status
      | None =>
          fuel ← connection_fuel;
          stopped ← fill_payload fuel;
          match stopped with
          | Some StopClosed => stop UdsTruncated
          | Some (StopErrno errno) => if errno =? EAGAIN then stop UdsNeedMore else stop UdsIoError
          | None =>
              m ← self;
              header ← or_undef (si_decoded_header m);
              let message := mkReceivedMessage (si_payload m) (fh_sequence header) (fh_timestamp_ns header) 0 0 0 0 in
              resetFrame;;
              mret (mkUdsReceiveResult UdsMessageReady (Some message))
          end
      end
  end.

(** [discovered_pool] is set and is not the pool of the wake. *)
Definition other_pool_discovered (discovered found : PoolDescriptor) : bool :=
  negb (string_size (pd_shm_name discovered) =? 0) &&
  (negb (bool_decide (pd_shm_name discovered = pd_shm_name found)) ||
   negb (pd_pool_id discovered =? pd_pool_id found) ||
   negb (pd_segment_size discovered =? pd_segment_size found) ||
   negb (pd_layout_version discovered =? pd_layout_version found)).

(** The exceptions of the [try] block as error codes. *)
Definition open_error (e : exn) : ErrorCode :=
  match e with
  | ex_middleware code => code
  | ex_system_error errno => if errno =? ENOENT then SharedMemoryNotFound else SharedMemoryError
  | _ => SharedMemoryError
  end.

(** The [try] block. *)
Definition install_pool (found : PoolDescriptor) : cpp SubState ErrorCode :=
  m ← self;
  match si_pool_view m with
  | None => fun s =>
      match open_pool_view found (si_topic_id m) s with
      | (Ret opened, s) =>
          (set_self (fun m => m <| si_pool_view := Some opened |> <| si_discovered_pool := found |>);; mret Ok) s
      | (Throw e, s) => (Ret (open_error e), s)
      | (Undef, s) => (Undef, s)
      end
  | Some pool =>
      let descriptor := pv_descriptor (mv_view pool) in
      mret (if negb (bool_decide (pd_shm_name descriptor = pd_shm_name found)) ||
               negb (pd_pool_id descriptor =? pd_pool_id found) ||
               negb (pd_segment_size descriptor =? pd_segment_size found)
            then InvalidSharedMemory else Ok)
  end.

Definition receiveWakeAvailable : cpp SubState ErrorCode :=
  fuel ← connection_fuel;
  stopped ← fill_header kQueueWakeSize fuel;
  match stopped with
  | Some StopClosed => m ← self; mret (if si_header_bytes m =? 0 then ConnectionLost else InvalidFrame)
  | Some (StopErrno errno) =>
      mret (if errno =? EAGAIN then Timeout else
            if (errno =? ECONNRESET) || (errno =? ENOTCONN) then ConnectionLost else Types.IoError)
  | None =>
      m ← self;
      let wake := decodeQueueWake (Some (si_header_buffer m)) in
      resetFrame;;
      match wake, si_queue m with
      | Some wake, Some client =>
          if negb (is_ok (validateQueueWake wake (qd_queue_id (qc_descriptor client)) (si_topic_id m)))
          then mret InvalidFrame else
          if other_pool_discovered (si_discovered_pool m) (qw_pool wake) then mret InvalidSharedMemory else
          install_pool (qw_pool wake)
      | _, _ => mret InvalidFrame
      end
  end.

(** The [while (true)]: each wake that is received takes bytes off the stream. *)
Fixpoint drain_wakes (fuel : nat) : cpp SubState ErrorCode :=
  match fuel with
  | O => undefined
  | S fuel =>
      error ← receiveWakeAvailable;
      if bool_decide (error = Timeout) then mret Ok else
      if negb (is_ok error) then mret error else drain_wakes fuel
  end.

Definition drainWakeNotificationsNonBlocking : cpp SubState ErrorCode :=
  m ← self;
  match si_release_context m, si_pool_view m with
  | Some _, Some _ => fuel ← connection_fuel; drain_wakes fuel
  | _, _ => mret Ok
  end.

(** ** Taking *)

Definition tryTakeQueued : cpp SubState (option ViewData) :=
  m ← self;
  match si_queue m, si_pool_view m, si_release_context m with
  | Some client, Some pool, Some fd =>
      next ← on_own_queue client peek;
      match next with
      | None => mret None
      | Some next =>
          if negb (ch_pool_id next =? pd_pool_id (pv_descriptor (mv_view pool))) then mret None else
          handle ← on_own_queue client tryDequeue;
          match handle with
          | None => mret None
          | Some handle =>
              view ← on_mapping pool (fun region =>
                read_view (mv_view pool) region handle (uc_max_message_size (si_config m)));
              if negb (is_ok (vr_error view)) then
                context_release fd handle;;
                set_self (fun m => m <| si_last_error := vr_error view |>);;
                mret None
              else
                set_self (fun m => m <| si_last_error := Ok |>);;
                mret (Some (mkViewData fd pool handle (vr_payload view) (vr_payload_size view) (vr_sequence view)
                              (vr_publish_timestamp_ns view)))
          end
      end
  | _, _, _ => mret None
  end.

Definition resetPublisherState (dead_pool_id : Z) : cpp SubState unit :=
  m ← self;
  (match si_queue m with
   | Some client => on_own_queue client (fun lock => discardPool lock dead_pool_id)
   | None => mret tt
   end);;
  if negb (dead_pool_id =? 0) && negb (pd_pool_id (si_discovered_pool m) =? 0) &&
     negb (pd_pool_id (si_discovered_pool m) =? dead_pool_id)
  then mret tt
  else
    resetConnection;;
    set_self (fun m => m <| si_pool_view := None |> <| si_discovered_pool := empty_PoolDescriptor |>).

Definition processPeerEvents : cpp SubState unit :=
  m ← self;
  if negb (si_registry_session m) || (si_endpoint_id m =? 0) then mret tt else
  events ← next_events;
  match events with
  | Ret events =>
      for_each events (fun event =>
        match re_kind event with
        | PeerPublisherDead => resetPublisherState (re_resource_id event)
        | PeerSubscriberDead => mret tt
        end)
  | Throw _ => mret tt
  | Undef => undefined
  end.

(** ** [Subscriber]

    [has_impl] is false for a subscriber that was moved from. *)

(** [POLLIN | POLLHUP | POLLERR] *)
Definition kPollEvents : Z := 1 + 16 + 8.

Definition set_last_error (error : ErrorCode) : cpp SubState unit :=
  set_self (fun m => m <| si_last_error := error |>).

(** What an iteration does after a [poll]: go on, start the next iteration, or return nothing. *)
Inductive poll_step := PollReady | PollAgain | PollStop.

(** Waiting for a publisher to connect. *)
Definition poll_listener : cpp SubState poll_step :=
  interfere;;
  polled ← next_poll;
  if po_result polled =? 0 then set_last_error Timeout;; mret PollStop else
  if po_result polled <? 0 then
    if po_errno polled =? EINTR then mret PollAgain
    else set_last_error Types.IoError;; mret PollStop
  else
    acceptPendingConnection;;
    m ← self;
    mret (match si_release_context m with None => PollAgain | Some _ => PollReady end).

(** Waiting for data on the connection. *)
Definition poll_connection : cpp SubState poll_step :=
  interfere;;
  polled ← next_poll;
  if po_result polled =? 0 then set_last_error Timeout;; mret PollStop else
  if po_result polled <? 0 then
    if po_errno polled =? EINTR then mret PollAgain
    else set_last_error Types.IoError;; resetConnection;; mret PollStop
  else mret (if Z.land (po_revents polled) kPollEvents =? 0 then PollAgain else PollReady).

(** The two waits at the top of an iteration. *)
Definition poll_sockets : cpp SubState poll_step :=
  m ← self;
  step ← (match si_release_context m with None => poll_listener | Some _ => mret PollReady end);
  match step with PollReady => poll_connection | _ => mret step end.

(** An iteration that starts the next one has used a return of [poll]. *)
Definition poll_fuel : cpp SubState nat := s ← this; mret (S (length (kn_polls (su_kernel s)))).

(** The error for a frame that cannot be received. *)
Definition uds_error (status : UdsReceiveStatus) : ErrorCode :=
  match status with
  | UdsDisconnected => ConnectionLost
  | UdsTruncated | UdsInvalidFrame => InvalidFrame
  | UdsMessageTooLarge => MessageTooLarge
  | UdsTransportMismatch => TransportMismatch
  | UdsIoError => Types.IoError
  | UdsNeedMore | UdsMessageReady => Ok
  end.

(** The [while (true)] of [waitAndTake]. *)
Fixpoint take_loop (fuel : nat) : cpp SubState (option ReceivedMessage) :=
  match fuel with
  | O => undefined
  | S fuel =>
      step ← poll_sockets;
      match step with
      | PollStop => mret None
      | PollAgain => take_loop fuel
      | PollReady =>
          received ← receiveUdsAvailable;
          match ur_status received with
          | UdsNeedMore => take_loop fuel
          | UdsMessageReady => set_last_error Ok;; mret (ur_message received)
          | status => set_last_error (uds_error status);; resetConnection;; mret None
          end
      end
  end.

Definition sample_view (v : ViewData) : SampleView release_context MappedPool :=
  make_view (Some (vd_release_context v)) (Some (vd_pool_view v)) (vd_payload v) (vd_payload_size v) (vd_sequence v)
    (vd_publish_timestamp_ns v) (ch_pool_id (vd_handle v)) (ch_chunk_index (vd_handle v)) (ch_generation (vd_handle v))
    (ch_payload_offset (vd_handle v)).

(** After a failed wake. *)
Definition wake_failed (error : ErrorCode) : cpp SubState unit :=
  set_last_error error;;
  m ← self;
  if bool_decide (error = ConnectionLost) then resetPublisherState (pd_pool_id (si_discovered_pool m))
  else resetConnection.

(** The [while (true)] of [waitAndTakeView]. *)
Fixpoint take_view_loop (fuel : nat) : cpp SubState (option (SampleView release_context MappedPool)) :=
  match fuel with
  | O => undefined
  | S fuel =>
      view ← tryTakeQueued;
      match view with
      | Some view => mret (Some (sample_view view))
      | None =>
          m ← self;
          if negb (is_ok (si_last_error m)) && negb (bool_decide (si_last_error m = Timeout)) then mret None else
          step ← poll_sockets;
          match step with
          | PollStop => mret None
          | PollAgain => take_view_loop fuel
          | PollReady =>
              wake_error ← receiveWakeAvailable;
              if bool_decide (wake_error = Timeout) then take_view_loop fuel else
              if negb (is_ok wake_error) then wake_failed wake_error;; mret None else
              set_last_error Ok;; take_view_loop fuel
          end
      end
  end.

Definition waitAndTakeView (has_impl : bool) : cpp SubState (option (SampleView release_context MappedPool)) :=
  if negb has_impl then mret None else
  m ← self;
  if negb (bool_decide (uc_transport (si_config m) = SharedMemory)) then
    set_last_error UnsupportedTransport;; mret None else
  processPeerEvents;;
  set_last_error Ok;;
  pending_wake_error ← drainWakeNotificationsNonBlocking;
  if negb (is_ok pending_wake_error) then wake_failed pending_wake_error;; mret None else
  fuel ← poll_fuel;
  take_view_loop fuel.

(** The copy of the payload: [view->data()] is in the mapping. *)
Definition copy_payload (v : SampleView release_context MappedPool) : cpp SubState (list Z) :=
  if sv_size v =? 0 then mret [] else
  pool ← or_undef (sv_pool_view v);
  offset ← or_undef (view_data v);
  on_mapping pool (fun region => load_bytes region offset (Z.to_nat (sv_size v))).

Definition waitAndTake (has_impl : bool) : cpp SubState (option ReceivedMessage) :=
  if negb has_impl then mret None else
  m ← self;
  if bool_decide (uc_transport (si_config m) = SharedMemory) then
    view ← waitAndTakeView has_impl;
    match view with
    | None => mret None
    | Some view =>
        copied ← copy_payload view;
        let message := mkReceivedMessage copied (sv_sequence view) (sv_publish_timestamp_ns view) (sv_pool_id view)
                         (sv_chunk_index view) (sv_generation view) (sv_payload_offset view) in
        view_release view;;
        mret (Some message)
    end
  else
    processPeerEvents;;
    fuel ← poll_fuel;
    take_loop fuel.

(** [take] and [takeView] wait for no time: [poll] still reports what is ready. *)
Definition lastError (has_impl : bool) : cpp SubState ErrorCode :=
  if negb has_impl then mret InvalidState else m ← self; mret (si_last_error m).

(** ** Construction and destruction *)

(** [cleanup] runs when [body] throws, and does not throw itself. *)
Definition or_cleanup {S A} (body : cpp S A) (cleanup : cpp S unit) : cpp S A := fun s =>
  match body s with
  | (Throw e, s) => (cleanup;; throw e) s
  | r => r
  end.

(** What a constructor changes: the shared objects and the socket files. *)
Record Host := mkHost { ho_shared : Shared; ho_files : SocketFiles }.
#[export] Instance Host_eta : Eta Host := fun h => mkHost (ho_shared h) (ho_files h).

Definition on_files {A} (method : cpp SocketFiles A) : cpp Host A := fun h =>
  let '(r, f) := method (ho_files h) in (r, h <| ho_files := f |>).

(** The answers a constructor gets: of the kernel on the listener, the process id and the counter
    of [nextQueueId], the failing system call of the queue's segment and its pthread calls, the
    registry, and the mutex if the queue is destroyed again. *)
Record create_env := mkCreateEnv {
  ne_listen : listen_answer;
  ne_pid : Z;
  ne_counter : Z;
  ne_os : option Z;
  ne_errors : sync_call -> option Z;
  ne_subscribe : QueueDescriptor -> outcome RegistryEndpoint;
  ne_close : lock_result;
  ne_detach : lock_result;
}.

Definition empty_QueueDescriptor : QueueDescriptor := mkQueueDescriptor "" 0 0 0 0 (OverflowPolicy_of_u16 0) 0.

(** The descriptor a shared-memory subscriber advertises. *)
Definition advertised_queue (env : create_env) (config : SubscriberConfig) : outcome QueueDescriptor :=
  let queue_id := (nextQueueId (ne_pid env) (ne_counter env)).1 in
  segment_size ← requiredQueueSegmentSize (uc_queue_depth config);
  Ret (mkQueueDescriptor ("/mw_queue_" +:+ pretty (ne_pid env) +:+ "_" +:+ pretty queue_id) queue_id segment_size
         (uc_queue_depth config) kQueueLayoutVersion (uc_overflow_policy config) (wrap 64 (uc_block_timeout config))).

Definition EEXIST : Z := 17.

(** [SharedSubscriberQueue::create]: the object is new and its name linked. *)
Definition create_own_queue (env : create_env) (d : QueueDescriptor) : cpp Host QueueClient := fun h =>
  let os := if bool_decide (qd_shm_name d ∈ sh_queue_names (ho_shared h)) then Some EEXIST else ne_os env in
  match (create_queue os (ne_errors env) d []).1 with
  | Ret (client, q) =>
      (Ret client, h <| ho_shared := ho_shared h
         <| sh_queues := <[qd_shm_name d := q]> (sh_queues (ho_shared h)) |>
         <| sh_queue_names := {[ qd_shm_name d ]} ∪ sh_queue_names (ho_shared h) |> |>)
  | Throw e => (Throw e, h)
  | Undef => (Undef, h)
  end.

(** [~SharedSubscriberQueue] of the owner: the object is closed and detached, the name unlinked. *)
Definition destroy_own_queue (client : QueueClient) (close_lock detach_lock : lock_result) (w : Shared) : outcome Shared :=
  let name := qd_shm_name (qc_descriptor client) in
  match sh_queues w !! name with
  | None => Undef
  | Some q =>
      match destroy_queue client close_lock detach_lock q with
      | (Ret _, q) => Ret (w <| sh_queues := <[name := q]> (sh_queues w) |>
                             <| sh_queue_names := sh_queue_names w ∖ {[ name ]} |>)
      | (Throw e, _) => Throw e
      | (Undef, _) => Undef
      end
  end.

Definition new_impl (topic : string) (config : SubscriberConfig) (listener : UnixListener) (session : bool)
    (topic_id endpoint_id : Z) (pool : PoolDescriptor) (queue : option QueueClient) : SubscriberImpl :=
  mkSubscriberImpl topic config listener None (replicate kQueueWakeSize 0) 0 None [] 0 Ok session topic_id endpoint_id
    pool queue None.

(** Direct mode. *)
Definition create_direct_subscriber (env : create_env) (topic : string) (config : SubscriberConfig)
    : cpp Host SubscriberImpl :=
  lift (validateConfig config false);;
  listener ← on_files (create_listener (ne_listen env) (uc_socket_path config) 1);
  mret (new_impl topic config listener false 0 0 empty_PoolDescriptor None).

(** [queue.reset()] *)
Definition reset_queue (env : create_env) (queue : option QueueClient) : cpp Host unit :=
  match queue with
  | None => mret tt
  | Some client =>
      h ← this;
      w ← lift (destroy_own_queue client (ne_close env) (ne_detach env) (ho_shared h));
      modify (fun h => h <| ho_shared := w |>)
  end.

(** Registry mode. *)
Definition create_registered_subscriber (env : create_env) (topic : string) (config : SubscriberConfig)
    : cpp Host SubscriberImpl :=
  lift (validateConfig config true);;
  listener ← on_files (create_listener (ne_listen env) (uc_socket_path config) 1);
  or_cleanup
    ('(descriptor, queue) ← (if bool_decide (uc_transport config = SharedMemory) then
                               d ← lift (advertised_queue env config);
                               client ← create_own_queue env d; mret (d, Some client)
                             else mret (empty_QueueDescriptor, None));
     endpoint ← or_cleanup (lift (ne_subscribe env descriptor)) (reset_queue env queue);
     mret (new_impl topic config listener true (rg_topic_id endpoint) (rg_endpoint_id endpoint) (rg_pool endpoint) queue))
    (on_files (cleanup_listener listener);; mret tt).

(** [try { ... } catch (...) {}] *)
Definition swallow {S} (body : cpp S unit) : cpp S unit := fun s =>
  match body s with (Throw _, s) => (Ret tt, s) | r => r end.

(** [~Impl]: the body, then the queue and the listener among the members. *)
Definition destroy_subscriber : cpp SubState unit :=
  acceptPendingConnection;;
  m ← self;
  (match si_queue m with
   | None => mret tt
   | Some client =>
       swallow (handles ← on_own_queue client closeAndDrain;
                match si_release_context m with
                | None => mret tt
                | Some fd => for_each handles (fun handle => context_release fd handle)
                end)
   end);;
  (if si_registry_session m && negb (si_endpoint_id m =? 0)
   then modify (fun s => s <| su_unsubscribed := si_endpoint_id m :: su_unsubscribed s |>) else mret tt);;
  (match si_queue m with
   | None => mret tt
   | Some client =>
       interfere;;
       close_lock ← next_lock;
       detach_lock ← next_lock;
       s ← this;
       w ← lift (destroy_own_queue client close_lock detach_lock (su_shared s));
       modify (fun s => s <| su_shared := w |>)
   end);;
  modify (fun s => s <| su_files := (cleanup_listener (si_listener m) (su_files s)).2 |>).
