(* ===== verification/SubscriberInvariant.v ===== *)
(** * Invariant of the subscriber

    [sub_core]: the ring of the queue a subscriber created stays inside its slots, the pool it has
    mapped stays mapped with the size its view was validated for, and its buffers have their sizes,
    whatever the peers send and whatever other processes do to the shared state as long as they
    keep ring indices and sizes in range, [others_ok].  [frame_ok]: the part of a frame received so far.  The lemmas
    here are about the primitive steps and the receive loops. *)

From Stdlib Require Import ZArith Lia Bool String.
From stdpp Require Import base gmap list strings option.
From S2P Require Import Prelude Types Outcome BigEndian FrameProtocol PoolProtocol QueueProtocol PoolLayout MemoryPool MemoryPoolView SocketIo SubscriberQueue QueueTheorems PublisherState Publisher PublisherInvariant PublisherMethods PublisherReleases UnixListener SampleView SubscriberState Subscriber.

Local Open Scope Z_scope.

(** ** Definitions *)

(** A queue whose ring is inside its slots, which hold values of the type.  Other processes need
    not keep more: the indices may disagree with each other, and handles may be anything. *)
Definition slots_typed (q : SharedQueue) : Prop := Forall ChunkHandle_typed (sq_slots q).
Definition ring_ok (q : SharedQueue) : Prop := ring_safe q /\ slots_typed q.

(** A well-formed queue that holds values of the type. *)
Definition queue_ok (q : SharedQueue) : Prop := queue_wf q /\ Forall ChunkHandle_typed (contents q).

(** The kernel yields bytes, and mappings hold bytes. *)
Definition incoming_typed (a : incoming) : Prop := match a with InData bytes => Forall is_byte bytes | InError _ => True end.
Record shared_ok (w : Shared) : Prop := {
  sk_sockets : forall fd, Forall incoming_typed (so_incoming (shared_socket w fd));
  sk_pools : forall o r, sh_pools w !! o = Some r -> region_typed r;
}.

(** What other processes leave alone: a ring inside its slots stays there, a mapped object keeps its
    size. *)
Record shared_le (w w' : Shared) : Prop := {
  sl_queues : forall name q, sh_queues w !! name = Some q -> ring_ok q ->
    exists q', sh_queues w' !! name = Some q' /\ ring_ok q';
  sl_pools : forall o r, sh_pools w !! o = Some r ->
    exists r', sh_pools w' !! o = Some r' /\ region_size r' = region_size r;
}.
#[export] Instance shared_le_preorder : PreOrder shared_le.
Proof.
  split.
  - intros w. split; eauto.
  - intros w1 w2 w3 [Hq Hp] [Hq' Hp']. split.
    + intros name q Hn Hok. destruct (Hq _ _ Hn Hok) as (q' & Hn' & Hok'). eauto.
    + intros o r Hr. destruct (Hp _ _ Hr) as (r' & Hr' & <-). eauto.
Qed.

Definition others_ok (others : Shared -> Shared) : Prop :=
  forall w, shared_ok w -> shared_ok (others w) /\ shared_le w (others w).

Record kernel_ok (k : Kernel) : Prop := {
  ko_others : Forall others_ok (kn_others k);
  ko_events : Forall (fun events => events <> Undef) (kn_events k);
}.

(** A mapped pool, with the size its view was validated for. *)
Definition mapped_ok (w : Shared) (pool : MappedPool) : Prop :=
  exists r, sh_pools w !! mv_object pool = Some r /\ view_wf (mv_view pool) (region_size r).

Definition queue_mapped (w : Shared) (client : QueueClient) : Prop :=
  exists q, sh_queues w !! qd_shm_name (qc_descriptor client) = Some q /\ ring_ok q.

Record sub_core (s : SubState) : Prop := {
  sc_shared : shared_ok (su_shared s);
  sc_kernel : kernel_ok (su_kernel s);
  sc_queue : forall client, si_queue (su_impl s) = Some client -> queue_mapped (su_shared s) client;
  sc_pool : forall pool, si_pool_view (su_impl s) = Some pool -> mapped_ok (su_shared s) pool;
  sc_buffer : length (si_header_buffer (su_impl s)) = kQueueWakeSize /\ Forall is_byte (si_header_buffer (su_impl s));
}.

(** The size of the header of a frame on this transport. *)
Definition header_size (m : SubscriberImpl) : nat :=
  if bool_decide (uc_transport (si_config m) = SharedMemory) then kQueueWakeSize else kFrameHeaderSize.

(** The frame received so far, between two receives. *)
Record frame_ok (m : SubscriberImpl) : Prop := {
  fo_header : 0 <= si_header_bytes m <= Z.of_nat (header_size m);
  fo_decoded : match si_decoded_header m with
    | None => si_payload m = [] /\ si_payload_bytes m = 0
    | Some h => si_header_bytes m = Z.of_nat kFrameHeaderSize /\
        decodeFrameHeader (Some (take kFrameHeaderSize (si_header_buffer m))) = Some h /\
        validateFrameHeader h (uc_max_message_size (si_config m)) = FrameValid /\
        Z.of_nat (length (si_payload m)) = fh_payload_size h
    end;
  fo_payload : 0 <= si_payload_bytes m <= Z.of_nat (length (si_payload m));
}.

(** Who the subscriber is. *)
Definition identity (m : SubscriberImpl) : UnixListener * bool * Z * Z :=
  (si_listener m, si_registry_session m, si_topic_id m, si_endpoint_id m).

(** What a method keeps. *)
Record moved (s s' : SubState) : Prop := {
  mo_core : sub_core s';
  mo_shared : shared_le (su_shared s) (su_shared s');
  mo_polls : (length (kn_polls (su_kernel s')) <= length (kn_polls (su_kernel s)))%nat;
  mo_config : si_config (su_impl s') = si_config (su_impl s);
  mo_queue : si_queue (su_impl s') = si_queue (su_impl s);
  mo_identity : identity (su_impl s') = identity (su_impl s);
  mo_host : su_files s' = su_files s /\ su_unsubscribed s' = su_unsubscribed s;
}.

Lemma moved_refl s : sub_core s -> moved s s.
Proof. by split. Qed.
Lemma moved_trans s1 s2 s3 : moved s1 s2 -> moved s2 s3 -> moved s1 s3.
Proof.
  intros [? ? ? ? ? ? []] [? ? ? ? ? ? []]. split; [done | by etrans | lia | congruence | congruence | congruence |]. split; congruence.
Qed.

Lemma mapped_ok_le w w' pool : shared_le w w' -> mapped_ok w pool -> mapped_ok w' pool.
Proof. intros [_ Hp] (r & Hr & Hv). destruct (Hp _ _ Hr) as (r' & Hr' & Hsize). exists r'. by rewrite Hsize. Qed.
Lemma queue_mapped_le w w' client : shared_le w w' -> queue_mapped w client -> queue_mapped w' client.
Proof. intros [Hq _] (q & Hn & Hok). exact (Hq _ _ Hn Hok). Qed.

(** Changes of the shared state and of the answers to come. *)
Lemma moved_shared s w k : sub_core s -> shared_ok w -> shared_le (su_shared s) w -> kernel_ok k ->
  (length (kn_polls k) <= length (kn_polls (su_kernel s)))%nat ->
  moved s (s <| su_shared := w |> <| su_kernel := k |>).
Proof.
  intros [] Hok Hle Hk Hp. split; simpl; try done. split; simpl; try done.
  - intros client Hc. eapply queue_mapped_le; eauto.
  - intros pool Hpool. eapply mapped_ok_le; eauto.
Qed.

(** Changes of the object itself. *)
Lemma moved_self s f : sub_core s -> let m := f (su_impl s) in
  si_config m = si_config (su_impl s) -> si_queue m = si_queue (su_impl s) -> identity m = identity (su_impl s) ->
  (forall pool, si_pool_view m = Some pool -> mapped_ok (su_shared s) pool) ->
  length (si_header_buffer m) = kQueueWakeSize -> Forall is_byte (si_header_buffer m) ->
  moved s (s <| su_impl := m |>).
Proof.
  intros [] m Hc Hq Hi Hp Hl Hb. split; simpl; try done. split; simpl; try done. by rewrite Hq.
Qed.

(** ** Primitive steps *)

(** A step that changes neither the object nor, with [quiet], what is shared. *)
Definition same_self (s s' : SubState) : Prop := moved s s' /\ su_impl s' = su_impl s.

Lemma interfere_ok s : sub_core s -> wp interfere s (fun _ s' => same_self s s').
Proof.
  intros Hcore. unfold interfere, wp. pose proof (sc_kernel _ Hcore) as [Hothers Hev].
  destruct (kn_others (su_kernel s)) as [|others rest] eqn:Hk; [by split; [apply moved_refl|]|].
  apply Forall_cons_1 in Hothers as [Ho Hrest]. destruct (Ho _ (sc_shared _ Hcore)) as [Hok Hle].
  split; [|done]. by apply moved_shared.
Qed.

(** The answers are consumed one by one. *)
Lemma next_answer_ok {A} answers rest (last : A) (P : A -> Prop) s : sub_core s -> P last -> Forall P (answers (su_kernel s)) ->
  (forall more, kn_others (rest more (su_kernel s)) = kn_others (su_kernel s)) ->
  (forall answer more, answers (su_kernel s) = answer :: more ->
     (length (kn_polls (rest more (su_kernel s))) <= length (kn_polls (su_kernel s)))%nat /\
     Forall (fun events => events <> Undef) (kn_events (rest more (su_kernel s)))) ->
  wp (next_answer answers rest last) s (fun a s' => P a /\ same_self s s' /\ su_shared s' = su_shared s).
Proof.
  intros Hcore Hlast HP Hothers Hrest. unfold next_answer. apply wp_bind. unfold this, wp at 1.
  destruct (answers (su_kernel s)) as [|answer more] eqn:Hans; [by apply wp_ret; split_and!; [|split; [apply moved_refl|]|]|].
  apply Forall_cons_1 in HP as [Ha _]. destruct (Hrest _ _ eq_refl) as [Hp Hev]. pose proof (sc_kernel _ Hcore) as [Ho _].
  apply wp_bind. unfold set_kernel, modify, wp at 1. apply wp_ret. split_and!; [done | split; [|done] | done].
  apply (moved_shared s (su_shared s)); try done; [apply Hcore|]. split; [by rewrite Hothers | done].
Qed.

Ltac next_answer :=
  match goal with H : sub_core ?s |- _ => pose proof (sc_kernel _ H) as [? ?];
    eapply wp_mono; [|apply (next_answer_ok _ _ _ (fun _ => True)); [exact H | exact I | by apply Forall_true | done | done]];
    cbv beta; tauto end.

Lemma next_lock_ok s : sub_core s -> wp next_lock s (fun _ s' => same_self s s').
Proof. intros Hcore. next_answer. Qed.
Lemma next_open_ok s : sub_core s -> wp next_open s (fun _ s' => same_self s s').
Proof. intros Hcore. next_answer. Qed.
Lemma next_accept_ok s : sub_core s -> wp next_accept s (fun _ s' => same_self s s').
Proof. intros Hcore. next_answer. Qed.

Lemma next_events_ok s : sub_core s -> wp next_events s (fun events s' => events <> Undef /\ same_self s s').
Proof.
  intros Hcore. pose proof (sc_kernel _ Hcore) as [Ho Hev].
  eapply wp_mono; [|apply (next_answer_ok _ _ _ (fun events => events <> Undef)); [exact Hcore | done | done | done |]].
  - cbv beta. tauto.
  - intros answer more Heq. split; [done|]. rewrite Heq in Hev. by apply Forall_cons_1 in Hev as [_ Hev].
Qed.

(** A [poll] that reports something has been used up. *)
Lemma next_poll_ok s : sub_core s -> wp next_poll s (fun polled s' => same_self s s' /\
  (po_result polled <> 0 -> (length (kn_polls (su_kernel s')) < length (kn_polls (su_kernel s)))%nat)).
Proof.
  intros Hcore. unfold next_poll, next_answer. apply wp_bind. unfold this, wp at 1. pose proof (sc_kernel _ Hcore) as [Ho Hev].
  destruct (kn_polls (su_kernel s)) as [|answer more] eqn:Hans; [by apply wp_ret; split; [split; [apply moved_refl|]|]|].
  apply wp_bind. unfold set_kernel, modify, wp at 1. apply wp_ret. split; [|intros _; simpl; lia]. split; [|done].
  apply (moved_shared s (su_shared s)); try done; [apply Hcore|]. simpl. rewrite Hans. simpl. lia.
Qed.

(** ** Sockets *)

Lemma moved_socket s fd so : sub_core s -> Forall incoming_typed (so_incoming so) ->
  moved s (s <| su_shared := su_shared s <| sh_sockets := <[fd := so]> (sh_sockets (su_shared s)) |> |>).
Proof.
  intros Hcore Hso. apply (moved_shared s _ (su_kernel s)); try done; [|by split; eauto | apply Hcore].
  destruct (sc_shared _ Hcore) as [Hk Hp]. split; [|done]. intros fd'. unfold shared_socket. simpl.
  destruct (decide (fd' = fd)) as [->|]; [by rewrite lookup_insert_eq | rewrite lookup_insert_ne by done; apply Hk].
Qed.

(** The bytes on their way to the subscriber, and how many receives they can answer. *)
Definition conn_socket (s : SubState) : socket :=
  match si_release_context (su_impl s) with None => idle_socket | Some fd => shared_socket (su_shared s) fd end.
Definition conn_stream (s : SubState) : list Z := flat_map fragment_bytes (so_incoming (conn_socket s)).
Definition conn_size (s : SubState) : nat := incoming_size (conn_socket s).
Definition conn_flowing (s : SubState) : Prop :=
  is_Some (si_release_context (su_impl s)) /\ Forall fragment_ok (so_incoming (conn_socket s)).

(** The sending side of a socket. *)
Definition sending_of (so : socket) : list Z * list io_reply := (so_sent so, so_replies so).

(** [got] was taken off the stream; nothing was sent. *)
Record received (s s' : SubState) (got : list Z) : Prop := {
  rv_moved : moved s s';
  rv_context : si_release_context (su_impl s') = si_release_context (su_impl s);
  rv_stream : conn_stream s = got ++ conn_stream s';
  rv_flow : conn_flowing s -> conn_flowing s';
  rv_size : (conn_size s' <= conn_size s)%nat;
  rv_sent : forall fd, sending_of (shared_socket (su_shared s') fd) = sending_of (shared_socket (su_shared s) fd);
  rv_rest : sh_queues (su_shared s') = sh_queues (su_shared s) /\ sh_pool_names (su_shared s') = sh_pool_names (su_shared s) /\
    sh_pools (su_shared s') = sh_pools (su_shared s) /\ su_kernel s' = su_kernel s;
}.

Lemma received_refl s : sub_core s -> received s s [].
Proof. intros Hcore. by split; [apply moved_refl | ..]. Qed.
Lemma received_trans s1 s2 s3 a b : received s1 s2 a -> received s2 s3 b -> received s1 s3 (a ++ b).
Proof.
  intros [? Hc1 Hs1 ? ? Ht1 (? & ? & ? & ?)] [? Hc2 Hs2 ? ? Ht2 (? & ? & ? & ?)].
  split; [by eapply moved_trans | congruence | by rewrite <- app_assoc, <- Hs2 | auto | lia | intros fd; by rewrite Ht2 | split_and!; congruence].
Qed.

(** Changes of the object that leave the connection alone. *)
Lemma received_self s f : moved s (s <| su_impl := f (su_impl s) |>) ->
  si_release_context (f (su_impl s)) = si_release_context (su_impl s) -> received s (s <| su_impl := f (su_impl s) |>) [].
Proof.
  intros Hm Hc. assert (Hso : conn_socket (s <| su_impl := f (su_impl s) |>) = conn_socket s) by (unfold conn_socket; simpl; by rewrite Hc).
  split; simpl; try done; unfold conn_stream, conn_size, conn_flowing; rewrite ?Hso; simpl; rewrite ?Hc; done.
Qed.

Lemma recv_step_typed size so : Forall incoming_typed (so_incoming so) ->
  match recv_step size so with
  | (inl bytes, so') => Forall is_byte bytes /\ Forall incoming_typed (so_incoming so')
  | (inr _, so') => Forall incoming_typed (so_incoming so')
  end.
Proof.
  intros Hty. unfold recv_step. destruct (so_incoming so) as [|[bytes|errno] rest] eqn:Hin; [by rewrite Hin | |]; apply Forall_cons_1 in Hty as [Hb Hrest]; [|done].
  simpl in Hb. split; [by apply Forall_take|]. cbn [so_incoming update_with]. simpl.
  destruct (drop (Z.to_nat size) bytes) eqn:Hd; [done|]. constructor; [|done]. simpl. rewrite <- Hd. by apply Forall_drop.
Qed.

Lemma recv_step_stream size so : let '(answer, so') := recv_step size so in
  sending_of so' = sending_of so /\
  flat_map fragment_bytes (so_incoming so) = (match answer with inl bytes => bytes | inr _ => [] end) ++ flat_map fragment_bytes (so_incoming so').
Proof.
  unfold recv_step. destruct (so_incoming so) as [|[bytes|errno] rest] eqn:Hin; [by rewrite Hin | |done].
  split; [done|]. cbn [so_incoming update_with]. simpl. rewrite <- (take_drop (Z.to_nat size) bytes) at 1. rewrite <- app_assoc. f_equal.
  by destruct (drop (Z.to_nat size) bytes).
Qed.

(** The state after a receive on the connection [fd]. *)
Lemma received_socket s fd size answer so : sub_core s -> 0 < size -> si_release_context (su_impl s) = Some fd ->
  recv_step size (shared_socket (su_shared s) fd) = (answer, so) ->
  let s' := s <| su_shared := su_shared s <| sh_sockets := <[fd := so]> (sh_sockets (su_shared s)) |> |> in
  received s s' (match answer with inl bytes => bytes | inr _ => [] end) /\ conn_socket s' = so.
Proof.
  intros Hcore Hsize Hctx Hstep s'.
  pose proof (recv_step_typed size (shared_socket (su_shared s) fd) (sk_sockets _ (sc_shared _ Hcore) fd)) as Hty.
  pose proof (recv_step_stream size (shared_socket (su_shared s) fd)) as Hstream.
  pose proof (recv_step_spec size (shared_socket (su_shared s) fd) Hsize) as Hspec. rewrite Hstep in Hty, Hstream, Hspec.
  assert (Hconn : conn_socket s = shared_socket (su_shared s) fd) by (unfold conn_socket; by rewrite Hctx).
  assert (Hconn' : conn_socket s' = so) by (unfold conn_socket, shared_socket; simpl; rewrite Hctx; by rewrite lookup_insert_eq).
  split; [|done]. destruct Hstream as [Hsent Hstream].
  split; [|done|..]; unfold conn_stream, conn_size, conn_flowing; rewrite ?Hconn', ?Hconn.
  - apply moved_socket; [done|]. by destruct answer; [apply Hty|].
  - exact Hstream.
  - intros [Hs Hflow]. split; [done|]. pose proof (recv_step_flow size _ Hsize Hflow) as Hf. rewrite Hstep in Hf. apply Hf.
  - destruct answer; [lia|]. destruct Hspec as [? | [_ ->]]; lia.
  - intros fd'. unfold shared_socket in *. simpl. destruct (decide (fd' = fd)) as [->|]; [by rewrite lookup_insert_eq | by rewrite lookup_insert_ne].
  - done.
Qed.

Lemma recv_connection_ok size s : sub_core s -> 0 < size ->
  wp (recv_connection size) s (fun answer s' => su_impl s' = su_impl s /\
    match answer with
    | inl bytes => received s s' bytes /\ Z.of_nat (length bytes) <= size /\ Forall is_byte bytes /\
        (conn_size s' < conn_size s)%nat /\ (conn_flowing s -> bytes <> [])
    | inr errno => received s s' [] /\ (errno = EINTR -> (conn_size s' < conn_size s)%nat) /\
        (conn_flowing s -> errno = EINTR \/ errno = EAGAIN /\ conn_stream s' = [])
    end).
Proof.
  intros Hcore Hsize. unfold recv_connection. apply wp_bind. unfold this, wp at 1.
  destruct (si_release_context (su_impl s)) as [fd|] eqn:Hctx.
  2: { apply wp_ret. split_and!; [done | by apply received_refl | done |]. intros [Hc _]. rewrite Hctx in Hc. by destruct Hc. }
  destruct (recv_step size (shared_socket (su_shared s) fd)) as [answer so] eqn:Hstep.
  apply wp_bind. unfold set_shared_socket, modify, wp at 1. apply wp_ret. split; [done|].
  destruct (received_socket s fd size answer so Hcore Hsize Hctx Hstep) as [Hrv Hconn'].
  set (s' := s <| su_shared := _ |>) in *.
  assert (Hconn : conn_socket s = shared_socket (su_shared s) fd) by (unfold conn_socket; by rewrite Hctx).
  pose proof (recv_step_typed size (shared_socket (su_shared s) fd) (sk_sockets _ (sc_shared _ Hcore) fd)) as Hty.
  pose proof (recv_step_spec size (shared_socket (su_shared s) fd) Hsize) as Hspec. rewrite Hstep in Hty, Hspec.
  unfold conn_size, conn_flowing, conn_stream. rewrite Hconn, Hconn'. destruct answer as [bytes|errno]; split_and!; try tauto; try lia.
  - intros [_ Hflow]. pose proof (recv_step_flow size _ Hsize Hflow) as Hf. rewrite Hstep in Hf. apply Hf.
  - intros ->. by destruct Hspec as [? | [? _]]; [lia|].
  - intros [_ Hflow]. pose proof (recv_step_flow size _ Hsize Hflow) as Hf. rewrite Hstep in Hf.
    destruct Hf as (_ & Heq & [-> | [-> Hnil]]); [by left | right]. by rewrite <- Heq.
Qed.

(** ** Receive loops *)

Definition header_received (m : SubscriberImpl) : list Z := take (Z.to_nat (si_header_bytes m)) (si_header_buffer m).
Definition payload_received (m : SubscriberImpl) : list Z := take (Z.to_nat (si_payload_bytes m)) (si_payload m).

(** Why a loop on a flowing connection stops: all the bytes are taken. *)
Definition stop_ok (s s' : SubState) (stopped : option recv_stop) : Prop :=
  conn_flowing s -> forall stop, stopped = Some stop -> stop = StopErrno EAGAIN /\ conn_stream s' = [].

Lemma fill_header_ok size fuel : (size <= kQueueWakeSize)%nat -> forall s, sub_core s ->
  0 <= si_header_bytes (su_impl s) <= Z.of_nat size -> (conn_size s < fuel)%nat ->
  wp (fill_header size fuel) s (fun stopped s' => exists got buffer, received s s' got /\
    su_impl s' = su_impl s <| si_header_buffer := buffer |> <| si_header_bytes := si_header_bytes (su_impl s) + Z.of_nat (length got) |> /\
    header_received (su_impl s') = header_received (su_impl s) ++ got /\
    stop_ok s s' stopped /\
    match stopped with
    | None => si_header_bytes (su_impl s') = Z.of_nat size /\ (got <> [] -> (conn_size s' < conn_size s)%nat)
    | Some _ => 0 <= si_header_bytes (su_impl s') < Z.of_nat size
    end).
Proof.
  intros Hsz. induction fuel as [|fuel IH]; intros s Hcore Hb Hfuel; [lia|].
  cbn [fill_header]. apply wp_bind. unfold self, gets, wp at 1. destruct (negb _) eqn:Hfull; bools.
  { apply wp_ret. exists [], (si_header_buffer (su_impl s)). split_and!; [by apply received_refl | | by rewrite app_nil_r | done | lia | done].
    destruct s as [[] ? ? ? ?]; simpl. by rewrite Z.add_0_r. }
  assert (Hbuf : length (si_header_buffer (su_impl s)) = kQueueWakeSize) by apply Hcore.
  apply wp_bind. eapply wp_mono; [|apply recv_connection_ok; [done | lia]]. intros [bytes|errno] s1 [Heq Hanswer].
  - destruct Hanswer as (Hrv & Hlen & Hty & Hlt & Hne). destruct (0 <? Z.of_nat (length bytes)) eqn:Hpos; bools.
    2: { apply wp_ret. exists bytes, (si_header_buffer (su_impl s)). assert (bytes = []) as -> by (by destruct bytes).
         split_and!; [done | | by rewrite Heq, app_nil_r | by intros Hf; apply Hne in Hf | rewrite Heq; lia | rewrite Heq; lia].
         rewrite Heq. destruct (su_impl s); simpl. by rewrite Z.add_0_r. }
    apply wp_bind. unfold set_self, modify, wp at 1. set (s2 := s1 <| su_impl := _ |>).
    assert (Hrv2 : received s1 s2 []).
    { apply (received_self s1 (fun m => m <| si_header_buffer := put_at (Z.to_nat (si_header_bytes m)) bytes (si_header_buffer m) |> <| si_header_bytes := si_header_bytes m + Z.of_nat (length bytes) |>)); [|done].
      pose proof (mo_core _ _ (rv_moved _ _ _ Hrv)) as Hc1. apply moved_self; simpl; try done; [apply Hc1 | by rewrite length_put_at; apply Hc1 |].
      apply Forall_put_at; [done | apply Hc1]. }
    pose proof (received_trans _ _ _ _ _ Hrv Hrv2) as Hrv3. rewrite app_nil_r in Hrv3.
    assert (Hsize2 : conn_size s2 = conn_size s1) by done.
    eapply wp_mono; [|apply IH; [apply (rv_moved _ _ _ Hrv2) | simpl; rewrite Heq; lia | lia]].
    intros stopped s3 (got & buffer & Hrv4 & Himpl & Hrec & Hstop & Hres).
    exists (bytes ++ got), buffer. split_and!.
    + by eapply received_trans.
    + rewrite Himpl. unfold s2. rewrite Heq, length_app, Nat2Z.inj_add, Z.add_assoc. reflexivity.
    + rewrite Hrec, app_assoc. f_equal. unfold header_received. simpl. rewrite Heq.
      apply take_put_at; lia.
    + intros Hf stop Hs. apply Hstop; [|done]. by apply (rv_flow _ _ _ Hrv3).
    + destruct stopped; [done|]. destruct Hres as [Hh _]. split; [done|]. intros _. pose proof (rv_size _ _ _ Hrv4). lia.
  - destruct Hanswer as (Hrv & Hint & Hflow). destruct (errno =? EINTR) eqn:He; bools.
    + eapply wp_mono; [|apply IH; [apply (rv_moved _ _ _ Hrv) | rewrite Heq; lia | specialize (Hint He); lia]].
      rewrite Heq. intros stopped s3 (got & buffer & Hrv4 & Himpl & Hrec & Hstop & Hres). exists got, buffer.
      pose proof (received_trans _ _ _ _ _ Hrv Hrv4) as Hrv5. split_and!; [done | done | done | |].
      * intros Hf. by apply Hstop, (rv_flow _ _ _ Hrv).
      * destruct stopped; [done|]. destruct Hres as [Hh Hl]. split; [done|]. intros Hg. apply Hl in Hg. specialize (Hint He). lia.
    + apply wp_ret. exists [], (si_header_buffer (su_impl s)).
      split_and!; [done | rewrite Heq; destruct (su_impl s); simpl; by rewrite Z.add_0_r | by rewrite Heq, app_nil_r | | rewrite Heq; lia | rewrite Heq; lia].
      intros Hf stop [= <-]. by destruct (Hflow Hf) as [? | [-> ?]].
Qed.
