(* ===== verification/SubscriberFrames.v ===== *)
(** * Data frames on a stream

    [receiveUdsAvailable] puts a data frame together from whatever fragments the socket yields,
    within one call or over several.  [parse_frame] is the reference: what the bytes since the
    last frame boundary mean.  The receive agrees with it on every stream and every
    fragmentation. *)

From Stdlib Require Import ZArith Lia Bool String.
From stdpp Require Import base gmap list strings option.
From S2P Require Import Prelude Types Outcome BigEndian FrameProtocol PoolProtocol QueueProtocol PoolLayout MemoryPool MemoryPoolView SocketIo SubscriberQueue QueueTheorems PublisherState Publisher PublisherInvariant PublisherMethods PublisherReleases UnixListener SampleView SubscriberState Subscriber SubscriberInvariant.

Local Open Scope Z_scope.

(** ** The payload loop *)

Lemma fill_payload_ok fuel : forall s, sub_core s ->
  0 <= si_payload_bytes (su_impl s) <= Z.of_nat (length (si_payload (su_impl s))) -> (conn_size s < fuel)%nat ->
  wp (fill_payload fuel) s (fun stopped s' => exists got payload, received s s' got /\
    su_impl s' = su_impl s <| si_payload := payload |> <| si_payload_bytes := si_payload_bytes (su_impl s) + Z.of_nat (length got) |> /\
    length payload = length (si_payload (su_impl s)) /\
    payload_received (su_impl s') = payload_received (su_impl s) ++ got /\
    stop_ok s s' stopped /\
    match stopped with
    | None => si_payload_bytes (su_impl s') = Z.of_nat (length payload)
    | Some _ => 0 <= si_payload_bytes (su_impl s') < Z.of_nat (length payload)
    end).
Proof.
  induction fuel as [|fuel IH]; intros s Hcore Hb Hfuel; [lia|].
  cbn [fill_payload]. apply wp_bind. unfold self, gets, wp at 1. cbv zeta. destruct (negb _) eqn:Hfull; bools.
  { apply wp_ret. exists [], (si_payload (su_impl s)). split_and!; [by apply received_refl | | done | by rewrite app_nil_r | done | lia].
    destruct s as [[] ? ? ? ?]; simpl. by rewrite Z.add_0_r. }
  apply wp_bind. eapply wp_mono; [|apply recv_connection_ok; [done | lia]]. intros [bytes|errno] s1 [Heq Hanswer].
  - destruct Hanswer as (Hrv & Hlen & Hty & Hlt & Hne). destruct (0 <? Z.of_nat (length bytes)) eqn:Hpos; bools.
    2: { apply wp_ret. exists bytes, (si_payload (su_impl s)). assert (bytes = []) as -> by (by destruct bytes).
         split_and!; [done | | done | by rewrite Heq, app_nil_r | by intros Hf; apply Hne in Hf | rewrite Heq; lia | rewrite Heq; lia].
         rewrite Heq. destruct (su_impl s); simpl. by rewrite Z.add_0_r. }
    apply wp_bind. unfold set_self, modify, wp at 1. set (s2 := s1 <| su_impl := _ |>).
    assert (Hrv2 : received s1 s2 []).
    { apply (received_self s1 (fun m => m <| si_payload := put_at (Z.to_nat (si_payload_bytes m)) bytes (si_payload m) |> <| si_payload_bytes := si_payload_bytes m + Z.of_nat (length bytes) |>)); [|done].
      pose proof (mo_core _ _ (rv_moved _ _ _ Hrv)) as Hc1. by apply moved_self; simpl; try done; apply Hc1. }
    pose proof (received_trans _ _ _ _ _ Hrv Hrv2) as Hrv3. rewrite app_nil_r in Hrv3.
    assert (Hsize2 : conn_size s2 = conn_size s1) by done.
    eapply wp_mono; [|apply IH; [apply (rv_moved _ _ _ Hrv2) | simpl; rewrite Heq, length_put_at; lia | lia]].
    intros stopped s3 (got & payload & Hrv4 & Himpl & Hlp & Hrec & Hstop & Hres).
    exists (bytes ++ got), payload. split_and!.
    + by eapply received_trans.
    + rewrite Himpl. unfold s2. rewrite Heq, length_app, Nat2Z.inj_add, Z.add_assoc. reflexivity.
    + rewrite Hlp. simpl. by rewrite length_put_at, Heq.
    + rewrite Hrec, app_assoc. f_equal. unfold payload_received. simpl. rewrite Heq. apply take_put_at; lia.
    + intros Hf stop Hs. apply Hstop; [|done]. by apply (rv_flow _ _ _ Hrv3).
    + by destruct stopped.
  - destruct Hanswer as (Hrv & Hint & Hflow). destruct (errno =? EINTR) eqn:He; bools.
    + eapply wp_mono; [|apply IH; [apply (rv_moved _ _ _ Hrv) | rewrite Heq; lia | specialize (Hint He); lia]].
      rewrite Heq. intros stopped s3 (got & payload & Hrv4 & Himpl & Hlp & Hrec & Hstop & Hres). exists got, payload.
      pose proof (received_trans _ _ _ _ _ Hrv Hrv4) as Hrv5. split_and!; try done.
      intros Hf. by apply Hstop, (rv_flow _ _ _ Hrv).
    + apply wp_ret. exists [], (si_payload (su_impl s)).
      split_and!; [done | rewrite Heq; destruct (su_impl s); simpl; by rewrite Z.add_0_r | done | by rewrite Heq, app_nil_r | | rewrite Heq; lia | rewrite Heq; lia].
      intros Hf stop [= <-]. by destruct (Hflow Hf) as [? | [-> ?]].
Qed.

(** ** The reference *)

Inductive parsed :=
  | ParseMore
  | ParseRefused (status : UdsReceiveStatus)
  | ParseDone (message : ReceivedMessage) (rest : list Z).

(** What a complete header says: the header of a frame to receive, or why it is refused. *)
Definition judge_header (max_message_size : Z) (bytes : list Z) : FrameHeader + UdsReceiveStatus :=
  match decodeFrameHeader (Some bytes) with
  | None => inr UdsInvalidFrame
  | Some header =>
      match validateFrameHeader header max_message_size with
      | FrameBadMagic => inr (if fh_magic header =? kQueueProtocolMagic then UdsTransportMismatch else UdsInvalidFrame)
      | FramePayloadTooLarge => inr UdsMessageTooLarge
      | FrameValid => inl header
      end
  end.

Definition parse_frame (max_message_size : Z) (bytes : list Z) : parsed :=
  if (length bytes <? kFrameHeaderSize)%nat then ParseMore else
  match judge_header max_message_size (take kFrameHeaderSize bytes) with
  | inr status => ParseRefused status
  | inl header =>
      let size := Z.to_nat (fh_payload_size header) in
      if (length bytes <? kFrameHeaderSize + size)%nat then ParseMore else
      ParseDone (mkReceivedMessage (take size (drop kFrameHeaderSize bytes)) (fh_sequence header) (fh_timestamp_ns header) 0 0 0 0)
        (drop (kFrameHeaderSize + size) bytes)
  end.

(** The bytes since the last frame boundary that the subscriber has taken. *)
Definition frame_received (m : SubscriberImpl) : list Z := header_received m ++ payload_received m.

Definition uds (s : SubState) : Prop := uc_transport (si_config (su_impl s)) <> SharedMemory.
Definition max_size (s : SubState) : Z := uc_max_message_size (si_config (su_impl s)).

Lemma uds_header_size s : uds s -> header_size (su_impl s) = kFrameHeaderSize.
Proof. intros Hu. unfold header_size. by rewrite bool_decide_false. Qed.

(** ** A complete header *)

Lemma judge_header_decoded max bytes h : judge_header max bytes = inl h ->
  decodeFrameHeader (Some bytes) = Some h /\ validateFrameHeader h max = FrameValid.
Proof. unfold judge_header. destruct (decodeFrameHeader _); [|done]. by destruct (validateFrameHeader _ _) eqn:Hv; intros [= <-]. Qed.

Lemma judge_refuses max bytes status : judge_header max bytes = inr status ->
  status = UdsInvalidFrame \/ status = UdsTransportMismatch \/ status = UdsMessageTooLarge.
Proof.
  unfold judge_header. destruct (decodeFrameHeader _); [|intros [= <-]; auto].
  destruct (validateFrameHeader _ _); [done | destruct (_ =? _) |]; intros [= <-]; auto.
Qed.

Lemma length_resize size v : 0 <= size -> Z.of_nat (length (resize size v)) = size.
Proof. intros. unfold resize. rewrite length_app, length_take, length_replicate. lia. Qed.

Lemma accept_header_ok s : sub_core s -> uds s -> frame_ok (su_impl s) ->
  si_header_bytes (su_impl s) = Z.of_nat kFrameHeaderSize ->
  wp accept_header s (fun refused s' => received s s' [] /\ header_received (su_impl s') = header_received (su_impl s) /\
    match judge_header (max_size s) (header_received (su_impl s)) with
    | inl h => refused = None /\ frame_ok (su_impl s') /\ payload_received (su_impl s') = payload_received (su_impl s) /\
        si_decoded_header (su_impl s') = Some h
    | inr status => refused = Some status /\ payload_received (su_impl s) = []
    end).
Proof.
  intros Hcore Hu Hframe Hhb. unfold accept_header. apply wp_bind. unfold self, gets, wp at 1.
  pose proof (fo_decoded _ Hframe) as Hdec.
  assert (Hrec : header_received (su_impl s) = take kFrameHeaderSize (si_header_buffer (su_impl s))).
  { unfold header_received. by rewrite Hhb, Nat2Z.id. }
  destruct (si_decoded_header (su_impl s)) as [h|] eqn:Hd.
  { destruct Hdec as (_ & Hdecode & Hvalid & Hlen). apply wp_ret. split_and!; [by apply received_refl | done |].
    unfold judge_header, max_size. rewrite Hrec, Hdecode, Hvalid. by split_and!. }
  destruct Hdec as [Hnil Hzero]. rewrite Hrec. cbv zeta. apply wp_bind. unfold set_self, modify, wp at 1.
  set (bytes := take kFrameHeaderSize (si_header_buffer (su_impl s))) in *. unfold judge_header, max_size.
  assert (Hself : forall f, let m := f (su_impl s) in si_config m = si_config (su_impl s) -> si_queue m = si_queue (su_impl s) ->
    identity m = identity (su_impl s) -> si_pool_view m = si_pool_view (su_impl s) -> si_header_buffer m = si_header_buffer (su_impl s) ->
    si_release_context m = si_release_context (su_impl s) -> received s (s <| su_impl := f (su_impl s) |>) []).
  { intros f m Hc Hq Hi Hp Hb Hr. apply received_self; [|done]. apply moved_self; subst m; rewrite ?Hc, ?Hq, ?Hp, ?Hb; try done; apply Hcore. }
  assert (Hpay : payload_received (su_impl s) = []) by (unfold payload_received; rewrite Hnil; apply take_nil).
  destruct (decodeFrameHeader (Some bytes)) as [h|] eqn:Hdecode.
  2: { apply wp_ret. split_and!; [by apply (Hself (fun m => m <| si_decoded_header := None |>)) | done | done | done]. }
  destruct (validateFrameHeader h _) eqn:Hvalid.
  2, 3: apply wp_ret; split_and!; [by apply (Hself (fun m => m <| si_decoded_header := Some h |>)) | done | done | done].
  apply wp_bind. unfold modify, wp at 1. apply wp_ret. simpl. rewrite Hnil.
  split_and!; [by apply (Hself (fun m => m <| si_decoded_header := Some h |> <| si_payload := resize (fh_payload_size h) [] |>)) | done | done | | | done].
  - assert (FrameHeader_typed h) as (_ & Hsz & _).
    { eapply frame_decode_typed; [|exact Hdecode]. unfold bytes. apply Forall_take, Hcore. }
    destruct Hframe as [Hh _ _]. split; simpl; [done | split_and!; try done; apply length_resize; unfold fits in Hsz; lia |].
    rewrite Hzero, length_resize; unfold fits in Hsz; lia.
  - unfold payload_received. simpl. by rewrite Hzero, Hnil, take_0, take_nil.
Qed.

(** ** One receive *)

(** The object between frames. *)
Definition frame_start (m : SubscriberImpl) : SubscriberImpl :=
  m <| si_header_bytes := 0 |> <| si_decoded_header := None |> <| si_payload := [] |> <| si_payload_bytes := 0 |>.

Lemma frame_start_ok m : frame_ok (frame_start m) /\ frame_received (frame_start m) = [].
Proof. split; [|done]. by split; simpl; try lia. Qed.

Lemma received_start s : sub_core s -> received s (s <| su_impl := frame_start (su_impl s) |>) [].
Proof. intros Hcore. apply (received_self s frame_start); [|done]. apply moved_self; simpl; try done; apply Hcore. Qed.

(** What one receive does with the bytes [got] it takes: [all] are those of the frame. *)
Definition receive_result (max : Z) (all : list Z) (r : UdsReceiveResult) (m' : SubscriberImpl) : Prop :=
  match ur_status r with
  | UdsNeedMore => ur_message r = None /\ parse_frame max all = ParseMore /\ frame_ok m' /\ frame_received m' = all
  | UdsMessageReady => exists message, ur_message r = Some message /\ parse_frame max all = ParseDone message [] /\
      frame_ok m' /\ frame_received m' = []
  | UdsDisconnected | UdsTruncated | UdsIoError => ur_message r = None
  | status => ur_message r = None /\ parse_frame max all = ParseRefused status
  end.

(** The connection ended. *)
Definition connection_over (status : UdsReceiveStatus) : Prop :=
  status = UdsDisconnected \/ status = UdsTruncated \/ status = UdsIoError.

(** On a flowing connection a receive stops only when the bytes run out or the frame ends. *)
Definition receive_stops (s s' : SubState) (r : UdsReceiveResult) : Prop :=
  conn_flowing s -> ~ connection_over (ur_status r) /\ (ur_status r = UdsNeedMore -> conn_stream s' = []).

Lemma length_header_received s : sub_core s -> 0 <= si_header_bytes (su_impl s) <= Z.of_nat kQueueWakeSize ->
  length (header_received (su_impl s)) = Z.to_nat (si_header_bytes (su_impl s)).
Proof. intros Hcore Hb. unfold header_received. rewrite length_take, (proj1 (sc_buffer _ Hcore)). lia. Qed.

Lemma length_payload_received m : 0 <= si_payload_bytes m <= Z.of_nat (length (si_payload m)) ->
  length (payload_received m) = Z.to_nat (si_payload_bytes m).
Proof. intros Hb. unfold payload_received. rewrite length_take. lia. Qed.

(** The header is not complete. *)
Lemma parse_short max bytes : (length bytes < kFrameHeaderSize)%nat -> parse_frame max bytes = ParseMore.
Proof. intros Hlen. unfold parse_frame. by rewrite (proj2 (Nat.ltb_lt _ _)). Qed.

(** The header is complete, and what follows it is the payload so far. *)
Lemma parse_judged max header payload : length header = kFrameHeaderSize ->
  parse_frame max (header ++ payload) =
  match judge_header max header with
  | inr status => ParseRefused status
  | inl h =>
      let size := Z.to_nat (fh_payload_size h) in
      if (length payload <? size)%nat then ParseMore else
      ParseDone (mkReceivedMessage (take size payload) (fh_sequence h) (fh_timestamp_ns h) 0 0 0 0) (drop size payload)
  end.
Proof.
  intros Hlen. unfold parse_frame. rewrite length_app, Hlen, (proj2 (Nat.ltb_ge _ _)) by lia.
  rewrite take_app_length' by done. destruct (judge_header max header) as [h|status]; [|done]. cbv zeta.
  rewrite (drop_app_length' header) by done. rewrite <- drop_drop, (drop_app_length' header) by done.
  destruct (Nat.ltb_spec (length payload) (Z.to_nat (fh_payload_size h))).
  - by rewrite (proj2 (Nat.ltb_lt _ _)) by lia.
  - by rewrite (proj2 (Nat.ltb_ge _ _)) by lia.
Qed.

Lemma wp_connection_fuel s (Q : nat -> SubState -> Prop) : Q (S (conn_size s)) s -> wp connection_fuel s Q.
Proof.
  intros HQ. unfold connection_fuel, conn_size, conn_socket in *. apply wp_bind. unfold this, wp at 1. apply wp_ret.
  by destruct (si_release_context (su_impl s)).
Qed.

(** The payload has been received up to [stopped]. *)
Lemma receive_payload_ok s h : sub_core s -> uds s -> frame_ok (su_impl s) -> si_decoded_header (su_impl s) = Some h ->
  wp (fuel ← connection_fuel;
      stopped ← fill_payload fuel;
      match stopped with
      | Some StopClosed => mret (mkUdsReceiveResult UdsTruncated None)
      | Some (StopErrno errno) =>
          if errno =? EAGAIN then mret (mkUdsReceiveResult UdsNeedMore None) else mret (mkUdsReceiveResult UdsIoError None)
      | None =>
          m ← self;
          header ← or_undef (si_decoded_header m);
          resetFrame;;
          mret (mkUdsReceiveResult UdsMessageReady
                 (Some (mkReceivedMessage (si_payload m) (fh_sequence header) (fh_timestamp_ns header) 0 0 0 0)))
      end) s (fun r s' => exists got, received s s' got /\ receive_stops s s' r /\
        receive_result (max_size s) (frame_received (su_impl s) ++ got) r (su_impl s')).
Proof.
  intros Hcore Hu Hframe Hdec. pose proof (fo_decoded _ Hframe) as Hd. rewrite Hdec in Hd. destruct Hd as (Hhb & Hdecode & Hvalid & Hlen).
  pose proof (fo_payload _ Hframe) as Hpb.
  apply wp_bind, wp_connection_fuel, wp_bind. eapply wp_mono; [|apply fill_payload_ok; [done | done | lia]].
  intros stopped s1 (got & payload & Hrv & Himpl & Hlp & Hrec & Hstop & Hres).
  assert (Hhl : length (header_received (su_impl s)) = kFrameHeaderSize).
  { rewrite length_header_received; [by rewrite Hhb, Nat2Z.id | done | rewrite Hhb; unfold kFrameHeaderSize, kQueueWakeSize, kQueueWakeHeaderSize; lia]. }
  assert (Hhr : header_received (su_impl s1) = header_received (su_impl s)) by (by rewrite Himpl).
  assert (Hall : frame_received (su_impl s) ++ got = header_received (su_impl s) ++ payload_received (su_impl s1)).
  { unfold frame_received. by rewrite Hrec, app_assoc. }
  assert (Hframe1 : 0 <= si_payload_bytes (su_impl s1) <= Z.of_nat (length payload) -> frame_ok (su_impl s1)).
  { intros Hb. destruct Hframe as [Hf1 _ _]. rewrite Himpl in *. split; simpl in *; [done | rewrite Hdec; split_and!; try done; congruence | done]. }
  assert (Hparse : parse_frame (max_size s) (frame_received (su_impl s) ++ got) =
    if (length (payload_received (su_impl s1)) <? length payload)%nat then ParseMore else
    ParseDone (mkReceivedMessage (take (length payload) (payload_received (su_impl s1))) (fh_sequence h) (fh_timestamp_ns h) 0 0 0 0) (drop (length payload) (payload_received (su_impl s1)))).
  { rewrite Hall, parse_judged by done. unfold judge_header, max_size.
    assert (Heq : header_received (su_impl s) = take kFrameHeaderSize (si_header_buffer (su_impl s))) by (unfold header_received; by rewrite Hhb, Nat2Z.id).
    rewrite Heq, Hdecode, Hvalid. cbv zeta. by replace (Z.to_nat (fh_payload_size h)) with (length payload) by lia. }
  assert (Hpay1 : si_payload (su_impl s1) = payload) by (by rewrite Himpl).
  destruct stopped as [[|errno]|].
  - apply wp_ret. exists got. split_and!; [done | | done]. intros Hf. by destruct (Hstop Hf _ eq_refl).
  - destruct (errno =? EAGAIN) eqn:He; bools; apply wp_ret; exists got; (split_and!; [done | |]).
    + intros Hf. destruct (Hstop Hf _ eq_refl) as [_ Hnil]. split; [by intros [|[|]] | done].
    + assert (length (payload_received (su_impl s1)) < length payload)%nat.
      { rewrite length_payload_received by (rewrite Hpay1; lia). lia. }
      split_and!; [done | by rewrite Hparse, (proj2 (Nat.ltb_lt _ _)) | apply Hframe1; lia |].
      unfold frame_received. by rewrite Hhr, Hrec, app_assoc.
    + intros Hf. destruct (Hstop Hf _ eq_refl) as [[= ->] _]. done.
    + done.
  - apply wp_bind. unfold self, gets, wp at 1. apply wp_bind.
    assert (si_decoded_header (su_impl s1) = Some h) as -> by (by rewrite Himpl).
    apply wp_ret, wp_bind. unfold resetFrame, set_self, modify, wp at 1. apply wp_ret. exists got. split_and!.
    + rewrite <- (app_nil_r got). eapply received_trans; [exact Hrv|]. apply received_start, (rv_moved _ _ _ Hrv).
    + intros Hf. split; [by intros [|[|]] | done].
    + exists (mkReceivedMessage (si_payload (su_impl s1)) (fh_sequence h) (fh_timestamp_ns h) 0 0 0 0).
      assert (Hfull : payload_received (su_impl s1) = payload).
      { unfold payload_received. rewrite Hres, Hpay1, Nat2Z.id. by apply take_ge. }
      split_and!; [done | | apply frame_start_ok..]. rewrite Hparse, Hfull, Nat.ltb_irrefl, take_ge, drop_ge, Hpay1 by lia. done.
Qed.

(** Header bytes are received before anything of the payload. *)
Lemma header_step m buffer got :
  frame_ok m -> header_size m = kFrameHeaderSize ->
  let m' := m <| si_header_buffer := buffer |> <| si_header_bytes := si_header_bytes m + Z.of_nat (length got) |> in
  0 <= si_header_bytes m' <= Z.of_nat kFrameHeaderSize -> header_received m' = header_received m ++ got ->
  frame_ok m' /\ frame_received m' = frame_received m ++ got.
Proof.
  intros [Hh Hd Hp] Hhs m' Hb Hrec. unfold frame_received. rewrite Hrec.
  assert (Hpay : payload_received m' = payload_received m) by done. rewrite Hpay.
  destruct (si_decoded_header m) as [h|] eqn:Hdec.
  - destruct Hd as (Hhb & Hdecode & Hvalid & Hlen). simpl in Hb. assert (got = []) as -> by (destruct got; [done | simpl in Hb; lia]).
    rewrite !app_nil_r in *. split; [|done].
    assert (Htake : take kFrameHeaderSize buffer = take kFrameHeaderSize (si_header_buffer m)).
    { unfold header_received in Hrec. simpl in Hrec. by rewrite Z.add_0_r, Hhb, Nat2Z.id in Hrec. }
    split; unfold m'; simpl; [rewrite Z.add_0_r; exact Hh | rewrite Hdec, Htake, Z.add_0_r; by split_and! | exact Hp].
  - destruct Hd as [Hnil Hzero]. assert (payload_received m = []) as -> by (unfold payload_received; rewrite Hnil; apply take_nil).
    rewrite !app_nil_r. split; [|done]. split; [|unfold m'; simpl; by rewrite Hdec | exact Hp].
    unfold header_size in *. change (si_config m') with (si_config m). rewrite Hhs. exact Hb.
Qed.

Lemma receiveUdsAvailable_ok s : sub_core s -> uds s -> frame_ok (su_impl s) ->
  wp receiveUdsAvailable s (fun r s' => exists got, received s s' got /\ receive_stops s s' r /\
    receive_result (max_size s) (frame_received (su_impl s) ++ got) r (su_impl s')).
Proof.
  intros Hcore Hu Hframe. unfold receiveUdsAvailable. cbv zeta.
  pose proof (fo_header _ Hframe) as Hhb. pose proof (uds_header_size _ Hu) as Hhs. rewrite Hhs in Hhb.
  assert (Hks : (kFrameHeaderSize <= kQueueWakeSize)%nat) by (unfold kFrameHeaderSize, kQueueWakeSize, kQueueWakeHeaderSize; lia).
  apply wp_bind, wp_connection_fuel, wp_bind. eapply wp_mono; [|apply fill_header_ok; [done | done | done | lia]].
  intros stopped s1 (got & buffer & Hrv & Himpl & Hrec & Hstop & Hres). pose proof (mo_core _ _ (rv_moved _ _ _ Hrv)) as Hcore1.
  assert (Hb1 : 0 <= si_header_bytes (su_impl s1) <= Z.of_nat kFrameHeaderSize) by (destruct stopped; lia).
  assert (Hstep : frame_ok (su_impl s1) /\ frame_received (su_impl s1) = frame_received (su_impl s) ++ got).
  { rewrite Himpl in *. by apply header_step. }
  destruct Hstep as [Hframe1 Hall].
  assert (Hmax : max_size s1 = max_size s) by (unfold max_size; by rewrite Himpl).
  assert (Hl1 : length (header_received (su_impl s1)) = Z.to_nat (si_header_bytes (su_impl s1))) by (apply length_header_received; [done | lia]).
  destruct stopped as [stop|].
  - assert (Hover : forall r s', s' = s1 -> connection_over (ur_status r) -> ur_message r = None -> stop <> StopErrno EAGAIN ->
      exists got, received s s' got /\ receive_stops s s' r /\ receive_result (max_size s) (frame_received (su_impl s) ++ got) r (su_impl s')).
    { intros r s' -> Hr Hm Hne. exists got. split_and!; [done | intros Hf; by destruct (Hstop Hf _ eq_refl) |].
      unfold receive_result. by destruct Hr as [-> | [-> | ->]]. }
    destruct stop as [|errno].
    + apply wp_bind. unfold self, gets, wp at 1. apply wp_ret. apply Hover; try done. simpl. destruct (_ =? 0); [by left | right; by left].
    + destruct (errno =? EAGAIN) eqn:He; bools.
      * apply wp_ret. exists got. split_and!; [done | |].
        -- intros Hf. destruct (Hstop Hf _ eq_refl). split; [by intros [|[|]] | done].
        -- split_and!; [done | | done | done]. rewrite <- Hall. apply parse_short. unfold frame_received. rewrite length_app, Hl1.
           assert (payload_received (su_impl s1) = []) as ->.
           { pose proof (fo_decoded _ Hframe1) as Hd. destruct (si_decoded_header (su_impl s1)); [destruct Hd as [Hd _]; lia|].
             destruct Hd as [Hnil _]. unfold payload_received. rewrite Hnil. apply take_nil. }
           simpl. lia.
      * destruct (_ || _); apply wp_ret, Hover; try done; try (by left); try (by right; right); congruence.
  - destruct Hres as [Hhb1 _]. apply wp_bind. eapply wp_mono; [|apply accept_header_ok; [done | unfold uds; by rewrite Himpl | done | done]].
    intros refused s2 (Hrv2 & Hhr2 & Hjudge). pose proof (received_trans _ _ _ _ _ Hrv Hrv2) as Hrv3. rewrite app_nil_r in Hrv3.
    rewrite Hmax in Hjudge.
    assert (Hlh : length (header_received (su_impl s1)) = kFrameHeaderSize) by (rewrite Hl1; lia).
    destruct (judge_header (max_size s) (header_received (su_impl s1))) as [h|status] eqn:Hj.
    + destruct Hjudge as (-> & Hframe2 & Hpay2 & Hdec2).
      assert (Hu2 : uds s2) by (unfold uds; by rewrite (mo_config _ _ (rv_moved _ _ _ Hrv3))).
      assert (Hmax2 : max_size s2 = max_size s) by (unfold max_size; by rewrite (mo_config _ _ (rv_moved _ _ _ Hrv3))).
      eapply wp_mono; [|apply (receive_payload_ok s2 h); [apply (rv_moved _ _ _ Hrv3) | done | done | done]].
      intros r s3 (got2 & Hrv4 & Hstop4 & Hres4). exists (got ++ got2). split_and!; [by eapply received_trans | |].
      * intros Hf. by apply Hstop4, (rv_flow _ _ _ Hrv3).
      * rewrite Hmax2 in Hres4. unfold frame_received in Hres4 at 1. rewrite Hhr2, Hpay2 in Hres4. fold (frame_received (su_impl s1)) in Hres4.
        by rewrite Hall, <- app_assoc in Hres4.
    + destruct Hjudge as [-> Hpay]. apply wp_ret. exists got. pose proof (judge_refuses _ _ _ Hj) as Hst. split_and!; [done | |].
      * intros _. simpl. split; [by intros [|[|]]; destruct Hst as [|[|]]; subst | by destruct Hst as [-> | [-> | ->]]].
      * assert (Hparse : parse_frame (max_size s) (frame_received (su_impl s1)) = ParseRefused status).
        { unfold frame_received. by rewrite parse_judged, Hj. }
        rewrite <- Hall. unfold receive_result. simpl. by destruct Hst as [-> | [-> | ->]].
Qed.

(** ** Agreement with the reference *)

Lemma parse_frame_app max bytes rest :
  parse_frame max (bytes ++ rest) =
  match parse_frame max bytes with
  | ParseMore => parse_frame max (bytes ++ rest)
  | ParseRefused status => ParseRefused status
  | ParseDone message more => ParseDone message (more ++ rest)
  end.
Proof.
  destruct (Nat.ltb_spec (length bytes) kFrameHeaderSize) as [Hs | Hl]; [by rewrite (parse_short max bytes)|].
  rewrite <- (take_drop kFrameHeaderSize bytes). assert (Hh : length (take kFrameHeaderSize bytes) = kFrameHeaderSize) by (rewrite length_take; lia).
  rewrite <- app_assoc, !parse_judged by done. destruct (judge_header _ _) as [h|status]; [|done]. cbv zeta.
  destruct (Nat.ltb_spec (length (drop kFrameHeaderSize bytes)) (Z.to_nat (fh_payload_size h))); [done|].
  rewrite (proj2 (Nat.ltb_ge _ _)) by (rewrite length_app; lia). by rewrite take_app_le, drop_app_le by lia.
Qed.

(** A message takes a whole header and its payload off the stream. *)
Definition agrees (p : parsed) (all : list Z) (r : UdsReceiveResult) (s' : SubState) : Prop :=
  match p with
  | ParseMore => r = mkUdsReceiveResult UdsNeedMore None /\ frame_ok (su_impl s') /\ frame_received (su_impl s') = all /\ conn_stream s' = []
  | ParseDone message rest => r = mkUdsReceiveResult UdsMessageReady (Some message) /\ frame_ok (su_impl s') /\
      frame_received (su_impl s') = [] /\ conn_stream s' = rest
  | ParseRefused status => r = mkUdsReceiveResult status None
  end.

Lemma receive_agrees s : sub_core s -> uds s -> frame_ok (su_impl s) -> conn_flowing s ->
  wp receiveUdsAvailable s (fun r s' => (exists got, received s s' got) /\ conn_flowing s' /\
    agrees (parse_frame (max_size s) (frame_received (su_impl s) ++ conn_stream s)) (frame_received (su_impl s) ++ conn_stream s) r s').
Proof.
  intros Hcore Hu Hframe Hflow. eapply wp_mono; [|by apply receiveUdsAvailable_ok].
  intros r s' (got & Hrv & Hstop & Hres). split_and!; [by exists got | by apply (rv_flow _ _ _ Hrv) |].
  destruct (Hstop Hflow) as [Hno Hneed]. rewrite (rv_stream _ _ _ Hrv), app_assoc, parse_frame_app.
  destruct r as [status message]. unfold receive_result in Hres. simpl in *.
  destruct status; try (destruct Hno; unfold connection_over; tauto).
  - destruct Hres as (-> & Hp & Hf & Hr). rewrite (Hneed eq_refl), app_nil_r, Hp. by split_and!; auto.
  - destruct Hres as (msg & -> & -> & Hf & Hr). by split_and!.
  - destruct Hres as [-> ->]. done.
  - destruct Hres as [-> ->]. done.
  - destruct Hres as [-> ->]. done.
Qed.

(** What a publisher sends parses to what it published. *)
Lemma parse_published max sequence timestamp payload rest :
  fits 64 sequence -> fits 64 timestamp -> Z.of_nat (length payload) <= max -> Z.of_nat (length payload) <= u32_max ->
  parse_frame max ((encodeFrameHeader (mkFrameHeader kFrameMagic (Z.of_nat (length payload)) sequence timestamp) ++ payload) ++ rest) =
  ParseDone (mkReceivedMessage payload sequence timestamp 0 0 0 0) rest.
Proof.
  intros Hs Ht Hmax Hu. rewrite <- app_assoc, parse_judged by apply length_encodeFrameHeader. unfold judge_header.
  rewrite decode_encode_frame by (unfold FrameHeader_typed; simpl; split_and!; try done; unfold fits, umax, kFrameMagic in *; lia).
  unfold validateFrameHeader. cbn [fh_magic fh_payload_size fh_sequence fh_timestamp_ns]. rewrite Z.eqb_refl. cbn [negb].
  rewrite (proj2 (Z.ltb_ge _ _)) by done. cbv zeta. cbn [fh_payload_size fh_sequence fh_timestamp_ns]. rewrite Nat2Z.id.
  rewrite (proj2 (Nat.ltb_ge _ _)) by (rewrite length_app; lia). by rewrite take_app_length, drop_app_length.
Qed.
