(* ===== verification/SubscriberMethods.v ===== *)
(** * The methods of the subscriber

    Method by method: every call of a subscriber returns, whatever its peers and the other
    processes do, and keeps [sub_ok]; a view it hands out lies inside the mapping of its pool
    and below the size limit. *)

From Stdlib Require Import ZArith Lia Bool String.
From stdpp Require Import base gmap list strings option.
From S2P Require Import Prelude Types Outcome BigEndian FrameProtocol PoolProtocol QueueProtocol PoolLayout MemoryPool PoolSpec PoolCreation MemoryPoolView SocketIo SubscriberQueue QueueTheorems PublisherState Publisher PublisherInvariant PublisherMethods PublisherReleases UnixListener SampleView SubscriberState Subscriber SubscriberInvariant SubscriberFrames.

Local Open Scope Z_scope.

(** ** Definitions *)

(** The buffers between two receives: a wake that is complete is decoded at once. *)
Definition between (m : SubscriberImpl) : Prop :=
  if bool_decide (uc_transport (si_config m) = SharedMemory)
  then 0 <= si_header_bytes m < Z.of_nat kQueueWakeSize else frame_ok m.

Definition sub_ok (s : SubState) : Prop := sub_core s /\ between (su_impl s).

(** A method took [s] to [s']. *)
Definition goes (s s' : SubState) : Prop := moved s s' /\ between (su_impl s').

Lemma goes_refl s : sub_ok s -> goes s s.
Proof. intros [Hc Hb]. by split; [apply moved_refl|]. Qed.
Lemma goes_trans s1 s2 s3 : goes s1 s2 -> goes s2 s3 -> goes s1 s3.
Proof. intros [? _] [? ?]. split; [by eapply moved_trans | done]. Qed.
Lemma goes_ok s s' : goes s s' -> sub_ok s'.
Proof. intros [Hm Hb]. by split; [apply Hm|]. Qed.
Lemma goes_same s s' : between (su_impl s) -> same_self s s' -> goes s s'.
Proof. intros Hb [Hm Heq]. split; [done | by rewrite Heq]. Qed.
#[local] Hint Resolve goes_refl goes_trans goes_ok : core.

Lemma between_start m : between (frame_start m).
Proof. unfold between. case_bool_decide; [simpl; unfold kQueueWakeSize, kQueueWakeHeaderSize; lia | apply frame_start_ok]. Qed.

Lemma between_same m m' : si_config m' = si_config m -> si_header_buffer m' = si_header_buffer m ->
  si_header_bytes m' = si_header_bytes m -> si_decoded_header m' = si_decoded_header m -> si_payload m' = si_payload m ->
  si_payload_bytes m' = si_payload_bytes m -> between m -> between m'.
Proof.
  intros Hc Hb Hn Hd Hp Hpn. unfold between. rewrite Hc, Hn. case_bool_decide; [done|]. intros [H1 H2 H3].
  split; unfold header_size in *; rewrite ?Hc, ?Hb, ?Hn, ?Hd, ?Hp, ?Hpn; done.
Qed.

(** A change of the object that leaves what is mapped and the frame alone. *)
Lemma goes_self s f : sub_ok s -> let m := f (su_impl s) in
  si_config m = si_config (su_impl s) -> si_queue m = si_queue (su_impl s) -> identity m = identity (su_impl s) ->
  (forall pool, si_pool_view m = Some pool -> mapped_ok (su_shared s) pool) ->
  si_header_buffer m = si_header_buffer (su_impl s) -> between m -> goes s (s <| su_impl := m |>).
Proof.
  intros [Hc Hb] m Hcfg Hq Hi Hp Hbuf Hbm. split; [|done]. apply moved_self; try done; unfold m in *; rewrite Hbuf; apply Hc.
Qed.

Lemma moved_last_error e s : sub_core s -> moved s (s <| su_impl := su_impl s <| si_last_error := e |> |>).
Proof. intros Hc. apply (moved_self s (fun m => m <| si_last_error := e |>)); try done; apply Hc. Qed.

Lemma set_last_error_ok e s : sub_ok s -> wp (set_last_error e) s (fun _ s' => goes s s' /\
  su_impl s' = su_impl s <| si_last_error := e |> /\ su_shared s' = su_shared s /\ su_kernel s' = su_kernel s).
Proof.
  intros Hok. unfold set_last_error, set_self, modify, wp. split; [|done].
  apply (goes_self s (fun m => m <| si_last_error := e |>)); try done; [apply (sc_pool _ (proj1 Hok))|].
  by eapply between_same; [..|apply Hok].
Qed.

Lemma resetFrame_ok s : sub_core s -> wp resetFrame s (fun _ s' => goes s s' /\ s' = s <| su_impl := frame_start (su_impl s) |>).
Proof.
  intros Hc. unfold resetFrame, set_self, modify, wp. split; [|done]. split; [|apply between_start].
  apply (moved_self s frame_start); simpl; try done; apply Hc.
Qed.

Lemma resetConnection_ok s : sub_core s -> wp resetConnection s (fun _ s' => goes s s' /\
  s' = s <| su_impl := frame_start (su_impl s <| si_release_context := None |>) |>).
Proof.
  intros Hc. unfold resetConnection, resetFrame, set_self, modify, wp. unfold_cpp. split; [|done]. split; [|apply between_start].
  apply (moved_self s (fun m => frame_start (m <| si_release_context := None |>))); simpl; try done; apply Hc.
Qed.

(** ** Connection *)

Lemma acceptPendingConnection_ok s : sub_ok s -> wp acceptPendingConnection s (fun _ s' => goes s s').
Proof.
  intros Hok. unfold acceptPendingConnection. apply wp_bind. unfold self, gets, wp at 1.
  destruct (si_release_context (su_impl s)); [by apply wp_ret; auto|]. apply wp_bind.
  eapply wp_mono; [|apply next_accept_ok, Hok]. intros answer s1 Hs1. pose proof (goes_same _ _ (proj2 Hok) Hs1) as Hg1.
  destruct (accept_connection answer) as [[fd|]| |]; [|exact Hg1 ..].
  apply wp_bind. unfold set_self, modify, wp at 1. eapply wp_mono; [|apply resetFrame_ok].
  - intros u s2 [_ ->]. eapply goes_trans; [exact Hg1|]. split; [|apply between_start].
    apply (moved_self s1 (fun m => frame_start (m <| si_release_context := Some fd |>))); simpl; try done; apply (mo_core _ _ (proj1 Hs1)).
  - pose proof (mo_core _ _ (proj1 Hs1)) as Hc1.
    apply (mo_core s1), (moved_self s1 (fun m => m <| si_release_context := Some fd |>)); simpl; try done; apply Hc1.
Qed.

(** A step that changes only the answers to come. *)
Lemma poll_ok s : sub_ok s -> wp (interfere;; next_poll) s (fun polled s' => goes s s' /\ su_impl s' = su_impl s /\
  (po_result polled <> 0 -> (length (kn_polls (su_kernel s')) < length (kn_polls (su_kernel s)))%nat)).
Proof.
  intros Hok. apply wp_bind. eapply wp_mono; [|apply interfere_ok, Hok]. intros u s1 Hs1.
  pose proof (goes_same _ _ (proj2 Hok) Hs1) as Hg1.
  eapply wp_mono; [|apply next_poll_ok, (mo_core _ _ (proj1 Hs1))]. intros polled s2 [Hs2 Hlt].
  pose proof (goes_same _ _ (proj2 (goes_ok _ _ Hg1)) Hs2) as Hg2. split_and!; [eauto | by rewrite (proj2 Hs2), (proj2 Hs1) |].
  intros Hne. specialize (Hlt Hne). pose proof (mo_polls _ _ (proj1 Hs1)). lia.
Qed.

(** How an iteration goes on: it used up a [poll] unless it stops. *)
Definition poll_post (s : SubState) (step : poll_step) (s' : SubState) : Prop :=
  goes s s' /\
  match step with
  | PollStop => True
  | PollAgain => (length (kn_polls (su_kernel s')) < length (kn_polls (su_kernel s)))%nat
  | PollReady => (length (kn_polls (su_kernel s')) < length (kn_polls (su_kernel s)))%nat /\
      is_Some (si_release_context (su_impl s'))
  end.

Lemma poll_listener_ok s : sub_ok s -> wp poll_listener s (poll_post s).
Proof.
  intros Hok. unfold poll_listener. pose proof (poll_ok s Hok) as Hpoll. unfold wp in Hpoll.
  unfold mbind, cpp_bind in Hpoll |- *. unfold wp. destruct (interfere s) as [[[]| |] s1]; try done.
  destruct (next_poll s1) as [[polled| |] s2]; try done. destruct Hpoll as (Hg & Heq & Hlt).
  pose proof (goes_ok _ _ Hg) as Hok2.
  assert (Hstop : forall e, wp (set_last_error e;; mret PollStop) s2 (poll_post s)).
  { intros e. apply wp_bind. eapply wp_mono; [|by apply set_last_error_ok]. intros u s3 [Hg3 _]. apply wp_ret. by split; [eauto|]. }
  destruct (po_result polled =? 0) eqn:Hz; bools; [apply Hstop|]. specialize (Hlt Hz). destruct (po_result polled <? 0); [destruct (_ =? EINTR)|].
  - by split.
  - apply Hstop.
  - pose proof (acceptPendingConnection_ok s2 Hok2) as Ha. unfold wp in Ha. destruct (acceptPendingConnection s2) as [[[]| |] s3]; try done.
    simpl. pose proof (mo_polls _ _ (proj1 Ha)). destruct (si_release_context (su_impl s3)) eqn:Hctx; (split; [eauto|]); [split; [lia | by rewrite Hctx] | lia].
Qed.

Lemma poll_connection_ok s : sub_ok s -> is_Some (si_release_context (su_impl s)) -> wp poll_connection s (poll_post s).
Proof.
  intros Hok Hctx. unfold poll_connection. pose proof (poll_ok s Hok) as Hpoll. unfold wp in Hpoll.
  unfold mbind, cpp_bind in Hpoll |- *. unfold wp. destruct (interfere s) as [[[]| |] s1]; try done.
  destruct (next_poll s1) as [[polled| |] s2]; try done. destruct Hpoll as (Hg & Heq & Hlt).
  pose proof (goes_ok _ _ Hg) as Hok2.
  destruct (po_result polled =? 0) eqn:Hz; bools.
  { pose proof (set_last_error_ok Timeout s2 Hok2) as [Hg2 _]. by split; [eauto|]. }
  specialize (Hlt Hz). destruct (po_result polled <? 0); [destruct (_ =? EINTR)|].
  - by split.
  - assert (Hwp : wp (set_last_error Types.IoError;; resetConnection;; mret PollStop) s2 (poll_post s)); [|exact Hwp].
    apply wp_bind. eapply wp_mono; [|by apply set_last_error_ok]. intros u s3 [Hg3 _]. apply wp_bind.
    eapply wp_mono; [|apply resetConnection_ok, (goes_ok _ _ Hg3)]. intros u2 s4 [Hg4 _]. apply wp_ret. by split; [eauto|].
  - simpl. destruct (_ =? 0); (split; [done|]); [done | split; [done | by rewrite Heq]].
Qed.

Lemma poll_sockets_ok s : sub_ok s -> wp poll_sockets s (poll_post s).
Proof.
  intros Hok. unfold poll_sockets. apply wp_bind. unfold self, gets, wp at 1. destruct (si_release_context (su_impl s)) eqn:Hctx.
  - apply wp_bind, wp_ret. by apply poll_connection_ok; [|rewrite Hctx].
  - apply wp_bind. eapply wp_mono; [|by apply poll_listener_ok]. intros [] s1 [Hg Hpost]; try (by apply wp_ret).
    destruct Hpost as [Hlt Hs]. eapply wp_mono; [|by apply poll_connection_ok; eauto].
    intros step s2 [Hg2 Hpost2]. split; [eauto|]. destruct step; [|lia|done]. split; [lia | by apply Hpost2].
Qed.

(** ** Queue, pool and release *)

(** *** Methods read and write typed handles *)

Definition handle_typed (o : option ChunkHandle) : Prop := match o with Some h => ChunkHandle_typed h | None => True end.

(** From typed slots [c] returns a value of [P], and whatever its outcome it leaves typed slots. *)
Definition typed_run {A} (P : A -> Prop) (c : cpp SharedQueue A) : Prop :=
  forall q, slots_typed q -> match c q with (Ret a, q') => P a /\ slots_typed q' | (_, q') => slots_typed q' end.

Lemma typed_ret {A} (P : A -> Prop) a : P a -> typed_run P (mret a).
Proof. by intros Ha q Hq. Qed.
Lemma typed_throw {A} (P : A -> Prop) e : typed_run P (throw e).
Proof. by intros q Hq. Qed.
Lemma typed_bind {A B} (P : A -> Prop) (Q : B -> Prop) c k : typed_run P c -> (forall a, P a -> typed_run Q (k a)) -> typed_run Q (c ≫= k).
Proof.
  intros Hc Hk q Hq. specialize (Hc q Hq). unfold mbind, cpp_bind. destruct (c q) as [[a|e|] q1]; [|done|done]. by apply Hk; apply Hc.
Qed.
Lemma typed_header : typed_run (fun _ => True) header_.
Proof. by intros q Hq. Qed.
Lemma typed_set_header f : typed_run (fun _ => True) (set_header f).
Proof. by intros q Hq. Qed.
Lemma typed_ring_mod value n : typed_run (fun _ => True) (ring_mod value n).
Proof. intros q Hq. unfold ring_mod. by destruct (n =? 0). Qed.
Lemma typed_lock lock : typed_run (fun _ => True) (PthreadLock lock).
Proof. intros q Hq. by destruct lock. Qed.
Lemma typed_slot index : typed_run ChunkHandle_typed (slot index).
Proof.
  intros q Hq. unfold slot. unfold_cpp. destruct (0 <=? index); [|done]. destruct (sq_slots q !! _) eqn:Hlook; [|done].
  split; [by eapply Forall_lookup_1|done].
Qed.
Lemma typed_set_slot index handle : ChunkHandle_typed handle -> typed_run (fun _ => True) (set_slot index handle).
Proof.
  intros Hh. unfold set_slot. apply (typed_bind ChunkHandle_typed); [apply typed_slot|]. intros _ _ q Hq. unfold modify. split; [done|].
  unfold slots_typed. simpl. by apply Forall_insert.
Qed.
Lemma typed_advance_head : typed_run (fun _ => True) advance_head.
Proof.
  unfold advance_head. apply (typed_bind (fun _ => True)); [apply typed_header|]. intros h _.
  apply (typed_bind (fun _ => True)); [apply typed_ring_mod|]. intros next _. apply typed_set_header.
Qed.

Lemma typed_locked_head lock (k : ChunkHandle -> cpp SharedQueue (option ChunkHandle)) :
  (forall handle, ChunkHandle_typed handle -> typed_run handle_typed (k handle)) ->
  typed_run handle_typed (locked ← PthreadLock lock; h ← header_;
    if negb locked || (qh_size h =? 0) then mret None else handle ← slot (qh_head h); k handle).
Proof.
  intros Hk. apply (typed_bind (fun _ => True)); [apply typed_lock|]. intros locked _.
  apply (typed_bind (fun _ => True)); [apply typed_header|]. intros h _. destruct (_ || _); [by apply typed_ret|].
  apply (typed_bind ChunkHandle_typed); [apply typed_slot|done].
Qed.

Lemma typed_peek lock : typed_run handle_typed (peek lock).
Proof. apply typed_locked_head. intros handle Hh. by apply typed_ret. Qed.

Lemma typed_tryDequeue lock : typed_run handle_typed (tryDequeue lock).
Proof.
  apply typed_locked_head. intros handle Hh. apply (typed_bind (fun _ => True)); [apply typed_advance_head|]. intros _ _.
  apply (typed_bind (fun _ => True)); [apply typed_set_header|]. intros _ _. by apply typed_ret.
Qed.

Lemma typed_discard_loop n : forall pool_id original_head index kept, typed_run (fun _ => True) (discard_loop n pool_id original_head index kept).
Proof.
  induction n as [|n IH]; intros; cbn [discard_loop]; [by apply typed_ret|].
  apply (typed_bind (fun _ => True)); [apply typed_header|]. intros h _. apply (typed_bind (fun _ => True)); [apply typed_ring_mod|]. intros from _.
  apply (typed_bind ChunkHandle_typed); [apply typed_slot|]. intros handle Hh. destruct (_ && _); [|apply IH].
  apply (typed_bind (fun _ => True)); [apply typed_ring_mod|]. intros to _. apply (typed_bind (fun _ => True)); [by apply typed_set_slot|].
  intros _ _. apply IH.
Qed.

Lemma typed_discardPool lock pool_id : typed_run (fun _ => True) (discardPool lock pool_id).
Proof.
  unfold discardPool. apply (typed_bind (fun _ => True)); [apply typed_lock|]. intros locked _. destruct (negb locked); [by apply typed_ret|].
  apply (typed_bind (fun _ => True)); [apply typed_header|]. intros h _. apply (typed_bind (fun _ => True)); [apply typed_discard_loop|].
  intros kept _. apply (typed_bind (fun _ => True)); [apply typed_ring_mod|]. intros next _. apply typed_set_header.
Qed.

Lemma typed_drain_loop n : typed_run (fun _ => True) (drain_loop n).
Proof.
  induction n as [|n IH]; cbn [drain_loop]; (apply (typed_bind (fun _ => True)); [apply typed_header|]); intros h _;
    (destruct (_ =? 0); [by apply typed_ret|]); [by intros q Hq|].
  apply (typed_bind ChunkHandle_typed); [apply typed_slot|]. intros handle _. apply (typed_bind (fun _ => True)); [apply typed_advance_head|].
  intros _ _. apply (typed_bind (fun _ => True)); [done|]. intros rest _. by apply typed_ret.
Qed.

Lemma typed_closeAndDrain lock : typed_run (fun _ => True) (closeAndDrain lock).
Proof.
  unfold closeAndDrain, drain_all. apply (typed_bind (fun _ => True)); [apply typed_lock|]. intros locked _.
  destruct (negb locked); [apply typed_throw|]. apply (typed_bind (fun _ => True)); [apply typed_set_header|]. intros _ _.
  apply (typed_bind (fun _ => True)); [apply typed_header|]. intros h _. apply (typed_bind (fun _ => True)); [apply typed_drain_loop|].
  intros handles _. apply (typed_bind (fun _ => True)); [apply typed_set_header|]. intros _ _. by apply typed_ret.
Qed.

(** *** Methods return *)

(** The methods of the queue return and keep the ring inside its slots. *)
Definition queue_method {A} (method : lock_result -> cpp SharedQueue A) (P : A -> Prop) : Prop :=
  forall lock q, ring_ok q -> exists a q', method lock q = (Ret a, q') /\ ring_ok q' /\ P a.

Lemma inside_returns {A} (P : A -> Prop) (c : cpp SharedQueue A) q : ring_ok q -> stays_inside (c q) -> no_throw c -> typed_run P c ->
  exists a q', c q = (Ret a, q') /\ ring_ok q' /\ P a.
Proof.
  intros [_ Hty] Hin Hnt Hrun. specialize (Hrun q Hty). unfold stays_inside in Hin.
  destruct (c q) as [[a|e|] q'] eqn:Heq; [|by apply Hnt in Heq|done]. exists a, q'. split_and!; [done|split; [done|apply Hrun]|apply Hrun].
Qed.

Lemma stays_inside_unwrap {A B} (c : cpp SharedQueue A) (f : A -> B) q : stays_inside ((x ← c; mret (f x)) q) -> stays_inside (c q).
Proof. unfold_cpp. by destruct (c q) as [[] ?]. Qed.

Lemma peek_method : queue_method peek handle_typed.
Proof.
  intros lock q Hq. apply inside_returns; [done|exact (stays_inside_unwrap _ _ _ (exec_queue_op_inside (QPeek lock) q (proj1 Hq) I))| |apply typed_peek].
  unfold peek, PthreadLock, makeMutexConsistentAfterOwnerDeath, resetRingAfterOwnerDeath, slot, header_, set_header. no_throw.
Qed.

Lemma tryDequeue_method : queue_method tryDequeue handle_typed.
Proof.
  intros lock q Hq. apply inside_returns; [done|exact (stays_inside_unwrap _ _ _ (exec_queue_op_inside (QTryDequeue lock) q (proj1 Hq) I))| |apply typed_tryDequeue].
  unfold tryDequeue, PthreadLock, makeMutexConsistentAfterOwnerDeath, resetRingAfterOwnerDeath, slot, advance_head, ring_mod, header_, set_header. no_throw.
Qed.

Lemma discard_loop_no_throw n : forall pool_id original_head index kept, no_throw (discard_loop n pool_id original_head index kept).
Proof. induction n as [|n IH]; intros; cbn [discard_loop]; unfold header_, ring_mod, slot, set_slot, slot; no_throw; done || apply IH. Qed.

Lemma discardPool_method pool : queue_method (fun lock => discardPool lock pool) (fun _ => True).
Proof.
  intros lock q Hq. apply inside_returns; [done|apply discardPool_inside, Hq| |apply typed_discardPool].
  unfold discardPool, PthreadLock, makeMutexConsistentAfterOwnerDeath, resetRingAfterOwnerDeath, ring_mod, header_, set_header.
  no_throw; apply discard_loop_no_throw.
Qed.

Lemma moved_queue s client q q' : sub_core s -> si_queue (su_impl s) = Some client ->
  sh_queues (su_shared s) !! qd_shm_name (qc_descriptor client) = Some q -> ring_ok q' ->
  moved s (s <| su_shared := su_shared s <| sh_queues := <[qd_shm_name (qc_descriptor client) := q']> (sh_queues (su_shared s)) |> |>).
Proof.
  intros Hc Hq Hn Hok. apply (moved_shared s _ (su_kernel s)); try done; [| |apply Hc].
  - destruct (sc_shared _ Hc) as [Hs Hp]. by split.
  - split; simpl; [|eauto]. intros name q0 Hn0 Hq0. destruct (decide (name = qd_shm_name (qc_descriptor client))) as [->|].
    + exists q'. by rewrite lookup_insert_eq.
    + exists q0. by rewrite lookup_insert_ne.
Qed.

Lemma on_own_queue_ok {A} (method : lock_result -> cpp SharedQueue A) P client s : sub_core s ->
  si_queue (su_impl s) = Some client -> queue_method method P ->
  wp (on_own_queue client method) s (fun a s' => same_self s s' /\ P a).
Proof.
  intros Hc Hq Hm. unfold on_own_queue. apply wp_bind. eapply wp_mono; [|by apply interfere_ok]. intros u s1 [Hm1 He1].
  apply wp_bind. eapply wp_mono; [|apply next_lock_ok, Hm1]. intros lock s2 [Hm2 He2].
  pose proof (moved_trans _ _ _ Hm1 Hm2) as Hm3. pose proof (mo_core _ _ Hm3) as Hc2.
  assert (Hq2 : si_queue (su_impl s2) = Some client) by (by rewrite He2, He1).
  destruct (sc_queue _ Hc2 _ Hq2) as (q & Hn & Hok). destruct (Hm lock q Hok) as (a & q' & Hrun & Hok' & HP).
  unfold in_queue, wp. cbv zeta. rewrite Hn, Hrun. split; [|done]. split; [|simpl; by rewrite He2].
  eapply moved_trans; [exact Hm3|]. by eapply moved_queue.
Qed.

(** Sending takes nothing off the stream. *)
Lemma writeAllWith_incoming fuel : forall data transferred so r so',
  writeAllWith send_step fuel data transferred so = Some (r, so') -> so_incoming so' = so_incoming so.
Proof.
  induction fuel as [|fuel IH]; intros data transferred so r so'; cbn [writeAllWith]; (destruct (_ <? Z.of_nat _); [|by intros [= <- <-]]); [done|].
  unfold send_step. destruct (so_replies so) as [|reply rest]; cbn [io_result io_errno];
    (destruct (0 <? _); [destruct (_ - _ <? _); [by intros [= <- <-]|] | destruct (_ =? 0); [by intros [= <- <-]|]; destruct (_ =? EINTR); [|by intros [= <- <-]]]);
    intros Hrun; by apply IH in Hrun.
Qed.

Lemma writeAll_incoming fuel data so r so' : writeAll send_step fuel data so = Some (r, so') -> so_incoming so' = so_incoming so.
Proof.
  unfold writeAll. destruct (writeAllWith send_step fuel data 0 so) as [[r0 so0]|] eqn:Hrun; [|done]. simpl. intros [= <- <-].
  by eapply writeAllWith_incoming.
Qed.

Lemma socket_release_ok (fd : release_context) handle s : sub_core s -> wp (context_release fd handle) s (fun _ s' => same_self s s' /\
  exists r so, writeAll send_step (S (length (so_replies (shared_socket (su_shared s) fd)))) (encodeQueueRelease handle)
      (shared_socket (su_shared s) fd) = Some (r, so) /\
    s' = s <| su_shared := su_shared s <| sh_sockets := <[fd := so]> (sh_sockets (su_shared s)) |> |>).
Proof.
  intros Hc. simpl. unfold socket_release. cbv zeta. apply wp_bind. unfold this, wp at 1.
  destruct (writeAll_returns (encodeQueueRelease handle) (shared_socket (su_shared s) fd)) as (r & so & Hrun).
  rewrite Hrun. unfold set_shared_socket, modify, wp. split; [|by exists r, so]. split; [|done]. apply moved_socket; [done|].
  rewrite (writeAll_incoming _ _ _ _ _ Hrun). apply Hc.
Qed.

Lemma on_mapping_ok {A} pool (access : Region -> outcome A) (P : Region -> A -> Prop) s : sub_core s -> mapped_ok (su_shared s) pool ->
  (forall r, region_typed r -> view_wf (mv_view pool) (region_size r) -> exists a, access r = Ret a /\ P r a) ->
  wp (on_mapping pool access) s (fun a s' => same_self s s' /\
    exists r, sh_pools (su_shared s') !! mv_object pool = Some r /\ view_wf (mv_view pool) (region_size r) /\ P r a).
Proof.
  intros Hc Hmap Hacc. unfold on_mapping. apply wp_bind. eapply wp_mono; [|by apply interfere_ok]. intros u s1 [Hm1 He1].
  apply wp_bind. unfold this, wp at 1. destruct (mapped_ok_le _ _ _ (mo_shared _ _ Hm1) Hmap) as (r & Hr & Hv). rewrite Hr.
  destruct (Hacc r (sk_pools _ (sc_shared _ (mo_core _ _ Hm1)) _ _ Hr) Hv) as (a & Ha & HP). unfold lift, wp. rewrite Ha.
  split; [by split|]. by exists r.
Qed.

(** The mapping a pool is opened with is the one its view was validated for. *)
Lemma open_pool_view_ok d topic s : sub_core s ->
  match open_pool_view d topic s with
  | (Ret pool, s') => same_self s s' /\ mapped_ok (su_shared s') pool
  | (Throw _, s') => same_self s s'
  | (Undef, _) => False
  end.
Proof.
  intros Hc. unfold open_pool_view. pose proof (interfere_ok s Hc) as Hi. unfold wp in Hi. unfold mbind, cpp_bind.
  destruct (interfere s) as [[[]| |] s1]; try done. destruct Hi as [Hm1 He1].
  pose proof (next_open_ok s1 (mo_core _ _ Hm1)) as Hn. unfold wp in Hn. destruct (next_open s1) as [[os| |] s2]; try done.
  destruct Hn as [Hm2 He2]. unfold this. assert (Hsame : same_self s s2) by (split; [by eapply moved_trans | by rewrite He2]).
  pose proof (mo_core _ _ (proj1 Hsame)) as Hc2. cbv zeta.
  destruct (find_pool (su_shared s2) (pd_shm_name d)) as [[object region]|] eqn:Hf; simpl; unfold lift.
  - unfold find_pool in Hf. destruct (sh_pool_names (su_shared s2) !! pd_shm_name d) as [o|]; [|done]. simpl in Hf.
    destruct (sh_pools (su_shared s2) !! o) as [r|] eqn:Hr; [|done]. simpl in Hf. injection Hf as -> ->.
    pose proof (open_view_safe os region d topic (sk_pools _ (sc_shared _ Hc2) _ _ Hr)) as Hv.
    destruct (open_view os region d topic) as [view| |]; simpl in *; try done. split; [done|]. exists region. by destruct Hv as (? & _).
  - pose proof (open_view_safe (Some (default ENOENT os)) (mkRegion [] ∅) d topic ltac:(by constructor)) as Hv.
    unfold open_view, region_open in *. destruct (_ || _); [done|]. destruct (negb _); done.
Qed.

(** ** Wakes *)

Definition shm (s : SubState) : Prop := uc_transport (si_config (su_impl s)) = SharedMemory.

Lemma between_shm s : shm s -> between (su_impl s) <-> 0 <= si_header_bytes (su_impl s) < Z.of_nat kQueueWakeSize.
Proof. intros Hs. unfold between. by rewrite bool_decide_true. Qed.

Lemma between_uds s : uds s -> between (su_impl s) <-> frame_ok (su_impl s).
Proof. intros Hs. unfold between. by rewrite bool_decide_false. Qed.

Lemma install_pool_ok found s : sub_ok s -> wp (install_pool found) s (fun e s' => goes s s' /\
  (is_Some (si_pool_view (su_impl s)) -> s' = s)).
Proof.
  intros Hok. unfold install_pool. apply wp_bind. unfold self, gets, wp at 1. destruct (si_pool_view (su_impl s)) as [pool|] eqn:Hp.
  - apply wp_ret. by auto.
  - unfold wp. pose proof (open_pool_view_ok found (si_topic_id (su_impl s)) s (proj1 Hok)) as Ho.
    destruct (open_pool_view found _ s) as [[opened|e|] s1]; [| |done].
    + destruct Ho as [Hsame Hmap]. pose proof (goes_same _ _ (proj2 Hok) Hsame) as Hg. unfold_cpp. unfold set_self, modify.
      split; [|by intros []]. eapply goes_trans; [exact Hg|]. pose proof (goes_ok _ _ Hg) as Hok1.
      apply (goes_self s1 (fun m => m <| si_pool_view := Some opened |> <| si_discovered_pool := found |>)); simpl; try done; [by intros pool [= <-]|].
      by eapply between_same; [..|apply Hok1].
    + split; [by apply goes_same; [apply Hok|] | by intros []].
Qed.

(** With a mapped pool a wake only takes bytes off the stream. *)
Lemma receiveWakeAvailable_ok s : sub_ok s -> shm s -> wp receiveWakeAvailable s (fun e s' => goes s s' /\
  (is_Some (si_pool_view (su_impl s)) -> is_Some (si_pool_view (su_impl s')) /\ (conn_size s' <= conn_size s)%nat /\
     (e = Ok -> (conn_size s' < conn_size s)%nat))).
Proof.
  intros [Hc Hb] Hs. apply between_shm in Hb as Hhb; [|done]. unfold receiveWakeAvailable.
  apply wp_bind, wp_connection_fuel, wp_bind. eapply wp_mono; [|apply fill_header_ok; [done | done | lia | lia]].
  intros stopped s1 (got & buffer & Hrv & Himpl & Hrec & Hstop & Hres). pose proof (rv_moved _ _ _ Hrv) as Hm1.
  assert (Hs1 : shm s1) by (unfold shm; by rewrite Himpl).
  assert (Hp1 : si_pool_view (su_impl s1) = si_pool_view (su_impl s)) by (by rewrite Himpl). pose proof (rv_size _ _ _ Hrv) as Hsz.
  assert (Hfail : forall e, 0 <= si_header_bytes (su_impl s1) < Z.of_nat kQueueWakeSize -> e <> Ok ->
    goes s s1 /\ (is_Some (si_pool_view (su_impl s)) -> is_Some (si_pool_view (su_impl s1)) /\ (conn_size s1 <= conn_size s)%nat /\ (e = Ok -> (conn_size s1 < conn_size s)%nat))).
  { intros e Hb1 He. split; [by split; [|apply between_shm]|]. by rewrite Hp1. }
  destruct stopped as [[|errno]|].
  - apply wp_bind. unfold self, gets, wp at 1. apply wp_ret, Hfail; [done|]. by destruct (_ =? 0).
  - apply wp_ret, Hfail; [done|]. by destruct (_ =? EAGAIN); [|destruct (_ || _)].
  - destruct Hres as [Hfull Hlt]. apply wp_bind. unfold self, gets, wp at 1. cbv zeta. apply wp_bind.
    eapply wp_mono; [|apply resetFrame_ok, Hm1]. intros u s2 [Hg2 Heq2].
    assert (Hgot : got <> []). { intros ->. rewrite Himpl in Hfull. simpl in Hfull. lia. }
    specialize (Hlt Hgot). assert (Hg : goes s s2) by (split; [by eapply moved_trans; [|apply Hg2] | apply Hg2]).
    assert (Hcs2 : conn_size s2 = conn_size s1) by (by rewrite Heq2).
    assert (Hp2 : si_pool_view (su_impl s2) = si_pool_view (su_impl s)) by (by rewrite Heq2, <- Hp1).
    assert (Hdone : forall e, wp (mret e) s2 (fun e s' => goes s s' /\ (is_Some (si_pool_view (su_impl s)) ->
      is_Some (si_pool_view (su_impl s')) /\ (conn_size s' <= conn_size s)%nat /\ (e = Ok -> (conn_size s' < conn_size s)%nat)))).
    { intros e. apply wp_ret. split; [done|]. rewrite Hp2. intros Hpool. split_and!; [done | lia | lia]. }
    destruct (decodeQueueWake _) as [wake|]; [|apply Hdone]. destruct (si_queue (su_impl s1)); [|apply Hdone].
    destruct (negb _); [apply Hdone|]. destruct (other_pool_discovered _ _); [apply Hdone|].
    eapply wp_mono; [|apply install_pool_ok, (goes_ok _ _ Hg)]. intros e s3 [Hg3 Hsame]. split; [by eapply goes_trans|].
    intros Hpool. rewrite <- Hp2 in Hpool. rewrite (Hsame Hpool). split_and!; [done | lia | lia].
Qed.

Lemma drain_wakes_ok fuel : forall s, sub_ok s -> shm s -> is_Some (si_pool_view (su_impl s)) -> (conn_size s < fuel)%nat ->
  wp (drain_wakes fuel) s (fun _ s' => goes s s').
Proof.
  induction fuel as [|fuel IH]; intros s Hok Hs Hp Hfuel; [lia|]. cbn [drain_wakes]. apply wp_bind.
  eapply wp_mono; [|by apply receiveWakeAvailable_ok]. intros e s1 [Hg Hpost]. destruct (Hpost Hp) as (Hp1 & Hle & Hlt).
  case_bool_decide; [by apply wp_ret|]. destruct (is_ok e) eqn:He; cbn [negb]; [|by apply wp_ret].
  assert (e = Ok) as -> by (by destruct e). specialize (Hlt eq_refl).
  eapply wp_mono; [|apply IH; [by eapply goes_ok | unfold shm; by rewrite (mo_config _ _ (proj1 Hg)) | done | lia]].
  intros e' s2 Hg2. by eapply goes_trans.
Qed.

Lemma drainWakeNotificationsNonBlocking_ok s : sub_ok s -> shm s -> wp drainWakeNotificationsNonBlocking s (fun _ s' => goes s s').
Proof.
  intros Hok Hs. unfold drainWakeNotificationsNonBlocking. apply wp_bind. unfold self, gets, wp at 1.
  destruct (si_release_context (su_impl s)); [|by apply wp_ret; auto]. destruct (si_pool_view (su_impl s)) eqn:Hp; [|by apply wp_ret; auto].
  apply wp_bind, wp_connection_fuel. apply drain_wakes_ok; [done | done | by rewrite Hp | lia].
Qed.

(** ** Taking *)

(** A payload in the mapping, within the limit. *)
Definition payload_inside (w : Shared) (max : Z) (pool : MappedPool) (payload : option Z) (size : Z) : Prop :=
  exists r offset, sh_pools w !! mv_object pool = Some r /\ payload = Some offset /\
    0 <= offset <= region_size r /\ size <= max /\ offset + size <= region_size r.

Lemma payload_inside_le w w' max pool payload size : shared_le w w' -> payload_inside w max pool payload size -> payload_inside w' max pool payload size.
Proof. intros [_ Hp] (r & off & Hr & -> & Hin). destruct (Hp _ _ Hr) as (r' & Hr' & Hsz). exists r', off. by rewrite Hsz. Qed.

Lemma read_view_inside view r handle max : view_wf view (region_size r) -> ChunkHandle_typed handle ->
  exists result, read_view view r handle max = Ret result /\ (vr_error result = Ok -> exists off, vr_payload result = Some off /\
    0 <= off <= region_size r /\ vr_payload_size result <= max /\ off + vr_payload_size result <= region_size r).
Proof.
  intros Hv (_ & Hidx & _). assert (0 <= ch_chunk_index handle) by (unfold fits in Hidx; lia).
  pose proof (read_view_safe view r handle max Hv ltac:(done)) as Hsafe. unfold read_view in *.
  destruct (_ || _) eqn:Hcond; [by eexists|]. bools. rewrite (proj2 (Z.leb_le _ _)) in * by done.
  destruct (pv_directory view !! _) as [e|] eqn:He; [|done]. destruct (negb (_ =? de_payload_offset e)); [by eexists|].
  destruct (chained_bounds _ _ _ _ _ (vw_chunks _ _ Hv) He) as (? & ? & Hpo & ? & ?). unfold sizeof_ChunkHeader in *.
  destruct (region_chunk r _); [|done]. destruct (_ || _); [by eexists|]. eexists. split; [done|]. simpl in *.
  intros _. destruct (Hsafe eq_refl) as (off & [= <-] & Hmax & Hin). exists (de_payload_offset e). split_and!; [done | lia | lia | done | done].
Qed.

Definition view_data_ok (w : Shared) (max : Z) (v : ViewData) : Prop :=
  payload_inside w max (vd_pool_view v) (vd_payload v) (vd_payload_size v) /\ ChunkHandle_typed (vd_handle v).

Lemma tryTakeQueued_ok s : sub_ok s -> wp tryTakeQueued s (fun r s' => goes s s' /\
  match r with Some v => view_data_ok (su_shared s') (max_size s) v | None => True end).
Proof.
  intros Hok. pose proof Hok as [Hc Hb]. unfold tryTakeQueued. apply wp_bind. unfold self, gets, wp at 1.
  destruct (si_queue (su_impl s)) as [client|] eqn:Hq; [|by apply wp_ret; auto].
  destruct (si_pool_view (su_impl s)) as [pool|] eqn:Hp; [|by apply wp_ret; auto].
  destruct (si_release_context (su_impl s)) as [fd|] eqn:Hctx; [|by apply wp_ret; auto].
  apply wp_bind. eapply wp_mono; [|apply (on_own_queue_ok peek handle_typed client); [done | done | apply peek_method]].
  intros next s1 [Hs1 _]. pose proof (goes_same _ _ Hb Hs1) as Hg1. destruct next as [next|]; [|by apply wp_ret].
  destruct (negb (ch_pool_id next =? _)); [by apply wp_ret|]. apply wp_bind. pose proof Hs1 as [Hm1 He1].
  eapply wp_mono; [|apply (on_own_queue_ok tryDequeue handle_typed client); [apply Hm1 | by rewrite He1 | apply tryDequeue_method]].
  intros handle s2 [Hs2 Hty]. pose proof Hs2 as [Hm2 He2].
  pose proof (goes_trans _ _ _ Hg1 (goes_same _ _ (proj2 (goes_ok _ _ Hg1)) Hs2)) as Hg2.
  destruct handle as [handle|]; [|by apply wp_ret]. simpl in Hty. apply wp_bind.
  eapply wp_mono; [|apply (on_mapping_ok pool _ (fun r view => vr_error view = Ok -> exists off, vr_payload view = Some off /\
    0 <= off <= region_size r /\ vr_payload_size view <= max_size s /\ off + vr_payload_size view <= region_size r)); [apply Hm2 | |]].
  2: { apply (sc_pool _ (mo_core _ _ Hm2)). by rewrite He2, He1. }
  2: { intros r _ Hv. by apply read_view_inside. }
  intros view s3 [Hs3 (r & Hr & _ & Hin)]. pose proof (goes_trans _ _ _ Hg2 (goes_same _ _ (proj2 (goes_ok _ _ Hg2)) Hs3)) as Hg3.
  pose proof (goes_ok _ _ Hg3) as Hok3. destruct (negb (is_ok (vr_error view))) eqn:Herr.
  - apply wp_bind. eapply wp_mono; [|apply socket_release_ok, Hok3]. intros u s4 [Hs4 _].
    pose proof (goes_trans _ _ _ Hg3 (goes_same _ _ (proj2 Hok3) Hs4)) as Hg4. apply wp_bind.
    eapply wp_mono; [|apply set_last_error_ok, (goes_ok _ _ Hg4)]. intros u2 s5 [Hg5 _]. apply wp_ret. by split; [eauto|].
  - apply wp_bind. eapply wp_mono; [|by apply set_last_error_ok]. intros u s4 (Hg4 & _ & Hsh & _). apply wp_ret. split; [eauto|].
    assert (Hvok : vr_error view = Ok) by (by destruct (vr_error view)). destruct (Hin Hvok) as (off & Hoff & [? ?] & ? & ?).
    split; [|done]. exists r, off. simpl. rewrite Hsh. by split_and!.
Qed.

Lemma resetPublisherState_ok pool s : sub_ok s -> wp (resetPublisherState pool) s (fun _ s' => goes s s').
Proof.
  intros Hok. unfold resetPublisherState. apply wp_bind. unfold self, gets, wp at 1. apply wp_bind.
  apply (wp_mono _ _ (fun _ s1 => same_self s s1)).
  2: { destruct (si_queue (su_impl s)) as [client|] eqn:Hq; [|by apply wp_ret; split; [apply moved_refl, Hok|]].
       eapply wp_mono; [|apply (on_own_queue_ok _ (fun _ => True) client); [apply Hok | done | apply discardPool_method]]. by intros a s1 [Hs1 _]. }
  intros u s1 Hs1. pose proof (goes_same _ _ (proj2 Hok) Hs1) as Hg1. destruct (_ && _); [by apply wp_ret|].
  apply wp_bind. eapply wp_mono; [|apply resetConnection_ok, Hs1]. intros u2 s2 [Hg2 Heq2].
  unfold set_self, modify, wp. eapply goes_trans; [exact Hg1|]. eapply goes_trans; [exact Hg2|].
  apply (goes_self s2 (fun m => m <| si_pool_view := None |> <| si_discovered_pool := empty_PoolDescriptor |>)); simpl; try done; [by eapply goes_ok|].
  by eapply between_same; [..|apply Hg2].
Qed.

Lemma peer_events_ok s : sub_ok s -> wp processPeerEvents s (fun _ s' => goes s s').
Proof.
  intros Hok. unfold processPeerEvents. apply wp_bind. unfold self, gets, wp at 1. destruct (_ || _); [by apply wp_ret; auto|].
  apply wp_bind. eapply wp_mono; [|apply next_events_ok, Hok]. intros events s1 [Hev Hs1]. pose proof (goes_same _ _ (proj2 Hok) Hs1) as Hg1.
  destruct events as [events| |]; [|by apply wp_ret | done].
  eapply wp_mono; [|apply (wp_for_each (fun _ s' => goes s s')); [|exact Hg1]]; [done|].
  intros event l s2 Hg2. destruct (re_kind event); [|by apply wp_ret].
  eapply wp_mono; [|by eapply resetPublisherState_ok, goes_ok]. intros u s3 Hg3. by eapply goes_trans.
Qed.

Lemma wake_failed_ok e s : sub_ok s -> wp (wake_failed e) s (fun _ s' => goes s s').
Proof.
  intros Hok. unfold wake_failed. apply wp_bind. eapply wp_mono; [|by apply set_last_error_ok]. intros u s1 [Hg1 _].
  apply wp_bind. unfold self, gets, wp at 1. pose proof (goes_ok _ _ Hg1) as Hok1. case_bool_decide.
  - eapply wp_mono; [|by apply resetPublisherState_ok]. intros u2 s2 Hg2. by eapply goes_trans.
  - eapply wp_mono; [|apply resetConnection_ok, Hok1]. intros u2 s2 [Hg2 _]. by eapply goes_trans.
Qed.

(** ** The public calls *)

(** A view as the application gets it: active, with its payload inside the mapping of its pool. *)
Definition view_inside (w : Shared) (max : Z) (v : SampleView release_context MappedPool) : Prop :=
  view_ok v /\ sv_active v = true /\ exists pool, sv_pool_view v = Some pool /\
    payload_inside w max pool (sv_payload v) (sv_size v) /\ ChunkHandle_typed (view_handle v).

Lemma sample_view_inside w max v : view_data_ok w max v -> view_inside w max (sample_view v).
Proof.
  intros [Hin Hty]. destruct Hin as (r & off & Hr & Hoff & Hrest). split_and!; [|done|].
  - unfold sample_view, make_view. rewrite Hoff. by split.
  - exists (vd_pool_view v). split_and!; [done | by exists r, off | exact Hty].
Qed.

Lemma view_inside_le w w' max v : shared_le w w' -> view_inside w max v -> view_inside w' max v.
Proof. intros Hle (Hok & Ha & pool & Hp & Hin & Hty). split_and!; [done | done |]. exists pool. split_and!; [done | by eapply payload_inside_le | done]. Qed.

Lemma take_view_loop_ok fuel : forall s, sub_ok s -> shm s -> (length (kn_polls (su_kernel s)) < fuel)%nat ->
  wp (take_view_loop fuel) s (fun r s' => goes s s' /\
    match r with Some v => view_inside (su_shared s') (max_size s) v | None => True end).
Proof.
  induction fuel as [|fuel IH]; intros s Hok Hs Hfuel; [lia|]. cbn [take_view_loop]. apply wp_bind.
  eapply wp_mono; [|by apply tryTakeQueued_ok]. intros taken s1 [Hg1 Htaken].
  destruct taken as [v|]; [by apply wp_ret; split; [|apply sample_view_inside]|].
  pose proof (goes_ok _ _ Hg1) as Hok1. apply wp_bind. unfold self, gets, wp at 1. destruct (_ && _); [by apply wp_ret|].
  pose proof (mo_polls _ _ (proj1 Hg1)) as Hp1. apply wp_bind. eapply wp_mono; [|by apply poll_sockets_ok]. intros step s2 [Hg2 Hstep].
  pose proof (goes_trans _ _ _ Hg1 Hg2) as Hg12.
  assert (Hagain : forall s3, goes s s3 -> (length (kn_polls (su_kernel s3)) < fuel)%nat -> wp (take_view_loop fuel) s3 (fun r s' => goes s s' /\
    match r with Some v => view_inside (su_shared s') (max_size s) v | None => True end)).
  { intros s3 Hg3 Hlt. eapply wp_mono; [|apply IH; [by eapply goes_ok | unfold shm; by rewrite (mo_config _ _ (proj1 Hg3)) | done]].
    unfold max_size. rewrite (mo_config _ _ (proj1 Hg3)). intros r s4 [Hg4 Hr]. split; [by eapply goes_trans | done]. }
  destruct step; [destruct Hstep as [Hlt _] | apply Hagain; [done | lia] | by apply wp_ret].
  apply wp_bind. eapply wp_mono; [|apply receiveWakeAvailable_ok; [by eapply goes_ok | unfold shm; by rewrite (mo_config _ _ (proj1 Hg12))]].
  intros e s3 [Hg3 _]. pose proof (goes_trans _ _ _ Hg12 Hg3) as Hg13. pose proof (mo_polls _ _ (proj1 Hg3)) as Hp3.
  case_bool_decide; [apply Hagain; [done | lia]|]. destruct (is_ok e); cbn [negb].
  - apply wp_bind. eapply wp_mono; [|by eapply set_last_error_ok, goes_ok]. intros u s4 (Hg4 & _ & _ & Hk4). apply Hagain; [by eapply goes_trans | rewrite Hk4; lia].
  - apply wp_bind. eapply wp_mono; [|by eapply wake_failed_ok, goes_ok]. intros u s4 Hg4. apply wp_ret. split; [by eapply goes_trans | done].
Qed.

Lemma wp_poll_fuel s (Q : nat -> SubState -> Prop) : Q (S (length (kn_polls (su_kernel s)))) s -> wp poll_fuel s Q.
Proof. done. Qed.

Lemma waitAndTakeView_ok has_impl s : sub_ok s -> wp (waitAndTakeView has_impl) s (fun r s' => goes s s' /\
  match r with Some v => view_inside (su_shared s') (max_size s) v | None => True end).
Proof.
  intros Hok. unfold waitAndTakeView. destruct has_impl; cbn [negb]; [|by apply wp_ret; auto].
  apply wp_bind. unfold self, gets, wp at 1. case_bool_decide as Hs; cbn [negb].
  2: { apply wp_bind. eapply wp_mono; [|by apply set_last_error_ok]. intros u s1 [Hg1 _]. by apply wp_ret. }
  apply wp_bind. eapply wp_mono; [|by apply peer_events_ok]. intros u s1 Hg1. apply wp_bind.
  eapply wp_mono; [|apply set_last_error_ok, (goes_ok _ _ Hg1)]. intros u2 s2 [Hg2 _]. pose proof (goes_trans _ _ _ Hg1 Hg2) as Hg12.
  assert (Hs2 : shm s2) by (unfold shm; by rewrite (mo_config _ _ (proj1 Hg12))).
  apply wp_bind. eapply wp_mono; [|apply drainWakeNotificationsNonBlocking_ok; [by eapply goes_ok | done]]. intros e s3 Hg3.
  pose proof (goes_trans _ _ _ Hg12 Hg3) as Hg13. destruct (is_ok e); cbn [negb].
  - apply wp_bind, wp_poll_fuel. eapply wp_mono; [|apply take_view_loop_ok; [by eapply goes_ok | unfold shm; by rewrite (mo_config _ _ (proj1 Hg13)) | lia]].
    unfold max_size. rewrite (mo_config _ _ (proj1 Hg13)). intros r s4 [Hg4 Hr]. split; [by eapply goes_trans | done].
  - apply wp_bind. eapply wp_mono; [|by eapply wake_failed_ok, goes_ok]. intros u3 s4 Hg4. apply wp_ret. split; [by eapply goes_trans | done].
Qed.

(** A message within the limit. *)
Definition message_ok (max : Z) (m : ReceivedMessage) : Prop := Z.of_nat (length (rm_payload m)) <= max.

Lemma parse_done_ok max bytes message rest : 0 <= max -> parse_frame max bytes = ParseDone message rest -> message_ok max message.
Proof.
  intros Hmax. unfold parse_frame. destruct (_ <? _)%nat; [done|]. destruct (judge_header _ _) as [h|] eqn:Hj; [|done]. cbv zeta.
  destruct (_ <? _)%nat eqn:Hl; [done|]. intros [= <- <-]. apply judge_header_decoded in Hj as [_ Hv]. unfold validateFrameHeader in Hv.
  destruct (negb _); [done|]. destruct (max <? _) eqn:Hm; [done|]. bools. unfold message_ok. simpl. rewrite length_take. lia.
Qed.

Lemma take_loop_ok fuel : forall s, sub_ok s -> uds s -> 0 <= max_size s -> (length (kn_polls (su_kernel s)) < fuel)%nat ->
  wp (take_loop fuel) s (fun r s' => goes s s' /\ match r with Some m => message_ok (max_size s) m | None => True end).
Proof.
  induction fuel as [|fuel IH]; intros s Hok Hu Hmax Hfuel; [lia|]. cbn [take_loop]. apply wp_bind.
  eapply wp_mono; [|by apply poll_sockets_ok]. intros step s1 [Hg1 Hstep].
  assert (Hagain : forall s3, goes s s3 -> (length (kn_polls (su_kernel s3)) < fuel)%nat -> wp (take_loop fuel) s3 (fun r s' => goes s s' /\
    match r with Some m => message_ok (max_size s) m | None => True end)).
  { intros s3 Hg3 Hlt. assert (Hmx : max_size s3 = max_size s) by (unfold max_size; by rewrite (mo_config _ _ (proj1 Hg3))).
    eapply wp_mono; [|apply IH; [by eapply goes_ok | unfold uds; by rewrite (mo_config _ _ (proj1 Hg3)) | by rewrite Hmx | done]].
    rewrite Hmx. intros r s4 [Hg4 Hr]. split; [by eapply goes_trans | done]. }
  destruct step; [destruct Hstep as [Hlt _] | apply Hagain; [done | lia] | by apply wp_ret].
  assert (Hu1 : uds s1) by (unfold uds; by rewrite (mo_config _ _ (proj1 Hg1))). pose proof (goes_ok _ _ Hg1) as [Hc1 Hb1].
  apply between_uds in Hb1; [|done]. apply wp_bind. eapply wp_mono; [|by apply receiveUdsAvailable_ok].
  intros r s2 (got & Hrv & _ & Hres). pose proof (rv_moved _ _ _ Hrv) as Hm2.
  assert (Hu2 : uds s2) by (unfold uds; by rewrite (mo_config _ _ Hm2)).
  assert (Hstop : forall e, wp (set_last_error e;; resetConnection;; mret (@None ReceivedMessage)) s2 (fun r s' => goes s s' /\
    match r with Some m => message_ok (max_size s) m | None => True end)).
  { intros e. apply wp_bind. unfold set_last_error, set_self, modify, wp at 1. apply wp_bind.
    pose proof (moved_last_error e s2 (mo_core _ _ Hm2)) as Hm3.
    eapply wp_mono; [|apply resetConnection_ok, Hm3]. intros u s4 [[Hm4 Hb4] _]. apply wp_ret. split; [|done]. split; [|done].
    eapply moved_trans; [apply Hg1|]. eapply moved_trans; [exact Hm2|]. by eapply moved_trans. }
  unfold receive_result in Hres. destruct (ur_status r) eqn:Hst; try apply Hstop.
  - destruct Hres as (_ & _ & Hf & _). apply Hagain; [|pose proof (mo_polls _ _ Hm2); lia].
    eapply goes_trans; [exact Hg1|]. split; [done | by apply between_uds].
  - destruct Hres as (m & Hm & Hparse & Hf & _).
    assert (Hg2 : goes s s2) by (eapply goes_trans; [exact Hg1|]; split; [done | by apply between_uds]).
    apply wp_bind. eapply wp_mono; [|by eapply set_last_error_ok, goes_ok]. intros u s3 [Hg3 _]. apply wp_ret. split; [by eapply goes_trans|].
    rewrite Hm. unfold max_size in *. rewrite (mo_config _ _ (proj1 Hg1)) in Hparse. by eapply parse_done_ok.
Qed.

Lemma load_inside r off n : region_typed r -> 0 <= off -> off + Z.of_nat n <= region_size r ->
  exists data, load_bytes r off n = Ret data /\ length data = n /\ data = get_at (Z.to_nat off) n (reg_bytes r).
Proof.
  intros Hty Hoff Hin. pose proof (load_bytes_safe r off n Hty Hoff Hin) as Hsafe. exists (get_at (Z.to_nat off) n (reg_bytes r)).
  rewrite (load_bytes_run r off n _ Hoff Hin eq_refl) in *. split_and!; [done | apply Hsafe | done].
Qed.

Lemma copy_payload_ok max v s : sub_ok s -> 0 <= max -> view_inside (su_shared s) max v ->
  wp (copy_payload v) s (fun data s' => goes s s' /\ Z.of_nat (length data) <= max).
Proof.
  intros Hok Hmax (_ & Ha & pool & Hp & Hin & _). unfold copy_payload. destruct (sv_size v =? 0) eqn:Hz; bools; [by apply wp_ret; split; [auto | simpl; lia]|].
  rewrite Hp. unfold view_data. rewrite Ha. destruct Hin as (r & off & Hr & Hoff & Hpos & Hm & Hend). rewrite Hoff. apply wp_bind, wp_ret, wp_bind, wp_ret.
  unfold on_mapping. apply wp_bind. eapply wp_mono; [|apply interfere_ok, Hok]. intros u s1 Hs1. apply wp_bind. unfold this, wp at 1.
  destruct (sl_pools _ _ (mo_shared _ _ (proj1 Hs1)) _ _ Hr) as (r' & Hr' & Hsz). rewrite Hr'.
  pose proof (sk_pools _ (sc_shared _ (mo_core _ _ (proj1 Hs1))) _ _ Hr') as Hty.
  destruct (load_inside r' off (Z.to_nat (sv_size v)) Hty ltac:(lia) ltac:(lia)) as (data & Hload & Hlen & _).
  unfold lift, wp. rewrite Hload. split; [by apply goes_same; [apply Hok|] | lia].
Qed.

(** Sending a release keeps everything else. *)
Lemma view_release_goes (v : SampleView release_context MappedPool) s : sub_ok s ->
  wp (view_release v) s (fun v' s' => goes s s' /\ su_impl s' = su_impl s /\ su_kernel s' = su_kernel s /\ view_ok v' /\ sv_active v' = false).
Proof.
  intros Hok. unfold view_release. apply wp_bind.
  apply (wp_mono _ _ (fun _ s' => goes s s' /\ su_impl s' = su_impl s /\ su_kernel s' = su_kernel s)).
  - intros u s1 (Hg & Hi & Hk). apply wp_ret. split_and!; try done. split; split; intros Hf; (by destruct Hf) || discriminate Hf.
  - destruct (sv_release_context v) as [fd|]; [destruct (sv_active v)|]; [|by apply wp_ret; auto ..].
    eapply wp_mono; [|apply socket_release_ok, Hok]. intros u s1 [Hs1 (r & so & _ & Heq)].
    split_and!; [by apply goes_same; [apply Hok|] | apply Hs1 | by rewrite Heq].
Qed.

Lemma waitAndTake_ok has_impl s : sub_ok s -> 0 <= max_size s ->
  wp (waitAndTake has_impl) s (fun r s' => goes s s' /\ match r with Some m => message_ok (max_size s) m | None => True end).
Proof.
  intros Hok Hmax. unfold waitAndTake. destruct has_impl eqn:Hhas; cbn [negb]; [|by apply wp_ret; auto].
  apply wp_bind. unfold self, gets, wp at 1. case_bool_decide as Hs.
  - apply wp_bind. eapply wp_mono; [|by apply waitAndTakeView_ok]. intros [v|] s1 [Hg1 Hv]; [|by apply wp_ret].
    apply wp_bind. eapply wp_mono; [|by eapply copy_payload_ok; [eapply goes_ok | | exact Hv]]. intros data s2 [Hg2 Hlen].
    pose proof (goes_trans _ _ _ Hg1 Hg2) as Hg12. apply wp_bind.
    eapply wp_mono; [|by eapply view_release_goes, goes_ok]. intros v' s3 (Hg3 & _). apply wp_ret. split; [by eapply goes_trans | done].
  - apply wp_bind. eapply wp_mono; [|by apply peer_events_ok]. intros u s1 Hg1. cbv beta in Hg1.
    assert (Hmx : max_size s1 = max_size s) by (unfold max_size; by rewrite (mo_config _ _ (proj1 Hg1))).
    apply wp_bind, wp_poll_fuel. eapply wp_mono; [|apply take_loop_ok; [by eapply goes_ok | unfold uds; by rewrite (mo_config _ _ (proj1 Hg1)) | by rewrite Hmx | lia]].
    rewrite Hmx. intros r s2 [Hg2 Hr]. split; [by eapply goes_trans | done].
Qed.

(** ** Releases on a socket that accepts everything *)

Lemma write_accepted data so : so_replies so = [] ->
  exists r, io_status r = IoComplete /\
    writeAll send_step (S (length (so_replies so))) data so = Some (r, so <| so_sent := so_sent so ++ data |>).
Proof.
  intros Hr. rewrite Hr. simpl. unfold writeAll. cbn [writeAllWith]. destruct data as [|b data].
  - simpl. eexists. split; [|do 2 f_equal; destruct so; simpl; by rewrite app_nil_r]. done.
  - rewrite (proj2 (Z.ltb_lt _ _)) by (simpl; lia). unfold send_step. rewrite Hr. cbn [io_result io_errno]. simpl drop.
    rewrite (proj2 (Z.ltb_lt _ _)) by (simpl; lia). rewrite Z.sub_0_r, Z.ltb_irrefl, Z.add_0_l, Z.ltb_irrefl. simpl. eexists. split; [|reflexivity]. done.
Qed.

Lemma socket_release_run (fd : release_context) handle s : so_replies (shared_socket (su_shared s) fd) = [] ->
  let so := shared_socket (su_shared s) fd in
  context_release fd handle s = (Ret tt, s <| su_shared := su_shared s <| sh_sockets :=
    <[fd := so <| so_sent := so_sent so ++ encodeQueueRelease handle |>]> (sh_sockets (su_shared s)) |> |>).
Proof.
  intros Hr so. simpl. unfold socket_release. unfold_cpp. destruct (write_accepted (encodeQueueRelease handle) so Hr) as (r & _ & Hrun).
  unfold so in *. by rewrite Hrun.
Qed.

(** The frames sent for a list of handles. *)
Definition release_frames (handles : list ChunkHandle) : list Z := flat_map encodeQueueRelease handles.

Lemma release_all_run (fd : release_context) handles : forall s, so_replies (shared_socket (su_shared s) fd) = [] ->
  wp (for_each handles (fun handle => context_release fd handle)) s (fun _ s' =>
    exists so, so_sent so = so_sent (shared_socket (su_shared s) fd) ++ release_frames handles /\
      so_replies so = [] /\ so_incoming so = so_incoming (shared_socket (su_shared s) fd) /\
      shared_socket (su_shared s') fd = so /\
      s' = s <| su_shared := su_shared s <| sh_sockets := sh_sockets (su_shared s') |> |> /\
      forall fd', fd' <> fd -> shared_socket (su_shared s') fd' = shared_socket (su_shared s) fd').
Proof.
  induction handles as [|handle handles IH]; intros s Hr; cbn [for_each].
  - apply wp_ret. exists (shared_socket (su_shared s) fd). simpl. rewrite app_nil_r. split_and!; try done. by destruct s as [? [] ? ? ?].
  - apply wp_bind. unfold wp. rewrite socket_release_run by done. cbv zeta. set (so := shared_socket (su_shared s) fd) in *.
    set (s1 := s <| su_shared := _ |>). assert (Hso1 : shared_socket (su_shared s1) fd = so <| so_sent := so_sent so ++ encodeQueueRelease handle |>).
    { unfold shared_socket, s1. simpl. by rewrite lookup_insert_eq. }
    specialize (IH s1). rewrite Hso1 in IH. pose proof (IH Hr) as Hwp. unfold wp in Hwp.
    destruct (for_each handles _ s1) as [[[]| |] s2]; try done.
    destruct Hwp as (so2 & Hsent & Hr2 & Hin & Hso2 & Heq & Hother). exists so2. simpl in Hsent. split_and!; try done.
    + rewrite Hsent. unfold release_frames. cbn [flat_map]. by rewrite app_assoc.
    + intros fd' Hne. rewrite Hother by done. unfold shared_socket, s1. simpl. by rewrite lookup_insert_ne.
Qed.

(** ** Destruction *)

Lemma destroy_queue_returns client l1 l2 q : exists r q', destroy_queue client l1 l2 q = (Ret r, q').
Proof.
  unfold destroy_queue, close, detach, header_, set_header. unfold_cpp.
  destruct (qc_owner client), (qc_attached client); cbn [negb]; rewrite ?PthreadLock_run; try (by eexists _, _);
    repeat (rewrite ?PthreadLock_run; case_match; cbn [negb] in *; simplify_eq/=; try (by eexists _, _)).
Qed.

Lemma destroy_own_queue_ok client l1 l2 w : queue_mapped w client ->
  exists w', destroy_own_queue client l1 l2 w = Ret w' /\ sh_queue_names w' = sh_queue_names w ∖ {[ qd_shm_name (qc_descriptor client) ]} /\
    sh_sockets w' = sh_sockets w /\ sh_pools w' = sh_pools w.
Proof.
  intros (q & Hn & _). unfold destroy_own_queue. cbv zeta. rewrite Hn. destruct (destroy_queue_returns client l1 l2 q) as (r & q' & ->).
  eexists. by split_and!.
Qed.

(** A queue method that may throw. *)
Lemma on_own_queue_cases {A} (method : lock_result -> cpp SharedQueue A) client s : sub_core s -> si_queue (su_impl s) = Some client ->
  (forall lock q, ring_ok q -> exists o q', method lock q = (o, q') /\ o <> Undef /\ ring_ok q') ->
  match on_own_queue client method s with
  | (Ret _, s') | (Throw _, s') => same_self s s'
  | (Undef, _) => False
  end.
Proof.
  intros Hc Hq Hm. unfold on_own_queue. pose proof (interfere_ok s Hc) as Hi. unfold wp in Hi. unfold mbind, cpp_bind.
  destruct (interfere s) as [[[]| |] s1]; try done. destruct Hi as [Hm1 He1].
  pose proof (next_lock_ok s1 (mo_core _ _ Hm1)) as Hn. unfold wp in Hn. destruct (next_lock s1) as [[lock| |] s2]; try done.
  destruct Hn as [Hm2 He2]. pose proof (moved_trans _ _ _ Hm1 Hm2) as Hm3. pose proof (mo_core _ _ Hm3) as Hc2.
  assert (Hq2 : si_queue (su_impl s2) = Some client) by (by rewrite He2, He1).
  destruct (sc_queue _ Hc2 _ Hq2) as (q & Hlook & Hok). destruct (Hm lock q Hok) as (o & q' & Hrun & Hu & Hok').
  unfold in_queue. cbv zeta. rewrite Hlook, Hrun. assert (Hsame : same_self s (s2 <| su_shared := su_shared s2
    <| sh_queues := <[qd_shm_name (qc_descriptor client) := q']> (sh_queues (su_shared s2)) |> |>)).
  { split; [|simpl; by rewrite He2]. eapply moved_trans; [exact Hm3|]. by eapply moved_queue. }
  by destruct o.
Qed.

Lemma closeAndDrain_cases lock q : ring_ok q -> exists o q', closeAndDrain lock q = (o, q') /\ o <> Undef /\ ring_ok q'.
Proof.
  intros [Hs Hty]. pose proof (stays_inside_unwrap _ _ _ (exec_queue_op_inside (QCloseAndDrain lock) q Hs I)) as Hin.
  pose proof (typed_closeAndDrain lock q Hty) as Hrun. unfold stays_inside in Hin.
  destruct (closeAndDrain lock q) as [[a|e|] q']; [| |done]; eexists _, q'; (split_and!; [done|done|split; [done|]]); [apply Hrun|done].
Qed.

(** Closing the queue and releasing what was in it; an exception is swallowed. *)
Lemma drain_and_release_ok client ctx s : sub_ok s -> si_queue (su_impl s) = Some client ->
  wp (swallow (handles ← on_own_queue client closeAndDrain;
               match ctx with None => mret tt | Some fd => for_each handles (fun handle => context_release fd handle) end)) s
    (fun _ s' => goes s s' /\ su_impl s' = su_impl s).
Proof.
  intros Hok Hq. unfold swallow, wp. unfold mbind, cpp_bind.
  pose proof (on_own_queue_cases closeAndDrain client s (proj1 Hok) Hq closeAndDrain_cases) as Hc.
  destruct (on_own_queue client closeAndDrain s) as [[handles|e|] s1]; [| |done].
  2: { split; [apply goes_same; [apply Hok | exact Hc] | apply Hc]. }
  pose proof (goes_same _ _ (proj2 Hok) Hc) as Hg1. destruct ctx as [fd|]; [|by split; [|apply Hc]].
  assert (Hwp : wp (for_each handles (fun handle => context_release fd handle)) s1 (fun _ s' => goes s s' /\ su_impl s' = su_impl s)).
  { eapply wp_mono; [|apply (wp_for_each (fun _ s' => goes s s' /\ su_impl s' = su_impl s)); [|by split; [|apply Hc]]]; [done|].
    intros handle l s2 [Hg2 He2]. eapply wp_mono; [|apply socket_release_ok, (goes_ok _ _ Hg2)]. intros u s3 [Hs3 _].
    split; [|by rewrite (proj2 Hs3)]. eapply goes_trans; [exact Hg2|]. apply goes_same; [apply Hg2 | done]. }
  unfold wp in Hwp. by destruct (for_each _ _ s1) as [[[]| |] s2].
Qed.

(** The destructor returns and leaves neither the name of the queue nor, if the listener owned
    it, the socket path, and the registry has been told. *)
Lemma destroy_subscriber_ok s : sub_ok s -> wp destroy_subscriber s (fun _ s' =>
  (forall client, si_queue (su_impl s) = Some client -> qd_shm_name (qc_descriptor client) ∉ sh_queue_names (su_shared s')) /\
  (ul_owns_path (si_listener (su_impl s)) = true -> sf_paths (su_files s') = sf_paths (su_files s) ∖ {[ ul_socket_path (si_listener (su_impl s)) ]}) /\
  su_unsubscribed s' = (if si_registry_session (su_impl s) && negb (si_endpoint_id (su_impl s) =? 0) then [si_endpoint_id (su_impl s)] else []) ++ su_unsubscribed s).
Proof.
  intros Hok. unfold destroy_subscriber. apply wp_bind. eapply wp_mono; [|by apply acceptPendingConnection_ok]. intros u s1 Hg1. cbv beta in Hg1.
  pose proof (mo_queue _ _ (proj1 Hg1)) as Hq1. pose proof (mo_identity _ _ (proj1 Hg1)) as Hi1. destruct (mo_host _ _ (proj1 Hg1)) as [Hf1 Hu1].
  unfold identity in Hi1. injection Hi1 as Hl1 Hr1 Ht1 He1. apply wp_bind. unfold self, gets, wp at 1. rewrite Hq1, Hl1, Hr1, He1. apply wp_bind.
  apply (wp_mono _ _ (fun _ s2 => goes s1 s2 /\ su_impl s2 = su_impl s1)).
  2: { destruct (si_queue (su_impl s)) as [client|] eqn:Hq; [|by apply wp_ret; split; [eauto|]].
       by apply drain_and_release_ok; [eauto | rewrite Hq1]. }
  intros u2 s2 [Hg2 He2]. destruct (mo_host _ _ (proj1 Hg2)) as [Hf2 Hu2].
  set (told := if _ && _ then [si_endpoint_id (su_impl s)] else []). apply wp_bind.
  apply (wp_mono _ _ (fun _ s3 => s3 = s2 <| su_unsubscribed := told ++ su_unsubscribed s2 |>)).
  2: { unfold told. destruct (_ && _); [done|]. apply wp_ret. by destruct s2. }
  intros u3 s3 ->. set (s3 := s2 <| su_unsubscribed := _ |>). assert (Hc3 : sub_core s3) by (destruct (goes_ok _ _ Hg2) as [[] _]; by split).
  apply wp_bind. apply (wp_mono _ _ (fun _ s4 => su_files s4 = su_files s3 /\ su_unsubscribed s4 = su_unsubscribed s3 /\
    forall client, si_queue (su_impl s) = Some client -> qd_shm_name (qc_descriptor client) ∉ sh_queue_names (su_shared s4))).
  - intros u4 s4 (Hf4 & Hu4 & Hn4). unfold modify, wp. simpl. split_and!; [done | | by rewrite Hu4; simpl; rewrite Hu2, Hu1].
    intros Howns. rewrite Hf4. unfold s3. simpl. rewrite Hf2, Hf1. unfold cleanup_listener, close_socket, unlink. unfold_cpp. rewrite Howns. by destruct (0 <=? _).
  - destruct (si_queue (su_impl s)) as [client|] eqn:Hq; [|by apply wp_ret].
    apply wp_bind. eapply wp_mono; [|by apply interfere_ok]. intros u4 s4 [Hm4 He4]. apply wp_bind.
    eapply wp_mono; [|apply next_lock_ok, Hm4]. intros l1 s5 [Hm5 He5]. apply wp_bind.
    eapply wp_mono; [|apply next_lock_ok, Hm5]. intros l2 s6 [Hm6 He6]. apply wp_bind. unfold this, wp at 1.
    pose proof (moved_trans _ _ _ Hm4 (moved_trans _ _ _ Hm5 Hm6)) as Hm. destruct (mo_host _ _ Hm) as [Hf6 Hu6].
    assert (Hq6 : si_queue (su_impl s6) = Some client) by (rewrite (mo_queue _ _ Hm); simpl; by rewrite He2, Hq1).
    destruct (destroy_own_queue_ok client l1 l2 (su_shared s6) (sc_queue _ (mo_core _ _ Hm) _ Hq6)) as (w & Hrun & Hnames & _).
    apply wp_bind. unfold lift, wp at 1. rewrite Hrun. unfold modify, wp. simpl. split_and!; [done | done |].
    intros client' [= <-]. rewrite Hnames. set_solver.
Qed.
