(* ===== verification/SubscriberStreams.v ===== *)
(** * Receiving over a Unix socket

    The bytes of a connection arrive in fragments of any size, some before a call and some
    while it waits in [poll].  [waitAndTake] yields the messages of the stream, one per call and
    in order. *)

From Stdlib Require Import ZArith Lia Bool String.
From stdpp Require Import base gmap list strings option.
From S2P Require Import Prelude Types Outcome BigEndian FrameProtocol PoolProtocol QueueProtocol PoolLayout MemoryPool MemoryPoolView SocketIo SubscriberQueue QueueTheorems PublisherState Publisher PublisherInvariant PublisherMethods PublisherReleases UnixListener SampleView SubscriberState Subscriber SubscriberInvariant SubscriberFrames SubscriberMethods.

Local Open Scope Z_scope.

(** ** Arriving data *)

(** [pieces] arrive on the connection [fd]. *)
Definition deliver (fd : Z) (pieces : list incoming) (w : Shared) : Shared :=
  let so := shared_socket w fd in
  w <| sh_sockets := <[fd := so <| so_incoming := so_incoming so ++ pieces |>]> (sh_sockets w) |>.

Definition piece_ok (a : incoming) : Prop := fragment_ok a /\ incoming_typed a.
Definition pieces_bytes (chunks : list (list incoming)) : list Z := flat_map (flat_map fragment_bytes) chunks.

(** A [poll] that reports data. *)
Definition poll_data : poll_result := mkPollResult 1 0 1.

Lemma deliver_ok fd pieces : Forall piece_ok pieces -> others_ok (deliver fd pieces).
Proof.
  intros Hp w [Hs Hr]. split; [split; [|done]|by split; eauto]. intros fd'. unfold deliver, shared_socket. cbv zeta. simpl.
  destruct (decide (fd' = fd)) as [->|]; [|rewrite lookup_insert_ne by done; apply Hs]. rewrite lookup_insert_eq. simpl.
  apply Forall_app. split; [apply Hs|]. eapply list.Forall_impl; [exact Hp|]. by intros a [_ ?].
Qed.

(** ** A connected subscriber *)

(** It waits for [chunks] to arrive, one at each of its next [polls] returns of [poll]. *)
Record connected (fd : Z) (chunks : list (list incoming)) (polls : nat) (s : SubState) : Prop := {
  cn_core : sub_core s;
  cn_uds : uds s;
  cn_frame : frame_ok (su_impl s);
  cn_context : si_release_context (su_impl s) = Some fd;
  cn_flowing : conn_flowing s;
  cn_pieces : Forall (Forall piece_ok) chunks;
  cn_others : kn_others (su_kernel s) = map (deliver fd) chunks;
  cn_polls : kn_polls (su_kernel s) = replicate polls poll_data;
  cn_events : kn_events (su_kernel s) = [];
}.

(** The bytes since the last frame boundary, received, on the stream and still to arrive. *)
Definition coming (chunks : list (list incoming)) (s : SubState) : list Z :=
  frame_received (su_impl s) ++ conn_stream s ++ pieces_bytes chunks.

(** One [poll]: the next chunk is on the stream. *)
Lemma poll_delivers fd chunks polls s : connected fd chunks (S polls) s ->
  wp poll_sockets s (fun step s' => step = PollReady /\ connected fd (tail chunks) polls s' /\ su_impl s' = su_impl s /\
    coming (tail chunks) s' = coming chunks s /\
    conn_stream s' = conn_stream s ++ (match chunks with [] => [] | c :: _ => flat_map fragment_bytes c end)).
Proof.
  intros Hcn. pose proof Hcn as [Hc Hu Hf Hctx Hflow Hp Ho Hpoll Hev]. unfold poll_sockets. apply wp_bind. unfold self, gets, wp at 1. rewrite Hctx.
  apply wp_bind, wp_ret. unfold poll_connection. unfold wp, mbind, cpp_bind.
  assert (Hi : exists s1, interfere s = (Ret tt, s1) /\ su_impl s1 = su_impl s /\ kn_others (su_kernel s1) = map (deliver fd) (tail chunks) /\
    kn_polls (su_kernel s1) = replicate (S polls) poll_data /\ kn_events (su_kernel s1) = [] /\ sub_core s1 /\ conn_flowing s1 /\
    conn_stream s1 = conn_stream s ++ (match chunks with [] => [] | c :: _ => flat_map fragment_bytes c end)).
  { pose proof (interfere_ok s Hc) as Hi. unfold interfere, wp in *. rewrite Ho in *. destruct chunks as [|c chunks]; simpl in *.
    - exists s. split_and!; try done. by rewrite app_nil_r.
    - apply Forall_cons_1 in Hp as [Hpc _]. eexists. split; [done|]. split_and!; try done; [apply Hi| |].
      + destruct Hflow as [Hs Hfl]. split; [done|]. unfold conn_socket in *. simpl. rewrite Hctx in *. unfold deliver, shared_socket. simpl.
        rewrite lookup_insert_eq. simpl. apply Forall_app. split; [exact Hfl|]. eapply list.Forall_impl; [exact Hpc|]. by intros a [? _].
      + unfold conn_stream, conn_socket. simpl. rewrite Hctx. unfold deliver, shared_socket at 1. simpl. rewrite lookup_insert_eq. simpl. apply flat_map_app. }
  destruct Hi as (s1 & -> & He1 & Ho1 & Hp1 & Hev1 & Hc1 & Hflow1 & Hst1).
  pose proof (next_poll_ok s1 Hc1) as Hn. unfold next_poll, next_answer in *. unfold wp in Hn. unfold_cpp. rewrite Hp1 in *. simpl in *. destruct Hn as [[Hm2 _] _].
  assert (Hcoming : forall s', su_impl s' = su_impl s -> conn_stream s' = conn_stream s1 -> coming (tail chunks) s' = coming chunks s).
  { intros s' Hi Hs. unfold coming. rewrite Hi, Hs, Hst1. do 1 f_equal. by destruct chunks; simpl; rewrite <- ?app_assoc, ?app_nil_r. }
  split_and!; [done | | done | by apply Hcoming | done].
  split; simpl; try done; [apply Hm2 | unfold uds; by simpl; rewrite He1 | by rewrite He1 | by rewrite He1 | ].
  by destruct chunks; [|apply Forall_cons_1 in Hp as [_ ?]].
Qed.

Lemma connected_core fd chunks polls s got s' : connected fd chunks polls s -> received s s' got -> conn_flowing s' -> frame_ok (su_impl s') ->
  connected fd chunks polls s'.
Proof.
  intros [Hc Hu Hf Hctx Hflow Hp Ho Hpoll Hev] Hrv Hflow' Hf'. destruct (rv_rest _ _ _ Hrv) as (_ & _ & _ & Hk).
  split; rewrite ?Hk; try done; [apply (rv_moved _ _ _ Hrv) | unfold uds; by rewrite (mo_config _ _ (rv_moved _ _ _ Hrv)) | by rewrite (rv_context _ _ _ Hrv)].
Qed.

(** What a take that finds [message] leaves: the rest of the stream. *)
Definition took (fd : Z) (chunks : list (list incoming)) (polls : nat) (message : ReceivedMessage) (rest : list Z)
    (r : option ReceivedMessage) (s s' : SubState) : Prop :=
  r = Some message /\ si_last_error (su_impl s') = Ok /\ frame_received (su_impl s') = [] /\ max_size s' = max_size s /\
  exists chunks' polls', connected fd chunks' polls' s' /\ coming chunks' s' = rest /\
    (polls + length chunks' <= polls' + length chunks + 1)%nat.

Lemma take_loop_takes fd message rest fuel : forall chunks polls s, connected fd chunks polls s ->
  (length chunks < polls)%nat -> (polls < fuel)%nat -> parse_frame (max_size s) (coming chunks s) = ParseDone message rest ->
  wp (take_loop fuel) s (fun r s' => took fd chunks polls message rest r s s').
Proof.
  induction fuel as [|fuel IH]; intros chunks polls s Hcn Hlen Hfuel Hparse; [lia|]. destruct polls as [|polls]; [lia|].
  cbn [take_loop]. apply wp_bind. eapply wp_mono; [|by apply poll_delivers]. intros step s1 (-> & Hcn1 & He1 & Hcoming & Hst).
  assert (Hmax : max_size s1 = max_size s) by (unfold max_size; by rewrite He1).
  apply wp_bind. eapply wp_mono; [|apply receive_agrees; apply Hcn1]. intros r s2 ([got Hrv] & Hflow2 & Hag).
  rewrite Hmax in Hag. rewrite <- Hcoming in Hparse. unfold coming in Hparse at 1. rewrite app_assoc, parse_frame_app in Hparse.
  assert (Hmax2 : max_size s2 = max_size s) by (unfold max_size; by rewrite (mo_config _ _ (rv_moved _ _ _ Hrv)), He1).
  destruct (parse_frame (max_size s) (frame_received (su_impl s1) ++ conn_stream s1)) as [|status|message' more] eqn:Hnow; simpl in Hag; [|done|].
  - destruct Hag as (-> & Hf2 & Hrec2 & Hnil2). simpl. pose proof (connected_core _ _ _ _ _ _ Hcn1 Hrv Hflow2 Hf2) as Hcn2.
    assert (Hco2 : coming (tail chunks) s2 = coming (tail chunks) s1).
    { unfold coming. by rewrite Hrec2, Hnil2, <- app_assoc. }
    destruct chunks as [|c chunks].
    { exfalso. simpl in Hparse. by rewrite app_nil_r, Hnow in Hparse. }
    simpl in *. eapply wp_mono; [|apply (IH chunks polls s2); [done | lia | lia |]].
    + intros r s3 (-> & He & Hfr & Hm3 & left & polls' & Hcn3 & Hrest & Hle). split_and!; try done; [congruence|]. exists left, polls'. split_and!; try done. simpl. lia.
    + rewrite Hmax2, Hco2. unfold coming. by rewrite app_assoc.
  - destruct Hag as (-> & Hf2 & Hrec2 & Hst2). injection Hparse as -> <-. simpl. apply wp_bind. unfold set_last_error, set_self, modify, wp at 1. apply wp_ret.
    pose proof (connected_core _ _ _ _ _ _ Hcn1 Hrv Hflow2 Hf2) as Hcn2.
    split_and!; try done. exists (tail chunks), polls. split_and!.
    + destruct Hcn2 as [Hc Hu Hf Hctx Hflow Hp Ho Hpoll Hev]. split; try done; [apply (mo_core s2), moved_last_error, Hc|].
      by destruct Hf; split.
    + unfold coming. simpl. change (frame_received _) with (frame_received (su_impl s2)). by rewrite Hrec2; change (conn_stream _) with (conn_stream s2); rewrite Hst2.
    + destruct chunks; simpl; lia.
Qed.

(** ** The public call *)

Lemma no_events fd chunks polls s : connected fd chunks polls s -> processPeerEvents s = (Ret tt, s).
Proof.
  intros Hcn. unfold processPeerEvents, self, next_events, next_answer. unfold_cpp. destruct (_ || _); [done|].
  by rewrite (cn_events _ _ _ _ Hcn).
Qed.

Lemma wait_takes fd chunks polls message rest s : connected fd chunks polls s -> (length chunks < polls)%nat ->
  parse_frame (max_size s) (coming chunks s) = ParseDone message rest ->
  wp (waitAndTake true) s (fun r s' => took fd chunks polls message rest r s s').
Proof.
  intros Hcn Hlen Hparse. unfold waitAndTake. cbn [negb]. apply wp_bind. unfold self, gets, wp at 1.
  rewrite bool_decide_false by apply Hcn. apply wp_bind. unfold wp at 1. rewrite (no_events _ _ _ _ Hcn).
  apply wp_bind, wp_poll_fuel, take_loop_takes; try done. rewrite (cn_polls _ _ _ _ Hcn), length_replicate. lia.
Qed.

(** A message as a publisher sends it. *)
Record sent_message := mkSentMessage { sm_sequence : Z; sm_timestamp : Z; sm_payload : list Z }.
Definition sent_frame (m : sent_message) : list Z :=
  encodeFrameHeader (mkFrameHeader kFrameMagic (Z.of_nat (length (sm_payload m))) (sm_sequence m) (sm_timestamp m)) ++ sm_payload m.
Definition sendable (max : Z) (m : sent_message) : Prop :=
  fits 64 (sm_sequence m) /\ fits 64 (sm_timestamp m) /\ Z.of_nat (length (sm_payload m)) <= max /\ Z.of_nat (length (sm_payload m)) <= u32_max.
Definition as_received (m : sent_message) : ReceivedMessage :=
  mkReceivedMessage (sm_payload m) (sm_sequence m) (sm_timestamp m) 0 0 0 0.

(** [n] calls in a row. *)
Fixpoint take_messages (n : nat) : cpp SubState (list (option ReceivedMessage)) :=
  match n with
  | O => mret []
  | S n => m ← waitAndTake true; ms ← take_messages n; mret (m :: ms)
  end.

Lemma take_messages_takes fd rest messages : forall chunks polls s, connected fd chunks polls s ->
  (length chunks + length messages <= polls)%nat -> Forall (sendable (max_size s)) messages ->
  coming chunks s = flat_map sent_frame messages ++ rest ->
  wp (take_messages (length messages)) s (fun rs s' => rs = map (Some ∘ as_received) messages /\
    exists chunks' polls', connected fd chunks' polls' s' /\ coming chunks' s' = rest).
Proof.
  induction messages as [|m messages IH]; intros chunks polls s Hcn Hlen Hall Hbytes; [by apply wp_ret; eauto|].
  apply Forall_cons_1 in Hall as [(Hs & Ht & Hm & Hu) Hall]. cbn [length take_messages]. apply wp_bind. simpl in Hlen.
  eapply wp_mono; [|apply (wait_takes fd chunks polls (as_received m) (flat_map sent_frame messages ++ rest)); [done | lia |]].
  - intros r s1 (-> & _ & _ & Hmax & chunks1 & polls1 & Hcn1 & Hco1 & Hle). apply wp_bind.
    eapply wp_mono; [|apply (IH chunks1 polls1 s1); [done | lia | by rewrite Hmax | done]]. intros rs s2 [-> Hrest]. apply wp_ret. by split.
  - rewrite Hbytes. simpl. unfold sent_frame at 1. rewrite <- (app_assoc (_ ++ _)). by apply parse_published.
Qed.

(** ** Theorems *)

(** C26: the receive loop agrees with the reference parser.  For every state of the reassembly
    and every fragmentation of the bytes on the stream, [receiveUdsAvailable] returns the
    message if the bytes since the last frame boundary hold a whole frame, leaving exactly what
    follows it; asks for more if they are a proper prefix, keeping them; and refuses a header
    exactly when the parser does. *)
Theorem receive_equals_parser s :
  sub_core s -> uds s -> frame_ok (su_impl s) -> conn_flowing s ->
  exists r s', receiveUdsAvailable s = (Ret r, s') /\
    agrees (parse_frame (max_size s) (frame_received (su_impl s) ++ conn_stream s)) (frame_received (su_impl s) ++ conn_stream s) r s'.
Proof.
  intros Hc Hu Hf Hfl. pose proof (receive_agrees s Hc Hu Hf Hfl) as Hwp. apply wp_run in Hwp as (r & s' & Hrun & _ & _ & Hag). by exists r, s'.
Qed.

(** C25: whatever a publisher has sent over a Unix socket comes out whole, once and in order:
    with the frames of [messages] split into fragments of any size, some on the stream already
    and the others arriving while the calls wait, as many calls of [waitAndTake] return these
    messages and leave what follows on the stream. *)
Theorem uds_messages_in_order fd chunks polls messages rest s :
  connected fd chunks polls s -> (length chunks + length messages <= polls)%nat -> Forall (sendable (max_size s)) messages ->
  coming chunks s = flat_map sent_frame messages ++ rest ->
  exists s', take_messages (length messages) s = (Ret (map (Some ∘ as_received) messages), s') /\
    exists chunks' polls', connected fd chunks' polls' s' /\ coming chunks' s' = rest.
Proof.
  intros Hcn Hlen Hall Hbytes. pose proof (take_messages_takes fd rest messages chunks polls s Hcn Hlen Hall Hbytes) as Hwp.
  apply wp_run in Hwp as (rs & s' & Hrun & -> & Hrest). by exists s'.
Qed.

(** ** A concrete connection *)

Definition example_messages : list sent_message := [mkSentMessage 1 100 [1; 2; 3]; mkSentMessage 2 200 []].
Definition example_stream : list Z := flat_map sent_frame example_messages ++ [77].
Definition example_chunks : list (list incoming) :=
  [[InData (take 10 example_stream); InError EINTR; InData (take 20 (drop 10 example_stream))]; [InData (drop 30 example_stream)]].
Definition example_listener : UnixListener := mkUnixListener 3 "/tmp/mw" true.
Definition example_kernel (chunks : list (list incoming)) (polls : nat) : Kernel :=
  mkKernel (map (deliver 7) chunks) (replicate polls poll_data) [] [] [] [].
Definition example_subscriber (k : Kernel) : SubState :=
  mkSubState (new_impl "topic" (default_subscriber_config "/tmp/mw") example_listener false 0 0 empty_PoolDescriptor None
      <| si_release_context := Some 7 |>) (mkShared ∅ ∅ ∅ ∅ ∅) k (mkSocketFiles {[ "/tmp/mw" ]} {[ 3 ]}) [].

Lemma example_core k : kernel_ok k -> sub_core (example_subscriber k).
Proof.
  intros Hk. split; simpl; try done. split; [done|]. by apply all_bytes_spec.
Qed.

Lemma example_frame k : frame_ok (su_impl (example_subscriber k)).
Proof. split; simpl; try done; lia. Qed.

Lemma example_flowing k : conn_flowing (example_subscriber k).
Proof. split; [by eexists | constructor]. Qed.

Lemma example_pieces : Forall (Forall piece_ok) example_chunks.
Proof.
  assert (Hb : forall l, all_bytes l = true -> l <> [] -> piece_ok (InData l)) by (intros l Hl Hn; split; [done | by apply all_bytes_spec]).
  repeat (apply list.Forall_cons; split); try apply list.Forall_nil; try (apply Hb; [vm_compute; reflexivity | vm_compute; discriminate]); done.
Qed.

Lemma example_connected : connected 7 example_chunks 4 (example_subscriber (example_kernel example_chunks 4)).
Proof.
  split; try done; try apply example_frame; try apply example_flowing; try apply example_pieces.
  apply example_core. split; [|done]. cbn [kn_others example_kernel]. apply Forall_fmap.
  eapply list.Forall_impl; [apply example_pieces|]. intros pieces. apply deliver_ok.
Qed.

Lemma receive_equals_parser_witness :
  exists r s', receiveUdsAvailable (example_subscriber (example_kernel [] 0)) = (Ret r, s') /\ agrees ParseMore [] r s'.
Proof.
  apply (receive_equals_parser (example_subscriber (example_kernel [] 0))); [by apply example_core | done | apply example_frame | apply example_flowing].
Defined.

Lemma uds_messages_in_order_witness :
  exists s', take_messages 2 (example_subscriber (example_kernel example_chunks 4)) =
    (Ret [Some (mkReceivedMessage [1; 2; 3] 1 100 0 0 0 0); Some (mkReceivedMessage [] 2 200 0 0 0 0)], s') /\
    exists chunks' polls', connected 7 chunks' polls' s' /\ coming chunks' s' = [77].
Proof.
  apply (uds_messages_in_order 7 example_chunks 4 example_messages [77] _ example_connected).
  - vm_compute. lia.
  - repeat (apply list.Forall_cons; split); try apply list.Forall_nil; vm_compute; intuition discriminate.
  - vm_compute. reflexivity.
Defined.
