(* ===== verification/SubscriberRuns.v ===== *)
(** * A subscriber left alone

    What the methods of a subscriber do exactly when no other process runs in between and
    the system calls succeed: taking a handle, forgetting a dead publisher, closing the queue. *)

From Stdlib Require Import ZArith Lia Bool String.
From stdpp Require Import base gmap list strings option.
From S2P Require Import Prelude Types Outcome BigEndian FrameProtocol PoolProtocol QueueProtocol PoolLayout MemoryPool MemoryPoolView SocketIo SubscriberQueue QueueTheorems PublisherState Publisher PublisherInvariant PublisherMethods PublisherReleases UnixListener SampleView SubscriberState Subscriber SubscriberInvariant SubscriberFrames SubscriberMethods.

Local Open Scope Z_scope.

(** ** Accesses *)

Record quiet_kernel (k : Kernel) : Prop := {
  qk_others : kn_others k = [];
  qk_locks : kn_locks k = [];
  qk_opens : kn_opens k = [];
}.
Definition undisturbed (s : SubState) : Prop := quiet_kernel (su_kernel s).

(** The state with the queue of [client] replaced. *)
Definition with_queue (client : QueueClient) (q : SharedQueue) (s : SubState) : SubState :=
  s <| su_shared := su_shared s <| sh_queues := <[qd_shm_name (qc_descriptor client) := q]> (sh_queues (su_shared s)) |> |>.
Definition own_queue (client : QueueClient) (s : SubState) : option SharedQueue :=
  sh_queues (su_shared s) !! qd_shm_name (qc_descriptor client).

Lemma own_queue_with client q s : own_queue client (with_queue client q s) = Some q.
Proof. unfold own_queue, with_queue. simpl. apply lookup_insert_eq. Qed.

Lemma with_queue_id client q s : own_queue client s = Some q -> with_queue client q s = s.
Proof. intros Hq. unfold own_queue, with_queue in *. destruct s as [m [so qs qn pn po] k f u]. simpl in *. rewrite insert_id by done. done. Qed.

Section quiet.
Context (s : SubState) (Hquiet : undisturbed s).

Lemma interfere_run : interfere s = (Ret tt, s).
Proof. unfold interfere. by rewrite (qk_others _ Hquiet). Qed.

Lemma next_lock_run : next_lock s = (Ret LockAcquired, s).
Proof. unfold next_lock, next_answer. unfold_cpp. by rewrite (qk_locks _ Hquiet). Qed.

Lemma next_open_run : next_open s = (Ret None, s).
Proof. unfold next_open, next_answer. unfold_cpp. by rewrite (qk_opens _ Hquiet). Qed.

Lemma on_own_queue_run {A} client (method : lock_result -> cpp SharedQueue A) q : own_queue client s = Some q ->
  on_own_queue client method s = ((method LockAcquired q).1, with_queue client (method LockAcquired q).2 s).
Proof.
  intros Hq. unfold on_own_queue, in_queue. unfold mbind, cpp_bind. rewrite interfere_run, next_lock_run.
  unfold own_queue in Hq. cbv zeta. rewrite Hq. by destruct (method LockAcquired q).
Qed.

Lemma on_mapping_run {A} pool (access : Region -> outcome A) r : sh_pools (su_shared s) !! mv_object pool = Some r ->
  on_mapping pool access s = (access r, s).
Proof. intros Hr. unfold on_mapping. unfold mbind, cpp_bind. rewrite interfere_run. unfold this. by rewrite Hr. Qed.

Lemma open_pool_view_run d topic object r : sh_pool_names (su_shared s) !! pd_shm_name d = Some object ->
  sh_pools (su_shared s) !! object = Some r ->
  open_pool_view d topic s = ((view ← open_view None r d topic; Ret (mkMappedPool view object)), s).
Proof.
  intros Hn Hr. unfold open_pool_view. unfold mbind at 1, cpp_bind at 1. rewrite interfere_run.
  unfold mbind at 1, cpp_bind at 1. rewrite next_open_run. unfold mbind at 1, cpp_bind at 1, this. cbv zeta.
  unfold find_pool. rewrite Hn. cbn [mbind option_bind]. rewrite Hr. simpl. unfold lift, mbind, cpp_bind, outcome_bind.
  by destruct (open_view None r d topic).
Qed.
End quiet.

(** ** Taking a handle *)

(** A subscriber with a mapped pool and a connection. *)
Record attached (client : QueueClient) (pool : MappedPool) (fd : Z) (s : SubState) : Prop := {
  at_quiet : undisturbed s;
  at_queue : si_queue (su_impl s) = Some client;
  at_pool : si_pool_view (su_impl s) = Some pool;
  at_context : si_release_context (su_impl s) = Some fd;
  at_accepts : so_replies (shared_socket (su_shared s) fd) = [];
}.

(** What a take does with the oldest handle of the queue [q]. *)
Definition taken (client : QueueClient) (pool : MappedPool) (fd : Z) (q : SharedQueue) (r : Region) (s s' : SubState)
    (result : option ViewData) : Prop :=
  let sent := so_sent (shared_socket (su_shared s) fd) in
  let sent' := so_sent (shared_socket (su_shared s') fd) in
  match contents q with
  | [] => result = None /\ own_queue client s' = Some q /\ sent' = sent
  | handle :: rest =>
      if negb (ch_pool_id handle =? pd_pool_id (pv_descriptor (mv_view pool)))
      then result = None /\ own_queue client s' = Some q /\ sent' = sent
      else
        (exists q', own_queue client s' = Some q' /\ queue_wf q' /\ contents q' = rest) /\
        match read_view (mv_view pool) r handle (max_size s) with
        | Ret view =>
            if is_ok (vr_error view)
            then result = Some (mkViewData fd pool handle (vr_payload view) (vr_payload_size view) (vr_sequence view)
                                  (vr_publish_timestamp_ns view)) /\ sent' = sent
            else result = None /\ sent' = sent ++ encodeQueueRelease handle /\ si_last_error (su_impl s') = vr_error view
        | _ => False
        end
  end.

Lemma tryTakeQueued_run client pool fd q r s : attached client pool fd s -> own_queue client s = Some q -> queue_ok q ->
  sh_pools (su_shared s) !! mv_object pool = Some r -> view_wf (mv_view pool) (region_size r) ->
  wp tryTakeQueued s (fun result s' => taken client pool fd q r s s' result /\ attached client pool fd s' /\
    su_kernel s' = su_kernel s /\ sh_pools (su_shared s') = sh_pools (su_shared s) /\
    (is_Some result -> exists q', s' = with_queue client q' (s <| su_impl := su_impl s <| si_last_error := Ok |> |>))).
Proof.
  intros Hat Hq Hok Hr Hv. pose proof Hat as [Hquiet Hcl Hp Hctx Hacc]. unfold tryTakeQueued. apply wp_bind. unfold self, gets, wp at 1.
  rewrite Hcl, Hp, Hctx. apply wp_bind. unfold wp at 1. rewrite (on_own_queue_run s Hquiet client peek q Hq).
  rewrite (peek_spec LockAcquired q (proj1 Hok)). cbn [fst snd lock_ok lock_state]. rewrite (with_queue_id _ _ _ Hq).
  assert (Hnone : forall handle rest, contents q = handle :: rest -> negb (ch_pool_id handle =? pd_pool_id (pv_descriptor (mv_view pool))) = true ->
    taken client pool fd q r s s None) by (intros handle rest Hc Hne; unfold taken; by rewrite Hc, Hne).
  destruct (contents q) as [|handle rest] eqn:Hc; cbn [list.head].
  { apply wp_ret. unfold taken. rewrite Hc. by split_and!. }
  destruct (negb (ch_pool_id handle =? _)) eqn:Hne; [apply wp_ret; split_and!; try done; by eapply Hnone|].
  apply wp_bind. unfold wp at 1. rewrite (on_own_queue_run s Hquiet client tryDequeue q Hq).
  destruct (tryDequeue_spec LockAcquired q (proj1 Hok)) as (q' & Hrun & Hwf & _ & _ & Hc'). rewrite Hrun. cbn [fst snd lock_ok lock_state] in *.
  rewrite Hc in *. cbn [list.head tail] in *. apply wp_bind. unfold wp at 1. rewrite (on_mapping_run (with_queue client q' s) Hquiet pool _ r Hr).
  destruct (read_view_inside (mv_view pool) r handle (max_size s) Hv) as (view & Hread & _); [destruct Hok as [_ Hty]; rewrite Hc in Hty; by apply Forall_cons_1 in Hty as [? _]|].
  unfold max_size in Hread. rewrite Hread. set (s1 := with_queue client q' s).
  assert (Hq1 : own_queue client s1 = Some q') by apply own_queue_with. unfold taken, max_size. rewrite Hc, Hne, Hread.
  destruct (is_ok (vr_error view)) eqn:Hvok; cbn [negb].
  - apply wp_bind. unfold set_self, modify, wp at 1. apply wp_ret. split_and!; try done; [by exists q' | by exists q'].
  - apply wp_bind. unfold wp at 1. rewrite (socket_release_run fd handle s1 Hacc). cbv zeta. apply wp_bind. unfold set_self, modify, wp at 1. apply wp_ret.
    split_and!; try done; [by exists q' | |].
    + unfold shared_socket at 1. simpl. rewrite lookup_insert_eq. done.
    + split; try done. unfold shared_socket. simpl. by rewrite lookup_insert_eq.
Qed.

(** ** A dead publisher *)

(** What stays of a subscriber when its publisher is gone. *)
Definition forgotten (m : SubscriberImpl) : SubscriberImpl :=
  frame_start (m <| si_release_context := None |>) <| si_pool_view := None |> <| si_discovered_pool := empty_PoolDescriptor |>.

Definition handles_alive (dead : list Z) (l : list ChunkHandle) : list ChunkHandle :=
  filter (fun h => ch_pool_id h ∉ dead) l.

Lemma alive_step dead deads l : dead <> 0 ->
  handles_alive (dead :: deads) l = handles_alive deads (filter (fun h => keeps dead h = true) l).
Proof.
  intros Hd. unfold handles_alive. rewrite list_filter_filter. apply list_filter_iff. intros h. unfold keeps.
  rewrite not_elem_of_cons, andb_true_iff, !negb_true_iff, !Z.eqb_neq. tauto.
Qed.

Lemma resetPublisherState_run dead client q s : undisturbed s -> si_queue (su_impl s) = Some client ->
  own_queue client s = Some q -> queue_wf q -> dead <> 0 ->
  wp (resetPublisherState dead) s (fun _ s' => exists q', queue_wf q' /\ contents q' = filter (fun h => keeps dead h = true) (contents q) /\
    let m := su_impl s in
    s' = with_queue client q' s <| su_impl :=
      if decide (pd_pool_id (si_discovered_pool m) = 0 \/ pd_pool_id (si_discovered_pool m) = dead) then forgotten m else m |>).
Proof.
  intros Hquiet Hcl Hq Hwf Hd. unfold resetPublisherState. apply wp_bind. unfold self, gets, wp at 1. rewrite Hcl.
  apply wp_bind. unfold wp at 1. rewrite (on_own_queue_run s Hquiet client _ q Hq).
  destruct (discardPool_spec LockAcquired dead q Hwf eq_refl) as (q' & Hrun & Hwf' & _ & Hc). rewrite Hrun. cbn [fst snd].
  rewrite (proj2 (Z.eqb_neq _ _) Hd). cbn [negb andb lock_state] in *. set (id := pd_pool_id (si_discovered_pool (su_impl s))).
  destruct (id =? 0) eqn:H0, (id =? dead) eqn:H1; cbn [negb andb]; bools.
  4: { apply wp_ret. exists q'. rewrite decide_False by (fold id; lia). split_and!; [done | done |]. by destruct s. }
  all: unfold resetConnection, resetFrame, set_self, modify, wp; unfold_cpp; exists q'; rewrite decide_True by (fold id; lia); split_and!; [done | done |];
    by destruct s as [[] ? ? ? ?].
Qed.

(** The pools of the publishers reported dead. *)
Definition dead_pools (events : list RegistryPeerEvent) : list Z :=
  flat_map (fun e => match re_kind e with PeerPublisherDead => [re_resource_id e] | PeerSubscriberDead => [] end) events.

Definition event_body (event : RegistryPeerEvent) : cpp SubState unit :=
  match re_kind event with
  | PeerPublisherDead => resetPublisherState (re_resource_id event)
  | PeerSubscriberDead => mret tt
  end.

Lemma forgotten_twice m : forgotten (forgotten m) = forgotten m.
Proof. by destruct m. Qed.

Definition after_deaths (dead : list Z) (m : SubscriberImpl) : SubscriberImpl :=
  let discovered := pd_pool_id (si_discovered_pool m) in
  if decide (discovered ∈ dead \/ discovered = 0 /\ dead <> []) then forgotten m else m.

Lemma after_deaths_cons d dead m : d <> 0 ->
  after_deaths (d :: dead) m =
  after_deaths dead (if decide (pd_pool_id (si_discovered_pool m) = 0 \/ pd_pool_id (si_discovered_pool m) = d) then forgotten m else m).
Proof.
  intros Hd. unfold after_deaths. set (id := pd_pool_id (si_discovered_pool m)). destruct (decide (id = 0 \/ id = d)) as [Hid|Hid].
  - rewrite decide_True by (rewrite elem_of_cons; naive_solver). simpl.
    destruct (decide _); [by rewrite forgotten_twice | done].
  - fold id. apply Decidable.not_or in Hid as [H0 H1]. destruct (decide (id ∈ dead \/ _)) as [Hin|Hin].
    + rewrite decide_True; [done|]. rewrite elem_of_cons. naive_solver.
    + rewrite decide_False; [done|]. rewrite elem_of_cons. naive_solver.
Qed.

Lemma events_run client events : Forall (fun e => re_resource_id e <> 0) events ->
  forall q s, undisturbed s -> si_queue (su_impl s) = Some client -> own_queue client s = Some q -> queue_wf q ->
  wp (for_each events event_body) s (fun _ s' => exists q', queue_wf q' /\ contents q' = handles_alive (dead_pools events) (contents q) /\
    s' = with_queue client q' s <| su_impl := after_deaths (dead_pools events) (su_impl s) |>).
Proof.
  induction events as [|e events IH]; intros Hall q s Hquiet Hcl Hq Hwf; cbn [for_each].
  - apply wp_ret. exists q. rewrite (with_queue_id _ _ _ Hq). split_and!; [done | |].
    + unfold handles_alive. symmetry. apply filter_keep_all. apply list.Forall_forall. intros h _. apply not_elem_of_nil.
    + unfold after_deaths. rewrite decide_False by (intros [Hf | [_ Hf]]; [by apply not_elem_of_nil in Hf | done]). by destruct s.
  - apply Forall_cons_1 in Hall as [He Hall]. specialize (IH Hall). apply wp_bind. unfold event_body at 1. destruct (re_kind e) eqn:Hk.
    2: { apply wp_ret. eapply wp_mono; [|by apply IH]. intros u s'. cbn [dead_pools flat_map]. by rewrite Hk. }
    eapply wp_mono; [|by eapply resetPublisherState_run]. intros u s1 (q1 & Hwf1 & Hc1 & ->). cbv zeta.
    eapply wp_mono; [|apply (IH q1)]; [|done| |apply own_queue_with|done].
    2: { simpl. by destruct (decide _). }
    intros u2 s2 (q2 & Hwf2 & Hc2 & ->). exists q2. cbn [dead_pools flat_map]. rewrite Hk. cbn [app].
    rewrite alive_step, after_deaths_cons, <- Hc1 by done. split_and!; [done | done |].
    unfold with_queue. simpl. by rewrite insert_insert_eq.
Qed.

(** [processPeerEvents] when the registry answers. *)
Lemma peer_events_run client q events more s : undisturbed s -> si_queue (su_impl s) = Some client ->
  own_queue client s = Some q -> queue_wf q -> si_registry_session (su_impl s) = true -> si_endpoint_id (su_impl s) <> 0 ->
  kn_events (su_kernel s) = Ret events :: more -> Forall (fun e => re_resource_id e <> 0) events ->
  wp processPeerEvents s (fun _ s' => exists q', queue_wf q' /\ contents q' = handles_alive (dead_pools events) (contents q) /\
    own_queue client s' = Some q' /\ su_impl s' = after_deaths (dead_pools events) (su_impl s)).
Proof.
  intros [Ho Hl Hop] Hcl Hq Hwf Hreg Hid Hev Hall. unfold processPeerEvents. apply wp_bind. unfold self, gets, wp at 1.
  rewrite Hreg, (proj2 (Z.eqb_neq _ _) Hid). cbn [negb orb]. apply wp_bind. unfold next_events, next_answer. apply wp_bind.
  unfold this, wp at 1. rewrite Hev. apply wp_bind. unfold set_kernel, modify, wp at 1. apply wp_ret.
  set (s1 := s <| su_kernel := _ |>). assert (Hquiet1 : undisturbed s1) by (by split).
  eapply wp_mono; [|exact (events_run client events Hall q s1 Hquiet1 Hcl Hq Hwf)].
  intros u s' (q' & Hwf' & Hc' & ->). exists q'. split_and!; [done | done | apply own_queue_with | done].
Qed.

(** ** Destruction *)

(** The connection a destructor uses: the one it has, or one that waits to be accepted. *)
Definition last_connection (s : SubState) : option Z :=
  match si_release_context (su_impl s) with
  | Some fd => Some fd
  | None => match kn_accepts (su_kernel s) with inl fd :: _ => Some fd | _ => None end
  end.

Lemma accept_run s : wp acceptPendingConnection s (fun _ s' => su_shared s' = su_shared s /\
  si_release_context (su_impl s') = last_connection s /\ si_queue (su_impl s') = si_queue (su_impl s) /\
  (undisturbed s -> undisturbed s')).
Proof.
  unfold acceptPendingConnection, last_connection. apply wp_bind. unfold self, gets, wp at 1.
  destruct (si_release_context (su_impl s)) as [fd|] eqn:Hctx; [by apply wp_ret|]. apply wp_bind. unfold next_accept, next_answer.
  apply wp_bind. unfold this, wp at 1. destruct (kn_accepts (su_kernel s)) as [|answer more] eqn:Ha.
  - apply wp_ret. simpl. by apply wp_ret.
  - apply wp_bind. unfold set_kernel, modify, wp at 1. apply wp_ret.
    assert (Hquiet : undisturbed s -> undisturbed (s <| su_kernel := su_kernel s <| kn_accepts := more |> |>)) by (intros []; by split).
    destruct answer as [fd|errno]; simpl.
    + apply wp_bind. unfold set_self, modify, wp at 1. unfold resetFrame, set_self, modify, wp. split_and!; try done.
    + destruct (errno =? EAGAIN); [by apply wp_ret|]. destruct (errno =? EINTR); by apply wp_ret.
Qed.

(** [destroy_queue] leaves the sockets alone. *)
Lemma destroy_own_queue_sockets client l1 l2 w w' : destroy_own_queue client l1 l2 w = Ret w' -> sh_sockets w' = sh_sockets w.
Proof. unfold destroy_own_queue. cbv zeta. repeat case_match; intros [= <-]; done. Qed.

Lemma destroy_run client q fd s : undisturbed s -> si_queue (su_impl s) = Some client -> own_queue client s = Some q -> queue_wf q ->
  last_connection s = Some fd -> so_replies (shared_socket (su_shared s) fd) = [] ->
  wp destroy_subscriber s (fun _ s' =>
    so_sent (shared_socket (su_shared s') fd) = so_sent (shared_socket (su_shared s) fd) ++ release_frames (contents q) /\
    ~ (qd_shm_name (qc_descriptor client) ∈ sh_queue_names (su_shared s'))).
Proof.
  intros Hquiet Hcl Hq Hwf Hfd Hacc. unfold destroy_subscriber. apply wp_bind. eapply wp_mono; [|apply accept_run].
  intros u s1 (Hsh & Hctx & Hcl1 & Hquiet1). specialize (Hquiet1 Hquiet). rewrite Hfd in Hctx. rewrite Hcl in Hcl1.
  assert (Hq1 : own_queue client s1 = Some q) by (unfold own_queue; by rewrite Hsh). rewrite <- Hsh in Hacc |- *. clear Hsh.
  apply wp_bind. unfold self, gets, wp at 1. rewrite Hcl1, Hctx. apply wp_bind.
  destruct (closeAndDrain_spec LockAcquired q Hwf eq_refl) as (q' & Hrun & Hwf' & Hnil & _). cbn [lock_state] in Hrun.
  pose proof (release_all_run fd (contents q) (with_queue client q' s1) Hacc) as Hrel.
  unfold swallow, wp at 1. unfold mbind at 1, cpp_bind at 1. rewrite (on_own_queue_run s1 Hquiet1 client closeAndDrain q Hq1), Hrun.
  cbn [fst snd]. unfold wp in Hrel. destruct (for_each (contents q) _ (with_queue client q' s1)) as [[[]| |] s2]; try done.
  destruct Hrel as (so & Hsent & _ & _ & Hso & Heq & _). apply wp_bind.
  set (s3 := if si_registry_session (su_impl s1) && negb (si_endpoint_id (su_impl s1) =? 0)
             then s2 <| su_unsubscribed := si_endpoint_id (su_impl s1) :: su_unsubscribed s2 |> else s2).
  assert (Hmid : forall Q : unit -> SubState -> Prop, Q tt s3 -> wp (if si_registry_session (su_impl s1) && negb (si_endpoint_id (su_impl s1) =? 0)
    then modify (fun s => s <| su_unsubscribed := si_endpoint_id (su_impl s1) :: su_unsubscribed s |>) else mret tt) s2 Q).
  { intros Q HQ. unfold s3 in HQ. by destruct (_ && _). }
  apply Hmid. assert (Hs3 : su_shared s3 = su_shared s2 /\ su_kernel s3 = su_kernel s2) by (unfold s3; by destruct (_ && _)).
  assert (Hquiet3 : undisturbed s3) by (unfold undisturbed; destruct Hs3 as [_ ->]; rewrite Heq; exact Hquiet1).
  apply wp_bind, wp_bind. unfold wp at 1. rewrite (interfere_run s3 Hquiet3). apply wp_bind. unfold wp at 1. rewrite (next_lock_run s3 Hquiet3).
  apply wp_bind. unfold wp at 1. rewrite (next_lock_run s3 Hquiet3). apply wp_bind. unfold this, wp at 1. apply wp_bind.
  assert (Hm : sh_queues (su_shared s3) !! qd_shm_name (qc_descriptor client) = Some q').
  { destruct Hs3 as [-> _]. rewrite Heq. simpl. apply lookup_insert_eq. }
  destruct (destroy_queue_returns client LockAcquired LockAcquired q') as (r & q2 & Hd).
  unfold lift, wp at 1, destroy_own_queue. cbv zeta. rewrite Hm, Hd. unfold modify, wp. split.
  - simpl. destruct Hs3 as [-> _]. unfold shared_socket at 1. simpl. fold (shared_socket (su_shared s2) fd). by rewrite Hso, Hsent.
  - simpl. rewrite elem_of_difference, elem_of_singleton. naive_solver.
Qed.
