(* ===== verification/SubscriberLifecycle.v ===== *)
(** * Creating a subscriber

    The constructors of [Subscriber::Impl]: a subscriber that is made satisfies [sub_ok] and
    has linked its queue and bound its socket path; one that is not leaves nothing behind. *)

From Stdlib Require Import ZArith Lia Bool String.
From stdpp Require Import base gmap list strings option pretty.
From S2P Require Import Prelude Types Outcome BigEndian FrameProtocol PoolProtocol QueueProtocol PoolLayout MemoryPool MemoryPoolView SocketIo SubscriberQueue QueueTheorems PublisherState UnixListener SampleView SubscriberState Subscriber SubscriberInvariant SubscriberFrames SubscriberMethods.

Local Open Scope Z_scope.

(** Answers a kernel and a registry can give. *)
Record create_answers (env : create_env) (h : Host) : Prop := {
  ca_fresh : match la_socket (ne_listen env) with inl fd => 0 <= fd /\ fd ∉ sf_fds (ho_files h) | inr _ => True end;
  ca_subscribe : forall d, ne_subscribe env d <> Undef;
}.

(** What is left when a constructor throws: the names and files of before. *)
Definition unchanged (h h' : Host) : Prop :=
  ho_files h' = ho_files h /\ sh_queue_names (ho_shared h') = sh_queue_names (ho_shared h).

Lemma files_eq f f' : owns f [] [] f' -> f' = f.
Proof.
  intros [Hp Hf _ _ _ _]. destruct f, f'. simpl in *. f_equal; [rewrite Hp | rewrite Hf]; set_solver.
Qed.

Lemma owns_self f : owns f [] [] f.
Proof. split; simpl; try set_solver; apply NoDup_nil_2. Qed.

(** The listener a constructor makes owns its path; without it the files are as before. *)
Lemma make_listener_ok env path h : create_answers env h ->
  match on_files (create_listener (ne_listen env) path 1) h with
  | (Ret l, h') => ho_shared h' = ho_shared h /\ owned_paths l = [path] /\ owns (ho_files h) (owned_paths l) (owned_fds l) (ho_files h')
  | (Throw _, h') => h' = h
  | (Undef, _) => False
  end.
Proof.
  intros [Hfresh _]. unfold on_files.
  pose proof (create_owns (ho_files h) (ne_listen env) path 1 [] [] (ho_files h) Hfresh (owns_self _)) as Hc.
  destruct (create_listener (ne_listen env) path 1 (ho_files h)) as [[l|e|] f] eqn:Hrun; try done.
  - rewrite !app_nil_r in Hc. by destruct Hc.
  - apply files_eq in Hc as ->. by destruct h.
Qed.

Lemma create_queue_fails e errors d live : (create_queue (Some e) errors d live).1 <> Undef ->
  exists e', (create_queue (Some e) errors d live).1 = Throw e'.
Proof.
  unfold create_queue, lift. unfold_cpp. intros Hu. destruct (validateDescriptor d); [|by eexists | done].
  destruct (negb _); by eexists.
Qed.

Lemma create_own_queue_ok env d h : 0 <= qd_capacity d ->
  match create_own_queue env d h with
  | (Ret client, h') => exists q, new_queue d client q /\ ~ (qd_shm_name d ∈ sh_queue_names (ho_shared h)) /\
      h' = h <| ho_shared := ho_shared h <| sh_queues := <[qd_shm_name d := q]> (sh_queues (ho_shared h)) |>
        <| sh_queue_names := {[ qd_shm_name d ]} ∪ sh_queue_names (ho_shared h) |> |>
  | (Throw _, h') => h' = h
  | (Undef, _) => False
  end.
Proof.
  intros Hpos. unfold create_own_queue. cbv zeta. case_bool_decide as Hin.
  - destruct (create_queue_spec (Some EEXIST) (ne_errors env) d Hpos) as (o & live & Hrun & Ho).
    destruct (create_queue_fails EEXIST (ne_errors env) d []) as [e' He']; [by rewrite Hrun; destruct o|]. by rewrite He'.
  - destruct (create_queue_spec (ne_os env) (ne_errors env) d Hpos) as (o & live & Hrun & Ho). rewrite Hrun. simpl.
    destruct o as [[client q]| |]; [|done|done]. destruct Ho as [Hnew _]. by exists q.
Qed.

(** Destroying the queue again unlinks its name. *)
Lemma reset_queue_ok env d client q h h0 : new_queue d client q -> qd_shm_name d ∉ sh_queue_names (ho_shared h0) ->
  h = h0 <| ho_shared := ho_shared h0 <| sh_queues := <[qd_shm_name d := q]> (sh_queues (ho_shared h0)) |>
        <| sh_queue_names := {[ qd_shm_name d ]} ∪ sh_queue_names (ho_shared h0) |> |> ->
  wp (reset_queue env (Some client)) h (fun _ h' => unchanged h0 h').
Proof.
  intros (_ & _ & _ & _ & _ & -> & _) Hnot ->. unfold reset_queue. apply wp_bind. unfold this, wp at 1. apply wp_bind. unfold lift, wp at 1.
  unfold destroy_own_queue. simpl. rewrite lookup_insert_eq.
  destruct (destroy_queue_returns (mkQueueClient d true true) (ne_close env) (ne_detach env) q) as (r & q' & ->).
  unfold modify, wp. split; [done|]. simpl. apply leibniz_equiv. intros x.
  rewrite elem_of_difference, elem_of_union, elem_of_singleton. split; [naive_solver|]. intros Hx. split; [by right|]. by intros ->.
Qed.

(** What the queue step of the registry constructor gives. *)
Definition queue_made (config : SubscriberConfig) (h h' : Host) (d : QueueDescriptor) (queue : option QueueClient) : Prop :=
  match queue with
  | None => uc_transport config <> SharedMemory /\ h' = h
  | Some client => uc_transport config = SharedMemory /\ exists q, new_queue d client q /\ qd_capacity d = uc_queue_depth config /\
      ~ (qd_shm_name d ∈ sh_queue_names (ho_shared h)) /\
      h' = h <| ho_shared := ho_shared h <| sh_queues := <[qd_shm_name d := q]> (sh_queues (ho_shared h)) |>
        <| sh_queue_names := {[ qd_shm_name d ]} ∪ sh_queue_names (ho_shared h) |> |>
  end.

Lemma make_queue_ok env config h : 0 <= uc_queue_depth config ->
  match (if bool_decide (uc_transport config = SharedMemory) then
           d ← lift (advertised_queue env config); client ← create_own_queue env d; mret (d, Some client)
         else mret (empty_QueueDescriptor, None) : cpp Host (QueueDescriptor * option QueueClient)) h with
  | (Ret (d, queue), h') => queue_made config h h' d queue
  | (Throw _, h') => h' = h
  | (Undef, _) => False
  end.
Proof.
  intros Hd. case_bool_decide as Hs; [|by split]. unfold lift, mbind, cpp_bind.
  unfold advertised_queue. cbv zeta. unfold mbind, outcome_bind.
  destruct (requiredQueueSegmentSize (uc_queue_depth config)) as [size| |] eqn:Hreq.
  2: done.
  2: { exfalso. revert Hreq. unfold requiredQueueSegmentSize. destruct (_ || _); [done|]. destruct (checkedMultiply _ _); [|done]. by destruct (checkedAdd _ _). }
  set (d := mkQueueDescriptor _ _ _ _ _ _ _). pose proof (create_own_queue_ok env d h Hd) as Hc.
  destruct (create_own_queue env d h) as [[client| |] h']; try done. destruct Hc as (q & Hnew & Hnot & Heq). split; [done|]. by exists q.
Qed.

(** A new subscriber. *)
Record made (config : SubscriberConfig) (h h' : Host) (m : SubscriberImpl) : Prop := {
  ma_config : si_config m = config;
  ma_path : uc_socket_path config ∈ sf_paths (ho_files h') /\ ul_owns_path (si_listener m) = true /\
    ul_socket_path (si_listener m) = uc_socket_path config;
  ma_queue : forall client, si_queue m = Some client -> exists q, sh_queues (ho_shared h') !! qd_shm_name (qc_descriptor client) = Some q /\
    contents q = [] /\ capacity q = Z.to_nat (uc_queue_depth config) /\
    sh_queue_names (ho_shared h') = {[ qd_shm_name (qc_descriptor client) ]} ∪ sh_queue_names (ho_shared h);
  ma_ok : forall k files told, shared_ok (ho_shared h) -> kernel_ok k -> sub_ok (mkSubState m (ho_shared h') k files told);
}.

Lemma new_impl_ok topic config listener session topic_id endpoint pool queue w k files told :
  shared_ok w -> kernel_ok k -> (forall client, queue = Some client -> queue_mapped w client) ->
  sub_ok (mkSubState (new_impl topic config listener session topic_id endpoint pool queue) w k files told).
Proof.
  intros Hw Hk Hq. assert (Hb : Forall is_byte (replicate kQueueWakeSize 0)) by (apply Forall_replicate; unfold is_byte; lia).
  split; [split; simpl; try done|].
  unfold between. simpl. case_bool_decide; [simpl; unfold kQueueWakeSize, kQueueWakeHeaderSize; lia|]. split; simpl; try done; lia.
Qed.

(** The cleanup of a constructor that throws removes the listener again. *)
Lemma drop_listener_ok base l h : owns base (owned_paths l) (owned_fds l) (ho_files h) ->
  wp (on_files (cleanup_listener l);; mret tt) h (fun _ h' => ho_files h' = base /\ ho_shared h' = ho_shared h).
Proof.
  intros Hown. apply wp_bind. unfold on_files, wp. rewrite <- (app_nil_r (owned_paths l)), <- (app_nil_r (owned_fds l)) in Hown.
  pose proof (cleanup_owns base l [] [] (ho_files h) Hown) as Hc. unfold wp in Hc. destruct (cleanup_listener l (ho_files h)) as [[l'| |] f]; try done.
  destruct Hc as [Hc _]. by apply files_eq in Hc as ->.
Qed.

Lemma subscriber_config_defined config mode : validateConfig config mode <> Undef.
Proof. unfold validateConfig. by repeat case_match. Qed.

Lemma bind_lift_ret {S A B} (a : A) (k : A -> cpp S B) s : (lift (Ret a) ≫= k) s = k a s.
Proof. done. Qed.

(** [or_cleanup] around a body that throws. *)
Lemma or_cleanup_throws {S A} (body : cpp S A) cleanup e s s1 (Q : S -> Prop) : body s = (Throw e, s1) ->
  wp cleanup s1 (fun _ s' => Q s') -> exists s', or_cleanup body cleanup s = (Throw e, s') /\ Q s'.
Proof.
  intros Hb Hc. unfold or_cleanup. rewrite Hb. unfold wp in Hc. unfold_cpp. destruct (cleanup s1) as [[u| |] s']; try done. by exists s'.
Qed.

(** The body of the registry constructor, once the listener is there. *)
Lemma registered_body_ok env topic config listener h : (forall d, ne_subscribe env d <> Undef) -> 0 <= uc_queue_depth config ->
  match ('(descriptor, queue) ← (if bool_decide (uc_transport config = SharedMemory) then
                               d ← lift (advertised_queue env config);
                               client ← create_own_queue env d; mret (d, Some client)
                             else mret (empty_QueueDescriptor, None));
         endpoint ← or_cleanup (lift (ne_subscribe env descriptor)) (reset_queue env queue);
         mret (new_impl topic config listener true (rg_topic_id endpoint) (rg_endpoint_id endpoint) (rg_pool endpoint) queue)) h with
  | (Ret m, h') => (exists d queue endpoint, queue_made config h h' d queue /\
      m = new_impl topic config listener true (rg_topic_id endpoint) (rg_endpoint_id endpoint) (rg_pool endpoint) queue)
  | (Throw _, h') => unchanged h h'
  | (Undef, _) => False
  end.
Proof.
  intros Hsub Hd. unfold mbind at 1, cpp_bind at 1. pose proof (make_queue_ok env config h Hd) as Hq.
  match goal with |- context [match ?c h with _ => _ end] => destruct (c h) as [[[d queue]| |] h1] end; [|by rewrite Hq | done].
  unfold mbind at 1, cpp_bind at 1. destruct (ne_subscribe env d) as [endpoint|e|] eqn:Hans; [| |by apply Hsub in Hans].
  - unfold or_cleanup, lift. by exists d, queue, endpoint.
  - destruct (or_cleanup_throws (lift (ne_subscribe env d)) (reset_queue env queue) e h1 h1 (unchanged h)) as (h2 & Hrun & Hun).
    + unfold lift. by rewrite Hans.
    + destruct queue as [client|]; simpl in Hq; [|by destruct Hq as [_ ->]]. destruct Hq as (_ & q & Hnew & _ & Hnot & Heq). by eapply reset_queue_ok.
    + rewrite Hans in Hrun. by rewrite Hrun.
Qed.

Lemma create_registered_subscriber_ok env topic config h : create_answers env h -> 0 <= uc_queue_depth config ->
  match create_registered_subscriber env topic config h with
  | (Ret m, h') => made config h h' m /\ (is_Some (si_queue m) <-> uc_transport config = SharedMemory)
  | (Throw _, h') => unchanged h h'
  | (Undef, _) => False
  end.
Proof.
  intros Hans Hd. unfold create_registered_subscriber.
  destruct (validateConfig config true) as [[]| |] eqn:Hv; [|done | by apply subscriber_config_defined in Hv].
  rewrite bind_lift_ret. unfold mbind at 1, cpp_bind at 1. pose proof (make_listener_ok env (uc_socket_path config) h Hans) as Hl.
  destruct (on_files _ h) as [[l|e|] h1]; [|by rewrite Hl | done]. destruct Hl as (Hsh & Hpath & Hown).
  pose proof (registered_body_ok env topic config l h1 (ca_subscribe _ _ Hans) Hd) as Hbody.
  match goal with |- context [or_cleanup ?b ?c] => set (body := b) in *; set (undo := c) end.
  destruct (body h1) as [[m|e|] h2] eqn:Hrun; [| |done].
  - unfold or_cleanup. rewrite Hrun. destruct Hbody as (d & queue & endpoint & Hq & ->).
    assert (Howned : ul_owns_path l = true /\ ul_socket_path l = uc_socket_path config).
    { unfold owned_paths in Hpath. destruct (ul_owns_path l); [|done]. by injection Hpath as ->. }
    assert (Hfiles : ho_files h2 = ho_files h1) by (destruct queue as [client0|]; simpl in Hq; [destruct Hq as (_ & q & _ & _ & _ & ->) | destruct Hq as [_ ->]]; done).
    split; [split; simpl; [done | | |] |].
    + split; [|done]. rewrite Hfiles, (ow_paths _ _ _ _ Hown), Hpath. set_solver.
    + intros client ->. destruct Hq as (_ & q & (Hwf & Hnil & _ & Hcap & _ & -> & _) & Hdepth & _ & ->). exists q. simpl.
      rewrite lookup_insert_eq, Hsh. split_and!; [done | done | by rewrite Hcap, Hdepth | done].
    + intros k files told Hw Hk. rewrite <- Hsh in Hw. apply new_impl_ok; [|done|].
      * destruct queue as [client0|]; simpl in Hq; [destruct Hq as (_ & q & _ & _ & _ & ->) | by destruct Hq as [_ ->]]. destruct Hw as [Hs Hp]. by split.
      * intros client ->. destruct Hq as (_ & q & (Hwf & _ & _ & _ & _ & -> & _ & _ & Hslots) & _ & _ & ->). exists q. simpl.
        rewrite lookup_insert_eq. split; [done|]. split; [apply Hwf|]. unfold slots_typed. rewrite Hslots. apply Forall_replicate.
        unfold ChunkHandle_typed, fits. simpl. lia.
    + destruct queue as [client0|]; simpl in Hq; [destruct Hq as [-> _] | destruct Hq as [Hne _]]; split; try done; intros Hf; by destruct Hf.
  - destruct (or_cleanup_throws body undo e h1 h2 (unchanged h)) as (h3 & -> & Hun); [done | | done].
    destruct Hbody as [Hf Hn]. eapply wp_mono; [|apply (drop_listener_ok (ho_files h)); by rewrite Hf].
    intros u h3 [Hf3 Hsh3]. split; [done|]. by rewrite Hsh3, Hn, Hsh.
Qed.

Lemma create_direct_subscriber_ok env topic config h : create_answers env h ->
  match create_direct_subscriber env topic config h with
  | (Ret m, h') => made config h h' m /\ si_queue m = None /\ uc_transport config = UnixDomainSocket
  | (Throw _, h') => unchanged h h'
  | (Undef, _) => False
  end.
Proof.
  intros Hans. unfold create_direct_subscriber.
  destruct (validateConfig config false) as [[]| |] eqn:Hv; [|done | by apply subscriber_config_defined in Hv].
  rewrite bind_lift_ret. unfold mbind at 1, cpp_bind at 1. pose proof (make_listener_ok env (uc_socket_path config) h Hans) as Hl.
  destruct (on_files _ h) as [[l|e|] h1]; [|by rewrite Hl | done]. destruct Hl as (Hsh & Hpath & Hown). simpl.
  assert (Howned : ul_owns_path l = true /\ ul_socket_path l = uc_socket_path config).
  { unfold owned_paths in Hpath. destruct (ul_owns_path l); [|done]. by injection Hpath as ->. }
  split_and!; [split; simpl; [done | | done |] | done |].
  - split; [|done]. rewrite (ow_paths _ _ _ _ Hown), Hpath. set_solver.
  - intros k files told Hw Hk. apply new_impl_ok; [by rewrite Hsh | done | done].
  - unfold validateConfig in Hv. simpl in Hv. destruct (_ =? 0); [done|]. destruct (_ <? _); [done|]. destruct (negb (validTransport _)); [done|].
    case_bool_decide as Ht; [done|]. done.
Qed.
