(* ===== verification/SubscriberTheorems.v ===== *)
(** * Theorems about the subscriber

    An application that takes messages and views from a subscriber, in any order, with peers
    that send arbitrary bytes; the order and contents of what is received over a Unix socket;
    what a subscriber leaves behind. *)

From Stdlib Require Import ZArith Lia Bool String.
From stdpp Require Import base gmap list strings option pretty.
From S2P Require Import Prelude Types Outcome BigEndian FrameProtocol PoolProtocol QueueProtocol PoolLayout MemoryPool PoolSpec PoolCreation MemoryPoolView PoolTheorems SocketIo SubscriberQueue QueueTheorems PublisherState Publisher PublisherInvariant PublisherMethods PublisherReleases UnixListener SampleView SubscriberState Subscriber SubscriberInvariant SubscriberFrames SubscriberMethods SubscriberRuns SubscriberLifecycle.

Local Open Scope Z_scope.

(** ** Applications *)

(** A call of the application, or new answers of the kernel, the registry and the other
    processes for the calls that follow. *)
Inductive sub_op :=
  | SubTake
  | SubTakeView
  | SubView (op : view_op)
  | SubAnswers (k : Kernel).

(** The subscriber's views, and the messages taken. *)
Record sub_app := mkSubApp { sa_views : list (SampleView release_context MappedPool); sa_messages : list ReceivedMessage }.

Definition sub_step (op : sub_op) (a : sub_app) : cpp SubState sub_app :=
  match op with
  | SubTake => m ← waitAndTake true; mret (mkSubApp (sa_views a) (sa_messages a ++ option_list m))
  | SubTakeView => v ← waitAndTakeView true; mret (mkSubApp (sa_views a ++ option_list v) (sa_messages a))
  | SubView op => views ← view_step op (sa_views a); mret (mkSubApp views (sa_messages a))
  | SubAnswers k => set_kernel (fun _ => k);; mret a
  end.

Fixpoint run_sub (ops : list sub_op) (a : sub_app) : cpp SubState sub_app :=
  match ops with
  | [] => mret a
  | op :: ops => a ← sub_step op a; run_sub ops a
  end.

Definition op_answers (op : sub_op) : Prop := match op with SubAnswers k => kernel_ok k | _ => True end.

(** A view is inside its mapping or spent. *)
Definition view_sound (w : Shared) (max : Z) (v : SampleView release_context MappedPool) : Prop :=
  view_ok v /\ (sv_active v = true -> view_inside w max v).

Record app_ok (max : Z) (a : sub_app) (s : SubState) : Prop := {
  ap_sub : sub_ok s;
  ap_max : max_size s = max;
  ap_views : Forall (view_sound (su_shared s) max) (sa_views a);
  ap_messages : Forall (message_ok max) (sa_messages a);
}.

Lemma views_sound_le w w' max views : shared_le w w' -> Forall (view_sound w max) views -> Forall (view_sound w' max) views.
Proof.
  intros Hle Hall. eapply list.Forall_impl; [exact Hall|]. intros v [Hok Hin]. split; [done|]. intros Ha. by eapply view_inside_le; [|apply Hin].
Qed.

Lemma app_ok_goes max a s s' : app_ok max a s -> goes s s' -> app_ok max a s'.
Proof.
  intros [Hok Hmax Hv Hm] Hg. split; [by eapply goes_ok | unfold max_size in *; by rewrite (mo_config _ _ (proj1 Hg)) | | done].
  eapply views_sound_le; [apply (mo_shared _ _ (proj1 Hg)) | done].
Qed.

Lemma spent_view_sound w max v : view_ok v -> sv_active v = false -> view_sound w max v.
Proof. intros Hok Ha. split; [done|]. by rewrite Ha. Qed.

Lemma view_step_sound op max views s : sub_ok s -> Forall (view_sound (su_shared s) max) views ->
  wp (view_step op views) s (fun views' s' => goes s s' /\ Forall (view_sound (su_shared s') max) views').
Proof.
  intros Hok Hv. assert (Hempty : forall w, view_sound w max empty_view) by (intros; apply spent_view_sound; [apply empty_view_ok | done]).
  destruct op as [i|i|i j]; cbn [view_step].
  - destruct (views !! i) as [v|] eqn:Hi; [|by apply wp_ret; split; [apply goes_refl|]]. apply wp_bind.
    eapply wp_mono; [|by apply view_release_goes]. intros v' s1 (Hg & _ & _ & Hvok & Ha). apply wp_ret. split; [done|].
    apply Forall_insert; [|by apply spent_view_sound]. eapply views_sound_le; [apply (mo_shared _ _ (proj1 Hg)) | done].
  - destruct (views !! i) as [v|] eqn:Hi; [|by apply wp_ret; split; [apply goes_refl|]]. simpl. apply wp_ret. split; [by apply goes_refl|].
    apply Forall_app. split; [by apply Forall_insert|]. constructor; [by eapply Forall_lookup_1 | constructor].
  - case_bool_decide as Hij; [by apply wp_ret; split; [apply goes_refl|]|].
    destruct (views !! i) as [v|] eqn:Hi; [|by apply wp_ret; split; [apply goes_refl|]].
    destruct (views !! j) as [other|] eqn:Hj; [|by apply wp_ret; split; [apply goes_refl|]].
    unfold view_assign. apply wp_bind, wp_bind. eapply wp_mono; [|by apply (view_release_goes v)]. intros v' s1 (Hg & _). apply wp_ret, wp_ret.
    split; [done|]. apply Forall_insert; [|done].
    assert (Hv1 : Forall (view_sound (su_shared s1) max) views) by (eapply views_sound_le; [apply (mo_shared _ _ (proj1 Hg)) | done]).
    apply Forall_insert; [done | by eapply Forall_lookup_1].
Qed.

Lemma sub_step_ok max op a s : 0 <= max -> op_answers op -> app_ok max a s -> wp (sub_step op a) s (fun a' s' => app_ok max a' s').
Proof.
  intros Hpos Hop Happ. pose proof (ap_sub _ _ _ Happ) as Hok. pose proof (ap_max _ _ _ Happ) as Hmax. destruct op as [| |op|k]; cbn [sub_step].
  - apply wp_bind. eapply wp_mono; [|apply waitAndTake_ok; [done | by rewrite Hmax]]. intros m s1 [Hg Hm]. apply wp_ret.
    destruct (app_ok_goes _ _ _ _ Happ Hg) as [? ? ? ?]. split; try done. apply Forall_app. split; [done|].
    rewrite Hmax in Hm. destruct m; [by repeat constructor | constructor].
  - apply wp_bind. eapply wp_mono; [|by apply waitAndTakeView_ok]. intros v s1 [Hg Hv]. apply wp_ret.
    destruct (app_ok_goes _ _ _ _ Happ Hg) as [? ? ? ?]. split; try done. apply Forall_app. split; [done|].
    rewrite Hmax in Hv. destruct v as [v|]; [|constructor]. simpl. constructor; [|constructor]. by split; [apply Hv|].
  - apply wp_bind. eapply wp_mono; [|apply (view_step_sound op max); [done | apply Happ]]. intros views s1 [Hg Hv]. apply wp_ret.
    destruct (app_ok_goes _ _ _ _ Happ Hg) as [? ? ? ?]. by split.
  - apply wp_bind. unfold set_kernel, modify, wp at 1. apply wp_ret. destruct Happ as [[[] Hb] ? ? ?]. by split.
Qed.

Lemma run_sub_ok max ops : 0 <= max -> Forall op_answers ops -> forall a s, app_ok max a s ->
  wp (run_sub ops a) s (fun a' s' => app_ok max a' s').
Proof.
  intros Hpos. induction ops as [|op ops IH]; intros Hall a s Happ; [by apply wp_ret|]. apply Forall_cons_1 in Hall as [Hop Hall].
  cbn [run_sub]. apply wp_bind. eapply wp_mono; [|by eapply sub_step_ok]. intros a' s' Happ'. by apply IH.
Qed.

(** ** Release frames *)

(** [H] is still to be released; for the other chunks of [all] a frame has been sent on the
    connection they came from, after what the connection had carried, [base]. *)
Definition owed (all : list (release_context * ChunkHandle)) (base : Z -> list Z) (H : list (release_context * ChunkHandle))
    (s : SubState) : Prop :=
  exists released, all ≡ₚ H ++ released /\ forall fd,
    so_replies (shared_socket (su_shared s) fd) = [] /\
    so_sent (shared_socket (su_shared s) fd) = base fd ++ release_frames (map snd (filter (fun c => c.1 = fd) released)).

#[export] Instance owed_contract all base : ReleaseContract SubState release_context SocketReleaseContext (owed all base).
Proof.
  split.
  - intros H H' HH s s' <-. unfold owed. by setoid_rewrite HH.
  - intros H fd handle s (released & Hperm & Hall). unfold wp. rewrite (socket_release_run fd handle s (proj1 (Hall fd))). cbv zeta.
    exists (released ++ [(fd, handle)]). split; [by rewrite Hperm, app_assoc, <- Permutation_cons_append|].
    intros fd'. destruct (Hall fd') as [Hr Hs]. rewrite filter_app. destruct (decide (fd = fd')) as [<-|Hne].
    + unfold shared_socket. simpl. rewrite lookup_insert_eq. simpl. split; [done|]. fold (shared_socket (su_shared s) fd). rewrite Hs.
      rewrite filter_cons_True, filter_nil by done. unfold release_frames. rewrite map_app, flat_map_app. cbn [map snd flat_map]. by rewrite app_nil_r, app_assoc.
    + unfold shared_socket. simpl. rewrite lookup_insert_ne by done. fold (shared_socket (su_shared s) fd').
      rewrite filter_cons_False, filter_nil, app_nil_r by done. done.
Qed.

(** ** Theorems *)

(** C7: a subscriber withstands its peers.  Whatever an application does with a subscriber and
    its views, whatever bytes the connections carry, and whatever the kernel and the registry
    answer, every call returns; every view points inside its mapping, every message is within the
    limit, and destruction returns as well, unlinks the queue's name and the socket file, and
    unsubscribes at the registry.  Other processes may change the shared state between any two
    accesses, as long as the ring indices of the queue stay inside its slots, which need not
    agree with each other or with the handles stored, and the mapped pools keep their size
    ([others_ok]): the code relies on both without checking them.  A wait has finitely many returns
    of [poll], the last one its timeout, and a [send] on a connection returns; both are part of the
    model of the kernel. *)
Theorem subscriber_withstands_peers max ops a s : 0 <= max -> Forall op_answers ops -> app_ok max a s ->
  exists a' s' s'', run_sub ops a s = (Ret a', s') /\ app_ok max a' s' /\ destroy_subscriber s' = (Ret tt, s'') /\
    (forall client, si_queue (su_impl s') = Some client -> ~ (qd_shm_name (qc_descriptor client) ∈ sh_queue_names (su_shared s''))) /\
    (ul_owns_path (si_listener (su_impl s')) = true -> sf_paths (su_files s'') = sf_paths (su_files s') ∖ {[ ul_socket_path (si_listener (su_impl s')) ]}) /\
    (si_registry_session (su_impl s') = true -> si_endpoint_id (su_impl s') <> 0 -> si_endpoint_id (su_impl s') ∈ su_unsubscribed s'').
Proof.
  intros Hpos Hops Happ. pose proof (run_sub_ok max ops Hpos Hops a s Happ) as Hrun. apply wp_run in Hrun as (a' & s' & Hrun & Happ').
  pose proof (destroy_subscriber_ok s' (ap_sub _ _ _ Happ')) as Hd. apply wp_run in Hd as ([] & s'' & Hd & Hq & Hf & Hu).
  exists a', s', s''. split_and!; [done | done | done | exact Hq | exact Hf |]. intros Hr He.
  rewrite Hu, Hr, (proj2 (Z.eqb_neq _ _) He). apply list_elem_of_here.
Qed.

(** Creating a registered subscriber is all or nothing.  With any answers of the kernel and
    of the registry it either throws with every socket file, descriptor and queue name as
    before, or returns a subscriber that satisfies the invariant, owns the path it listens on
    and, exactly when it takes shared memory, owns a new empty queue of the configured depth. *)
Theorem subscriber_creation_is_atomic env topic config h : create_answers env h -> 0 <= uc_queue_depth config ->
  match create_registered_subscriber env topic config h with
  | (Ret m, h') => made config h h' m /\ (is_Some (si_queue m) <-> uc_transport config = SharedMemory)
  | (Throw _, h') => unchanged h h'
  | (Undef, _) => False
  end.
Proof. apply create_registered_subscriber_ok. Qed.

(** Taking a handle is all or nothing.  A take finds the queue empty, or leaves a handle of
    another pool at its front, and then changes nothing; or it removes exactly the oldest
    handle and either lends the chunk as a view, sending nothing, or, when the chunk cannot be
    read, sends its release at once and reports the error. *)
Theorem take_is_all_or_nothing client pool fd q r s : attached client pool fd s -> own_queue client s = Some q -> queue_ok q ->
  sh_pools (su_shared s) !! mv_object pool = Some r -> view_wf (mv_view pool) (region_size r) ->
  exists result s', tryTakeQueued s = (Ret result, s') /\ taken client pool fd q r s s' result.
Proof.
  intros Hat Hq Hok Hr Hv. pose proof (tryTakeQueued_run client pool fd q r s Hat Hq Hok Hr Hv) as Hwp.
  apply wp_run in Hwp as (result & s' & Hrun & Htaken & _). by exists result, s'.
Qed.

(** Dead publishers are forgotten.  When the registry reports publishers dead, exactly the
    queued handles of their pools are discarded; the mapping and the connection are given up
    when the pool they serve is among them, or was not known, and are kept otherwise. *)
Theorem dead_publishers_are_forgotten client q events more s : undisturbed s -> si_queue (su_impl s) = Some client ->
  own_queue client s = Some q -> queue_wf q -> si_registry_session (su_impl s) = true -> si_endpoint_id (su_impl s) <> 0 ->
  kn_events (su_kernel s) = Ret events :: more -> Forall (fun e => re_resource_id e <> 0) events ->
  exists s' q', processPeerEvents s = (Ret tt, s') /\ own_queue client s' = Some q' /\ queue_wf q' /\
    contents q' = filter (fun h => ch_pool_id h ∉ dead_pools events) (contents q) /\
    let discovered := pd_pool_id (si_discovered_pool (su_impl s)) in
    (discovered ∈ dead_pools events \/ (discovered = 0 /\ dead_pools events <> []) ->
       si_pool_view (su_impl s') = None /\ si_release_context (su_impl s') = None /\ si_header_bytes (su_impl s') = 0 /\
       si_discovered_pool (su_impl s') = empty_PoolDescriptor) /\
    (discovered <> 0 -> ~ (discovered ∈ dead_pools events) -> su_impl s' = su_impl s).
Proof.
  intros Hquiet Hcl Hq Hwf Hreg Hid Hev Hall. pose proof (peer_events_run client q events more s Hquiet Hcl Hq Hwf Hreg Hid Hev Hall) as Hwp.
  apply wp_run in Hwp as ([] & s' & Hrun & q' & Hwf' & Hc & Hq' & Himpl). exists s', q'. split_and!; [done | done | done | done |].
  cbv zeta. rewrite Himpl. unfold after_deaths. split.
  - intros Hd. by rewrite decide_True.
  - intros H0 Hn. rewrite decide_False; [done|]. tauto.
Qed.

(** A subscriber that is destroyed gives every queued chunk back: with the connection it
    has, or one that waits to be accepted, exactly the frames that release the handles still
    queued are sent, in order, and the queue's name is unlinked. *)
Theorem destruction_returns_queued_chunks client q fd s : undisturbed s -> si_queue (su_impl s) = Some client ->
  own_queue client s = Some q -> queue_wf q -> last_connection s = Some fd -> so_replies (shared_socket (su_shared s) fd) = [] ->
  exists s', destroy_subscriber s = (Ret tt, s') /\
    so_sent (shared_socket (su_shared s') fd) = so_sent (shared_socket (su_shared s) fd) ++ flat_map encodeQueueRelease (contents q) /\
    ~ (qd_shm_name (qc_descriptor client) ∈ sh_queue_names (su_shared s')).
Proof.
  intros Hquiet Hcl Hq Hwf Hfd Hacc. pose proof (destroy_run client q fd s Hquiet Hcl Hq Hwf Hfd Hacc) as Hwp.
  apply wp_run in Hwp as ([] & s' & Hrun & Hpost). by exists s'.
Qed.

(** Every view releases its chunk exactly once.  Whatever an application does with its views
    (destroying, moving and assigning them in any order) before they go out of scope, each
    connection has carried exactly one release frame per chunk lent from it, and no other. *)
Theorem views_release_exactly_once ops (views : list (SampleView release_context MappedPool)) s : Forall view_ok views ->
  (forall fd, so_replies (shared_socket (su_shared s) fd) = []) ->
  exists views' s', run_views ops views s = (Ret views', s') /\ Forall view_ok views' /\
    exists s'' released, destroy_views views' s' = (Ret tt, s'') /\ released ≡ₚ view_chunks views /\
      forall fd, so_sent (shared_socket (su_shared s'') fd) =
        so_sent (shared_socket (su_shared s) fd) ++ flat_map encodeQueueRelease (map snd (filter (fun c => c.1 = fd) released)).
Proof.
  intros Hok Hacc. set (base := fun fd => so_sent (shared_socket (su_shared s) fd)).
  assert (Hstart : owed (view_chunks views) base (view_chunks views) s).
  { exists []. split; [by rewrite app_nil_r|]. intros fd. split; [done|]. rewrite filter_nil. simpl. by rewrite app_nil_r. }
  pose proof (run_views_ok (held := owed (view_chunks views) base) ops views s Hok Hstart) as Hrun.
  apply wp_run in Hrun as (views' & s' & Hrun & Hok' & Hheld). pose proof (destroy_views_ok views' s' Hheld) as Hd.
  apply wp_run in Hd as ([] & s'' & Hd & released & Hperm & Hsent). exists views', s'. split_and!; [done | done |].
  exists s'', released. split_and!; [done | by rewrite Hperm |]. intros fd. apply Hsent.
Qed.

(** ** A concrete subscriber *)

(** Its queue holds the chunk published in [PoolTheorems], its pool is mapped, and a publisher is
    connected. *)
Definition shm_config : SubscriberConfig :=
  mkSubscriberConfig "/tmp/mw" 128 "Pose" "v1" SharedMemory 2 DropOldest 100.
Definition own_client : QueueClient := mkQueueClient example_queue_descriptor true true.
Definition waiting_queue : SharedQueue := (enqueue LockAcquired quiet_env example_handle (Some true) example_queue).2.
Definition example_mapping : MappedPool := mkMappedPool (view_of example_published) 1.
Definition example_death : RegistryPeerEvent := mkRegistryPeerEvent PeerPublisherDead 11 5 3 7.
Definition quiet_answers (polls : list poll_result) (events : list (outcome (list RegistryPeerEvent))) : Kernel :=
  mkKernel [] polls [] [] [] events.
Definition lent_to (k : Kernel) : SubState :=
  mkSubState (new_impl "pose" shm_config (mkUnixListener 3 "/tmp/mw" true) true 3 11 example_descriptor (Some own_client)
      <| si_release_context := Some 7 |> <| si_pool_view := Some example_mapping |>)
    (mkShared ∅ {[ "/mw-q-5"%string := waiting_queue ]} {[ "/mw-q-5"%string ]} {[ "/mw-pool-7"%string := 1 ]}
       {[ 1 := mp_region example_published ]}) k (mkSocketFiles {[ "/tmp/mw"%string ]} {[ 3 ]}) [].

Lemma waiting_contents : contents waiting_queue = [example_handle].
Proof. vm_compute. reflexivity. Qed.

Lemma waiting_queue_ok : queue_ok waiting_queue.
Proof.
  split.
  - assert (Hwf : queue_wf (lock_state LockAcquired example_queue)) by exact example_queue_wf.
    assert (Henv : env_ok quiet_env) by (split; [intros deadline; constructor | done]).
    destruct (enqueue_refines quiet_env LockAcquired example_handle (Some true) example_queue Hwf Henv eq_refl) as (r & q' & Hrun & Hq & _).
    unfold waiting_queue. by rewrite Hrun.
  - rewrite waiting_contents. apply Forall_singleton. unfold ChunkHandle_typed, fits. simpl. lia.
Qed.

Lemma waiting_ring_ok : ring_ok waiting_queue.
Proof.
  split; [apply (qw_safe _ (proj1 waiting_queue_ok))|]. unfold slots_typed.
  assert (sq_slots waiting_queue = [example_handle; empty_ChunkHandle]) as -> by (vm_compute; reflexivity).
  repeat apply Forall_cons_2; try apply Forall_nil_2; unfold ChunkHandle_typed, fits; simpl; lia.
Qed.

Lemma published_region_typed : region_typed (mp_region example_published).
Proof. apply all_bytes_spec. vm_compute. reflexivity. Qed.

Lemma example_view_wf : view_wf (view_of example_published) (region_size (mp_region example_published)).
Proof.
  pose proof (open_view_safe None (mp_region example_published) example_descriptor 3 published_region_typed) as Hspec.
  assert (Hopen : open_view None (mp_region example_published) example_descriptor 3 = Ret (view_of example_published)) by (vm_compute; reflexivity).
  rewrite Hopen in Hspec. apply Hspec.
Qed.

Lemma lent_to_ok k : kernel_ok k -> sub_ok (lent_to k).
Proof.
  intros Hk. split; [split|].
  - split; [intros fd; unfold shared_socket; cbn [su_shared lent_to sh_sockets]; rewrite lookup_empty; constructor|].
    intros o r Hr. cbn [su_shared lent_to sh_pools] in Hr. apply lookup_singleton_Some in Hr as [<- <-]. exact published_region_typed.
  - exact Hk.
  - intros client [= <-]. exists waiting_queue. split; [reflexivity | exact waiting_ring_ok].
  - intros pool [= <-]. exists (mp_region example_published). split; [reflexivity | exact example_view_wf].
  - split; [reflexivity|]. apply all_bytes_spec. reflexivity.
  - unfold between. rewrite bool_decide_true by reflexivity. split; [discriminate | reflexivity].
Qed.

Lemma quiet_answers_ok polls events : Forall (fun e => e <> Undef) events -> kernel_ok (quiet_answers polls events).
Proof. intros He. by split. Qed.

Lemma lent_to_attached polls events : attached own_client example_mapping 7 (lent_to (quiet_answers polls events)).
Proof. by split. Qed.

Lemma lent_to_queue k : own_queue own_client (lent_to k) = Some waiting_queue.
Proof. reflexivity. Qed.

Lemma lent_to_region k : sh_pools (su_shared (lent_to k)) !! mv_object example_mapping = Some (mp_region example_published).
Proof. reflexivity. Qed.

(** Another process claims that every queue is full, so that size, head and tail disagree. *)
Definition overfill (q : SharedQueue) : SharedQueue := q <| sq_header := sq_header q <| qh_size := qh_capacity (sq_header q) |> |>.
Definition meddle (w : Shared) : Shared := w <| sh_queues := overfill <$> sh_queues w |>.

Lemma meddle_ok : others_ok meddle.
Proof.
  intros w Hw. split; [by destruct Hw; split|]. split; [|eauto]. intros name q Hq [Hs Hty]. exists (overfill q). simpl.
  rewrite lookup_fmap, Hq. split; [done|]. split; [|done]. destruct Hs. split; simpl; auto; lia.
Qed.

(** A run: a view is taken and moved while the queue is meddled with, then an unread wake and a lost
    connection are found. *)
Definition example_sub_run : list sub_op :=
  [SubTakeView; SubView (ViewMove 0); SubAnswers (mkKernel [meddle; meddle] [mkPollResult 1 0 1] [inl 8] [] [] [Ret [example_death]]); SubTake;
   SubView (ViewDestroy 1)].

Lemma subscriber_withstands_peers_witness :
  exists a' s' s'', run_sub example_sub_run (mkSubApp [] []) (lent_to (mkKernel [meddle] [] [] [] [] [])) = (Ret a', s') /\
    destroy_subscriber s' = (Ret tt, s'') /\ app_ok 128 a' s'.
Proof.
  destruct (subscriber_withstands_peers 128 example_sub_run (mkSubApp [] []) (lent_to (mkKernel [meddle] [] [] [] [] [])))
    as (a' & s' & s'' & Hrun & Hok & Hd & _).
  - lia.
  - repeat apply Forall_cons_2; try apply Forall_nil_2; try exact I. split; simpl; [|repeat constructor; done].
    repeat apply Forall_cons_2; try apply Forall_nil_2; exact meddle_ok.
  - split; [apply lent_to_ok; split; [apply Forall_singleton, meddle_ok | constructor] | reflexivity | constructor | constructor].
  - exists a', s', s''. split_and!; [exact Hrun | exact Hd | exact Hok].
Defined.

Definition empty_host : Host := mkHost (mkShared ∅ ∅ ∅ ∅ ∅) (mkSocketFiles ∅ {[ 0; 1; 2 ]}).
Definition example_create_env (subscribe : outcome RegistryEndpoint) : create_env :=
  mkCreateEnv (mkListenAnswer (inl 3) None None) 42 1 None (fun _ => None) (fun _ => subscribe) LockAcquired LockAcquired.

Lemma subscriber_creation_is_atomic_witness :
  match create_registered_subscriber (example_create_env (Throw (ex_middleware TypeMismatch))) "pose" shm_config empty_host with
  | (Throw _, h') => unchanged empty_host h'
  | _ => False
  end.
Proof.
  assert (Hans : create_answers (example_create_env (Throw (ex_middleware TypeMismatch))) empty_host).
  { split; [|done]. simpl. split; [lia|]. vm_compute. discriminate. }
  pose proof (subscriber_creation_is_atomic _ "pose" shm_config empty_host Hans ltac:(vm_compute; discriminate)) as H.
  destruct (create_registered_subscriber _ _ _ _) as [[m|e|] h'] eqn:Hrun; [|exact H | exact H].
  vm_compute in Hrun. discriminate Hrun.
Defined.

Lemma taken_lends client pool fd q r s s' result handle rest offset size sequence time : taken client pool fd q r s s' result ->
  contents q = handle :: rest -> negb (ch_pool_id handle =? pd_pool_id (pv_descriptor (mv_view pool))) = false ->
  read_view (mv_view pool) r handle (max_size s) = Ret (mkChunkViewResult Ok offset size sequence time) ->
  result = Some (mkViewData fd pool handle offset size sequence time).
Proof. unfold taken. intros Htaken Hc Hid Hread. rewrite Hc, Hid, Hread in Htaken. apply Htaken. Qed.

Lemma lent_to_max k : max_size (lent_to k) = 128.
Proof. reflexivity. Qed.
Lemma example_read : read_view (mv_view example_mapping) (mp_region example_published) example_handle 128 =
  Ret (mkChunkViewResult Ok (Some 320) 3 1 99).
Proof. vm_compute. reflexivity. Qed.
Lemma example_mapping_id : negb (ch_pool_id example_handle =? pd_pool_id (pv_descriptor (mv_view example_mapping))) = false.
Proof. vm_compute. reflexivity. Qed.

Lemma take_is_all_or_nothing_witness : exists s', tryTakeQueued (lent_to (quiet_answers [] [])) =
  (Ret (Some (mkViewData 7 example_mapping example_handle (Some 320) 3 1 99)), s').
Proof.
  destruct (take_is_all_or_nothing own_client example_mapping 7 waiting_queue (mp_region example_published) (lent_to (quiet_answers [] []))
    (lent_to_attached [] []) (lent_to_queue _) waiting_queue_ok (lent_to_region _) example_view_wf) as (result & s' & Hrun & Htaken).
  exists s'. rewrite Hrun. do 2 f_equal. apply (taken_lends _ _ _ _ _ _ _ _ example_handle [] (Some 320) 3 1 99 Htaken waiting_contents example_mapping_id).
  rewrite lent_to_max. exact example_read.
Defined.

Lemma dead_publishers_are_forgotten_witness : exists s' q',
  processPeerEvents (lent_to (quiet_answers [] [Ret [example_death]])) = (Ret tt, s') /\ own_queue own_client s' = Some q' /\
    contents q' = [] /\ si_pool_view (su_impl s') = None /\ si_release_context (su_impl s') = None.
Proof.
  destruct (dead_publishers_are_forgotten own_client waiting_queue [example_death] [] (lent_to (quiet_answers [] [Ret [example_death]])))
    as (s' & q' & Hrun & Hq & _ & Hc & Hgone & _).
  - by split.
  - reflexivity.
  - apply lent_to_queue.
  - apply waiting_queue_ok.
  - reflexivity.
  - discriminate.
  - reflexivity.
  - repeat constructor. discriminate.
  - destruct Hgone as (Hp & Hctx & _); [left; change (7 ∈ [7]); apply list_elem_of_here|]. exists s', q'. split_and!; [exact Hrun | exact Hq | | exact Hp | exact Hctx].
    rewrite Hc, waiting_contents. vm_compute. reflexivity.
Defined.

Lemma destruction_returns_queued_chunks_witness : exists s', destroy_subscriber (lent_to (quiet_answers [] [])) = (Ret tt, s') /\
  so_sent (shared_socket (su_shared s') 7) = encodeQueueRelease example_handle.
Proof.
  destruct (destruction_returns_queued_chunks own_client waiting_queue 7 (lent_to (quiet_answers [] []))) as (s' & Hrun & Hsent & _).
  - by split.
  - reflexivity.
  - apply lent_to_queue.
  - apply waiting_queue_ok.
  - reflexivity.
  - reflexivity.
  - exists s'. split; [exact Hrun|]. rewrite Hsent, waiting_contents. cbn [flat_map]. rewrite app_nil_r. change (so_sent (shared_socket _ 7)) with (@nil Z) at 1. apply app_nil_l.
Defined.

(** Two views, of chunks lent on two connections. *)
Definition example_lent_view (fd : Z) (handle : ChunkHandle) : SampleView release_context MappedPool :=
  sample_view (mkViewData fd example_mapping handle (Some 320) 3 1 99).

Lemma views_release_exactly_once_witness :
  let views := [example_lent_view 7 h1; example_lent_view 8 h2] in
  exists views' s' s'' released, run_views [ViewMove 0; ViewAssign 2 1] views (lent_to (quiet_answers [] [])) = (Ret views', s') /\
    destroy_views views' s' = (Ret tt, s'') /\ released ≡ₚ [(7, h1); (8, h2)].
Proof.
  intros views. destruct (views_release_exactly_once [ViewMove 0; ViewAssign 2 1] views (lent_to (quiet_answers [] [])))
    as (views' & s' & Hrun & _ & s'' & released & Hd & Hperm & _).
  - apply list.Forall_cons. split; [split; done|]. apply list.Forall_cons. split; [split; done | constructor].
  - intros fd. unfold shared_socket. cbn [su_shared lent_to sh_sockets]. rewrite lookup_empty. reflexivity.
  - exists views', s', s'', released. split_and!; [exact Hrun | exact Hd | exact Hperm].
Defined.
