(* ===== verification/EndToEnd.v ===== *)
(** * From a publisher to a subscriber and back

    The shared-memory path of one message across the components: the publisher queues the
    handle of a published chunk and wakes the subscriber; the subscriber puts the wake frame
    together, maps the pool, takes the handle, copies the payload and sends the chunk back; the
    publisher gives the reference back to the pool.  And the Unix-socket path: what a publisher with
    one connection puts on a socket that takes it, the frames of its messages one after the
    other, in the form the subscriber of [SubscriberStreams] reads. *)

From Stdlib Require Import ZArith Lia Bool String.
From stdpp Require Import base gmap list strings option pretty.
From S2P Require Import Prelude Types Outcome BigEndian FrameProtocol PoolProtocol QueueProtocol PoolLayout MemoryPool PoolSpec PoolCreation MemoryPoolView PoolTheorems SocketIo SubscriberQueue QueueTheorems PublisherState Publisher PublisherInvariant PublisherReleases PublisherMethods PublisherCalls PublisherUds LoanedSample PublisherLoans PublisherTheorems UnixListener SampleView SubscriberState Subscriber SubscriberInvariant SubscriberFrames SubscriberMethods SubscriberStreams SubscriberRuns SubscriberTheorems.

Local Open Scope Z_scope.

(** ** The pool of a publisher *)

(** Chunk [i] of the live pool [p] is published with [payload], and [handle] denotes it. *)
Record holds_message (p : MemoryPool) (handle : ChunkHandle) (payload : list Z) (sequence timestamp : Z) : Prop := {
  hm_live : live_pool p;
  hm_typed : PoolDescriptor_typed (mp_descriptor p) /\ ChunkHandle_typed handle /\ region_typed (mp_region p);
  hm_chunk : exists i c k, denotes (pool_id_of p) (abs p) handle i c /\
    sp_status c = SPublished (Z.of_nat (length payload)) sequence timestamp k /\ take (length payload) (sp_payload c) = payload;
}.

Section message.
Context (p : MemoryPool) (handle : ChunkHandle) (payload : list Z) (sequence timestamp : Z).
Context (Hm : holds_message p handle payload sequence timestamp).

Lemma message_view_wf : view_wf (view_of p) (region_size (mp_region p)).
Proof.
  destruct (live_pool_view p (hm_live _ _ _ _ _ Hm)) as (_ & _ & _ & _ & Hopen). destruct (hm_typed _ _ _ _ _ Hm) as (_ & _ & Hty).
  pose proof (open_view_safe None (mp_region p) (mp_descriptor p) (pd_topic_id (mp_descriptor p)) Hty) as Hs. rewrite Hopen in Hs. apply Hs.
Qed.

Lemma message_read max : Z.of_nat (length payload) <= max ->
  read_view (view_of p) (mp_region p) handle max =
    Ret (mkChunkViewResult Ok (Some (ch_payload_offset handle)) (Z.of_nat (length payload)) sequence timestamp) /\
  get_at (Z.to_nat (ch_payload_offset handle)) (length payload) (reg_bytes (mp_region p)) = payload /\
  ch_pool_id handle = pd_pool_id (mp_descriptor p).
Proof.
  intros Hmax. destruct (live_pool_view p (hm_live _ _ _ _ _ Hm)) as (Hwf & _). destruct (hm_chunk _ _ _ _ _ Hm) as (i & c & k & Hden & Hst & Htake).
  destruct (read_published p Hwf handle i c _ _ _ _ max Hden Hst Hmax) as [Hread Hget]. destruct Hden as [_ ->]. simpl in *.
  rewrite Nat2Z.id in Hget. split_and!; [done | by rewrite Hget | done].
Qed.

(** Its handle is not a null one. *)
Lemma handle_not_null : ch_pool_id handle <> 0 /\ ch_generation handle <> 0.
Proof.
  destruct (live_pool_view p (hm_live _ _ _ _ _ Hm)) as (Hwf & _ & Hpid & _). destruct (hm_chunk _ _ _ _ _ Hm) as (i & c & k & [Hi ->] & Hst & _). simpl.
  split; [done|]. destruct (lookup_abs_inv p Hwf _ _ Hi) as (e & h & Hat & ->).
  destruct (chunk_at_ok _ Hwf _ _ _ Hat) as (_ & _ & _ & _ & _ & _ & Hok). simpl in Hst.
  destruct (required_published h Hok) as (_ & _ & Hgen & _); [by rewrite Hst | done].
Qed.

(** The wake frame names this pool. *)
Lemma message_wake queue_id : fits 64 queue_id -> queue_id <> 0 ->
  exists frame, encodeQueueWake (mkQueueWake (mp_descriptor p) queue_id) = Some frame /\ length frame = kQueueWakeSize /\
    decodeQueueWake (Some frame) = Some (mkQueueWake (mp_descriptor p) queue_id) /\
    validateQueueWake (mkQueueWake (mp_descriptor p) queue_id) queue_id (pd_topic_id (mp_descriptor p)) = Ok.
Proof.
  intros Hfit Hid. destruct (live_pool_view p (hm_live _ _ _ _ _ Hm)) as (_ & Hargs & Hpid & Hver & _). destruct (hm_typed _ _ _ _ _ Hm) as (Hty & _).
  unfold validateArguments in Hargs. apply andb_prop in Hargs as [[Hname Hnz]%andb_prop Hle]. bools.
  destruct (decode_encode_queue_wake (mkQueueWake (mp_descriptor p) queue_id) Hty Hfit Hid Hname) as (frame & Henc & Hlen & _ & Hdec).
  exists frame. split_and!; [done | done | done |]. unfold validateQueueWake. simpl. rewrite Hname, Hver, !Z.eqb_refl.
  rewrite (proj2 (Z.eqb_neq _ _) Hpid), (proj2 (Z.eqb_neq _ _) Hid), (proj2 (Z.eqb_neq _ 0)), (proj2 (Z.ltb_ge _ _)) by (unfold size_max, off_t_max in *; lia).
  done.
Qed.
End message.

(** ** A subscriber that waits for its first message *)

(** It is connected, nobody interferes, and the pool is not mapped yet. *)
Record awaiting (client : QueueClient) (fd : Z) (p : MemoryPool) (object : Z) (s : SubState) : Prop := {
  aw_core : sub_core s;
  aw_shm : shm s;
  aw_quiet : undisturbed s;
  aw_header : si_header_bytes (su_impl s) = 0;
  aw_queue : si_queue (su_impl s) = Some client;
  aw_pool : si_pool_view (su_impl s) = None;
  aw_context : si_release_context (su_impl s) = Some fd;
  aw_accepts : so_replies (shared_socket (su_shared s) fd) = [];
  aw_flowing : conn_flowing s;
  aw_topic : si_topic_id (su_impl s) = pd_topic_id (mp_descriptor p);
  aw_discovered : other_pool_discovered (si_discovered_pool (su_impl s)) (mp_descriptor p) = false;
  aw_name : sh_pool_names (su_shared s) !! pd_shm_name (mp_descriptor p) = Some object;
  aw_region : sh_pools (su_shared s) !! object = Some (mp_region p);
  aw_events : kn_events (su_kernel s) = [];
}.

Lemma awaiting_polls client fd p object polls s : awaiting client fd p object s ->
  awaiting client fd p object (s <| su_impl := su_impl s <| si_last_error := Ok |> |> <| su_kernel := su_kernel s <| kn_polls := polls |> |>).
Proof. intros [[? [] ? ? ?] ? [] ? ? ? ? ? ? ? ? ? ? ?]. split; try done; by split. Qed.

(** The pool is mapped. *)
Record ready (client : QueueClient) (fd : Z) (p : MemoryPool) (object : Z) (q : SharedQueue) (stream sent : list Z) (max : Z)
    (s : SubState) : Prop := {
  rd_attached : attached client (mkMappedPool (view_of p) object) fd s;
  rd_queue : own_queue client s = Some q;
  rd_region : sh_pools (su_shared s) !! object = Some (mp_region p);
  rd_stream : conn_stream s = stream;
  rd_sent : so_sent (shared_socket (su_shared s) fd) = sent;
  rd_max : max_size s = max;
}.

Lemma ready_last_error client fd p object q stream sent max e s : ready client fd p object q stream sent max s ->
  ready client fd p object q stream sent max (s <| su_impl := su_impl s <| si_last_error := e |> |>).
Proof. intros [[] ? ? ? ? ?]. by split. Qed.

(** The first two steps of a method together. *)
Lemma wp_bind_bind {S A B C} (m : cpp S A) (f : A -> cpp S B) (k : B -> cpp S C) s (Q : C -> S -> Prop) :
  wp (m ≫= f) s (fun b s' => wp (k b) s' Q) -> wp (m ≫= fun a => f a ≫= k) s Q.
Proof. unfold wp, mbind, cpp_bind. destruct (m s) as [[a| |] s1]; [|done|done]. by destruct (f a s1) as [[b| |] s2]. Qed.

(** A whole header on the stream is received. *)
Lemma fill_header_whole size frame rest s : (size <= kQueueWakeSize)%nat -> sub_core s -> si_header_bytes (su_impl s) = 0 ->
  conn_flowing s -> length frame = size -> conn_stream s = frame ++ rest ->
  wp (fuel ← connection_fuel; fill_header size fuel) s (fun stopped s' => stopped = None /\ received s s' frame /\ conn_stream s' = rest /\
    exists buffer, su_impl s' = su_impl s <| si_header_buffer := buffer |> <| si_header_bytes := Z.of_nat size |> /\ take size buffer = frame).
Proof.
  intros Hsize Hc H0 Hflow Hlen Hst. apply wp_bind, wp_connection_fuel.
  eapply wp_mono; [|apply fill_header_ok; [done | done | lia | lia]].
  intros stopped s' (got & buffer & Hrv & Himpl & Hgot & Hstop & Hres). pose proof (rv_stream _ _ _ Hrv) as Hs. rewrite Hst in Hs.
  rewrite Himpl in Hgot, Hres. cbn in Hgot, Hres. rewrite H0 in Hgot, Hres. unfold header_received in Hgot. cbn in Hgot. rewrite H0 in Hgot.
  rewrite Z.add_0_l in Hres, Hgot. rewrite Nat2Z.id in Hgot. rewrite take_0 in Hgot. cbn [app] in Hgot. destruct stopped as [stop|].
  - destruct (Hstop Hflow _ eq_refl) as [_ Hnil]. rewrite Hnil, app_nil_r in Hs. apply (f_equal length) in Hs. rewrite length_app in Hs. lia.
  - destruct Hres as [Hn _]. assert (Hl : length got = length frame) by lia. apply app_inj_1 in Hs as [<- ->]; [|done]. split_and!; [done | done | done |].
    exists buffer. rewrite Himpl, H0, Z.add_0_l, Hlen. split; [done|]. by rewrite <- Hlen.
Qed.

Lemma sample_view_handle v : view_handle (sample_view v) = vd_handle v.
Proof. by destruct v as [? ? [] ? ? ? ?]. Qed.

Section first.
Context (client : QueueClient) (fd : Z) (p : MemoryPool) (object : Z) (handle : ChunkHandle) (payload : list Z) (sequence timestamp : Z).
Context (Hm : holds_message p handle payload sequence timestamp).
Context (frame : list Z) (queue_id : Z) (Hid : fits 64 queue_id /\ queue_id <> 0) (Hclient : qd_queue_id (qc_descriptor client) = queue_id).
Context (Hframe : encodeQueueWake (mkQueueWake (mp_descriptor p) queue_id) = Some frame).

(** The wake maps the pool. *)
Lemma receiveWake_run q rest s : awaiting client fd p object s -> own_queue client s = Some q -> conn_stream s = frame ++ rest ->
  wp receiveWakeAvailable s (fun e s' => e = Ok /\
    ready client fd p object q rest (so_sent (shared_socket (su_shared s) fd)) (max_size s) s').
Proof.
  intros [] Hq Hst. destruct (message_wake _ _ _ _ _ Hm queue_id (proj1 Hid) (proj2 Hid)) as (frame' & Henc & Hlen & Hdec & Hval).
  rewrite Hframe in Henc. injection Henc as <-.
  unfold receiveWakeAvailable.
  pose proof (fill_header_whole kQueueWakeSize frame rest s (le_n _) aw_core0 aw_header0 aw_flowing0 Hlen Hst) as Hfill.
  apply wp_bind_bind. eapply wp_mono; [|exact Hfill]. intros stopped s1 (-> & Hrv & Hst1 & buffer & Himpl & Htake). clear Hfill.
  assert (Hlb : length buffer = kQueueWakeSize).
  { pose proof (sc_buffer _ (mo_core _ _ (rv_moved _ _ _ Hrv))) as [Hl _]. by rewrite Himpl in Hl. }
  rewrite take_ge in Htake by lia. subst buffer. destruct (rv_rest _ _ _ Hrv) as (Hqs & Hns & Hps & Hk).
  apply wp_bind. unfold self, gets, wp at 1. rewrite Himpl. cbn [si_header_buffer update_with]. simpl si_header_buffer. rewrite Hdec. simpl si_queue. rewrite aw_queue0.
  apply wp_bind. unfold resetFrame, set_self, modify, wp at 1. rewrite Hclient. simpl si_topic_id. rewrite aw_topic0, Hval. cbn [is_ok negb]. simpl si_discovered_pool. cbn [qw_pool].
  rewrite aw_discovered0. set (s2 := s1 <| su_impl := _ |>). unfold install_pool. apply wp_bind. unfold self, gets, wp at 1.
  assert (Hquiet2 : undisturbed s2) by (unfold undisturbed, s2; simpl; by rewrite Hk).
  assert (Hp2 : si_pool_view (su_impl s2) = None) by (unfold s2; simpl; by rewrite Himpl). rewrite Hp2. unfold wp.
  destruct (live_pool_view p (hm_live _ _ _ _ _ Hm)) as (_ & _ & _ & _ & Hopen).
  rewrite (open_pool_view_run s2 Hquiet2 _ _ object (mp_region p)); [|simpl; by rewrite Hns | simpl; by rewrite Hps].
  assert (Ht2 : si_topic_id (su_impl s2) = pd_topic_id (mp_descriptor p)) by (unfold s2; simpl; by rewrite Himpl). rewrite Ht2, Hopen.
  unfold set_self, modify, mbind, cpp_bind, outcome_bind. split; [done|].
  assert (Hctx1 : si_release_context (su_impl s1) = Some fd) by (rewrite (rv_context _ _ _ Hrv); done).
  pose proof (rv_sent _ _ _ Hrv fd) as Hsend. injection Hsend as Hsent Hrep.
  assert (Hst2 : forall m, si_release_context m = Some fd -> conn_stream (s2 <| su_impl := m |>) = rest).
  { intros m Hctx. rewrite <- Hst1. unfold conn_stream, conn_socket. simpl. by rewrite Hctx, Hctx1. }
  split; [split; [done | simpl; by rewrite Himpl | done | done | simpl; by rewrite Hrep] | | simpl; by rewrite Hps | by apply Hst2 | done |].
  - unfold own_queue. simpl. by rewrite Hqs.
  - unfold max_size. simpl. by rewrite Himpl.
Qed.

(** Without a mapped pool nothing is taken. *)
Lemma tryTakeQueued_unmapped s : si_pool_view (su_impl s) = None -> tryTakeQueued s = (Ret None, s).
Proof. intros Hp. unfold tryTakeQueued, self, gets. unfold_cpp. rewrite Hp. by destruct (si_queue (su_impl s)). Qed.

(** One ready [poll]. *)
Lemma poll_ready_run more s : undisturbed s -> si_release_context (su_impl s) = Some fd -> kn_polls (su_kernel s) = poll_data :: more ->
  poll_sockets s = (Ret PollReady, s <| su_kernel := su_kernel s <| kn_polls := more |> |>).
Proof.
  intros Hquiet Hctx Hp. unfold poll_sockets, poll_connection, self, gets. unfold_cpp. rewrite Hctx. rewrite (interfere_run s Hquiet).
  unfold next_poll, next_answer, set_kernel, modify. unfold_cpp. by rewrite Hp.
Qed.

(** With the pool mapped the oldest handle is taken. *)
Lemma take_loop_ready fuel q more stream sent max s : ready client fd p object q stream sent max s -> queue_ok q ->
  contents q = handle :: more -> Z.of_nat (length payload) <= max ->
  wp (take_view_loop (S fuel)) s (fun v s' =>
    v = Some (sample_view (mkViewData fd (mkMappedPool (view_of p) object) handle (Some (ch_payload_offset handle))
                             (Z.of_nat (length payload)) sequence timestamp)) /\
    exists q', queue_wf q' /\ contents q' = more /\ ready client fd p object q' stream sent max s').
Proof.
  intros Hrd Hqok Hc Hmax. destruct (message_read _ _ _ _ _ Hm max Hmax) as (Hread & _ & Hpid). cbn [take_view_loop]. apply wp_bind.
  eapply wp_mono; [|apply (tryTakeQueued_run client (mkMappedPool (view_of p) object) fd q (mp_region p) s); [apply Hrd | apply Hrd | done | apply Hrd | by eapply message_view_wf]].
  intros result s' (Htaken & Hat & _ & Hpools & Hstate). unfold taken in Htaken. rewrite Hc in Htaken. cbn [mv_view view_of pv_descriptor] in Htaken.
  rewrite Hpid, Z.eqb_refl in Htaken. cbn [negb] in Htaken. destruct Htaken as [(q' & Hq' & Hwf' & Hc') Htaken].
  rewrite (rd_max _ _ _ _ _ _ _ _ _ Hrd) in Htaken. fold (view_of p) in Htaken. rewrite Hread in Htaken. cbn in Htaken. destruct Htaken as [-> Hsent].
  apply wp_ret. split; [done|]. exists q'. split_and!; [done | done |]. destruct Hrd. destruct (Hstate ltac:(by eexists)) as [q2 ->].
  split; [done | done | done | by unfold conn_stream, conn_socket in * | by rewrite Hsent | done].
Qed.

(** The whole wait for a view. *)
Lemma first_view_run q more rest polls s : awaiting client fd p object s -> own_queue client s = Some q -> queue_ok q ->
  kn_polls (su_kernel s) = poll_data :: polls ->
  contents q = handle :: more -> conn_stream s = frame ++ rest -> Z.of_nat (length payload) <= max_size s ->
  wp (waitAndTakeView true) s (fun v s' =>
    v = Some (sample_view (mkViewData fd (mkMappedPool (view_of p) object) handle (Some (ch_payload_offset handle))
                             (Z.of_nat (length payload)) sequence timestamp)) /\
    exists q', queue_wf q' /\ contents q' = more /\
      ready client fd p object q' rest (so_sent (shared_socket (su_shared s) fd)) (max_size s) s').
Proof.
  intros Haw Hq Hqok Hpolls Hc Hst Hmax. pose proof Haw as []. unfold waitAndTakeView. cbn [negb]. apply wp_bind. unfold self, gets, wp at 1.
  rewrite bool_decide_true by done. cbn [negb]. apply wp_bind. apply (wp_mono _ _ (fun _ s1 => s1 = s)).
  2: { unfold processPeerEvents. apply wp_bind. unfold self, gets, wp at 1. destruct (_ || _); [by apply wp_ret|]. apply wp_bind.
       unfold next_events, next_answer. apply wp_bind. unfold this, wp at 1. rewrite aw_events0. apply wp_ret. by apply wp_ret. }
  intros u s1 ->. apply wp_bind. unfold set_last_error, set_self, modify, wp at 1. apply wp_bind.
  unfold drainWakeNotificationsNonBlocking. apply wp_bind. unfold self, gets, wp at 1. simpl si_release_context. simpl si_pool_view. rewrite aw_context0, aw_pool0.
  apply wp_ret. cbn [is_ok negb]. apply wp_bind, wp_poll_fuel.
  set (s1 := s <| su_impl := _ |>). change (kn_polls (su_kernel s1)) with (kn_polls (su_kernel s)). rewrite Hpolls. cbn [length]. remember (S (length polls)) as fuel eqn:Hfuel. cbn [take_view_loop].
  apply wp_bind. unfold wp at 1. rewrite (tryTakeQueued_unmapped s1 aw_pool0). apply wp_bind. unfold self, gets, wp at 1. simpl si_last_error. cbn [is_ok negb andb].
  apply wp_bind. unfold wp at 1. rewrite (poll_ready_run polls s1 aw_quiet0 aw_context0 Hpolls). set (s2 := s1 <| su_kernel := _ |>).
  assert (Haw2 : awaiting client fd p object s2) by exact (awaiting_polls client fd p object polls s Haw).
  apply wp_bind. eapply wp_mono; [|apply (receiveWake_run q rest s2 Haw2); [done | exact Hst]].
  intros e s3 [-> Hrd]. rewrite bool_decide_false by done. cbn [is_ok negb]. apply wp_bind. unfold set_last_error, set_self, modify, wp at 1.
  subst fuel. eapply take_loop_ready; [by apply ready_last_error | done | done | done].
Qed.

(** The whole call: the payload is copied and the chunk is sent back. *)
Lemma first_message_run q more rest polls s : awaiting client fd p object s -> own_queue client s = Some q -> queue_ok q ->
  kn_polls (su_kernel s) = poll_data :: polls ->
  contents q = handle :: more -> conn_stream s = frame ++ rest -> Z.of_nat (length payload) <= max_size s ->
  wp (waitAndTake true) s (fun message s' =>
    message = Some (mkReceivedMessage payload sequence timestamp (ch_pool_id handle) (ch_chunk_index handle) (ch_generation handle)
                      (ch_payload_offset handle)) /\
    exists q', queue_wf q' /\ contents q' = more /\
      ready client fd p object q' rest (so_sent (shared_socket (su_shared s) fd) ++ encodeQueueRelease handle) (max_size s) s').
Proof.
  intros Haw Hq Hqok Hpolls Hc Hst Hmax. unfold waitAndTake. cbn [negb]. apply wp_bind. unfold self, gets, wp at 1.
  rewrite bool_decide_true by apply Haw. apply wp_bind. eapply wp_mono; [|by eapply first_view_run].
  intros v s1 [-> (q' & Hwf' & Hc' & Hrd)]. set (sent := so_sent _) in *. set (max := max_size s) in *. clearbody sent max.
  destruct (message_read _ _ _ _ _ Hm max Hmax) as (Hread & Hget & _). apply wp_bind. apply (wp_mono _ _ (fun copied s2 => copied = payload /\ s2 = s1)).
  - intros copied s2 [-> ->]. apply wp_bind. unfold view_release. cbn [sample_view make_view sv_release_context sv_active vd_release_context]. apply wp_bind. unfold wp at 1.
    match goal with |- context [view_handle ?v] => replace (view_handle v) with handle by (symmetry; apply (sample_view_handle (mkViewData _ _ handle _ _ _ _))) end.
    destruct Hrd as [[at_quiet0 at_queue0 at_pool0 at_context0 at_accepts0] Hq' Hreg Hstr Hsent Hmx]. rewrite (socket_release_run fd handle s1 at_accepts0). cbv zeta. apply wp_ret, wp_ret. split; [done|].
    exists q'. split_and!; [done | done |].
    set (s2 := s1 <| su_shared := _ |>). assert (Hso : shared_socket (su_shared s2) fd =
      shared_socket (su_shared s1) fd <| so_sent := so_sent (shared_socket (su_shared s1) fd) ++ encodeQueueRelease handle |>)
      by (unfold shared_socket; simpl; by rewrite lookup_insert_eq).
    split; [split; [done | done | done | done | by rewrite Hso] | done | done | | by rewrite Hso, <- Hsent | done].
    rewrite <- Hstr. unfold conn_stream, conn_socket. change (su_impl s2) with (su_impl s1). by rewrite at_context0, Hso.
  - unfold copy_payload. cbn [sample_view make_view sv_size sv_pool_view vd_payload_size vd_pool_view].
    destruct (Z.of_nat (length payload) =? 0) eqn:Hz; bools; [apply wp_ret; by destruct payload|].
    apply wp_bind, wp_ret, wp_bind, wp_ret. unfold wp. destruct (rd_attached _ _ _ _ _ _ _ _ _ Hrd) as [Hquiet _ _ _ _].
    rewrite (on_mapping_run s1 Hquiet (mkMappedPool (view_of p) object) _ (mp_region p) (rd_region _ _ _ _ _ _ _ _ _ Hrd)).
    destruct (read_view_inside (view_of p) (mp_region p) handle max) as (view & Hread' & Hin); [by eapply message_view_wf | apply (hm_typed _ _ _ _ _ Hm)|].
    rewrite Hread in Hread'. injection Hread' as <-. destruct (Hin eq_refl) as (off & [= <-] & Hoff & _ & Hend). simpl in Hend.
    rewrite (load_bytes_run (mp_region p) (ch_payload_offset handle) _ payload); [done | lia | simpl; lia|]. simpl. by rewrite Nat2Z.id.
Qed.
End first.

(** ** The publisher's side *)

(** A publisher whose subscriber has an empty open queue and a socket that accepts data. *)
Record may_wake (env : call_env) (c : DataConnection) (client : QueueClient) (ps : PubState) : Prop := {
  mw_queue : exists q, wd_queues (ps_world ps) !! qd_shm_name (qc_descriptor client) = Some q /\ queue_wf q /\ contents q = [] /\ closed q = false;
  mw_lock : ce_lock env (dc_endpoint_id c) = LockAcquired;
  mw_wait : env_ok (ce_wait env (dc_endpoint_id c));
  mw_socket : so_replies (socket_of (ps_world ps) (dc_socket c)) = [];
}.

Lemma enqueue_and_wake_run env c client handle frame ps : may_wake env c client ps ->
  exists result q ps', enqueue_and_wake env c client handle frame ps = (Ret result, ps') /\ er_status result = QueueAccepted /\
    wd_queues (ps_world ps') !! qd_shm_name (qc_descriptor client) = Some q /\ queue_wf q /\ contents q = [handle] /\
    so_sent (socket_of (ps_world ps') (dc_socket c)) = so_sent (socket_of (ps_world ps) (dc_socket c)) ++ frame /\
    ps_impl ps' = ps_impl ps.
Proof.
  intros [(q & Hq & Hwf & Hnil & Hopen) Hlock Hwait Hso].
  destruct (write_accepted frame (socket_of (ps_world ps) (dc_socket c)) Hso) as (r & Hst & Hwrite).
  unfold enqueue_and_wake. unfold mbind at 1, cpp_bind at 1. unfold this. unfold mbind at 1, cpp_bind at 1. unfold sendWake. rewrite Hwrite.
  cbn [or_undef mbind option_bind]. unfold mret at 1, cpp_ret at 1. rewrite bool_decide_true by done. cbn iota. rewrite Hlock.
  destruct (enqueue_refines (ce_wait env (dc_endpoint_id c)) LockAcquired handle (Some true) q Hwf Hwait eq_refl) as (result & q' & Hrun & Hwf' & Hspec).
  unfold mbind at 1, cpp_bind at 1, on_queue. cbv zeta. rewrite Hq, Hrun. cbn [lock_state] in Hspec.
  pose proof (rs_capacity _ (qw_safe _ Hwf)) as Hcap.
  assert (Hlen : length (contents q) <> capacity q) by (rewrite Hnil; unfold capacity; simpl; lia).
  inversion Hspec; subst; try congruence.
  assert (Hs : sent = true) by naive_solver. subst sent. cbn [er_notification_sent orb].
  eexists _, q', _. split; [unfold set_socket, set_world, modify; unfold_cpp; reflexivity|]. split_and!; try done.
  - simpl. apply lookup_insert_eq.
  - rewrite H1, Hnil. done.
  - unfold socket_of. simpl. rewrite lookup_insert_eq. done.
Qed.

(** ** Theorem *)

(** What arrives at the other end of a connection after the bytes [before]: [now], unless more is
    sent. *)
Definition newly_sent (before now : list Z) : list Z := drop (length before) now.

(** The chunk that the publisher made out of a message, and the queue id of the subscriber. *)
Record offered (ps : PubState) (client : QueueClient) (p : MemoryPool) (handle : ChunkHandle) (payload : list Z) (sequence timestamp : Z)
    (frame : list Z) : Prop := {
  of_message : holds_message p handle payload sequence timestamp;
  of_pool : im_pool (ps_impl ps) = Some p;
  of_id : fits 64 (qd_queue_id (qc_descriptor client)) /\ qd_queue_id (qc_descriptor client) <> 0;
  of_frame : encodeQueueWake (mkQueueWake (mp_descriptor p) (qd_queue_id (qc_descriptor client))) = Some frame;
}.

(** A subscriber that shares the queue object with the publisher, sees its pool, and has the
    publisher's bytes on its stream, in any fragmentation. *)
Record opposite (ps ps' : PubState) (c : DataConnection) (client own : QueueClient) (fd : Z) (p : MemoryPool) (object : Z) (s : SubState) : Prop := {
  op_awaiting : awaiting own fd p object s;
  op_queue : qc_descriptor own = qc_descriptor client;
  op_shared : own_queue own s = wd_queues (ps_world ps') !! qd_shm_name (qc_descriptor client);
  op_stream : conn_stream s = newly_sent (so_sent (socket_of (ps_world ps) (dc_socket c))) (so_sent (socket_of (ps_world ps') (dc_socket c)));
  op_poll : exists polls, kn_polls (su_kernel s) = poll_data :: polls;
}.

(** C6: a message goes round.  The publisher queues the handle of a published chunk and sends the
    wake; a subscriber that sees the queue, the pool and the bytes sent, in any fragmentation,
    takes exactly the published payload with its sequence and timestamp; and the publisher, once
    the bytes the subscriber has sent arrive, in any fragmentation, takes exactly that chunk off
    the references of the connection, keeping its accounts. *)
Theorem message_goes_round env c client own fd p object handle payload sequence timestamp frame ps :
  offered ps client p handle payload sequence timestamp frame -> may_wake env c client ps ->
  exists result ps', enqueue_and_wake env c client handle frame ps = (Ret result, ps') /\ er_status result = QueueAccepted /\
  forall s, opposite ps ps' c client own fd p object s -> Z.of_nat (length payload) <= max_size s ->
  exists s', waitAndTake true s = (Ret (Some (mkReceivedMessage payload sequence timestamp (ch_pool_id handle) (ch_chunk_index handle)
                                     (ch_generation handle) (ch_payload_offset handle))), s') /\
  forall O L c1 ps1, core (dc_outstanding c1 ++ O) L ps1 -> receiving c1 -> dc_release_bytes c1 = 0 -> handle ∈ dc_outstanding c1 ->
    flowing (ps_world ps1) (dc_socket c1) ->
    stream_of (ps_world ps1) (dc_socket c1) =
      newly_sent (so_sent (shared_socket (su_shared s) fd)) (so_sent (shared_socket (su_shared s') fd)) ->
  exists c2 ps2, receiveOneRelease c1 ps1 = (Ret (c2, ReleaseProgress), ps2) /\ core (dc_outstanding c2 ++ O) L ps2 /\
    dc_outstanding c1 ≡ₚ handle :: dc_outstanding c2.
Proof.
  intros [Hm _ [Hfit Hid] Hframe] Hwake. destruct (enqueue_and_wake_run env c client handle frame ps Hwake)
    as (result & q & ps' & Hrun & Hok & Hq & Hwf & Hc & Hsent & _).
  destruct (hm_typed _ _ _ _ _ Hm) as (_ & Hty & _).
  exists result, ps'. split_and!; [done | done |]. intros s [Haw Hown Hshared Hstream [polls Hpoll]] Hmax.
  rewrite Hq in Hshared. unfold newly_sent in Hstream. rewrite Hsent, drop_app_length in Hstream.
  assert (Hqok : queue_ok q) by (split; [done|]; rewrite Hc; by apply Forall_singleton).
  rewrite <- Hown in Hframe, Hid, Hfit.
  pose proof (first_message_run own fd p object handle payload sequence timestamp Hm frame _ (conj Hfit Hid) eq_refl Hframe q [] [] polls s Haw Hshared Hqok Hpoll Hc)
    as Hwp.
  rewrite app_nil_r in Hwp. specialize (Hwp Hstream Hmax). apply wp_run in Hwp as (message & s' & Htake & -> & q' & _ & _ & Hrd).
  exists s'. split; [done|]. intros O L c1 ps1 Hcore Hrec H0 Hin Hflow Hback.
  rewrite (rd_sent _ _ _ _ _ _ _ _ _ Hrd) in Hback. unfold newly_sent in Hback. rewrite drop_app_length in Hback.
  destruct (handle_not_null p handle payload sequence timestamp Hm) as [Hpid Hgen].
  assert (Hsplit : received_so_far c1 ++ stream_of (ps_world ps1) (dc_socket c1) = encodeQueueRelease handle ++ []).
  { unfold received_so_far. by rewrite H0, Hback, app_nil_r. }
  pose proof (release_received O L c1 handle [] ps1 Hcore Hrec Hty Hpid Hgen Hflow Hsplit) as Hwp.
  apply wp_run in Hwp as ([c2 status] & ps2 & Hrel & -> & Htr & Hout & _). exists c2, ps2. split_and!; [done | apply (tr_core _ _ _ _ _ Htr) |].
  pose proof (find_and_erase_spec handle (dc_outstanding c1)) as Hspec. rewrite Hout. by destruct (find_and_erase handle (dc_outstanding c1)).
Qed.

(** ** A concrete message *)

(** The publisher of [PublisherTheorems] after it published two bytes, before its handle is
    queued. *)
Definition sending_publisher : PubState := example_after <| ps_world := example_world |>.
Definition sent_pool : MemoryPool := default empty_pool (im_pool (ps_impl example_after)).
Definition remote_client : QueueClient := mkQueueClient example_queue_descriptor false true.
Definition sent_frame_bytes : list Z := default [] (encodeQueueWake (mkQueueWake (mp_descriptor sent_pool) 5)).
Definition sent_chunk : spec_chunk := mkSpecChunk 64 320 1 (SPublished 2 1 99 1) ([4; 5] ++ replicate 62 0).
Definition sent_ops : list pool_op :=
  [OpAllocate 2; OpWriteAndPublish example_handle (Some [4; 5]) 2 1 99 1; OpAddReference example_handle; OpRelease example_handle].

Lemma sent_live : live_pool sent_pool.
Proof.
  exists 42, example_config, example_pool, sent_ops, (match (exec_ops sent_ops example_pool).1 with Ret rs => rs | _ => [] end).
  split_and!; [exact example_config_typed | vm_compute; by split | vm_compute; by split | vm_compute; reflexivity | | vm_compute; reflexivity].
  repeat constructor; vm_compute; intuition discriminate.
Qed.

Lemma example_message_held : holds_message sent_pool example_handle [4; 5] 1 99.
Proof.
  split.
  - exact sent_live.
  - split_and!; [vm_compute; intuition discriminate | vm_compute; intuition discriminate | apply all_bytes_spec; vm_compute; reflexivity].
  - exists 0%nat, sent_chunk, 1. split_and!; [split; vm_compute; reflexivity | reflexivity | reflexivity].
Qed.

Lemma sent_offered : offered sending_publisher remote_client sent_pool example_handle [4; 5] 1 99 sent_frame_bytes.
Proof.
  split; [exact example_message_held | vm_compute; reflexivity | vm_compute; intuition discriminate | vm_compute; reflexivity].
Qed.

Lemma sending_may_wake : may_wake example_env example_connection remote_client sending_publisher.
Proof.
  split.
  - exists example_queue. split_and!; [reflexivity | exact example_queue_wf | vm_compute; reflexivity | vm_compute; reflexivity].
  - reflexivity.
  - split; [intros deadline; constructor | done].
  - reflexivity.
Qed.

(** Its subscriber: the wake frame is on the stream in two fragments. *)
Definition arriving : socket := mkSocket [InData (take 50 sent_frame_bytes); InError EINTR; InData (drop 50 sent_frame_bytes)] [] [].
Definition first_subscriber : SubState :=
  mkSubState (new_impl "pose" shm_config (mkUnixListener 3 "/tmp/mw" true) true 3 11 empty_PoolDescriptor (Some own_client)
      <| si_release_context := Some 7 |>)
    (mkShared {[ 7 := arriving ]} {[ "/mw-q-5"%string := waiting_queue ]} {[ "/mw-q-5"%string ]} {[ "/mw-pool-7"%string := 1 ]}
       {[ 1 := mp_region sent_pool ]}) (quiet_answers [poll_data] []) (mkSocketFiles {[ "/tmp/mw"%string ]} {[ 3 ]}) [].

Lemma arriving_typed : Forall incoming_typed (so_incoming arriving).
Proof.
  unfold arriving. cbn [so_incoming]. apply list.Forall_cons. split; [|apply list.Forall_cons; split; [exact I|apply list.Forall_cons; split; [|apply list.Forall_nil; exact I]]].
  - change (Forall is_byte (take 50 sent_frame_bytes)). apply all_bytes_spec. vm_compute. reflexivity.
  - change (Forall is_byte (drop 50 sent_frame_bytes)). apply all_bytes_spec. vm_compute. reflexivity.
Qed.

Lemma first_subscriber_core : sub_core first_subscriber.
Proof.
  split.
  - split.
    + intros fd. unfold shared_socket. cbn [su_shared first_subscriber sh_sockets]. destruct (decide (fd = 7)) as [->|Hne];
        [rewrite lookup_singleton_eq; exact arriving_typed | rewrite lookup_singleton_ne by done; constructor].
    + intros o r Hr. cbn [su_shared first_subscriber sh_pools] in Hr. apply lookup_singleton_Some in Hr as [<- <-].
      apply (hm_typed _ _ _ _ _ example_message_held).
  - by apply quiet_answers_ok.
  - intros client [= <-]. exists waiting_queue. split; [reflexivity | exact waiting_ring_ok].
  - discriminate.
  - split; [reflexivity|]. apply all_bytes_spec. reflexivity.
Qed.

Lemma first_awaiting : awaiting own_client 7 sent_pool 1 first_subscriber.
Proof.
  split; try reflexivity; try exact first_subscriber_core; try (by split).
  - split; [by eexists|]. cbn [conn_socket]. unfold conn_socket. cbn [su_impl first_subscriber].
    change (Forall fragment_ok (so_incoming arriving)). unfold arriving. cbn [so_incoming].
    apply list.Forall_cons. split; [vm_compute; discriminate|]. apply list.Forall_cons. split; [reflexivity|].
    apply list.Forall_cons. split; [vm_compute; discriminate | apply list.Forall_nil; exact I].
Qed.

Definition woken_publisher : PubState := (enqueue_and_wake example_env example_connection remote_client example_handle sent_frame_bytes sending_publisher).2.
Definition served_subscriber : SubState := (waitAndTake true first_subscriber).2.

Lemma first_opposite : opposite sending_publisher woken_publisher example_connection remote_client own_client 7 sent_pool 1 first_subscriber.
Proof.
  split; [exact first_awaiting | reflexivity | vm_compute; reflexivity | vm_compute; reflexivity | by eexists].
Qed.

Lemma served_sent : stream_of (ps_world example_releasing) (dc_socket example_holding) =
  newly_sent (so_sent (shared_socket (su_shared first_subscriber) 7)) (so_sent (shared_socket (su_shared served_subscriber) 7)).
Proof. vm_compute. reflexivity. Qed.

Lemma releasing_flows : flowing (ps_world example_releasing) (dc_socket example_holding).
Proof. unfold flowing. vm_compute. repeat constructor; discriminate. Qed.

Lemma holding_receives : receiving example_holding.
Proof. split; [unfold kQueueReleaseSize; simpl; lia | reflexivity]. Qed.

Lemma message_goes_round_witness : exists result ps' s' c2 ps2,
  enqueue_and_wake example_env example_connection remote_client example_handle sent_frame_bytes sending_publisher = (Ret result, ps') /\
  waitAndTake true first_subscriber = (Ret (Some (mkReceivedMessage [4; 5] 1 99 7 0 1 320)), s') /\
  receiveOneRelease example_holding example_releasing = (Ret (c2, ReleaseProgress), ps2) /\ [example_handle] ≡ₚ example_handle :: dc_outstanding c2.
Proof.
  destruct (message_goes_round example_env example_connection remote_client own_client 7 sent_pool 1 example_handle [4; 5] 1 99
    sent_frame_bytes sending_publisher sent_offered sending_may_wake) as (result & ps' & Hrun & _ & Htake).
  assert (Hps : ps' = woken_publisher) by exact (f_equal snd (eq_sym Hrun)). rewrite Hps in Htake.
  destruct (Htake first_subscriber first_opposite) as (s' & Hs & Hback); [discriminate|].
  assert (Hs' : s' = served_subscriber) by exact (f_equal snd (eq_sym Hs)). rewrite Hs' in Hback.
  destruct (Hback [] [] example_holding example_releasing example_releasing_core holding_receives eq_refl (list_elem_of_here _ _) releasing_flows served_sent)
    as (c2 & ps2 & Hrel & _ & Hperm).
  exists result, ps', s', c2, ps2. split_and!; [exact Hrun | exact Hs | exact Hrel | exact Hperm].
Defined.

(** ** A publisher with one connection *)

(** Connected over a Unix socket that takes what is sent. *)
Record uds_link (c : DataConnection) (s : PubState) : Prop := {
  lk_connections : im_connections (ps_impl s) = [c];
  lk_pool : im_pool (ps_impl s) = None;
  lk_transport : pc_transport (im_config (ps_impl s)) = UnixDomainSocket;
  lk_registered : im_registry_session (ps_impl s) = true -> im_endpoint_id (ps_impl s) <> 0 /\ im_topic_id (ps_impl s) <> 0;
  lk_accepts : so_replies (socket_of (ps_world s) (dc_socket c)) = [];
}.

Definition send_on (fd : Z) (data : list Z) (s : PubState) : PubState :=
  s <| ps_world := ps_world s <| wd_sockets :=
    <[fd := socket_of (ps_world s) fd <| so_sent := so_sent (socket_of (ps_world s) fd) ++ data |>]> (wd_sockets (ps_world s)) |> |>.

Lemma send_on_socket fd data s : socket_of (ps_world (send_on fd data s)) fd =
  socket_of (ps_world s) fd <| so_sent := so_sent (socket_of (ps_world s) fd) ++ data |>.
Proof. unfold socket_of at 1. simpl. by rewrite lookup_insert_eq. Qed.

Lemma write_socket_run fd data s : so_replies (socket_of (ps_world s) fd) = [] ->
  wp (write_socket fd data) s (fun r s' => io_status r = IoComplete /\ s' = send_on fd data s).
Proof.
  intros Hr. unfold write_socket. apply wp_bind. unfold this, wp at 1. destruct (write_accepted data _ Hr) as (r & Hst & ->).
  apply wp_bind. unfold set_socket, set_world, modify, wp at 1. by apply wp_ret.
Qed.

Lemma send_frame_run env header payload progress c s : so_replies (socket_of (ps_world s) (dc_socket c)) = [] ->
  wp (send_frame env header payload progress c) s (fun '(progress', kept) s' => kept = Some c /\
    up_enqueued progress' = wrap 32 (up_enqueued progress + 1) /\ s' = send_on (dc_socket c) payload (send_on (dc_socket c) header s)).
Proof.
  intros Hr. unfold send_frame. apply wp_bind. eapply wp_mono; [|by apply write_socket_run]. intros r s1 [Hst ->].
  rewrite bool_decide_true by done. apply wp_bind. eapply wp_mono; [|apply write_socket_run; by rewrite send_on_socket].
  intros r' s2 [Hst' ->]. rewrite bool_decide_true by done. cbn [negb]. by apply wp_ret.
Qed.

Lemma read_payload_run bytes s : read_payload (Some bytes) (Z.of_nat (length bytes)) s = (Ret bytes, s).
Proof.
  unfold read_payload. destruct (_ =? 0) eqn:Hz; bools; [by destruct bytes|]. simpl. unfold read_at.
  rewrite decide_True by lia. simpl. by rewrite Nat2Z.id, firstn_all.
Qed.

Lemma drain_run env s : im_pool (ps_impl s) = None -> drainReleasesNonBlocking env s = (Ret tt, s).
Proof. intros Hp. unfold drainReleasesNonBlocking, impl, gets. unfold_cpp. by rewrite Hp. Qed.

Lemma no_peer_events env s : im_pool (ps_impl s) = None -> ce_events env = Ret [] -> Publisher.processPeerEvents env s = (Ret tt, s).
Proof.
  intros Hp Hev. unfold Publisher.processPeerEvents, impl, gets. unfold_cpp. destruct (_ || _); [done|]. rewrite (drain_run env s Hp). by rewrite Hev.
Qed.

(** Nothing is discovered while there is a connection. *)
Lemma prepare_run env c s : uds_link c s -> ce_events env = Ret [] ->
  (drainReleasesNonBlocking env;; connectDiscoveredEndpoints env) s = (Ret Ok, s).
Proof.
  intros [Hc Hp Ht Hreg _] Hev. unfold connectDiscoveredEndpoints, impl, gets. unfold_cpp. rewrite (drain_run env s Hp).
  destruct (im_registry_session (ps_impl s)) eqn:Hs; cbn [negb]; [|by rewrite Hc].
  rewrite (no_peer_events env s Hp Hev). destruct (Hreg eq_refl) as [He Hto].
  by rewrite (proj2 (Z.eqb_neq _ _) He), (proj2 (Z.eqb_neq _ _) Hto), Ht, Hc.
Qed.

Record sends (c : DataConnection) (m : sent_message) (s s' : PubState) : Prop := {
  sn_link : uds_link c s';
  sn_sent : so_sent (socket_of (ps_world s') (dc_socket c)) = so_sent (socket_of (ps_world s) (dc_socket c)) ++ sent_frame m;
  sn_sequence : im_sequence (ps_impl s') = sm_sequence m;
  sn_config : im_config (ps_impl s') = im_config (ps_impl s);
  sn_limit : im_negotiated_max_message_size (ps_impl s') = im_negotiated_max_message_size (ps_impl s);
}.

(** Room for [n] more messages of the size of [bytes]. *)
Definition takes (n : Z) (bytes : list Z) (s : PubState) : Prop :=
  Z.of_nat (length bytes) <= pc_max_message_size (im_config (ps_impl s)) /\ Z.of_nat (length bytes) <= u32_max /\
  Z.of_nat (length bytes) <= im_negotiated_max_message_size (ps_impl s) /\ 0 <= im_sequence (ps_impl s) /\ im_sequence (ps_impl s) + n <= u64_max.

Lemma publish_run env c bytes s : uds_link c s -> ce_events env = Ret [] -> takes 1 bytes s ->
  wp (publish true env (Some bytes) (Z.of_nat (length bytes))) s (fun r s' => pr_error r = Ok /\ pr_sequence r = im_sequence (ps_impl s) + 1 /\
    sends c (mkSentMessage (im_sequence (ps_impl s) + 1) (ce_timestamp_ns env) bytes) s s').
Proof.
  intros Hl Hev (Hm & Hu & Hn & Hs0 & Hs1). unfold publish. cbn [negb]. rewrite bool_decide_false by done. cbn [andb].
  apply wp_bind. unfold impl, gets, wp at 1. rewrite !(proj2 (Z.ltb_ge _ _)) by lia. rewrite (proj2 (Z.eqb_neq _ _)) by ulia. cbn [orb].
  apply wp_assoc, wp_bind. unfold wp at 1. rewrite (prepare_run env c s Hl Hev). cbn [is_ok negb]. apply wp_bind. unfold impl, gets, wp at 1.
  rewrite (proj2 (Z.ltb_ge _ _)) by lia. rewrite (lk_transport _ _ Hl). rewrite bool_decide_false by done. unfold publishUds. apply wp_bind.
  unfold wp at 1. rewrite read_payload_run. apply wp_bind. unfold for_connections. apply wp_bind. unfold impl, gets, wp at 1. rewrite (lk_connections _ _ Hl).
  cbn [connection_loop]. apply wp_bind. eapply wp_mono; [|apply send_frame_run, Hl]. intros [progress kept] s1 (-> & Hen & ->).
  apply wp_bind. unfold set_impl, modify, wp at 1. cbn [option_list app]. apply wp_ret.
  rewrite Hen. cbn [up_enqueued]. rewrite (wrap_small 32 (0 + 1)) by ulia. cbn [Z.add Z.eqb negb]. apply wp_bind. unfold set_impl, modify, wp at 1. apply wp_ret.
  split; [done|]. split; [done|]. destruct Hl as [Hc Hp Ht Hreg Hacc].
  assert (Hso : socket_of (ps_world (send_on (dc_socket c) bytes (send_on (dc_socket c) (encodeFrameHeader
      (mkFrameHeader kFrameMagic (wrap 32 (Z.of_nat (length bytes))) (im_sequence (ps_impl s) + 1) (ce_timestamp_ns env))) s))) (dc_socket c) =
    socket_of (ps_world s) (dc_socket c) <| so_sent := so_sent (socket_of (ps_world s) (dc_socket c)) ++
      sent_frame (mkSentMessage (im_sequence (ps_impl s) + 1) (ce_timestamp_ns env) bytes) |>).
  { rewrite !send_on_socket. simpl. unfold sent_frame. simpl. rewrite (wrap_small 32) by ulia. by rewrite app_assoc. }
  split; [split; try done | | done | done | done].
  - simpl in *. by rewrite Hso.
  - simpl in *. by rewrite Hso.
Qed.
