(* ===== verification/RegistryState.v ===== *)
(** * Registry state

    [RegistryState] of [registry/include/mw/registry/registry_state.hpp] and
    [registry/src/registry_state.cpp]: nodes, topics and endpoints, who owns what, liveness and the
    cleanup of dead nodes.  The registry runs in one thread, so each method is one step. *)

From Stdlib Require Import ZArith Lia Bool String.
From stdpp Require Import base gmap list strings option sorting.
From S2P Require Import Prelude Types Outcome.

Local Open Scope Z_scope.

(** ** Records *)

Record SharedPoolMetadata := mkSharedPoolMetadata {
  spm_shm_name : string;
  spm_pool_id : Z;
  spm_segment_size : Z;
  spm_layout_version : Z;
}.
Definition empty_pool_metadata : SharedPoolMetadata := mkSharedPoolMetadata "" 0 0 0.

Record SharedQueueMetadata := mkSharedQueueMetadata {
  sqm_shm_name : string;
  sqm_queue_id : Z;
  sqm_segment_size : Z;
  sqm_capacity : Z;
  sqm_layout_version : Z;
  sqm_overflow_policy : Z;
  sqm_block_timeout_ms : Z;
}.
Definition empty_queue_metadata : SharedQueueMetadata := mkSharedQueueMetadata "" 0 0 0 0 0 0.

(** Times are nanoseconds on the monotonic clock. *)
Record NodeRecord := mkNodeRecord {
  node_id : Z;
  node_session_id : Z;
  node_name : string;
  control_connection : Z;
  heartbeat_connection : Z;
  liveness : LivenessState;
  last_seen : Z;
  publisher_endpoints : gset Z;
  node_subscriber_endpoints : gset Z;
}.
#[export] Instance NodeRecord_eta : Eta NodeRecord := fun n =>
  mkNodeRecord (node_id n) (node_session_id n) (node_name n) (control_connection n)
    (heartbeat_connection n) (liveness n) (last_seen n) (publisher_endpoints n)
    (node_subscriber_endpoints n).

Record TopicRecord := mkTopicRecord {
  topic_id : Z;
  topic_name : string;
  type_name : string;
  type_hash : string;
  topic_transport : TransportType;
  topic_max_message_size : Z;
  publisher_endpoint : option Z;
  topic_subscriber_endpoints : gset Z;
  topic_pool : SharedPoolMetadata;
}.
#[export] Instance TopicRecord_eta : Eta TopicRecord := fun t =>
  mkTopicRecord (topic_id t) (topic_name t) (type_name t) (type_hash t) (topic_transport t)
    (topic_max_message_size t) (publisher_endpoint t) (topic_subscriber_endpoints t) (topic_pool t).

Record PublisherEndpoint := mkPublisherEndpoint {
  pe_endpoint_id : Z;
  pe_node_id : Z;
  pe_topic_id : Z;
  pe_max_message_size : Z;
  pe_transport : TransportType;
  pe_pool : SharedPoolMetadata;
}.

Record SubscriberEndpoint := mkSubscriberEndpoint {
  se_endpoint_id : Z;
  se_node_id : Z;
  se_topic_id : Z;
  se_data_socket_path : string;
  se_max_message_size : Z;
  se_transport : TransportType;
  se_queue : SharedQueueMetadata;
}.

Record IdResult := mkIdResult { ir_error : ErrorCode; ir_id : Z; ir_session_id : Z }.
Record HeartbeatResult := mkHeartbeatResult { hr_error : ErrorCode; hr_state : LivenessState }.

Inductive PeerEventKind := PublisherDead | SubscriberDead.

Record PeerEventRecord := mkPeerEventRecord {
  ev_kind : PeerEventKind;
  ev_target_node_id : Z;
  ev_target_endpoint_id : Z;
  ev_dead_endpoint_id : Z;
  ev_topic_id : Z;
  ev_resource_id : Z;
}.

Record DeadNodeCleanup := mkDeadNodeCleanup {
  cl_node_id : Z;
  cl_session_id : Z;
  cl_control_connection : Z;
  cl_heartbeat_connection : Z;
  cl_pools : list SharedPoolMetadata;
  cl_queues : list SharedQueueMetadata;
  cl_socket_paths : list string;
  cl_peer_events : list PeerEventRecord;
}.

Record LivenessUpdate := mkLivenessUpdate {
  suspected_nodes : list Z;
  dead_nodes : list DeadNodeCleanup;
}.

Record RegistryMetrics := mkRegistryMetrics {
  heartbeat_received : Z;
  suspected_count : Z;
  dead_node_count : Z;
}.
#[export] Instance RegistryMetrics_eta : Eta RegistryMetrics := fun m =>
  mkRegistryMetrics (heartbeat_received m) (suspected_count m) (dead_node_count m).

Record RegistryStatsSnapshot := mkRegistryStatsSnapshot {
  rss_node_count : Z;
  rss_topic_count : Z;
  rss_publisher_count : Z;
  rss_subscriber_count : Z;
  rss_heartbeat_received : Z;
  rss_suspected_count : Z;
  rss_dead_node_count : Z;
}.

Record EndpointResult := mkEndpointResult {
  ep_error : ErrorCode;
  ep_topic_id : Z;
  ep_endpoint_id : Z;
  ep_pool : SharedPoolMetadata;
}.

Record DiscoveredSubscriber := mkDiscoveredSubscriber {
  ds_endpoint_id : Z;
  ds_data_socket_path : string;
  ds_max_message_size : Z;
  ds_queue : SharedQueueMetadata;
}.

Record DiscoveryResult := mkDiscoveryResult {
  dr_error : ErrorCode;
  dr_topic_id : Z;
  dr_transport : TransportType;
  dr_pool : SharedPoolMetadata;
  dr_subscribers : list DiscoveredSubscriber;
}.

Record RegistryState := mkRegistryState {
  next_node_id_ : Z;
  next_session_id_ : Z;
  next_topic_id_ : Z;
  next_endpoint_id_ : Z;
  nodes_ : gmap Z NodeRecord;
  node_names_ : gmap string Z;
  topics_ : gmap Z TopicRecord;
  topic_names_ : gmap string Z;
  publishers_ : gmap Z PublisherEndpoint;
  subscribers_ : gmap Z SubscriberEndpoint;
  liveness_ : LivenessConfig;
  metrics_ : RegistryMetrics;
}.
#[export] Instance RegistryState_eta : Eta RegistryState := fun s =>
  mkRegistryState (next_node_id_ s) (next_session_id_ s) (next_topic_id_ s) (next_endpoint_id_ s)
    (nodes_ s) (node_names_ s) (topics_ s) (topic_names_ s) (publishers_ s) (subscribers_ s)
    (liveness_ s) (metrics_ s).

Abbreviation registry := (cpp RegistryState).

(** ** Validation *)

Definition validTransport (transport : TransportType) : bool :=
  bool_decide (transport = UnixDomainSocket) || bool_decide (transport = SharedMemory).

Definition validPoolMetadata (transport : TransportType) (pool : SharedPoolMetadata) : bool :=
  if bool_decide (transport = UnixDomainSocket) then
    (string_size (spm_shm_name pool) =? 0) && (spm_pool_id pool =? 0) && (spm_segment_size pool =? 0) &&
    (spm_layout_version pool =? 0)
  else
    (2 <=? string_size (spm_shm_name pool)) && (string_size (spm_shm_name pool) <=? 192) &&
    front_is slash (spm_shm_name pool) && absent_from 0 0 (spm_shm_name pool) &&
    absent_from slash 1 (spm_shm_name pool) && negb (spm_pool_id pool =? 0) &&
    negb (spm_segment_size pool =? 0) && (spm_layout_version pool =? 1).

Definition validQueueMetadata (transport : TransportType) (queue : SharedQueueMetadata) : bool :=
  if bool_decide (transport = UnixDomainSocket) then
    (string_size (sqm_shm_name queue) =? 0) && (sqm_queue_id queue =? 0) &&
    (sqm_segment_size queue =? 0) && (sqm_capacity queue =? 0) && (sqm_layout_version queue =? 0) &&
    (sqm_overflow_policy queue =? 0) && (sqm_block_timeout_ms queue =? 0)
  else
    let valid_policy := (OverflowPolicy_to_u16 DropNewest <=? sqm_overflow_policy queue) &&
                        (sqm_overflow_policy queue <=? OverflowPolicy_to_u16 BlockWithTimeout) in
    (2 <=? string_size (sqm_shm_name queue)) && (string_size (sqm_shm_name queue) <=? 192) &&
    front_is slash (sqm_shm_name queue) && absent_from 0 0 (sqm_shm_name queue) &&
    absent_from slash 1 (sqm_shm_name queue) && negb (sqm_queue_id queue =? 0) &&
    negb (sqm_segment_size queue =? 0) && negb (sqm_capacity queue =? 0) &&
    (sqm_capacity queue <=? 65536) && (sqm_layout_version queue =? 3) && valid_policy &&
    negb (sqm_block_timeout_ms queue =? 0).

Definition empty (s : string) : bool := string_size s =? 0.

(** The constructor. *)
Definition create_registry (liveness : LivenessConfig) : outcome RegistryState :=
  if negb (validLivenessConfig liveness) then Throw ex_invalid_argument
  else Ret (mkRegistryState 1 1 1 1 ∅ ∅ ∅ ∅ ∅ ∅ liveness (mkRegistryMetrics 0 0 0)).

(** ** Map accesses *)

(** [std::map::emplace]: an existing key keeps its value. *)
Definition emplace {K A} `{Countable K} (k : K) (a : A) (m : gmap K A) : gmap K A :=
  match m !! k with Some _ => m | None => <[k := a]> m end.

(** [topics_.at(id)], [subscribers_.at(id)], [publishers_.at(id)] *)
Definition topics_at (id : Z) : registry TopicRecord :=
  s ← this; or_throw ex_out_of_range (topics_ s !! id).
Definition publishers_at (id : Z) : registry PublisherEndpoint :=
  s ← this; or_throw ex_out_of_range (publishers_ s !! id).
Definition subscribers_at (id : Z) : registry SubscriberEndpoint :=
  s ← this; or_throw ex_out_of_range (subscribers_ s !! id).

(** Assignments through [topics_.at(id)] and through a node pointer. *)
Definition modify_topic (id : Z) (f : TopicRecord -> TopicRecord) : registry unit :=
  t ← topics_at id; modify (fun s => s <| topics_ := <[id := f t]> (topics_ s) |>).
Definition modify_node (id : Z) (f : NodeRecord -> NodeRecord) : registry unit :=
  modify (fun s => s <| nodes_ := alter f id (nodes_ s) |>).

Definition ownedNode (connection id : Z) : registry (option NodeRecord) :=
  s ← this;
  mret (match nodes_ s !! id with
        | Some node => if negb (control_connection node =? connection) then None else Some node
        | None => None
        end).

(** ** Nodes *)

Definition registerNode (connection : Z) (name : string) (now : Z) : registry IdResult :=
  if empty name then mret (mkIdResult InvalidArgument 0 0) else
  s ← this;
  match node_names_ s !! name with
  | Some _ => mret (mkIdResult DuplicateNode 0 0)
  | None =>
      let id := next_node_id_ s in
      let session := next_session_id_ s in
      let node := mkNodeRecord id session name connection 0 Alive now ∅ ∅ in
      modify (fun s => s <| next_node_id_ := wrap 64 (id + 1) |>
        <| next_session_id_ := wrap 64 (session + 1) |>
        <| nodes_ := emplace id node (nodes_ s) |>
        <| node_names_ := emplace name id (node_names_ s) |>);;
      mret (mkIdResult Ok id session)
  end.

Definition attachHeartbeat (connection id session : Z) : registry ErrorCode :=
  s ← this;
  match nodes_ s !! id with
  | None => mret NotRegistered
  | Some node =>
      if negb (node_session_id node =? session) || (connection =? 0) then mret NotRegistered else
      if negb (heartbeat_connection node =? 0) && negb (heartbeat_connection node =? connection)
      then mret NotRegistered else
      modify_node id (fun n => n <| heartbeat_connection := connection |>);;
      mret Ok
  end.

Definition heartbeat (connection id session now : Z) : registry HeartbeatResult :=
  s ← this;
  match nodes_ s !! id with
  | None => mret (mkHeartbeatResult NotRegistered Dead)
  | Some node =>
      if negb (node_session_id node =? session) then mret (mkHeartbeatResult NotRegistered Dead) else
      if negb (connection =? control_connection node) && negb (connection =? heartbeat_connection node)
      then mret (mkHeartbeatResult NotRegistered (liveness node)) else
      modify_node id (fun n => n <| last_seen := now |> <| liveness := Alive |>);;
      modify (fun s => s <| metrics_ := metrics_ s
        <| heartbeat_received := wrap 64 (heartbeat_received (metrics_ s) + 1) |> |>);;
      mret (mkHeartbeatResult Ok Alive)
  end.

(** ** Topics *)

(** The id of the topic, whose record the caller then changes. *)
Definition findOrCreateTopic (name type hash : string) (max_message_size : Z) (transport : TransportType)
    : registry Z :=
  s ← this;
  match topic_names_ s !! name with
  | Some id => _ ← topics_at id; mret id
  | None =>
      let id := next_topic_id_ s in
      modify (fun s => s <| next_topic_id_ := wrap 64 (id + 1) |>
        <| topics_ := emplace id (mkTopicRecord id name type hash transport max_message_size None ∅
                                    empty_pool_metadata) (topics_ s) |>
        <| topic_names_ := emplace name id (topic_names_ s) |>);;
      _ ← topics_at id;
      mret id
  end.

(** The loop of [recomputeTopicMaxMessageSize] over the subscriber endpoints. *)
Fixpoint min_subscriber_size (endpoints : list Z) (maximum : Z) : registry Z :=
  match endpoints with
  | [] => mret maximum
  | endpoint :: endpoints =>
      subscriber ← subscribers_at endpoint;
      min_subscriber_size endpoints (Z.min maximum (se_max_message_size subscriber))
  end.

Definition recomputeTopicMaxMessageSize (id : Z) : registry unit :=
  topic ← topics_at id;
  maximum ← match publisher_endpoint topic with
            | Some endpoint =>
                publisher ← publishers_at endpoint;
                mret (Z.min size_max (pe_max_message_size publisher))
            | None => mret size_max
            end;
  let endpoints := set_elements (topic_subscriber_endpoints topic) in
  maximum ← min_subscriber_size endpoints maximum;
  if bool_decide (is_Some (publisher_endpoint topic)) || bool_decide (endpoints <> [])
  then modify_topic id (fun t => t <| topic_max_message_size := maximum |>)
  else mret tt.

Definition eraseTopicIfEmpty (id : Z) : registry unit :=
  s ← this;
  match topics_ s !! id with
  | None => mret tt
  | Some topic =>
      if bool_decide (is_Some (publisher_endpoint topic)) ||
         bool_decide (topic_subscriber_endpoints topic <> ∅)
      then mret tt
      else modify (fun s => s <| topic_names_ := delete (topic_name topic) (topic_names_ s) |>
                              <| topics_ := delete id (topics_ s) |>)
  end.

(** What [advertise] and [subscribe] check on an existing topic: [None] to continue. *)
Definition check_topic (name type hash : string) (transport : TransportType) (publishing : bool)
    : registry (option EndpointResult) :=
  s ← this;
  match topic_names_ s !! name with
  | None => mret None
  | Some id =>
      topic ← topics_at id;
      if negb (bool_decide (type_name topic = type)) || negb (bool_decide (type_hash topic = hash))
      then mret (Some (mkEndpointResult TypeMismatch (topic_id topic) 0 empty_pool_metadata)) else
      if negb (bool_decide (topic_transport topic = transport))
      then mret (Some (mkEndpointResult TransportMismatch (topic_id topic) 0 empty_pool_metadata)) else
      if publishing && bool_decide (is_Some (publisher_endpoint topic))
      then mret (Some (mkEndpointResult DuplicatePublisher (topic_id topic) 0 empty_pool_metadata))
      else mret None
  end.

(** ** Endpoints *)

Definition advertise (connection id : Z) (name type hash : string) (max_message_size : Z)
    (transport : TransportType) (pool : SharedPoolMetadata) : registry EndpointResult :=
  node ← ownedNode connection id;
  match node with
  | None => mret (mkEndpointResult NotRegistered 0 0 empty_pool_metadata)
  | Some _ =>
      if empty name || empty type || empty hash || (u32_max <? max_message_size) ||
         negb (validTransport transport) || negb (validPoolMetadata transport pool)
      then mret (mkEndpointResult InvalidArgument 0 0 empty_pool_metadata) else
      refused ← check_topic name type hash transport true;
      match refused with
      | Some result => mret result
      | None =>
          topic ← findOrCreateTopic name type hash max_message_size transport;
          s ← this;
          let endpoint := next_endpoint_id_ s in
          modify (fun s => s <| next_endpoint_id_ := wrap 64 (endpoint + 1) |>
            <| publishers_ := emplace endpoint
                 (mkPublisherEndpoint endpoint id topic max_message_size transport pool) (publishers_ s) |>);;
          modify_topic topic (fun t => t <| publisher_endpoint := Some endpoint |> <| topic_pool := pool |>
            <| topic_max_message_size := Z.min (topic_max_message_size t) max_message_size |>);;
          modify_node id (fun n => n <| publisher_endpoints := {[endpoint]} ∪ publisher_endpoints n |>);;
          mret (mkEndpointResult Ok topic endpoint pool)
      end
  end.

Definition unadvertise (connection id endpoint : Z) : registry ErrorCode :=
  node ← ownedNode connection id;
  s ← this;
  match node, publishers_ s !! endpoint with
  | Some _, Some publisher =>
      if negb (pe_node_id publisher =? id) then mret EndpointNotFound else
      let topic := pe_topic_id publisher in
      modify_node id (fun n => n <| publisher_endpoints := publisher_endpoints n ∖ {[endpoint]} |>);;
      modify (fun s => s <| publishers_ := delete endpoint (publishers_ s) |>);;
      modify_topic topic (fun t => t <| publisher_endpoint := None |>);;
      modify_topic topic (fun t => t <| topic_pool := empty_pool_metadata |>);;
      recomputeTopicMaxMessageSize topic;;
      eraseTopicIfEmpty topic;;
      mret Ok
  | _, _ => mret EndpointNotFound
  end.

Definition subscribe (connection id : Z) (name type hash : string) (max_message_size : Z)
    (data_socket_path : string) (transport : TransportType) (queue : SharedQueueMetadata)
    : registry EndpointResult :=
  node ← ownedNode connection id;
  match node with
  | None => mret (mkEndpointResult NotRegistered 0 0 empty_pool_metadata)
  | Some _ =>
      if empty name || empty type || empty hash || empty data_socket_path ||
         (u32_max <? max_message_size) || negb (validTransport transport) ||
         negb (validQueueMetadata transport queue)
      then mret (mkEndpointResult InvalidArgument 0 0 empty_pool_metadata) else
      refused ← check_topic name type hash transport false;
      match refused with
      | Some result => mret result
      | None =>
          topic ← findOrCreateTopic name type hash max_message_size transport;
          s ← this;
          let endpoint := next_endpoint_id_ s in
          modify (fun s => s <| next_endpoint_id_ := wrap 64 (endpoint + 1) |>
            <| subscribers_ := emplace endpoint
                 (mkSubscriberEndpoint endpoint id topic data_socket_path max_message_size transport queue)
                 (subscribers_ s) |>);;
          modify_topic topic (fun t =>
            t <| topic_subscriber_endpoints := {[endpoint]} ∪ topic_subscriber_endpoints t |>
              <| topic_max_message_size := Z.min (topic_max_message_size t) max_message_size |>);;
          modify_node id (fun n =>
            n <| node_subscriber_endpoints := {[endpoint]} ∪ node_subscriber_endpoints n |>);;
          t ← topics_at topic;
          mret (mkEndpointResult Ok topic endpoint (topic_pool t))
      end
  end.

Definition unsubscribe (connection id endpoint : Z) : registry ErrorCode :=
  node ← ownedNode connection id;
  s ← this;
  match node, subscribers_ s !! endpoint with
  | Some _, Some subscriber =>
      if negb (se_node_id subscriber =? id) then mret EndpointNotFound else
      let topic := se_topic_id subscriber in
      modify_node id (fun n =>
        n <| node_subscriber_endpoints := node_subscriber_endpoints n ∖ {[endpoint]} |>);;
      modify (fun s => s <| subscribers_ := delete endpoint (subscribers_ s) |>);;
      modify_topic topic (fun t =>
        t <| topic_subscriber_endpoints := topic_subscriber_endpoints t ∖ {[endpoint]} |>);;
      recomputeTopicMaxMessageSize topic;;
      eraseTopicIfEmpty topic;;
      mret Ok
  | _, _ => mret EndpointNotFound
  end.

Definition resolve (connection id endpoint : Z) : registry DiscoveryResult :=
  node ← ownedNode connection id;
  s ← this;
  let not_found := mkDiscoveryResult EndpointNotFound 0 UnixDomainSocket empty_pool_metadata [] in
  match node, publishers_ s !! endpoint with
  | Some _, Some publisher =>
      if negb (pe_node_id publisher =? id) then mret not_found else
      topic ← topics_at (pe_topic_id publisher);
      if bool_decide (topic_subscriber_endpoints topic = ∅)
      then mret (mkDiscoveryResult TopicNotFound (topic_id topic) (topic_transport topic) (topic_pool topic) [])
      else
        subscribers ← for_collect (set_elements (topic_subscriber_endpoints topic)) (fun e =>
          subscriber ← subscribers_at e;
          mret [mkDiscoveredSubscriber (se_endpoint_id subscriber) (se_data_socket_path subscriber)
                  (se_max_message_size subscriber) (se_queue subscriber)]);
        mret (mkDiscoveryResult Ok (topic_id topic) (topic_transport topic) (topic_pool topic) subscribers)
  | _, _ => mret not_found
  end.

(** ** Unregistering and cleanup *)

Definition unregisterNode (connection id : Z) : registry ErrorCode :=
  node ← ownedNode connection id;
  match node with
  | None => mret NotRegistered
  | Some node =>
      for_each (set_elements (publisher_endpoints node)) (fun e => _ ← unadvertise connection id e; mret tt);;
      for_each (set_elements (node_subscriber_endpoints node)) (fun e => _ ← unsubscribe connection id e; mret tt);;
      modify (fun s => s <| node_names_ := delete (node_name node) (node_names_ s) |>
                         <| nodes_ := delete id (nodes_ s) |>);;
      mret Ok
  end.

(** The events and resources of one publisher endpoint of a dead node. *)
Definition cleanup_publisher (endpoint : Z)
    : registry (list (list SharedPoolMetadata * list PeerEventRecord)) :=
  s ← this;
  match publishers_ s !! endpoint with
  | None => mret []
  | Some publisher =>
      topic ← topics_at (pe_topic_id publisher);
      let events := flat_map (fun e =>
        match subscribers_ s !! e with
        | Some subscriber =>
            [mkPeerEventRecord PublisherDead (se_node_id subscriber) e endpoint (pe_topic_id publisher)
               (spm_pool_id (pe_pool publisher))]
        | None => []
        end) (set_elements (topic_subscriber_endpoints topic)) in
      mret [(if empty (spm_shm_name (pe_pool publisher)) then [] else [pe_pool publisher], events)]
  end.

(** The events and resources of one subscriber endpoint of a dead node. *)
Definition cleanup_subscriber (endpoint : Z)
    : registry (list (list SharedQueueMetadata * string * list PeerEventRecord)) :=
  s ← this;
  match subscribers_ s !! endpoint with
  | None => mret []
  | Some subscriber =>
      topic ← topics_at (se_topic_id subscriber);
      let events :=
        match publisher_endpoint topic with
        | None => []
        | Some p =>
            match publishers_ s !! p with
            | None => []
            | Some publisher =>
                [mkPeerEventRecord SubscriberDead (pe_node_id publisher) (pe_endpoint_id publisher) endpoint
                   (se_topic_id subscriber) (sqm_queue_id (se_queue subscriber))]
            end
        end in
      mret [((if empty (sqm_shm_name (se_queue subscriber)) then [] else [se_queue subscriber],
              se_data_socket_path subscriber), events)]
  end.

Definition cleanupDeadNode (id : Z) : registry (option DeadNodeCleanup) :=
  s ← this;
  match nodes_ s !! id with
  | None => mret None
  | Some node =>
      publishers ← for_collect (set_elements (publisher_endpoints node)) cleanup_publisher;
      subscribers ← for_collect (set_elements (node_subscriber_endpoints node)) cleanup_subscriber;
      _ ← unregisterNode (control_connection node) (node_id node);
      modify (fun s => s <| metrics_ := metrics_ s
        <| dead_node_count := wrap 64 (dead_node_count (metrics_ s) + 1) |> |>);;
      mret (Some (mkDeadNodeCleanup (node_id node) (node_session_id node) (control_connection node)
        (heartbeat_connection node) (flat_map fst publishers) (flat_map (fun x => x.1.1) subscribers)
        (map (fun x => x.1.2) subscribers) (flat_map snd publishers ++ flat_map snd subscribers)))
  end.

(** ** Liveness *)

(** A timeout in the nanoseconds of the clock. *)
Definition timeout_ns (milliseconds : Z) : Z := milliseconds * 1000000.

(** The first loop of [evaluateLiveness], over the node ids in order: suspected and dead ids. *)
Fixpoint suspect_nodes (now : Z) (ids : list Z) : registry (list Z * list Z) :=
  match ids with
  | [] => mret ([], [])
  | id :: ids =>
      s ← this;
      match nodes_ s !! id with
      | None => suspect_nodes now ids
      | Some node =>
          let elapsed := now - last_seen node in
          let suspect := (timeout_ns (suspect_timeout (liveness_ s)) <=? elapsed) &&
                         bool_decide (liveness node = Alive) in
          let dead := timeout_ns (dead_timeout (liveness_ s)) <=? elapsed in
          (if suspect then
             modify_node id (fun n => n <| liveness := Suspected |>);;
             modify (fun s => s <| metrics_ := metrics_ s
               <| suspected_count := wrap 64 (suspected_count (metrics_ s) + 1) |> |>)
           else mret tt);;
          '(suspected, deads) ← suspect_nodes now ids;
          mret ((if suspect && negb dead then [node_id node] else []) ++ suspected,
                (if dead then [node_id node] else []) ++ deads)
      end
  end.

Definition cleanup_nodes (ids : list Z) : registry (list DeadNodeCleanup) :=
  for_collect ids (fun id => cleanup ← cleanupDeadNode id; mret (option_list cleanup)).

Definition evaluateLiveness (now : Z) : registry LivenessUpdate :=
  s ← this;
  '(suspected, dead_ids) ← suspect_nodes now (map_keys (nodes_ s));
  cleanups ← cleanup_nodes dead_ids;
  mret (mkLivenessUpdate suspected cleanups).

Definition detachHeartbeatConnection (connection : Z) : registry unit :=
  modify (fun s => s <| nodes_ :=
    (fun n => if heartbeat_connection n =? connection then n <| heartbeat_connection := 0 |> else n) <$> nodes_ s |>).

Definition disconnectConnection (connection : Z) : registry (list DeadNodeCleanup) :=
  s ← this;
  let ids := filter (fun id => control_connection <$> nodes_ s !! id = Some connection) (map_keys (nodes_ s)) in
  cleanups ← cleanup_nodes ids;
  (if bool_decide (cleanups = []) then detachHeartbeatConnection connection else mret tt);;
  mret cleanups.

(** ** Queries *)

Definition name_le {A} (name : A -> string) (left right : A) : Prop :=
  String.leb (name left) (name right) = true.
#[export] Instance name_le_dec {A} (name : A -> string) : RelDecision (name_le name).
Proof. intros left right. unfold name_le. apply _. Defined.

(** The records of a [std::map] in key order. *)
Definition map_records {A} (m : gmap Z A) : list A := omap (fun k => m !! k) (map_keys m).

Definition listNodes : registry (list NodeRecord) :=
  s ← this; mret (merge_sort (name_le node_name) (map_records (nodes_ s))).

Definition listTopics : registry (list TopicRecord) :=
  s ← this; mret (merge_sort (name_le topic_name) (map_records (topics_ s))).

Definition queryTopic (name : string) : registry (option TopicRecord) :=
  s ← this;
  match topic_names_ s !! name with
  | None => mret None
  | Some id => topic ← topics_at id; mret (Some topic)
  end.

Definition statsSnapshot : registry RegistryStatsSnapshot :=
  gets (fun s => mkRegistryStatsSnapshot (Z.of_nat (size (nodes_ s))) (Z.of_nat (size (topics_ s)))
    (Z.of_nat (size (publishers_ s))) (Z.of_nat (size (subscribers_ s))) (heartbeat_received (metrics_ s))
    (suspected_count (metrics_ s)) (dead_node_count (metrics_ s))).

Definition publisherEndpoint (endpoint : Z) : registry (option PublisherEndpoint) :=
  gets (fun s => publishers_ s !! endpoint).

Definition node_of (id : Z) : registry (option NodeRecord) := gets (fun s => nodes_ s !! id).
