(* ===== verification/RegistryInvariant.v ===== *)
(** * Registry invariant

    The bookkeeping of [RegistryState] as one invariant: names and ids are in bijection,
    endpoints are linked from exactly their node and their topic, topics are never empty
    and their size limit is the least of their endpoints'.  Linking and unlinking an
    endpoint keep it. *)

From Stdlib Require Import ZArith Lia Bool String.
From stdpp Require Import base gmap list strings option sorting.
From S2P Require Import Prelude Types Outcome RegistryState.

Local Open Scope Z_scope.

(** ** Links between a map of endpoints and the sets that name them *)

Section links.
Context {E : Type} (e_id e_node e_topic : E -> Z).
Implicit Types (m : gmap Z E) (ns ts : Z -> gset Z).

(** Every endpoint is in the set of its node and of its topic, and these sets hold nothing
    else. *)
Record links m ns ts : Prop := {
  lk_entry : forall e x, m !! e = Some x -> e_id x = e /\ e ∈ ns (e_node x) /\ e ∈ ts (e_topic x);
  lk_node : forall i e, e ∈ ns i -> exists x, m !! e = Some x /\ e_node x = i;
  lk_topic : forall t e, e ∈ ts t -> exists x, m !! e = Some x /\ e_topic x = t;
}.

Lemma links_ext m ns ts ns' ts' :
  (forall i, ns' i = ns i) -> (forall t, ts' t = ts t) -> links m ns ts -> links m ns' ts'.
Proof.
  intros Hn Ht [H1 H2 H3]. split.
  - intros e x He. rewrite Hn, Ht. by apply H1.
  - intros i e. rewrite Hn. apply H2.
  - intros t e. rewrite Ht. apply H3.
Qed.

Lemma links_insert m ns ts ns' ts' e x :
  links m ns ts -> m !! e = None -> e_id x = e ->
  (forall i, ns' i = if decide (i = e_node x) then {[e]} ∪ ns i else ns i) ->
  (forall t, ts' t = if decide (t = e_topic x) then {[e]} ∪ ts t else ts t) ->
  links (<[e := x]> m) ns' ts'.
Proof.
  intros [H1 H2 H3] Hnew Hid Hn Ht. split.
  - intros e' x' He'. rewrite Hn, Ht. apply lookup_insert_Some in He' as [[<- <-] | [Hne He']].
    + rewrite !decide_True by done. set_solver.
    + destruct (H1 _ _ He') as (? & ? & ?). split_and!; auto; case_decide; set_solver.
  - intros i e' He'. rewrite Hn in He'. case_decide as Hi.
    + apply elem_of_union in He' as [->%elem_of_singleton | He'].
      * exists x. rewrite lookup_insert_eq. done.
      * destruct (H2 _ _ He') as (x' & Hx' & ?). exists x'. rewrite lookup_insert_ne by congruence. done.
    + destruct (H2 _ _ He') as (x' & Hx' & ?). exists x'. rewrite lookup_insert_ne by congruence. done.
  - intros t e' He'. rewrite Ht in He'. case_decide as Hi.
    + apply elem_of_union in He' as [->%elem_of_singleton | He'].
      * exists x. rewrite lookup_insert_eq. done.
      * destruct (H3 _ _ He') as (x' & Hx' & ?). exists x'. rewrite lookup_insert_ne by congruence. done.
    + destruct (H3 _ _ He') as (x' & Hx' & ?). exists x'. rewrite lookup_insert_ne by congruence. done.
Qed.

Lemma links_delete m ns ts ns' ts' e x :
  links m ns ts -> m !! e = Some x ->
  (forall i, ns' i = if decide (i = e_node x) then ns i ∖ {[e]} else ns i) ->
  (forall t, ts' t = if decide (t = e_topic x) then ts t ∖ {[e]} else ts t) ->
  links (delete e m) ns' ts'.
Proof.
  intros [H1 H2 H3] Hx Hn Ht. split.
  - intros e' x' [Hne He']%lookup_delete_Some. destruct (H1 _ _ He') as (? & ? & ?). rewrite Hn, Ht.
    split_and!; auto; case_decide; set_solver.
  - intros i e' He'. rewrite Hn in He'. destruct (H2 i e') as (x' & Hx' & Hi); [case_decide; set_solver|].
    exists x'. split; [|done]. apply lookup_delete_Some. split; [|done]. intros <-.
    simplify_eq. rewrite decide_True in He' by done. set_solver.
  - intros t e' He'. rewrite Ht in He'. destruct (H3 t e') as (x' & Hx' & Hi); [case_decide; set_solver|].
    exists x'. split; [|done]. apply lookup_delete_Some. split; [|done]. intros <-.
    simplify_eq. rewrite decide_True in He' by done. set_solver.
Qed.
End links.

(** ** The invariant *)

Definition option_set (o : option Z) : gset Z := match o with Some e => {[e]} | None => ∅ end.

(** The endpoints a node or a topic names; none when it does not exist. *)
Definition node_pubs (s : RegistryState) (i : Z) : gset Z := default ∅ (publisher_endpoints <$> nodes_ s !! i).
Definition node_subs (s : RegistryState) (i : Z) : gset Z :=
  default ∅ (node_subscriber_endpoints <$> nodes_ s !! i).
Definition topic_pubs (s : RegistryState) (t : Z) : gset Z :=
  default ∅ ((fun T => option_set (publisher_endpoint T)) <$> topics_ s !! t).
Definition topic_subs (s : RegistryState) (t : Z) : gset Z :=
  default ∅ (topic_subscriber_endpoints <$> topics_ s !! t).

(** [m] is the least size limit of the endpoints of topic [t]. *)
Definition is_limit (s : RegistryState) (t m : Z) : Prop :=
  (forall e P, publishers_ s !! e = Some P -> pe_topic_id P = t -> m <= pe_max_message_size P) /\
  (forall e S, subscribers_ s !! e = Some S -> se_topic_id S = t -> m <= se_max_message_size S) /\
  ((exists e P, publishers_ s !! e = Some P /\ pe_topic_id P = t /\ pe_max_message_size P = m) \/
   (exists e S, subscribers_ s !! e = Some S /\ se_topic_id S = t /\ se_max_message_size S = m)).

(** Names and ids of nodes and of topics determine each other. *)
Record names_ok (s : RegistryState) : Prop := {
  nk_nodes : forall i n, nodes_ s !! i = Some n ->
    node_id n = i /\ node_names_ s !! node_name n = Some i /\ 0 < i < next_node_id_ s;
  nk_node_names : forall name i, node_names_ s !! name = Some i ->
    exists n, nodes_ s !! i = Some n /\ node_name n = name;
  nk_topics : forall t T, topics_ s !! t = Some T ->
    topic_id T = t /\ topic_names_ s !! topic_name T = Some t /\ 0 < t < next_topic_id_ s;
  nk_topic_names : forall name t, topic_names_ s !! name = Some t ->
    exists T, topics_ s !! t = Some T /\ topic_name T = name;
}.

(** Topics agree with their endpoints. *)
Record topics_ok (s : RegistryState) : Prop := {
  tk_used : forall t T, topics_ s !! t = Some T ->
    is_Some (publisher_endpoint T) \/ topic_subscriber_endpoints T <> ∅;
  tk_publisher : forall e P T, publishers_ s !! e = Some P -> topics_ s !! pe_topic_id P = Some T ->
    topic_transport T = pe_transport P /\ topic_pool T = pe_pool P;
  tk_subscriber : forall e S T, subscribers_ s !! e = Some S -> topics_ s !! se_topic_id S = Some T ->
    topic_transport T = se_transport S;
  tk_no_pool : forall t T, topics_ s !! t = Some T -> publisher_endpoint T = None ->
    topic_pool T = empty_pool_metadata;
  tk_limit : forall t T, topics_ s !! t = Some T -> is_limit s t (topic_max_message_size T);
}.

(** Endpoint ids are below the next one, and size limits within 32 bits. *)
Record endpoints_ok (s : RegistryState) : Prop := {
  ek_publishers : forall e P, publishers_ s !! e = Some P ->
    0 < e < next_endpoint_id_ s /\ 0 <= pe_max_message_size P <= u32_max;
  ek_subscribers : forall e S, subscribers_ s !! e = Some S ->
    0 < e < next_endpoint_id_ s /\ 0 <= se_max_message_size S <= u32_max;
  ek_next : 0 < next_node_id_ s /\ 0 < next_topic_id_ s /\ 0 < next_endpoint_id_ s;
}.

Record registry_wf (s : RegistryState) : Prop := {
  rw_pubs : links pe_endpoint_id pe_node_id pe_topic_id (publishers_ s) (node_pubs s) (topic_pubs s);
  rw_subs : links se_endpoint_id se_node_id se_topic_id (subscribers_ s) (node_subs s) (topic_subs s);
  rw_names : names_ok s;
  rw_topics : topics_ok s;
  rw_endpoints : endpoints_ok s;
}.

(** The counters can still be incremented without wrapping around. *)
Definition ids_left (s : RegistryState) (n : Z) : Prop :=
  next_node_id_ s + n < 2 ^ 64 /\ next_topic_id_ s + n < 2 ^ 64 /\ next_endpoint_id_ s + n < 2 ^ 64.

(** ** Consequences *)

Lemma node_pubs_Some s i e : e ∈ node_pubs s i -> exists n, nodes_ s !! i = Some n /\ e ∈ publisher_endpoints n.
Proof. unfold node_pubs. destruct (nodes_ s !! i); simpl; [eauto | set_solver]. Qed.
Lemma node_subs_Some s i e :
  e ∈ node_subs s i -> exists n, nodes_ s !! i = Some n /\ e ∈ node_subscriber_endpoints n.
Proof. unfold node_subs. destruct (nodes_ s !! i); simpl; [eauto | set_solver]. Qed.
Lemma topic_pubs_Some s t e :
  e ∈ topic_pubs s t -> exists T, topics_ s !! t = Some T /\ publisher_endpoint T = Some e.
Proof.
  unfold topic_pubs. destruct (topics_ s !! t) as [T|]; simpl; [|set_solver].
  unfold option_set. destruct (publisher_endpoint T) as [e'|] eqn:Hp; [|set_solver].
  intros ->%elem_of_singleton. eauto.
Qed.
Lemma topic_subs_Some s t e :
  e ∈ topic_subs s t -> exists T, topics_ s !! t = Some T /\ e ∈ topic_subscriber_endpoints T.
Proof. unfold topic_subs. destruct (topics_ s !! t); simpl; [eauto | set_solver]. Qed.

Section wf.
Context (s : RegistryState) (Hwf : registry_wf s).

Lemma publisher_topic e P : publishers_ s !! e = Some P ->
  exists T, topics_ s !! pe_topic_id P = Some T /\ publisher_endpoint T = Some e.
Proof. intros He. destruct (lk_entry _ _ _ _ _ _ (rw_pubs _ Hwf) _ _ He) as (_ & _ & ?). by apply topic_pubs_Some. Qed.

Lemma publisher_node e P : publishers_ s !! e = Some P ->
  exists n, nodes_ s !! pe_node_id P = Some n /\ e ∈ publisher_endpoints n.
Proof. intros He. destruct (lk_entry _ _ _ _ _ _ (rw_pubs _ Hwf) _ _ He) as (_ & ? & _). by apply node_pubs_Some. Qed.

Lemma subscriber_topic e S : subscribers_ s !! e = Some S ->
  exists T, topics_ s !! se_topic_id S = Some T /\ e ∈ topic_subscriber_endpoints T.
Proof. intros He. destruct (lk_entry _ _ _ _ _ _ (rw_subs _ Hwf) _ _ He) as (_ & _ & ?). by apply topic_subs_Some. Qed.

Lemma topic_publisher t T e : topics_ s !! t = Some T -> publisher_endpoint T = Some e ->
  exists P, publishers_ s !! e = Some P /\ pe_topic_id P = t.
Proof.
  intros Ht He. apply (lk_topic _ _ _ _ _ _ (rw_pubs _ Hwf)). unfold topic_pubs. rewrite Ht. simpl. rewrite He.
  set_solver.
Qed.

Lemma topic_subscriber t T e : topics_ s !! t = Some T -> e ∈ topic_subscriber_endpoints T ->
  exists S, subscribers_ s !! e = Some S /\ se_topic_id S = t.
Proof.
  intros Ht He. apply (lk_topic _ _ _ _ _ _ (rw_subs _ Hwf)). unfold topic_subs. by rewrite Ht.
Qed.

Lemma node_publisher i n e : nodes_ s !! i = Some n -> e ∈ publisher_endpoints n ->
  exists P, publishers_ s !! e = Some P /\ pe_node_id P = i.
Proof. intros Hi He. apply (lk_node _ _ _ _ _ _ (rw_pubs _ Hwf)). unfold node_pubs. by rewrite Hi. Qed.

Lemma node_subscriber i n e : nodes_ s !! i = Some n -> e ∈ node_subscriber_endpoints n ->
  exists S, subscribers_ s !! e = Some S /\ se_node_id S = i.
Proof. intros Hi He. apply (lk_node _ _ _ _ _ _ (rw_subs _ Hwf)). unfold node_subs. by rewrite Hi. Qed.

(** Fresh ids are unused. *)
Lemma fresh_publisher : publishers_ s !! next_endpoint_id_ s = None.
Proof.
  destruct (publishers_ s !! next_endpoint_id_ s) eqn:H; [|done].
  apply (ek_publishers _ (rw_endpoints _ Hwf)) in H. lia.
Qed.
Lemma fresh_subscriber : subscribers_ s !! next_endpoint_id_ s = None.
Proof.
  destruct (subscribers_ s !! next_endpoint_id_ s) eqn:H; [|done].
  apply (ek_subscribers _ (rw_endpoints _ Hwf)) in H. lia.
Qed.
Lemma fresh_topic : topics_ s !! next_topic_id_ s = None.
Proof.
  destruct (topics_ s !! next_topic_id_ s) eqn:H; [|done]. apply (nk_topics _ (rw_names _ Hwf)) in H. lia.
Qed.
Lemma fresh_node : nodes_ s !! next_node_id_ s = None.
Proof.
  destruct (nodes_ s !! next_node_id_ s) eqn:H; [|done]. apply (nk_nodes _ (rw_names _ Hwf)) in H. lia.
Qed.
End wf.

(** ** Linking an endpoint *)

(** The topic an endpoint is linked to: an existing one, or a new empty one. *)
Inductive topic_base (s : RegistryState) (t : Z) (T : TopicRecord) : Z -> Z -> Prop :=
  | base_existing x : topics_ s !! t = Some T -> topic_base s t T (next_topic_id_ s) x
  | base_new x name type hash transport :
      t = next_topic_id_ s -> topic_names_ s !! name = None ->
      T = mkTopicRecord t name type hash transport x None ∅ empty_pool_metadata ->
      topic_base s t T (next_topic_id_ s + 1) x.

(** Replaces topic [t], its name pointing to it. *)
Definition put_topic (t : Z) (T : TopicRecord) (next : Z) (s : RegistryState) : RegistryState :=
  s <| next_topic_id_ := next |> <| topics_ := <[t := T]> (topics_ s) |>
    <| topic_names_ := <[topic_name T := t]> (topic_names_ s) |>.

Definition link_publisher (s : RegistryState) (T : TopicRecord) (next : Z) (P : PublisherEndpoint)
    : RegistryState :=
  put_topic (pe_topic_id P)
    (T <| publisher_endpoint := Some (next_endpoint_id_ s) |> <| topic_pool := pe_pool P |>
       <| topic_max_message_size := Z.min (topic_max_message_size T) (pe_max_message_size P) |>) next
    (s <| next_endpoint_id_ := next_endpoint_id_ s + 1 |>
       <| publishers_ := <[next_endpoint_id_ s := P]> (publishers_ s) |>
       <| nodes_ := alter (fun n => n <| publisher_endpoints := {[next_endpoint_id_ s]} ∪ publisher_endpoints n |>)
                      (pe_node_id P) (nodes_ s) |>).

Definition link_subscriber (s : RegistryState) (T : TopicRecord) (next : Z) (S : SubscriberEndpoint)
    : RegistryState :=
  put_topic (se_topic_id S)
    (T <| topic_subscriber_endpoints := {[next_endpoint_id_ s]} ∪ topic_subscriber_endpoints T |>
       <| topic_max_message_size := Z.min (topic_max_message_size T) (se_max_message_size S) |>) next
    (s <| next_endpoint_id_ := next_endpoint_id_ s + 1 |>
       <| subscribers_ := <[next_endpoint_id_ s := S]> (subscribers_ s) |>
       <| nodes_ := alter (fun n =>
            n <| node_subscriber_endpoints := {[next_endpoint_id_ s]} ∪ node_subscriber_endpoints n |>)
            (se_node_id S) (nodes_ s) |>).

(** Reads through an [alter] or an [insert] under a [default]. *)
Lemma default_alter {A} (f : A -> gset Z) (g : A -> A) (m : gmap Z A) i j :
  default ∅ (f <$> alter g i m !! j) =
  if decide (j = i) then default ∅ ((fun x => f (g x)) <$> m !! j) else default ∅ (f <$> m !! j).
Proof.
  destruct (decide (j = i)) as [->|Hne].
  - rewrite lookup_alter_eq. by destruct (m !! i).
  - by rewrite lookup_alter_ne.
Qed.

Lemma default_insert {A} (f : A -> gset Z) (a : A) (m : gmap Z A) i j :
  default ∅ (f <$> <[i := a]> m !! j) = if decide (j = i) then f a else default ∅ (f <$> m !! j).
Proof.
  destruct (decide (j = i)) as [->|Hne]; [by rewrite lookup_insert_eq | by rewrite lookup_insert_ne].
Qed.

Section linking.
Context (s : RegistryState) (Hwf : registry_wf s) (T : TopicRecord) (t next x : Z)
  (Hbase : topic_base s t T next x).

Lemma base_subs : topic_subs s t = topic_subscriber_endpoints T.
Proof.
  unfold topic_subs. destruct Hbase as [? Ht | ? ? ? ? ? Et ? ET]; [by rewrite Ht|].
  by rewrite Et, ET, (fresh_topic s Hwf).
Qed.

Lemma base_pubs : topic_pubs s t = option_set (publisher_endpoint T).
Proof.
  unfold topic_pubs. destruct Hbase as [? Ht | ? ? ? ? ? Et ? ET]; [by rewrite Ht|].
  by rewrite Et, ET, (fresh_topic s Hwf).
Qed.

Lemma base_next : next_topic_id_ s <= next /\ 0 < t < next.
Proof.
  pose proof (ek_next _ (rw_endpoints _ Hwf)).
  destruct Hbase as [? Ht | ? ? ? ? ? Et ? ET]; [|lia].
  apply (nk_topics _ (rw_names _ Hwf)) in Ht as (_ & _ & ?). lia.
Qed.

(** The new limit is the least of the old ones and the new one. *)
Lemma base_limit : 0 <= x ->
  (forall e P, publishers_ s !! e = Some P -> pe_topic_id P = t -> topic_max_message_size T <= pe_max_message_size P) /\
  (forall e S, subscribers_ s !! e = Some S -> se_topic_id S = t -> topic_max_message_size T <= se_max_message_size S) /\
  (is_limit s t (topic_max_message_size T) \/ topic_max_message_size T = x).
Proof.
  intros Hx. destruct Hbase as [? Ht | ? ? ? ? ? Et ? ET].
  - pose proof (tk_limit _ (rw_topics _ Hwf) _ _ Ht) as Hlim. split_and!; [apply Hlim | apply Hlim | by left].
  - pose proof (fresh_topic s Hwf) as Hf. rewrite <- Et in Hf.
    split_and!; [| |by right; rewrite ET].
    + intros e P He Hp. destruct (publisher_topic s Hwf _ _ He) as (T' & HT' & _). congruence.
    + intros e S He Hp. destruct (subscriber_topic s Hwf _ _ He) as (T' & HT' & _). congruence.
Qed.

(** Renaming nothing, replacing topic [t] keeps names and ids in bijection. *)
Lemma put_topic_names T' s' :
  topic_id T' = topic_id T -> topic_name T' = topic_name T ->
  next_node_id_ s' = next_node_id_ s -> node_names_ s' = node_names_ s ->
  topics_ s' = topics_ s -> topic_names_ s' = topic_names_ s ->
  (forall i n, nodes_ s' !! i = Some n -> exists n0, nodes_ s !! i = Some n0 /\
     node_id n = node_id n0 /\ node_name n = node_name n0) ->
  (forall i n, nodes_ s !! i = Some n -> exists n', nodes_ s' !! i = Some n' /\ node_name n' = node_name n) ->
  names_ok (put_topic t T' next s').
Proof.
  intros Hid Hname Hnn Hnames Htopics Htnames Hn1 Hn2. pose proof base_next as [Hnext Ht].
  destruct (rw_names _ Hwf) as [Hk1 Hk2 Hk3 Hk4].
  assert (HT : topic_id T = t) by (destruct Hbase as [? HT | ? ? ? ? ? Et ? ET]; [by apply Hk3 in HT as [? _] | by rewrite ET]).
  split; simpl; rewrite ?Hnn, ?Hnames, ?Htopics, ?Htnames.
  - intros i n Hi. destruct (Hn1 _ _ Hi) as (n0 & Hn0 & -> & ->). by apply Hk1.
  - intros name i Hi. destruct (Hk2 _ _ Hi) as (n & Hn & <-). eauto.
  - intros t' T0 [[<- <-] | [Hne Ht']]%lookup_insert_Some.
    + rewrite lookup_insert_eq. split_and!; auto; lia.
    + destruct (Hk3 _ _ Ht') as (? & Hnm & ?). split_and!; auto; try lia.
      rewrite lookup_insert_ne; [done|]. rewrite Hname. intros Heq. rewrite <- Heq in Hnm.
      destruct Hbase as [? HT0 | ? ? ? ? ? Et Hnone ET]; [|by rewrite ET in Hnm; simpl in Hnm; congruence].
      apply Hk3 in HT0 as (_ & ? & _). congruence.
  - intros name t' [[<- <-] | [Hne Ht']]%lookup_insert_Some.
    + exists T'. by rewrite lookup_insert_eq.
    + destruct (Hk4 _ _ Ht') as (T0 & HT0 & <-). exists T0. split; [|done].
      rewrite lookup_insert_ne; [done|]. intros <-. rewrite Hname in Hne.
      destruct Hbase as [? HT1 | ? ? ? ? ? Et Hnone ET]; [congruence|].
      by rewrite Et, (fresh_topic s Hwf) in HT0.
Qed.
End linking.

Lemma alter_nodes_back (f : NodeRecord -> NodeRecord) k (m : gmap Z NodeRecord) i n :
  (forall n, node_id (f n) = node_id n /\ node_name (f n) = node_name n) -> alter f k m !! i = Some n ->
  exists n0, m !! i = Some n0 /\ node_id n = node_id n0 /\ node_name n = node_name n0.
Proof.
  intros Hf [(-> & n0 & Hn0 & ->) | [_ ?]]%lookup_alter_Some; [|eauto].
  exists n0. split; [done|]. apply Hf.
Qed.

Lemma alter_nodes_forth (f : NodeRecord -> NodeRecord) k (m : gmap Z NodeRecord) i n :
  (forall n, node_id (f n) = node_id n /\ node_name (f n) = node_name n) -> m !! i = Some n ->
  exists n', alter f k m !! i = Some n' /\ node_name n' = node_name n.
Proof.
  intros Hf Hi. destruct (decide (k = i)) as [->|Hne].
  - exists (f n). rewrite lookup_alter_eq, Hi. split; [done|]. apply Hf.
  - exists n. by rewrite lookup_alter_ne.
Qed.

Lemma link_publisher_wf s T next P :
  registry_wf s -> topic_base s (pe_topic_id P) T next (pe_max_message_size P) ->
  publisher_endpoint T = None -> is_Some (nodes_ s !! pe_node_id P) ->
  pe_endpoint_id P = next_endpoint_id_ s -> pe_transport P = topic_transport T ->
  0 <= pe_max_message_size P <= u32_max ->
  registry_wf (link_publisher s T next P).
Proof.
  intros Hwf Hbase Hnone [n Hn] Hid Htr Hsize.
  pose proof (base_next s Hwf T _ _ _ Hbase) as Hnext.
  set (f := fun n => n <| publisher_endpoints := {[next_endpoint_id_ s]} ∪ publisher_endpoints n |>).
  split.
  - apply (links_insert _ _ _ _ (node_pubs s) (topic_pubs s)); auto using rw_pubs, fresh_publisher.
    + intros i. unfold node_pubs. simpl. rewrite default_alter. case_decide; [|done]. subst. by rewrite Hn.
    + intros t. unfold topic_pubs at 1. simpl. rewrite default_insert. case_decide; [|done]. subst.
      rewrite (base_pubs s Hwf T _ _ _ Hbase), Hnone. simpl. set_solver.
  - apply (links_ext _ _ _ _ (node_subs s) (topic_subs s)); [| |exact (rw_subs _ Hwf)].
    + intros i. unfold node_subs. simpl. rewrite default_alter. by case_decide; [destruct (nodes_ s !! i)|].
    + intros t. unfold topic_subs at 1. simpl. rewrite default_insert. case_decide; [|done]. subst.
      by rewrite (base_subs s Hwf T _ _ _ Hbase).
  - apply (put_topic_names s Hwf T _ _ _ Hbase); simpl; try done.
    + intros i n'. by apply alter_nodes_back.
    + intros i n'. by apply alter_nodes_forth.
  - destruct (rw_topics _ Hwf) as [Hu Hp Hs Hnp Hl]. split; simpl.
    + intros t T0 [[<- <-] | [Hne Ht]]%lookup_insert_Some; [by left | eauto].
    + intros e P0 T0 [[<- <-] | [Hne He]]%lookup_insert_Some.
      * rewrite lookup_insert_eq. intros [= <-]. by split.
      * intros [[Ht <-] | [_ Ht]]%lookup_insert_Some; [|eauto].
        destruct (publisher_topic s Hwf _ _ He) as (T1 & HT1 & Hpub). rewrite <- Ht in HT1.
        destruct Hbase as [? HT | ? ? ? ? ? Et ? ET]; [congruence|].
        by rewrite Et, (fresh_topic s Hwf) in HT1.
    + intros e S0 T0 He [[Ht <-] | [_ Ht]]%lookup_insert_Some; [|eauto]. simpl.
      destruct (subscriber_topic s Hwf _ _ He) as (T1 & HT1 & _). pose proof (Hs _ _ _ He HT1).
      rewrite <- Ht in HT1. destruct Hbase as [? HT | ? ? ? ? ? Et ? ET]; [congruence|].
      by rewrite Et, (fresh_topic s Hwf) in HT1.
    + intros t T0 [[<- <-] | [Hne Ht]]%lookup_insert_Some; [done | eauto].
    + intros t T0 [[<- <-] | [Hne Ht]]%lookup_insert_Some; simpl.
      * destruct (base_limit s Hwf T _ _ _ Hbase ltac:(lia)) as (H1 & H2 & H3). split_and!; simpl.
        -- intros e P0 [[<- <-] | [_ He]]%lookup_insert_Some Hpt; [lia|]. specialize (H1 _ _ He Hpt). lia.
        -- intros e S0 He Hpt. specialize (H2 _ _ He Hpt). lia.
        -- destruct (decide (pe_max_message_size P <= topic_max_message_size T)).
           ++ left. exists (next_endpoint_id_ s), P. rewrite lookup_insert_eq. split_and!; auto. lia.
           ++ destruct H3 as [(_ & _ & [(e & P0 & He & Hpt & Hm) | (e & S0 & He & Hst & Hm)]) | Heq]; [| |lia].
              ** left. exists e, P0. rewrite lookup_insert_ne; [split_and!; auto; lia|].
                 intros <-. by rewrite (fresh_publisher s Hwf) in He.
              ** right. exists e, S0. split_and!; auto; lia.
      * destruct (Hl _ _ Ht) as (H1 & H2 & H3). split_and!; simpl; [|done|].
        -- intros e P0 [[<- <-] | [_ He]]%lookup_insert_Some Hpt; [done|]. eauto.
        -- destruct H3 as [(e & P0 & He & Hpt & Hm) | H3]; [left|by right].
           exists e, P0. rewrite lookup_insert_ne; [done|]. intros <-. by rewrite (fresh_publisher s Hwf) in He.
  - destruct (rw_endpoints _ Hwf) as [H1 H2 H3]. split; simpl; [| |lia].
    + intros e P0 [[<- <-] | [_ He]]%lookup_insert_Some; [split; [lia|done]|]. specialize (H1 _ _ He). lia.
    + intros e S0 He. specialize (H2 _ _ He). lia.
Qed.

Lemma link_subscriber_wf s T next S :
  registry_wf s -> topic_base s (se_topic_id S) T next (se_max_message_size S) ->
  is_Some (nodes_ s !! se_node_id S) -> se_endpoint_id S = next_endpoint_id_ s ->
  se_transport S = topic_transport T -> 0 <= se_max_message_size S <= u32_max ->
  registry_wf (link_subscriber s T next S).
Proof.
  intros Hwf Hbase [n Hn] Hid Htr Hsize.
  pose proof (base_next s Hwf T _ _ _ Hbase) as Hnext.
  split.
  - apply (links_ext _ _ _ _ (node_pubs s) (topic_pubs s)); [| |exact (rw_pubs _ Hwf)].
    + intros i. unfold node_pubs. simpl. rewrite default_alter. by case_decide; [destruct (nodes_ s !! i)|].
    + intros t. unfold topic_pubs at 1. simpl. rewrite default_insert. case_decide; [|done]. subst.
      by rewrite (base_pubs s Hwf T _ _ _ Hbase).
  - apply (links_insert _ _ _ _ (node_subs s) (topic_subs s)); auto using rw_subs, fresh_subscriber.
    + intros i. unfold node_subs. simpl. rewrite default_alter. case_decide; [|done]. subst. by rewrite Hn.
    + intros t. unfold topic_subs at 1. simpl. rewrite default_insert. case_decide; [|done]. subst.
      by rewrite (base_subs s Hwf T _ _ _ Hbase).
  - apply (put_topic_names s Hwf T _ _ _ Hbase); simpl; try done.
    + intros i n'. by apply alter_nodes_back.
    + intros i n'. by apply alter_nodes_forth.
  - destruct (rw_topics _ Hwf) as [Hu Hp Hs Hnp Hl]. split; simpl.
    + intros t T0 [[<- <-] | [Hne Ht]]%lookup_insert_Some; [right; set_solver | eauto].
    + intros e P0 T0 He [[Ht <-] | [_ Ht]]%lookup_insert_Some; [|eauto]. simpl.
      destruct (publisher_topic s Hwf _ _ He) as (T1 & HT1 & _). pose proof (Hp _ _ _ He HT1).
      rewrite <- Ht in HT1. destruct Hbase as [? HT | ? ? ? ? ? Et ? ET]; [congruence|].
      by rewrite Et, (fresh_topic s Hwf) in HT1.
    + intros e S0 T0 [[<- <-] | [Hne He]]%lookup_insert_Some.
      * rewrite lookup_insert_eq. by intros [= <-].
      * intros [[Ht <-] | [_ Ht]]%lookup_insert_Some; [|eauto]. simpl.
        destruct (subscriber_topic s Hwf _ _ He) as (T1 & HT1 & _). pose proof (Hs _ _ _ He HT1).
        rewrite <- Ht in HT1. destruct Hbase as [? HT | ? ? ? ? ? Et ? ET]; [congruence|].
        by rewrite Et, (fresh_topic s Hwf) in HT1.
    + intros t T0 [[<- <-] | [Hne Ht]]%lookup_insert_Some; [simpl; intros HN | eauto].
      destruct Hbase as [? HT | ? ? ? ? ? Et ? ET]; [eauto | by rewrite ET].
    + intros t T0 [[<- <-] | [Hne Ht]]%lookup_insert_Some; simpl.
      * destruct (base_limit s Hwf T _ _ _ Hbase ltac:(lia)) as (H1 & H2 & H3). split_and!; simpl.
        -- intros e P0 He Hpt. specialize (H1 _ _ He Hpt). lia.
        -- intros e S0 [[<- <-] | [_ He]]%lookup_insert_Some Hpt; [lia|]. specialize (H2 _ _ He Hpt). lia.
        -- destruct (decide (se_max_message_size S <= topic_max_message_size T)).
           ++ right. exists (next_endpoint_id_ s), S. rewrite lookup_insert_eq. split_and!; auto. lia.
           ++ destruct H3 as [(_ & _ & [(e & P0 & He & Hpt & Hm) | (e & S0 & He & Hst & Hm)]) | Heq]; [| |lia].
              ** left. exists e, P0. split_and!; auto; lia.
              ** right. exists e, S0. rewrite lookup_insert_ne; [split_and!; auto; lia|].
                 intros <-. by rewrite (fresh_subscriber s Hwf) in He.
      * destruct (Hl _ _ Ht) as (H1 & H2 & H3). split_and!; simpl; [done| |].
        -- intros e S0 [[<- <-] | [_ He]]%lookup_insert_Some Hpt; [done|]. eauto.
        -- destruct H3 as [H3 | (e & S0 & He & Hpt & Hm)]; [by left|right].
           exists e, S0. rewrite lookup_insert_ne; [done|]. intros <-. by rewrite (fresh_subscriber s Hwf) in He.
  - destruct (rw_endpoints _ Hwf) as [H1 H2 H3]. split; simpl; [| |lia].
    + intros e P0 He. specialize (H1 _ _ He). lia.
    + intros e S0 [[<- <-] | [_ He]]%lookup_insert_Some; [split; [lia|done]|]. specialize (H2 _ _ He). lia.
Qed.

(** ** Unlinking an endpoint *)

(** Topic [t] becomes [o], or disappears with its name. *)
Definition set_topic (t : Z) (name : string) (o : option TopicRecord) (s : RegistryState) : RegistryState :=
  match o with
  | Some T => s <| topics_ := <[t := T]> (topics_ s) |>
  | None => s <| topic_names_ := delete name (topic_names_ s) |> <| topics_ := delete t (topics_ s) |>
  end.

Definition unlink_publisher (s : RegistryState) (e : Z) (P : PublisherEndpoint) (name : string)
    (o : option TopicRecord) : RegistryState :=
  set_topic (pe_topic_id P) name o
    (s <| publishers_ := delete e (publishers_ s) |>
       <| nodes_ := alter (fun n => n <| publisher_endpoints := publisher_endpoints n ∖ {[e]} |>)
                      (pe_node_id P) (nodes_ s) |>).

Definition unlink_subscriber (s : RegistryState) (e : Z) (S : SubscriberEndpoint) (name : string)
    (o : option TopicRecord) : RegistryState :=
  set_topic (se_topic_id S) name o
    (s <| subscribers_ := delete e (subscribers_ s) |>
       <| nodes_ := alter (fun n => n <| node_subscriber_endpoints := node_subscriber_endpoints n ∖ {[e]} |>)
                      (se_node_id S) (nodes_ s) |>).

Lemma set_topic_names s t T o s' :
  registry_wf s -> topics_ s !! t = Some T ->
  match o with Some T' => topic_id T' = topic_id T /\ topic_name T' = topic_name T | None => True end ->
  next_node_id_ s' = next_node_id_ s -> next_topic_id_ s' = next_topic_id_ s ->
  node_names_ s' = node_names_ s -> topics_ s' = topics_ s -> topic_names_ s' = topic_names_ s ->
  (forall i n, nodes_ s' !! i = Some n -> exists n0, nodes_ s !! i = Some n0 /\
     node_id n = node_id n0 /\ node_name n = node_name n0) ->
  (forall i n, nodes_ s !! i = Some n -> exists n', nodes_ s' !! i = Some n' /\ node_name n' = node_name n) ->
  names_ok (set_topic t (topic_name T) o s').
Proof.
  intros Hwf HT Ho Hnn Hnt Hnames Htopics Htnames Hn1 Hn2.
  destruct (rw_names _ Hwf) as [Hk1 Hk2 Hk3 Hk4]. pose proof (Hk3 _ _ HT) as (Hid & Hnm & Hlt).
  split; [| | |]; destruct o as [T'|]; simpl; rewrite ?Hnn, ?Hnt, ?Hnames, ?Htopics, ?Htnames.
  1,2: intros i n Hi; destruct (Hn1 _ _ Hi) as (n0 & Hn0 & -> & ->); by apply Hk1.
  1,2: intros name i Hi; destruct (Hk2 _ _ Hi) as (n & Hn & <-); eauto.
  - destruct Ho as [Hid' Hname']. intros t' T0 [[<- <-] | [Hne Ht']]%lookup_insert_Some; [|eauto].
    by rewrite Hid', Hname'.
  - intros t' T0 [Hne Ht']%lookup_delete_Some. destruct (Hk3 _ _ Ht') as (? & Hnm' & ?). split_and!; auto; try lia.
    rewrite lookup_delete_ne; [done|]. intros Heq. congruence.
  - destruct Ho as [Hid' Hname']. intros name t' Ht'. destruct (Hk4 _ _ Ht') as (T0 & HT0 & <-).
    destruct (decide (t = t')) as [<-|Hne].
    + exists T'. rewrite lookup_insert_eq. by simplify_eq.
    + exists T0. by rewrite lookup_insert_ne.
  - intros name t' [Hne Ht']%lookup_delete_Some. destruct (Hk4 _ _ Ht') as (T0 & HT0 & <-).
    exists T0. split; [|done]. apply lookup_delete_Some. split; [|done]. intros <-. by simplify_eq.
Qed.

(** Pointwise value of the endpoint sets of topics after [set_topic]. *)
Lemma default_set_topic (f : TopicRecord -> gset Z) t name o s t' :
  default ∅ (f <$> topics_ (set_topic t name o s) !! t') =
  if decide (t' = t) then match o with Some T => f T | None => ∅ end else default ∅ (f <$> topics_ s !! t').
Proof.
  destruct o as [T|]; simpl; [apply default_insert|]. case_decide as Ht.
  - subst. by rewrite lookup_delete_eq.
  - by rewrite lookup_delete_ne.
Qed.

Lemma set_topic_lookup t name o s t' T' : topics_ (set_topic t name o s) !! t' = Some T' ->
  (t' = t /\ o = Some T') \/ (t' <> t /\ topics_ s !! t' = Some T').
Proof.
  destruct o as [T|]; simpl.
  - intros [[<- <-] | [? ?]]%lookup_insert_Some; [by left | right; by split].
  - intros [? ?]%lookup_delete_Some. right. by split.
Qed.

Lemma set_topic_frame t name o s :
  publishers_ (set_topic t name o s) = publishers_ s /\ subscribers_ (set_topic t name o s) = subscribers_ s /\
  nodes_ (set_topic t name o s) = nodes_ s /\
  next_node_id_ (set_topic t name o s) = next_node_id_ s /\
  next_topic_id_ (set_topic t name o s) = next_topic_id_ s /\
  next_endpoint_id_ (set_topic t name o s) = next_endpoint_id_ s.
Proof. by destruct o. Qed.

(** What [unadvertise] leaves of a topic: nothing, or the topic without publisher and with
    the limit of its subscribers. *)
Definition without_publisher (s : RegistryState) (e : Z) (T : TopicRecord) (t : Z) (o : option TopicRecord) : Prop :=
  match o with
  | None => topic_subscriber_endpoints T = ∅
  | Some T' => topic_subscriber_endpoints T <> ∅ /\ exists m,
      T' = T <| publisher_endpoint := None |> <| topic_pool := empty_pool_metadata |>
             <| topic_max_message_size := m |> /\
      is_limit (s <| publishers_ := delete e (publishers_ s) |>) t m
  end.

Definition without_subscriber (s : RegistryState) (e : Z) (T : TopicRecord) (t : Z) (o : option TopicRecord) : Prop :=
  match o with
  | None => publisher_endpoint T = None /\ topic_subscriber_endpoints T ∖ {[e]} = ∅
  | Some T' => (is_Some (publisher_endpoint T) \/ topic_subscriber_endpoints T ∖ {[e]} <> ∅) /\ exists m,
      T' = T <| topic_subscriber_endpoints := topic_subscriber_endpoints T ∖ {[e]} |>
             <| topic_max_message_size := m |> /\
      is_limit (s <| subscribers_ := delete e (subscribers_ s) |>) t m
  end.

Lemma unlink_publisher_wf s e P T o :
  registry_wf s -> publishers_ s !! e = Some P -> topics_ s !! pe_topic_id P = Some T ->
  without_publisher s e T (pe_topic_id P) o ->
  registry_wf (unlink_publisher s e P (topic_name T) o).
Proof.
  intros Hwf He HT Ho. unfold unlink_publisher. set (t := pe_topic_id P) in *.
  destruct (set_topic_frame t (topic_name T) o (s <| publishers_ := delete e (publishers_ s) |>
    <| nodes_ := alter (fun n => n <| publisher_endpoints := publisher_endpoints n ∖ {[e]} |>)
                   (pe_node_id P) (nodes_ s) |>)) as (Fp & Fs & Fn & F1 & F2 & F3).
  destruct (publisher_topic s Hwf _ _ He) as (T1 & HT1 & Hpub). fold t in HT1. simplify_eq.
  assert (Hother : forall e' P', publishers_ s !! e' = Some P' -> pe_topic_id P' = t -> e' = e).
  { intros e' P' He' Ht'. destruct (publisher_topic s Hwf _ _ He') as (T1 & HT2 & Hpub').
    rewrite Ht' in HT2. congruence. }
  split.
  - rewrite Fp. eapply links_delete; [exact (rw_pubs _ Hwf) | exact He | |].
    + intros i. unfold node_pubs. rewrite Fn. simpl. rewrite default_alter.
      case_decide; [|done]. by destruct (nodes_ s !! i); [|set_solver].
    + intros t'. unfold topic_pubs at 1. rewrite default_set_topic. fold t. case_decide; [|done]. subst t'.
      unfold topic_pubs. rewrite HT. simpl. rewrite Hpub. simpl. destruct o as [T'|]; [|set_solver].
      destruct Ho as (_ & m & -> & _). simpl. set_solver.
  - rewrite Fs. eapply links_ext; [| |exact (rw_subs _ Hwf)].
    + intros i. unfold node_subs. rewrite Fn. simpl. rewrite default_alter.
      by case_decide; [destruct (nodes_ s !! i)|].
    + intros t'. unfold topic_subs at 1. rewrite default_set_topic. case_decide; [|done]. subst t'.
      unfold topic_subs. rewrite HT. simpl. destruct o as [T'|]; [|by rewrite Ho].
      by destruct Ho as (_ & m & -> & _).
  - apply (set_topic_names s); auto.
    + destruct o as [T'|]; [|done]. by destruct Ho as (_ & m & -> & _).
    + intros i n'. by apply alter_nodes_back.
    + intros i n'. by apply alter_nodes_forth.
  - destruct (rw_topics _ Hwf) as [Hu Hp Hs Hnp Hl]. split; rewrite ?Fp, ?Fs; simpl.
    + intros t' T0 [[-> ->] | [Hne Ht']]%set_topic_lookup; [|eauto]. destruct Ho as (? & m & -> & _). by right.
    + intros e' P0 T0 [Hne He']%lookup_delete_Some [[Ht' ->] | [_ Ht']]%set_topic_lookup; [|eauto].
      by destruct Hne; symmetry; eapply Hother.
    + intros e' S0 T0 He' [[Ht' ->] | [_ Ht']]%set_topic_lookup; [|eauto].
      destruct Ho as (_ & m & -> & _). simpl. rewrite <- Ht' in HT. eauto.
    + intros t' T0 [[-> ->] | [Hne Ht']]%set_topic_lookup; [|eauto]. by destruct Ho as (_ & m & -> & _).
    + intros t' T0 [[-> ->] | [Hne Ht']]%set_topic_lookup.
      * destruct Ho as (_ & m & -> & Hlim). unfold is_limit in *. rewrite Fp, Fs. simpl in *. exact Hlim.
      * simpl in Ht'. destruct (Hl _ _ Ht') as (H1 & H2 & H3). unfold is_limit. rewrite Fp, Fs. simpl. split_and!.
        -- intros e' P0 [_ He']%lookup_delete_Some. eauto.
        -- eauto.
        -- destruct H3 as [(e' & P0 & He' & Hpt & Hm) | H3]; [left|by right]. exists e', P0.
           rewrite lookup_delete_ne; [done|]. intros <-. by simplify_eq.
  - destruct (rw_endpoints _ Hwf) as [H1 H2 H3]. split; rewrite ?Fp, ?Fs, ?F1, ?F2, ?F3; simpl; auto.
    intros e' P0 [_ He']%lookup_delete_Some. eauto.
Qed.

Lemma unlink_subscriber_wf s e S T o :
  registry_wf s -> subscribers_ s !! e = Some S -> topics_ s !! se_topic_id S = Some T ->
  without_subscriber s e T (se_topic_id S) o ->
  registry_wf (unlink_subscriber s e S (topic_name T) o).
Proof.
  intros Hwf He HT Ho. unfold unlink_subscriber. set (t := se_topic_id S) in *.
  destruct (set_topic_frame t (topic_name T) o (s <| subscribers_ := delete e (subscribers_ s) |>
    <| nodes_ := alter (fun n => n <| node_subscriber_endpoints := node_subscriber_endpoints n ∖ {[e]} |>)
                   (se_node_id S) (nodes_ s) |>)) as (Fp & Fs & Fn & F1 & F2 & F3).
  split.
  - rewrite Fp. eapply links_ext; [| |exact (rw_pubs _ Hwf)].
    + intros i. unfold node_pubs. rewrite Fn. simpl. rewrite default_alter.
      by case_decide; [destruct (nodes_ s !! i)|].
    + intros t'. unfold topic_pubs at 1. rewrite default_set_topic. case_decide; [|done]. subst t'.
      unfold topic_pubs. rewrite HT. simpl. destruct o as [T'|]; [|by destruct Ho as [-> _]].
      by destruct Ho as (_ & m & -> & _).
  - rewrite Fs. eapply links_delete; [exact (rw_subs _ Hwf) | exact He | |].
    + intros i. unfold node_subs. rewrite Fn. simpl. rewrite default_alter.
      case_decide; [|done]. by destruct (nodes_ s !! i); [|set_solver].
    + intros t'. unfold topic_subs at 1. rewrite default_set_topic. fold t. case_decide; [|done]. subst t'.
      unfold topic_subs. rewrite HT. simpl. destruct o as [T'|]; [|by destruct Ho as [_ ->]].
      by destruct Ho as (_ & m & -> & _).
  - apply (set_topic_names s); auto.
    + destruct o as [T'|]; [|done]. by destruct Ho as (_ & m & -> & _).
    + intros i n'. by apply alter_nodes_back.
    + intros i n'. by apply alter_nodes_forth.
  - destruct (rw_topics _ Hwf) as [Hu Hp Hs Hnp Hl]. split; rewrite ?Fp, ?Fs; simpl.
    + intros t' T0 [[-> ->] | [Hne Ht']]%set_topic_lookup; [|eauto]. by destruct Ho as (? & m & -> & _).
    + intros e' P0 T0 He' [[Ht' ->] | [_ Ht']]%set_topic_lookup; [|eauto].
      destruct Ho as (_ & m & -> & _). simpl. rewrite <- Ht' in HT. eauto.
    + intros e' S0 T0 [Hne He']%lookup_delete_Some [[Ht' ->] | [_ Ht']]%set_topic_lookup; [|eauto].
      destruct Ho as (_ & m & -> & _). simpl. rewrite <- Ht' in HT. eauto.
    + intros t' T0 [[-> ->] | [Hne Ht']]%set_topic_lookup; [|eauto].
      destruct Ho as (_ & m & -> & _). simpl. eauto.
    + intros t' T0 [[-> ->] | [Hne Ht']]%set_topic_lookup.
      * destruct Ho as (_ & m & -> & Hlim). unfold is_limit in *. rewrite Fp, Fs. simpl in *. exact Hlim.
      * simpl in Ht'. destruct (Hl _ _ Ht') as (H1 & H2 & H3). unfold is_limit. rewrite Fp, Fs. simpl. split_and!.
        -- eauto.
        -- intros e' S0 [_ He']%lookup_delete_Some. eauto.
        -- destruct H3 as [H3 | (e' & S0 & He' & Hpt & Hm)]; [by left|right]. exists e', S0.
           rewrite lookup_delete_ne; [done|]. intros <-. by simplify_eq.
  - destruct (rw_endpoints _ Hwf) as [H1 H2 H3]. split; rewrite ?Fp, ?Fs, ?F1, ?F2, ?F3; simpl; auto.
    intros e' S0 [_ He']%lookup_delete_Some. eauto.
Qed.
