(* ===== verification/RegistryOps.v ===== *)
(** * Registry operations

    What each method of [RegistryState] does to a registry that satisfies the invariant:
    advertising and subscribing link an endpoint, their inverses unlink it, and a node that
    leaves takes every trace of its endpoints with it. *)

From Stdlib Require Import ZArith Lia Bool String.
From stdpp Require Import base gmap list strings option sorting.
From S2P Require Import Prelude Types Outcome RegistryState RegistryInvariant.

Local Open Scope Z_scope.

(** ** Reading *)

Lemma topics_at_runs s t T : topics_ s !! t = Some T -> runs (topics_at t) s T s.
Proof. intros HT. unfold runs, topics_at. unfold_cpp. by rewrite HT. Qed.
Lemma publishers_at_runs s e P : publishers_ s !! e = Some P -> runs (publishers_at e) s P s.
Proof. intros He. unfold runs, publishers_at. unfold_cpp. by rewrite He. Qed.
Lemma subscribers_at_runs s e S : subscribers_ s !! e = Some S -> runs (subscribers_at e) s S s.
Proof. intros He. unfold runs, subscribers_at. unfold_cpp. by rewrite He. Qed.

Lemma modify_topic_runs s t T f : topics_ s !! t = Some T ->
  runs (modify_topic t f) s tt (s <| topics_ := <[t := f T]> (topics_ s) |>).
Proof. intros HT. eapply runs_bind; [by apply topics_at_runs | done]. Qed.

Lemma emplace_new {K A} `{Countable K} (k : K) (a : A) (m : gmap K A) :
  m !! k = None -> emplace k a m = <[k := a]> m.
Proof. unfold emplace. by intros ->. Qed.

(** The node a connection owns. *)
Definition owner (s : RegistryState) (connection id : Z) (n : NodeRecord) : Prop :=
  nodes_ s !! id = Some n /\ control_connection n = connection.

Lemma owned_runs s connection id n : owner s connection id n -> runs (ownedNode connection id) s (Some n) s.
Proof. intros [Hn Hc]. unfold runs, ownedNode. unfold_cpp. by rewrite Hn, Hc, Z.eqb_refl. Qed.

Lemma not_owned_runs s connection id :
  (forall n, ~ owner s connection id n) -> runs (ownedNode connection id) s None s.
Proof.
  intros Hno. unfold runs, ownedNode. unfold_cpp. destruct (nodes_ s !! id) as [n|] eqn:Hn; [|done].
  destruct (Z.eqb_spec (control_connection n) connection); [|done]. by destruct (Hno n).
Qed.

Lemma owner_dec s connection id :
  (exists n, owner s connection id n) \/ (forall n, ~ owner s connection id n).
Proof.
  unfold owner. destruct (nodes_ s !! id) as [n|]; [|right; by intros n [? _]].
  destruct (decide (control_connection n = connection)); [left; eauto | right].
  intros n' [[= ->] ?]. done.
Qed.

(** ** Changes of node records that keep names and endpoints *)

Definition node_shape (n : NodeRecord) := (node_id n, node_name n, publisher_endpoints n, node_subscriber_endpoints n).

Lemma default_shape (f : NodeRecord -> gset Z) (m m' : gmap Z NodeRecord) i :
  (forall n n', node_shape n = node_shape n' -> f n = f n') ->
  node_shape <$> m' !! i = node_shape <$> m !! i -> default ∅ (f <$> m' !! i) = default ∅ (f <$> m !! i).
Proof. intros Hf. destruct (m !! i), (m' !! i); simpl; intros [=]; auto. apply Hf. unfold node_shape. congruence. Qed.

Lemma shape_lookup (m m' : gmap Z NodeRecord) i n :
  node_shape <$> m' !! i = node_shape <$> m !! i -> m' !! i = Some n ->
  exists n0, m !! i = Some n0 /\ node_id n = node_id n0 /\ node_name n = node_name n0.
Proof. intros Heq Hi. rewrite Hi in Heq. destruct (m !! i); simpl in Heq; simplify_eq. eauto. Qed.

Lemma registry_wf_nodes s nodes metrics :
  registry_wf s -> (forall i, node_shape <$> nodes !! i = node_shape <$> nodes_ s !! i) ->
  registry_wf (s <| nodes_ := nodes |> <| metrics_ := metrics |>).
Proof.
  intros [Hp Hs [Hn1 Hn2 Hn3 Hn4] Ht [He1 He2 He3]] Hshape. split.
  - eapply links_ext; [| |exact Hp]; [|done]. intros i. apply default_shape; [|apply Hshape].
    unfold node_shape. by intros ? ? [=].
  - eapply links_ext; [| |exact Hs]; [|done]. intros i. apply default_shape; [|apply Hshape].
    unfold node_shape. by intros ? ? [=].
  - split; simpl; auto.
    + intros i n Hi. destruct (shape_lookup (nodes_ s) nodes i n) as (n0 & Hn0 & -> & ->); auto.
    + intros name i Hi. destruct (Hn2 _ _ Hi) as (n & Hn & Hname).
      destruct (shape_lookup nodes (nodes_ s) i n) as (n0 & Hn0 & _ & Hname0); auto.
      exists n0. split; [done|]. congruence.
  - destruct Ht. split; auto.
  - by split.
Qed.

Lemma alter_shape f i (m : gmap Z NodeRecord) j :
  (forall n, node_shape (f n) = node_shape n) -> node_shape <$> alter f i m !! j = node_shape <$> m !! j.
Proof.
  intros Hf. destruct (decide (i = j)) as [->|?]; [|by rewrite lookup_alter_ne].
  rewrite lookup_alter_eq. destruct (m !! j); simpl; [by rewrite Hf | done].
Qed.

(** ** Linking *)

(** A topic named [name] an endpoint may join: the existing one when it agrees on type and
    transport, or a new one. *)
Inductive joins (s : RegistryState) (name type hash : string) (transport : TransportType) (x : Z)
    : Z -> TopicRecord -> Z -> Prop :=
  | joins_existing t T : topic_names_ s !! name = Some t -> topics_ s !! t = Some T ->
      type_name T = type -> type_hash T = hash -> topic_transport T = transport ->
      joins s name type hash transport x t T (next_topic_id_ s)
  | joins_new : topic_names_ s !! name = None ->
      joins s name type hash transport x (next_topic_id_ s)
        (mkTopicRecord (next_topic_id_ s) name type hash transport x None ∅ empty_pool_metadata)
        (next_topic_id_ s + 1).

Section joining.
Context (s : RegistryState) (Hwf : registry_wf s) (Hleft : ids_left s 1).
Context (name type hash : string) (transport : TransportType) (x t : Z) (T : TopicRecord) (next : Z).
Hypothesis Hjoin : joins s name type hash transport x t T next.

Lemma joins_base : topic_base s t T next x /\ topic_transport T = transport /\ topic_name T = name.
Proof.
  destruct Hjoin as [t' T' Hname HT Hty Hh Htr | Hname].
  - split; [by constructor|]. split; [done|].
    destruct (nk_topic_names _ (rw_names _ Hwf) _ _ Hname) as (T0 & ? & ?). by simplify_eq.
  - split; [|done]. by econstructor.
Qed.

Lemma joins_check publishing : (publishing = true -> publisher_endpoint T = None) ->
  runs (check_topic name type hash transport publishing) s None s.
Proof.
  intros Hpub. unfold runs, check_topic. unfold_cpp.
  destruct Hjoin as [t' T' Hname HT Hty Hh Htr | Hname]; rewrite Hname; [|done].
  unfold topics_at. unfold_cpp. rewrite HT, Hty, Hh, Htr. rewrite !bool_decide_true by done. simpl.
  destruct publishing; simpl; [|done]. by rewrite Hpub, bool_decide_false by (done || by intros [? ?]).
Qed.

Lemma joins_find : runs (findOrCreateTopic name type hash x transport) s t (put_topic t T next s).
Proof.
  unfold runs, findOrCreateTopic. unfold_cpp. pose proof joins_base as (_ & _ & Hnm).
  destruct Hjoin as [t' T' Hname HT Hty Hh Htr | Hname]; rewrite Hname.
  - unfold topics_at. unfold_cpp. rewrite HT. f_equal. unfold put_topic. rewrite Hnm, !insert_id by done.
    by destruct s.
  - unfold topics_at. unfold_cpp. simpl. rewrite (emplace_new (next_topic_id_ s)) by by apply fresh_topic.
    rewrite lookup_insert_eq. f_equal. unfold put_topic. simpl. rewrite emplace_new by done.
    rewrite wrap_small; [done|]. pose proof (ek_next _ (rw_endpoints _ Hwf)). destruct Hleft as (? & ? & ?). ulia.
Qed.
End joining.

(** The arguments [advertise] and [subscribe] accept. *)
Definition advertisable (name type hash : string) (x : Z) (transport : TransportType) (pool : SharedPoolMetadata)
    : bool :=
  negb (empty name || empty type || empty hash || (u32_max <? x) || negb (validTransport transport) ||
        negb (validPoolMetadata transport pool)).
Definition subscribable (name type hash : string) (x : Z) (path : string) (transport : TransportType)
    (queue : SharedQueueMetadata) : bool :=
  negb (empty name || empty type || empty hash || empty path || (u32_max <? x) || negb (validTransport transport) ||
        negb (validQueueMetadata transport queue)).

Lemma put_topic_lookup t T next s : topics_ (put_topic t T next s) !! t = Some T.
Proof. apply lookup_insert_eq. Qed.

Lemma advertise_runs s connection id n name type hash x transport pool t T next :
  registry_wf s -> ids_left s 1 -> owner s connection id n ->
  advertisable name type hash x transport pool = true -> joins s name type hash transport x t T next ->
  publisher_endpoint T = None ->
  let P := mkPublisherEndpoint (next_endpoint_id_ s) id t x transport pool in
  runs (advertise connection id name type hash x transport pool) s
    (mkEndpointResult Ok t (next_endpoint_id_ s) pool) (link_publisher s T next P).
Proof.
  intros Hwf Hleft Hown Hargs Hjoin Hnone P. eapply runs_bind; [by apply owned_runs|].
  cbv beta iota. apply negb_true_iff in Hargs. rewrite Hargs.
  eapply runs_bind; [by eapply joins_check|]. eapply runs_bind; [by eapply joins_find|].
  eapply runs_bind; [done|]. cbv beta zeta. eapply runs_bind; [done|].
  eapply runs_bind; [apply modify_topic_runs, put_topic_lookup|].
  unfold runs. unfold_cpp. f_equal. unfold link_publisher, put_topic, modify_node. simpl.
  rewrite insert_insert_eq, emplace_new by by apply fresh_publisher.
  rewrite wrap_small; [done|]. pose proof (ek_next _ (rw_endpoints _ Hwf)). destruct Hleft as (? & ? & ?). ulia.
Qed.

Lemma subscribe_runs s connection id n name type hash x path transport queue t T next :
  registry_wf s -> ids_left s 1 -> owner s connection id n ->
  subscribable name type hash x path transport queue = true -> joins s name type hash transport x t T next ->
  let S := mkSubscriberEndpoint (next_endpoint_id_ s) id t path x transport queue in
  runs (subscribe connection id name type hash x path transport queue) s
    (mkEndpointResult Ok t (next_endpoint_id_ s) (topic_pool T)) (link_subscriber s T next S).
Proof.
  intros Hwf Hleft Hown Hargs Hjoin S. eapply runs_bind; [by apply owned_runs|].
  cbv beta iota. apply negb_true_iff in Hargs. rewrite Hargs.
  eapply runs_bind; [by eapply joins_check|]. eapply runs_bind; [by eapply joins_find|].
  eapply runs_bind; [done|]. cbv beta zeta. eapply runs_bind; [done|].
  eapply runs_bind; [apply modify_topic_runs, put_topic_lookup|]. eapply runs_bind; [done|].
  eapply runs_bind; [apply topics_at_runs; apply lookup_insert_eq|].
  unfold runs. unfold_cpp. f_equal. unfold link_subscriber, put_topic. simpl.
  rewrite insert_insert_eq, emplace_new by by apply fresh_subscriber.
  rewrite wrap_small; [done|]. pose proof (ek_next _ (rw_endpoints _ Hwf)). destruct Hleft as (? & ? & ?). ulia.
Qed.

(** Whether a topic name can be joined, or why not. *)
Definition refusal (s : RegistryState) (name type hash : string) (transport : TransportType) (publishing : bool)
    : option (ErrorCode * Z) :=
  match topic_names_ s !! name ≫= (fun t => topics_ s !! t) with
  | None => None
  | Some T =>
      if bool_decide (type_name T = type /\ type_hash T = hash) then
        if bool_decide (topic_transport T = transport) then
          if publishing && bool_decide (is_Some (publisher_endpoint T))
          then Some (DuplicatePublisher, topic_id T) else None
        else Some (TransportMismatch, topic_id T)
      else Some (TypeMismatch, topic_id T)
  end.

Lemma refusal_runs s name type hash transport publishing : registry_wf s ->
  runs (check_topic name type hash transport publishing) s
    ((fun r => mkEndpointResult r.1 r.2 0 empty_pool_metadata) <$> refusal s name type hash transport publishing) s.
Proof.
  intros Hwf. unfold runs, check_topic, refusal. unfold_cpp.
  destruct (topic_names_ s !! name) as [t|] eqn:Hname; [|done].
  destruct (nk_topic_names _ (rw_names _ Hwf) _ _ Hname) as (T & HT & _).
  unfold topics_at. unfold_cpp. simpl. rewrite HT.
  rewrite bool_decide_and. destruct (bool_decide (type_name T = type)); simpl; [|done].
  destruct (bool_decide (type_hash T = hash)); simpl; [|done].
  destruct (bool_decide (topic_transport T = transport)); simpl; [|done].
  by destruct (publishing && _).
Qed.

Lemma refusal_joins s name type hash transport publishing x :
  registry_wf s -> refusal s name type hash transport publishing = None ->
  exists t T next, joins s name type hash transport x t T next /\ (publishing = true -> publisher_endpoint T = None).
Proof.
  intros Hwf. unfold refusal. destruct (topic_names_ s !! name) as [t|] eqn:Hname; simpl.
  - destruct (nk_topic_names _ (rw_names _ Hwf) _ _ Hname) as (T & HT & _). rewrite HT.
    repeat case_bool_decide; try done; simpl. all: destruct_and?; subst.
    all: destruct publishing; simpl in *; try done; case_bool_decide || idtac; try done.
    all: intros _; exists t, T, (next_topic_id_ s); (split; [by constructor|]); intros; try done.
    all: destruct (publisher_endpoint T); [|done]; exfalso; eauto.
  - intros _. eexists _, _, _. split; [by apply joins_new | done].
Qed.

(** ** Unlinking *)

Lemma min_subscriber_size_runs s endpoints maximum :
  (forall e, e ∈ endpoints -> is_Some (subscribers_ s !! e)) ->
  exists m, runs (min_subscriber_size endpoints maximum) s m s /\ m <= maximum /\
    (forall e S, e ∈ endpoints -> subscribers_ s !! e = Some S -> m <= se_max_message_size S) /\
    (m = maximum \/ exists e S, e ∈ endpoints /\ subscribers_ s !! e = Some S /\ m = se_max_message_size S).
Proof.
  revert maximum. induction endpoints as [|e endpoints IH]; intros maximum Hall; simpl.
  - exists maximum. split_and!; [done | lia | set_solver | by left].
  - destruct (Hall e) as [S HS]; [set_solver|].
    destruct (IH (Z.min maximum (se_max_message_size S))) as (m & Hrun & Hle & Hmin & Hatt); [set_solver|].
    exists m. split_and!.
    + eapply runs_bind; [by apply subscribers_at_runs | done].
    + lia.
    + intros e' S' [->|He']%elem_of_cons HS'; [simplify_eq; lia | eauto].
    + destruct Hatt as [->|(e' & S' & ? & ? & ?)]; [|right; exists e', S'; set_solver].
      destruct (decide (se_max_message_size S <= maximum)); [right; exists e, S; set_solver by lia | left; lia].
Qed.

(** The endpoints of topic [t] are those its record [T] names. *)
Definition names_endpoints (s : RegistryState) (t : Z) (T : TopicRecord) : Prop :=
  (forall e P, publishers_ s !! e = Some P -> (pe_topic_id P = t <-> publisher_endpoint T = Some e)) /\
  (forall e S, subscribers_ s !! e = Some S -> (se_topic_id S = t <-> e ∈ topic_subscriber_endpoints T)) /\
  (forall e, publisher_endpoint T = Some e -> is_Some (publishers_ s !! e)) /\
  (forall e, e ∈ topic_subscriber_endpoints T -> is_Some (subscribers_ s !! e)) /\
  (forall e P, publishers_ s !! e = Some P -> pe_max_message_size P <= u32_max) /\
  (forall e S, subscribers_ s !! e = Some S -> se_max_message_size S <= u32_max).

(** [recomputeTopicMaxMessageSize] sets the limit to the least of the endpoints'. *)
Lemma recompute_runs s t T :
  topics_ s !! t = Some T -> names_endpoints s t T ->
  (is_Some (publisher_endpoint T) \/ topic_subscriber_endpoints T <> ∅) ->
  exists m, is_limit s t m /\ runs (recomputeTopicMaxMessageSize t) s tt
    (s <| topics_ := <[t := T <| topic_max_message_size := m |>]> (topics_ s) |>).
Proof.
  intros HT (Hp & Hs & Hpd & Hsd & Hpm & Hsm) Hused.
  set (start := match publisher_endpoint T with
                | Some e => match publishers_ s !! e with Some P => pe_max_message_size P | None => 0 end
                | None => size_max end).
  destruct (min_subscriber_size_runs s (set_elements (topic_subscriber_endpoints T)) start)
    as (m & Hrun & Hle & Hmin & Hatt); [intros e; rewrite elem_of_set_elements; auto|].
  exists m. split.
  - split_and!.
    + intros e P He Ht. apply (Hp _ _ He) in Ht. unfold start in Hle. by rewrite Ht, He in Hle.
    + intros e S He Ht. apply (Hs _ _ He) in Ht. apply (Hmin e); [by rewrite elem_of_set_elements | done].
    + destruct Hatt as [Heq | (e & S & Hin & He & Heq)].
      2: { right. exists e, S. rewrite elem_of_set_elements in Hin. split_and!; [done | by apply (Hs e) | done]. }
      destruct (publisher_endpoint T) as [e|] eqn:Hpe.
      * destruct (Hpd e) as [P He]; [done|]. left. exists e, P. unfold start in Heq. rewrite He in Heq.
        split_and!; [done | by apply (Hp e) | done].
      * destruct Hused as [[? ?]|Hne]; [done|]. apply set_choose_L in Hne as [e Hin].
        destruct (Hsd e Hin) as [S He]. specialize (Hmin e S ltac:(by rewrite elem_of_set_elements) He).
        specialize (Hsm _ _ He). unfold start in Heq. ulia.
  - eapply runs_bind; [by apply topics_at_runs|]. eapply (runs_bind _ _ _ start).
    { unfold start. destruct (publisher_endpoint T) as [e|]; [|done]. destruct (Hpd e) as [P He]; [done|].
      eapply runs_bind; [by apply publishers_at_runs|]. rewrite He. specialize (Hpm _ _ He).
      unfold runs. unfold_cpp. do 2 f_equal. ulia. }
    cbv zeta. eapply runs_bind; [exact Hrun|].
    rewrite (proj2 (orb_true_iff _ _)); [by apply modify_topic_runs|].
    destruct Hused as [H|H]; [left; by rewrite bool_decide_true | right]. apply bool_decide_eq_true.
    by rewrite set_elements_nil.
Qed.

(** Without endpoints it leaves the topic alone. *)
Lemma recompute_unused s t T :
  topics_ s !! t = Some T -> publisher_endpoint T = None -> topic_subscriber_endpoints T = ∅ ->
  runs (recomputeTopicMaxMessageSize t) s tt s.
Proof.
  intros HT Hp Hs. eapply runs_bind; [by apply topics_at_runs|]. rewrite Hp, Hs. eapply runs_bind; [done|].
  cbv zeta. eapply runs_bind; [done|].
  rewrite bool_decide_false by (by intros [? ?]). rewrite bool_decide_false; [done|].
  intros H. by apply H.
Qed.

Lemma erase_runs s t T : topics_ s !! t = Some T ->
  runs (eraseTopicIfEmpty t) s tt
    (if bool_decide (is_Some (publisher_endpoint T)) || bool_decide (topic_subscriber_endpoints T <> ∅)
     then s else set_topic t (topic_name T) None s).
Proof. intros HT. unfold runs, eraseTopicIfEmpty. unfold_cpp. rewrite HT. by case_match. Qed.

(** The tail both unlinking methods share: [T] is topic [t] with the endpoint taken out. *)
Lemma settle_topic s t T :
  topics_ s !! t = Some T -> names_endpoints s t T ->
  exists o, runs (recomputeTopicMaxMessageSize t;; eraseTopicIfEmpty t;; mret Ok) s Ok (set_topic t (topic_name T) o s) /\
    match o with
    | None => publisher_endpoint T = None /\ topic_subscriber_endpoints T = ∅
    | Some T' => (is_Some (publisher_endpoint T) \/ topic_subscriber_endpoints T <> ∅) /\
                 exists m, T' = T <| topic_max_message_size := m |> /\ is_limit s t m
    end.
Proof.
  intros HT Hne.
  destruct (decide (is_Some (publisher_endpoint T) \/ topic_subscriber_endpoints T <> ∅)) as [Hused|Hunused].
  - destruct (recompute_runs s t T HT Hne Hused) as (m & Hlim & Hrun).
    exists (Some (T <| topic_max_message_size := m |>)). split; [|eauto].
    eapply runs_bind; [exact Hrun|]. eapply runs_bind; [apply erase_runs; apply lookup_insert_eq|]. simpl.
    rewrite (proj2 (orb_true_iff _ _)); [done|].
    destruct Hused; [left | right]; by apply bool_decide_eq_true.
  - assert (Hp : publisher_endpoint T = None) by (destruct (publisher_endpoint T); [exfalso; eauto | done]).
    assert (Hs : topic_subscriber_endpoints T = ∅) by (apply dec_stable; eauto).
    exists None. split; [|done]. eapply runs_bind; [by eapply recompute_unused|].
    eapply runs_bind; [by apply erase_runs|]. rewrite !bool_decide_false; [done | by intros H | by rewrite Hp; intros [? ?]].
Qed.

Lemma unadvertise_runs s connection id n e P :
  registry_wf s -> owner s connection id n -> publishers_ s !! e = Some P -> pe_node_id P = id ->
  exists T o, topics_ s !! pe_topic_id P = Some T /\ without_publisher s e T (pe_topic_id P) o /\
    runs (unadvertise connection id e) s Ok (unlink_publisher s e P (topic_name T) o).
Proof.
  intros Hwf Hown He Hid. destruct (publisher_topic s Hwf _ _ He) as (T & HT & Hpub).
  set (t := pe_topic_id P) in *.
  set (T1 := T <| publisher_endpoint := None |> <| topic_pool := empty_pool_metadata |>).
  set (s1 := s <| publishers_ := delete e (publishers_ s) |>
               <| nodes_ := alter (fun n => n <| publisher_endpoints := publisher_endpoints n ∖ {[e]} |>) id (nodes_ s) |>
               <| topics_ := <[t := T1]> (topics_ s) |>).
  assert (HT1 : topics_ s1 !! t = Some T1) by apply lookup_insert_eq.
  destruct (settle_topic s1 t T1 HT1) as (o & Hrun & Ho).
  { destruct (rw_endpoints _ Hwf) as [E1 E2 _]. split_and!; simpl.
    - intros e' P' [Hne He']%lookup_delete_Some. split; [|done]. intros Ht.
      destruct (publisher_topic s Hwf _ _ He') as (T2 & HT2 & ?). rewrite Ht in HT2. congruence.
    - intros e' S He'. destruct (subscriber_topic s Hwf _ _ He') as (T2 & HT2 & ?). split.
      + intros Ht. rewrite Ht in HT2. by simplify_eq.
      + intros Hin. destruct (topic_subscriber s Hwf _ _ _ HT Hin) as (S' & ? & ?). by simplify_eq.
    - done.
    - intros e' Hin. destruct (topic_subscriber s Hwf _ _ _ HT Hin) as (S' & ? & ?). eauto.
    - intros e' P' [_ He']%lookup_delete_Some. apply (E1 _ _ He').
    - intros e' S He'. apply (E2 _ _ He'). }
  exists T, o. split_and!; [done| |].
  - destruct o as [T'|]; [|by destruct Ho]. destruct Ho as ([[? ?]|Hne] & m & -> & Hlim); [done|].
    split; [done|]. by exists m.
  - eapply runs_bind; [by apply owned_runs|]. eapply runs_bind; [done|]. cbv beta iota. rewrite He, Hid, Z.eqb_refl.
    cbv zeta. simpl negb. cbv iota. eapply runs_bind; [done|]. eapply runs_bind; [done|].
    eapply runs_bind; [by apply modify_topic_runs|].
    eapply runs_bind; [apply modify_topic_runs; apply lookup_insert_eq|].
    unfold runs in Hrun |- *. simpl. rewrite insert_insert_eq.
    etrans; [exact Hrun|]. f_equal. unfold unlink_publisher, set_topic, s1. fold t. rewrite Hid.
    destruct o as [T'|]; simpl; [by rewrite insert_insert_eq | by rewrite delete_insert_eq].
Qed.

Lemma unsubscribe_runs s connection id n e S :
  registry_wf s -> owner s connection id n -> subscribers_ s !! e = Some S -> se_node_id S = id ->
  exists T o, topics_ s !! se_topic_id S = Some T /\ without_subscriber s e T (se_topic_id S) o /\
    runs (unsubscribe connection id e) s Ok (unlink_subscriber s e S (topic_name T) o).
Proof.
  intros Hwf Hown He Hid. destruct (subscriber_topic s Hwf _ _ He) as (T & HT & Hsub).
  set (t := se_topic_id S) in *.
  set (T1 := T <| topic_subscriber_endpoints := topic_subscriber_endpoints T ∖ {[e]} |>).
  set (s1 := s <| subscribers_ := delete e (subscribers_ s) |>
               <| nodes_ := alter (fun n => n <| node_subscriber_endpoints := node_subscriber_endpoints n ∖ {[e]} |>)
                              id (nodes_ s) |>
               <| topics_ := <[t := T1]> (topics_ s) |>).
  assert (HT1 : topics_ s1 !! t = Some T1) by apply lookup_insert_eq.
  destruct (settle_topic s1 t T1 HT1) as (o & Hrun & Ho).
  { destruct (rw_endpoints _ Hwf) as [E1 E2 _]. split_and!; simpl.
    - intros e' P He'. destruct (publisher_topic s Hwf _ _ He') as (T2 & HT2 & ?). split.
      + intros Ht. rewrite Ht in HT2. by simplify_eq.
      + intros Hp. destruct (topic_publisher s Hwf _ _ _ HT Hp) as (P' & ? & ?). by simplify_eq.
    - intros e' S' [Hne He']%lookup_delete_Some.
      destruct (subscriber_topic s Hwf _ _ He') as (T2 & HT2 & ?). split.
      + intros Ht. rewrite Ht in HT2. simplify_eq. set_solver.
      + intros [Hin _]%elem_of_difference. destruct (topic_subscriber s Hwf _ _ _ HT Hin) as (S2 & ? & ?). by simplify_eq.
    - intros e' Hp. destruct (topic_publisher s Hwf _ _ _ HT Hp) as (P' & ? & ?). eauto.
    - intros e' [Hin Hne%not_elem_of_singleton]%elem_of_difference.
      destruct (topic_subscriber s Hwf _ _ _ HT Hin) as (S2 & ? & ?). rewrite lookup_delete_ne by done. eauto.
    - intros e' P He'. apply (E1 _ _ He').
    - intros e' S' [_ He']%lookup_delete_Some. apply (E2 _ _ He'). }
  exists T, o. split_and!; [done| |].
  - destruct o as [T'|]; [|by destruct Ho]. destruct Ho as (Hused & m & -> & Hlim).
    split; [done|]. by exists m.
  - eapply runs_bind; [by apply owned_runs|]. eapply runs_bind; [done|]. cbv beta iota. rewrite He, Hid, Z.eqb_refl.
    cbv zeta. simpl negb. cbv iota. eapply runs_bind; [done|]. eapply runs_bind; [done|].
    eapply runs_bind; [by apply modify_topic_runs|].
    unfold runs in Hrun |- *. simpl. etrans; [exact Hrun|]. f_equal.
    unfold unlink_subscriber, set_topic, s1. fold t. rewrite Hid.
    destruct o as [T'|]; simpl; [by rewrite insert_insert_eq | by rewrite delete_insert_eq].
Qed.

(** ** What a registry loses with a set of endpoints *)

Definition same_topic (T T' : TopicRecord) : Prop :=
  topic_id T' = topic_id T /\ topic_name T' = topic_name T /\ type_name T' = type_name T /\
  type_hash T' = type_hash T /\ topic_transport T' = topic_transport T.

Definition unlink_node (pubs subs : gset Z) (n : NodeRecord) : NodeRecord :=
  n <| publisher_endpoints := publisher_endpoints n ∖ pubs |>
    <| node_subscriber_endpoints := node_subscriber_endpoints n ∖ subs |>.

Record unlinked (pubs subs : gset Z) (s s' : RegistryState) : Prop := {
  un_wf : registry_wf s';
  un_pubs : forall e, publishers_ s' !! e = if decide (e ∈ pubs) then None else publishers_ s !! e;
  un_subs : forall e, subscribers_ s' !! e = if decide (e ∈ subs) then None else subscribers_ s !! e;
  un_nodes : forall i, nodes_ s' !! i = unlink_node pubs subs <$> nodes_ s !! i;
  un_topics : forall t T', topics_ s' !! t = Some T' -> exists T, topics_ s !! t = Some T /\ same_topic T T';
  un_rest : node_names_ s' = node_names_ s /\ next_node_id_ s' = next_node_id_ s /\
    next_session_id_ s' = next_session_id_ s /\ next_topic_id_ s' = next_topic_id_ s /\
    next_endpoint_id_ s' = next_endpoint_id_ s /\ liveness_ s' = liveness_ s /\ metrics_ s' = metrics_ s;
}.

Lemma unlink_node_id n : unlink_node ∅ ∅ n = n.
Proof. destruct n. unfold unlink_node, update_with. simpl. by rewrite !difference_empty_L. Qed.

Lemma unlinked_refl s : registry_wf s -> unlinked ∅ ∅ s s.
Proof.
  intros Hwf. split; [done| | | | |done].
  - intros e. by rewrite decide_False by set_solver.
  - intros e. by rewrite decide_False by set_solver.
  - intros i. destruct (nodes_ s !! i); simpl; [by rewrite unlink_node_id | done].
  - intros t T HT. exists T. by split.
Qed.

Lemma unlinked_trans p1 q1 p2 q2 s s1 s2 :
  unlinked p1 q1 s s1 -> unlinked p2 q2 s1 s2 -> unlinked (p1 ∪ p2) (q1 ∪ q2) s s2.
Proof.
  intros [W1 P1 S1 N1 T1 R1] [W2 P2 S2 N2 T2 R2]. split; [done| | | | |].
  - intros e. rewrite P2, P1. repeat case_decide; first [done | exfalso; set_solver].
  - intros e. rewrite S2, S1. repeat case_decide; first [done | exfalso; set_solver].
  - intros i. rewrite N2, N1, <- option_fmap_compose. destruct (nodes_ s !! i) as [n|]; [|done].
    simpl. f_equal. destruct n. unfold unlink_node. simpl. by rewrite !difference_difference_l_L.
  - intros t T' HT'. destruct (T2 _ _ HT') as (T0 & HT0 & H0). destruct (T1 _ _ HT0) as (T & HT & H).
    exists T. split; [done|]. unfold same_topic in *. intuition congruence.
  - intuition congruence.
Qed.

(** An endpoint is named by its own node only. *)
Lemma publisher_only_node s e P i n :
  registry_wf s -> publishers_ s !! e = Some P -> nodes_ s !! i = Some n -> i <> pe_node_id P ->
  publisher_endpoints n ∖ {[e]} = publisher_endpoints n.
Proof.
  intros Hwf He Hn Hne. apply set_eq. intros e'. rewrite elem_of_difference, elem_of_singleton.
  split; [by intros [? _]|]. intros Hin. split; [done|]. intros ->.
  destruct (node_publisher s Hwf _ _ _ Hn Hin) as (P' & ? & ?). by simplify_eq.
Qed.

Lemma subscriber_only_node s e S i n :
  registry_wf s -> subscribers_ s !! e = Some S -> nodes_ s !! i = Some n -> i <> se_node_id S ->
  node_subscriber_endpoints n ∖ {[e]} = node_subscriber_endpoints n.
Proof.
  intros Hwf He Hn Hne. apply set_eq. intros e'. rewrite elem_of_difference, elem_of_singleton.
  split; [by intros [? _]|]. intros Hin. split; [done|]. intros ->.
  destruct (node_subscriber s Hwf _ _ _ Hn Hin) as (S' & ? & ?). by simplify_eq.
Qed.

Lemma unlink_publisher_unlinked s e P T o :
  registry_wf s -> publishers_ s !! e = Some P -> topics_ s !! pe_topic_id P = Some T ->
  without_publisher s e T (pe_topic_id P) o -> unlinked {[e]} ∅ s (unlink_publisher s e P (topic_name T) o).
Proof.
  intros Hwf He HT Ho.
  pose proof (unlink_publisher_wf s e P T o Hwf He HT Ho) as Hwf'. unfold unlink_publisher in *.
  match goal with |- unlinked _ _ _ (set_topic ?t ?nm ?o ?s1) =>
    destruct (set_topic_frame t nm o s1) as (Fp & Fs & Fn & F1 & F2 & F3) end.
  split; [done| | | | |].
  - intros e'. rewrite Fp. simpl. case_decide as Hin.
    + apply elem_of_singleton in Hin as ->. apply lookup_delete_eq.
    + rewrite lookup_delete_ne; [done|]. set_solver.
  - intros e'. rewrite Fs. simpl. by rewrite decide_False by set_solver.
  - intros i. rewrite Fn. simpl. destruct (decide (i = pe_node_id P)) as [->|Hne].
    + rewrite lookup_alter_eq. destruct (nodes_ s !! pe_node_id P) as [[]|]; [|done].
      unfold unlink_node, update_with. simpl. by rewrite difference_empty_L.
    + rewrite lookup_alter_ne by done. destruct (nodes_ s !! i) as [n|] eqn:Hi; [|done]. simpl. f_equal.
      pose proof (publisher_only_node s e P i n Hwf He Hi Hne) as Heq. destruct n.
      unfold unlink_node, update_with. simpl in *. by rewrite Heq, difference_empty_L.
  - intros t T' [[-> Ho'] | [_ HT']]%set_topic_lookup; [|exists T'; by split].
    exists T. split; [done|]. subst o. by destruct Ho as (_ & m & -> & _).
  - by destruct o.
Qed.

Lemma unlink_subscriber_unlinked s e S T o :
  registry_wf s -> subscribers_ s !! e = Some S -> topics_ s !! se_topic_id S = Some T ->
  without_subscriber s e T (se_topic_id S) o -> unlinked ∅ {[e]} s (unlink_subscriber s e S (topic_name T) o).
Proof.
  intros Hwf He HT Ho.
  pose proof (unlink_subscriber_wf s e S T o Hwf He HT Ho) as Hwf'. unfold unlink_subscriber in *.
  match goal with |- unlinked _ _ _ (set_topic ?t ?nm ?o ?s1) =>
    destruct (set_topic_frame t nm o s1) as (Fp & Fs & Fn & F1 & F2 & F3) end.
  split; [done| | | | |].
  - intros e'. rewrite Fp. simpl. by rewrite decide_False by set_solver.
  - intros e'. rewrite Fs. simpl. case_decide as Hin.
    + apply elem_of_singleton in Hin as ->. apply lookup_delete_eq.
    + rewrite lookup_delete_ne; [done|]. set_solver.
  - intros i. rewrite Fn. simpl. destruct (decide (i = se_node_id S)) as [->|Hne].
    + rewrite lookup_alter_eq. destruct (nodes_ s !! se_node_id S) as [[]|]; [|done].
      unfold unlink_node, update_with. simpl. by rewrite difference_empty_L.
    + rewrite lookup_alter_ne by done. destruct (nodes_ s !! i) as [n|] eqn:Hi; [|done]. simpl. f_equal.
      pose proof (subscriber_only_node s e S i n Hwf He Hi Hne) as Heq. destruct n.
      unfold unlink_node, update_with. simpl in *. by rewrite Heq, difference_empty_L.
  - intros t T' [[-> Ho'] | [_ HT']]%set_topic_lookup; [|exists T'; by split].
    exists T. split; [done|]. subst o. by destruct Ho as (_ & m & -> & _).
  - by destruct o.
Qed.

Lemma unadvertise_unlinked s connection id n e P :
  registry_wf s -> owner s connection id n -> publishers_ s !! e = Some P -> pe_node_id P = id ->
  exists s', runs (unadvertise connection id e) s Ok s' /\ unlinked {[e]} ∅ s s'.
Proof.
  intros Hwf Hown He Hid.
  destruct (unadvertise_runs s connection id n e P Hwf Hown He Hid) as (T & o & HT & Ho & Hrun).
  eexists. split; [exact Hrun|]. by apply unlink_publisher_unlinked.
Qed.

Lemma unsubscribe_unlinked s connection id n e S :
  registry_wf s -> owner s connection id n -> subscribers_ s !! e = Some S -> se_node_id S = id ->
  exists s', runs (unsubscribe connection id e) s Ok s' /\ unlinked ∅ {[e]} s s'.
Proof.
  intros Hwf Hown He Hid.
  destruct (unsubscribe_runs s connection id n e S Hwf Hown He Hid) as (T & o & HT & Ho & Hrun).
  eexists. split; [exact Hrun|]. by apply unlink_subscriber_unlinked.
Qed.

(** Asking for an endpoint of someone else changes nothing. *)
Lemma unadvertise_refused s connection id e :
  ~ (exists n P, owner s connection id n /\ publishers_ s !! e = Some P /\ pe_node_id P = id) ->
  runs (unadvertise connection id e) s EndpointNotFound s.
Proof.
  intros Hno. destruct (owner_dec s connection id) as [[n Hown]|Hnone].
  - eapply runs_bind; [by apply owned_runs|]. eapply runs_bind; [done|]. cbv beta iota.
    destruct (publishers_ s !! e) as [P|] eqn:He; [|done].
    destruct (Z.eqb_spec (pe_node_id P) id); [|done]. exfalso. eauto 6.
  - eapply runs_bind; [by apply not_owned_runs|]. by eapply runs_bind.
Qed.

Lemma unsubscribe_refused s connection id e :
  ~ (exists n S, owner s connection id n /\ subscribers_ s !! e = Some S /\ se_node_id S = id) ->
  runs (unsubscribe connection id e) s EndpointNotFound s.
Proof.
  intros Hno. destruct (owner_dec s connection id) as [[n Hown]|Hnone].
  - eapply runs_bind; [by apply owned_runs|]. eapply runs_bind; [done|]. cbv beta iota.
    destruct (subscribers_ s !! e) as [S|] eqn:He; [|done].
    destruct (Z.eqb_spec (se_node_id S) id); [|done]. exfalso. eauto 6.
  - eapply runs_bind; [by apply not_owned_runs|]. by eapply runs_bind.
Qed.

(** ** Removing a node *)

Section unregister.
Context (s : RegistryState) (Hwf : registry_wf s) (connection id : Z) (n : NodeRecord).
Hypothesis Hown : owner s connection id n.

Lemma owner_unlinked pubs subs s' : unlinked pubs subs s s' -> owner s' connection id (unlink_node pubs subs n).
Proof. destruct Hown as [Hn Hc]. intros Hun. split; [by rewrite (un_nodes _ _ _ _ Hun), Hn | done]. Qed.

(** What is left after the endpoints still in the list [l] are not yet removed. *)
Definition removed_pubs (l : list Z) (s' : RegistryState) : Prop :=
  unlinked (publisher_endpoints n ∖ list_to_set l) ∅ s s' /\ NoDup l /\ list_to_set l ⊆ publisher_endpoints n.
Definition removed_subs (l : list Z) (s' : RegistryState) : Prop :=
  unlinked (publisher_endpoints n) (node_subscriber_endpoints n ∖ list_to_set l) s s' /\ NoDup l /\
  list_to_set l ⊆ node_subscriber_endpoints n.

Lemma unadvertise_each e l s' : removed_pubs (e :: l) s' ->
  exists s'', runs (_ ← unadvertise connection id e; mret tt) s' tt s'' /\ removed_pubs l s''.
Proof using Hown Hwf.
  intros (Hun & [Hnotin Hnd]%NoDup_cons & Hsub). destruct Hown as [Hn _].
  destruct (node_publisher s Hwf id n e Hn) as (P & He & Hid); [set_solver|].
  destruct (unadvertise_unlinked s' connection id _ e P (un_wf _ _ _ _ Hun) (owner_unlinked _ _ _ Hun))
    as (s'' & Hrun & Hun'); [|done|].
  { rewrite (un_pubs _ _ _ _ Hun), decide_False; [done | set_solver]. }
  exists s''. split; [by eapply runs_bind|]. split_and!; [|done|set_solver].
  replace (publisher_endpoints n ∖ list_to_set l) with ((publisher_endpoints n ∖ list_to_set (e :: l)) ∪ {[e]}).
  - replace (∅ : gset Z) with (∅ ∪ ∅ : gset Z) by set_solver. by eapply unlinked_trans.
  - apply set_eq. intros x. destruct (decide (x = e)) as [->|]; set_solver.
Qed.

Lemma unsubscribe_each e l s' : removed_subs (e :: l) s' ->
  exists s'', runs (_ ← unsubscribe connection id e; mret tt) s' tt s'' /\ removed_subs l s''.
Proof using Hown Hwf.
  intros (Hun & [Hnotin Hnd]%NoDup_cons & Hsub). destruct Hown as [Hn _].
  destruct (node_subscriber s Hwf id n e Hn) as (S & He & Hid); [set_solver|].
  destruct (unsubscribe_unlinked s' connection id _ e S (un_wf _ _ _ _ Hun) (owner_unlinked _ _ _ Hun))
    as (s'' & Hrun & Hun'); [|done|].
  { rewrite (un_subs _ _ _ _ Hun), decide_False; [done | set_solver]. }
  exists s''. split; [by eapply runs_bind|]. split_and!; [|done|set_solver].
  replace (node_subscriber_endpoints n ∖ list_to_set l)
    with ((node_subscriber_endpoints n ∖ list_to_set (e :: l)) ∪ {[e]}).
  - replace (publisher_endpoints n) with (publisher_endpoints n ∪ ∅ : gset Z) by set_solver.
    by eapply unlinked_trans.
  - apply set_eq. intros x. destruct (decide (x = e)) as [->|]; set_solver.
Qed.

Lemma list_to_set_elements (X : gset Z) : list_to_set (set_elements X) = X.
Proof. apply set_eq. intros x. by rewrite elem_of_list_to_set, elem_of_set_elements. Qed.

Lemma unlink_all_endpoints :
  exists s1 s',
    runs (for_each (set_elements (publisher_endpoints n)) (fun e => _ ← unadvertise connection id e; mret tt)) s tt s1 /\
    runs (for_each (set_elements (node_subscriber_endpoints n)) (fun e => _ ← unsubscribe connection id e; mret tt))
      s1 tt s' /\
    unlinked (publisher_endpoints n) (node_subscriber_endpoints n) s s'.
Proof using Hown Hwf.
  destruct (for_each_ind removed_pubs (set_elements (publisher_endpoints n))
              (fun e => _ ← unadvertise connection id e; mret tt) s) as (s1 & Hrun1 & Hun1 & _).
  { intros e l s'. apply unadvertise_each. }
  { unfold removed_pubs. rewrite list_to_set_elements, difference_diag_L.
    split_and!; [by apply unlinked_refl | apply NoDup_set_elements | done]. }
  simpl in Hun1. rewrite difference_empty_L in Hun1.
  destruct (for_each_ind removed_subs (set_elements (node_subscriber_endpoints n))
              (fun e => _ ← unsubscribe connection id e; mret tt) s1) as (s2 & Hrun2 & Hun2 & _).
  { intros e l s'. apply unsubscribe_each. }
  { unfold removed_subs. rewrite list_to_set_elements, difference_diag_L.
    split_and!; [done | apply NoDup_set_elements | done]. }
  simpl in Hun2. rewrite difference_empty_L in Hun2. by exists s1, s2.
Qed.
End unregister.

(** A node without endpoints can go. *)
Lemma remove_bare_node s id n :
  registry_wf s -> nodes_ s !! id = Some n -> publisher_endpoints n = ∅ -> node_subscriber_endpoints n = ∅ ->
  registry_wf (s <| node_names_ := delete (node_name n) (node_names_ s) |> <| nodes_ := delete id (nodes_ s) |>).
Proof.
  intros [Hp Hs [Hn1 Hn2 Hn3 Hn4] Ht [He1 He2 He3]] Hn Hpn Hsn.
  assert (Hsets : forall (f : NodeRecord -> gset Z) i, f n = ∅ ->
            default ∅ (f <$> delete id (nodes_ s) !! i) = default ∅ (f <$> nodes_ s !! i)).
  { intros f i Hf. destruct (decide (i = id)) as [->|?]; [|by rewrite lookup_delete_ne].
    by rewrite lookup_delete_eq, Hn; simpl. }
  split.
  - eapply links_ext; [| |exact Hp]; [|done]. intros i. by apply Hsets.
  - eapply links_ext; [| |exact Hs]; [|done]. intros i. by apply Hsets.
  - split; simpl; auto.
    + intros i n' [Hne Hi]%lookup_delete_Some. destruct (Hn1 _ _ Hi) as (? & Hnm & ?). split_and!; auto; try lia.
      rewrite lookup_delete_ne; [done|]. intros Heq. rewrite <- Heq in Hnm.
      destruct (Hn1 _ _ Hn) as (_ & ? & _). congruence.
    + intros name i [Hne Hi]%lookup_delete_Some. destruct (Hn2 _ _ Hi) as (n' & Hn' & Hname). exists n'.
      split; [|done]. apply lookup_delete_Some. split; [|done]. intros <-. by simplify_eq.
  - destruct Ht. by split.
  - by split.
Qed.

Record node_removed (id : Z) (s s' : RegistryState) : Prop := {
  nr_wf : registry_wf s';
  nr_nodes : nodes_ s' = delete id (nodes_ s);
  nr_pubs : publishers_ s' = filter (fun ep => pe_node_id ep.2 <> id) (publishers_ s);
  nr_subs : subscribers_ s' = filter (fun ep => se_node_id ep.2 <> id) (subscribers_ s);
  nr_topics : forall t T', topics_ s' !! t = Some T' -> exists T, topics_ s !! t = Some T /\ same_topic T T';
  nr_names : forall name, node_names_ s' !! name = (node_names_ s !! name ≫= fun i => if decide (i = id) then None else Some i);
  nr_rest : next_node_id_ s' = next_node_id_ s /\ next_session_id_ s' = next_session_id_ s /\
    next_topic_id_ s' = next_topic_id_ s /\ next_endpoint_id_ s' = next_endpoint_id_ s /\
    liveness_ s' = liveness_ s;
}.

Lemma unlinked_node_removed s s' id n :
  registry_wf s -> nodes_ s !! id = Some n ->
  unlinked (publisher_endpoints n) (node_subscriber_endpoints n) s s' ->
  node_removed id s (s' <| node_names_ := delete (node_name n) (node_names_ s') |> <| nodes_ := delete id (nodes_ s') |>).
Proof.
  intros Hwf Hn Hun. pose proof Hun as [W P S N T R].
  assert (Hn' : nodes_ s' !! id = Some (unlink_node (publisher_endpoints n) (node_subscriber_endpoints n) n))
    by by rewrite N, Hn.
  destruct (nk_nodes _ (rw_names _ Hwf) _ _ Hn) as (_ & Hnm & _).
  split; simpl; auto.
  - apply (remove_bare_node s' id _ W Hn'); apply difference_diag_L.
  - apply map_eq. intros i. destruct (decide (i = id)) as [->|Hne]; [by rewrite !lookup_delete_eq|].
    rewrite !lookup_delete_ne, N by done. destruct (nodes_ s !! i) as [n'|] eqn:Hi; [|done]. simpl. f_equal.
    assert (Hp : publisher_endpoints n' ∖ publisher_endpoints n = publisher_endpoints n').
    { apply difference_disjoint_L. intros e He1 He2.
      destruct (node_publisher s Hwf _ _ _ Hi He1) as (? & ? & ?), (node_publisher s Hwf _ _ _ Hn He2) as (? & ? & ?).
      congruence. }
    assert (Hs : node_subscriber_endpoints n' ∖ node_subscriber_endpoints n = node_subscriber_endpoints n').
    { apply difference_disjoint_L. intros e He1 He2.
      destruct (node_subscriber s Hwf _ _ _ Hi He1) as (? & ? & ?), (node_subscriber s Hwf _ _ _ Hn He2) as (? & ? & ?).
      congruence. }
    destruct n'. unfold unlink_node, update_with. simpl in *. by rewrite Hp, Hs.
  - apply map_eq. intros e. rewrite P. apply option_eq. intros x. rewrite map_lookup_filter_Some. simpl.
    case_decide as Hin.
    + split; [done|]. intros [He Hne]. by destruct (node_publisher s Hwf _ _ _ Hn Hin) as (? & ? & ?); simplify_eq.
    + split; [|by intros [? _]]. intros He. split; [done|]. intros <-.
      destruct (publisher_node s Hwf _ _ He) as (n0 & ? & ?). by simplify_eq.
  - apply map_eq. intros e. rewrite S. apply option_eq. intros x. rewrite map_lookup_filter_Some. simpl.
    case_decide as Hin.
    + split; [done|]. intros [He Hne]. by destruct (node_subscriber s Hwf _ _ _ Hn Hin) as (? & ? & ?); simplify_eq.
    + split; [|by intros [? _]]. intros He. split; [done|]. intros <-.
      destruct (lk_entry _ _ _ _ _ _ (rw_subs _ Hwf) _ _ He) as (_ & Hns & _).
      apply node_subs_Some in Hns as (n0 & ? & ?). by simplify_eq.
  - intros name. destruct R as (-> & _). destruct (decide (name = node_name n)) as [->|Hne].
    + rewrite lookup_delete_eq, Hnm. simpl. by rewrite decide_True.
    + rewrite lookup_delete_ne by done. destruct (node_names_ s !! name) as [i|] eqn:Hi; [|done]. simpl.
      rewrite decide_False; [done|]. intros ->. apply Hne.
      destruct (nk_node_names _ (rw_names _ Hwf) _ _ Hi) as (n0 & ? & ?). by simplify_eq.
  - tauto.
Qed.

Lemma unregisterNode_runs s connection id n :
  registry_wf s -> owner s connection id n ->
  exists s', runs (unregisterNode connection id) s Ok s' /\ node_removed id s s' /\ metrics_ s' = metrics_ s.
Proof.
  intros Hwf Hown. destruct (unlink_all_endpoints s Hwf connection id n Hown) as (s1 & s2 & Hrun1 & Hrun2 & Hun).
  eexists. split; [|split; [apply (unlinked_node_removed s s2 id n); [done|by destruct Hown|done]|]].
  - eapply runs_bind; [by apply owned_runs|]. cbv beta iota.
    eapply runs_bind; [exact Hrun1|]. by eapply runs_bind; [exact Hrun2|].
  - simpl. apply (un_rest _ _ _ _ Hun).
Qed.

Lemma unregisterNode_refused s connection id :
  (forall n, ~ owner s connection id n) -> runs (unregisterNode connection id) s NotRegistered s.
Proof. intros Hno. eapply runs_bind; [by apply not_owned_runs | done]. Qed.
