(* ===== verification/RegistryLiveness.v ===== *)
(** * Dead nodes

    The cleanup of a node that died, what it reports for the server to release, the liveness
    evaluation that finds such nodes, and the disconnect of a connection. *)

From Stdlib Require Import ZArith Lia Bool String.
From stdpp Require Import base gmap list strings option sorting.
From S2P Require Import Prelude Types Outcome RegistryState RegistryInvariant RegistryOps.

Local Open Scope Z_scope.

Lemma elem_of_flat_map {A B} (f : A -> list B) (l : list A) b : b ∈ flat_map f l <-> exists a, a ∈ l /\ b ∈ f a.
Proof.
  induction l as [|a l IH]; simpl; [set_solver|]. rewrite elem_of_app, IH. set_solver.
Qed.

Lemma flat_map_omap {A B} (f : A -> list B) (g : A -> option B) (l : list A) :
  (forall a, a ∈ l -> f a = option_list (g a)) -> flat_map f l = omap g l.
Proof.
  intros Hfg. induction l as [|a l IH]; simpl; [done|]. rewrite Hfg by set_solver.
  rewrite IH by set_solver. by destruct (g a).
Qed.

(** Lists that are made from different elements have nothing in common. *)
Lemma NoDup_flat_map {A B} (f : A -> list B) (l : list A) :
  NoDup l -> (forall a, NoDup (f a)) -> (forall a a' b, b ∈ f a -> b ∈ f a' -> a = a') -> NoDup (flat_map f l).
Proof.
  intros Hl Hf Hinj. induction Hl as [|a l Ha Hl IH]; simpl; [constructor|]. apply list.NoDup_app. split_and!; [apply Hf | | done].
  intros b Hb (a' & Ha' & Hb')%elem_of_flat_map. by rewrite (Hinj _ _ _ Hb Hb') in Ha.
Qed.

(** ** Cleanup of one node *)

(** Resources with a name, which the server removes. *)
Definition named_pool (P : PublisherEndpoint) : option SharedPoolMetadata :=
  if empty (spm_shm_name (pe_pool P)) then None else Some (pe_pool P).
Definition named_queue (S : SubscriberEndpoint) : option SharedQueueMetadata :=
  if empty (sqm_shm_name (se_queue S)) then None else Some (se_queue S).

(** A publisher of node [id] and a subscriber of its topic; and the other way round. *)
Definition publisher_death (s : RegistryState) (id : Z) (ev : PeerEventRecord) : Prop :=
  exists e P e' S, publishers_ s !! e = Some P /\ pe_node_id P = id /\
    subscribers_ s !! e' = Some S /\ se_topic_id S = pe_topic_id P /\
    ev = mkPeerEventRecord PublisherDead (se_node_id S) e' e (pe_topic_id P) (spm_pool_id (pe_pool P)).
Definition subscriber_death (s : RegistryState) (id : Z) (ev : PeerEventRecord) : Prop :=
  exists e S e' P, subscribers_ s !! e = Some S /\ se_node_id S = id /\
    publishers_ s !! e' = Some P /\ pe_topic_id P = se_topic_id S /\
    ev = mkPeerEventRecord SubscriberDead (pe_node_id P) e' e (se_topic_id S) (sqm_queue_id (se_queue S)).

(** The report names the node, all its resources in endpoint order, and, once, every pair of an endpoint
    of the node and a peer; the two endpoints are part of the event. *)
Record reports (s : RegistryState) (id : Z) (n : NodeRecord) (c : DeadNodeCleanup) : Prop := {
  rp_identity : cl_node_id c = id /\ cl_session_id c = node_session_id n /\
    cl_control_connection c = control_connection n /\ cl_heartbeat_connection c = heartbeat_connection n;
  rp_pools : cl_pools c = omap (fun e => publishers_ s !! e ≫= named_pool) (set_elements (publisher_endpoints n));
  rp_queues : cl_queues c =
    omap (fun e => subscribers_ s !! e ≫= named_queue) (set_elements (node_subscriber_endpoints n));
  rp_paths : cl_socket_paths c =
    omap (fun e => se_data_socket_path <$> subscribers_ s !! e) (set_elements (node_subscriber_endpoints n));
  rp_events : forall ev, ev ∈ cl_peer_events c <-> publisher_death s id ev \/ subscriber_death s id ev;
  rp_once : NoDup (cl_peer_events c);
}.

Section cleanup.
Context (s : RegistryState) (Hwf : registry_wf s) (id : Z) (n : NodeRecord) (Hn : nodes_ s !! id = Some n).

(** What the two loops append for one endpoint. *)
Definition publisher_report (e : Z) : list (list SharedPoolMetadata * list PeerEventRecord) :=
  match publishers_ s !! e with
  | None => []
  | Some P =>
      [(option_list (named_pool P),
        flat_map (fun e' => match subscribers_ s !! e' with
          | Some sub => [mkPeerEventRecord PublisherDead (se_node_id sub) e' e (pe_topic_id P) (spm_pool_id (pe_pool P))]
          | None => [] end) (set_elements (topic_subs s (pe_topic_id P))))]
  end.
Definition subscriber_report (e : Z) : list (list SharedQueueMetadata * string * list PeerEventRecord) :=
  match subscribers_ s !! e with
  | None => []
  | Some sub =>
      [(option_list (named_queue sub), se_data_socket_path sub,
        flat_map (fun p => match publishers_ s !! p with
          | Some P => [mkPeerEventRecord SubscriberDead (pe_node_id P) (pe_endpoint_id P) e (se_topic_id sub)
                         (sqm_queue_id (se_queue sub))]
          | None => [] end) (set_elements (topic_pubs s (se_topic_id sub))))]
  end.

Lemma cleanup_publisher_runs e : runs (cleanup_publisher e) s (publisher_report e) s.
Proof using Hwf.
  unfold runs, cleanup_publisher, publisher_report, named_pool. unfold_cpp.
  destruct (publishers_ s !! e) as [P|] eqn:He; [|done].
  destruct (publisher_topic s Hwf _ _ He) as (T & HT & _). unfold topics_at. unfold_cpp. rewrite HT.
  unfold topic_subs. rewrite HT. simpl. by destruct (empty _).
Qed.

Lemma cleanup_subscriber_runs e : runs (cleanup_subscriber e) s (subscriber_report e) s.
Proof using Hwf.
  unfold runs, cleanup_subscriber, subscriber_report, named_queue. unfold_cpp.
  destruct (subscribers_ s !! e) as [S|] eqn:He; [|done].
  destruct (subscriber_topic s Hwf _ _ He) as (T & HT & _). unfold topics_at. unfold_cpp. rewrite HT.
  unfold topic_pubs. rewrite HT. simpl.
  destruct (publisher_endpoint T) as [p|]; [|by destruct (empty _)].
  replace (set_elements (option_set (Some p))) with [p]; [simpl; by destruct (empty _), (publishers_ s !! p)|].
  unfold set_elements, option_set. by rewrite elements_singleton.
Qed.

Lemma flat_map_flat_map {A B C} (f : B -> list C) (g : A -> list B) l :
  flat_map f (flat_map g l) = flat_map (fun a => flat_map f (g a)) l.
Proof. induction l as [|a l IH]; simpl; [done|]. by rewrite flat_map_app, IH. Qed.

Lemma publisher_events ev :
  ev ∈ flat_map snd (flat_map publisher_report (set_elements (publisher_endpoints n))) <-> publisher_death s id ev.
Proof using Hn Hwf.
  rewrite flat_map_flat_map, elem_of_flat_map. split.
  - intros (e & Hin%elem_of_set_elements & Hev). destruct (node_publisher s Hwf _ _ _ Hn Hin) as (P & He & Hid).
    unfold publisher_report in Hev. rewrite He in Hev. simpl in Hev. rewrite app_nil_r in Hev.
    apply elem_of_flat_map in Hev as (e' & Hin'%elem_of_set_elements & Hev).
    destruct (lk_topic _ _ _ _ _ _ (rw_subs _ Hwf) _ _ Hin') as (S & He' & Ht). rewrite He' in Hev.
    apply list_elem_of_singleton in Hev. exists e, P, e', S. done.
  - intros (e & P & e' & S & He & Hid & He' & Ht & ->). exists e.
    destruct (publisher_node s Hwf _ _ He) as (n' & Hn' & Hin). rewrite Hid in Hn'. simplify_eq.
    split; [by apply elem_of_set_elements|]. unfold publisher_report. rewrite He. simpl. rewrite app_nil_r.
    apply elem_of_flat_map. exists e'. rewrite He'. split; [|by left].
    apply elem_of_set_elements. rewrite <- Ht. by apply (lk_entry _ _ _ _ _ _ (rw_subs _ Hwf)).
Qed.

Lemma subscriber_events ev :
  ev ∈ flat_map snd (flat_map subscriber_report (set_elements (node_subscriber_endpoints n))) <->
  subscriber_death s id ev.
Proof using Hn Hwf.
  rewrite flat_map_flat_map, elem_of_flat_map. split.
  - intros (e & Hin%elem_of_set_elements & Hev). destruct (node_subscriber s Hwf _ _ _ Hn Hin) as (S & He & Hid).
    unfold subscriber_report in Hev. rewrite He in Hev. simpl in Hev. rewrite app_nil_r in Hev.
    apply elem_of_flat_map in Hev as (p & Hin'%elem_of_set_elements & Hev).
    destruct (lk_topic _ _ _ _ _ _ (rw_pubs _ Hwf) _ _ Hin') as (P & Hp & Ht). rewrite Hp in Hev.
    apply list_elem_of_singleton in Hev. destruct (lk_entry _ _ _ _ _ _ (rw_pubs _ Hwf) _ _ Hp) as (Hpid & _).
    exists e, S, p, P. rewrite Hpid in Hev. done.
  - intros (e & S & p & P & He & Hid & Hp & Ht & ->). exists e.
    destruct (lk_entry _ _ _ _ _ _ (rw_subs _ Hwf) _ _ He) as (_ & Hns & _).
    apply node_subs_Some in Hns as (n' & Hn' & Hin). rewrite Hid in Hn'. simplify_eq.
    destruct (lk_entry _ _ _ _ _ _ (rw_pubs _ Hwf) _ _ Hp) as (Hpid & _ & Htp).
    split; [by apply elem_of_set_elements|]. unfold subscriber_report. rewrite He. simpl. rewrite app_nil_r.
    apply elem_of_flat_map. exists p. rewrite Hp, Hpid. split; [|by left].
    apply elem_of_set_elements. by rewrite <- Ht.
Qed.

Lemma map_flat_map_singletons {A B C} (f : B -> C) (g : A -> list B) (l : list A) :
  map f (flat_map g l) = flat_map (fun a => map f (g a)) l.
Proof. induction l as [|a l IH]; simpl; [done|]. by rewrite map_app, IH. Qed.

Lemma report_once {A} (g : A -> Z -> list PeerEventRecord) (x : A) (X : gset Z) :
  (forall e ev, ev ∈ g x e -> g x e = [ev] /\ ev_target_endpoint_id ev = e) -> NoDup (flat_map (g x) (set_elements X)).
Proof.
  intros Hg. apply NoDup_flat_map; [apply NoDup_set_elements | |].
  - intros e. destruct (g x e) as [|ev l] eqn:He; [constructor|]. destruct (Hg e ev) as [Heq _]; [rewrite He; by left|].
    rewrite <- He, Heq. apply NoDup_singleton.
  - intros e e' ev H1 H2. destruct (Hg _ _ H1) as [_ <-]. by destruct (Hg _ _ H2) as [_ <-].
Qed.

Lemma publisher_events_once : NoDup (flat_map snd (flat_map publisher_report (set_elements (publisher_endpoints n)))).
Proof using Hwf.
  rewrite flat_map_flat_map. apply NoDup_flat_map; [apply NoDup_set_elements | |].
  - intros e. unfold publisher_report. destruct (publishers_ s !! e) as [P|]; simpl; [|constructor]. rewrite app_nil_r.
    apply (report_once (fun P e' => match subscribers_ s !! e' with
      | Some sub => [mkPeerEventRecord PublisherDead (se_node_id sub) e' e (pe_topic_id P) (spm_pool_id (pe_pool P))]
      | None => [] end)). intros e' ev. destruct (subscribers_ s !! e'); [|by intros ?%not_elem_of_nil]. by intros ->%list_elem_of_singleton.
  - assert (Hdead : forall e ev, ev ∈ flat_map snd (publisher_report e) -> ev_dead_endpoint_id ev = e).
    { intros e ev. unfold publisher_report. destruct (publishers_ s !! e) as [P|]; simpl; [|by intros ?%not_elem_of_nil]. rewrite app_nil_r.
      intros (e' & _ & Hev)%elem_of_flat_map. destruct (subscribers_ s !! e'); [|by apply not_elem_of_nil in Hev]. by apply list_elem_of_singleton in Hev as ->. }
    intros e e' ev H1%Hdead H2%Hdead. congruence.
Qed.

Lemma subscriber_events_once : NoDup (flat_map snd (flat_map subscriber_report (set_elements (node_subscriber_endpoints n)))).
Proof using Hwf.
  rewrite flat_map_flat_map. apply NoDup_flat_map; [apply NoDup_set_elements | |].
  - intros e. unfold subscriber_report. destruct (subscribers_ s !! e) as [S|]; simpl; [|constructor]. rewrite app_nil_r.
    apply (report_once (fun S p => match publishers_ s !! p with
      | Some P => [mkPeerEventRecord SubscriberDead (pe_node_id P) (pe_endpoint_id P) e (se_topic_id S) (sqm_queue_id (se_queue S))]
      | None => [] end)). intros p ev. destruct (publishers_ s !! p) as [P|] eqn:Hp; [|by intros ?%not_elem_of_nil]. intros ->%list_elem_of_singleton.
    by destruct (lk_entry _ _ _ _ _ _ (rw_pubs _ Hwf) _ _ Hp) as (-> & _).
  - assert (Hdead : forall e ev, ev ∈ flat_map snd (subscriber_report e) -> ev_dead_endpoint_id ev = e).
    { intros e ev. unfold subscriber_report. destruct (subscribers_ s !! e) as [S|]; simpl; [|by intros ?%not_elem_of_nil]. rewrite app_nil_r.
      intros (e' & _ & Hev)%elem_of_flat_map. destruct (publishers_ s !! e'); [|by apply not_elem_of_nil in Hev]. by apply list_elem_of_singleton in Hev as ->. }
    intros e e' ev H1%Hdead H2%Hdead. congruence.
Qed.

Lemma cleanupDeadNode_runs :
  exists c s', runs (cleanupDeadNode id) s (Some c) s' /\ reports s id n c /\ node_removed id s s' /\
    metrics_ s' = metrics_ s <| dead_node_count := wrap 64 (dead_node_count (metrics_ s) + 1) |>.
Proof using Hn Hwf.
  destruct (nk_nodes _ (rw_names _ Hwf) _ _ Hn) as (Hid & _).
  destruct (unregisterNode_runs s (control_connection n) id n Hwf) as (s1 & Hrun & Hrem & Hm); [done|].
  eexists _, (s1 <| metrics_ := _ |>). split; [|split; [|split]].
  - eapply runs_bind; [done|]. rewrite Hn. cbv beta iota.
    eapply runs_bind; [apply for_collect_reads; intros; apply cleanup_publisher_runs|].
    eapply runs_bind; [apply for_collect_reads; intros; apply cleanup_subscriber_runs|].
    eapply runs_bind; [rewrite Hid; exact Hrun|]. eapply runs_bind; [done|]. done.
  - split; simpl.
    + by rewrite Hid.
    + rewrite flat_map_flat_map. apply flat_map_omap. intros e _. unfold publisher_report.
      destruct (publishers_ s !! e); simpl; [apply app_nil_r | done].
    + rewrite flat_map_flat_map. apply flat_map_omap. intros e _. unfold subscriber_report.
      destruct (subscribers_ s !! e); simpl; [apply app_nil_r | done].
    + rewrite map_flat_map_singletons. apply flat_map_omap. intros e _. unfold subscriber_report.
      by destruct (subscribers_ s !! e).
    + intros ev. rewrite elem_of_app, publisher_events, subscriber_events. done.
    + apply list.NoDup_app. split_and!; [apply publisher_events_once | | apply subscriber_events_once].
      intros ev (? & ? & ? & ? & _ & _ & _ & _ & ->)%publisher_events (? & ? & ? & ? & _ & _ & _ & _ & Heq)%subscriber_events. done.
  - destruct Hrem as [W ? ? ? ? ? ?]. split; auto. destruct W as [? ? [] [] []]. split; auto; by split.
  - simpl. by rewrite Hm.
Qed.
End cleanup.

Lemma cleanupDeadNode_absent s id : nodes_ s !! id = None -> runs (cleanupDeadNode id) s None s.
Proof. intros Hn. unfold runs, cleanupDeadNode. unfold_cpp. by rewrite Hn. Qed.

(** ** Cleanup of several nodes *)

Definition counters_kept (s s' : RegistryState) : Prop :=
  next_node_id_ s' = next_node_id_ s /\ next_session_id_ s' = next_session_id_ s /\
  next_topic_id_ s' = next_topic_id_ s /\ next_endpoint_id_ s' = next_endpoint_id_ s /\ liveness_ s' = liveness_ s.

Record nodes_removed (X : gset Z) (s s' : RegistryState) : Prop := {
  nrs_wf : registry_wf s';
  nrs_nodes : forall i, nodes_ s' !! i = if decide (i ∈ X) then None else nodes_ s !! i;
  nrs_pubs : forall e, publishers_ s' !! e =
    (publishers_ s !! e ≫= fun P => if decide (pe_node_id P ∈ X) then None else Some P);
  nrs_subs : forall e, subscribers_ s' !! e =
    (subscribers_ s !! e ≫= fun S => if decide (se_node_id S ∈ X) then None else Some S);
  nrs_rest : counters_kept s s';
}.

Lemma nodes_removed_refl s : registry_wf s -> nodes_removed ∅ s s.
Proof.
  intros Hwf. split; [done| | | |done].
  - intros i. by rewrite decide_False by set_solver.
  - intros e. destruct (publishers_ s !! e); simpl; [|done]. by rewrite decide_False by set_solver.
  - intros e. destruct (subscribers_ s !! e); simpl; [|done]. by rewrite decide_False by set_solver.
Qed.

Lemma node_removed_nodes id s s' : node_removed id s s' -> nodes_removed {[id]} s s'.
Proof.
  intros [W N P S _ _ R]. split; [done| | | |by destruct_and?].
  - intros i. rewrite N. case_decide as Hin.
    + apply elem_of_singleton in Hin as ->. apply lookup_delete_eq.
    + apply lookup_delete_ne. set_solver.
  - intros e. rewrite P, map_lookup_filter. destruct (publishers_ s !! e) as [x|]; [|done]. simpl.
    unfold guard. repeat case_decide; (done || set_solver).
  - intros e. rewrite S, map_lookup_filter. destruct (subscribers_ s !! e) as [x|]; [|done]. simpl.
    unfold guard. repeat case_decide; (done || set_solver).
Qed.

Lemma nodes_removed_trans X Y s s1 s2 :
  nodes_removed X s s1 -> nodes_removed Y s1 s2 -> nodes_removed (X ∪ Y) s s2.
Proof.
  intros [W1 N1 P1 S1 R1] [W2 N2 P2 S2 R2]. split; [done| | | |].
  - intros i. rewrite N2, N1. repeat case_decide; first [done | exfalso; set_solver].
  - intros e. rewrite P2, P1. destruct (publishers_ s !! e); simpl; [|done].
    repeat (case_decide; simpl); first [done | exfalso; set_solver].
  - intros e. rewrite S2, S1. destruct (subscribers_ s !! e); simpl; [|done].
    repeat (case_decide; simpl); first [done | exfalso; set_solver].
  - unfold counters_kept in *. intuition congruence.
Qed.

Lemma cleanup_nodes_runs s ids :
  registry_wf s -> NoDup ids -> (forall i, i ∈ ids -> is_Some (nodes_ s !! i)) ->
  exists cs s', runs (cleanup_nodes ids) s cs s' /\ map cl_node_id cs = ids /\ nodes_removed (list_to_set ids) s s'.
Proof.
  revert s. induction ids as [|i ids IH]; intros s Hwf Hnd Hin; simpl.
  - exists [], s. split_and!; [done | done | by apply nodes_removed_refl].
  - apply NoDup_cons in Hnd as [Hi Hnd]. destruct (Hin i) as [n Hn]; [set_solver|].
    destruct (cleanupDeadNode_runs s Hwf i n Hn) as (c & s1 & Hrun & Hrep & Hrem & _).
    apply node_removed_nodes in Hrem.
    destruct (IH s1) as (cs & s2 & Hrun2 & Hids & Hrem2); [apply Hrem | done | |].
    { intros j Hj. rewrite (nrs_nodes _ _ _ Hrem), decide_False by set_solver. apply Hin. set_solver. }
    exists (c :: cs), s2. split_and!.
    + eapply runs_bind; [eapply runs_bind; [exact Hrun | done]|]. by eapply runs_bind; [exact Hrun2|].
    + simpl. f_equal; [apply (rp_identity _ _ _ _ Hrep) | done].
    + by eapply nodes_removed_trans.
Qed.

(** ** Liveness *)

Definition is_suspect (cfg : LivenessConfig) (now : Z) (n : NodeRecord) : bool :=
  (timeout_ns (suspect_timeout cfg) <=? now - last_seen n) && bool_decide (liveness n = Alive).
Definition is_dead (cfg : LivenessConfig) (now : Z) (n : NodeRecord) : bool :=
  timeout_ns (dead_timeout cfg) <=? now - last_seen n.
Definition mark (cfg : LivenessConfig) (now : Z) (n : NodeRecord) : NodeRecord :=
  if is_suspect cfg now n then n <| liveness := Suspected |> else n.

(** The ids of [ids] whose node in [m] passes a test. *)
Definition ids_where (f : NodeRecord -> bool) (m : gmap Z NodeRecord) (ids : list Z) : list Z :=
  filter (fun i => from_option f false (m !! i) = true) ids.

Lemma ids_where_cons f m i ids n : m !! i = Some n ->
  ids_where f m (i :: ids) = (if f n then [i] else []) ++ ids_where f m ids.
Proof.
  intros Hn. unfold ids_where. rewrite filter_cons, Hn. simpl. destruct (f n); [by rewrite decide_True | by rewrite decide_False].
Qed.

Lemma suspect_nodes_runs now m ids s :
  NoDup ids -> (forall i, i ∈ ids -> nodes_ s !! i = m !! i /\ exists n, m !! i = Some n /\ node_id n = i) ->
  exists nodes metrics,
    runs (suspect_nodes now ids) s
      (ids_where (fun n => is_suspect (liveness_ s) now n && negb (is_dead (liveness_ s) now n)) m ids,
       ids_where (is_dead (liveness_ s) now) m ids)
      (s <| nodes_ := nodes |> <| metrics_ := metrics |>) /\
    (forall i, nodes !! i = if decide (i ∈ ids) then mark (liveness_ s) now <$> nodes_ s !! i else nodes_ s !! i).
Proof.
  revert s. induction ids as [|i ids IH]; intros s Hnd Hin; simpl.
  - exists (nodes_ s), (metrics_ s). split; [by destruct s|]. done.
  - apply NoDup_cons in Hnd as [Hi Hnd]. destruct (Hin i) as [Hs (n & Hn & Hid)]; [set_solver|].
    set (s1 := if is_suspect (liveness_ s) now n
               then s <| nodes_ := alter (fun n => n <| liveness := Suspected |>) i (nodes_ s) |>
                      <| metrics_ := metrics_ s <| suspected_count := wrap 64 (suspected_count (metrics_ s) + 1) |> |>
               else s).
    assert (Hcfg : liveness_ s1 = liveness_ s) by (unfold s1; by case_match).
    assert (Hother : forall j, j <> i -> nodes_ s1 !! j = nodes_ s !! j).
    { intros j Hj. unfold s1. case_match; [|done]. simpl. by rewrite lookup_alter_ne. }
    destruct (IH s1) as (nodes & metrics & Hrun & Hnodes); [done| |].
    { intros j Hj. rewrite Hother by set_solver. apply Hin. set_solver. }
    exists nodes, metrics. split.
    + eapply runs_bind; [done|]. cbv beta. rewrite Hs, Hn. cbv beta iota zeta.
      eapply (runs_bind _ _ _ tt s1).
      { unfold s1, is_suspect. by destruct (_ && _). }
      eapply runs_bind; [exact Hrun|]. rewrite Hcfg, Hid, !(ids_where_cons _ _ _ _ _ Hn).
      unfold runs. unfold_cpp. f_equal. unfold s1. by case_match.
    + intros j. rewrite Hnodes, Hcfg. destruct (decide (j = i)) as [->|Hne].
      * rewrite decide_False by done. rewrite decide_True by set_solver. rewrite Hs, Hn. simpl. unfold s1, mark.
        case_match; simpl; [by rewrite lookup_alter_eq, Hs, Hn | by rewrite Hs].
      * rewrite Hother by done. repeat case_decide; first [done | exfalso; set_solver].
Qed.

Lemma evaluateLiveness_runs s now :
  registry_wf s -> exists cs s', let cfg := liveness_ s in let keys := map_keys (nodes_ s) in
    runs (evaluateLiveness now) s
      (mkLivenessUpdate (ids_where (fun n => is_suspect cfg now n && negb (is_dead cfg now n)) (nodes_ s) keys) cs) s' /\
    map cl_node_id cs = ids_where (is_dead cfg now) (nodes_ s) keys /\
    (forall i, nodes_ s' !! i = nodes_ s !! i ≫= fun n => if is_dead cfg now n then None else Some (mark cfg now n)) /\
    registry_wf s' /\ counters_kept s s'.
Proof.
  intros Hwf.
  destruct (suspect_nodes_runs now (nodes_ s) (map_keys (nodes_ s)) s) as (nodes & metrics & Hrun & Hnodes).
  { apply NoDup_map_keys. }
  { intros i [n Hn]%elem_of_map_keys. split; [done|]. exists n. split; [done|].
    by apply (nk_nodes _ (rw_names _ Hwf)). }
  assert (Hkeys : forall i, nodes !! i = mark (liveness_ s) now <$> nodes_ s !! i).
  { intros i. rewrite Hnodes. case_decide as Hin; [done|]. rewrite elem_of_map_keys in Hin.
    destruct (nodes_ s !! i); [exfalso; eauto | done]. }
  set (dead := ids_where (is_dead (liveness_ s) now) (nodes_ s) (map_keys (nodes_ s))) in *.
  destruct (cleanup_nodes_runs (s <| nodes_ := nodes |> <| metrics_ := metrics |>) dead)
    as (cs & s2 & Hrun2 & Hids & [W2 N2 _ _ R2]).
  { apply registry_wf_nodes; [done|]. intros i. rewrite Hkeys. destruct (nodes_ s !! i); [|done].
    simpl. unfold mark. by case_match. }
  { apply NoDup_filter, NoDup_map_keys. }
  { intros i [_ [n Hn]%elem_of_map_keys]%list_elem_of_filter. simpl. rewrite Hkeys, Hn. eauto. }
  exists cs, s2. simpl. split_and!; [| done | | done | done].
  - eapply runs_bind; [done|]. eapply runs_bind; [exact Hrun|]. cbv beta iota.
    by eapply runs_bind; [exact Hrun2|].
  - intros i. rewrite N2. simpl. rewrite Hkeys. destruct (nodes_ s !! i) as [n|] eqn:Hn; simpl; [|by case_match].
    assert (Hd : i ∈ (list_to_set dead : gset Z) <-> is_dead (liveness_ s) now n = true).
    { rewrite elem_of_list_to_set. unfold dead, ids_where. rewrite list_elem_of_filter, elem_of_map_keys, Hn. simpl.
      split; [tauto|]. eauto. }
    destruct (is_dead (liveness_ s) now n); [rewrite decide_True | rewrite decide_False]; naive_solver.
Qed.

(** ** Disconnect *)

Definition forget_heartbeat (connection : Z) (n : NodeRecord) : NodeRecord :=
  if heartbeat_connection n =? connection then n <| heartbeat_connection := 0 |> else n.

Lemma detach_wf s connection : registry_wf s ->
  exists s', runs (detachHeartbeatConnection connection) s tt s' /\ registry_wf s' /\ counters_kept s s' /\
    nodes_ s' = forget_heartbeat connection <$> nodes_ s.
Proof.
  intros Hwf. eexists. split; [done|]. split; [|done].
  apply (registry_wf_nodes s (forget_heartbeat connection <$> nodes_ s) (metrics_ s)) in Hwf; [done|].
  intros i. rewrite lookup_fmap. destruct (nodes_ s !! i); simpl; [|done]. unfold forget_heartbeat. by case_match.
Qed.

Lemma disconnectConnection_runs s connection :
  registry_wf s -> exists cs s',
    let ids := ids_where (fun n => control_connection n =? connection) (nodes_ s) (map_keys (nodes_ s)) in
    runs (disconnectConnection connection) s cs s' /\ map cl_node_id cs = ids /\
    (forall i, nodes_ s' !! i = nodes_ s !! i ≫= fun n =>
       if control_connection n =? connection then None
       else Some (if decide (ids = []) then forget_heartbeat connection n else n)) /\
    registry_wf s' /\ counters_kept s s'.
Proof.
  intros Hwf. set (ids := ids_where (fun n => control_connection n =? connection) (nodes_ s) (map_keys (nodes_ s))).
  assert (Hids : filter (fun id => control_connection <$> nodes_ s !! id = Some connection) (map_keys (nodes_ s)) = ids).
  { unfold ids, ids_where. apply list_filter_iff. intros i. destruct (nodes_ s !! i) as [n|]; simpl; [|done].
    rewrite Z.eqb_eq. naive_solver. }
  assert (Hmem : forall i n, nodes_ s !! i = Some n -> i ∈ ids <-> (control_connection n =? connection) = true).
  { intros i n Hn. unfold ids, ids_where. rewrite list_elem_of_filter, elem_of_map_keys, Hn. simpl.
    split; [tauto|]. eauto. }
  destruct (cleanup_nodes_runs s ids Hwf) as (cs & s1 & Hrun & Hcs & [W1 N1 _ _ R1]).
  { apply NoDup_filter, NoDup_map_keys. }
  { intros i [_ Hk]%list_elem_of_filter. by apply elem_of_map_keys. }
  assert (Hnil : cs = [] <-> ids = []) by (rewrite <- Hcs; destruct cs; naive_solver).
  assert (Hn1 : forall i, nodes_ s1 !! i = nodes_ s !! i ≫= fun n =>
            if control_connection n =? connection then None else Some n).
  { intros i. rewrite N1. destruct (nodes_ s !! i) as [n|] eqn:Hn; simpl; [|by case_match].
    specialize (Hmem _ _ Hn). rewrite <- (elem_of_list_to_set (C := gset Z)) in Hmem.
    destruct (control_connection n =? connection); [rewrite decide_True | rewrite decide_False]; naive_solver. }
  destruct (decide (ids = [])) as [He|He].
  - destruct (detach_wf s1 connection W1) as (s2 & Hrun2 & W2 & R2 & N2).
    exists cs, s2. cbv zeta. split_and!; [|done| |done|unfold counters_kept in *; intuition congruence].
    + eapply runs_bind; [done|]. cbv zeta beta. rewrite Hids. eapply runs_bind; [exact Hrun|].
      rewrite bool_decide_true by by apply Hnil. by eapply runs_bind.
    + intros i. rewrite N2, lookup_fmap, Hn1. destruct (nodes_ s !! i); simpl; [|done]. case_match; simpl; [done|]. by rewrite decide_True.
  - exists cs, s1. cbv zeta. split_and!; try done.
    2: { intros i. rewrite Hn1. destruct (nodes_ s !! i); simpl; [|done]. case_match; [done|]. by rewrite decide_False. }
    eapply runs_bind; [done|]. cbv zeta beta. rewrite Hids. eapply runs_bind; [exact Hrun|].
    rewrite bool_decide_false by by rewrite Hnil. by eapply runs_bind.
Qed.
