(* ===== verification/RegistryInterface.v ===== *)
(** * Registry interface

    The requests the registry thread serves, as one operation type, and that each of them
    returns and keeps the invariant: the [at] accesses of the source never throw. *)

From Stdlib Require Import ZArith Lia Bool String.
From stdpp Require Import base gmap list strings option sorting.
From S2P Require Import Prelude Types Outcome RegistryState RegistryInvariant RegistryOps RegistryLiveness.

Local Open Scope Z_scope.

(** ** Any sequence of requests *)

Inductive registry_op :=
  | OpRegisterNode (connection : Z) (name : string) (now : Z)
  | OpUnregisterNode (connection id : Z)
  | OpAttachHeartbeat (connection id session : Z)
  | OpHeartbeat (connection id session now : Z)
  | OpAdvertise (connection id : Z) (name type hash : string) (size : Z) (transport : TransportType)
      (pool : SharedPoolMetadata)
  | OpUnadvertise (connection id endpoint : Z)
  | OpSubscribe (connection id : Z) (name type hash : string) (size : Z) (path : string)
      (transport : TransportType) (queue : SharedQueueMetadata)
  | OpUnsubscribe (connection id endpoint : Z)
  | OpResolve (connection id endpoint : Z)
  | OpQueryTopic (name : string)
  | OpEvaluateLiveness (now : Z)
  | OpDisconnect (connection : Z)
  | OpDetachHeartbeat (connection : Z).

Definition discard {A} (c : registry A) : registry unit := _ ← c; mret tt.

Definition exec_registry (op : registry_op) : registry unit :=
  match op with
  | OpRegisterNode c name now => discard (registerNode c name now)
  | OpUnregisterNode c id => discard (unregisterNode c id)
  | OpAttachHeartbeat c id session => discard (attachHeartbeat c id session)
  | OpHeartbeat c id session now => discard (heartbeat c id session now)
  | OpAdvertise c id name type hash size transport pool =>
      discard (advertise c id name type hash size transport pool)
  | OpUnadvertise c id e => discard (unadvertise c id e)
  | OpSubscribe c id name type hash size path transport queue =>
      discard (subscribe c id name type hash size path transport queue)
  | OpUnsubscribe c id e => discard (unsubscribe c id e)
  | OpResolve c id e => discard (resolve c id e)
  | OpQueryTopic name => discard (queryTopic name)
  | OpEvaluateLiveness now => discard (evaluateLiveness now)
  | OpDisconnect c => discard (disconnectConnection c)
  | OpDetachHeartbeat c => detachHeartbeatConnection c
  end.

(** Sizes are unsigned. *)
Definition op_sized (op : registry_op) : bool :=
  match op with
  | OpAdvertise _ _ _ _ _ size _ _ | OpSubscribe _ _ _ _ _ size _ _ _ => 0 <=? size
  | _ => true
  end.

(** Each request uses up at most one id of a kind. *)
Definition ids_step (s s' : RegistryState) : Prop :=
  next_node_id_ s' <= next_node_id_ s + 1 /\ next_topic_id_ s' <= next_topic_id_ s + 1 /\
  next_endpoint_id_ s' <= next_endpoint_id_ s + 1.

Lemma ids_step_refl s : ids_step s s.
Proof. unfold ids_step. lia. Qed.
Lemma ids_step_kept s s' : counters_kept s s' -> ids_step s s'.
Proof. unfold counters_kept, ids_step. lia. Qed.
#[local] Hint Resolve ids_step_refl ids_step_kept : mw.

(** A request that succeeds from [s]. *)
Definition keeps {A} (c : registry A) (s : RegistryState) : Prop :=
  exists a s', runs c s a s' /\ registry_wf s' /\ ids_step s s'.

Lemma keeps_discard {A} (c : registry A) s :
  keeps c s -> exists s', runs (discard c) s tt s' /\ registry_wf s' /\ ids_step s s'.
Proof. intros (a & s' & Hrun & ? & ?). exists s'. split; [by eapply runs_bind | done]. Qed.

Lemma keeps_same {A} (c : registry A) s a : registry_wf s -> runs c s a s -> keeps c s.
Proof. intros. exists a, s. auto with mw. Qed.

(** ** Nodes *)

Definition add_node (s : RegistryState) (connection : Z) (name : string) (now : Z) : RegistryState :=
  let id := next_node_id_ s in
  s <| next_node_id_ := id + 1 |> <| next_session_id_ := wrap 64 (next_session_id_ s + 1) |>
    <| nodes_ := <[id := mkNodeRecord id (next_session_id_ s) name connection 0 Alive now ∅ ∅]> (nodes_ s) |>
    <| node_names_ := <[name := id]> (node_names_ s) |>.

Lemma add_node_wf s connection name now :
  registry_wf s -> node_names_ s !! name = None -> registry_wf (add_node s connection name now).
Proof.
  intros Hwf Hname. pose proof (fresh_node s Hwf) as Hfresh.
  destruct Hwf as [Hp Hs [Hn1 Hn2 Hn3 Hn4] Ht [He1 He2 He3]].
  assert (Hsets : forall (f : NodeRecord -> gset Z) n i, f n = ∅ ->
            default ∅ (f <$> <[next_node_id_ s := n]> (nodes_ s) !! i) = default ∅ (f <$> nodes_ s !! i)).
  { intros f n i Hf. rewrite default_insert. case_decide; [|done]. subst. by rewrite Hfresh. }
  split.
  - eapply links_ext; [| |exact Hp]; [|done]. intros i. by apply Hsets.
  - eapply links_ext; [| |exact Hs]; [|done]. intros i. by apply Hsets.
  - split; simpl; auto.
    + intros i n [[<- <-] | [Hne Hi]]%lookup_insert_Some; simpl.
      * rewrite lookup_insert_eq. split_and!; [done | done | lia | lia].
      * destruct (Hn1 _ _ Hi) as (? & Hnm & ?). split_and!; auto; try lia.
        rewrite lookup_insert_ne; [done|]. congruence.
    + intros nm i [[<- <-] | [Hne Hi]]%lookup_insert_Some.
      * eexists. by rewrite lookup_insert_eq.
      * destruct (Hn2 _ _ Hi) as (n & Hn & ?). exists n. rewrite lookup_insert_ne; [done|]. congruence.
  - destruct Ht. by split.
  - split; simpl; auto; lia.
Qed.

Lemma registerNode_runs s connection name now :
  registry_wf s -> ids_left s 1 -> empty name = false -> node_names_ s !! name = None ->
  runs (registerNode connection name now) s (mkIdResult Ok (next_node_id_ s) (next_session_id_ s))
    (add_node s connection name now).
Proof.
  intros Hwf Hleft He Hname. unfold runs, registerNode. rewrite He. unfold_cpp. rewrite Hname. f_equal.
  unfold add_node. simpl. rewrite !emplace_new by (done || by apply fresh_node).
  rewrite (wrap_small 64 (next_node_id_ s + 1)); [done|]. pose proof (ek_next _ (rw_endpoints _ Hwf)). destruct Hleft as (? & ? & ?). ulia.
Qed.

Lemma registerNode_keeps s connection name now :
  registry_wf s -> ids_left s 1 -> keeps (registerNode connection name now) s.
Proof.
  intros Hwf Hleft. destruct (empty name) eqn:He.
  { eapply keeps_same; [done|]. unfold runs, registerNode. by rewrite He. }
  destruct (node_names_ s !! name) eqn:Hname.
  { eapply keeps_same; [done|]. unfold runs, registerNode. rewrite He. unfold_cpp. by rewrite Hname. }
  eexists _, _. split; [by apply registerNode_runs|]. split; [by apply add_node_wf|].
  unfold ids_step. simpl. lia.
Qed.

(** Attaching or beating only touches the node's own liveness fields. *)
Lemma attachHeartbeat_keeps s connection id session : registry_wf s -> keeps (attachHeartbeat connection id session) s.
Proof.
  intros Hwf. unfold keeps, attachHeartbeat, runs. unfold_cpp.
  destruct (nodes_ s !! id) as [n|]; [|eexists _, _; auto with mw].
  do 2 (case_match; [eexists _, _; auto with mw|]).
  eexists _, _. split; [done|]. split; [|by apply ids_step_kept].
  apply (registry_wf_nodes s (alter (fun n => n <| heartbeat_connection := connection |>) id (nodes_ s)) (metrics_ s))
    in Hwf; [done|]. intros i. by apply alter_shape.
Qed.

Lemma heartbeat_keeps s connection id session now : registry_wf s -> keeps (heartbeat connection id session now) s.
Proof.
  intros Hwf. unfold keeps, heartbeat, runs. unfold_cpp.
  destruct (nodes_ s !! id) as [n|]; [|eexists _, _; auto with mw].
  do 2 (case_match; [eexists _, _; auto with mw|]).
  eexists _, _. split; [done|]. split; [|by apply ids_step_kept].
  eapply (registry_wf_nodes s (alter (fun n => n <| last_seen := now |> <| liveness := Alive |>) id (nodes_ s)))
    in Hwf; [done|]. intros i. by apply alter_shape.
Qed.

(** ** Endpoints *)

Definition owns (s : RegistryState) (connection id : Z) : bool :=
  match nodes_ s !! id with Some n => control_connection n =? connection | None => false end.

Lemma owns_true s connection id : owns s connection id = true -> exists n, owner s connection id n.
Proof. unfold owns, owner. destruct (nodes_ s !! id) as [n|]; [|done]. intros ?%Z.eqb_eq. eauto. Qed.
Lemma owns_false s connection id : owns s connection id = false -> forall n, ~ owner s connection id n.
Proof. unfold owns, owner. destruct (nodes_ s !! id) as [n|]; [|by intros _ ? [? ?]]. intros ?%Z.eqb_neq n' [? ?]. by simplify_eq. Qed.

(** The answer to a request for an endpoint: ownership first, then the arguments, then
    the topic. *)
Definition admission (owned args : bool) (refused : option (ErrorCode * Z)) : ErrorCode * Z :=
  if negb owned then (NotRegistered, 0) else if negb args then (InvalidArgument, 0) else default (Ok, 0) refused.

Lemma advertise_refused s connection id name type hash x transport pool code t :
  registry_wf s ->
  admission (owns s connection id) (advertisable name type hash x transport pool)
    (refusal s name type hash transport true) = (code, t) -> code <> Ok ->
  runs (advertise connection id name type hash x transport pool) s
    (mkEndpointResult code t 0 empty_pool_metadata) s.
Proof.
  intros Hwf Had Hcode. unfold admission in Had. destruct (owns s connection id) eqn:Ho; simpl in Had.
  - apply owns_true in Ho as [n Ho]. eapply runs_bind; [by apply owned_runs|]. cbv beta iota.
    unfold advertisable in Had. rewrite negb_involutive in Had. case_match; [by simplify_eq|].
    eapply runs_bind; [by apply refusal_runs|]. destruct (refusal _ _ _ _ _ _) as [[]|]; by simplify_eq/=.
  - simplify_eq. eapply runs_bind; [apply not_owned_runs; by apply owns_false | done].
Qed.

Lemma subscribe_refused s connection id name type hash x path transport queue code t :
  registry_wf s ->
  admission (owns s connection id) (subscribable name type hash x path transport queue)
    (refusal s name type hash transport false) = (code, t) -> code <> Ok ->
  runs (subscribe connection id name type hash x path transport queue) s
    (mkEndpointResult code t 0 empty_pool_metadata) s.
Proof.
  intros Hwf Had Hcode. unfold admission in Had. destruct (owns s connection id) eqn:Ho; simpl in Had.
  - apply owns_true in Ho as [n Ho]. eapply runs_bind; [by apply owned_runs|]. cbv beta iota.
    unfold subscribable in Had. rewrite negb_involutive in Had. case_match; [by simplify_eq|].
    eapply runs_bind; [by apply refusal_runs|]. destruct (refusal _ _ _ _ _ _) as [[]|]; by simplify_eq/=.
  - simplify_eq. eapply runs_bind; [apply not_owned_runs; by apply owns_false | done].
Qed.

Lemma refusal_code s name type hash transport publishing code t :
  refusal s name type hash transport publishing = Some (code, t) -> code <> Ok.
Proof. unfold refusal. repeat case_match; naive_solver. Qed.

Lemma admission_ok owned args refused t : (forall code t, refused = Some (code, t) -> code <> Ok) ->
  admission owned args refused = (Ok, t) -> owned = true /\ args = true /\ refused = None.
Proof.
  unfold admission. intros Hr. destruct owned, args, refused as [[c u]|]; simpl; intros [=]; subst; auto.
  by destruct (Hr Ok t).
Qed.

(** What an accepted [advertise] leaves behind. *)
Record advertised (s s' : RegistryState) (connection id : Z) (name type hash : string) (x : Z)
    (transport : TransportType) (pool : SharedPoolMetadata) (r : EndpointResult) : Prop := {
  ad_result : ep_error r = Ok /\ ep_pool r = pool /\ publishers_ s !! ep_endpoint_id r = None;
  ad_publishers : publishers_ s' = <[ep_endpoint_id r :=
    mkPublisherEndpoint (ep_endpoint_id r) id (ep_topic_id r) x transport pool]> (publishers_ s);
  ad_subscribers : subscribers_ s' = subscribers_ s;
  ad_topic : topic_names_ s' !! name = Some (ep_topic_id r) /\ exists T, topics_ s' !! ep_topic_id r = Some T /\
    type_name T = type /\ type_hash T = hash /\ topic_transport T = transport /\
    publisher_endpoint T = Some (ep_endpoint_id r) /\ topic_pool T = pool /\ topic_max_message_size T <= x;
  ad_node : ep_endpoint_id r ∈ node_pubs s' id;
}.

Record subscribed (s s' : RegistryState) (connection id : Z) (name type hash : string) (x : Z) (path : string)
    (transport : TransportType) (queue : SharedQueueMetadata) (r : EndpointResult) : Prop := {
  su_result : ep_error r = Ok /\ subscribers_ s !! ep_endpoint_id r = None;
  su_subscribers : subscribers_ s' = <[ep_endpoint_id r :=
    mkSubscriberEndpoint (ep_endpoint_id r) id (ep_topic_id r) path x transport queue]> (subscribers_ s);
  su_publishers : publishers_ s' = publishers_ s;
  su_topic : topic_names_ s' !! name = Some (ep_topic_id r) /\ exists T, topics_ s' !! ep_topic_id r = Some T /\
    type_name T = type /\ type_hash T = hash /\ topic_transport T = transport /\
    ep_endpoint_id r ∈ topic_subscriber_endpoints T /\ topic_pool T = ep_pool r /\ topic_max_message_size T <= x;
  su_node : ep_endpoint_id r ∈ node_subs s' id;
}.

Lemma joins_type s name type hash transport x t T next :
  joins s name type hash transport x t T next -> type_name T = type /\ type_hash T = hash.
Proof. by destruct 1. Qed.

Lemma advertise_accepted s connection id name type hash x transport pool t :
  registry_wf s -> ids_left s 1 -> 0 <= x ->
  admission (owns s connection id) (advertisable name type hash x transport pool)
    (refusal s name type hash transport true) = (Ok, t) ->
  exists r s', runs (advertise connection id name type hash x transport pool) s r s' /\ registry_wf s' /\
    ids_step s s' /\ advertised s s' connection id name type hash x transport pool r.
Proof.
  intros Hwf Hleft Hx Had. apply admission_ok in Had as (Ho & Hargs & Href); [|intros; by eapply refusal_code].
  apply owns_true in Ho as [n Ho].
  destruct (refusal_joins s name type hash transport true x Hwf Href) as (tid & T & next & Hjoin & Hnone).
  pose proof (joins_base s Hwf name type hash transport x tid T next Hjoin) as (Hbase & Htr & Hnm).
  pose proof (joins_type _ _ _ _ _ _ _ _ _ Hjoin) as [Hty Hh]. pose proof Ho as [Hn _].
  assert (Hsize : x <= u32_max) by (unfold advertisable in Hargs; bools; ulia).
  pose proof (base_next s Hwf T tid next x Hbase) as Hnext.
  eexists _, _. split; [by eapply advertise_runs; eauto|]. split; [|split; [|split; simpl]].
  - by apply link_publisher_wf; eauto.
  - unfold ids_step. simpl. destruct Hbase; lia.
  - split_and!; auto using fresh_publisher.
  - done.
  - done.
  - rewrite Hnm, !lookup_insert_eq. split; [done|]. eexists. split; [done|]. simpl. split_and!; auto; lia.
  - unfold node_pubs. simpl. rewrite lookup_alter_eq, Hn. simpl. set_solver.
Qed.

Lemma subscribe_accepted s connection id name type hash x path transport queue t :
  registry_wf s -> ids_left s 1 -> 0 <= x ->
  admission (owns s connection id) (subscribable name type hash x path transport queue)
    (refusal s name type hash transport false) = (Ok, t) ->
  exists r s', runs (subscribe connection id name type hash x path transport queue) s r s' /\ registry_wf s' /\
    ids_step s s' /\ subscribed s s' connection id name type hash x path transport queue r.
Proof.
  intros Hwf Hleft Hx Had. apply admission_ok in Had as (Ho & Hargs & Href); [|intros; by eapply refusal_code].
  apply owns_true in Ho as [n Ho].
  destruct (refusal_joins s name type hash transport false x Hwf Href) as (tid & T & next & Hjoin & _).
  pose proof (joins_base s Hwf name type hash transport x tid T next Hjoin) as (Hbase & Htr & Hnm).
  pose proof (joins_type _ _ _ _ _ _ _ _ _ Hjoin) as [Hty Hh]. pose proof Ho as [Hn _].
  assert (Hsize : x <= u32_max) by (unfold subscribable in Hargs; bools; ulia).
  pose proof (base_next s Hwf T tid next x Hbase) as Hnext.
  eexists _, _. split; [by eapply subscribe_runs; eauto|]. split; [|split; [|split; simpl]].
  - by apply link_subscriber_wf; eauto.
  - unfold ids_step. simpl. destruct Hbase; lia.
  - split_and!; auto using fresh_subscriber.
  - done.
  - done.
  - rewrite Hnm, !lookup_insert_eq. split; [done|]. eexists. split; [done|]. simpl. split_and!; auto; (lia || set_solver).
  - unfold node_subs. simpl. rewrite lookup_alter_eq, Hn. simpl. set_solver.
Qed.

Lemma advertise_keeps s connection id name type hash x transport pool :
  registry_wf s -> ids_left s 1 -> 0 <= x -> keeps (advertise connection id name type hash x transport pool) s.
Proof.
  intros Hwf Hleft Hx.
  destruct (admission (owns s connection id) (advertisable name type hash x transport pool)
              (refusal s name type hash transport true)) as [code t] eqn:Had.
  destruct (decide (code = Ok)) as [->|Hne].
  - destruct (advertise_accepted _ _ _ _ _ _ _ _ _ _ Hwf Hleft Hx Had) as (r & s' & ? & ? & ? & _). by exists r, s'.
  - by eapply keeps_same, advertise_refused.
Qed.

Lemma subscribe_keeps s connection id name type hash x path transport queue :
  registry_wf s -> ids_left s 1 -> 0 <= x -> keeps (subscribe connection id name type hash x path transport queue) s.
Proof.
  intros Hwf Hleft Hx.
  destruct (admission (owns s connection id) (subscribable name type hash x path transport queue)
              (refusal s name type hash transport false)) as [code t] eqn:Had.
  destruct (decide (code = Ok)) as [->|Hne].
  - destruct (subscribe_accepted _ _ _ _ _ _ _ _ _ _ _ Hwf Hleft Hx Had) as (r & s' & ? & ? & ? & _). by exists r, s'.
  - by eapply keeps_same, subscribe_refused.
Qed.

Lemma unlinked_keeps pubs subs s s' : unlinked pubs subs s s' -> registry_wf s' /\ ids_step s s'.
Proof. intros [W _ _ _ _ R]. split; [done|]. unfold ids_step. lia. Qed.

Lemma unadvertise_keeps s connection id e : registry_wf s -> keeps (unadvertise connection id e) s.
Proof.
  intros Hwf. destruct (owns s connection id) eqn:Ho.
  - apply owns_true in Ho as [n Ho].
    destruct (publishers_ s !! e) as [P|] eqn:He; [destruct (decide (pe_node_id P = id)) as [Hid|Hid]|].
    + destruct (unadvertise_unlinked s connection id n e P Hwf Ho He Hid) as (s' & Hrun & Hun).
      exists Ok, s'. split; [done|]. by eapply unlinked_keeps.
    + eapply keeps_same; [done|]. apply unadvertise_refused. intros (? & ? & ? & ? & ?). by simplify_eq.
    + eapply keeps_same; [done|]. apply unadvertise_refused. intros (? & ? & ? & ? & ?). by simplify_eq.
  - eapply keeps_same; [done|]. apply unadvertise_refused. intros (? & ? & ? & _). by eapply owns_false.
Qed.

Lemma unsubscribe_keeps s connection id e : registry_wf s -> keeps (unsubscribe connection id e) s.
Proof.
  intros Hwf. destruct (owns s connection id) eqn:Ho.
  - apply owns_true in Ho as [n Ho].
    destruct (subscribers_ s !! e) as [S|] eqn:He; [destruct (decide (se_node_id S = id)) as [Hid|Hid]|].
    + destruct (unsubscribe_unlinked s connection id n e S Hwf Ho He Hid) as (s' & Hrun & Hun).
      exists Ok, s'. split; [done|]. by eapply unlinked_keeps.
    + eapply keeps_same; [done|]. apply unsubscribe_refused. intros (? & ? & ? & ? & ?). by simplify_eq.
    + eapply keeps_same; [done|]. apply unsubscribe_refused. intros (? & ? & ? & ? & ?). by simplify_eq.
  - eapply keeps_same; [done|]. apply unsubscribe_refused. intros (? & ? & ? & _). by eapply owns_false.
Qed.

Lemma unregisterNode_keeps s connection id : registry_wf s -> keeps (unregisterNode connection id) s.
Proof.
  intros Hwf. destruct (owns s connection id) eqn:Ho.
  - apply owns_true in Ho as [n Ho]. destruct (unregisterNode_runs s connection id n Hwf Ho) as (s' & Hrun & [] & _).
    exists Ok, s'. split_and!; auto. unfold ids_step. lia.
  - eapply keeps_same; [done|]. apply unregisterNode_refused. by apply owns_false.
Qed.

(** ** Discovery *)

Definition discovered (S : SubscriberEndpoint) : DiscoveredSubscriber :=
  mkDiscoveredSubscriber (se_endpoint_id S) (se_data_socket_path S) (se_max_message_size S) (se_queue S).

Lemma resolve_found s connection id n e P :
  registry_wf s -> owner s connection id n -> publishers_ s !! e = Some P -> pe_node_id P = id ->
  let subs := omap (fun e => discovered <$> subscribers_ s !! e) (set_elements (topic_subs s (pe_topic_id P))) in
  runs (resolve connection id e) s
    (mkDiscoveryResult (if bool_decide (topic_subs s (pe_topic_id P) = ∅) then TopicNotFound else Ok)
       (pe_topic_id P) (pe_transport P) (pe_pool P) subs) s.
Proof.
  intros Hwf Ho He Hid. destruct (publisher_topic s Hwf _ _ He) as (T & HT & Hpub).
  destruct (tk_publisher _ (rw_topics _ Hwf) _ _ _ He HT) as [Htr Hpool].
  destruct (nk_topics _ (rw_names _ Hwf) _ _ HT) as (Htid & _).
  assert (Hsubs : topic_subs s (pe_topic_id P) = topic_subscriber_endpoints T) by (unfold topic_subs; by rewrite HT).
  cbv zeta. rewrite Hsubs. eapply runs_bind; [by apply owned_runs|]. eapply runs_bind; [done|]. cbv beta iota.
  rewrite He, Hid, Z.eqb_refl. simpl negb. cbv iota. eapply runs_bind; [by apply topics_at_runs|]. cbv beta zeta.
  rewrite Htid, Htr, Hpool. case_bool_decide as Hnil; [by rewrite Hnil|].
  eapply runs_bind.
  - apply (for_collect_reads _ _ (fun e => option_list (discovered <$> subscribers_ s !! e))).
    intros e' Hin%elem_of_set_elements. destruct (topic_subscriber s Hwf _ _ _ HT Hin) as (S & HS & _). rewrite HS.
    eapply runs_bind; [by apply subscribers_at_runs | done].
  - unfold runs. unfold_cpp. do 3 f_equal. by apply flat_map_omap.
Qed.

Lemma resolve_refused s connection id e :
  ~ (exists n P, owner s connection id n /\ publishers_ s !! e = Some P /\ pe_node_id P = id) ->
  runs (resolve connection id e) s
    (mkDiscoveryResult EndpointNotFound 0 UnixDomainSocket empty_pool_metadata []) s.
Proof.
  intros Hno. destruct (owner_dec s connection id) as [[n Hown]|Hnone].
  - eapply runs_bind; [by apply owned_runs|]. eapply runs_bind; [done|]. cbv beta iota.
    destruct (publishers_ s !! e) as [P|] eqn:He; [|done].
    destruct (Z.eqb_spec (pe_node_id P) id); [|done]. exfalso. eauto 6.
  - eapply runs_bind; [by apply not_owned_runs|]. by eapply runs_bind.
Qed.

Lemma resolve_keeps s connection id e : registry_wf s -> keeps (resolve connection id e) s.
Proof.
  intros Hwf. destruct (owns s connection id) eqn:Ho.
  - apply owns_true in Ho as [n Ho].
    destruct (publishers_ s !! e) as [P|] eqn:He; [destruct (decide (pe_node_id P = id)) as [Hid|Hid]|].
    + eapply keeps_same; [done|]. by eapply resolve_found.
    + eapply keeps_same; [done|]. apply resolve_refused. intros (? & ? & ? & ? & ?). by simplify_eq.
    + eapply keeps_same; [done|]. apply resolve_refused. intros (? & ? & ? & ? & ?). by simplify_eq.
  - eapply keeps_same; [done|]. apply resolve_refused. intros (? & ? & ? & _). by eapply owns_false.
Qed.

Lemma queryTopic_runs s name : registry_wf s ->
  runs (queryTopic name) s (topic_names_ s !! name ≫= fun t => topics_ s !! t) s.
Proof.
  intros Hwf. unfold runs, queryTopic. unfold_cpp. destruct (topic_names_ s !! name) as [t|] eqn:Hname; [|done].
  destruct (nk_topic_names _ (rw_names _ Hwf) _ _ Hname) as (T & HT & _). unfold topics_at. unfold_cpp. simpl.
  by rewrite HT.
Qed.

(** ** The whole interface *)

Lemma exec_registry_keeps op s :
  registry_wf s -> ids_left s 1 -> op_sized op = true ->
  exists s', runs (exec_registry op) s tt s' /\ registry_wf s' /\ ids_step s s'.
Proof.
  intros Hwf Hleft Hsized. destruct op; simpl; try apply keeps_discard.
  - by apply registerNode_keeps.
  - by apply unregisterNode_keeps.
  - by apply attachHeartbeat_keeps.
  - by apply heartbeat_keeps.
  - apply advertise_keeps; [done | done | simpl in Hsized; lia].
  - by apply unadvertise_keeps.
  - apply subscribe_keeps; [done | done | simpl in Hsized; lia].
  - by apply unsubscribe_keeps.
  - by apply resolve_keeps.
  - eapply keeps_same; [done|]. by apply queryTopic_runs.
  - destruct (evaluateLiveness_runs s now Hwf) as (cs & s' & Hrun & _ & _ & W & R).
    eexists _, s'. eauto with mw.
  - destruct (disconnectConnection_runs s connection Hwf) as (cs & s' & Hrun & _ & _ & W & R).
    eexists _, s'. eauto with mw.
  - destruct (detach_wf s connection Hwf) as (s' & Hrun & W & R & _). exists s'. auto with mw.
Qed.

Lemma exec_all_keeps ops s :
  registry_wf s -> ids_left s (Z.of_nat (length ops)) -> forallb op_sized ops = true ->
  exists s', runs (for_each ops exec_registry) s tt s' /\ registry_wf s'.
Proof.
  revert s. induction ops as [|op ops IH]; intros s Hwf Hleft Hsized; simpl in *.
  - by exists s.
  - apply andb_true_iff in Hsized as [Hop Hops]. unfold ids_left in Hleft.
    destruct (exec_registry_keeps op s Hwf) as (s1 & Hrun & Hwf1 & Hstep); [unfold ids_left; lia | done |].
    destruct (IH s1) as (s2 & Hrun2 & Hwf2); [done | | done |].
    { unfold ids_left, ids_step in *. lia. }
    exists s2. split; [by eapply runs_bind | done].
Qed.

Lemma create_registry_wf cfg s : create_registry cfg = Ret s -> registry_wf s /\ ids_left s (2 ^ 64 - 2).
Proof.
  unfold create_registry. case_match; [done|]. intros [= <-]. split; [|unfold ids_left; simpl; lia].
  split.
  - split; unfold node_pubs, topic_pubs; simpl; intros *; rewrite ?lookup_empty; simpl; set_solver.
  - split; unfold node_subs, topic_subs; simpl; intros *; rewrite ?lookup_empty; simpl; set_solver.
  - split; simpl; intros *; by rewrite lookup_empty.
  - split; simpl; intros *; by rewrite lookup_empty.
  - split; simpl; [intros *; by rewrite lookup_empty | intros *; by rewrite lookup_empty | lia].
Qed.

(** The listed ids increase strictly. *)
Lemma strictly_sorted (l : list Z) : StronglySorted Z.le l -> NoDup l -> StronglySorted Z.lt l.
Proof.
  induction 1 as [|x l Hs IH Hx]; intros Hnd; constructor.
  - apply IH. by apply NoDup_cons in Hnd as [_ ?].
  - apply NoDup_cons in Hnd as [Hnot _]. apply Forall_forall. intros y Hy.
    assert (x <= y) by (rewrite Forall_forall in Hx; auto). assert (x <> y) by congruence. lia.
Qed.

Lemma resolve_sorted s (X : gset Z) :
  registry_wf s -> (forall e, e ∈ set_elements X -> is_Some (subscribers_ s !! e)) ->
  StronglySorted Z.lt (map ds_endpoint_id (omap (fun e => discovered <$> subscribers_ s !! e) (set_elements X))).
Proof.
  intros Hwf Hall. replace (map _ _) with (set_elements X).
  { apply strictly_sorted; [apply Sorted_set_elements | apply NoDup_set_elements]. }
  revert Hall. generalize (set_elements X). intros l. induction l as [|e l IH]; intros Hall; [done|].
  destruct (Hall e) as [S HS]; [set_solver|]. simpl. rewrite HS. simpl. f_equal; [|apply IH; set_solver].
  symmetry. by apply (lk_entry _ _ _ _ _ _ (rw_subs _ Hwf)).
Qed.

(** ** Listings *)

#[export] Instance name_le_total {A} (name : A -> string) : Total (name_le name).
Proof. intros x y. unfold name_le. apply String.leb_total. Qed.

Lemma elem_of_map_records {A} (m : gmap Z A) a : a ∈ map_records m <-> exists k, m !! k = Some a.
Proof.
  unfold map_records. rewrite list_elem_of_omap. split; [naive_solver|]. intros (k & Hk). exists k.
  split; [|done]. apply elem_of_map_keys. eauto.
Qed.

Lemma NoDup_map_records {A} (m : gmap Z A) :
  (forall i j a, m !! i = Some a -> m !! j = Some a -> i = j) -> NoDup (map_records m).
Proof.
  intros Hinj. unfold map_records. pose proof (NoDup_map_keys m) as Hnd. revert Hnd.
  generalize (map_keys m). intros l. induction l as [|k l IH]; simpl; [intros; constructor|].
  intros [Hk Hnd]%NoDup_cons. destruct (m !! k) as [a|] eqn:Ha; [|by apply IH].
  apply NoDup_cons. split; [|by apply IH]. intros (k' & Hk' & Ha')%list_elem_of_omap.
  by rewrite (Hinj _ _ _ Ha Ha') in Hk.
Qed.

Lemma sorted_records {A} (name : A -> string) (m : gmap Z A) :
  (forall i j a, m !! i = Some a -> m !! j = Some a -> i = j) ->
  let records := merge_sort (name_le name) (map_records m) in
  Sorted (name_le name) records /\ NoDup records /\ forall a, a ∈ records <-> exists k, m !! k = Some a.
Proof.
  intros Hinj records. split_and!.
  - apply (Sorted_merge_sort _).
  - unfold records. rewrite (merge_sort_Permutation (name_le name)). by apply NoDup_map_records.
  - intros a. unfold records. rewrite (merge_sort_Permutation (name_le name)). apply elem_of_map_records.
Qed.
