(* ===== verification/RegistryTheorems.v ===== *)
(** * Registry theorems

    What clients and the server rely on: the invariant after any sequence of requests, the
    answers to endpoint requests, discovery, cleanup of dead nodes and liveness. *)

From Stdlib Require Import ZArith Lia Bool String.
From stdpp Require Import base gmap list strings option sorting.
From S2P Require Import Prelude Types Outcome RegistryState RegistryInvariant RegistryOps RegistryLiveness RegistryInterface.

Local Open Scope Z_scope.

(** ** A registry with two nodes

    A camera publishes images of up to 4096 bytes, which a viewer takes up to 1024 bytes of. *)

Definition demo_pool : SharedPoolMetadata := mkSharedPoolMetadata "/mw_pool" 7 65536 1.
Definition demo_queue : SharedQueueMetadata := mkSharedQueueMetadata "/mw_queue" 9 4096 16 3 1 100.
Definition demo_ops : list registry_op :=
  [OpRegisterNode 10 "camera" 0; OpRegisterNode 20 "viewer" 0;
   OpAdvertise 10 1 "image" "Image" "h1" 4096 SharedMemory demo_pool;
   OpSubscribe 20 2 "image" "Image" "h1" 1024 "viewer.sock" SharedMemory demo_queue].

Definition run_from (ops : list registry_op) (s : RegistryState) : RegistryState := snd (for_each ops exec_registry s).
Definition fresh_registry : RegistryState :=
  mkRegistryState 1 1 1 1 ∅ ∅ ∅ ∅ ∅ ∅ default_liveness (mkRegistryMetrics 0 0 0).
Definition demo : RegistryState := Eval vm_compute in run_from demo_ops fresh_registry.

Lemma demo_run : runs (for_each demo_ops exec_registry) fresh_registry tt demo.
Proof. vm_compute. reflexivity. Qed.

Lemma demo_wf : registry_wf demo.
Proof.
  destruct (create_registry_wf default_liveness fresh_registry eq_refl) as [Hwf Hleft].
  destruct (exec_all_keeps demo_ops fresh_registry Hwf) as (s & Hrun & Hs);
    [unfold ids_left in *; simpl in *; lia | reflexivity|].
  by destruct (runs_det _ _ _ _ _ _ Hrun demo_run) as [_ <-].
Qed.

Lemma demo_left n : n <= 2 ^ 63 -> ids_left demo n.
Proof. unfold ids_left. simpl. lia. Qed.

Lemma demo_owner : exists n, owner demo 10 1 n.
Proof. apply owns_true. reflexivity. Qed.

(** ** Theorems *)

(** C3: Starting from a new registry, any sequence of requests (registration, heartbeats,
    advertising, subscribing, their inverses, discovery, queries, liveness evaluation and
    disconnects, fewer than 2^64 - 2 of them) returns without an exception, and afterwards the
    bookkeeping is consistent: names and ids in bijection, every endpoint linked from exactly
    its node and its topic, no empty topic, and every topic limit the least of its endpoints'. *)
Theorem registry_requests_keep_invariant cfg s ops :
  create_registry cfg = Ret s -> Z.of_nat (length ops) <= 2 ^ 64 - 2 -> forallb op_sized ops = true ->
  exists s', runs (for_each ops exec_registry) s tt s' /\ registry_wf s'.
Proof.
  intros [Hwf Hleft]%create_registry_wf Hlen Hsized. apply exec_all_keeps; auto.
  unfold ids_left in *. lia.
Qed.

Lemma registry_requests_keep_invariant_witness :
  exists s', runs (for_each demo_ops exec_registry) fresh_registry tt s' /\ registry_wf s'.
Proof.
  apply (registry_requests_keep_invariant default_liveness fresh_registry demo_ops); [reflexivity | simpl; lia | reflexivity].
Defined.

(** [advertise] answers with the first failing check (ownership of the node, the
    arguments, then type, transport and uniqueness of the publisher on the named topic) and
    then changes nothing; otherwise it records a publisher under a fresh id, linked from its
    node and from a topic with the requested name and type, whose limit it lowers. *)
Theorem advertise_answers s connection id name type hash x transport pool :
  registry_wf s -> ids_left s 1 -> 0 <= x ->
  let answer := admission (owns s connection id) (advertisable name type hash x transport pool)
                  (refusal s name type hash transport true) in
  exists r s', runs (advertise connection id name type hash x transport pool) s r s' /\ registry_wf s' /\
    ep_error r = fst answer /\
    (ep_error r <> Ok -> s' = s /\ r = mkEndpointResult (fst answer) (snd answer) 0 empty_pool_metadata) /\
    (ep_error r = Ok -> advertised s s' connection id name type hash x transport pool r).
Proof.
  intros Hwf Hleft Hx. destruct (admission _ _ _) as [code t] eqn:Had. simpl.
  destruct (decide (code = Ok)) as [->|Hne].
  - destruct (advertise_accepted _ _ _ _ _ _ _ _ _ _ Hwf Hleft Hx Had) as (r & s' & Hrun & Hwf' & _ & Hr).
    exists r, s'. pose proof (ad_result _ _ _ _ _ _ _ _ _ _ _ Hr) as [Hok _]. split_and!; auto. done.
  - eexists _, s. split; [by eapply advertise_refused|]. by split_and!.
Qed.

Lemma advertise_answers_witness :
  exists r s', runs (advertise 10 1 "image" "Image" "h1" 64 SharedMemory demo_pool) demo r s' /\
    ep_error r = DuplicatePublisher.
Proof.
  destruct (advertise_answers demo 10 1 "image" "Image" "h1" 64 SharedMemory demo_pool demo_wf
              (demo_left 1 ltac:(lia)) ltac:(lia)) as (r & s' & Hrun & _ & Herr & _).
  exists r, s'. split; [exact Hrun | rewrite Herr; reflexivity].
Defined.

(** [subscribe] answers with the first failing check (ownership, arguments, then type
    and transport of the named topic) and then changes nothing; otherwise it records a
    subscriber under a fresh id, linked from its node and its topic, and returns the pool of
    the topic's publisher. *)
Theorem subscribe_answers s connection id name type hash x path transport queue :
  registry_wf s -> ids_left s 1 -> 0 <= x ->
  let answer := admission (owns s connection id) (subscribable name type hash x path transport queue)
                  (refusal s name type hash transport false) in
  exists r s', runs (subscribe connection id name type hash x path transport queue) s r s' /\ registry_wf s' /\
    ep_error r = fst answer /\
    (ep_error r <> Ok -> s' = s /\ r = mkEndpointResult (fst answer) (snd answer) 0 empty_pool_metadata) /\
    (ep_error r = Ok -> subscribed s s' connection id name type hash x path transport queue r).
Proof.
  intros Hwf Hleft Hx. destruct (admission _ _ _) as [code t] eqn:Had. simpl.
  destruct (decide (code = Ok)) as [->|Hne].
  - destruct (subscribe_accepted _ _ _ _ _ _ _ _ _ _ _ Hwf Hleft Hx Had) as (r & s' & Hrun & Hwf' & _ & Hr).
    exists r, s'. pose proof (su_result _ _ _ _ _ _ _ _ _ _ _ _ Hr) as [Hok _]. split_and!; auto. done.
  - eexists _, s. split; [by eapply subscribe_refused|]. by split_and!.
Qed.

Lemma subscribe_answers_witness :
  exists r s', runs (subscribe 10 1 "image" "Image" "h1" 64 "c.sock" SharedMemory demo_queue) demo r s' /\
    subscribed demo s' 10 1 "image" "Image" "h1" 64 "c.sock" SharedMemory demo_queue r.
Proof.
  destruct (subscribe_answers demo 10 1 "image" "Image" "h1" 64 "c.sock" SharedMemory demo_queue demo_wf
              (demo_left 1 ltac:(lia)) ltac:(lia)) as (r & s' & Hrun & _ & Herr & _ & Hok).
  exists r, s'. split; [exact Hrun | apply Hok; rewrite Herr; reflexivity].
Defined.

(** [resolve] for a publisher of the caller's own node lists exactly the subscribers of
    its topic, once each, in increasing endpoint order, with their paths, limits and queues,
    and the publisher's own transport and pool; it says TopicNotFound when there is none, and
    changes nothing. *)
Theorem resolve_lists_subscribers s connection id n e P :
  registry_wf s -> owner s connection id n -> publishers_ s !! e = Some P -> pe_node_id P = id ->
  exists r, runs (resolve connection id e) s r s /\
    dr_topic_id r = pe_topic_id P /\ dr_transport r = pe_transport P /\ dr_pool r = pe_pool P /\
    (dr_error r = Ok <-> exists e' S, subscribers_ s !! e' = Some S /\ se_topic_id S = pe_topic_id P) /\
    (dr_error r = Ok \/ dr_error r = TopicNotFound) /\
    (forall d, d ∈ dr_subscribers r <->
       exists e' S, subscribers_ s !! e' = Some S /\ se_topic_id S = pe_topic_id P /\ d = discovered S) /\
    StronglySorted Z.lt (map ds_endpoint_id (dr_subscribers r)).
Proof.
  intros Hwf Ho He Hid. eexists. split; [by eapply resolve_found|]. simpl.
  assert (Hmem : forall e', e' ∈ topic_subs s (pe_topic_id P) <->
            exists S, subscribers_ s !! e' = Some S /\ se_topic_id S = pe_topic_id P).
  { intros e'. split; [apply (lk_topic _ _ _ _ _ _ (rw_subs _ Hwf))|]. intros (S & He' & <-).
    by apply (lk_entry _ _ _ _ _ _ (rw_subs _ Hwf)). }
  split_and!; try done.
  - case_bool_decide as Hnil.
    + split; [done|]. intros (e' & S & Hs). exfalso. assert (e' ∈ topic_subs s (pe_topic_id P)) by (apply Hmem; eauto).
      set_solver.
    + split; [|done]. intros _. apply set_choose_L in Hnil as [e' He']. apply Hmem in He' as (S & ? & ?). eauto.
  - case_bool_decide; auto.
  - intros d. rewrite list_elem_of_omap. setoid_rewrite elem_of_set_elements. split.
    + intros (e' & (S & HS & Ht)%Hmem & Hd). exists e', S. rewrite HS in Hd. by simplify_eq/=.
    + intros (e' & S & HS & Ht & ->). exists e'. rewrite HS. split; [apply Hmem; eauto | done].
  - apply resolve_sorted; [done|]. intros e' He'%elem_of_set_elements. apply Hmem in He' as (S & ? & _). eauto.
Qed.

Lemma resolve_lists_subscribers_witness :
  exists r, runs (resolve 10 1 1) demo r demo /\ StronglySorted Z.lt (map ds_endpoint_id (dr_subscribers r)).
Proof.
  destruct demo_owner as [n Hn].
  destruct (resolve_lists_subscribers demo 10 1 n 1
    (mkPublisherEndpoint 1 1 1 4096 SharedMemory demo_pool) demo_wf Hn eq_refl eq_refl)
    as (r & Hrun & _ & _ & _ & _ & _ & _ & Hs).
  by exists r.
Defined.

(** A node unregistered by its own control connection leaves no trace: its record, its
    name and every publisher and subscriber of it are gone, nothing else is, and the
    invariant (hence the links and limits of the topics that remain) holds; any other
    connection is refused and changes nothing. *)
Theorem unregister_leaves_no_trace s connection id :
  registry_wf s ->
  exists code s', runs (unregisterNode connection id) s code s' /\
    if owns s connection id then code = Ok /\ node_removed id s s' else code = NotRegistered /\ s' = s.
Proof.
  intros Hwf. destruct (owns s connection id) eqn:Ho.
  - apply owns_true in Ho as [n Ho]. destruct (unregisterNode_runs s connection id n Hwf Ho) as (s' & Hrun & Hrem & _).
    by exists Ok, s'.
  - exists NotRegistered, s. split; [|done]. apply unregisterNode_refused. by apply owns_false.
Qed.

Lemma unregister_leaves_no_trace_witness :
  exists code s', runs (unregisterNode 10 1) demo code s' /\ code = Ok /\ node_removed 1 demo s'.
Proof.
  destruct (unregister_leaves_no_trace demo 10 1 demo_wf) as (code & s' & Hrun & Hres).
  exists code, s'. split; [exact Hrun | exact Hres].
Defined.

(** C29: [cleanupDeadNode] removes the node with all its endpoints and reports everything the
    server must act on: every shared-memory pool and queue and every socket path of the node
    in endpoint order, and exactly one event for each pair of a dead endpoint and a peer on its
    topic: no other events, and none of them twice. *)
Theorem dead_node_is_cleaned_up s id n :
  registry_wf s -> nodes_ s !! id = Some n ->
  exists c s', runs (cleanupDeadNode id) s (Some c) s' /\ reports s id n c /\ node_removed id s s'.
Proof.
  intros Hwf Hn. destruct (cleanupDeadNode_runs s Hwf id n Hn) as (c & s' & Hrun & Hrep & Hrem & _).
  by exists c, s'.
Qed.

Lemma dead_node_is_cleaned_up_witness :
  exists c s', runs (cleanupDeadNode 1) demo (Some c) s' /\ cl_pools c = [demo_pool] /\
    cl_peer_events c = [mkPeerEventRecord PublisherDead 2 2 1 1 7] /\ nodes_ s' !! 1 = None.
Proof.
  destruct (dead_node_is_cleaned_up demo 1 _ demo_wf eq_refl) as (c & s' & Hrun & [_ Hp _ _ Hev Honce] & Hrem).
  exists c, s'. split; [exact Hrun | split; [rewrite Hp; reflexivity | split; [|rewrite (nr_nodes _ _ _ Hrem); apply lookup_delete_eq]]].
  assert (Hone : mkPeerEventRecord PublisherDead 2 2 1 1 7 ∈ cl_peer_events c).
  { apply Hev. left. exists 1, (mkPublisherEndpoint 1 1 1 4096 SharedMemory demo_pool), 2,
      (mkSubscriberEndpoint 2 2 1 "viewer.sock" 1024 SharedMemory demo_queue). by vm_compute. }
  assert (Hall : (match fst (cleanupDeadNode 1 demo) with Ret (Some c) => cl_peer_events c | _ => [] end) =
    [mkPeerEventRecord PublisherDead 2 2 1 1 7]) by (vm_compute; reflexivity).
  unfold runs in Hrun. rewrite Hrun in Hall. exact Hall.
Defined.

(** [evaluateLiveness] removes exactly the nodes silent for the dead timeout, in id
    order, marks the alive ones silent for the suspect timeout as suspected and reports those
    of them that are not dead, and leaves every other node as it was. *)
Theorem liveness_evaluation s now :
  registry_wf s -> exists cs s',
    let cfg := liveness_ s in
    runs (evaluateLiveness now) s
      (mkLivenessUpdate
         (ids_where (fun n => is_suspect cfg now n && negb (is_dead cfg now n)) (nodes_ s) (map_keys (nodes_ s))) cs) s' /\
    map cl_node_id cs = ids_where (is_dead cfg now) (nodes_ s) (map_keys (nodes_ s)) /\
    (forall i, nodes_ s' !! i = nodes_ s !! i ≫= fun n => if is_dead cfg now n then None else Some (mark cfg now n)) /\
    registry_wf s'.
Proof.
  intros Hwf. destruct (evaluateLiveness_runs s now Hwf) as (cs & s' & ? & ? & ? & ? & _). by exists cs, s'.
Qed.

Lemma liveness_evaluation_witness :
  exists cs s', runs (evaluateLiveness 800000000) demo (mkLivenessUpdate [1; 2] cs) s' /\ map cl_node_id cs = [].
Proof.
  destruct (liveness_evaluation demo 800000000 demo_wf) as (cs & s' & Hrun & Hids & _).
  exists cs, s'. split; [exact Hrun | exact Hids].
Defined.

(** ** Heartbeats *)

Definition beat (now : Z) (n : NodeRecord) : NodeRecord := n <| last_seen := now |> <| liveness := Alive |>.

(** A heartbeat is accepted exactly with the session of the node, on its control connection or its
    attached heartbeat connection; otherwise nothing changes. *)
Lemma heartbeat_runs s connection id session now n : registry_wf s -> nodes_ s !! id = Some n ->
  (node_session_id n = session /\ (connection = control_connection n \/ connection = heartbeat_connection n) /\
     exists s', runs (heartbeat connection id session now) s (mkHeartbeatResult Ok Alive) s' /\ registry_wf s' /\
       liveness_ s' = liveness_ s /\ nodes_ s' = alter (beat now) id (nodes_ s)) \/
  (~ (node_session_id n = session /\ (connection = control_connection n \/ connection = heartbeat_connection n)) /\
     exists r, runs (heartbeat connection id session now) s r s /\ hr_error r = NotRegistered).
Proof.
  intros Hwf Hn. unfold runs, heartbeat. unfold_cpp. rewrite Hn.
  destruct (Z.eqb_spec (node_session_id n) session) as [Hsess|Hsess]; simpl.
  2: { right. split; [naive_solver|]. by eexists. }
  destruct (negb (connection =? control_connection n) && negb (connection =? heartbeat_connection n)) eqn:Hc.
  { right. split; [bools; naive_solver | by eexists]. }
  left. split_and!; [done | bools; destruct Hc; bools; auto |]. eexists. split; [reflexivity|]. split_and!; [|done|done].
  apply registry_wf_nodes; [done | intros i; by apply alter_shape].
Qed.










(** The control connection of a node needs no attachment: its heartbeats are accepted from the
    registration on. *)
Theorem control_connection_needs_no_attachment s id now n :
  registry_wf s -> nodes_ s !! id = Some n ->
  exists s', runs (heartbeat (control_connection n) id (node_session_id n) now) s (mkHeartbeatResult Ok Alive) s' /\
    nodes_ s' !! id = Some (beat now n).
Proof.
  intros Hwf Hn. destruct (heartbeat_runs s (control_connection n) id (node_session_id n) now n Hwf Hn)
    as [(_ & _ & s' & Hrun & _ & _ & Hn') | [Hno _]]; [|destruct Hno; auto].
  exists s'. split; [done|]. by rewrite Hn', lookup_alter_eq, Hn.
Qed.

Lemma control_connection_needs_no_attachment_witness :
  exists s', runs (heartbeat 10 1 1 5) demo (mkHeartbeatResult Ok Alive) s' /\ last_seen <$> nodes_ s' !! 1 = Some 5.
Proof.
  destruct (control_connection_needs_no_attachment demo 1 5 _ demo_wf eq_refl) as (s' & Hrun & Hn').
  exists s'. split; [exact Hrun | rewrite Hn'; reflexivity].
Defined.

(** When a connection closes, every node it controls is cleaned up, in id order, and no
    other node goes; a connection that controls none is forgotten as heartbeat connection
    instead. *)
Theorem disconnect_removes_controlled_nodes s connection :
  registry_wf s -> exists cs s',
    let ids := ids_where (fun n => control_connection n =? connection) (nodes_ s) (map_keys (nodes_ s)) in
    runs (disconnectConnection connection) s cs s' /\ map cl_node_id cs = ids /\ registry_wf s' /\
    (forall i, nodes_ s' !! i = nodes_ s !! i ≫= fun n =>
       if control_connection n =? connection then None
       else Some (if decide (ids = []) then forget_heartbeat connection n else n)).
Proof.
  intros Hwf. destruct (disconnectConnection_runs s connection Hwf) as (cs & s' & ? & ? & ? & ? & _).
  by exists cs, s'.
Qed.

Lemma disconnect_removes_controlled_nodes_witness :
  exists cs s', runs (disconnectConnection 10) demo cs s' /\ map cl_node_id cs = [1] /\ nodes_ s' !! 1 = None.
Proof.
  destruct (disconnect_removes_controlled_nodes demo 10 demo_wf) as (cs & s' & Hrun & Hids & _ & Hnodes).
  exists cs, s'. split; [exact Hrun | split; [rewrite Hids; reflexivity | rewrite Hnodes; reflexivity]].
Defined.

(** C40: a closed connection that controlled a node stays recorded as heartbeat connection of every other
    node that had attached it: after the disconnect such a node still names the closed connection, and
    refuses to attach any other connection, with whatever session, without any effect. *)
Theorem disconnect_keeps_stale_heartbeat s connection controlled id n c :
  registry_wf s -> connection <> 0 -> nodes_ s !! controlled = Some c -> control_connection c = connection ->
  nodes_ s !! id = Some n -> control_connection n <> connection -> heartbeat_connection n = connection ->
  exists cs s', runs (disconnectConnection connection) s cs s' /\ controlled ∈ map cl_node_id cs /\
    nodes_ s' !! controlled = None /\ nodes_ s' !! id = Some n /\
    forall other session, other <> connection -> runs (attachHeartbeat other id session) s' NotRegistered s'.
Proof.
  intros Hwf Hne Hc Hcc Hn Hcn Hh. destruct (disconnectConnection_runs s connection Hwf) as (cs & s' & Hrun & Hids & Hnodes & _).
  set (ids := ids_where _ _ _) in *.
  assert (Hin : controlled ∈ ids).
  { unfold ids, ids_where. rewrite list_elem_of_filter, elem_of_map_keys, Hc. simpl. split; [by apply Z.eqb_eq | eauto]. }
  assert (Hkept : nodes_ s' !! id = Some n).
  { rewrite Hnodes, Hn. simpl. rewrite (proj2 (Z.eqb_neq _ _) Hcn). rewrite decide_False; [done|]. intros Hnil. rewrite Hnil in Hin. by apply not_elem_of_nil in Hin. }
  exists cs, s'. split_and!; [done | by rewrite Hids | | done |].
  - rewrite Hnodes, Hc. simpl. by rewrite (proj2 (Z.eqb_eq _ _) Hcc).
  - intros other session Hother. unfold runs, attachHeartbeat. unfold_cpp. rewrite Hkept, Hh.
    destruct (_ || _); [done|]. by rewrite (proj2 (Z.eqb_neq _ _) Hne), (proj2 (Z.eqb_neq connection other)) by congruence.
Qed.

(** Connection 10 controls the camera and was attached by the viewer. *)
Definition stale : RegistryState := Eval vm_compute in run_from (demo_ops ++ [OpAttachHeartbeat 10 2 2]) fresh_registry.

Lemma stale_wf : registry_wf stale.
Proof.
  destruct (create_registry_wf default_liveness fresh_registry eq_refl) as [Hwf Hleft].
  destruct (exec_all_keeps (demo_ops ++ [OpAttachHeartbeat 10 2 2]) fresh_registry Hwf) as (s & Hrun & Hs);
    [unfold ids_left in *; simpl in *; lia | reflexivity|].
  assert (Hstale : runs (for_each (demo_ops ++ [OpAttachHeartbeat 10 2 2]) exec_registry) fresh_registry tt stale) by (vm_compute; reflexivity).
  by destruct (runs_det _ _ _ _ _ _ Hrun Hstale) as [_ <-].
Qed.

Lemma disconnect_keeps_stale_heartbeat_witness :
  exists cs s', runs (disconnectConnection 10) stale cs s' /\ 1 ∈ map cl_node_id cs /\
    heartbeat_connection <$> nodes_ s' !! 2 = Some 10 /\ runs (attachHeartbeat 30 2 2) s' NotRegistered s'.
Proof.
  destruct (disconnect_keeps_stale_heartbeat stale 10 1 2 _ _ stale_wf ltac:(discriminate) eq_refl eq_refl eq_refl ltac:(discriminate) eq_refl)
    as (cs & s' & Hrun & Hin & _ & Hn & Hrefused).
  exists cs, s'. split; [exact Hrun | split; [exact Hin | split; [rewrite Hn; reflexivity | apply Hrefused; discriminate]]].
Defined.

(** [listNodes] and [listTopics] return every record exactly once, ordered by name, and
    [queryTopic] finds the topic of a name exactly when there is one. *)
Theorem registry_listings s :
  registry_wf s ->
  (exists ns, runs listNodes s ns s /\ Sorted (name_le node_name) ns /\ NoDup ns /\
     forall n, n ∈ ns <-> exists i, nodes_ s !! i = Some n) /\
  (exists ts, runs listTopics s ts s /\ Sorted (name_le topic_name) ts /\ NoDup ts /\
     forall T, T ∈ ts <-> exists t, topics_ s !! t = Some T) /\
  (forall name, exists o, runs (queryTopic name) s o s /\
     forall T, o = Some T <-> exists t, topics_ s !! t = Some T /\ topic_name T = name).
Proof.
  intros Hwf. split_and!.
  - eexists. split; [done|]. apply sorted_records. intros i j n Hi Hj.
    apply (nk_nodes _ (rw_names _ Hwf)) in Hi as (<- & _). apply (nk_nodes _ (rw_names _ Hwf)) in Hj as (<- & _). done.
  - eexists. split; [done|]. apply sorted_records. intros i j n Hi Hj.
    apply (nk_topics _ (rw_names _ Hwf)) in Hi as (<- & _). apply (nk_topics _ (rw_names _ Hwf)) in Hj as (<- & _). done.
  - intros name. eexists. split; [by apply queryTopic_runs|]. intros T. rewrite bind_Some. split.
    + intros (t & Hname & HT). exists t. split; [done|].
      destruct (nk_topic_names _ (rw_names _ Hwf) _ _ Hname) as (T' & ? & ?). by simplify_eq.
    + intros (t & HT & <-). exists t. by apply (nk_topics _ (rw_names _ Hwf)) in HT as Hk; destruct Hk as (_ & ? & _).
Qed.

Lemma registry_listings_witness :
  exists ns, runs listNodes demo ns demo /\ Sorted (name_le node_name) ns.
Proof. destruct (registry_listings demo demo_wf) as ((ns & Hrun & Hs & _) & _). by exists ns. Defined.
