(* ===== verification/RegistryNames.v ===== *)
(** * Strings in the registry

    Every string the registry keeps was an argument of a request: a property that holds of the
    strings of the requests holds of all names, paths and shared-memory names in the registry. *)

From Stdlib Require Import ZArith Lia Bool String.
From stdpp Require Import base gmap list strings option sorting.
From S2P Require Import Prelude Types Outcome RegistryState RegistryOps RegistryLiveness RegistryInterface.

Local Open Scope Z_scope.

Section names.
Context (P : string -> Prop) (Pempty : P "").

Definition node_names (n : NodeRecord) : Prop := P (node_name n).
Definition topic_names (t : TopicRecord) : Prop :=
  P (topic_name t) /\ P (type_name t) /\ P (type_hash t) /\ P (spm_shm_name (topic_pool t)).
Definition publisher_names (p : PublisherEndpoint) : Prop := P (spm_shm_name (pe_pool p)).
Definition subscriber_names (s : SubscriberEndpoint) : Prop :=
  P (se_data_socket_path s) /\ P (sqm_shm_name (se_queue s)).

Record all_names (s : RegistryState) : Prop := {
  an_nodes : map_Forall (fun _ => node_names) (nodes_ s);
  an_topics : map_Forall (fun _ => topic_names) (topics_ s);
  an_publishers : map_Forall (fun _ => publisher_names) (publishers_ s);
  an_subscribers : map_Forall (fun _ => subscriber_names) (subscribers_ s);
}.

(** A method that keeps the property, whether it returns or throws. *)
Definition names_kept {A} (c : registry A) : Prop := forall s, all_names s -> all_names (c s).2.

(** The rest of a method, from any state. *)
Ltac as_method :=
  match goal with Hs : all_names ?s |- all_names (?c ?s).2 => let Hc := fresh in enough (names_kept c) as Hc by (by apply Hc); try clear dependent s end.

(** The same for a method that returns a topic or an endpoint. *)
Definition names_read {A} (c : registry A) (Q : A -> Prop) : Prop :=
  forall s, all_names s -> all_names (c s).2 /\ forall a, (c s).1 = Ret a -> Q a.

Lemma names_bind {A B} (c : registry A) (k : A -> registry B) :
  names_kept c -> (forall a, names_kept (k a)) -> names_kept (c ≫= k).
Proof.
  intros Hc Hk s Hs. unfold mbind, cpp_bind. specialize (Hc s Hs). destruct (c s) as [[a| |] s']; auto. by apply Hk.
Qed.

Lemma names_read_bind {A B} (c : registry A) (k : A -> registry B) Q :
  names_read c Q -> (forall a, Q a -> names_kept (k a)) -> names_kept (c ≫= k).
Proof.
  intros Hc Hk s Hs. unfold mbind, cpp_bind. destruct (Hc s Hs) as [Hs' HQ].
  destruct (c s) as [[a| |] s']; auto. apply Hk; auto.
Qed.

(** A method that does not change the state. *)
Lemma names_same {A} (c : registry A) : (forall s, (c s).2 = s) -> names_kept c.
Proof. intros Hc s Hs. by rewrite Hc. Qed.

Lemma names_this {A} (k : RegistryState -> registry A) :
  (forall s, all_names s -> all_names (k s s).2) -> names_kept (this ≫= k).
Proof. done. Qed.

Lemma names_for_each {A} (l : list A) body : (forall a, names_kept (body a)) -> names_kept (for_each l body).
Proof. intros Hb. induction l as [|a l IH]; [by intros s|]. by apply names_bind. Qed.

Lemma names_for_collect {A B} (l : list A) (body : A -> registry (list B)) :
  (forall a, names_kept (body a)) -> names_kept (for_collect l body).
Proof. intros Hb. induction l as [|a l IH]; [by intros s|]. apply names_bind; [done|]. intros. apply names_bind; [done|]. by intros ? s. Qed.

Lemma topics_at_names t : names_read (topics_at t) topic_names.
Proof.
  intros s Hs. unfold topics_at. unfold_cpp. destruct (topics_ s !! t) as [T|] eqn:HT; simpl; (split; [done|]); [|done].
  intros T' [= <-]. by apply (an_topics _ Hs t).
Qed.
Lemma ownedNode_same c id s : (ownedNode c id s).2 = s.
Proof. done. Qed.

Lemma modify_names f : (forall s, all_names s -> all_names (f s)) -> names_kept (modify f).
Proof. intros Hf s Hs. by apply Hf. Qed.

Lemma modify_topic_names t f : (forall T, topic_names T -> topic_names (f T)) -> names_kept (modify_topic t f).
Proof.
  intros Hf. eapply names_read_bind; [apply topics_at_names|]. intros T HT. apply modify_names. intros s [? Ht ? ?].
  split; simpl; auto. apply map_Forall_insert_2; auto.
Qed.

Lemma modify_node_names id f : (forall n, node_name (f n) = node_name n) -> names_kept (modify_node id f).
Proof.
  intros Hf. apply modify_names. intros s [Hn ? ? ?]. split; simpl; auto.
  intros i n [(-> & n0 & Hn0 & ->) | [_ Hi]]%lookup_alter_Some; [|by apply (Hn i)].
  unfold node_names. rewrite Hf. by apply (Hn _ _ Hn0).
Qed.

Lemma metrics_names f : names_kept (modify (fun s => s <| metrics_ := f s |>)).
Proof. apply modify_names. by intros s []. Qed.

Lemma map_Forall_emplace {K A} `{Countable K} (Q : K -> A -> Prop) k a (m : gmap K A) :
  map_Forall Q m -> Q k a -> map_Forall Q (emplace k a m).
Proof. unfold emplace. intros. destruct (m !! k); [done|]. by apply map_Forall_insert_2. Qed.


Lemma min_subscriber_size_same l m s : (min_subscriber_size l m s).2 = s.
Proof.
  revert m. induction l as [|e l IH]; intros m; [done|]. simpl. unfold subscribers_at. unfold_cpp.
  destruct (subscribers_ s !! e); [apply IH | done].
Qed.

Lemma recompute_names t : names_kept (recomputeTopicMaxMessageSize t).
Proof.
  apply names_bind; [by apply names_same; intros s; unfold topics_at; unfold_cpp; destruct (_ !! _)|]. intros T.
  apply names_bind.
  { apply names_same. intros s. destruct (publisher_endpoint T); [|done]. unfold publishers_at. unfold_cpp. by destruct (_ !! _). }
  intros m. apply names_bind; [apply names_same; intros; apply min_subscriber_size_same|].
  intros x. case_match; [|by intros s]. by apply modify_topic_names.
Qed.

Lemma erase_names t : names_kept (eraseTopicIfEmpty t).
Proof.
  apply names_this. intros s Hs. destruct (topics_ s !! t); [|done]. case_match; [done|].
  destruct Hs. split; simpl; auto. by apply map_Forall_delete.
Qed.

Lemma settle_names t : names_kept (recomputeTopicMaxMessageSize t;; eraseTopicIfEmpty t;; mret Ok).
Proof.
  apply names_bind; [apply recompute_names|]. intros _. apply names_bind; [apply erase_names|]. by intros _ s.
Qed.

Lemma unadvertise_names c id e : names_kept (unadvertise c id e).
Proof.
  apply names_bind; [by apply names_same|]. intros node. apply names_this. intros s Hs.
  destruct node; [|done]. destruct (publishers_ s !! e) as [p|]; [|done]. case_match; [done|]. cbv zeta. as_method.
  apply names_bind; [by apply modify_node_names|]. intros _. apply names_bind.
  { apply modify_names. intros s []. split; simpl; auto. by apply map_Forall_delete. }
  intros _. apply names_bind; [by apply modify_topic_names|]. intros _.
  apply names_bind; [apply modify_topic_names; by intros T (? & ? & ? & ?)|]. intros _. apply settle_names.
Qed.

Lemma unsubscribe_names c id e : names_kept (unsubscribe c id e).
Proof.
  apply names_bind; [by apply names_same|]. intros node. apply names_this. intros s Hs.
  destruct node; [|done]. destruct (subscribers_ s !! e) as [p|]; [|done]. case_match; [done|]. cbv zeta. as_method.
  apply names_bind; [by apply modify_node_names|]. intros _. apply names_bind.
  { apply modify_names. intros s []. split; simpl; auto. by apply map_Forall_delete. }
  intros _. apply names_bind; [by apply modify_topic_names|]. intros _. apply settle_names.
Qed.

Lemma unregisterNode_names c id : names_kept (unregisterNode c id).
Proof.
  apply names_bind; [by apply names_same|]. intros [n|]; [|by intros s].
  apply names_bind. { apply names_for_each. intros e. apply names_bind; [apply unadvertise_names|]. by intros _ s. }
  intros _. apply names_bind. { apply names_for_each. intros e. apply names_bind; [apply unsubscribe_names|]. by intros _ s. }
  intros _. apply names_bind; [|by intros _ s]. apply modify_names. intros s []. split; simpl; auto. by apply map_Forall_delete.
Qed.

Lemma cleanupDeadNode_names id : names_kept (cleanupDeadNode id).
Proof.
  apply names_this. intros s Hs. destruct (nodes_ s !! id) as [n|]; [|done]. as_method.
  apply names_bind.
  { apply names_for_collect. intros e. apply names_same. intros s. unfold cleanup_publisher, topics_at. unfold_cpp.
    destruct (publishers_ s !! e); [|done]. by destruct (topics_ s !! _). }
  intros pubs. apply names_bind.
  { apply names_for_collect. intros e. apply names_same. intros s. unfold cleanup_subscriber, topics_at. unfold_cpp.
    destruct (subscribers_ s !! e); [|done]. by destruct (topics_ s !! _). }
  intros subs. apply names_bind; [apply unregisterNode_names|]. intros _.
  apply names_bind; [apply metrics_names|]. by intros _ s.
Qed.

Lemma cleanup_nodes_names ids : names_kept (cleanup_nodes ids).
Proof. apply names_for_collect. intros id. apply names_bind; [apply cleanupDeadNode_names|]. by intros ? s. Qed.

Lemma suspect_nodes_names now ids : names_kept (suspect_nodes now ids).
Proof.
  induction ids as [|id ids IH]; [by intros s|]. apply names_this. intros s Hs.
  destruct (nodes_ s !! id) as [n|]; [|by apply IH]. cbv zeta. as_method.
  apply names_bind.
  { case_match; [|by intros ?]. apply names_bind; [by apply modify_node_names|]. intros _. apply metrics_names. }
  intros _. apply names_bind; [done|]. by intros [] ?.
Qed.

Lemma evaluateLiveness_names now : names_kept (evaluateLiveness now).
Proof.
  apply names_this. intros s Hs.
  as_method.
  apply names_bind; [apply suspect_nodes_names|]. intros [? ?]. apply names_bind; [apply cleanup_nodes_names|]. by intros ? ?.
Qed.

Lemma disconnectConnection_names c : names_kept (disconnectConnection c).
Proof.
  apply names_this. intros s Hs. cbv zeta.
  as_method.
  apply names_bind; [apply cleanup_nodes_names|]. intros cs. apply names_bind; [|by intros ? ?].
  case_match; [|by intros ?]. apply modify_names. intros s' []. split; simpl; auto.
  intros i n (n0 & <- & Hn0)%lookup_fmap_Some. unfold node_names. specialize (an_nodes0 _ _ Hn0). by case_match.
Qed.

Lemma attachHeartbeat_names c id session : names_kept (attachHeartbeat c id session).
Proof.
  apply names_this. intros s Hs. destruct (nodes_ s !! id); [|done]. do 2 (case_match; [done|]).
  as_method.
  apply names_bind; [by apply modify_node_names|]. by intros _ ?.
Qed.

Lemma heartbeat_names c id session now : names_kept (heartbeat c id session now).
Proof.
  apply names_this. intros s Hs. destruct (nodes_ s !! id); [|done]. do 2 (case_match; [done|]).
  as_method.
  apply names_bind; [by apply modify_node_names|]. intros _. apply names_bind; [apply metrics_names|]. by intros _ ?.
Qed.

(** ** New strings *)

Lemma registerNode_names c name now : P name -> names_kept (registerNode c name now).
Proof.
  intros Hname. unfold registerNode. case_match; [by intros ?|]. apply names_this. intros s Hs.
  destruct (node_names_ s !! name); [done|]. simpl. destruct Hs. split; simpl; auto. by apply map_Forall_emplace.
Qed.

Lemma findOrCreateTopic_names name type hash size transport :
  P name -> P type -> P hash -> names_kept (findOrCreateTopic name type hash size transport).
Proof.
  intros ? ? ?. apply names_this. intros s Hs.
  as_method.
  assert (Hat : forall t, names_kept (T ← topics_at t; mret t)).
  { intros t. eapply names_read_bind; [apply topics_at_names|]. by intros ? _ ?. }
  destruct (topic_names_ s !! name); [done|]. apply names_bind; [|done].
  apply modify_names. intros s' []. split; simpl; auto. by apply map_Forall_emplace.
Qed.

Lemma check_topic_same name type hash transport publishing s : (check_topic name type hash transport publishing s).2 = s.
Proof.
  unfold check_topic, topics_at. unfold_cpp. destruct (topic_names_ s !! name) as [t|]; [|done].
  destruct (topics_ s !! t); [|done]. by repeat case_match.
Qed.

Lemma advertise_names c id name type hash size transport pool :
  P name -> P type -> P hash -> P (spm_shm_name pool) -> names_kept (advertise c id name type hash size transport pool).
Proof.
  intros ? ? ? ?. apply names_bind; [by apply names_same|]. intros [n|]; [|by intros ?]. case_match; [by intros ?|].
  apply names_bind; [apply names_same; intros; apply check_topic_same|]. intros [r|]; [by intros ?|].
  apply names_bind; [by apply findOrCreateTopic_names|]. intros t. apply names_this. intros s Hs. cbv zeta.
  as_method.
  apply names_bind. { apply modify_names. intros s' []. split; simpl; auto. by apply map_Forall_emplace. }
  intros _. apply names_bind; [apply modify_topic_names; by intros T (? & ? & ? & ?)|]. intros _.
  apply names_bind; [by apply modify_node_names|]. by intros _ ?.
Qed.

Lemma subscribe_names c id name type hash size path transport queue :
  P name -> P type -> P hash -> P path -> P (sqm_shm_name queue) ->
  names_kept (subscribe c id name type hash size path transport queue).
Proof.
  intros ? ? ? ? ?. apply names_bind; [by apply names_same|]. intros [n|]; [|by intros ?]. case_match; [by intros ?|].
  apply names_bind; [apply names_same; intros; apply check_topic_same|]. intros [r|]; [by intros ?|].
  apply names_bind; [by apply findOrCreateTopic_names|]. intros t. apply names_this. intros s Hs. cbv zeta.
  as_method.
  apply names_bind. { apply modify_names. intros s' []. split; simpl; auto. by apply map_Forall_emplace. }
  intros _. apply names_bind; [by apply modify_topic_names|]. intros _.
  apply names_bind; [by apply modify_node_names|]. intros _.
  eapply names_read_bind; [apply topics_at_names|]. by intros ? _ ?.
Qed.

(** ** Any request *)

Definition op_names (op : registry_op) : Prop :=
  match op with
  | OpRegisterNode _ name _ => P name
  | OpAdvertise _ _ name type hash _ _ pool => P name /\ P type /\ P hash /\ P (spm_shm_name pool)
  | OpSubscribe _ _ name type hash _ path _ queue => P name /\ P type /\ P hash /\ P path /\ P (sqm_shm_name queue)
  | _ => True
  end.

Lemma discard_names {A} (c : registry A) : names_kept c -> names_kept (discard c).
Proof. intros Hc. apply names_bind; [done|]. by intros ? ?. Qed.

(** Reads compose. *)
Lemma bind_same {A B} (c : registry A) (k : A -> registry B) s :
  (c s).2 = s -> (forall a, (k a s).2 = s) -> ((c ≫= k) s).2 = s.
Proof. intros Hc Hk. unfold mbind, cpp_bind. destruct (c s) as [[a| |] s']; simpl in Hc; subst; auto. Qed.
Lemma for_collect_same {A B} (l : list A) (body : A -> registry (list B)) s :
  (forall a, (body a s).2 = s) -> (for_collect l body s).2 = s.
Proof. intros Hb. induction l as [|a l IH]; [done|]. apply bind_same; [done|]. intros b. by apply bind_same. Qed.
Lemma at_same s t e : (topics_at t s).2 = s /\ (subscribers_at e s).2 = s.
Proof. unfold topics_at, subscribers_at. unfold_cpp. by destruct (topics_ s !! t), (subscribers_ s !! e). Qed.

Lemma resolve_same connection id e s : (resolve connection id e s).2 = s.
Proof.
  apply bind_same; [done|]. intros node. apply bind_same; [done|]. intros s0. destruct node; [|done].
  destruct (publishers_ s0 !! e); [|done]. case_match; [done|]. apply bind_same; [by apply at_same|]. intros T. case_match; [done|].
  apply bind_same; [|done]. apply for_collect_same. intros x. apply bind_same; [by apply (at_same s 0)|done].
Qed.
Lemma queryTopic_same name s : (queryTopic name s).2 = s.
Proof.
  apply bind_same; [done|]. intros s0. destruct (topic_names_ s0 !! name) as [t|]; [|done].
  apply bind_same; [by apply (at_same s t 0)|done].
Qed.

Lemma detach_names c : names_kept (detachHeartbeatConnection c).
Proof.
  apply modify_names. intros s []. split; simpl; auto. intros i n (n0 & <- & Hn0)%lookup_fmap_Some.
  unfold node_names. specialize (an_nodes0 _ _ Hn0). by case_match.
Qed.

Lemma exec_registry_names op : op_names op -> names_kept (exec_registry op).
Proof.
  intros Hop. destruct op; simpl in *; destruct_and?; try apply discard_names;
    auto using registerNode_names, unregisterNode_names, attachHeartbeat_names, heartbeat_names, advertise_names, unadvertise_names,
      subscribe_names, unsubscribe_names, evaluateLiveness_names, disconnectConnection_names, detach_names.
  - apply names_same. intros s. apply resolve_same.
  - apply names_same. intros s. apply queryTopic_same.
Qed.
End names.
