(* ===== verification/RegistryServer.v ===== *)
(** * Registry server

    [RegistryServer::Impl] of [registry/src/registry_server.cpp]: the connections of the clients,
    the control frames they send, the requests dispatched to [RegistryState], discoveries that
    wait for a subscriber, and the cleanup of the resources of dead nodes. *)

From Stdlib Require Import ZArith Lia Bool String.
From stdpp Require Import base gmap list strings option.
From S2P Require Import Prelude Types Outcome BigEndian ControlProtocol QueueProtocol SocketIo SubscriberQueue PublisherState UnixListener RegistryState.

Local Open Scope Z_scope.

(** ** State *)

Record ClientConnection := mkClientConnection {
  cc_connection_id : Z;
  cc_input : list Z;
  cc_output : list Z;
  cc_output_offset : Z;
  cc_close_after_write : bool;
}.
#[export] Instance ClientConnection_eta : Eta ClientConnection := fun c =>
  mkClientConnection (cc_connection_id c) (cc_input c) (cc_output c) (cc_output_offset c) (cc_close_after_write c).

Record PendingDiscovery := mkPendingDiscovery {
  pg_fd : Z;
  pg_connection_id : Z;
  pg_node_id : Z;
  pg_publisher_endpoint_id : Z;
  pg_request_id : Z;
}.

(** What the server reaches: the sockets by descriptor, the descriptors registered with epoll and
    whether [EPOLLOUT] is asked for, the shared queue objects by name, the names of shared
    memory, and the files with whether they are sockets; and the answers to come: of
    [epoll_ctl] on ADD and MOD (then success), of [accept4] (then [EAGAIN]), of the clock (then
    [os_time]), and of [pthread_mutex_trylock] on the mutex of a queue. *)
Record Os := mkOs {
  os_sockets : gmap Z socket;
  os_interest : gmap Z bool;
  os_queues : gmap string SharedQueue;
  os_shm_names : gset string;
  os_files : gmap string bool;
  os_ctl : list (option Z);
  os_accepts : list (Z + Z);
  os_times : list Z;
  os_time : Z;
  os_trylock : string -> lock_result;
}.
#[export] Instance Os_eta : Eta Os := fun o =>
  mkOs (os_sockets o) (os_interest o) (os_queues o) (os_shm_names o) (os_files o) (os_ctl o) (os_accepts o)
    (os_times o) (os_time o) (os_trylock o).

Record ServerState := mkServerState {
  sv_listener : UnixListener;
  sv_state : RegistryState;
  sv_liveness : LivenessConfig;
  sv_next_connection_id : Z;
  sv_clients : gmap Z ClientConnection;
  sv_pending : gmap Z PendingDiscovery;
  sv_peer_events : gmap Z (list PeerEventRecord);
  sv_os : Os;
}.
#[export] Instance ServerState_eta : Eta ServerState := fun s =>
  mkServerState (sv_listener s) (sv_state s) (sv_liveness s) (sv_next_connection_id s) (sv_clients s) (sv_pending s)
    (sv_peer_events s) (sv_os s).

Abbreviation server := (cpp ServerState).

(** ** Accesses *)

Definition set_os (f : Os -> Os) : server unit := modify (fun s => s <| sv_os := f (sv_os s) |>).
Definition os_socket (o : Os) (fd : Z) : socket := default idle_socket (os_sockets o !! fd).
Definition set_os_socket (fd : Z) (so : socket) : server unit :=
  set_os (fun o => o <| os_sockets := <[fd := so]> (os_sockets o) |>).

Definition next_ctl : server (option Z) :=
  s ← this;
  match os_ctl (sv_os s) with
  | [] => mret None
  | answer :: more => set_os (fun o => o <| os_ctl := more |>);; mret answer
  end.
Definition next_accept4 : server (Z + Z) :=
  s ← this;
  match os_accepts (sv_os s) with
  | [] => mret (inr EAGAIN)
  | answer :: more => set_os (fun o => o <| os_accepts := more |>);; mret answer
  end.
Definition now : server Z :=
  s ← this;
  match os_times (sv_os s) with
  | [] => mret (os_time (sv_os s))
  | time :: more => set_os (fun o => o <| os_times := more |>);; mret time
  end.

(** [state.method()] *)
Definition on_state {A} (method : registry A) : server A := fun s =>
  let '(r, t) := method (sv_state s) in (r, s <| sv_state := t |>).

Definition find_client (fd : Z) : server (option ClientConnection) := gets (fun s => sv_clients s !! fd).
(** [clients.at(fd)] *)
Definition clients_at (fd : Z) : server ClientConnection :=
  client ← find_client fd; or_throw ex_out_of_range client.
(** A reference or an iterator obtained earlier: undefined once the element is erased. *)
Definition client_ref (fd : Z) : server ClientConnection :=
  client ← find_client fd; or_undef client.
Definition set_client (fd : Z) (f : ClientConnection -> ClientConnection) : server unit :=
  client ← client_ref fd;
  modify (fun s => s <| sv_clients := <[fd := f client]> (sv_clients s) |>).

(** ** Cleanup *)

(** The entries whose publisher is gone are erased. *)
Definition cleanupPending : server unit :=
  modify (fun s => s <| sv_pending :=
    filter (fun '(endpoint, _) => is_Some (publishers_ (sv_state s) !! endpoint)) (sv_pending s) |>).

Definition queueDescriptor (metadata : SharedQueueMetadata) : QueueDescriptor :=
  mkQueueDescriptor (sqm_shm_name metadata) (sqm_queue_id metadata) (sqm_segment_size metadata) (sqm_capacity metadata)
    (sqm_layout_version metadata) (OverflowPolicy_of_u16 (sqm_overflow_policy metadata)) (sqm_block_timeout_ms metadata).

(** [SharedSubscriberQueue::recoverAndClose] of the object the name denotes; its result is
    ignored. *)
Definition recover_and_close (descriptor : QueueDescriptor) : server unit :=
  s ← this;
  let name := qd_shm_name descriptor in
  if bool_decide (name ∈ os_shm_names (sv_os s)) then
    match os_queues (sv_os s) !! name with
    | None => mret tt
    | Some q =>
        match recoverAndClose None (os_trylock (sv_os s) name) descriptor q with
        | (Ret _, q) => set_os (fun o => o <| os_queues := <[name := q]> (os_queues o) |>)
        | (Throw e, _) => throw e
        | (Undef, _) => undefined
        end
    end
  else mret tt.

(** [unlinkSharedMemoryName] *)
Definition unlink_shm_name (name : string) : server unit :=
  if negb (isValidSharedMemoryName name) then mret tt else
  set_os (fun o => o <| os_shm_names := os_shm_names o ∖ {[ name ]} |>).

(** Only a socket is unlinked. *)
Definition unlinkSocketPath (path : string) : server unit :=
  s ← this;
  match os_files (sv_os s) !! path with
  | Some true => set_os (fun o => o <| os_files := delete path (os_files o) |>)
  | _ => mret tt
  end.

Definition kMaxEventsPerNode : nat := 1024.

(** One peer event: the oldest is dropped when there are too many. *)
Definition push_event (event : PeerEventRecord) : server unit :=
  node ← on_state (node_of (ev_target_node_id event));
  match node with
  | None => mret tt
  | Some _ =>
      modify (fun s =>
        let events := default [] (sv_peer_events s !! ev_target_node_id event) in
        let events := if (length events =? kMaxEventsPerNode)%nat then tail events else events in
        s <| sv_peer_events := <[ev_target_node_id event := events ++ [event]]> (sv_peer_events s) |>)
  end.

Definition applyCleanup (cleanup : DeadNodeCleanup) : server unit :=
  for_each (cl_queues cleanup) (fun queue =>
    recover_and_close (queueDescriptor queue);; unlink_shm_name (sqm_shm_name queue));;
  for_each (cl_pools cleanup) (fun pool => unlink_shm_name (spm_shm_name pool));;
  for_each (cl_socket_paths cleanup) unlinkSocketPath;;
  for_each (cl_peer_events cleanup) push_event;;
  modify (fun s => s <| sv_peer_events := delete (cl_node_id cleanup) (sv_peer_events s) |>);;
  cleanupPending.

(** -1 when no client has the connection. *)
Definition fdForConnection (connection_id : Z) : server Z :=
  s ← this;
  mret (default (-1) (list.head (filter (fun fd =>
    cc_connection_id <$> sv_clients s !! fd = Some connection_id) (map_keys (sv_clients s))))).

(** [removeClient(fd, false)], and the connection of the client that was removed. *)
Definition erase_client (fd : Z) : server (option Z) :=
  client ← find_client fd;
  match client with
  | None => mret None
  | Some client =>
      set_os (fun o => o <| os_interest := delete fd (os_interest o) |>);;
      modify (fun s => s <| sv_pending := filter (fun '(_, request) => pg_fd request <> fd) (sv_pending s) |>);;
      modify (fun s => s <| sv_clients := delete fd (sv_clients s) |>);;
      mret (Some (cc_connection_id client))
  end.

Definition closeCleanupConnections (cleanup : DeadNodeCleanup) (except_fd : Z) : server unit :=
  for_each [cl_control_connection cleanup; cl_heartbeat_connection cleanup] (fun connection_id =>
    if connection_id =? 0 then mret tt else
    fd ← fdForConnection connection_id;
    if (0 <=? fd) && negb (fd =? except_fd) then erase_client fd;; mret tt else mret tt).

(** [removeClient(fd)] *)
Definition removeClient (fd : Z) : server unit :=
  connection_id ← erase_client fd;
  match connection_id with
  | None => mret tt
  | Some connection_id =>
      cleanups ← on_state (disconnectConnection connection_id);
      for_each cleanups (fun cleanup => applyCleanup cleanup;; closeCleanupConnections cleanup fd)
  end.

Definition expireDeadNodes : server unit :=
  time ← now;
  update ← on_state (evaluateLiveness time);
  for_each (dead_nodes update) (fun cleanup => applyCleanup cleanup;; closeCleanupConnections cleanup (-1)).

(** ** Responses *)

Definition wants_out (client : ClientConnection) : bool :=
  cc_output_offset client <? Z.of_nat (length (cc_output client)).

Definition updateInterest (fd : Z) : server unit :=
  client ← find_client fd;
  match client with
  | None => mret tt
  | Some client =>
      answer ← next_ctl;
      match answer with
      | None => set_os (fun o => o <| os_interest := <[fd := wants_out client]> (os_interest o) |>)
      | Some _ => removeClient fd
      end
  end.

(** The frame: a body that does not fit is replaced by an error. *)
Definition response_frame (request_id : Z) (error : ErrorCode) (body : list Z) : outcome (list Z) :=
  match (payload ← encodeResponsePayload error (if is_ok error then "" else errorMessage error) body;
         encodeControlFrame Response request_id payload) with
  | Throw ex_length_error =>
      payload ← encodeResponsePayload MessageTooLarge (errorMessage MessageTooLarge) [];
      encodeControlFrame Response request_id payload
  | r => r
  end.

Definition queueResponse (fd request_id : Z) (error : ErrorCode) (body : list Z) : server unit :=
  client ← find_client fd;
  match client with
  | None => mret tt
  | Some _ =>
      frame ← lift (response_frame request_id error body);
      set_client fd (fun c => c <| cc_output := cc_output c ++ frame |>);;
      updateInterest fd
  end.

Definition pool_fields (pool : SharedPoolMetadata) : list field :=
  [FStr (spm_shm_name pool); FU64 (spm_pool_id pool); FU64 (spm_segment_size pool); FU16 (spm_layout_version pool)].

Definition endpointBody (result : EndpointResult) : outcome (list Z) :=
  write_body ([FU64 (ep_topic_id result); FU64 (ep_endpoint_id result)] ++ pool_fields (ep_pool result)).

Definition subscriber_fields (subscriber : DiscoveredSubscriber) : list field :=
  let queue := ds_queue subscriber in
  [FU64 (ds_endpoint_id subscriber); FStr (ds_data_socket_path subscriber); FU64 (ds_max_message_size subscriber);
   FStr (sqm_shm_name queue); FU64 (sqm_queue_id queue); FU64 (sqm_segment_size queue); FU32 (sqm_capacity queue);
   FU16 (sqm_layout_version queue); FU16 (sqm_overflow_policy queue); FU64 (sqm_block_timeout_ms queue)].

Definition discoveryBody (result : DiscoveryResult) : outcome (list Z) :=
  write_body ([FU64 (dr_topic_id result); FU16 (TransportType_to_u16 (dr_transport result))] ++ pool_fields (dr_pool result) ++
    [FU32 (wrap 32 (Z.of_nat (length (dr_subscribers result))))] ++ flat_map subscriber_fields (dr_subscribers result)).

(** ** Pending discoveries *)

(** The key of an iterator that follows [key] in the map; [None] is [end()]. *)
Definition next_key {A} (key : Z) (m : gmap Z A) : option Z := list.head (filter (fun k => key < k) (map_keys m)).

(** [iterator] points to an element; a step erases at most what is there, so the number of
    elements is enough fuel. *)
Fixpoint complete_loop (fuel : nat) (iterator : option Z) : server unit :=
  match iterator with
  | None => mret tt
  | Some key =>
      match fuel with
      | O => undefined
      | S fuel =>
          s ← this;
          request ← or_undef (sv_pending s !! key);
          result ← on_state (resolve (pg_connection_id request) (pg_node_id request) (pg_publisher_endpoint_id request));
          if bool_decide (dr_error result = TopicNotFound) then
            s ← this; complete_loop fuel (next_key key (sv_pending s))
          else
            client ← find_client (pg_fd request);
            (match client with
             | None => mret tt
             | Some _ =>
                 body ← lift (discoveryBody result);
                 queueResponse (pg_fd request) (pg_request_id request) (dr_error result) body
             end);;
            s ← this;
            _ ← or_undef (sv_pending s !! key);
            modify (fun s => s <| sv_pending := delete key (sv_pending s) |>);;
            s ← this; complete_loop fuel (next_key key (sv_pending s))
      end
  end.

Definition completePending : server unit :=
  s ← this; complete_loop (size (sv_pending s)) (list.head (map_keys (sv_pending s))).

(** ** Requests

    A handler reads the fields of its request, of the kinds given, and refuses a payload that
    ends early or late. *)

Definition reads (fd : Z) (header : ControlHeader) (payload : list Z) (kinds : list field_kind)
    (handler : list field -> server unit) : server unit :=
  fields ← lift (parse_payload kinds payload);
  match fields with
  | None => queueResponse fd (ctl_request_id header) InvalidControlMessage []
  | Some fields => handler fields
  end.

Definition handle_RegisterNode (fd : Z) (client : ClientConnection) (header : ControlHeader) (payload : list Z) : server unit :=
  reads fd header payload [KStr] (fun fields =>
    match fields with
    | [FStr node_name] =>
        time ← now;
        result ← on_state (registerNode (cc_connection_id client) node_name time);
        body ← lift (write_body [FU64 (ir_id result); FU64 (ir_session_id result)]);
        queueResponse fd (ctl_request_id header) (ir_error result) body
    | _ => undefined
    end).

Definition handle_UnregisterNode (fd : Z) (client : ClientConnection) (header : ControlHeader) (payload : list Z) : server unit :=
  reads fd header payload [KU64] (fun fields =>
    match fields with
    | [FU64 node_id] =>
        error ← on_state (unregisterNode (cc_connection_id client) node_id);
        (if is_ok error then modify (fun s => s <| sv_peer_events := delete node_id (sv_peer_events s) |>) else mret tt);;
        cleanupPending;;
        queueResponse fd (ctl_request_id header) error []
    | _ => undefined
    end).

Definition handle_AdvertiseTopic (fd : Z) (client : ClientConnection) (header : ControlHeader) (payload : list Z) : server unit :=
  reads fd header payload [KU64; KStr; KStr; KStr; KU64; KU16; KStr; KU64; KU64; KU16] (fun fields =>
    match fields with
    | [FU64 node_id; FStr topic_name; FStr type_name; FStr type_hash; FU64 max_message_size; FU16 transport;
       FStr shm_name; FU64 pool_id; FU64 segment_size; FU16 layout_version] =>
        if u32_max <? max_message_size then queueResponse fd (ctl_request_id header) InvalidArgument [] else
        result ← on_state (advertise (cc_connection_id client) node_id topic_name type_name type_hash max_message_size
                   (TransportType_of_u16 transport) (mkSharedPoolMetadata shm_name pool_id segment_size layout_version));
        body ← lift (endpointBody result);
        queueResponse fd (ctl_request_id header) (ep_error result) body
    | _ => undefined
    end).

Definition handle_UnadvertiseTopic (fd : Z) (client : ClientConnection) (header : ControlHeader) (payload : list Z) : server unit :=
  reads fd header payload [KU64; KU64] (fun fields =>
    match fields with
    | [FU64 node_id; FU64 endpoint_id] =>
        error ← on_state (unadvertise (cc_connection_id client) node_id endpoint_id);
        modify (fun s => s <| sv_pending := delete endpoint_id (sv_pending s) |>);;
        queueResponse fd (ctl_request_id header) error []
    | _ => undefined
    end).

Definition handle_SubscribeTopic (fd : Z) (client : ClientConnection) (header : ControlHeader) (payload : list Z) : server unit :=
  reads fd header payload [KU64; KStr; KStr; KStr; KU64; KStr; KU16; KStr; KU64; KU64; KU32; KU16; KU16; KU64] (fun fields =>
    match fields with
    | [FU64 node_id; FStr topic_name; FStr type_name; FStr type_hash; FU64 max_message_size; FStr data_socket_path;
       FU16 transport; FStr shm_name; FU64 queue_id; FU64 segment_size; FU32 capacity; FU16 layout_version;
       FU16 overflow_policy; FU64 block_timeout_ms] =>
        if u32_max <? max_message_size then queueResponse fd (ctl_request_id header) InvalidArgument [] else
        result ← on_state (subscribe (cc_connection_id client) node_id topic_name type_name type_hash max_message_size
                   data_socket_path (TransportType_of_u16 transport)
                   (mkSharedQueueMetadata shm_name queue_id segment_size capacity layout_version overflow_policy block_timeout_ms));
        body ← lift (endpointBody result);
        queueResponse fd (ctl_request_id header) (ep_error result) body;;
        if is_ok (ep_error result) then completePending else mret tt
    | _ => undefined
    end).

Definition handle_UnsubscribeTopic (fd : Z) (client : ClientConnection) (header : ControlHeader) (payload : list Z) : server unit :=
  reads fd header payload [KU64; KU64] (fun fields =>
    match fields with
    | [FU64 node_id; FU64 endpoint_id] =>
        error ← on_state (unsubscribe (cc_connection_id client) node_id endpoint_id);
        queueResponse fd (ctl_request_id header) error []
    | _ => undefined
    end).

Definition handle_ResolveEndpoint (fd : Z) (client : ClientConnection) (header : ControlHeader) (payload : list Z) : server unit :=
  reads fd header payload [KU64; KU64] (fun fields =>
    match fields with
    | [FU64 node_id; FU64 endpoint_id] =>
        result ← on_state (resolve (cc_connection_id client) node_id endpoint_id);
        if bool_decide (dr_error result = TopicNotFound) then
          modify (fun s => s <| sv_pending := <[endpoint_id :=
            mkPendingDiscovery fd (cc_connection_id client) node_id endpoint_id (ctl_request_id header)]> (sv_pending s) |>)
        else
          body ← lift (discoveryBody result);
          queueResponse fd (ctl_request_id header) (dr_error result) body
    | _ => undefined
    end).

Definition handle_ListNodes (fd : Z) (header : ControlHeader) (payload : list Z) : server unit :=
  reads fd header payload [] (fun _ =>
    nodes ← on_state listNodes;
    body ← lift (write_body (FU32 (wrap 32 (Z.of_nat (length nodes))) ::
      flat_map (fun node => [FU64 (node_id node); FStr (node_name node); FU16 (LivenessState_to_u16 (liveness node))]) nodes));
    queueResponse fd (ctl_request_id header) Ok body).

Definition handle_ListTopics (fd : Z) (header : ControlHeader) (payload : list Z) : server unit :=
  reads fd header payload [] (fun _ =>
    topics ← on_state listTopics;
    body ← lift (write_body (FU32 (wrap 32 (Z.of_nat (length topics))) ::
      flat_map (fun topic => [FU64 (topic_id topic); FStr (topic_name topic)]) topics));
    queueResponse fd (ctl_request_id header) Ok body).

Definition handle_QueryTopic (fd : Z) (header : ControlHeader) (payload : list Z) : server unit :=
  reads fd header payload [KStr] (fun fields =>
    match fields with
    | [FStr name] =>
        topic ← on_state (queryTopic name);
        match topic with
        | None => queueResponse fd (ctl_request_id header) TopicNotFound []
        | Some topic =>
            body ← lift (write_body ([FU64 (topic_id topic); FStr (topic_name topic); FStr (type_name topic);
              FStr (type_hash topic); FU16 (TransportType_to_u16 (topic_transport topic)); FU64 (topic_max_message_size topic);
              FU64 (if bool_decide (is_Some (publisher_endpoint topic)) then 1 else 0);
              FU64 (Z.of_nat (size (topic_subscriber_endpoints topic)))] ++ pool_fields (topic_pool topic)));
            queueResponse fd (ctl_request_id header) Ok body
        end
    | _ => undefined
    end).

Definition handle_QueryStats (fd : Z) (header : ControlHeader) (payload : list Z) : server unit :=
  reads fd header payload [] (fun _ =>
    stats ← on_state statsSnapshot;
    body ← lift (write_body [FU64 (rss_node_count stats); FU64 (rss_topic_count stats); FU64 (rss_publisher_count stats);
      FU64 (rss_subscriber_count stats); FU64 (rss_heartbeat_received stats); FU64 (rss_suspected_count stats);
      FU64 (rss_dead_node_count stats)]);
    queueResponse fd (ctl_request_id header) Ok body).

Definition handle_AttachHeartbeat (fd : Z) (client : ClientConnection) (header : ControlHeader) (payload : list Z) : server unit :=
  reads fd header payload [KU64; KU64] (fun fields =>
    match fields with
    | [FU64 node_id; FU64 session_id] =>
        error ← on_state (attachHeartbeat (cc_connection_id client) node_id session_id);
        queueResponse fd (ctl_request_id header) error []
    | _ => undefined
    end).

Definition PeerEventKind_to_u16 (kind : PeerEventKind) : Z := match kind with PublisherDead => 1 | SubscriberDead => 2 end.
Definition event_fields (event : PeerEventRecord) : list field :=
  [FU16 (PeerEventKind_to_u16 (ev_kind event)); FU64 (ev_target_endpoint_id event); FU64 (ev_dead_endpoint_id event);
   FU64 (ev_topic_id event); FU64 (ev_resource_id event)].

Definition handle_Heartbeat (fd : Z) (client : ClientConnection) (header : ControlHeader) (payload : list Z) : server unit :=
  reads fd header payload [KU64; KU64] (fun fields =>
    match fields with
    | [FU64 node_id; FU64 session_id] =>
        time ← now;
        result ← on_state (heartbeat (cc_connection_id client) node_id session_id time);
        events ← (if is_ok (hr_error result) then
                    events ← gets (fun s => default [] (sv_peer_events s !! node_id));
                    modify (fun s => s <| sv_peer_events := delete node_id (sv_peer_events s) |>);;
                    mret events
                  else mret []);
        body ← lift (write_body ([FU16 (LivenessState_to_u16 (hr_state result)); FU32 (wrap 32 (Z.of_nat (length events)))] ++
          flat_map event_fields events));
        queueResponse fd (ctl_request_id header) (hr_error result) body
    | _ => undefined
    end).

Definition dispatch (fd : Z) (header : ControlHeader) (payload : list Z) : server unit :=
  client ← clients_at fd;
  match ctl_opcode header with
  | RegisterNode => handle_RegisterNode fd client header payload
  | UnregisterNode => handle_UnregisterNode fd client header payload
  | AdvertiseTopic => handle_AdvertiseTopic fd client header payload
  | UnadvertiseTopic => handle_UnadvertiseTopic fd client header payload
  | SubscribeTopic => handle_SubscribeTopic fd client header payload
  | UnsubscribeTopic => handle_UnsubscribeTopic fd client header payload
  | ResolveEndpoint => handle_ResolveEndpoint fd client header payload
  | ListNodes => handle_ListNodes fd header payload
  | ListTopics => handle_ListTopics fd header payload
  | QueryTopic => handle_QueryTopic fd header payload
  | QueryStats => handle_QueryStats fd header payload
  | AttachHeartbeat => handle_AttachHeartbeat fd client header payload
  | Heartbeat => handle_Heartbeat fd client header payload
  | Response | Opcode_other _ => queueResponse fd (ctl_request_id header) UnknownOpcode []
  end.

(** ** Connections *)

(** A header that is refused: the answer, and the connection is closed once it is written. *)
Definition refuse_input (fd request_id : Z) (error : ErrorCode) : server unit :=
  queueResponse fd request_id error [];;
  set_client fd (fun c => c <| cc_close_after_write := true |>);;
  set_client fd (fun c => c <| cc_input := [] |>).

Definition validation_error (validation : ControlHeaderValidation) : ErrorCode :=
  match validation with
  | ControlUnsupportedVersion => UnsupportedProtocolVersion
  | ControlPayloadTooLarge => MessageTooLarge
  | _ => InvalidControlMessage
  end.

(** The [while] loop: each round takes a header off the input. *)
Fixpoint parse_loop (fuel : nat) (fd : Z) : server unit :=
  client ← client_ref fd;
  let input := cc_input client in
  if (length input <? kControlHeaderSize)%nat then mret tt else
  match fuel with
  | O => undefined
  | S fuel =>
      match decodeControlHeader (Some (take kControlHeaderSize input)) with
      | None => refuse_input fd 0 InvalidControlMessage
      | Some header =>
          match validateControlHeader header with
          | ControlValid =>
              let frame_size := (kControlHeaderSize + Z.to_nat (ctl_payload_size header))%nat in
              if (length input <? frame_size)%nat then mret tt else
              let payload := take (frame_size - kControlHeaderSize) (drop kControlHeaderSize input) in
              set_client fd (fun c => c <| cc_input := drop frame_size input |>);;
              (if negb (isKnownRequestOpcode (ctl_opcode header))
               then queueResponse fd (ctl_request_id header) UnknownOpcode []
               else dispatch fd header payload);;
              parse_loop fuel fd
          | validation => refuse_input fd (ctl_request_id header) (validation_error validation)
          end
      end
  end.

Definition parseFrames (fd : Z) : server unit :=
  client ← clients_at fd; parse_loop (S (length (cc_input client))) fd.

Definition kReadSize : Z := 4096.
Definition kMaxInput : Z := Z.of_nat kControlHeaderSize + kMaxControlPayloadSize.

(** [recv(fd, buffer, 4096, MSG_DONTWAIT)] *)
Definition recv_client (fd : Z) : server (list Z + Z) :=
  s ← this;
  let '(answer, so) := recv_step kReadSize (os_socket (sv_os s) fd) in
  set_os_socket fd so;; mret answer.

(** The [while (true)]: each round uses up what the kernel has to answer. *)
Fixpoint read_loop (fuel : nat) (fd : Z) : server unit :=
  match fuel with
  | O => undefined
  | S fuel =>
      received ← recv_client fd;
      match received with
      | inl ((_ :: _) as bytes) =>
          set_client fd (fun c => c <| cc_input := cc_input c ++ bytes |>);;
          client ← client_ref fd;
          if kMaxInput <? Z.of_nat (length (cc_input client)) then refuse_input fd 0 MessageTooLarge else
          parseFrames fd;;
          client ← find_client fd;
          match client with
          | None => mret tt
          | Some client => if cc_close_after_write client then mret tt else read_loop fuel fd
          end
      | inl [] =>
          client ← client_ref fd;
          if wants_out client then
            set_client fd (fun c => c <| cc_close_after_write := true |>);; updateInterest fd
          else removeClient fd
      | inr errno =>
          if errno =? EINTR then read_loop fuel fd else
          if errno =? EAGAIN then mret tt else removeClient fd
      end
  end.

Definition readClient (fd : Z) : server unit :=
  client ← find_client fd;
  match client with
  | None => mret tt
  | Some _ => s ← this; read_loop (S (incoming_size (os_socket (sv_os s) fd))) fd
  end.

(** [send(fd, output + offset, ...)] *)
Definition send_client (fd : Z) (data : list Z) : server io_reply :=
  s ← this;
  let '(reply, so) := send_step data (os_socket (sv_os s) fd) in
  set_os_socket fd so;; mret reply.

(** The [while] loop: true when everything was written. *)
Fixpoint write_loop (fuel : nat) (fd : Z) : server bool :=
  client ← client_ref fd;
  if negb (wants_out client) then mret true else
  match fuel with
  | O => undefined
  | S fuel =>
      reply ← send_client fd (drop (Z.to_nat (cc_output_offset client)) (cc_output client));
      if 0 <? io_result reply then
        set_client fd (fun c => c <| cc_output_offset := cc_output_offset c + io_result reply |>);;
        write_loop fuel fd
      else if (io_result reply <? 0) && (io_errno reply =? EINTR) then write_loop fuel fd
      else if (io_result reply <? 0) && (io_errno reply =? EAGAIN) then mret false
      else removeClient fd;; mret false
  end.

Definition writeClient (fd : Z) : server unit :=
  client ← find_client fd;
  match client with
  | None => mret tt
  | Some _ =>
      s ← this;
      written ← write_loop (S (S (length (so_replies (os_socket (sv_os s) fd))))) fd;
      if negb written then mret tt else
      set_client fd (fun c => c <| cc_output := [] |> <| cc_output_offset := 0 |>);;
      client ← client_ref fd;
      if cc_close_after_write client then removeClient fd else updateInterest fd
  end.

(** The [while (true)] of [acceptConnections]. *)
Fixpoint accept_loop (fuel : nat) : server unit :=
  match fuel with
  | O => undefined
  | S fuel =>
      answer ← next_accept4;
      accepted ← lift (accept_connection answer);
      match accepted with
      | None => mret tt
      | Some fd =>
          s ← this;
          let id := sv_next_connection_id s in
          modify (fun s => s <| sv_next_connection_id := wrap 64 (id + 1) |>
            <| sv_clients := emplace fd (mkClientConnection id [] [] 0 false) (sv_clients s) |>);;
          answer ← next_ctl;
          match answer with
          | None => set_os (fun o => o <| os_interest := <[fd := false]> (os_interest o) |>);; accept_loop fuel
          | Some errno =>
              modify (fun s => s <| sv_clients := delete fd (sv_clients s) |>);;
              throw (ex_system_error errno)
          end
      end
  end.

Definition acceptConnections : server unit :=
  s ← this; accept_loop (S (length (os_accepts (sv_os s)))).

(** ** The loop *)

Definition EPOLLIN : Z := 1.
Definition EPOLLOUT : Z := 4.
Definition EPOLLERR : Z := 8.
Definition EPOLLHUP : Z := 16.
Definition EPOLLRDHUP : Z := 0x2000.
Definition has_flag (flags mask : Z) : bool := negb (Z.land flags mask =? 0).

Definition liveness_poll_ms (config : LivenessConfig) : Z := Z.max 1 (Z.min 100 (suspect_timeout config ÷ 2)).
Definition bounded_timeout (config : LivenessConfig) (timeout_ms : Z) : Z :=
  if timeout_ms <? 0 then liveness_poll_ms config else Z.min timeout_ms (liveness_poll_ms config).

(** The answers of the calls of [epoll_wait], all with the same timeout: a list of descriptors
    with flags, or [errno]; after the list the wait times out. *)
Fixpoint wait_events (waits : list (list (Z * Z) + Z)) : server (list (Z * Z)) :=
  match waits with
  | [] => mret []
  | inl events :: _ => mret events
  | inr errno :: waits => if errno =? EINTR then wait_events waits else throw (ex_system_error errno)
  end.

Definition connected_client (fd : Z) : server bool :=
  client ← find_client fd; mret (bool_decide (is_Some client)).

Definition handle_event (event : Z * Z) : server unit :=
  let '(fd, flags) := event in
  s ← this;
  if fd =? ul_fd (sv_listener s) then acceptConnections else
  known ← connected_client fd;
  if negb known then mret tt else
  (if has_flag flags EPOLLIN then readClient fd else mret tt);;
  known ← connected_client fd;
  (if known && has_flag flags EPOLLOUT then writeClient fd else mret tt);;
  known ← connected_client fd;
  if known && has_flag flags (Z.lor EPOLLERR (Z.lor EPOLLHUP EPOLLRDHUP)) && negb (has_flag flags EPOLLIN)
  then removeClient fd else mret tt.

Definition pollOnce (epoll_wait : Z -> list (list (Z * Z) + Z)) (timeout_ms : Z) : server unit :=
  s ← this;
  events ← wait_events (epoll_wait (bounded_timeout (sv_liveness s) timeout_ms));
  for_each events handle_event;;
  expireDeadNodes.

(** The constructor: what is there when a later step throws is destroyed again. *)
Definition create_server (listen : listen_answer) (epoll_create ctl : option Z) (path : string) (liveness : LivenessConfig)
    (os : Os) : cpp SocketFiles ServerState :=
  listener ← create_listener listen path 64;
  let fails e := cleanup_listener listener;; throw e in
  match create_registry liveness with
  | Throw e => fails e
  | Undef => undefined
  | Ret state =>
      match epoll_create, ctl with
      | None, None =>
          mret (mkServerState listener state liveness 1 ∅ ∅ ∅ (os <| os_interest := <[ul_fd listener := false]> (os_interest os) |>))
      | Some errno, _ | None, Some errno => fails (ex_system_error errno)
      end
  end.
