(* ===== verification/ServerInvariant.v ===== *)
(** * Registry server: invariant

    What holds of the server between any two steps, how much of it a request may change, and
    the lemmas on responses, request payloads and calls into the registry that all handlers
    share. *)

From Stdlib Require Import ZArith Lia Bool String.
From stdpp Require Import base gmap list strings option.
From S2P Require Import Prelude Types Outcome BigEndian ControlProtocol QueueProtocol SocketIo SubscriberQueue PublisherState SubscriberInvariant UnixListener RegistryState RegistryInvariant RegistryOps RegistryLiveness RegistryInterface RegistryNames RegistryServer.

Local Open Scope Z_scope.

(** ** Payloads of requests *)

(** Strings came in a control payload. *)
Definition short (x : string) : Prop := string_size x <= kMaxControlPayloadSize.

Definition field_short (f : field) : Prop :=
  match f with FU16 v | FU32 v | FU64 v => 0 <= v | FStr x => short x end.

Lemma readUnsigned_nonneg n r v r' :
  Forall is_byte (rd_data r) -> reader_ok r -> runs (readUnsigned n) r (Some v) r' -> 0 <= v.
Proof.
  intros Hb Hr Hrun. destruct (readUnsigned_spec n r Hr) as [[_ Hnone] | (Hlen & r1 & Hsome & _)].
  - by destruct (runs_det _ _ _ _ _ _ Hrun Hnone).
  - destruct (runs_det _ _ _ _ _ _ Hrun Hsome) as [[= ->] _].
    pose proof (decodeBigEndian_fits n (get_at (Z.to_nat (rd_offset r)) n (rd_data r))) as Hfit.
    unfold fits in Hfit. apply Hfit; [by apply Forall_get_at|]. apply length_get_at. unfold reader_ok, data_size in *. lia.
Qed.

Lemma string_size_bytes bytes : Forall is_byte bytes -> string_size (bytes_string bytes) = Z.of_nat (length bytes).
Proof. intros Hb. unfold string_size. by rewrite <- length_string_bytes, string_bytes_string. Qed.

Lemma readString_bounded r x r' :
  Forall is_byte (rd_data r) -> reader_ok r -> runs readString r (Some x) r' -> string_size x <= data_size r.
Proof.
  intros Hb Hr. unfold runs, readString, readU32, mbind, cpp_bind.
  destruct (readUnsigned_spec 4 r Hr) as [[_ ->] | (Hlen & r1 & Hsome & Hr1 & Hd1 & _)]; [done|].
  rewrite Hsome. unfold this. set (n := decodeBigEndian 4 _). destruct (remaining r1 <? n) eqn:Hn; [done|]. unfold read_at.
  destruct (decide _) as [Hle|]; [|done]. cbn [or_undef]. unfold mret, cpp_ret, advance, modify. intros [= <- _].
  rewrite string_size_bytes by (apply Forall_get_at; by rewrite Hd1). rewrite length_take, length_drop.
  unfold data_size. rewrite Hd1 in Hle. lia.
Qed.

Lemma read_fields_short ks r fs r' :
  Forall is_byte (rd_data r) -> reader_ok r -> data_size r <= kMaxControlPayloadSize ->
  runs (read_fields_seq ks) r (Some fs) r' -> map kind_of fs = ks /\ Forall field_short fs.
Proof.
  revert r fs. induction ks as [|k ks IH]; intros r fs Hb Hr Hsize Hrun; simpl in Hrun.
  - unfold runs in Hrun. unfold_cpp. destruct (reader_empty r); simplify_eq. by split; [|constructor].
  - destruct (read_field_kind_ok k r Hb Hr) as (f & r1 & Hf & Hr1 & Hd1). unfold runs, mbind, cpp_bind in Hrun.
    rewrite Hf in Hrun. destruct f as [f|]; [|done].
    destruct (read_fields_seq ks r1) as [[[fs1|]| |] r2] eqn:Hrest; try done. unfold mret, cpp_ret in Hrun. simplify_eq/=.
    assert (Hsz : data_size r1 = data_size r) by (unfold data_size; by rewrite Hd1).
    destruct (IH r1 fs1) as [Hk Hfs]; [by rewrite Hd1 | done | by rewrite Hsz | done |]. rewrite Hk.
    enough (kind_of f = k /\ field_short f) as [-> ?] by by split; [|constructor]. clear IH Hk Hfs Hrest.
    destruct k; unfold runs, read_field_kind, readU16, readU32, readU64, mbind, cpp_bind in Hf.
    1-3: match goal with Hf : context [readUnsigned ?n ?x] |- _ => destruct (readUnsigned n x) as [[[v|]| |] ?] eqn:Hv end;
         unfold mret, cpp_ret in Hf; simplify_eq/=; split; [done|]; by eapply readUnsigned_nonneg.
    destruct (readString r) as [[[x|]| |] ?] eqn:Hx; unfold mret, cpp_ret in Hf; simplify_eq/=. split; [done|].
    pose proof (readString_bounded _ _ _ Hb Hr Hx). unfold short. lia.
Qed.

Lemma parse_payload_ok ks payload :
  Forall is_byte payload -> Z.of_nat (length payload) <= kMaxControlPayloadSize ->
  parse_payload ks payload = Ret None \/
  exists fs, parse_payload ks payload = Ret (Some fs) /\ map kind_of fs = ks /\ Forall field_short fs.
Proof.
  intros Hb Hsize. assert (Hr : reader_ok (reader_of payload)).
  { split; unfold data_size; simpl; [lia|]. unfold kMaxControlPayloadSize in Hsize. lia. }
  destruct (read_fields_seq_ok ks (reader_of payload) Hb Hr) as (fs & r' & Hrun). unfold parse_payload.
  pose proof Hrun as Hrun'. unfold runs in Hrun'. rewrite Hrun'. destruct fs as [fs|]; [|by left]. right. exists fs.
  split; [done|]. exact (read_fields_short ks (reader_of payload) fs r' Hb Hr Hsize Hrun).
Qed.

(** ** Bodies of responses *)

Definition field_writable (f : field) : Prop := match f with FStr x => short x | _ => True end.

Lemma write_field_run f data : field_writable f -> write_field f data = (Ret tt, data ++ field_bytes f).
Proof.
  destruct f; simpl; try done. unfold short, kMaxControlPayloadSize. intros Hs.
  change (write_field (FStr s) data = (Ret tt, data ++ field_bytes (FStr s))). apply write_field_spec. simpl. ulia.
Qed.

Lemma write_body_ok fields : Forall field_writable fields -> write_body fields = Ret (fields_bytes fields).
Proof.
  intros Hf. unfold write_body.
  enough (forall data, for_each fields write_field data = (Ret tt, data ++ fields_bytes fields)) as H by by rewrite H.
  induction Hf as [|f fields Hf Hfs IH]; intros data; simpl.
  - unfold fields_bytes. simpl. by rewrite app_nil_r.
  - unfold mbind, cpp_bind. rewrite write_field_run, IH by done. unfold fields_bytes. simpl. by rewrite <- app_assoc.
Qed.

(** [frame] is a response frame to request [request_id]. *)
Definition is_response (frame : list Z) (request_id : Z) (error : ErrorCode) (body : list Z) : Prop :=
  exists payload, encodeResponsePayload error (if is_ok error then "" else errorMessage error) body = Ret payload /\
    encodeControlFrame Response request_id payload = Ret frame.

Lemma errorMessage_short error : string_size (errorMessage error) <= 256.
Proof. by destruct error. Qed.

Lemma encodeResponsePayload_ok error message body : string_size message <= 256 ->
  encodeResponsePayload error message body =
    Ret (encodeBigEndian 2 (ErrorCode_to_u16 error) ++ field_bytes (FStr message) ++ body).
Proof.
  intros Hs. unfold encodeResponsePayload, mbind, cpp_bind. cbn [writeU16 appendBigEndian modify]. unfold writeU16, appendBigEndian, modify.
  rewrite (write_field_run (FStr message) _ : _ -> writeString _ _ = _) by (unfold field_writable, short, kMaxControlPayloadSize; lia).
  unfold writeBytes, modify. by rewrite app_nil_l, <- app_assoc.
Qed.

(** The response, or that it is too large. *)
Lemma response_frame_ok request_id error body : exists frame, response_frame request_id error body = Ret frame /\
  (is_response frame request_id error body \/ is_response frame request_id MessageTooLarge []).
Proof.
  unfold response_frame, is_response. set (message := if is_ok error then _ else _).
  assert (Hm : string_size message <= 256) by (unfold message; case_match; [done | apply errorMessage_short]).
  rewrite !encodeResponsePayload_ok by (done || apply errorMessage_short). simpl mbind. unfold mbind, outcome_bind.
  destruct (encodeControlFrame Response request_id _) as [frame|e|] eqn:Hframe.
  - exists frame. split; [done|]. left. by eexists.
  - assert (e = ex_length_error) as -> by (unfold encodeControlFrame in Hframe; by case_match; simplify_eq).
    eexists. split; [reflexivity|]. right. eexists. split; reflexivity.
  - unfold encodeControlFrame in Hframe. by case_match.
Qed.

(** ** The invariant *)

Record client_ok (c : ClientConnection) : Prop := {
  ck_bytes : Forall is_byte (cc_input c);
  ck_output : 0 <= cc_output_offset c;
}.

(** [epoll_ctl] does not fail on a descriptor that is open and registered. *)
Record server_ok (s : ServerState) : Prop := {
  vo_registry : registry_wf (sv_state s);
  vo_names : all_names short (sv_state s);
  vo_ctl : Forall (fun answer => answer = None) (os_ctl (sv_os s));
  vo_sockets : map_Forall (fun _ so => Forall incoming_typed (so_incoming so)) (os_sockets (sv_os s));
  vo_clients : map_Forall (fun _ => client_ok) (sv_clients s);
  vo_events : map_Forall (fun _ events => (length events <= kMaxEventsPerNode)%nat) (sv_peer_events s);
}.

(** ** What a request may change

    Clients only get more to write, and sockets are left alone. *)

Definition grown (c c' : ClientConnection) : Prop := exists more, c' = c <| cc_output := cc_output c ++ more |>.

(** At most [n] ids of each kind are used up. *)
Definition ids_within (n : Z) (s s' : RegistryState) : Prop :=
  next_node_id_ s' <= next_node_id_ s + n /\ next_topic_id_ s' <= next_topic_id_ s + n /\
  next_endpoint_id_ s' <= next_endpoint_id_ s + n.

Record served (n : Z) (s s' : ServerState) : Prop := {
  sd_ok : server_ok s';
  sd_ids : ids_within n (sv_state s) (sv_state s');
  sd_clients : forall fd, option_Forall2 grown (sv_clients s !! fd) (sv_clients s' !! fd);
  sd_rest : os_sockets (sv_os s') = os_sockets (sv_os s) /\ os_accepts (sv_os s') = os_accepts (sv_os s) /\
    sv_listener s' = sv_listener s /\ sv_next_connection_id s' = sv_next_connection_id s /\ sv_liveness s' = sv_liveness s;
}.

#[export] Instance grown_preorder : PreOrder grown.
Proof.
  split.
  - intros c. exists []. destruct c. unfold update_with. simpl. by rewrite app_nil_r.
  - intros c1 c2 c3 [m1 ->] [m2 ->]. exists (m1 ++ m2). destruct c1. unfold update_with. simpl. by rewrite app_assoc.
Qed.

Lemma grown_ok c c' : grown c c' -> client_ok c -> client_ok c'.
Proof. intros [more ->] []. by split. Qed.

Lemma served_refl s : server_ok s -> served 0 s s.
Proof. intros Hok. split; [done| |done|done]. unfold ids_within. lia. Qed.

Lemma served_weaken n n' s s' : n <= n' -> served n s s' -> served n' s s'.
Proof. intros Hn [? ? ? ?]. split; auto. unfold ids_within in *. lia. Qed.

Lemma served_trans n m s1 s2 s3 : served n s1 s2 -> served m s2 s3 -> served (n + m) s1 s3.
Proof.
  intros [O1 I1 C1 R1] [O2 I2 C2 R2]. split; [done| | |intuition congruence].
  - unfold ids_within in *. lia.
  - intros fd. by trans (sv_clients s2 !! fd).
Qed.

Lemma served_client n s s' fd c : served n s s' -> sv_clients s !! fd = Some c ->
  exists c', sv_clients s' !! fd = Some c' /\ grown c c'.
Proof. intros Hs Hc. pose proof (sd_clients _ _ _ Hs fd) as H. rewrite Hc in H. inversion H; subst. eauto. Qed.

(** ** Responses *)

(** [epoll_ctl(MOD)] succeeded for client [c]. *)
Definition note_interest (fd : Z) (c : ClientConnection) (s : ServerState) : ServerState :=
  s <| sv_os := sv_os s <| os_ctl := tail (os_ctl (sv_os s)) |>
                        <| os_interest := <[fd := wants_out c]> (os_interest (sv_os s)) |> |>.

Definition with_output (frame : list Z) (c : ClientConnection) : ClientConnection :=
  c <| cc_output := cc_output c ++ frame |>.

Definition respond (fd : Z) (c : ClientConnection) (frame : list Z) (s : ServerState) : ServerState :=
  note_interest fd (with_output frame c) (s <| sv_clients := <[fd := with_output frame c]> (sv_clients s) |>).

Lemma respond_clients fd c frame s : sv_clients (respond fd c frame s) = <[fd := with_output frame c]> (sv_clients s).
Proof. done. Qed.

Lemma find_client_run fd s : find_client fd s = (Ret (sv_clients s !! fd), s).
Proof. done. Qed.

Lemma client_ref_run fd c s : sv_clients s !! fd = Some c -> client_ref fd s = (Ret c, s).
Proof. intros Hc. unfold client_ref. unfold_cpp. by rewrite find_client_run, Hc. Qed.

Lemma set_client_run fd c f s : sv_clients s !! fd = Some c ->
  set_client fd f s = (Ret tt, s <| sv_clients := <[fd := f c]> (sv_clients s) |>).
Proof. intros Hc. unfold set_client. unfold_cpp. by rewrite (client_ref_run _ _ _ Hc). Qed.

Lemma updateInterest_run fd c s : Forall (fun answer => answer = None) (os_ctl (sv_os s)) ->
  sv_clients s !! fd = Some c -> updateInterest fd s = (Ret tt, note_interest fd c s).
Proof.
  intros Hctl Hc. unfold updateInterest, note_interest, next_ctl, set_os. unfold_cpp. rewrite find_client_run, Hc.
  destruct s as [? ? ? ? ? ? ? [? ? ? ? ? ctl ? ? ? ?]]. simpl in *. destruct ctl as [|a ctl]; [done|].
  by apply Forall_cons_1 in Hctl as [-> _].
Qed.

Lemma queueResponse_run fd c request_id error body frame s : Forall (fun answer => answer = None) (os_ctl (sv_os s)) ->
  sv_clients s !! fd = Some c -> response_frame request_id error body = Ret frame ->
  queueResponse fd request_id error body s = (Ret tt, respond fd c frame s).
Proof.
  intros Hctl Hc Hframe. unfold queueResponse. rewrite Hframe. unfold mbind, cpp_bind, lift.
  rewrite find_client_run, Hc, (set_client_run _ _ _ _ Hc). apply updateInterest_run; [done|]. apply lookup_insert_eq.
Qed.

Lemma note_interest_ok fd c s : server_ok s -> server_ok (note_interest fd c s).
Proof. intros []. split; simpl; auto. destruct (os_ctl (sv_os s)); [done|]. by apply Forall_cons_1 in vo_ctl0 as [_ ?]. Qed.

Lemma respond_served fd c frame s : server_ok s -> sv_clients s !! fd = Some c -> served 0 s (respond fd c frame s).
Proof.
  intros Hok Hc. split; [|unfold ids_within; simpl; lia| |done].
  - apply note_interest_ok. destruct Hok. split; simpl; auto. apply map_Forall_insert_2; [|done].
    eapply grown_ok; [by exists frame|]. by apply (vo_clients0 fd).
  - intros fd'. simpl. destruct (decide (fd' = fd)) as [->|Hne]; [|by rewrite lookup_insert_ne].
    rewrite lookup_insert_eq, Hc. constructor. by exists frame.
Qed.

(** The client got one response to [request_id], and no other client anything. *)
Definition replied (fd request_id : Z) (s s' : ServerState) : Prop :=
  exists c frame error body, sv_clients s !! fd = Some c /\ is_response frame request_id error body /\
    sv_clients s' = <[fd := with_output frame c]> (sv_clients s).

Lemma wp_respond fd c request_id error body s (Q : unit -> ServerState -> Prop) :
  server_ok s -> sv_clients s !! fd = Some c ->
  (forall s', served 0 s s' -> replied fd request_id s s' -> sv_state s' = sv_state s -> sv_pending s' = sv_pending s ->
     sv_peer_events s' = sv_peer_events s -> Q tt s') ->
  wp (queueResponse fd request_id error body) s Q.
Proof.
  intros Hok Hc HQ. destruct (response_frame_ok request_id error body) as (frame & Hframe & Hres). unfold wp.
  rewrite (queueResponse_run _ _ _ _ _ _ _ (vo_ctl _ Hok) Hc Hframe). apply HQ; [by apply respond_served| |done|done|done].
  destruct Hres; eexists c, frame, _, _; eauto.
Qed.

(** ** Calls into the registry *)

Lemma wp_on_state {A} (c : registry A) s (Q : A -> ServerState -> Prop) :
  server_ok s -> keeps c (sv_state s) -> names_kept short c ->
  (forall a t, runs c (sv_state s) a t -> served 1 s (s <| sv_state := t |>) -> Q a (s <| sv_state := t |>)) ->
  wp (on_state c) s Q.
Proof.
  intros Hok (a & t & Hrun & Hwf & Hids) Hnames HQ. pose proof (Hnames _ (vo_names _ Hok)) as Hn. unfold wp, on_state.
  unfold runs in Hrun. rewrite Hrun in *. apply HQ; [done|]. destruct Hok. split; [by split|done|done|done].
Qed.

(** A call that changes nothing. *)
Lemma wp_on_state_same {A} (c : registry A) s a (Q : A -> ServerState -> Prop) :
  runs c (sv_state s) a (sv_state s) -> Q a s -> wp (on_state c) s Q.
Proof. intros Hrun HQ. unfold wp, on_state. unfold runs in Hrun. rewrite Hrun. by destruct s. Qed.

Lemma wp_lift {S A} (o : outcome A) a s (Q : A -> S -> Prop) : o = Ret a -> Q a s -> wp (lift o) s Q.
Proof. by intros ->. Qed.

Lemma wp_modify {S} (f : S -> S) s (Q : unit -> S -> Prop) : Q tt (f s) -> wp (modify f) s Q.
Proof. done. Qed.

Lemma wp_gets {S A} (f : S -> A) s (Q : A -> S -> Prop) : Q (f s) s -> wp (gets f) s Q.
Proof. done. Qed.

Lemma wp_this {S} s (Q : S -> S -> Prop) : Q s s -> wp this s Q.
Proof. done. Qed.

Lemma wp_now s (Q : Z -> ServerState -> Prop) : server_ok s ->
  (forall time s', served 0 s s' -> sv_clients s' = sv_clients s -> sv_state s' = sv_state s -> sv_pending s' = sv_pending s ->
     sv_peer_events s' = sv_peer_events s -> Q time s') -> wp now s Q.
Proof.
  intros Hok HQ. unfold wp, now. unfold_cpp. destruct (os_times (sv_os s)); apply HQ; try done; [by apply served_refl|].
  destruct Hok. split; [by split|unfold ids_within; simpl; lia|done|done].
Qed.
