(* ===== verification/ServerRequests.v ===== *)
(** * Registry server: requests

    Every request of a connected client gets exactly one response, at once or, for a discovery
    without subscribers, later; and discoveries that wait are answered as soon as there is a
    subscriber. *)

From Stdlib Require Import ZArith Lia Bool String.
From stdpp Require Import base gmap list strings option sorting.
From S2P Require Import Prelude Types Outcome ControlProtocol RegistryState RegistryInvariant RegistryOps RegistryLiveness RegistryInterface RegistryNames RegistryServer ServerInvariant.

Local Open Scope Z_scope.

(** ** Results of the registry *)

Definition pool_short (pool : SharedPoolMetadata) : Prop := short (spm_shm_name pool).

Lemma short_empty : short "".
Proof. by vm_compute. Qed.

Lemma pool_fields_writable pool : pool_short pool -> Forall field_writable (pool_fields pool).
Proof. intros Hp. by repeat constructor. Qed.

Lemma endpointBody_ok result : pool_short (ep_pool result) -> exists body, endpointBody result = Ret body.
Proof.
  intros Hp. eexists. apply write_body_ok. apply Forall_app. split; [by repeat constructor | by apply pool_fields_writable].
Qed.

Definition discovery_short (result : DiscoveryResult) : Prop :=
  pool_short (dr_pool result) /\
  Forall (fun sub => short (ds_data_socket_path sub) /\ short (sqm_shm_name (ds_queue sub))) (dr_subscribers result).

Lemma Forall_flat_map {A B} (Q : B -> Prop) (f : A -> list B) (l : list A) :
  Forall (fun a => Forall Q (f a)) l -> Forall Q (flat_map f l).
Proof. induction 1; simpl; [constructor|]. by apply Forall_app. Qed.

Lemma discoveryBody_ok result : discovery_short result -> exists body, discoveryBody result = Ret body.
Proof.
  intros [Hp Hs]. eexists. apply write_body_ok. apply Forall_app. split; [by repeat constructor|].
  apply Forall_app. split; [by apply pool_fields_writable|]. apply Forall_app. split; [by repeat constructor|].
  apply Forall_flat_map. eapply list.Forall_impl; [exact Hs|]. intros sub [? ?]. by repeat constructor.
Qed.

(** What can be resolved: the endpoint belongs to the node, and the node to the connection. *)
Definition resolvable (s : RegistryState) (connection id e : Z) : Prop :=
  exists n P, owner s connection id n /\ publishers_ s !! e = Some P /\ pe_node_id P = id.

Lemma resolvable_dec s connection id e : resolvable s connection id e \/ ~ resolvable s connection id e.
Proof.
  destruct (owns s connection id) eqn:Ho.
  - apply owns_true in Ho as [n Ho]. destruct (publishers_ s !! e) as [P|] eqn:He.
    + destruct (decide (pe_node_id P = id)); [left; by exists n, P|]. right. intros (? & ? & ? & ? & ?). by simplify_eq.
    + right. intros (? & ? & ? & ? & ?). by simplify_eq.
  - right. intros (n & ? & ? & _). by eapply owns_false.
Qed.

Lemma resolve_runs s connection id e : registry_wf s -> all_names short s ->
  exists r, runs (resolve connection id e) s r s /\ discovery_short r.
Proof.
  intros Hwf Hn. destruct (resolvable_dec s connection id e) as [(n & P & Ho & He & Hid)|Hno].
  - eexists. split; [by eapply resolve_found|]. split; simpl; [by apply (an_publishers _ _ Hn e)|].
    apply list.Forall_forall. intros sub (e' & _ & Hsub)%list_elem_of_omap.
    apply fmap_Some in Hsub as (S & HS & ->). by apply (an_subscribers _ _ Hn e').
  - eexists. split; [by apply resolve_refused|]. split; [apply short_empty | constructor].
Qed.

Lemma advertise_runs_short s connection id name type hash x transport pool :
  registry_wf s -> ids_left s 1 -> 0 <= x -> pool_short pool -> forall r s',
  runs (advertise connection id name type hash x transport pool) s r s' -> pool_short (ep_pool r).
Proof.
  intros Hwf Hleft Hx Hp r s' Hrun.
  destruct (admission (owns s connection id) (advertisable name type hash x transport pool)
              (refusal s name type hash transport true)) as [code t] eqn:Had.
  destruct (decide (code = Ok)) as [->|Hne].
  - destruct (advertise_accepted _ _ _ _ _ _ _ _ _ _ Hwf Hleft Hx Had) as (r1 & s1 & Hrun1 & _ & _ & [(_ & Hpool & _) _ _ _ _]).
    destruct (runs_det _ _ _ _ _ _ Hrun Hrun1) as [-> _]. by rewrite Hpool.
  - destruct (runs_det _ _ _ _ _ _ Hrun (advertise_refused _ _ _ _ _ _ _ _ _ _ _ Hwf Had Hne)) as [-> _]. apply short_empty.
Qed.

Lemma subscribe_runs_short s connection id name type hash x path transport queue :
  registry_wf s -> ids_left s 1 -> 0 <= x -> forall r s',
  runs (subscribe connection id name type hash x path transport queue) s r s' -> all_names short s' -> pool_short (ep_pool r).
Proof.
  intros Hwf Hleft Hx r s' Hrun Hn.
  destruct (admission (owns s connection id) (subscribable name type hash x path transport queue)
              (refusal s name type hash transport false)) as [code t] eqn:Had.
  destruct (decide (code = Ok)) as [->|Hne].
  - destruct (subscribe_accepted _ _ _ _ _ _ _ _ _ _ _ Hwf Hleft Hx Had) as (r1 & s1 & Hrun1 & _ & _ & [_ _ _ (_ & T & HT & _ & _ & _ & _ & Hpool & _) _]).
    destruct (runs_det _ _ _ _ _ _ Hrun Hrun1) as [-> ->]. unfold pool_short. rewrite <- Hpool. by apply (an_topics _ _ Hn _ _ HT).
  - destruct (runs_det _ _ _ _ _ _ Hrun (subscribe_refused _ _ _ _ _ _ _ _ _ _ _ _ Hwf Had Hne)) as [-> _]. apply short_empty.
Qed.

(** ** Pending discoveries *)

(** The request still waits for a subscriber. *)
Definition waits (t : RegistryState) (request : PendingDiscovery) : bool :=
  match resolve (pg_connection_id request) (pg_node_id request) (pg_publisher_endpoint_id request) t with
  | (Ret r, _) => bool_decide (dr_error r = TopicNotFound)
  | _ => false
  end.

(** [frame] is the answer of the registry to a discovery. *)
Definition discovery_answer (t : RegistryState) (request : PendingDiscovery) (frame : list Z) : Prop :=
  exists r body, runs (resolve (pg_connection_id request) (pg_node_id request) (pg_publisher_endpoint_id request)) t r t /\
    discoveryBody r = Ret body /\ response_frame (pg_request_id request) (dr_error r) body = Ret frame.

(** The requests of client [fd] among [keys] that no longer wait. *)
Definition completed (s : ServerState) (fd : Z) (keys : list Z) : list PendingDiscovery :=
  filter (fun request => pg_fd request = fd /\ waits (sv_state s) request = false) (omap (fun k => sv_pending s !! k) keys).

(** Going through [keys]: the requests that no longer wait are gone and their clients have the
    answers, in the order of the keys; the others stay. *)
Record completes (keys : list Z) (s s' : ServerState) : Prop := {
  cp_served : served 0 s s';
  cp_state : sv_state s' = sv_state s;
  cp_events : sv_peer_events s' = sv_peer_events s;
  cp_pending : forall k, sv_pending s' !! k =
    (sv_pending s !! k ≫= fun request => if bool_decide (k ∈ keys) && negb (waits (sv_state s) request) then None else Some request);
  cp_answers : forall fd c, sv_clients s !! fd = Some c -> exists frames,
    Forall2 (discovery_answer (sv_state s)) (completed s fd keys) frames /\
    sv_clients s' !! fd = Some (with_output (concat frames) c);
}.

(** ** Iterating over a map *)

Definition after (bound : option Z) (k : Z) : Prop := match bound with None => True | Some b => b < k end.

(** [keys]: the keys of [m] after [bound], in order. *)
Definition keys_after {A} (bound : option Z) (m : gmap Z A) (keys : list Z) : Prop :=
  StronglySorted Z.lt keys /\ forall k, k ∈ keys <-> is_Some (m !! k) /\ after bound k.

Lemma keys_all {A} (m : gmap Z A) : keys_after None m (map_keys m).
Proof.
  split; [apply strictly_sorted; [apply Sorted_set_elements | apply NoDup_map_keys]|].
  intros k. rewrite elem_of_map_keys. unfold after. tauto.
Qed.

Lemma keys_after_unique {A} bound (m : gmap Z A) l1 l2 : keys_after bound m l1 -> keys_after bound m l2 -> l1 = l2.
Proof.
  assert (Hnd : forall l, StronglySorted Z.lt l -> NoDup l).
  { induction 1 as [|x l Hs IH Hx]; constructor; [|done]. intros Hin. rewrite Forall_forall in Hx. specialize (Hx _ Hin). lia. }
  intros [S1 H1] [S2 H2]. eapply (StronglySorted_unique_strong Z.lt); [lia|done|done|].
  apply NoDup_Permutation; [by apply Hnd|by apply Hnd|]. intros k. by rewrite H1, H2.
Qed.

(** The increment of an iterator, after the element it pointed to may have been erased. *)
Lemma next_key_after {A} bound (m m' : gmap Z A) key keys :
  keys_after bound m (key :: keys) -> (forall k, k <> key -> m' !! k = m !! k) ->
  next_key key m' = list.head keys /\ keys_after (Some key) m' keys.
Proof.
  intros [Hs Hin] Hm. apply StronglySorted_inv in Hs as [Hs Hlt]. rewrite Forall_forall in Hlt.
  assert (Hk : keys_after (Some key) m' keys).
  { split; [done|]. intros k. simpl. split.
    - intros Hkk. specialize (Hlt _ Hkk). rewrite Hm by lia. split; [|done]. apply Hin. by right.
    - intros [Hk Hlk]. rewrite Hm in Hk by lia. assert (k ∈ key :: keys) as [->|?]%elem_of_cons; [|lia|done].
      apply Hin. split; [done|]. assert (key ∈ key :: keys) as [_ Ha]%Hin by by left. destruct bound; simpl in *; lia. }
  split; [|done]. unfold next_key. f_equal. eapply keys_after_unique; [|exact Hk].
  assert (Ha := keys_all m'). destruct Ha as [Hsa Hina]. split.
  - clear - Hsa. induction Hsa as [|x l Hs IH Hx]; simpl; [constructor|]. rewrite filter_cons. case_decide; [|done].
    constructor; [done|]. rewrite Forall_forall in *. intros y [_ Hy]%list_elem_of_filter. auto.
  - intros k. rewrite list_elem_of_filter, Hina. simpl. tauto.
Qed.

Lemma completes_nil s : server_ok s -> completes [] s s.
Proof.
  intros Hok. split; [by apply served_refl|done|done| |].
  - intros k. by destruct (sv_pending s !! k).
  - intros fd c Hc. exists []. split; [constructor|]. rewrite Hc. destruct c. unfold with_output, update_with. simpl. by rewrite app_nil_r.
Qed.

Lemma completes_wait key request keys s s' :
  sv_pending s !! key = Some request -> waits (sv_state s) request = true -> completes keys s s' -> completes (key :: keys) s s'.
Proof.
  intros Hk Hw [C S E P A]. split; [done|done|done| |].
  - intros k. rewrite P. destruct (sv_pending s !! k) as [q|] eqn:Hq; simpl; [|done].
    destruct (decide (k = key)) as [->|Hne]; [simplify_eq; by rewrite Hw, !andb_false_r|].
    by rewrite (bool_decide_ext (k ∈ key :: keys) (k ∈ keys)) by (rewrite elem_of_cons; tauto).
  - intros fd c Hc. destruct (A fd c Hc) as (frames & Hf & Hc'). exists frames. split; [|done].
    unfold completed. simpl. rewrite Hk. rewrite filter_cons_False; [done|]. rewrite Hw. naive_solver.
Qed.

Lemma completes_done key request keys s s1 s' :
  sv_pending s !! key = Some request -> waits (sv_state s) request = false -> ~ (key ∈ keys) ->
  served 0 s s1 -> sv_state s1 = sv_state s -> sv_peer_events s1 = sv_peer_events s ->
  sv_pending s1 = delete key (sv_pending s) ->
  (forall fd c, sv_clients s !! fd = Some c ->
     if decide (fd = pg_fd request)
     then exists frame, discovery_answer (sv_state s) request frame /\ sv_clients s1 !! fd = Some (with_output frame c)
     else sv_clients s1 !! fd = Some c) ->
  completes keys s1 s' -> completes (key :: keys) s s'.
Proof.
  intros Hk Hw Hnot Hs1 Hst Hev Hp Hcl [C S E P A]. rewrite Hst in *.
  split; [by apply (served_trans 0 0 _ s1)|congruence|congruence| |].
  - intros k. rewrite P, Hp. destruct (decide (k = key)) as [->|Hne].
    + rewrite lookup_delete_eq, Hk. simpl. by rewrite bool_decide_true, Hw by by left.
    + rewrite lookup_delete_ne by done. destruct (sv_pending s !! k); simpl; [|done].
      by rewrite (bool_decide_ext (k ∈ key :: keys) (k ∈ keys)) by (rewrite elem_of_cons; tauto).
  - assert (Hsame : forall fd, completed s1 fd keys = completed s fd keys).
    { intros fd. unfold completed. rewrite Hst, Hp. f_equal. apply list_omap_ext.
      apply Forall2_same_length_lookup_2; [done|]. intros i k k' Hi Hi'. simplify_eq.
      rewrite lookup_delete_ne; [done|]. intros ->. apply Hnot. by eapply list_elem_of_lookup_2. }
    intros fd c Hc. specialize (Hcl fd c Hc). unfold completed at 1. simpl. rewrite Hk, filter_cons. fold (completed s fd keys).
    destruct (decide (fd = pg_fd request)) as [->|Hne].
    + destruct Hcl as (frame & Hans & Hc1). destruct (A _ _ Hc1) as (frames & Hf & Hc'). rewrite decide_True by done.
      exists (frame :: frames). split; [constructor; [done|]; by rewrite Hsame in Hf|]. rewrite Hc'.
      f_equal. destruct c. unfold with_output, update_with. simpl. by rewrite app_assoc.
    + rewrite decide_False by naive_solver. destruct (A _ _ Hcl) as (frames & Hf & Hc'). exists frames. by rewrite Hsame in Hf.
Qed.

Lemma served_pending n s s' p : served n s s' -> served n s (s' <| sv_pending := p |>).
Proof. intros [[] ? ? ?]. split; [by split|done|done|done]. Qed.

Lemma complete_loop_wp fuel keys bound s :
  server_ok s -> keys_after bound (sv_pending s) keys -> (length keys <= fuel)%nat ->
  wp (complete_loop fuel (list.head keys)) s (fun _ s' => completes keys s s').
Proof.
  revert fuel bound s. induction keys as [|key keys IH]; intros fuel bound s Hok Hkeys Hfuel.
  { destruct fuel; apply wp_ret; by apply completes_nil. }
  destruct fuel as [|fuel]; simpl in Hfuel; [lia|]. cbn [complete_loop list.head].
  assert (Hin : key ∈ key :: keys) by by left. apply Hkeys in Hin as [[request Hk] _].
  assert (Hnot : ~ (key ∈ keys)).
  { destruct Hkeys as [Hs _]. apply StronglySorted_inv in Hs as [_ Hlt]. rewrite Forall_forall in Hlt. intros Hi. specialize (Hlt _ Hi). lia. }
  apply wp_bind, wp_this, wp_bind. rewrite Hk. cbn [or_undef]. apply wp_ret.
  destruct (resolve_runs (sv_state s) (pg_connection_id request) (pg_node_id request) (pg_publisher_endpoint_id request)
              (vo_registry _ Hok) (vo_names _ Hok)) as (r & Hrun & Hshort).
  apply wp_bind. eapply wp_on_state_same; [exact Hrun|].
  assert (Hw : waits (sv_state s) request = bool_decide (dr_error r = TopicNotFound)) by (unfold waits; unfold runs in Hrun; by rewrite Hrun).
  rewrite <- Hw. destruct (waits (sv_state s) request) eqn:Hwait.
  { apply wp_bind, wp_this. destruct (next_key_after _ _ (sv_pending s) _ _ Hkeys) as [-> Hnext]; [done|].
    eapply wp_mono; [|eapply IH; [done|exact Hnext|lia]]. intros [] s'. by apply completes_wait with request. }
  apply wp_bind, wp_gets.
  assert (Hrest : forall s1, served 0 s s1 -> sv_state s1 = sv_state s -> sv_peer_events s1 = sv_peer_events s ->
    sv_pending s1 = sv_pending s ->
    (forall fd c, sv_clients s !! fd = Some c ->
       if decide (fd = pg_fd request)
       then exists frame, discovery_answer (sv_state s) request frame /\ sv_clients s1 !! fd = Some (with_output frame c)
       else sv_clients s1 !! fd = Some c) ->
    wp (s ← this; _ ← or_undef (sv_pending s !! key); modify (fun s => s <| sv_pending := delete key (sv_pending s) |>);;
        s ← this; complete_loop fuel (next_key key (sv_pending s))) s1 (fun _ s' => completes (key :: keys) s s')).
  { intros s1 Hs1 Hst Hev Hp Hcl. apply wp_bind, wp_this, wp_bind. rewrite Hp, Hk. apply wp_ret, wp_bind, wp_modify, wp_bind, wp_this.
    simpl sv_pending. rewrite Hp.
    destruct (next_key_after _ _ (delete key (sv_pending s)) _ _ Hkeys) as [-> Hnext]; [intros; by rewrite lookup_delete_ne|].
    eapply (served_pending _ _ _ (delete key (sv_pending s))) in Hs1.
    eapply wp_mono; [|eapply IH; [apply Hs1|exact Hnext|lia]]. intros [] s'. eapply completes_done; eauto. }
  apply wp_bind. destruct (sv_clients s !! pg_fd request) as [c|] eqn:Hc.
  - destruct (discoveryBody_ok r Hshort) as [body Hbody]. destruct (response_frame_ok (pg_request_id request) (dr_error r) body) as (frame & Hframe & _).
    apply wp_bind. eapply wp_lift; [exact Hbody|]. unfold wp at 1.
    rewrite (queueResponse_run _ _ _ _ _ _ _ (vo_ctl _ Hok) Hc Hframe). apply Hrest; [by apply respond_served|done|done|done|].
    intros fd c' Hc'. rewrite respond_clients.
    destruct (decide (fd = pg_fd request)) as [->|Hfd]; [|by rewrite lookup_insert_ne]. simplify_eq.
    exists frame. rewrite lookup_insert_eq. split; [|done]. by exists r, body.
  - apply wp_ret. apply Hrest; [by apply served_refl|done|done|done|]. intros fd c' Hc'. destruct (decide (fd = pg_fd request)) as [->|?]; [congruence|done].
Qed.

Lemma completePending_wp s : server_ok s ->
  wp completePending s (fun _ s' => completes (map_keys (sv_pending s)) s s').
Proof.
  intros Hok. apply wp_bind, wp_this. eapply complete_loop_wp; [done|apply keys_all|].
  unfold map_keys, set_elements. rewrite merge_sort_Permutation, <- size_dom. done.
Qed.

(** ** Handlers *)

(** The discovery waits, under the id of the request. *)
Definition deferred (fd request_id : Z) (s s' : ServerState) : Prop :=
  sv_clients s' = sv_clients s /\ sv_state s' = sv_state s /\ exists e request,
    sv_pending s' = <[e := request]> (sv_pending s) /\ pg_fd request = fd /\ pg_request_id request = request_id /\
    pg_publisher_endpoint_id request = e /\ waits (sv_state s) request = true.

Inductive answered (opcode : Opcode) (fd request_id : Z) (s s' : ServerState) : Prop :=
  | answered_now : replied fd request_id s s' -> answered opcode fd request_id s s'
  | answered_later : opcode = ResolveEndpoint -> deferred fd request_id s s' -> answered opcode fd request_id s s'
  | answered_others s1 : opcode = SubscribeTopic -> replied fd request_id s s1 ->
      completes (map_keys (sv_pending s)) s1 s' -> sv_pending s1 = sv_pending s -> answered opcode fd request_id s s'.

Definition handled (opcode : Opcode) (fd request_id : Z) (s : ServerState) (_ : unit) (s' : ServerState) : Prop :=
  served 1 s s' /\ answered opcode fd request_id s s'.

Section handlers.
Context (opcode : Opcode) (fd : Z) (client : ClientConnection) (header : ControlHeader) (payload : list Z).
Context (Hbytes : Forall is_byte payload) (Hsize : Z.of_nat (length payload) <= kMaxControlPayloadSize).

Lemma wp_finish request_id error body s s1 :
  served 1 s s1 -> sv_clients s1 = sv_clients s -> sv_clients s !! fd = Some client ->
  wp (queueResponse fd request_id error body) s1 (handled opcode fd request_id s).
Proof.
  intros Hs1 Heq Hc. eapply wp_respond; [apply Hs1|by rewrite Heq|]. intros s' Hs' Hr _ _ _.
  split; [by apply (served_trans 1 0 _ s1)|]. apply answered_now. unfold replied in *. by rewrite Heq in Hr.
Qed.

Lemma wp_reads kinds handler s :
  server_ok s -> sv_clients s !! fd = Some client ->
  (forall fields, map kind_of fields = kinds -> Forall field_short fields -> wp (handler fields) s (handled opcode fd (ctl_request_id header) s)) ->
  wp (reads fd header payload kinds handler) s (handled opcode fd (ctl_request_id header) s).
Proof.
  intros Hok Hc Hh. unfold reads. apply wp_bind.
  destruct (parse_payload_ok kinds payload Hbytes Hsize) as [Hp|(fs & Hp & Hk & Hf)]; (eapply wp_lift; [exact Hp|]).
  - apply wp_finish; [|done|done]. apply (served_weaken 0); [lia|]. by apply served_refl.
  - by apply Hh.
Qed.

(** The fields of the kinds asked for. *)
Ltac take_fields fields Hk Hf :=
  intros fields Hk Hf;
  repeat (destruct fields as [|[?|?|?|?] fields]; cbn [map kind_of] in Hk; first [discriminate Hk | injection Hk as Hk | idtac]);
  repeat match type of Hf with Forall _ (_ :: _) => let H := fresh "Hf" in apply Forall_cons_1 in Hf as [H Hf]; cbn [field_short] in H end.

Context (s : ServerState) (Hok : server_ok s) (Hleft : ids_left (sv_state s) 1) (Hc : sv_clients s !! fd = Some client).

Abbreviation done_ := (handled opcode fd (ctl_request_id header) s).

(** After a call into the registry. *)
Lemma wp_call {A} (c : registry A) (k : A -> server unit) :
  keeps c (sv_state s) -> names_kept short c ->
  (forall a t, runs c (sv_state s) a t -> served 1 s (s <| sv_state := t |>) -> wp (k a) (s <| sv_state := t |>) done_) ->
  wp (on_state c ≫= k) s done_.
Proof. intros Hk Hn HQ. apply wp_bind. by eapply wp_on_state. Qed.

Lemma wp_query {A} (c : registry A) a (k : A -> server unit) :
  runs c (sv_state s) a (sv_state s) -> wp (k a) s done_ -> wp (on_state c ≫= k) s done_.
Proof. intros Hrun HQ. apply wp_bind. by eapply wp_on_state_same. Qed.

Lemma served_now : served 1 s s.
Proof. apply (served_weaken 0); [lia|]. by apply served_refl. Qed.

Lemma handle_RegisterNode_wp : wp (handle_RegisterNode fd client header payload) s done_.
Proof.
  apply wp_reads; [done|done|]. take_fields fields Hk Hf. apply wp_bind. apply wp_now; [done|]. intros time s1 Hs1 Hcl Hst _ _.
  apply wp_bind. apply wp_on_state; [apply Hs1|rewrite Hst; apply registerNode_keeps; [apply Hok|done] | by apply registerNode_names|].
  intros r t _ Ht. apply wp_bind. eapply wp_lift; [apply write_body_ok; by repeat constructor|].
  apply wp_finish; [by apply (served_trans 0 1 _ s1)|done|done].
Qed.

Lemma served_events n s1 events : map_Forall (fun _ events => (length events <= kMaxEventsPerNode)%nat) events ->
  served n s s1 -> served n s (s1 <| sv_peer_events := events |>).
Proof. intros He [[] ? ? ?]. split; [by split|done|done|done]. Qed.

Lemma handle_UnregisterNode_wp : wp (handle_UnregisterNode fd client header payload) s done_.
Proof.
  apply wp_reads; [done|done|]. take_fields fields Hk Hf. apply wp_call; [by apply unregisterNode_keeps, Hok|apply unregisterNode_names, short_empty|].
  intros error t _ Ht. apply wp_bind.
  assert (wp (if is_ok error then modify (fun s => s <| sv_peer_events := delete v (sv_peer_events s) |>) else mret tt) (s <| sv_state := t |>)
            (fun _ s1 => served 1 s s1 /\ sv_clients s1 = sv_clients s)) as Hdel.
  { destruct (is_ok error); [|by apply wp_ret]. apply wp_modify. split; [|done]. apply served_events; [|done].
    apply map_Forall_delete, Hok. }
  eapply wp_mono; [|exact Hdel]. intros [] s1 [Hs1 Hcl]. apply wp_bind, wp_modify. apply wp_finish; [by apply served_pending|done|done].
Qed.

Lemma handle_AdvertiseTopic_wp : wp (handle_AdvertiseTopic fd client header payload) s done_.
Proof.
  apply wp_reads; [done|done|]. take_fields fields Hk Hf. case_match; [apply wp_finish; [apply served_now|done|done]|].
  apply wp_call; [by apply advertise_keeps; [apply Hok|..]|by apply advertise_names; [apply short_empty|..]|].
  intros r t Hrun Ht. apply wp_bind. destruct (endpointBody_ok r) as [body Hbody].
  { eapply advertise_runs_short; [| | | |exact Hrun]; [apply Hok|done|done|done]. }
  eapply wp_lift; [exact Hbody|]. by apply wp_finish.
Qed.

Lemma handle_UnadvertiseTopic_wp : wp (handle_UnadvertiseTopic fd client header payload) s done_.
Proof.
  apply wp_reads; [done|done|]. take_fields fields Hk Hf. apply wp_call; [by apply unadvertise_keeps, Hok|apply unadvertise_names, short_empty|].
  intros error t _ Ht. apply wp_bind, wp_modify. apply wp_finish; [by apply served_pending|done|done].
Qed.

Lemma handle_UnsubscribeTopic_wp : wp (handle_UnsubscribeTopic fd client header payload) s done_.
Proof.
  apply wp_reads; [done|done|]. take_fields fields Hk Hf. apply wp_call; [by apply unsubscribe_keeps, Hok|apply unsubscribe_names|].
  intros error t _ Ht. by apply wp_finish.
Qed.

Lemma handle_AttachHeartbeat_wp : wp (handle_AttachHeartbeat fd client header payload) s done_.
Proof.
  apply wp_reads; [done|done|]. take_fields fields Hk Hf. apply wp_call; [by apply attachHeartbeat_keeps, Hok|apply attachHeartbeat_names|].
  intros error t _ Ht. by apply wp_finish.
Qed.

Lemma handle_SubscribeTopic_wp : opcode = SubscribeTopic -> wp (handle_SubscribeTopic fd client header payload) s done_.
Proof.
  intros Hop. apply wp_reads; [done|done|]. take_fields fields Hk Hf. case_match; [apply wp_finish; [apply served_now|done|done]|].
  apply wp_call; [by apply subscribe_keeps; [apply Hok|..]|by apply subscribe_names; [apply short_empty|..]|].
  intros r t Hrun Ht. apply wp_bind. destruct (endpointBody_ok r) as [body Hbody].
  { eapply subscribe_runs_short; [| | |exact Hrun|]; [apply Hok|done|done|]. apply (vo_names _ (sd_ok _ _ _ Ht)). }
  eapply wp_lift; [exact Hbody|]. apply wp_bind.
  eapply wp_respond; [apply Ht|exact Hc|]. intros after_ Hs1 Hr _ Hp _.
  assert (Hs1' : served 1 s after_) by by apply (served_trans 1 0 _ (s <| sv_state := t |>)).
  destruct (is_ok (ep_error r)); [|apply wp_ret; split; [done|by apply answered_now]].
  eapply wp_mono; [|apply completePending_wp, Hs1]. intros [] s' Hcomp.
  split; [apply (served_trans 1 0 _ after_); [done|apply Hcomp]|]. apply answered_others with after_; [done|done| |done]. by rewrite Hp in Hcomp.
Qed.

Lemma handle_ResolveEndpoint_wp : opcode = ResolveEndpoint -> wp (handle_ResolveEndpoint fd client header payload) s done_.
Proof.
  intros Hop. apply wp_reads; [done|done|]. take_fields fields Hk Hf.
  destruct (resolve_runs (sv_state s) (cc_connection_id client) v v0 (vo_registry _ Hok) (vo_names _ Hok)) as (r & Hrun & Hshort).
  eapply wp_query; [exact Hrun|]. case_bool_decide as Hw.
  - apply wp_modify. split; [by apply served_pending, served_now|]. apply answered_later; [done|]. split; [done|]. split; [done|].
    eexists _, _. split; [done|]. split_and!; [done|done|done|]. unfold waits. simpl. unfold runs in Hrun. rewrite Hrun. by apply bool_decide_eq_true.
  - apply wp_bind. destruct (discoveryBody_ok r Hshort) as [body Hbody]. eapply wp_lift; [exact Hbody|].
    apply wp_finish; [apply served_now|done|done].
Qed.

Lemma records_Forall {A} (Q : A -> Prop) (m : gmap Z A) l : map_Forall (fun _ => Q) m -> l ≡ₚ map_records m -> Forall Q l.
Proof.
  intros Hm ->. apply list.Forall_forall. intros a (k & Hk)%elem_of_map_records. by apply (Hm k).
Qed.

Lemma handle_ListNodes_wp : wp (handle_ListNodes fd header payload) s done_.
Proof.
  apply wp_reads; [done|done|]. intros fields _ _. eapply wp_query; [done|]. apply wp_bind.
  eapply wp_lift; [apply write_body_ok|apply wp_finish; [apply served_now|done|done]].
  constructor; [done|]. apply Forall_flat_map. eapply list.Forall_impl.
  - eapply records_Forall; [apply (an_nodes _ _ (vo_names _ Hok))|apply merge_sort_Permutation].
  - intros n Hn. by repeat constructor.
Qed.

Lemma handle_ListTopics_wp : wp (handle_ListTopics fd header payload) s done_.
Proof.
  apply wp_reads; [done|done|]. intros fields _ _. eapply wp_query; [done|]. apply wp_bind.
  eapply wp_lift; [apply write_body_ok|apply wp_finish; [apply served_now|done|done]].
  constructor; [done|]. apply Forall_flat_map. eapply list.Forall_impl.
  - eapply records_Forall; [apply (an_topics _ _ (vo_names _ Hok))|apply merge_sort_Permutation].
  - intros T (? & _). by repeat constructor.
Qed.

Lemma handle_QueryTopic_wp : wp (handle_QueryTopic fd header payload) s done_.
Proof.
  apply wp_reads; [done|done|]. take_fields fields Hk Hf. eapply wp_query; [apply queryTopic_runs, Hok|].
  destruct (topic_names_ (sv_state s) !! s0 ≫= (fun t => topics_ (sv_state s) !! t)) as [T|] eqn:HT; [|apply wp_finish; [apply served_now|done|done]].
  apply bind_Some in HT as (t & _ & HT). destruct (an_topics _ _ (vo_names _ Hok) _ _ HT) as (? & ? & ? & ?).
  apply wp_bind. eapply wp_lift; [apply write_body_ok|apply wp_finish; [apply served_now|done|done]].
  by repeat constructor.
Qed.

Lemma handle_QueryStats_wp : wp (handle_QueryStats fd header payload) s done_.
Proof.
  apply wp_reads; [done|done|]. intros fields _ _. eapply wp_query; [done|]. apply wp_bind.
  eapply wp_lift; [apply write_body_ok; by repeat constructor|apply wp_finish; [apply served_now|done|done]].
Qed.

Lemma event_fields_writable events : Forall field_writable (flat_map event_fields events).
Proof. apply Forall_flat_map, list.Forall_forall. intros ev _. by repeat constructor. Qed.

Lemma handle_Heartbeat_wp : wp (handle_Heartbeat fd client header payload) s done_.
Proof.
  apply wp_reads; [done|done|]. take_fields fields Hk Hf. apply wp_bind. apply wp_now; [done|]. intros time s1 Hs1 Hcl Hst _ Hev.
  apply wp_bind. apply wp_on_state; [apply Hs1|rewrite Hst; apply heartbeat_keeps, Hok|apply heartbeat_names|].
  intros r t _ Ht. apply wp_bind. set (s2 := s1 <| sv_state := t |>) in *.
  assert (Hs2 : served 1 s s2) by by apply (served_trans 0 1 _ s1).
  assert (wp (if is_ok (hr_error r) then events ← gets (fun s => default [] (sv_peer_events s !! v));
             modify (fun s => s <| sv_peer_events := delete v (sv_peer_events s) |>);; mret events else mret []) s2
            (fun _ s3 => served 1 s s3 /\ sv_clients s3 = sv_clients s)) as Htake.
  { destruct (is_ok (hr_error r)); [|by apply wp_ret]. apply wp_bind, wp_gets, wp_bind, wp_modify, wp_ret. split; [|done].
    apply served_events; [|done]. unfold s2. simpl. rewrite Hev. apply map_Forall_delete, Hok. }
  eapply wp_mono; [|exact Htake]. intros events s3 [Hs3 Hcl3]. apply wp_bind.
  eapply wp_lift; [apply write_body_ok|by apply wp_finish].
  apply Forall_app. split; [by repeat constructor|apply event_fields_writable].
Qed.
End handlers.

Lemma clients_at_run fd c s : sv_clients s !! fd = Some c -> clients_at fd s = (Ret c, s).
Proof. intros Hc. unfold clients_at. unfold_cpp. by rewrite find_client_run, Hc. Qed.

Lemma dispatch_wp fd c header payload s :
  server_ok s -> ids_left (sv_state s) 1 -> sv_clients s !! fd = Some c ->
  Forall is_byte payload -> Z.of_nat (length payload) <= kMaxControlPayloadSize ->
  wp (dispatch fd header payload) s (handled (ctl_opcode header) fd (ctl_request_id header) s).
Proof.
  intros Hok Hleft Hc Hb Hsize. unfold dispatch. apply wp_bind. unfold wp at 1. rewrite (clients_at_run _ _ _ Hc).
  destruct (ctl_opcode header).
  all: try (apply (wp_finish _ fd c); [by apply served_now|done|done]).
  - by apply handle_RegisterNode_wp.
  - by apply handle_UnregisterNode_wp.
  - by apply handle_AdvertiseTopic_wp.
  - by apply handle_UnadvertiseTopic_wp.
  - by apply handle_SubscribeTopic_wp.
  - by apply handle_UnsubscribeTopic_wp.
  - by apply handle_ResolveEndpoint_wp.
  - by eapply handle_ListNodes_wp.
  - by eapply handle_ListTopics_wp.
  - by eapply handle_QueryTopic_wp.
  - by apply handle_AttachHeartbeat_wp.
  - by apply handle_Heartbeat_wp.
  - by eapply handle_QueryStats_wp.
Qed.
