(* ===== verification/ServerCleanup.v ===== *)
(** * Registry server: removing clients and nodes

    What is left when a client disconnects or a node dies: its connections, discoveries and
    peer events are gone, its shared memory and sockets unlinked, and the peers are told. *)

From Stdlib Require Import ZArith Lia Bool String.
From stdpp Require Import base gmap list strings option.
From S2P Require Import Prelude Types Outcome QueueProtocol SharedMemory SubscriberQueue PublisherState RegistryState RegistryInvariant RegistryOps RegistryLiveness RegistryInterface RegistryNames RegistryServer ServerInvariant ServerRequests.

Local Open Scope Z_scope.

(** ** Work left

    The bytes that were received or will be bound the number of requests. *)

Definition total (m : gmap Z nat) : Z := Z.of_nat (map_fold (fun _ n sum => n + sum)%nat 0%nat m).

Lemma total_insert m k n : m !! k = None -> total (<[k := n]> m) = Z.of_nat n + total m.
Proof. intros Hk. unfold total. rewrite map_fold_insert_L; [lia|intros; lia|done]. Qed.

Lemma total_delete m k n : m !! k = Some n -> total m = Z.of_nat n + total (delete k m).
Proof. intros Hk. unfold total. rewrite (map_fold_delete_L _ _ k n); [lia|intros; lia|done]. Qed.

Lemma total_set m k n n' : m !! k = Some n -> total (<[k := n']> m) = total m - Z.of_nat n + Z.of_nat n'.
Proof.
  intros Hk. rewrite <- insert_delete_eq, total_insert by apply lookup_delete_eq. rewrite (total_delete m k n Hk). lia.
Qed.

Lemma total_nonneg m : 0 <= total m.
Proof. unfold total. lia. Qed.

Lemma total_subseteq m1 m2 : m1 ⊆ m2 -> total m1 <= total m2.
Proof.
  revert m2. induction m1 as [|k n m1 Hk IH] using map_ind; intros m2 Hsub.
  { pose proof (total_nonneg m2). by unfold total at 1. }
  assert (Hk2 : m2 !! k = Some n) by (eapply lookup_weaken; [|exact Hsub]; apply lookup_insert_eq).
  rewrite total_insert, (total_delete m2 k n) by done. specialize (IH (delete k m2)).
  enough (m1 ⊆ delete k m2) by (specialize (IH ltac:(done)); lia).
  rewrite <- (delete_insert_id m1 k n) by done. by apply delete_mono.
Qed.

(** Unread bytes of a socket. *)
Definition unread (so : socket) : nat :=
  sum_list_with (fun a => match a with InData bytes => length bytes | InError _ => 0%nat end) (so_incoming so).

Definition input_size (c : ClientConnection) : nat := length (cc_input c).

Definition load (s : ServerState) : Z := total (input_size <$> sv_clients s) + total (unread <$> os_sockets (sv_os s)).

Lemma load_nonneg s : 0 <= load s.
Proof. unfold load. pose proof (total_nonneg (input_size <$> sv_clients s)). pose proof (total_nonneg (unread <$> os_sockets (sv_os s))). lia. Qed.

Lemma served_load n s s' : served n s s' -> load s' = load s.
Proof.
  intros [_ _ Hc (Hs & _)]. unfold load. rewrite Hs. do 2 f_equal. apply map_eq. intros fd. rewrite !lookup_fmap.
  specialize (Hc fd). destruct Hc as [c c' [more ->]|]; done.
Qed.

(** ** Steps that only take away *)

Record dropped (s s' : ServerState) : Prop := {
  dp_ok : server_ok s';
  dp_ids : ids_within 0 (sv_state s) (sv_state s');
  dp_clients : sv_clients s' ⊆ sv_clients s;
  dp_pending : sv_pending s' ⊆ sv_pending s;
  dp_rest : os_sockets (sv_os s') = os_sockets (sv_os s) /\ os_accepts (sv_os s') = os_accepts (sv_os s) /\
    sv_listener s' = sv_listener s /\ sv_next_connection_id s' = sv_next_connection_id s /\ sv_liveness s' = sv_liveness s;
}.

Lemma dropped_refl s : server_ok s -> dropped s s.
Proof. intros Hok. split; [done| |done|done|done]. unfold ids_within. lia. Qed.

Lemma dropped_trans s1 s2 s3 : dropped s1 s2 -> dropped s2 s3 -> dropped s1 s3.
Proof.
  intros [O1 I1 C1 P1 R1] [O2 I2 C2 P2 R2]. split; [done| |by etrans|by etrans|intuition congruence].
  unfold ids_within in *. lia.
Qed.

Lemma dropped_load s s' : dropped s s' -> load s' <= load s.
Proof.
  intros [_ _ Hc _ (Hs & _)]. unfold load. rewrite Hs. enough (total (input_size <$> sv_clients s') <= total (input_size <$> sv_clients s)) by lia.
  by apply total_subseteq, map_fmap_mono.
Qed.

(** ** Cleanup *)

(** The registry is left alone. *)
Definition cleaned (s s' : ServerState) : Prop := dropped s s' /\ sv_state s' = sv_state s.

Lemma cleaned_refl s : server_ok s -> cleaned s s.
Proof. split; [by apply dropped_refl|done]. Qed.
Lemma cleaned_trans s1 s2 s3 : cleaned s1 s2 -> cleaned s2 s3 -> cleaned s1 s3.
Proof. intros [D1 S1] [D2 S2]. split; [by eapply dropped_trans|congruence]. Qed.

Lemma wp_cleaned_bind {A} (c : server A) (k : A -> server unit) s0 s :
  cleaned s0 s -> wp c s (fun _ s' => cleaned s s') -> (forall a s', cleaned s0 s' -> wp (k a) s' (fun _ s'' => cleaned s0 s'')) ->
  wp (c ≫= k) s (fun _ s' => cleaned s0 s').
Proof. intros H0 Hc Hk. apply wp_bind. eapply wp_mono; [|exact Hc]. intros a s' Hs. apply Hk. by eapply cleaned_trans. Qed.

Lemma wp_cleaned_for_each {A} (l : list A) (body : A -> server unit) s :
  server_ok s -> (forall a s, server_ok s -> wp (body a) s (fun _ s' => cleaned s s')) -> wp (for_each l body) s (fun _ s' => cleaned s s').
Proof.
  intros Hok Hb. apply (wp_for_each (fun _ s' => cleaned s s')); [|by apply cleaned_refl].
  intros a l' s' Hs. eapply wp_mono; [|apply Hb, Hs]. intros [] s'' Hs''. by eapply cleaned_trans.
Qed.

Lemma recoverAndClose_returns os lock d q : exists e q', recoverAndClose os lock d q = (Ret e, q').
Proof.
  unfold recoverAndClose, mbind, cpp_bind, outcome_bind, this, mret, cpp_ret.
  destruct (match validateDescriptor d with Ret a => _ | Throw e => Throw e | Undef => Undef end) as [a|e|] eqn:Hd.
  - destruct (negb _); [eauto|]. rewrite PthreadLock_run. destruct (lock_ok lock); simpl; eauto.
  - destruct e; eauto.
  - exfalso. revert Hd. unfold validateDescriptor, queue_region_open, requiredQueueSegmentSize. unfold mbind, outcome_bind.
    by repeat case_match.
Qed.

(** Only the shared memory and the files change. *)
Lemma set_os_cleaned f s : server_ok s ->
  (forall o, os_ctl (f o) = os_ctl o /\ os_sockets (f o) = os_sockets o /\ os_accepts (f o) = os_accepts o) ->
  cleaned s (s <| sv_os := f (sv_os s) |>).
Proof.
  intros [] Hf. destruct (Hf (sv_os s)) as (Hc & Hs & Ha). split; [|done].
  split; simpl; [|unfold ids_within; simpl; lia|done|done|by rewrite Hs, Ha].
  split; simpl; auto; by rewrite ?Hc, ?Hs, ?Ha.
Qed.

Lemma recover_and_close_wp d s : server_ok s -> wp (recover_and_close d) s (fun _ s' => cleaned s s').
Proof.
  intros Hok. apply wp_bind, wp_this. cbv zeta. case_bool_decide; [|by apply wp_ret, cleaned_refl].
  destruct (os_queues (sv_os s) !! qd_shm_name d) as [q|]; [|by apply wp_ret, cleaned_refl].
  destruct (recoverAndClose_returns None (os_trylock (sv_os s) (qd_shm_name d)) d q) as (e & q' & ->).
  apply wp_modify. by apply set_os_cleaned.
Qed.

Lemma unlink_shm_name_wp name s : server_ok s -> wp (unlink_shm_name name) s (fun _ s' => cleaned s s').
Proof.
  intros Hok. unfold unlink_shm_name. case_match; [by apply wp_ret, cleaned_refl|]. apply wp_modify. by apply set_os_cleaned.
Qed.

Lemma unlinkSocketPath_wp path s : server_ok s -> wp (unlinkSocketPath path) s (fun _ s' => cleaned s s').
Proof.
  intros Hok. apply wp_bind, wp_this. destruct (os_files (sv_os s) !! path) as [[]|]; try by apply wp_ret, cleaned_refl.
  apply wp_modify. by apply set_os_cleaned.
Qed.

Lemma events_cleaned events s : server_ok s -> map_Forall (fun _ l => (length l <= kMaxEventsPerNode)%nat) events ->
  cleaned s (s <| sv_peer_events := events |>).
Proof. intros [] He. split; [|done]. split; [by split|unfold ids_within; simpl; lia|done|done|done]. Qed.

Lemma pending_cleaned p s : server_ok s -> p ⊆ sv_pending s -> cleaned s (s <| sv_pending := p |>).
Proof. intros [] He. split; [|done]. split; [by split|unfold ids_within; simpl; lia|done|done|done]. Qed.

Lemma push_event_wp event s : server_ok s -> wp (push_event event) s (fun _ s' => cleaned s s').
Proof.
  intros Hok. apply wp_bind. eapply wp_on_state_same; [done|]. destruct (nodes_ (sv_state s) !! _); [|by apply wp_ret, cleaned_refl].
  apply wp_modify. cbv zeta. apply events_cleaned; [done|]. apply map_Forall_insert_2; [|apply Hok]. rewrite length_app. simpl.
  assert (Hlen : (length (default [] (sv_peer_events s !! ev_target_node_id event)) <= kMaxEventsPerNode)%nat).
  { destruct (sv_peer_events s !! _) eqn:He; simpl; [by apply (vo_events _ Hok _ _ He)|lia]. }
  destruct (_ =? _)%nat eqn:Heq; [apply Nat.eqb_eq in Heq | apply Nat.eqb_neq in Heq; lia].
  destruct (default _ _); simpl in *; [unfold kMaxEventsPerNode in *; lia | lia].
Qed.

Lemma filter_pending_cleaned (Q : Z * PendingDiscovery -> Prop) `{forall x, Decision (Q x)} s :
  server_ok s -> cleaned s (s <| sv_pending := filter Q (sv_pending s) |>).
Proof. intros Hok. apply pending_cleaned; [done|]. apply map_filter_subseteq. Qed.

Lemma applyCleanup_wp cleanup s : server_ok s -> wp (applyCleanup cleanup) s (fun _ s' => cleaned s s').
Proof.
  intros Hok. unfold applyCleanup. eapply wp_cleaned_bind; [by apply cleaned_refl| |].
  { apply wp_cleaned_for_each; [done|]. intros q s1 Ho. eapply wp_cleaned_bind; [by apply cleaned_refl|by apply recover_and_close_wp|].
    intros _ s2 Hs2. eapply wp_mono; [|apply unlink_shm_name_wp, Hs2]. intros [] s3 Hs3. by eapply cleaned_trans. }
  intros [] s1 Hs1. eapply wp_cleaned_bind; [done|apply wp_cleaned_for_each; [apply Hs1|]; intros; by apply unlink_shm_name_wp|].
  intros [] s2 Hs2. eapply wp_cleaned_bind; [done|apply wp_cleaned_for_each; [apply Hs2|]; intros; by apply unlinkSocketPath_wp|].
  intros [] s3 Hs3. eapply wp_cleaned_bind; [done|apply wp_cleaned_for_each; [apply Hs3|]; intros; by apply push_event_wp|].
  intros [] s4 Hs4. eapply wp_cleaned_bind; [done|apply wp_modify, events_cleaned; [apply Hs4|apply map_Forall_delete, Hs4]|].
  intros [] s5 Hs5. apply wp_modify. eapply cleaned_trans; [done|]. apply filter_pending_cleaned, Hs5.
Qed.

(** ** Clients *)

(** The connection is closed and nothing of it is kept but the nodes in the registry. *)
Definition erased (fd : Z) (s : ServerState) : ServerState :=
  s <| sv_os := sv_os s <| os_interest := delete fd (os_interest (sv_os s)) |> |>
    <| sv_pending := filter (fun '(_, request) => pg_fd request <> fd) (sv_pending s) |>
    <| sv_clients := delete fd (sv_clients s) |>.

Lemma erase_client_run fd s : erase_client fd s =
  match sv_clients s !! fd with
  | None => (Ret None, s)
  | Some c => (Ret (Some (cc_connection_id c)), erased fd s)
  end.
Proof. unfold erase_client. unfold_cpp. rewrite find_client_run. by destruct (sv_clients s !! fd). Qed.

Lemma erased_cleaned fd s : server_ok s -> cleaned s (erased fd s).
Proof.
  intros []. split; [|done]. split; [|unfold ids_within; simpl; lia|apply delete_subseteq|apply map_filter_subseteq|done].
  split; auto. by apply map_Forall_delete.
Qed.

Lemma erase_client_wp fd s : server_ok s -> wp (erase_client fd) s (fun _ s' => cleaned s s').
Proof.
  intros Hok. unfold wp. rewrite erase_client_run. destruct (sv_clients s !! fd); [by apply erased_cleaned | by apply cleaned_refl].
Qed.

Lemma closeCleanupConnections_wp cleanup except_fd s :
  server_ok s -> wp (closeCleanupConnections cleanup except_fd) s (fun _ s' => cleaned s s').
Proof.
  intros Hok. apply wp_cleaned_for_each; [done|]. intros connection s1 Ho. destruct (connection =? 0); [by apply wp_ret, cleaned_refl|].
  apply wp_bind, wp_bind, wp_this, wp_ret. case_match; [|by apply wp_ret, cleaned_refl].
  apply wp_bind. eapply wp_mono; [|by apply erase_client_wp]. intros ? s2 Hs2. by apply wp_ret.
Qed.

Lemma cleanups_wp cleanups except_fd s : server_ok s ->
  wp (for_each cleanups (fun cleanup => applyCleanup cleanup;; closeCleanupConnections cleanup except_fd)) s (fun _ s' => cleaned s s').
Proof.
  intros Hok. apply wp_cleaned_for_each; [done|]. intros cleanup s1 Ho.
  eapply wp_cleaned_bind; [by apply cleaned_refl|by apply applyCleanup_wp|].
  intros [] s2 Hs2. eapply wp_mono; [|apply closeCleanupConnections_wp, Hs2]. intros [] s3. by apply cleaned_trans.
Qed.

(** A call that takes nodes away. *)
Lemma wp_shrink {A} (c : registry A) s a t (Q : A -> ServerState -> Prop) :
  server_ok s -> runs c (sv_state s) a t -> registry_wf t -> counters_kept (sv_state s) t -> names_kept short c ->
  (dropped s (s <| sv_state := t |>) -> Q a (s <| sv_state := t |>)) -> wp (on_state c) s Q.
Proof.
  intros Hok Hrun Hwf Hids Hnames HQ. pose proof (Hnames _ (vo_names _ Hok)) as Hn. unfold wp, on_state.
  unfold runs in Hrun. rewrite Hrun in *. apply HQ. destruct Hok. split; [by split| |done|done|done].
  unfold ids_within, counters_kept in *. simpl. lia.
Qed.

(** The client, its discoveries and the nodes its connection controlled are gone. *)
Record removed (fd connection : Z) (s s' : ServerState) : Prop := {
  rm_dropped : dropped s s';
  rm_client : sv_clients s' !! fd = None;
  rm_pending : map_Forall (fun _ request => pg_fd request <> fd) (sv_pending s');
  rm_nodes : forall i n, nodes_ (sv_state s') !! i = Some n ->
    control_connection n <> connection /\ exists n', nodes_ (sv_state s) !! i = Some n' /\ control_connection n' = control_connection n;
}.

Lemma forget_heartbeat_control connection n : control_connection (forget_heartbeat connection n) = control_connection n.
Proof. unfold forget_heartbeat. by case_match. Qed.

Lemma removeClient_wp fd c s : server_ok s -> sv_clients s !! fd = Some c ->
  wp (removeClient fd) s (fun _ s' => removed fd (cc_connection_id c) s s').
Proof.
  intros Hok Hc. unfold removeClient. apply wp_bind. unfold wp at 1. rewrite erase_client_run, Hc.
  destruct (erased_cleaned fd s Hok) as [D1 _]. set (s1 := erased fd s) in *.
  destruct (disconnectConnection_runs (sv_state s1) (cc_connection_id c) (vo_registry _ (dp_ok _ _ D1)))
    as (cs & t & Hrun & _ & Hnodes & Hwf & Hkept).
  apply wp_bind. eapply wp_shrink; [apply D1|exact Hrun|done|done|apply disconnectConnection_names, short_empty|].
  intros D2. eapply wp_mono; [|apply cleanups_wp, D2]. intros [] s' [D3 Hst].
  assert (D : dropped s s') by (eapply dropped_trans; [exact D1|by eapply dropped_trans]).
  assert (Hsub : sv_clients s' ⊆ sv_clients s1 /\ sv_pending s' ⊆ sv_pending s1) by (split; apply D3).
  split; [done| | |].
  - destruct Hsub as [Hsub _]. destruct (sv_clients s' !! fd) eqn:Hfd; [|done]. eapply lookup_weaken in Hfd; [|exact Hsub].
    simpl in Hfd. by rewrite lookup_delete_eq in Hfd.
  - intros e q Hq. destruct Hsub as [_ Hsub]. eapply lookup_weaken in Hq; [|exact Hsub].
    simpl in Hq. apply map_lookup_filter_Some in Hq as [_ ?]. done.
  - intros i n Hn. rewrite Hst in Hn. simpl in Hn. rewrite Hnodes in Hn. apply bind_Some in Hn as (n0 & Hn0 & Hn).
    destruct (control_connection n0 =? cc_connection_id c) eqn:Heq; [done|]. bools. simplify_eq.
    match goal with |- context [decide ?P] => destruct (decide P) end; rewrite ?forget_heartbeat_control; eauto.
Qed.

Lemma removeClient_any_wp fd s : server_ok s -> wp (removeClient fd) s (fun _ s' => dropped s s').
Proof.
  intros Hok. destruct (sv_clients s !! fd) as [c|] eqn:Hc.
  - eapply wp_mono; [|by apply removeClient_wp]. by intros [] s' [].
  - unfold removeClient. apply wp_bind. unfold wp at 1. rewrite erase_client_run, Hc. by apply wp_ret, dropped_refl.
Qed.

Lemma expireDeadNodes_wp s : server_ok s -> wp expireDeadNodes s (fun _ s' => dropped s s').
Proof.
  intros Hok. apply wp_bind, wp_now; [done|]. intros time s1 Hs1 Hcl Hst Hp _.
  assert (D1 : dropped s s1).
  { destruct Hs1 as [O I C R]. split; [done|done|by rewrite Hcl|by rewrite Hp|done]. }
  destruct (evaluateLiveness_runs (sv_state s1) time (vo_registry _ (sd_ok _ _ _ Hs1))) as (cs & t & Hrun & _ & _ & Hwf & Hkept).
  apply wp_bind. eapply wp_shrink; [apply D1|exact Hrun|done|done|apply evaluateLiveness_names, short_empty|].
  intros D2. eapply wp_mono; [|apply cleanups_wp, D2]. intros [] s' [D3 _]. eapply dropped_trans; [done|by eapply dropped_trans].
Qed.
