(* ===== verification/ServerLoop.v ===== *)
(** * Registry server: the loop

    Reading, parsing and writing on the connections, accepting new ones, and that [pollOnce]
    returns and keeps the invariant whatever the clients send. *)

From Stdlib Require Import ZArith Lia Bool String.
From stdpp Require Import base gmap list strings option.
From S2P Require Import Prelude Types Outcome ControlProtocol SocketIo PublisherState PublisherInvariant SubscriberInvariant UnixListener RegistryState RegistryInvariant RegistryInterface RegistryNames RegistryServer ServerInvariant ServerRequests ServerCleanup.

Local Open Scope Z_scope.

(** ** Budgets *)

Section budget.
(** Bytes to come that no socket has received yet. *)
Context (extra : Z) (Hextra : 0 <= extra).

(** There are ids for every request that may still arrive. *)
Definition budget_ok (s : ServerState) : Prop := ids_left (sv_state s) (load s + extra).

Definition inputs_bounded (s : ServerState) : Prop :=
  map_Forall (fun _ c => Z.of_nat (input_size c) <= kMaxInput) (sv_clients s).

Record server_inv (s : ServerState) : Prop := {
  si_ok : server_ok s;
  si_budget : budget_ok s;
  si_inputs : inputs_bounded s;
}.

Lemma budget_step n s s' : ids_left (sv_state s) (load s' + extra + n) -> ids_within n (sv_state s) (sv_state s') -> budget_ok s'.
Proof. unfold budget_ok, ids_left, ids_within. lia. Qed.

(** No input got longer. *)
Definition inputs_shrink (s s' : ServerState) : Prop :=
  forall fd c', sv_clients s' !! fd = Some c' -> exists c, sv_clients s !! fd = Some c /\ (input_size c' <= input_size c)%nat.

Definition same_rest (s s' : ServerState) : Prop :=
  os_sockets (sv_os s') = os_sockets (sv_os s) /\ os_accepts (sv_os s') = os_accepts (sv_os s) /\
  sv_listener s' = sv_listener s /\ sv_next_connection_id s' = sv_next_connection_id s /\ sv_liveness s' = sv_liveness s.

Record settled (s s' : ServerState) : Prop := {
  st_ok : server_ok s';
  st_budget : budget_ok s';
  st_inputs : inputs_shrink s s';
  st_rest : same_rest s s';
}.

Lemma settled_refl s : server_ok s -> budget_ok s -> settled s s.
Proof. intros. split; [done|done| |done]. intros fd c Hc. by exists c. Qed.

Lemma settled_trans s1 s2 s3 : settled s1 s2 -> settled s2 s3 -> settled s1 s3.
Proof.
  intros [O1 B1 I1 R1] [O2 B2 I2 R2]. split; [done|done| |unfold same_rest in *; intuition congruence].
  intros fd c3 H3. destruct (I2 _ _ H3) as (c2 & H2 & ?). destruct (I1 _ _ H2) as (c1 & H1 & ?). exists c1. split; [done|lia].
Qed.

Lemma settled_inv s s' : inputs_bounded s -> settled s s' -> server_inv s'.
Proof.
  intros Hin [O B I R]. split; [done|done|]. intros fd c' Hc'. destruct (I _ _ Hc') as (c & Hc & ?). specialize (Hin _ _ Hc). simpl in Hin. lia.
Qed.

Lemma served_settled n s s' : served n s s' -> ids_left (sv_state s) (load s + extra + n) -> settled s s'.
Proof.
  intros Hs Hleft. pose proof (served_load _ _ _ Hs) as Hload. split; [apply Hs| | |apply Hs].
  - eapply budget_step; [by rewrite Hload|apply Hs].
  - intros fd c' Hc'. pose proof (sd_clients _ _ _ Hs fd) as Hg. rewrite Hc' in Hg. inversion Hg as [c ? [more ->] Heq|]; subst. by exists c.
Qed.

Lemma dropped_settled s s' : dropped s s' -> budget_ok s -> settled s s'.
Proof.
  intros Hs Hleft. pose proof (dropped_load _ _ Hs) as Hload. split; [apply Hs| | |apply Hs].
  - eapply (budget_step 0); [|apply Hs]. unfold budget_ok, ids_left in *. lia.
  - intros fd c' Hc'. exists c'. split; [|done]. eapply lookup_weaken; [exact Hc'|apply Hs].
Qed.

(** ** Parsing *)

(** The rest of the input of a client. *)
Definition with_input (input : list Z) (c : ClientConnection) : ClientConnection := c <| cc_input := input |>.
Definition put_client (fd : Z) (c : ClientConnection) (s : ServerState) : ServerState :=
  s <| sv_clients := <[fd := c]> (sv_clients s) |>.

Lemma load_put fd c c' s : sv_clients s !! fd = Some c ->
  load (put_client fd c' s) = load s - Z.of_nat (input_size c) + Z.of_nat (input_size c').
Proof.
  intros Hc. unfold load. simpl. rewrite fmap_insert, (total_set _ _ (input_size c)) by (by rewrite lookup_fmap, Hc). lia.
Qed.

Lemma put_ok fd c s : server_ok s -> client_ok c -> server_ok (put_client fd c s).
Proof. intros [] Hc. split; simpl; auto. by apply map_Forall_insert_2. Qed.

Lemma put_settled fd c c' s : server_ok s -> budget_ok s -> sv_clients s !! fd = Some c -> client_ok c' ->
  (input_size c' <= input_size c)%nat -> settled s (put_client fd c' s).
Proof.
  intros Hok Hb Hc Hc' Hle. split; [by apply put_ok| | |done].
  - unfold budget_ok, ids_left in *. rewrite (load_put _ _ _ _ Hc). simpl. lia.
  - intros fd' c'' H. simpl in H. apply lookup_insert_Some in H as [[<- <-]|[_ H]]; eauto.
Qed.

Lemma refuse_input_wp fd c request_id error s : server_ok s -> budget_ok s -> sv_clients s !! fd = Some c ->
  wp (refuse_input fd request_id error) s (fun _ s' => settled s s' /\
    exists c', sv_clients s' !! fd = Some c' /\ cc_input c' = [] /\ cc_close_after_write c' = true).
Proof.
  intros Hok Hb Hc. unfold refuse_input. apply wp_bind. eapply wp_respond; [done|done|]. intros s1 Hs1 (c1 & frame & e & b & Hc1 & _ & Hcl) _ _ _.
  simplify_eq. assert (Hc1 : sv_clients s1 !! fd = Some (with_output frame c)) by by rewrite Hcl, lookup_insert_eq.
  apply wp_bind. unfold wp at 1. rewrite (set_client_run _ _ _ _ Hc1). unfold wp. erewrite set_client_run by apply lookup_insert_eq.
  assert (S1 : settled s s1) by (apply (served_settled 0); [done|by rewrite Z.add_0_r]).
  split; [|eexists; split; [apply lookup_insert_eq|done]].
  assert (Hok1 : forall c', cc_input c' = cc_input c \/ cc_input c' = [] -> cc_output_offset c' = cc_output_offset c -> client_ok c').
  { intros c' Hin Hoff. destruct (vo_clients _ Hok _ _ Hc). split; [|by rewrite Hoff]. by destruct Hin as [-> | ->]. }
  eapply settled_trans; [exact S1|].
  assert (S2 : settled s1 (put_client fd (with_output frame c <| cc_close_after_write := true |>) s1)).
  { apply (put_settled fd (with_output frame c)); [apply S1|apply S1|done|by apply Hok1; [left|]|done]. }
  eapply settled_trans; [exact S2|].
  eapply put_settled; [apply S2|apply S2|apply lookup_insert_eq|by apply Hok1; [right|]|unfold input_size; simpl; lia].
Qed.

(** A frame that was taken off the input is served. *)
Definition serve (fd : Z) (header : ControlHeader) (payload : list Z) : server unit :=
  if negb (isKnownRequestOpcode (ctl_opcode header))
  then queueResponse fd (ctl_request_id header) UnknownOpcode []
  else dispatch fd header payload.

Lemma serve_wp fd c header payload s :
  server_ok s -> ids_left (sv_state s) 1 -> sv_clients s !! fd = Some c ->
  Forall is_byte payload -> Z.of_nat (length payload) <= kMaxControlPayloadSize ->
  wp (serve fd header payload) s (handled (ctl_opcode header) fd (ctl_request_id header) s).
Proof.
  intros Hok Hleft Hc Hb Hsize. unfold serve. destruct (negb _); [|by eapply dispatch_wp].
  eapply wp_finish; [by apply served_now|done|done].
Qed.

Lemma validate_size header : validateControlHeader header = ControlValid -> ctl_payload_size header <= kMaxControlPayloadSize.
Proof.
  unfold validateControlHeader. do 2 (case_match; [done|]). destruct (kMaxControlPayloadSize <? _) eqn:Hlt; [done|]. intros _. bools. lia.
Qed.

Lemma parse_loop_wp fuel fd c s : server_ok s -> budget_ok s -> sv_clients s !! fd = Some c -> (input_size c < fuel)%nat ->
  wp (parse_loop fuel fd) s (fun _ s' => settled s s' /\ is_Some (sv_clients s' !! fd)).
Proof.
  revert s c. induction fuel as [|fuel IH]; intros s c Hok Hb Hc Hfuel; [lia|].
  assert (Href : forall rid e, wp (refuse_input fd rid e) s (fun _ s' => settled s s' /\ is_Some (sv_clients s' !! fd))).
  { intros rid e. eapply wp_mono; [|by eapply refuse_input_wp]. intros [] s' [? (c' & ? & _)]. eauto. }
  cbn [parse_loop]. apply wp_bind. unfold wp at 1. rewrite (client_ref_run _ _ _ Hc). cbv zeta.
  destruct (length (cc_input c) <? kControlHeaderSize)%nat eqn:Hlen; [apply wp_ret; split; [by apply settled_refl|eauto]|].
  apply Nat.ltb_ge in Hlen. destruct (decodeControlHeader _) as [header|]; [|apply Href].
  destruct (validateControlHeader header) eqn:Hval; try apply Href. set (size := (kControlHeaderSize + _)%nat).
  destruct (length (cc_input c) <? size)%nat eqn:Hsz; [apply wp_ret; split; [by apply settled_refl|eauto]|]. apply Nat.ltb_ge in Hsz.
  apply wp_bind. unfold wp at 1. rewrite (set_client_run _ _ _ _ Hc). fold (with_input (drop size (cc_input c)) c).
  set (c1 := with_input _ c). change (s <| sv_clients := <[fd := c1]> (sv_clients s) |>) with (put_client fd c1 s).
  destruct (vo_clients _ Hok _ _ Hc) as [Hbytes Hoff].
  assert (Hc1 : sv_clients (put_client fd c1 s) !! fd = Some c1) by apply lookup_insert_eq.
  assert (Hin1 : input_size c1 = (input_size c - size)%nat) by apply length_drop.
  assert (S1 : settled s (put_client fd c1 s)).
  { apply (put_settled fd c); [done|done|done| |lia]. split; [by apply Forall_drop|done]. }
  assert (Hleft : ids_left (sv_state (put_client fd c1 s)) (load (put_client fd c1 s) + extra + 1)).
  { unfold budget_ok, ids_left in *. rewrite (load_put _ _ _ _ Hc), Hin1. simpl. unfold input_size, size, kControlHeaderSize in *. lia. }
  apply wp_bind. eapply wp_mono; [|eapply (serve_wp fd c1); [apply S1| |exact Hc1| |]].
  - intros [] s2 [Hs2 _]. destruct (served_client _ _ _ _ _ Hs2 Hc1) as (c2 & Hc2 & [more ->]).
    pose proof (served_settled _ _ _ Hs2 Hleft) as S2.
    eapply wp_mono; [|eapply IH; [apply S2|apply S2|exact Hc2|]].
    + intros [] s3 [S3 ?]. split; [|done]. eapply settled_trans; [exact S1|by eapply settled_trans].
    + unfold input_size in *. simpl in *. unfold c1 in Hin1. simpl in Hin1. unfold size, kControlHeaderSize in *. lia.
  - unfold ids_left in *. pose proof (load_nonneg (put_client fd c1 s)). lia.
  - by apply Forall_take, Forall_drop.
  - pose proof (validate_size _ Hval). rewrite length_take. unfold size, kMaxControlPayloadSize in *. lia.
Qed.

Lemma parseFrames_wp fd c s : server_ok s -> budget_ok s -> sv_clients s !! fd = Some c ->
  wp (parseFrames fd) s (fun _ s' => settled s s' /\ is_Some (sv_clients s' !! fd)).
Proof.
  intros Hok Hb Hc. unfold parseFrames. apply wp_bind. unfold wp at 1. rewrite (clients_at_run _ _ _ Hc).
  eapply parse_loop_wp; [done|done|done|]. unfold input_size. lia.
Qed.

(** ** Sockets *)

Definition put_socket (fd : Z) (so : socket) (s : ServerState) : ServerState :=
  s <| sv_os := sv_os s <| os_sockets := <[fd := so]> (os_sockets (sv_os s)) |> |>.

Lemma load_socket fd so s :
  load (put_socket fd so s) = load s - Z.of_nat (unread (os_socket (sv_os s) fd)) + Z.of_nat (unread so).
Proof.
  unfold load, os_socket. simpl. rewrite fmap_insert. destruct (os_sockets (sv_os s) !! fd) as [so0|] eqn:Hso; simpl.
  - rewrite (total_set _ _ (unread so0)) by (by rewrite lookup_fmap, Hso). lia.
  - rewrite total_insert by (by rewrite lookup_fmap, Hso). change (unread idle_socket) with 0%nat. lia.
Qed.

Lemma put_socket_ok fd so s : server_ok s -> Forall incoming_typed (so_incoming so) -> server_ok (put_socket fd so s).
Proof. intros [] Hso. split; simpl; auto. by apply map_Forall_insert_2. Qed.

Lemma os_socket_typed fd s : server_ok s -> Forall incoming_typed (so_incoming (os_socket (sv_os s) fd)).
Proof.
  intros Hok. unfold os_socket. destruct (os_sockets (sv_os s) !! fd) as [so|] eqn:Hso; simpl; [|constructor].
  by apply (vo_sockets _ Hok _ _ Hso).
Qed.

Lemma recv_step_unread size so : let '(answer, so') := recv_step size so in
  unread so = ((match answer with inl bytes => length bytes | inr _ => 0 end) + unread so')%nat.
Proof.
  unfold recv_step, unread. destruct (so_incoming so) as [|[bytes|errno] rest] eqn:Hin; [by rewrite Hin| |done]. simpl.
  rewrite <- (take_drop (Z.to_nat size) bytes) at 1. rewrite length_app.
  destruct (drop (Z.to_nat size) bytes); simpl; lia.
Qed.

Lemma get_put_socket fd so s : os_socket (sv_os (put_socket fd so s)) fd = so.
Proof. unfold os_socket. simpl. by rewrite lookup_insert_eq. Qed.

(** The steps of one event: the invariant holds again. *)
Record stepped (s s' : ServerState) : Prop := {
  sp_inv : server_inv s';
  sp_rest : os_accepts (sv_os s') = os_accepts (sv_os s) /\ sv_listener s' = sv_listener s /\
    sv_next_connection_id s' = sv_next_connection_id s /\ sv_liveness s' = sv_liveness s;
}.

Lemma settled_stepped s s' : inputs_bounded s -> settled s s' -> stepped s s'.
Proof. intros Hb Hs. split; [by eapply settled_inv|]. destruct Hs as [_ _ _ (_ & ? & ? & ? & ?)]. done. Qed.

Lemma stepped_trans s1 s2 s3 : stepped s1 s2 -> stepped s2 s3 -> stepped s1 s3.
Proof. intros [I1 R1] [I2 R2]. split; [done|]. intuition congruence. Qed.

Lemma stepped_refl s : server_inv s -> stepped s s.
Proof. done. Qed.

Lemma removeClient_stepped fd s : server_inv s -> wp (removeClient fd) s (fun _ s' => stepped s s').
Proof.
  intros [Hok Hb Hin]. eapply wp_mono; [|by apply removeClient_any_wp]. intros [] s' D.
  apply settled_stepped; [done|by apply dropped_settled].
Qed.

Lemma updateInterest_stepped fd s : server_inv s -> wp (updateInterest fd) s (fun _ s' => stepped s s').
Proof.
  intros [Hok Hb Hin]. destruct (sv_clients s !! fd) as [c|] eqn:Hc.
  - unfold wp. rewrite (updateInterest_run _ _ _ (vo_ctl _ Hok) Hc). split; [|done]. split; [by apply note_interest_ok|done|done].
  - unfold updateInterest. apply wp_bind, wp_gets. rewrite Hc. by apply wp_ret.
Qed.

Lemma put_stepped fd c c' s : server_inv s -> sv_clients s !! fd = Some c -> client_ok c' -> (input_size c' <= input_size c)%nat ->
  stepped s (put_client fd c' s).
Proof. intros [Hok Hb Hin] ? ? ?. apply settled_stepped; [done|by eapply put_settled]. Qed.

(** ** Reading *)

Lemma received_stepped fd answer so s : server_inv s -> recv_step kReadSize (os_socket (sv_os s) fd) = (inr answer, so) ->
  stepped s (put_socket fd so s).
Proof.
  intros [Hok Hb Hin] Hrecv. pose proof (recv_step_typed kReadSize _ (os_socket_typed fd s Hok)) as Hty.
  pose proof (recv_step_unread kReadSize (os_socket (sv_os s) fd)) as Hun. rewrite Hrecv in Hty, Hun. split; [|done].
  split; [by apply put_socket_ok| |done]. unfold budget_ok, ids_left in *. rewrite load_socket. simpl. lia.
Qed.

Lemma read_loop_wp fuel fd s : server_inv s -> is_Some (sv_clients s !! fd) -> (incoming_size (os_socket (sv_os s) fd) < fuel)%nat ->
  wp (read_loop fuel fd) s (fun _ s' => stepped s s').
Proof.
  revert s. induction fuel as [|fuel IH]; intros s Hinv [c Hc] Hfuel; [lia|]. pose proof Hinv as [Hok Hb Hin].
  cbn [read_loop]. apply wp_bind. unfold recv_client. apply wp_bind, wp_this.
  destruct (recv_step kReadSize (os_socket (sv_os s) fd)) as [answer so] eqn:Hrecv. apply wp_bind, wp_modify, wp_ret.
  change (s <| sv_os := _ |>) with (put_socket fd so s).
  pose proof (recv_step_spec kReadSize (os_socket (sv_os s) fd) ltac:(done)) as Hspec. rewrite Hrecv in Hspec.
  assert (Hc1 : sv_clients (put_socket fd so s) !! fd = Some c) by done.
  destruct answer as [bytes|errno].
  2: { pose proof (received_stepped _ _ _ _ Hinv Hrecv) as S1. destruct (errno =? EINTR) eqn:Hint.
       - eapply wp_mono; [|apply IH; [apply S1|eauto|]]; [intros [] s' S2; by eapply stepped_trans|].
         rewrite get_put_socket. bools. subst. destruct Hspec as [?|[? _]]; [lia|done].
       - destruct (errno =? EAGAIN); [by apply wp_ret|]. eapply wp_mono; [|apply removeClient_stepped, S1].
         intros [] s' S2. by eapply stepped_trans. }
  destruct Hspec as [_ Hless]. pose proof (recv_step_typed kReadSize _ (os_socket_typed fd s Hok)) as Hty.
  pose proof (recv_step_unread kReadSize (os_socket (sv_os s) fd)) as Hun. rewrite Hrecv in Hty, Hun. destruct Hty as [Hbytes Hty].
  destruct bytes as [|b bytes].
  - assert (S1 : stepped s (put_socket fd so s)).
    { split; [|done]. split; [by apply put_socket_ok| |done]. unfold budget_ok, ids_left in *. rewrite load_socket. simpl. simpl in Hun. lia. }
    apply wp_bind. unfold wp at 1. rewrite (client_ref_run _ _ _ Hc1). destruct (wants_out c).
    + apply wp_bind. unfold wp at 1. rewrite (set_client_run _ _ _ _ Hc1).
      assert (S2 : stepped (put_socket fd so s) (put_client fd (c <| cc_close_after_write := true |>) (put_socket fd so s))).
      { apply (put_stepped fd c); [apply S1|done| |done]. destruct (vo_clients _ Hok _ _ Hc). by split. }
      eapply wp_mono; [|apply updateInterest_stepped, S2]. intros [] s' S3. eapply stepped_trans; [exact S1|by eapply stepped_trans].
    + eapply wp_mono; [|apply removeClient_stepped, S1]. intros [] s' S2. by eapply stepped_trans.
  - apply wp_bind. unfold wp at 1. rewrite (set_client_run _ _ _ _ Hc1).
    set (c1 := c <| cc_input := _ |>). change (put_socket fd so s <| sv_clients := _ |>) with (put_client fd c1 (put_socket fd so s)).
    set (s1 := put_client fd c1 (put_socket fd so s)).
    assert (Hc1' : sv_clients s1 !! fd = Some c1) by apply lookup_insert_eq.
    assert (Hok1 : server_ok s1).
    { apply put_ok; [by apply put_socket_ok|]. destruct (vo_clients _ Hok _ _ Hc).
      split; [apply Forall_app; by split|done]. }
    assert (Hb1 : budget_ok s1).
    { unfold budget_ok, ids_left in *. unfold s1. rewrite (load_put _ _ _ _ Hc1), load_socket.
      unfold input_size, c1. simpl. rewrite length_app. simpl in *. lia. }
    assert (Hothers : forall fd' c', fd' <> fd -> sv_clients s1 !! fd' = Some c' -> Z.of_nat (input_size c') <= kMaxInput).
    { intros fd' c' Hne Hc'. unfold s1 in Hc'. simpl in Hc'. rewrite lookup_insert_ne in Hc' by done. by apply (Hin _ _ Hc'). }
    apply wp_bind. unfold wp at 1. rewrite (client_ref_run _ _ _ Hc1'). destruct (kMaxInput <? _) eqn:Hmax.
    + eapply wp_mono; [|by eapply refuse_input_wp]. intros [] s' [S2 (c' & Hc' & Hnil & _)].
      destruct S2 as [Hok2 Hb2 Hshrink (_ & ? & ? & ? & ?)]. split; [|done]. split; [done|done|].
      intros fd' d Hd. destruct (decide (fd' = fd)) as [->|Hne].
      * rewrite Hd in Hc'. simplify_eq. unfold input_size. rewrite Hnil. by vm_compute.
      * destruct (Hshrink _ _ Hd) as (d1 & Hd1 & ?). specialize (Hothers _ _ Hne Hd1). lia.
    + assert (Hinv1 : server_inv s1).
      { split; [done|done|]. intros fd' d Hd. destruct (decide (fd' = fd)) as [->|Hne]; [|by eapply Hothers].
        rewrite Hd in Hc1'. simplify_eq. bools. unfold input_size. lia. }
      apply wp_bind. eapply wp_mono; [|by eapply parseFrames_wp]. intros [] s2 [S2 Hsome].
      assert (T2 : stepped s s2) by (eapply (stepped_trans _ s1); [done|]; apply settled_stepped; [apply Hinv1|done]).
      apply wp_bind, wp_gets. destruct (sv_clients s2 !! fd) as [c2|] eqn:Hc2; [|by apply wp_ret].
      destruct (cc_close_after_write c2); [by apply wp_ret|].
      eapply wp_mono; [|apply IH; [apply T2|by rewrite Hc2|]]; [intros [] s3 S3; by eapply stepped_trans|].
      unfold os_socket in *. rewrite (proj1 (st_rest _ _ S2)). simpl. rewrite lookup_insert_eq. simpl. lia.
Qed.

Lemma readClient_wp fd s : server_inv s -> wp (readClient fd) s (fun _ s' => stepped s s').
Proof.
  intros Hinv. unfold readClient. apply wp_bind, wp_gets. destruct (sv_clients s !! fd) eqn:Hc; [|by apply wp_ret].
  apply wp_bind, wp_this. apply read_loop_wp; [done|rewrite Hc; eauto|lia].
Qed.

(** ** Writing *)

Lemma sent_stepped fd data reply so s : server_inv s -> send_step data (os_socket (sv_os s) fd) = (reply, so) ->
  stepped s (put_socket fd so s).
Proof.
  intros [Hok Hb Hin] Hsend. assert (Hinc : so_incoming so = so_incoming (os_socket (sv_os s) fd)).
  { unfold send_step in Hsend. by destruct (so_replies _); simplify_eq. }
  split; [|done]. split; [apply put_socket_ok; [done|]; rewrite Hinc; by apply os_socket_typed| |done].
  unfold budget_ok, ids_left in *. rewrite load_socket. unfold unread. rewrite Hinc. simpl. lia.
Qed.

Lemma write_loop_wp fuel fd c s : server_inv s -> sv_clients s !! fd = Some c ->
  wants_out c = false \/ (length (so_replies (os_socket (sv_os s) fd)) < fuel)%nat ->
  wp (write_loop fuel fd) s (fun written s' => stepped s s' /\ (written = true -> is_Some (sv_clients s' !! fd))).
Proof.
  revert s c. induction fuel as [|fuel IH]; intros s c Hinv Hc Hfuel; cbn [write_loop];
    apply wp_bind; unfold wp at 1; rewrite (client_ref_run _ _ _ Hc); destruct (wants_out c) eqn:Hout;
    try (apply wp_ret; split; [by apply stepped_refl|intros _; rewrite Hc; eauto]); cbn [negb].
  { destruct Hfuel; [done|lia]. }
  destruct Hfuel as [|Hfuel]; [done|]. unfold wants_out in Hout. bools.
  apply wp_bind. unfold send_client. apply wp_bind, wp_this.
  destruct (send_step _ _) as [reply so] eqn:Hsend. apply wp_bind, wp_modify, wp_ret.
  change (s <| sv_os := _ |>) with (put_socket fd so s). pose proof (sent_stepped _ _ _ _ _ Hinv Hsend) as S1.
  assert (Hc1 : sv_clients (put_socket fd so s) !! fd = Some c) by done.
  pose proof (vo_clients _ (si_ok _ Hinv) _ _ Hc) as [Hbytes Hoff].
  destruct (0 <? io_result reply) eqn:Hpos.
  - apply wp_bind. unfold wp at 1. rewrite (set_client_run _ _ _ _ Hc1).
    set (c1 := c <| cc_output_offset := _ |>). change (put_socket fd so s <| sv_clients := _ |>) with (put_client fd c1 (put_socket fd so s)).
    assert (S2 : stepped (put_socket fd so s) (put_client fd c1 (put_socket fd so s))).
    { apply (put_stepped fd c); [apply S1|done| |done]. split; [done|]. unfold c1. simpl. bools. lia. }
    eapply wp_mono; [|eapply (IH _ c1); [apply S2|apply lookup_insert_eq|]].
    { intros written s' [S3 Hw]. split; [|done]. eapply stepped_trans; [exact S1|by eapply stepped_trans]. }
    change (os_socket (sv_os (put_client fd c1 (put_socket fd so s))) fd) with (os_socket (sv_os (put_socket fd so s)) fd).
    rewrite get_put_socket. unfold send_step in Hsend. destruct (so_replies _) as [|r rest] eqn:Hr; simplify_eq; simpl in *; [left|right; lia].
    unfold wants_out, c1. simpl. rewrite length_drop. apply Z.ltb_ge. lia.
  - assert (Hless : io_result reply < 0 -> (length (so_replies so) < fuel)%nat).
    { intros Hneg. unfold send_step in Hsend. destruct (so_replies _) as [|r rest] eqn:Hr; simplify_eq; simpl in *; lia. }
    destruct ((io_result reply <? 0) && (io_errno reply =? EINTR)) eqn:Hint.
    { eapply wp_mono; [|eapply (IH _ c); [apply S1|done|right; rewrite get_put_socket; bools; auto]].
      intros written s' [S3 Hw]. split; [|done]. by eapply stepped_trans. }
    case_match; [by apply wp_ret|]. apply wp_bind. eapply wp_mono; [|apply removeClient_stepped, S1].
    intros [] s' S2. apply wp_ret. split; [by eapply stepped_trans|done].
Qed.

Lemma writeClient_wp fd s : server_inv s -> wp (writeClient fd) s (fun _ s' => stepped s s').
Proof.
  intros Hinv. unfold writeClient. apply wp_bind, wp_gets. destruct (sv_clients s !! fd) as [c|] eqn:Hc; [|by apply wp_ret].
  apply wp_bind, wp_this, wp_bind. eapply wp_mono; [|eapply write_loop_wp; [done|done|right; lia]].
  intros written s1 [S1 Hw]. destruct written; [|by apply wp_ret]. destruct (Hw eq_refl) as [c1 Hc1]. cbn [negb].
  apply wp_bind. unfold wp at 1. rewrite (set_client_run _ _ _ _ Hc1). set (c2 := c1 <| cc_output := [] |> <| cc_output_offset := 0 |>).
  change (s1 <| sv_clients := _ |>) with (put_client fd c2 s1).
  assert (S2 : stepped s1 (put_client fd c2 s1)).
  { apply (put_stepped fd c1); [apply S1|done| |done]. destruct (vo_clients _ (si_ok _ (sp_inv _ _ S1)) _ _ Hc1). by split. }
  apply wp_bind. unfold wp at 1. erewrite client_ref_run by apply lookup_insert_eq.
  assert (S12 : stepped s (put_client fd c2 s1)) by by eapply stepped_trans.
  destruct (cc_close_after_write c2); (eapply wp_mono; [|first [apply removeClient_stepped, S2|apply updateInterest_stepped, S2]]);
    intros [] s' S3; by eapply stepped_trans.
Qed.

(** ** Accepting *)

(** Answers of [accept4] were used up. *)
Record accepted (s s' : ServerState) : Prop := {
  ac_inv : server_inv s';
  ac_rest : sv_listener s' = sv_listener s /\ sv_liveness s' = sv_liveness s;
  ac_answers : exists used, os_accepts (sv_os s) = used ++ os_accepts (sv_os s');
}.

Lemma accepted_trans s1 s2 s3 : accepted s1 s2 -> accepted s2 s3 -> accepted s1 s3.
Proof.
  intros [I1 R1 [u1 U1]] [I2 R2 [u2 U2]]. split; [done|intuition congruence|]. exists (u1 ++ u2). by rewrite U1, U2, app_assoc.
Qed.

Lemma stepped_accepted s s' : stepped s s' -> accepted s s'.
Proof. intros [I (Ha & ? & _ & ?)]. split; [done|done|]. exists []. by rewrite Ha. Qed.

(** What [accept4] and [epoll_wait] report ends the server when it is neither an interrupt nor the
    absence of a connection. *)
Definition accept_error (answers : list (Z + Z)) (e : exn) : Prop :=
  exists errno, inr errno ∈ answers /\ errno <> EAGAIN /\ errno <> EINTR /\ e = ex_system_error errno.
Definition wait_error (waits : list (list (Z * Z) + Z)) (e : exn) : Prop :=
  exists errno, inr errno ∈ waits /\ errno <> EINTR /\ e = ex_system_error errno.

Lemma accept_error_later s s' e : accepted s s' -> accept_error (os_accepts (sv_os s')) e -> accept_error (os_accepts (sv_os s)) e.
Proof. intros [_ _ [used ->]] (errno & Hin & ?). exists errno. split; [|done]. apply elem_of_app. by right. Qed.

(** Another step from [s1]. *)
Lemma wpx_accepted (c : server unit) s s1 : accepted s s1 ->
  wpx c s1 (fun _ s' => accepted s1 s') (fun e s' => accepted s1 s' /\ accept_error (os_accepts (sv_os s1)) e) ->
  wpx c s1 (fun _ s' => accepted s s') (fun e s' => accepted s s' /\ accept_error (os_accepts (sv_os s)) e).
Proof.
  intros H1. apply wpx_mono; [intros [] s' H2; by eapply accepted_trans|].
  intros e s' [H2 He]. split; [by eapply accepted_trans|by eapply accept_error_later].
Qed.

Lemma fresh_client_ok id : client_ok (mkClientConnection id [] [] 0 false).
Proof. split; simpl; [constructor|lia]. Qed.

Lemma emplace_load fd id s :
  total (input_size <$> emplace fd (mkClientConnection id [] [] 0 false) (sv_clients s)) = total (input_size <$> sv_clients s).
Proof.
  unfold emplace. destruct (sv_clients s !! fd) eqn:Hfd; [done|]. rewrite fmap_insert, total_insert; [|by rewrite lookup_fmap, Hfd].
  change (input_size _) with 0%nat. lia.
Qed.

Lemma accept_loop_wpx fuel s : server_inv s -> (length (os_accepts (sv_os s)) < fuel)%nat ->
  wpx (accept_loop fuel) s (fun _ s' => accepted s s') (fun e s' => accepted s s' /\ accept_error (os_accepts (sv_os s)) e).
Proof.
  revert s. induction fuel as [|fuel IH]; intros s Hinv Hfuel; [lia|]. pose proof Hinv as [Hok Hb Hin].
  assert (A0 : accepted s s) by (split; [done|done|by exists []]).
  cbn [accept_loop]. unfold next_accept4. apply wpx_bind, wpx_bind, wpx_this.
  destruct (os_accepts (sv_os s)) as [|answer more] eqn:Hacc; [by apply wpx_ret, wpx_bind|].
  apply wpx_bind. unfold set_os. apply wpx_modify, wpx_ret, wpx_bind. set (s1 := s <| sv_os := _ |>).
  assert (H1 : server_inv s1) by (destruct Hok; split; [by split|done|done]).
  assert (A1 : accepted s s1) by (split; [done|done|exists [answer]; simpl; by rewrite Hacc]).
  destruct answer as [fd|errno].
  2: { unfold lift, accept_connection, wpx at 1. destruct (errno =? EAGAIN) eqn:Ha; [done|]. destruct (errno =? EINTR) eqn:Hi; [done|].
       bools. split; [done|]. exists errno. split_and!; auto. by left. }
  unfold lift, accept_connection, wpx at 1. apply wpx_bind, wpx_this. cbv zeta. apply wpx_bind, wpx_modify. set (s2 := _ <| sv_clients := _ |>).
  assert (H2 : server_inv s2).
  { destruct H1 as [[] Hb1 Hin1]. split; [split; auto| |].
    - apply map_Forall_emplace; [done|apply fresh_client_ok].
    - unfold budget_ok, load in *. simpl in *. by rewrite emplace_load.
    - apply map_Forall_emplace; [done|]. by vm_compute. }
  assert (Hnext : forall ctl, Forall (fun answer => answer = None) ctl ->
    wpx (set_os (fun o => o <| os_interest := <[fd := false]> (os_interest o) |>);; accept_loop fuel)
      (s2 <| sv_os := sv_os s2 <| os_ctl := ctl |> |>) (fun _ s' => accepted s s')
      (fun e s' => accepted s s' /\ accept_error (inl fd :: more) e)).
  { intros ctl Hctl. rewrite <- Hacc. apply wpx_bind. unfold set_os. apply wpx_modify, wpx_accepted.
    - destruct H2 as [[] Hb2 Hin2]. split; [split; [by split|done|done]|done|exists [inl fd]; simpl; by rewrite Hacc].
    - apply IH; [|simpl in Hfuel; simpl; lia]. destruct H2 as [[] Hb2 Hin2]. split; [by split|done|done]. }
  pose proof (vo_ctl _ (si_ok _ H2)) as Hctl. unfold next_ctl. apply wpx_bind, wpx_bind, wpx_this.
  destruct (os_ctl (sv_os s2)) as [|a ctl] eqn:Hctl2.
  - apply wpx_ret. specialize (Hnext [] Hctl). replace (s2 <| sv_os := sv_os s2 <| os_ctl := [] |> |>) with s2 in Hnext; [exact Hnext|].
    rewrite <- Hctl2. by destruct s as [? ? ? ? ? ? ? []].
  - apply Forall_cons_1 in Hctl as [-> Hctl]. apply wpx_bind, wpx_modify, wpx_ret. exact (Hnext ctl Hctl).
Qed.

(** ** Polling *)

Lemma handle_event_wpx event s : server_inv s ->
  wpx (handle_event event) s (fun _ s' => accepted s s') (fun e s' => accepted s s' /\ accept_error (os_accepts (sv_os s)) e).
Proof.
  intros Hinv. destruct event as [fd flags]. unfold handle_event. apply wpx_bind, wpx_this. case_match.
  { unfold acceptConnections. apply wpx_bind, wpx_this. apply accept_loop_wpx; [done|lia]. }
  apply wpx_wp. unfold connected_client. apply wp_bind, wp_bind, wp_gets, wp_ret. case_match; [by apply wp_ret, stepped_accepted|].
  assert (Hrd : wp (if has_flag flags EPOLLIN then readClient fd else mret tt) s (fun _ s' => stepped s s'))
    by (case_match; [by apply readClient_wp|by apply wp_ret]).
  apply wp_bind. eapply wp_mono; [|exact Hrd]. intros [] s1 S1. apply wp_bind, wp_bind, wp_gets, wp_ret.
  set (b := bool_decide _ && _). assert (Hwr : wp (if b then writeClient fd else mret tt) s1 (fun _ s' => stepped s1 s'))
    by (destruct b; [apply writeClient_wp, S1|apply wp_ret; by split; [apply S1|]]).
  apply wp_bind. eapply wp_mono; [|exact Hwr]. intros [] s2 S2. apply wp_bind, wp_bind, wp_gets, wp_ret.
  assert (S12 : stepped s s2) by by eapply stepped_trans.
  clear Hrd Hwr. case_match; [|by apply wp_ret, stepped_accepted].
  eapply wp_mono; [|apply removeClient_stepped, S2]. intros [] s3 S3. apply stepped_accepted. by eapply stepped_trans.
Qed.

Lemma handle_events_wpx events s : server_inv s ->
  wpx (for_each events handle_event) s (fun _ s' => accepted s s') (fun e s' => accepted s s' /\ accept_error (os_accepts (sv_os s)) e).
Proof.
  revert s. induction events as [|event events IH]; intros s Hinv; cbn [for_each]; [split; [done|done|by exists []]|].
  apply wpx_bind. eapply wpx_mono; [| |by apply handle_event_wpx]; [|done]. intros [] s1 A1.
  apply wpx_accepted; [done|]. apply IH, A1.
Qed.

Lemma wait_events_wpx waits s :
  wpx (wait_events waits) s (fun _ s' => s' = s) (fun e s' => s' = s /\ wait_error waits e).
Proof.
  induction waits as [|[events|errno] waits IH]; [done|done|]. cbn [wait_events]. destruct (errno =? EINTR) eqn:Hi.
  - eapply wpx_mono; [| |exact IH]; [done|]. intros e s' [-> (errno' & Hin & ?)]. split; [done|]. exists errno'. split; [by right|done].
  - bools. split; [done|]. exists errno. split_and!; [by left|done|done].
Qed.

(** A round of polling returns, or ends with what the kernel reported; the invariant holds in both cases. *)
Lemma pollOnce_wpx epoll_wait timeout_ms s : server_inv s ->
  wpx (pollOnce epoll_wait timeout_ms) s (fun _ s' => accepted s s')
    (fun e s' => accepted s s' /\ (accept_error (os_accepts (sv_os s)) e \/
       wait_error (epoll_wait (bounded_timeout (sv_liveness s) timeout_ms)) e)).
Proof.
  intros Hinv. unfold pollOnce. apply wpx_bind, wpx_this. apply wpx_bind.
  eapply wpx_mono; [| |apply wait_events_wpx].
  2: { intros e s' [-> He]. split; [split; [done|done|by exists []]|by right]. }
  intros events s' ->. apply wpx_bind. eapply wpx_mono; [| |by apply handle_events_wpx].
  2: { intros e s1 [A1 He]. split; [done|by left]. }
  intros [] s1 A1. apply wpx_wp. eapply wp_mono; [|apply expireDeadNodes_wp, A1]. intros [] s2 D2. eapply accepted_trans; [done|].
  apply stepped_accepted, settled_stepped; [apply A1|apply dropped_settled; [done|apply A1]].
Qed.
End budget.
