(* ===== verification/ServerTheorems.v ===== *)
(** * Registry server: theorems *)

From Stdlib Require Import ZArith Lia Bool String.
From stdpp Require Import base gmap list strings option.
From S2P Require Import Prelude Types Outcome BigEndian ControlProtocol SocketIo SubscriberQueue PublisherState SubscriberInvariant UnixListener RegistryState RegistryInvariant RegistryOps RegistryInterface RegistryNames RegistryServer ServerInvariant ServerRequests ServerCleanup ServerLoop.

Local Open Scope Z_scope.

(** ** Any number of rounds *)

(** The kernel yields bytes, and [epoll_ctl] does not fail on a descriptor that is open and
    registered. *)
Definition os_fine (o : Os) : Prop :=
  Forall (fun answer => answer = None) (os_ctl o) /\
  map_Forall (fun _ so => Forall incoming_typed (so_incoming so)) (os_sockets o).

Definition unread_bytes (o : Os) : Z := total (unread <$> os_sockets o).

(** One round of the main loop: first the clients and the kernel do what they like, sending at
    most [rd_bytes] bytes, then the server polls once. *)
Record round := mkRound {
  rd_world : Os -> Os;
  rd_bytes : Z;
  rd_wait : Z -> list (list (Z * Z) + Z);
  rd_timeout_ms : Z;
}.

Definition server_round (r : round) : server unit :=
  set_os (rd_world r);; pollOnce (rd_wait r) (rd_timeout_ms r).

Record round_fine (r : round) : Prop := {
  rf_world : forall o, os_fine o -> os_fine (rd_world r o) /\ unread_bytes (rd_world r o) <= unread_bytes o + rd_bytes r;
  rf_bytes : 0 <= rd_bytes r;
}.

(** The error that a round from [s] ends with: [accept4] or [epoll_wait] reported it. *)
Definition round_error (r : round) (s : ServerState) (e : exn) : Prop :=
  accept_error (os_accepts (rd_world r (sv_os s))) e \/
  wait_error (rd_wait r (bounded_timeout (sv_liveness s) (rd_timeout_ms r))) e.

(** Nothing but interrupts and the absence of connections is reported. *)
Definition accept_fine (answer : Z + Z) : Prop := match answer with inl _ => True | inr errno => errno = EAGAIN \/ errno = EINTR end.
Record round_calm (r : round) : Prop := {
  rc_accepts : forall o, Forall accept_fine (os_accepts o) -> Forall accept_fine (os_accepts (rd_world r o));
  rc_wait : forall timeout, Forall (fun w => match w with inl _ => True | inr errno => errno = EINTR end) (rd_wait r timeout);
}.

Fixpoint bytes_of (rounds : list round) : Z :=
  match rounds with [] => 0 | r :: rounds => rd_bytes r + bytes_of rounds end.

Lemma bytes_of_nonneg rounds : Forall round_fine rounds -> 0 <= bytes_of rounds.
Proof. induction 1 as [|r rounds [_ ?] _ IH]; simpl; lia. Qed.

(** What a round leaves. *)
Record after_round (r : round) (extra : Z) (s s' : ServerState) : Prop := {
  ar_inv : server_inv extra s';
  ar_listener : sv_listener s' = sv_listener s;
  ar_accepts : exists used, os_accepts (rd_world r (sv_os s)) = used ++ os_accepts (sv_os s');
}.

Lemma server_round_wpx r extra s : round_fine r -> 0 <= extra -> server_inv (rd_bytes r + extra) s ->
  wpx (server_round r) s (fun _ s' => after_round r extra s s') (fun e s' => after_round r extra s s' /\ round_error r s e).
Proof.
  intros [Hw Hb] He [Hok Hbud Hin]. unfold server_round, set_os. apply wpx_bind, wpx_modify. set (s1 := s <| sv_os := _ |>).
  destruct (Hw (sv_os s)) as [(Hctl & Hso) Hbytes]. { destruct Hok. done. }
  assert (H1 : server_inv extra s1).
  { destruct Hok. split; [by split| |done]. unfold budget_ok, ids_left in *. unfold load, unread_bytes in *. simpl. lia. }
  eapply wpx_mono; [| |by apply (pollOnce_wpx extra)].
  - by intros [] s' [? [] ?].
  - by intros e s' [[? [] ?] Herr].
Qed.

(** The rounds up to the one that ended the server, if any did. *)
Lemma rounds_run rounds s : Forall round_fine rounds -> server_inv (bytes_of rounds) s ->
  match for_each rounds server_round s with
  | (Ret _, s') => server_inv 0 s' /\ sv_listener s' = sv_listener s
  | (Throw e, s') => server_ok s' /\ inputs_bounded s' /\ sv_listener s' = sv_listener s /\
      exists done r rest s1, rounds = done ++ r :: rest /\ runs (for_each done server_round) s tt s1 /\ round_error r s1 e
  | (Undef, _) => False
  end.
Proof.
  intros Hr. revert s. induction Hr as [|r rounds Hr Hrs IH]; intros s Hs; cbn [for_each]; [done|].
  pose proof (server_round_wpx r (bytes_of rounds) s Hr (bytes_of_nonneg _ Hrs) Hs) as Hround.
  unfold wpx in Hround. unfold mbind, cpp_bind. destruct (server_round r s) as [[[]|e|] s1] eqn:Hrun; [| |done].
  - destruct Hround as [Hinv Hl _]. specialize (IH s1 Hinv). rewrite Hl in IH.
    destruct (for_each rounds server_round s1) as [[[]|e|] s2]; [done| |done].
    destruct IH as (? & ? & ? & before & r' & rest & s3 & -> & Hbefore & Herr). split_and!; [done|done|done|].
    exists (r :: before), r', rest, s3. split_and!; [done| |done]. eapply runs_bind; [exact Hrun|exact Hbefore].
  - destruct Hround as [[Hinv Hl _] Herr]. split_and!; [apply Hinv|apply Hinv|done|]. by exists [], r, rounds, s.
Qed.

(** Calm rounds all return. *)
Lemma calm_no_error r s e : round_calm r -> Forall accept_fine (os_accepts (sv_os s)) -> ~ round_error r s e.
Proof.
  intros [Hacc Hwait] Hs [(errno & Hin & Ha & Hi & _) | (errno & Hin & Hi & _)].
  - specialize (Hacc _ Hs). eapply (proj1 (list.Forall_forall _ _)) in Hacc; [|exact Hin]. by destruct Hacc.
  - specialize (Hwait (bounded_timeout (sv_liveness s) (rd_timeout_ms r))). eapply (proj1 (list.Forall_forall _ _)) in Hwait; [|exact Hin]. done.
Qed.

Lemma rounds_wp rounds s : Forall round_fine rounds -> Forall round_calm rounds -> Forall accept_fine (os_accepts (sv_os s)) ->
  server_inv (bytes_of rounds) s ->
  wp (for_each rounds server_round) s (fun _ s' => server_inv 0 s' /\ sv_listener s' = sv_listener s).
Proof.
  intros Hr. revert s. induction Hr as [|r rounds Hr Hrs IH]; intros s Hcalm Hacc Hs; cbn [for_each]; [by apply wp_ret|].
  apply Forall_cons_1 in Hcalm as [Hc Hcs]. apply wp_bind.
  pose proof (server_round_wpx r (bytes_of rounds) s Hr (bytes_of_nonneg _ Hrs) Hs) as Hround.
  apply wp_wpx in Hround; [|intros e s' [_ He]; by eapply calm_no_error].
  eapply wp_mono; [|exact Hround]. intros [] s1 [Hinv Hl [used Hused]]. rewrite <- Hl. apply IH; [done| |done].
  pose proof (rc_accepts _ Hc _ Hacc) as Hf. rewrite Hused in Hf. by apply Forall_app in Hf as [_ ?].
Qed.

Lemma create_server_inv listen epoll_create ctl path liveness os extra f s f' :
  create_server listen epoll_create ctl path liveness os f = (Ret s, f') -> os_fine os -> 0 <= extra ->
  unread_bytes os + extra <= 2 ^ 64 - 2 -> server_inv extra s.
Proof.
  intros Hrun (Hctl & Hso) Hextra Hsize. unfold create_server, mbind, cpp_bind in Hrun.
  destruct (create_listener listen path 64 f) as [[listener|e|] f1]; [|done|done].
  assert (Hfails : forall e, (cleanup_listener listener;; throw (A := ServerState) e) f1 <> (Ret s, f')).
  { intros e. unfold mbind, cpp_bind, throw. by destruct (cleanup_listener listener f1) as [[]]. }
  destruct (create_registry liveness) as [t|e|] eqn:Hreg; [|by apply Hfails in Hrun|done].
  destruct (create_registry_wf _ _ Hreg) as [Hwf Hids].
  destruct epoll_create, ctl; try (by apply Hfails in Hrun). unfold mret, cpp_ret in Hrun. simplify_eq. split.
  - split; simpl; auto; try done. unfold create_registry in Hreg. case_match; simplify_eq. by split.
  - unfold budget_ok, ids_left, load, unread_bytes in *. simpl. rewrite fmap_empty. change (total ∅) with 0. lia.
  - done.
Qed.

Lemma create_server_accepts listen epoll_create ctl path liveness os f s f' :
  create_server listen epoll_create ctl path liveness os f = (Ret s, f') -> os_accepts (sv_os s) = os_accepts os.
Proof.
  unfold create_server, mbind, cpp_bind. destruct (create_listener listen path 64 f) as [[listener|e|] f1]; [|done|done].
  destruct (create_registry liveness) as [t|e|]; [|by destruct (cleanup_listener listener f1) as [[]]|done].
  destruct epoll_create, ctl; unfold mret, cpp_ret, throw; try (by destruct (cleanup_listener listener f1) as [[]]). by intros [= <- _].
Qed.

(** C8: clients can not break the registry server.  Whatever they send and however they connect,
    disconnect or die, in any number of rounds of the main loop that carry fewer than 2^64 - 2
    bytes of requests, and as long as [epoll_ctl] does not fail: the server never touches erased state, its
    registry stays well-formed and its input buffers bounded, and every round returns, except that the
    server ends with exactly the error that [accept4] or [epoll_wait] reported in a round, such as that
    the descriptors are used up; when they report only interrupts and the absence of
    connections, all rounds return. *)
Theorem server_withstands_clients listen epoll_create ctl path liveness os f s f' rounds :
  create_server listen epoll_create ctl path liveness os f = (Ret s, f') -> os_fine os ->
  Forall round_fine rounds -> unread_bytes os + bytes_of rounds <= 2 ^ 64 - 2 ->
  match for_each rounds server_round s with
  | (Ret _, s') => registry_wf (sv_state s') /\ server_ok s' /\ inputs_bounded s'
  | (Throw e, s') => registry_wf (sv_state s') /\ server_ok s' /\ inputs_bounded s' /\
      exists done r rest s1, rounds = done ++ r :: rest /\ runs (for_each done server_round) s tt s1 /\ round_error r s1 e
  | (Undef, _) => False
  end /\
  (Forall accept_fine (os_accepts os) -> Forall round_calm rounds -> exists s', runs (for_each rounds server_round) s tt s').
Proof.
  intros Hrun Hos Hrounds Hsize. pose proof (bytes_of_nonneg _ Hrounds) as Hnn.
  pose proof (create_server_inv _ _ _ _ _ _ _ _ _ _ Hrun Hos Hnn Hsize) as Hinv. split.
  - pose proof (rounds_run rounds s Hrounds Hinv) as Hr. destruct (for_each rounds server_round s) as [[[]|e|] s']; [| |done].
    + destruct Hr as [[Hok _ Hin] _]. split_and!; [apply Hok|done|done].
    + destruct Hr as (Hok & Hin & _ & Herr). split_and!; [apply Hok|done|done|done].
  - intros Hacc Hcalm. assert (Hs : os_accepts (sv_os s) = os_accepts os) by (by eapply create_server_accepts). rewrite <- Hs in Hacc.
    destruct (proj1 (wp_run _ _ _) (rounds_wp rounds s Hrounds Hcalm Hacc Hinv)) as ([] & s' & Hr & _). by exists s'.
Qed.

(** ** Examples *)

Definition example_liveness : LivenessConfig := mkLivenessConfig 100 1000 3000.
Definition idle_os : Os := mkOs ∅ ∅ ∅ ∅ ∅ [] [] [] 0 (fun _ => LockAcquired).

(** A request as it comes over the wire. *)
Definition request_frame (opcode : Opcode) (request_id : Z) (fields : list field) : list Z :=
  match encodeControlFrame opcode request_id (fields_bytes fields) with Ret frame => frame | _ => [] end.

Definition register_frame : list Z := request_frame RegisterNode 7 [FStr "camera"].

Definition registering_socket : socket := mkSocket [InData (take 9 register_frame); InData (drop 9 register_frame)] [] [].

(** A client connects on descriptor 5; in the second round its request arrives in two pieces. *)
Definition example_rounds : list round :=
  [mkRound (fun o => o <| os_accepts := [inl 5; inr EAGAIN] |> <| os_ctl := [] |> <| os_sockets := ∅ |>) 0
     (fun _ => [inr EINTR; inl [(3, EPOLLIN)]]) (-1);
   mkRound (fun o => o <| os_sockets := {[5 := registering_socket]} |>) 26
     (fun _ => [inl [(5, Z.lor EPOLLIN EPOLLOUT)]]) 0].

Lemma register_frame_typed n : Forall is_byte (take n register_frame) /\ Forall is_byte (drop n register_frame).
Proof.
  assert (Forall is_byte register_frame) by (apply Forall_fold_right; vm_compute; intuition congruence).
  split; [by apply Forall_take|by apply Forall_drop].
Qed.

Lemma example_rounds_fine : Forall round_fine example_rounds.
Proof.
  apply list.Forall_cons; split; [|apply list.Forall_cons; split; [|constructor]].
  - split; [|done].
    intros o _. split; [|pose proof (total_nonneg (unread <$> os_sockets o)); unfold unread_bytes; simpl; rewrite fmap_empty; change (total ∅) with 0; lia].
    by split.
  - split; [|done]. intros o (Hctl & _). destruct (register_frame_typed 9) as [Ht Hd]. split.
    + split; [done|]. intros fd so Hso. change (({[5 := registering_socket]} : gmap Z socket) !! fd = Some so) in Hso.
      apply lookup_singleton_Some in Hso as [<- <-]. apply list.Forall_cons; split; [done|].
      apply list.Forall_cons; split; [done|constructor].
    + pose proof (total_nonneg (unread <$> os_sockets o)). unfold unread_bytes.
      change (total (unread <$> ({[5 := registering_socket]} : gmap Z socket)) <= total (unread <$> os_sockets o) + 26).
      replace (total (unread <$> ({[5 := registering_socket]} : gmap Z socket))) with 26 by (vm_compute; reflexivity). lia.
Qed.

Lemma example_rounds_calm : Forall round_calm example_rounds.
Proof.
  apply list.Forall_cons; split; [|apply list.Forall_cons; split; [|constructor]].
  - split; [intros o _; repeat constructor|]. intros timeout. repeat constructor.
  - split; [done|]. intros timeout. repeat constructor.
Qed.

(** A third round, in which the kernel has no descriptor left for the next connection. *)
Definition EMFILE : Z := 24.
Definition exhausted_round : round :=
  mkRound (fun o => o <| os_accepts := [inl 6; inr EMFILE] |>) 0 (fun _ => [inl [(3, EPOLLIN)]]) (-1).

Lemma exhausted_round_fine : round_fine exhausted_round.
Proof. split; [|done]. intros o Ho. split; [exact Ho|]. change (unread_bytes o <= unread_bytes o + 0). lia. Qed.

Definition fresh_registry : RegistryState :=
  mkRegistryState 1 1 1 1 ∅ ∅ ∅ ∅ ∅ ∅ example_liveness (mkRegistryMetrics 0 0 0).
Definition fresh_server : ServerState :=
  mkServerState (mkUnixListener 3 "/run/mw" true) fresh_registry example_liveness 1 ∅ ∅ ∅ (idle_os <| os_interest := {[3 := false]} |>).

Lemma fresh_server_created : create_server (example_listen 3 None) None None "/run/mw" example_liveness idle_os (mkSocketFiles ∅ ∅) =
  (Ret fresh_server, mkSocketFiles {["/run/mw"]} {[3]}).
Proof. vm_compute. reflexivity. Qed.

Lemma idle_os_fine : os_fine idle_os.
Proof. split; [apply list.Forall_nil; exact I|apply map_Forall_empty]. Qed.

Lemma server_withstands_clients_witness :
  (exists s', runs (for_each example_rounds server_round) fresh_server tt s' /\ server_ok s' /\ inputs_bounded s') /\
  (exists s', for_each (example_rounds ++ [exhausted_round]) server_round fresh_server = (Throw (ex_system_error EMFILE), s') /\
     server_ok s' /\ inputs_bounded s').
Proof.
  split.
  - destruct (server_withstands_clients _ _ _ _ _ _ _ _ _ example_rounds fresh_server_created idle_os_fine example_rounds_fine)
      as [Hrun Hcalm]; [by vm_compute|].
    destruct (Hcalm ltac:(constructor) example_rounds_calm) as [s' Hs']. exists s'. split; [exact Hs'|].
    unfold runs in Hs'. rewrite Hs' in Hrun. exact (proj2 Hrun).
  - destruct (server_withstands_clients _ _ _ _ _ _ _ _ _ (example_rounds ++ [exhausted_round]) fresh_server_created idle_os_fine)
      as [Hrun _]; [apply Forall_app; split; [exact example_rounds_fine|constructor; [exact exhausted_round_fine|constructor]] | by vm_compute|].
    assert (Hfst : (for_each (example_rounds ++ [exhausted_round]) server_round fresh_server).1 = Throw (ex_system_error EMFILE))
      by (vm_compute; reflexivity).
    destruct (for_each (example_rounds ++ [exhausted_round]) server_round fresh_server) as [o s'] eqn:E.
    simpl in Hfst. subst o. exists s'. split; [reflexivity|]. destruct Hrun as (_ & Hok & Hin & _). split; [exact Hok | exact Hin].
Defined.

(** ** Requests *)

(** C9: every request of a connected client, well-formed or not, is handled and gets exactly one
    response frame with its id, and nobody else gets anything; except that a discovery without
    subscribers is recorded to be answered later, in place of an earlier one for the same endpoint,
    and that a successful subscription also answers the discoveries that waited. *)
Theorem requests_are_answered fd c header payload s :
  server_ok s -> ids_left (sv_state s) 1 -> sv_clients s !! fd = Some c ->
  Forall is_byte payload -> Z.of_nat (length payload) <= kMaxControlPayloadSize ->
  exists s', runs (dispatch fd header payload) s tt s' /\ server_ok s' /\
    answered (ctl_opcode header) fd (ctl_request_id header) s s'.
Proof.
  intros Hok Hleft Hc Hb Hsize. pose proof (dispatch_wp fd c header payload s Hok Hleft Hc Hb Hsize) as Hwp.
  apply wp_run in Hwp as ([] & s' & Hrun & [Hs Ha]). exists s'. split_and!; [done|apply Hs|done].
Qed.

Definition fresh_client : ClientConnection := mkClientConnection 1 [] [] 0 false.
Definition connected_server : ServerState := put_client 5 fresh_client fresh_server.

Lemma fresh_server_inv : server_inv 0 fresh_server.
Proof. eapply create_server_inv; [exact fresh_server_created|exact idle_os_fine|done|by vm_compute]. Qed.

Lemma connected_server_ok : server_ok connected_server.
Proof. apply put_ok; [apply fresh_server_inv|apply fresh_client_ok]. Qed.

Definition register_header : ControlHeader := mkControlHeader kControlMagic kControlVersion RegisterNode 7 10.

Lemma requests_are_answered_witness : exists s',
  runs (dispatch 5 register_header (drop 16 register_frame)) connected_server tt s' /\ server_ok s' /\
  answered RegisterNode 5 7 connected_server s'.
Proof.
  apply (requests_are_answered 5 fresh_client register_header); [exact connected_server_ok|by vm_compute|by vm_compute| |by vm_compute].
  exact (proj2 (register_frame_typed 16)).
Defined.

Definition two_requests_client : ClientConnection := with_input (register_frame ++ take 20 register_frame) fresh_client.

Lemma two_requests_typed : client_ok two_requests_client.
Proof.
  split; [|by vm_compute]. simpl. apply Forall_app. split; [|apply register_frame_typed].
  rewrite <- (take_drop 9 register_frame). apply Forall_app. apply register_frame_typed.
Qed.

(** ** Discoveries *)

(** Going through the pending discoveries answers exactly those whose topic has a
    subscriber by now (or whose publisher is gone), each client in the order of the requests, and
    leaves the registry, the other clients and the requests that still wait alone. *)
Theorem waiting_discoveries_are_answered s : server_ok s ->
  exists s', runs completePending s tt s' /\ server_ok s' /\ sv_state s' = sv_state s /\
    (forall k, sv_pending s' !! k = (sv_pending s !! k ≫= fun request => if waits (sv_state s) request then Some request else None)) /\
    (forall fd c, sv_clients s !! fd = Some c -> exists frames,
       Forall2 (discovery_answer (sv_state s)) (completed s fd (map_keys (sv_pending s))) frames /\
       sv_clients s' !! fd = Some (with_output (concat frames) c)).
Proof.
  intros Hok. pose proof (completePending_wp s Hok) as Hwp. apply wp_run in Hwp as ([] & s' & Hrun & [Hs Hst _ Hp Ha]).
  exists s'. split_and!; [done|apply Hs|done| |done]. intros k. rewrite Hp. destruct (sv_pending s !! k) eqn:Hk; simpl; [|done].
  rewrite bool_decide_true by (apply elem_of_map_keys; eauto). by destruct (waits (sv_state s) p).
Qed.

(** Node 1 of connection 1 advertised a topic and waits for a subscriber; node 2 subscribes. *)
Definition advertise_ops : list registry_op :=
  [OpRegisterNode 1 "camera" 0; OpRegisterNode 2 "viewer" 0;
   OpAdvertise 1 1 "/image" "Image" "h" 64 UnixDomainSocket empty_pool_metadata].
Definition subscribe_ops : list registry_op :=
  advertise_ops ++ [OpSubscribe 2 2 "/image" "Image" "h" 64 "/run/viewer" UnixDomainSocket empty_queue_metadata].
Definition registry_after (ops : list registry_op) : RegistryState := (for_each ops exec_registry fresh_registry).2.

Lemma registry_after_ok ops :
  Z.of_nat (length ops) <= 2 ^ 32 -> forallb op_sized ops = true -> Forall (op_names short) ops ->
  registry_wf (registry_after ops) /\ all_names short (registry_after ops).
Proof.
  intros Hlen Hsized Hops. pose proof (si_ok _ _ fresh_server_inv) as [Hwf Hnames _ _ _ _].
  unfold registry_after. split.
  - destruct (exec_all_keeps ops fresh_registry Hwf) as (t & Hrun & Ht); [|done|by rewrite Hrun]. unfold ids_left. simpl. lia.
  - assert (forall t, all_names short t -> all_names short (for_each ops exec_registry t).2) as Hall; [|by apply Hall].
    clear -Hops. induction Hops as [|op ops Hop Hops IH]; [done|]. cbn [for_each]. apply names_bind; [by apply exec_registry_names; [apply short_empty|]|].
    by intros [].
Qed.

Definition waiting_request : PendingDiscovery := mkPendingDiscovery 5 1 1 1 9.
Definition waiting_server (t : RegistryState) : ServerState := connected_server <| sv_state := t |> <| sv_pending := {[1 := waiting_request]} |>.

Lemma waiting_server_ok t : registry_wf t /\ all_names short t -> server_ok (waiting_server t).
Proof. intros []. destruct connected_server_ok. by split. Qed.

Lemma subscribe_ops_ok : registry_wf (registry_after subscribe_ops) /\ all_names short (registry_after subscribe_ops).
Proof.
  apply registry_after_ok; [by vm_compute|by vm_compute|]. repeat (apply list.Forall_cons; split; [by vm_compute|]). constructor.
Qed.

Lemma waiting_discoveries_are_answered_witness : exists s', runs completePending (waiting_server (registry_after subscribe_ops)) tt s' /\
  sv_pending s' !! 1 = None.
Proof.
  destruct (waiting_discoveries_are_answered (waiting_server (registry_after subscribe_ops))) as (s' & Hrun & _ & _ & Hp & _).
  { apply waiting_server_ok. exact subscribe_ops_ok. }
  exists s'. split; [exact Hrun|]. rewrite Hp. vm_compute. reflexivity.
Defined.

(** ** Heartbeats *)

Lemma event_fields_size events : length (fields_bytes (flat_map event_fields events)) = (34 * length events)%nat.
Proof.
  induction events as [|ev events IH]; [done|]. unfold fields_bytes in *. cbn [flat_map]. rewrite map_app, concat_app, length_app, IH.
  simpl. rewrite !length_app, !length_encodeBigEndian. simpl. lia.
Qed.

Lemma response_frame_fits request_id body frame : Z.of_nat (length body) <= kMaxControlPayloadSize - 6 ->
  response_frame request_id Ok body = Ret frame -> is_response frame request_id Ok body.
Proof.
  intros Hsize Hframe. unfold response_frame in Hframe. simpl is_ok in Hframe. rewrite encodeResponsePayload_ok in Hframe by by vm_compute.
  eexists. split; [by apply encodeResponsePayload_ok; vm_compute|]. unfold mbind, outcome_bind in Hframe.
  destruct (encodeControlFrame _ _ _) as [f|e|] eqn:He; [done| |done]. exfalso. revert He. unfold encodeControlFrame.
  rewrite (proj2 (Z.ltb_ge _ _)); [done|]. rewrite !length_app, length_encodeBigEndian.
  change (length (field_bytes (FStr EmptyString))) with 4%nat. lia.
Qed.

(** An accepted heartbeat is answered with all the peer events collected for the node, in
    order and whole, and they are not reported again. *)
Theorem heartbeat_hands_over_events fd c header node session n s :
  server_ok s -> sv_clients s !! fd = Some c -> fits 64 node -> fits 64 session ->
  nodes_ (sv_state s) !! node = Some n -> node_session_id n = session ->
  cc_connection_id c = control_connection n \/ cc_connection_id c = heartbeat_connection n ->
  exists s' frame, runs (handle_Heartbeat fd c header (fields_bytes [FU64 node; FU64 session])) s tt s' /\
    let events := default [] (sv_peer_events s !! node) in
    is_response frame (ctl_request_id header) Ok
      (fields_bytes ([FU16 (LivenessState_to_u16 Alive); FU32 (Z.of_nat (length events))] ++ flat_map event_fields events)) /\
    sv_clients s' = <[fd := with_output frame c]> (sv_clients s) /\ sv_peer_events s' = delete node (sv_peer_events s).
Proof.
  intros Hok Hc Hnode Hsession Hn Hses Hconn. set (events := default [] (sv_peer_events s !! node)).
  set (body := fields_bytes ([FU16 (LivenessState_to_u16 Alive); FU32 (Z.of_nat (length events))] ++ flat_map event_fields events)).
  assert (Hlen : (length events <= kMaxEventsPerNode)%nat).
  { unfold events. destruct (sv_peer_events s !! node) eqn:He; simpl; [by apply (vo_events _ Hok _ _ He)|lia]. }
  destruct (response_frame_ok (ctl_request_id header) Ok body) as (frame & Hframe & _).
  enough (wp (handle_Heartbeat fd c header (fields_bytes [FU64 node; FU64 session])) s
            (fun _ s' => sv_clients s' = <[fd := with_output frame c]> (sv_clients s) /\ sv_peer_events s' = delete node (sv_peer_events s))) as Hwp.
  { apply wp_run in Hwp as ([] & s' & Hrun & Hcl & Hev). exists s', frame. split; [done|]. split; [|done].
    apply response_frame_fits; [|done]. unfold body. unfold fields_bytes. rewrite map_app, concat_app, length_app.
    pose proof (event_fields_size events) as Hsz. unfold fields_bytes in Hsz. rewrite Hsz. simpl. rewrite !length_app, !length_encodeBigEndian. simpl.
    unfold kMaxEventsPerNode, kMaxControlPayloadSize in *. lia. }
  unfold handle_Heartbeat, reads. apply wp_bind. eapply wp_lift.
  { pose proof (parse_written [FU64 node; FU64 session] []) as Hparse. rewrite app_nil_r in Hparse. apply Hparse.
    { apply list.Forall_cons; split; [done|]. apply list.Forall_cons; split; [done|]. by apply list.Forall_nil. }
    unfold fields_bytes. simpl. rewrite !length_app, !length_encodeBigEndian. simpl. lia. }
  cbv beta iota. apply wp_bind, wp_now; [done|]. intros time s1 Hs1 Hcl Hst _ Hev. apply wp_bind.
  assert (Hbeat : exists t, runs (heartbeat (cc_connection_id c) node session time) (sv_state s1) (mkHeartbeatResult Ok Alive) t).
  { eexists. unfold runs, heartbeat. unfold_cpp. rewrite Hst, Hn, Hses, Z.eqb_refl. cbn [negb].
    replace (negb (cc_connection_id c =? control_connection n) && negb (cc_connection_id c =? heartbeat_connection n)) with false; [done|].
    symmetry. apply andb_false_iff. rewrite !negb_false_iff, !Z.eqb_eq. done. }
  destruct Hbeat as [t Hbeat]. unfold wp at 1. unfold on_state. unfold runs in Hbeat. rewrite Hbeat. cbn [hr_error is_ok hr_state].
  apply wp_bind, wp_bind, wp_gets, wp_bind, wp_modify, wp_ret. apply wp_bind.
  change (sv_peer_events (s1 <| sv_state := t |>)) with (sv_peer_events s1). rewrite Hev. fold events.
  assert (Hbody : [FU16 (LivenessState_to_u16 Alive); FU32 (wrap 32 (Z.of_nat (length events)))] ++ flat_map event_fields events =
    [FU16 (LivenessState_to_u16 Alive); FU32 (Z.of_nat (length events))] ++ flat_map event_fields events).
  { rewrite wrap_small; [done|]. unfold fits, kMaxEventsPerNode in *. lia. }
  rewrite Hbody. eapply wp_lift; [apply write_body_ok|].
  { apply Forall_app. split; [by repeat constructor|apply event_fields_writable]. }
  unfold wp. rewrite (queueResponse_run fd c _ _ _ frame); [| |by simpl; rewrite Hcl|exact Hframe].
  - rewrite respond_clients. simpl. by rewrite Hcl.
  - apply Hs1.
Qed.

Definition example_event : PeerEventRecord := mkPeerEventRecord SubscriberDead 1 1 2 1 0.
Definition eventful_server : ServerState :=
  waiting_server (registry_after subscribe_ops) <| sv_peer_events := {[1 := [example_event]]} |>.

Lemma eventful_server_ok : server_ok eventful_server.
Proof.
  refine (dp_ok _ _ (proj1 (events_cleaned _ _ (waiting_server_ok _ subscribe_ops_ok) _))).
  intros k l Hl. apply lookup_singleton_Some in Hl as [_ <-]. unfold kMaxEventsPerNode. simpl. lia.
Qed.

Definition camera_node : NodeRecord := mkNodeRecord 1 1 "camera" 1 0 Alive 0 {[1]} ∅.

Lemma heartbeat_hands_over_events_witness : exists s' frame,
  runs (handle_Heartbeat 5 fresh_client register_header (fields_bytes [FU64 1; FU64 1])) eventful_server tt s' /\
  sv_clients s' = <[5 := with_output frame fresh_client]> (sv_clients eventful_server) /\ sv_peer_events s' = delete 1 (sv_peer_events eventful_server).
Proof.
  destruct (heartbeat_hands_over_events 5 fresh_client register_header 1 1 camera_node eventful_server) as (s' & frame & Hrun & _ & Hcl & Hev);
    [exact eventful_server_ok|by vm_compute|by vm_compute|by vm_compute|by vm_compute|done|by left|].
  exists s', frame. split; [exact Hrun|]. split; [exact Hcl|exact Hev].
Defined.

(** ** Disconnecting *)

(** When a client is closed its connection, its pending discoveries and every node its
    connection controlled are gone; other nodes keep their owner, and no client or discovery
    appears. *)
Theorem closed_client_leaves_no_trace fd c s : server_ok s -> sv_clients s !! fd = Some c ->
  exists s', runs (removeClient fd) s tt s' /\ removed fd (cc_connection_id c) s s'.
Proof.
  intros Hok Hc. pose proof (removeClient_wp fd c s Hok Hc) as Hwp. apply wp_run in Hwp as ([] & s' & Hrun & Hrm). by exists s'.
Qed.

Lemma closed_client_leaves_no_trace_witness : exists s', runs (removeClient 5) eventful_server tt s' /\ removed 5 1 eventful_server s'.
Proof. apply (closed_client_leaves_no_trace 5 fresh_client); [exact eventful_server_ok|by vm_compute]. Defined.

(** ** Output *)

(** What [send] still reports as taken. *)
Definition taken (replies : list io_reply) : Z := Z.of_nat (sum_list_with (fun r => Z.to_nat (io_result r)) replies).

(** What a client is still owed. *)
Definition owed (c : ClientConnection) : list Z := drop (Z.to_nat (cc_output_offset c)) (cc_output c).

(** The bytes a socket took, followed by what is still to be written. *)
Definition stream (fd : Z) (s : ServerState) : list Z :=
  so_sent (os_socket (sv_os s) fd) ++ from_option owed [] (sv_clients s !! fd).

Lemma sent_socket_ok fd data reply so s : server_ok s -> send_step data (os_socket (sv_os s) fd) = (reply, so) ->
  server_ok (put_socket fd so s).
Proof.
  intros Hok Hsend. apply put_socket_ok; [done|]. replace (so_incoming so) with (so_incoming (os_socket (sv_os s) fd)); [by apply os_socket_typed|].
  unfold send_step in Hsend. by destruct (so_replies _); simplify_eq.
Qed.

(** One [send] moves what it takes from the output to the socket. *)
Lemma send_step_owed data so reply so' : send_step data so = (reply, so') -> taken (so_replies so) <= Z.of_nat (length data) ->
  io_result reply <= Z.of_nat (length data) /\ so_sent so' = so_sent so ++ take (Z.to_nat (io_result reply)) data /\
  taken (so_replies so') <= Z.of_nat (length data) - Z.max 0 (io_result reply).
Proof.
  unfold send_step, taken. destruct (so_replies so) as [|r rest] eqn:Hr; intros [= <- <-] Ht; simpl in *; rewrite ?Hr; simpl.
  - rewrite Nat2Z.id, firstn_all. split_and!; [lia|done|lia].
  - split_and!; [lia|done|lia].
Qed.

Lemma write_loop_stream fuel fd c s written s' : server_ok s -> sv_clients s !! fd = Some c ->
  taken (so_replies (os_socket (sv_os s) fd)) <= Z.of_nat (length (owed c)) ->
  write_loop fuel fd s = (Ret written, s') -> is_Some (sv_clients s' !! fd) ->
  stream fd s' = stream fd s /\ (written = true -> from_option owed [] (sv_clients s' !! fd) = []).
Proof.
  revert s c. induction fuel as [|fuel IH]; intros s c Hok Hc Htaken; cbn [write_loop];
    rewrite (bind_run _ _ _ _ _ (client_ref_run _ _ _ Hc)); destruct (wants_out c) eqn:Hout; cbn [negb].
  { done. }
  1, 3: unfold mret, cpp_ret; intros [= <- <-] _; (split; [done|]); intros _; rewrite Hc; simpl; unfold owed, wants_out in *; bools; apply drop_ge; lia.
  unfold send_client. fold (owed c). destruct (send_step (owed c) (os_socket (sv_os s) fd)) as [reply so] eqn:Hsend.
  assert (Hrun : (s ← this; let '(reply, so) := send_step (owed c) (os_socket (sv_os s) fd) in set_os_socket fd so;; mret reply) s =
            (Ret reply, put_socket fd so s)) by (unfold_cpp; by rewrite Hsend).
  rewrite (bind_run _ _ _ _ _ Hrun). clear Hrun. destruct (send_step_owed _ _ _ _ Hsend Htaken) as (Hle & Hsent & Hleft).
  pose proof (sent_socket_ok _ _ _ _ _ Hok Hsend) as Hok1. destruct (vo_clients _ Hok _ _ Hc) as [Hbytes Hoff].
  assert (Hc1 : sv_clients (put_socket fd so s) !! fd = Some c) by done.
  assert (Hsame : io_result reply <= 0 -> stream fd (put_socket fd so s) = stream fd s).
  { intros Hneg. unfold stream. rewrite get_put_socket, Hsent. replace (Z.to_nat (io_result reply)) with 0%nat by lia. by rewrite take_0, app_nil_r. }
  destruct (0 <? io_result reply) eqn:Hpos; bools.
  - rewrite (bind_run _ _ _ _ _ (set_client_run _ _ _ _ Hc1)). set (c1 := c <| cc_output_offset := _ |>).
    change (put_socket fd so s <| sv_clients := _ |>) with (put_client fd c1 (put_socket fd so s)).
    assert (Howed : owed c1 = drop (Z.to_nat (io_result reply)) (owed c)).
    { unfold owed, c1. simpl. rewrite drop_drop. f_equal. lia. }
    intros Hloop Hsome. destruct (IH (put_client fd c1 (put_socket fd so s)) c1) as [Hst Hw]; [|apply lookup_insert_eq| |done|done|].
    + apply put_ok; [done|]. split; [done|]. unfold c1. simpl. lia.
    + change (os_socket (sv_os (put_client fd c1 (put_socket fd so s))) fd) with (os_socket (sv_os (put_socket fd so s)) fd).
      rewrite get_put_socket, Howed, length_drop. lia.
    + split; [|done]. rewrite Hst. unfold stream. simpl sv_clients. rewrite lookup_insert_eq, Hc. simpl from_option.
      change (os_socket (sv_os (put_client fd c1 (put_socket fd so s))) fd) with (os_socket (sv_os (put_socket fd so s)) fd).
      rewrite get_put_socket, Hsent, Howed, <- app_assoc, take_drop. done.
  - destruct ((io_result reply <? 0) && (io_errno reply =? EINTR)).
    { intros Hloop Hsome. destruct (IH (put_socket fd so s) c) as [Hst Hw]; [done|done| |done|done|].
      - rewrite get_put_socket. lia.
      - by rewrite Hst, Hsame by lia. }
    destruct ((io_result reply <? 0) && (io_errno reply =? EAGAIN)).
    { unfold mret, cpp_ret. intros [= <- <-] _. split; [apply Hsame; lia|done]. }
    pose proof (removeClient_wp fd c _ Hok1 Hc1) as Hrm. apply wp_run in Hrm as ([] & s2 & Hrun & Hrm).
    rewrite (bind_run _ _ _ _ _ Hrun). unfold mret, cpp_ret. intros [= <- <-] [c2 Hc2]. rewrite (rm_client _ _ _ _ Hrm) in Hc2. done.
Qed.

(** Writing to a client loses, repeats and reorders nothing: as long as the client stays, the
    bytes its socket took followed by the bytes still to be written are the same before and
    after, whatever part each [send] takes and however often it is interrupted. *)
Theorem output_is_sent_in_order fd c s : server_inv 0 s -> sv_clients s !! fd = Some c ->
  taken (so_replies (os_socket (sv_os s) fd)) <= Z.of_nat (length (owed c)) ->
  exists s', runs (writeClient fd) s tt s' /\ server_inv 0 s' /\
    (is_Some (sv_clients s' !! fd) -> stream fd s' = stream fd s).
Proof.
  intros Hinv Hc Htaken. pose proof (writeClient_wp 0 fd s Hinv) as Hwp. apply wp_run in Hwp as ([] & s' & Hrun & Hs').
  exists s'. split; [done|]. split; [apply Hs'|]. intros Hsome. revert Hrun. unfold writeClient.
  rewrite (bind_run _ _ _ _ _ (find_client_run fd s)), Hc. rewrite (bind_run this _ s s s) by done.
  set (fuel := S _). pose proof (write_loop_wp 0 fuel fd c s Hinv Hc ltac:(right; unfold fuel; lia)) as Hwr.
  apply wp_run in Hwr as (written & s1 & Hloop & S1 & Hw). rewrite (bind_run _ _ _ _ _ Hloop).
  pose proof (write_loop_stream _ _ _ _ _ _ (si_ok _ _ Hinv) Hc Htaken Hloop) as Hst. destruct written; cbn [negb].
  2: { unfold mret, cpp_ret. intros [= <-]. by apply Hst. }
  destruct (Hw eq_refl) as [c1 Hc1]. destruct (Hst ltac:(by rewrite Hc1)) as [<- Hnil]. specialize (Hnil eq_refl). rewrite Hc1 in Hnil.
  rewrite (bind_run _ _ _ _ _ (set_client_run _ _ _ _ Hc1)). set (c2 := c1 <| cc_output := [] |> <| cc_output_offset := 0 |>).
  change (s1 <| sv_clients := _ |>) with (put_client fd c2 s1).
  assert (Hc2 : sv_clients (put_client fd c2 s1) !! fd = Some c2) by apply lookup_insert_eq.
  assert (Hok2 : server_ok (put_client fd c2 s1)).
  { apply put_ok; [apply S1|]. destruct (vo_clients _ (si_ok _ _ (sp_inv _ _ _ S1)) _ _ Hc1). by split. }
  rewrite (bind_run _ _ _ _ _ (client_ref_run _ _ _ Hc2)).
  destruct (cc_close_after_write c2).
  - pose proof (removeClient_wp fd c2 _ Hok2 Hc2) as Hrm. apply wp_run in Hrm as ([] & s2 & -> & Hrm). intros [= <-].
    rewrite (rm_client _ _ _ _ Hrm) in Hsome. by destruct Hsome.
  - rewrite (updateInterest_run _ _ _ (vo_ctl _ Hok2) Hc2). intros [= <-]. unfold stream. rewrite Hc1. simpl in Hnil |- *.
    rewrite Hnil, lookup_insert_eq. done.
Qed.

Definition writing_client : ClientConnection := with_output [1; 2; 3; 4; 5] fresh_client.
Definition slow_socket : socket := mkSocket [] [mkIoReply 2 0 []; mkIoReply (-1) EINTR []; mkIoReply (-1) EAGAIN []] [9].
Definition writing_server : ServerState := put_client 5 writing_client (put_socket 5 slow_socket fresh_server).

Lemma writing_server_inv : server_inv 0 writing_server.
Proof.
  split.
  - apply put_ok; [apply put_socket_ok; [apply fresh_server_inv|by apply list.Forall_nil]|]. split; [by apply list.Forall_nil|by vm_compute].
  - by vm_compute.
  - apply map_Forall_insert_2; [by vm_compute|apply fresh_server_inv].
Qed.

Lemma output_is_sent_in_order_witness : exists s', runs (writeClient 5) writing_server tt s' /\ server_inv 0 s' /\
  (is_Some (sv_clients s' !! 5) -> stream 5 s' = stream 5 writing_server).
Proof. apply (output_is_sent_in_order 5 writing_client); [exact writing_server_inv|by vm_compute|by vm_compute]. Defined.

(** ** Faults *)

(** A request to unadvertise an endpoint of somebody else is refused and changes nothing in
    the registry, and yet drops the discovery that waits for that endpoint: its owner never gets
    an answer. *)
Theorem foreign_unadvertise_drops_discovery fd c header node e request s :
  server_ok s -> ids_left (sv_state s) 1 -> sv_clients s !! fd = Some c -> fits 64 node -> fits 64 e ->
  sv_pending s !! e = Some request -> pg_fd request <> fd -> ~ resolvable (sv_state s) (cc_connection_id c) node e ->
  exists s', runs (handle_UnadvertiseTopic fd c header (fields_bytes [FU64 node; FU64 e])) s tt s' /\
    sv_state s' = sv_state s /\ sv_pending s' = delete e (sv_pending s) /\ replied fd (ctl_request_id header) s s'.
Proof.
  intros Hok Hleft Hc Hnode He Hp Hfd Hno.
  enough (wp (handle_UnadvertiseTopic fd c header (fields_bytes [FU64 node; FU64 e])) s
            (fun _ s' => sv_state s' = sv_state s /\ sv_pending s' = delete e (sv_pending s) /\ replied fd (ctl_request_id header) s s')) as Hwp.
  { apply wp_run in Hwp as ([] & s' & ? & ?). by exists s'. }
  unfold handle_UnadvertiseTopic, reads. apply wp_bind. eapply wp_lift.
  { pose proof (parse_written [FU64 node; FU64 e] []) as Hparse. rewrite app_nil_r in Hparse. apply Hparse.
    { apply list.Forall_cons; split; [done|]. apply list.Forall_cons; split; [done|]. by apply list.Forall_nil. }
    unfold fields_bytes. simpl. rewrite !length_app, !length_encodeBigEndian. simpl. lia. }
  cbv beta iota. apply wp_bind. eapply wp_on_state_same; [by apply unadvertise_refused|]. apply wp_bind, wp_modify.
  eapply wp_respond; [destruct Hok; by split|done|]. intros s' _ Hr Hst Hpend _. by rewrite Hst, Hpend.
Qed.

(** A second client, without the endpoint. *)
Definition other_client : ClientConnection := mkClientConnection 2 [] [] 0 false.
Definition shared_server : ServerState := put_client 6 other_client (waiting_server (registry_after advertise_ops)).

Lemma advertise_ops_ok : registry_wf (registry_after advertise_ops) /\ all_names short (registry_after advertise_ops).
Proof.
  apply registry_after_ok; [by vm_compute|by vm_compute|]. repeat (apply list.Forall_cons; split; [by vm_compute|]). constructor.
Qed.

Lemma foreign_unadvertise_drops_discovery_witness : exists s',
  runs (handle_UnadvertiseTopic 6 other_client register_header (fields_bytes [FU64 2; FU64 1])) shared_server tt s' /\
  sv_state s' = sv_state shared_server /\ sv_pending s' = delete 1 (sv_pending shared_server) /\ replied 6 7 shared_server s'.
Proof.
  eapply (foreign_unadvertise_drops_discovery 6 other_client register_header 2 1 waiting_request);
    [|by vm_compute|by vm_compute|by vm_compute|by vm_compute|by vm_compute|done|].
  - exact (put_ok 6 other_client _ (waiting_server_ok _ advertise_ops_ok) (fresh_client_ok 2)).
  - intros (n & P & _ & HP & Hid). assert (publishers_ (sv_state shared_server) !! 1 =
      Some (mkPublisherEndpoint 1 1 1 64 UnixDomainSocket empty_pool_metadata)) as H1 by by vm_compute. rewrite H1 in HP. injection HP as <-. done.
Defined.

(** When [epoll_ctl] fails for a client with a request, the client is erased while the frame loop
    still refers to it. *)
Lemma interest_failure_is_undefined :
  (parseFrames 5 (put_client 5 two_requests_client fresh_server <| sv_os := idle_os <| os_ctl := [Some EINVAL] |> |>)).1 = Undef.
Proof. vm_compute. reflexivity. Qed.

(** ** Releasing the resources of a dead node *)

(** The newest [kMaxEventsPerNode] elements. *)
Definition window {A} (l : list A) : list A := drop (length l - kMaxEventsPerNode) l.

Lemma window_small {A} (l : list A) : (length l <= kMaxEventsPerNode)%nat -> window l = l.
Proof. intros Hl. unfold window. replace (length l - kMaxEventsPerNode)%nat with 0%nat by lia. done. Qed.

Lemma window_app {A} (l l' : list A) : window (window l ++ l') = window (l ++ l').
Proof.
  unfold window. rewrite !length_app, length_drop.
  destruct (decide (length l <= kMaxEventsPerNode)%nat) as [Hl|Hl].
  - replace (length l - kMaxEventsPerNode)%nat with 0%nat by lia. rewrite drop_0. do 2 f_equal. lia.
  - rewrite <- (drop_app_le l l' (length l - kMaxEventsPerNode)) by lia. rewrite drop_drop. f_equal. lia.
Qed.

(** The events of a node after one more. *)
Definition record_event (nodes : gmap Z NodeRecord) (m : gmap Z (list PeerEventRecord)) (event : PeerEventRecord) :
    gmap Z (list PeerEventRecord) :=
  match nodes !! ev_target_node_id event with
  | None => m
  | Some _ => <[ev_target_node_id event := window (default [] (m !! ev_target_node_id event) ++ [event])]> m
  end.

Lemma push_event_run event s : server_ok s ->
  push_event event s = (Ret tt, s <| sv_peer_events := record_event (nodes_ (sv_state s)) (sv_peer_events s) event |>).
Proof.
  intros Hok. unfold push_event, on_state, node_of, record_event. unfold_cpp. destruct (nodes_ (sv_state s) !! _); [|by destruct s].
  f_equal. simpl. set (events := default _ _). assert (Hlen : (length events <= kMaxEventsPerNode)%nat).
  { unfold events. destruct (sv_peer_events s !! _) eqn:He; simpl; [by apply (vo_events _ Hok _ _ He)|lia]. }
  assert (Hw : window (events ++ [event]) = (if (length events =? kMaxEventsPerNode)%nat then tail events else events) ++ [event]).
  { destruct (_ =? _)%nat eqn:Heq; [apply Nat.eqb_eq in Heq | apply Nat.eqb_neq in Heq].
    - unfold window. rewrite length_app. simpl. destruct events as [|ev events]; [done|].
      replace (length (ev :: events) + 1 - kMaxEventsPerNode)%nat with 1%nat by lia. done.
    - apply window_small. rewrite length_app. simpl. lia. }
  rewrite Hw. by destruct s.
Qed.

Lemma push_events_run events s : server_ok s -> exists s', runs (for_each events push_event) s tt s' /\
  s' = s <| sv_peer_events := foldl (record_event (nodes_ (sv_state s))) (sv_peer_events s) events |> /\ server_ok s'.
Proof.
  revert s. induction events as [|event events IH]; intros s Hok; simpl.
  - exists s. split_and!; [done|by destruct s|done].
  - pose proof (push_event_wp event s Hok) as Hwp. pose proof (push_event_run event s Hok) as Hrun. unfold wp in Hwp. rewrite Hrun in Hwp.
    destruct Hwp as [D _]. destruct (IH _ (dp_ok _ _ D)) as (s' & Hrun' & -> & Hok'). eexists. split; [eapply runs_bind; [exact Hrun|exact Hrun']|].
    split; [by destruct s|done].
Qed.

Lemma recorded_events nodes m events id :
  (length (default [] (m !! id)) <= kMaxEventsPerNode)%nat ->
  default [] (foldl (record_event nodes) m events !! id) =
  if decide (is_Some (nodes !! id)) then window (default [] (m !! id) ++ filter (fun ev => ev_target_node_id ev = id) events)
  else default [] (m !! id).
Proof.
  revert m. induction events as [|event events IH]; intros m Hlen; simpl.
  { rewrite app_nil_r. case_decide; [|done]. by rewrite window_small. }
  assert (Hone : default [] (record_event nodes m event !! id) =
    if decide (is_Some (nodes !! id) /\ ev_target_node_id event = id) then window (default [] (m !! id) ++ [event]) else default [] (m !! id)).
  { unfold record_event. destruct (nodes !! ev_target_node_id event) as [n|] eqn:Hn.
    - destruct (decide (ev_target_node_id event = id)) as [Hid|Hid].
      + rewrite Hid, lookup_insert_eq in *. rewrite decide_True by (rewrite Hn; eauto). done.
      + rewrite lookup_insert_ne by done. by rewrite decide_False by tauto.
    - rewrite decide_False; [done|]. intros [[n Hs] Hid]. rewrite Hid in Hn. congruence. }
  rewrite IH, Hone; rewrite ?Hone.
  - rewrite filter_cons. repeat case_decide; try tauto; try done. rewrite window_app. by rewrite <- app_assoc.
  - case_decide; [|done]. unfold window. rewrite length_drop, length_app. simpl. lia.
Qed.

(** Only these names of shared memory and these sockets are gone. *)
Definition valid_names (names : list string) : gset string := list_to_set (filter (fun name => isValidSharedMemoryName name = true) names).
Record frees (names paths : list string) (s s' : ServerState) : Prop := {
  fr_ok : server_ok s';
  fr_state : sv_state s' = sv_state s /\ sv_peer_events s' = sv_peer_events s;
  fr_names : os_shm_names (sv_os s') = os_shm_names (sv_os s) ∖ valid_names names;
  fr_files : forall path, os_files (sv_os s') !! path =
    (os_files (sv_os s) !! path ≫= fun is_socket => if bool_decide (path ∈ paths) && is_socket then None else Some is_socket);
}.

Lemma frees_nothing s s' : server_ok s' -> sv_state s' = sv_state s -> sv_peer_events s' = sv_peer_events s ->
  os_shm_names (sv_os s') = os_shm_names (sv_os s) -> os_files (sv_os s') = os_files (sv_os s) -> frees [] [] s s'.
Proof.
  intros Hok Hst Hev Hn Hf. split; [done|done| |].
  - rewrite Hn. unfold valid_names. simpl. set_solver.
  - intros path. rewrite Hf. by destruct (os_files (sv_os s) !! path).
Qed.

Lemma frees_trans n1 p1 n2 p2 s1 s2 s3 : frees n1 p1 s1 s2 -> frees n2 p2 s2 s3 -> frees (n1 ++ n2) (p1 ++ p2) s1 s3.
Proof.
  intros [O1 [S1 E1] N1 F1] [O2 [S2 E2] N2 F2]. split; [done|split; congruence| |].
  - rewrite N2, N1. unfold valid_names. rewrite list.filter_app, list_to_set_app_L. apply difference_difference_l_L.
  - intros path. rewrite F2, F1. destruct (os_files (sv_os s1) !! path) as [b|]; simpl; [|done].
    rewrite (bool_decide_ext (path ∈ p1 ++ p2) (path ∈ p1 \/ path ∈ p2)) by apply elem_of_app.
    destruct b; rewrite ?andb_false_r; simpl; [|by rewrite ?andb_false_r].
    repeat case_bool_decide; simpl; try done; rewrite ?bool_decide_true, ?bool_decide_false by tauto; tauto.
Qed.

Lemma for_each_frees {A} (names paths : A -> list string) (body : A -> server unit) l s : server_ok s ->
  (forall a s, server_ok s -> wp (body a) s (fun _ s' => frees (names a) (paths a) s s')) ->
  wp (for_each l body) s (fun _ s' => frees (flat_map names l) (flat_map paths l) s s').
Proof.
  intros Hok Hb. revert s Hok. induction l as [|a l IH]; intros s Hok; simpl.
  - apply wp_ret. by apply frees_nothing.
  - apply wp_bind. eapply wp_mono; [|by apply Hb]. intros [] s1 F1. eapply wp_mono; [|apply IH, F1]. intros [] s2. by apply frees_trans.
Qed.

Lemma unlink_shm_name_frees name s : server_ok s -> wp (unlink_shm_name name) s (fun _ s' => frees [name] [] s s').
Proof.
  intros Hok. pose proof (unlink_shm_name_wp name s Hok) as Hwp. unfold wp in *. revert Hwp. unfold unlink_shm_name.
  destruct (isValidSharedMemoryName name) eqn:Hv; simpl; intros [D _]; (split; [apply D|done| |]); simpl.
  - unfold valid_names. rewrite filter_cons_True by done. simpl. set_solver.
  - intros path. by destruct (os_files (sv_os s) !! path).
  - unfold valid_names. rewrite filter_cons_False by congruence. simpl. set_solver.
  - intros path. by destruct (os_files (sv_os s) !! path).
Qed.

Lemma unlinkSocketPath_frees path s : server_ok s -> wp (unlinkSocketPath path) s (fun _ s' => frees [] [path] s s').
Proof.
  intros Hok. pose proof (unlinkSocketPath_wp path s Hok) as Hwp. unfold wp in *. revert Hwp. unfold unlinkSocketPath. unfold_cpp.
  assert (Hno : os_files (sv_os s) !! path <> Some true -> frees [] [path] s s).
  { intros Hne. split; [done|done|unfold valid_names; simpl; set_solver|]. intros p. destruct (os_files (sv_os s) !! p) as [[]|] eqn:Hp; simpl; [|by rewrite andb_false_r|done].
    rewrite bool_decide_false; [done|]. rewrite list_elem_of_singleton. congruence. }
  destruct (os_files (sv_os s) !! path) as [[]|] eqn:Hf; simpl; intros Hd; [|by apply Hno|by apply Hno].
  destruct Hd as [D _]. split; [apply D|done|unfold valid_names; simpl; set_solver|]. intros p. simpl.
  destruct (decide (p = path)) as [->|Hne].
  - rewrite lookup_delete_eq, Hf. simpl. by rewrite bool_decide_true by set_solver.
  - rewrite lookup_delete_ne by done. destruct (os_files (sv_os s) !! p) as [b|]; simpl; [|done].
    rewrite bool_decide_false; [done|]. rewrite list_elem_of_singleton. done.
Qed.

Lemma recover_and_close_frees d s : server_ok s -> wp (recover_and_close d) s (fun _ s' => frees [] [] s s').
Proof.
  intros Hok. pose proof (recover_and_close_wp d s Hok) as Hwp. unfold wp in *. revert Hwp. unfold recover_and_close. unfold_cpp. cbv zeta.
  destruct (bool_decide _); [|intros _; by apply frees_nothing]. destruct (os_queues (sv_os s) !! qd_shm_name d) as [q|]; [|intros _; by apply frees_nothing].
  destruct (recoverAndClose_returns None (os_trylock (sv_os s) (qd_shm_name d)) d q) as (e & q' & ->).
  intros [D _]. apply frees_nothing; [apply D|done|done|done|done].
Qed.

Lemma applyCleanup_events cleanup s1 : server_ok s1 -> wp (for_each (cl_peer_events cleanup) push_event;;
    modify (fun s => s <| sv_peer_events := delete (cl_node_id cleanup) (sv_peer_events s) |>);; cleanupPending) s1
  (fun _ s' => server_ok s' /\ sv_state s' = sv_state s1 /\ sv_os s' = sv_os s1 /\
     sv_pending s' = filter (fun '(e, _) => is_Some (publishers_ (sv_state s1) !! e)) (sv_pending s1) /\
     sv_peer_events s' = delete (cl_node_id cleanup) (foldl (record_event (nodes_ (sv_state s1))) (sv_peer_events s1) (cl_peer_events cleanup))).
Proof.
  intros Hok. destruct (push_events_run (cl_peer_events cleanup) s1 Hok) as (s2 & Hrun & -> & Hok2).
  apply wp_bind. unfold wp at 1. rewrite Hrun. apply wp_bind, wp_modify, wp_modify. split; [|done].
  destruct Hok2. split; simpl; auto. by apply map_Forall_delete.
Qed.

(** C36: cleaning up after a dead node unlinks exactly the shared memory of its queues and pools
    and those of its socket paths that are sockets, forgets its own events and the discoveries of
    publishers that are gone, and appends to the events of every peer that is still registered,
    in order, what concerns it, keeping the newest 1024. *)
Theorem cleanup_releases_and_tells_peers cleanup s : server_ok s ->
  exists s', runs (applyCleanup cleanup) s tt s' /\ server_ok s' /\ sv_state s' = sv_state s /\
    os_shm_names (sv_os s') = os_shm_names (sv_os s) ∖ valid_names (map sqm_shm_name (cl_queues cleanup) ++ map spm_shm_name (cl_pools cleanup)) /\
    (forall path, os_files (sv_os s') !! path = (os_files (sv_os s) !! path ≫= fun is_socket =>
       if bool_decide (path ∈ cl_socket_paths cleanup) && is_socket then None else Some is_socket)) /\
    map_Forall (fun e _ => is_Some (publishers_ (sv_state s) !! e)) (sv_pending s') /\
    sv_peer_events s' !! cl_node_id cleanup = None /\
    (forall id, id <> cl_node_id cleanup -> is_Some (nodes_ (sv_state s) !! id) ->
       default [] (sv_peer_events s' !! id) =
       window (default [] (sv_peer_events s !! id) ++ filter (fun event => ev_target_node_id event = id) (cl_peer_events cleanup))).
Proof.
  intros Hok. set (N := map sqm_shm_name (cl_queues cleanup) ++ map spm_shm_name (cl_pools cleanup)).
  enough (wp (applyCleanup cleanup) s (fun _ s' => exists s1, frees N (cl_socket_paths cleanup) s s1 /\
    server_ok s' /\ sv_state s' = sv_state s1 /\ sv_os s' = sv_os s1 /\
    sv_pending s' = filter (fun '(e, _) => is_Some (publishers_ (sv_state s1) !! e)) (sv_pending s1) /\
    sv_peer_events s' = delete (cl_node_id cleanup) (foldl (record_event (nodes_ (sv_state s1))) (sv_peer_events s1) (cl_peer_events cleanup)))) as Hwp.
  { apply wp_run in Hwp as ([] & s' & Hrun & s1 & [_ [Hst Hev] Hn Hf] & Hok' & Hst' & Hos & Hp & He). exists s'. rewrite Hst', Hst, Hos.
    split_and!; [done|done|done|done|done| | |].
    - rewrite Hp, Hst. intros e q [_ ?]%map_lookup_filter_Some. done.
    - rewrite He. apply lookup_delete_eq.
    - intros id Hne Hsome. rewrite He, lookup_delete_ne by done. rewrite Hst, Hev, recorded_events; [by rewrite decide_True|].
      destruct (sv_peer_events s !! id) eqn:Hid; simpl; [by apply (vo_events _ Hok _ _ Hid)|lia]. }
  assert (Hflat : forall {A} (f : A -> string) l, flat_map (fun a => [f a]) l = map f l) by (intros A f l; induction l; simpl; by f_equal).
  assert (Hnil : forall {A} (l : list A), flat_map (fun _ => @nil string) l = []) by (intros A l; by induction l).
  unfold applyCleanup. apply wp_bind. eapply wp_mono; [|apply (for_each_frees (fun q => [sqm_shm_name q]) (fun _ => [])); [done|]].
  2: { intros q s0 H0. apply wp_bind. eapply wp_mono; [|by apply recover_and_close_frees]. intros [] s1 F1.
       eapply wp_mono; [|apply unlink_shm_name_frees, F1]. intros [] s2 F2. exact (frees_trans _ _ _ _ _ _ _ F1 F2). }
  intros [] s1 F1. apply wp_bind. eapply wp_mono; [|apply (for_each_frees (fun p => [spm_shm_name p]) (fun _ => [])); [apply F1|]].
  2: { intros p s0 H0. by apply unlink_shm_name_frees. }
  intros [] s2 F2. apply wp_bind. eapply wp_mono; [|apply (for_each_frees (fun _ => []) (fun p => [p])); [apply F2|]].
  2: { intros p s0 H0. by apply unlinkSocketPath_frees. }
  intros [] s3 F3. eapply wp_mono; [|apply applyCleanup_events, F3]. intros [] s' Hs'. exists s3. split; [|done].
  pose proof (frees_trans _ _ _ _ _ _ _ (frees_trans _ _ _ _ _ _ _ F1 F2) F3) as F. rewrite !Hflat, !Hnil, map_id, app_nil_r in F. exact F.
Qed.

(** Node 2 died: its socket was left behind, and node 1 must be told. *)
Definition viewer_cleanup : DeadNodeCleanup := mkDeadNodeCleanup 2 2 2 0 [] [] ["/run/viewer"; "/etc/passwd"] [example_event].
Definition leave_files (o : Os) : Os := o <| os_files := <["/run/viewer" := true]> {["/etc/passwd" := false]} |>.
Definition littered_server : ServerState :=
  let s := waiting_server (registry_after advertise_ops) in s <| sv_os := leave_files (sv_os s) |>.

Lemma cleanup_releases_and_tells_peers_witness : exists s', runs (applyCleanup viewer_cleanup) littered_server tt s' /\
  os_files (sv_os s') !! "/run/viewer" = None /\ os_files (sv_os s') !! "/etc/passwd" = Some false /\
  default [] (sv_peer_events s' !! 1) = [example_event].
Proof.
  destruct (cleanup_releases_and_tells_peers viewer_cleanup littered_server) as (s' & Hrun & _ & _ & _ & Hf & _ & _ & Hev).
  { exact (dp_ok _ _ (proj1 (set_os_cleaned leave_files _ (waiting_server_ok _ advertise_ops_ok) (fun o => conj eq_refl (conj eq_refl eq_refl))))). }
  exists s'. split; [exact Hrun|]. rewrite !Hf, Hev; [by vm_compute|done|vm_compute; eauto].
Defined.
