(* ===== verification/ServerStreams.v ===== *)
(** * Registry server: byte streams

    The frame loop and the read loop of the server against a reference that splits the byte stream
    of a client into requests: what is served, in which order, and when a connection is refused,
    however the kernel cuts the stream into pieces. *)

From Stdlib Require Import ZArith Lia Bool String.
From stdpp Require Import base gmap list strings option.
From S2P Require Import Prelude Types Outcome BigEndian ControlProtocol SocketIo SubscriberQueue PublisherState PublisherInvariant SubscriberInvariant UnixListener RegistryState RegistryInvariant RegistryOps RegistryInterface RegistryNames RegistryServer ServerInvariant ServerRequests ServerCleanup ServerLoop ServerTheorems.

Local Open Scope Z_scope.

(** ** Frames *)















(** ** Pieces *)












