(* ===== verification/RegistryClient.v ===== *)
(** * Registry client

    [RegistryClient] of [middleware/src/detail/registry_client.{hpp,cpp}]: requests to the registry
    over a Unix socket, the wait for a response until a deadline, and the parsing of the
    response bodies. *)

From Stdlib Require Import ZArith Lia Bool String.
From stdpp Require Import base list strings option.
From S2P Require Import Prelude Types Outcome BigEndian ControlProtocol QueueProtocol SocketIo PublisherState.

Local Open Scope Z_scope.

(** ** Structures *)

Record RegistryConfig := mkRegistryConfig {
  rf_socket_path : string;
  rf_request_timeout : Z;
  rf_liveness : LivenessConfig;
}.

Record RegistryNodeInfo := mkRegistryNodeInfo {
  ni_node_id : Z;
  ni_node_name : string;
  ni_liveness : LivenessState;
}.

Record RegistryRegistration := mkRegistryRegistration {
  rr_node_id : Z;
  rr_session_id : Z;
}.

Record HeartbeatResponse := mkHeartbeatResponse {
  hb_state : LivenessState;
  hb_events : list RegistryPeerEvent;
}.

Record RegistryTopicInfo := mkRegistryTopicInfo {
  ti_topic_id : Z;
  ti_topic_name : string;
  ti_type_name : string;
  ti_type_hash : string;
  ti_transport : TransportType;
  ti_max_message_size : Z;
  ti_publisher_count : Z;
  ti_subscriber_count : Z;
  ti_pool : PoolDescriptor;
}.

Record RegistryStatsInfo := mkRegistryStatsInfo {
  si_node_count : Z;
  si_topic_count : Z;
  si_publisher_count : Z;
  si_subscriber_count : Z;
  si_heartbeat_received : Z;
  si_suspected_count : Z;
  si_dead_node_count : Z;
}.

(** The socket is its descriptor, if it is open; the timeout is in milliseconds. *)
Record RegistryClient := mkRegistryClient {
  rc_socket : option Z;
  rc_request_timeout : Z;
  rc_next_request_id : Z;
}.
#[export] Instance RegistryClient_eta : Eta RegistryClient := fun c =>
  mkRegistryClient (rc_socket c) (rc_request_timeout c) (rc_next_request_id c).

(** ** Surroundings *)

(** One return of [poll]: what arrived meanwhile, the result, [errno], and whether [revents]
    has [POLLNVAL]. *)
Record poll_return := mkPollReturn {
  po_arrives : list incoming;
  po_result : Z;
  po_errno : Z;
  po_invalid : bool;
}.

(** The client's end of the connection: its socket, the returns of [poll] to come, the
    readings of the steady clock to come (then [ln_time]), in nanoseconds, and whether the
    registry has stopped reading. *)
Record Link := mkLink {
  ln_socket : socket;
  ln_polls : list poll_return;
  ln_times : list Z;
  ln_time : Z;
  ln_stalled : bool;
}.
#[export] Instance Link_eta : Eta Link := fun k => mkLink (ln_socket k) (ln_polls k) (ln_times k) (ln_time k) (ln_stalled k).

Record ClientState := mkClientState { cs_client : RegistryClient; cs_link : Link }.
#[export] Instance ClientState_eta : Eta ClientState := fun s => mkClientState (cs_client s) (cs_link s).

Abbreviation client := (cpp ClientState).

Definition set_registry_client (f : RegistryClient -> RegistryClient) : client unit :=
  modify (fun s => s <| cs_client := f (cs_client s) |>).
Definition set_link (f : Link -> Link) : client unit := modify (fun s => s <| cs_link := f (cs_link s) |>).

Definition steady_now : client Z :=
  s ← this;
  match ln_times (cs_link s) with
  | [] => mret (ln_time (cs_link s))
  | time :: more => set_link (fun k => k <| ln_times := more |>);; mret time
  end.

(** What arrived is read after what had arrived before. *)
Definition arrive (arrives : list incoming) (so : socket) : socket :=
  so <| so_incoming := so_incoming so ++ arrives |>.

(** [poll]: after the returns to come it reports what can be read, and otherwise waits until
    the timeout; without a timeout it then never returns, which has no outcome. *)
Definition poll (timeout : Z) : client poll_return :=
  s ← this;
  match ln_polls (cs_link s) with
  | answer :: more =>
      set_link (fun k => k <| ln_polls := more |> <| ln_socket := arrive (po_arrives answer) (ln_socket k) |>);;
      mret answer
  | [] =>
      match so_incoming (ln_socket (cs_link s)) with
      | _ :: _ => mret (mkPollReturn [] 1 0 false)
      | [] => if timeout <? 0 then undefined else mret (mkPollReturn [] 0 0 false)
      end
  end.

(** [recv(fd, destination, size, MSG_DONTWAIT)] *)
Definition recv_link (size : Z) : client (list Z + Z) :=
  s ← this;
  let '(answer, so) := recv_step size (ln_socket (cs_link s)) in
  set_link (fun k => k <| ln_socket := so |>);; mret answer.

(** How many times [send] returns: the socket is a blocking one, so when the registry has
    stopped reading, [send] waits for ever once the replies to come are used up. *)
Definition send_returns (k : Link) : nat :=
  let replies := length (so_replies (ln_socket k)) in if ln_stalled k then replies else S replies.

(** [writeAll(socket_.get(), data)], which has no outcome when [send] does not return. *)
Definition write_link (data : list Z) : client IoResult :=
  s ← this;
  let so := ln_socket (cs_link s) in
  match writeAll send_step (send_returns (cs_link s)) data so with
  | None => undefined
  | Some (result, so) => set_link (fun k => k <| ln_socket := so |>);; mret result
  end.

(** Bounds the number of returns of [poll] that are followed by anything but a timeout. *)
Definition link_size (k : Link) : nat :=
  (length (ln_polls k) + incoming_size (arrive (concat (map po_arrives (ln_polls k))) (ln_socket k)))%nat.

(** ** Waiting *)

Definition int_max : Z := 2 ^ 31 - 1.
Definition ns_per_ms : Z := 1000000.

(** A [std::chrono] duration of nanoseconds is a signed 64-bit number, whose overflow is
    undefined. *)
Definition nanoseconds (z : Z) : client Z :=
  if (- 2 ^ 63 <=? z) && (z <? 2 ^ 63) then mret z else undefined.

Definition remainingPollTimeout (deadline timeout : Z) : client Z :=
  if timeout <? 0 then mret (-1) else
  now ← steady_now;
  if deadline <=? now then mret 0 else
  remaining ← nanoseconds (deadline - now);
  padded ← nanoseconds (remaining + ns_per_ms);
  mret (Z.min ((padded - 1) ÷ ns_per_ms) int_max).

(** [std::chrono::hours{24 * 365 * 100}] in milliseconds. *)
Definition hundred_years : Z := 24 * 365 * 100 * 3600 * 1000.

Definition deadline_after (timeout : Z) : client Z :=
  now ← steady_now;
  wait ← nanoseconds ((if timeout <? 0 then hundred_years else timeout) * ns_per_ms);
  nanoseconds (now + wait).

(** [received]: the bytes stored at [destination] so far. *)
Fixpoint read_deadline_loop (fuel : nat) (size deadline timeout : Z) (received : list Z) : client (list Z) :=
  if Z.of_nat (length received) <? size then
    match fuel with
    | O => undefined
    | S fuel =>
        poll_timeout ← remainingPollTimeout deadline timeout;
        answer ← poll poll_timeout;
        if po_result answer =? 0 then throw (ex_middleware Timeout) else
        if po_result answer <? 0 then
          if po_errno answer =? EINTR then read_deadline_loop fuel size deadline timeout received
          else throw (ex_middleware Types.IoError)
        else
        if po_invalid answer then throw (ex_middleware ConnectionLost) else
        bytes ← recv_link (size - Z.of_nat (length received));
        match bytes with
        | inl ((_ :: _) as bytes) => read_deadline_loop fuel size deadline timeout (received ++ bytes)
        | inl [] => throw (ex_middleware ConnectionLost)
        | inr errno =>
            if (errno =? EINTR) || (errno =? EAGAIN) then read_deadline_loop fuel size deadline timeout received else
            if (errno =? ECONNRESET) || (errno =? ENOTCONN) then throw (ex_middleware ConnectionLost)
            else throw (ex_middleware Types.IoError)
        end
    end
  else mret received.

Definition readWithDeadline (size timeout : Z) : client (list Z) :=
  deadline ← deadline_after timeout;
  s ← this;
  read_deadline_loop (S (link_size (cs_link s))) size deadline timeout [].

(** ** Frames *)

Definition receiveFrame (timeout : Z) : client ControlFrame :=
  encoded_header ← readWithDeadline (Z.of_nat kControlHeaderSize) timeout;
  match decodeControlHeader (Some encoded_header) with
  | None => throw (ex_middleware InvalidControlMessage)
  | Some header =>
      match validateControlHeader header with
      | ControlBadMagic => throw (ex_middleware InvalidControlMessage)
      | ControlUnsupportedVersion => throw (ex_middleware UnsupportedProtocolVersion)
      | ControlPayloadTooLarge => throw (ex_middleware MessageTooLarge)
      | ControlValid =>
          payload ← readWithDeadline (ctl_payload_size header) timeout;
          mret (mkControlFrame header payload)
      end
  end.

Definition request (opcode : Opcode) (payload : list Z) (timeout : Z) : client (list Z) :=
  c ← gets cs_client;
  match rc_socket c with
  | None => throw (ex_middleware ConnectionLost)
  | Some _ =>
      if rc_next_request_id c =? 0 then throw (ex_middleware InvalidState) else
      let request_id := rc_next_request_id c in
      set_registry_client (fun c => c <| rc_next_request_id := wrap 32 (request_id + 1) |>);;
      frame ← lift (encodeControlFrame opcode request_id payload);
      write_result ← write_link frame;
      if negb (bool_decide (io_status write_result = IoComplete)) then
        set_registry_client (fun c => c <| rc_socket := None |>);;
        throw (ex_middleware (if bool_decide (io_status write_result = IoClosed) then ConnectionLost else Types.IoError))
      else
      response ← receiveFrame timeout;
      if negb (bool_decide (ctl_opcode (cf_header response) = Response)) then throw (ex_middleware InvalidControlMessage) else
      if negb (ctl_request_id (cf_header response) =? request_id) then throw (ex_middleware InvalidRequestId) else
      envelope ← lift (decodeResponsePayload (cf_payload response));
      match envelope with
      | None => throw (ex_middleware InvalidControlMessage)
      | Some envelope =>
          if negb (is_ok (env_error envelope)) then throw (ex_middleware (env_error envelope))
          else mret (env_body envelope)
      end
  end.

(** ** Response bodies

    A chain of reads that stops at the first failure, with the exception that every reader of
    a body throws. *)

Fixpoint read_fields (ks : list field_kind) : cpp PayloadReader (option (list field)) :=
  match ks with
  | [] => mret (Some [])
  | k :: ks =>
      f ← read_field_kind k;
      match f with
      | None => mret None
      | Some f => fs ← read_fields ks; mret (cons f <$> fs)
      end
  end.

Definition malformed {S A} : cpp S A := throw (ex_middleware InvalidControlMessage).

Definition fields_or_malformed (ks : list field_kind) : cpp PayloadReader (list field) :=
  fields ← read_fields ks;
  match fields with Some fields => mret fields | None => malformed end.

(** [!reader.empty()] *)
Definition no_trailing_data : cpp PayloadReader unit :=
  r ← this; if reader_empty r then mret tt else malformed.

(** The [for] loop over the entries of a list; an entry takes at least one byte, so the
    length of the body is enough fuel. *)
Fixpoint read_entries {A} (fuel : nat) (entry : cpp PayloadReader A) (count : Z) : cpp PayloadReader (list A) :=
  if count <=? 0 then mret [] else
  match fuel with
  | O => undefined
  | S fuel => a ← entry; rest ← read_entries fuel entry (count - 1); mret (a :: rest)
  end.

Definition parse_body {A} (reader : cpp PayloadReader A) (body : list Z) : outcome A := fst (reader (reader_of body)).

Definition checkedSize {S} (value : Z) : cpp S Z :=
  if size_max <? value then malformed else mret value.

Definition registration_reader : cpp PayloadReader RegistryRegistration :=
  fields ← fields_or_malformed [KU64; KU64];
  match fields with
  | [FU64 node_id; FU64 session_id] =>
      if (node_id =? 0) || (session_id =? 0) then malformed else
      no_trailing_data;; mret (mkRegistryRegistration node_id session_id)
  | _ => undefined
  end.
Definition readRegistration (body : list Z) : outcome RegistryRegistration := parse_body registration_reader body.

Definition endpoint_reader : cpp PayloadReader RegistryEndpoint :=
  fields ← fields_or_malformed [KU64; KU64; KStr; KU64; KU64; KU16];
  match fields with
  | [FU64 topic_id; FU64 endpoint_id; FStr shm_name; FU64 pool_id; FU64 segment_size; FU16 layout_version] =>
      no_trailing_data;;
      mret (mkRegistryEndpoint topic_id endpoint_id (mkPoolDescriptor shm_name pool_id segment_size topic_id layout_version))
  | _ => undefined
  end.
Definition readEndpoint (body : list Z) : outcome RegistryEndpoint := parse_body endpoint_reader body.

(** [static_cast<PeerEventKind>(kind)] where the value is one of the two. *)
Definition PeerKind_of_u16 (kind : Z) : option PeerKind :=
  match kind with 1 => Some PeerPublisherDead | 2 => Some PeerSubscriberDead | _ => None end.

Definition event_reader : cpp PayloadReader RegistryPeerEvent :=
  fields ← fields_or_malformed [KU16; KU64; KU64; KU64; KU64];
  match fields with
  | [FU16 kind; FU64 target_endpoint_id; FU64 dead_endpoint_id; FU64 topic_id; FU64 resource_id] =>
      match PeerKind_of_u16 kind with
      | None => malformed
      | Some kind => mret (mkRegistryPeerEvent kind target_endpoint_id dead_endpoint_id topic_id resource_id)
      end
  | _ => undefined
  end.

Definition alive_or_suspected (state : LivenessState) : bool :=
  bool_decide (state = Alive) || bool_decide (state = Suspected).

Definition heartbeat_reader (size : nat) : cpp PayloadReader HeartbeatResponse :=
  fields ← fields_or_malformed [KU16; KU32];
  match fields with
  | [FU16 state; FU32 count] =>
      if negb (alive_or_suspected (LivenessState_of_u16 state)) then malformed else
      events ← read_entries size event_reader count;
      no_trailing_data;; mret (mkHeartbeatResponse (LivenessState_of_u16 state) events)
  | _ => undefined
  end.

Definition subscriber_reader : cpp PayloadReader RegistrySubscriber :=
  fields ← fields_or_malformed [KU64; KStr; KU64; KStr; KU64; KU64; KU32; KU16];
  more ← fields_or_malformed [KU16; KU64];
  match fields, more with
  | [FU64 endpoint_id; FStr data_socket_path; FU64 max_message_size; FStr shm_name; FU64 queue_id; FU64 segment_size;
     FU32 capacity; FU16 layout_version], [FU16 overflow_policy; FU64 block_timeout_ms] =>
      max_message_size ← checkedSize max_message_size;
      mret (mkRegistrySubscriber endpoint_id data_socket_path max_message_size
        (mkQueueDescriptor shm_name queue_id segment_size capacity layout_version
          (OverflowPolicy_of_u16 overflow_policy) block_timeout_ms))
  | _, _ => undefined
  end.

Definition discovery_reader (size : nat) : cpp PayloadReader RegistryDiscovery :=
  fields ← fields_or_malformed [KU64; KU16; KStr; KU64; KU64; KU16; KU32];
  match fields with
  | [FU64 topic_id; FU16 transport; FStr shm_name; FU64 pool_id; FU64 segment_size; FU16 layout_version; FU32 count] =>
      subscribers ← read_entries size subscriber_reader count;
      match subscribers with
      | [] => malformed
      | _ =>
          no_trailing_data;;
          mret (mkRegistryDiscovery topic_id (TransportType_of_u16 transport)
            (mkPoolDescriptor shm_name pool_id segment_size topic_id layout_version) subscribers)
      end
  | _ => undefined
  end.

Definition node_reader : cpp PayloadReader RegistryNodeInfo :=
  fields ← fields_or_malformed [KU64; KStr; KU16];
  match fields with
  | [FU64 node_id; FStr node_name; FU16 liveness] =>
      if negb (alive_or_suspected (LivenessState_of_u16 liveness)) then malformed
      else mret (mkRegistryNodeInfo node_id node_name (LivenessState_of_u16 liveness))
  | _ => undefined
  end.

Definition topic_reader : cpp PayloadReader RegistryTopicInfo :=
  fields ← fields_or_malformed [KU64; KStr];
  match fields with
  | [FU64 topic_id; FStr topic_name] =>
      mret (mkRegistryTopicInfo topic_id topic_name "" "" UnixDomainSocket 0 0 0 empty_PoolDescriptor)
  | _ => undefined
  end.

Definition list_reader {A} (size : nat) (entry : cpp PayloadReader A) : cpp PayloadReader (list A) :=
  fields ← fields_or_malformed [KU32];
  match fields with
  | [FU32 count] => entries ← read_entries size entry count; no_trailing_data;; mret entries
  | _ => undefined
  end.

Definition topic_info_reader : cpp PayloadReader RegistryTopicInfo :=
  fields ← fields_or_malformed [KU64; KStr; KStr; KStr; KU16; KU64; KU64; KU64; KStr; KU64; KU64; KU16];
  match fields with
  | [FU64 topic_id; FStr topic_name; FStr type_name; FStr type_hash; FU16 transport; FU64 max_message_size;
     FU64 publisher_count; FU64 subscriber_count; FStr shm_name; FU64 pool_id; FU64 segment_size; FU16 layout_version] =>
      no_trailing_data;;
      max_message_size ← checkedSize max_message_size;
      publisher_count ← checkedSize publisher_count;
      subscriber_count ← checkedSize subscriber_count;
      mret (mkRegistryTopicInfo topic_id topic_name type_name type_hash (TransportType_of_u16 transport)
        max_message_size publisher_count subscriber_count
        (mkPoolDescriptor shm_name pool_id segment_size topic_id layout_version))
  | _ => undefined
  end.

Definition stats_reader : cpp PayloadReader RegistryStatsInfo :=
  fields ← fields_or_malformed [KU64; KU64; KU64; KU64; KU64; KU64; KU64];
  match fields with
  | [FU64 node_count; FU64 topic_count; FU64 publisher_count; FU64 subscriber_count; FU64 heartbeat_received;
     FU64 suspected_count; FU64 dead_node_count] =>
      no_trailing_data;;
      mret (mkRegistryStatsInfo node_count topic_count publisher_count subscriber_count heartbeat_received
        suspected_count dead_node_count)
  | _ => undefined
  end.

(** ** Methods *)

(** [RegistryClient(config)]; [answer] is what the kernel answers to [socket] and [connect]. *)
Definition create_client (answer : connect_answer) (config : RegistryConfig) : outcome RegistryClient :=
  if string_size (rf_socket_path config) =? 0 then Throw (ex_middleware InvalidArgument) else
  if rf_request_timeout config <=? 0 then Throw (ex_middleware InvalidArgument) else
  if negb (validLivenessConfig (rf_liveness config)) then Throw (ex_middleware InvalidArgument) else
  match connectUnixSocket answer (rf_socket_path config) with
  | Ret fd => Ret (mkRegistryClient (Some fd) (rf_request_timeout config) 1)
  | Throw (ex_system_error _) => Throw (ex_middleware RegistryUnavailable)
  | Throw e => Throw e
  | Undef => Undef
  end.

(** A request whose payload is the fields written one after the other. *)
Definition ask (opcode : Opcode) (fields : list field) : client (list Z) :=
  payload ← lift (write_body fields);
  timeout ← gets (fun s => rc_request_timeout (cs_client s));
  request opcode payload timeout.

Definition registerNode (node_name : string) : client RegistryRegistration :=
  body ← ask RegisterNode [FStr node_name];
  lift (readRegistration body).

Definition unregisterNode (node_id : Z) : client unit :=
  ask UnregisterNode [FU64 node_id];; mret tt.

Definition attachHeartbeat (node_id session_id : Z) : client unit :=
  ask AttachHeartbeat [FU64 node_id; FU64 session_id];; mret tt.

Definition heartbeat (node_id session_id : Z) : client HeartbeatResponse :=
  body ← ask Heartbeat [FU64 node_id; FU64 session_id];
  lift (parse_body (heartbeat_reader (length body)) body).

Definition advertise (node_id : Z) (topic_name type_name type_hash : string) (max_message_size : Z)
    (transport : TransportType) (pool : PoolDescriptor) : client RegistryEndpoint :=
  body ← ask AdvertiseTopic [FU64 node_id; FStr topic_name; FStr type_name; FStr type_hash; FU64 max_message_size;
    FU16 (TransportType_to_u16 transport); FStr (pd_shm_name pool); FU64 (pd_pool_id pool); FU64 (pd_segment_size pool);
    FU16 (pd_layout_version pool)];
  lift (readEndpoint body).

Definition unadvertise (node_id endpoint_id : Z) : client unit :=
  ask UnadvertiseTopic [FU64 node_id; FU64 endpoint_id];; mret tt.

Definition subscribe (node_id : Z) (topic_name type_name type_hash : string) (max_message_size : Z)
    (data_socket_path : string) (transport : TransportType) (queue : QueueDescriptor) : client RegistryEndpoint :=
  body ← ask SubscribeTopic [FU64 node_id; FStr topic_name; FStr type_name; FStr type_hash; FU64 max_message_size;
    FStr data_socket_path; FU16 (TransportType_to_u16 transport); FStr (qd_shm_name queue); FU64 (qd_queue_id queue);
    FU64 (qd_segment_size queue); FU32 (qd_capacity queue); FU16 (qd_layout_version queue);
    FU16 (OverflowPolicy_to_u16 (qd_overflow_policy queue)); FU64 (qd_block_timeout_ms queue)];
  lift (readEndpoint body).

Definition unsubscribe (node_id endpoint_id : Z) : client unit :=
  ask UnsubscribeTopic [FU64 node_id; FU64 endpoint_id];; mret tt.

(** The only request that waits without a deadline. *)
Definition resolve (node_id publisher_endpoint_id : Z) : client RegistryDiscovery :=
  payload ← lift (write_body [FU64 node_id; FU64 publisher_endpoint_id]);
  body ← request ResolveEndpoint payload (-1);
  lift (parse_body (discovery_reader (length body)) body).

Definition listNodes : client (list RegistryNodeInfo) :=
  body ← ask ListNodes [];
  lift (parse_body (list_reader (length body) node_reader) body).

Definition listTopics : client (list RegistryTopicInfo) :=
  body ← ask ListTopics [];
  lift (parse_body (list_reader (length body) topic_reader) body).

Definition queryTopic (topic_name : string) : client RegistryTopicInfo :=
  body ← ask QueryTopic [FStr topic_name];
  lift (parse_body topic_info_reader body).

Definition queryStats : client RegistryStatsInfo :=
  body ← ask QueryStats [];
  lift (parse_body stats_reader body).
