(* ===== verification/RegistrySession.v ===== *)
(** * Registry session

    [RegistrySession] of [middleware/src/detail/registry_client.{hpp,cpp}]: a registered node with
    its control connection, the connection and thread that send heartbeats, and the peer events
    the heartbeats bring.  The thread is a state machine whose steps are interleaved with the
    calls of the application: each step is one critical section, or one request on the
    heartbeat connection, which only the thread uses. *)

From Stdlib Require Import ZArith Lia Bool String.
From stdpp Require Import base list strings option.
From S2P Require Import Prelude Types Outcome PublisherState SubscriberState RegistryClient.

Local Open Scope Z_scope.

(** ** State *)

(** Where [heartbeatLoop] is: waiting for the interval to pass, about to send a heartbeat, about
    to record the events of a response, or done. *)
Inductive heartbeat_phase :=
  | HeartbeatWaiting
  | HeartbeatSending
  | HeartbeatReceived (events : list RegistryPeerEvent)
  | HeartbeatFinished.

(** [ss_heartbeat_thread]: [None] is a thread that is not joinable. *)
Record RegistrySession := mkRegistrySession {
  ss_client : ClientState;
  ss_config : RegistryConfig;
  ss_node_id : Z;
  ss_session_id : Z;
  ss_heartbeat_client : option ClientState;
  ss_heartbeat_thread : option heartbeat_phase;
  ss_stop_heartbeat : bool;
  ss_peer_events : list RegistryPeerEvent;
}.
#[export] Instance RegistrySession_eta : Eta RegistrySession := fun s =>
  mkRegistrySession (ss_client s) (ss_config s) (ss_node_id s) (ss_session_id s) (ss_heartbeat_client s)
    (ss_heartbeat_thread s) (ss_stop_heartbeat s) (ss_peer_events s).

Abbreviation session := (cpp RegistrySession).

(** [client_.method()] and [heartbeat_client_->method()] *)
Definition on_client {A} (method : client A) : session A := fun s =>
  let '(r, c) := method (ss_client s) in (r, s <| ss_client := c |>).
Definition on_heartbeat_client {A} (method : client A) : session A := fun s =>
  match ss_heartbeat_client s with
  | None => (Undef, s)
  | Some c => let '(r, c') := method c in (r, s <| ss_heartbeat_client := Some c' |>)
  end.

(** [try { ... } catch (...) {}] *)
Definition ignore_errors {S A} (c : cpp S A) : cpp S unit := fun s =>
  match c s with
  | (Undef, s') => (Undef, s')
  | (_, s') => (Ret tt, s')
  end.

(** [try { ... } catch (...) { handler; throw; }] *)
Definition on_error {S A} (c : cpp S A) (handler : cpp S unit) : cpp S A := fun s =>
  match c s with
  | (Throw e, s') => match handler s' with (Ret _, s'') => (Throw e, s'') | (Throw e', s'') => (Throw e', s'') | (Undef, s'') => (Undef, s'') end
  | r => r
  end.

(** ** Construction and destruction *)

(** The surroundings of a session: what the kernel answers to the two connections, their ends,
    and the [errno] of a failed start of the thread. *)
Record session_env := mkSessionEnv {
  se_connect : connect_answer;
  se_link : Link;
  se_heartbeat_connect : connect_answer;
  se_heartbeat_link : Link;
  se_thread : option Z;
}.

(** The body of the [try] block. *)
Definition start_heartbeat (env : session_env) : session unit :=
  s ← this;
  heartbeat_client ← lift (create_client (se_heartbeat_connect env) (ss_config s));
  modify (fun s => s <| ss_heartbeat_client := Some (mkClientState heartbeat_client (se_heartbeat_link env)) |>);;
  on_heartbeat_client (attachHeartbeat (ss_node_id s) (ss_session_id s));;
  match se_thread env with
  | Some errno => throw (ex_system_error errno)
  | None => modify (fun s => s <| ss_heartbeat_thread := Some HeartbeatWaiting |>)
  end.

Definition construct (env : session_env) (node_name : string) : session unit :=
  registration ← on_client (registerNode node_name);
  modify (fun s => s <| ss_node_id := rr_node_id registration |> <| ss_session_id := rr_session_id registration |>);;
  on_error (start_heartbeat env)
    (s ← this;
     ignore_errors (on_client (unregisterNode (ss_node_id s)));;
     modify (fun s => s <| ss_node_id := 0 |> <| ss_session_id := 0 |>)).

(** The destructor of a client closes its socket. *)
Definition close_client (c : ClientState) : ClientState := c <| cs_client := cs_client c <| rc_socket := None |> |>.
Definition destroy_members (s : RegistrySession) : RegistrySession :=
  s <| ss_client := close_client (ss_client s) |> <| ss_heartbeat_client := None |>.

(** [RegistrySession(node_name, config)]; after an exception the members that were constructed are
    destroyed. *)
Definition create_session (env : session_env) (node_name : string) (config : RegistryConfig) : outcome unit * option RegistrySession :=
  match create_client (se_connect env) config with
  | Throw e => (Throw e, None)
  | Undef => (Undef, None)
  | Ret c =>
      match construct env node_name (mkRegistrySession (mkClientState c (se_link env)) config 0 0 None None false []) with
      | (Ret _, s) => (Ret tt, Some s)
      | (o, s) => (o, Some (destroy_members s))
      end
  end.

(** ** Heartbeats *)

#[export] Instance PeerKind_eq_dec : EqDecision PeerKind.
Proof. solve_decision. Defined.

Definition same_event (existing event : RegistryPeerEvent) : bool :=
  bool_decide (re_kind existing = re_kind event) && (re_target_endpoint_id existing =? re_target_endpoint_id event) &&
  (re_dead_endpoint_id existing =? re_dead_endpoint_id event).

Definition kMaxPendingPeerEvents : nat := 4096.

(** A new event is appended; when there are too many the oldest is dropped. *)
Definition record_event (pending : list RegistryPeerEvent) (event : RegistryPeerEvent) : list RegistryPeerEvent :=
  if existsb (fun existing => same_event existing event) pending then pending else
  (if (length pending =? kMaxPendingPeerEvents)%nat then tail pending else pending) ++ [event].

(** One step of [heartbeatLoop]; a wait ends because the loop is to stop or because the interval
    has passed. *)
Definition heartbeat_step : session unit :=
  s ← this;
  match ss_heartbeat_thread s with
  | None | Some HeartbeatFinished => mret tt
  | Some HeartbeatWaiting =>
      modify (fun s => s <| ss_heartbeat_thread := Some (if ss_stop_heartbeat s then HeartbeatFinished else HeartbeatSending) |>)
  | Some HeartbeatSending =>
      fun s =>
        match on_heartbeat_client (heartbeat (ss_node_id s) (ss_session_id s)) s with
        | (Ret response, s) =>
            (Ret tt, s <| ss_heartbeat_thread := Some
               (match hb_events response with [] => HeartbeatWaiting | events => HeartbeatReceived events end) |>)
        | (Throw _, s) => (Ret tt, s <| ss_heartbeat_thread := Some HeartbeatFinished |>)
        | (Undef, s) => (Undef, s)
        end
  | Some (HeartbeatReceived events) =>
      modify (fun s => s <| ss_peer_events := fold_left record_event events (ss_peer_events s) |>
                         <| ss_heartbeat_thread := Some HeartbeatWaiting |>)
  end.

(** [heartbeat_thread_.join()] once the loop is to stop: it sends at most the heartbeat it was
    about to send, records its events, and sees that it is to stop. *)
Definition join_heartbeat : session unit :=
  heartbeat_step;; heartbeat_step;; heartbeat_step;;
  s ← this;
  match ss_heartbeat_thread s with
  | None => mret tt
  | Some HeartbeatFinished => modify (fun s => s <| ss_heartbeat_thread := None |>)
  | Some _ => undefined
  end.

(** [~RegistrySession()] *)
Definition destroy_session : session unit :=
  modify (fun s => s <| ss_stop_heartbeat := true |>);;
  join_heartbeat;;
  modify (fun s => s <| ss_heartbeat_client := None |>);;
  s ← this;
  (if negb (ss_node_id s =? 0) then ignore_errors (on_client (unregisterNode (ss_node_id s))) else mret tt);;
  modify destroy_members.

(** ** Calls of the application *)

Definition advertise (topic_name : string) (config : PublisherConfig) (pool : PoolDescriptor) : session RegistryEndpoint :=
  s ← this;
  on_client (RegistryClient.advertise (ss_node_id s) topic_name (pc_type_name config) (pc_type_hash config)
    (pc_max_message_size config) (pc_transport config) pool).

Definition unadvertise (endpoint_id : Z) : session unit :=
  s ← this; ignore_errors (on_client (RegistryClient.unadvertise (ss_node_id s) endpoint_id)).

Definition subscribe (topic_name : string) (config : SubscriberConfig) (queue : QueueDescriptor) : session RegistryEndpoint :=
  s ← this;
  on_client (RegistryClient.subscribe (ss_node_id s) topic_name (uc_type_name config) (uc_type_hash config)
    (uc_max_message_size config) (uc_socket_path config) (uc_transport config) queue).

Definition unsubscribe (endpoint_id : Z) : session unit :=
  s ← this; ignore_errors (on_client (RegistryClient.unsubscribe (ss_node_id s) endpoint_id)).

Definition resolve (publisher_endpoint_id : Z) : session RegistryDiscovery :=
  s ← this; on_client (RegistryClient.resolve (ss_node_id s) publisher_endpoint_id).

(** The events of an endpoint, in the order they came, are handed over and forgotten. *)
Definition takePeerEvents (target_endpoint_id : Z) : session (list RegistryPeerEvent) :=
  s ← this;
  modify (fun s => s <| ss_peer_events := filter (fun event => re_target_endpoint_id event <> target_endpoint_id) (ss_peer_events s) |>);;
  mret (filter (fun event => re_target_endpoint_id event = target_endpoint_id) (ss_peer_events s)).
