(* ===== verification/ClientInvariant.v ===== *)
(** * Registry client: safety

    Whatever the registry sends, in whatever fragments and with whatever errors, a request ends:
    it returns or throws, and the state of the client stays well formed. *)

From Stdlib Require Import ZArith Lia Bool String.
From stdpp Require Import base list strings option.
From S2P Require Import Prelude Types Outcome BigEndian ControlProtocol QueueProtocol SocketIo PublisherState PublisherInvariant PublisherMethods SubscriberInvariant SubscriberMethods RegistryClient.

Local Open Scope Z_scope.

(** ** Methods that end

    [ends c s Q E]: the method returns with [Q] or throws with [E]. *)
Definition ends {S A} (c : cpp S A) (s : S) (Q : A -> S -> Prop) (E : exn -> S -> Prop) : Prop :=
  match c s with (Ret a, s') => Q a s' | (Throw e, s') => E e s' | (Undef, _) => False end.

Section ends.
Context {S A B : Type}.
Implicit Types (s : S) (Q : A -> S -> Prop) (E : exn -> S -> Prop).

Lemma ends_bind (c : cpp S A) (k : A -> cpp S B) s (Q : B -> S -> Prop) E :
  ends c s (fun a s' => ends (k a) s' Q E) E -> ends (c ≫= k) s Q E.
Proof. unfold ends, mbind, cpp_bind. by destruct (c s) as [[a|e|] s']. Qed.

Lemma ends_mono (c : cpp S A) s Q Q' E E' : (forall a s', Q a s' -> Q' a s') -> (forall e s', E e s' -> E' e s') ->
  ends c s Q E -> ends c s Q' E'.
Proof. unfold ends. intros HQ HE. destruct (c s) as [[a|e|] s']; auto. Qed.

Lemma ends_ret (a : A) s Q E : Q a s -> ends (mret a) s Q E.
Proof. done. Qed.

Lemma ends_throw e s Q E : E e s -> ends (throw e) s Q E.
Proof. done. Qed.

Lemma ends_lift (o : outcome A) s Q E : o <> Undef -> (forall a, o = Ret a -> Q a s) -> (forall e, o = Throw e -> E e s) ->
  ends (lift o) s Q E.
Proof. unfold ends, lift. destruct o; auto. Qed.

Lemma wp_ends (c : cpp S A) s Q Q' E : (forall a s', Q a s' -> Q' a s') -> wp c s Q -> ends c s Q' E.
Proof. unfold wp, ends. intros HQ. destruct (c s) as [[a|e|] s']; auto. done. Qed.
End ends.

Lemma ends_modify {S} (f : S -> S) s (Q : unit -> S -> Prop) E : Q tt (f s) -> ends (modify f) s Q E.
Proof. done. Qed.

(** ** Readers of bodies *)

(** From any position in bytes the reader ends, having taken at least [n] of them; the only
    exception is that the body is malformed. *)
Definition reader_ends {A} (n : nat) (reader : cpp PayloadReader A) (Q : A -> Prop) : Prop :=
  forall r, Forall is_byte (rd_data r) -> reader_ok r ->
  ends reader r (fun a r' => Q a /\ rd_data r' = rd_data r /\ reader_ok r' /\ rd_offset r + Z.of_nat n <= rd_offset r')
    (fun e _ => e = ex_middleware InvalidControlMessage).

Lemma readString_advances s r r' : Forall is_byte (rd_data r) -> reader_ok r -> runs readString r (Some s) r' ->
  rd_offset r + 1 <= rd_offset r'.
Proof.
  intros Hb Hr. unfold runs, readString, readU32, mbind, cpp_bind.
  destruct (readUnsigned_spec 4 r Hr) as [[_ ->] | (Hlen & r1 & Hsome & Hr1 & Hd1 & Ho1)]; [done|]. rewrite Hsome.
  unfold this. set (n := decodeBigEndian 4 _).
  assert (0 <= n) by (eapply decodeBigEndian_fits; [by apply Forall_get_at | apply length_get_at; unfold reader_ok, data_size in *; lia]).
  pose proof (remaining_ok _ Hr1). destruct (remaining r1 <? n) eqn:Hn; [done|]. bools.
  destruct (advance_ok r1 n Hr1) as (r2 & Hadv & _ & _ & Ho2); [lia|].
  rewrite read_at_Some by (unfold reader_ok, data_size in *; lia). cbn [or_undef]. unfold mret, cpp_ret. rewrite Hadv.
  intros [= _ <-]. lia.
Qed.

Lemma read_field_kind_advances k f r r' : Forall is_byte (rd_data r) -> reader_ok r ->
  runs (read_field_kind k) r (Some f) r' -> kind_of f = k /\ rd_offset r + 1 <= rd_offset r'.
Proof.
  intros Hb Hr. destruct k; unfold runs, read_field_kind, readU16, readU32, readU64, mbind, cpp_bind.
  1-3: match goal with |- context [readUnsigned ?n ?x] =>
         destruct (readUnsigned_spec n x Hr) as [[_ ->] | (_ & r1 & Hsome & _ & _ & Ho)]; [done|rewrite Hsome] end;
       unfold mret, cpp_ret; intros [= <- <-]; split; [done|lia].
  destruct (readString r) as [[[x|]| |] ?] eqn:Hx; unfold mret, cpp_ret; intros [= <- <-]. split; [done|].
  by eapply readString_advances.
Qed.

Lemma read_fields_ends ks r : Forall is_byte (rd_data r) -> reader_ok r ->
  wp (read_fields ks) r (fun fs r' => rd_data r' = rd_data r /\ reader_ok r' /\
    forall l, fs = Some l -> map kind_of l = ks /\ rd_offset r + Z.of_nat (length ks) <= rd_offset r').
Proof.
  revert r. induction ks as [|k ks IH]; intros r Hb Hr; cbn [read_fields].
  - apply wp_ret. split_and!; [done..|]. intros l [= <-]. split; [done|simpl; lia].
  - destruct (read_field_kind_ok k r Hb Hr) as (f & r1 & Hf & Hr1 & Hd1). apply wp_bind. unfold wp. rewrite Hf.
    destruct f as [f|]; [|done]. pose proof (read_field_kind_advances _ _ _ _ Hb Hr Hf) as [Hk Ho].
    apply wp_bind. eapply wp_mono; [|apply IH; [by rewrite Hd1|done]]. intros fs r2 (Hd2 & Hr2 & Hfs). apply wp_ret.
    split_and!; [congruence|done|]. destruct fs as [fs|]; [|done]. simpl. intros l [= <-]. destruct (Hfs fs eq_refl) as [Hks Hl].
    split; [simpl; congruence|]. simpl length. lia.
Qed.

Lemma fields_or_malformed_ends ks : reader_ends (length ks) (fields_or_malformed ks) (fun fs => map kind_of fs = ks).
Proof.
  intros r Hb Hr. unfold fields_or_malformed. apply ends_bind. pose proof (read_fields_ends ks r Hb Hr) as H. unfold wp, ends in *.
  destruct (read_fields ks r) as [[fs| |] r']; [|done|done]. destruct H as (Hd & Hr' & Hfs).
  destruct fs as [fs|]; [|done]. by destruct (Hfs fs eq_refl).
Qed.

Lemma reader_ends_bind {A B} n m (c : cpp PayloadReader A) (k : A -> cpp PayloadReader B) P Q :
  reader_ends n c P -> (forall a, P a -> reader_ends m (k a) Q) -> reader_ends (n + m) (c ≫= k) Q.
Proof.
  intros Hc Hk r Hb Hr. apply ends_bind. eapply ends_mono; [| |by apply Hc]; [|done].
  intros a r1 (Ha & Hd & Hr1 & Ho). eapply ends_mono; [| |apply (Hk a Ha); [by rewrite Hd|done]]; [|done].
  intros b r2 (Hb2 & Hd2 & Hr2 & Ho2). split_and!; [done|congruence|done|lia].
Qed.

Lemma reader_ends_ret {A} (a : A) (Q : A -> Prop) : Q a -> reader_ends 0 (mret a) Q.
Proof. intros Ha r Hb Hr. apply ends_ret. split_and!; [done..|lia]. Qed.

Lemma malformed_ends {A} n (Q : A -> Prop) : reader_ends n malformed Q.
Proof. by intros r Hb Hr. Qed.

Lemma no_trailing_data_ends : reader_ends 0 no_trailing_data (fun _ => True).
Proof. intros r Hb Hr. unfold no_trailing_data, ends, this. unfold_cpp. destruct (reader_empty r); [|done]. split_and!; [done..|lia]. Qed.

(** Fields of the kinds asked for, then the rest. *)
Lemma fields_then {A} ks m (k : list field -> cpp PayloadReader A) Q : (m <= length ks)%nat ->
  (forall fs, map kind_of fs = ks -> reader_ends 0 (k fs) Q) -> reader_ends m (fields_or_malformed ks ≫= k) Q.
Proof.
  intros Hm Hk r Hb Hr. apply ends_bind. eapply ends_mono; [| |by apply fields_or_malformed_ends]; [|done].
  intros fs r1 (Hfs & Hd & Hr1 & Ho). eapply ends_mono; [| |apply (Hk fs Hfs); [by rewrite Hd|done]]; [|done].
  intros b r2 (Hb2 & Hd2 & Hr2 & Ho2). split_and!; [done|congruence|done|lia].
Qed.

Lemma checkedSize_ends value : reader_ends 0 (checkedSize value) (fun _ => True).
Proof. unfold checkedSize. case_match; [apply malformed_ends | by apply reader_ends_ret]. Qed.

(** An entry takes a byte, so that there are at most as many entries as bytes are left. *)
Lemma read_entries_ends {A} (entry : cpp PayloadReader A) (Q : A -> Prop) : reader_ends 1 entry Q ->
  forall fuel count r, Forall is_byte (rd_data r) -> reader_ok r -> data_size r - rd_offset r < Z.of_nat fuel ->
  ends (read_entries fuel entry count) r
    (fun l r' => Forall Q l /\ rd_data r' = rd_data r /\ reader_ok r' /\ rd_offset r <= rd_offset r')
    (fun e _ => e = ex_middleware InvalidControlMessage).
Proof.
  intros Hentry. induction fuel as [|fuel IH]; intros count r Hb Hr Hfuel; cbn [read_entries];
    (destruct (count <=? 0); [apply ends_ret; split_and!; [constructor|done|done|lia]|]); [unfold reader_ok in Hr; lia|].
  apply ends_bind. eapply ends_mono; [| |by apply Hentry]; [|done]. intros a r1 (Ha & Hd1 & Hr1 & Ho1).
  apply ends_bind. eapply ends_mono; [| |apply IH; [by rewrite Hd1|done|unfold data_size in *; rewrite Hd1; lia]]; [|done].
  intros l r2 (Hl & Hd2 & Hr2 & Ho2). apply ends_ret. split_and!; [by constructor|congruence|done|lia].
Qed.



(** Takes a list of fields of known kinds apart. *)
Ltac split_fields :=
  repeat match goal with
  | H : map kind_of ?fs = _ |- _ => is_var fs; destruct fs as [|[] fs]; simplify_eq/=
  end.

Ltac reader_ends_tac :=
  repeat first
    [ apply malformed_ends | by apply reader_ends_ret | by apply no_trailing_data_ends | apply checkedSize_ends
    | apply fields_then; [simpl; lia | intros ? ?; split_fields]
    | apply (reader_ends_bind 0 0 _ _ (fun _ => True)); [|intros ? _]
    | match goal with
      | |- reader_ends _ (if ?x then _ else _) _ => destruct x
      | |- reader_ends _ (match ?x with _ => _ end) _ => destruct x
      end ].

Lemma registration_reader_ends : reader_ends 0 registration_reader (fun _ => True).
Proof. unfold registration_reader. reader_ends_tac. Qed.
Lemma endpoint_reader_ends : reader_ends 0 endpoint_reader (fun _ => True).
Proof. unfold endpoint_reader. reader_ends_tac. Qed.
Lemma event_reader_ends : reader_ends 1 event_reader (fun _ => True).
Proof. unfold event_reader. reader_ends_tac. Qed.
Lemma subscriber_reader_ends : reader_ends 1 subscriber_reader (fun _ => True).
Proof. unfold subscriber_reader. reader_ends_tac. Qed.
Lemma node_reader_ends : reader_ends 1 node_reader (fun _ => True).
Proof. unfold node_reader. reader_ends_tac. Qed.
Lemma topic_reader_ends : reader_ends 1 topic_reader (fun _ => True).
Proof. unfold topic_reader. reader_ends_tac. Qed.
Lemma topic_info_reader_ends : reader_ends 0 topic_info_reader (fun _ => True).
Proof. unfold topic_info_reader. reader_ends_tac. Qed.
Lemma stats_reader_ends : reader_ends 0 stats_reader (fun _ => True).
Proof. unfold stats_reader. reader_ends_tac. Qed.

(** The body is parsed, or it is malformed. *)
Definition parsed {A} (o : outcome A) : Prop :=
  match o with Ret _ => True | Throw e => e = ex_middleware InvalidControlMessage | Undef => False end.

Definition body_ok (body : list Z) : Prop := Forall is_byte body /\ Z.of_nat (length body) < 2 ^ 63.

Lemma body_reader_ok body : body_ok body -> reader_ok (reader_of body).
Proof. intros [_ Hl]. split; unfold data_size; simpl; lia. Qed.

Lemma parse_parsed {A} (reader : cpp PayloadReader A) Q body : body_ok body -> reader_ends 0 reader Q -> parsed (parse_body reader body).
Proof.
  intros Hb Hr. pose proof (Hr (reader_of body) (proj1 Hb) (body_reader_ok _ Hb)) as H. unfold parse_body, parsed, ends in *.
  by destruct (reader (reader_of body)) as [[a|e|] r'].
Qed.

(** A body that starts with a field, among others the count of the entries that follow. *)
Lemma counted_parsed {A B} (entry : cpp PayloadReader A) ks (k : list field -> cpp PayloadReader B) body :
  body_ok body -> (0 < length ks)%nat -> reader_ends 1 entry (fun _ => True) ->
  (forall fs, map kind_of fs = ks -> k fs = malformed \/
     exists count rest, k fs = read_entries (length body) entry count ≫= rest /\ forall l, reader_ends 0 (rest l) (fun _ => True)) ->
  parsed (parse_body (fields_or_malformed ks ≫= k) body).
Proof.
  intros Hb Hks Hentry Hk. enough (ends (fields_or_malformed ks ≫= k) (reader_of body) (fun _ _ => True) (fun e _ => e = ex_middleware InvalidControlMessage)) as H.
  { unfold parse_body, parsed, ends in *. by destruct ((fields_or_malformed ks ≫= k) (reader_of body)) as [[a|e|] r']. }
  apply ends_bind. eapply ends_mono; [| |apply (fields_or_malformed_ends ks); [exact (proj1 Hb)|by apply body_reader_ok]]; [|done].
  intros fs r1 (Hfs & Hd1 & Hr1 & Ho1). destruct (Hk fs Hfs) as [->|(count & rest & -> & Hrest)]; [done|].
  apply ends_bind. eapply ends_mono; [| |apply (read_entries_ends entry _ Hentry); [by rewrite Hd1; apply Hb|done|]]; [|done|].
  - intros l r2 (_ & Hd2 & Hr2 & _). eapply ends_mono; [| |apply (Hrest l); [rewrite Hd2, Hd1; apply Hb|done]]; done.
  - unfold data_size in *. rewrite Hd1. simpl in *. lia.
Qed.

Lemma heartbeat_parsed body : body_ok body -> parsed (parse_body (heartbeat_reader (length body)) body).
Proof.
  intros Hb. apply (counted_parsed event_reader); [done|simpl; lia|apply event_reader_ends|]. intros fs Hfs. split_fields.
  destruct (negb _); [by left|]. right. eexists _, _. split; [reflexivity|]. intros l. reader_ends_tac.
Qed.

Lemma discovery_parsed body : body_ok body -> parsed (parse_body (discovery_reader (length body)) body).
Proof.
  intros Hb. apply (counted_parsed subscriber_reader); [done|simpl; lia|apply subscriber_reader_ends|]. intros fs Hfs. split_fields.
  right. eexists _, _. split; [reflexivity|]. intros l. destruct l; reader_ends_tac.
Qed.

Lemma list_parsed {A} (entry : cpp PayloadReader A) body : reader_ends 1 entry (fun _ => True) -> body_ok body ->
  parsed (parse_body (list_reader (length body) entry) body).
Proof.
  intros He Hb. apply (counted_parsed entry); [done|simpl; lia|done|]. intros fs Hfs. split_fields.
  right. eexists _, _. split; [reflexivity|]. intros l. reader_ends_tac.
Qed.

(** ** The connection *)

(** Bytes arrive, the clock is in the range in which no deadline of a request overflows, and the
    registry reads what is sent to it, or closes the connection. *)
Definition clock_ok (time : Z) : Prop := 0 <= time < 2 ^ 61.
Record link_ok (k : Link) : Prop := {
  lk_bytes : Forall incoming_typed (so_incoming (ln_socket k));
  lk_polls : Forall (fun p => Forall incoming_typed (po_arrives p)) (ln_polls k);
  lk_times : Forall clock_ok (ln_time k :: ln_times k);
  lk_reads : ln_stalled k = false;
}.

(** A client that may use a connection: its timeout in nanoseconds is in range. *)
Record client_state_ok (s : ClientState) : Prop := {
  co_link : link_ok (cs_link s);
  co_timeout : 0 < rc_request_timeout (cs_client s) < 2 ^ 40;
  co_id : fits 32 (rc_next_request_id (cs_client s));
}.

(** The client is as before, and at most what was to come has come. *)
Definition same_client (s s' : ClientState) : Prop :=
  cs_client s' = cs_client s /\ link_ok (cs_link s') /\ (link_size (cs_link s') <= link_size (cs_link s))%nat /\
  so_sent (ln_socket (cs_link s')) = so_sent (ln_socket (cs_link s)).

#[export] Instance same_client_trans : Transitive same_client.
Proof. intros s1 s2 s3 (? & ? & ? & ?) (? & ? & ? & ?). split_and!; [congruence|done|lia|congruence]. Qed.

Lemma same_client_refl s : link_ok (cs_link s) -> same_client s s.
Proof. intros Hk. unfold same_client. by split_and!. Qed.

Lemma steady_now_ok s : link_ok (cs_link s) -> wp steady_now s (fun t s' => clock_ok t /\ same_client s s').
Proof.
  intros [Hb Hp Ht Hs]. unfold wp, steady_now. unfold_cpp. destruct s as [c [so polls times time stalled]]. simpl in *.
  apply Forall_cons_1 in Ht as [Ht Hts]. destruct times as [|t times]; simpl.
  - split; [done|]. split_and!; [done| |done|done]. split; [done|done|by constructor|done].
  - apply Forall_cons_1 in Hts as [Ht' Hts]. split; [done|]. split_and!; [done| |done|done]. split; [done|done|by constructor|done].
Qed.

Lemma nanoseconds_ok z s (Q : Z -> ClientState -> Prop) : - 2 ^ 63 <= z < 2 ^ 63 -> Q z s -> wp (nanoseconds z) s Q.
Proof. intros Hz HQ. unfold nanoseconds. rewrite (proj2 (Z.leb_le _ _)), (proj2 (Z.ltb_lt _ _)) by lia. done. Qed.

(** What a timeout of a request may be: none, or at most 2^40 milliseconds. *)
Definition timeout_ok (timeout : Z) : Prop := timeout < 2 ^ 40.
Definition deadline_ok (deadline : Z) : Prop := 0 <= deadline < 2 ^ 62 + 2 ^ 61.

Section deadlines.
Context (s : ClientState) (Q : ClientState -> Prop) (Hnow : wp steady_now s (fun t s' => clock_ok t /\ Q s')).

Lemma deadline_after_ok timeout : timeout_ok timeout -> wp (deadline_after timeout) s (fun d s' => deadline_ok d /\ Q s').
Proof using Hnow.
  unfold timeout_ok. intros Ht. unfold deadline_after. apply wp_bind. eapply wp_mono; [|exact Hnow].
  intros t s1 [Hc Hs]. unfold clock_ok in Hc.
  assert (0 <= (if timeout <? 0 then hundred_years else timeout) * ns_per_ms < 2 ^ 62).
  { unfold hundred_years, ns_per_ms. destruct (timeout <? 0) eqn:E; bools; lia. }
  apply wp_bind, nanoseconds_ok; [lia|]. apply nanoseconds_ok; [lia|]. split; [unfold deadline_ok; lia|done].
Qed.

Lemma remainingPollTimeout_ok deadline timeout : deadline_ok deadline -> Q s ->
  wp (remainingPollTimeout deadline timeout) s (fun t s' => (0 <= timeout -> 0 <= t) /\ Q s').
Proof using Hnow.
  unfold deadline_ok. intros Hd Hk. unfold remainingPollTimeout. destruct (timeout <? 0) eqn:E; bools.
  { apply wp_ret. split; [lia|done]. }
  apply wp_bind. eapply wp_mono; [|exact Hnow]. intros now s1 [Hc Hs]. unfold clock_ok in Hc.
  destruct (deadline <=? now) eqn:E1; bools; [by apply wp_ret|].
  apply wp_bind, nanoseconds_ok; [lia|]. apply wp_bind, nanoseconds_ok; [unfold ns_per_ms; lia|]. apply wp_ret. split; [|done].
  intros _. unfold int_max. apply Z.min_glb; [|lia]. apply Z.quot_pos; unfold ns_per_ms; lia.
Qed.
End deadlines.

Lemma incoming_size_arrive arrives so :
  incoming_size (arrive arrives so) = (incoming_size so + incoming_size (arrive arrives idle_socket))%nat.
Proof. unfold incoming_size, arrive. cbn [so_incoming update_with]. simpl. apply sum_list_with_app. Qed.

Lemma arrive_arrive xs ys so : arrive ys (arrive xs so) = arrive (xs ++ ys) so.
Proof. destruct so. unfold arrive, update_with. simpl. by rewrite app_assoc. Qed.

(** A return of [poll] is used up, or something can be read, or the time is over. *)
Lemma client_poll_ok t s : 0 <= t -> link_ok (cs_link s) ->
  wp (poll t) s (fun answer s' => same_client s s' /\
    ((link_size (cs_link s') < link_size (cs_link s))%nat \/ s' = s /\ (po_result answer = 0 \/ po_result answer = 1 /\ so_incoming (ln_socket (cs_link s)) <> []))).
Proof.
  intros Ht [Hb Hp Hts Hrd]. unfold wp, poll. unfold_cpp. destruct s as [c [so polls times time stalled]]. simpl in *.
  destruct polls as [|a polls].
  - destruct (so_incoming so) eqn:Hin; [rewrite (proj2 (Z.ltb_ge _ _)) by lia|];
      (split; [apply same_client_refl; by split; simpl; rewrite ?Hin | right; auto]).
  - apply Forall_cons_1 in Hp as [Ha Hp]. simpl. assert (Hsize : (link_size (mkLink (arrive (po_arrives a) so) polls times time stalled) < link_size (mkLink so (a :: polls) times time stalled))%nat).
    { unfold link_size. simpl. rewrite arrive_arrive. lia. }
    split; [|by left].
    split_and!; [done| |exact (Nat.lt_le_incl _ _ Hsize)|done]. split; simpl; [by apply Forall_app|done..].
Qed.

(** What has arrived is used up, unless nothing has. *)
Lemma recv_link_size n s : 0 < n -> wp (recv_link n) s (fun _ s' => (link_size (cs_link s') <= link_size (cs_link s))%nat /\
  (so_incoming (ln_socket (cs_link s)) <> [] -> (link_size (cs_link s') < link_size (cs_link s))%nat)).
Proof.
  intros Hn. unfold wp, recv_link. unfold_cpp. destruct s as [c [so polls times time stalled]]. simpl.
  assert (Hsize : forall so', (link_size (mkLink so' polls times time stalled) = length polls + incoming_size so' +
            incoming_size (arrive (concat (map po_arrives polls)) idle_socket))%nat).
  { intros so'. unfold link_size. simpl. rewrite incoming_size_arrive. lia. }
  pose proof (recv_step_spec n so Hn) as Hstep. destruct (recv_step n so) as [answer so'] eqn:Heq.
  assert (Hlt : (incoming_size so' < incoming_size so)%nat \/ so' = so /\ so_incoming so = []).
  { destruct answer as [bytes|e]; [left; apply Hstep|]. destruct Hstep as [?|[-> ->]]; [by left|]. right. split; [done|].
    unfold recv_step in Heq. destruct (so_incoming so) as [|[bytes|e] rest] eqn:Hso; [done|done|]. simplify_eq.
    apply (f_equal so_incoming) in H0. simpl in H0. rewrite Hso in H0. apply (f_equal length) in H0. simpl in H0. lia. }
  change (cs_link _) with (mkLink so' polls times time stalled). rewrite !Hsize. destruct Hlt as [?|[-> ?]]; split; [lia|lia|lia|done].
Qed.

Lemma recv_link_ok n s : 0 < n -> link_ok (cs_link s) ->
  wp (recv_link n) s (fun answer s' => same_client s s' /\
    match answer with inl bytes => Forall is_byte bytes /\ Z.of_nat (length bytes) <= n | inr _ => True end /\
    (so_incoming (ln_socket (cs_link s)) <> [] -> (link_size (cs_link s') < link_size (cs_link s))%nat)).
Proof.
  intros Hn [Hb Hp Hts Hrd]. pose proof (recv_link_size n s Hn) as Hprog. revert Hprog. unfold wp, recv_link. unfold_cpp.
  destruct s as [c [so polls times time stalled]]. simpl in *. pose proof (recv_step_typed n so Hb) as Hty.
  pose proof (recv_step_stream n so) as Hsent. pose proof (recv_step_spec n so Hn) as Hstep.
  destruct (recv_step n so) as [[bytes|e] so']; simpl in *; intros [Hle Hlt]; destruct Hsent as [Hsent _]; unfold sending_of in Hsent.
  - destruct Hty. split_and!; [|done|apply Hstep|done]. split_and!; [done|by split|done|simpl; congruence].
  - split_and!; [|done|done]. split_and!; [done|by split|done|simpl; congruence].
Qed.

(** ** Reading

    Every round uses up a return of [poll] or something that has arrived. *)
Lemma read_deadline_loop_ok size deadline timeout : 0 <= timeout -> deadline_ok deadline ->
  forall fuel received s, link_ok (cs_link s) -> Forall is_byte received -> Z.of_nat (length received) <= size ->
  (link_size (cs_link s) < fuel)%nat ->
  ends (read_deadline_loop fuel size deadline timeout received) s
    (fun bytes s' => same_client s s' /\ Forall is_byte bytes /\ Z.of_nat (length bytes) = size)
    (fun e s' => same_client s s' /\ exists code, e = ex_middleware code).
Proof.
  intros Ht Hd. induction fuel as [|fuel IH]; intros received s Hk Hb Hl Hf; [lia|]. cbn [read_deadline_loop].
  destruct (_ <? size) eqn:Hlt; bools; [|apply ends_ret; split_and!; [by apply same_client_refl|done|lia]].
  assert (Hrec : forall received s', same_client s s' -> Forall is_byte received -> Z.of_nat (length received) <= size ->
            (link_size (cs_link s') < link_size (cs_link s))%nat ->
            ends (read_deadline_loop fuel size deadline timeout received) s'
              (fun bytes s' => same_client s s' /\ Forall is_byte bytes /\ Z.of_nat (length bytes) = size)
              (fun e s' => same_client s s' /\ exists code, e = ex_middleware code)).
  { intros received' s' Hs Hb' Hl' Hlt'. eapply ends_mono; [| |apply IH; [apply Hs|done|done|lia]].
    - intros bytes s2 (Hs2 & ?). split; [by trans s'|done].
    - intros e s2 (Hs2 & ?). split; [by trans s'|done]. }
  apply ends_bind. eapply wp_ends; [|apply (remainingPollTimeout_ok s (same_client s)); [by apply steady_now_ok|done|by apply same_client_refl]]. intros t s1 [Hpos Hs1].
  apply ends_bind. eapply wp_ends; [|apply (client_poll_ok t); [lia|apply Hs1]]. intros a s2 [Hs2 Hprog]. assert (Hs : same_client s s2) by by trans s1.
  destruct (po_result a =? 0) eqn:Hr0; bools; [by apply ends_throw; eauto|].
  destruct (po_result a <? 0) eqn:Hr1; bools.
  { destruct (po_errno a =? EINTR); [|by apply ends_throw; eauto]. apply Hrec; [done..|].
    destruct Hs1 as (_ & _ & ? & _), Hprog as [?|[-> [?|[? _]]]]; lia. }
  destruct (po_invalid a); [by apply ends_throw; eauto|].
  apply ends_bind. eapply wp_ends; [|apply recv_link_ok; [lia|apply Hs2]]. intros answer s3 (Hs3 & Hans & Hlt3).
  assert (Hs' : same_client s s3) by by trans s2.
  assert (Hsize : (link_size (cs_link s3) < link_size (cs_link s))%nat).
  { destruct Hs1 as (_ & _ & ? & _), Hs3 as (_ & _ & ? & _), Hprog as [?|[-> [?|[_ Hne]]]]; [lia|lia|]. specialize (Hlt3 Hne). lia. }
  destruct answer as [[|b bytes]|errno]; [by apply ends_throw; eauto| |].
  - destruct Hans as [Hbytes Hlen]. apply Hrec; [done|by apply Forall_app|rewrite length_app; lia|done].
  - destruct (_ || _); [by apply Hrec|]. destruct (_ || _); apply ends_throw; eauto.
Qed.

Lemma readWithDeadline_ok size timeout s : 0 <= size -> 0 <= timeout -> timeout_ok timeout -> link_ok (cs_link s) ->
  ends (readWithDeadline size timeout) s
    (fun bytes s' => same_client s s' /\ Forall is_byte bytes /\ Z.of_nat (length bytes) = size)
    (fun e s' => same_client s s' /\ exists code, e = ex_middleware code).
Proof.
  intros Hsize Hpos Ht Hk. unfold readWithDeadline. apply ends_bind. eapply wp_ends; [|apply (deadline_after_ok s (same_client s)); [by apply steady_now_ok|done]].
  intros d s1 [Hd Hs1]. apply ends_bind. change (this s1) with (@Ret ClientState s1, s1).
  unfold ends at 1, this. eapply ends_mono; [| |apply (read_deadline_loop_ok size d timeout Hpos Hd); [apply Hs1|constructor|simpl; lia|lia]].
  - intros bytes s2 (Hs2 & ?). split; [by trans s1|done].
  - intros e s2 (Hs2 & ?). split; [by trans s1|done].
Qed.

(** ** Requests *)

Lemma receiveFrame_ok timeout s : 0 <= timeout -> timeout_ok timeout -> link_ok (cs_link s) ->
  ends (receiveFrame timeout) s (fun frame s' => same_client s s' /\ body_ok (cf_payload frame))
    (fun e s' => same_client s s' /\ exists code, e = ex_middleware code).
Proof.
  intros Hpos Ht Hk. unfold receiveFrame. apply ends_bind.
  eapply ends_mono; [| |apply (readWithDeadline_ok (Z.of_nat kControlHeaderSize) timeout); [lia|done..]]; [|by auto].
  intros bytes s1 (Hs1 & Hb & Hl). unfold decodeControlHeader. rewrite (proj2 (Nat.eqb_eq _ _)) by lia. cbn [negb].
  set (header := mkControlHeader _ _ _ _ _).
  assert (Hsize : fits 32 (ctl_payload_size header)) by (apply (get_be_fits 4); [done|unfold kControlHeaderSize in Hl; lia]).
  destruct (validateControlHeader header) eqn:Hval; [|apply ends_throw; eauto..].
  apply ends_bind. eapply ends_mono; [| |apply (readWithDeadline_ok (ctl_payload_size header) timeout); [by destruct Hsize|done|done|apply Hs1]].
  - intros payload s2 (Hs2 & Hp & Hlp). apply ends_ret. split; [by trans s1|]. split; [done|]. simpl. unfold fits in Hsize. lia.
  - intros e s2 (Hs2 & ?). split; [by trans s1|done].
Qed.

Lemma decodeResponsePayload_ok payload : body_ok payload ->
  match decodeResponsePayload payload with
  | Ret (Some envelope) => body_ok (env_body envelope)
  | Ret None => True
  | _ => False
  end.
Proof.
  intros Hb. pose proof (body_reader_ok _ Hb) as Hr. unfold decodeResponsePayload.
  unfold mbind, cpp_bind at 1, readU16.
  destruct (readUnsigned_spec 2 (reader_of payload) Hr) as [[_ ->]|(_ & r1 & -> & Hr1 & Hd1 & _)]; [done|].
  destruct (readString_spec r1) as (m & r2 & Hm & Hr2 & Hd2); [by rewrite Hd1; apply Hb|done|]. unfold cpp_bind at 1. rewrite Hm.
  destruct m as [m|]; [|done]. unfold cpp_bind, readRemaining. unfold_cpp. rewrite (proj2 (Z.leb_le _ _)) by apply Hr2. simpl.
  rewrite Hd2, Hd1. simpl. destruct Hb. split; [by apply Forall_drop|]. rewrite length_drop. lia.
Qed.

(** After a request: the client may use the connection again, or has closed it. *)
Definition after_request (s s' : ClientState) : Prop :=
  client_state_ok s' /\ rc_request_timeout (cs_client s') = rc_request_timeout (cs_client s).

Lemma after_request_trans s1 s2 s3 : after_request s1 s2 -> after_request s2 s3 -> after_request s1 s3.
Proof. intros [? ?] [? ?]. split; [done|congruence]. Qed.

(** What a method of the client may throw. *)
Definition client_error (e : exn) : Prop := e = ex_length_error \/ exists code, e = ex_middleware code.

Lemma write_link_ok data s : link_ok (cs_link s) ->
  wp (write_link data) s (fun _ s' => cs_client s' = cs_client s /\ link_ok (cs_link s')).
Proof.
  intros Hk. unfold wp, write_link, send_returns. unfold_cpp. rewrite (lk_reads _ Hk).
  destruct (writeAll_returns data (ln_socket (cs_link s))) as (r & so & Hrun).
  rewrite Hrun. split; [done|]. destruct Hk. split; [|done..]. simpl. by rewrite (writeAll_incoming _ _ _ _ _ Hrun).
Qed.

Lemma request_ok opcode payload timeout s : 0 <= timeout -> timeout_ok timeout -> client_state_ok s ->
  ends (request opcode payload timeout) s (fun body s' => after_request s s' /\ body_ok body)
    (fun e s' => after_request s s' /\ client_error e).
Proof.
  intros Hpos Ht Hok. pose proof Hok as [Hk Hto Hid]. unfold request. apply ends_bind. unfold ends at 1, gets.
  assert (Herr : forall code s', client_state_ok s' -> cs_client s' = cs_client s \/ rc_request_timeout (cs_client s') = rc_request_timeout (cs_client s) ->
            after_request s s' /\ client_error (ex_middleware code)).
  { intros code s' Hok' Hc. split; [split; [done|destruct Hc; congruence]|right; eauto]. }
  destruct (rc_socket (cs_client s)) as [fd|]; [|apply ends_throw; auto].
  destruct (_ =? 0); [apply ends_throw; auto|]. cbv zeta.
  set (next := wrap 32 _). set (s1 := s <| cs_client := cs_client s <| rc_next_request_id := next |> |>).
  assert (Hok1 : client_state_ok s1) by (split; [done|done|apply wrap_fits; lia]).
  apply ends_bind, ends_modify. change (s <| cs_client := _ |>) with s1.
  apply ends_bind, ends_lift; [unfold encodeControlFrame; by case_match| |].
  2: { intros e He. split; [by split|]. left. unfold encodeControlFrame in He. by case_match; simplify_eq. }
  intros frame _. apply ends_bind. eapply wp_ends; [|by apply write_link_ok]. intros result s2 [Hc2 Hk2].
  assert (Hok2 : client_state_ok s2) by (split; rewrite ?Hc2; [exact Hk2|..]; apply Hok1).
  destruct (negb _).
  { apply ends_bind, ends_modify, ends_throw, Herr; [split; simpl; apply Hok2|]. right. simpl. by rewrite Hc2. }
  apply ends_bind. eapply ends_mono; [| |apply (receiveFrame_ok timeout); [done|done|apply Hok2]].
  2: { intros e s3 ((Hc3 & Hk3 & _) & [code ->]). apply Herr; [|right; by rewrite Hc3, Hc2].
       split; rewrite ?Hc3; [done|..]; apply Hok2. }
  intros response s3 [(Hc3 & Hk3 & _) Hp].
  assert (Hok3 : client_state_ok s3) by (split; rewrite ?Hc3; [done|..]; apply Hok2).
  assert (Hto3 : rc_request_timeout (cs_client s3) = rc_request_timeout (cs_client s)) by by rewrite Hc3, Hc2.
  destruct (negb _); [apply ends_throw; auto|]. destruct (negb _); [apply ends_throw; auto|].
  pose proof (decodeResponsePayload_ok _ Hp) as Henv. apply ends_bind, ends_lift; [by intros Hu; rewrite Hu in Henv| |by intros e Hu; rewrite Hu in Henv].
  intros envelope Hdec. rewrite Hdec in Henv. destruct envelope as [envelope|]; [|apply ends_throw; auto].
  destruct (negb _); [apply ends_throw; auto|]. apply ends_ret. split; [by split|done].
Qed.

Lemma write_field_ends f data : ends (write_field f) data (fun _ _ => True) (fun e _ => e = ex_length_error).
Proof. destruct f; try done. simpl. unfold writeString. by destruct (_ <? _). Qed.

Lemma write_body_ends fields : match write_body fields with Ret _ => True | Throw e => e = ex_length_error | Undef => False end.
Proof.
  unfold write_body.
  enough (forall data, ends (for_each fields write_field) data (fun _ _ => True) (fun e _ => e = ex_length_error)) as H.
  { specialize (H []). unfold ends in H. by destruct (for_each fields write_field []) as [[]]. }
  induction fields as [|f fields IH]; intros data; [done|]. cbn [for_each]. apply ends_bind.
  eapply ends_mono; [| |apply write_field_ends]; [|done]. intros _ data' _. apply IH.
Qed.

Lemma ask_ok opcode fields s : client_state_ok s ->
  ends (ask opcode fields) s (fun body s' => after_request s s' /\ body_ok body) (fun e s' => after_request s s' /\ client_error e).
Proof.
  intros Hok. pose proof (write_body_ends fields) as Hw. unfold ask. apply ends_bind, ends_lift; [by intros Hu; rewrite Hu in Hw| |].
  - intros payload _. apply ends_bind. unfold ends at 1, gets. destruct (co_timeout _ Hok). apply request_ok; [lia|done|done].
  - intros e He. rewrite He in Hw. split; [by split|by left].
Qed.

(** A request and the parsing of its answer. *)
Lemma ask_parse_ok {A} opcode fields (parse : list Z -> outcome A) s : client_state_ok s ->
  (forall body, body_ok body -> parsed (parse body)) ->
  ends (body ← ask opcode fields; lift (parse body)) s (fun _ s' => after_request s s') (fun e s' => after_request s s' /\ client_error e).
Proof.
  intros Hok Hparse. apply ends_bind. eapply ends_mono; [| |by apply ask_ok]; [|done]. intros body s' [Hs Hb].
  specialize (Hparse body Hb). unfold ends, lift. destruct (parse body); simpl in Hparse; subst; [done| |done].
  split; [done|]. right. eauto.
Qed.

(** ** Every method with a deadline *)

Inductive client_call :=
  | CallRegisterNode (node_name : string)
  | CallUnregisterNode (node_id : Z)
  | CallAttachHeartbeat (node_id session_id : Z)
  | CallHeartbeat (node_id session_id : Z)
  | CallAdvertise (node_id : Z) (topic_name type_name type_hash : string) (max_message_size : Z) (transport : TransportType)
      (pool : PoolDescriptor)
  | CallUnadvertise (node_id endpoint_id : Z)
  | CallSubscribe (node_id : Z) (topic_name type_name type_hash : string) (max_message_size : Z) (data_socket_path : string)
      (transport : TransportType) (queue : QueueDescriptor)
  | CallUnsubscribe (node_id endpoint_id : Z)
  | CallListNodes
  | CallListTopics
  | CallQueryTopic (topic_name : string)
  | CallQueryStats.

Definition run_call (call : client_call) : client unit :=
  match call with
  | CallRegisterNode name => registerNode name;; mret tt
  | CallUnregisterNode id => unregisterNode id
  | CallAttachHeartbeat id session => attachHeartbeat id session
  | CallHeartbeat id session => heartbeat id session;; mret tt
  | CallAdvertise id topic type hash size transport pool => advertise id topic type hash size transport pool;; mret tt
  | CallUnadvertise id endpoint => unadvertise id endpoint
  | CallSubscribe id topic type hash size path transport queue => subscribe id topic type hash size path transport queue;; mret tt
  | CallUnsubscribe id endpoint => unsubscribe id endpoint
  | CallListNodes => listNodes;; mret tt
  | CallListTopics => listTopics;; mret tt
  | CallQueryTopic name => queryTopic name;; mret tt
  | CallQueryStats => queryStats;; mret tt
  end.

(** A caller that goes on after an exception: the call, and what it threw. *)
Definition attempt {S A} (c : cpp S A) : cpp S (A + exn) := fun s =>
  match c s with (Ret a, s') => (Ret (inl a), s') | (Throw e, s') => (Ret (inr e), s') | (Undef, s') => (Undef, s') end.

Lemma ends_drop {S A} (c : cpp S A) s (Q : S -> Prop) E : ends c s (fun _ s' => Q s') E -> ends (c ≫= fun _ => mret tt) s (fun _ s' => Q s') E.
Proof. intros H. by apply ends_bind. Qed.

Lemma run_call_ok call s : client_state_ok s ->
  ends (run_call call) s (fun _ s' => after_request s s') (fun e s' => after_request s s' /\ client_error e).
Proof.
  intros Hok. assert (Hask : forall opcode fields, ends (ask opcode fields;; mret tt) s (fun _ s' => after_request s s') (fun e s' => after_request s s' /\ client_error e)).
  { intros opcode fields. apply ends_drop. eapply ends_mono; [| |by apply ask_ok]; [|done]. by intros body s' [? _]. }
  destruct call; cbn [run_call]; unfold unregisterNode, attachHeartbeat, unadvertise, unsubscribe; try apply Hask;
    apply ends_drop, ask_parse_ok; try done; intros body Hb.
  - by eapply parse_parsed, registration_reader_ends.
  - by apply heartbeat_parsed.
  - by eapply parse_parsed, endpoint_reader_ends.
  - by eapply parse_parsed, endpoint_reader_ends.
  - apply list_parsed; [apply node_reader_ends|done].
  - apply list_parsed; [apply topic_reader_ends|done].
  - by eapply parse_parsed, topic_info_reader_ends.
  - by eapply parse_parsed, stats_reader_ends.
Qed.

Lemma attempts_ok calls s : client_state_ok s ->
  wp (for_each calls (fun call => attempt (run_call call);; mret tt)) s (fun _ s' => after_request s s').
Proof.
  intros Hok. apply (wp_for_each (fun _ s' => after_request s s')); [|by split]. intros call _ s1 Hs1. apply wp_bind.
  pose proof (run_call_ok call s1 (proj1 Hs1)) as H. unfold wp, attempt, ends in *.
  destruct (run_call call s1) as [[a|e|] s2]; [| |done]; [|destruct H as [H _]]; by eapply after_request_trans.
Qed.

(** A new client may use its connection. *)
Lemma create_client_state answer config c link : create_client answer config = Ret c -> link_ok link ->
  rf_request_timeout config < 2 ^ 40 -> client_state_ok (mkClientState c link).
Proof.
  intros Hc Hk Ht. unfold create_client in Hc. destruct (_ =? 0); [done|]. destruct (_ <=? 0) eqn:Hpos; [done|]. bools.
  destruct (negb _); [done|]. destruct (connectUnixSocket _ _) as [fd|[]|]; simplify_eq. split; simpl; [done|lia|]. unfold fits. lia.
Qed.
