(* ===== verification/ClientStreams.v ===== *)
(** * Registry client: responses

    A response that arrives in any fragments, between interrupted and idle polls, is read
    exactly; what follows it stays on the connection for the next request. *)

From Stdlib Require Import ZArith Lia Bool String.
From stdpp Require Import base list strings option.
From S2P Require Import Prelude Types Outcome BigEndian ControlProtocol QueueProtocol SocketIo PublisherState PublisherInvariant PublisherReleases PublisherMethods PublisherUds SubscriberInvariant SubscriberMethods RegistryClient ClientInvariant.

Local Open Scope Z_scope.

(** ** What is delivered *)

(** The bytes to come, and a connection on which only bytes and interruptions come
    and whose other end reads. *)
Definition link_incoming (k : Link) : list incoming := so_incoming (ln_socket k) ++ concat (map po_arrives (ln_polls k)).
Definition link_stream (k : Link) : list Z := flat_map fragment_bytes (link_incoming k).

Definition poll_delivers (p : poll_return) : Prop :=
  Forall fragment_ok (po_arrives p) /\ (0 < po_result p /\ po_invalid p = false \/ po_result p < 0 /\ po_errno p = EINTR).

Record delivering (k : Link) : Prop := {
  dl_socket : Forall fragment_ok (so_incoming (ln_socket k));
  dl_polls : Forall poll_delivers (ln_polls k);
  dl_times : Forall clock_ok (ln_time k :: ln_times k);
  dl_reads : ln_stalled k = false;
}.

(** [taken] was read off the connection; the client and what it sends are as before. *)
Definition consumes (taken : list Z) (s s' : ClientState) : Prop :=
  cs_client s' = cs_client s /\ delivering (cs_link s') /\ sending_of (ln_socket (cs_link s')) = sending_of (ln_socket (cs_link s)) /\
  link_stream (cs_link s) = taken ++ link_stream (cs_link s') /\ (link_size (cs_link s') <= link_size (cs_link s))%nat.

Lemma consumes_nothing s : delivering (cs_link s) -> consumes [] s s.
Proof. intros Hd. unfold consumes. by split_and!. Qed.

Lemma consumes_trans xs ys s1 s2 s3 : consumes xs s1 s2 -> consumes ys s2 s3 -> consumes (xs ++ ys) s1 s3.
Proof.
  intros (? & ? & ? & Hx & ?) (? & ? & ? & Hy & ?). split_and!; [congruence|done|congruence| |lia]. by rewrite Hx, Hy, app_assoc.
Qed.

Lemma steady_now_delivers s : delivering (cs_link s) -> wp steady_now s (fun t s' => clock_ok t /\ consumes [] s s').
Proof.
  intros [Hb Hp Ht Hs]. unfold wp, steady_now. unfold_cpp. destruct s as [c [so polls times time stalled]]. simpl in *.
  apply Forall_cons_1 in Ht as [Ht Hts]. destruct times as [|t times]; simpl.
  - split; [done|]. apply consumes_nothing. split; [done|done|by constructor|done].
  - apply Forall_cons_1 in Hts as [Ht' Hts]. split; [done|]. split_and!; [done| |done|done|done]. split; [done|done|by constructor|done].
Qed.

(** [poll] waits until something can be read, or is interrupted. *)
Lemma poll_delivers_ok t s : delivering (cs_link s) -> link_stream (cs_link s) <> [] ->
  wp (poll t) s (fun answer s' => consumes [] s s' /\
    ((link_size (cs_link s') < link_size (cs_link s))%nat \/ 0 < po_result answer /\ so_incoming (ln_socket (cs_link s')) <> []) /\
    (0 < po_result answer /\ po_invalid answer = false \/ po_result answer < 0 /\ po_errno answer = EINTR)).
Proof.
  intros [Hb Hp Hts Hrd] Hne. unfold wp, poll. unfold_cpp. destruct s as [c [so polls times time stalled]]. simpl in *.
  destruct polls as [|a polls].
  - unfold link_stream, link_incoming in Hne. simpl in Hne. rewrite app_nil_r in Hne. destruct (so_incoming so) eqn:Hin; [done|].
    split; [apply consumes_nothing; by split; simpl; rewrite ?Hin|]. simpl. rewrite Hin. split; [right; split; [lia|done]|left; split; [lia|done]].
  - apply Forall_cons_1 in Hp as [[Ha Hr] Hp].
    assert (Hsize : (link_size (mkLink (arrive (po_arrives a) so) polls times time stalled) < link_size (mkLink so (a :: polls) times time stalled))%nat).
    { unfold link_size. simpl. rewrite arrive_arrive. lia. }
    split; [|split; [by left|done]]. split_and!; [done| |done| |exact (Nat.lt_le_incl _ _ Hsize)].
    + split; simpl; [by apply Forall_app|done..].
    + unfold link_stream, link_incoming. simpl. by rewrite <- app_assoc.
Qed.

Lemma recv_link_delivers n s : 0 < n -> delivering (cs_link s) ->
  wp (recv_link n) s (fun answer s' =>
    (so_incoming (ln_socket (cs_link s)) <> [] -> (link_size (cs_link s') < link_size (cs_link s))%nat) /\
    match answer with
    | inl bytes => bytes <> [] /\ Z.of_nat (length bytes) <= n /\ consumes bytes s s'
    | inr errno => consumes [] s s' /\ (errno = EINTR \/ errno = EAGAIN)
    end).
Proof.
  intros Hn [Hb Hp Hts Hrd].
  pose proof (recv_link_size n s Hn) as Hprog.
  revert Hprog. unfold wp, recv_link. unfold_cpp. destruct s as [c [so polls times time stalled]]. simpl in *.
  pose proof (recv_step_flow n so Hn Hb) as Hflow. pose proof (recv_step_stream n so) as Hsent.
  destruct (recv_step n so) as [[bytes|e] so']; simpl in *; destruct Hflow as [Hb' Hflow], Hsent as [Hsent _]; intros (Hle & Hlt).
  - destruct Hflow as (Hne & Hlen & Hstr). split; [done|]. split; [done|]. split; [done|]. unfold consumes. split_and!; [done|by split|done| |done].
    unfold link_stream, link_incoming. simpl. by rewrite !flat_map_app, Hstr, app_assoc.
  - destruct Hflow as (Hstr & He). split; [done|]. split; [|naive_solver]. unfold consumes. split_and!; [done|by split|done| |done].
    unfold link_stream, link_incoming. simpl. by rewrite !flat_map_app, Hstr.
Qed.

(** ** Reading *)

Lemma read_deadline_loop_delivers size deadline timeout : deadline_ok deadline ->
  forall fuel received s, delivering (cs_link s) -> Z.of_nat (length received) <= size ->
  size - Z.of_nat (length received) <= Z.of_nat (length (link_stream (cs_link s))) -> (link_size (cs_link s) < fuel)%nat ->
  wp (read_deadline_loop fuel size deadline timeout received) s
    (fun bytes s' => exists taken, bytes = received ++ taken /\ Z.of_nat (length bytes) = size /\ consumes taken s s').
Proof.
  intros Hd. induction fuel as [|fuel IH]; intros received s Hk Hl Hstr Hf; [lia|]. cbn [read_deadline_loop].
  destruct (_ <? size) eqn:Hlt; bools; [|apply wp_ret; exists []; split_and!; [by rewrite app_nil_r|lia|by apply consumes_nothing]].
  assert (Hrec : forall bytes s', consumes bytes s s' -> Z.of_nat (length (received ++ bytes)) <= size -> (link_size (cs_link s') < link_size (cs_link s))%nat ->
            wp (read_deadline_loop fuel size deadline timeout (received ++ bytes)) s' (fun bytes s' => exists taken, bytes = received ++ taken /\
              Z.of_nat (length bytes) = size /\ consumes taken s s')).
  { intros bytes s' Hs Hl' Hlt'. pose proof Hs as (_ & Hd' & _ & Hst & _). eapply wp_mono; [|apply IH; [done|done| |lia]].
    - intros all s2 (taken & -> & Hlen & Hs2). exists (bytes ++ taken). split_and!; [by rewrite app_assoc|done|by eapply consumes_trans].
    - rewrite Hst, length_app in Hstr. rewrite length_app in Hl' |- *. lia. }
  assert (Hagain := Hrec []). rewrite app_nil_r in Hagain.
  apply wp_bind. eapply wp_mono; [|apply (remainingPollTimeout_ok s (consumes [] s)); [by apply steady_now_delivers|done|by apply consumes_nothing]].
  intros t s1 [_ Hs1]. pose proof Hs1 as (_ & Hd1 & _ & Hst1 & Hsz1).
  apply wp_bind. eapply wp_mono; [|apply (poll_delivers_ok t s1); [done|]].
  2: { intros Hnil. rewrite Hst1, Hnil in Hstr. simpl in Hstr. lia. }
  intros a s2 (Hs2 & Hprog & Hres). pose proof (consumes_trans _ _ _ _ _ Hs1 Hs2) as Hs. simpl in Hs.
  pose proof Hs2 as (_ & Hd2 & _ & _ & Hsz2).
  destruct (po_result a =? 0) eqn:Hr0; bools; [lia|]. destruct (po_result a <? 0) eqn:Hr1; bools.
  { destruct Hres as [[? _]|[_ ->]]; [lia|]. cbn [Z.eqb]. apply Hagain; [done|done|].
    destruct Hprog as [?|[? _]]; lia. }
  destruct Hres as [[_ ->]|[? _]]; [|lia].
  apply wp_bind. eapply wp_mono; [|apply recv_link_delivers; [lia|done]]. intros answer s3 [Hlt3 Hans].
  assert (Hsize : forall bytes, consumes bytes s2 s3 -> (link_size (cs_link s3) < link_size (cs_link s))%nat).
  { intros bytes (_ & _ & _ & _ & ?). destruct Hprog as [?|[_ Hne]]; [lia|]. specialize (Hlt3 Hne). lia. }
  destruct answer as [bytes|errno].
  - destruct Hans as (Hne & Hlen & Hs3). destruct bytes as [|b bytes]; [done|].
    apply Hrec; [exact (consumes_trans _ _ _ _ _ Hs Hs3)|rewrite length_app; lia|by apply (Hsize _ Hs3)].
  - destruct Hans as [Hs3 He]. assert ((errno =? EINTR) || (errno =? EAGAIN) = true) as -> by (destruct He as [->| ->]; done).
    apply Hagain; [exact (consumes_trans _ _ _ _ _ Hs Hs3)|done|by apply (Hsize _ Hs3)].
Qed.

Lemma readWithDeadline_delivers taken rest timeout s : timeout_ok timeout -> delivering (cs_link s) ->
  link_stream (cs_link s) = taken ++ rest ->
  wp (readWithDeadline (Z.of_nat (length taken)) timeout) s (fun bytes s' => bytes = taken /\ consumes taken s s' /\ link_stream (cs_link s') = rest).
Proof.
  intros Ht Hk Hstr. unfold readWithDeadline. apply wp_bind.
  eapply wp_mono; [|apply (deadline_after_ok s (consumes [] s)); [by apply steady_now_delivers|done]]. intros d s1 [Hd Hs1].
  apply wp_bind. unfold wp at 1, this. pose proof Hs1 as (_ & Hd1 & _ & Hst1 & _). simpl in Hst1.
  eapply wp_mono; [|apply read_deadline_loop_delivers; [done|done|simpl; lia|rewrite <- Hst1, Hstr, length_app; simpl; lia|lia]].
  intros bytes s2 (got & -> & Hlen & Hs2). simpl in *. pose proof (consumes_trans _ _ _ _ _ Hs1 Hs2) as Hs. simpl in Hs.
  assert (Hgot : got = taken /\ link_stream (cs_link s2) = rest).
  { destruct Hs as (_ & _ & _ & Hst & _). rewrite Hstr in Hst. apply app_inj_1 in Hst as [-> ->]; [done|lia]. }
  destruct Hgot as [-> ?]. done.
Qed.

(** ** Requests *)

Lemma receiveFrame_delivers opcode id payload frame rest timeout s :
  encodeControlFrame opcode id payload = Ret frame -> fits 32 id ->
  Opcode_of_u16 (Opcode_to_u16 opcode) = opcode -> fits 16 (Opcode_to_u16 opcode) ->
  timeout_ok timeout -> delivering (cs_link s) -> link_stream (cs_link s) = frame ++ rest ->
  wp (receiveFrame timeout) s (fun response s' => ctl_opcode (cf_header response) = opcode /\
    ctl_request_id (cf_header response) = id /\ cf_payload response = payload /\
    consumes frame s s' /\ link_stream (cs_link s') = rest).
Proof.
  unfold encodeControlFrame. destruct (_ <? _) eqn:Hmax; [done|]. bools. intros [= <-] Hid Hcast Hop Ht Hk Hstr.
  set (header := mkControlHeader _ _ _ _ _) in *. unfold kMaxControlPayloadSize in Hmax.
  assert (Hty : ControlHeader_typed header) by (split_and!; try done; apply wrap_fits; lia).
  assert (Hlen : ctl_payload_size header = Z.of_nat (length payload)) by (apply wrap_small; unfold fits; lia).
  unfold receiveFrame. apply wp_bind. rewrite <- (length_encodeControlHeader header).
  eapply wp_mono; [|apply (readWithDeadline_delivers _ (payload ++ rest)); [done|done|by rewrite Hstr, <- app_assoc]].
  intros bytes s1 (-> & Hs1 & Hst1). rewrite (decode_encode_control_header header Hty).
  assert (validateControlHeader header = ControlValid) as ->.
  { unfold validateControlHeader. rewrite Hlen. simpl. by rewrite (proj2 (Z.ltb_ge _ _)) by (unfold kMaxControlPayloadSize; lia). }
  apply wp_bind. rewrite Hlen. eapply wp_mono; [|apply (readWithDeadline_delivers payload rest); [done|apply Hs1|done]].
  intros bytes s2 (-> & Hs2 & Hst2). apply wp_ret. split_and!; [done..| |done]. by eapply consumes_trans.
Qed.

(** The connection is open and there are request ids left. *)
Definition can_request (s : ClientState) : Prop := is_Some (rc_socket (cs_client s)) /\ 0 < rc_next_request_id (cs_client s) < 2 ^ 32.

(** The kernel accepts the whole of [data], in one piece or several. *)
Definition accepts (data : list Z) (so : socket) : Prop := exists r so',
  writeAll send_step (S (length (so_replies so))) data so = Some (r, so') /\ io_status r = IoComplete.

(** Without replies to come the kernel accepts everything. *)
Lemma writeAll_idle data so : so_replies so = [] ->
  exists r so', writeAll send_step (S (length (so_replies so))) data so = Some (r, so') /\ io_status r = IoComplete /\ so_replies so' = [].
Proof.
  intros Hr. rewrite Hr. unfold writeAll. cbn [length writeAllWith]. destruct data as [|b data]; [simpl; eauto|].
  unfold send_step. rewrite Hr. cbn [io_result io_errno]. rewrite drop_0. simpl length.
  destruct (0 <? Z.of_nat (S (length data))) eqn:H1; bools; [|lia].
  destruct (Z.of_nat (S (length data)) - 0 <? _) eqn:H2; bools; [lia|].
  destruct (0 + _ <? _) eqn:H3; bools; [lia|]. simpl. eauto.
Qed.

Lemma accepts_idle data so : so_replies so = [] -> accepts data so.
Proof. intros Hr. destruct (writeAll_idle data so Hr) as (r & so' & ? & ? & _). by exists r, so'. Qed.

(** What a request makes of a response with the id [response_id] and the payload. *)
Definition verdict (request_id response_id : Z) (payload : list Z) : outcome (list Z) :=
  if negb (response_id =? request_id) then Throw (ex_middleware InvalidRequestId) else
  match decodeResponsePayload payload with
  | Ret (Some envelope) => if is_ok (env_error envelope) then Ret (env_body envelope) else Throw (ex_middleware (env_error envelope))
  | Ret None => Throw (ex_middleware InvalidControlMessage)
  | Throw e => Throw e
  | Undef => Undef
  end.

(** The request [out] was sent, and the response taken off the connection. *)
Record exchanged (out rest : list Z) (s s' : ClientState) : Prop := {
  ex_client : cs_client s' = cs_client s <| rc_next_request_id := wrap 32 (rc_next_request_id (cs_client s) + 1) |>;
  ex_sent : so_sent (ln_socket (cs_link s')) = so_sent (ln_socket (cs_link s)) ++ out;
  ex_stream : link_stream (cs_link s') = rest;
  ex_delivering : delivering (cs_link s');
  ex_replies : so_replies (ln_socket (cs_link s)) = [] -> so_replies (ln_socket (cs_link s')) = [];
}.

Lemma request_exchange opcode payload timeout out response_id response frame rest s :
  can_request s -> timeout_ok timeout -> delivering (cs_link s) ->
  encodeControlFrame opcode (rc_next_request_id (cs_client s)) payload = Ret out -> accepts out (ln_socket (cs_link s)) ->
  encodeControlFrame Response response_id response = Ret frame -> fits 32 response_id ->
  link_stream (cs_link s) = frame ++ rest ->
  exists s', request opcode payload timeout s = (verdict (rc_next_request_id (cs_client s)) response_id response, s') /\
    exchanged out rest s s'.
Proof.
  intros [[fd Hfd] Hid] Ht Hk Hout (r & so & Hsend & Hdone) Hframe Hrid Hstr.
  set (s1 := s <| cs_client := cs_client s <| rc_next_request_id := wrap 32 (rc_next_request_id (cs_client s) + 1) |> |>
               <| cs_link := cs_link s <| ln_socket := so |> |>).
  pose proof (writeAll_incoming _ _ _ _ _ Hsend) as Hin. pose proof (writeAll_complete _ _ _ _ _ Hsend Hdone) as Hsent.
  assert (Hk1 : delivering (cs_link s1)) by (destruct Hk; split; simpl; [by rewrite Hin|done..]).
  assert (Hst1 : link_stream (cs_link s1) = frame ++ rest) by (unfold link_stream, link_incoming in *; simpl; by rewrite Hin).
  pose proof (receiveFrame_delivers Response response_id response frame rest timeout s1 Hframe Hrid eq_refl ltac:(done) Ht Hk1 Hst1) as Hrecv.
  apply wp_run in Hrecv as (answer & s2 & Hrun & Hop & Hrid' & Hpay & (Hc2 & Hk2 & Hsend2 & _) & Hst2).
  exists s2. split.
  - unfold request, gets. unfold mbind at 1, cpp_bind at 1. rewrite Hfd, (proj2 (Z.eqb_neq _ _)) by lia.
    unfold set_registry_client, write_link, set_link, send_returns. unfold_cpp. rewrite Hout. simpl. rewrite (dl_reads _ Hk), Hsend, (bool_decide_true _ Hdone). simpl.
    change (receiveFrame timeout _) with (receiveFrame timeout s1). rewrite Hrun, Hop, Hrid', Hpay. simpl. unfold verdict.
    destruct (negb _); [done|]. destruct (decodeResponsePayload response) as [[envelope|]| |]; try done. by destruct (is_ok _).
  - split; [by rewrite Hc2|by injection Hsend2 as -> _|done|done|]. intros Hr. injection Hsend2 as _ ->. simpl.
    destruct (writeAll_idle out _ Hr) as (r' & so' & Hsend' & _ & ?). congruence.
Qed.
