(* ===== verification/ClientBodies.v ===== *)
(** * Registry client: response bodies

    The readers of response bodies are inverse to the writers of the registry server: what the
    server writes into the body of a response is what the client's method returns. *)

From Stdlib Require Import ZArith Lia Bool String.
From stdpp Require Import base gmap list strings option.
From S2P Require Import Prelude Types Outcome BigEndian ControlProtocol QueueProtocol PublisherState RegistryState RegistryServer ServerInvariant RegistryClient ClientInvariant.

Local Open Scope Z_scope.

(** ** Readers and the fields they read *)

(** In front of the bytes of the fields the reader returns [a] and stops behind them. *)
Definition reads_back {A} (reader : cpp PayloadReader A) (fs : list field) (a : A) : Prop :=
  forall r pre post, positioned r pre (fields_bytes fs) post ->
  exists r', runs reader r a r' /\ positioned r' (pre ++ fields_bytes fs) post [].

Lemma fields_bytes_app fs gs : fields_bytes (fs ++ gs) = fields_bytes fs ++ fields_bytes gs.
Proof. unfold fields_bytes. by rewrite map_app, concat_app. Qed.

Lemma positioned_shift r pre mid post : positioned r pre (mid ++ post) [] -> positioned r pre mid post.
Proof. intros (Hd & ?). split; [|done]. by rewrite Hd, app_nil_r. Qed.

Lemma reads_back_bind {A B} (c : cpp PayloadReader A) (k : A -> cpp PayloadReader B) fs gs a b :
  reads_back c fs a -> reads_back (k a) gs b -> reads_back (c ≫= k) (fs ++ gs) b.
Proof.
  intros Hc Hk r pre post Hpos. rewrite fields_bytes_app in *.
  destruct (Hc r pre (fields_bytes gs ++ post)) as (r1 & Hrun1 & Hpos1).
  { destruct Hpos as (Hd & ?). split; [|done]. by rewrite Hd, <- app_assoc. }
  destruct (Hk r1 _ post (positioned_shift _ _ _ _ Hpos1)) as (r2 & Hrun2 & Hpos2).
  exists r2. split; [by eapply runs_bind|]. by rewrite app_assoc.
Qed.

Lemma reads_back_ret {A} (a : A) : reads_back (mret a) [] a.
Proof.
  intros r pre post (Hd & Ho & Hs). exists r. split; [done|]. unfold fields_bytes. simpl. rewrite app_nil_r.
  split; [by rewrite app_nil_r, Hd|done].
Qed.

Lemma read_fields_back fs : Forall field_typed fs -> reads_back (read_fields (map kind_of fs)) fs (Some fs).
Proof.
  induction 1 as [|f fs Hf Hfs IH]; [apply reads_back_ret|]. cbn [map read_fields].
  change (f :: fs) with ([f] ++ fs). apply (reads_back_bind _ _ [f] fs (Some f)).
  - intros r pre post Hpos. assert (Hb : fields_bytes [f] = field_bytes f) by (unfold fields_bytes; simpl; by rewrite app_nil_r).
    rewrite Hb in *. destruct (read_field_value f r pre post Hf Hpos) as (r' & Hrun & Hd & Ho). exists r'. split; [done|].
    destruct Hpos as (Hd0 & Ho0 & Hs0). split_and!; [by rewrite Hd, Hd0, app_nil_r, <- app_assoc|rewrite Ho, Ho0, length_app; lia|].
    unfold data_size in *. by rewrite Hd.
  - rewrite <- (app_nil_r fs) at 2. eapply reads_back_bind; [exact IH|]. apply reads_back_ret.
Qed.

Lemma fields_back fs ks : ks = map kind_of fs -> Forall field_typed fs -> reads_back (fields_or_malformed ks) fs fs.
Proof.
  intros -> Hfs. rewrite <- (app_nil_r fs) at 2. eapply reads_back_bind; [by apply read_fields_back|]. apply reads_back_ret.
Qed.

Lemma entries_back {A} (entry : cpp PayloadReader A) (gss : list (list field)) l :
  Forall2 (reads_back entry) gss l -> forall fuel, (length l <= fuel)%nat ->
  reads_back (read_entries fuel entry (Z.of_nat (length l))) (concat gss) l.
Proof.
  induction 1 as [|gs a gss l Ha Hl IH]; intros fuel Hfuel; [destruct fuel; apply reads_back_ret|].
  destruct fuel as [|fuel]; simpl in Hfuel; [lia|]. cbn [read_entries].
  rewrite (proj2 (Z.leb_gt _ _)) by (simpl; lia). simpl concat.
  eapply reads_back_bind; [exact Ha|]. rewrite <- (app_nil_r (concat gss)).
  eapply (reads_back_bind _ _ (concat gss) []); [|apply reads_back_ret].
  replace (Z.of_nat (length (a :: l)) - 1) with (Z.of_nat (length l)) by (simpl; lia). apply IH. lia.
Qed.

(** The fields, the end of the body. *)
Definition closes {A} (reader : cpp PayloadReader A) (fs : list field) (a : A) : Prop :=
  forall r pre, positioned r pre (fields_bytes fs) [] -> exists r', runs reader r a r'.

Lemma closes_bind {A B} (c : cpp PayloadReader A) (k : A -> cpp PayloadReader B) fs gs a b :
  reads_back c fs a -> closes (k a) gs b -> closes (c ≫= k) (fs ++ gs) b.
Proof.
  intros Hc Hk r pre Hpos. rewrite fields_bytes_app in Hpos. destruct (Hc r pre (fields_bytes gs)) as (r1 & Hrun1 & Hpos1).
  { by apply positioned_shift. }
  destruct (Hk r1 _ Hpos1) as (r2 & Hrun2). exists r2. by eapply runs_bind.
Qed.

Lemma closes_end {A} (k : cpp PayloadReader A) a : closes k [] a -> closes (no_trailing_data;; k) [] a.
Proof.
  intros Hk r pre Hpos. destruct (Hk r pre Hpos) as (r' & Hrun). exists r'. eapply runs_bind; [|exact Hrun].
  destruct Hpos as (Hd & Ho & Hs). unfold runs, no_trailing_data. unfold_cpp. unfold reader_empty, data_size.
  rewrite Hd, Ho. unfold fields_bytes. simpl. by rewrite !app_nil_r, Z.eqb_refl.
Qed.

Lemma closes_ret {A} (a : A) : closes (mret a) [] a.
Proof. intros r pre _. by exists r. Qed.

Lemma closes_fields {A} fs ks (k : list field -> cpp PayloadReader A) gs a : ks = map kind_of fs -> Forall field_typed fs ->
  closes (k fs) gs a -> closes (fields_or_malformed ks ≫= k) (fs ++ gs) a.
Proof. intros Hks Hfs Hk. eapply closes_bind; [by apply fields_back|done]. Qed.

Lemma closes_last {A} fs ks (k : list field -> cpp PayloadReader A) a : ks = map kind_of fs -> Forall field_typed fs ->
  closes (k fs) [] a -> closes (fields_or_malformed ks ≫= k) fs a.
Proof. intros Hks Hfs Hk. rewrite <- (app_nil_r fs). by apply closes_fields. Qed.

Lemma parse_closes {A} (reader : cpp PayloadReader A) fs a :
  closes reader fs a -> Z.of_nat (length (fields_bytes fs)) < 2 ^ 63 -> parse_body reader (fields_bytes fs) = Ret a.
Proof.
  intros Hc Hlen. destruct (Hc (reader_of (fields_bytes fs)) []) as (r' & Hrun).
  { split_and!; [simpl; by rewrite app_nil_r|done|done]. }
  unfold parse_body. by rewrite Hrun.
Qed.

(** An entry of fields takes at least a byte per entry. *)
Lemma field_bytes_pos f : (1 <= length (field_bytes f))%nat.
Proof. destruct f; simpl; rewrite ?length_app, length_encodeBigEndian; lia. Qed.

Lemma entries_fit (gss : list (list field)) : Forall (fun gs => gs <> []) gss -> (length gss <= length (fields_bytes (concat gss)))%nat.
Proof.
  induction 1 as [|gs gss Hne _ IH]; simpl; [lia|]. rewrite fields_bytes_app, length_app.
  destruct gs as [|f gs]; [done|]. unfold fields_bytes at 1. simpl. rewrite length_app. pose proof (field_bytes_pos f). lia.
Qed.

(** ** The values a response carries *)

Lemma write_body_typed fields : Forall field_typed fields -> write_body fields = Ret (fields_bytes fields).
Proof.
  intros Hf. unfold write_body.
  enough (forall data, for_each fields write_field data = (Ret tt, data ++ fields_bytes fields)) as H by by rewrite H.
  induction Hf as [|f fields Hf Hfs IH]; intros data; simpl.
  - unfold fields_bytes. simpl. by rewrite app_nil_r.
  - unfold mbind, cpp_bind. rewrite (write_field_spec f data Hf : write_field f data = _), IH. unfold fields_bytes. simpl. by rewrite <- app_assoc.
Qed.

(** Fields that fit into their C++ types, in a body that fits into a frame. *)
Definition wire_ok (fs : list field) : Prop :=
  Forall field_typed fs /\ Z.of_nat (length (fields_bytes fs)) <= kMaxControlPayloadSize.

Lemma written_body_reads {A} (reader : nat -> cpp PayloadReader A) fs a : wire_ok fs ->
  closes (reader (length (fields_bytes fs))) fs a ->
  (body ← write_body fs; parse_body (reader (length body)) body) = Ret a.
Proof.
  intros [Hty Hlen] Hc. rewrite write_body_typed by done. unfold mbind, outcome_bind. apply parse_closes; [done|].
  unfold kMaxControlPayloadSize in Hlen. lia.
Qed.

Definition pool_of (topic_id : Z) (pool : SharedPoolMetadata) : PoolDescriptor :=
  mkPoolDescriptor (spm_shm_name pool) (spm_pool_id pool) (spm_segment_size pool) topic_id (spm_layout_version pool).

Definition endpoint_of (result : EndpointResult) : RegistryEndpoint :=
  mkRegistryEndpoint (ep_topic_id result) (ep_endpoint_id result) (pool_of (ep_topic_id result) (ep_pool result)).
Definition endpoint_fields (result : EndpointResult) : list field :=
  [FU64 (ep_topic_id result); FU64 (ep_endpoint_id result)] ++ pool_fields (ep_pool result).

Lemma endpoint_closes result : Forall field_typed (endpoint_fields result) ->
  closes endpoint_reader (endpoint_fields result) (endpoint_of result).
Proof. intros Hty. apply closes_last; [done|done|]. apply closes_end, closes_ret. Qed.

Definition subscriber_of (subscriber : DiscoveredSubscriber) : RegistrySubscriber :=
  mkRegistrySubscriber (ds_endpoint_id subscriber) (ds_data_socket_path subscriber) (ds_max_message_size subscriber)
    (queueDescriptor (ds_queue subscriber)).
Definition discovery_of (result : DiscoveryResult) : RegistryDiscovery :=
  mkRegistryDiscovery (dr_topic_id result) (dr_transport result) (pool_of (dr_topic_id result) (dr_pool result))
    (map subscriber_of (dr_subscribers result)).
Definition discovery_fields (result : DiscoveryResult) : list field :=
  ([FU64 (dr_topic_id result); FU16 (TransportType_to_u16 (dr_transport result))] ++ pool_fields (dr_pool result) ++
   [FU32 (wrap 32 (Z.of_nat (length (dr_subscribers result))))]) ++ flat_map subscriber_fields (dr_subscribers result).

Lemma subscriber_back subscriber : Forall field_typed (subscriber_fields subscriber) ->
  reads_back subscriber_reader (subscriber_fields subscriber) (subscriber_of subscriber).
Proof.
  intros Hty. unfold subscriber_fields in *.
  change (_ :: _) with (take 8 (subscriber_fields subscriber) ++ drop 8 (subscriber_fields subscriber)) in *. simpl take in *. simpl drop in *.
  apply Forall_app in Hty as [Hty1 Hty2].
  eapply reads_back_bind; [by apply fields_back|].
  rewrite <- (app_nil_r [FU16 _; _]). eapply reads_back_bind; [by apply fields_back|]. cbv beta iota.
  assert (Hmax : checkedSize (S := PayloadReader) (ds_max_message_size subscriber) = mret (ds_max_message_size subscriber)).
  { unfold checkedSize. rewrite (proj2 (Z.ltb_ge _ _)); [done|]. do 2 apply Forall_cons_1 in Hty1 as [_ Hty1].
    apply Forall_cons_1 in Hty1 as [Hm _]. simpl in Hm. ulia. }
  rewrite Hmax. apply reads_back_ret.
Qed.

(** A counted list of entries: the number of them fits, and they are read back one by one. *)
Lemma entries_of {A B} (entry : cpp PayloadReader B) (f : A -> list field) (g : A -> B) l fuel :
  (forall a, a ∈ l -> f a <> [] /\ reads_back entry (f a) (g a)) ->
  (length (fields_bytes (flat_map f l)) <= fuel)%nat ->
  reads_back (read_entries fuel entry (Z.of_nat (length l))) (flat_map f l) (map g l).
Proof.
  intros Hl Hfuel. rewrite flat_map_concat_map in *. rewrite <- (length_map g l). apply entries_back.
  - clear Hfuel. induction l as [|a l IH]; simpl; constructor; [apply Hl; set_solver|]. apply IH. intros b Hb. apply Hl. set_solver.
  - rewrite length_map. etrans; [|exact Hfuel]. rewrite <- (length_map f l). apply entries_fit. apply list.Forall_forall.
    intros gs (a & -> & Ha)%list_elem_of_fmap. by apply Hl.
Qed.

(** The count is not cut off, because a body holds fewer entries than bytes. *)
Lemma count_fits {A} (f : A -> list field) l : (forall a, f a <> []) ->
  Z.of_nat (length (fields_bytes (flat_map f l))) <= kMaxControlPayloadSize -> wrap 32 (Z.of_nat (length l)) = Z.of_nat (length l).
Proof.
  intros Hf Hlen. apply wrap_small. pose proof (entries_fit (map f l)) as Hfit.
  rewrite flat_map_concat_map in Hlen. unfold kMaxControlPayloadSize in Hlen. unfold fits. rewrite length_map in Hfit.
  assert (Forall (fun gs => gs <> []) (map f l)) as Hne by (apply list.Forall_forall; by intros gs (a & -> & _)%list_elem_of_fmap).
  specialize (Hfit Hne). lia.
Qed.

Lemma counted_size fs gs : Z.of_nat (length (fields_bytes (fs ++ gs))) <= kMaxControlPayloadSize ->
  Z.of_nat (length (fields_bytes gs)) <= kMaxControlPayloadSize.
Proof. rewrite fields_bytes_app, length_app. lia. Qed.

Lemma Forall_flat_map_elem {A B} (Q : B -> Prop) (f : A -> list B) l a : Forall Q (flat_map f l) -> a ∈ l -> Forall Q (f a).
Proof.
  induction l as [|x l IH]; simpl; [by intros _ ?%elem_of_nil|]. intros [Hx Hl]%Forall_app [->|Ha]%elem_of_cons; [done|by apply IH].
Qed.

(** Header fields, a counted list, the end. *)
Lemma counted_closes {A B C} (entry : cpp PayloadReader B) (f : A -> list field) (g : A -> B) (k : list B -> cpp PayloadReader C) l fuel c :
  (forall a, f a <> []) -> (forall a, Forall field_typed (f a) -> reads_back entry (f a) (g a)) ->
  Forall field_typed (flat_map f l) -> Z.of_nat (length (fields_bytes (flat_map f l))) <= kMaxControlPayloadSize ->
  (length (fields_bytes (flat_map f l)) <= fuel)%nat -> closes (k (map g l)) [] c ->
  closes (read_entries fuel entry (wrap 32 (Z.of_nat (length l))) ≫= k) (flat_map f l) c.
Proof.
  intros Hf Hentry Hty Hlen Hfuel Hk. rewrite (count_fits f) by done. rewrite <- (app_nil_r (flat_map f l)).
  eapply closes_bind; [|exact Hk]. apply entries_of; [|done]. intros a Ha. split; [done|]. apply Hentry. by eapply Forall_flat_map_elem.
Qed.

Lemma suffix_fuel fs gs : (length (fields_bytes gs) <= length (fields_bytes (fs ++ gs)))%nat.
Proof. rewrite fields_bytes_app, length_app. lia. Qed.

Lemma discovery_closes result : wire_ok (discovery_fields result) -> dr_subscribers result <> [] ->
  TransportType_of_u16 (TransportType_to_u16 (dr_transport result)) = dr_transport result ->
  closes (discovery_reader (length (fields_bytes (discovery_fields result)))) (discovery_fields result) (discovery_of result).
Proof.
  intros [Hty Hlen] Hne Hcast. apply Forall_app in Hty as [Hty1 Hty2]. unfold discovery_reader, discovery_fields.
  apply closes_fields; [done|done|]. cbv beta iota.
  apply (counted_closes _ _ subscriber_of); [done|apply subscriber_back|done|by eapply counted_size|apply suffix_fuel|].
  unfold discovery_of. rewrite Hcast. destruct (dr_subscribers result); [done|]. apply closes_end, closes_ret.
Qed.

(** Heartbeats. *)
Definition kind_event (kind : PeerEventKind) : PeerKind :=
  match kind with PublisherDead => PeerPublisherDead | SubscriberDead => PeerSubscriberDead end.
Definition event_of (event : PeerEventRecord) : RegistryPeerEvent :=
  mkRegistryPeerEvent (kind_event (ev_kind event)) (ev_target_endpoint_id event) (ev_dead_endpoint_id event)
    (ev_topic_id event) (ev_resource_id event).
Definition heartbeat_fields (state : LivenessState) (events : list PeerEventRecord) : list field :=
  [FU16 (LivenessState_to_u16 state); FU32 (wrap 32 (Z.of_nat (length events)))] ++ flat_map event_fields events.

Lemma event_back event : Forall field_typed (event_fields event) -> reads_back event_reader (event_fields event) (event_of event).
Proof.
  intros Hty. unfold event_reader. rewrite <- (app_nil_r (event_fields event)).
  eapply reads_back_bind; [by apply fields_back|]. unfold event_fields, event_of. cbv beta iota.
  destruct (ev_kind event); apply reads_back_ret.
Qed.

Lemma heartbeat_closes state events : wire_ok (heartbeat_fields state events) -> state = Alive \/ state = Suspected ->
  closes (heartbeat_reader (length (fields_bytes (heartbeat_fields state events)))) (heartbeat_fields state events)
    (mkHeartbeatResponse state (map event_of events)).
Proof.
  intros [Hty Hlen] Hst. apply Forall_app in Hty as [Hty1 Hty2]. unfold heartbeat_reader, heartbeat_fields.
  apply closes_fields; [done|done|]. cbv beta iota.
  assert (Hcast : LivenessState_of_u16 (LivenessState_to_u16 state) = state) by (by destruct Hst as [-> | ->]).
  rewrite Hcast. assert (alive_or_suspected state = true) as -> by (by destruct Hst as [-> | ->]). cbn [negb].
  apply (counted_closes _ _ event_of); [done|apply event_back|done|by eapply counted_size|apply suffix_fuel|].
  apply closes_end, closes_ret.
Qed.

(** Listings. *)
Definition node_fields (node : NodeRecord) : list field :=
  [FU64 (node_id node); FStr (node_name node); FU16 (LivenessState_to_u16 (liveness node))].
Definition node_of_record (node : NodeRecord) : RegistryNodeInfo := mkRegistryNodeInfo (node_id node) (node_name node) (liveness node).

Lemma list_closes {A B} (entry : cpp PayloadReader B) (f : A -> list field) (g : A -> B) l : (forall a, f a <> []) ->
  (forall a, a ∈ l -> Forall field_typed (f a) -> reads_back entry (f a) (g a)) ->
  wire_ok (FU32 (wrap 32 (Z.of_nat (length l))) :: flat_map f l) ->
  closes (list_reader (length (fields_bytes (FU32 (wrap 32 (Z.of_nat (length l))) :: flat_map f l))) entry)
    (FU32 (wrap 32 (Z.of_nat (length l))) :: flat_map f l) (map g l).
Proof.
  intros Hf Hentry [Hty Hlen]. change (?x :: ?y) with ([x] ++ y) in *. apply Forall_app in Hty as [Hty1 Hty2]. unfold list_reader.
  apply closes_fields; [done|done|]. cbv beta iota. pose proof (counted_size _ _ Hlen) as Hlen'.
  rewrite (count_fits f) by done. rewrite <- (app_nil_r (flat_map f l)) at 2. eapply closes_bind; [|apply closes_end, closes_ret].
  apply entries_of; [|apply suffix_fuel]. intros a Ha. split; [done|]. apply Hentry; [done|]. by eapply Forall_flat_map_elem.
Qed.

Lemma node_back node : liveness node = Alive \/ liveness node = Suspected -> Forall field_typed (node_fields node) ->
  reads_back node_reader (node_fields node) (node_of_record node).
Proof.
  intros Hst Hty. unfold node_reader. rewrite <- (app_nil_r (node_fields node)).
  eapply reads_back_bind; [by apply fields_back|]. unfold node_fields, node_of_record. cbv beta iota.
  assert (Hcast : LivenessState_of_u16 (LivenessState_to_u16 (liveness node)) = liveness node) by (by destruct Hst as [-> | ->]).
  rewrite Hcast. assert (alive_or_suspected (liveness node) = true) as -> by (by destruct Hst as [-> | ->]). apply reads_back_ret.
Qed.

Definition topic_fields (topic : TopicRecord) : list field := [FU64 (topic_id topic); FStr (topic_name topic)].
Definition topic_of_record (topic : TopicRecord) : RegistryTopicInfo :=
  mkRegistryTopicInfo (topic_id topic) (topic_name topic) "" "" UnixDomainSocket 0 0 0 empty_PoolDescriptor.

Lemma topic_back topic : Forall field_typed (topic_fields topic) ->
  reads_back topic_reader (topic_fields topic) (topic_of_record topic).
Proof.
  intros Hty. unfold topic_reader. rewrite <- (app_nil_r (topic_fields topic)).
  eapply reads_back_bind; [by apply fields_back|]. apply reads_back_ret.
Qed.

Definition topic_info_fields (topic : TopicRecord) : list field :=
  [FU64 (topic_id topic); FStr (topic_name topic); FStr (type_name topic);
   FStr (type_hash topic); FU16 (TransportType_to_u16 (topic_transport topic)); FU64 (topic_max_message_size topic);
   FU64 (if bool_decide (is_Some (publisher_endpoint topic)) then 1 else 0);
   FU64 (Z.of_nat (size (topic_subscriber_endpoints topic)))] ++ pool_fields (topic_pool topic).
Definition topic_info_of (topic : TopicRecord) : RegistryTopicInfo :=
  mkRegistryTopicInfo (topic_id topic) (topic_name topic) (type_name topic) (type_hash topic) (topic_transport topic)
    (topic_max_message_size topic) (if bool_decide (is_Some (publisher_endpoint topic)) then 1 else 0)
    (Z.of_nat (size (topic_subscriber_endpoints topic))) (pool_of (topic_id topic) (topic_pool topic)).

Lemma checkedSize_typed {S} value : fits 64 value -> checkedSize (S := S) value = mret value.
Proof. intros Hv. unfold checkedSize. rewrite (proj2 (Z.ltb_ge _ _)); [done|]. ulia. Qed.

Lemma topic_info_closes topic : Forall field_typed (topic_info_fields topic) ->
  TransportType_of_u16 (TransportType_to_u16 (topic_transport topic)) = topic_transport topic ->
  closes topic_info_reader (topic_info_fields topic) (topic_info_of topic).
Proof.
  intros Hty Hcast. apply closes_last; [done|done|]. unfold topic_info_fields, pool_fields in Hty |- *. simpl app in *. cbv beta iota.
  repeat match goal with H : Forall field_typed (_ :: _) |- _ => apply Forall_cons_1 in H as [? H] end. simpl field_typed in *.
  apply closes_end. rewrite !checkedSize_typed by done. rewrite Hcast. apply closes_ret.
Qed.

Definition stats_fields (stats : RegistryStatsSnapshot) : list field :=
  [FU64 (rss_node_count stats); FU64 (rss_topic_count stats); FU64 (rss_publisher_count stats);
   FU64 (rss_subscriber_count stats); FU64 (rss_heartbeat_received stats); FU64 (rss_suspected_count stats);
   FU64 (rss_dead_node_count stats)].
Definition stats_of (stats : RegistryStatsSnapshot) : RegistryStatsInfo :=
  mkRegistryStatsInfo (rss_node_count stats) (rss_topic_count stats) (rss_publisher_count stats)
    (rss_subscriber_count stats) (rss_heartbeat_received stats) (rss_suspected_count stats) (rss_dead_node_count stats).

Lemma stats_closes stats : Forall field_typed (stats_fields stats) -> closes stats_reader (stats_fields stats) (stats_of stats).
Proof. intros Hty. apply closes_last; [done|done|]. apply closes_end, closes_ret. Qed.

Definition registration_fields (result : IdResult) : list field := [FU64 (ir_id result); FU64 (ir_session_id result)].

Lemma registration_closes result : Forall field_typed (registration_fields result) -> ir_id result <> 0 -> ir_session_id result <> 0 ->
  closes registration_reader (registration_fields result) (mkRegistryRegistration (ir_id result) (ir_session_id result)).
Proof.
  intros Hty Hid Hsession. apply closes_last; [done|done|]. unfold registration_fields. cbv beta iota.
  rewrite (proj2 (Z.eqb_neq _ _) Hid), (proj2 (Z.eqb_neq _ _) Hsession). apply closes_end, closes_ret.
Qed.
