(* ===== verification/ClientTheorems.v ===== *)
(** * Registry client: theorems

    The client against an arbitrary registry, and against the registry server of this library:
    its requests end, responses reach it whatever the fragmentation, and the values it returns
    are the ones the server put into the response. *)

From Stdlib Require Import ZArith Lia Bool String.
From stdpp Require Import base gmap list strings option.
From S2P Require Import Prelude Types Outcome BigEndian ControlProtocol QueueProtocol SocketIo PublisherState PublisherReleases PublisherMethods PublisherUds SubscriberInvariant SubscriberMethods RegistryState RegistryServer ServerInvariant RegistryClient ClientInvariant ClientStreams ClientBodies.

Local Open Scope Z_scope.

(** ** An arbitrary registry *)

(** C19: A client survives any registry that reads its requests or closes the connection.
    Whatever bytes arrive, in whatever fragments and with whatever errors of [poll], [recv] and
    [send], every sequence of calls with a deadline on a new client ends, each call by returning or by
    an exception: no undefined behaviour, and no wait for a response beyond the returns of [poll],
    the last of which reports the deadline.  The client stays usable: the timeout and the range of
    the request ids are kept.  That the registry reads is a condition ([lk_reads]): the deadline
    does not cover the sending of a request, see [stalled_registry_blocks_request]. *)
Theorem client_withstands_registry answer config c link calls :
  create_client answer config = Ret c -> rf_request_timeout config < 2 ^ 40 -> link_ok link ->
  exists s', runs (for_each calls (fun call => attempt (run_call call);; mret tt)) (mkClientState c link) tt s' /\
    client_state_ok s' /\ rc_request_timeout (cs_client s') = rf_request_timeout config.
Proof.
  intros Hc Ht Hk. pose proof (create_client_state _ _ _ _ Hc Hk Ht) as Hok.
  pose proof (attempts_ok calls _ Hok) as H. apply wp_run in H as ([] & s' & Hrun & Hs' & Hto). exists s'. split_and!; [done|done|].
  rewrite Hto. unfold create_client in Hc. repeat case_match; by simplify_eq.
Qed.

Definition example_config : RegistryConfig := mkRegistryConfig "/run/mw" 2000 default_liveness.
Definition example_connect : connect_answer := mkConnectAnswer (inl 7) None.

(** A registry that answers with garbage, then closes the connection. *)
Definition garbage_link : Link :=
  mkLink (mkSocket [InData [1; 2; 3]] [] []) [mkPollReturn [] (-1) EINTR false; mkPollReturn [InData (replicate 20 255); InData []] 1 0 false] [] 5 false.

Lemma garbage_link_ok : link_ok garbage_link.
Proof.
  split; simpl.
  - repeat constructor; lia.
  - constructor; [constructor|]. constructor; [|constructor]. repeat constructor; simpl; unfold is_byte; lia.
  - constructor; [unfold clock_ok; lia|constructor].
  - done.
Qed.

Lemma client_withstands_registry_witness : exists s',
  runs (for_each [CallListNodes; CallQueryTopic "camera"] (fun call => attempt (run_call call);; mret tt))
    (mkClientState (mkRegistryClient (Some 7) 2000 1) garbage_link) tt s' /\ rc_next_request_id (cs_client s') = 3.
Proof.
  destruct (client_withstands_registry example_connect example_config (mkRegistryClient (Some 7) 2000 1) garbage_link
    [CallListNodes; CallQueryTopic "camera"]) as (s' & Hrun & _); [reflexivity|reflexivity|exact garbage_link_ok|].
  exists s'. split; [exact Hrun|]. apply (f_equal snd) in Hrun. simpl snd in Hrun. rewrite <- Hrun. vm_compute. reflexivity.
Defined.

(** *** A registry that has stopped reading *)

(** The bytes that replies of [send] take, and replies after which the sender goes on. *)
Definition bytes_taken (replies : list io_reply) : Z := foldr (fun reply total => Z.max 0 (io_result reply) + total) 0 replies.
Definition goes_on (reply : io_reply) : Prop := 0 < io_result reply \/ io_result reply < 0 /\ io_errno reply = EINTR.

Lemma bytes_taken_nonneg replies : 0 <= bytes_taken replies.
Proof. induction replies; simpl; lia. Qed.

Lemma writeAllWith_stalls data replies : forall transferred so, so_replies so = replies -> Forall goes_on replies ->
  0 <= transferred -> transferred + bytes_taken replies < Z.of_nat (length data) ->
  writeAllWith send_step (length replies) data transferred so = None.
Proof.
  induction replies as [|reply replies IH]; intros transferred so Hso Hgo Hpos Htaken; cbn [writeAllWith length]; simpl in Htaken.
  { by rewrite (proj2 (Z.ltb_lt _ _)) by lia. }
  apply Forall_cons_1 in Hgo as [Hr Hgo]. pose proof (bytes_taken_nonneg replies). rewrite (proj2 (Z.ltb_lt _ _)) by lia.
  unfold send_step at 1. rewrite Hso. destruct Hr as [Hr|[Hr He]].
  - rewrite (proj2 (Z.ltb_lt _ _)), (proj2 (Z.ltb_ge _ _)) by lia. apply IH; [done|done|lia|lia].
  - rewrite (proj2 (Z.ltb_ge _ _)), (proj2 (Z.eqb_neq _ _)), He by lia. cbn [Z.eqb]. apply IH; [done|done|lia|lia].
Qed.

(** A request to a registry that has stopped reading does not return, whatever its timeout: when the
    kernel takes less than the frame and then makes [send] wait, there is no outcome.  The
    deadline is only looked at once the frame has been sent. *)
Theorem stalled_registry_blocks_request opcode payload timeout out s : can_request s ->
  encodeControlFrame opcode (rc_next_request_id (cs_client s)) payload = Ret out ->
  ln_stalled (cs_link s) = true -> Forall goes_on (so_replies (ln_socket (cs_link s))) ->
  bytes_taken (so_replies (ln_socket (cs_link s))) < Z.of_nat (length out) ->
  fst (request opcode payload timeout s) = Undef.
Proof.
  intros [[fd Hfd] Hid] Hout Hst Hgo Htaken. unfold request, gets. unfold mbind at 1, cpp_bind at 1.
  rewrite Hfd, (proj2 (Z.eqb_neq _ _)) by lia. unfold set_registry_client, write_link, send_returns, writeAll. unfold_cpp.
  rewrite Hout. simpl. rewrite Hst. by rewrite (writeAllWith_stalls out (so_replies (ln_socket (cs_link s)))) by (try done; lia).
Qed.

(** The kernel takes ten bytes, is interrupted, and blocks. *)
Definition stalled_link : Link := mkLink (mkSocket [] [mkIoReply 10 0 []; mkIoReply (-1) EINTR []] []) [] [] 5 true.

Lemma stalled_registry_blocks_request_witness : forall timeout,
  fst (request ListNodes [] timeout (mkClientState (mkRegistryClient (Some 7) 2000 1) stalled_link)) = Undef.
Proof.
  intros timeout. apply (stalled_registry_blocks_request ListNodes [] timeout (match encodeControlFrame ListNodes 1 [] with Ret out => out | _ => [] end)).
  - split; [by eexists|simpl; lia].
  - vm_compute. reflexivity.
  - reflexivity.
  - repeat constructor; unfold goes_on; simpl; lia.
  - vm_compute. reflexivity.
Defined.

(** ** Responses of the server *)

(** An error code that has a value of its own on the wire. *)
Definition error_known (error : ErrorCode) : Prop :=
  fits 16 (ErrorCode_to_u16 error) /\ ErrorCode_of_u16 (ErrorCode_to_u16 error) = error.

(** What the client makes of an error code and a body: the body, the error, or, when the response
    does not fit into a frame, that it does not. *)
Definition answer_of (error : ErrorCode) (body : list Z) : outcome (list Z) :=
  if kMaxControlPayloadSize <? 6 + string_size (if is_ok error then "" else errorMessage error) + Z.of_nat (length body)
  then Throw (ex_middleware MessageTooLarge) else
  if is_ok error then Ret body else Throw (ex_middleware error).

Lemma envelope_verdict id error message body : error_known error -> string_size message <= 256 ->
  Z.of_nat (length body) <= kMaxControlPayloadSize ->
  exists payload, encodeResponsePayload error message body = Ret payload /\
    Z.of_nat (length payload) = 6 + string_size message + Z.of_nat (length body) /\
    verdict id id payload = if is_ok error then Ret body else Throw (ex_middleware error).
Proof.
  unfold kMaxControlPayloadSize. intros [Hfits Hcast] Hm Hlen.
  destruct (response_round_trip error message body) as (payload & Henc & Hpay & Hdec); [done|done|ulia|lia|].
  exists payload. split_and!; [done| |unfold verdict; rewrite Z.eqb_refl, Hdec; simpl; done].
  rewrite Hpay. simpl. rewrite !length_app, !length_encodeBigEndian, length_string_bytes. unfold string_size. lia.
Qed.

Lemma response_verdict id error body frame : error_known error -> Z.of_nat (length body) <= kMaxControlPayloadSize ->
  response_frame id error body = Ret frame ->
  exists payload, encodeControlFrame Response id payload = Ret frame /\ verdict id id payload = answer_of error body.
Proof.
  intros Herr Hlen. unfold response_frame, answer_of. set (message := if is_ok error then _ else _).
  assert (Hm : string_size message <= 256) by (unfold message; case_match; [done|apply errorMessage_short]).
  destruct (envelope_verdict id error message body Herr Hm Hlen) as (payload & -> & Hsize & Hv).
  destruct (envelope_verdict id MessageTooLarge (errorMessage MessageTooLarge) []) as (refusal & Henc & Hsize' & Hv');
    [by split|apply errorMessage_short|done|]. rewrite Henc. unfold mbind, outcome_bind.
  destruct (encodeControlFrame Response id payload) as [f|e|] eqn:Hf; pose proof Hf as Hf'; unfold encodeControlFrame in Hf';
    rewrite Hsize in Hf'; destruct (_ <? 6 + string_size message + _); simplify_eq.
  - intros [= <-]. by exists payload.
  - intros Hframe. by exists refusal.
Qed.

(** C20: A response reaches the client.  When the server's response to the client's next request
    arrives, cut into pieces at any places, spread over any number of polls and interrupted any
    number of times, the request sends exactly its frame, returns the body of the response, or
    throws the error the server reported, and takes exactly the response off the connection. *)
Theorem responses_reach_the_client opcode payload timeout out error body frame rest s :
  can_request s -> timeout_ok timeout -> delivering (cs_link s) ->
  encodeControlFrame opcode (rc_next_request_id (cs_client s)) payload = Ret out -> accepts out (ln_socket (cs_link s)) ->
  error_known error -> Z.of_nat (length body) <= kMaxControlPayloadSize ->
  response_frame (rc_next_request_id (cs_client s)) error body = Ret frame -> link_stream (cs_link s) = frame ++ rest ->
  exists s', request opcode payload timeout s = (answer_of error body, s') /\ exchanged out rest s s'.
Proof.
  intros Hcan Ht Hk Hout Hacc Herr Hlen Hframe Hstr.
  destruct (response_verdict _ _ _ _ Herr Hlen Hframe) as (response & Henc & <-).
  apply (request_exchange opcode payload timeout out _ response frame rest); try done. destruct Hcan. unfold fits. lia.
Qed.

Definition example_client : RegistryClient := mkRegistryClient (Some 7) 2000 1.
Definition unwrap {A} (d : A) (o : outcome A) : A := match o with Ret a => a | _ => d end.
Definition ok_frame : list Z := unwrap [] (response_frame 1 Ok [0; 0; 0; 0]).

(** The response in two pieces, after an interruption, with the start of another frame. *)
Definition fragmented_link : Link :=
  mkLink (mkSocket [InData (take 5 ok_frame)] [] [])
    [mkPollReturn [] (-1) EINTR false; mkPollReturn [InData (drop 5 ok_frame); InData [77]] 1 0 false] [] 5 false.

Lemma fragmented_link_delivers : delivering fragmented_link.
Proof.
  split; simpl.
  - by constructor.
  - constructor; [split; simpl; [constructor|right; split; [lia|done]]|]. constructor; [|constructor]. split; simpl; [by repeat constructor|].
    left. split; [lia|done].
  - constructor; [unfold clock_ok; lia|constructor].
  - done.
Qed.

Lemma responses_reach_the_client_witness : exists s',
  request ListNodes [] 2000 (mkClientState example_client fragmented_link) = (Ret [0; 0; 0; 0], s') /\
  link_stream (cs_link s') = [77].
Proof.
  destruct (responses_reach_the_client ListNodes [] 2000 (unwrap [] (encodeControlFrame ListNodes 1 [])) Ok [0; 0; 0; 0] ok_frame [77]
    (mkClientState example_client fragmented_link)) as (s' & Hrun & Hs').
  - split; [by eexists|simpl; lia].
  - unfold timeout_ok. lia.
  - exact fragmented_link_delivers.
  - vm_compute. reflexivity.
  - apply accepts_idle. reflexivity.
  - by vm_compute.
  - by vm_compute.
  - vm_compute. reflexivity.
  - vm_compute. reflexivity.
  - exists s'. split; [exact Hrun|exact (ex_stream _ _ _ _ Hs')].
Defined.

(** ** A response that comes too late *)

(** A caller that makes requests one after the other, and what it gets. *)
Fixpoint requests (l : list (Opcode * list Z)) (timeout : Z) : client (list (list Z + exn)) :=
  match l with
  | [] => mret []
  | (opcode, payload) :: l => r ← attempt (request opcode payload timeout); rs ← requests l timeout; mret (r :: rs)
  end.

(** The responses to the requests from [id] on. *)
Fixpoint responses_from (id : Z) (payloads : list (list Z)) : outcome (list Z) :=
  match payloads with
  | [] => Ret []
  | payload :: payloads =>
      frame ← encodeControlFrame Response id payload; rest ← responses_from (id + 1) payloads; Ret (frame ++ rest)
  end.

(** *** A deadline that passes *)

(** Only time has passed: [later] are the returns of [poll] that are left. *)
Definition waited (later : list poll_return) (s s' : ClientState) : Prop :=
  cs_client s' = cs_client s /\ ln_socket (cs_link s') = ln_socket (cs_link s) /\ ln_stalled (cs_link s') = ln_stalled (cs_link s) /\
  ln_polls (cs_link s') = later /\ Forall clock_ok (ln_time (cs_link s') :: ln_times (cs_link s')).

Lemma waited_trans l1 l2 s1 s2 s3 : waited l1 s1 s2 -> waited l2 s2 s3 -> waited l2 s1 s3.
Proof. intros (? & ? & ? & _ & _) (? & ? & ? & ? & ?). split_and!; [congruence..|done]. Qed.

Lemma steady_now_waits s : Forall clock_ok (ln_time (cs_link s) :: ln_times (cs_link s)) ->
  wp steady_now s (fun t s' => clock_ok t /\ waited (ln_polls (cs_link s)) s s').
Proof.
  intros Ht. unfold wp, steady_now. unfold_cpp. destruct s as [c [so polls times time stalled]]. simpl in *.
  pose proof Ht as [Hnow Hts]%Forall_cons_1. destruct times as [|t times]; simpl; [by split|].
  apply Forall_cons_1 in Hts as [Hnow' Hts]. split; [done|]. split_and!; [done..|]. by constructor.
Qed.

(** [poll] returned early, or at the end of its timeout, with nothing to read. *)
Definition interrupted (p : poll_return) : Prop := po_arrives p = [] /\ po_result p < 0 /\ po_errno p = EINTR.
Definition expired (p : poll_return) : Prop := po_arrives p = [] /\ po_result p = 0.

Lemma poll_waits t p later s : ln_polls (cs_link s) = p :: later -> po_arrives p = [] ->
  Forall clock_ok (ln_time (cs_link s) :: ln_times (cs_link s)) -> exists s', runs (poll t) s p s' /\ waited later s s'.
Proof.
  intros Hp Ha Ht. unfold runs, poll. unfold_cpp. rewrite Hp. eexists. split; [reflexivity|].
  unfold waited. simpl. rewrite Ha. unfold arrive. split_and!; try done. destruct (ln_socket (cs_link s)). unfold update_with. simpl.
  by rewrite app_nil_r.
Qed.

Lemma read_deadline_loop_expires size deadline timeout p later : deadline_ok deadline -> 0 < size -> expired p ->
  forall idle fuel s, ln_polls (cs_link s) = idle ++ p :: later -> Forall interrupted idle -> (length idle < fuel)%nat ->
  Forall clock_ok (ln_time (cs_link s) :: ln_times (cs_link s)) ->
  exists s', read_deadline_loop fuel size deadline timeout [] s = (Throw (ex_middleware Timeout), s') /\ waited later s s'.
Proof.
  intros Hd Hsize [Hp Hr]. induction idle as [|q idle IH]; intros [|fuel] s Hpolls Hidle Hfuel Ht; simpl in Hfuel; [lia| |lia|].
  all: cbn [read_deadline_loop length]; rewrite (proj2 (Z.ltb_lt _ _)) by (simpl; lia).
  all: pose proof (remainingPollTimeout_ok s (waited (ln_polls (cs_link s)) s) (steady_now_waits s Ht) deadline timeout Hd) as Hrem.
  all: destruct (proj1 (wp_run _ _ _) (Hrem ltac:(by split_and!))) as (t & s1 & Hrun1 & _ & Hs1); pose proof Hs1 as (_ & _ & _ & Hp1 & Ht1).
  all: rewrite Hpolls in Hp1; rewrite (bind_run _ _ _ _ _ Hrun1).
  - destruct (poll_waits t p later s1) as (s2 & Hrun2 & Hs2); [done|done|done|]. rewrite (bind_run _ _ _ _ _ Hrun2), Hr.
    exists s2. split; [done|]. by eapply waited_trans.
  - apply Forall_cons_1 in Hidle as [(Hq & Hneg & He) Hidle].
    destruct (poll_waits t q (idle ++ p :: later) s1) as (s2 & Hrun2 & Hs2); [done|done|done|]. rewrite (bind_run _ _ _ _ _ Hrun2).
    rewrite (proj2 (Z.eqb_neq _ _)), (proj2 (Z.ltb_lt _ _)), He by lia. cbn [Z.eqb].
    destruct (IH fuel s2) as (s3 & Hrun3 & Hs3); [apply Hs2|done|lia|apply Hs2|].
    exists s3. split; [done|]. eapply waited_trans; [|exact Hs3]. by eapply waited_trans.
Qed.

(** A request whose response does not come in time: the frame is sent, the request throws
    [Timeout], and the connection stays open. *)
Lemma request_expires opcode payload timeout out idle p later s : can_request s -> timeout_ok timeout ->
  encodeControlFrame opcode (rc_next_request_id (cs_client s)) payload = Ret out ->
  so_replies (ln_socket (cs_link s)) = [] -> ln_stalled (cs_link s) = false ->
  ln_polls (cs_link s) = idle ++ p :: later -> Forall interrupted idle -> expired p ->
  Forall clock_ok (ln_time (cs_link s) :: ln_times (cs_link s)) ->
  exists s', request opcode payload timeout s = (Throw (ex_middleware Timeout), s') /\
    cs_client s' = cs_client s <| rc_next_request_id := wrap 32 (rc_next_request_id (cs_client s) + 1) |> /\
    ln_polls (cs_link s') = later /\ ln_stalled (cs_link s') = false /\
    Forall clock_ok (ln_time (cs_link s') :: ln_times (cs_link s')) /\
    so_sent (ln_socket (cs_link s')) = so_sent (ln_socket (cs_link s)) ++ out /\ so_replies (ln_socket (cs_link s')) = [] /\
    so_incoming (ln_socket (cs_link s')) = so_incoming (ln_socket (cs_link s)).
Proof.
  intros [[fd Hfd] Hid] Hto Hout Hr Hst Hpolls Hidle Hp Ht.
  destruct (writeAll_idle out _ Hr) as (r & so & Hsend & Hdone & Hr').
  set (s1 := s <| cs_client := cs_client s <| rc_next_request_id := wrap 32 (rc_next_request_id (cs_client s) + 1) |> |>
               <| cs_link := cs_link s <| ln_socket := so |> |>).
  pose proof (deadline_after_ok s1 (waited (ln_polls (cs_link s1)) s1) (steady_now_waits s1 Ht) timeout Hto) as Hdl.
  apply wp_run in Hdl as (d & s2 & Hrun2 & Hd & Hs2). pose proof Hs2 as (_ & _ & _ & Hp2 & Ht2).
  destruct (read_deadline_loop_expires (Z.of_nat kControlHeaderSize) d timeout p later Hd ltac:(done) Hp idle (S (link_size (cs_link s2))) s2)
    as (s3 & Hrun3 & Hs3); [by rewrite Hp2|done| |done|].
  { unfold link_size. rewrite Hp2. change (ln_polls (cs_link s1)) with (ln_polls (cs_link s)). rewrite Hpolls, length_app. simpl. lia. }
  exists s3. pose proof (waited_trans _ _ _ _ _ Hs2 Hs3) as (Hc & Hso & Hst3 & Hp3 & Ht3). split.
  - unfold request, gets. unfold mbind at 1, cpp_bind at 1. rewrite Hfd, (proj2 (Z.eqb_neq _ _)) by lia.
    unfold set_registry_client, write_link, set_link, send_returns. unfold_cpp. rewrite Hout. simpl. rewrite Hst, Hsend, (bool_decide_true _ Hdone). simpl.
    change (s <| cs_client := _ |> <| cs_link := _ |>) with s1. unfold receiveFrame, readWithDeadline.
    unfold_cpp. rewrite Hrun2. simpl in Hrun3 |- *. by rewrite Hrun3.
  - rewrite Hc, Hso. split_and!; [done|done|by rewrite Hst3|done| |done|].
    + exact (writeAll_complete _ _ _ _ _ Hsend Hdone).
    + exact (writeAll_incoming _ _ _ _ _ Hsend).
Qed.

(** Requests whose predecessor's response comes first. *)
Lemma requests_stay_behind l late timeout stream more s :
  can_request s -> timeout_ok timeout -> delivering (cs_link s) -> so_replies (ln_socket (cs_link s)) = [] ->
  Forall (fun r => Z.of_nat (length r.2) <= kMaxControlPayloadSize) l -> length late = length l ->
  rc_next_request_id (cs_client s) + Z.of_nat (length l) < 2 ^ 32 ->
  responses_from (rc_next_request_id (cs_client s) - 1) late = Ret stream -> link_stream (cs_link s) = stream ++ more ->
  exists s', runs (requests l timeout) s (replicate (length l) (inr (ex_middleware InvalidRequestId))) s' /\
    rc_socket (cs_client s') = rc_socket (cs_client s) /\ link_stream (cs_link s') = more.
Proof.
  revert late stream s. induction l as [|[opcode payload] l IH]; intros late stream s Hcan Ht Hk Hr Hl Hlen Hids Hstream Hstr.
  { destruct late; [|done]. injection Hstream as <-. exists s. by split_and!. }
  destruct late as [|response late]; [done|]. simpl in Hstream. apply Forall_cons_1 in Hl as [Hp Hl]. simpl in Hp, Hids.
  destruct (encodeControlFrame Response _ response) as [frame| |] eqn:Hframe; [|done|done].
  unfold mbind, outcome_bind in Hstream. destruct (responses_from _ late) as [rest| |] eqn:Hrest; simplify_eq.
  assert (exists out, encodeControlFrame opcode (rc_next_request_id (cs_client s)) payload = Ret out) as [out Hout].
  { unfold encodeControlFrame. rewrite (proj2 (Z.ltb_ge _ _)) by done. eauto. }
  destruct (request_exchange opcode payload timeout out _ response frame (rest ++ more) s Hcan Ht Hk Hout (accepts_idle _ _ Hr) Hframe)
    as (s1 & Hrun & [Hc1 _ Hst1 Hk1 Hr1]); [destruct Hcan; unfold fits; lia|by rewrite Hstr, app_assoc|].
  assert (Hid1 : rc_next_request_id (cs_client s1) = rc_next_request_id (cs_client s) + 1).
  { rewrite Hc1. simpl. apply wrap_small. destruct Hcan. unfold fits. lia. }
  destruct (IH late rest s1) as (s2 & Hrun2 & Hs2 & Hst2); try done.
  - split; [rewrite Hc1; by apply Hcan|]. destruct Hcan. lia.
  - by apply Hr1.
  - lia.
  - rewrite Hid1. by replace (rc_next_request_id (cs_client s) + 1 - 1) with (rc_next_request_id (cs_client s) - 1 + 1) by lia.
  - exists s2. split_and!; [|by rewrite Hs2, Hc1|done]. cbn [requests length replicate]. eapply runs_bind; [|eapply runs_bind; [exact Hrun2|done]].
    unfold runs, attempt. rewrite Hrun. unfold verdict. by rewrite (proj2 (Z.eqb_neq _ _)) by lia.
Qed.

(** C24: A request that times out leaves its response on the connection, and the client never catches
    up.  The wait of a request, after any number of interruptions, ends at its deadline with nothing
    received: the request throws [Timeout] and the connection stays open.  When the registry's
    responses to it and to the requests after it then arrive, in any fragments, every later
    request throws [InvalidRequestId], although the registry answered each of them, and the
    connection is still open. *)
Theorem timed_out_client_stays_behind opcode payload l late timeout idle p later stream more s :
  can_request s -> timeout_ok timeout -> so_replies (ln_socket (cs_link s)) = [] -> so_incoming (ln_socket (cs_link s)) = [] ->
  ln_polls (cs_link s) = idle ++ p :: later -> Forall interrupted idle -> expired p ->
  delivering (cs_link s <| ln_polls := later |>) ->
  Forall (fun r => Z.of_nat (length r.2) <= kMaxControlPayloadSize) ((opcode, payload) :: l) -> length late = length l ->
  rc_next_request_id (cs_client s) + Z.of_nat (length l) + 1 < 2 ^ 32 ->
  responses_from (rc_next_request_id (cs_client s)) late = Ret stream ->
  flat_map fragment_bytes (concat (map po_arrives later)) = stream ++ more ->
  exists s', runs (requests ((opcode, payload) :: l) timeout) s
      (inr (ex_middleware Timeout) :: replicate (length l) (inr (ex_middleware InvalidRequestId))) s' /\
    rc_socket (cs_client s') = rc_socket (cs_client s) /\ link_stream (cs_link s') = more.
Proof.
  intros Hcan Ht Hr Hin Hpolls Hidle Hp Hk [Hpay Hl]%Forall_cons_1 Hlen Hids Hstream Hstr. simpl in Hpay.
  assert (exists out, encodeControlFrame opcode (rc_next_request_id (cs_client s)) payload = Ret out) as [out Hout].
  { unfold encodeControlFrame. rewrite (proj2 (Z.ltb_ge _ _)) by done. eauto. }
  destruct (request_expires opcode payload timeout out idle p later s) as (s1 & Hrun & Hc & Hp1 & Hst & Ht1 & _ & Hr1 & Hin1);
    [done..|apply Hk|done|done|done|apply Hk|]. rewrite Hin in Hin1.
  assert (Hid1 : rc_next_request_id (cs_client s1) = rc_next_request_id (cs_client s) + 1).
  { rewrite Hc. simpl. apply wrap_small. destruct Hcan. unfold fits. lia. }
  destruct (requests_stay_behind l late timeout stream more s1) as (s2 & Hrun2 & Hs2 & Hst2); try done.
  - split; [rewrite Hc; apply Hcan|]. destruct Hcan. lia.
  - split; rewrite ?Hin1, ?Hp1; [constructor|apply Hk|done|done].
  - lia.
  - rewrite Hid1. by replace (rc_next_request_id (cs_client s) + 1 - 1) with (rc_next_request_id (cs_client s)) by lia.
  - unfold link_stream, link_incoming. by rewrite Hin1, Hp1.
  - exists s2. split_and!; [|by rewrite Hs2, Hc|done]. cbn [requests]. eapply runs_bind; [|eapply runs_bind; [exact Hrun2|done]].
    unfold runs, attempt. by rewrite Hrun.
Qed.

(** The poll of the first request is interrupted and then times out; the responses come afterwards. *)
Definition empty_response : list Z := unwrap [] (encodeResponsePayload Ok "" []).
Definition late_polls : list poll_return :=
  [mkPollReturn [InData (unwrap [] (encodeControlFrame Response 1 empty_response))] 1 0 false;
   mkPollReturn [InData (unwrap [] (encodeControlFrame Response 2 empty_response))] 1 0 false].
Definition slow_client : ClientState :=
  mkClientState example_client (mkLink idle_socket (mkPollReturn [] (-1) EINTR false :: mkPollReturn [] 0 0 false :: late_polls) [] 5 false).

Lemma timed_out_client_stays_behind_witness : exists s',
  runs (requests [(ListNodes, []); (ListTopics, []); (QueryStats, [])] 2000) slow_client
    [inr (ex_middleware Timeout); inr (ex_middleware InvalidRequestId); inr (ex_middleware InvalidRequestId)] s' /\
  rc_socket (cs_client s') = Some 7.
Proof.
  destruct (timed_out_client_stays_behind ListNodes [] [(ListTopics, []); (QueryStats, [])] [empty_response; empty_response] 2000
    [mkPollReturn [] (-1) EINTR false] (mkPollReturn [] 0 0 false) late_polls
    (unwrap [] (responses_from 1 [empty_response; empty_response])) [] slow_client) as (s' & Hrun & Hs' & _).
  - split; [by eexists|vm_compute; done].
  - unfold timeout_ok. lia.
  - reflexivity.
  - reflexivity.
  - reflexivity.
  - repeat constructor; simpl; lia.
  - done.
  - split; simpl.
    + constructor.
    + repeat (constructor; [split; simpl; [by repeat constructor|left; split; [lia|done]]|]). constructor.
    + constructor; [unfold clock_ok; lia|constructor].
    + done.
  - repeat constructor; vm_compute; discriminate.
  - reflexivity.
  - vm_compute. reflexivity.
  - vm_compute. reflexivity.
  - vm_compute. reflexivity.
  - exists s'. split; [exact Hrun|exact Hs'].
Defined.

(** ** Bodies *)

(** C22: What the server writes is what the client reads: the bodies of the responses to
    registrations, advertisements and subscriptions, discoveries, heartbeats, node and topic
    lists, topic queries and statistics are parsed back into the values the registry put into
    them, for every value that fits the types of its fields and a frame. *)
Theorem response_bodies_round_trip :
  (forall result, wire_ok (registration_fields result) -> ir_id result <> 0 -> ir_session_id result <> 0 ->
     (body ← write_body (registration_fields result); readRegistration body) = Ret (mkRegistryRegistration (ir_id result) (ir_session_id result))) /\
  (forall result, wire_ok (endpoint_fields result) -> (body ← endpointBody result; readEndpoint body) = Ret (endpoint_of result)) /\
  (forall result, wire_ok (discovery_fields result) -> dr_subscribers result <> [] ->
     TransportType_of_u16 (TransportType_to_u16 (dr_transport result)) = dr_transport result ->
     (body ← discoveryBody result; parse_body (discovery_reader (length body)) body) = Ret (discovery_of result)) /\
  (forall state events, wire_ok (heartbeat_fields state events) -> state = Alive \/ state = Suspected ->
     (body ← write_body (heartbeat_fields state events); parse_body (heartbeat_reader (length body)) body) =
     Ret (mkHeartbeatResponse state (map event_of events))) /\
  (forall nodes, wire_ok (FU32 (wrap 32 (Z.of_nat (length nodes))) :: flat_map node_fields nodes) ->
     Forall (fun node => liveness node = Alive \/ liveness node = Suspected) nodes ->
     (body ← write_body (FU32 (wrap 32 (Z.of_nat (length nodes))) :: flat_map node_fields nodes);
      parse_body (list_reader (length body) node_reader) body) = Ret (map node_of_record nodes)) /\
  (forall topics, wire_ok (FU32 (wrap 32 (Z.of_nat (length topics))) :: flat_map topic_fields topics) ->
     (body ← write_body (FU32 (wrap 32 (Z.of_nat (length topics))) :: flat_map topic_fields topics);
      parse_body (list_reader (length body) topic_reader) body) = Ret (map topic_of_record topics)) /\
  (forall topic, wire_ok (topic_info_fields topic) ->
     TransportType_of_u16 (TransportType_to_u16 (topic_transport topic)) = topic_transport topic ->
     (body ← write_body (topic_info_fields topic); parse_body topic_info_reader body) = Ret (topic_info_of topic)) /\
  (forall stats, wire_ok (stats_fields stats) -> (body ← write_body (stats_fields stats); parse_body stats_reader body) = Ret (stats_of stats)).
Proof.
  split_and!.
  - intros result Hw Hid Hsession. apply (written_body_reads (fun _ => registration_reader)); [done|]. by apply registration_closes; [apply Hw|..].
  - intros result Hw. apply (written_body_reads (fun _ => endpoint_reader)); [done|]. apply endpoint_closes, Hw.
  - intros result Hw Hne Hcast. unfold discoveryBody. change (_ ++ _ ++ _ ++ _) with (discovery_fields result).
    apply (written_body_reads discovery_reader); [done|]. by apply discovery_closes.
  - intros state events Hw Hst. apply (written_body_reads heartbeat_reader); [done|]. by apply heartbeat_closes.
  - intros nodes Hw Hst. apply (written_body_reads (fun n => list_reader n node_reader)); [done|].
    apply list_closes; [done| |done]. intros node Hnode. rewrite list.Forall_forall in Hst. by apply node_back, Hst.
  - intros topics Hw. apply (written_body_reads (fun n => list_reader n topic_reader)); [done|].
    apply list_closes; [done| |done]. intros topic _. apply topic_back.
  - intros topic Hw Hcast. apply (written_body_reads (fun _ => topic_info_reader)); [done|]. apply topic_info_closes; [apply Hw|done].
  - intros stats Hw. apply (written_body_reads (fun _ => stats_reader)); [done|]. apply stats_closes, Hw.
Qed.

(** A discovery of one subscriber. *)
Definition example_discovery : DiscoveryResult :=
  mkDiscoveryResult Ok 3 SharedMemory (mkSharedPoolMetadata "/mw_pool" 9 4096 1)
    [mkDiscoveredSubscriber 11 "/run/sub" 1024 (mkSharedQueueMetadata "/mw_queue" 5 512 8 1 2 100)].

Lemma response_bodies_round_trip_witness :
  (body ← discoveryBody example_discovery; parse_body (discovery_reader (length body)) body) = Ret (discovery_of example_discovery).
Proof.
  apply response_bodies_round_trip.
  - split; [|vm_compute; discriminate].
    repeat (apply list.Forall_cons; split; [vm_compute; intuition discriminate|]). by apply list.Forall_nil.
  - discriminate.
  - reflexivity.
Defined.
