(* ===== verification/SessionTheorems.v ===== *)
(** * Registry session: theorems

    However the heartbeat thread and the application interleave, a session hands the peer events
    of the heartbeat responses to their endpoints, in order and once; a session that ends, or whose construction fails
    after the registration, unregisters its node and closes its connections. *)

From Stdlib Require Import ZArith Lia Bool String.
From stdpp Require Import base list strings option sets.
From S2P Require Import Prelude Types Outcome ControlProtocol SocketIo PublisherState PublisherMethods PublisherUds SubscriberState SubscriberMethods RegistryClient RegistrySession ClientInvariant ClientStreams.

Local Open Scope Z_scope.

(** ** Peer events *)

#[export] Instance RegistryPeerEvent_eq_dec : EqDecision RegistryPeerEvent.
Proof. solve_decision. Defined.

Definition event_key (event : RegistryPeerEvent) : PeerKind * Z * Z :=
  (re_kind event, re_target_endpoint_id event, re_dead_endpoint_id event).

Lemma same_event_key a b : same_event a b = true <-> event_key a = event_key b.
Proof.
  unfold same_event, event_key. split.
  - intros H. bools. congruence.
  - intros [= -> -> ->]. by rewrite bool_decide_true, !Z.eqb_refl.
Qed.

(** At most 4096 events, no two with the same key. *)
Definition events_ok (pending : list RegistryPeerEvent) : Prop :=
  (length pending <= kMaxPendingPeerEvents)%nat /\ NoDup (map event_key pending).

(** The key of [event] is among those of [pending]. *)
Definition known (pending : list RegistryPeerEvent) (event : RegistryPeerEvent) : Prop := event_key event ∈ map event_key pending.

Lemma known_app l1 l2 e : known (l1 ++ l2) e <-> known l1 e \/ known l2 e.
Proof. unfold known. by rewrite map_app, elem_of_app. Qed.

Lemma recorded_known pending event : existsb (fun existing => same_event existing event) pending = true <-> known pending event.
Proof.
  rewrite existsb_exists. unfold known. rewrite list_elem_of_fmap. split.
  - intros (x & Hx & Hs). exists x. split; [symmetry; by apply same_event_key|by apply list_elem_of_In].
  - intros (x & Hk & Hx). exists x. split; [by apply list_elem_of_In|by apply same_event_key].
Qed.

Lemma record_event_ok pending event : events_ok pending -> events_ok (record_event pending event).
Proof.
  intros [Hlen Hnd]. unfold record_event. destruct (existsb _ pending) eqn:Hex; [done|].
  assert (Hnew : event_key event ∉ map event_key pending) by (intros Hk%recorded_known; congruence).
  destruct (length pending =? kMaxPendingPeerEvents)%nat eqn:Hfull.
  - apply Nat.eqb_eq in Hfull. destruct pending as [|p pending]; [done|]. simpl in *. apply list.NoDup_cons in Hnd as [_ Hnd].
    split; [rewrite length_app; simpl; lia|]. rewrite map_app. apply list.NoDup_app. split_and!; [done| |apply NoDup_singleton].
    intros k Hk ->%list_elem_of_singleton. apply Hnew. by right.
  - apply Nat.eqb_neq in Hfull. split; [rewrite length_app; simpl; lia|]. rewrite map_app. apply list.NoDup_app.
    split_and!; [done| |apply NoDup_singleton]. by intros k Hk ->%list_elem_of_singleton.
Qed.

Lemma record_events_ok events pending : events_ok pending -> events_ok (fold_left record_event events pending).
Proof. revert pending. induction events; simpl; intros pending Hp; [done|]. auto using record_event_ok. Qed.

(** Nothing is recorded that was not received, nothing twice, and the order is kept. *)
Lemma record_event_sublist pending event : record_event pending event `sublist_of` pending ++ [event].
Proof.
  unfold record_event. destruct (existsb _ pending); [by apply sublist_inserts_r|]. apply sublist_app; [|done].
  destruct (_ =? _)%nat; [|done]. destruct pending; [done|]. by apply sublist_cons.
Qed.

Lemma record_events_sublist events pending : fold_left record_event events pending `sublist_of` pending ++ events.
Proof.
  revert pending. induction events as [|x events IH]; simpl; intros pending; [by rewrite app_nil_r|].
  etrans; [apply IH|]. change (x :: events) with ([x] ++ events). rewrite app_assoc. apply sublist_app; [apply record_event_sublist|done].
Qed.

(** While there is room nothing is lost. *)
Lemma record_events_complete events pending : (length pending + length events <= kMaxPendingPeerEvents)%nat ->
  (length (fold_left record_event events pending) <= length pending + length events)%nat /\
  forall e, known (pending ++ events) e -> known (fold_left record_event events pending) e.
Proof.
  revert pending. induction events as [|x events IH]; simpl; intros pending Hroom; [rewrite app_nil_r; split; [lia|done]|].
  assert (Hstep : (length (record_event pending x) <= S (length pending))%nat /\ forall e, known (pending ++ [x]) e -> known (record_event pending x) e).
  { unfold record_event. destruct (existsb _ pending) eqn:Hex.
    - split; [lia|]. intros e. unfold known. rewrite map_app, elem_of_app. intros [He|He%list_elem_of_singleton]; [done|].
      rewrite He. by apply recorded_known.
    - rewrite (proj2 (Nat.eqb_neq _ _)) by lia. split; [rewrite length_app; simpl; lia|done]. }
  destruct Hstep as [Hlen Hk]. destruct (IH (record_event pending x)) as [Hl Hall]; [lia|]. split; [lia|]. intros e He. apply Hall.
  change (x :: events) with ([x] ++ events) in He. specialize (Hk e). rewrite !known_app in *. naive_solver.
Qed.

(** ** Steps *)

Lemma heartbeat_ends node session s : client_state_ok s ->
  ends (heartbeat node session) s (fun _ s' => after_request s s') (fun e s' => after_request s s' /\ client_error e).
Proof. intros Hok. apply ask_parse_ok; [done|apply heartbeat_parsed]. Qed.

(** The connections may be used, and a thread that sends heartbeats has one. *)
Record session_ok (s : RegistrySession) : Prop := {
  so_control : client_state_ok (ss_client s);
  so_heartbeat : forall c, ss_heartbeat_client s = Some c -> client_state_ok c;
  so_thread : forall phase, ss_heartbeat_thread s = Some phase -> is_Some (ss_heartbeat_client s);
}.

(** What the thread is about to record. *)
Definition in_hand (s : RegistrySession) : list RegistryPeerEvent :=
  match ss_heartbeat_thread s with Some (HeartbeatReceived events) => events | _ => [] end.

(** The events of the response that the registry gives to the heartbeat the thread is about to
    send, if it gives one. *)
Definition answered (s : RegistrySession) : list RegistryPeerEvent :=
  match ss_heartbeat_thread s, ss_heartbeat_client s with
  | Some HeartbeatSending, Some c =>
      match fst (heartbeat (ss_node_id s) (ss_session_id s) c) with Ret response => hb_events response | _ => [] end
  | _, _ => []
  end.

(** A step of the thread leaves everything but its connection, its phase and the events alone. *)
Definition thread_moves (s s' : RegistrySession) : Prop :=
  ss_client s' = ss_client s /\ ss_config s' = ss_config s /\ ss_node_id s' = ss_node_id s /\ ss_session_id s' = ss_session_id s /\
  ss_stop_heartbeat s' = ss_stop_heartbeat s /\ ss_peer_events s' = fold_left record_event (in_hand s) (ss_peer_events s).

(** The phase after a step, with what the phase before allows. *)
Definition next_phase (s s' : RegistrySession) : Prop :=
  match ss_heartbeat_thread s with
  | None | Some HeartbeatFinished => ss_heartbeat_thread s' = ss_heartbeat_thread s
  | Some HeartbeatWaiting => ss_heartbeat_thread s' = Some (if ss_stop_heartbeat s then HeartbeatFinished else HeartbeatSending)
  | Some HeartbeatSending => in_hand s' = answered s /\
      (ss_heartbeat_thread s' = Some HeartbeatFinished \/ ss_heartbeat_thread s' = Some HeartbeatWaiting \/
       exists events, ss_heartbeat_thread s' = Some (HeartbeatReceived events))
  | Some (HeartbeatReceived _) => ss_heartbeat_thread s' = Some HeartbeatWaiting
  end.

Lemma heartbeat_step_ok s : session_ok s ->
  wp heartbeat_step s (fun _ s' => session_ok s' /\ thread_moves s s' /\ next_phase s s').
Proof.
  intros Hok. pose proof Hok as [Hc Hh Ht]. unfold heartbeat_step, thread_moves, next_phase, in_hand, answered. apply wp_bind. unfold wp at 1, this.
  destruct (ss_heartbeat_thread s) as [[| |events|]|] eqn:Hph.
  - unfold wp, modify. split_and!; try done. split; [done|done|]. intros phase _. by eapply Ht.
  - unfold wp, on_heartbeat_client. destruct (Ht _ eq_refl) as [c Hhc]. rewrite Hhc.
    pose proof (heartbeat_ends (ss_node_id s) (ss_session_id s) c (Hh _ Hhc)) as He. unfold ends in He.
    destruct (heartbeat _ _ c) as [[response|e|] c']; [| |done].
    all: split; [split; [done|simpl; intros c0 [= <-]; apply He|simpl; eauto]|split; [by split_and!|]]; simpl.
    2: by split; [|left].
    destruct (hb_events response); (split; [done|]); [by right; left|right; right; eauto].
  - unfold wp, modify. split_and!; try done. split; [done|done|]. intros phase _. by eapply Ht.
  - apply wp_ret. by split_and!.
  - apply wp_ret. by split_and!.
Qed.

(** ** Runs of a session *)

Inductive session_action :=
  | SessionStep
  | SessionTake (target_endpoint_id : Z)
  | SessionCall (call : client_call).

(** What is seen of a run: the steps of the thread, each with the events of the response it got, the
    calls of [takePeerEvents], each with its target and what it returned, and other calls. *)
Inductive session_entry :=
  | Stepped (events : list RegistryPeerEvent)
  | Took (target_endpoint_id : Z) (events : list RegistryPeerEvent)
  | Called.

Definition session_act (action : session_action) : session session_entry :=
  match action with
  | SessionStep => s ← this; heartbeat_step;; mret (Stepped (answered s))
  | SessionTake target => taken ← takePeerEvents target; mret (Took target taken)
  | SessionCall call => attempt (on_client (run_call call));; mret Called
  end.

Fixpoint session_run (actions : list session_action) : session (list session_entry) :=
  match actions with
  | [] => mret []
  | action :: actions => entry ← session_act action; trace ← session_run actions; mret (entry :: trace)
  end.

(** The events of all responses, and those handed to an endpoint. *)
Definition got (trace : list session_entry) : list RegistryPeerEvent :=
  flat_map (fun entry => match entry with Stepped events => events | _ => [] end) trace.
Definition handed (target : Z) (trace : list session_entry) : list RegistryPeerEvent :=
  flat_map (fun entry => match entry with Took target' events => if decide (target' = target) then events else [] | _ => [] end) trace.
Definition events_for (target : Z) (events : list RegistryPeerEvent) : list RegistryPeerEvent :=
  filter (fun event => re_target_endpoint_id event = target) events.

(** The next call of [takePeerEvents] for the target of [e] returns an event about the same
    endpoints; if there is none, such an event is pending. *)
Fixpoint delivered (e : RegistryPeerEvent) (trace : list session_entry) (pending : list RegistryPeerEvent) : Prop :=
  match trace with
  | [] => known pending e
  | Took target events :: trace => if decide (target = re_target_endpoint_id e) then known events e else delivered e trace pending
  | _ :: trace => delivered e trace pending
  end.

(** An event of a response is delivered from the thread's next step on; before, the thread holds it. *)
Fixpoint delivered_after_step (e : RegistryPeerEvent) (trace : list session_entry) (s : RegistrySession) : Prop :=
  match trace with
  | [] => e ∈ in_hand s
  | Stepped _ :: trace => delivered e trace (ss_peer_events s)
  | _ :: trace => delivered_after_step e trace s
  end.

Fixpoint all_delivered (trace : list session_entry) (s : RegistrySession) : Prop :=
  match trace with
  | [] => True
  | Stepped events :: trace => Forall (fun e => delivered_after_step e trace s) events /\ all_delivered trace s
  | _ :: trace => all_delivered trace s
  end.

(** *** One action *)

Record acted (entry : session_entry) (s s' : RegistrySession) : Prop := {
  ac_ok : session_ok s';
  ac_events : events_ok (ss_peer_events s) -> events_ok (ss_peer_events s');
  ac_entry : match entry with
    | Stepped events => ss_peer_events s' = fold_left record_event (in_hand s) (ss_peer_events s) /\ in_hand s' = events /\
        (in_hand s = [] \/ events = [])
    | Took target events => events = events_for target (ss_peer_events s) /\ in_hand s' = in_hand s /\
        ss_peer_events s' = filter (fun event => re_target_endpoint_id event <> target) (ss_peer_events s)
    | Called => ss_peer_events s' = ss_peer_events s /\ in_hand s' = in_hand s
    end;
}.

Lemma step_hand s s' : next_phase s s' -> in_hand s' = answered s /\ (in_hand s = [] \/ answered s = []).
Proof.
  unfold next_phase, in_hand, answered. destruct (ss_heartbeat_thread s) as [[| |events|]|].
  - intros ->. by destruct (ss_stop_heartbeat s); split; auto.
  - intros [? _]. by split; [|left].
  - intros ->. by split; [|right].
  - intros ->. by split; [|left].
  - intros ->. by split; [|left].
Qed.

Lemma session_act_ok action s : session_ok s -> wp (session_act action) s (fun entry s' => acted entry s s').
Proof.
  intros Hok. destruct action as [|target|call]; cbn [session_act].
  - apply wp_bind. unfold wp at 1, this. apply wp_bind. eapply wp_mono; [|by apply heartbeat_step_ok].
    intros _ s' (Hok' & (_ & _ & _ & _ & _ & Hev) & Hph). apply wp_ret. destruct (step_hand _ _ Hph).
    split; [done|rewrite Hev; apply record_events_ok|done].
  - unfold takePeerEvents. unfold wp. unfold_cpp. destruct Hok. split; [by split| |done]. simpl.
    intros [Hlen Hnd]. split; [etrans; [apply length_filter|done]|]. eapply sublist_NoDup; [exact Hnd|]. apply fmap_sublist, sublist_filter.
  - unfold wp, attempt, on_client. unfold_cpp. pose proof (run_call_ok call _ (so_control _ Hok)) as He. unfold ends in He.
    destruct (run_call call (ss_client s)) as [[a|e|] c']; [| |done].
    all: split; [destruct Hok; split; simpl; [apply He|done|done]|done|done].
Qed.

(** *** Order: every list of events an endpoint sees is part of what came for it *)

Lemma events_for_app target l1 l2 : events_for target (l1 ++ l2) = events_for target l1 ++ events_for target l2.
Proof. apply filter_app. Qed.

Lemma events_for_sublist target l1 l2 : l1 `sublist_of` l2 -> events_for target l1 `sublist_of` events_for target l2.
Proof. apply filter_sublist. Qed.

Lemma events_for_rest target l : events_for target (filter (fun event => re_target_endpoint_id event <> target) l) = [].
Proof.
  destruct (events_for target _) as [|e rest] eqn:Heq; [done|].
  assert (He : e ∈ events_for target (filter (fun event => re_target_endpoint_id event <> target) l)) by (rewrite Heq; left).
  by apply list_elem_of_filter in He as [? [? _]%list_elem_of_filter].
Qed.

(** What [entry] handed to the endpoint, then what is kept for it, is part of what was kept
    before and what [entry] brought. *)
Definition kept_for (target : Z) (s : RegistrySession) : list RegistryPeerEvent := events_for target (ss_peer_events s ++ in_hand s).

Lemma acted_in_order target entry s s' : acted entry s s' ->
  handed target [entry] ++ kept_for target s' `sublist_of` kept_for target s ++ events_for target (got [entry]).
Proof.
  intros [_ _ He]. unfold kept_for. rewrite !events_for_app. destruct entry as [events|target' events|]; simpl;
    change (events_for target []) with (@nil RegistryPeerEvent); rewrite ?app_nil_r.
  - destruct He as (-> & -> & Hempty). rewrite <- !events_for_app. apply events_for_sublist. rewrite <- app_assoc.
    destruct Hempty as [->| ->]; simpl; [done|]. rewrite !app_nil_r. apply record_events_sublist.
  - destruct He as (-> & -> & ->). case_decide as Heq; [subst; by rewrite events_for_rest|].
    simpl. apply sublist_app; [|done]. apply events_for_sublist, sublist_filter.
  - by destruct He as [-> ->].
Qed.

(** *** Delivery: while there is room nothing is lost *)

Lemma kept_room entry s s' : acted entry s s' ->
  (length (ss_peer_events s) + length (in_hand s) + length (got [entry]) <= kMaxPendingPeerEvents)%nat ->
  (length (ss_peer_events s') + length (in_hand s') <= length (ss_peer_events s) + length (in_hand s) + length (got [entry]))%nat.
Proof.
  intros [_ _ He] Hroom. destruct entry as [events|target events|]; simpl in *; rewrite ?app_nil_r in *.
  - destruct He as (-> & -> & _). destruct (record_events_complete (in_hand s) (ss_peer_events s)) as [Hl _]; lia.
  - destruct He as (_ & -> & ->). pose proof (length_filter (fun event => re_target_endpoint_id event <> target) (ss_peer_events s)). lia.
  - destruct He as [-> ->]. lia.
Qed.

Lemma known_for target pending e : known pending e ->
  if decide (target = re_target_endpoint_id e) then known (events_for target pending) e
  else known (filter (fun event => re_target_endpoint_id event <> target) pending) e.
Proof.
  unfold known. rewrite list_elem_of_fmap. intros (x & Hkey & Hx). assert (re_target_endpoint_id x = re_target_endpoint_id e) by (unfold event_key in Hkey; congruence).
  case_decide; rewrite list_elem_of_fmap; exists x; (split; [done|]); apply list_elem_of_filter; split; [congruence|done|congruence|done].
Qed.

(** *** Runs *)

Inductive traced : list session_entry -> RegistrySession -> RegistrySession -> Prop :=
  | traced_nil s : traced [] s s
  | traced_cons entry trace s s1 s' : acted entry s s1 -> traced trace s1 s' -> traced (entry :: trace) s s'.

Lemma session_run_ok actions : forall s, session_ok s -> wp (session_run actions) s (fun trace s' => traced trace s s' /\ session_ok s').
Proof.
  induction actions as [|action actions IH]; intros s Hok; cbn [session_run].
  - apply wp_ret. split; [constructor|done].
  - apply wp_bind. eapply wp_mono; [|by apply session_act_ok]. intros entry s1 H1. apply wp_bind.
    eapply wp_mono; [|apply IH, H1]. intros trace s2 [H2 Hok2]. apply wp_ret. split; [exact (traced_cons _ _ _ _ _ H1 H2)|done].
Qed.

Lemma traced_events trace s s' : traced trace s s' -> events_ok (ss_peer_events s) -> events_ok (ss_peer_events s').
Proof. induction 1 as [|entry trace s s1 s' Ha _ IH]; [done|]. intros Hev. by apply IH, (ac_events _ _ _ Ha). Qed.

Lemma got_cons entry trace : got (entry :: trace) = got [entry] ++ got trace.
Proof. simpl. by rewrite app_nil_r. Qed.
Lemma handed_cons target entry trace : handed target (entry :: trace) = handed target [entry] ++ handed target trace.
Proof. simpl. by rewrite app_nil_r. Qed.

Lemma traced_in_order target trace s s' : traced trace s s' ->
  handed target trace ++ kept_for target s' `sublist_of` kept_for target s ++ events_for target (got trace).
Proof.
  induction 1 as [s|entry trace s s1 s' Ha _ IH]; [by simpl; rewrite app_nil_r|].
  rewrite handed_cons, got_cons, events_for_app, <- app_assoc. apply (acted_in_order target) in Ha.
  etrans; [apply sublist_app; [done|exact IH]|]. rewrite !app_assoc. by apply sublist_app.
Qed.

Definition room (trace : list session_entry) (s : RegistrySession) : Prop :=
  (length (ss_peer_events s) + length (in_hand s) + length (got trace) <= kMaxPendingPeerEvents)%nat.

Lemma room_cons entry trace s s1 : acted entry s s1 -> room (entry :: trace) s -> room trace s1.
Proof. unfold room. rewrite got_cons, length_app. intros Ha Hroom. pose proof (kept_room _ _ _ Ha). lia. Qed.

Lemma traced_delivers trace s s' : traced trace s s' -> room trace s -> forall e, known (ss_peer_events s) e ->
  delivered e trace (ss_peer_events s').
Proof.
  induction 1 as [s|entry trace s s1 s' Ha _ IH]; intros Hroom e Hk; [done|]. specialize (IH (room_cons _ _ _ _ Ha Hroom) e).
  pose proof (ac_entry _ _ _ Ha) as He. destruct entry as [events|target events|]; cbn [delivered].
  - destruct He as (Hev & _). apply IH. rewrite Hev. unfold room in Hroom. apply record_events_complete; [lia|]. apply known_app. by left.
  - destruct He as (-> & _ & Hev). apply (known_for target) in Hk. case_decide; [done|]. apply IH. by rewrite Hev.
  - destruct He as (Hev & _). apply IH. by rewrite Hev.
Qed.

Lemma traced_delivers_held trace s s' : traced trace s s' -> room trace s -> forall e, e ∈ in_hand s -> delivered_after_step e trace s'.
Proof.
  induction 1 as [s|entry trace s s1 s' Ha Htr IH]; intros Hroom e Hin; [done|]. pose proof (room_cons _ _ _ _ Ha Hroom) as Hroom1.
  specialize (IH Hroom1 e). pose proof (ac_entry _ _ _ Ha) as He. destruct entry as [events|target events|]; cbn [delivered_after_step].
  - destruct He as (Hev & _). apply (traced_delivers _ _ _ Htr Hroom1). rewrite Hev. unfold room in Hroom.
    apply record_events_complete; [lia|]. apply known_app. right. unfold known. apply list_elem_of_fmap. eauto.
  - destruct He as (_ & Hh & _). apply IH. by rewrite Hh.
  - destruct He as (_ & Hh). apply IH. by rewrite Hh.
Qed.

Lemma traced_delivers_all trace s s' : traced trace s s' -> room trace s -> all_delivered trace s'.
Proof.
  induction 1 as [s|entry trace s s1 s' Ha Htr IH]; intros Hroom; [done|]. pose proof (room_cons _ _ _ _ Ha Hroom) as Hroom1.
  specialize (IH Hroom1). pose proof (ac_entry _ _ _ Ha) as He. destruct entry as [events|target events|]; cbn [all_delivered]; [|done|done].
  split; [|done]. destruct He as (_ & <- & _). apply list.Forall_forall. intros e. by apply (traced_delivers_held _ s1).
Qed.

(** C21: Peer events reach their endpoints.  However the steps of the heartbeat thread, the calls of
    the application on the control connection and its calls of [takePeerEvents] interleave,
    and whatever a registry that reads sends, the run goes on and at most 4096 events are pending,
    no two about the same pair of endpoints.  For every endpoint, the events handed to it
    followed by those kept for it are part of the events for it in the heartbeat responses, in the
    same order: none invented, none handed over twice, none to another endpoint.  And unless the
    responses bring more than 4096 events in all, none is lost: from the thread's next step
    on, the next call of [takePeerEvents] for the event's target returns an event about the same
    pair of endpoints, or, without such a call, one is pending. *)
Theorem peer_events_reach_their_endpoints actions s : session_ok s -> ss_peer_events s = [] -> in_hand s = [] ->
  exists trace s', runs (session_run actions) s trace s' /\ session_ok s' /\ events_ok (ss_peer_events s') /\
    (forall target, handed target trace ++ kept_for target s' `sublist_of` events_for target (got trace)) /\
    ((length (got trace) <= kMaxPendingPeerEvents)%nat -> all_delivered trace s').
Proof.
  intros Hok Hnil Hhand. pose proof (session_run_ok actions s Hok) as H. apply wp_run in H as (trace & s' & Hrun & Htr & Hok').
  exists trace, s'. split_and!; [done|done| | |].
  - eapply traced_events; [done|]. rewrite Hnil. split; [simpl; lia|constructor].
  - intros target. pose proof (traced_in_order target _ _ _ Htr) as Ho. unfold kept_for at 2 in Ho. by rewrite Hnil, Hhand in Ho.
  - intros Hroom. apply (traced_delivers_all _ s); [done|]. unfold room. by rewrite Hnil, Hhand.
Qed.

(** ** The end of a session *)

(** A request that is sent is sent whatever becomes of its response. *)
Lemma request_sends opcode payload timeout out s : can_request s -> 0 <= timeout -> timeout_ok timeout -> link_ok (cs_link s) ->
  encodeControlFrame opcode (rc_next_request_id (cs_client s)) payload = Ret out -> accepts out (ln_socket (cs_link s)) ->
  let sent s' := so_sent (ln_socket (cs_link s')) = so_sent (ln_socket (cs_link s)) ++ out in
  ends (request opcode payload timeout) s (fun _ s' => sent s') (fun _ s' => sent s').
Proof.
  intros [[fd Hfd] Hid] Hpos Ht Hk Hout (r & so & Hsend & Hdone) sent. unfold request. apply ends_bind. unfold ends at 1, gets.
  rewrite Hfd, (proj2 (Z.eqb_neq _ _)) by lia. cbv zeta. apply ends_bind, ends_modify. apply ends_bind. rewrite Hout.
  unfold ends at 1, lift. apply ends_bind. unfold ends at 1, write_link, send_returns. unfold_cpp. simpl. rewrite (lk_reads _ Hk), Hsend. unfold set_link. unfold_cpp. simpl.
  rewrite (bool_decide_true _ Hdone). cbn [negb]. set (s1 := s <| cs_client := _ |> <| cs_link := _ |>).
  assert (Hs1 : so_sent (ln_socket (cs_link s1)) = so_sent (ln_socket (cs_link s)) ++ out) by exact (writeAll_complete _ _ _ _ _ Hsend Hdone).
  assert (Hk1 : link_ok (cs_link s1)).
  { destruct Hk. split; simpl; [by rewrite (writeAll_incoming _ _ _ _ _ Hsend)|done..]. }
  apply ends_bind. eapply ends_mono; [| |apply (receiveFrame_ok timeout); done].
  2: { intros e s2 [(_ & _ & _ & Hsent2) _]. unfold sent. by rewrite Hsent2. }
  intros response s2 [(_ & _ & _ & Hsent2) Hb].
  assert (Hs2 : sent s2) by (unfold sent; by rewrite Hsent2).
  destruct (negb _); [done|]. destruct (negb _); [done|].
  pose proof (decodeResponsePayload_ok _ Hb) as Hd. unfold ends. destruct (decodeResponsePayload _) as [[env|]| |]; try done.
  by destruct (negb _).
Qed.

Lemma unregister_ok node s : client_state_ok s ->
  ends (unregisterNode node) s (fun _ s' => after_request s s') (fun e s' => after_request s s' /\ client_error e).
Proof. intros Hok. exact (run_call_ok (CallUnregisterNode node) s Hok). Qed.

(** The request to unregister the node was sent, if it could be. *)
Definition unregister_sent (node : Z) (s s' : ClientState) : Prop := forall out, can_request s ->
  encodeControlFrame UnregisterNode (rc_next_request_id (cs_client s)) (fields_bytes [FU64 node]) = Ret out ->
  accepts out (ln_socket (cs_link s)) -> so_sent (ln_socket (cs_link s')) = so_sent (ln_socket (cs_link s)) ++ out.

Lemma unregister_sends node s : client_state_ok s ->
  wp (ignore_errors (unregisterNode node)) s (fun _ s' => client_state_ok s' /\ unregister_sent node s s').
Proof.
  intros Hok. pose proof (unregister_ok node s Hok) as He. unfold wp, ignore_errors. unfold ends in He.
  assert (Hsent : unregister_sent node s (snd (unregisterNode node s))).
  { intros out Hcan Hout Hacc. destruct (co_timeout _ Hok) as [Hpos Hmax].
    pose proof (request_sends UnregisterNode (fields_bytes [FU64 node]) (rc_request_timeout (cs_client s)) out s Hcan ltac:(lia) Hmax (co_link _ Hok) Hout Hacc) as H.
    unfold unregisterNode, ask, ends in *. unfold_cpp. change (write_body [FU64 node]) with (@Ret (list Z) (fields_bytes [FU64 node])).
    cbv beta iota. by destruct (request _ _ _ s) as [[b|e|] s']. }
  destruct (unregisterNode node s) as [[a|e|] s']; [| |done]; split; try done; apply He.
Qed.

Lemma join_heartbeat_ok s : session_ok s -> ss_stop_heartbeat s = true ->
  wp join_heartbeat s (fun _ s' => session_ok s' /\ ss_heartbeat_thread s' = None /\ ss_client s' = ss_client s /\ ss_node_id s' = ss_node_id s).
Proof.
  intros Hok Hstop. unfold join_heartbeat.
  apply wp_bind. eapply wp_mono; [|by apply heartbeat_step_ok]. intros _ s1 (Hok1 & (Hc1 & _ & Hn1 & _ & Hst1 & _) & Hp1).
  apply wp_bind. eapply wp_mono; [|by apply heartbeat_step_ok]. intros _ s2 (Hok2 & (Hc2 & _ & Hn2 & _ & Hst2 & _) & Hp2).
  apply wp_bind. eapply wp_mono; [|by apply heartbeat_step_ok]. intros _ s3 (Hok3 & (Hc3 & _ & Hn3 & _ & Hst3 & _) & Hp3).
  apply wp_bind. unfold wp at 1, this.
  assert (Hph : ss_heartbeat_thread s3 = None \/ ss_heartbeat_thread s3 = Some HeartbeatFinished).
  { unfold next_phase in *. rewrite Hst1, Hstop in Hp2. rewrite Hst2, Hst1, Hstop in Hp3. rewrite Hstop in Hp1.
    destruct (ss_heartbeat_thread s) as [[]|]; [| |..]; try (apply proj2 in Hp1; destruct Hp1 as [Hp1|[Hp1|[? Hp1]]]); rewrite Hp1 in Hp2; rewrite Hp2 in Hp3; auto. }
  destruct Hph as [Hph|Hph]; rewrite Hph; [apply wp_ret|unfold wp, modify]; split_and!; try done; try (simpl; congruence).
  destruct Hok3. split; [done|done|done].
Qed.

(** A session that is destroyed leaves nothing behind.  Wherever its heartbeat thread is,
    the destructor waits for it and returns; both connections are closed; and the request to
    unregister the node has been sent, if the control connection was open and took it. *)
Theorem session_end_unregisters s : session_ok s ->
  exists s', runs destroy_session s tt s' /\ ss_heartbeat_thread s' = None /\ ss_heartbeat_client s' = None /\
    rc_socket (cs_client (ss_client s')) = None /\
    (ss_node_id s <> 0 -> unregister_sent (ss_node_id s) (ss_client s) (ss_client s')).
Proof.
  intros Hok. enough (wp destroy_session s (fun _ s' => ss_heartbeat_thread s' = None /\ ss_heartbeat_client s' = None /\
    rc_socket (cs_client (ss_client s')) = None /\ (ss_node_id s <> 0 -> unregister_sent (ss_node_id s) (ss_client s) (ss_client s')))) as H.
  { apply wp_run in H as ([] & s' & Hrun & H). by exists s'. }
  unfold destroy_session. apply wp_bind. unfold wp at 1, modify.
  apply wp_bind. eapply wp_mono; [|apply join_heartbeat_ok; [by destruct Hok; split|done]].
  intros _ s1 (Hok1 & Hth & Hc & Hn). simpl in Hc, Hn. apply wp_bind. unfold wp at 1, modify. apply wp_bind. unfold wp at 1, this. simpl.
  rewrite Hn. apply wp_bind. destruct (ss_node_id s =? 0) eqn:Hid; bools; cbn [negb].
  { apply wp_ret. unfold wp, modify. by split_and!. }
  pose proof (unregister_sends (ss_node_id s) _ (so_control _ Hok1)) as Hu. unfold wp, ignore_errors, on_client in *. simpl.
  destruct (unregisterNode (ss_node_id s) (ss_client s1)) as [[a|e|] c'] eqn:Hrun; [| |done].
  all: simpl; split_and!; [done..|]; intros _; rewrite <- Hc; exact (proj2 Hu).
Qed.

Lemma on_client_run {A} (method : client A) s r c : method (ss_client s) = (r, c) -> on_client method s = (r, s <| ss_client := c |>).
Proof. intros H. unfold on_client. by rewrite H. Qed.

Lemma register_ok name s : client_state_ok s ->
  ends (registerNode name) s (fun _ s' => after_request s s') (fun e s' => after_request s s' /\ client_error e).
Proof. intros Hok. apply ask_parse_ok; [done|]. intros body Hb. by eapply parse_parsed, registration_reader_ends. Qed.

(** Starting the heartbeat keeps the session's invariant and leaves the control connection alone, and
    a thread runs only if nothing was thrown. *)
Lemma start_heartbeat_ends env s : link_ok (se_heartbeat_link env) -> rf_request_timeout (ss_config s) < 2 ^ 40 ->
  ss_heartbeat_thread s = None ->
  ends (start_heartbeat env) s (fun _ s' => client_state_ok (ss_client s) -> session_ok s')
    (fun _ s' => ss_client s' = ss_client s /\ ss_node_id s' = ss_node_id s /\ ss_heartbeat_thread s' = None).
Proof.
  intros Hk Ht Hth. unfold start_heartbeat. apply ends_bind. unfold ends at 1, this. apply ends_bind, ends_lift.
  - unfold create_client, connectUnixSocket, makeAddress, createSocket. by repeat (case_match; try done; simplify_eq/=).
  - intros c Hc. apply ends_bind, ends_modify. apply ends_bind.
    pose proof (run_call_ok (CallAttachHeartbeat (ss_node_id s) (ss_session_id s)) _ (create_client_state _ _ _ _ Hc Hk Ht)) as He.
    cbn [run_call] in He. unfold ends at 1, on_heartbeat_client. simpl. unfold ends in He.
    destruct (attachHeartbeat _ _ _) as [[a|e|] c']; [|done|done]. destruct (se_thread env); [done|].
    intros Hcs. split; simpl; [done | intros ? [= <-]; apply He | by eexists].
  - done.
Qed.

(** C23: A session that cannot be constructed unregisters its node.  When the constructor fails
    after the registration, because the heartbeat connection is refused, the heartbeat cannot be
    attached or the thread cannot be started, the registration is taken back before the exception
    leaves the constructor, and both connections are closed. *)
Theorem failed_session_unregisters env node_name config c registration c1 e s :
  create_client (se_connect env) config = Ret c -> rf_request_timeout config < 2 ^ 40 ->
  link_ok (se_link env) -> link_ok (se_heartbeat_link env) ->
  registerNode node_name (mkClientState c (se_link env)) = (Ret registration, c1) ->
  create_session env node_name config = (Throw e, Some s) ->
  ss_heartbeat_client s = None /\ ss_heartbeat_thread s = None /\ rc_socket (cs_client (ss_client s)) = None /\
  ss_node_id s = 0 /\ unregister_sent (rr_node_id registration) c1 (ss_client s).
Proof.
  intros Hc Ht Hk Hk2 Hreg. unfold create_session. rewrite Hc. unfold construct. unfold mbind at 1, cpp_bind at 1.
  rewrite (on_client_run (registerNode node_name) (mkRegistrySession _ _ _ _ _ _ _ _) _ _ Hreg). unfold mbind at 1, cpp_bind at 1, modify at 1. set (s1 := mkRegistrySession _ _ _ _ _ _ _ _ <| ss_client := _ |> <| ss_node_id := _ |> <| ss_session_id := _ |>).
  pose proof (register_ok node_name _ (create_client_state _ _ _ _ Hc Hk Ht)) as Hok1. unfold ends in Hok1. rewrite Hreg in Hok1.
  destruct Hok1 as [Hok1 _]. pose proof (start_heartbeat_ends env s1 Hk2 Ht eq_refl) as Hs. unfold on_error, ends in *.
  destruct (start_heartbeat env s1) as [[a|e'|] s2]; [done| |done]. destruct Hs as (Hc2 & Hn2 & Hth2).
  pose proof (unregister_sends (rr_node_id registration) c1 Hok1) as Hu. unfold wp, ignore_errors in *. unfold_cpp. unfold on_client.
  rewrite Hc2, Hn2. simpl ss_client. simpl ss_node_id. destruct (unregisterNode (rr_node_id registration) c1) as [[a|e2|] c2]; [| |done].
  all: intros [= <- <-]; simpl; split_and!; try done; exact (proj2 Hu).
Qed.

(** ** Examples *)

Definition the {A} (default : A) (o : outcome A) : A := match o with Ret a => a | _ => default end.
(** A response frame with the given body. *)
Definition ok_response (id : Z) (fields : list field) : list Z :=
  the [] (payload ← encodeResponsePayload Ok "" (fields_bytes fields); encodeControlFrame Response id payload).

Definition quiet_link (arrives : list incoming) : Link := mkLink (mkSocket arrives [] []) [] [] 5 false.

Lemma quiet_link_ok arrives : Forall SubscriberInvariant.incoming_typed arrives -> link_ok (quiet_link arrives).
Proof. intros Ha. split; simpl; [done|constructor| |done]. constructor; [unfold clock_ok; lia|constructor]. Qed.

(** A subscriber of endpoint 11 died, which the next heartbeat reports. *)
Definition heartbeat_body : list field := [FU16 1; FU32 1; FU16 2; FU64 11; FU64 12; FU64 3; FU64 4].
Definition example_session : RegistrySession :=
  mkRegistrySession (mkClientState (mkRegistryClient (Some 7) 2000 2) (quiet_link []))
    (mkRegistryConfig "/run/mw" 2000 default_liveness) 1 1
    (Some (mkClientState (mkRegistryClient (Some 8) 2000 2) (quiet_link [InData (ok_response 2 heartbeat_body)])))
    (Some HeartbeatWaiting) false [].

Lemma client_of_ok fd id arrives : fits 32 id -> Forall SubscriberInvariant.incoming_typed arrives ->
  client_state_ok (mkClientState (mkRegistryClient (Some fd) 2000 id) (quiet_link arrives)).
Proof. intros Hid Ha. split; simpl; [by apply quiet_link_ok|lia|done]. Qed.

Lemma example_session_ok : session_ok example_session.
Proof.
  split; simpl.
  - apply client_of_ok; [unfold fits; lia|constructor].
  - intros c [= <-]. apply client_of_ok; [unfold fits; lia|]. constructor; [|constructor].
    apply all_bytes_spec. vm_compute. reflexivity.
  - by eexists.
Qed.

(** The thread waits, asks and records; the second call for the endpoint gets its event, a
    third nothing, and another endpoint nothing. *)
Definition example_actions : list session_action :=
  [SessionStep; SessionTake 11; SessionStep; SessionStep; SessionTake 12; SessionTake 11; SessionTake 11].
Definition example_event : RegistryPeerEvent := mkRegistryPeerEvent PeerSubscriberDead 11 12 3 4.

Lemma peer_events_reach_their_endpoints_witness : exists s',
  runs (session_run example_actions) example_session
    [Stepped []; Took 11 []; Stepped [example_event]; Stepped []; Took 12 []; Took 11 [example_event]; Took 11 []] s' /\
  ss_peer_events s' = [] /\ known [example_event] example_event.
Proof.
  destruct (peer_events_reach_their_endpoints example_actions example_session)
    as (trace & s' & Hrun & _ & _ & _ & Hall); [exact example_session_ok|reflexivity|reflexivity|].
  pose proof Hrun as Hrun'. unfold runs in Hrun'. vm_compute in Hrun'. injection Hrun' as <- <-.
  eexists. split; [exact Hrun|]. split; [reflexivity|]. specialize (Hall ltac:(vm_compute; lia)). cbn in Hall.
  destruct Hall as (_ & Hall & _). apply Forall_cons_1 in Hall as [Hall _]. exact Hall.
Defined.

Lemma session_end_unregisters_witness : exists s', runs destroy_session example_session tt s' /\
  rc_socket (cs_client (ss_client s')) = None /\
  so_sent (ln_socket (cs_link (ss_client s'))) = the [] (encodeControlFrame UnregisterNode 2 (fields_bytes [FU64 1])).
Proof.
  destruct (session_end_unregisters example_session example_session_ok) as (s' & Hrun & _ & _ & Hsock & Hsent).
  exists s'. split; [exact Hrun|]. split; [exact Hsock|]. apply (Hsent ltac:(discriminate)).
  - split; [by eexists|by vm_compute].
  - vm_compute. reflexivity.
  - apply accepts_idle. reflexivity.
Defined.

(** The node is registered; the heartbeat connection is refused. *)
Definition refused_env : session_env :=
  mkSessionEnv (mkConnectAnswer (inl 7) None) (quiet_link [InData (ok_response 1 [FU64 1; FU64 9])])
    (mkConnectAnswer (inl 8) (Some 111)) (quiet_link []) None.
Definition registered_client : outcome RegistryRegistration * ClientState :=
  registerNode "camera" (mkClientState (mkRegistryClient (Some 7) 2000 1) (se_link refused_env)).
Definition refused_session : outcome unit * option RegistrySession :=
  create_session refused_env "camera" (mkRegistryConfig "/run/mw" 2000 default_liveness).

Lemma failed_session_unregisters_witness :
  fst refused_session = Throw (ex_middleware RegistryUnavailable) /\
  forall s, snd refused_session = Some s -> ss_node_id s = 0 /\ unregister_sent 1 (snd registered_client) (ss_client s).
Proof.
  split; [vm_compute; reflexivity|]. intros s Hs.
  destruct (failed_session_unregisters refused_env "camera" (mkRegistryConfig "/run/mw" 2000 default_liveness)
    (mkRegistryClient (Some 7) 2000 1) (mkRegistryRegistration 1 9) (snd registered_client) (ex_middleware RegistryUnavailable) s)
    as (_ & _ & _ & Hnode & Hsent).
  - reflexivity.
  - reflexivity.
  - apply quiet_link_ok. constructor; [|constructor]. apply all_bytes_spec. vm_compute. reflexivity.
  - apply quiet_link_ok. constructor.
  - vm_compute. reflexivity.
  - change (refused_session = (Throw (ex_middleware RegistryUnavailable), Some s)). rewrite (surjective_pairing refused_session), Hs.
    reflexivity.
  - split; [exact Hnode|exact Hsent].
Defined.
