(* ===== verification/ClientServer.v ===== *)
(** * Client and server

    A call of a registry client is a call of the registry: the request the client sends is
    dispatched by the server to the method of [RegistryState] with the client's arguments, and the
    response takes the result, or the error, back to the caller. *)

From Stdlib Require Import ZArith Lia Bool String.
From stdpp Require Import base gmap list strings option.
From S2P Require Import Prelude Types Outcome BigEndian ControlProtocol SocketIo PublisherState SubscriberInvariant RegistryState RegistryInvariant RegistryOps RegistryInterface RegistryNames RegistryServer ServerInvariant ServerRequests ServerTheorems RegistryClient ClientInvariant ClientStreams ClientBodies ClientTheorems.

Local Open Scope Z_scope.

(** ** The client's side *)

(** A client that may send, with responses to come. *)
Record ready (cs : ClientState) : Prop := {
  rdy_can : can_request cs;
  rdy_timeout : timeout_ok (rc_request_timeout (cs_client cs));
  rdy_delivering : delivering (cs_link cs);
  rdy_replies : so_replies (ln_socket (cs_link cs)) = [];
}.

(** The header of the client's next request. *)
Definition next_header (cs : ClientState) (opcode : Opcode) (fields : list field) : ControlHeader :=
  mkControlHeader kControlMagic kControlVersion opcode (rc_next_request_id (cs_client cs)) (Z.of_nat (length (fields_bytes fields))).

Lemma next_frame cs opcode fields : wire_ok fields ->
  encodeControlFrame opcode (rc_next_request_id (cs_client cs)) (fields_bytes fields) =
  Ret (encodeControlHeader (next_header cs opcode fields) ++ fields_bytes fields).
Proof.
  intros [_ Hlen]. unfold encodeControlFrame, next_header. rewrite (proj2 (Z.ltb_ge _ _)) by done.
  rewrite wrap_small; [done|]. unfold kMaxControlPayloadSize in Hlen. unfold fits. lia.
Qed.

(** The client sent the request and got the answer. *)
Definition round_trip {A} (call : client A) (opcode : Opcode) (fields : list field) (rest : list Z) (answer : outcome A) (cs : ClientState) : Prop :=
  exists cs', call cs = (answer, cs') /\
    exchanged (encodeControlHeader (next_header cs opcode fields) ++ fields_bytes fields) rest cs cs'.

Lemma ask_round_trip {A} opcode fields (parse : list Z -> outcome A) error body frame rest cs :
  ready cs -> wire_ok fields -> error_known error -> Z.of_nat (length body) <= kMaxControlPayloadSize ->
  response_frame (rc_next_request_id (cs_client cs)) error body = Ret frame -> link_stream (cs_link cs) = frame ++ rest ->
  round_trip (body ← ask opcode fields; lift (parse body)) opcode fields rest (b ← answer_of error body; parse b) cs.
Proof.
  intros [Hcan Ht Hk Hr] Hw Herr Hlen Hframe Hstr.
  destruct (response_verdict _ _ _ _ Herr Hlen Hframe) as (response & Henc & Hv).
  destruct (request_exchange opcode (fields_bytes fields) (rc_request_timeout (cs_client cs)) _ _ response frame rest cs Hcan Ht Hk
    (next_frame cs opcode fields Hw) (accepts_idle _ _ Hr) Henc) as (cs' & Hrun & Hex); [destruct Hcan; unfold fits; lia|done|].
  exists cs'. split; [|done]. unfold ask. unfold_cpp. rewrite (write_body_typed _ (proj1 Hw)), Hrun, Hv. unfold outcome_bind.
  by destruct (answer_of error body).
Qed.

(** The result of a call that reports errors by exceptions. *)
Definition result_of {A} (error : ErrorCode) (value : A) : outcome A :=
  if is_ok error then Ret value else Throw (ex_middleware error).

Lemma answer_parsed {A} error fields (parse : list Z -> outcome A) value :
  Z.of_nat (length (fields_bytes fields)) <= kMaxControlPayloadSize - 262 ->
  (error = Ok -> parse (fields_bytes fields) = Ret value) ->
  (b ← answer_of error (fields_bytes fields); parse b) = result_of error value.
Proof.
  intros Hlen Hparse. unfold answer_of, result_of.
  assert (string_size (if is_ok error then "" else errorMessage error) <= 256) by (case_match; [done|apply errorMessage_short]).
  rewrite (proj2 (Z.ltb_ge _ _)) by lia. destruct (is_ok error) eqn:Hok; [|done]. apply Hparse.
  by destruct error.
Qed.

(** ** The server's side *)

(** The server reads the fields the client wrote. *)
Lemma reads_request fd header fields handler s : wire_ok fields ->
  reads fd header (fields_bytes fields) (map kind_of fields) handler s = handler fields s.
Proof.
  intros [Hty Hlen]. unfold reads. unfold mbind, cpp_bind, lift.
  pose proof (parse_written fields []) as Hp. rewrite app_nil_r in Hp. rewrite Hp; [done|done|].
  unfold kMaxControlPayloadSize in Hlen. lia.
Qed.

(** The clock is read; nothing else changes. *)
Lemma now_run s : exists time s1, now s = (Ret time, s1) /\ sv_clients s1 = sv_clients s /\ sv_state s1 = sv_state s /\
  (server_ok s -> server_ok s1).
Proof.
  unfold now. unfold_cpp. destruct (os_times (sv_os s)) as [|t ts]; [by eexists _, s|]. eexists _, _. split; [reflexivity|].
  split_and!; [done|done|]. intros []. by split.
Qed.

(** The registry answered [result] to a call from [s], and the client of [fd] was sent [frame]. *)
Definition answers (fd : Z) (c : ClientConnection) (frame : list Z) (t : RegistryState) (s' : ServerState) : Prop :=
  sv_clients s' !! fd = Some (with_output frame c) /\ sv_state s' = t.

Lemma respond_answers fd c request_id error body frame t s :
  Forall (fun answer => answer = None) (os_ctl (sv_os s)) -> sv_clients s !! fd = Some c ->
  response_frame request_id error body = Ret frame -> sv_state s = t ->
  exists s', queueResponse fd request_id error body s = (Ret tt, s') /\ answers fd c frame t s'.
Proof.
  intros Hctl Hc Hframe Ht. eexists. split; [by apply queueResponse_run|]. split; [|done]. rewrite respond_clients. apply lookup_insert_eq.
Qed.

(** ** Registration *)

Lemma register_result connection name now t : registry_wf t -> ids_left t 1 -> 0 < next_session_id_ t < 2 ^ 64 ->
  exists r t', runs (RegistryState.registerNode connection name now) t r t' /\ error_known (ir_error r) /\
    Forall field_typed (registration_fields r) /\ (ir_error r = Ok -> ir_id r <> 0 /\ ir_session_id r <> 0).
Proof.
  intros Hwf Hleft Hs. destruct (empty name) eqn:He.
  { eexists _, t. split; [unfold runs, RegistryState.registerNode; by rewrite He|]. split_and!; [done|by repeat constructor|done]. }
  destruct (node_names_ t !! name) eqn:Hname.
  { eexists _, t. split; [unfold runs, RegistryState.registerNode; rewrite He; unfold_cpp; by rewrite Hname|].
    split_and!; [done|by repeat constructor|done]. }
  eexists _, _. split; [by apply registerNode_runs|]. pose proof (ek_next _ (rw_endpoints _ Hwf)). destruct Hleft as (? & ? & ?).
  split_and!; [done| |simpl; lia]. constructor; [unfold field_typed, fits; simpl; lia|]. constructor; [unfold field_typed, fits; simpl; lia|constructor].
Qed.

(** Registering a node at the registry through a client is registering it at the registry.
    The server dispatches the request that the client sends to [RegistryState::registerNode] with the
    name the caller gave; and when its response reaches the client, the call returns the ids of
    the new node, or throws the error of the registry. *)
Theorem remote_registration fd c name cs s : server_ok s -> sv_clients s !! fd = Some c -> ids_left (sv_state s) 1 ->
  0 < next_session_id_ (sv_state s) < 2 ^ 64 -> ready cs -> wire_ok [FStr name] ->
  exists time r t frame s',
    runs (RegistryState.registerNode (cc_connection_id c) name time) (sv_state s) r t /\
    runs (dispatch fd (next_header cs RegisterNode [FStr name]) (fields_bytes [FStr name])) s tt s' /\
    answers fd c frame t s' /\
    forall rest, link_stream (cs_link cs) = frame ++ rest ->
      round_trip (RegistryClient.registerNode name) RegisterNode [FStr name] rest
        (result_of (ir_error r) (mkRegistryRegistration (ir_id r) (ir_session_id r))) cs.
Proof.
  intros Hok Hc Hleft Hses Hready Hw. destruct (now_run s) as (time & s1 & Hnow & Hcl1 & Hst1 & Hok1). specialize (Hok1 Hok).
  destruct (register_result (cc_connection_id c) name time (sv_state s) (vo_registry _ Hok) Hleft Hses) as (r & t & Hrun & Herr & Hty & Hids).
  destruct (response_frame_ok (rc_next_request_id (cs_client cs)) (ir_error r) (fields_bytes (registration_fields r))) as (frame & Hframe & _).
  destruct (respond_answers fd c (rc_next_request_id (cs_client cs)) (ir_error r) (fields_bytes (registration_fields r)) frame t
    (s1 <| sv_state := t |>)) as (s' & Hq & Hans); [apply Hok1|by simpl; rewrite Hcl1|done|done|].
  exists time, r, t, frame, s'. split_and!; [done| |done|].
  - unfold runs, dispatch. unfold mbind at 1, cpp_bind at 1. rewrite (clients_at_run _ _ _ Hc). cbn [next_header ctl_opcode].
    unfold handle_RegisterNode. rewrite (reads_request fd _ [FStr name]) by done. unfold_cpp. rewrite Hnow. unfold on_state.
    rewrite Hst1, Hrun. fold (registration_fields r). by rewrite (write_body_typed _ Hty).
  - intros rest Hstr.
    assert (Hlen : Z.of_nat (length (fields_bytes (registration_fields r))) <= kMaxControlPayloadSize - 262).
    { unfold registration_fields, fields_bytes. simpl. rewrite !length_app, !length_encodeBigEndian. by vm_compute. }
    unfold RegistryClient.registerNode. rewrite <- (answer_parsed _ _ readRegistration _ Hlen).
    + by eapply ask_round_trip.
    + intros Hr. apply parse_closes; [destruct (Hids Hr); by apply registration_closes|unfold kMaxControlPayloadSize in Hlen; lia].
Qed.

(** ** Advertisement *)

Lemma admission_known owned args s name type hash transport publishing code t :
  admission owned args (refusal s name type hash transport publishing) = (code, t) -> error_known code.
Proof. unfold admission, refusal. intros H. by repeat (case_match; simplify_eq/=). Qed.

Lemma advertise_result t connection id name type hash x transport pool :
  registry_wf t -> ids_left t 1 -> 0 <= x -> Forall field_typed (pool_fields pool) ->
  exists r t', runs (RegistryState.advertise connection id name type hash x transport pool) t r t' /\ error_known (ep_error r) /\
    (ep_pool r = pool \/ ep_pool r = empty_pool_metadata) /\ (ep_error r = Ok -> Forall field_typed (endpoint_fields r)).
Proof.
  intros Hwf Hleft Hx Hpool.
  destruct (admission (owns t connection id) (advertisable name type hash x transport pool) (refusal t name type hash transport true)) as [code u] eqn:Had.
  destruct (decide (code = Ok)) as [->|Hne].
  - destruct (advertise_accepted _ _ _ _ _ _ _ _ _ _ Hwf Hleft Hx Had) as (r & t' & Hrun & Hwf' & (Hn1 & Hn2 & Hn3) & [(Her & Hp & _) Hpubs _ (_ & T & HT & _) _]).
    exists r, t'. split_and!; [done|by rewrite Her|by left|]. intros _. unfold endpoint_fields. rewrite Hp. destruct Hleft as (? & ? & ?).
    pose proof (nk_topics _ (rw_names _ Hwf') _ _ HT) as (_ & _ & Htid).
    assert (Hpub : is_Some (publishers_ t' !! ep_endpoint_id r)) by (rewrite Hpubs, lookup_insert_eq; eauto).
    destruct Hpub as [P HP]. pose proof (ek_publishers _ (rw_endpoints _ Hwf') _ _ HP) as [Heid _].
    constructor; [unfold field_typed, fits; lia|]. constructor; [unfold field_typed, fits; lia|done].
  - exists (mkEndpointResult code u 0 empty_pool_metadata), t. split_and!; [by eapply advertise_refused|by eapply admission_known|by right|done].
Qed.

Definition pool_metadata (pool : PoolDescriptor) : SharedPoolMetadata :=
  mkSharedPoolMetadata (pd_shm_name pool) (pd_pool_id pool) (pd_segment_size pool) (pd_layout_version pool).

Definition advertise_fields (node_id : Z) (topic_name type_name type_hash : string) (max_message_size : Z)
    (transport : TransportType) (pool : PoolDescriptor) : list field :=
  [FU64 node_id; FStr topic_name; FStr type_name; FStr type_hash; FU64 max_message_size; FU16 (TransportType_to_u16 transport)] ++
  pool_fields (pool_metadata pool).

Lemma endpoint_body_size r : string_size (spm_shm_name (ep_pool r)) <= 1024 ->
  Z.of_nat (length (fields_bytes (endpoint_fields r))) <= kMaxControlPayloadSize - 262.
Proof.
  intros Hs. unfold endpoint_fields, pool_fields, fields_bytes. simpl. rewrite !length_app, !length_encodeBigEndian, length_string_bytes.
  unfold string_size in Hs. unfold kMaxControlPayloadSize. simpl. lia.
Qed.

(** C10: Advertising a topic through a client is advertising it at the registry: the server
    calls [RegistryState::advertise] with exactly the caller's arguments, and the call returns the
    endpoint of the registry's result, or throws its error. *)
Theorem remote_advertisement fd c node topic type hash x transport pool cs s :
  server_ok s -> sv_clients s !! fd = Some c -> ids_left (sv_state s) 1 -> ready cs ->
  wire_ok (advertise_fields node topic type hash x transport pool) -> x <= u32_max ->
  TransportType_of_u16 (TransportType_to_u16 transport) = transport -> string_size (pd_shm_name pool) <= 1024 ->
  let fields := advertise_fields node topic type hash x transport pool in
  exists r t frame s',
    runs (RegistryState.advertise (cc_connection_id c) node topic type hash x transport (pool_metadata pool)) (sv_state s) r t /\
    runs (dispatch fd (next_header cs AdvertiseTopic fields) (fields_bytes fields)) s tt s' /\
    answers fd c frame t s' /\
    forall rest, link_stream (cs_link cs) = frame ++ rest ->
      round_trip (RegistryClient.advertise node topic type hash x transport pool) AdvertiseTopic fields rest
        (result_of (ep_error r) (endpoint_of r)) cs.
Proof.
  intros Hok Hc Hleft Hready Hw Hx Hcast Hname fields. pose proof Hw as [Hty _]. apply Forall_app in Hty as [Hty Hpool].
  assert (0 <= x) by (do 4 apply Forall_cons_1 in Hty as [_ Hty]; apply Forall_cons_1 in Hty as [Hty _]; simpl in Hty; unfold fits in Hty; lia).
  destruct (advertise_result (sv_state s) (cc_connection_id c) node topic type hash x transport (pool_metadata pool) (vo_registry _ Hok) Hleft)
    as (r & t & Hrun & Herr & Hp & Htyped); [done|done|].
  assert (Hsize : string_size (spm_shm_name (ep_pool r)) <= 1024) by (destruct Hp as [-> | ->]; done).
  destruct (response_frame_ok (rc_next_request_id (cs_client cs)) (ep_error r) (fields_bytes (endpoint_fields r))) as (frame & Hframe & _).
  destruct (respond_answers fd c (rc_next_request_id (cs_client cs)) (ep_error r) (fields_bytes (endpoint_fields r)) frame t
    (s <| sv_state := t |>)) as (s' & Hq & Hans); [apply Hok|done|done|done|].
  exists r, t, frame, s'. split_and!; [done| |done|].
  - unfold runs, dispatch. unfold mbind at 1, cpp_bind at 1. rewrite (clients_at_run _ _ _ Hc). cbn [next_header ctl_opcode].
    unfold handle_AdvertiseTopic. rewrite (reads_request fd _ fields) by done. unfold fields at 1, advertise_fields, pool_fields, pool_metadata.
    cbn [app spm_shm_name spm_pool_id spm_segment_size spm_layout_version]. rewrite (proj2 (Z.ltb_ge _ _)) by done. rewrite Hcast.
    unfold_cpp. unfold on_state. fold (pool_metadata pool). rewrite Hrun.
    assert (Hbody : endpointBody r = Ret (fields_bytes (endpoint_fields r))).
    { apply write_body_ok. apply Forall_app. split; [by repeat constructor|]. apply pool_fields_writable. unfold pool_short, short, kMaxControlPayloadSize. lia. }
    by rewrite Hbody.
  - intros rest Hstr. pose proof (endpoint_body_size r Hsize) as Hlen.
    unfold RegistryClient.advertise. rewrite <- (answer_parsed _ _ readEndpoint _ Hlen).
    + eapply (ask_round_trip AdvertiseTopic fields); [done|exact Hw|done| |exact Hframe|done]. unfold kMaxControlPayloadSize in *. lia.
    + intros Hr. apply parse_closes; [by apply endpoint_closes, Htyped|unfold kMaxControlPayloadSize in Hlen; lia].
Qed.

(** ** Examples *)

(** A client to which a frame has come in two pieces. *)
Definition waiting_client (frame : list Z) : ClientState :=
  mkClientState (mkRegistryClient (Some 7) 2000 1) (mkLink (mkSocket [InData (take 3 frame); InData (drop 3 frame)] [] []) [] [] 5 false).

Lemma waiting_client_ready frame : (3 < length frame)%nat -> ready (waiting_client frame).
Proof.
  intros Hlen. split; [split; [by eexists|simpl; lia]|unfold timeout_ok; simpl; lia| |done].
  split; simpl; [|constructor|constructor; [unfold clock_ok; lia|constructor]|done].
  apply list.Forall_cons; split; [|apply list.Forall_cons; split; [|by apply list.Forall_nil]]; unfold PublisherReleases.fragment_ok; intros Hnil; apply (f_equal length) in Hnil; rewrite ?length_take, ?length_drop in Hnil; cbn [length] in Hnil; lia.
Qed.

Lemma waiting_client_stream frame : link_stream (cs_link (waiting_client frame)) = frame ++ [].
Proof. unfold link_stream, link_incoming. simpl. by rewrite app_assoc, take_drop, !app_nil_r. Qed.

(** What the server put out for client 5. *)
Definition put_out (r : outcome unit * ServerState) : list Z := match sv_clients (snd r) !! 5 with Some c => cc_output c | None => [] end.

Lemma put_out_frame frame t s s' call : runs call s tt s' -> answers 5 fresh_client frame t s' -> put_out (call s) = frame.
Proof. intros Hrun [Hc _]. unfold put_out. rewrite Hrun. simpl. by rewrite Hc. Qed.

Definition register_fields : list field := [FStr "camera"].
Definition register_answer : list Z :=
  put_out (dispatch 5 (next_header (waiting_client []) RegisterNode register_fields) (fields_bytes register_fields) connected_server).

Lemma remote_registration_witness : exists cs',
  RegistryClient.registerNode "camera" (waiting_client register_answer) = (Ret (mkRegistryRegistration 1 1), cs').
Proof.
  destruct (remote_registration 5 fresh_client "camera" (waiting_client register_answer) connected_server)
    as (time & r & t & frame & s' & Hreg & Hdisp & Hans & Hcall).
  - exact connected_server_ok.
  - by vm_compute.
  - by vm_compute.
  - by vm_compute.
  - apply waiting_client_ready. vm_compute. lia.
  - by split; [repeat constructor|vm_compute].
  - pose proof (put_out_frame _ _ _ _ _ Hdisp Hans) as Hframe. destruct (Hcall []) as (cs' & Hrun & _).
    { rewrite waiting_client_stream, <- Hframe. reflexivity. }
    exists cs'. rewrite Hrun. unfold runs in Hreg. vm_compute in Hreg. injection Hreg as <- _. reflexivity.
Defined.

Definition lidar_fields : list field := advertise_fields 1 "lidar" "scan" "h1" 1024 UnixDomainSocket empty_PoolDescriptor.
Definition registered_server : ServerState := waiting_server (registry_after subscribe_ops).
Definition advertise_answer : list Z :=
  put_out (dispatch 5 (next_header (waiting_client []) AdvertiseTopic lidar_fields) (fields_bytes lidar_fields) registered_server).

Lemma remote_advertisement_witness : exists cs',
  RegistryClient.advertise 1 "lidar" "scan" "h1" 1024 UnixDomainSocket empty_PoolDescriptor (waiting_client advertise_answer) =
    (Ret (mkRegistryEndpoint 2 3 (mkPoolDescriptor "" 0 0 2 0)), cs').
Proof.
  destruct (remote_advertisement 5 fresh_client 1 "lidar" "scan" "h1" 1024 UnixDomainSocket empty_PoolDescriptor
    (waiting_client advertise_answer) registered_server) as (r & t & frame & s' & Hreg & Hdisp & Hans & Hcall).
  - exact (waiting_server_ok _ subscribe_ops_ok).
  - by vm_compute.
  - by vm_compute.
  - apply waiting_client_ready. vm_compute. lia.
  - by split; [repeat constructor|vm_compute].
  - by vm_compute.
  - reflexivity.
  - by vm_compute.
  - pose proof (put_out_frame _ _ _ _ _ Hdisp Hans) as Hframe. destruct (Hcall []) as (cs' & Hrun & _).
    { rewrite waiting_client_stream, <- Hframe. reflexivity. }
    exists cs'. rewrite Hrun. unfold runs in Hreg. vm_compute in Hreg. injection Hreg as <- _. reflexivity.
Defined.
