(* ===== verification/Context.v ===== *)
(** * Contexts

    [Context] ([middleware/src/context.cpp]): a named node, with a registry session or without, that
    creates publishers and subscribers.  The constructors of the endpoints, modelled with the
    registry's answers as a parameter in [Publisher] and [Subscriber], are composed here with the
    session that gives these answers, and with the process: the counters behind the names of the
    shared-memory objects, the world and the host the endpoints live in. *)

From Stdlib Require Import ZArith Lia Bool String.
From stdpp Require Import base gmap list strings option pretty.
From S2P Require Import Prelude Types Outcome QueueProtocol PoolLayout MemoryPool SubscriberQueue PublisherState Publisher UnixListener SubscriberState Subscriber RegistryClient RegistrySession.

Local Open Scope Z_scope.

(** ** State *)

(** [Context::Impl] *)
Record ContextImpl := mkContextImpl {
  cx_node_name : string;
  cx_session : option RegistrySession;
}.
#[export] Instance ContextImpl_eta : Eta ContextImpl := fun c => mkContextImpl (cx_node_name c) (cx_session c).

(** The process: what its publishers and subscribers share with others, and the static counters of
    [nextPoolId] and [nextQueueId]. *)
Record Process := mkProcess {
  pr_world : World;
  pr_host : Host;
  pr_pool_counter : Z;
  pr_queue_counter : Z;
}.
#[export] Instance Process_eta : Eta Process := fun p => mkProcess (pr_world p) (pr_host p) (pr_pool_counter p) (pr_queue_counter p).

(** A [Context] is a pointer to its [Impl], null after it was moved from. *)
Record Owner := mkOwner {
  ow_context : option ContextImpl;
  ow_process : Process;
}.
#[export] Instance Owner_eta : Eta Owner := fun o => mkOwner (ow_context o) (ow_process o).

(** ** Construction *)

(** [Context(node_name)] *)
Definition create_context (node_name : string) : outcome ContextImpl :=
  if string_size node_name =? 0 then Throw ex_invalid_argument else Ret (mkContextImpl node_name None).

(** [Context(node_name, registry_config)], with what is left of a session that could not be
    constructed. *)
Definition create_registry_context (env : session_env) (node_name : string) (config : RegistryConfig)
    : outcome ContextImpl * option RegistrySession :=
  if string_size node_name =? 0 then (Throw ex_invalid_argument, None) else
  match create_session env node_name config with
  | (Ret _, session) => (Ret (mkContextImpl node_name session), None)
  | (Throw e, session) => (Throw e, session)
  | (Undef, session) => (Undef, session)
  end.

Definition nodeName (context : option ContextImpl) : string :=
  match context with Some c => cx_node_name c | None => "" end.

(** ** Accesses *)

(** [registry_session->method()] *)
Definition on_session {A} (method : session A) : cpp Owner A := fun o =>
  match ow_context o with
  | Some (mkContextImpl name (Some s)) =>
      let '(r, s') := method s in (r, o <| ow_context := Some (mkContextImpl name (Some s')) |>)
  | _ => (Undef, o)
  end.
Definition on_host {A} (method : cpp Host A) : cpp Owner A := fun o =>
  let '(r, h) := method (pr_host (ow_process o)) in (r, o <| ow_process := ow_process o <| pr_host := h |> |>).

(** [counter.fetch_add(1)] *)
Definition next_pool_counter : cpp Owner Z := fun o =>
  let counter := pr_pool_counter (ow_process o) in
  (Ret counter, o <| ow_process := ow_process o <| pr_pool_counter := wrap 32 (counter + 1) |> |>).
Definition next_queue_counter : cpp Owner Z := fun o =>
  let counter := pr_queue_counter (ow_process o) in
  (Ret counter, o <| ow_process := ow_process o <| pr_queue_counter := wrap 32 (counter + 1) |> |>).

(** ** Publishers *)

(** The process id, the kernel's answers to a direct connection, and the failing system call of
    the pool's segment. *)
Record publisher_env := mkPublisherEnv {
  pv_pid : Z;
  pv_connect : connect_answer;
  pv_os : option Z;
}.

(** [Publisher(topic, config, session)] *)
Definition registered_publisher (env : publisher_env) (topic : string) (config : PublisherConfig) : cpp Owner PublisherState.Impl :=
  lift (Publisher.validateConfig config true);;
  advertised ← (if bool_decide (pc_transport config = SharedMemory) then
                  counter ← next_pool_counter; lift (advertised_pool (pv_pid env) counter config)
                else mret empty_PoolDescriptor);
  endpoint ← on_session (advertise topic config advertised);
  let made pool := mkImpl topic config [] true pool (rg_topic_id endpoint) (rg_endpoint_id endpoint)
                     (pc_max_message_size config) 0 ∅ 0 true in
  if bool_decide (pc_transport config = SharedMemory) then
    let advertised := mkPoolDescriptor (pd_shm_name advertised) (pd_pool_id advertised) (pd_segment_size advertised)
                        (rg_topic_id endpoint) (pd_layout_version advertised) in
    match create_pool (pv_os env) (pv_pid env) advertised (pc_memory_pool config) with
    | Ret pool => mret (made (Some pool))
    | Throw e => on_session (unadvertise (rg_endpoint_id endpoint));; throw e
    | Undef => undefined
    end
  else mret (made None).

Definition createPublisher (env : publisher_env) (topic : string) (config : PublisherConfig) : cpp Owner PublisherState.Impl :=
  o ← this;
  match ow_context o with
  | None => throw ex_logic_error
  | Some context =>
      if string_size topic =? 0 then throw ex_invalid_argument else
      match cx_session context with
      | Some _ => registered_publisher env topic config
      | None => lift (create_direct (pv_connect env) topic config)
      end
  end.

(** ** Subscribers *)

(** The answers of [create_env] that do not come from the session or the process. *)
Record subscriber_env := mkSubscriberEnv {
  sv_listen : listen_answer;
  sv_pid : Z;
  sv_os : option Z;
  sv_errors : sync_call -> option Z;
  sv_close : lock_result;
  sv_detach : lock_result;
}.
Definition with_answers (env : subscriber_env) (counter : Z) (subscribe : QueueDescriptor -> outcome RegistryEndpoint) : create_env :=
  mkCreateEnv (sv_listen env) (sv_pid env) counter (sv_os env) (sv_errors env) subscribe (sv_close env) (sv_detach env).
(** In direct mode, and for the parts of the constructor before the subscription, nobody answers. *)
Definition no_session : QueueDescriptor -> outcome RegistryEndpoint := fun _ => Throw ex_logic_error.

(** [Subscriber(topic, config, session)] *)
Definition registered_subscriber (env : subscriber_env) (topic : string) (config : SubscriberConfig) : cpp Owner SubscriberImpl :=
  lift (Subscriber.validateConfig config true);;
  listener ← on_host (on_files (create_listener (sv_listen env) (uc_socket_path config) 1));
  or_cleanup
    ('(descriptor, queue) ← (if bool_decide (uc_transport config = SharedMemory) then
                               counter ← next_queue_counter;
                               let answers := with_answers env counter no_session in
                               d ← lift (advertised_queue answers config);
                               client ← on_host (create_own_queue answers d); mret (d, Some client)
                             else mret (empty_QueueDescriptor, None));
     endpoint ← or_cleanup (on_session (subscribe topic config descriptor)) (on_host (reset_queue (with_answers env 0 no_session) queue));
     mret (new_impl topic config listener true (rg_topic_id endpoint) (rg_endpoint_id endpoint) (rg_pool endpoint) queue))
    (on_host (on_files (cleanup_listener listener);; mret tt)).

Definition createSubscriber (env : subscriber_env) (topic : string) (config : SubscriberConfig) : cpp Owner SubscriberImpl :=
  o ← this;
  match ow_context o with
  | None => throw ex_logic_error
  | Some context =>
      if string_size topic =? 0 then throw ex_invalid_argument else
      match cx_session context with
      | Some _ => registered_subscriber env topic config
      | None => on_host (create_direct_subscriber (with_answers env 0 no_session) topic config)
      end
  end.

(** ** Lifetimes *)

(** A context that is constructed in the process. *)
Definition make_context (env : session_env) (node_name : string) (config : RegistryConfig) : cpp Owner unit := fun o =>
  match create_registry_context env node_name config with
  | (Ret c, _) => (Ret tt, o <| ow_context := Some c |>)
  | (Throw e, _) => (Throw e, o)
  | (Undef, _) => (Undef, o)
  end.

(** The destructor of the context, after those of its endpoints, ends the session. *)
Definition destroy_context : cpp Owner unit :=
  o ← this;
  match ow_context o with
  | Some (mkContextImpl _ (Some _)) => on_session destroy_session;; modify (fun o => o <| ow_context := None |>)
  | _ => modify (fun o => o <| ow_context := None |>)
  end.

(** [~Publisher] in a process whose session is that of the context. *)
Definition drop_publisher (env : call_env) (m : PublisherState.Impl) : cpp Owner unit :=
  o ← this;
  match destroy_publisher env (mkPubState m (pr_world (ow_process o))) with
  | (Ret _, s) =>
      modify (fun o => o <| ow_process := ow_process o <| pr_world := ps_world s |> |>);;
      if im_registry_session m && negb (im_endpoint_id m =? 0) then on_session (unadvertise (im_endpoint_id m)) else mret tt
  | (Throw e, _) => throw e
  | (Undef, _) => undefined
  end.

(** [~Subscriber] *)
Definition drop_subscriber (kernel : Kernel) (m : SubscriberImpl) : cpp Owner unit :=
  o ← this;
  match destroy_subscriber (mkSubState m (ho_shared (pr_host (ow_process o))) kernel (ho_files (pr_host (ow_process o))) []) with
  | (Ret _, s) =>
      modify (fun o => o <| ow_process := ow_process o <| pr_host := mkHost (su_shared s) (su_files s) |> |>);;
      if si_registry_session m && negb (si_endpoint_id m =? 0) then on_session (unsubscribe (si_endpoint_id m)) else mret tt
  | (Throw e, _) => throw e
  | (Undef, _) => undefined
  end.
