(* ===== verification/TypeSupport.v ===== *)
(** * Types of the ROS 2 adapter

    [type_support.cpp] of [ros2_adapter/mw_ros2_adapter]: the message types the bridges carry, their
    canonical names, and the hash by which the two ends of a topic agree on a type. *)

From Stdlib Require Import ZArith Lia Bool Ascii String.
From stdpp Require Import base list strings option.
From S2P Require Import Prelude Types Outcome.

Local Open Scope Z_scope.

(** ** Message types *)

Inductive SupportedMessageType :=
  | MessageString
  | MessageTwist
  | MessageImage.

#[export] Instance SupportedMessageType_eq_dec : EqDecision SupportedMessageType.
Proof. solve_decision. Defined.

Definition parseMessageType (canonical_name : string) : option SupportedMessageType :=
  if bool_decide (canonical_name = "std_msgs/msg/String"%string) then Some MessageString else
  if bool_decide (canonical_name = "geometry_msgs/msg/Twist"%string) then Some MessageTwist else
  if bool_decide (canonical_name = "sensor_msgs/msg/Image"%string) then Some MessageImage else None.

Definition canonicalTypeName (type : SupportedMessageType) : string :=
  match type with
  | MessageString => "std_msgs/msg/String"
  | MessageTwist => "geometry_msgs/msg/Twist"
  | MessageImage => "sensor_msgs/msg/Image"
  end.

(** ** Hashes *)

Definition kFnvOffsetBasis : Z := 14695981039346656037.
Definition kFnvPrime : Z := 1099511628211.

(** One iteration: [hash ^= byte; hash *= kFnvPrime;]. *)
Definition fnv_step (hash byte : Z) : Z := wrap 64 (Z.lxor hash byte * kFnvPrime).
Definition fnv1a64 (value : string) : Z := fold_left fnv_step (string_bytes value) kFnvOffsetBasis.

Definition hex_digit (d : Z) : ascii :=
  ascii_of_byte (if d <? 10 then 48 + d else 97 + (d - 10)).

(** The lowest [n] hexadecimal digits.  A 64-bit number has at most 16, so [std::hex] with
    [std::setw(16)] and the fill ['0'] prints exactly [hex 16]. *)
Fixpoint hex (n : nat) (value : Z) : string :=
  match n with
  | O => ""
  | S n => String (hex_digit (Z.land (Z.shiftr value (4 * Z.of_nat n)) 15)) (hex n value)
  end.

Definition adapterWireTypeHash (type : SupportedMessageType) : string :=
  let identity := ("mw_ros2_adapter|ros2-cdr|v1|" +:+ canonicalTypeName type)%string in
  "mw_ros2_adapter.cdr.v1.fnv1a64:" +:+ hex 16 (fnv1a64 identity).

(** ** Names *)

Lemma parse_canonical type : parseMessageType (canonicalTypeName type) = Some type.
Proof. by destruct type. Qed.

Lemma parse_inverse name type : parseMessageType name = Some type <-> name = canonicalTypeName type.
Proof.
  split; [|intros ->; apply parse_canonical]. unfold parseMessageType. repeat (case_bool_decide; [intros [= <-]; done|]). done.
Qed.

Lemma canonical_not_empty type : string_size (canonicalTypeName type) <> 0.
Proof. by destruct type. Qed.
Lemma type_hash_not_empty type : string_size (adapterWireTypeHash type) <> 0.
Proof. done. Qed.

(** ** The hash *)

Lemma kFnvPrime_odd : Z.gcd (2 ^ 64) kFnvPrime = 1.
Proof. vm_compute. reflexivity. Qed.

Lemma lxor_fits w a b : 0 <= w -> fits w a -> fits w b -> fits w (Z.lxor a b).
Proof.
  intros Hw [Ha Ha'] [Hb Hb']. assert (H0 : 0 <= Z.lxor a b) by (apply Z.lxor_nonneg; lia). split; [done|].
  destruct (Z.eq_dec (Z.lxor a b) 0) as [->|Hne]; [lia|]. apply Z.log2_lt_pow2; [lia|].
  pose proof (Z.log2_lxor a b Ha Hb). destruct (Z.eq_dec a 0) as [->|], (Z.eq_dec b 0) as [->|].
  - by rewrite Z.lxor_0_l in Hne.
  - rewrite Z.lxor_0_l in *. apply Z.log2_lt_pow2; lia.
  - rewrite Z.lxor_0_r in *. apply Z.log2_lt_pow2; lia.
  - apply Z.le_lt_trans with (Z.max (Z.log2 a) (Z.log2 b)); [done|].
    apply Z.max_lub_lt; apply Z.log2_lt_pow2; lia.
Qed.

Lemma fnv_step_fits hash byte : fits 64 (fnv_step hash byte).
Proof. by apply wrap_fits. Qed.

(** Multiplying by the prime loses nothing modulo [2^64]. *)
Lemma wrap_mul_inj a b : fits 64 a -> fits 64 b -> wrap 64 (a * kFnvPrime) = wrap 64 (b * kFnvPrime) -> a = b.
Proof.
  intros Ha Hb Heq. unfold wrap in Heq. assert (Hdiv : (2 ^ 64 | kFnvPrime * (a - b))).
  { apply Z.mod_divide; [done|]. replace (kFnvPrime * (a - b)) with (a * kFnvPrime - b * kFnvPrime) by lia.
    by rewrite Zminus_mod, Heq, Z.sub_diag. }
  apply Z.gauss in Hdiv; [|exact kFnvPrime_odd]. destruct Hdiv as [k Hk]. unfold fits in *. nia.
Qed.

Lemma fnv_step_inj_hash byte h h' : fits 64 h -> fits 64 h' -> is_byte byte -> fnv_step h byte = fnv_step h' byte -> h = h'.
Proof.
  intros Hh Hh' Hb Heq. assert (Hb' : fits 64 byte) by (unfold is_byte in Hb; unfold fits; lia).
  apply wrap_mul_inj in Heq; [|by apply lxor_fits ..]. apply (f_equal (Z.lxor byte)) in Heq.
  by rewrite !(Z.lxor_comm _ byte), <- !Z.lxor_assoc, Z.lxor_nilpotent, !Z.lxor_0_l in Heq.
Qed.

Lemma fnv_step_inj_byte hash b b' : fits 64 hash -> is_byte b -> is_byte b' -> fnv_step hash b = fnv_step hash b' -> b = b'.
Proof.
  intros Hh Hb Hb' Heq. apply wrap_mul_inj in Heq; [|apply lxor_fits; [done..|]; unfold is_byte in *; unfold fits; lia ..].
  apply (f_equal (Z.lxor hash)) in Heq. by rewrite <- !Z.lxor_assoc, Z.lxor_nilpotent, !Z.lxor_0_l in Heq.
Qed.

Lemma fnv_fold_fits bytes : forall hash, fits 64 hash -> fits 64 (fold_left fnv_step bytes hash).
Proof. induction bytes as [|b bytes IH]; intros hash Hh; [done|]. apply IH, fnv_step_fits. Qed.

(** Different states stay different over the same bytes. *)
Lemma fnv_fold_inj bytes : Forall is_byte bytes -> forall h h', fits 64 h -> fits 64 h' ->
  fold_left fnv_step bytes h = fold_left fnv_step bytes h' -> h = h'.
Proof.
  induction 1 as [|b bytes Hb Hbytes IH]; intros h h' Hh Hh' Heq; [done|]. cbn [fold_left] in Heq.
  apply IH in Heq; [|apply fnv_step_fits ..]. by eapply fnv_step_inj_hash.
Qed.

Lemma string_bytes_app s1 s2 : string_bytes (s1 +:+ s2) = string_bytes s1 ++ string_bytes s2.
Proof. induction s1 as [|a s1 IH]; [done|]. unfold string_bytes in *. simpl. by rewrite IH. Qed.

Lemma kFnvOffsetBasis_fits : fits 64 kFnvOffsetBasis.
Proof. unfold fits, kFnvOffsetBasis. lia. Qed.

(** The hash tells apart any two identities that differ in one character. *)
Lemma fnv_one_byte before a b after : fnv1a64 (before +:+ String a after) = fnv1a64 (before +:+ String b after) -> a = b.
Proof.
  unfold fnv1a64. rewrite !string_bytes_app, !fold_left_app. cbn [string_bytes list_ascii_of_string map fold_left].
  set (h := fold_left fnv_step (string_bytes before) kFnvOffsetBasis). intros Heq.
  assert (Hh : fits 64 h) by (apply fnv_fold_fits, kFnvOffsetBasis_fits).
  apply fnv_fold_inj in Heq; [|apply string_bytes_Forall | apply fnv_step_fits ..].
  apply fnv_step_inj_byte in Heq; [|done | apply byte_of_ascii_byte ..].
  apply (f_equal ascii_of_byte) in Heq. by rewrite !ascii_of_byte_of_ascii in Heq.
Qed.

(** ** Printing *)

Lemma hex_digit_inj d e : 0 <= d < 16 -> 0 <= e < 16 -> hex_digit d = hex_digit e -> d = e.
Proof.
  intros Hd He Heq. apply (f_equal byte_of_ascii) in Heq. unfold hex_digit in Heq.
  destruct (Z.ltb_spec d 10), (Z.ltb_spec e 10); rewrite !byte_of_ascii_of_byte in Heq; unfold is_byte; lia.
Qed.

Lemma hex_length n v : String.length (hex n v) = n.
Proof. induction n as [|n IH]; [done|]. cbn [hex String.length]. by rewrite IH. Qed.

Lemma nibble v n : Z.land (Z.shiftr v (4 * Z.of_nat n)) 15 = v / 2 ^ (4 * Z.of_nat n) mod 16.
Proof. rewrite Z.shiftr_div_pow2 by lia. change 15 with (Z.ones 4). by rewrite Z.land_ones. Qed.

Lemma hex_inj n v w : fits (4 * Z.of_nat n) v -> fits (4 * Z.of_nat n) w -> hex n v = hex n w -> v = w.
Proof.
  revert v w. induction n as [|n IH]; intros v w Hv Hw Heq.
  { unfold fits in *. simpl in *. lia. }
  cbn [hex] in Heq. injection Heq as Hd Ht. rewrite !nibble in Hd.
  apply hex_digit_inj in Hd; [|apply Z.mod_pos_bound; lia ..].
  assert (Hmod : forall x, hex n x = hex n (x mod 2 ^ (4 * Z.of_nat n))).
  { intros x. assert (Hk : forall k, (k <= n)%nat -> hex k x = hex k (x mod 2 ^ (4 * Z.of_nat n))); [|by apply Hk].
    induction k as [|k IHk]; intros Hk; [done|]. cbn [hex]. f_equal; [|apply IHk; lia]. f_equal. rewrite !nibble.
    apply Z.bits_inj'. intros i Hi. change 16 with (2 ^ 4). rewrite <- !Z.shiftr_div_pow2 by lia.
    destruct (Z.ltb_spec i 4) as [Hlt|Hge].
    - rewrite !Z.mod_pow2_bits_low, !Z.shiftr_spec, Z.mod_pow2_bits_low by lia. done.
    - rewrite !Z.mod_pow2_bits_high by lia. done. }
  rewrite (Hmod v), (Hmod w) in Ht. set (p := 2 ^ (4 * Z.of_nat n)) in *.
  assert (Hp : 0 < p) by (apply Z.pow_pos_nonneg; lia).
  assert (Hpow : 2 ^ (4 * Z.of_nat (S n)) = p * 16).
  { unfold p. replace (4 * Z.of_nat (S n)) with (4 * Z.of_nat n + 4) by lia. by rewrite Z.pow_add_r by lia. }
  unfold fits in Hv, Hw. rewrite Hpow in Hv, Hw.
  apply IH in Ht; [|apply Z.mod_pos_bound; done ..].
  assert (Hq : forall x, 0 <= x < p * 16 -> x / p mod 16 = x / p).
  { intros x Hx. apply Z.mod_small. split; [apply Z.div_pos; lia|]. apply Z.div_lt_upper_bound; lia. }
  rewrite !Hq in Hd by done. pose proof (Z.div_mod v p). pose proof (Z.div_mod w p). nia.
Qed.

(** ** Theorem *)

(** A name is accepted exactly when it is the canonical name of a type; endpoints of different types
    never have the same wire hash; and the printed hash of an identity changes with any one of
    its characters. *)
Theorem wire_types_are_told_apart :
  (forall name type, parseMessageType name = Some type <-> name = canonicalTypeName type) /\
  (forall type type', adapterWireTypeHash type = adapterWireTypeHash type' -> type = type') /\
  (forall before a b after, hex 16 (fnv1a64 (before +:+ String a after)) = hex 16 (fnv1a64 (before +:+ String b after)) -> a = b).
Proof.
  split_and!; [exact parse_inverse | |].
  - assert (H : forall type type', bool_decide (adapterWireTypeHash type = adapterWireTypeHash type') = bool_decide (type = type'))
      by (intros [] []; vm_compute; reflexivity).
    intros type type' Heq. specialize (H type type'). rewrite bool_decide_true in H by done. symmetry in H. by apply bool_decide_eq_true in H.
  - intros before a b after Heq. apply hex_inj in Heq; [|apply fnv_fold_fits, kFnvOffsetBasis_fits ..]. by eapply fnv_one_byte.
Qed.
