(* ===== verification/BridgeConfig.v ===== *)
(** * Configuration of the bridges

    [bridge_config.cpp] of [ros2_adapter/mw_ros2_adapter]: the parameters of a ROS 2 node, checked and
    turned into the configurations of a middleware publisher or subscriber.  The node belongs to
    [rclcpp]; it is the argument [node], which answers [declare_parameter]. *)

From Stdlib Require Import ZArith Lia Bool String.
From stdpp Require Import base list strings option pretty.
From S2P Require Import Prelude Types Outcome QueueProtocol SubscriberQueue PublisherState SubscriberState Publisher Subscriber TypeSupport.

Local Open Scope Z_scope.

(** ** Data *)

Inductive BridgeDirection := Ros2ToMiddleware | MiddlewareToRos2.

#[export] Instance BridgeDirection_eq_dec : EqDecision BridgeDirection.
Proof. solve_decision. Defined.

(** Times are milliseconds. *)
Record BridgeConfig := mkBridgeConfig {
  bc_registry_socket : string;
  bc_ros_topic : string;
  bc_mw_topic : string;
  bc_message_type : string;
  bc_mw_node_name : string;
  bc_mw_socket_path : string;
  bc_transport : TransportType;
  bc_max_message_size : Z;
  bc_ros_qos_depth : Z;
  bc_queue_depth : Z;
  bc_overflow_policy : OverflowPolicy;
  bc_block_timeout : Z;
  bc_poll_period : Z;
  bc_max_samples_per_poll : Z;
}.

(** A node: its name, and [declare_parameter<std::string>] and [declare_parameter<std::int64_t>],
    which return the value given for a parameter or the default, or throw. *)
Record ros_node := mkRosNode {
  rn_name : string;
  rn_string : string -> string -> outcome string;
  rn_integer : string -> Z -> outcome Z;
}.

(** ** Parsing *)

Definition parseTransport (value : string) : outcome TransportType :=
  if bool_decide (value = "shm"%string) then Ret SharedMemory else
  if bool_decide (value = "uds"%string) then Ret UnixDomainSocket else Throw ex_invalid_argument.

Definition parseOverflowPolicy (value : string) : outcome OverflowPolicy :=
  if bool_decide (value = "drop_newest"%string) then Ret DropNewest else
  if bool_decide (value = "drop_oldest"%string) then Ret DropOldest else
  if bool_decide (value = "block_with_timeout"%string) then Ret BlockWithTimeout else Throw ex_invalid_argument.

Definition defaultSocketPath (pid : Z) (direction : BridgeDirection) : string :=
  let suffix := match direction with MiddlewareToRos2 => "mw2ros" | Ros2ToMiddleware => "ros2mw" end%string in
  "/tmp/mw_ros2_" +:+ pretty pid +:+ "_" +:+ suffix +:+ ".sock".

Definition checkedUint32 (value maximum : Z) : outcome Z :=
  if (value <=? 0) || (maximum <? wrap 64 value) then Throw ex_invalid_argument else Ret (wrap 32 value).

Definition validateText (value : string) : outcome unit :=
  if string_size value =? 0 then Throw ex_invalid_argument else Ret tt.

Definition declareAndLoadBridgeConfig (pid : Z) (node : ros_node) (direction : BridgeDirection) : outcome BridgeConfig :=
  registry_socket ← rn_string node "registry_socket" "/tmp/mw_registry.sock";
  ros_topic ← rn_string node "ros_topic" "/mw_bridge/ros_data";
  mw_topic ← rn_string node "mw_topic" "/mw_bridge/data";
  message_type ← rn_string node "message_type" "std_msgs/msg/String";
  mw_node_name ← rn_string node "mw_node_name" (rn_name node +:+ "_mw_" +:+ pretty pid);
  mw_socket_path ← rn_string node "mw_socket_path" (defaultSocketPath pid direction);
  transport_name ← rn_string node "transport" "shm";
  transport ← parseTransport transport_name;
  max_message_size ← rn_integer node "max_message_size" kDefaultMaxMessageSize;
  if (max_message_size <=? 0) || (u32_max <? wrap 64 max_message_size) then Throw ex_invalid_argument else
  ros_qos_depth ← rn_integer node "ros_qos_depth" 10;
  ros_qos_depth ← checkedUint32 ros_qos_depth 65536;
  queue_depth ← rn_integer node "queue_depth" 8;
  queue_depth ← checkedUint32 queue_depth 65536;
  policy_name ← rn_string node "overflow_policy" "drop_oldest";
  overflow_policy ← parseOverflowPolicy policy_name;
  block_timeout ← rn_integer node "block_timeout_ms" 100;
  block_timeout ← checkedUint32 block_timeout (2 ^ 31 - 1);
  poll_period ← rn_integer node "poll_period_ms" 2;
  poll_period ← checkedUint32 poll_period 60000;
  max_samples_per_poll ← rn_integer node "max_samples_per_poll" 16;
  max_samples_per_poll ← checkedUint32 max_samples_per_poll 65536;
  validateText registry_socket;;
  validateText ros_topic;;
  validateText mw_topic;;
  validateText message_type;;
  validateText mw_node_name;;
  match parseMessageType message_type with
  | None => Throw ex_invalid_argument
  | Some _ =>
      (if bool_decide (direction = MiddlewareToRos2) then validateText mw_socket_path else Ret tt);;
      Ret (mkBridgeConfig registry_socket ros_topic mw_topic message_type mw_node_name mw_socket_path transport
             (wrap 64 max_message_size) ros_qos_depth queue_depth overflow_policy block_timeout poll_period
             max_samples_per_poll)
  end.

(** [parseMessageType(config.message_type).value()] *)
Definition config_type (config : BridgeConfig) : outcome SupportedMessageType :=
  match parseMessageType (bc_message_type config) with Some type => Ret type | None => Throw ex_logic_error end.

Definition makePublisherConfig (config : BridgeConfig) : outcome PublisherConfig :=
  type ← config_type config;
  Ret (mkPublisherConfig "" (bc_max_message_size config) (canonicalTypeName type) (adapterWireTypeHash type)
         (bc_transport config) 5000 default_memory_pool).

Definition makeSubscriberConfig (config : BridgeConfig) : outcome SubscriberConfig :=
  type ← config_type config;
  Ret (mkSubscriberConfig (bc_mw_socket_path config) (bc_max_message_size config) (canonicalTypeName type)
         (adapterWireTypeHash type) (bc_transport config) (bc_queue_depth config) (bc_overflow_policy config)
         (bc_block_timeout config)).

(** ** What is accepted *)

(** The values a node gives. *)
Record node_values := mkNodeValues {
  nv_string : string -> string -> string;
  nv_integer : string -> Z -> Z;
}.
Record answers_with (node : ros_node) (values : node_values) : Prop := {
  aw_string : forall name default, rn_string node name default = Ret (nv_string values name default);
  aw_integer : forall name default, rn_integer node name default = Ret (nv_integer values name default);
  aw_int64 : forall name default, - 2 ^ 63 <= nv_integer values name default < 2 ^ 63;
}.

Definition between_1_and (maximum value : Z) : bool := (1 <=? value) && (value <=? maximum).
Definition not_empty (value : string) : bool := negb (string_size value =? 0).

(** The configuration a node describes, and whether its values are allowed. *)
Definition described (pid : Z) (node : ros_node) (values : node_values) (direction : BridgeDirection)
    (transport : TransportType) (policy : OverflowPolicy) : BridgeConfig :=
  let str := nv_string values in let int := nv_integer values in
  mkBridgeConfig (str "registry_socket" "/tmp/mw_registry.sock") (str "ros_topic" "/mw_bridge/ros_data")
    (str "mw_topic" "/mw_bridge/data") (str "message_type" "std_msgs/msg/String")
    (str "mw_node_name" (rn_name node +:+ "_mw_" +:+ pretty pid)) (str "mw_socket_path" (defaultSocketPath pid direction))
    transport (int "max_message_size" kDefaultMaxMessageSize) (int "ros_qos_depth" 10) (int "queue_depth" 8) policy
    (int "block_timeout_ms" 100) (int "poll_period_ms" 2) (int "max_samples_per_poll" 16).

Definition allowed (direction : BridgeDirection) (config : BridgeConfig) : bool :=
  between_1_and u32_max (bc_max_message_size config) && between_1_and 65536 (bc_ros_qos_depth config) &&
  between_1_and 65536 (bc_queue_depth config) && between_1_and (2 ^ 31 - 1) (bc_block_timeout config) &&
  between_1_and 60000 (bc_poll_period config) && between_1_and 65536 (bc_max_samples_per_poll config) &&
  not_empty (bc_registry_socket config) && not_empty (bc_ros_topic config) && not_empty (bc_mw_topic config) &&
  not_empty (bc_mw_node_name config) && bool_decide (is_Some (parseMessageType (bc_message_type config))) &&
  (bool_decide (direction = Ros2ToMiddleware) || not_empty (bc_mw_socket_path config)).

Definition loaded (pid : Z) (node : ros_node) (values : node_values) (direction : BridgeDirection) : outcome BridgeConfig :=
  match parseTransport (nv_string values "transport" "shm"), parseOverflowPolicy (nv_string values "overflow_policy" "drop_oldest") with
  | Ret transport, Ret policy =>
      let config := described pid node values direction transport policy in
      if allowed direction config then Ret config else Throw ex_invalid_argument
  | _, _ => Throw ex_invalid_argument
  end.

(** ** Lemmas *)

Lemma checked_spec value maximum : - 2 ^ 63 <= value < 2 ^ 63 -> maximum < 2 ^ 32 ->
  checkedUint32 value maximum = if between_1_and maximum value then Ret value else Throw ex_invalid_argument.
Proof.
  intros Hv Hm. unfold checkedUint32, between_1_and. destruct (Z.leb_spec value 0); cbn [orb].
  { destruct (Z.leb_spec 1 value); [lia | done]. }
  rewrite (wrap_small 64) by ulia. destruct (Z.ltb_spec maximum value), (Z.leb_spec 1 value), (Z.leb_spec value maximum); try lia; try done.
  cbn [andb]. by rewrite (wrap_small 32) by ulia.
Qed.

Lemma validateText_spec value : validateText value = if not_empty value then Ret tt else Throw ex_invalid_argument.
Proof. unfold validateText, not_empty. by destruct (_ =? 0). Qed.

Lemma parseTransport_cases value : (exists transport, parseTransport value = Ret transport /\
    (transport = SharedMemory \/ transport = UnixDomainSocket)) \/ parseTransport value = Throw ex_invalid_argument.
Proof. unfold parseTransport. repeat case_bool_decide; eauto. Qed.

Lemma parseOverflowPolicy_cases value : (exists policy, parseOverflowPolicy value = Ret policy /\ validOverflowPolicy policy = true) \/
  parseOverflowPolicy value = Throw ex_invalid_argument.
Proof. unfold parseOverflowPolicy. repeat case_bool_decide; eauto. Qed.

Lemma parseTransport_name value transport : parseTransport value = Ret transport -> transportTypeName transport = value.
Proof. unfold parseTransport. repeat (case_bool_decide; [intros [= <-]; simpl; congruence|]). done. Qed.

Lemma parseOverflowPolicy_name value policy : parseOverflowPolicy value = Ret policy -> overflowPolicyName policy = value.
Proof. unfold parseOverflowPolicy. repeat (case_bool_decide; [intros [= <-]; simpl; congruence|]). done. Qed.

Lemma print_parseTransport transport : Publisher.validTransport transport = true -> parseTransport (transportTypeName transport) = Ret transport.
Proof. by destruct transport. Qed.

Lemma print_parseOverflowPolicy policy : validOverflowPolicy policy = true -> parseOverflowPolicy (overflowPolicyName policy) = Ret policy.
Proof. by destruct policy. Qed.

Lemma message_type_not_empty name : is_Some (parseMessageType name) -> not_empty name = true.
Proof. intros [type Ht]. apply parse_inverse in Ht as ->. by destruct type. Qed.

(** Reads the next parameter. *)
Ltac read_parameter H :=
  match goal with
  | |- mbind (M := outcome) _ (rn_string _ ?name ?default) = _ => rewrite (aw_string _ _ H name default)
  | |- mbind (M := outcome) _ (rn_integer _ ?name ?default) = _ => rewrite (aw_integer _ _ H name default)
  end; cbn [mbind outcome_bind].

(** Decides the next check. *)
Ltac decide_check :=
  match goal with |- mbind (M := outcome) _ (if ?check then _ else _) = _ => destruct check eqn:?; [|done] end; cbn [mbind outcome_bind andb].
Ltac read_number H :=
  read_parameter H; rewrite checked_spec by (apply (aw_int64 _ _ H) || done); decide_check.

Lemma size_check_spec size : - 2 ^ 63 <= size < 2 ^ 63 ->
  (size <=? 0) || (u32_max <? wrap 64 size) = negb (between_1_and u32_max size).
Proof.
  intros Hr. unfold between_1_and. destruct (Z.leb_spec size 0), (Z.leb_spec 1 size); try lia. cbn [orb andb].
  rewrite (wrap_small 64) by ulia. by rewrite Z.ltb_antisym.
Qed.

(** Loading accepts exactly the allowed descriptions. *)
Lemma load_described pid node values direction : answers_with node values ->
  declareAndLoadBridgeConfig pid node direction = loaded pid node values direction.
Proof.
  intros H. unfold declareAndLoadBridgeConfig, loaded. do 7 read_parameter H.
  destruct (parseTransport_cases (nv_string values "transport" "shm")) as [(transport & -> & _)| ->]; [|done].
  cbn [mbind outcome_bind]. read_parameter H.
  pose proof (aw_int64 _ _ H "max_message_size" kDefaultMaxMessageSize) as Hr. rewrite size_check_spec by done.
  destruct (parseOverflowPolicy_cases (nv_string values "overflow_policy" "drop_oldest")) as [(policy & Hp & _)|Hp]; rewrite Hp.
  - unfold allowed, described. simpl. destruct (between_1_and u32_max _) eqn:Hsize; [|done]. cbn [negb andb].
    assert (Hfit : fits 64 (nv_integer values "max_message_size" kDefaultMaxMessageSize)) by (unfold between_1_and in Hsize; bools; ulia).
    rewrite (wrap_small 64 _ Hfit).
    do 2 read_number H. read_parameter H. rewrite Hp. cbn [mbind outcome_bind]. do 3 read_number H.
    rewrite !validateText_spec. do 3 decide_check.
    destruct (not_empty (nv_string values "message_type" _)) eqn:Ht; cbn [mbind outcome_bind].
    + decide_check. destruct (parseMessageType _) eqn:Hm; [|done]. rewrite (bool_decide_true (is_Some _)) by eauto. cbn [andb].
      destruct direction; [done|]. rewrite bool_decide_true, bool_decide_false by done. cbn [orb].
      by decide_check.
    + rewrite (bool_decide_false (is_Some _)); [by rewrite andb_false_r|]. intros Hs. by rewrite message_type_not_empty in Ht.
  - destruct (negb _); [done|]. do 2 read_number H. read_parameter H. by rewrite Hp.
Qed.

(** An allowed configuration of the kind the loader makes. *)
Record config_allowed (direction : BridgeDirection) (config : BridgeConfig) : Prop := {
  ca_allowed : allowed direction config = true;
  ca_transport : bc_transport config = SharedMemory \/ bc_transport config = UnixDomainSocket;
  ca_policy : validOverflowPolicy (bc_overflow_policy config) = true;
}.

Lemma loaded_allowed pid node values direction config : loaded pid node values direction = Ret config ->
  config_allowed direction config.
Proof.
  unfold loaded. destruct (parseTransport_cases (nv_string values "transport" "shm")) as [(transport & -> & Htr)| ->]; [|done].
  destruct (parseOverflowPolicy_cases (nv_string values "overflow_policy" "drop_oldest")) as [(policy & -> & Hp)| ->]; [|done].
  cbv zeta. destruct (allowed _ _) eqn:Ha; [|done]. intros [= <-]. by split.
Qed.

Lemma loaded_defined pid node values direction : loaded pid node values direction <> Undef.
Proof. unfold loaded. repeat case_match; done. Qed.

(** The middleware takes the configurations made from an allowed one. *)
Lemma publisher_config_accepted direction config : config_allowed direction config ->
  exists publisher, makePublisherConfig config = Ret publisher /\ Publisher.validateConfig publisher true = Ret tt /\
    pc_transport publisher = bc_transport config /\ pc_max_message_size publisher = bc_max_message_size config /\
    pc_memory_pool publisher = default_memory_pool.
Proof.
  intros [Ha Htr _]. unfold allowed in Ha. bools. match goal with H : is_Some _ |- _ => destruct H as [type Ht] end.
  unfold makePublisherConfig, config_type. rewrite Ht. eexists. split; [done|]. split_and!; try done.
  unfold Publisher.validateConfig, between_1_and in *. bools.
  cbn [pc_socket_path pc_max_message_size pc_type_name pc_type_hash pc_transport pc_shm_ack_timeout negb andb]. rewrite (proj2 (Z.ltb_ge _ _)) by lia.
  assert (Publisher.validTransport (bc_transport config) = true) as -> by (by destruct Htr as [-> | ->]).
  rewrite (proj2 (Z.eqb_neq _ _) (canonical_not_empty type)), (proj2 (Z.eqb_neq _ _) (type_hash_not_empty type)). by rewrite andb_false_r.
Qed.

Lemma subscriber_config_accepted config : config_allowed MiddlewareToRos2 config ->
  exists subscriber, makeSubscriberConfig config = Ret subscriber /\ Subscriber.validateConfig subscriber true = Ret tt /\
    uc_transport subscriber = bc_transport config /\ uc_max_message_size subscriber = bc_max_message_size config /\
    uc_queue_depth subscriber = bc_queue_depth config /\ uc_socket_path subscriber = bc_mw_socket_path config.
Proof.
  intros [Ha Htr Hp]. unfold allowed in Ha. rewrite (bool_decide_false (MiddlewareToRos2 = Ros2ToMiddleware)) in Ha by done. cbn [orb] in Ha. bools.
  match goal with H : is_Some _ |- _ => destruct H as [type Ht] end.
  unfold makeSubscriberConfig, config_type. rewrite Ht. eexists. split; [done|]. split_and!; try done.
  unfold Subscriber.validateConfig, between_1_and, not_empty in *. bools.
  cbn [uc_socket_path uc_max_message_size uc_type_name uc_type_hash uc_transport uc_queue_depth uc_overflow_policy uc_block_timeout negb andb].
  rewrite (proj2 (Z.eqb_neq (string_size (bc_mw_socket_path config)) 0)) by done.
  rewrite (proj2 (Z.ltb_ge _ _)) by lia. assert (Subscriber.validTransport (bc_transport config) = true) as -> by (by destruct Htr as [-> | ->]).
  rewrite (proj2 (Z.eqb_neq _ _) (canonical_not_empty type)), (proj2 (Z.eqb_neq _ _) (type_hash_not_empty type)). cbn [negb andb orb].
  rewrite (proj2 (Z.eqb_neq (bc_queue_depth config) 0)) by lia. unfold kMaxSubscriberQueueDepth. rewrite (proj2 (Z.ltb_ge _ (bc_queue_depth config))) by lia.
  rewrite Hp. cbn [orb negb]. by rewrite (proj2 (Z.leb_gt (bc_block_timeout config) 0)) by lia.
Qed.

(** ** Paths *)

Lemma string_app_length s1 s2 : String.length (s1 +:+ s2) = (String.length s1 + String.length s2)%nat.
Proof. induction s1 as [|a s1 IH]; [done|]. simpl. by rewrite IH. Qed.

Lemma pretty_go_length (k : nat) : forall (x : N) s, (x < 10 ^ N.of_nat k)%N ->
  (String.length (pretty_N_go x s) <= k + String.length s)%nat.
Proof.
  induction k as [|k IH]; intros x s Hx.
  { assert (x = 0%N) as -> by (simpl in Hx; lia). by rewrite pretty_N_go_0. }
  destruct (decide (x = 0%N)) as [->|Hne]; [rewrite pretty_N_go_0; lia|]. rewrite pretty_N_go_step by lia.
  etrans; [apply IH|simpl; lia]. apply N.Div0.div_lt_upper_bound. rewrite Nat2N.inj_succ, N.pow_succ_r' in Hx. lia.
Qed.

Lemma pretty_length (k : nat) (x : Z) : 0 <= x < 10 ^ Z.of_nat (S k) -> (String.length (pretty x) <= S k)%nat.
Proof.
  intros Hx. destruct x as [|p|p]; [simpl; lia | | lia]. unfold pretty, pretty_Z, pretty, pretty_positive, pretty, pretty_N.
  case_decide; [done|]. etrans; [apply (pretty_go_length (S k))|simpl; lia].
  apply N2Z.inj_lt. rewrite N2Z.inj_pow. change (Z.of_N (N.pos p)) with (Z.pos p). rewrite nat_N_Z. apply Hx.
Qed.

Lemma string_app_inj_l (s t t' : string) : s +:+ t = s +:+ t' -> t = t'.
Proof. induction s as [|a s IH]; [done|]. intros [= ?]. by apply IH. Qed.

Lemma string_bytes_inj s s' : string_bytes s = string_bytes s' -> s = s'.
Proof. intros H. by rewrite <- (bytes_string_bytes s), H, bytes_string_bytes. Qed.

(** The process and the direction can be read off a default path. *)
Lemma defaultSocketPath_inj pid pid' direction direction' :
  defaultSocketPath pid direction = defaultSocketPath pid' direction' -> pid = pid' /\ direction = direction'.
Proof.
  unfold defaultSocketPath. intros H. apply string_app_inj_l in H. apply (f_equal string_bytes) in H.
  set (tail d := string_bytes (("_" +:+ match d with MiddlewareToRos2 => "mw2ros" | Ros2ToMiddleware => "ros2mw" end +:+ ".sock")%string)).
  rewrite !(string_bytes_app (pretty _)) in H. change (string_bytes (pretty pid) ++ tail direction = string_bytes (pretty pid') ++ tail direction') in H.
  assert (Hlen : length (tail direction) = length (tail direction')) by (by destruct direction, direction').
  apply app_inj_2 in H as [Hp Ht]; [|done]. split.
  - apply string_bytes_inj in Hp. by apply pretty_Z_inj in Hp.
  - destruct direction, direction'; [done | discriminate Ht | discriminate Ht | done].
Qed.

Lemma defaultSocketPath_fits pid direction : 0 <= pid < 2 ^ 31 ->
  0 < string_size (defaultSocketPath pid direction) < sun_path_size.
Proof.
  intros Hp. pose proof (pretty_length 9 pid) as Hl. unfold string_size, defaultSocketPath. rewrite !string_app_length.
  assert (String.length (pretty pid) <= 10)%nat by (apply Hl; change (10 ^ Z.of_nat 10) with 10000000000; lia).
  assert (Hs : String.length (match direction with MiddlewareToRos2 => "mw2ros" | Ros2ToMiddleware => "ros2mw" end) = 6%nat) by (by destruct direction).
  rewrite Hs. simpl String.length. unfold sun_path_size. lia.
Qed.

(** ** Theorems *)

(** C18: A bridge starts with a configuration the middleware accepts, or not at all.  For any values
    of the node's parameters, loading returns exactly what they describe if every one is in its
    range, and throws [std::invalid_argument] otherwise; and from what is loaded the publisher's,
    or for the other direction the subscriber's, configuration is made and passes the checks of the
    endpoint's constructor. *)
Theorem bridge_configuration_is_sound pid node values direction : answers_with node values ->
  match declareAndLoadBridgeConfig pid node direction with
  | Ret config =>
      config = described pid node values direction (bc_transport config) (bc_overflow_policy config) /\
      transportTypeName (bc_transport config) = nv_string values "transport" "shm" /\
      overflowPolicyName (bc_overflow_policy config) = nv_string values "overflow_policy" "drop_oldest" /\
      allowed direction config = true /\
      match direction with
      | Ros2ToMiddleware => exists publisher, makePublisherConfig config = Ret publisher /\ Publisher.validateConfig publisher true = Ret tt
      | MiddlewareToRos2 => exists subscriber, makeSubscriberConfig config = Ret subscriber /\ Subscriber.validateConfig subscriber true = Ret tt
      end
  | Throw e => e = ex_invalid_argument /\ forall transport policy,
      transportTypeName transport = nv_string values "transport" "shm" -> overflowPolicyName policy = nv_string values "overflow_policy" "drop_oldest" ->
      validOverflowPolicy policy = true -> Publisher.validTransport transport = true ->
      allowed direction (described pid node values direction transport policy) = false
  | Undef => False
  end.
Proof.
  intros H. rewrite (load_described pid node values direction H). pose proof (loaded_allowed pid node values direction) as Hok. unfold loaded in *.
  destruct (parseTransport _) as [transport|e|] eqn:Htr; destruct (parseOverflowPolicy (nv_string values "overflow_policy" "drop_oldest")) as [policy|e'|] eqn:Hpo.
  1: { cbv zeta in *. destruct (allowed _ _) eqn:Ha.
       - specialize (Hok _ eq_refl). split_and!; [done | | | done |].
         + by apply parseTransport_name.
         + by apply parseOverflowPolicy_name.
         + destruct direction.
           * destruct (publisher_config_accepted _ _ Hok) as (c & ? & ? & _). by exists c.
           * destruct (subscriber_config_accepted _ Hok) as (c & ? & ? & _). by exists c.
       - split; [done|]. intros t p Ht Hp Hvp Hvt. rewrite <- Ht in Htr. rewrite <- Hp in Hpo.
         rewrite print_parseTransport in Htr by done. rewrite print_parseOverflowPolicy in Hpo by done. by simplify_eq. }
  all: split; [done|]; intros t p Ht Hp Hvp Hvt; exfalso; rewrite <- Ht in Htr; rewrite <- Hp in Hpo;
    rewrite print_parseTransport in Htr by done; by rewrite print_parseOverflowPolicy in Hpo by done.
Qed.

(** Two bridges of different processes, or of different directions, never share a default socket
    path, and the path fits a socket address. *)
Theorem default_paths_do_not_collide pid pid' direction direction' : 0 <= pid < 2 ^ 31 ->
  makeAddress (defaultSocketPath pid direction) = Ret tt /\
  (defaultSocketPath pid direction = defaultSocketPath pid' direction' -> pid = pid' /\ direction = direction').
Proof.
  intros Hp. split; [|apply defaultSocketPath_inj]. pose proof (defaultSocketPath_fits pid direction Hp). unfold makeAddress.
  by rewrite (proj2 (Z.eqb_neq _ _)), (proj2 (Z.leb_gt _ _)) by lia.
Qed.

(** ** A node without parameters *)

Definition plain_values : node_values := mkNodeValues (fun _ default => default)
  (fun _ default => if (- 2 ^ 63 <=? default) && (default <? 2 ^ 63) then default else 0).
Definition plain_node : ros_node := mkRosNode "ros2_to_mw_bridge" (fun _ default => Ret default)
  (fun _ default => Ret (nv_integer plain_values "" default)).

Lemma plain_answers : answers_with plain_node plain_values.
Proof. split; [done | done |]. intros name default. simpl. destruct (_ && _) eqn:Hb; bools; lia. Qed.

Lemma bridge_configuration_is_sound_witness :
  exists config subscriber, declareAndLoadBridgeConfig 42 plain_node MiddlewareToRos2 = Ret config /\
    makeSubscriberConfig config = Ret subscriber /\ Subscriber.validateConfig subscriber true = Ret tt.
Proof.
  pose proof (bridge_configuration_is_sound 42 plain_node plain_values MiddlewareToRos2 plain_answers) as H.
  destruct (declareAndLoadBridgeConfig 42 plain_node MiddlewareToRos2) as [config|e|] eqn:Hload.
  - destruct H as (_ & _ & _ & _ & subscriber & Hmake & Hvalid). exists config, subscriber. split_and!; [reflexivity | exact Hmake | exact Hvalid].
  - exfalso. vm_compute in Hload. discriminate Hload.
  - destruct H.
Defined.

Lemma default_paths_do_not_collide_witness : makeAddress (defaultSocketPath 42 MiddlewareToRos2) = Ret tt /\
  (defaultSocketPath 42 MiddlewareToRos2 = defaultSocketPath 43 MiddlewareToRos2 -> 42 = 43 /\ MiddlewareToRos2 = MiddlewareToRos2).
Proof. apply (default_paths_do_not_collide 42 43 MiddlewareToRos2 MiddlewareToRos2). lia. Defined.
