(* ===== verification/ContextTheorems.v ===== *)
(** * Theorems about contexts

    The endpoints a context creates satisfy the invariants of the publisher and the subscriber, with
    the registry's answers taken from its session; and the names of the shared-memory objects a
    process creates never collide, neither with each other nor with those of another process. *)

From Stdlib Require Import ZArith Lia Bool String.
From stdpp Require Import base gmap sets list strings option pretty.
From S2P Require Import Prelude Types Outcome ControlProtocol QueueProtocol PoolLayout MemoryPool PoolSpec PoolReferences PoolCreation SubscriberQueue PublisherState Publisher PublisherInvariant PublisherMethods PublisherCalls PublisherUds PublisherLifecycle UnixListener SubscriberState Subscriber SubscriberInvariant SubscriberMethods SubscriberLifecycle RegistryClient RegistrySession ClientInvariant SessionTheorems PoolTheorems QueueTheorems PublisherTheorems TypeSupport BridgeConfig Context.

Local Open Scope Z_scope.

(** ** The session *)

Lemma ends_undrop {S A} (c : cpp S A) s (Q : S -> Prop) E : ends (c ≫= fun _ => mret tt) s (fun _ s' => Q s') E -> ends c s (fun _ s' => Q s') E.
Proof. unfold ends, mbind, cpp_bind. by destruct (c s) as [[a|e|] s']. Qed.

(** A request on the control connection keeps the session. *)
Lemma on_client_ok {A} (method : client A) s : session_ok s ->
  ends method (ss_client s) (fun _ c => after_request (ss_client s) c) (fun e c => after_request (ss_client s) c /\ client_error e) ->
  ends (on_client method) s (fun _ s' => session_ok s') (fun e s' => session_ok s' /\ client_error e).
Proof.
  intros [Hc Hh Ht] He. unfold ends, on_client in *. destruct (method (ss_client s)) as [[a|e|] c]; [|split; [|apply He]|done];
    (split; simpl; [apply He | exact Hh | exact Ht]).
Qed.

Lemma advertise_ok topic config pool s : session_ok s ->
  ends (advertise topic config pool) s (fun _ s' => session_ok s') (fun e s' => session_ok s' /\ client_error e).
Proof.
  intros Hok. unfold advertise. apply ends_bind. unfold ends at 1, this. apply on_client_ok; [done|].
  apply (ends_undrop _ _ (after_request (ss_client s))).
  exact (run_call_ok (CallAdvertise (ss_node_id s) topic (pc_type_name config) (pc_type_hash config) (pc_max_message_size config) (pc_transport config) pool)
    (ss_client s) (so_control _ Hok)).
Qed.

Lemma subscribe_ok topic config queue s : session_ok s ->
  ends (subscribe topic config queue) s (fun _ s' => session_ok s') (fun e s' => session_ok s' /\ client_error e).
Proof.
  intros Hok. unfold subscribe. apply ends_bind. unfold ends at 1, this. apply on_client_ok; [done|].
  apply (ends_undrop _ _ (after_request (ss_client s))).
  exact (run_call_ok (CallSubscribe (ss_node_id s) topic (uc_type_name config) (uc_type_hash config) (uc_max_message_size config) (uc_socket_path config)
    (uc_transport config) queue) (ss_client s) (so_control _ Hok)).
Qed.

Lemma unadvertise_ok id s : session_ok s -> wp (unadvertise id) s (fun _ s' => session_ok s').
Proof.
  intros Hok. unfold unadvertise. apply wp_bind. unfold this, wp at 1.
  pose proof (on_client_ok (RegistryClient.unadvertise (ss_node_id s) id) s Hok (run_call_ok (CallUnadvertise (ss_node_id s) id) (ss_client s) (so_control _ Hok))) as He.
  unfold ends, wp, ignore_errors in *. by destruct (on_client _ s) as [[a|e|] s']; [|destruct He|].
Qed.

(** ** Contexts with a session *)

(** What a call leaves: the context and its session, and all of the process but the counters. *)
Record keeps_owner (name : string) (o o' : Owner) : Prop := {
  ko_session : exists s, ow_context o' = Some (mkContextImpl name (Some s)) /\ session_ok s;
  ko_world : pr_world (ow_process o') = pr_world (ow_process o);
}.

Definition with_session (name : string) (s : RegistrySession) (o : Owner) : Owner := o <| ow_context := Some (mkContextImpl name (Some s)) |>.

Lemma on_session_run {A} (method : session A) name s o r s' : ow_context o = Some (mkContextImpl name (Some s)) -> method s = (r, s') ->
  on_session method o = (r, with_session name s' o).
Proof. intros Ho Hm. unfold on_session. by rewrite Ho, Hm. Qed.

(** The counter after the constructor ran. *)
Definition counts_pool (config : PublisherConfig) : bool :=
  match Publisher.validateConfig config true with Ret _ => bool_decide (pc_transport config = SharedMemory) | _ => false end.

(** The constructor with a session behaves as the one with the session's answer as a parameter. *)
Lemma registered_publisher_refines env topic config name s o : ow_context o = Some (mkContextImpl name (Some s)) -> session_ok s ->
  let p := ow_process o in
  let '(r, w) := create_registered (pv_pid env) (pr_pool_counter p) (fun d => (advertise topic config d s).1) (pv_os env) topic config (pr_world p) in
  exists s', session_ok s' /\ registered_publisher env topic config o =
    (r, with_session name s' o <| ow_process := p <| pr_pool_counter := if counts_pool config then wrap 32 (pr_pool_counter p + 1) else pr_pool_counter p |> |>).
Proof.
  intros Ho Hok p. unfold create_registered, registered_publisher, counts_pool, advertised_pool. unfold_cpp. unfold outcome_bind.
  assert (Hsame : o = with_session name s o <| ow_process := p <| pr_pool_counter := pr_pool_counter p |> |>).
  { destruct o as [ctx [w h pc qc]]. simpl in *. by rewrite Ho. }
  destruct (Publisher.validateConfig config true) as [[]|e|]; [| by exists s; split; [|rewrite <- Hsame] ..].
  assert (Hadv : forall d, exists r s1, advertise topic config d s = (r, s1) /\ session_ok s1 /\ r <> Undef).
  { intros d. pose proof (advertise_ok topic config d s Hok) as He. unfold ends in He. destruct (advertise topic config d s) as [[a|e|] s1]; [| |done].
    - by exists (Ret a), s1.
    - exists (Throw e), s1. by split_and!; [|apply He|]. }
  case_bool_decide as Htr.
  - unfold next_pool_counter. fold p. set (o1 := o <| ow_process := p <| pr_pool_counter := wrap 32 (pr_pool_counter p + 1) |> |>). assert (Ho1 : ow_context o1 = Some (mkContextImpl name (Some s))) by exact Ho.
    assert (Hsh : forall s', with_session name s' o1 = with_session name s' o <| ow_process := p <| pr_pool_counter := wrap 32 (pr_pool_counter p + 1) |> |>).
    { by destruct o. }
    assert (Hs1 : with_session name s o1 = o1) by (unfold with_session, o1; destruct o as [ctx pr]; simpl in *; by rewrite Ho).
    destruct (requiredPoolSegmentSize _ _) as [size|e|].
    2,3: exists s; split; [done|]; by rewrite <- Hsh, Hs1.
    set (d := mkPoolDescriptor _ _ size 0 _). destruct (Hadv d) as (r & s1 & Hrun & Hok1 & Hdef). rewrite Hrun. simpl fst.
    rewrite (on_session_run _ name s o1 r s1 Ho1 Hrun). destruct r as [endpoint|e|]; [|by exists s1; rewrite <- Hsh|done].
    cbn [pd_shm_name pd_pool_id pd_segment_size pd_layout_version]. destruct (create_pool _ _ _ _) as [pool|e|].
    + exists s1. by rewrite <- Hsh.
    + pose proof (unadvertise_ok (rg_endpoint_id endpoint) s1 Hok1) as Hwp.
      apply wp_run in Hwp as ([] & s2 & Hun & Hok2). exists s2. split; [done|].
      rewrite (on_session_run _ name s1 (with_session name s1 o1) (Ret tt) s2 eq_refl Hun). rewrite <- Hsh. by destruct o.
    + exists s1. by rewrite <- Hsh.
  - destruct (Hadv empty_PoolDescriptor) as (r & s1 & Hrun & Hok1 & Hdef). rewrite Hrun. simpl fst.
    assert (Hsh : with_session name s1 o = with_session name s1 o <| ow_process := p <| pr_pool_counter := pr_pool_counter p |> |>).
    { by destruct o as [ctx [w h pc qc]]. }
    rewrite (on_session_run _ name s o r s1 Ho Hrun). destruct r as [endpoint|e|]; [|by exists s1; rewrite <- Hsh|done].
    exists s1. by rewrite <- Hsh.
Qed.

(** ** Subscribers

    The constructor with a session and the one with the session's answer as a parameter run in step:
    [steps I c m J], from owners and hosts in [I], [c] and [m] end alike, in [J]. *)

Definition steps {A} (I : Owner -> Host -> Prop) (c : cpp Owner A) (m : cpp Host A) (J : outcome A -> Owner -> Host -> Prop) : Prop :=
  forall o h, I o h -> exists r o' h', c o = (r, o') /\ m h = (r, h') /\ J r o' h'.

Lemma steps_bind {A B} I (c : cpp Owner A) m (k : A -> cpp Owner B) l J K : steps I c m J -> (forall a, steps (J (Ret a)) (k a) (l a) K) ->
  (forall e o h, J (Throw e) o h -> K (Throw e) o h) -> (forall o h, J Undef o h -> K Undef o h) -> steps I (c ≫= k) (m ≫= l) K.
Proof.
  intros Hc Hk He Hu o h HI. destruct (Hc o h HI) as (r & o1 & h1 & Hr & Hm & HJ). unfold mbind, cpp_bind. rewrite Hr, Hm.
  destruct r as [a|e|]; [by apply (Hk a) | exists (Throw e), o1, h1; eauto | exists Undef, o1, h1; eauto].
Qed.

Lemma steps_cleanup {A} I (c : cpp Owner A) m cleanup cleanup' J K : steps I c m J ->
  (forall e, steps (J (Throw e)) cleanup cleanup' (fun r o h => (forall u, r = Ret u -> K (Throw e) o h) /\ (forall e', r = Throw e' -> K (Throw e') o h) /\ (r = Undef -> K Undef o h))) ->
  (forall a o h, J (Ret a) o h -> K (Ret a) o h) -> (forall o h, J Undef o h -> K Undef o h) -> steps I (or_cleanup c cleanup) (or_cleanup m cleanup') K.
Proof.
  intros Hc Hcl Ha Hu o h HI. destruct (Hc o h HI) as (r & o1 & h1 & Hr & Hm & HJ). unfold or_cleanup. rewrite Hr, Hm.
  destruct r as [a|e|]; [exists (Ret a), o1, h1; eauto | | exists Undef, o1, h1; eauto].
  destruct (Hcl e o1 h1 HJ) as (r & o2 & h2 & Hr2 & Hm2 & HK1 & HK2 & HK3). unfold mbind, cpp_bind, throw. rewrite Hr2, Hm2.
  destruct r as [u|e'|]; [exists (Throw e), o2, h2; eauto | exists (Throw e'), o2, h2; eauto | exists Undef, o2, h2; eauto].
Qed.

Lemma steps_lift {A} I (x : outcome A) : steps I (lift x) (lift x) (fun r o h => r = x /\ I o h).
Proof. intros o h HI. by exists x, o, h. Qed.

Lemma steps_ret {A} (I : Owner -> Host -> Prop) (a : A) (J : outcome A -> Owner -> Host -> Prop) : (forall o h, I o h -> J (Ret a) o h) -> steps I (mret a) (mret a) J.
Proof. intros H o h HI. exists (Ret a), o, h. auto. Qed.

(** The owner in step with a host: the rest is [base], with the session [s] and the counter [n]. *)
Definition in_step (name : string) (base : Owner) (s : RegistrySession) (n : Z) (o : Owner) (h : Host) : Prop :=
  o = with_session name s base <| ow_process := ow_process base <| pr_host := h |> <| pr_queue_counter := n |> |>.

Lemma steps_host {A} name base s n (m : cpp Host A) : steps (in_step name base s n) (on_host m) m (fun _ => in_step name base s n).
Proof.
  unfold in_step. intros o h ->. destruct (m h) as [r h'] eqn:Hm. exists r, (with_session name s base <| ow_process := ow_process base <| pr_host := h' |> <| pr_queue_counter := n |> |>), h'.
  split_and!; [|done|done]. unfold on_host. simpl. rewrite Hm. by destruct base as [ctx []].
Qed.

Lemma steps_weaken {A} (I I' : Owner -> Host -> Prop) (c : cpp Owner A) m (J J' : outcome A -> Owner -> Host -> Prop) :
  (forall o h, I' o h -> I o h) -> (forall r o h, J r o h -> J' r o h) -> steps I c m J -> steps I' c m J'.
Proof. intros HI HJ Hs o h H. destruct (Hs o h (HI _ _ H)) as (r & o' & h' & ? & ? & ?). exists r, o', h'. auto. Qed.

Lemma steps_session {A} name base s n (method : session A) : (forall r s', method s = (r, s') -> session_ok s') ->
  steps (in_step name base s n) (on_session method) (lift (method s).1) (fun _ o h => exists s', session_ok s' /\ in_step name base s' n o h).
Proof.
  intros Hok o h Hin. unfold in_step in Hin. subst o. destruct (method s) as [r s'] eqn:Hm. eexists r, _, h. split; [by apply (on_session_run method name s); [reflexivity|exact Hm]|]. split; [done|].
  exists s'. split; [by eapply Hok|]. unfold in_step, with_session. by destruct base.
Qed.

Lemma in_step_count name base s n k o h : in_step name base s n o h ->
  in_step name base s k (o <| ow_process := ow_process o <| pr_queue_counter := k |> |>) h.
Proof. unfold in_step. intros ->. by destruct base as [ctx []]. Qed.

Lemma next_queue_counter_run name base s n o h : in_step name base s n o h ->
  next_queue_counter o = (Ret n, o <| ow_process := ow_process o <| pr_queue_counter := wrap 32 (n + 1) |> |>).
Proof. unfold in_step. by intros ->. Qed.

(** The counter of the queues moves once for a subscriber that has one. *)
Definition subscriber_made (name : string) (base : Owner) (n : Z) (r : outcome SubscriberImpl) (o : Owner) (h : Host) : Prop :=
  exists s n', session_ok s /\ in_step name base s n' o h /\ (n' = n \/ n' = wrap 32 (n + 1)) /\
    forall m, r = Ret m -> is_Some (si_queue m) -> n' = wrap 32 (n + 1).

Lemma registered_subscriber_refines env topic config name s o : ow_context o = Some (mkContextImpl name (Some s)) -> session_ok s ->
  let p := ow_process o in
  steps (in_step name o s (pr_queue_counter p)) (registered_subscriber env topic config)
    (create_registered_subscriber (with_answers env (pr_queue_counter p) (fun d => (subscribe topic config d s).1)) topic config)
    (subscriber_made name o (pr_queue_counter p)).
Proof.
  intros Ho Hok p. set (n := pr_queue_counter p). set (answers := with_answers env n _).
  assert (Hsub : forall d r s', subscribe topic config d s = (r, s') -> session_ok s').
  { intros d r s' Hr. pose proof (subscribe_ok topic config d s Hok) as He. unfold ends in He. rewrite Hr in He. destruct r; [done | apply He | done]. }
  assert (Hstop : forall r n' s' o' h', session_ok s' -> (forall m, r <> Ret m) -> n' = n \/ n' = wrap 32 (n + 1) -> in_step name o s' n' o' h' ->
    subscriber_made name o n r o' h').
  { intros r n' s' o' h' Hs' Hr Hn Hin. exists s', n'. split_and!; [done | done | done |]. intros m Hm. by apply Hr in Hm. }
  assert (Hclean : forall (I : Owner -> Host -> Prop) e (m : cpp Host unit), (forall o' h', I o' h' -> subscriber_made name o n (Throw e) o' h') ->
    steps I (on_host m) m (fun r o' h' => (forall u, r = Ret u -> subscriber_made name o n (Throw e) o' h') /\
      (forall e', r = Throw e' -> subscriber_made name o n (Throw e') o' h') /\ (r = Undef -> subscriber_made name o n Undef o' h'))).
  { intros I e m HI o1 h1 H1. destruct (HI _ _ H1) as (s' & n' & Hs' & Hin & Hn & _).
    destruct (steps_host name o s' n' m o1 h1 Hin) as (r & o2 & h2 & Hr & Hm & Hin2). exists r, o2, h2. split_and!; [done | done | eauto ..]. }
  unfold registered_subscriber, create_registered_subscriber.
  eapply steps_bind; [apply steps_lift | | intros e o' h' [_ H]; eauto | intros o' h' [_ H]; eauto]. intros []. cbv beta.
  eapply steps_bind; [eapply steps_weaken; [|by intros r o' h' H; exact H|apply steps_host]; by intros o' h' [_ H] | | cbv beta; eauto | cbv beta; eauto].
  intros listener. cbv beta. apply (steps_cleanup _ _ _ _ _ (subscriber_made name o n)); [| intros e; by apply Hclean | done | done].
  set (opened := fun (r : outcome (QueueDescriptor * option QueueClient)) o' h' => exists n', (n' = n \/ n' = wrap 32 (n + 1)) /\
    in_step name o s n' o' h' /\ forall d q, r = Ret (d, q) -> is_Some q -> n' = wrap 32 (n + 1)).
  apply (steps_bind _ _ _ _ _ opened).
  - case_bool_decide as Htr.
    + assert (Hgo : steps (in_step name o s (wrap 32 (n + 1))) (d ← lift (advertised_queue answers config);
        client ← on_host (create_own_queue answers d); mret (d, Some client)) (d ← lift (advertised_queue answers config);
        client ← create_own_queue answers d; mret (d, Some client)) opened).
      { assert (Hnone : forall r o' h', in_step name o s (wrap 32 (n + 1)) o' h' -> opened r o' h') by (intros r o' h' H; exists (wrap 32 (n + 1)); auto).
        eapply steps_bind; [apply steps_lift | | intros e o' h' [_ H]; by apply Hnone | intros o' h' [_ H]; by apply Hnone]. intros d. cbv beta.
        eapply steps_bind; [eapply steps_weaken; [|by intros r o' h' H; exact H|apply steps_host]; by intros o' h' [_ H] | |
          cbv beta; intros e o' h' H; by apply Hnone | cbv beta; intros o' h' H; by apply Hnone].
        intros client. cbv beta. apply steps_ret. intros o' h' H. by apply Hnone. }
      intros o1 h1 Hin. unfold mbind at 1, cpp_bind at 1. rewrite (next_queue_counter_run _ _ _ _ _ _ Hin). cbv zeta.
      exact (Hgo _ _ (in_step_count _ _ _ _ _ _ _ Hin)).
    + apply steps_ret. intros o' h' H. exists n. split_and!; [auto | done |]. intros d q [= <- <-] [? Hq]. discriminate.
  - intros [descriptor queue]. intros o1 h1 (n' & Hn & Hin & Hq).
    refine (steps_bind (in_step name o s n') _ _ _ _ (fun r o' h' => exists s', session_ok s' /\ in_step name o s' n' o' h')
      (subscriber_made name o n) _ _ _ _ o1 h1 Hin); clear o1 h1 Hin.
    + eapply (steps_cleanup _ _ _ _ _ (fun r o' h' => exists s', session_ok s' /\ in_step name o s' n' o' h')).
      * apply steps_session. intros r s' Hr. by eapply Hsub.
      * intros e o' h' (s' & Hs' & Hin). destruct (steps_host name o s' n' (reset_queue answers queue) o' h' Hin) as (r & o2 & h2 & Hr & Hm & Hin2).
        exists r, o2, h2. split_and!; [done | done | eauto ..].
      * auto.
      * auto.
    + intros endpoint. cbv beta. apply steps_ret. intros o' h' (s' & Hs' & Hin). exists s', n'. split_and!; [done | done | done |].
      intros m [= <-] Hsome. by eapply Hq.
    + intros e o' h' (s' & Hs' & Hin). by eapply Hstop.
    + intros o' h' (s' & Hs' & Hin). by eapply Hstop.
  - intros e o' h' (n' & Hn & Hin & _). by eapply Hstop.
  - intros o' h' (n' & Hn & Hin & _). by eapply Hstop.
Qed.

(** ** Names *)

Definition digit (b : Z) : Prop := 48 <= b <= 57.

Lemma pretty_go_digits (x : N) : forall s, Forall digit (string_bytes s) -> Forall digit (string_bytes (pretty_N_go x s)).
Proof.
  induction (N.lt_wf_0 x) as [x _ IH]. intros s Hs. destruct (decide (x = 0%N)) as [->|Hne]; [by rewrite pretty_N_go_0|].
  rewrite pretty_N_go_step by lia. apply IH; [apply N.div_lt; lia|]. unfold string_bytes. simpl. constructor; [|done].
  pose proof (N.mod_lt x 10 ltac:(done)). unfold digit, pretty_N_char. repeat case_match; vm_compute; by split.
Qed.

Lemma pretty_digits (x : Z) : 0 <= x -> Forall digit (string_bytes (pretty x)).
Proof.
  intros Hx. destruct x as [|p|p]; [by repeat constructor | | lia]. unfold pretty, pretty_Z, pretty, pretty_positive, pretty, pretty_N.
  case_decide; [done|]. apply pretty_go_digits. constructor.
Qed.

(** What comes before the first [b] and what comes after it. *)
Lemma split_at_byte (b : Z) l1 r1 l2 r2 : ~ (b ∈ l1) -> ~ (b ∈ l2) -> l1 ++ b :: r1 = l2 ++ b :: r2 -> l1 = l2 /\ r1 = r2.
Proof.
  revert l2. induction l1 as [|x l1 IH]; intros [|y l2] H1 H2 Heq; simplify_eq/=; [done | | |].
  - exfalso. apply H2. apply list_elem_of_here.
  - exfalso. apply H1. apply list_elem_of_here.
  - destruct (IH l2) as [-> ->]; [set_solver | set_solver | done | done].
Qed.

Definition underscore : Z := 95.
Lemma digits_no_underscore l : Forall digit l -> ~ (underscore ∈ l).
Proof. intros Hd Hin. rewrite list.Forall_forall in Hd. specialize (Hd _ Hin). unfold digit, underscore in Hd. lia. Qed.

(** A prefix, the process and a number. *)
Definition object_name (prefix : string) (pid id : Z) : string := prefix +:+ pretty pid +:+ "_" +:+ pretty id.

Lemma object_name_inj prefix pid id pid' id' : 0 <= pid -> 0 <= pid' ->
  object_name prefix pid id = object_name prefix pid' id' -> pid = pid' /\ id = id'.
Proof.
  intros Hp Hp' Heq. unfold object_name in Heq. apply string_app_inj_l, (f_equal string_bytes) in Heq. rewrite !string_bytes_app in Heq.
  apply (split_at_byte underscore) in Heq as [H1 H2]; [|by apply digits_no_underscore, pretty_digits ..].
  apply string_bytes_inj, pretty_Z_inj in H1. apply string_bytes_inj, pretty_Z_inj in H2. done.
Qed.

Lemma lor_shiftl_32 high low : 0 <= high -> fits 32 low -> Z.lor (Z.shiftl high 32) low = high * 2 ^ 32 + low.
Proof.
  intros Hh Hl. rewrite <- Z.lxor_lor, <- Z.add_nocarry_lxor; [by rewrite Z.shiftl_mul_pow2 by lia | |].
  all: apply Z.bits_inj'; intros i Hi; rewrite Z.land_spec, Z.bits_0; destruct (Z.ltb_spec i 32) as [Hlt|Hge].
  1,3: by rewrite Z.shiftl_spec_low by lia.
  all: rewrite (Z.bits_above_log2 low i); [by rewrite andb_false_r | apply Hl |];
    (destruct (Z.eq_dec low 0) as [->|Hne]; [simpl; lia|]; apply Z.lt_le_trans with 32; [|done]; unfold fits in Hl; apply Z.log2_lt_pow2; lia).
Qed.

Lemma object_id_inj pid counter counter' : 0 <= pid < 2 ^ 31 -> fits 32 counter -> fits 32 counter' ->
  (nextPoolId pid counter).1 = (nextPoolId pid counter').1 -> counter = counter'.
Proof.
  intros Hp Hc Hc'. unfold nextPoolId. simpl. rewrite (wrap_small 32 pid) by ulia. rewrite Z.shiftl_mul_pow2 by lia.
  rewrite (wrap_small 64) by (unfold fits; lia). rewrite <- Z.shiftl_mul_pow2 by lia. rewrite !lor_shiftl_32 by (done || lia). lia.
Qed.

(** ** Creating endpoints *)

(** A context that was not moved from, in a process with a well-formed world. *)
Record owner_ok (o : Owner) : Prop := {
  oo_context : exists c, ow_context o = Some c /\ forall s, cx_session c = Some s -> session_ok s;
  oo_world : world_ok (pr_world (ow_process o));
}.

Definition registered (o : Owner) : bool := match ow_context o with Some (mkContextImpl _ (Some _)) => true | _ => false end.

(** The name of the pool of the next publisher. *)
Definition next_pool_name (pid counter : Z) : string := object_name "/mw_pool_" pid (nextPoolId pid counter).1.

Lemma advertised_name pid counter config d : advertised_pool pid counter config = Ret d -> pc_transport config = SharedMemory ->
  pd_shm_name d = next_pool_name pid counter.
Proof. unfold advertised_pool. intros Hd Htr. rewrite bool_decide_true in Hd by done. unfold mbind, outcome_bind in Hd. by destruct (requiredPoolSegmentSize _ _); simplify_eq. Qed.

(** A publisher that was made, in the world [w]. *)
Record publisher_made (env : publisher_env) (topic : string) (config : PublisherConfig) (counter : Z) (direct : bool) (w : World) (m : PublisherState.Impl) : Prop := {
  pm_ok : publisher_ok [] (mkPubState m w);
  pm_session : im_registry_session m = negb direct;
  pm_topic : im_topic m = topic /\ im_config m = config /\ im_sequence m = 0;
  pm_pool : forall p, im_pool m = Some p -> pd_shm_name (mp_descriptor p) = next_pool_name (pv_pid env) counter /\ counts_pool config = true;
}.

Lemma create_direct_shape answer topic config m : create_direct answer topic config = Ret m ->
  im_registry_session m = false /\ im_topic m = topic /\ im_config m = config /\ im_sequence m = 0 /\ im_pool m = None.
Proof. unfold create_direct, connectUnixSocket, makeAddress, createSocket. unfold mbind, outcome_bind. repeat case_match; try done; intros [= <-]; done. Qed.

Lemma create_registered_shape pid counter answers os topic config w m w' : create_registered pid counter answers os topic config w = (Ret m, w') ->
  im_registry_session m = true /\ im_topic m = topic /\ im_config m = config /\ im_sequence m = 0 /\
  (is_Some (im_pool m) -> counts_pool config = true /\ exists d, advertised_pool pid counter config = Ret d /\
     forall p, im_pool m = Some p -> exists topic_id, create_pool os pid (mkPoolDescriptor (pd_shm_name d) (pd_pool_id d) (pd_segment_size d) topic_id (pd_layout_version d)) (pc_memory_pool config) = Ret p).
Proof.
  unfold create_registered, counts_pool. unfold_cpp. destruct (Publisher.validateConfig config true) as [[]| |]; [|done|done].
  destruct (advertised_pool pid counter config) as [d| |]; [|done|done]. destruct (answers d) as [endpoint| |]; [|done|done].
  case_bool_decide as Htr.
  - destruct (create_pool _ _ _ _) as [p| |] eqn:Hp; [|done|done]. intros [= <- <-]. split_and!; try done. intros _. split; [done|].
    exists d. split; [done|]. intros p' [= <-]. by eexists.
  - intros [= <- <-]. split_and!; try done. by intros [].
Qed.

Lemma createPublisher_ok env topic config o : owner_ok o -> config_typed (pc_memory_pool config) ->
  let '(r, o') := createPublisher env topic config o in
  owner_ok o' /\ registered o' = registered o /\ pr_world (ow_process o') = pr_world (ow_process o) /\
  (pr_pool_counter (ow_process o') = pr_pool_counter (ow_process o) \/
   pr_pool_counter (ow_process o') = wrap 32 (pr_pool_counter (ow_process o) + 1)) /\
  match r with
  | Ret m => publisher_made env topic config (pr_pool_counter (ow_process o)) (negb (registered o)) (pr_world (ow_process o)) m /\
      (is_Some (im_pool m) -> pr_pool_counter (ow_process o') = wrap 32 (pr_pool_counter (ow_process o) + 1))
  | Throw _ => True
  | Undef => False
  end.
Proof.
  intros Ho Hty. pose proof Ho as [(c & Hc & Hs) Hw]. unfold createPublisher. unfold mbind, cpp_bind, this. rewrite Hc.
  destruct (string_size topic =? 0); [by split_and!; auto|]. unfold registered. rewrite Hc. destruct c as [name [s|]]; simpl.
  - specialize (Hs s eq_refl). pose proof (registered_publisher_refines env topic config name s o Hc Hs) as Href. cbv zeta in Href.
    pose proof (create_registered_ok (pv_pid env) (pr_pool_counter (ow_process o)) (fun d => (advertise topic config d s).1) (pv_os env) topic config (pr_world (ow_process o)) Hty) as Hcreate.
    pose proof (create_registered_shape (pv_pid env) (pr_pool_counter (ow_process o)) (fun d => (advertise topic config d s).1) (pv_os env) topic config (pr_world (ow_process o))) as Hshape.
    destruct (create_registered _ _ _ _ _ _ _) as [r w]. destruct Href as (s' & Hs' & ->).
    assert (Hdef : forall d, (advertise topic config d s).1 <> Undef).
    { intros d. pose proof (advertise_ok topic config d s Hs) as He. unfold ends in He. by destruct (advertise topic config d s) as [[]]. }
    specialize (Hcreate Hdef Hw). simpl. split_and!; [split; simpl; [|done] | done | done | by destruct (counts_pool config); auto |].
    { eexists. split; [done|]. simpl. by intros s0 [= <-]. }
    destruct r as [m|e|]; [|done|done]. destruct Hcreate as (-> & Hpub & _). destruct (Hshape m _ eq_refl) as (H1 & H2 & H3 & H4 & Hpool).
    split; [split; [done | done | done |] |].
    + intros p Hp. destruct (Hpool ltac:(by eexists)) as (Hcount & d & Hd & Hmade). destruct (Hmade p Hp) as [topic_id Hcp].
      pose proof (create_pool_spec (pv_os env) (pv_pid env) (mkPoolDescriptor (pd_shm_name d) (pd_pool_id d) (pd_segment_size d) topic_id (pd_layout_version d)) _ Hty) as Hspec.
      rewrite Hcp in Hspec. destruct Hspec as (_ & -> & _). split; [|done]. simpl. apply (advertised_name _ _ config); [done|].
      unfold counts_pool in Hcount. destruct (Publisher.validateConfig config true); by bools.
    + intros Hsome. destruct (Hpool Hsome) as [-> _]. done.
  - unfold lift. pose proof (create_direct_ok (pv_connect env) topic config _ Hw) as Hcreate.
    pose proof (create_direct_shape (pv_connect env) topic config) as Hshape. destruct (create_direct _ _ _) as [m|e|]; [| rewrite Hc; by split_and!; auto | done].
    destruct Hcreate as (Hpub & _). destruct (Hshape m eq_refl) as (H1 & H2 & H3 & H4 & H5).
    rewrite Hc. split_and!; auto; [split; auto; intros p Hp; by rewrite H5 in Hp | rewrite H5; by intros []].
Qed.

Lemma createSubscriber_ok env topic config o : owner_ok o -> 0 <= uc_queue_depth config ->
  match la_socket (sv_listen env) with inl fd => 0 <= fd /\ fd ∉ sf_fds (ho_files (pr_host (ow_process o))) | inr _ => True end ->
  let '(r, o') := createSubscriber env topic config o in
  owner_ok o' /\ registered o' = registered o /\
  match r with
  | Ret m => made config (pr_host (ow_process o)) (pr_host (ow_process o')) m
  | Throw _ => unchanged (pr_host (ow_process o)) (pr_host (ow_process o'))
  | Undef => False
  end.
Proof.
  intros Ho Hd Hfd. pose proof Ho as [(c & Hc & Hs) Hw]. unfold createSubscriber. unfold mbind, cpp_bind, this. rewrite Hc.
  destruct (string_size topic =? 0); [by split_and!|]. destruct c as [name [s|]]; cbn [cx_session].
  - specialize (Hs s eq_refl). set (answers := with_answers env (pr_queue_counter (ow_process o)) (fun d => (subscribe topic config d s).1)).
    assert (Hin : in_step name o s (pr_queue_counter (ow_process o)) o (pr_host (ow_process o))).
    { unfold in_step, with_session. rewrite <- Hc. by destruct o as [ctx []]. }
    destruct (registered_subscriber_refines env topic config name s o Hc Hs o _ Hin) as (r & o' & h' & -> & Hrun & s' & n' & Hs' & Hin' & _).
    pose proof (create_registered_subscriber_ok answers topic config (pr_host (ow_process o))) as Hcreate. unfold answers in Hcreate. rewrite Hrun in Hcreate.
    unfold in_step, with_session in Hin'. subst o'. split_and!; [split; simpl; [|done] | unfold registered; by rewrite Hc |].
    { eexists. split; [done|]. simpl. by intros s0 [= <-]. }
    simpl. assert (Hans : create_answers (with_answers env (pr_queue_counter (ow_process o)) (fun d => (subscribe topic config d s).1)) (pr_host (ow_process o))).
    { split; [done|]. intros d. simpl. pose proof (subscribe_ok topic config d s Hs) as He. unfold ends in He. by destruct (subscribe topic config d s) as [[]]. }
    specialize (Hcreate Hans Hd). destruct r; [apply Hcreate | done | done].
  - unfold on_host. pose proof (create_direct_subscriber_ok (with_answers env 0 no_session) topic config (pr_host (ow_process o))) as Hcreate.
    assert (Hans : create_answers (with_answers env 0 no_session) (pr_host (ow_process o))) by (by split).
    specialize (Hcreate Hans). destruct (create_direct_subscriber _ _ _ _) as [r h']. split_and!; [split; simpl; [by exists (mkContextImpl name None)|done] | done |].
    simpl. destruct r; [apply Hcreate | done | done].
Qed.

(** ** Lifetimes *)

Lemma ends_or_cleanup {S A} (c : cpp S A) (cleanup : cpp S unit) s (Q : A -> S -> Prop) E :
  ends c s Q (fun e s' => wp cleanup s' (fun _ s'' => E e s'')) -> ends (or_cleanup c cleanup) s Q E.
Proof.
  unfold ends, or_cleanup, wp. destruct (c s) as [[a|e|] s']; [done| |done]. unfold_cpp. by destruct (cleanup s') as [[[]|e'|] s''].
Qed.

(** A session that was constructed is in its invariant. *)
Lemma create_session_ok env name config : link_ok (se_link env) -> link_ok (se_heartbeat_link env) -> rf_request_timeout config < 2 ^ 40 ->
  match create_session env name config with
  | (Ret _, Some s) => session_ok s
  | (Throw _, _) => True
  | _ => False
  end.
Proof.
  intros Hk Hk2 Ht. unfold create_session. destruct (create_client (se_connect env) config) as [c|e|] eqn:Hc; [|done|].
  2: { unfold create_client, connectUnixSocket, makeAddress, createSocket in Hc. repeat (case_match; try done; simplify_eq/=). }
  enough (ends (construct env name) (mkRegistrySession (mkClientState c (se_link env)) config 0 0 None None false []) (fun _ s => session_ok s) (fun _ _ => True)) as He.
  { unfold ends in He. by destruct (construct _ _ _) as [[a|e|] s]. }
  unfold construct. apply ends_bind.
  pose proof (register_ok name _ (create_client_state _ _ _ _ Hc Hk Ht)) as Hreg. unfold ends in Hreg. unfold ends at 1, on_client. simpl.
  destruct (registerNode name _) as [[r|e|] c1]; [|done|done]. destruct Hreg as [Hc1 _].
  apply ends_bind, ends_modify. set (s1 := _ <| ss_session_id := _ |>).
  pose proof (start_heartbeat_ends env s1 Hk2 Ht eq_refl) as Hs. unfold ends, on_error in *.
  destruct (start_heartbeat env s1) as [[a|e|] s2]; [by apply Hs| |done]. destruct Hs as (Hc2 & _ & _).
  pose proof (unregister_sends (ss_node_id s2) (ss_client s2)) as Hu. rewrite Hc2 in Hu at 1. specialize (Hu Hc1).
  unfold wp, ignore_errors in *. unfold_cpp. unfold on_client. by destruct (unregisterNode _ _) as [[a|e2|] c2].
Qed.

(** A context with a session in its invariant, or without one. *)
Definition context_ok (o : Owner) : Prop := exists c, ow_context o = Some c /\ forall s, cx_session c = Some s -> session_ok s.

Lemma make_context_ok env name config o : link_ok (se_link env) -> link_ok (se_heartbeat_link env) -> rf_request_timeout config < 2 ^ 40 ->
  world_ok (pr_world (ow_process o)) ->
  ends (make_context env name config) o
    (fun _ o' => owner_ok o' /\ registered o' = true /\ ow_process o' = ow_process o) (fun _ o' => o' = o).
Proof.
  intros Hk Hk2 Ht Hw. unfold ends, make_context, create_registry_context. destruct (string_size name =? 0); [done|].
  pose proof (create_session_ok env name config Hk Hk2 Ht) as Hs. destruct (create_session _ _ _) as [[[]|e|] [s|]]; try done.
  split_and!; [split; [|done] | done | done]. eexists. split; [done|]. simpl. by intros ? [= <-].
Qed.

Lemma wp_on_session {A} (method : session A) o (Q : A -> Owner -> Prop) : context_ok o -> registered o = true ->
  (forall name s, session_ok s -> wp method s (fun a s' => Q a (o <| ow_context := Some (mkContextImpl name (Some s')) |>))) ->
  wp (on_session method) o Q.
Proof.
  intros (c & Hc & Hs) Hr Hwp. unfold registered in Hr. rewrite Hc in Hr. destruct c as [name [s|]]; [|done]. specialize (Hwp name s (Hs s eq_refl)).
  unfold wp, on_session in *. rewrite Hc. by destruct (method s) as [[]].
Qed.

Lemma destroy_context_ok o : context_ok o -> wp destroy_context o (fun _ o' => ow_context o' = None /\ ow_process o' = ow_process o).
Proof.
  intros Ho. unfold destroy_context. apply wp_bind. unfold this, wp at 1. pose proof Ho as (c & Hc & _). rewrite Hc. destruct c as [name [s|]]; [|done].
  apply wp_bind, wp_on_session; [done | unfold registered; by rewrite Hc |]. intros name' s0 Hs0. destruct (session_end_unregisters s0 Hs0) as (s' & Hrun & _).
  unfold wp, runs in *. by rewrite Hrun.
Qed.

Lemma unsubscribe_ok id s : session_ok s -> wp (unsubscribe id) s (fun _ s' => session_ok s').
Proof.
  intros Hok. unfold unsubscribe. apply wp_bind. unfold this, wp at 1.
  pose proof (on_client_ok (RegistryClient.unsubscribe (ss_node_id s) id) s Hok (run_call_ok (CallUnsubscribe (ss_node_id s) id) (ss_client s) (so_control _ Hok))) as He.
  unfold ends, wp, ignore_errors in *. by destruct (on_client _ s) as [[a|e|] s']; [|destruct He|].
Qed.

Lemma context_session name s o : session_ok s -> context_ok (o <| ow_context := Some (mkContextImpl name (Some s)) |>).
Proof. intros Hs. eexists. split; [done|]. simpl. by intros ? [= <-]. Qed.

Lemma drop_publisher_ok env m o : env_answers env -> context_ok o -> (im_registry_session m = true -> registered o = true) ->
  publisher_ok [] (mkPubState m (pr_world (ow_process o))) ->
  wp (drop_publisher env m) o (fun _ o' => context_ok o' /\ pr_host (ow_process o') = pr_host (ow_process o)).
Proof.
  intros Henv Ho Hr Hm. unfold drop_publisher. apply wp_bind. unfold this, wp at 1.
  pose proof (destroy_publisher_ok [] env _ Henv (po_inv _ _ Hm)) as Hd. apply wp_run in Hd as ([] & s & -> & _).
  apply wp_bind. unfold modify, wp at 1. destruct (im_registry_session m) eqn:Hreg; cbn [andb]; [|by apply wp_ret].
  destruct (negb _); [|by apply wp_ret]. apply wp_on_session; [done | by apply Hr |]. intros name s0 Hs0.
  eapply wp_mono; [|by apply unadvertise_ok]. intros u s' Hs'. split; [by apply context_session | done].
Qed.

Lemma drop_subscriber_ok kernel m o :
  sub_ok (mkSubState m (ho_shared (pr_host (ow_process o))) kernel (ho_files (pr_host (ow_process o))) []) -> context_ok o ->
  (si_registry_session m = true -> registered o = true) ->
  wp (drop_subscriber kernel m) o (fun _ o' => context_ok o' /\
    (forall client, si_queue m = Some client -> qd_shm_name (qc_descriptor client) ∉ sh_queue_names (ho_shared (pr_host (ow_process o')))) /\
    (ul_owns_path (si_listener m) = true -> sf_paths (ho_files (pr_host (ow_process o'))) =
       sf_paths (ho_files (pr_host (ow_process o))) ∖ {[ ul_socket_path (si_listener m) ]})).
Proof.
  intros Hm Ho Hr. unfold drop_subscriber. apply wp_bind. unfold this, wp at 1.
  pose proof (destroy_subscriber_ok _ Hm) as Hd. apply wp_run in Hd as ([] & s & -> & Hq & Hp & _).
  apply wp_bind. unfold modify, wp at 1. destruct (si_registry_session m) eqn:Hreg; cbn [andb]; [|by apply wp_ret].
  destruct (negb _); [|by apply wp_ret]. apply wp_on_session; [done | by apply Hr |]. intros name s0 Hs0.
  eapply wp_mono; [|by apply unsubscribe_ok]. intros u s' Hs'. split_and!; [by apply context_session | done | done].
Qed.

(** ** Several publishers *)

Definition publisher_call : Type := publisher_env * string * PublisherConfig.

(** An application that creates publishers one after the other and goes on after an exception. *)
Definition create_publishers (calls : list publisher_call) : cpp Owner (list PublisherState.Impl) :=
  for_collect calls (fun '(env, topic, config) =>
    r ← attempt (createPublisher env topic config); mret (match r with inl m => [m] | inr _ => [] end)).

Definition pool_names (publishers : list PublisherState.Impl) : list string :=
  omap (fun m => (fun p => pd_shm_name (mp_descriptor p)) <$> im_pool m) publishers.

(** The names made with the counter from [n] to before [n']. *)
Definition names_between (pid n n' : Z) (names : list string) : Prop :=
  NoDup names /\ Forall (fun name => exists k, n <= k < n' /\ name = next_pool_name pid k) names.

Lemma next_pool_name_inj pid pid' k k' : 0 <= pid < 2 ^ 31 -> 0 <= pid' < 2 ^ 31 -> fits 32 k -> fits 32 k' ->
  next_pool_name pid k = next_pool_name pid' k' -> pid = pid' /\ k = k'.
Proof.
  intros Hp Hp' Hk Hk' Heq. apply object_name_inj in Heq as [-> Hid]; [|lia..]. split; [done|]. by eapply object_id_inj.
Qed.

Lemma create_publishers_ok pid calls : 0 <= pid < 2 ^ 31 ->
  Forall (fun '(env, _, config) => pv_pid env = pid /\ config_typed (pc_memory_pool config)) calls ->
  forall o, owner_ok o -> let n := pr_pool_counter (ow_process o) in 0 <= n -> n + Z.of_nat (length calls) < 2 ^ 32 ->
  wp (create_publishers calls) o (fun ms o' => owner_ok o' /\ pr_world (ow_process o') = pr_world (ow_process o) /\
    Forall (fun m => publisher_ok [] (mkPubState m (pr_world (ow_process o')))) ms /\ n <= pr_pool_counter (ow_process o') <= n + Z.of_nat (length calls) /\
    names_between pid n (pr_pool_counter (ow_process o')) (pool_names ms)).
Proof.
  intros Hpid. induction calls as [|[[env topic] config] calls IH]; intros Hall o Ho n Hn Hroom.
  { apply wp_ret. unfold names_between. split_and!; [done | done | by apply list.Forall_nil | lia | simpl; lia | by apply NoDup_nil_2 | by apply list.Forall_nil]. }
  apply Forall_cons_1 in Hall as [[He Hty] Hall]. unfold create_publishers. cbn [for_collect]. apply wp_bind, wp_bind.
  pose proof (createPublisher_ok env topic config o Ho Hty) as Hstep. unfold attempt, wp at 1. destruct (createPublisher env topic config o) as [r o1].
  destruct Hstep as (Ho1 & _ & Hw1 & Hcount & Hr). simpl length in *. fold n in Hcount.
  assert (Hn1 : n <= pr_pool_counter (ow_process o1) <= n + 1) by (rewrite (wrap_small 32 (n + 1)) in Hcount by ulia; lia).
  specialize (IH Hall o1 Ho1 ltac:(lia) ltac:(lia)). unfold create_publishers in IH.
  destruct r as [m|e|]; [| |done]; apply wp_ret, wp_bind; (eapply wp_mono; [|exact IH]); intros ms o2 (Ho2 & Hw2 & Hms & Hn2 & Hnd & Hnames); apply wp_ret; unfold names_between.
  - destruct Hr as [[Hpub _ _ Hpool] Hm]. split_and!; [done | congruence | | lia | lia | |].
    + constructor; [|done]. by rewrite Hw2, Hw1.
    + simpl. destruct (im_pool m) as [p|] eqn:Hp; [|done]. simpl. destruct (Hpool p eq_refl) as [Hname _]. apply list.NoDup_cons. split; [|done].
      intros Hin. rewrite list.Forall_forall in Hnames. destruct (Hnames _ Hin) as (k & Hk & Heq). rewrite Hname, He in Heq.
      apply next_pool_name_inj in Heq as [_ <-]; [|done | done | ulia | ulia]. rewrite (Hm ltac:(by eexists)), (wrap_small 32) in Hk by ulia. lia.
    + simpl. assert (Hrest : Forall (fun name => exists k, n <= k < pr_pool_counter (ow_process o2) /\ name = next_pool_name pid k) (pool_names ms)).
      { eapply list.Forall_impl; [exact Hnames|]. intros name (k & Hk & ->). exists k. split; [lia | done]. }
      destruct (im_pool m) as [p|] eqn:Hp; [|done]. simpl. destruct (Hpool p eq_refl) as [Hname _]. constructor; [|done].
      exists n. split; [|by rewrite Hname, He]. rewrite (Hm ltac:(by eexists)), (wrap_small 32) in Hn2 by ulia. lia.
  - split_and!; [done | congruence | done | lia | lia | done |]. eapply list.Forall_impl; [exact Hnames|]. intros name (k & Hk & ->). exists k. split; [lia | done].
Qed.

(** ** The theorems *)

(** C17: Two processes may create publishers in any order and number, on any topics, in contexts with
    a session or without, and go on after exceptions: as long as a process creates fewer than
    2^32 publishers, every creation is defined, every publisher is in its invariant, and no two pools of
    either process have the same shared-memory name. *)
Theorem pool_names_never_collide pid pid' calls calls' o o' :
  0 <= pid < 2 ^ 31 -> 0 <= pid' < 2 ^ 31 -> pid <> pid' ->
  Forall (fun '(env, _, config) => pv_pid env = pid /\ config_typed (pc_memory_pool config)) calls ->
  Forall (fun '(env, _, config) => pv_pid env = pid' /\ config_typed (pc_memory_pool config)) calls' ->
  owner_ok o -> owner_ok o' ->
  0 <= pr_pool_counter (ow_process o) -> pr_pool_counter (ow_process o) + Z.of_nat (length calls) < 2 ^ 32 ->
  0 <= pr_pool_counter (ow_process o') -> pr_pool_counter (ow_process o') + Z.of_nat (length calls') < 2 ^ 32 ->
  exists ms ms' o1 o1', create_publishers calls o = (Ret ms, o1) /\ create_publishers calls' o' = (Ret ms', o1') /\
    Forall (fun m => publisher_ok [] (mkPubState m (pr_world (ow_process o1)))) ms /\
    Forall (fun m => publisher_ok [] (mkPubState m (pr_world (ow_process o1')))) ms' /\
    NoDup (pool_names ms ++ pool_names ms').
Proof.
  intros Hp Hp' Hne Hc Hc' Ho Ho' Hn Hroom Hn' Hroom'.
  destruct (proj1 (wp_run _ _ _) (create_publishers_ok pid calls Hp Hc o Ho Hn Hroom)) as (ms & o1 & Hrun & _ & _ & Hms & Hk & Hnd & Hnames).
  destruct (proj1 (wp_run _ _ _) (create_publishers_ok pid' calls' Hp' Hc' o' Ho' Hn' Hroom')) as (ms' & o1' & Hrun' & _ & _ & Hms' & Hk' & Hnd' & Hnames').
  exists ms, ms', o1, o1'. split_and!; try done. apply NoDup_app. split_and!; [done | | done].
  intros name Hin Hin'. rewrite list.Forall_forall in Hnames, Hnames'.
  destruct (Hnames _ Hin) as (k & Hkn & ->), (Hnames' _ Hin') as (k' & Hkn' & Heq).
  apply Hne. by eapply next_pool_name_inj in Heq as [? _]; [..|ulia|ulia].
Qed.

(** A context that was moved from creates nothing, an empty topic is refused, and neither changes
    anything; any other call gives a publisher in its invariant, which uses the session exactly when the
    context has one, or an exception; it changes neither the world nor the kind of context. *)
Theorem context_publishers_are_sound env topic config o :
  world_ok (pr_world (ow_process o)) -> config_typed (pc_memory_pool config) ->
  (ow_context o = None -> createPublisher env topic config o = (Throw ex_logic_error, o)) /\
  (owner_ok o -> topic = ""%string -> createPublisher env topic config o = (Throw ex_invalid_argument, o)) /\
  (owner_ok o -> let '(r, o') := createPublisher env topic config o in
   owner_ok o' /\ registered o' = registered o /\ pr_world (ow_process o') = pr_world (ow_process o) /\
   match r with
   | Ret m => publisher_made env topic config (pr_pool_counter (ow_process o)) (negb (registered o)) (pr_world (ow_process o)) m
   | Throw _ => True
   | Undef => False
   end).
Proof.
  intros Hw Hty. split_and!.
  - intros Hnull. unfold createPublisher, mbind, cpp_bind, this. by rewrite Hnull.
  - intros [(c & Hc & _) _] ->. unfold createPublisher, mbind, cpp_bind, this. by rewrite Hc.
  - intros Ho. pose proof (createPublisher_ok env topic config o Ho Hty) as H.
    destruct (createPublisher env topic config o) as [r o']. destruct H as (H1 & H2 & H3 & _ & H4). split_and!; [done..|]. by destruct r; [apply H4|..].
Qed.

(** The same of subscribers; a creation that throws leaves the host as it was. *)
Theorem context_subscribers_are_sound env topic config o : owner_ok o -> 0 <= uc_queue_depth config ->
  match la_socket (sv_listen env) with inl fd => 0 <= fd /\ fd ∉ sf_fds (ho_files (pr_host (ow_process o))) | inr _ => True end ->
  (topic = ""%string -> createSubscriber env topic config o = (Throw ex_invalid_argument, o)) /\
  let '(r, o') := createSubscriber env topic config o in
  owner_ok o' /\ registered o' = registered o /\
  match r with
  | Ret m => made config (pr_host (ow_process o)) (pr_host (ow_process o')) m
  | Throw _ => unchanged (pr_host (ow_process o)) (pr_host (ow_process o'))
  | Undef => False
  end.
Proof.
  intros Ho Hd Hfd. split; [|by apply createSubscriber_ok].
  intros ->. destruct Ho as [(c & Hc & _) _]. unfold createSubscriber, mbind, cpp_bind, this. by rewrite Hc.
Qed.

(** ** A concrete process *)

(** The registry answers the requests of the control connection, from the second one on, with
    these topics and endpoints. *)
Definition answering_session (answers : list (Z * Z)) : RegistrySession :=
  example_session <| ss_client := mkClientState (mkRegistryClient (Some 7) 2000 2)
    (quiet_link (imap (fun i '(topic, endpoint) =>
       InData (ok_response (2 + Z.of_nat i) [FU64 topic; FU64 endpoint; FStr ""; FU64 0; FU64 0; FU16 0])) answers)) |>.
Definition example_owner (answers : list (Z * Z)) : Owner :=
  mkOwner (Some (mkContextImpl "camera" (Some (answering_session answers))))
    (mkProcess example_world (mkHost (mkShared ∅ ∅ ∅ ∅ ∅) (mkSocketFiles ∅ {[ 0; 1; 2 ]})) 0 0).

Lemma example_owner_ok : owner_ok (example_owner [(3, 5); (4, 6)]).
Proof.
  split; [|exact example_world_ok]. eexists. split; [reflexivity|]. cbn [cx_session]. intros s [= <-].
  destruct example_session_ok as [_ Hh Ht]. split; [|exact Hh|exact Ht].
  apply client_of_ok; [unfold fits; lia|]. constructor; [|constructor; [|constructor]]; apply all_bytes_spec; vm_compute; reflexivity.
Qed.

Definition example_call (pid : Z) (topic : string) : publisher_call :=
  (mkPublisherEnv pid (mkConnectAnswer (inl 9) None) None, topic, example_publisher_config).

Lemma example_calls_ok pid topics : Forall (fun '(env, _, config) => pv_pid env = pid /\ config_typed (pc_memory_pool config))
  (example_call pid <$> topics).
Proof. induction topics; constructor; [|done]. split; [done|exact example_config_typed]. Qed.

(** Two processes that create two publishers each; an empty topic is refused in between. *)
Lemma pool_names_never_collide_witness : exists ms ms' o o',
  create_publishers (example_call 42 <$> ["pose"; ""; "scan"]%string) (example_owner [(3, 5); (4, 6)]) = (Ret ms, o) /\
  create_publishers (example_call 43 <$> ["pose"; "scan"]%string) (example_owner [(3, 5); (4, 6)]) = (Ret ms', o') /\
  length (pool_names ms ++ pool_names ms') = 4%nat /\ NoDup (pool_names ms ++ pool_names ms').
Proof.
  destruct (pool_names_never_collide 42 43 (example_call 42 <$> ["pose"; ""; "scan"]%string) (example_call 43 <$> ["pose"; "scan"]%string)
    (example_owner [(3, 5); (4, 6)]) (example_owner [(3, 5); (4, 6)])) as (ms & ms' & o & o' & Hrun & Hrun' & _ & _ & Hnd);
    [lia | lia | lia | apply example_calls_ok | apply example_calls_ok | exact example_owner_ok | exact example_owner_ok
    | simpl; lia | simpl; lia | simpl; lia | simpl; lia |].
  exists ms, ms', o, o'. split; [exact Hrun|]. split; [exact Hrun'|]. split; [|exact Hnd].
  rewrite length_app.
  assert (H1 : (match create_publishers (example_call 42 <$> ["pose"; ""; "scan"]%string) (example_owner [(3, 5); (4, 6)]) with (Ret ms, _) => length (pool_names ms) | _ => O end) = 2%nat)
    by (vm_compute; reflexivity).
  assert (H2 : (match create_publishers (example_call 43 <$> ["pose"; "scan"]%string) (example_owner [(3, 5); (4, 6)]) with (Ret ms, _) => length (pool_names ms) | _ => O end) = 2%nat)
    by (vm_compute; reflexivity).
  rewrite Hrun in H1. rewrite Hrun' in H2. by rewrite H1, H2.
Defined.

Lemma context_publishers_are_sound_witness : exists m o',
  createPublisher (mkPublisherEnv 42 (mkConnectAnswer (inl 9) None) None) "pose" example_publisher_config (example_owner [(3, 5); (4, 6)]) = (Ret m, o') /\
  im_topic m = "pose"%string /\ im_registry_session m = true.
Proof.
  destruct (context_publishers_are_sound (mkPublisherEnv 42 (mkConnectAnswer (inl 9) None) None) "pose" example_publisher_config
    (example_owner [(3, 5); (4, 6)]) example_world_ok example_config_typed) as (_ & _ & H). specialize (H example_owner_ok).
  assert (Hret : (match createPublisher (mkPublisherEnv 42 (mkConnectAnswer (inl 9) None) None) "pose" example_publisher_config (example_owner [(3, 5); (4, 6)]) with (Ret _, _) => true | _ => false end) = true)
    by (vm_compute; reflexivity).
  destruct (createPublisher _ _ _ _) as [[m|e|] o']; [|discriminate Hret|discriminate Hret]. exists m, o'. split; [reflexivity|].
  destruct H as (_ & _ & _ & [_ Hs [Ht _] _]). split; [exact Ht|exact Hs].
Defined.

Definition example_subscriber_env : subscriber_env :=
  mkSubscriberEnv (mkListenAnswer (inl 3) None None) 42 None (fun _ => None) LockAcquired LockAcquired.
Definition example_subscriber_config : SubscriberConfig :=
  mkSubscriberConfig "/tmp/camera.sock" 64 "Pose" "v1" SharedMemory 4 DropOldest 0.

(** The registry is silent, and the call times out. *)
Lemma context_subscribers_are_sound_witness : exists e o',
  createSubscriber example_subscriber_env "pose" example_subscriber_config (example_owner []) = (Throw e, o') /\
  unchanged (pr_host (ow_process (example_owner []))) (pr_host (ow_process o')).
Proof.
  assert (Ho : owner_ok (example_owner [])).
  { split; [|exact example_world_ok]. eexists. split; [reflexivity|]. cbn [cx_session]. intros s [= <-].
    destruct example_session_ok as [_ Hh Ht]. split; [|exact Hh|exact Ht]. apply client_of_ok; [unfold fits; lia|constructor]. }
  destruct (context_subscribers_are_sound example_subscriber_env "pose" example_subscriber_config (example_owner []) Ho) as [_ H];
    [vm_compute; discriminate | simpl; split; [lia|]; vm_compute; discriminate |].
  assert (Hret : (match createSubscriber example_subscriber_env "pose" example_subscriber_config (example_owner []) with (Throw _, _) => true | _ => false end) = true)
    by (vm_compute; reflexivity).
  destruct (createSubscriber _ _ _ _) as [[m|e|] o']; [discriminate Hret| |discriminate Hret]. exists e, o'. split; [reflexivity|]. apply H.
Defined.
