(* ===== verification/BridgeNodes.v ===== *)
(** * Bridges between ROS 2 and the middleware

    [message_codec.hpp] and [bridge_nodes.cpp] of [ros2_adapter/mw_ros2_adapter].  [rclcpp] is not part of
    the repository: its serialization is the class [RosSerialization], and what its node answers
    (the number of ROS subscribers, whether a publication throws) is an argument or part of the
    state. *)

From Stdlib Require Import ZArith Lia Bool String.
From stdpp Require Import base gmap list strings option.
From S2P Require Import Prelude Types Outcome MemoryPool PublisherState Publisher LoanedSample PublisherLoans SampleView MemoryPoolView SubscriberState Subscriber TypeSupport BridgeConfig.

Local Open Scope Z_scope.

(** ** Serialization *)

(** [rcl_serialized_message_t]: a buffer, which may be null, and its length. *)
Record SerializedMessage := mkSerializedMessage {
  sm_buffer : option (list Z);
  sm_buffer_length : Z;
}.

(** [rclcpp::Serialization<MessageT>] for the messages of each supported type. *)
Class RosSerialization (Msg : SupportedMessageType -> Type) := {
  serialize_message : forall type, Msg type -> outcome SerializedMessage;
  deserialize_message : forall type, list Z -> outcome (Msg type);
}.

(** The documented behaviour: both functions return or throw; a message is serialized into a buffer
    of bytes that is not empty, since CDR starts with an encapsulation header, and is
    deserialized from them. *)
Class RosCodecLaws (Msg : SupportedMessageType -> Type) `{!RosSerialization Msg} : Prop := {
  serialize_defined : forall type (message : Msg type), serialize_message type message <> Undef;
  deserialize_defined : forall type bytes, deserialize_message (Msg := Msg) type bytes <> Undef;
  serialize_returns : forall type (message : Msg type) serialized, serialize_message type message = Ret serialized ->
    exists bytes, sm_buffer serialized = Some bytes /\ sm_buffer_length serialized = Z.of_nat (length bytes) /\
      bytes <> [] /\ Forall is_byte bytes /\ deserialize_message type bytes = Ret message;
}.

Section bridges.
Context {Msg : SupportedMessageType -> Type} `{!RosSerialization Msg}.

(** [MessageCodec::serialize] *)
Definition codec_serialize (type : SupportedMessageType) (message : Msg type) : outcome (list Z) :=
  raw ← serialize_message type message;
  if sm_buffer_length raw =? 0 then Ret [] else
  match sm_buffer raw with
  | None => Throw ex_runtime_error
  | Some buffer => if sm_buffer_length raw <=? Z.of_nat (length buffer) then Ret (take (Z.to_nat (sm_buffer_length raw)) buffer) else Undef
  end.

(** [MessageCodec::deserialize(data, size)]: [read] copies the [size] bytes at [data]. *)
Definition codec_deserialize {S} (type : SupportedMessageType) (null : bool) (read : cpp S (list Z)) (size : Z) : cpp S (Msg type) :=
  if size =? 0 then throw ex_invalid_argument else
  if null then throw ex_invalid_argument else
  bytes ← read;
  lift (deserialize_message type bytes).

(** ** Logs *)

Inductive bridge_log :=
  | LogPayloadTooLarge (size limit : Z)
  | LogLoanFailed (error : ErrorCode)
  | LogPublishFailed (error : ErrorCode)
  | LogForwardException
  | LogReceiveFailed (error : ErrorCode)
  | LogDeserializationFailed.

(** [try { body } catch (const std::exception& error) { handler }] *)
Definition try_catch {S} (body handler : cpp S unit) : cpp S unit := fun s =>
  match body s with (Throw _, s') => handler s' | r => r end.

(** ** From ROS 2 to the middleware *)

(** A subscription is named by its type. *)
Record Ros2ToMwBridge := mkRos2ToMwBridge {
  rb_config : BridgeConfig;
  rb_message_type : SupportedMessageType;
  rb_publisher : PubState;
  rb_subscription : option SupportedMessageType;
  rb_log : list bridge_log;
}.
#[export] Instance Ros2ToMwBridge_eta : Eta Ros2ToMwBridge := fun b =>
  mkRos2ToMwBridge (rb_config b) (rb_message_type b) (rb_publisher b) (rb_subscription b) (rb_log b).

Definition on_publisher {A} (method : cpp PubState A) : cpp Ros2ToMwBridge A := fun b =>
  let '(r, s) := method (rb_publisher b) in (r, b <| rb_publisher := s |>).
Definition rb_error (entry : bridge_log) : cpp Ros2ToMwBridge unit := modify (fun b => b <| rb_log := rb_log b ++ [entry] |>).

(** The shared-memory branch: [None] after the early return.  The sample is destroyed at the end
    of the block, also when an exception leaves it. *)
Definition publish_loan (env : call_env) (serialized : list Z) : cpp Ros2ToMwBridge (option PublishResult) :=
  l ← on_publisher (loan true env (Z.of_nat (length serialized)));
  if negb (sample_valid l) then
    rb_error (LogLoanFailed (ls_error l));;
    on_publisher (sample_cancel (owner := publisher_owner env) l);; mret None
  else
    '(result, l) ← on_publisher (or_cleanup
        (payload ← or_undef (sample_data l);
         on_pool (copy_in payload serialized);;
         sample_publish (owner := publisher_owner env) l)
        (sample_cancel (owner := publisher_owner env) l;; mret tt));
    on_publisher (sample_cancel (owner := publisher_owner env) l);; mret (Some result).

(** The [try] block of [handleMessage]. *)
Definition forward_message (env : call_env) (type : SupportedMessageType) (message : Msg type) : cpp Ros2ToMwBridge unit :=
  serialized ← lift (codec_serialize type message);
  b ← this;
  let size := Z.of_nat (length serialized) in
  if bc_max_message_size (rb_config b) <? size then rb_error (LogPayloadTooLarge size (bc_max_message_size (rb_config b))) else
  result ← (if bool_decide (bc_transport (rb_config b) = SharedMemory) then publish_loan env serialized
            else r ← on_publisher (publish true env (Some serialized) size); mret (Some r));
  match result with
  | Some r => if negb (is_ok (pr_error r)) then rb_error (LogPublishFailed (pr_error r)) else mret tt
  | None => mret tt
  end.

Definition handleMessage (env : call_env) (type : SupportedMessageType) (message : Msg type) : cpp Ros2ToMwBridge unit :=
  try_catch (forward_message env type message) (rb_error LogForwardException).

(** ** From the middleware to ROS 2 *)

(** The ROS publishers hold what they have published; [mb_ros_answers] are the exceptions of the
    next publications, after which they succeed. *)
Record MwToRos2Bridge := mkMwToRos2Bridge {
  mb_config : BridgeConfig;
  mb_message_type : SupportedMessageType;
  mb_subscriber : SubState;
  mb_string_publisher : option (list (Msg MessageString));
  mb_twist_publisher : option (list (Msg MessageTwist));
  mb_image_publisher : option (list (Msg MessageImage));
  mb_ros_answers : list (option exn);
  mb_log : list bridge_log;
}.
#[export] Instance MwToRos2Bridge_eta : Eta MwToRos2Bridge := fun b =>
  mkMwToRos2Bridge (mb_config b) (mb_message_type b) (mb_subscriber b) (mb_string_publisher b) (mb_twist_publisher b)
    (mb_image_publisher b) (mb_ros_answers b) (mb_log b).

Definition on_subscriber {A} (method : cpp SubState A) : cpp MwToRos2Bridge A := fun b =>
  let '(r, s) := method (mb_subscriber b) in (r, b <| mb_subscriber := s |>).
Definition mb_warn (entry : bridge_log) : cpp MwToRos2Bridge unit := modify (fun b => b <| mb_log := mb_log b ++ [entry] |>).

Definition next_ros_answer : cpp MwToRos2Bridge unit := fun b =>
  match mb_ros_answers b with
  | [] => (Ret tt, b)
  | None :: rest => (Ret tt, b <| mb_ros_answers := rest |>)
  | Some e :: rest => (Throw e, b <| mb_ros_answers := rest |>)
  end.

(** [publisher->publish(message)] *)
Definition ros_publish (type : SupportedMessageType) : Msg type -> cpp MwToRos2Bridge unit :=
  match type with
  | MessageString => fun message =>
      b ← this; published ← or_undef (mb_string_publisher b);
      next_ros_answer;; modify (fun b => b <| mb_string_publisher := Some (published ++ [message]) |>)
  | MessageTwist => fun message =>
      b ← this; published ← or_undef (mb_twist_publisher b);
      next_ros_answer;; modify (fun b => b <| mb_twist_publisher := Some (published ++ [message]) |>)
  | MessageImage => fun message =>
      b ← this; published ← or_undef (mb_image_publisher b);
      next_ros_answer;; modify (fun b => b <| mb_image_publisher := Some (published ++ [message]) |>)
  end.

(** [ros_subscribers] is what [get_subscription_count] of the publisher of the type returns. *)
Definition hasRosSubscribers (ros_subscribers : Z) : cpp MwToRos2Bridge bool :=
  b ← this;
  match mb_message_type b with
  | MessageString => or_undef (mb_string_publisher b);; mret (0 <? ros_subscribers)
  | MessageTwist => or_undef (mb_twist_publisher b);; mret (0 <? ros_subscribers)
  | MessageImage => or_undef (mb_image_publisher b);; mret (0 <? ros_subscribers)
  end.

Definition deserializeAndPublish (null : bool) (read : cpp SubState (list Z)) (size : Z) : cpp MwToRos2Bridge unit :=
  try_catch
    (b ← this;
     message ← on_subscriber (codec_deserialize (mb_message_type b) null read size);
     ros_publish (mb_message_type b) message)
    (mb_warn LogDeserializationFailed).

Definition isNoData (error : ErrorCode) : bool :=
  bool_decide (error = Timeout) || bool_decide (error = Ok).

(** The end of a poll that took nothing. *)
Definition note_no_data : cpp MwToRos2Bridge unit :=
  error ← on_subscriber (lastError true);
  if isNoData error then mret tt else mb_warn (LogReceiveFailed error).

(** The bytes [view->data()] points to. *)
Definition read_mapping (v : SampleView release_context MappedPool) : cpp SubState (list Z) :=
  pool ← or_undef (sv_pool_view v);
  offset ← or_undef (view_data v);
  on_mapping pool (fun region => load_bytes region offset (Z.to_nat (sv_size v))).

(** The [for] loop of [pollMiddleware]; the view of an iteration is destroyed at its end. *)
Fixpoint poll_loop (n : nat) : cpp MwToRos2Bridge unit :=
  match n with
  | O => mret tt
  | S n =>
      b ← this;
      if bool_decide (bc_transport (mb_config b) = SharedMemory) then
        view ← on_subscriber (waitAndTakeView true);
        match view with
        | None => note_no_data
        | Some v =>
            deserializeAndPublish (bool_decide (view_data v = None)) (read_mapping v) (sv_size v);;
            on_subscriber (view_release v);;
            poll_loop n
        end
      else
        message ← on_subscriber (waitAndTake true);
        match message with
        | None => note_no_data
        | Some m =>
            deserializeAndPublish false (mret (rm_payload m)) (Z.of_nat (length (rm_payload m)));;
            poll_loop n
        end
  end.

Definition pollMiddleware (ros_subscribers : Z) : cpp MwToRos2Bridge unit :=
  subscribers ← hasRosSubscribers ros_subscribers;
  if negb subscribers then mret tt else
  b ← this;
  poll_loop (Z.to_nat (bc_max_samples_per_poll (mb_config b))).

(** What the bridge has published, and whether its publisher exists. *)
Definition published_of (type : SupportedMessageType) (b : MwToRos2Bridge) : option (list (Msg type)) :=
  match type with
  | MessageString => mb_string_publisher b
  | MessageTwist => mb_twist_publisher b
  | MessageImage => mb_image_publisher b
  end.
End bridges.
