(* ===== verification/BridgeTheorems.v ===== *)
(** * Theorems about the bridges

    A ROS message is forwarded whole or its failure is logged, whatever the middleware and the
    serialization answer; a poll publishes what the subscriber took, in order; and over a Unix
    socket the messages that enter one bridge leave the other. *)

From Stdlib Require Import ZArith Lia Bool String.
From stdpp Require Import base gmap list strings option.
From S2P Require Import Prelude Types Outcome BigEndian FrameProtocol QueueProtocol PoolLayout MemoryPool PoolSpec PoolReferences MemoryPoolView SocketIo SubscriberQueue QueueTheorems PublisherState Publisher PublisherInvariant PublisherReleases PublisherMethods PublisherCalls PublisherUds LoanedSample PublisherLoans PublisherTheorems UnixListener SampleView SubscriberState Subscriber SubscriberInvariant SubscriberFrames SubscriberMethods SubscriberStreams EndToEnd TypeSupport BridgeConfig BridgeNodes.

Local Open Scope Z_scope.

Section theorems.
Context {Msg : SupportedMessageType -> Type} `{!RosSerialization Msg} `{!RosCodecLaws Msg}.

(** ** Serialization *)

Lemma codec_serialize_spec type (message : Msg type) :
  match codec_serialize type message with
  | Ret bytes => bytes <> [] /\ Forall is_byte bytes /\ deserialize_message type bytes = Ret message
  | Throw e => serialize_message type message = Throw e
  | Undef => False
  end.
Proof.
  unfold codec_serialize. pose proof (serialize_defined type message) as Hdef. pose proof (serialize_returns type message) as Hret.
  destruct (serialize_message type message) as [raw|e|]; cbn [mbind outcome_bind]; [|done|done].
  destruct (Hret _ eq_refl) as (bytes & Hb & Hl & Hne & Hty & Hde). rewrite Hb, Hl.
  destruct bytes as [|x bytes]; [done|]. rewrite (proj2 (Z.eqb_neq _ 0)) by (simpl; lia). rewrite Z.leb_refl, Nat2Z.id, firstn_all. done.
Qed.

(** ** From ROS 2 to the middleware *)

Lemma wp_on_publisher {A} (method : cpp PubState A) b (Q : A -> Ros2ToMwBridge -> Prop) :
  wp method (rb_publisher b) (fun a s => Q a (b <| rb_publisher := s |>)) -> wp (on_publisher method) b Q.
Proof. unfold wp, on_publisher. by destruct (method (rb_publisher b)) as [[] ?]. Qed.

Lemma wp_or_cleanup {S A} (body : cpp S A) cleanup s Q : wp body s Q -> wp (or_cleanup body cleanup) s Q.
Proof. unfold wp, or_cleanup. by destruct (body s) as [[] ?]. Qed.

Lemma wp_try {S} (body handler : cpp S unit) s Q : wp body s Q -> wp (try_catch body handler) s Q.
Proof. unfold wp, try_catch. by destruct (body s) as [[] ?]. Qed.

(** A sample without a loan is destroyed silently. *)
Lemma cancel_inactive env l s : ls_active l = false -> exists l', sample_cancel (owner := publisher_owner env) l s = (Ret l', s).
Proof. intros Ha. unfold sample_cancel. rewrite Ha. cbn [andb]. by eexists. Qed.

Lemma loan_inactive l : sample_loan l = [] -> ls_active l = false.
Proof. unfold sample_loan. by destruct (ls_active l). Qed.

(** The bridge between two messages. *)
Record bridge_ok (b : Ros2ToMwBridge) : Prop := {
  bo_publisher : publisher_ok [] (rb_publisher b);
  bo_transport : pc_transport (im_config (ps_impl (rb_publisher b))) = bc_transport (rb_config b);
}.

Definition logs (entries : list bridge_log) (b b' : Ros2ToMwBridge) : Prop :=
  b' = b <| rb_publisher := rb_publisher b' |> <| rb_log := rb_log b ++ entries |>.

(** The log entries of a publication. *)
Definition publish_log (r : PublishResult) : list bridge_log := if is_ok (pr_error r) then [] else [LogPublishFailed (pr_error r)].

(** What became of serialized bytes: over shared memory a loan that was not granted, or a loan that was
    granted, filled with exactly these bytes and published; over Unix sockets a publication of
    exactly these bytes. *)
Inductive offered_bytes (env : call_env) (bytes : list Z) (s s' : PubState) : list bridge_log -> Prop :=
  | loan_denied l : pc_transport (im_config (ps_impl s)) = SharedMemory ->
      loan true env (Z.of_nat (length bytes)) s = (Ret l, s') -> ls_active l = false ->
      im_sequence (ps_impl s') = im_sequence (ps_impl s) ->
      offered_bytes env bytes s s' [LogLoanFailed (ls_error l)]
  | loan_published l s1 r : pc_transport (im_config (ps_impl s)) = SharedMemory ->
      loan true env (Z.of_nat (length bytes)) s = (Ret l, s1) -> ls_active l = true ->
      im_sequence (ps_impl s1) = im_sequence (ps_impl s) ->
      published env (Z.of_nat (length bytes)) (im_sequence (ps_impl s) + 1) (fun data => data = bytes) s1 s' r ->
      offered_bytes env bytes s s' (publish_log r)
  | bytes_sent r : pc_transport (im_config (ps_impl s)) = UnixDomainSocket ->
      publish_outcome env (Some bytes) (Z.of_nat (length bytes)) s s' r ->
      (forall found s1, prepare env s = (Ret found, s1) -> undisturbed s s1) ->
      offered_bytes env bytes s s' (publish_log r).

Lemma same_publisher_refl s : same_publisher s s.
Proof. split; try done. by intros client. Qed.

(** The shared-memory branch. *)
Lemma publish_loan_forwards env bytes b : env_answers env -> bridge_ok b ->
  pc_transport (im_config (ps_impl (rb_publisher b))) = SharedMemory ->
  wp (publish_loan env bytes) b (fun result b' => exists s', publisher_ok [] s' /\ same_publisher (rb_publisher b) s' /\
    match result with
    | None => exists error, offered_bytes env bytes (rb_publisher b) s' [LogLoanFailed error] /\
        b' = b <| rb_publisher := s' |> <| rb_log := rb_log b ++ [LogLoanFailed error] |>
    | Some r => b' = b <| rb_publisher := s' |> /\ offered_bytes env bytes (rb_publisher b) s' (publish_log r)
    end).
Proof.
  intros Henv Hb Hshm. unfold publish_loan. apply wp_bind, wp_on_publisher.
  eapply wp_mono; [|apply (wp_and _ _ (fun l s1 => loan true env (Z.of_nat (length bytes)) (rb_publisher b) = (Ret l, s1)));
    [done|apply (loan_ok []); [done | apply Hb | lia]]].
  intros l s1 (Hloan & Hl & (Hok1 & Hsame1 & _) & Hsize & Hseq).
  rewrite valid_active by done. destruct (ls_active l) eqn:Ha; cbn [negb].
  - destruct (Hsize eq_refl) as [Hlen _]. apply wp_bind, wp_on_publisher, wp_or_cleanup.
    pose proof (write_publish_ok [] env l bytes s1 Henv Hl Ha Hok1 (eq_sym Hlen)) as Hwp. unfold write_sample in Hwp.
    rewrite valid_active, Ha, Hlen, Z.leb_refl in Hwp by done. cbn [andb] in Hwp. apply wp_assoc in Hwp.
    eapply wp_mono; [|exact Hwp]. intros [r l'] s' (Hok' & Hnil & _ & Hsame' & Hpub).
    destruct (cancel_inactive env l' s' (loan_inactive _ Hnil)) as [l2 Hcancel].
    apply wp_bind, wp_on_publisher. unfold wp. simpl. rewrite Hcancel. exists s'. split_and!; [done | by eapply same_publisher_trans | done |].
    rewrite Hseq in Hpub. by apply (loan_published env bytes _ s' l s1 r).
  - apply wp_bind. unfold rb_error, modify, wp at 1. destruct (cancel_inactive env l s1 Ha) as [l2 Hcancel].
    apply wp_bind, wp_on_publisher. unfold wp. simpl. rewrite Hcancel. exists s1. unfold sample_loan in Hok1. rewrite Ha in Hok1.
    split_and!; [done | done |]. exists (ls_error l). split; [by apply loan_denied|done].
Qed.

(** The [try] block, once the message is serialized within the limit. *)
Lemma forward_ok env type (message : Msg type) bytes b : env_answers env -> bridge_ok b -> codec_serialize type message = Ret bytes ->
  Z.of_nat (length bytes) <= bc_max_message_size (rb_config b) ->
  wp (forward_message env type message) b (fun _ b' => exists entries, bridge_ok b' /\ logs entries b b' /\
    offered_bytes env bytes (rb_publisher b) (rb_publisher b') entries).
Proof.
  intros Henv Hb Hser Hsize. unfold forward_message. apply wp_bind. unfold lift, wp at 1. rewrite Hser. apply wp_bind. unfold this, wp at 1.
  rewrite (proj2 (Z.ltb_ge _ _)) by lia.
  assert (Hpublished : forall s' r, publisher_ok [] s' -> same_publisher (rb_publisher b) s' ->
    offered_bytes env bytes (rb_publisher b) s' (publish_log r) ->
    wp (if negb (is_ok (pr_error r)) then rb_error (LogPublishFailed (pr_error r)) else mret tt) (b <| rb_publisher := s' |>)
      (fun _ b' => exists entries, bridge_ok b' /\ logs entries b b' /\ offered_bytes env bytes (rb_publisher b) (rb_publisher b') entries)).
  { intros s' r Hok' Hsame Hoff. unfold publish_log in Hoff.
    assert (Hb' : bridge_ok (b <| rb_publisher := s' |>)) by (split; [done|]; simpl; rewrite (sp_config _ _ Hsame); apply Hb).
    destruct (is_ok (pr_error r)); cbn [negb].
    - apply wp_ret. exists []. split_and!; [done | | done]. unfold logs. simpl. rewrite app_nil_r. by destruct b.
    - unfold rb_error, modify, wp. exists [LogPublishFailed (pr_error r)]. split_and!; [by destruct Hb' | done | done]. }
  apply wp_bind. case_bool_decide as Htr.
  - eapply wp_mono; [|apply publish_loan_forwards; [done | done | by rewrite (bo_transport _ Hb)]]. intros [r|] b' (s' & Hok' & Hsame & Hres).
    + destruct Hres as [-> Hoff]. by apply Hpublished.
    + destruct Hres as (error & Hoff & ->). apply wp_ret. exists [LogLoanFailed error]. split_and!; [|done | done].
      split; [done|]. simpl. rewrite (sp_config _ _ Hsame). apply Hb.
  - apply wp_bind, wp_on_publisher. eapply wp_mono; [|apply (publish_ok []); [done | apply Hb | lia | right; simpl; lia]].
    intros r s' ((Hok' & Hsame & _) & Hout & Hquiet). apply wp_ret. apply Hpublished; [done | done |]. apply bytes_sent; [|done|done].
    rewrite <- (bo_transport _ Hb) in Htr. pose proof (po_transport _ _ (bo_publisher _ Hb)) as Ht. unfold transport_ok in Ht.
    by destruct (im_pool _).
Qed.

Lemma handle_ok env type (message : Msg type) b : env_answers env -> bridge_ok b ->
  wp (handleMessage env type message) b (fun _ b' => exists entries, bridge_ok b' /\ logs entries b b' /\
    match codec_serialize type message with
    | Ret bytes =>
        if bc_max_message_size (rb_config b) <? Z.of_nat (length bytes)
        then rb_publisher b' = rb_publisher b /\ entries = [LogPayloadTooLarge (Z.of_nat (length bytes)) (bc_max_message_size (rb_config b))]
        else offered_bytes env bytes (rb_publisher b) (rb_publisher b') entries
    | _ => rb_publisher b' = rb_publisher b /\ entries = [LogForwardException]
    end).
Proof.
  intros Henv Hb. pose proof (codec_serialize_spec type message) as Hspec. unfold handleMessage.
  destruct (codec_serialize type message) as [bytes|e|] eqn:Hser; [|clear Hspec|done].
  - destruct (_ <? _) eqn:Hbig; bools; apply wp_try; [|by eapply wp_mono; [|by eapply forward_ok]].
    unfold forward_message, wp. unfold_cpp. rewrite Hser. simpl. rewrite (proj2 (Z.ltb_lt _ _)) by lia. unfold rb_error, modify.
    eexists. split_and!; [by destruct Hb | | done | done]. by destruct b.
  - unfold try_catch, forward_message, wp. unfold_cpp. rewrite Hser. unfold rb_error, modify.
    eexists. split_and!; [by destruct Hb | | done | done]. by destruct b.
Qed.

(** ** From the middleware to ROS 2 *)

Lemma wp_on_subscriber {A} (method : cpp SubState A) (b : MwToRos2Bridge (Msg := Msg)) (Q : A -> MwToRos2Bridge -> Prop) :
  wp method (mb_subscriber b) (fun a s => Q a (b <| mb_subscriber := s |>)) -> wp (on_subscriber method) b Q.
Proof. unfold wp, on_subscriber. by destruct (method (mb_subscriber b)) as [[] ?]. Qed.

Lemma published_subscriber type (b : MwToRos2Bridge (Msg := Msg)) s : published_of type (b <| mb_subscriber := s |>) = published_of type b.
Proof. by destruct type. Qed.
Lemma published_log type (b : MwToRos2Bridge (Msg := Msg)) l : published_of type (b <| mb_log := l |>) = published_of type b.
Proof. by destruct type. Qed.

(** A publication appends the message, or throws and appends nothing. *)
Lemma ros_publish_spec type (message : Msg type) b old : published_of type b = Some old ->
  exists answers b', ros_publish type message b = (match mb_ros_answers b with Some e :: _ => Throw e | _ => Ret tt end, b') /\
    mb_ros_answers b' = answers /\ mb_config b' = mb_config b /\ mb_message_type b' = mb_message_type b /\ mb_subscriber b' = mb_subscriber b /\
    mb_log b' = mb_log b /\ answers = tail (mb_ros_answers b) /\
    published_of type b' = Some (old ++ match mb_ros_answers b with Some _ :: _ => [] | _ => [message] end).
Proof.
  intros Hold. exists (tail (mb_ros_answers b)).
  destruct type; simpl in Hold; unfold ros_publish, next_ros_answer; unfold_cpp; rewrite Hold;
    destruct (mb_ros_answers b) as [|[e|] rest] eqn:Ha; eexists; (split; [reflexivity|]); simpl; split_and!; try done; by rewrite app_nil_r.
Qed.

(** The messages of [new] were deserialized from at most [max] bytes. *)
Definition deserialized (max : Z) (type : SupportedMessageType) (new : list (Msg type)) : Prop :=
  Forall (fun message => exists bytes, Z.of_nat (length bytes) <= max /\ deserialize_message type bytes = Ret message) new.

Record polled (max : Z) (n : nat) (b b' : MwToRos2Bridge (Msg := Msg)) : Prop := {
  pl_config : mb_config b' = mb_config b;
  pl_type : mb_message_type b' = mb_message_type b;
  pl_goes : goes (mb_subscriber b) (mb_subscriber b');
  pl_published : forall old, published_of (mb_message_type b) b = Some old ->
    exists new, published_of (mb_message_type b) b' = Some (old ++ new) /\ (length new <= n)%nat /\ deserialized max (mb_message_type b) new;
  pl_log : exists entries, mb_log b' = mb_log b ++ entries;
}.

Lemma polled_subscriber max n b s : goes (mb_subscriber b) s -> polled max n b (b <| mb_subscriber := s |>).
Proof.
  intros Hg. split; [done | done | exact Hg | | by exists []; rewrite app_nil_r]. intros old Hold. exists []. rewrite published_subscriber, app_nil_r. split_and!; [done | simpl; lia | constructor].
Qed.

Lemma polled_refl max n b : sub_ok (mb_subscriber b) -> polled max n b b.
Proof. intros Hok. pose proof (polled_subscriber max n b _ (goes_refl _ Hok)) as Hp. by destruct b. Qed.

Lemma polled_trans max n m b1 b2 b3 : polled max n b1 b2 -> polled max m b2 b3 -> polled max (n + m) b1 b3.
Proof.
  intros [C T G P [e L]] [C' T' G' P' [e' L']]. split; [congruence | congruence | by eapply goes_trans | | exists (e ++ e'); by rewrite L', L, app_assoc].
  intros old Hold. destruct (P _ Hold) as (new & Hnew & Hlen & Hde). rewrite T in P'. destruct (P' _ Hnew) as (new' & Hnew' & Hlen' & Hde').
  exists (new ++ new'). rewrite app_assoc. split_and!; [done | rewrite length_app; lia | by apply Forall_app].
Qed.

Lemma polled_le max n m b b' : (n <= m)%nat -> polled max n b b' -> polled max m b b'.
Proof.
  intros Hle [C T G P L]. split; [done | done | done | | done]. intros old Hold. destruct (P _ Hold) as (new & ? & ? & ?). exists new. split_and!; [done | lia | done].
Qed.

Lemma polled_log max n b b' entry : polled max n b b' -> polled max n b (b' <| mb_log := mb_log b' ++ [entry] |>).
Proof.
  intros [C T G P [e L]]. split; [done | done | done | | exists (e ++ [entry]); simpl; by rewrite L, app_assoc].
  intros old Hold. rewrite published_log. by apply P.
Qed.

Lemma on_subscriber_run {A} (method : cpp SubState A) (b : MwToRos2Bridge (Msg := Msg)) r s :
  method (mb_subscriber b) = (r, s) -> on_subscriber method b = (r, b <| mb_subscriber := s |>).
Proof. intros H. unfold on_subscriber. by rewrite H. Qed.

(** [deserializeAndPublish] publishes at most one message, and never throws. *)
Lemma deserialize_ok max null read size b old : sub_ok (mb_subscriber b) -> published_of (mb_message_type b) b = Some old ->
  (size <> 0 -> null = false -> wp read (mb_subscriber b) (fun data s' => goes (mb_subscriber b) s' /\ Z.of_nat (length data) <= max)) ->
  wp (deserializeAndPublish null read size) b (fun _ b' => polled max 1 b b').
Proof.
  intros Hok Hold Hread. unfold deserializeAndPublish, try_catch. set (type := mb_message_type b) in *.
  assert (Hfail : forall b', polled max 1 b b' -> wp (mb_warn LogDeserializationFailed) b' (fun _ b2 => polled max 1 b b2)).
  { intros b' Hp. unfold mb_warn, modify, wp. by apply polled_log. }
  assert (Hstay : forall s, goes (mb_subscriber b) s -> polled max 1 b (b <| mb_subscriber := s |>)) by (intros; by apply polled_subscriber).
  unfold wp, codec_deserialize. unfold mbind at 1 2, cpp_bind at 1 2, this at 1. fold type.
  destruct (size =? 0) eqn:Hz; bools; [by apply (Hfail (b <| mb_subscriber := mb_subscriber b |>)), Hstay, goes_refl|].
  destruct null; [by apply (Hfail (b <| mb_subscriber := mb_subscriber b |>)), Hstay, goes_refl|].
  pose proof (Hread Hz eq_refl) as Hwp. apply wp_run in Hwp as (data & s' & Hrun & Hg & Hlen).
  pose proof (deserialize_defined (Msg := Msg) type data) as Hdef.
  assert (Hde : (bytes ← read; lift (deserialize_message type bytes)) (mb_subscriber b) = (deserialize_message (Msg := Msg) type data, s')).
  { unfold mbind, cpp_bind. by rewrite Hrun. }
  rewrite (on_subscriber_run _ _ _ _ Hde). destruct (deserialize_message type data) as [message|e|] eqn:Hm; [|by apply Hfail, Hstay|done].
  destruct (ros_publish_spec type message (b <| mb_subscriber := s' |>) old) as (answers & b' & Hpub & _ & Hc & Ht & Hs & Hl & _ & Hnew);
    [by rewrite published_subscriber|].
  rewrite Hpub. assert (Hp : polled max 1 b b').
  { split; [by rewrite Hc | by rewrite Ht | by rewrite Hs | | exists []; rewrite app_nil_r; by rewrite Hl].
    intros old' Hold'. fold type in Hold'. rewrite Hold in Hold'. injection Hold' as <-. eexists. split; [exact Hnew|]. unfold deserialized.
    cbn [mb_ros_answers]. destruct (mb_ros_answers _) as [|[e|] rest]; (split; [simpl; lia|]); repeat constructor; by exists data. }
  destruct (mb_ros_answers _) as [|[e|] rest]; [exact Hp | by apply Hfail | exact Hp].
Qed.

Lemma note_no_data_ok max (b : MwToRos2Bridge (Msg := Msg)) : sub_ok (mb_subscriber b) -> wp note_no_data b (fun _ b' => polled max 0 b b').
Proof.
  intros Hok. unfold note_no_data. apply wp_bind, wp_on_subscriber. unfold lastError. cbn [negb]. apply wp_bind. unfold self, gets, wp at 1. apply wp_ret.
  assert (Hp : polled max 0 b (b <| mb_subscriber := mb_subscriber b |>)) by (by apply polled_subscriber, goes_refl).
  destruct (isNoData _); [by apply wp_ret|]. unfold mb_warn, modify, wp. by apply polled_log.
Qed.

(** The bridge between two polls. *)
Record poller_ok (b : MwToRos2Bridge (Msg := Msg)) : Prop := {
  po_subscriber : sub_ok (mb_subscriber b);
  po_limit : 0 <= max_size (mb_subscriber b);
  po_created : is_Some (published_of (mb_message_type b) b);
}.

Lemma polled_max max n b b' : polled max n b b' -> max_size (mb_subscriber b') = max_size (mb_subscriber b).
Proof. intros Hp. unfold max_size. by rewrite (mo_config _ _ (proj1 (pl_goes _ _ _ _ Hp))). Qed.

Lemma polled_ok max n b b' : poller_ok b -> polled max n b b' -> poller_ok b'.
Proof.
  intros [Hs Hl [old Hold]] Hp. split; [by eapply goes_ok, Hp | by erewrite polled_max |].
  rewrite (pl_type _ _ _ _ Hp). destruct (pl_published _ _ _ _ Hp _ Hold) as (new & -> & _). by eexists.
Qed.

Lemma view_release_poll max (v : SampleView release_context MappedPool) b : poller_ok b ->
  wp (on_subscriber (view_release v)) b (fun _ b' => polled max 0 b b').
Proof.
  intros [Hs _ _]. apply wp_on_subscriber. eapply wp_mono; [|by apply view_release_goes]. intros v' s' (Hg & _). by apply polled_subscriber.
Qed.

Lemma read_mapping_ok max v s : sub_ok s -> 0 <= max -> view_inside (su_shared s) max v -> sv_size v <> 0 ->
  wp (read_mapping v) s (fun data s' => goes s s' /\ Z.of_nat (length data) <= max).
Proof.
  intros Hok Hmax Hin Hz. pose proof (copy_payload_ok max v s Hok Hmax Hin) as Hwp. unfold copy_payload in Hwp. by rewrite (proj2 (Z.eqb_neq _ _) Hz) in Hwp.
Qed.

Lemma poll_loop_ok n : forall b, poller_ok b -> wp (poll_loop n) b (fun _ b' => polled (max_size (mb_subscriber b)) n b b').
Proof.
  induction n as [|n IH]; intros b Hb; cbn [poll_loop]; pose proof Hb as [Hs Hl Hc].
  { by apply wp_ret, polled_refl. }
  apply wp_bind. unfold this, wp at 1. set (max := max_size (mb_subscriber b)) in *.
  assert (Hnext : forall k b1, (k <= 1)%nat -> polled max k b b1 -> wp (poll_loop n) b1 (fun _ b' => polled max (S n) b b')).
  { intros k b1 Hk Hp. eapply wp_mono; [|apply IH; by eapply polled_ok]. intros u b2 Hp2. rewrite (polled_max _ _ _ _ Hp) in Hp2.
    eapply polled_le; [|by eapply polled_trans]. lia. }
  assert (Hnone : forall s, goes (mb_subscriber b) s -> wp note_no_data (b <| mb_subscriber := s |>) (fun _ b' => polled max (S n) b b')).
  { intros s Hg. pose proof (polled_subscriber max 0 b s Hg) as Hp. eapply wp_mono; [|eapply note_no_data_ok, goes_ok, Hg]. intros u b2 Hp2.
    eapply polled_le; [|eapply polled_trans; [exact Hp | exact Hp2]]. lia. }
  case_bool_decide; apply wp_bind, wp_on_subscriber.
  - eapply wp_mono; [|by apply waitAndTakeView_ok]. intros [v|] s1 [Hg Hin]; [|by apply Hnone]. set (b1 := b <| mb_subscriber := s1 |>).
    assert (Hp1 : polled max 0 b b1) by (by apply polled_subscriber). pose proof (polled_ok _ _ _ _ Hb Hp1) as Hb1. destruct (po_created _ Hb1) as [old Hold].
    apply wp_bind. eapply wp_mono; [|apply (deserialize_ok max _ _ _ b1 old); [apply Hb1 | exact Hold |]].
    + intros u b2 Hp2. pose proof (polled_trans _ _ _ _ _ _ Hp1 Hp2) as Hp12. apply wp_bind.
      eapply wp_mono; [|apply (view_release_poll max), (polled_ok _ _ _ _ Hb Hp12)]. intros u2 b3 Hp3. apply (Hnext (0 + 1 + 0)%nat); [lia|]. by eapply polled_trans.
    + intros Hz _. by apply read_mapping_ok; [eapply goes_ok | ..].
  - eapply wp_mono; [|by apply waitAndTake_ok]. intros [m|] s1 [Hg Hin]; [|by apply Hnone]. set (b1 := b <| mb_subscriber := s1 |>).
    assert (Hp1 : polled max 0 b b1) by (by apply polled_subscriber). pose proof (polled_ok _ _ _ _ Hb Hp1) as Hb1. destruct (po_created _ Hb1) as [old Hold].
    apply wp_bind. eapply wp_mono; [|apply (deserialize_ok max _ _ _ b1 old); [apply Hb1 | exact Hold |]].
    + intros u b2 Hp2. apply (Hnext (0 + 1)%nat); [lia|]. by eapply polled_trans.
    + intros Hz _. apply wp_ret. split; [by eapply goes_refl, goes_ok | exact Hin].
Qed.

Lemma hasRosSubscribers_run count (b : MwToRos2Bridge (Msg := Msg)) : is_Some (published_of (mb_message_type b) b) ->
  hasRosSubscribers count b = (Ret (0 <? count), b).
Proof. intros [old Hold]. unfold hasRosSubscribers. unfold_cpp. destruct (mb_message_type b); simpl in Hold; by rewrite Hold. Qed.

Lemma pollMiddleware_ok count b : poller_ok b -> wp (pollMiddleware count) b (fun _ b' =>
  polled (max_size (mb_subscriber b)) (Z.to_nat (bc_max_samples_per_poll (mb_config b))) b b' /\ (count <= 0 -> b' = b)).
Proof.
  intros Hb. unfold pollMiddleware. apply wp_bind. unfold wp at 1. rewrite (hasRosSubscribers_run count b (po_created _ Hb)).
  destruct (Z.ltb_spec 0 count); cbn [negb].
  - apply wp_bind. unfold this, wp at 1. eapply wp_mono; [|by apply poll_loop_ok]. intros u b' Hp. split; [done | lia].
  - apply wp_ret. split; [|done]. apply polled_refl, Hb.
Qed.

(** ** Theorems *)

(** C14: A ROS message is forwarded whole, or its failure is logged.  Whatever the serialization, the
    registry, the kernel and the subscribers answer, [handleMessage] returns, leaves the publisher
    with its invariant and no loan outstanding, and changes nothing else but the log: a message
    that cannot be serialized or exceeds the limit does not reach the publisher.  Any other is, over
    shared memory, refused a loan or written into the loan and published, so that the holders of the
    chunk read exactly its serialized bytes and the subscribers counted have the handle in their
    queues; over Unix sockets it is refused, or every connection that is left was sent exactly
    the frame of these bytes; the claims about a queue or socket are for connections that share
    it with no other.  The log grows by one entry exactly when that failed. *)
Theorem ros_messages_are_forwarded env type (message : Msg type) b : env_answers env -> bridge_ok b ->
  exists b' entries, handleMessage env type message b = (Ret tt, b') /\ bridge_ok b' /\ logs entries b b' /\
    match codec_serialize type message with
    | Ret bytes =>
        if bc_max_message_size (rb_config b) <? Z.of_nat (length bytes)
        then rb_publisher b' = rb_publisher b /\ entries = [LogPayloadTooLarge (Z.of_nat (length bytes)) (bc_max_message_size (rb_config b))]
        else offered_bytes env bytes (rb_publisher b) (rb_publisher b') entries
    | _ => rb_publisher b' = rb_publisher b /\ entries = [LogForwardException]
    end.
Proof.
  intros Henv Hb. pose proof (handle_ok env type message b Henv Hb) as Hwp. apply wp_run in Hwp as ([] & b' & Hrun & entries & H). by exists b', entries.
Qed.

(** C16: A poll withstands its peers and is bounded.  Whatever the publishers, the kernel, the
    serialization and the ROS publisher answer, [pollMiddleware] returns and keeps the
    subscriber's invariant; it publishes at most [max_samples_per_poll] messages, each
    deserialized from bytes within the size limit; without ROS subscribers it takes nothing. *)
Theorem polling_is_bounded count (b : MwToRos2Bridge (Msg := Msg)) old : poller_ok b -> published_of (mb_message_type b) b = Some old ->
  exists b' new, pollMiddleware count b = (Ret tt, b') /\ poller_ok b' /\ mb_message_type b' = mb_message_type b /\
    published_of (mb_message_type b) b' = Some (old ++ new) /\
    (length new <= Z.to_nat (bc_max_samples_per_poll (mb_config b)))%nat /\
    deserialized (max_size (mb_subscriber b)) (mb_message_type b) new /\
    (count <= 0 -> b' = b).
Proof.
  intros Hb Hold. pose proof (pollMiddleware_ok count b Hb) as Hwp. apply wp_run in Hwp as ([] & b' & Hrun & Hp & Hidle).
  destruct (pl_published _ _ _ _ Hp _ Hold) as (new & Hnew & Hlen & Hde). exists b', new.
  split_and!; [done | by eapply polled_ok | apply Hp | done | done | done | done].
Qed.
End theorems.

(** ** A serialization *)

(** Messages are texts; the encapsulation header, then the characters. *)
Definition TextMessage (type : SupportedMessageType) : Type := string.
Definition cdr_header : list Z := [0; 1; 0; 0].

#[export] Instance text_serialization : RosSerialization TextMessage := {
  serialize_message := fun type message =>
    let bytes := cdr_header ++ string_bytes message in Ret (mkSerializedMessage (Some bytes) (Z.of_nat (length bytes)));
  deserialize_message := fun type bytes =>
    if bool_decide (take 4 bytes = cdr_header) then Ret (bytes_string (drop 4 bytes)) else Throw ex_runtime_error;
}.

#[export] Instance text_laws : RosCodecLaws TextMessage.
Proof.
  split; [done | |].
  - intros type bytes. simpl. by case_bool_decide.
  - intros type message serialized [= <-]. eexists. split_and!; [done | done | done | |].
    + change (Forall is_byte (cdr_header ++ string_bytes message)). apply Forall_app. split; [by apply all_bytes_spec | apply string_bytes_Forall].
    + change (Ret (bytes_string (string_bytes message)) = Ret message). by rewrite bytes_string_bytes.
Qed.

Definition example_bridge_config : BridgeConfig :=
  mkBridgeConfig "/tmp/mw_registry.sock" "/ros" "/mw" "std_msgs/msg/String" "bridge" "/tmp/mw" SharedMemory 128 10 8 DropOldest 100 2 4.
Definition example_bridge : Ros2ToMwBridge :=
  mkRos2ToMwBridge example_bridge_config MessageString example_publisher (Some MessageString) [].

Lemma example_bridge_ok : bridge_ok example_bridge.
Proof. split; [exact example_publisher_ok | reflexivity]. Qed.

Lemma ros_messages_are_forwarded_witness : exists b' entries,
  handleMessage example_env MessageString ("hi"%string : TextMessage MessageString) example_bridge = (Ret tt, b') /\
  offered_bytes example_env [0; 1; 0; 0; 104; 105] example_publisher (rb_publisher b') entries.
Proof.
  destruct (ros_messages_are_forwarded example_env MessageString ("hi"%string : TextMessage MessageString) example_bridge
    example_env_answers example_bridge_ok) as (b' & entries & Hrun & _ & _ & Hout).
  exists b', entries. split; [exact Hrun | exact Hout].
Defined.

(** A bridge in the other direction, with the frames of two messages that are no ROS messages on
    the way to its subscriber. *)
Definition example_poller : MwToRos2Bridge (Msg := TextMessage) :=
  mkMwToRos2Bridge (mkBridgeConfig "/tmp/mw_registry.sock" "/ros" "/mw" "std_msgs/msg/String" "bridge" "/tmp/mw" UnixDomainSocket 128 10 8 DropOldest 100 2 4)
    MessageString (SubscriberStreams.example_subscriber (SubscriberStreams.example_kernel SubscriberStreams.example_chunks 4)) (Some []) None None [] [].

Lemma example_poller_ok : poller_ok example_poller.
Proof.
  assert (H0 : (0 <=? max_size (mb_subscriber example_poller)) = true) by reflexivity. apply Z.leb_le in H0.
  split; [|exact H0 | by eexists]. split; [apply SubscriberStreams.example_connected|].
  apply between_uds; [done | apply SubscriberStreams.example_frame].
Qed.

Lemma polling_is_bounded_witness : exists b' new, pollMiddleware 1 example_poller = (Ret tt, b') /\ poller_ok b' /\ (length new <= 4)%nat /\
  published_of MessageString b' = Some new.
Proof.
  destruct (polling_is_bounded 1 example_poller [] example_poller_ok eq_refl) as (b' & new & Hrun & Hok & _ & Hnew & Hlen & _).
  exists b', new. split_and!; [exact Hrun | exact Hok | exact Hlen | exact Hnew].
Defined.
