(* ===== verification/BridgeCreation.v ===== *)
(** * Construction of the bridge nodes

    The constructors of [Ros2ToMwBridge] and [MwToRos2Bridge] ([bridge_nodes.cpp] of
    [ros2_adapter/mw_ros2_adapter]): the parameters of the node are loaded, a context is connected to the
    registry, the middleware endpoint is created in it, and the ROS endpoint last.  When one of these
    steps throws, the members made before it are destroyed. *)

From Stdlib Require Import ZArith Lia Bool String.
From stdpp Require Import base gmap sets list strings option.
From S2P Require Import Prelude Types Outcome ControlProtocol QueueProtocol PoolLayout MemoryPool SubscriberQueue PublisherState Publisher PublisherInvariant PublisherUds PublisherLifecycle PublisherTheorems UnixListener SubscriberState Subscriber SubscriberInvariant SubscriberFrames SubscriberMethods SubscriberLifecycle SubscriberTheorems RegistryClient RegistrySession ClientInvariant SessionTheorems TypeSupport BridgeConfig Context ContextTheorems BridgeNodes BridgeTheorems.

Local Open Scope Z_scope.

(** ** Constructors *)

(** The surroundings of a node: the process id, the registry's and the kernel's answers, and what
    [rclcpp] does when the ROS endpoint and the timer are created. *)
Record bridge_env := mkBridgeEnv {
  be_pid : Z;
  be_session : session_env;
  be_publisher : publisher_env;
  be_subscriber : subscriber_env;
  be_calls : call_env;
  be_kernel : Kernel;
  be_ros_endpoint : outcome unit;
  be_ros_timer : outcome unit;
}.

(** [RegistryConfig(socket_path)] *)
Definition registry_config (socket_path : string) : RegistryConfig := mkRegistryConfig socket_path 2000 default_liveness.

Definition create_ros2_to_mw (env : bridge_env) (node : ros_node) : cpp Owner Ros2ToMwBridge :=
  config ← lift (declareAndLoadBridgeConfig (be_pid env) node Ros2ToMiddleware);
  type ← lift (config_type config);
  make_context (be_session env) (bc_mw_node_name config) (registry_config (bc_registry_socket config));;
  or_cleanup
    (publisher_config ← lift (makePublisherConfig config);
     m ← createPublisher (be_publisher env) (bc_mw_topic config) publisher_config;
     or_cleanup (lift (be_ros_endpoint env)) (drop_publisher (be_calls env) m);;
     o ← this;
     mret (mkRos2ToMwBridge config type (mkPubState m (pr_world (ow_process o))) (Some type) []))
    destroy_context.

Section pollers.
Context {Msg : SupportedMessageType -> Type}.

Definition create_mw_to_ros2 (env : bridge_env) (node : ros_node) (ros_answers : list (option exn)) : cpp Owner (MwToRos2Bridge (Msg := Msg)) :=
  config ← lift (declareAndLoadBridgeConfig (be_pid env) node MiddlewareToRos2);
  type ← lift (config_type config);
  make_context (be_session env) (bc_mw_node_name config) (registry_config (bc_registry_socket config));;
  or_cleanup
    (subscriber_config ← lift (makeSubscriberConfig config);
     m ← createSubscriber (be_subscriber env) (bc_mw_topic config) subscriber_config;
     or_cleanup (lift (be_ros_endpoint env);; lift (be_ros_timer env)) (drop_subscriber (be_kernel env) m);;
     o ← this;
     let host := pr_host (ow_process o) in
     let made t : option (list (Msg t)) := if decide (type = t) then Some [] else None in
     mret (mkMwToRos2Bridge config type (mkSubState m (ho_shared host) (be_kernel env) (ho_files host) [])
             (made MessageString) (made MessageTwist) (made MessageImage) ros_answers []))
    destroy_context.
End pollers.

(** ** Lemmas *)

(** The surroundings answer within their contracts. *)
Record bridge_answers (env : bridge_env) (node : ros_node) (values : node_values) : Prop := {
  ba_node : answers_with node values;
  ba_link : link_ok (se_link (be_session env));
  ba_heartbeat_link : link_ok (se_heartbeat_link (be_session env));
  ba_calls : env_answers (be_calls env);
  ba_kernel : kernel_ok (be_kernel env);
  ba_ros : be_ros_endpoint env <> Undef /\ be_ros_timer env <> Undef;
}.

Lemma default_pool_typed : config_typed default_memory_pool.
Proof. repeat constructor; vm_compute; congruence. Qed.

Lemma loads env node values direction : bridge_answers env node values ->
  match declareAndLoadBridgeConfig (be_pid env) node direction with
  | Ret config => config_allowed direction config /\ string_size (bc_mw_node_name config) <> 0 /\
      exists type, parseMessageType (bc_message_type config) = Some type
  | Throw _ => True
  | Undef => False
  end.
Proof.
  intros Hans. rewrite (load_described _ _ _ direction (ba_node _ _ _ Hans)).
  destruct (loaded _ _ _ _) as [config|e|] eqn:Hl; [|done|by apply loaded_defined in Hl].
  apply loaded_allowed in Hl. split; [done|]. destruct Hl as [Ha _ _]. unfold allowed, not_empty in Ha. bools. by split.
Qed.

(** What a node has when its constructor returned: the configuration that was loaded, the type it names, and
    a context with a session. *)
Definition constructed (env : bridge_env) (node : ros_node) (direction : BridgeDirection) (config : BridgeConfig) (type : SupportedMessageType) (o : Owner) : Prop :=
  declareAndLoadBridgeConfig (be_pid env) node direction = Ret config /\ parseMessageType (bc_message_type config) = Some type /\
  owner_ok o /\ registered o = true.

(** What is left when it threw: the context is gone, and nothing happened at all if the parameters
    were rejected. *)
Definition not_constructed (env : bridge_env) (node : ros_node) (direction : BridgeDirection) (o o' : Owner) : Prop :=
  ow_context o' = None /\ ((forall config, declareAndLoadBridgeConfig (be_pid env) node direction <> Ret config) -> o' = o).

(** The frame of both constructors. *)
Lemma node_ok {A} env node values direction (body : BridgeConfig -> SupportedMessageType -> cpp Owner A) o (Q : A -> Owner -> Prop) :
  bridge_answers env node values -> ow_context o = None -> world_ok (pr_world (ow_process o)) ->
  (forall config type o1, config_allowed direction config -> constructed env node direction config type o1 -> ow_process o1 = ow_process o ->
     ends (body config type) o1 Q (fun _ o' => context_ok o')) ->
  ends (config ← lift (declareAndLoadBridgeConfig (be_pid env) node direction);
        type ← lift (config_type config);
        make_context (be_session env) (bc_mw_node_name config) (registry_config (bc_registry_socket config));;
        or_cleanup (body config type) destroy_context) o Q (fun _ o' => not_constructed env node direction o o').
Proof.
  intros Hans Hnull Hw Hbody. pose proof (loads env node values direction Hans) as Hload. apply ends_bind, ends_lift.
  { intros Hu. by rewrite Hu in Hload. }
  2: { by intros e _. }
  intros config Hconfig. rewrite Hconfig in Hload. destruct Hload as (Hallowed & Hname & type & Htype).
  apply ends_bind. unfold config_type. rewrite Htype. unfold ends at 1, lift at 1.
  apply ends_bind. eapply ends_mono; [| |apply make_context_ok; [apply (ba_link _ _ _ Hans) | apply (ba_heartbeat_link _ _ _ Hans) | simpl; lia | done]]; [|by intros e o1 ->].
  intros u o1 (Ho1 & Hr1 & Hp1). apply ends_or_cleanup. eapply ends_mono; [| |by apply Hbody]; [done|].
  intros e o2 Ho2. eapply wp_mono; [|by apply destroy_context_ok]. intros u' o3 [Hn _]. split; [done|]. intros Hr. by destruct (Hr config).
Qed.

Lemma create_ros2_to_mw_ok env node values o : bridge_answers env node values -> ow_context o = None -> world_ok (pr_world (ow_process o)) ->
  ends (create_ros2_to_mw env node) o
    (fun b o' => constructed env node Ros2ToMiddleware (rb_config b) (rb_message_type b) o' /\ bridge_ok b /\
       rb_subscription b = Some (rb_message_type b) /\ rb_log b = [] /\
       im_topic (ps_impl (rb_publisher b)) = bc_mw_topic (rb_config b) /\
       makePublisherConfig (rb_config b) = Ret (im_config (ps_impl (rb_publisher b))))
    (fun _ o' => not_constructed env node Ros2ToMiddleware o o').
Proof.
  intros Hans Hnull Hw. apply (node_ok env node values); [done..|]. intros config type o1 Hallowed (Hl & Htype & Ho1 & Hr1) _.
  destruct (publisher_config_accepted _ _ Hallowed) as (pc & Hpc & _ & Htr & _ & Hpool). apply ends_bind. rewrite Hpc. unfold ends at 1, lift at 1.
  assert (Hty : config_typed (pc_memory_pool pc)) by (rewrite Hpool; exact default_pool_typed).
  apply ends_bind. pose proof (createPublisher_ok (be_publisher env) (bc_mw_topic config) pc o1 Ho1 Hty) as Hmade. unfold ends at 1.
  destruct (createPublisher _ _ _ _) as [[m|e|] o2]; [| |tauto]; destruct Hmade as (Ho2 & Hr2 & Hw2 & _ & Hm); rewrite Hr1 in Hr2;
    [|apply Ho2].
  destruct Hm as [[Hpub _ (Ht & Hc & _) _] _]. rewrite <- Hw2 in Hpub. apply ends_bind, ends_or_cleanup, ends_lift; [apply (ba_ros _ _ _ Hans)| |].
  - intros [] _. apply ends_bind. unfold ends at 1, this. apply ends_ret. simpl. subst.
    split_and!; [by split_and! | by split | done | done | done | done].
  - intros e _. eapply wp_mono; [|apply drop_publisher_ok; [apply (ba_calls _ _ _ Hans) | apply Ho2 | done | done]]. by intros u o3 [].
Qed.

(** The socket of the listener is new. *)
Definition listener_fresh (env : bridge_env) (o : Owner) : Prop :=
  match la_socket (sv_listen (be_subscriber env)) with inl fd => 0 <= fd /\ fd ∉ sf_fds (ho_files (pr_host (ow_process o))) | inr _ => True end.

Lemma create_mw_to_ros2_ok {Msg} env node values answers o : bridge_answers env node values -> ow_context o = None -> world_ok (pr_world (ow_process o)) ->
  shared_ok (ho_shared (pr_host (ow_process o))) -> listener_fresh env o ->
  ends (create_mw_to_ros2 (Msg := Msg) env node answers) o
    (fun b o' => constructed env node MiddlewareToRos2 (mb_config b) (mb_message_type b) o' /\ poller_ok b /\
       published_of (mb_message_type b) b = Some [] /\ mb_log b = [] /\
       makeSubscriberConfig (mb_config b) = Ret (si_config (su_impl (mb_subscriber b))))
    (fun _ o' => not_constructed env node MiddlewareToRos2 o o').
Proof.
  intros Hans Hnull Hw Hsh Hfd. apply (node_ok env node values); [done..|]. intros config type o1 Hallowed (Hl & Htype & Ho1 & Hr1) Hp1.
  destruct (subscriber_config_accepted _ Hallowed) as (uc & Huc & _ & Htr & Hmax & Hdepth & _). apply ends_bind. rewrite Huc. unfold ends at 1, lift at 1.
  assert (Hpos : 0 <= bc_max_message_size config /\ 0 <= bc_queue_depth config) by (destruct Hallowed as [Ha _ _]; unfold allowed, between_1_and in Ha; bools; lia).
  apply ends_bind. pose proof (createSubscriber_ok (be_subscriber env) (bc_mw_topic config) uc o1 Ho1 ltac:(lia)) as Hmade. unfold ends at 1.
  rewrite Hp1 in Hmade. specialize (Hmade Hfd).
  destruct (createSubscriber _ _ _ _) as [[m|e|] o2]; [| |tauto]; destruct Hmade as (Ho2 & Hr2 & Hm); rewrite Hr1 in Hr2;
    [|apply Ho2].
  pose proof (ma_ok _ _ _ _ Hm (be_kernel env) (ho_files (pr_host (ow_process o2))) [] Hsh (ba_kernel _ _ _ Hans)) as Hsub.
  destruct Hm as [Hc _ _ _]. apply ends_bind, ends_or_cleanup.
  assert (Hdrop : wp (drop_subscriber (be_kernel env) m) o2 (fun _ o' => context_ok o')).
  { eapply wp_mono; [|apply drop_subscriber_ok; [done | apply Ho2 | done]]. by intros u' o3 [Ho3 _]. }
  apply ends_bind, ends_lift; [apply (ba_ros _ _ _ Hans)| |done]. intros [] _. apply ends_lift; [apply (ba_ros _ _ _ Hans)| |done]. intros [] _.
  apply ends_bind. unfold ends at 1, this. apply ends_ret. simpl. subst uc.
  split_and!; [by split_and! | split; simpl; [done | unfold max_size; simpl; lia | by destruct type] | by destruct type | done | done].
Qed.

(** ** Theorem *)

(** C15: A bridge node is constructed whole or not at all.  Whatever the parameters of the node are and the
    registry, the kernel and [rclcpp] answer, both constructors return or throw.  A node that is
    constructed has a registered context, the endpoint its configuration describes, and is in the
    invariant its callbacks start from ([bridge_ok], [poller_ok]); rejected parameters are
    reported before anybody was contacted; and any later exception leaves no context behind. *)
Theorem bridge_nodes_are_whole {Msg} env node values answers o : bridge_answers env node values -> ow_context o = None ->
  world_ok (pr_world (ow_process o)) -> shared_ok (ho_shared (pr_host (ow_process o))) -> listener_fresh env o ->
  match create_ros2_to_mw env node o with
  | (Ret b, o') => constructed env node Ros2ToMiddleware (rb_config b) (rb_message_type b) o' /\ bridge_ok b /\
      rb_subscription b = Some (rb_message_type b) /\ im_topic (ps_impl (rb_publisher b)) = bc_mw_topic (rb_config b) /\
      makePublisherConfig (rb_config b) = Ret (im_config (ps_impl (rb_publisher b)))
  | (Throw _, o') => not_constructed env node Ros2ToMiddleware o o'
  | (Undef, _) => False
  end /\
  match create_mw_to_ros2 (Msg := Msg) env node answers o with
  | (Ret b, o') => constructed env node MiddlewareToRos2 (mb_config b) (mb_message_type b) o' /\ poller_ok b /\
      published_of (mb_message_type b) b = Some [] /\
      makeSubscriberConfig (mb_config b) = Ret (si_config (su_impl (mb_subscriber b)))
  | (Throw _, o') => not_constructed env node MiddlewareToRos2 o o'
  | (Undef, _) => False
  end.
Proof.
  intros Hans Hnull Hw Hsh Hfd. pose proof (create_ros2_to_mw_ok env node values o Hans Hnull Hw) as H1.
  pose proof (create_mw_to_ros2_ok (Msg := Msg) env node values answers o Hans Hnull Hw Hsh Hfd) as H2. unfold ends in *. split.
  - destruct (create_ros2_to_mw env node o) as [[b|e|] o']; [naive_solver | done | done].
  - destruct (create_mw_to_ros2 env node answers o) as [[b|e|] o']; [naive_solver | done | done].
Qed.

(** ** A concrete node *)

(** The registry registers the node, takes the heartbeat and answers the endpoint's request. *)
Definition uds_values : node_values :=
  mkNodeValues (fun name default => if String.eqb name "transport" then "uds"%string else default) (nv_integer plain_values).
Definition uds_node : ros_node :=
  mkRosNode "bridge" (fun name default => Ret (nv_string uds_values name default)) (fun name default => Ret (nv_integer uds_values name default)).
Definition answering_env (ros : outcome unit) : bridge_env :=
  mkBridgeEnv 42
    (mkSessionEnv (mkConnectAnswer (inl 7) None)
       (quiet_link [InData (ok_response 1 [FU64 1; FU64 9]); InData (ok_response 2 [FU64 3; FU64 5; FStr ""; FU64 0; FU64 0; FU16 0])])
       (mkConnectAnswer (inl 8) None) (quiet_link [InData (ok_response 1 [])]) None)
    (mkPublisherEnv 42 (mkConnectAnswer (inl 9) None) None) example_subscriber_env example_env (quiet_answers [] []) ros (Ret tt).
Definition new_owner : Owner :=
  mkOwner None (mkProcess example_world (mkHost (mkShared ∅ ∅ ∅ ∅ ∅) (mkSocketFiles ∅ {[ 0; 1; 2 ]})) 0 0).

Lemma answering_env_ok ros : ros <> Undef -> bridge_answers (answering_env ros) uds_node uds_values.
Proof.
  intros Hros. split; [| | |exact example_env_answers | by apply quiet_answers_ok | done].
  - split; [done | done |]. intros name default. apply (aw_int64 _ _ plain_answers "").
  - apply quiet_link_ok. constructor; [|constructor; [|constructor]]; apply all_bytes_spec; vm_compute; reflexivity.
  - apply quiet_link_ok. constructor; [|constructor]. apply all_bytes_spec. vm_compute. reflexivity.
Qed.

Definition ended {A} (r : outcome A * Owner) : bool * bool :=
  (match fst r with Ret _ => true | _ => false end, registered (snd r)).

Lemma ended_returns {A} (r : outcome A * Owner) session : ended r = (true, session) -> exists a o', r = (Ret a, o').
Proof. destruct r as [[a|e|] o']; [|done..]. by exists a, o'. Qed.
Lemma ended_throws {A} (r : outcome A * Owner) session : ended r = (false, session) -> fst r <> Undef -> exists e o', r = (Throw e, o').
Proof. destruct r as [[a|e|] o']; [done | by exists e, o' | done]. Qed.

(** Both nodes are constructed; when [rclcpp] refuses the endpoint nothing is left. *)
Lemma bridge_nodes_are_whole_witness :
  (exists b o', create_ros2_to_mw (answering_env (Ret tt)) uds_node new_owner = (Ret b, o') /\ bridge_ok b) /\
  (exists b o', create_mw_to_ros2 (Msg := TextMessage) (answering_env (Ret tt)) uds_node [] new_owner = (Ret b, o') /\ poller_ok b) /\
  (exists e o', create_ros2_to_mw (answering_env (Throw ex_runtime_error)) uds_node new_owner = (Throw e, o') /\ ow_context o' = None).
Proof.
  assert (Hsh : shared_ok (ho_shared (pr_host (ow_process new_owner)))) by (split; [intros fd; by apply list.Forall_nil | intros o r Hl; simpl in Hl; by rewrite lookup_empty in Hl]).
  assert (Hfd : forall ros, listener_fresh (answering_env ros) new_owner) by (intros ros; split; [lia|]; vm_compute; discriminate).
  destruct (bridge_nodes_are_whole (Msg := TextMessage) (answering_env (Ret tt)) uds_node uds_values [] new_owner
    (answering_env_ok (Ret tt) ltac:(discriminate)) eq_refl example_world_ok Hsh (Hfd _)) as [H1 H2].
  destruct (bridge_nodes_are_whole (Msg := TextMessage) (answering_env (Throw ex_runtime_error)) uds_node uds_values [] new_owner
    (answering_env_ok (Throw ex_runtime_error) ltac:(discriminate)) eq_refl example_world_ok Hsh (Hfd _)) as [H3 _].
  split_and!.
  - destruct (ended_returns (create_ros2_to_mw (answering_env (Ret tt)) uds_node new_owner) true) as (b & o' & Hr); [vm_compute; reflexivity|].
    rewrite Hr in H1. exists b, o'. split; [exact Hr | apply H1].
  - destruct (ended_returns (create_mw_to_ros2 (Msg := TextMessage) (answering_env (Ret tt)) uds_node [] new_owner) true) as (b & o' & Hr); [vm_compute; reflexivity|].
    rewrite Hr in H2. exists b, o'. split; [exact Hr | apply H2].
  - destruct (ended_throws (create_ros2_to_mw (answering_env (Throw ex_runtime_error)) uds_node new_owner) false) as (e & o' & Hr);
      [vm_compute; reflexivity | vm_compute; discriminate |].
    rewrite Hr in H3. exists e, o'. split; [exact Hr | apply H3].
Defined.
