(* ===== verification/BridgePrograms.v ===== *)
(** * The bridge programs

    [ros2_to_mw_bridge.cpp] and [mw_to_ros2_bridge.cpp] of [ros2_adapter/mw_ros2_adapter]: a node is constructed,
    [rclcpp::spin] runs its callbacks until it returns, and the node is destroyed. *)

From Stdlib Require Import ZArith Lia Bool String.
From stdpp Require Import base gmap sets list strings option.
From S2P Require Import Prelude Types Outcome QueueProtocol MemoryPool PublisherState Publisher PublisherInvariant PublisherUds PublisherTheorems UnixListener SubscriberState Subscriber SubscriberInvariant SubscriberMethods SubscriberLifecycle RegistryClient RegistrySession ClientInvariant SessionTheorems TypeSupport BridgeConfig Context ContextTheorems BridgeNodes BridgeTheorems BridgeCreation.

Local Open Scope Z_scope.

Section programs.
Context {Msg : SupportedMessageType -> Type} `{!RosSerialization Msg} `{!RosCodecLaws Msg}.

(** ** Programs *)

(** [rclcpp::spin(node)]: the messages that arrive on the subscription, with the answers of the
    surroundings while each is handled. *)
Definition spin_messages (type : SupportedMessageType) (calls : list (call_env * Msg type)) : cpp Ros2ToMwBridge unit :=
  for_each calls (fun '(env, message) => handleMessage env type message).
(** The ticks of the timer, with the number of ROS subscribers at each. *)
Definition spin_ticks (ticks : list Z) : cpp (MwToRos2Bridge (Msg := Msg)) unit := for_each ticks (fun count => pollMiddleware count).

(** [node.reset()], also when an exception leaves the block: the endpoint and then the context are
    destroyed. *)
Definition destroy_ros2_to_mw (env : call_env) (b : Ros2ToMwBridge) : cpp Owner unit :=
  modify (fun o => o <| ow_process := ow_process o <| pr_world := ps_world (rb_publisher b) |> |>);;
  drop_publisher env (ps_impl (rb_publisher b));;
  destroy_context.
Definition destroy_mw_to_ros2 (b : MwToRos2Bridge (Msg := Msg)) : cpp Owner unit :=
  modify (fun o => o <| ow_process := ow_process o <| pr_host := mkHost (su_shared (mb_subscriber b)) (su_files (mb_subscriber b)) |> |>);;
  drop_subscriber (su_kernel (mb_subscriber b)) (su_impl (mb_subscriber b));;
  destroy_context.

(** The exit status: 2 after an exception.  [calls] are the messages of each type. *)
Definition ros2_to_mw_main (env : bridge_env) (node : ros_node) (calls : forall type, list (call_env * Msg type)) : cpp Owner Z := fun o =>
  match create_ros2_to_mw env node o with
  | (Throw _, o) => (Ret 2, o)
  | (Undef, o) => (Undef, o)
  | (Ret b, o) =>
      match spin_messages (rb_message_type b) (calls (rb_message_type b)) b with
      | (Ret _, b) => (destroy_ros2_to_mw (be_calls env) b;; mret 0) o
      | (Throw _, b) => (destroy_ros2_to_mw (be_calls env) b;; mret 2) o
      | (Undef, _) => (Undef, o)
      end
  end.
Definition mw_to_ros2_main (env : bridge_env) (node : ros_node) (ros_answers : list (option exn)) (ticks : list Z) : cpp Owner Z := fun o =>
  match create_mw_to_ros2 (Msg := Msg) env node ros_answers o with
  | (Throw _, o) => (Ret 2, o)
  | (Undef, o) => (Undef, o)
  | (Ret b, o) =>
      match spin_ticks ticks b with
      | (Ret _, b) => (destroy_mw_to_ros2 b;; mret 0) o
      | (Throw _, b) => (destroy_mw_to_ros2 b;; mret 2) o
      | (Undef, _) => (Undef, o)
      end
  end.

(** ** Lemmas *)

Lemma spin_messages_ok type calls : Forall (fun call => env_answers call.1) calls -> forall b, bridge_ok b ->
  wp (spin_messages type calls) b (fun _ b' => bridge_ok b').
Proof.
  intros Hcalls b Hb. set (inv l b := Forall (fun call : call_env * Msg type => env_answers call.1) l /\ bridge_ok b).
  apply (wp_mono _ _ (fun _ b' => inv [] b')); [by intros u b' [_ ?]|]. apply (wp_for_each inv); [|done].
  intros [env message] l b1 [Hl Hb1]. apply Forall_cons_1 in Hl as [He Hl]. eapply wp_mono; [|by apply handle_ok].
  intros u b2 (entries & Hb2 & _). done.
Qed.

Lemma spin_ticks_ok ticks b : poller_ok b -> wp (spin_ticks ticks) b (fun _ b' => poller_ok b').
Proof.
  intros Hb. apply (wp_for_each (fun _ b' => poller_ok b')); [|done]. intros count l b1 Hb1.
  eapply wp_mono; [|by apply pollMiddleware_ok]. intros u b2 [Hp _]. by eapply polled_ok.
Qed.

Lemma sub_ok_told told s : sub_ok s -> sub_ok (mkSubState (su_impl s) (su_shared s) (su_kernel s) (su_files s) told).
Proof. intros [[] Hb]. by split; [split|]. Qed.

Lemma destroy_ros2_to_mw_ok env b o : env_answers env -> bridge_ok b -> context_ok o -> registered o = true ->
  wp (destroy_ros2_to_mw env b) o (fun _ o' => ow_context o' = None).
Proof.
  intros Henv Hb Ho Hr. unfold destroy_ros2_to_mw. apply wp_bind. unfold modify, wp at 1. set (o1 := o <| ow_process := _ |>).
  assert (Hs : publisher_ok [] (mkPubState (ps_impl (rb_publisher b)) (pr_world (ow_process o1)))) by (pose proof (bo_publisher _ Hb) as Hp; by destruct (rb_publisher b)).
  apply wp_bind. eapply wp_mono; [|by apply drop_publisher_ok]. intros u o2 [Ho2 _].
  eapply wp_mono; [|by apply destroy_context_ok]. by intros u' o3 [].
Qed.

Lemma destroy_mw_to_ros2_ok b o : poller_ok b -> context_ok o -> registered o = true ->
  wp (destroy_mw_to_ros2 b) o (fun _ o' => ow_context o' = None).
Proof.
  intros Hb Ho Hr. unfold destroy_mw_to_ros2. apply wp_bind. unfold modify, wp at 1.
  apply wp_bind. eapply wp_mono; [|apply drop_subscriber_ok; [by apply sub_ok_told, Hb | done | done]]. intros u o2 [Ho2 _].
  eapply wp_mono; [|by apply destroy_context_ok]. by intros u' o3 [].
Qed.

(** ** Theorem *)

(** The bridge programs always exit and leave no session behind: with 0 when the node was constructed,
    whatever messages arrive, whatever the timer finds and whatever peers, registry and kernel answer
    while it spins, and with 2 when it was not. *)
Theorem bridge_programs_exit env node values calls answers ticks o : bridge_answers env node values -> ow_context o = None ->
  world_ok (pr_world (ow_process o)) -> shared_ok (ho_shared (pr_host (ow_process o))) -> listener_fresh env o ->
  (forall type, Forall (fun call => env_answers call.1) (calls type)) ->
  (exists status o', ros2_to_mw_main env node calls o = (Ret status, o') /\ ow_context o' = None /\
     (status = 0 \/ status = 2) /\ (status = 0 <-> exists b o1, create_ros2_to_mw env node o = (Ret b, o1))) /\
  (exists status o', mw_to_ros2_main env node answers ticks o = (Ret status, o') /\ ow_context o' = None /\
     (status = 0 \/ status = 2) /\ (status = 0 <-> exists b o1, create_mw_to_ros2 (Msg := Msg) env node answers o = (Ret b, o1))).
Proof.
  intros Hans Hnull Hw Hsh Hfd Hcalls. split.
  - unfold ros2_to_mw_main. pose proof (create_ros2_to_mw_ok env node values o Hans Hnull Hw) as Hc. unfold ends in Hc.
    destruct (create_ros2_to_mw env node o) as [[b|e|] o1]; [| |done].
    + destruct Hc as ((_ & _ & Ho1 & Hr1) & Hb & _).
      pose proof (spin_messages_ok _ _ (Hcalls (rb_message_type b)) b Hb) as Hs. apply wp_run in Hs as ([] & b' & -> & Hb').
      pose proof (destroy_ros2_to_mw_ok (be_calls env) b' o1 (ba_calls _ _ _ Hans) Hb' (oo_context _ Ho1) Hr1) as Hd.
      apply wp_run in Hd as ([] & o2 & Hd & Hn). exists 0, o2. unfold mbind, cpp_bind. rewrite Hd. split_and!; [done | done | by left |]. split; [by exists b, o1 | done].
    + exists 2, o1. split_and!; [done | apply Hc | by right |]. split; [done|]. by intros (? & ? & ?).
  - unfold mw_to_ros2_main. pose proof (create_mw_to_ros2_ok (Msg := Msg) env node values answers o Hans Hnull Hw Hsh Hfd) as Hc. unfold ends in Hc.
    destruct (create_mw_to_ros2 env node answers o) as [[b|e|] o1]; [| |done].
    + destruct Hc as ((_ & _ & Ho1 & Hr1) & Hb & _).
      pose proof (spin_ticks_ok ticks b Hb) as Hs. apply wp_run in Hs as ([] & b' & -> & Hb').
      pose proof (destroy_mw_to_ros2_ok b' o1 Hb' (oo_context _ Ho1) Hr1) as Hd.
      apply wp_run in Hd as ([] & o2 & Hd & Hn). exists 0, o2. unfold mbind, cpp_bind. rewrite Hd. split_and!; [done | done | by left |]. split; [by exists b, o1 | done].
    + exists 2, o1. split_and!; [done | apply Hc | by right |]. split; [done|]. by intros (? & ? & ?).
Qed.
End programs.

(** ** A run *)

Lemma bridge_programs_exit_witness :
  (exists o', ros2_to_mw_main (answering_env (Ret tt)) uds_node (fun type => [(example_env, "hi"%string : TextMessage type)]) new_owner = (Ret 0, o') /\ ow_context o' = None) /\
  (exists o', mw_to_ros2_main (Msg := TextMessage) (answering_env (Throw ex_runtime_error)) uds_node [] [1; 0] new_owner = (Ret 2, o') /\ ow_context o' = None).
Proof.
  assert (Hsh : shared_ok (ho_shared (pr_host (ow_process new_owner)))) by (split; [intros fd; by apply list.Forall_nil | intros o r Hl; simpl in Hl; by rewrite lookup_empty in Hl]).
  assert (Hfd : forall ros, listener_fresh (answering_env ros) new_owner) by (intros ros; split; [lia|]; vm_compute; discriminate).
  assert (Hcalls : forall type, Forall (fun call : call_env * TextMessage type => env_answers call.1) [(example_env, "hi"%string)])
    by (intros type; apply list.Forall_cons; split; [exact example_env_answers | by apply list.Forall_nil]).
  split.
  - destruct (bridge_programs_exit (Msg := TextMessage) (answering_env (Ret tt)) uds_node uds_values (fun type => [(example_env, "hi"%string : TextMessage type)]) [] [1; 0] new_owner
      (answering_env_ok (Ret tt) ltac:(discriminate)) eq_refl example_world_ok Hsh (Hfd _) Hcalls) as [(status & o' & Hrun & Hnull & _ & Hiff) _].
    exists o'. split; [|exact Hnull]. rewrite Hrun. f_equal. f_equal. apply Hiff.
    apply (ended_returns (create_ros2_to_mw (answering_env (Ret tt)) uds_node new_owner) true). vm_compute. reflexivity.
  - destruct (bridge_programs_exit (Msg := TextMessage) (answering_env (Throw ex_runtime_error)) uds_node uds_values (fun type => [(example_env, "hi"%string : TextMessage type)]) [] [1; 0] new_owner
      (answering_env_ok (Throw ex_runtime_error) ltac:(discriminate)) eq_refl example_world_ok Hsh (Hfd _) Hcalls) as [_ (status & o' & Hrun & Hnull & Hst & Hiff)].
    exists o'. split; [|exact Hnull]. rewrite Hrun. f_equal. f_equal. destruct Hst as [->|Hst]; [|exact Hst]. exfalso. destruct (proj1 Hiff eq_refl) as (b & o1 & Hc).
    assert (Hr : fst (ended (create_mw_to_ros2 (Msg := TextMessage) (answering_env (Throw ex_runtime_error)) uds_node [] new_owner)) = false) by (vm_compute; reflexivity).
    rewrite Hc in Hr. discriminate Hr.
Defined.
