(* ===== verification/BridgeEndToEnd.v ===== *)
(** * From one ROS 2 graph to another

    Two bridges with the middleware between them, over a Unix socket: what the first one serializes
    and publishes, the second one takes, deserializes and publishes. *)

From Stdlib Require Import ZArith Lia Bool String.
From stdpp Require Import base gmap list strings option.
From S2P Require Import Prelude Types Outcome BigEndian FrameProtocol QueueProtocol PoolLayout MemoryPool PoolSpec MemoryPoolView SocketIo SubscriberQueue QueueTheorems PublisherState Publisher PublisherInvariant PublisherMethods PublisherCalls PublisherUds LoanedSample PublisherLoans PublisherTheorems UnixListener SampleView SubscriberState Subscriber SubscriberInvariant SubscriberFrames SubscriberMethods EndToEnd SubscriberStreams TypeSupport BridgeConfig BridgeNodes BridgeTheorems.

Local Open Scope Z_scope.

Section crossing.
Context {Msg : SupportedMessageType -> Type} `{!RosSerialization Msg} `{!RosCodecLaws Msg}.
Context (type : SupportedMessageType).

(** ** Messages into the middleware *)

(** The calls of [handleMessage] as messages arrive. *)
Definition handle_all (calls : list (call_env * Msg type)) : cpp Ros2ToMwBridge unit :=
  for_each calls (fun '(env, message) => handleMessage env type message).

(** A call whose message is serialized into [bytes], with no subscriber reported dead. *)
Definition serialized_call (call : call_env * Msg type) (bytes : list Z) : Prop :=
  codec_serialize type call.2 = Ret bytes /\ ce_events call.1 = Ret [] /\ fits 64 (ce_timestamp_ns call.1).

(** The frames of the calls, numbered from [sequence]. *)
Fixpoint numbered (sequence : Z) (calls : list (call_env * Msg type)) (payloads : list (list Z)) : list sent_message :=
  match calls, payloads with
  | (env, _) :: calls, bytes :: payloads => mkSentMessage sequence (ce_timestamp_ns env) bytes :: numbered (sequence + 1) calls payloads
  | _, _ => []
  end.

Lemma handle_run env message bytes c b : uds_link c (rb_publisher b) -> bc_transport (rb_config b) = UnixDomainSocket ->
  serialized_call (env, message) bytes -> takes 1 bytes (rb_publisher b) -> Z.of_nat (length bytes) <= bc_max_message_size (rb_config b) ->
  wp (handleMessage env type message) b (fun _ b' => exists s', b' = b <| rb_publisher := s' |> /\
    sends c (mkSentMessage (im_sequence (ps_impl (rb_publisher b)) + 1) (ce_timestamp_ns env) bytes) (rb_publisher b) s').
Proof.
  intros Hl Ht (Hser & Hev & _) Hroom Hmax. apply wp_try. unfold forward_message. apply wp_bind. unfold lift, wp at 1. simpl in Hser. rewrite Hser.
  apply wp_bind. unfold this, wp at 1. rewrite (proj2 (Z.ltb_ge _ _)) by lia. rewrite Ht, bool_decide_false by done.
  apply wp_bind, wp_bind, wp_on_publisher. eapply wp_mono; [|by apply publish_run]. intros r s' (Hok & _ & Hs). apply wp_ret. rewrite Hok. cbn [is_ok negb].
  apply wp_ret. by exists s'.
Qed.

Lemma handle_all_run c calls payloads : Forall2 serialized_call calls payloads -> forall b,
  uds_link c (rb_publisher b) -> bc_transport (rb_config b) = UnixDomainSocket ->
  Forall (fun bytes => takes (Z.of_nat (length payloads)) bytes (rb_publisher b) /\ Z.of_nat (length bytes) <= bc_max_message_size (rb_config b)) payloads ->
  wp (handle_all calls) b (fun _ b' => exists s', b' = b <| rb_publisher := s' |> /\ uds_link c s' /\
    so_sent (socket_of (ps_world s') (dc_socket c)) = so_sent (socket_of (ps_world (rb_publisher b)) (dc_socket c)) ++
      flat_map sent_frame (numbered (im_sequence (ps_impl (rb_publisher b)) + 1) calls payloads)).
Proof.
  induction 1 as [|[env message] bytes calls payloads Hcall Hrest IH]; intros b Hl Ht Hroom.
  { apply wp_ret. exists (rb_publisher b). split_and!; [by destruct b | done |]. simpl. by rewrite app_nil_r. }
  apply Forall_cons_1 in Hroom as [[Hnow Hmax] Hroom]. unfold handle_all. cbn [for_each]. apply wp_bind.
  eapply wp_mono; [|apply (handle_run env message bytes c b); [done | done | done | | done]].
  2: { unfold takes in *. simpl in Hnow. lia. }
  intros u b1 (s1 & -> & [Hl1 Hs1 Hq1 Hc1 Hn1]). eapply wp_mono; [|apply (IH (b <| rb_publisher := s1 |>)); [done | done |]].
  - intros u2 b2 (s2 & -> & Hl2 & Hs2). exists s2. split_and!; [by destruct b | done |]. simpl in Hs2. rewrite Hs2, Hs1, Hq1. simpl. by rewrite <- app_assoc.
  - eapply list.Forall_impl; [exact Hroom|]. intros bytes' [Htk Hmx]. split; [|done]. unfold takes in *. simpl in *. rewrite Hc1, Hn1, Hq1. simpl. lia.
Qed.

(** ** Messages out of the middleware *)

Definition carries (message : Msg type) (sent : sent_message) : Prop := codec_serialize type message = Ret (sm_payload sent).

Lemma publish_payload message bytes (b : MwToRos2Bridge (Msg := Msg)) old : codec_serialize type message = Ret bytes ->
  mb_message_type b = type -> mb_ros_answers b = [] -> published_of type b = Some old ->
  exists b', deserializeAndPublish false (mret bytes) (Z.of_nat (length bytes)) b = (Ret tt, b') /\ mb_ros_answers b' = [] /\
    mb_config b' = mb_config b /\ mb_message_type b' = type /\ mb_subscriber b' = mb_subscriber b /\ mb_log b' = mb_log b /\
    published_of type b' = Some (old ++ [message]).
Proof.
  intros Hser Hty Hans Hold. pose proof (codec_serialize_spec type message) as Hspec. rewrite Hser in Hspec. destruct Hspec as (Hne & _ & Hde).
  set (b0 := b <| mb_subscriber := mb_subscriber b |>).
  destruct (ros_publish_spec type message b0 old) as (answers & b' & Hpub & Hans' & Hc & Ht & Hs & Hlog & Htail & Hnew).
  { unfold b0. by rewrite published_subscriber. }
  change (mb_ros_answers b0) with (mb_ros_answers b) in *. rewrite Hans in *. exists b'.
  assert (Hrun : deserializeAndPublish false (mret bytes) (Z.of_nat (length bytes)) b = (Ret tt, b')).
  { unfold deserializeAndPublish, try_catch, codec_deserialize. unfold mbind at 1 2, cpp_bind at 1 2, this at 1. rewrite Hty.
    rewrite (proj2 (Z.eqb_neq _ 0)) by (destruct bytes; [done | simpl; lia]).
    assert (Hd : (bytes0 ← mret bytes; lift (deserialize_message type bytes0)) (mb_subscriber b) = (Ret message, mb_subscriber b))
      by (unfold mbind, cpp_bind, mret, cpp_ret, lift; by rewrite Hde).
    rewrite (on_subscriber_run _ _ _ _ Hd). fold b0. by rewrite Hpub. }
  split_and!; [done | by rewrite Hans', Htail | done | by rewrite Ht | done | done | done].
Qed.

(** As many messages as one poll takes. *)
Lemma poll_loop_takes fd rest messages sents : Forall2 carries messages sents -> forall chunks polls b old,
  connected fd chunks polls (mb_subscriber b) -> (length chunks + length sents <= polls)%nat ->
  Forall (sendable (max_size (mb_subscriber b))) sents -> coming chunks (mb_subscriber b) = flat_map sent_frame sents ++ rest ->
  bc_transport (mb_config b) = UnixDomainSocket -> mb_message_type b = type -> mb_ros_answers b = [] -> published_of type b = Some old ->
  wp (poll_loop (length messages)) b (fun _ b' => published_of type b' = Some (old ++ messages) /\ mb_log b' = mb_log b /\
    mb_config b' = mb_config b /\ mb_message_type b' = type /\ mb_ros_answers b' = [] /\
    exists chunks' polls', connected fd chunks' polls' (mb_subscriber b') /\ coming chunks' (mb_subscriber b') = rest).
Proof.
  induction 1 as [|message sent messages sents Hcarry Hcarries IH]; intros chunks polls b old Hcn Hlen Hall Hbytes Htr Hty Hans Hold.
  { apply wp_ret. rewrite app_nil_r. split_and!; [done .. |]. by exists chunks, polls. }
  apply Forall_cons_1 in Hall as [(Hs & Ht & Hm & Hu) Hall]. cbn [length poll_loop]. apply wp_bind. unfold this, wp at 1.
  rewrite Htr, bool_decide_false by done. apply wp_bind, wp_on_subscriber. simpl in Hlen.
  eapply wp_mono; [|apply (wait_takes fd chunks polls (as_received sent) (flat_map sent_frame sents ++ rest)); [done | lia |]].
  2: { rewrite Hbytes. simpl. unfold sent_frame at 1. rewrite <- (app_assoc (_ ++ _)). by apply parse_published. }
  intros r s1 (-> & _ & _ & Hmax & chunks1 & polls1 & Hcn1 & Hco1 & Hle). apply wp_bind. simpl rm_payload.
  destruct (publish_payload message (sm_payload sent) (b <| mb_subscriber := s1 |>) old) as (b1 & Hrun & Hans1 & Hc1 & Hty1 & Hs1 & Hl1 & Hnew);
    [exact Hcarry | done | done | by rewrite published_subscriber |].
  unfold wp at 1. rewrite Hrun. simpl in Hc1, Hs1, Hl1. eapply wp_mono; [|apply (IH chunks1 polls1 b1 (old ++ [message]))]; rewrite ?Hs1, ?Hc1; try done.
  - intros u b2 (Hp & Hl & Hc & Hx). rewrite <- app_assoc in Hp. by rewrite Hl, Hl1, Hc.
  - lia.
  - by rewrite Hmax.
Qed.

(** ** Both *)

Lemma numbered_carries sequence calls payloads : Forall2 serialized_call calls payloads ->
  Forall2 carries (map snd calls) (numbered sequence calls payloads).
Proof.
  intros H. revert sequence. induction H as [|[env message] bytes calls payloads (Hser & _) _ IH]; intros sequence; [constructor|].
  simpl. constructor; [exact Hser | apply IH].
Qed.

Lemma numbered_sendable max calls payloads : Forall2 serialized_call calls payloads -> forall sequence, 0 <= sequence ->
  sequence + Z.of_nat (length payloads) <= 2 ^ 64 -> Forall (fun bytes => Z.of_nat (length bytes) <= max /\ Z.of_nat (length bytes) <= u32_max) payloads ->
  Forall (sendable max) (numbered sequence calls payloads) /\ length (numbered sequence calls payloads) = length calls.
Proof.
  induction 1 as [|[env message] bytes calls payloads (_ & _ & Hts) _ IH]; intros sequence H0 Hs Hall; [by split; [constructor|]|].
  apply Forall_cons_1 in Hall as [[Hm Hu] Hall]. simpl in Hs, Hts |- *. destruct (IH (sequence + 1)) as [IH1 IH2]; [lia | lia | done |].
  split; [constructor; [|done] | by rewrite IH2]. unfold sendable, fits. simpl. unfold fits in Hts. split_and!; lia || done.
Qed.

(** A bridge that is connected to the publisher's socket, with a poll for each of the [n] messages. *)
Record awaiting_bridge (fd : Z) (chunks : list (list incoming)) (n : nat) (old : list (Msg type)) (r : MwToRos2Bridge (Msg := Msg)) : Prop := {
  ab_connected : exists polls, connected fd chunks polls (mb_subscriber r) /\ (length chunks + n <= polls)%nat;
  ab_samples : bc_max_samples_per_poll (mb_config r) = Z.of_nat n;
  ab_transport : bc_transport (mb_config r) = UnixDomainSocket;
  ab_type : mb_message_type r = type;
  ab_answers : mb_ros_answers r = [];
  ab_published : published_of type r = Some old;
}.

(** C11: Messages cross from one ROS graph to the other.  When the first bridge has handled some
    messages over a Unix socket, nothing was logged; and a second bridge that receives the bytes
    its publisher has sent, in any fragmentation, publishes in one poll exactly these messages, in
    order, logs nothing, and leaves what follows on the stream. *)
Theorem ros_messages_cross c calls payloads b : Forall2 serialized_call calls payloads ->
  uds_link c (rb_publisher b) -> bc_transport (rb_config b) = UnixDomainSocket ->
  Forall (fun bytes => takes (Z.of_nat (length payloads)) bytes (rb_publisher b) /\ Z.of_nat (length bytes) <= bc_max_message_size (rb_config b)) payloads ->
  exists b', handle_all calls b = (Ret tt, b') /\ rb_log b' = rb_log b /\
    forall fd chunks old rest r count, awaiting_bridge fd chunks (length calls) old r -> 0 < count ->
      Forall (fun bytes => Z.of_nat (length bytes) <= max_size (mb_subscriber r)) payloads ->
      coming chunks (mb_subscriber r) = newly_sent (so_sent (socket_of (ps_world (rb_publisher b)) (dc_socket c)))
                                          (so_sent (socket_of (ps_world (rb_publisher b')) (dc_socket c))) ++ rest ->
      exists r' chunks' polls', pollMiddleware count r = (Ret tt, r') /\ published_of type r' = Some (old ++ map snd calls) /\
        mb_log r' = mb_log r /\ connected fd chunks' polls' (mb_subscriber r') /\ coming chunks' (mb_subscriber r') = rest.
Proof.
  intros Hcalls Hl Ht Hroom. pose proof (handle_all_run c calls payloads Hcalls b Hl Ht Hroom) as Hwp.
  apply wp_run in Hwp as ([] & b' & Hrun & s' & -> & _ & Hsent). exists (b <| rb_publisher := s' |>). split_and!; [done | done |].
  intros fd chunks old rest r count [(polls & Hcn & Hlen) Hn Htr Hty Hans Hold] Hcount Hmax Hbytes. simpl in Hbytes.
  rewrite Hsent in Hbytes. unfold newly_sent in Hbytes. rewrite drop_app_length in Hbytes.
  set (sents := numbered (im_sequence (ps_impl (rb_publisher b)) + 1) calls payloads) in *.
  assert (Hsend : Forall (sendable (max_size (mb_subscriber r))) sents /\ length sents = length calls).
  { destruct calls as [|call calls]; [inversion Hcalls; subst; by split; [constructor|]|]. destruct payloads as [|p payloads]; [by inversion Hcalls|].
    apply numbered_sendable; [done | | |].
    - apply Forall_cons_1 in Hroom as [[(_ & _ & _ & ? & _) _] _]. lia.
    - apply Forall_cons_1 in Hroom as [[(_ & _ & _ & _ & ?) _] _]. ulia.
    - apply list.Forall_forall. intros bytes Hin. rewrite list.Forall_forall in Hroom, Hmax. destruct (Hroom _ Hin) as [(_ & ? & _) _]. split; [by apply Hmax | done]. }
  destruct Hsend as [Hsend Hlen2].
  pose proof (poll_loop_takes fd rest (map snd calls) sents (numbered_carries _ calls payloads Hcalls) chunks polls r old Hcn
    ltac:(lia) Hsend Hbytes Htr Hty Hans Hold) as Hwp. apply wp_run in Hwp as ([] & r' & Hpoll & Hnew & Hlog & _ & _ & _ & chunks' & polls' & Hcn' & Hrest).
  exists r', chunks', polls'. split_and!; [|done ..]. unfold pollMiddleware. unfold mbind, cpp_bind.
  rewrite hasRosSubscribers_run by (rewrite Hty; by eexists). rewrite (proj2 (Z.ltb_lt _ _)) by done. cbn [negb]. unfold this.
  rewrite Hn, Nat2Z.id. by rewrite length_map in Hpoll.
Qed.
End crossing.

(** ** Two concrete bridges *)

Definition link_connection : DataConnection := empty_connection <| dc_endpoint_id := 9 |> <| dc_socket := 7 |> <| dc_max_message_size := 64 |>.
Definition uds_bridge_config (samples : Z) : BridgeConfig :=
  mkBridgeConfig "/tmp/mw_registry.sock" "/ros" "/mw" "std_msgs/msg/String" "bridge" "/tmp/mw" UnixDomainSocket 64 10 8 DropOldest 100 2 samples.
Definition sending_bridge : Ros2ToMwBridge :=
  mkRos2ToMwBridge (uds_bridge_config 2) MessageString
    (mkPubState (mkImpl "/mw" (mkPublisherConfig "" 64 "std_msgs/msg/String" "hash" UnixDomainSocket 5000 default_memory_pool)
       [link_connection] true None 3 5 64 0 ∅ 0 false) (mkWorld ∅ ∅ []))
    (Some MessageString) [].

(** No subscriber is reported dead. *)
Definition calm_env (timestamp : Z) : call_env :=
  mkCallEnv 0 0 timestamp (Ret []) (Throw (ex_middleware TopicNotFound)) (fun _ => mkConnectAnswer (inr 2) None) (fun _ => true)
    (fun _ => (None, LockAcquired)) (fun _ => LockAcquired) (fun _ => quiet_env) (fun _ => LockAcquired) [].
Definition two_calls : list (call_env * TextMessage MessageString) := [(calm_env 100, "hi"%string); (calm_env 200, "bye"%string)].
Definition two_payloads : list (list Z) := [cdr_header ++ string_bytes "hi"; cdr_header ++ string_bytes "bye"].

(** The bytes that were sent, in two fragments with an interrupt between them, then a byte more. *)
Definition sent_link : list Z :=
  so_sent (socket_of (ps_world (rb_publisher (handle_all MessageString two_calls sending_bridge).2)) 7).
Definition link_chunks : list (list incoming) :=
  [[InData (take 9 sent_link); InError EINTR]; [InData (drop 9 sent_link ++ [77])]].
Definition receiving_bridge : MwToRos2Bridge (Msg := TextMessage) :=
  mkMwToRos2Bridge (uds_bridge_config 2) MessageString
    (SubscriberStreams.example_subscriber (SubscriberStreams.example_kernel link_chunks 4)) (Some ["before"%string]) None None [] [].

Lemma sent_link_bytes : all_bytes sent_link = true.
Proof. vm_compute. reflexivity. Qed.

Lemma link_pieces : Forall (Forall piece_ok) link_chunks.
Proof.
  assert (Hb : forall l, all_bytes l = true -> l <> [] -> piece_ok (InData l)) by (intros l Hl Hn; split; [done | by apply all_bytes_spec]).
  repeat (apply list.Forall_cons; split); try apply list.Forall_nil; try (apply Hb; [vm_compute; reflexivity | vm_compute; discriminate]); done.
Qed.

Lemma receiving_connected : connected 7 link_chunks 4 (mb_subscriber receiving_bridge).
Proof.
  split; try done; try apply SubscriberStreams.example_frame; try apply SubscriberStreams.example_flowing; try apply link_pieces.
  apply SubscriberStreams.example_core. split; [|done]. cbn [kn_others SubscriberStreams.example_kernel]. apply Forall_fmap.
  eapply list.Forall_impl; [apply link_pieces|]. intros pieces. apply deliver_ok.
Qed.

Lemma ros_messages_cross_witness : exists b' r',
  handle_all MessageString two_calls sending_bridge = (Ret tt, b') /\
  pollMiddleware 1 receiving_bridge = (Ret tt, r') /\ published_of MessageString r' = Some ["before"%string; "hi"%string; "bye"%string].
Proof.
  destruct (ros_messages_cross MessageString link_connection two_calls two_payloads sending_bridge) as (b' & Hrun & _ & Hpoll).
  - repeat constructor; vm_compute; intuition discriminate.
  - split; [reflexivity | reflexivity | reflexivity | split; discriminate | reflexivity].
  - reflexivity.
  - repeat constructor; vm_compute; discriminate.
  - assert (Hb : b' = (handle_all MessageString two_calls sending_bridge).2) by exact (f_equal snd (eq_sym Hrun)).
    destruct (Hpoll 7 link_chunks ["before"%string] [77] receiving_bridge 1) as (r' & _ & _ & Hr & Hnew & _).
    + split; [exists 4%nat; split; [exact receiving_connected | vm_compute; lia] | reflexivity ..].
    + lia.
    + repeat constructor; vm_compute; discriminate.
    + rewrite Hb. vm_compute. reflexivity.
    + exists b', r'. split_and!; [exact Hrun | exact Hr | exact Hnew].
Defined.
