(* ===== verification/Decimal.v ===== *)
(** * Decimal numbers on command lines

    What the programs use of the C++ library to read numbers, [std::from_chars] for an unsigned type and
    [std::stoll], and [operator<<] for an unsigned number, which is [pretty]. *)

From Stdlib Require Import ZArith Lia Bool String Ascii.
From stdpp Require Import base list strings option pretty.
From S2P Require Import Prelude Types Outcome.

Local Open Scope Z_scope.

(** ** Definitions *)

Definition digit_value (c : ascii) : option Z :=
  let v := Z.of_N (N_of_ascii c) - 48 in if (0 <=? v) && (v <=? 9) then Some v else None.

(** The value of the leading digits, after [acc], and what follows them. *)
Fixpoint scan_digits (acc : Z) (s : string) : Z * string :=
  match s with
  | EmptyString => (acc, s)
  | String c rest => match digit_value c with Some d => scan_digits (10 * acc + d) rest | None => (acc, s) end
  end.

Definition starts_with_digit (s : string) : bool :=
  match s with String c _ => match digit_value c with Some _ => true | None => false end | EmptyString => false end.

(** [std::from_chars(first, last, value)] for an unsigned type of [bits]: the value and what is left, or an
    error. *)
Definition from_chars (bits : Z) (s : string) : option (Z * string) :=
  if negb (starts_with_digit s) then None else
  let '(value, rest) := scan_digits 0 s in if value <? 2 ^ bits then Some (value, rest) else None.

(** [isspace] in the C locale *)
Definition is_space (c : ascii) : bool :=
  let n := N_of_ascii c in bool_decide (n = 32%N) || (bool_decide (9 <= n)%N && bool_decide (n <= 13)%N).
Fixpoint skip_spaces (s : string) : string :=
  match s with String c rest => if is_space c then skip_spaces rest else s | EmptyString => s end.

(** [std::stoll(s, &consumed)], with the unread rest in the place of [consumed]. *)
Definition stoll (s : string) : outcome (Z * string) :=
  let s := skip_spaces s in
  let '(negative, digits) := match s with
    | String "-" rest => (true, rest)
    | String "+" rest => (false, rest)
    | _ => (false, s)
    end in
  if negb (starts_with_digit digits) then Throw ex_invalid_argument else
  let '(magnitude, rest) := scan_digits 0 digits in
  let value := if negative : bool then - magnitude else magnitude in
  if (value <? - 2 ^ 63) || (2 ^ 63 - 1 <? value) then Throw ex_out_of_range else Ret (value, rest).

(** ** Printing and reading *)

Lemma digit_of_char x : (x < 10)%N -> digit_value (pretty_N_char x) = Some (Z.of_N x).
Proof.
  intros Hx. assert (x = 0 \/ x = 1 \/ x = 2 \/ x = 3 \/ x = 4 \/ x = 5 \/ x = 6 \/ x = 7 \/ x = 8 \/ x = 9)%N as H by lia.
  by repeat (destruct H as [->|H]; [reflexivity|]); subst.
Qed.

Lemma scan_pretty_go x : forall s, scan_digits 0 (pretty_N_go x s) = scan_digits (Z.of_N x) s.
Proof.
  induction (N.lt_wf_0 x) as [x _ IH]. intros s. destruct (decide (x = 0%N)) as [->|Hne]; [by rewrite pretty_N_go_0|].
  rewrite pretty_N_go_step by lia. rewrite IH by (apply N.div_lt; lia). simpl.
  rewrite digit_of_char by (apply N.mod_lt; lia). f_equal. pose proof (N.div_mod x 10 ltac:(lia)). lia.
Qed.

Lemma go_starts x : forall s, starts_with_digit s = true -> starts_with_digit (pretty_N_go x s) = true.
Proof.
  induction (N.lt_wf_0 x) as [x _ IH]. intros s Hs. destruct (decide (x = 0%N)) as [->|Hne]; [by rewrite pretty_N_go_0|].
  rewrite pretty_N_go_step by lia. apply IH; [apply N.div_lt; lia|]. simpl. by rewrite digit_of_char by (apply N.mod_lt; lia).
Qed.

Lemma pretty_scan z : 0 <= z -> scan_digits 0 (pretty z) = (z, EmptyString) /\ starts_with_digit (pretty z) = true.
Proof.
  intros Hz. destruct z as [|p|p]; [done| |lia]. change (pretty (Z.pos p)) with (pretty (N.pos p)).
  unfold pretty, pretty_N. rewrite decide_False by done. split; [by rewrite scan_pretty_go|].
  rewrite pretty_N_go_step by lia. apply go_starts. simpl. by rewrite digit_of_char by (apply N.mod_lt; lia).
Qed.

Lemma scan_nonneg s : forall acc, 0 <= acc -> 0 <= fst (scan_digits acc s).
Proof.
  induction s as [|c s IH]; intros acc Ha; [done|]. simpl. destruct (digit_value c) as [d|] eqn:Hd; [|done]. apply IH.
  unfold digit_value in Hd. destruct (_ && _) eqn:Hb; [|done]. simplify_eq. bools. lia.
Qed.

(** A printed number is read back. *)
Lemma from_chars_pretty bits z : 0 <= z < 2 ^ bits -> from_chars bits (pretty z) = Some (z, EmptyString).
Proof.
  intros Hz. destruct (pretty_scan z ltac:(lia)) as [Hs Hd]. unfold from_chars. rewrite Hd, Hs. cbn [negb].
  by rewrite (proj2 (Z.ltb_lt _ _)) by lia.
Qed.

(** A digit is neither white space nor a sign. *)
Lemma digit_char c d : digit_value c = Some d -> is_space c = false /\ c <> "-"%char /\ c <> "+"%char.
Proof. destruct c as [[] [] [] [] [] [] [] []]; vm_compute; intros [=]; split_and!; done. Qed.

Lemma stoll_digits s : starts_with_digit s = true -> 
  stoll s = let '(value, rest) := scan_digits 0 s in if 2 ^ 63 - 1 <? value then Throw ex_out_of_range else Ret (value, rest).
Proof.
  intros Hd. unfold stoll. pose proof (scan_nonneg s 0 ltac:(lia)) as Hpos. destruct s as [|c s]; [done|]. simpl in Hd.
  destruct (digit_value c) as [d|] eqn:Hc; [|done]. destruct (digit_char c d Hc) as (Hsp & Hm & Hp). cbn [skip_spaces]. rewrite Hsp.
  assert (Hsign : match String c s with String "-" rest => (true, rest) | String "+" rest => (false, rest) | _ => (false, String c s) end = (false, String c s)).
  { destruct c as [[] [] [] [] [] [] [] []]; try reflexivity; [by destruct Hp | by destruct Hm]. }
  rewrite Hsign. cbn [starts_with_digit]. rewrite Hc. cbn [negb]. destruct (scan_digits 0 (String c s)) as [v rest]. simpl in Hpos.
  by rewrite (proj2 (Z.ltb_ge v (- 2 ^ 63))) by lia.
Qed.

Lemma stoll_pretty z : 0 <= z < 2 ^ 63 -> stoll (pretty z) = Ret (z, EmptyString).
Proof.
  intros Hz. destruct (pretty_scan z ltac:(lia)) as [Hs Hd]. rewrite stoll_digits, Hs by done. by rewrite (proj2 (Z.ltb_ge _ _)) by lia.
Qed.

Lemma stoll_defined s : stoll s <> Undef.
Proof. unfold stoll. repeat case_match; done. Qed.
