(* ===== verification/RegistryDaemon.v ===== *)
(** * The registry daemon

    [registry/src/main.cpp]: the options of [mw_registryd] and its main loop around the server of
    [RegistryServer]. *)

From Stdlib Require Import ZArith Lia Bool String Ascii.
From stdpp Require Import base gmap list strings option pretty.
From S2P Require Import Prelude Types Outcome Decimal SubscriberQueue PublisherState UnixListener Subscriber SubscriberLifecycle RegistryState RegistryInvariant RegistryServer ServerInvariant ServerLoop ServerTheorems ClientInvariant.

Local Open Scope Z_scope.

(** ** Options *)

Record Options := mkOptions {
  op_socket_path : string;
  op_liveness : LivenessConfig;
}.
#[export] Instance Options_eta : Eta Options := fun o => mkOptions (op_socket_path o) (op_liveness o).
#[export] Instance LivenessConfig_eta : Eta LivenessConfig := fun c =>
  mkLivenessConfig (heartbeat_interval c) (suspect_timeout c) (dead_timeout c).

Definition default_options : Options := mkOptions "/tmp/mw_registry.sock" default_liveness.

Definition parsePositiveMilliseconds (value : string) : outcome Z :=
  '(parsed, rest) ← stoll value;
  if negb (string_size rest =? 0) || (parsed <=? 0) then Throw ex_invalid_argument else Ret parsed.

Definition set_option (option value : string) (options : Options) : outcome Options :=
  if String.eqb option "--socket" then Ret (options <| op_socket_path := value |>) else
  if String.eqb option "--heartbeat-interval-ms" then
    ms ← parsePositiveMilliseconds value; Ret (options <| op_liveness := op_liveness options <| heartbeat_interval := ms |> |>) else
  if String.eqb option "--suspect-timeout-ms" then
    ms ← parsePositiveMilliseconds value; Ret (options <| op_liveness := op_liveness options <| suspect_timeout := ms |> |>) else
  if String.eqb option "--dead-timeout-ms" then
    ms ← parsePositiveMilliseconds value; Ret (options <| op_liveness := op_liveness options <| dead_timeout := ms |> |>) else
  Throw ex_invalid_argument.

(** The loop over the arguments after the program's name. *)
Fixpoint option_loop (args : list string) (options : Options) : outcome Options :=
  match args with
  | [] => Ret options
  | [_] => Throw ex_invalid_argument
  | option :: value :: args => options ← set_option option value options; option_loop args options
  end.

Definition parseOptions (args : list string) : outcome Options :=
  options ← option_loop args default_options;
  if negb (validLivenessConfig (op_liveness options)) then Throw ex_invalid_argument else Ret options.

(** ** The program *)

(** The kernel's answers to the construction of the server, and the rounds of the loop until
    [handleSignal] has set [stop_requested]. *)
Record daemon_env := mkDaemonEnv {
  de_listen : listen_answer;
  de_epoll_create : option Z;
  de_epoll_ctl : option Z;
  de_os : Os;
  de_rounds : list round;
}.

(** [server.pollOnce(250)] *)
Definition daemon_round (r : round) : round := mkRound (rd_world r) (rd_bytes r) (rd_wait r) 250.

(** The exit status, and what was printed to the standard output.  The server is destroyed also
    when [pollOnce] throws. *)
Definition daemon_main (env : daemon_env) (args : list string) : cpp SocketFiles (Z * list string) :=
  server ← attempt (options ← lift (parseOptions args);
                    create_server (de_listen env) (de_epoll_create env) (de_epoll_ctl env) (op_socket_path options) (op_liveness options) (de_os env));
  match server with
  | inr _ => mret (1, [])
  | inl server =>
      let out := ["registry_socket=" +:+ ul_socket_path (sv_listener server)] in
      match for_each (map daemon_round (de_rounds env)) server_round server with
      | (Ret _, server) => cleanup_listener (sv_listener server);; mret (0, out)
      | (Throw _, server) => cleanup_listener (sv_listener server);; mret (1, out)
      | (Undef, _) => undefined
      end
  end.

(** ** Lemmas *)

Lemma parsePositive_pretty z : 0 < z < 2 ^ 63 -> parsePositiveMilliseconds (pretty z) = Ret z.
Proof.
  intros Hz. unfold parsePositiveMilliseconds. rewrite stoll_pretty by lia. cbn [mbind outcome_bind].
  change (string_size "" =? 0) with true. by rewrite (proj2 (Z.leb_gt _ _)) by lia.
Qed.

Lemma parsePositive_spec value : match parsePositiveMilliseconds value with
  | Ret ms => 0 < ms < 2 ^ 63 /\ stoll value = Ret (ms, EmptyString)
  | Throw e => e = ex_invalid_argument \/ e = ex_out_of_range
  | Undef => False
  end.
Proof.
  unfold parsePositiveMilliseconds. destruct (stoll value) as [[v rest]|e|] eqn:Hs; cbn [mbind outcome_bind].
  - destruct (_ || _) eqn:Hb; [by left|]. bools.
    assert (rest = EmptyString) as -> by (destruct rest; [done|]; unfold string_size in *; simpl in *; lia). split; [|done].
    unfold stoll in Hs. repeat case_match; simplify_eq; bools; lia.
  - unfold stoll in Hs. repeat case_match; simplify_eq; auto.
  - by apply stoll_defined in Hs.
Qed.

Lemma set_option_defined option value options : set_option option value options <> Undef.
Proof.
  unfold set_option. pose proof (parsePositive_spec value) as Hp.
  repeat match goal with |- (if ?b then _ else _) <> _ => destruct b end; try done; by destruct (parsePositiveMilliseconds value).
Qed.

Lemma option_loop_defined args options : option_loop args options <> Undef.
Proof.
  revert options. induction args as [args IH] using (well_founded_induction (well_founded_ltof _ (@length string))). intros options.
  destruct args as [|o [|v args]]; [done | done |]. simpl. pose proof (set_option_defined o v options) as Hd.
  destruct (set_option o v options); [|done|done]. cbn [mbind outcome_bind]. apply IH. unfold ltof. simpl. lia.
Qed.

Lemma parseOptions_spec args : match parseOptions args with Ret options => validLivenessConfig (op_liveness options) = true | Throw _ => True | Undef => False end.
Proof.
  unfold parseOptions. pose proof (option_loop_defined args default_options). destruct (option_loop _ _) as [options| |]; [|done|done].
  cbn [mbind outcome_bind]. by destruct (validLivenessConfig _) eqn:?.
Qed.

(** The server that is constructed owns its path; otherwise nothing is left. *)
Lemma create_server_owns listen epoll_create ctl path liveness os f : op_fresh f (ListenerCreate listen path 64) -> validLivenessConfig liveness = true ->
  match create_server listen epoll_create ctl path liveness os f with
  | (Ret s, f') => ul_socket_path (sv_listener s) = path /\ owns f (owned_paths (sv_listener s)) (owned_fds (sv_listener s)) f' /\ sv_liveness s = liveness
  | (Throw _, f') => f' = f
  | (Undef, _) => False
  end.
Proof.
  intros Hfresh Hlive. pose proof (create_owns f listen path 64 [] [] f Hfresh (owns_self f)) as Hown. unfold create_server. unfold mbind, cpp_bind.
  destruct (create_listener listen path 64 f) as [[l|e|] f1]; [|by apply files_eq in Hown|done]. destruct Hown as [Hp Hown]. rewrite !app_nil_r in Hown.
  assert (Hfails : forall e, match (cleanup_listener l;; throw (A := ServerState) e) f1 with (Throw _, f') => f' = f | _ => False end).
  { intros e. pose proof (cleanup_owns f l [] [] f1) as Hc. rewrite !app_nil_r in Hc. specialize (Hc Hown). apply wp_run in Hc as (l' & f2 & Hrun & Ho & _).
    unfold mbind, cpp_bind, throw. rewrite Hrun. by apply files_eq. }
  assert (Hpath : ul_socket_path l = path) by (unfold owned_paths in Hp; destruct (ul_owns_path l); by simplify_eq).
  unfold create_registry. rewrite Hlive. cbn [negb].
  destruct epoll_create as [errno|], ctl as [errno'|];
    try (match goal with |- context [throw (ex_system_error ?errno)] => pose proof (Hfails (ex_system_error errno)) as H end;
         unfold mbind, cpp_bind in H; by destruct (cleanup_listener l f1) as [[]]).
  by split_and!.
Qed.

(** ** Theorems *)

(** The daemon answers its clients until it is stopped, and leaves nothing behind.  Whatever its
    arguments are, whatever the kernel answers to the construction of the server and whatever clients
    do in any number of rounds, as long as polling and accepting report no error, it exits, with status 0 exactly when the options were valid and
    the server could be constructed; the socket path was announced exactly then, and path and descriptor
    are gone in the end. *)
Theorem daemon_leaves_nothing env args f :
  op_fresh f (ListenerCreate (de_listen env) "" 64) -> os_fine (de_os env) -> Forall accept_fine (os_accepts (de_os env)) ->
  Forall round_fine (de_rounds env) -> Forall round_calm (de_rounds env) ->
  unread_bytes (de_os env) + bytes_of (de_rounds env) <= 2 ^ 64 - 2 ->
  exists status out, daemon_main env args f = (Ret (status, out), f) /\ (status = 0 \/ status = 1) /\
    (status = 0 <-> exists options server f', parseOptions args = Ret options /\
       create_server (de_listen env) (de_epoll_create env) (de_epoll_ctl env) (op_socket_path options) (op_liveness options) (de_os env) f = (Ret server, f') /\
       out = ["registry_socket=" +:+ op_socket_path options]) /\
    (status = 1 -> out = []).
Proof.
  intros Hfresh Hos Hacc Hrounds Hcalm Hbudget. unfold daemon_main, attempt. unfold mbind at 1, cpp_bind at 1. unfold mbind at 1, cpp_bind at 1, lift.
  pose proof (parseOptions_spec args) as Hopt. destruct (parseOptions args) as [options|e|]; [| |done].
  2: { exists 1, []. split_and!; [done | by right | | done]. split; [done|]. by intros (? & ? & ? & ? & _). }
  pose proof (create_server_owns (de_listen env) (de_epoll_create env) (de_epoll_ctl env) (op_socket_path options) (op_liveness options) (de_os env) f Hfresh Hopt) as Hown.
  destruct (create_server _ _ _ _ _ _ f) as [[server|e|] f1] eqn:Hcreate; [| |done].
  2: { subst f1. exists 1, []. split_and!; [done | by right | | done]. split; [done|]. intros (o & s & f' & [= <-] & Hc & _). congruence. }
  destruct Hown as (Hpath & Hown & _). pose proof (bytes_of_nonneg _ Hrounds) as Hpos.
  pose proof (create_server_inv _ _ _ _ _ _ _ _ _ _ Hcreate Hos Hpos Hbudget) as Hinv.
  assert (Hr : Forall round_fine (map daemon_round (de_rounds env))).
  { apply List.Forall_map. eapply list.Forall_impl; [exact Hrounds|]. intros r [Hw Hb]. by split. }
  assert (Hc : Forall round_calm (map daemon_round (de_rounds env))).
  { apply List.Forall_map. eapply list.Forall_impl; [exact Hcalm|]. intros r [Ha Hwait]. by split. }
  assert (Hbytes : bytes_of (map daemon_round (de_rounds env)) = bytes_of (de_rounds env)).
  { clear. induction (de_rounds env) as [|r rounds IH]; [done|]. simpl. by rewrite IH. }
  rewrite <- Hbytes in Hinv. rewrite <- (create_server_accepts _ _ _ _ _ _ _ _ _ Hcreate) in Hacc.
  pose proof (rounds_wp _ server Hr Hc Hacc Hinv) as Hwp. clear Hc. apply wp_run in Hwp as ([] & server' & -> & _ & Hl).
  pose proof (cleanup_owns f (sv_listener server') [] [] f1) as Hc. rewrite !app_nil_r, Hl in Hc. specialize (Hc Hown).
  apply wp_run in Hc as (l' & f2 & Hrun & Ho & _). apply files_eq in Ho as ->. exists 0, ["registry_socket=" +:+ op_socket_path options].
  unfold mbind, cpp_bind. rewrite Hl, Hrun. rewrite Hpath. split_and!; [done | by left | | done]. split; [|done]. intros _. by exists options, server, f1.
Qed.

(** The settings the options make. *)
Inductive setting := SetSocket (path : string) | SetHeartbeat (ms : Z) | SetSuspect (ms : Z) | SetDead (ms : Z).
Definition setting_args (s : setting) : list string :=
  match s with
  | SetSocket path => ["--socket"%string; path]
  | SetHeartbeat ms => ["--heartbeat-interval-ms"%string; pretty ms]
  | SetSuspect ms => ["--suspect-timeout-ms"%string; pretty ms]
  | SetDead ms => ["--dead-timeout-ms"%string; pretty ms]
  end.
Definition apply_setting (options : Options) (s : setting) : Options :=
  match s with
  | SetSocket path => mkOptions path (op_liveness options)
  | SetHeartbeat ms => mkOptions (op_socket_path options) (mkLivenessConfig ms (suspect_timeout (op_liveness options)) (dead_timeout (op_liveness options)))
  | SetSuspect ms => mkOptions (op_socket_path options) (mkLivenessConfig (heartbeat_interval (op_liveness options)) ms (dead_timeout (op_liveness options)))
  | SetDead ms => mkOptions (op_socket_path options) (mkLivenessConfig (heartbeat_interval (op_liveness options)) (suspect_timeout (op_liveness options)) ms)
  end.
Definition setting_positive (s : setting) : Prop :=
  match s with SetSocket _ => True | SetHeartbeat ms | SetSuspect ms | SetDead ms => 0 < ms < 2 ^ 63 end.

Lemma settings_loop settings : forall options, Forall setting_positive settings ->
  option_loop (flat_map setting_args settings) options = Ret (foldl apply_setting options settings).
Proof.
  induction settings as [|s settings IH]; intros options Hs; [done|]. apply Forall_cons_1 in Hs as [H1 Hs].
  destruct s as [path|ms|ms|ms]; simpl in H1 |- *; unfold set_option; simpl; rewrite ?parsePositive_pretty by done; cbn [mbind outcome_bind]; by apply IH.
Qed.

(** Printed settings are read back: in any order and number, the last one of each option counts, and
    the result is accepted exactly when its liveness timings are in order. *)
Theorem daemon_options_round_trip settings : Forall setting_positive settings ->
  parseOptions (flat_map setting_args settings) =
    let options := foldl apply_setting default_options settings in
    if validLivenessConfig (op_liveness options) then Ret options else Throw ex_invalid_argument.
Proof.
  intros Hs. unfold parseOptions. rewrite settings_loop by done. cbn [mbind outcome_bind]. cbv zeta. by destruct (validLivenessConfig _).
Qed.

(** ** A run *)

Definition example_daemon : daemon_env := mkDaemonEnv (example_listen 3 None) None None idle_os example_rounds.

Lemma daemon_leaves_nothing_witness :
  daemon_main example_daemon ["--socket"; "/run/mw"; "--dead-timeout-ms"; "3000"]%string (mkSocketFiles ∅ ∅) = (Ret (0, ["registry_socket=/run/mw"%string]), mkSocketFiles ∅ ∅).
Proof.
  destruct (daemon_leaves_nothing example_daemon ["--socket"; "/run/mw"; "--dead-timeout-ms"; "3000"]%string (mkSocketFiles ∅ ∅)) as (status & out & Hrun & _ & Hiff & _).
  - simpl. split; [lia|]. vm_compute. discriminate.
  - exact idle_os_fine.
  - constructor.
  - exact example_rounds_fine.
  - exact example_rounds_calm.
  - by vm_compute.
  - assert (Hret : (match daemon_main example_daemon ["--socket"; "/run/mw"; "--dead-timeout-ms"; "3000"]%string (mkSocketFiles ∅ ∅) with (Ret (c, o), _) => (c, o) | _ => (2, []) end) =
      (0, ["registry_socket=/run/mw"%string])) by (vm_compute; reflexivity).
    rewrite Hrun in Hret. injection Hret as -> ->. exact Hrun.
Defined.

Lemma daemon_options_round_trip_witness :
  parseOptions ["--socket"; "/run/mw"; "--dead-timeout-ms"; "9000"; "--suspect-timeout-ms"; "800"; "--dead-timeout-ms"; "3000"]%string =
  Ret (mkOptions "/run/mw" (mkLivenessConfig 250 800 3000)).
Proof.
  apply (daemon_options_round_trip [SetSocket "/run/mw"; SetDead 9000; SetSuspect 800; SetDead 3000]). repeat constructor; lia.
Defined.
