(* ===== verification/Mwctl.v ===== *)
(** * The command-line tool [mwctl]

    [tools/mwctl/main.cpp]: the commands, the registry calls they make, the text they print and the exit
    status; and that what is printed is what the registry of the server holds. *)

From Stdlib Require Import ZArith Lia Bool String Ascii.
From stdpp Require Import base gmap list sorting strings option pretty.
From S2P Require Import Prelude Types Outcome BigEndian ControlProtocol SocketIo PublisherState SubscriberInvariant RegistryState RegistryInvariant RegistryOps RegistryInterface RegistryNames RegistryServer ServerInvariant ServerRequests ServerTheorems RegistryClient ClientInvariant ClientStreams ClientBodies ClientTheorems ClientServer.

Local Open Scope Z_scope.

(** ** Text *)

Definition tab : string := String "009" EmptyString.
Definition newline : string := String "010" EmptyString.

(** [name: value] on a line *)
Definition entry (name value : string) : string := name +:+ ": " +:+ value +:+ newline.

Definition stats_text (stats : RegistryStatsInfo) : string :=
  entry "nodes" (pretty (si_node_count stats)) +:+
  entry "topics" (pretty (si_topic_count stats)) +:+
  entry "publishers" (pretty (si_publisher_count stats)) +:+
  entry "subscribers" (pretty (si_subscriber_count stats)) +:+
  entry "endpoints" (pretty (wrap 64 (si_publisher_count stats + si_subscriber_count stats))) +:+
  entry "heartbeats_received" (pretty (si_heartbeat_received stats)) +:+
  entry "suspected_transitions" (pretty (si_suspected_count stats)) +:+
  entry "dead_nodes" (pretty (si_dead_node_count stats)).

Definition lines {A} (line : A -> string) (l : list A) : string := foldr (fun a text => line a +:+ text) EmptyString l.

Definition node_line (node : RegistryNodeInfo) : string :=
  pretty (ni_node_id node) +:+ tab +:+ ni_node_name node +:+ tab +:+ livenessStateName (ni_liveness node) +:+ newline.
Definition nodes_text (nodes : list RegistryNodeInfo) : string :=
  "NODE_ID" +:+ tab +:+ "NODE_NAME" +:+ tab +:+ "STATE" +:+ newline +:+ lines node_line nodes.

Definition topic_line (topic : RegistryTopicInfo) : string :=
  pretty (ti_topic_id topic) +:+ tab +:+ ti_topic_name topic +:+ newline.
Definition topics_text (topics : list RegistryTopicInfo) : string :=
  "TOPIC_ID" +:+ tab +:+ "TOPIC_NAME" +:+ newline +:+ lines topic_line topics.

Definition topic_text (topic : RegistryTopicInfo) : string :=
  entry "topic_id" (pretty (ti_topic_id topic)) +:+
  entry "topic_name" (ti_topic_name topic) +:+
  entry "type_name" (ti_type_name topic) +:+
  entry "type_hash" (ti_type_hash topic) +:+
  entry "transport" (transportTypeName (ti_transport topic)) +:+
  entry "max_message_size" (pretty (ti_max_message_size topic)) +:+
  entry "publishers" (pretty (ti_publisher_count topic)) +:+
  entry "subscribers" (pretty (ti_subscriber_count topic)) +:+
  if string_size (pd_shm_name (ti_pool topic)) =? 0 then EmptyString else
    entry "pool_name" (pd_shm_name (ti_pool topic)) +:+
    entry "pool_id" (pretty (pd_pool_id (ti_pool topic))) +:+
    entry "pool_segment_size" (pretty (pd_segment_size (ti_pool topic))) +:+
    entry "pool_layout_version" (pretty (pd_layout_version (ti_pool topic))).

(** ** Commands *)

(** What the kernel answers to the connection, and the connection. *)
Record ctl_env := mkCtlEnv {
  cv_connect : connect_answer;
  cv_link : Link;
}.

(** How [run] returns: with the usage on the standard error and 2, or with a text on the standard
    output and 0. *)
Inductive ctl_end := Usage | Printed (text : string).

(** A call of the client that was constructed. *)
Definition on_registry {A} (env : ctl_env) (c : RegistryClient) (call : client A) : outcome A :=
  fst (call (mkClientState c (cv_link env))).

Definition run_command (env : ctl_env) (config : RegistryConfig) (args : list string) : outcome ctl_end :=
  match args with
  | [] => Ret Usage
  | [command] =>
      if String.eqb command "stats" then
        c ← create_client (cv_connect env) config;
        stats ← on_registry env c queryStats;
        Ret (Printed (stats_text stats))
      else Ret Usage
  | resource :: command :: args =>
      c ← create_client (cv_connect env) config;
      if String.eqb resource "node" && String.eqb command "list" && bool_decide (args = []) then
        nodes ← on_registry env c RegistryClient.listNodes;
        Ret (Printed (nodes_text nodes)) else
      if String.eqb resource "topic" && String.eqb command "list" && bool_decide (args = []) then
        topics ← on_registry env c RegistryClient.listTopics;
        Ret (Printed (topics_text topics)) else
      match args with
      | [name] =>
          if String.eqb resource "topic" && String.eqb command "info" then
            topic ← on_registry env c (RegistryClient.queryTopic name);
            Ret (Printed (topic_text topic))
          else Ret Usage
      | _ => Ret Usage
      end
  end.

Definition default_registry_path : string := "/tmp/mw_registry.sock".

Definition run (env : ctl_env) (args : list string) : outcome ctl_end :=
  let config path := mkRegistryConfig path 2000 default_liveness in
  match args with
  | first :: rest =>
      if String.eqb first "--registry" then
        match rest with
        | [] => Ret Usage
        | path :: rest => run_command env (config path) rest
        end
      else run_command env (config default_registry_path) args
  | [] => run_command env (config default_registry_path) []
  end.

(** The exit status and the standard output. *)
Definition ctl_main (env : ctl_env) (args : list string) : outcome (Z * string) :=
  match run env args with
  | Ret Usage => Ret (2, EmptyString)
  | Ret (Printed text) => Ret (0, text)
  | Throw _ => Ret (1, EmptyString)
  | Undef => Undef
  end.

(** ** Exit status *)

Lemma create_client_ok env config : link_ok (cv_link env) -> rf_request_timeout config < 2 ^ 40 ->
  match create_client (cv_connect env) config with
  | Ret c => client_state_ok (mkClientState c (cv_link env))
  | Throw _ => True
  | Undef => False
  end.
Proof.
  intros Hk Ht. destruct (create_client (cv_connect env) config) as [c|e|] eqn:Hc; [by eapply create_client_state | done |].
  unfold create_client, connectUnixSocket, makeAddress, createSocket in Hc. by repeat (case_match; try done; simplify_eq/=).
Qed.

(** The calls of [mwctl] return or throw. *)
Lemma on_registry_defined {A} env c (call : client A) named : client_state_ok (mkClientState c (cv_link env)) ->
  run_call named = (call;; mret tt) -> on_registry env c call <> Undef.
Proof.
  intros Hok Hcall. pose proof (run_call_ok named _ Hok) as He. rewrite Hcall in He. unfold ends, on_registry in *. unfold_cpp.
  by destruct (call _) as [[a|e|] s'].
Qed.

Lemma bind_defined {A B} (o : outcome A) (k : A -> outcome B) : o <> Undef -> (forall a, k a <> Undef) -> (o ≫= k) <> Undef.
Proof. intros Ho Hk. destruct o as [a|e|]; [apply Hk | done | done]. Qed.

Lemma run_command_defined env config args : link_ok (cv_link env) -> rf_request_timeout config < 2 ^ 40 -> run_command env config args <> Undef.
Proof.
  intros Hk Ht. pose proof (create_client_ok env config Hk Ht) as Hc. unfold run_command.
  destruct args as [|resource [|command args]]; [done | |].
  - destruct (String.eqb _ _); [|done]. destruct (create_client _ _) as [c|e|]; [|done|done]. cbn [mbind outcome_bind].
    apply bind_defined; [by apply (on_registry_defined env c _ CallQueryStats) | done].
  - destruct (create_client _ _) as [c|e|]; [|done|done]. cbn [mbind outcome_bind].
    destruct (_ && _ && _); [apply bind_defined; [by apply (on_registry_defined env c _ CallListNodes) | done]|].
    destruct (_ && _ && _); [apply bind_defined; [by apply (on_registry_defined env c _ CallListTopics) | done]|].
    destruct args as [|name [|]]; [done | | done]. destruct (_ && _); [|done].
    apply bind_defined; [by apply (on_registry_defined env c _ (CallQueryTopic name)) | done].
Qed.

(** ** Queries *)

Inductive query := QueryCounts | QueryNodes | QueryTopics | QueryInfo (topic : string).

Definition query_args (q : query) : list string :=
  match q with
  | QueryCounts => ["stats"]
  | QueryNodes => ["node"; "list"]
  | QueryTopics => ["topic"; "list"]
  | QueryInfo topic => ["topic"; "info"; topic]
  end%string.

(** The request on the wire. *)
Definition query_opcode (q : query) : Opcode :=
  match q with QueryCounts => QueryStats | QueryNodes => ListNodes | QueryTopics => ListTopics | QueryInfo _ => QueryTopic end.
Definition query_fields (q : query) : list field := match q with QueryInfo topic => [FStr topic] | _ => [] end.

(** What the registry holds. *)
Definition nodes_of (t : RegistryState) : list NodeRecord := merge_sort (name_le node_name) (map_records (nodes_ t)).
Definition topics_of (t : RegistryState) : list TopicRecord := merge_sort (name_le topic_name) (map_records (topics_ t)).
Definition topic_named (name : string) (t : RegistryState) : option TopicRecord := topic_names_ t !! name ≫= fun id => topics_ t !! id.
Definition stats_in (t : RegistryState) : RegistryStatsSnapshot :=
  mkRegistryStatsSnapshot (Z.of_nat (size (nodes_ t))) (Z.of_nat (size (topics_ t))) (Z.of_nat (size (publishers_ t)))
    (Z.of_nat (size (subscribers_ t))) (heartbeat_received (metrics_ t)) (suspected_count (metrics_ t)) (dead_node_count (metrics_ t)).

(** What [mwctl] has to print about it, and the exit status. *)
Definition report (q : query) (t : RegistryState) : Z * string :=
  match q with
  | QueryCounts => (0, stats_text (stats_of (stats_in t)))
  | QueryNodes => (0, nodes_text (map node_of_record (nodes_of t)))
  | QueryTopics => (0, topics_text (map topic_of_record (topics_of t)))
  | QueryInfo topic => match topic_named topic t with Some T => (0, topic_text (topic_info_of T)) | None => (1, EmptyString) end
  end.

(** The response. *)
Definition answer_error (q : query) (t : RegistryState) : ErrorCode :=
  match q with QueryInfo topic => match topic_named topic t with Some _ => Ok | None => TopicNotFound end | _ => Ok end.
Definition answer_fields (q : query) (t : RegistryState) : list field :=
  match q with
  | QueryCounts => stats_fields (stats_in t)
  | QueryNodes => FU32 (wrap 32 (Z.of_nat (length (nodes_of t)))) :: flat_map node_fields (nodes_of t)
  | QueryTopics => FU32 (wrap 32 (Z.of_nat (length (topics_of t)))) :: flat_map topic_fields (topics_of t)
  | QueryInfo topic => match topic_named topic t with Some T => topic_info_fields T | None => [] end
  end.

(** The answer fits the types of its fields and a frame, and the states in it are those of listed
    nodes and valid topics. *)
Record reportable (q : query) (t : RegistryState) : Prop := {
  rp_typed : Forall field_typed (answer_fields q t);
  rp_size : Z.of_nat (length (fields_bytes (answer_fields q t))) <= kMaxControlPayloadSize - 262;
  rp_nodes : Forall (fun node => liveness node = Alive \/ liveness node = Suspected) (nodes_of t);
  rp_topics : map_Forall (fun _ T => TransportType_of_u16 (TransportType_to_u16 (topic_transport T)) = topic_transport T) (topics_ t);
}.

(** The body the handler writes is the answer. *)
Ltac writes_answer Hty :=
  match type of Hty with Forall field_typed ?answer =>
    match goal with |- context [write_body ?fields] =>
      assert (write_body fields = Ret (fields_bytes answer)) as -> by exact (write_body_typed answer Hty) end end.

(** The server answers with it. *)
Lemma query_dispatched fd c q cs s : server_ok s -> sv_clients s !! fd = Some c -> wire_ok (query_fields q) -> reportable q (sv_state s) ->
  exists frame s', response_frame (rc_next_request_id (cs_client cs)) (answer_error q (sv_state s)) (fields_bytes (answer_fields q (sv_state s))) = Ret frame /\
    runs (dispatch fd (next_header cs (query_opcode q) (query_fields q)) (fields_bytes (query_fields q))) s tt s' /\ answers fd c frame (sv_state s) s'.
Proof.
  intros Hok Hc Hw [Hty Hsize _ _]. destruct (response_frame_ok (rc_next_request_id (cs_client cs)) (answer_error q (sv_state s)) (fields_bytes (answer_fields q (sv_state s)))) as (frame & Hframe & _).
  destruct (respond_answers fd c (rc_next_request_id (cs_client cs)) (answer_error q (sv_state s)) (fields_bytes (answer_fields q (sv_state s))) frame (sv_state s) s)
    as (s' & Hq & Hans); [apply Hok|done|done|done|].
  exists frame, s'. split_and!; [done| |done]. unfold runs, dispatch. unfold mbind at 1, cpp_bind at 1. rewrite (clients_at_run _ _ _ Hc).
  assert (Hset : s <| sv_state := sv_state s |> = s) by (by destruct s).
  destruct q as [| | |topic]; cbn [next_header ctl_opcode query_opcode];
    [unfold handle_QueryStats | unfold handle_ListNodes | unfold handle_ListTopics | unfold handle_QueryTopic];
    [rewrite (reads_request fd _ (query_fields QueryCounts)) by done | rewrite (reads_request fd _ (query_fields QueryNodes)) by done
    |rewrite (reads_request fd _ (query_fields QueryTopics)) by done | rewrite (reads_request fd _ (query_fields (QueryInfo topic))) by done];
    cbn [query_fields]; unfold_cpp; unfold on_state.
  - change (statsSnapshot (sv_state s)) with (Ret (stats_in (sv_state s)), sv_state s). cbv beta iota. rewrite Hset.
    by writes_answer Hty.
  - change (RegistryState.listNodes (sv_state s)) with (Ret (nodes_of (sv_state s)), sv_state s). cbv beta iota. rewrite Hset.
    by writes_answer Hty.
  - change (RegistryState.listTopics (sv_state s)) with (Ret (topics_of (sv_state s)), sv_state s). cbv beta iota. rewrite Hset.
    by writes_answer Hty.
  - pose proof (queryTopic_runs (sv_state s) topic (vo_registry _ Hok)) as Hrun. unfold runs in Hrun. rewrite Hrun. cbv beta iota. rewrite Hset.
    fold (topic_named topic (sv_state s)). unfold answer_fields, answer_error in *. destruct (topic_named topic (sv_state s)); [|done].
    by writes_answer Hty.
Qed.

Definition query_config (path : string) : RegistryConfig := mkRegistryConfig path 2000 default_liveness.

Lemma created_ready answer path c link : create_client answer (query_config path) = Ret c -> delivering link -> so_replies (ln_socket link) = [] ->
  ready (mkClientState c link).
Proof.
  intros Hc Hk Hr. unfold create_client in Hc. repeat (case_match; try done). simplify_eq. split; [split; [by eexists|simpl; lia]| |done|done].
  unfold timeout_ok. simpl. lia.
Qed.

(** The client's call ends with what the response holds. *)
Lemma query_received {A} q (call : client A) parse (value : A) t frame rest env c :
  call = (body ← ask (query_opcode q) (query_fields q); lift (parse body)) ->
  (answer_error q t = Ok -> parse (fields_bytes (answer_fields q t)) = Ret value) ->
  ready (mkClientState c (cv_link env)) -> wire_ok (query_fields q) -> reportable q t ->
  response_frame (rc_next_request_id c) (answer_error q t) (fields_bytes (answer_fields q t)) = Ret frame ->
  link_stream (cv_link env) = frame ++ rest ->
  on_registry env c call = result_of (answer_error q t) value.
Proof.
  intros -> Hparse Hready Hw [_ Hsize _ _] Hframe Hstr.
  assert (Herr : error_known (answer_error q t)) by (destruct q; try done; simpl; by destruct (topic_named _ _)).
  destruct (ask_round_trip (query_opcode q) (query_fields q) parse (answer_error q t) (fields_bytes (answer_fields q t)) frame rest (mkClientState c (cv_link env)) Hready Hw Herr) as (cs' & Hrun & _);
    [unfold kMaxControlPayloadSize in *; lia | done | done |].
  unfold on_registry. rewrite Hrun. simpl. by apply answer_parsed.
Qed.

(** The client's parsers read the answers back. *)
Section parsers.
Context (t : RegistryState).

Lemma counts_parsed : reportable QueryCounts t -> parse_body stats_reader (fields_bytes (answer_fields QueryCounts t)) = Ret (stats_of (stats_in t)).
Proof. intros [Hty Hsize _ _]. apply parse_closes; [by apply stats_closes|]. unfold kMaxControlPayloadSize in *. lia. Qed.

Lemma nodes_parsed (body := fields_bytes (answer_fields QueryNodes t)) : reportable QueryNodes t ->
  parse_body (list_reader (length body) node_reader) body = Ret (map node_of_record (nodes_of t)).
Proof.
  intros [Hty Hsize Hst _]. apply parse_closes; [|unfold kMaxControlPayloadSize in *; lia]. apply list_closes; [done| |].
  - intros node Hnode. rewrite list.Forall_forall in Hst. by apply node_back, Hst.
  - split; [done|]. unfold kMaxControlPayloadSize in *. change (answer_fields QueryNodes t) with (FU32 (wrap 32 (Z.of_nat (length (nodes_of t)))) :: flat_map node_fields (nodes_of t)) in Hsize. lia.
Qed.

Lemma topics_parsed (body := fields_bytes (answer_fields QueryTopics t)) : reportable QueryTopics t ->
  parse_body (list_reader (length body) topic_reader) body = Ret (map topic_of_record (topics_of t)).
Proof.
  intros [Hty Hsize _ _]. apply parse_closes; [|unfold kMaxControlPayloadSize in *; lia]. apply list_closes; [done| |].
  - intros topic _. apply topic_back.
  - split; [done|]. unfold kMaxControlPayloadSize in *. change (answer_fields QueryTopics t) with (FU32 (wrap 32 (Z.of_nat (length (topics_of t)))) :: flat_map topic_fields (topics_of t)) in Hsize. lia.
Qed.

Lemma info_parsed topic T : topic_named topic t = Some T -> reportable (QueryInfo topic) t ->
  parse_body topic_info_reader (fields_bytes (answer_fields (QueryInfo topic) t)) = Ret (topic_info_of T).
Proof.
  intros HT [Hty Hsize _ Htr]. unfold answer_fields in *. rewrite HT in *. apply parse_closes; [|unfold kMaxControlPayloadSize in *; lia].
  apply topic_info_closes; [done|]. apply bind_Some in HT as (id & _ & HT). exact (Htr _ _ HT).
Qed.
End parsers.

(** ** Theorems *)

(** C12: [mwctl] shows what the registry holds.  The request of each command is dispatched by the server
    without changing its registry, and when the response reaches the tool it prints exactly the counts, the
    nodes, the topics or the topic that the registry holds, and exits with 0; a topic that does not
    exist gives no output and status 1. *)
Theorem mwctl_reports_the_registry fd conn q env path s c :
  server_ok s -> sv_clients s !! fd = Some conn -> wire_ok (query_fields q) -> reportable q (sv_state s) ->
  create_client (cv_connect env) (query_config path) = Ret c -> delivering (cv_link env) -> so_replies (ln_socket (cv_link env)) = [] ->
  exists frame s',
    runs (dispatch fd (next_header (mkClientState c (cv_link env)) (query_opcode q) (query_fields q)) (fields_bytes (query_fields q))) s tt s' /\
    answers fd conn frame (sv_state s) s' /\
    forall rest, link_stream (cv_link env) = frame ++ rest ->
      ctl_main env ("--registry"%string :: path :: query_args q) = Ret (report q (sv_state s)).
Proof.
  intros Hok Hconn Hw Hrep Hc Hk Hr. pose proof (created_ready _ _ _ _ Hc Hk Hr) as Hready.
  destruct (query_dispatched fd conn q (mkClientState c (cv_link env)) s Hok Hconn Hw Hrep) as (frame & s' & Hframe & Hdisp & Hans).
  exists frame, s'. split_and!; [done|done|]. intros rest Hstr.
  pose proof (fun A call parse value Hcall Hparse => query_received (A := A) q call parse value (sv_state s) frame rest env c Hcall Hparse Hready Hw Hrep Hframe Hstr) as Hrecv.
  unfold ctl_main, run. cbn [String.eqb Ascii.eqb Bool.eqb andb]. fold (query_config path). unfold run_command.
  destruct q as [| | |topic]; simpl; rewrite Hc; cbn [mbind outcome_bind].
  - by rewrite (Hrecv _ queryStats _ (stats_of (stats_in (sv_state s))) eq_refl) by (intros _; by apply counts_parsed).
  - by rewrite (Hrecv _ RegistryClient.listNodes _ (map node_of_record (nodes_of (sv_state s))) eq_refl) by (intros _; by apply nodes_parsed).
  - by rewrite (Hrecv _ RegistryClient.listTopics _ (map topic_of_record (topics_of (sv_state s))) eq_refl) by (intros _; by apply topics_parsed).
  - destruct (topic_named topic (sv_state s)) as [T|] eqn:HT.
    + rewrite (Hrecv _ (RegistryClient.queryTopic topic) _ (topic_info_of T) eq_refl) by (intros _; by apply info_parsed).
      simpl. by rewrite HT.
    + rewrite (Hrecv _ (RegistryClient.queryTopic topic) (parse_body topic_info_reader) (mkRegistryTopicInfo 0 "" "" "" UnixDomainSocket 0 0 0 empty_PoolDescriptor) eq_refl) by (simpl; rewrite HT; done).
      simpl. by rewrite HT.
Qed.

(** [mwctl] always exits, with 0, 1 or 2, and prints to the standard output only with 0.  Without a
    command it exits with 2 whether or not there is a registry; a command of two words or more that does
    not exist exits with 2 only if the registry could be reached, and with 1 otherwise. *)
Theorem mwctl_exits env args : link_ok (cv_link env) ->
  (exists status text, ctl_main env args = Ret (status, text) /\ (status = 0 \/ status = 1 \/ status = 2) /\ (status <> 0 -> text = EmptyString)) /\
  (args = [] \/ args = ["--registry"%string] \/ (exists path, args = ["--registry"%string; path]) -> ctl_main env args = Ret (2, EmptyString)) /\
  (forall resource command more, resource <> "--registry"%string -> resource <> "node"%string -> resource <> "topic"%string ->
     args = resource :: command :: more ->
     ctl_main env args = Ret (match create_client (cv_connect env) (query_config default_registry_path) with Ret _ => 2 | _ => 1 end, EmptyString)).
Proof.
  intros Hk. split_and!.
  - unfold ctl_main. assert (Hrun : run env args <> Undef).
    { unfold run. destruct args as [|first rest]; [done|]. destruct (String.eqb _ _); [destruct rest; [done|]|]; by apply run_command_defined. }
    destruct (run env args) as [[|text]|e|]; [exists 2, EmptyString | exists 0, text | exists 1, EmptyString | done]; split_and!; auto; done.
  - by intros [-> | [-> | [path ->]]].
  - intros resource command more Hreg Hnode Htopic ->. unfold ctl_main, run. rewrite (proj2 (String.eqb_neq _ _) Hreg). unfold run_command.
    fold (query_config default_registry_path).
    pose proof (create_client_ok env (query_config default_registry_path) Hk ltac:(simpl; lia)) as Hc.
    destruct (create_client _ _) as [c|e|]; [|done|done]. cbn [mbind outcome_bind].
    rewrite (proj2 (String.eqb_neq _ _) Hnode), (proj2 (String.eqb_neq _ _) Htopic). cbn [andb]. by destruct more as [|? []].
Qed.

(** ** A report *)

Definition ctl_env_of (frame : list Z) : ctl_env := mkCtlEnv (mkConnectAnswer (inl 7) None) (cs_link (waiting_client frame)).
Definition nodes_answer : list Z :=
  put_out (dispatch 5 (next_header (waiting_client []) ListNodes []) [] registered_server).

Lemma registered_reportable : reportable QueryNodes (sv_state registered_server).
Proof.
  split.
  - assert (Hf : answer_fields QueryNodes (sv_state registered_server) =
      [FU32 2; FU64 1; FStr "camera"; FU16 1; FU64 2; FStr "viewer"; FU16 1]) by (vm_compute; reflexivity).
    rewrite Hf. repeat (apply list.Forall_cons; split; [unfold field_typed, fits; (lia || by vm_compute)|]). by apply list.Forall_nil.
  - by vm_compute.
  - apply (list.Forall_impl (fun node => liveness node = Alive)); [|by left].
    apply (List.Forall_map liveness (fun l => l = Alive)).
    assert (Hl : map liveness (nodes_of (sv_state registered_server)) = [Alive; Alive]) by (vm_compute; reflexivity). rewrite Hl. by repeat constructor.
  - apply (bool_decide_unpack _). vm_compute. exact I.
Qed.

Definition nodes_report : string :=
  "NODE_ID" +:+ tab +:+ "NODE_NAME" +:+ tab +:+ "STATE" +:+ newline +:+
  "1" +:+ tab +:+ "camera" +:+ tab +:+ "ALIVE" +:+ newline +:+ "2" +:+ tab +:+ "viewer" +:+ tab +:+ "ALIVE" +:+ newline.

Lemma mwctl_reports_the_registry_witness :
  ctl_main (ctl_env_of nodes_answer) ["--registry"; "/run/mw"; "node"; "list"]%string = Ret (0, nodes_report).
Proof.
  destruct (mwctl_reports_the_registry 5 fresh_client QueryNodes (ctl_env_of nodes_answer) "/run/mw" registered_server (mkRegistryClient (Some 7) 2000 1))
    as (frame & s' & Hdisp & Hans & Hprint).
  - exact (waiting_server_ok _ subscribe_ops_ok).
  - by vm_compute.
  - by split; [constructor|vm_compute].
  - exact registered_reportable.
  - reflexivity.
  - apply waiting_client_ready. vm_compute. lia.
  - reflexivity.
  - pose proof (put_out_frame _ _ _ _ _ Hdisp Hans) as Hframe. pose proof (Hprint []) as Hmain. unfold query_args in Hmain. rewrite Hmain.
    + vm_compute. reflexivity.
    + change (cv_link (ctl_env_of nodes_answer)) with (cs_link (waiting_client nodes_answer)). rewrite waiting_client_stream, <- Hframe. reflexivity.
Defined.

Lemma mwctl_exits_witness : ctl_main (mkCtlEnv (mkConnectAnswer (inl 7) (Some 111)) (cs_link (waiting_client []))) ["registry"; "list"]%string = Ret (1, EmptyString).
Proof.
  destruct (mwctl_exits (mkCtlEnv (mkConnectAnswer (inl 7) (Some 111)) (cs_link (waiting_client []))) ["registry"; "list"]%string) as (_ & _ & H).
  - split; simpl; [|constructor| |done].
    + constructor; [constructor|]. constructor; [constructor|constructor].
    + constructor; [unfold clock_ok; lia|constructor].
  - exact (H "registry"%string "list"%string [] ltac:(discriminate) ltac:(discriminate) ltac:(discriminate) eq_refl).
Defined.
