(* ===== verification/Ping.v ===== *)
(** * The ping examples

    [examples/ping_common.hpp] and the programs [ping_publisher] and [ping_subscriber]: their options, the
    payload they agree on, and their loops around a publisher and a subscriber of a context. *)

From Stdlib Require Import ZArith Lia Bool String Ascii.
From stdpp Require Import base gmap list strings option pretty.
From S2P Require Import Prelude Types Outcome Decimal QueueProtocol MemoryPool SubscriberQueue PublisherState Publisher SubscriberState Subscriber RegistryClient RegistrySession Context.

Local Open Scope Z_scope.

(** ** Options *)

Record PingOptions := mkPingOptions {
  po_node_name : string;
  po_registry_path : string;
  po_socket_path : string;
  po_topic : string;
  po_type_name : string;
  po_type_hash : string;
  po_count : Z;
  po_payload_size : Z;
  po_timeout : Z;
  po_transport : TransportType;
}.
#[export] Instance PingOptions_eta : Eta PingOptions := fun o =>
  mkPingOptions (po_node_name o) (po_registry_path o) (po_socket_path o) (po_topic o) (po_type_name o) (po_type_hash o)
    (po_count o) (po_payload_size o) (po_timeout o) (po_transport o).

Definition default_ping_options : PingOptions :=
  mkPingOptions "" "" "/tmp/cpp_robot_middleware_ping.sock" "/ping" "mw.examples.Ping" "mw.examples.Ping.v1" 1 64 5000 UnixDomainSocket.

Definition parseSize (text : string) : outcome Z :=
  match from_chars 64 text with
  | Some (value, EmptyString) => Ret value
  | _ => Throw ex_invalid_argument
  end.

(** [std::chrono::milliseconds{timeout}]: a [std::size_t] becomes a signed 64-bit number. *)
Definition milliseconds (timeout : Z) : Z := if timeout <? 2 ^ 63 then timeout else timeout - 2 ^ 64.

Definition set_ping_option (name value : string) (options : PingOptions) : outcome PingOptions :=
  if String.eqb name "--registry" then Ret (options <| po_registry_path := value |>) else
  if String.eqb name "--node-name" then Ret (options <| po_node_name := value |>) else
  if String.eqb name "--socket" then Ret (options <| po_socket_path := value |>) else
  if String.eqb name "--topic" then Ret (options <| po_topic := value |>) else
  if String.eqb name "--type-name" then Ret (options <| po_type_name := value |>) else
  if String.eqb name "--type-hash" then Ret (options <| po_type_hash := value |>) else
  if String.eqb name "--count" then count ← parseSize value; Ret (options <| po_count := count |>) else
  if String.eqb name "--size" then size ← parseSize value; Ret (options <| po_payload_size := size |>) else
  if String.eqb name "--timeout-ms" then timeout ← parseSize value; Ret (options <| po_timeout := milliseconds timeout |>) else
  if String.eqb name "--transport" then
    if String.eqb value "uds" then Ret (options <| po_transport := UnixDomainSocket |>) else
    if String.eqb value "shm" then Ret (options <| po_transport := SharedMemory |>) else Throw ex_invalid_argument
  else Throw ex_invalid_argument.

(** The loop over the arguments after the program's name. *)
Fixpoint ping_option_loop (args : list string) (options : PingOptions) : outcome PingOptions :=
  match args with
  | [] => Ret options
  | [_] => Throw ex_invalid_argument
  | name :: value :: args => options ← set_ping_option name value options; ping_option_loop args options
  end.

Definition no_text (text : string) : bool := string_size text =? 0.

Definition parseOptions (args : list string) : outcome PingOptions :=
  options ← ping_option_loop args default_ping_options;
  if no_text (po_socket_path options) then Throw ex_invalid_argument else
  if no_text (po_topic options) || no_text (po_type_name options) || no_text (po_type_hash options) then Throw ex_invalid_argument else
  if po_count options =? 0 then Throw ex_invalid_argument else
  if no_text (po_registry_path options) && bool_decide (po_transport options = SharedMemory) then Throw ex_invalid_argument else
  Ret options.

(** ** Payloads *)

Definition payloadByte (sequence offset : Z) : Z := wrap 8 (Z.land (wrap 64 (sequence + wrap 64 (offset * 31))) 0xFF).

(** The vector after the loop, which writes every element. *)
Definition fillPayload (size : nat) (sequence : Z) : list Z := map (fun offset => payloadByte sequence (Z.of_nat offset)) (seq 0 size).

(** The loop from [offset] on. *)
Fixpoint validate_from (offset : Z) (payload : list Z) (expected_sequence : Z) : bool :=
  match payload with
  | [] => true
  | byte :: payload =>
      if negb (byte =? payloadByte expected_sequence offset) then false else validate_from (offset + 1) payload expected_sequence
  end.
Definition validatePayload (payload : list Z) (expected_sequence : Z) : bool := validate_from 0 payload expected_sequence.

(** ** The programs *)

(** The process, the registry and the kernel; [pe_calls] are the answers during the calls of
    [publish], by index, and during the destruction of the publisher. *)
Record ping_env := mkPingEnv {
  pe_session : session_env;
  pe_publisher : publisher_env;
  pe_subscriber : subscriber_env;
  pe_calls : Z -> call_env;
  pe_destruction : call_env;
  pe_kernel : Kernel;
}.

Definition ping_context (env : ping_env) (program : string) (options : PingOptions) : cpp Owner unit :=
  let name := if no_text (po_node_name options) then program else po_node_name options in
  if no_text (po_registry_path options) then
    context ← lift (create_context name); modify (fun o => o <| ow_context := Some context |>)
  else make_context (pe_session env) name (mkRegistryConfig (po_registry_path options) 2000 default_liveness).

Definition ping_publisher_config (options : PingOptions) : PublisherConfig :=
  mkPublisherConfig (po_socket_path options) (Z.max kDefaultMaxMessageSize (po_payload_size options)) (po_type_name options)
    (po_type_hash options) (po_transport options) 5000 default_memory_pool.
Definition ping_subscriber_config (options : PingOptions) : SubscriberConfig :=
  mkSubscriberConfig (po_socket_path options) (Z.max kDefaultMaxMessageSize (po_payload_size options)) (po_type_name options)
    (po_type_hash options) (po_transport options) 8 DropOldest 100.

(** The loop from [index] on, for [n] more messages: [sent] and [publish_errors]. *)
Fixpoint publish_loop (calls : Z -> call_env) (size : nat) (n : nat) (index sent : Z) : cpp PubState (Z * Z) :=
  match n with
  | O => mret (sent, 0)
  | S n =>
      let expected_sequence := wrap 64 (index + 1) in
      result ← publish true (calls index) (Some (fillPayload size expected_sequence)) (Z.of_nat size);
      if negb (is_ok (pr_error result)) || negb (pr_sequence result =? expected_sequence) then mret (sent, 1) else
      publish_loop calls size n (index + 1) (sent + 1)
  end.

(** What the subscriber counts, and where the last message was. *)
Record tally := mkTally {
  ta_received : Z;
  ta_sequence_errors : Z;
  ta_payload_errors : Z;
  ta_last : Z * Z * Z * Z;
}.

Definition count_message (size expected_sequence : Z) (message : ReceivedMessage) (t : tally) : tally :=
  let bad_sequence := negb (rm_sequence message =? expected_sequence) in
  let bad_payload := negb (Z.of_nat (length (rm_payload message)) =? size) || negb (validatePayload (rm_payload message) expected_sequence) in
  mkTally (ta_received t + 1) (if bad_sequence then ta_sequence_errors t + 1 else ta_sequence_errors t)
    (if bad_payload then ta_payload_errors t + 1 else ta_payload_errors t)
    (rm_pool_id message, rm_chunk_index message, rm_chunk_generation message, rm_payload_offset message).

(** The loop from [index] on, for [n] more messages. *)
Fixpoint receive_loop (size : Z) (n : nat) (index : Z) (t : tally) : cpp SubState tally :=
  match n with
  | O => mret t
  | S n =>
      message ← waitAndTake true;
      match message with
      | None => mret t
      | Some message => receive_loop size n (index + 1) (count_message size (wrap 64 (index + 1)) message t)
      end
  end.

(** A publisher, or subscriber, of the block is used, and destroyed when the block is left, also by an
    exception. *)
Definition with_publisher {A} (destruction : call_env) (m : PublisherState.Impl) (body : cpp PubState A) : cpp Owner A := fun o =>
  let '(r, s) := body (mkPubState m (pr_world (ow_process o))) in
  (drop_publisher destruction (ps_impl s);; lift r) (o <| ow_process := ow_process o <| pr_world := ps_world s |> |>).
Definition with_subscriber {A} (kernel : Kernel) (m : SubscriberImpl) (body : cpp SubState A) : cpp Owner A := fun o =>
  let host := pr_host (ow_process o) in
  let '(r, s) := body (mkSubState m (ho_shared host) kernel (ho_files host) []) in
  (drop_subscriber (su_kernel s) (su_impl s);; lift r) (o <| ow_process := ow_process o <| pr_host := mkHost (su_shared s) (su_files s) |> |>).

(** A context of the block. *)
Definition with_context {A} (body : cpp Owner A) : cpp Owner A :=
  a ← or_cleanup body destroy_context; destroy_context;; mret a.

(** The exit status and the counts printed, if any; an exception that leaves the [try] block gives
    status 2. *)
Definition exits {A} (body : cpp Owner (Z * option A)) : cpp Owner (Z * option A) := fun o =>
  match body o with (Throw _, o') => (Ret (2, None), o') | r => r end.

Definition ping_publisher (env : ping_env) (args : list string) : cpp Owner (Z * option (Z * Z)) := exits (
  options ← lift (parseOptions args);
  if u32_max <? po_payload_size options then mret (2, None) else
  ping_context env "ping_publisher" options;;
  with_context (
    m ← createPublisher (pe_publisher env) (po_topic options) (ping_publisher_config options);
    '(sent, publish_errors) ← with_publisher (pe_destruction env) m
      (publish_loop (pe_calls env) (Z.to_nat (po_payload_size options)) (Z.to_nat (po_count options)) 0 0);
    mret (if (sent =? po_count options) && (publish_errors =? 0) then 0 else 1, Some (sent, publish_errors)))).

Definition ping_subscriber (env : ping_env) (args : list string) : cpp Owner (Z * option tally) := exits (
  options ← lift (parseOptions args);
  if u32_max <? po_payload_size options then mret (2, None) else
  ping_context env "ping_subscriber" options;;
  with_context (
    m ← createSubscriber (pe_subscriber env) (po_topic options) (ping_subscriber_config options);
    t ← with_subscriber (pe_kernel env) m
      (receive_loop (po_payload_size options) (Z.to_nat (po_count options)) 0 (mkTally 0 0 0 (0, 0, 0, 0)));
    mret (if (ta_received t =? po_count options) && (ta_sequence_errors t =? 0) && (ta_payload_errors t =? 0) then 0 else 1, Some t))).
