(* ===== verification/PingTheorems.v ===== *)
(** * Theorems about the ping examples

    The payload identifies the message up to its sequence number modulo 256; printed options are read
    back; both programs always exit and leave no context behind; and over a Unix socket the subscriber
    counts every message the publisher sent, without errors. *)

From Stdlib Require Import ZArith Lia Bool String Ascii.
From stdpp Require Import base gmap sets list strings option pretty.
From S2P Require Import Prelude Types Outcome BigEndian FrameProtocol SocketIo Decimal QueueProtocol PoolLayout MemoryPool SubscriberQueue PublisherState Publisher PublisherInvariant PublisherMethods PublisherCalls PublisherUds PublisherTheorems UnixListener SubscriberState Subscriber SubscriberInvariant SubscriberFrames SubscriberMethods SubscriberLifecycle RegistryClient RegistrySession ClientInvariant SessionTheorems SubscriberTheorems EndToEnd SubscriberStreams Context ContextTheorems BridgeTheorems BridgeCreation Ping.

Local Open Scope Z_scope.

(** ** Payloads *)

Lemma payloadByte_mod sequence offset : payloadByte sequence offset = (sequence + 31 * offset) mod 256.
Proof.
  unfold payloadByte, wrap. change 255 with (Z.ones 8). rewrite Z.land_ones by lia. change (2 ^ 8) with 256. rewrite Z.mod_mod by lia.
  assert (Hd : (256 | 2 ^ 64)) by (exists (2 ^ 56); reflexivity).
  rewrite (Z.mod_mod_divide _ (2 ^ 64)) by done. rewrite Zplus_mod.
  rewrite (Z.mod_mod_divide (offset * 31) (2 ^ 64)) by done. rewrite <- Zplus_mod. f_equal. lia.
Qed.

Lemma length_fillPayload size sequence : length (fillPayload size sequence) = size.
Proof. unfold fillPayload. by rewrite length_map, length_seq. Qed.

Lemma fillPayload_bytes size sequence : Forall is_byte (fillPayload size sequence).
Proof.
  unfold fillPayload. apply List.Forall_map, list.Forall_forall. intros offset _. rewrite payloadByte_mod. unfold is_byte, fits.
  pose proof (Z.mod_pos_bound (sequence + 31 * Z.of_nat offset) 256). lia.
Qed.

Lemma validate_spec payload sequence : forall k : nat,
  validate_from (Z.of_nat k) payload sequence = true <-> payload = map (fun offset => payloadByte sequence (Z.of_nat offset)) (seq k (length payload)).
Proof.
  induction payload as [|byte payload IH]; intros k; [done|]. simpl. destruct (Z.eqb_spec byte (payloadByte sequence (Z.of_nat k))) as [->|Hne]; simpl.
  - replace (Z.of_nat k + 1) with (Z.of_nat (S k)) by lia. rewrite IH. split; [by intros <- | by intros [= ?]].
  - split; [done|]. by intros [= ?].
Qed.

Lemma validate_fill size sequence : validatePayload (fillPayload size sequence) sequence = true.
Proof. apply (validate_spec _ _ 0). by rewrite length_fillPayload. Qed.

(** The payload check accepts exactly the payload that was filled in for the message: no changed, missing
    or reordered byte is overlooked.  Of the sequence number it sees the last eight bits. *)
Theorem ping_payload_check payload sequence sequence' :
  (validatePayload payload sequence = true <-> payload = fillPayload (length payload) sequence) /\
  (payload <> [] -> validatePayload payload sequence = true ->
     (validatePayload payload sequence' = true <-> sequence mod 256 = sequence' mod 256)).
Proof.
  assert (Hspec : forall sequence, validatePayload payload sequence = true <-> payload = fillPayload (length payload) sequence).
  { intros s. apply (validate_spec payload s 0). }
  split; [apply Hspec|]. intros Hne Hv. rewrite Hspec in Hv. rewrite Hspec. destruct payload as [|byte payload]; [done|]. split.
  - intros Hv'. rewrite Hv in Hv' at 1. unfold fillPayload in Hv'. simpl in Hv'. injection Hv' as Hb _.
    rewrite !payloadByte_mod in Hb. simpl in Hb. by rewrite !Z.add_0_r in Hb.
  - intros Hmod. rewrite Hv at 1. unfold fillPayload. apply map_ext. intros offset. rewrite !payloadByte_mod.
    rewrite Zplus_mod, Hmod. by rewrite <- Zplus_mod.
Qed.

(** ** Options *)

Inductive ping_setting :=
  | PingRegistry (path : string) | PingNode (name : string) | PingSocket (path : string) | PingTopic (topic : string)
  | PingTypeName (name : string) | PingTypeHash (hash : string) | PingCount (count : Z) | PingSize (size : Z)
  | PingTimeout (ms : Z) | PingTransport (shared_memory : bool).

Definition ping_setting_args (s : ping_setting) : list string :=
  match s with
  | PingRegistry path => ["--registry"; path] | PingNode name => ["--node-name"; name] | PingSocket path => ["--socket"; path]
  | PingTopic topic => ["--topic"; topic] | PingTypeName name => ["--type-name"; name] | PingTypeHash hash => ["--type-hash"; hash]
  | PingCount count => ["--count"; pretty count] | PingSize size => ["--size"; pretty size] | PingTimeout ms => ["--timeout-ms"; pretty ms]
  | PingTransport shm => ["--transport"; if shm then "shm" else "uds"]
  end%string.
Definition apply_ping_setting (o : PingOptions) (s : ping_setting) : PingOptions :=
  match s with
  | PingRegistry path => o <| po_registry_path := path |> | PingNode name => o <| po_node_name := name |>
  | PingSocket path => o <| po_socket_path := path |> | PingTopic topic => o <| po_topic := topic |>
  | PingTypeName name => o <| po_type_name := name |> | PingTypeHash hash => o <| po_type_hash := hash |>
  | PingCount count => o <| po_count := count |> | PingSize size => o <| po_payload_size := size |>
  | PingTimeout ms => o <| po_timeout := ms |>
  | PingTransport shm => o <| po_transport := if shm then SharedMemory else UnixDomainSocket |>
  end.
(** Numbers of the type of the option. *)
Definition ping_setting_ok (s : ping_setting) : Prop :=
  match s with PingCount n | PingSize n => fits 64 n | PingTimeout ms => 0 <= ms < 2 ^ 63 | _ => True end.

(** The options the programs accept. *)
Definition acceptable (o : PingOptions) : bool :=
  negb (no_text (po_socket_path o)) && negb (no_text (po_topic o)) && negb (no_text (po_type_name o)) && negb (no_text (po_type_hash o)) &&
  negb (po_count o =? 0) && negb (no_text (po_registry_path o) && bool_decide (po_transport o = SharedMemory)).

Lemma parseSize_pretty z : fits 64 z -> parseSize (pretty z) = Ret z.
Proof. intros Hz. unfold parseSize. by rewrite from_chars_pretty. Qed.

Lemma ping_settings_loop settings : forall options, Forall ping_setting_ok settings ->
  ping_option_loop (flat_map ping_setting_args settings) options = Ret (foldl apply_ping_setting options settings).
Proof.
  induction settings as [|s settings IH]; intros options Hs; [done|]. apply Forall_cons_1 in Hs as [H1 Hs].
  destruct s; simpl in H1 |- *; unfold set_ping_option; simpl; rewrite ?parseSize_pretty by (done || unfold fits; lia); cbn [mbind outcome_bind];
    rewrite ?IH by done; try done.
  - unfold milliseconds. by rewrite (proj2 (Z.ltb_lt _ _)) by lia.
  - by destruct shared_memory; simpl; apply IH.
Qed.

Lemma parseOptions_accepts args options : ping_option_loop args default_ping_options = Ret options ->
  parseOptions args = if acceptable options then Ret options else Throw ex_invalid_argument.
Proof.
  intros Hl. unfold parseOptions. rewrite Hl. cbn [mbind outcome_bind]. unfold acceptable.
  destruct (no_text (po_socket_path options)); [done|]. destruct (no_text (po_topic options)); [done|]. destruct (no_text (po_type_name options)); [done|].
  destruct (no_text (po_type_hash options)); [done|]. destruct (po_count options =? 0); [done|]. by destruct (_ && _).
Qed.

(** Printed options are read back, the last one of each kind counting, and accepted exactly when there
    is a socket, a topic, a type and something to send, and shared memory only with a registry. *)
Theorem ping_options_round_trip settings : Forall ping_setting_ok settings ->
  parseOptions (flat_map ping_setting_args settings) =
    let options := foldl apply_ping_setting default_ping_options settings in
    if acceptable options then Ret options else Throw ex_invalid_argument.
Proof. intros Hs. apply parseOptions_accepts. by apply ping_settings_loop. Qed.

Lemma set_ping_option_defined name value options : set_ping_option name value options <> Undef.
Proof.
  assert (Hp : parseSize value <> Undef) by (unfold parseSize; repeat case_match; done). unfold set_ping_option.
  repeat match goal with |- (if ?b then _ else _) <> _ => destruct b end; try done; by destruct (parseSize value).
Qed.

Lemma ping_option_loop_defined args options : ping_option_loop args options <> Undef.
Proof.
  revert options. induction args as [args IH] using (well_founded_induction (well_founded_ltof _ (@length string))). intros options.
  destruct args as [|o [|v args]]; [done | done |]. simpl. pose proof (set_ping_option_defined o v options) as Hd.
  destruct (set_ping_option o v options); [|done|done]. cbn [mbind outcome_bind]. apply IH. unfold ltof. simpl. lia.
Qed.

Lemma ping_parse_spec args : match parseOptions args with Ret options => acceptable options = true | Throw _ => True | Undef => False end.
Proof.
  pose proof (ping_option_loop_defined args default_ping_options) as Hd. destruct (ping_option_loop args default_ping_options) as [options|e|] eqn:Hl.
  - rewrite (parseOptions_accepts _ _ Hl). by destruct (acceptable options) eqn:?.
  - unfold parseOptions. by rewrite Hl.
  - done.
Qed.

(** ** The programs exit *)

Record ping_answers (env : ping_env) : Prop := {
  pa_links : link_ok (se_link (pe_session env)) /\ link_ok (se_heartbeat_link (pe_session env));
  pa_calls : forall index, env_answers (pe_calls env index);
  pa_destruction : env_answers (pe_destruction env);
  pa_kernel : kernel_ok (pe_kernel env);
}.

Lemma ends_exits {A} (body : cpp Owner (Z * option A)) o (Q : Z * option A -> Owner -> Prop) :
  ends body o Q (fun _ o' => Q (2, None) o') -> wp (exits body) o Q.
Proof. unfold ends, wp, exits. by destruct (body o) as [[]]. Qed.

Lemma ends_with_context {A} (body : cpp Owner A) o (Q : A -> Prop) :
  ends body o (fun a o' => Q a /\ context_ok o') (fun _ o' => context_ok o') ->
  ends (with_context body) o (fun a o' => Q a /\ ow_context o' = None) (fun _ o' => ow_context o' = None).
Proof.
  intros Hb. unfold with_context. apply ends_bind, ends_or_cleanup. eapply ends_mono; [| |exact Hb].
  - intros a o1 [Ha Ho1]. apply ends_bind. eapply wp_ends; [|by apply destroy_context_ok]. intros u o2 [Hn _]. by apply ends_ret.
  - intros e o1 Ho1. eapply wp_mono; [|by apply destroy_context_ok]. by intros u o2 [].
Qed.

Lemma ping_context_ok env program options o : ping_answers env -> program <> ""%string -> world_ok (pr_world (ow_process o)) ->
  ends (ping_context env program options) o
    (fun _ o' => owner_ok o' /\ registered o' = negb (no_text (po_registry_path options)) /\ ow_process o' = ow_process o) (fun _ o' => o' = o).
Proof.
  intros Hans Hprog Hw. unfold ping_context. destruct (no_text (po_registry_path options)); cbn [negb].
  - apply ends_bind, ends_lift.
    + unfold create_context. by destruct (_ =? 0).
    + intros c Hc. unfold ends, modify. split_and!; [split; [|done] | unfold registered; simpl | done].
      * exists c. split; [done|]. intros s Hs. unfold create_context in Hc. destruct (_ =? 0); by simplify_eq/=.
      * unfold create_context in Hc. destruct (_ =? 0); by simplify_eq/=.
    + done.
  - apply make_context_ok; [apply (pa_links _ Hans) | apply (pa_links _ Hans) | simpl; lia | done].
Qed.

(** The publisher's loop returns, whatever the subscribers do. *)
Lemma publish_loop_ok calls size n : (forall index, env_answers (calls index)) -> forall index sent s, publisher_ok [] s ->
  wp (publish_loop calls size n index sent) s (fun '(sent', errors) s' => publisher_ok [] s' /\ same_publisher s s' /\
    sent <= sent' <= sent + Z.of_nat n /\ (errors = 0 \/ errors = 1) /\ (errors = 0 -> sent' = sent + Z.of_nat n)).
Proof.
  intros Henv. induction n as [|n IH]; intros index sent s Hs; cbn [publish_loop].
  { apply wp_ret. split_and!; [done | apply same_publisher_refl | lia | lia | by left | lia]. }
  apply wp_bind. eapply wp_mono; [|apply (publish_ok []); [apply Henv | done | lia | right; simpl; rewrite length_fillPayload; lia]].
  intros r s1 [(Hok1 & Hsame1 & _) _]. destruct (_ || _).
  { apply wp_ret. split_and!; [done | done | lia | lia | by right | done]. }
  eapply wp_mono; [|by apply IH]. intros [sent' errors] s2 (Hok2 & Hsame2 & Hle & He & Hall).
  split_and!; [done | by eapply same_publisher_trans | lia | lia | done | intros H0; specialize (Hall H0); lia].
Qed.

Lemma receive_loop_ok size n : forall index t s, sub_ok s -> 0 <= max_size s ->
  wp (receive_loop size n index t) s (fun t' s' => goes s s' /\ ta_received t <= ta_received t' <= ta_received t + Z.of_nat n).
Proof.
  induction n as [|n IH]; intros index t s Hs Hmax; cbn [receive_loop].
  { apply wp_ret. split; [by apply goes_refl | lia]. }
  apply wp_bind. eapply wp_mono; [|by apply waitAndTake_ok]. intros [m|] s1 [Hg1 _]; [|by apply wp_ret; split; [|lia]].
  eapply wp_mono; [|apply IH; [by eapply goes_ok | unfold max_size in *; by rewrite (mo_config _ _ (proj1 Hg1))]].
  intros t' s2 [Hg2 Hr]. simpl in Hr. split; [by eapply goes_trans | lia].
Qed.

(** The exit status tells whether everything was sent, or received without errors. *)
Definition published_all (count : Z) (r : Z * option (Z * Z)) : Prop :=
  match r with
  | (status, Some (sent, errors)) => (status = 0 \/ status = 1) /\ 0 <= sent <= count /\ (status = 0 <-> sent = count /\ errors = 0)
  | (status, None) => status = 2
  end.
Definition received_all (count : Z) (r : Z * option tally) : Prop :=
  match r with
  | (status, Some t) => (status = 0 \/ status = 1) /\ 0 <= ta_received t <= count /\
      (status = 0 <-> ta_received t = count /\ ta_sequence_errors t = 0 /\ ta_payload_errors t = 0)
  | (status, None) => status = 2
  end.
Definition count_of (args : list string) : Z := match parseOptions args with Ret options => po_count options | _ => 0 end.

Lemma parseSize_fits value n : parseSize value = Ret n -> fits 64 n.
Proof.
  unfold parseSize, from_chars. destruct (negb _); [done|]. pose proof (scan_nonneg value 0 ltac:(lia)) as Hnn.
  destruct (scan_digits 0 value) as [v rest]. destruct (v <? 2 ^ 64) eqn:Hv; [|done]. destruct rest; [|done]. intros [= <-]. bools. simpl in Hnn. unfold fits. lia.
Qed.

Lemma set_ping_option_fits name value o o' : set_ping_option name value o = Ret o' -> 0 <= po_count o /\ 0 <= po_payload_size o ->
  0 <= po_count o' /\ 0 <= po_payload_size o'.
Proof.
  intros Hs [Hc Hp]. pose proof (parseSize_fits value) as Hfit. unfold set_ping_option in Hs.
  repeat match type of Hs with (if ?b then _ else _) = _ => destruct b end; try (by simplify_eq/=);
    (destruct (parseSize value) as [n|e|]; [|done|done]; specialize (Hfit n eq_refl); unfold fits in Hfit; simplify_eq/=; lia).
Qed.

Lemma option_loop_fits args : forall o o', ping_option_loop args o = Ret o' -> 0 <= po_count o /\ 0 <= po_payload_size o -> 0 <= po_count o' /\ 0 <= po_payload_size o'.
Proof.
  induction args as [args IH] using (well_founded_induction (well_founded_ltof _ (@length string))). intros o o' Hl H0.
  destruct args as [|name [|value args]]; [by simplify_eq/= | done |]. simpl in Hl. destruct (set_ping_option name value o) as [o1|e|] eqn:Hs; [|done|done].
  cbn [mbind outcome_bind] in Hl. eapply (IH args); [unfold ltof; simpl; lia | exact Hl |]. by eapply set_ping_option_fits.
Qed.

Lemma ping_parse_fits args options : parseOptions args = Ret options -> 0 <= po_count options /\ 0 <= po_payload_size options.
Proof.
  intros Hp. destruct (ping_option_loop args default_ping_options) as [o|e|] eqn:Hl.
  - rewrite (parseOptions_accepts _ _ Hl) in Hp. destruct (acceptable o); [|done]. simplify_eq. eapply option_loop_fits; [exact Hl|]. simpl. lia.
  - unfold parseOptions in Hp. by rewrite Hl in Hp.
  - unfold parseOptions in Hp. by rewrite Hl in Hp.
Qed.

(** A publisher of the block. *)
Lemma ends_with_publisher {A} destruction m (body : cpp PubState A) o (Q : A -> Prop) : env_answers destruction -> context_ok o ->
  (im_registry_session m = true -> registered o = true) ->
  wp body (mkPubState m (pr_world (ow_process o))) (fun a s' => publisher_ok [] s' /\ im_registry_session (ps_impl s') = im_registry_session m /\ Q a) ->
  ends (with_publisher destruction m body) o (fun a o' => Q a /\ context_ok o') (fun _ o' => context_ok o').
Proof.
  intros Henv Ho Hr Hb. apply wp_run in Hb as (a & s & Hrun & Hok & Hses & Ha). unfold ends, with_publisher. rewrite Hrun.
  set (o1 := o <| ow_process := _ |>).
  pose proof (drop_publisher_ok destruction (ps_impl s) o1 Henv Ho ltac:(rewrite Hses; exact Hr)) as Hd.
  assert (Hs : mkPubState (ps_impl s) (pr_world (ow_process o1)) = s) by (by destruct s). rewrite Hs in Hd. specialize (Hd Hok).
  apply wp_run in Hd as (u & o2 & Hd & Ho2 & _). unfold mbind, cpp_bind. rewrite Hd. by unfold lift.
Qed.

Lemma ends_with_subscriber {A} kernel m (body : cpp SubState A) o (Q : A -> Prop) : context_ok o ->
  (si_registry_session m = true -> registered o = true) ->
  wp body (mkSubState m (ho_shared (pr_host (ow_process o))) kernel (ho_files (pr_host (ow_process o))) [])
    (fun a s' => sub_ok s' /\ si_registry_session (su_impl s') = si_registry_session m /\ su_unsubscribed s' = [] /\ Q a) ->
  ends (with_subscriber kernel m body) o (fun a o' => Q a /\ context_ok o') (fun _ o' => context_ok o').
Proof.
  intros Ho Hr Hb. apply wp_run in Hb as (a & s & Hrun & Hok & Hses & Htold & Ha). unfold ends, with_subscriber. rewrite Hrun.
  set (o1 := o <| ow_process := _ |>).
  assert (Hs : mkSubState (su_impl s) (ho_shared (pr_host (ow_process o1))) (su_kernel s) (ho_files (pr_host (ow_process o1))) [] = s)
    by (destruct s; simpl in *; by subst).
  pose proof (drop_subscriber_ok (su_kernel s) (su_impl s) o1) as Hd. rewrite Hs in Hd. specialize (Hd Hok Ho ltac:(rewrite Hses; exact Hr)).
  apply wp_run in Hd as (u & o2 & Hd & Ho2 & _). unfold mbind, cpp_bind. rewrite Hd. by unfold lift.
Qed.

Lemma direct_subscriber_session env topic config o m o' : registered o = false ->
  createSubscriber env topic config o = (Ret m, o') -> si_registry_session m = false.
Proof.
  unfold registered, createSubscriber, mbind at 1, cpp_bind at 1, this. destruct (ow_context o) as [[name [s|]]|]; [done| |done]. intros _.
  destruct (_ =? 0); [done|]. unfold on_host, create_direct_subscriber, lift. cbn [cx_session]. unfold_cpp.
  destruct (Subscriber.validateConfig config false) as [[]|e|]; [|done|done]. destruct (on_files _ _) as [[l|e|] h]; [|done|done]. by intros [= <- _].
Qed.

Lemma ping_publisher_ok env args o : ping_answers env -> ow_context o = None -> world_ok (pr_world (ow_process o)) ->
  wp (ping_publisher env args) o (fun r o' => published_all (count_of args) r /\ ow_context o' = None).
Proof.
  intros Hans Hnull Hw. unfold ping_publisher. apply ends_exits, ends_bind, ends_lift.
  { intros Hu. pose proof (ping_parse_spec args) as Hp. by rewrite Hu in Hp. }
  2: { intros e _. by split. }
  intros options Hopt. destruct (ping_parse_fits _ _ Hopt) as [Hcount Hsize]. unfold count_of. rewrite Hopt. destruct (_ <? _); [apply ends_ret; by split|].
  apply ends_bind. eapply ends_mono; [| |apply ping_context_ok; [done | done | done]]; [|by intros e o1 ->].
  intros u o1 (Ho1 & _ & _). eapply ends_mono; [| |apply (ends_with_context _ _ (published_all (po_count options)))]; [done | by intros e o2 Ho2; split |].
  apply ends_bind.
  pose proof (createPublisher_ok (pe_publisher env) (po_topic options) (ping_publisher_config options) o1 Ho1 default_pool_typed) as Hmade. unfold ends at 1.
  destruct (createPublisher _ _ _ _) as [[m|e|] o2]; [|apply Hmade|tauto]. destruct Hmade as (Ho2 & Hr2 & Hw2 & _ & [Hpub Hses _ _] & _).
  rewrite <- Hw2 in Hpub. apply ends_bind. eapply ends_mono; [| |apply (ends_with_publisher _ _ _ _ (fun '(sent, errors) => 0 <= sent <= po_count options /\
      (errors = 0 \/ errors = 1) /\ (errors = 0 -> sent = po_count options)))]; [ | done | apply (pa_destruction _ Hans) | apply Ho2 | |].
  - intros [sent errors] o3 ((Hle & He & Hall) & Ho3). apply ends_ret. split; [|done]. simpl.
    destruct (Z.eqb_spec sent (po_count options)), (Z.eqb_spec errors 0); cbn [andb]; split_and!; auto; try lia; split; try lia; done.
  - rewrite Hses, Hr2. by destruct (registered o1).
  - eapply wp_mono; [|apply publish_loop_ok; [apply (pa_calls _ Hans) | done]]. intros [sent errors] s (Hok & Hsame & Hle & He & Hall).
    split_and!; [done | apply Hsame | lia | lia | done | intros H0; specialize (Hall H0); lia].
Qed.

Lemma ping_subscriber_ok env args o : ping_answers env -> ow_context o = None -> world_ok (pr_world (ow_process o)) ->
  shared_ok (ho_shared (pr_host (ow_process o))) ->
  match la_socket (sv_listen (pe_subscriber env)) with inl fd => 0 <= fd /\ fd ∉ sf_fds (ho_files (pr_host (ow_process o))) | inr _ => True end ->
  wp (ping_subscriber env args) o (fun r o' => received_all (count_of args) r /\ ow_context o' = None).
Proof.
  intros Hans Hnull Hw Hsh Hfd. unfold ping_subscriber. apply ends_exits, ends_bind, ends_lift.
  { intros Hu. pose proof (ping_parse_spec args) as Hp. by rewrite Hu in Hp. }
  2: { intros e _. by split. }
  intros options Hopt. destruct (ping_parse_fits _ _ Hopt) as [Hcount Hsize]. unfold count_of. rewrite Hopt. destruct (_ <? _); [apply ends_ret; by split|].
  apply ends_bind. eapply ends_mono; [| |apply ping_context_ok; [done | done | done]]; [|by intros e o1 ->].
  intros u o1 (Ho1 & _ & Hp1). eapply ends_mono; [| |apply (ends_with_context _ _ (received_all (po_count options)))]; [done | by intros e o2 Ho2; split |].
  apply ends_bind. rewrite <- Hp1 in Hfd, Hsh.
  pose proof (createSubscriber_ok (pe_subscriber env) (po_topic options) (ping_subscriber_config options) o1 Ho1 ltac:(simpl; lia) Hfd) as Hmade. unfold ends at 1.
  pose proof (direct_subscriber_session (pe_subscriber env) (po_topic options) (ping_subscriber_config options) o1) as Hdirect.
  destruct (createSubscriber _ _ _ _) as [[m|e|] o2]; [|apply Hmade|tauto]. destruct Hmade as (Ho2 & Hr2 & Hm).
  pose proof (ma_ok _ _ _ _ Hm (pe_kernel env) (ho_files (pr_host (ow_process o2))) [] Hsh (pa_kernel _ Hans)) as Hsub. destruct Hm as [Hc _ _ _].
  apply ends_bind. eapply ends_mono; [| |apply (ends_with_subscriber _ _ _ _ (fun t => 0 <= ta_received t <= po_count options))]; [ | done | apply Ho2 | |].
  - intros t o3 (Hle & Ho3). apply ends_ret. split; [|done]. simpl.
    destruct (Z.eqb_spec (ta_received t) (po_count options)), (Z.eqb_spec (ta_sequence_errors t) 0), (Z.eqb_spec (ta_payload_errors t) 0); cbn [andb];
      split_and!; auto; try lia; split; try lia; done.
  - intros Hs. rewrite Hr2. destruct (registered o1) eqn:Hr; [done|]. by rewrite (Hdirect m o2) in Hs.
  - assert (Hmax : 0 <= max_size (mkSubState m (ho_shared (pr_host (ow_process o2))) (pe_kernel env) (ho_files (pr_host (ow_process o2))) [])).
    { unfold max_size. simpl. rewrite Hc. simpl. unfold kDefaultMaxMessageSize. lia. }
    eapply wp_mono; [|by apply receive_loop_ok]. intros t s [Hg Hle]. simpl in Hle.
    pose proof (mo_identity _ _ (proj1 Hg)) as Hid. unfold identity in Hid. injection Hid as _ Hses _ _. destruct (mo_host _ _ (proj1 Hg)) as [_ Htold].
    split_and!; [by eapply goes_ok | done | done | lia | lia].
Qed.

(** The ping programs always exit.  Whatever their arguments are and whatever the registry, the kernel and
    the peers do, each returns 0, 1 or 2 and ends its session: 2 when the options were refused or an
    exception was thrown, 0 exactly when every message was sent, or received in order and intact. *)
Theorem ping_programs_exit env args o : ping_answers env -> ow_context o = None -> world_ok (pr_world (ow_process o)) ->
  shared_ok (ho_shared (pr_host (ow_process o))) ->
  match la_socket (sv_listen (pe_subscriber env)) with inl fd => 0 <= fd /\ fd ∉ sf_fds (ho_files (pr_host (ow_process o))) | inr _ => True end ->
  (exists r o', ping_publisher env args o = (Ret r, o') /\ published_all (count_of args) r /\ ow_context o' = None) /\
  (exists r o', ping_subscriber env args o = (Ret r, o') /\ received_all (count_of args) r /\ ow_context o' = None).
Proof.
  intros Hans Hnull Hw Hsh Hfd. split; apply wp_run; [by apply ping_publisher_ok | by apply ping_subscriber_ok].
Qed.

(** ** Over a Unix socket *)

(** The messages of the loop from [index] on. *)
Fixpoint ping_messages (calls : Z -> call_env) (size : nat) (index : Z) (n : nat) : list sent_message :=
  match n with
  | O => []
  | S n => mkSentMessage (index + 1) (ce_timestamp_ns (calls index)) (fillPayload size (index + 1)) :: ping_messages calls size (index + 1) n
  end.

Lemma length_ping_messages calls size n : forall index, length (ping_messages calls size index n) = n.
Proof. induction n as [|n IH]; intros index; [done|]. simpl. by rewrite IH. Qed.

(** The answers of calls with no subscriber reported dead. *)
Definition calm_calls (calls : Z -> call_env) : Prop := forall index, ce_events (calls index) = Ret [] /\ fits 64 (ce_timestamp_ns (calls index)).

Lemma publish_loop_sends c calls size n : calm_calls calls -> forall index sent s, uds_link c s ->
  im_sequence (ps_impl s) = index -> takes (Z.of_nat n) (fillPayload size 0) s ->
  wp (publish_loop calls size n index sent) s (fun r s' => r = (sent + Z.of_nat n, 0) /\ uds_link c s' /\
    so_sent (socket_of (ps_world s') (dc_socket c)) = so_sent (socket_of (ps_world s) (dc_socket c)) ++ flat_map sent_frame (ping_messages calls size index n)).
Proof.
  intros Hcalm. induction n as [|n IH]; intros index sent s Hl Hseq Hroom; cbn [publish_loop].
  { apply wp_ret. split_and!; [f_equal; lia | done |]. simpl. by rewrite app_nil_r. }
  unfold takes in Hroom. rewrite length_fillPayload, Hseq in Hroom. rewrite (wrap_small 64) by ulia.
  apply wp_bind. pose proof (publish_run (calls index) c (fillPayload size (index + 1)) s Hl (proj1 (Hcalm index))) as Hp. rewrite length_fillPayload in Hp.
  eapply wp_mono; [|apply Hp; unfold takes; rewrite length_fillPayload; lia]. intros r s1 (Hok & Hsr & [Hl1 Hs1 Hq1 Hc1 Hn1]).
  rewrite Hok, Hsr, Hseq, Z.eqb_refl. cbn [is_ok negb orb]. simpl in Hq1. rewrite Hseq in Hq1.
  eapply wp_mono; [|apply (IH (index + 1) (sent + 1) s1); [done | done | unfold takes; rewrite length_fillPayload, Hc1, Hn1, Hq1; lia]].
  intros r2 s2 (-> & Hl2 & Hs2). split_and!; [f_equal; lia | done |]. rewrite Hs2, Hs1, Hseq. simpl. by rewrite <- app_assoc.
Qed.

Lemma ping_messages_sendable max calls size n : calm_calls calls -> Z.of_nat size <= max -> Z.of_nat size <= u32_max ->
  forall index, 0 <= index -> index + Z.of_nat n <= u64_max -> Forall (sendable max) (ping_messages calls size index n).
Proof.
  intros Hcalm Hm Hu. induction n as [|n IH]; intros index Hi Hn; [constructor|]. constructor; [|apply IH; lia].
  unfold sendable. cbn [sm_sequence sm_timestamp sm_payload]. rewrite length_fillPayload. split_and!; [ulia | apply Hcalm | done | done].
Qed.

Lemma receive_loop_counts fd rest calls size n : calm_calls calls -> forall index t chunks polls s, connected fd chunks polls s ->
  (length chunks + n <= polls)%nat -> Z.of_nat size <= max_size s -> Z.of_nat size <= u32_max -> 0 <= index -> index + Z.of_nat n <= u64_max ->
  coming chunks s = flat_map sent_frame (ping_messages calls size index n) ++ rest ->
  wp (receive_loop (Z.of_nat size) n index t) s (fun t' s' => ta_received t' = ta_received t + Z.of_nat n /\
    ta_sequence_errors t' = ta_sequence_errors t /\ ta_payload_errors t' = ta_payload_errors t /\
    exists chunks' polls', connected fd chunks' polls' s' /\ coming chunks' s' = rest).
Proof.
  intros Hcalm. induction n as [|n IH]; intros index t chunks polls s Hcn Hlen Hmax Hu Hi Hn Hbytes; cbn [receive_loop].
  { apply wp_ret. split_and!; [lia | done | done | by exists chunks, polls]. }
  pose proof (ping_messages_sendable (max_size s) calls size (S n) Hcalm Hmax Hu index Hi ltac:(lia)) as Hsend. simpl in Hsend.
  apply Forall_cons_1 in Hsend as [Hsend _]. destruct Hsend as (Hs & Ht & Hm & Hu').
  apply wp_bind. eapply wp_mono; [|apply (wait_takes fd chunks polls (as_received (mkSentMessage (index + 1) (ce_timestamp_ns (calls index)) (fillPayload size (index + 1))))
    (flat_map sent_frame (ping_messages calls size (index + 1) n) ++ rest)); [done | lia |]].
  - intros r s1 (-> & _ & _ & Hmax1 & chunks1 & polls1 & Hcn1 & Hco1 & Hle). rewrite (wrap_small 64) by ulia.
    eapply wp_mono; [|apply (IH (index + 1) _ chunks1 polls1 s1); [done | lia | by rewrite Hmax1 | done | lia | lia | done]].
    intros t' s2 (Hr & Hse & Hpe & Hrest). unfold count_message, as_received in Hr, Hse, Hpe.
    cbn [ta_received ta_sequence_errors ta_payload_errors rm_sequence rm_payload sm_sequence sm_payload] in Hr, Hse, Hpe.
    rewrite Z.eqb_refl in Hse. rewrite length_fillPayload, Z.eqb_refl, validate_fill in Hpe. split_and!; [lia | done | done | done].
  - rewrite Hbytes. simpl. unfold sent_frame at 1. rewrite <- (app_assoc (_ ++ _)). by apply parse_published.
Qed.

(** C13: A ping goes through.  When the publisher's loop starts on a connected Unix socket with its first
    sequence number, it sends every message without an error; and a subscriber that receives the bytes
    it has put on the socket, in any fragmentation, counts as many messages, none of them out of
    order or with a wrong payload, and leaves what follows on the stream. *)
Theorem ping_goes_through c calls size n s : calm_calls calls -> uds_link c s -> im_sequence (ps_impl s) = 0 ->
  takes (Z.of_nat n) (fillPayload size 0) s ->
  exists s', publish_loop calls size n 0 0 s = (Ret (Z.of_nat n, 0), s') /\
    forall fd chunks polls rest r, connected fd chunks polls r -> (length chunks + n <= polls)%nat -> Z.of_nat size <= max_size r ->
      coming chunks r = newly_sent (so_sent (socket_of (ps_world s) (dc_socket c))) (so_sent (socket_of (ps_world s') (dc_socket c))) ++ rest ->
      exists t r', receive_loop (Z.of_nat size) n 0 (mkTally 0 0 0 (0, 0, 0, 0)) r = (Ret t, r') /\
        ta_received t = Z.of_nat n /\ ta_sequence_errors t = 0 /\ ta_payload_errors t = 0 /\
        exists chunks' polls', connected fd chunks' polls' r' /\ coming chunks' r' = rest.
Proof.
  intros Hcalm Hl Hseq Hroom. pose proof (publish_loop_sends c calls size n Hcalm 0 0 s Hl Hseq Hroom) as Hwp.
  apply wp_run in Hwp as (r & s' & Hrun & -> & _ & Hsent). exists s'. split; [done|]. intros fd chunks polls rest r Hcn Hlen Hmax Hbytes.
  rewrite Hsent in Hbytes. unfold newly_sent in Hbytes. rewrite drop_app_length in Hbytes.
  unfold takes in Hroom. rewrite length_fillPayload, Hseq in Hroom.
  pose proof (receive_loop_counts fd rest calls size n Hcalm 0 (mkTally 0 0 0 (0, 0, 0, 0)) chunks polls r Hcn Hlen Hmax ltac:(lia) ltac:(lia) ltac:(lia) Hbytes) as Hwp.
  apply wp_run in Hwp as (t & r' & Hrecv & Hr & Hse & Hpe & Hrest). simpl in Hr, Hse, Hpe. exists t, r'. split_and!; [done | lia | done | done | done].
Qed.

(** ** Concrete pings *)

Lemma ping_payload_check_witness : validatePayload (fillPayload 3 7) 7 = true /\ validatePayload (fillPayload 3 7) 263 = true /\ validatePayload [7; 38; 70] 7 = false.
Proof.
  destruct (ping_payload_check (fillPayload 3 7) 7 263) as [Hspec Hmod].
  assert (Hv : validatePayload (fillPayload 3 7) 7 = true) by (apply Hspec; reflexivity).
  split; [exact Hv|]. split; [by apply Hmod|]. apply not_true_iff_false. rewrite (proj1 (ping_payload_check [7; 38; 70] 7 7)). vm_compute. discriminate.
Defined.

Lemma ping_options_round_trip_witness :
  parseOptions ["--count"; "3"; "--size"; "16"; "--timeout-ms"; "250"; "--topic"; "/t"]%string =
  Ret (mkPingOptions "" "" "/tmp/cpp_robot_middleware_ping.sock" "/t" "mw.examples.Ping" "mw.examples.Ping.v1" 3 16 250 UnixDomainSocket).
Proof.
  apply (ping_options_round_trip [PingCount 3; PingSize 16; PingTimeout 250; PingTopic "/t"]). repeat constructor; unfold fits; lia.
Defined.

Definition example_ping_env : ping_env :=
  mkPingEnv (mkSessionEnv (mkConnectAnswer (inl 7) None) (quiet_link []) (mkConnectAnswer (inl 8) None) (quiet_link []) None)
    (mkPublisherEnv 42 (mkConnectAnswer (inl 9) None) None) example_subscriber_env (fun _ => example_env) example_env (quiet_answers [] []).

(** Nobody connects to the subscriber, and the registry does not answer the publisher. *)
Lemma ping_programs_exit_witness :
  (exists o', ping_publisher example_ping_env ["--registry"; "/run/mw"]%string new_owner = (Ret (2, None), o') /\ ow_context o' = None) /\
  (exists o', ping_subscriber example_ping_env ["--count"; "2"]%string new_owner = (Ret (1, Some (mkTally 0 0 0 (0, 0, 0, 0))), o') /\ ow_context o' = None).
Proof.
  assert (Hans : ping_answers example_ping_env).
  { split; [split; by apply quiet_link_ok | intros index; exact example_env_answers | exact example_env_answers | by apply quiet_answers_ok]. }
  assert (Hsh : shared_ok (ho_shared (pr_host (ow_process new_owner)))) by (split; [intros fd; by apply list.Forall_nil | intros o r Hl; simpl in Hl; by rewrite lookup_empty in Hl]).
  assert (Hfd : 0 <= 3 /\ 3 ∉ sf_fds (ho_files (pr_host (ow_process new_owner)))) by (split; [lia|]; vm_compute; discriminate).
  split.
  - destruct (ping_programs_exit example_ping_env ["--registry"; "/run/mw"]%string new_owner Hans eq_refl example_world_ok Hsh Hfd) as [(r & o' & Hrun & _ & Hnull) _].
    exists o'. split; [|exact Hnull]. rewrite Hrun.
    assert (Hr : match ping_publisher example_ping_env ["--registry"; "/run/mw"]%string new_owner with (Ret r, _) => r | _ => (0, None) end = (2, None)) by (vm_compute; reflexivity).
    rewrite Hrun in Hr. by rewrite Hr.
  - destruct (ping_programs_exit example_ping_env ["--count"; "2"]%string new_owner Hans eq_refl example_world_ok Hsh Hfd) as [_ (r & o' & Hrun & _ & Hnull)].
    exists o'. split; [|exact Hnull]. rewrite Hrun.
    assert (Hr : match ping_subscriber example_ping_env ["--count"; "2"]%string new_owner with (Ret r, _) => r | _ => (0, None) end = (1, Some (mkTally 0 0 0 (0, 0, 0, 0)))) by (vm_compute; reflexivity).
    rewrite Hrun in Hr. by rewrite Hr.
Defined.

Definition pinging_publisher : PubState :=
  mkPubState (mkImpl "/ping" (mkPublisherConfig "" 64 "t" "h" UnixDomainSocket 5000 default_memory_pool)
    [empty_connection <| dc_socket := 7 |> <| dc_max_message_size := 64 |>] false None 0 0 64 0 ∅ 0 false) (mkWorld ∅ ∅ []).
Definition pinging_connection : DataConnection := empty_connection <| dc_socket := 7 |> <| dc_max_message_size := 64 |>.
Definition ping_calls (index : Z) : call_env := example_env.

Definition ping_stream : list Z := so_sent (socket_of (ps_world (publish_loop ping_calls 5 2 0 0 pinging_publisher).2) 7).
Definition ping_chunks : list (list incoming) := [[InData (take 9 ping_stream); InError EINTR]; [InData (drop 9 ping_stream ++ [77])]].
Definition pinged_subscriber : SubState := SubscriberStreams.example_subscriber (SubscriberStreams.example_kernel ping_chunks 4).

Lemma ping_pieces : Forall (Forall piece_ok) ping_chunks.
Proof.
  assert (Hb : forall l, all_bytes l = true -> l <> [] -> piece_ok (InData l)) by (intros l Hl Hn; split; [done | by apply all_bytes_spec]).
  repeat (apply list.Forall_cons; split); try apply list.Forall_nil; try (apply Hb; [vm_compute; reflexivity | vm_compute; discriminate]); done.
Qed.

Lemma pinged_connected : connected 7 ping_chunks 4 pinged_subscriber.
Proof.
  split; try done; try apply SubscriberStreams.example_frame; try apply SubscriberStreams.example_flowing; try apply ping_pieces.
  apply SubscriberStreams.example_core. split; [|done]. cbn [kn_others SubscriberStreams.example_kernel]. apply Forall_fmap.
  eapply list.Forall_impl; [apply ping_pieces|]. intros pieces. apply deliver_ok.
Qed.

Lemma ping_goes_through_witness : exists s' t r', publish_loop ping_calls 5 2 0 0 pinging_publisher = (Ret (2, 0), s') /\
  receive_loop 5 2 0 (mkTally 0 0 0 (0, 0, 0, 0)) pinged_subscriber = (Ret t, r') /\
  ta_received t = 2 /\ ta_sequence_errors t = 0 /\ ta_payload_errors t = 0.
Proof.
  destruct (ping_goes_through pinging_connection ping_calls 5 2 pinging_publisher) as (s' & Hrun & Hrecv).
  - intros index. split; [reflexivity|]. vm_compute. intuition discriminate.
  - split; [reflexivity | reflexivity | reflexivity | discriminate | reflexivity].
  - reflexivity.
  - vm_compute. intuition discriminate.
  - assert (Hs : s' = (publish_loop ping_calls 5 2 0 0 pinging_publisher).2) by exact (f_equal snd (eq_sym Hrun)).
    destruct (Hrecv 7 ping_chunks 4%nat [77] pinged_subscriber) as (t & r' & Hr & H1 & H2 & H3 & _).
    + exact pinged_connected.
    + vm_compute. lia.
    + vm_compute. discriminate.
    + rewrite Hs. vm_compute. reflexivity.
    + exists s', t, r'. split_and!; [exact Hrun | exact Hr | exact H1 | exact H2 | exact H3].
Defined.
